(* ===== verification/_CoqProject ===== *)
-Q . S2P
Prelude.v
TraceBuffer.v
TraceThreads.v
TraceQueue.v
TraceClaim.v
TraceFile.v
TraceReader.v
TraceControl.v
PluginCore.v
PluginLoader.v
PluginApi.v
Pqii.v
SoftTlb.v
SoftMmu.v
SoftMmuBytes.v
SoftMmuLinks.v
SoftMmuSpec.v
X86Walk.v
X86WalkSpec.v
X86Tables.v
X86Guest.v
Tracer.v
EndToEnd.v
PluginGen.v
Translator.v
SimUtil.v
SimQueue.v
SimVmem.v
SimRepl.v
SimLru.v
SimRrip.v
SimCache.v
SimCacheSpec.v
SimCacheStep.v
SimCacheRun.v
SimDram.v
SimDramSpec.v
SimMemory.v
SimSystem.v
SimBranch.v
SimPerceptron.v
SimBtb.v
SimCpu.v
SimRob.v
SimSched.v
SimCpuFrame.v
SimCpuSched.v
SimCpuSpec.v
SimMain.v
SimCpuSmall.v
SimPtw.v
SimPtwSpec.v
SimPtwSmall.v
SimPrefetch.v
SimSpp.v
SimSppSpec.v
SimSppRun.v
SimAmpm.v
SimPrefetchSmall.v
