(* ===== verification/Prelude.v ===== *)
(** * MindPalace: from an executing guest to a simulated one

    MindPalace is a QEMU that records what a guest executes and a ChampSim that
    simulates the recording.  The parts and how they interact:

    - the translator turns guest code into blocks of operations and asks the
      plugins what to instrument; the requests become calls in the block;
    - the tracer plugin asks to be called at every instruction and access, and
      traces them between two marker instructions, with the physical addresses
      it finds in the software TLB;
    - a trace event claims a range of a ring buffer, fills it and marks it
      valid; a writeout thread moves valid records to the trace file;
    - users switch events and files on and off; a device shares the tracing
      switch with the guest;
    - ChampSim's main loop reads the file, through a reader that decodes it into
      instructions, into an out-of-order core; branch predictors steer the
      reading, and the core's accesses go through a hierarchy of caches to a
      model of DRAM; a page-table walker fetches the translations that miss.

    ** The files

    - [Prelude]: machine integers, little-endian bytes, [cres], results of code
      that may fail an assertion or dereference a bad pointer, record update and
      loops with binary fuel.
    - [TraceBuffer], [Module Ring]: the ring of qemu/trace/simple.c, by byte, and
      the event functions scripts/tracetool/backend/simple.py generates.
    - [TraceThreads], [Module Threads]: any number of tracing threads and the
      writeout thread, as a step relation: a step is one turn of a loop over the
      bytes of the ring, or a statement between two loops.
    - [TraceQueue], [Module Queue]: the invariant of that system, the ring as a queue
      of records, and what it implies for the trace file.
    - [TraceClaim], [Module Claiming]: the compare-and-exchange loop of
      [trace_record_start], turn by turn.
    - [TraceFile], [Module File]: the trace file, plain and gzip.
    - [TraceReader], [Module Reader]: champsim/src/tracereader.cc.
    - [TraceControl], [Module Control]: trace/control.c, control-target.c, qmp.c.
    - [PluginCore]: plugins/core.c; [PluginLoader]: plugins/loader.c;
      [PluginApi]: the records of a block and plugins/api.c.
    - [Pqii]: the device hw/misc/pqii.c.
    - [SoftTlb]: the TLB of accel/tcg/cputlb.c, of one vCPU; [SoftMmu]: the load and
      store helpers of the same file, with the bytes of accesses in [SoftMmuBytes],
      the entries of the TLB in [SoftMmuLinks] and, over the class [GuestWalk] of page
      walks, what they do in [SoftMmuSpec].
    - [X86Walk]: the page walk of target/i386/excp_helper.c and that of the debugger in
      helper.c; [X86WalkSpec]: that they are walks of a radix tree, over the class
      [TableMemory]; [X86Tables]: tables in host memory; [X86Guest]: the walk as a
      [GuestWalk], and the memory a guest of x86 sees.
    - [Tracer]: the plugin tests/plugin/cache_test.c and its trace points.
    - [EndToEnd]: the plugin, the ring, the file and the reader together.
    - [PluginGen]: accel/tcg/plugin-gen.c; [Translator]: accel/tcg/translator.c,
      exec/gen-icount.h and the hooks of plugin-gen.c around the loop.
    - [SimUtil]: inc/util.h, block.h and memory_class.h of ChampSim; [SimQueue]:
      circular_buffer.hpp and delay_queue.hpp; [SimVmem]: src/vmem.cc.
    - [SimRepl]: the policies under replacement/ and the class [Replacement] a
      cache uses them through; [SimLru] and [SimRrip] say what they do.
    - [SimCache]: src/cache.cc over the classes [Replacement], [Prefetcher] and
      [LowerLevel]; [SimCacheSpec]: its invariant and the contract of a level,
      [SimCacheStep] and [SimCacheRun]: that every operation keeps to them.
    - [SimDram]: src/dram_controller.cc; [SimDramSpec] and [SimMemory]: its
      invariant and that it keeps the contract.
    - [SimSystem]: a cache as the level below another, cycles of a cache and of a
      cache over the controller.
    - [SimBranch]: the class [BranchPredictor], branch/bimodal and branch/gshare;
      [SimPerceptron]: branch/perceptron and branch/hashed_perceptron; [SimBtb]:
      btb/basic_btb.
    - [SimCpu], [Module Cpu]: every stage of src/ooo_cpu.cc, over the classes
      [BranchPredictor], [TargetBuffer] and [Memory].
    - [SimRob]: rings seen as lists with their positions; [SimSched]: the
      invariant of the scheduler on such lists; [SimCpuFrame], [SimCpuSched] and
      [SimCpuSpec]: what each stage changes, and the invariant of the core.
    - [SimMain]: the loop of src/main.cc for one core; [SimCpuSmall]: a small core
      that runs, on which the theorems are evaluated.
    - [SimPtw], [Module Ptw]: src/ptw.cc over the class [LowerLevel];
      [SimPtwSpec]: its invariant, the measure of its walks and what it answers;
      [SimPtwSmall]: a walker over the memory controller that runs.
    - [SimPrefetch]: lines asked for by whatever prefetcher, prefetcher/next_line
      and prefetcher/ip_stride; [SimAmpm]: prefetcher/va_ampm_lite; [SimSpp]:
      prefetcher/spp_dev, with the invariants of its tables in [SimSppSpec] and its
      operation in [SimSppRun]; [SimPrefetchSmall]: each on a cache that runs.

    State is a record per component and is passed explicitly; definitions have
    the names of the functions they model.  Pointers are integers into explicit
    stores where aliasing or lifetime matters.

    ** What the theorems show

    - [EndToEnd]: the instructions ChampSim decodes from the file of a traced
      region are those the guest executed, in order, with their first access and
      branch outcome, but for the last two, however the threads are interleaved in
      the executions of the next item; a traced access carries the physical page in force.
    - Ring and threads: in executions in which no record is cleared while its
      header is still being stored ([timely]), the file is a prefix of the claimed
      records, complete when nothing is in flight, and claims never exceed the ring.
      The code does not rule the other executions out: [trace_record_finish] stores the
      byte with the valid flag before the rest of the header, and in one of them
      bytes stored late stay in the ring ([late_header_stays]).  The claim loop
      implements the atomic claim.
    - File and reader: a closed plain file and an inflated gzip file hold header,
      mappings and every record; reading inverts writing, against a specification
      of decoding that does not use the reader's code.
    - Translator and generator: for every architecture and plugin that keep to
      the interface, translation returns and the final code is the guest code, every
      operation that was emitted outside a template, in order,
      with each template replaced by the requested calls; the calls do what they
      should when executed; recorded instruction addresses are right across a
      page crossing.
    - TLB: it refines a map of the pages in force; a flush keeps table sizes legal.
    - Guest memory: in long mode, loads and stores of RAM apart from the tables, with no
      watchpoint, reach the bytes the page tables in guest memory lead to, across pages, in either byte order, through every path of the TLB; what
      is stored is loaded again, and the rest of memory stays as it is but for accessed
      and dirty bits of entries of the tables.
    - Page walk of x86: in long mode it is a walk of a radix tree with the rights of all
      entries, or a fault with the right code; the debugger finds the same page.
    - Plugins: subscription, delivery, loading and removal against an abstract
      map of subscriptions; the tracer meets the loader's contract and, with up to
      10000 markers, its own specification, and numbers instructions without gaps.
    - Control and device: the state of events stays consistent when a change is not made
      while another is pending, iteration and
      the commands reach exactly the matching events, DMA stays in its buffer.
    - Simulated memory: a cache that runs over a level that keeps its contract
      fails no assertion and forgets no demand; caches and the controller keep the
      contract, so that every answer meets a miss register that waits for it;
      pages translate injectively; the policies evict the block their definition says.
    - Core: whatever the memory answers, and whenever, the core holds and retires
      the instructions of the trace in order, with their registers but for those that
      [init_instruction] takes out, starts none before the last older writers of its operands have completed, and its
      scheduler fails no assertion; the main loop measures as many instructions
      as asked for, up to a retire width.
    - Page-table walker: every accepted request is answered once, with the address
      [SimVmem] translates its page to; every turn that the level below does not
      refuse brings a walk nearer its end; hits in the paging structure caches agree
      with the page table, but for the one cache that is filled at a wrong level.
    - Prefetchers: whatever lines a prefetcher asks for, demands, misses and the
      invariant of the cache stay as they are; the signature path prefetcher asks
      for lines of the page only, and its lookahead ends within its arrays, in accesses
      at which the measured accuracy is at most 100 percent; strides are followed, though
      from a wrong address, and the access map prefetcher never prefetches a page that
      is accessed on its own.
    - Predictors: tables keep their types and machine ranges, the index of the
      hashed perceptron is the folded history, a learnable branch is learnt, and
      the return stack refines a stack of the last 64 calls.
    - Errors: executions in which the code does not do what it means to, such as
      records of an abandoned translation used for the next block, a header
      stored after its record was cleared, a claim that
      waits for ever, a freed buffer used again.

    ** Bounds and fuel

    - Writeout: every record takes at least 24 bytes, so the bytes in use bound
      the turns of the loop.
    - [deflate]: every turn but the last fills the output, which [deflateBound]
      bounds.
    - Translation: every turn counts an instruction, so [max_insns] turns are
      enough; that this fuel suffices is part of the theorem.
    - Searching for an unused plugin id: one more try than there are ids in use,
      after which the generator repeats.
    - The iterators of a ring move by at most its size, so its size bounds the
      turns of [circ_inc] and of searches; the cache handles at most as many
      packets as it has bandwidth.
    - The loops of the core over the reorder and fetch buffers take at most as
      many turns as the ring has positions; reading takes at most the
      instructions the core asks for, which is proved to be where the loop ends.
    - Aging a set in the RRIP policies ends within 2^32 turns, when the 32-bit
      field has taken every value; the fuel is binary ([iter_until]).
    - The walker takes at most [MAX_READ] and [MAX_FILL] turns a cycle; a walk at
      level [t] needs [2 t + 2] turns at most.
    - Lookahead: every turn but the last puts a candidate into arrays of
      [MSHR_SIZE] elements, so that one turn more is enough; a path has at most 16
      candidates when the accuracy is in range, as confidence falls to 93 percent at
      every step.
    - A load or store that is taken apart calls itself for aligned parts or bytes, which
      are not taken apart again: a depth of one is enough.
    - Integers keep the width they have in the code ([u8] to [u64]).

    ** What is a parameter

    zlib, glib's pattern matching and module loader, the allocator, the memory
    API behind the TLB (devices, dirty bitmaps, the host address of RAM), watchpoints,
    the hooks of an architecture, and the code of plugins other than the tracer; for
    the simulator the generated constants, [std::shuffle], the flags that say whether
    warm-up is over, the hierarchy behind the buses of a core and the components
    that run beside it, and the value of fields that are never initialised.  Their
    contracts are hypotheses or classes, each met by a concrete instance in a witness.

    ** Not modelled

    - The x86 decoder (target/i386/translate.c): an architecture is any record
      of hooks that keeps to the interface; its 8,000 lines decode instructions.
    - TCG's optimiser, register allocator and back ends: generated operations are
      given the meaning instrumentation needs only.
    - cpu-exec.c and translate-all.c: executing, chaining and invalidating blocks.
    - The queues between the TLBs of vCPUs, atomic operations and probes of guest
      memory; the exceptions and exits a page walk ends in, after they are raised.
    - Weak memory: the ring is sequentially consistent, byte by byte, and its loops
      move their bytes in the order of the index; compilers and hosts may do otherwise,
      as between barriers the code does not forbid it.
    - ChampSim's instruction prefetchers and prefetcher/kpcp, which has not the
      interface of a cache; components that run at different frequencies; options,
      heartbeat and printed statistics of main.cc.
    - The other plugins and trace back ends, devices, block layer, network,
      migration and user interface of QEMU, which tracing does not use. *)

From stdpp Require Export base list gmap strings numbers.
From Stdlib Require Export ZArith Lia.
Open Scope Z_scope.

Declare Scope c_scope.
Delimit Scope c_scope with C.

Create HintDb cints.
Create HintDb cbytes.
Create Rewrite HintDb cints.
Create Rewrite HintDb cbytes.

(** ** Machine integers *)

Definition u8 (x : Z) : Z := x mod 2 ^ 8.
Definition u16 (x : Z) : Z := x mod 2 ^ 16.
Definition u32 (x : Z) : Z := x mod 2 ^ 32.
Definition u64 (x : Z) : Z := x mod 2 ^ 64.

(** Conversion of an unsigned 32-bit value to [int]. *)
Definition s32 (x : Z) : Z := (x + 2 ^ 31) mod 2 ^ 32 - 2 ^ 31.

(** [~x] at width [w]. *)
Definition not64 (x : Z) : Z := u64 (Z.lnot x).
Definition not32 (x : Z) : Z := u32 (Z.lnot x).
Definition not16 (x : Z) : Z := u16 (Z.lnot x).

(** An integer used as a condition. *)
Definition ztrue (x : Z) : bool := negb (x =? 0).
(** [!!x] as an integer. *)
Definition b2z (b : bool) : Z := if b then 1 else 0.

Ltac unfold_ints := unfold u8, u16, u32, u64 in *.

(** [lia] after turning [mod] and [/] into their defining equations. *)
Ltac mlia := unfold_ints; Z.to_euclidean_division_equations; lia.

Lemma u8_range x : 0 <= u8 x < 256.
Proof. apply Z.mod_pos_bound. lia. Qed.
Lemma u16_range x : 0 <= u16 x < 2 ^ 16.
Proof. apply Z.mod_pos_bound. lia. Qed.
Lemma u32_range x : 0 <= u32 x < 2 ^ 32.
Proof. apply Z.mod_pos_bound. lia. Qed.
Lemma u64_range x : 0 <= u64 x < 2 ^ 64.
Proof. apply Z.mod_pos_bound. lia. Qed.

Lemma u32_small x : 0 <= x < 2 ^ 32 -> u32 x = x.
Proof. intros. by apply Z.mod_small. Qed.
Lemma u64_small x : 0 <= x < 2 ^ 64 -> u64 x = x.
Proof. intros. by apply Z.mod_small. Qed.

#[export] Hint Resolve u8_range u16_range u32_range u64_range : cints.
#[export] Hint Rewrite u32_small u64_small using lia : cints.

(** ** Single-bit masks *)

Lemma u32_add_l x y : u32 (u32 x + y) = u32 (x + y).
Proof. unfold u32. by rewrite Zplus_mod_idemp_l. Qed.

Lemma testbit_small x n k : 0 <= x < 2 ^ n -> 0 <= n <= k -> Z.testbit x k = false.
Proof.
  intros Hx Hk. apply Z.bounded_iff_bits_nonneg with (k := n); lia.
Qed.

Lemma land_pow2 x n : 0 <= n -> Z.land x (2 ^ n) = if Z.testbit x n then 2 ^ n else 0.
Proof.
  intros Hn. apply Z.bits_inj'. intros k Hk.
  rewrite Z.land_spec, Z.pow2_bits_eqb by done.
  destruct (Z.eqb_spec n k) as [->|Hne].
  - destruct (Z.testbit x k); [by rewrite Z.pow2_bits_eqb, Z.eqb_refl|by rewrite Z.bits_0].
  - rewrite andb_false_r. destruct (Z.testbit x n); [|by rewrite Z.bits_0].
    rewrite Z.pow2_bits_eqb by done. by destruct (Z.eqb_spec n k).
Qed.

Lemma ztrue_land_pow2 x n : 0 <= n -> ztrue (Z.land x (2 ^ n)) = Z.testbit x n.
Proof.
  intros Hn. rewrite land_pow2 by done. unfold ztrue.
  destruct (Z.testbit x n); [|done].
  destruct (Z.eqb_spec (2 ^ n) 0); [|done]. pose proof (Z.pow_pos_nonneg 2 n). lia.
Qed.

Lemma lor_pow2_add x n : 0 <= x < 2 ^ n -> 0 <= n -> Z.lor x (2 ^ n) = x + 2 ^ n.
Proof.
  intros Hx Hn. symmetry. apply Z.add_nocarry_lor.
  rewrite land_pow2 by done. by rewrite (testbit_small x n n) by lia.
Qed.

Lemma ldiff_lor_pow2 x n : 0 <= x < 2 ^ n -> 0 <= n -> Z.ldiff (Z.lor x (2 ^ n)) (2 ^ n) = x.
Proof.
  intros Hx Hn. apply Z.bits_inj'. intros k Hk.
  rewrite Z.ldiff_spec, Z.lor_spec, Z.pow2_bits_eqb by done.
  destruct (Z.eqb_spec n k) as [->|].
  - rewrite (testbit_small x k k) by lia. done.
  - by rewrite orb_false_r, andb_true_r.
Qed.

(** ** Aborting computations

    C code that may call [abort], [exit], [hw_error] or fail an assertion
    is a computation that returns a value or the reason of the abort. *)

Inductive cres (A : Type) : Type :=
| Ret (a : A)
| Abort (why : string).
Arguments Ret {A} a.
Arguments Abort {A} why.

Definition cbind {A B} (m : cres A) (k : A -> cres B) : cres B :=
  match m with
  | Ret a => k a
  | Abort w => Abort w
  end.

Notation "'let*' x ':=' m 'in' k" := (cbind m (fun x => k))
  (at level 10, x pattern, k at level 200) : c_scope.

(** [assert(b)] *)
Definition cassert (b : bool) (why : string) : cres () :=
  if b then Ret () else Abort why.

Lemma cbind_Ret {A B} (m : cres A) (k : A -> cres B) b :
  cbind m k = Ret b <-> exists a, m = Ret a /\ k a = Ret b.
Proof.
  destruct m; simpl; split; [eauto|intros (? & [= ->] & ?); done|done|].
  by intros (? & ? & ?).
Qed.

(** ** Bytes, little endian *)

(** A byte is a value in [0, 256). *)
Definition is_byte (b : Z) : Prop := 0 <= b < 256.

Fixpoint le_bytes (n : nat) (z : Z) : list Z :=
  match n with
  | O => []
  | S n => z mod 256 :: le_bytes n (z / 256)
  end.

Fixpoint le_val (l : list Z) : Z :=
  match l with
  | [] => 0
  | b :: l => b + 256 * le_val l
  end.

Lemma length_le_bytes n z : length (le_bytes n z) = n.
Proof. revert z; induction n; simpl; auto. Qed.

Lemma le_bytes_bytes n z : Forall is_byte (le_bytes n z).
Proof.
  revert z; induction n; intros z; constructor; auto.
  apply Z.mod_pos_bound; lia.
Qed.

Lemma le_val_bytes n z : le_val (le_bytes n z) = z mod 256 ^ Z.of_nat n.
Proof.
  revert z; induction n; intros z; [by rewrite Z.mod_1_r|].
  simpl le_bytes; simpl le_val. rewrite IHn.
  replace (256 ^ Z.of_nat (S n)) with (256 * 256 ^ Z.of_nat n)
    by (rewrite Nat2Z.inj_succ, Z.pow_succ_r; lia).
  rewrite Z.rem_mul_r; lia.
Qed.

Lemma le_val_bytes_small n z :
  0 <= z < 256 ^ Z.of_nat n -> le_val (le_bytes n z) = z.
Proof. intros. rewrite le_val_bytes. by apply Z.mod_small. Qed.

Lemma le_bytes_val l : Forall is_byte l -> le_bytes (length l) (le_val l) = l.
Proof.
  induction 1 as [|b l Hb _ IH]; [done|]. simpl. unfold is_byte in Hb.
  f_equal; [mlia|].
  by replace ((b + 256 * le_val l) / 256) with (le_val l) by mlia.
Qed.

Lemma le_val_range l : Forall is_byte l -> 0 <= le_val l < 256 ^ Z.of_nat (length l).
Proof.
  induction 1 as [|b l Hb _ IH]; [simpl; lia|]. unfold is_byte in Hb.
  cbn [length le_val]. rewrite Nat2Z.inj_succ, Z.pow_succ_r by lia. nia.
Qed.

Lemma le_val_app l1 l2 :
  le_val (l1 ++ l2) = le_val l1 + 256 ^ Z.of_nat (length l1) * le_val l2.
Proof.
  induction l1 as [|b l1 IH]; cbn [app le_val length]; [lia|].
  rewrite IH, Nat2Z.inj_succ, Z.pow_succ_r by lia. lia.
Qed.

Lemma le_val_replicate_0 n : le_val (replicate n 0) = 0.
Proof. induction n; simpl; lia. Qed.

#[export] Hint Rewrite length_le_bytes : cbytes.
#[export] Hint Resolve le_bytes_bytes : cbytes.

(** ** Lists *)

(** Overwriting a range inside the middle part of a concatenation. *)
Lemma list_inserts_middle {A} (l1 l2 l3 d : list A) o :
  (o + length d <= length l2)%nat ->
  list_inserts (length l1 + o) d (l1 ++ l2 ++ l3) = l1 ++ list_inserts o d l2 ++ l3.
Proof.
  revert o; induction d as [|x d IH]; intros o Ho; simpl in *; [done|].
  rewrite <- Nat.add_succ_r, IH by lia.
  rewrite insert_app_r, insert_app_l; [done|]. rewrite length_inserts. lia.
Qed.

Lemma list_inserts_0_app {A} (d l1 l2 : list A) :
  length d = length l1 -> list_inserts 0 d (l1 ++ l2) = d ++ l2.
Proof.
  intros H. pose proof (list_inserts_middle [] l1 l2 d 0 ltac:(simpl; lia)) as E.
  simpl in E. rewrite E. f_equal. clear E.
  apply list_eq_same_length with (n := length d); [done|by rewrite length_inserts|].
  intros i x y Hi. rewrite list_lookup_inserts by lia.
  rewrite Nat.sub_0_r. congruence.
Qed.

Lemma take_replicate_app {A} (n : nat) (x : A) l : take n (replicate n x ++ l) = replicate n x.
Proof. apply take_app_length'. by rewrite length_replicate. Qed.

Lemma drop_replicate_app {A} (n : nat) (x : A) l : drop n (replicate n x ++ l) = l.
Proof. apply drop_app_length'. by rewrite length_replicate. Qed.

Lemma sum_list_app (l1 l2 : list nat) : sum_list (l1 ++ l2) = (sum_list l1 + sum_list l2)%nat.
Proof. induction l1; simpl; lia. Qed.

Lemma length_concat {A} (l : list (list A)) : length (concat l) = sum_list (map length l).
Proof. induction l; simpl; [done|]. rewrite length_app. lia. Qed.

(** ** Loops with a large bound

    [iter_until p step s] takes at most [p] steps from [s] and stops at the first
    result.  The bound is binary, so that it costs nothing when the loop stops
    early. *)
Fixpoint iter_until {S R : Type} (p : positive) (step : S -> S + R) (s : S) : S + R :=
  let twice p s :=
    match iter_until p step s with
    | inl s => iter_until p step s
    | inr r => inr r
    end in
  match p with
  | xH => step s
  | xO p => twice p s
  | xI p => match step s with inl s => twice p s | inr r => inr r end
  end.

(** The same with a unary bound. *)
Fixpoint iter_until_nat {S R : Type} (n : nat) (step : S -> S + R) (s : S) : S + R :=
  match n with
  | O => inl s
  | S n => match step s with inl s => iter_until_nat n step s | inr r => inr r end
  end.

Lemma iter_until_nat_add {S R} n m (step : S -> S + R) s :
  iter_until_nat (n + m) step s =
  match iter_until_nat n step s with inl s => iter_until_nat m step s | inr r => inr r end.
Proof. revert s. induction n as [|n IH]; intros s; simpl; [done|]. by destruct (step s). Qed.

Lemma iter_until_unary {S R} p (step : S -> S + R) s :
  iter_until p step s = iter_until_nat (Pos.to_nat p) step s.
Proof.
  revert s. induction p as [p IH|p IH|]; intros s; cbn [iter_until].
  - rewrite Pos2Nat.inj_xI. simpl. destruct (step s) as [s'|r]; [|done].
    rewrite Nat.add_0_r, iter_until_nat_add, !IH. destruct (iter_until_nat _ _ s'); [by rewrite IH|done].
  - rewrite Pos2Nat.inj_xO. simpl. rewrite Nat.add_0_r, iter_until_nat_add, !IH.
    destruct (iter_until_nat _ _ s); [by rewrite IH|done].
  - simpl. by destruct (step s).
Qed.

(** ** Updating a field of a record

    [x <| f := v |>] is [x] with field [f] set to [v] and [x <| f ::= g |>] is
    [x] with [g] applied to the field.  A record type declares its constructor
    and fields once, as an instance of [Settable]. *)

Class Settable (R : Type) := mkEta { eta : R -> R }.
Class Setter {R T : Type} (proj : R -> T) := mkSetter {
  set : (T -> T) -> R -> R;
  set_proj : forall f r, proj (set f r) = f (proj r);
}.
Arguments set {R T} proj {_} f r.

Ltac solve_setter :=
  match goal with
  | |- @Setter ?R ?T ?proj =>
    let inst := constr:(_ : Settable R) in
    let inst := eval hnf in inst in
    lazymatch inst with
    | mkEta _ ?e =>
      lazymatch eval pattern proj in e with
      | ?k _ =>
        let t := eval cbv beta in (fun (f : T -> T) => k (fun r : R => f (proj r))) in
        exact (mkSetter R T proj t (fun _ _ => eq_refl))
      end
    end
  end.

#[export] Hint Extern 1 (Setter _) => solve_setter : typeclass_instances.

#[warnings="-postfix-notation-not-level-1"]
Notation "x <| f := v |>" := (set f (fun _ => v) x)
  (at level 12, f at next level, left associativity).
#[warnings="-postfix-notation-not-level-1"]
Notation "x <| f ::= g |>" := (set f g x)
  (at level 12, f at next level, left associativity).
