(* ===== verification/TraceBuffer.v ===== *)
(** * The trace ring buffer of the simple backend (qemu/trace/simple.c)

    The 4 MiB ring [trace_buf] into which vCPU threads claim and write trace
    records, and the writeout thread that takes finished records out of it.
    [Module Ring] has the operations as one thread executes them with nothing
    interleaved; their interleavings, byte by byte, are in [TraceThreads]. *)

From S2P Require Import Prelude.
Open Scope Z_scope.

Module Ring.

(** ** Constants and record layout *)

Definition DROPPED_EVENT_ID : Z := u64 (Z.lnot 0 - 1).
Definition TRACE_RECORD_VALID : Z := 2 ^ 63.

Definition TRACE_BUF_LEN : Z := 4096 * 1024.
Definition TRACE_BUF_FLUSH_THRESHOLD : Z := TRACE_BUF_LEN / 4.

Definition TRACE_RECORD_TYPE_MAPPING : Z := 0.
Definition TRACE_RECORD_TYPE_EVENT : Z := 1.

(** The fixed part of a trace buffer entry; [arguments[]] follows it. *)
Record TraceRecord := mkTraceRecord {
  event : Z;
  timestamp_ns : Z;
  length : Z;
  pid : Z;
}.

Definition sizeof_TraceRecord : nat := 24.

(** The object representation of the fixed part. *)
Definition TraceRecord_bytes (r : TraceRecord) : list Z :=
  le_bytes 8 (event r) ++ le_bytes 8 (timestamp_ns r) ++
  le_bytes 4 (length r) ++ le_bytes 4 (pid r).

Definition TraceRecord_of_bytes (l : list Z) : TraceRecord :=
  mkTraceRecord (le_val (take 8 l)) (le_val (take 8 (drop 8 l)))
                (le_val (take 4 (drop 16 l))) (le_val (take 4 (drop 20 l))).

Record TraceBufferRecord := mkTraceBufferRecord {
  tbuf_idx : Z;
  rec_off : Z;
}.

(** ** Byte access *)

(** [trace_buf] has static storage: bytes never written are 0. *)
Definition buf_get (b : gmap Z Z) (i : Z) : Z := default 0 (b !! i).

(** The wrap-around test at the head of each loop body. *)
Definition wrap_idx (idx : Z) : Z :=
  if TRACE_BUF_LEN <=? idx then idx mod TRACE_BUF_LEN else idx.

Fixpoint clear_buffer_range (b : gmap Z Z) (idx : Z) (len : nat) : gmap Z Z :=
  match len with
  | O => b
  | S len => let idx := wrap_idx idx in
             clear_buffer_range (<[idx := 0]> b) (idx + 1) len
  end.

Fixpoint read_from_buffer (b : gmap Z Z) (idx : Z) (size : nat) : list Z :=
  match size with
  | O => []
  | S size => let idx := wrap_idx idx in
              buf_get b idx :: read_from_buffer b (idx + 1) size
  end.

Fixpoint write_to_buffer (b : gmap Z Z) (idx : Z) (data : list Z)
  : gmap Z Z * Z :=
  match data with
  | [] => (b, idx)
  | x :: data => let idx := wrap_idx idx in
                 write_to_buffer (<[idx := x]> b) (idx + 1) data
  end.

(** ** State of the backend *)

Record simple := mkSimple {
  trace_available : bool;
  trace_writeout_enabled : bool;
  trace_buf : gmap Z Z;
  trace_idx : Z;       (* a [gint], read and compared as [unsigned int] *)
  writeout_idx : Z;    (* [unsigned int] *)
  dropped_events : Z;
  trace_pid : Z;
}.

Definition set_available (s : simple) (a : bool) : simple :=
  mkSimple a (trace_writeout_enabled s) (trace_buf s) (trace_idx s)
           (writeout_idx s) (dropped_events s) (trace_pid s).
Definition set_enabled (s : simple) (e : bool) : simple :=
  mkSimple (trace_available s) e (trace_buf s) (trace_idx s)
           (writeout_idx s) (dropped_events s) (trace_pid s).
Definition set_buf (s : simple) (b : gmap Z Z) : simple :=
  mkSimple (trace_available s) (trace_writeout_enabled s) b (trace_idx s)
           (writeout_idx s) (dropped_events s) (trace_pid s).
Definition set_trace_idx (s : simple) (i : Z) : simple :=
  mkSimple (trace_available s) (trace_writeout_enabled s) (trace_buf s) i
           (writeout_idx s) (dropped_events s) (trace_pid s).
Definition set_writeout_idx (s : simple) (i : Z) : simple :=
  mkSimple (trace_available s) (trace_writeout_enabled s) (trace_buf s)
           (trace_idx s) i (dropped_events s) (trace_pid s).
Definition set_dropped (s : simple) (d : Z) : simple :=
  mkSimple (trace_available s) (trace_writeout_enabled s) (trace_buf s)
           (trace_idx s) (writeout_idx s) d (trace_pid s).

(** All variables as the program starts, [trace_pid] set by [st_init]. *)
Definition st_init_state (pid : Z) : simple :=
  mkSimple false false ∅ 0 0 0 pid.

(** ** Producer side *)

(** One iteration of the claiming loop whose compare-and-exchange succeeds;
    [None] while the inner loop keeps waiting for the writeout thread. *)
Definition trace_record_claim (s : simple) (rec_len : Z) : option (Z * simple) :=
  let old_idx := trace_idx s in
  let new_idx := u32 (old_idx + rec_len) in
  if TRACE_BUF_LEN <? u32 (new_idx - writeout_idx s) then None
  else Some (old_idx, set_trace_idx s new_idx).

(** The rest of [trace_record_start]: the record header. *)
Definition trace_record_header (s : simple) (old_idx event timestamp_ns rec_len : Z)
  : TraceBufferRecord * simple :=
  let idx := old_idx mod TRACE_BUF_LEN in
  let '(b, off) := write_to_buffer (trace_buf s) idx (le_bytes 8 event) in
  let '(b, off) := write_to_buffer b off (le_bytes 8 timestamp_ns) in
  let '(b, off) := write_to_buffer b off (le_bytes 4 rec_len) in
  let '(b, off) := write_to_buffer b off (le_bytes 4 (trace_pid s)) in
  (mkTraceBufferRecord idx ((idx + Z.of_nat sizeof_TraceRecord) mod TRACE_BUF_LEN),
   set_buf s b).

(** [trace_record_start] for a caller that no other thread interleaves with;
    [None]: it does not return. *)
Definition trace_record_start (s : simple) (event datasize timestamp_ns : Z)
  : option (TraceBufferRecord * simple) :=
  let rec_len := u32 (Z.of_nat sizeof_TraceRecord + datasize) in
  match trace_record_claim s rec_len with
  | None => None
  | Some (old_idx, s) => Some (trace_record_header s old_idx event timestamp_ns rec_len)
  end.

Definition trace_record_write_u64 (s : simple) (rec : TraceBufferRecord) (val : Z)
  : TraceBufferRecord * simple :=
  let '(b, off) := write_to_buffer (trace_buf s) (rec_off rec) (le_bytes 8 val) in
  (mkTraceBufferRecord (tbuf_idx rec) off, set_buf s b).

(** [str] holds the [slen] bytes copied. *)
Definition trace_record_write_str (s : simple) (rec : TraceBufferRecord) (str : list Z)
  : TraceBufferRecord * simple :=
  let slen := Z.of_nat (List.length str) in
  let '(b, off) := write_to_buffer (trace_buf s) (rec_off rec) (le_bytes 4 slen) in
  let '(b, off) := write_to_buffer b off str in
  (mkTraceBufferRecord (tbuf_idx rec) off, set_buf s b).

(** [flush_trace_file(false)]: kick the writeout thread. *)
Definition flush_trace_file_nowait (s : simple) : simple := set_available s true.

(** The header as [trace_record_finish] writes it back. *)
Definition mark_valid (record : TraceRecord) : TraceRecord :=
  mkTraceRecord (Z.lor (event record) TRACE_RECORD_VALID)
    (timestamp_ns record) (length record) (pid record).

(** The end of [trace_record_finish]: the writeout thread is kicked when much
    of the buffer is in use. *)
Definition kick_writeout (s : simple) : simple :=
  if TRACE_BUF_FLUSH_THRESHOLD <? u32 (trace_idx s - writeout_idx s)
  then flush_trace_file_nowait s else s.

(** [trace_record_finish] for a caller that no other thread interleaves with. *)
Definition trace_record_finish (s : simple) (rec : TraceBufferRecord) : simple :=
  let record := TraceRecord_of_bytes
    (read_from_buffer (trace_buf s) (tbuf_idx rec) sizeof_TraceRecord) in
  let '(b, _) := write_to_buffer (trace_buf s) (tbuf_idx rec)
                                 (TraceRecord_bytes (mark_valid record)) in
  kick_writeout (set_buf s b).

(** ** Consumer side *)

(** The valid flag of the copy is cleared. *)
Definition clear_valid (record : list Z) : list Z :=
  le_bytes 8 (Z.ldiff (le_val (take 8 record)) TRACE_RECORD_VALID) ++ drop 8 record.

(** [get_trace_record] with nothing interleaved: the copy of the record, its
    valid flag cleared, and the buffer with the record's range zeroed; [None]
    when the record is not valid. *)
Definition get_trace_record (b : gmap Z Z) (idx : Z) : option (list Z * gmap Z Z) :=
  let ev := le_val (read_from_buffer b idx 8) in
  if Z.land ev TRACE_RECORD_VALID =? 0 then None
  else
    let hdr := TraceRecord_of_bytes (read_from_buffer b idx sizeof_TraceRecord) in
    let len := Z.to_nat (length hdr) in
    let record := read_from_buffer b idx len in
    Some (clear_valid record, clear_buffer_range b idx len).

(** What the writeout thread hands to the file for one record. *)
Definition record_message (record : list Z) : list Z :=
  le_bytes 8 TRACE_RECORD_TYPE_EVENT ++ record.

(** The record that reports dropped events. *)
Definition dropped_message (s : simple) (now : Z) : list Z :=
  record_message
    (TraceRecord_bytes (mkTraceRecord DROPPED_EVENT_ID now
       (Z.of_nat sizeof_TraceRecord + 8) (trace_pid s))
     ++ le_bytes 8 (u64 (dropped_events s))).

(** One turn of the [while (get_trace_record(...))] loop: the message, the new
    state and the local [idx]. *)
Definition writeout_one (s : simple) (idx : Z) : option (list Z * simple * Z) :=
  match get_trace_record (trace_buf s) idx with
  | None => None
  | Some (record, b) =>
      let s := set_buf s b in
      let len := length (TraceRecord_of_bytes record) in
      let w := u32 (writeout_idx s + len) in
      Some (record_message record, set_writeout_idx s w, w mod TRACE_BUF_LEN)
  end.

Fixpoint writeout_loop (fuel : nat) (s : simple) (idx : Z)
  : list (list Z) * simple * Z :=
  match fuel with
  | O => ([], s, idx)
  | S fuel =>
      match writeout_one s idx with
      | None => ([], s, idx)
      | Some (msg, s, idx) =>
          let '(msgs, s, idx) := writeout_loop fuel s idx in
          (msg :: msgs, s, idx)
      end
  end.

(** The body of the thread's endless loop after
    [wait_for_trace_records_available] returned, with nothing interleaved.
    Every record takes at least [sizeof(TraceRecord)] bytes of the ring, which
    bounds the number of turns by the bytes in use. *)
Definition writeout_iteration (s : simple) (idx now : Z)
  : list (list Z) * simple * Z :=
  let '(drops, s) :=
    if dropped_events s =? 0 then ([], s)
    else ([dropped_message s now], set_dropped s 0) in
  let used := u32 (trace_idx s - writeout_idx s) in
  let fuel := Z.to_nat (used / Z.of_nat sizeof_TraceRecord + 1) in
  let '(msgs, s, idx) := writeout_loop fuel s idx in
  (drops ++ msgs, s, idx).

(** [wait_for_trace_records_available]: [None] while it blocks. *)
Definition wait_for_trace_records_available (s : simple) : option simple :=
  if trace_available s && trace_writeout_enabled s
  then Some (set_available s false) else None.

(** ** The function generated for a trace event

    The tracetool simple backend emits, for each event, a function that
    starts a record of the size of its arguments, appends each argument and
    finishes the record. *)

Inductive targ :=
| ArgU64 (val : Z)
| ArgStr (str : list Z).

Definition MAX_TRACE_STRLEN : nat := 512.

Definition targ_size (a : targ) : Z :=
  match a with
  | ArgU64 _ => 8
  | ArgStr str => 4 + Z.of_nat (List.length str)
  end.

Definition targs_size (l : list targ) : Z := foldr (fun a n => targ_size a + n) 0 l.

Definition trace_record_write (s : simple) (rec : TraceBufferRecord) (a : targ)
  : TraceBufferRecord * simple :=
  match a with
  | ArgU64 v => trace_record_write_u64 s rec v
  | ArgStr str => trace_record_write_str s rec str
  end.

Fixpoint trace_record_writes (s : simple) (rec : TraceBufferRecord) (l : list targ)
  : TraceBufferRecord * simple :=
  match l with
  | [] => (rec, s)
  | a :: l => let '(rec, s) := trace_record_write s rec a in
              trace_record_writes s rec l
  end.

Definition simple_trace (s : simple) (id timestamp_ns : Z) (args : list targ)
  : option simple :=
  match trace_record_start s id (targs_size args) timestamp_ns with
  | None => None
  | Some (rec, s) =>
      let '(rec, s) := trace_record_writes s rec args in
      Some (trace_record_finish s rec)
  end.

(** The bytes of an argument in the record. *)
Definition targ_bytes (a : targ) : list Z :=
  match a with
  | ArgU64 v => le_bytes 8 v
  | ArgStr str => le_bytes 4 (Z.of_nat (List.length str)) ++ str
  end.

(** The record a call leaves in the file. *)
Definition event_record (pid id timestamp_ns : Z) (args : list targ) : list Z :=
  TraceRecord_bytes
    (mkTraceRecord id timestamp_ns (Z.of_nat sizeof_TraceRecord + targs_size args) pid)
  ++ concat (map targ_bytes args).

(** ** Modular specification of the byte loops *)

Lemma TRACE_BUF_LEN_val : TRACE_BUF_LEN = 2 ^ 22.
Proof. reflexivity. Qed.

Lemma wrap_idx_mod idx : 0 <= idx -> wrap_idx idx = idx mod TRACE_BUF_LEN.
Proof.
  intros. unfold wrap_idx. destruct (Z.leb_spec TRACE_BUF_LEN idx); [done|].
  by rewrite Z.mod_small.
Qed.

Lemma wrap_idx_range idx : 0 <= idx -> 0 <= wrap_idx idx < TRACE_BUF_LEN.
Proof. intros. rewrite wrap_idx_mod by done. apply Z.mod_pos_bound. done. Qed.

Lemma buf_get_insert b i x j :
  buf_get (<[i := x]> b) j = if decide (i = j) then x else buf_get b j.
Proof. unfold buf_get. rewrite lookup_insert. by case_decide. Qed.

Lemma mod_succ_wrap idx j :
  0 <= idx -> (wrap_idx idx + 1 + j) mod TRACE_BUF_LEN = (idx + (1 + j)) mod TRACE_BUF_LEN.
Proof.
  intros. rewrite wrap_idx_mod by done.
  rewrite <- Z.add_assoc, Zplus_mod_idemp_l. done.
Qed.

(** Reading: byte [j] comes from index [idx + j] modulo the buffer length. *)
Lemma read_from_buffer_lookup b idx size (j : nat) :
  0 <= idx -> (j < size)%nat ->
  read_from_buffer b idx size !! j = Some (buf_get b ((idx + Z.of_nat j) mod TRACE_BUF_LEN)).
Proof.
  revert idx j; induction size as [|size IH]; intros idx j Hi Hj; [lia|].
  simpl. destruct j as [|j]; simpl.
  - by rewrite wrap_idx_mod, Z.add_0_r by done.
  - rewrite IH by (pose proof (wrap_idx_range idx Hi); lia).
    rewrite mod_succ_wrap by done. repeat f_equal. lia.
Qed.

Lemma length_read_from_buffer b idx size : List.length (read_from_buffer b idx size) = size.
Proof. revert idx; induction size; intros; simpl; auto. Qed.

(** Two positions of the ring within one lap are equal only if they coincide. *)
Lemma mod_lap_inj i j :
  (i mod TRACE_BUF_LEN) = (j mod TRACE_BUF_LEN) -> Z.abs (i - j) < TRACE_BUF_LEN -> i = j.
Proof.
  intros Hm Ha. assert ((i - j) mod TRACE_BUF_LEN = 0).
  { by rewrite Zminus_mod, Hm, Z.sub_diag. }
  apply Z.mod_divide in H as [k Hk]; [|done].
  unfold TRACE_BUF_LEN in *. destruct (Z.eq_dec k 0); [subst; lia|nia].
Qed.

(** Writing: bytes within the written range come from the data, the others are
    unchanged. *)
Lemma write_to_buffer_get b idx data k :
  0 <= idx -> Z.of_nat (List.length data) <= TRACE_BUF_LEN ->
  0 <= k < TRACE_BUF_LEN ->
  buf_get (write_to_buffer b idx data).1 ((idx + k) mod TRACE_BUF_LEN) =
    default (buf_get b ((idx + k) mod TRACE_BUF_LEN)) (data !! Z.to_nat k).
Proof.
  revert b idx k; induction data as [|x data IH]; intros b idx k Hi Hl Hk; [done|].
  cbn [write_to_buffer List.length] in *.
  pose proof (wrap_idx_range idx Hi) as Hw.
  destruct (Z.eq_dec k 0) as [->|Hk0].
  - replace ((idx + 0) mod TRACE_BUF_LEN)
      with ((wrap_idx idx + 1 + (TRACE_BUF_LEN - 1)) mod TRACE_BUF_LEN).
    2:{ rewrite mod_succ_wrap by done.
        replace (idx + (1 + (TRACE_BUF_LEN - 1))) with (idx + 0 + 1 * TRACE_BUF_LEN) by lia.
        by rewrite Z_mod_plus_full. }
    rewrite IH by (unfold TRACE_BUF_LEN in *; lia).
    rewrite lookup_ge_None_2 by (unfold TRACE_BUF_LEN in *; lia). simpl.
    rewrite mod_succ_wrap, wrap_idx_mod by done.
    replace (idx + (1 + (TRACE_BUF_LEN - 1))) with (idx + 1 * TRACE_BUF_LEN) by lia.
    rewrite Z_mod_plus_full, buf_get_insert. by rewrite decide_True.
  - replace ((idx + k) mod TRACE_BUF_LEN)
      with ((wrap_idx idx + 1 + (k - 1)) mod TRACE_BUF_LEN)
      by (rewrite mod_succ_wrap by done; f_equal; lia).
    rewrite IH by lia.
    replace (Z.to_nat k) with (S (Z.to_nat (k - 1))) by lia. simpl.
    destruct (data !! Z.to_nat (k - 1)); [done|]. simpl.
    rewrite buf_get_insert, decide_False; [done|].
    rewrite mod_succ_wrap, wrap_idx_mod by done.
    intros E%mod_lap_inj; lia.
Qed.

(** The returned index is the next one to write, up to wrap-around. *)
Lemma write_to_buffer_idx b idx data :
  0 <= idx ->
  0 <= (write_to_buffer b idx data).2 /\
  (write_to_buffer b idx data).2 mod TRACE_BUF_LEN =
    (idx + Z.of_nat (List.length data)) mod TRACE_BUF_LEN.
Proof.
  revert b idx; induction data as [|x data IH]; intros b idx Hi; simpl.
  - by rewrite Z.add_0_r.
  - pose proof (wrap_idx_range idx Hi) as Hw.
    destruct (IH (<[wrap_idx idx:=x]> b) (wrap_idx idx + 1)) as [H1 H2]; [lia|].
    split; [done|]. rewrite H2, mod_succ_wrap by done. f_equal. lia.
Qed.

(** Clearing is writing zeros. *)
Lemma clear_buffer_range_write b idx len :
  clear_buffer_range b idx len = (write_to_buffer b idx (replicate len 0)).1.
Proof. revert b idx; induction len; intros; simpl; auto. Qed.

Lemma write_to_buffer_app b idx d1 d2 :
  write_to_buffer b idx (d1 ++ d2) =
    write_to_buffer (write_to_buffer b idx d1).1 (write_to_buffer b idx d1).2 d2.
Proof. revert b idx; induction d1; intros; simpl; auto. Qed.

(** The record header is one contiguous write. *)
Lemma trace_record_header_write s old ev ts len :
  trace_record_header s old ev ts len =
    (mkTraceBufferRecord (old mod TRACE_BUF_LEN)
       ((old mod TRACE_BUF_LEN + Z.of_nat sizeof_TraceRecord) mod TRACE_BUF_LEN),
     set_buf s (write_to_buffer (trace_buf s) (old mod TRACE_BUF_LEN)
                  (TraceRecord_bytes (mkTraceRecord ev ts len (trace_pid s)))).1).
Proof.
  unfold trace_record_header, TraceRecord_bytes; cbn [event timestamp_ns length pid].
  rewrite !write_to_buffer_app.
  destruct (write_to_buffer (trace_buf s) _ (le_bytes 8 ev)) as [b1 o1]; simpl.
  destruct (write_to_buffer b1 o1 (le_bytes 8 ts)) as [b2 o2]; simpl.
  destruct (write_to_buffer b2 o2 (le_bytes 4 len)) as [b3 o3]; simpl.
  by destruct (write_to_buffer b3 o3 (le_bytes 4 (trace_pid s))) as [b4 o4].
Qed.

(** Appending an argument is one contiguous write. *)
Lemma trace_record_write_write s rec a :
  trace_record_write s rec a =
    (mkTraceBufferRecord (tbuf_idx rec)
       (write_to_buffer (trace_buf s) (rec_off rec) (targ_bytes a)).2,
     set_buf s (write_to_buffer (trace_buf s) (rec_off rec) (targ_bytes a)).1).
Proof.
  destruct a as [v|str]; unfold trace_record_write, trace_record_write_u64,
    trace_record_write_str, targ_bytes.
  - by destruct (write_to_buffer _ _ _).
  - rewrite write_to_buffer_app. destruct (write_to_buffer _ _ (le_bytes 4 _)); simpl.
    by destruct (write_to_buffer _ _ _).
Qed.

(** Decoding the object representation of a header. *)
Definition TraceRecord_ok (r : TraceRecord) : Prop :=
  0 <= event r < 2 ^ 64 /\ 0 <= timestamp_ns r < 2 ^ 64 /\
  0 <= length r < 2 ^ 32 /\ 0 <= pid r < 2 ^ 32.

Lemma TraceRecord_of_bytes_bytes r l :
  TraceRecord_ok r -> TraceRecord_of_bytes (TraceRecord_bytes r ++ l) = r.
Proof.
  intros (? & ? & ? & ?). destruct r as [ev ts len p]. cbn [event timestamp_ns length pid] in *.
  unfold TraceRecord_of_bytes, TraceRecord_bytes; cbn [event timestamp_ns length pid].
  f_equal; [exact (le_val_bytes_small 8 ev H) | exact (le_val_bytes_small 8 ts H0)
           | exact (le_val_bytes_small 4 len H1) | exact (le_val_bytes_small 4 p H2)].
Qed.

(** The valid flag is bit 63; event numbers are 32 bits wide. *)
Lemma valid_clear ev : 0 <= ev < 2 ^ 32 -> Z.land ev TRACE_RECORD_VALID = 0.
Proof.
  intros H. unfold TRACE_RECORD_VALID. rewrite land_pow2 by done.
  by rewrite (testbit_small ev 32 63) by lia.
Qed.

Lemma valid_set ev : (Z.land (Z.lor ev TRACE_RECORD_VALID) TRACE_RECORD_VALID =? 0) = false.
Proof.
  unfold TRACE_RECORD_VALID. rewrite land_pow2 by done.
  by rewrite Z.lor_spec, Z.pow2_bits_true, orb_true_r by done.
Qed.

Lemma valid_range ev : 0 <= ev < 2 ^ 32 -> 0 <= Z.lor ev TRACE_RECORD_VALID < 2 ^ 64.
Proof. intros H. unfold TRACE_RECORD_VALID. rewrite lor_pow2_add; lia. Qed.

Lemma valid_cleared ev : 0 <= ev < 2 ^ 32 ->
  Z.ldiff (Z.lor ev TRACE_RECORD_VALID) TRACE_RECORD_VALID = ev.
Proof. intros H. apply ldiff_lor_pow2; lia. Qed.

(** ** Windows

    [window b W l]: starting at the position [W] (counted without wrap-around)
    one lap of the ring holds the bytes [l] and then zeros. *)

Definition window (b : gmap Z Z) (W : Z) (l : list Z) : Prop :=
  0 <= W /\ Z.of_nat (List.length l) <= TRACE_BUF_LEN /\
  forall j : nat, Z.of_nat j < TRACE_BUF_LEN ->
    buf_get b ((W + Z.of_nat j) mod TRACE_BUF_LEN) = default 0 (l !! j).

Lemma window_empty : window ∅ 0 [].
Proof.
  split; [lia|]. split; [done|]. intros j _. by rewrite lookup_nil.
Qed.

Lemma window_write b W l n idx d :
  window b W l -> (n + List.length d <= List.length l)%nat ->
  0 <= idx -> idx mod TRACE_BUF_LEN = (W + Z.of_nat n) mod TRACE_BUF_LEN ->
  window (write_to_buffer b idx d).1 W (list_inserts n d l).
Proof.
  intros (HW & Hl & Hb) Hn Hi Hm.
  split; [done|]. split; [by rewrite length_inserts|]. intros j Hj.
  set (k := (Z.of_nat j - Z.of_nat n) mod TRACE_BUF_LEN).
  assert (0 <= k < TRACE_BUF_LEN) as Hk by (apply Z.mod_pos_bound; done).
  assert ((W + Z.of_nat j) mod TRACE_BUF_LEN = (idx + k) mod TRACE_BUF_LEN) as HE.
  { rewrite <- (Zplus_mod_idemp_l idx k), Hm, Zplus_mod_idemp_l.
    unfold k. rewrite Zplus_mod_idemp_r. f_equal. lia. }
  rewrite HE, write_to_buffer_get by lia. rewrite <- HE, Hb by done.
  destruct (decide (n <= j)%nat) as [Hnj|Hnj].
  - assert (k = Z.of_nat j - Z.of_nat n) as -> by (apply Z.mod_small; lia).
    replace (Z.to_nat (Z.of_nat j - Z.of_nat n)) with (j - n)%nat by lia.
    destruct (decide (j < n + List.length d)%nat).
    + rewrite list_lookup_inserts by lia.
      destruct (lookup_lt_is_Some_2 d (j - n)) as [x ->]; [lia|done].
    + rewrite list_lookup_inserts_ge by lia. by rewrite (lookup_ge_None_2 d) by lia.
  - assert (k = Z.of_nat j - Z.of_nat n + TRACE_BUF_LEN) as ->.
    { unfold k. rewrite <- (Z.mod_small (Z.of_nat j - Z.of_nat n + TRACE_BUF_LEN) TRACE_BUF_LEN)
        by lia. rewrite <- (Z.mul_1_l TRACE_BUF_LEN) at 2. by rewrite Z_mod_plus_full. }
    rewrite list_lookup_inserts_lt by lia. by rewrite (lookup_ge_None_2 d) by lia.
Qed.

Lemma window_grow b W l n :
  window b W l -> Z.of_nat (List.length l + n) <= TRACE_BUF_LEN ->
  window b W (l ++ replicate n 0).
Proof.
  intros (HW & Hl & Hb) Hn. split; [done|].
  split; [by rewrite length_app, length_replicate|]. intros j Hj.
  rewrite Hb by done. destruct (decide (j < List.length l)%nat).
  - by rewrite lookup_app_l by lia.
  - rewrite lookup_app_r, (lookup_ge_None_2 l) by lia.
    destruct (decide (j - List.length l < n)%nat).
    + by rewrite lookup_replicate_2.
    + by rewrite lookup_ge_None_2 by (rewrite length_replicate; lia).
Qed.

(** Zeros at the front of the window can be handed over to its back. *)
Lemma window_advance b W l n :
  window b W (replicate n 0 ++ l) -> window b (W + Z.of_nat n) l.
Proof.
  intros (HW & Hl & Hb). rewrite length_app, length_replicate in Hl.
  split; [lia|]. split; [lia|]. intros j Hj.
  destruct (decide (Z.of_nat (n + j) < TRACE_BUF_LEN)).
  - rewrite <- Z.add_assoc, <- Nat2Z.inj_add, Hb by done.
    rewrite lookup_app_r by (rewrite length_replicate; lia).
    rewrite length_replicate. by replace (n + j - n)%nat with j by lia.
  - rewrite (lookup_ge_None_2 l) by lia. simpl.
    replace ((W + Z.of_nat n + Z.of_nat j) mod TRACE_BUF_LEN)
      with ((W + Z.of_nat (n + j - Z.to_nat TRACE_BUF_LEN)) mod TRACE_BUF_LEN).
    + rewrite Hb by (unfold TRACE_BUF_LEN in *; lia).
      rewrite lookup_app_l, lookup_replicate_2
        by (rewrite ?length_replicate; unfold TRACE_BUF_LEN in *; lia). done.
    + replace (W + Z.of_nat n + Z.of_nat j)
        with (W + Z.of_nat (n + j - Z.to_nat TRACE_BUF_LEN) + 1 * TRACE_BUF_LEN)
        by (unfold TRACE_BUF_LEN in *; lia).
      by rewrite Z_mod_plus_full.
Qed.

Lemma window_read b W l n idx size :
  window b W l -> (n + size <= List.length l)%nat ->
  0 <= idx -> idx mod TRACE_BUF_LEN = (W + Z.of_nat n) mod TRACE_BUF_LEN ->
  read_from_buffer b idx size = take size (drop n l).
Proof.
  intros (HW & Hl & Hb) Hn Hi Hm. apply list_eq. intros j.
  destruct (decide (j < size)%nat).
  - rewrite read_from_buffer_lookup by lia.
    rewrite lookup_take_lt, lookup_drop by done.
    rewrite <- Zplus_mod_idemp_l, Hm, Zplus_mod_idemp_l.
    rewrite <- Z.add_assoc, <- Nat2Z.inj_add, Hb by lia.
    by destruct (lookup_lt_is_Some_2 l (n + j)) as [x ->]; [lia|].
  - rewrite !lookup_ge_None_2; [done| |].
    + rewrite length_take, length_drop. lia.
    + rewrite length_read_from_buffer. lia.
Qed.

(** Clearing the front of a window and advancing past it. *)
Lemma window_clear b W l idx n :
  window b W l -> (n <= List.length l)%nat ->
  0 <= idx -> idx mod TRACE_BUF_LEN = W mod TRACE_BUF_LEN ->
  window (clear_buffer_range b idx n) W (replicate n 0 ++ drop n l).
Proof.
  intros Hw Hn Hi Hm. rewrite clear_buffer_range_write.
  replace (replicate n 0 ++ drop n l) with (list_inserts 0 (replicate n 0) l).
  { eapply window_write; [done|rewrite length_replicate; lia|done|].
    by rewrite Z.add_0_r. }
  apply list_eq. intros j. destruct (decide (j < n)%nat).
  - rewrite list_lookup_inserts by (rewrite ?length_replicate; lia).
    rewrite lookup_app_l by (rewrite length_replicate; lia). f_equal. lia.
  - rewrite list_lookup_inserts_ge by (rewrite length_replicate; lia).
    rewrite lookup_app_r by (rewrite length_replicate; lia).
    rewrite length_replicate, lookup_drop. f_equal. lia.
Qed.

End Ring.
