(* ===== verification/TraceThreads.v ===== *)
(** * Producers and the writeout thread of the simple trace backend

    qemu/trace/simple.c is executed by any number of threads that call trace
    event functions and by one writeout thread.  This file models their
    interleavings byte by byte: a step is one turn of the loop of
    [read_from_buffer], [write_to_buffer] or [clear_buffer_range], a statement
    between two loops, or the claim of a range, whose own loop is in
    [TraceClaim].  Memory is sequentially consistent, and a loop moves its bytes
    in the order of its index.  The invariant of this system and what it
    implies for the trace file are in [TraceQueue]. *)

From S2P Require Import Prelude TraceBuffer.
Open Scope Z_scope.

Module Threads.
Import Ring.

(** ** Calls of trace event functions *)

Record claim := mkClaim {
  c_event : Z;
  c_ts : Z;
  c_args : list targ;
}.

Definition claim_len (c : claim) : Z :=
  Z.of_nat sizeof_TraceRecord + targs_size (c_args c).

(** What the callers, generated from the event declarations, guarantee: a
    32-bit event number, 64-bit arguments, strings cut at [MAX_TRACE_STRLEN]. *)
Definition targ_ok (a : targ) : Prop :=
  match a with
  | ArgU64 v => 0 <= v < 2 ^ 64
  | ArgStr str => Forall is_byte str /\ (List.length str <= MAX_TRACE_STRLEN)%nat
  end.

Definition claim_ok (c : claim) : Prop :=
  0 <= c_event c < 2 ^ 32 /\ 0 <= c_ts c < 2 ^ 64 /\
  Forall targ_ok (c_args c) /\ claim_len c < 2 ^ 31.

(** ** States *)

(** Where a producing thread is inside the trace event function: in the calls
    of [write_to_buffer] of [trace_record_start], in those of
    [trace_record_write_u64] and [trace_record_write_str], in the
    [read_from_buffer] and in the [write_to_buffer] of [trace_record_finish].
    [off] is the index of the loop, [todo] what it has still to store, [got] what
    it has loaded. *)
Inductive producer :=
| PHeader (idx : Z) (c : claim) (off : Z) (todo : list Z)
| PArgs (rec : TraceBufferRecord) (todo : list Z) (rest : list targ)
| PRead (rec : TraceBufferRecord) (off : Z) (got : list Z)
| PMark (rec : TraceBufferRecord) (off : Z) (todo : list Z).

(** The three reads of [get_trace_record]: the event word, the header, the
    record. *)
Inductive reading :=
| RFlag
| RHead
| RBody (len : nat).

Definition wanted (r : reading) : nat :=
  match r with
  | RFlag => 8
  | RHead => sizeof_TraceRecord
  | RBody len => len
  end.

(** Where the writeout thread is: waiting, about to report dropped events, in a
    read, in [clear_buffer_range], about to write out the copy it has taken. *)
Inductive consumer :=
| CWait
| CWoken
| CRead (r : reading) (off : Z) (got : list Z)
| CClear (record : list Z) (off : Z) (remaining : nat)
| CTaken (record : list Z).

Record sys := mkSys {
  core : simple;
  producers : gmap nat producer;
  cpc : consumer;
  cidx : Z;                (* the local [idx] of [writeout_thread] *)
  out : list (list Z);     (* messages written to the trace file *)
}.

Definition sys_init (pid : Z) : sys := mkSys (st_init_state pid) ∅ CWait 0 [].

(** ** Steps *)

(** One turn of [write_to_buffer], or with 0 of [clear_buffer_range]. *)
Definition store_byte (b : gmap Z Z) (idx x : Z) : gmap Z Z * Z :=
  let idx := wrap_idx idx in (<[idx := x]> b, idx + 1).

(** One turn of [read_from_buffer]. *)
Definition load_byte (b : gmap Z Z) (idx : Z) : Z * Z :=
  let idx := wrap_idx idx in (buf_get b idx, idx + 1).

(** A thread that has claimed the range at [old_idx]. *)
Definition started (s : simple) (old_idx : Z) (c : claim) : producer :=
  let idx := old_idx mod TRACE_BUF_LEN in
  PHeader idx c idx
    (le_bytes 8 (c_event c) ++ le_bytes 8 (c_ts c) ++ le_bytes 4 (u32 (claim_len c)) ++
     le_bytes 4 (trace_pid s)).

(** The next step of a producing thread; [None]: the event function returns. *)
Definition produce (s : simple) (p : producer) : simple * option producer :=
  match p with
  | PHeader idx c off (x :: todo) =>
      let '(b, off) := store_byte (trace_buf s) off x in
      (set_buf s b, Some (PHeader idx c off todo))
  | PHeader idx c _ [] =>
      let rec_off := (idx + Z.of_nat sizeof_TraceRecord) mod TRACE_BUF_LEN in
      (s, Some (PArgs (mkTraceBufferRecord idx rec_off) [] (c_args c)))
  | PArgs rec (x :: todo) rest =>
      let '(b, off) := store_byte (trace_buf s) (rec_off rec) x in
      (set_buf s b, Some (PArgs (mkTraceBufferRecord (tbuf_idx rec) off) todo rest))
  | PArgs rec [] (a :: rest) => (s, Some (PArgs rec (targ_bytes a) rest))
  | PArgs rec [] [] => (s, Some (PRead rec (tbuf_idx rec) []))
  | PRead rec off got =>
      if (List.length got <? sizeof_TraceRecord)%nat then
        let '(x, off) := load_byte (trace_buf s) off in
        (s, Some (PRead rec off (got ++ [x])))
      else
        (s, Some (PMark rec (tbuf_idx rec)
                    (TraceRecord_bytes (mark_valid (TraceRecord_of_bytes got)))))
  | PMark rec off (x :: todo) =>
      let '(b, off) := store_byte (trace_buf s) off x in
      (set_buf s b, Some (PMark rec off todo))
  | PMark _ _ [] => (kick_writeout s, None)
  end.

(** The next step of the writeout thread, at the time [now]; [None] while it
    blocks. *)
Definition consume (now : Z) (s : sys) : option sys :=
  let at_ core' pc := mkSys core' (producers s) pc (cidx s) (out s) in
  match cpc s with
  | CWait =>
      match wait_for_trace_records_available (core s) with
      | None => None
      | Some core' => Some (at_ core' CWoken)
      end
  | CWoken =>
      if dropped_events (core s) =? 0 then Some (at_ (core s) (CRead RFlag (cidx s) []))
      else Some (mkSys (set_dropped (core s) 0) (producers s) (CRead RFlag (cidx s) [])
                       (cidx s) (out s ++ [dropped_message (core s) now]))
  | CRead r off got =>
      if (List.length got <? wanted r)%nat then
        let '(x, off) := load_byte (trace_buf (core s)) off in
        Some (at_ (core s) (CRead r off (got ++ [x])))
      else
        match r with
        | RFlag =>
            if Z.land (le_val got) TRACE_RECORD_VALID =? 0 then Some (at_ (core s) CWait)
            else Some (at_ (core s) (CRead RHead (cidx s) []))
        | RHead =>
            let len := Z.to_nat (length (TraceRecord_of_bytes got)) in
            Some (at_ (core s) (CRead (RBody len) (cidx s) []))
        | RBody len => Some (at_ (core s) (CClear (clear_valid got) (cidx s) len))
        end
  | CClear record off (S remaining) =>
      let '(b, off) := store_byte (trace_buf (core s)) off 0 in
      Some (at_ (set_buf (core s) b) (CClear record off remaining))
  | CClear record _ O => Some (at_ (core s) (CTaken record))
  | CTaken record =>
      let w := u32 (writeout_idx (core s) + length (TraceRecord_of_bytes record)) in
      let idx := w mod TRACE_BUF_LEN in
      Some (mkSys (set_writeout_idx (core s) w) (producers s) (CRead RFlag idx []) idx
                  (out s ++ [record_message record]))
  end.

Definition set_thread (tid : nat) (p : option producer) (ps : gmap nat producer)
  : gmap nat producer :=
  match p with
  | Some p => <[tid := p]> ps
  | None => delete tid ps
  end.

Inductive step : sys -> option claim -> sys -> Prop :=
| step_claim s tid c old core' :
    producers s !! tid = None -> claim_ok c ->
    trace_record_claim (core s) (u32 (claim_len c)) = Some (old, core') ->
    step s (Some c)
         (mkSys core' (<[tid := started core' old c]> (producers s)) (cpc s) (cidx s) (out s))
| step_produce s tid p core' p' :
    producers s !! tid = Some p -> produce (core s) p = (core', p') ->
    step s None (mkSys core' (set_thread tid p' (producers s)) (cpc s) (cidx s) (out s))
| step_consume s now s' :
    consume now s = Some s' -> step s None s'
| step_flush s :
    step s None (mkSys (flush_trace_file_nowait (core s)) (producers s) (cpc s) (cidx s) (out s))
| step_enable s e :
    step s None (mkSys (set_enabled (core s) e) (producers s) (cpc s) (cidx s) (out s)).

(** Executions through states that satisfy [ok], with the claims in the order
    in which they were made. *)
Inductive steps (ok : sys -> Prop) : sys -> list claim -> sys -> Prop :=
| steps_nil s : steps ok s [] s
| steps_snoc s tr s' l s'' :
    steps ok s tr s' -> step s' l s'' -> ok s'' -> steps ok s (tr ++ option_list l) s''.

(** [trace_record_finish] makes a record valid with the eighth byte of its
    header and goes on to store the other sixteen again.  An execution is timely
    when the writeout thread does not clear a record whose header is
    still being stored. *)
Definition rewriting (idx : Z) (p : producer) : bool :=
  match p with
  | PMark rec _ (_ :: _) => tbuf_idx rec =? idx
  | _ => false
  end.

Definition taking (pc : consumer) : bool :=
  match pc with
  | CClear _ _ _ | CTaken _ => true
  | _ => false
  end.

Definition timely (s : sys) : Prop :=
  taking (cpc s) = true -> map_Forall (fun _ p => rewriting (cidx s) p = false) (producers s).

#[global] Instance timely_dec s : Decision (timely s).
Proof. unfold timely. apply _. Defined.

Definition anytime (s : sys) : Prop := True.

#[global] Instance anytime_dec s : Decision (anytime s).
Proof. unfold anytime. apply _. Defined.

Lemma steps_trans ok s tr s' tr' s'' :
  steps ok s tr s' -> steps ok s' tr' s'' -> steps ok s (tr ++ tr') s''.
Proof.
  intros H H'. induction H'; [by rewrite app_nil_r|]. rewrite app_assoc. econstructor; eauto.
Qed.

Lemma steps_one ok s l s' : step s l s' -> ok s' -> steps ok s (option_list l) s'.
Proof. intros H Hok. rewrite <- (app_nil_l (option_list l)). econstructor; [constructor|done|done]. Qed.

(** ** One thread alone

    Without interleaving, the steps of a thread compute what the functions of
    [Ring] compute. *)

Lemma store_byte_write b off x data :
  write_to_buffer b off (x :: data) =
    let '(b, off) := store_byte b off x in write_to_buffer b off data.
Proof. done. Qed.

Lemma load_byte_read b off n :
  read_from_buffer b off (S n) = let '(x, off) := load_byte b off in x :: read_from_buffer b off n.
Proof. done. Qed.

Fixpoint produces (n : nat) (s : simple) (p : option producer) : simple * option producer :=
  match n, p with
  | S n, Some p => let '(s, p) := produce s p in produces n s p
  | _, _ => (s, p)
  end.

Lemma produces_add n m s p :
  produces (n + m) s p = let '(s, p) := produces n s p in produces m s p.
Proof.
  revert s p. induction n as [|n IH]; intros s p; [done|]. cbn [Nat.add produces].
  destruct p as [p|]; [|by destruct m]. destruct (produce s p) as [s' p']. apply IH.
Qed.

(** [leads s p s' p']: the thread alone gets from [p] to [p']. *)
Definition leads (s : simple) (p : option producer) (s' : simple) (p' : option producer) : Prop :=
  exists n, produces n s p = (s', p').

Lemma leads_trans s p s1 p1 s2 p2 : leads s p s1 p1 -> leads s1 p1 s2 p2 -> leads s p s2 p2.
Proof. intros [n Hn] [m Hm]. exists (n + m)%nat. by rewrite produces_add, Hn. Qed.

Lemma leads_one s p s1 p1 : produce s p = (s1, p1) -> leads s (Some p) s1 p1.
Proof. intros H. exists 1%nat. cbn. by rewrite H. Qed.

(** A loop of stores, in any of the three functions that have one. *)
Lemma stores_lead (at_ : Z -> list Z -> producer) s off todo :
  (forall s off x todo, produce s (at_ off (x :: todo)) =
     (set_buf s (store_byte (trace_buf s) off x).1, Some (at_ (store_byte (trace_buf s) off x).2 todo))) ->
  leads s (Some (at_ off todo)) (set_buf s (write_to_buffer (trace_buf s) off todo).1)
        (Some (at_ (write_to_buffer (trace_buf s) off todo).2 [])).
Proof.
  intros H. revert s off. induction todo as [|x todo IH]; intros s off.
  - exists 0%nat. by destruct s.
  - eapply leads_trans; [apply leads_one, H|].
    specialize (IH (set_buf s (store_byte (trace_buf s) off x).1) (store_byte (trace_buf s) off x).2).
    by rewrite store_byte_write.
Qed.

Lemma header_leads s old c :
  let '(rec, s') := trace_record_header s old (c_event c) (c_ts c) (u32 (claim_len c)) in
  leads s (Some (started s old c)) s' (Some (PArgs rec [] (c_args c))).
Proof.
  rewrite trace_record_header_write. unfold started.
  eapply leads_trans; [by apply (stores_lead (PHeader (old mod TRACE_BUF_LEN) c))|].
  by apply leads_one.
Qed.

Lemma arg_leads s rec a rest :
  let '(rec', s') := trace_record_write s rec a in
  leads s (Some (PArgs rec [] (a :: rest))) s' (Some (PArgs rec' [] rest)).
Proof.
  rewrite trace_record_write_write. eapply leads_trans; [by apply leads_one|].
  pose proof (stores_lead (fun off todo => PArgs (mkTraceBufferRecord (tbuf_idx rec) off) todo rest)
    s (rec_off rec) (targ_bytes a)) as H. destruct rec. by apply H.
Qed.

Lemma args_lead l : forall s rec,
  let '(rec', s') := trace_record_writes s rec l in
  leads s (Some (PArgs rec [] l)) s' (Some (PArgs rec' [] [])).
Proof.
  induction l as [|a l IH]; intros s rec; cbn [trace_record_writes]; [by exists 0%nat|].
  pose proof (arg_leads s rec a l) as H. destruct (trace_record_write s rec a) as [rec' s'].
  specialize (IH s' rec'). destruct (trace_record_writes s' rec' l) as [rec2 s2].
  by eapply leads_trans.
Qed.

Lemma read_leads m : forall s rec off got,
  (List.length got + m = sizeof_TraceRecord)%nat ->
  exists off', leads s (Some (PRead rec off got)) s
    (Some (PRead rec off' (got ++ read_from_buffer (trace_buf s) off m))).
Proof.
  induction m as [|m IH]; intros s rec off got H.
  - exists off, 0%nat. cbn. by rewrite app_nil_r.
  - rewrite load_byte_read. destruct (load_byte (trace_buf s) off) as [x off1] eqn:E.
    destruct (IH s rec off1 (got ++ [x])) as [off' H'].
    { rewrite length_app. cbn. lia. }
    exists off'. rewrite <- app_assoc in H'. eapply leads_trans; [|exact H'].
    apply leads_one. cbn [produce]. rewrite (proj2 (Nat.ltb_lt _ _)) by lia. by rewrite E.
Qed.

Lemma finish_leads s rec : leads s (Some (PArgs rec [] [])) (trace_record_finish s rec) None.
Proof.
  eapply leads_trans; [by apply leads_one|].
  destruct (read_leads sizeof_TraceRecord s rec (tbuf_idx rec) [] eq_refl) as [off H].
  eapply leads_trans; [exact H|]. cbn [app].
  eapply leads_trans.
  { apply leads_one. cbn [produce]. rewrite length_read_from_buffer. by rewrite Nat.ltb_irrefl. }
  eapply leads_trans; [by apply (stores_lead (PMark rec))|].
  unfold trace_record_finish. destruct (write_to_buffer _ _ _) as [b i]. by apply leads_one.
Qed.

(** A trace event function that no other thread interleaves with. *)
Theorem event_alone s c :
  match trace_record_claim s (u32 (claim_len c)) with
  | None => simple_trace s (c_event c) (c_ts c) (c_args c) = None
  | Some (old, s1) => exists s',
      simple_trace s (c_event c) (c_ts c) (c_args c) = Some s' /\
      leads s1 (Some (started s1 old c)) s' None
  end.
Proof.
  unfold simple_trace, trace_record_start. fold (claim_len c).
  destruct (trace_record_claim s _) as [[old s1]|]; [|done].
  pose proof (header_leads s1 old c) as H1.
  destruct (trace_record_header _ _ _ _ _) as [rec s2].
  pose proof (args_lead (c_args c) s2 rec) as H2.
  destruct (trace_record_writes s2 rec (c_args c)) as [rec' s3].
  eexists. split; [done|]. eapply leads_trans; [exact H1|].
  eapply leads_trans; [exact H2|]. apply finish_leads.
Qed.

(** *** The writeout thread alone *)

(** No thread is storing a header again. *)
Definition quiet (s : sys) : Prop :=
  map_Forall (fun _ p => match p with PMark _ _ (_ :: _) => False | _ => True end) (producers s).

Lemma quiet_timely s : quiet s -> timely s.
Proof.
  intros H _ tid p Hp. specialize (H tid p Hp). by destruct p as [| | |? ? []].
Qed.

Lemma consume_producers now s s' : consume now s = Some s' -> producers s' = producers s.
Proof.
  unfold consume. intros H. repeat case_match; simplify_eq; done.
Qed.

(** [passes s s']: the writeout thread alone gets from [s] to [s']. *)
Inductive passes : sys -> sys -> Prop :=
| passes_refl s : passes s s
| passes_step now s s1 s' : consume now s = Some s1 -> passes s1 s' -> passes s s'.

Lemma passes_trans s s1 s2 : passes s s1 -> passes s1 s2 -> passes s s2.
Proof. induction 1; [done|]. intros H'. econstructor; eauto. Qed.

Lemma passes_one now s s' : consume now s = Some s' -> passes s s'.
Proof. intros H. econstructor; [done|]. constructor. Qed.

Lemma passes_steps s s' : passes s s' -> quiet s -> steps timely s [] s'.
Proof.
  induction 1 as [s|now s s1 s' Hc _ IH]; intros Hq; [constructor|].
  assert (quiet s1) as Hq1 by (unfold quiet; by rewrite (consume_producers _ _ _ Hc)).
  change (@nil claim) with (option_list (@None claim) ++ []).
  eapply steps_trans; [eapply steps_one|by apply IH].
  - by apply (step_consume _ now).
  - by apply quiet_timely.
Qed.

(** The system with the writeout thread somewhere else. *)
Definition moved (s : sys) (core' : simple) (pc : consumer) : sys :=
  mkSys core' (producers s) pc (cidx s) (out s).

Lemma reads_pass r m : forall s off got,
  cpc s = CRead r off got -> (List.length got + m = wanted r)%nat ->
  exists off', passes s (moved s (core s) (CRead r off' (got ++ read_from_buffer (trace_buf (core s)) off m))).
Proof.
  induction m as [|m IH]; intros s off got Hc H.
  - exists off. cbn. rewrite app_nil_r, <- Hc. destruct s. constructor.
  - rewrite load_byte_read. destruct (load_byte (trace_buf (core s)) off) as [x off1] eqn:E.
    destruct (IH (moved s (core s) (CRead r off1 (got ++ [x]))) off1 (got ++ [x])) as [off' H'];
      [done|rewrite length_app; cbn; lia|].
    exists off'. rewrite <- app_assoc in H'. eapply (passes_step 0); [|exact H'].
    unfold consume. rewrite Hc, (proj2 (Nat.ltb_lt _ _)) by lia. by rewrite E.
Qed.

Lemma read_passes r s : cpc s = CRead r (cidx s) [] ->
  exists off, passes s (moved s (core s) (CRead r off (read_from_buffer (trace_buf (core s)) (cidx s) (wanted r)))).
Proof. intros Hc. by apply (reads_pass r (wanted r) s (cidx s) []). Qed.

Lemma consume_read r s off got now :
  cpc s = CRead r off got -> List.length got = wanted r ->
  consume now s = Some
    match r with
    | RFlag => if Z.land (le_val got) TRACE_RECORD_VALID =? 0 then moved s (core s) CWait
               else moved s (core s) (CRead RHead (cidx s) [])
    | RHead => moved s (core s) (CRead (RBody (Z.to_nat (length (TraceRecord_of_bytes got)))) (cidx s) [])
    | RBody len => moved s (core s) (CClear (clear_valid got) (cidx s) len)
    end.
Proof.
  intros Hc Hl. unfold consume. rewrite Hc, Hl, Nat.ltb_irrefl. by destruct r; try case_match.
Qed.

Lemma clear_passes n : forall s record off,
  cpc s = CClear record off n ->
  passes s (moved s (set_buf (core s) (clear_buffer_range (trace_buf (core s)) off n)) (CTaken record)).
Proof.
  induction n as [|n IH]; intros s record off Hc.
  - apply (passes_one 0). unfold consume. rewrite Hc. destruct s as [[]]. done.
  - set (b := (store_byte (trace_buf (core s)) off 0)).
    eapply (passes_step 0); [unfold consume; rewrite Hc; done|].
    apply (IH (moved s (set_buf (core s) b.1) (CClear record b.2 n)) record b.2). done.
Qed.

(** [get_trace_record] with nothing interleaved. *)
Lemma get_passes s : cpc s = CRead RFlag (cidx s) [] ->
  passes s match get_trace_record (trace_buf (core s)) (cidx s) with
           | None => moved s (core s) CWait
           | Some (record, b) => moved s (set_buf (core s) b) (CTaken record)
           end.
Proof.
  intros Hc. destruct (read_passes _ _ Hc) as [off1 H1]. eapply passes_trans; [exact H1|].
  set (s1 := moved _ _ _). unfold get_trace_record.
  eapply passes_step.
  { eapply (consume_read RFlag s1) with (now := 0); [done|]. apply length_read_from_buffer. }
  cbn [wanted]. destruct (Z.land _ _ =? 0); [constructor|].
  destruct (read_passes RHead (moved s1 (core s1) (CRead RHead (cidx s1) []))) as [off2 H2]; [done|].
  eapply passes_trans; [exact H2|]. set (s2 := moved _ _ _).
  eapply passes_step.
  { eapply (consume_read RHead s2) with (now := 0); [done|]. apply length_read_from_buffer. }
  cbn [wanted core moved s2 s1 trace_buf cidx].
  set (len := Z.to_nat _). set (s3 := moved _ _ (CRead (RBody len) _ _)).
  destruct (read_passes (RBody len) s3) as [off3 H3]; [done|].
  eapply passes_trans; [exact H3|]. set (s4 := moved _ _ _).
  eapply passes_step.
  { eapply (consume_read (RBody len) s4) with (now := 0); [done|]. apply length_read_from_buffer. }
  cbn [wanted]. eapply passes_trans; [by apply clear_passes|]. constructor.
Qed.

(** One turn of the loop of [writeout_thread]. *)
Lemma writeout_one_passes s msg core' idx :
  cpc s = CRead RFlag (cidx s) [] -> writeout_one (core s) (cidx s) = Some (msg, core', idx) ->
  passes s (mkSys core' (producers s) (CRead RFlag idx []) idx (out s ++ [msg])).
Proof.
  intros Hc H. pose proof (get_passes s Hc) as Hp. unfold writeout_one in H.
  destruct (get_trace_record _ _) as [[record b]|]; [|done].
  eapply passes_trans; [exact Hp|]. apply (passes_one 0).
  revert H. cbn zeta. intros [[<- <-]%pair_equal_spec <-]%(inj Some)%pair_equal_spec. done.
Qed.

(** ** An executable scheduler

    [exec] performs one chosen action; it only makes steps of the relation, so
    that concrete executions are obtained by evaluation. *)

Inductive action :=
| AClaim (tid : nat) (c : claim)
| AProduce (tid : nat)
| AWrite
| AFlush
| AEnable (e : bool).

#[global] Instance targ_ok_dec a : Decision (targ_ok a).
Proof. destruct a; simpl; unfold is_byte; apply _. Defined.

#[global] Instance claim_ok_dec c : Decision (claim_ok c).
Proof. unfold claim_ok. apply _. Defined.

Definition exec (s : sys) (a : action) : option (option claim * sys) :=
  match a with
  | AClaim tid c =>
      match producers s !! tid, trace_record_claim (core s) (u32 (claim_len c)) with
      | None, Some (old, core') =>
          if decide (claim_ok c) then
            Some (Some c, mkSys core' (<[tid := started core' old c]> (producers s)) (cpc s) (cidx s) (out s))
          else None
      | _, _ => None
      end
  | AProduce tid =>
      match producers s !! tid with
      | Some p => let '(core', p') := produce (core s) p in
          Some (None, mkSys core' (set_thread tid p' (producers s)) (cpc s) (cidx s) (out s))
      | None => None
      end
  | AWrite => s' ← consume 0 s; Some (None, s')
  | AFlush => Some (None, mkSys (flush_trace_file_nowait (core s)) (producers s) (cpc s) (cidx s) (out s))
  | AEnable e => Some (None, mkSys (set_enabled (core s) e) (producers s) (cpc s) (cidx s) (out s))
  end.

Fixpoint run (ok : sys -> Prop) `{!forall s, Decision (ok s)} (s : sys) (tr : list claim) (l : list action)
  : option (list claim * sys) :=
  match l with
  | [] => Some (tr, s)
  | a :: l => p ← exec s a; if decide (ok p.2) then run ok p.2 (tr ++ option_list p.1) l else None
  end.

Lemma exec_step s a l s' : exec s a = Some (l, s') -> step s l s'.
Proof.
  destruct a; simpl.
  - destruct (producers s !! tid) eqn:Hp; [done|].
    destruct (trace_record_claim _ _) as [[old core']|] eqn:Hc; [|done].
    case_decide; [|done]. intros [<- <-]%(inj Some)%pair_equal_spec. by apply step_claim.
  - destruct (producers s !! tid) as [p|] eqn:Hp; [|done].
    destruct (produce (core s) p) as [core' p'] eqn:E. intros [<- <-]%(inj Some)%pair_equal_spec.
    by eapply step_produce.
  - destruct (consume 0 s) eqn:He; [|done]. intros [= <- <-]. by eapply step_consume.
  - intros [= <- <-]. apply step_flush.
  - intros [= <- <-]. apply step_enable.
Qed.

Lemma run_steps_from ok `{!forall s, Decision (ok s)} s0 tr0 s tr l s' :
  steps ok s0 tr0 s -> run ok s tr0 l = Some (tr, s') -> steps ok s0 tr s'.
Proof.
  revert s tr0. induction l as [|a l IH]; intros s tr0 Hs; simpl.
  - by intros [= <- <-].
  - destruct (exec s a) as [[o s1]|] eqn:He; [|done]. simpl. case_decide; [|done]. apply IH.
    econstructor; [done| |done]. by eapply exec_step.
Qed.

Lemma run_steps ok `{!forall s, Decision (ok s)} s tr l s' : run ok s [] l = Some (tr, s') -> steps ok s tr s'.
Proof. apply run_steps_from. constructor. Qed.

End Threads.
