(* ===== verification/TraceQueue.v ===== *)
(** * The ring buffer as a queue

    The invariant of the byte-level system of [TraceThreads.Threads]: every
    claimed record that is not yet written out is an entry of a queue, and its
    status determines the bytes of its range of the ring.  In every execution in
    which the writeout thread clears no record whose header is still being
    stored, the file receives every claimed record, once, in the order in which
    the records were claimed.  In others it need not: bytes stored late stay
    in the ring. *)

From S2P Require Import Prelude TraceBuffer TraceThreads.
Open Scope Z_scope.

Module Queue.
Import Ring Threads.

(** ** Entries *)

(** How far a record is: its first [k] bytes are stored; the first [k] bytes of
    its header are stored again, with the valid flag; it is finished; the
    first [k] bytes of its range are cleared. *)
Inductive status :=
| EWriting (tid : nat) (k : nat)
| EMarking (tid : nat) (k : nat)
| EDone
| ETaken (k : nat).

Record entry := mkEntry {
  e_claim : claim;
  e_status : status;
}.

Definition e_tid (e : entry) : option nat :=
  match e_status e with
  | EWriting tid _ | EMarking tid _ => Some tid
  | EDone | ETaken _ => None
  end.

Definition targs_bytes (l : list targ) : list Z := concat (map targ_bytes l).

Definition claim_size (c : claim) : nat := Z.to_nat (claim_len c).

Definition fixed_part (pid : Z) (c : claim) : TraceRecord :=
  mkTraceRecord (c_event c) (c_ts c) (claim_len c) pid.

(** The record of a claim, and the same with the valid flag. *)
Definition claim_record (pid : Z) (c : claim) : list Z :=
  TraceRecord_bytes (fixed_part pid c) ++ targs_bytes (c_args c).
Definition valid_header (pid : Z) (c : claim) : list Z :=
  TraceRecord_bytes (mark_valid (fixed_part pid c)).
Definition valid_record (pid : Z) (c : claim) : list Z :=
  valid_header pid c ++ targs_bytes (c_args c).

Definition pad (n : nat) (l : list Z) : list Z := l ++ replicate (n - List.length l) 0.

Definition entry_bytes (pid : Z) (e : entry) : list Z :=
  let c := e_claim e in
  match e_status e with
  | EWriting _ k => pad (claim_size c) (take k (claim_record pid c))
  | EMarking _ k => if (k <=? 7)%nat then claim_record pid c else valid_record pid c
  | EDone => valid_record pid c
  | ETaken k => replicate k 0 ++ drop k (valid_record pid c)
  end.

Definition entry_ok (e : entry) : Prop :=
  claim_ok (e_claim e) /\
  match e_status e with
  | EWriting _ k => (k <= claim_size (e_claim e))%nat
  | EMarking _ k => (k < sizeof_TraceRecord)%nat
  | EDone => True
  | ETaken k => (k <= claim_size (e_claim e))%nat
  end.

Definition queue_bytes (pid : Z) (q : list entry) : list Z :=
  concat (map (entry_bytes pid) q).

(** Offset of entry [k] from the start of the queue. *)
Definition offset (pid : Z) (q : list entry) (k : nat) : nat :=
  List.length (queue_bytes pid (take k q)).

Definition claim_message (pid : Z) (c : claim) : list Z :=
  record_message (event_record pid (c_event c) (c_ts c) (c_args c)).

(** ** The invariant *)

(** The index [off] of a loop stands at byte [o] behind position [P]. *)
Definition at_byte (P : Z) (o : nat) (off : Z) : Prop :=
  0 <= off /\ off mod TRACE_BUF_LEN = (P + Z.of_nat o) mod TRACE_BUF_LEN.

(** A thread that has stored [k] bytes of the record of [c] at position [P]. *)
Definition writer (pid P : Z) (c : claim) (k : nat) (p : producer) : Prop :=
  match p with
  | PHeader idx c' off todo =>
      c' = c /\ idx = P mod TRACE_BUF_LEN /\ at_byte P k off /\
      todo = drop k (TraceRecord_bytes (fixed_part pid c)) /\ (k <= sizeof_TraceRecord)%nat
  | PArgs rec todo rest =>
      tbuf_idx rec = P mod TRACE_BUF_LEN /\ at_byte P k (rec_off rec) /\
      todo ++ targs_bytes rest = drop k (claim_record pid c) /\ (sizeof_TraceRecord <= k)%nat
  | PRead rec off got =>
      tbuf_idx rec = P mod TRACE_BUF_LEN /\ k = claim_size c /\
      at_byte P (List.length got) off /\ (List.length got <= sizeof_TraceRecord)%nat /\
      got = take (List.length got) (TraceRecord_bytes (fixed_part pid c))
  | PMark _ _ _ => False
  end.

(** What the thread that owns an entry at position [P] is doing. *)
Definition entry_owner (pid P : Z) (e : entry) (ps : gmap nat producer) : Prop :=
  match e_status e with
  | EWriting tid k => exists p, ps !! tid = Some p /\ writer pid P (e_claim e) k p
  | EMarking tid k => exists rec off,
      ps !! tid = Some (PMark rec off (drop k (valid_header pid (e_claim e)))) /\
      tbuf_idx rec = P mod TRACE_BUF_LEN /\ at_byte P k off
  | EDone | ETaken _ => True
  end.

(** A thread that has stored its record and is about to return. *)
Definition leaving (p : producer) : bool :=
  match p with PMark _ _ [] => true | _ => false end.

(** The other threads inside a trace event function and the entries in
    progress correspond one to one. *)
Record owned (pid W : Z) (q : list entry) (ps : gmap nat producer) : Prop := {
  o_owner : forall k e, q !! k = Some e -> entry_owner pid (W + Z.of_nat (offset pid q k)) e ps;
  o_producers : forall tid p, ps !! tid = Some p -> leaving p = false ->
    exists k e, q !! k = Some e /\ e_tid e = Some tid;
  o_unique : forall k1 k2 e1 e2 tid, q !! k1 = Some e1 -> q !! k2 = Some e2 ->
    e_tid e1 = Some tid -> e_tid e2 = Some tid -> k1 = k2;
}.

(** The valid flag of the entry is in the ring. *)
Definition ready (st : status) : Prop :=
  match st with
  | EMarking _ k => (8 <= k)%nat
  | EDone => True
  | _ => False
  end.

Definition head_ready (q : list entry) (c : claim) : Prop :=
  exists st q', q = mkEntry c st :: q' /\ ready st.

(** What the writeout thread has read, or is clearing. *)
Definition consumer_ok (pid W : Z) (q : list entry) (pc : consumer) : Prop :=
  match pc with
  | CWait | CWoken => True
  | CRead r off got =>
      at_byte W (List.length got) off /\ (List.length got <= wanted r)%nat /\
      match r with
      | RFlag => Forall is_byte got /\ (forall x, got !! 7%nat = Some x -> 128 <= x -> exists c, head_ready q c)
      | RHead => exists c, head_ready q c /\ got = take (List.length got) (valid_header pid c)
      | RBody len => exists c, head_ready q c /\ len = claim_size c /\
          got = take (List.length got) (valid_record pid c)
      end
  | CClear record off n => exists c k q', q = mkEntry c (ETaken k) :: q' /\
      record = claim_record pid c /\ (k + n = claim_size c)%nat /\ at_byte W k off
  | CTaken record => exists c q', q = mkEntry c (ETaken (claim_size c)) :: q' /\
      record = claim_record pid c
  end.

Record inv_at (pid : Z) (tr : list claim) (s : sys)
  (W : Z) (emitted : list claim) (q : list entry) : Prop := {
  i_trace : tr = emitted ++ map e_claim q;
  i_out : out s = map (claim_message pid) emitted;
  i_pid : trace_pid (core s) = pid;
  i_pid_ok : 0 <= pid < 2 ^ 32;
  i_dropped : dropped_events (core s) = 0;
  i_writeout : writeout_idx (core s) = u32 W;
  i_trace_idx : trace_idx (core s) = u32 (W + Z.of_nat (List.length (queue_bytes pid q)));
  i_cidx : cidx s = W mod TRACE_BUF_LEN;
  i_window : window (trace_buf (core s)) W (queue_bytes pid q);
  i_entries : Forall entry_ok q;
  i_owned : owned pid W q (producers s);
  i_taken : forall j e k, q !! j = Some e -> e_status e = ETaken k -> j = 0%nat /\ taking (cpc s) = true;
  i_consumer : consumer_ok pid W q (cpc s);
}.

Definition inv (pid : Z) (tr : list claim) (s : sys) : Prop :=
  exists W emitted q, inv_at pid tr s W emitted q.

(** ** Sizes *)

Lemma targs_size_nonneg l : 0 <= targs_size l.
Proof. induction l as [|[]]; simpl; lia. Qed.

Lemma length_targ_bytes a : Z.of_nat (List.length (targ_bytes a)) = targ_size a.
Proof. destruct a; simpl; rewrite ?length_app, ?length_le_bytes; lia. Qed.

Lemma length_targs_bytes l : Z.of_nat (List.length (targs_bytes l)) = targs_size l.
Proof.
  unfold targs_bytes. induction l; simpl; [done|].
  rewrite length_app, Nat2Z.inj_add, length_targ_bytes. lia.
Qed.

Lemma length_TraceRecord_bytes r : List.length (TraceRecord_bytes r) = sizeof_TraceRecord.
Proof. reflexivity. Qed.

Lemma length_valid_header pid c : List.length (valid_header pid c) = sizeof_TraceRecord.
Proof. reflexivity. Qed.

Lemma claim_len_bounds c : claim_ok c -> 24 <= claim_len c < 2 ^ 31.
Proof.
  intros (_ & _ & _ & H). split; [|done].
  unfold claim_len, sizeof_TraceRecord in *. pose proof (targs_size_nonneg (c_args c)). lia.
Qed.

Lemma length_claim_record pid c : List.length (claim_record pid c) = claim_size c.
Proof.
  unfold claim_record, claim_size, claim_len. rewrite length_app, length_TraceRecord_bytes.
  pose proof (length_targs_bytes (c_args c)). lia.
Qed.

Lemma length_valid_record pid c : List.length (valid_record pid c) = claim_size c.
Proof.
  unfold valid_record, claim_size, claim_len. rewrite length_app, length_valid_header.
  pose proof (length_targs_bytes (c_args c)). lia.
Qed.

Lemma claim_size_header c : (sizeof_TraceRecord <= claim_size c)%nat.
Proof.
  unfold claim_size, claim_len. pose proof (targs_size_nonneg (c_args c)). lia.
Qed.

(** An entry occupies the bytes of its claim in every status. *)
Lemma length_entry_bytes pid e :
  entry_ok e -> List.length (entry_bytes pid e) = claim_size (e_claim e).
Proof.
  intros [_ He]. unfold entry_bytes. destruct (e_status e) as [t k|t k| |k].
  - unfold pad. rewrite length_app, length_replicate, length_take, length_claim_record. lia.
  - destruct (k <=? 7)%nat; [apply length_claim_record|apply length_valid_record].
  - apply length_valid_record.
  - rewrite length_app, length_replicate, length_drop, length_valid_record. lia.
Qed.

Lemma length_queue_bytes pid q :
  List.length (queue_bytes pid q) = sum_list (map (fun e => List.length (entry_bytes pid e)) q).
Proof. unfold queue_bytes. by rewrite length_concat, map_map. Qed.

Lemma queue_bytes_app pid q1 q2 : queue_bytes pid (q1 ++ q2) = queue_bytes pid q1 ++ queue_bytes pid q2.
Proof. unfold queue_bytes. by rewrite map_app, concat_app. Qed.

Lemma offset_alt pid q k :
  offset pid q k = sum_list (take k (map (fun e => List.length (entry_bytes pid e)) q)).
Proof. unfold offset. rewrite length_queue_bytes. by rewrite <- firstn_map. Qed.

Lemma queue_split pid q k e :
  q !! k = Some e ->
  queue_bytes pid q = queue_bytes pid (take k q) ++ entry_bytes pid e ++ queue_bytes pid (drop (S k) q).
Proof.
  intros H. rewrite <- (take_drop_middle q k e H) at 1.
  rewrite queue_bytes_app. done.
Qed.

Lemma offset_bound pid q k e :
  q !! k = Some e ->
  (offset pid q k + List.length (entry_bytes pid e) <= List.length (queue_bytes pid q))%nat.
Proof. intros H. rewrite (queue_split pid q k e H), !length_app. unfold offset. lia. Qed.

Lemma offset_cons pid e q k :
  offset pid (e :: q) (S k) = (List.length (entry_bytes pid e) + offset pid q k)%nat.
Proof. unfold offset, queue_bytes. simpl. by rewrite length_app. Qed.

Lemma queue_bytes_insert pid q k e e' o d :
  q !! k = Some e ->
  entry_bytes pid e' = list_inserts o d (entry_bytes pid e) ->
  (o + List.length d <= List.length (entry_bytes pid e))%nat ->
  queue_bytes pid (<[k := e']> q) = list_inserts (offset pid q k + o) d (queue_bytes pid q).
Proof.
  intros Hk He Ho. rewrite (queue_split pid q k e Hk).
  unfold offset at 1. rewrite list_inserts_middle by done. rewrite <- He.
  assert (<[k := e']> q !! k = Some e') as Hk'.
  { apply list_lookup_insert_eq. by eapply lookup_lt_Some. }
  rewrite (queue_split pid _ k e' Hk'). f_equal; [|f_equal].
  - by rewrite take_insert_ge.
  - by rewrite drop_insert_lt by lia.
Qed.

Lemma offset_insert pid q k e e' j :
  q !! k = Some e -> List.length (entry_bytes pid e') = List.length (entry_bytes pid e) ->
  offset pid (<[k := e']> q) j = offset pid q j.
Proof.
  intros Hk Hl. rewrite !offset_alt. f_equal. f_equal.
  rewrite list_fmap_insert. apply list_insert_id.
  rewrite list_lookup_fmap, Hk. simpl. by f_equal.
Qed.

(** ** Bytes of an entry *)

Lemma pad_full n l : List.length l = n -> pad n l = l.
Proof. intros <-. unfold pad. by rewrite Nat.sub_diag, app_nil_r. Qed.

Lemma pad_snoc n l x :
  (List.length l < n)%nat -> list_inserts (List.length l) [x] (pad n l) = pad n (l ++ [x]).
Proof.
  intros H. unfold pad. cbn [list_inserts]. rewrite insert_app_r_alt by lia. rewrite Nat.sub_diag, length_app. cbn [List.length].
  replace (n - List.length l)%nat with (S (n - (List.length l + 1))) by lia.
  cbn [replicate]. by rewrite <- app_assoc.
Qed.

(** Storing a byte of the record. *)
Lemma entry_write pid c tid k x :
  claim_record pid c !! k = Some x ->
  entry_bytes pid (mkEntry c (EWriting tid (S k))) =
    list_inserts k [x] (entry_bytes pid (mkEntry c (EWriting tid k))).
Proof.
  intros Hx. pose proof (lookup_lt_Some _ _ _ Hx) as Hk. rewrite length_claim_record in Hk.
  unfold entry_bytes; cbn [e_claim e_status]. rewrite (take_S_r _ _ x) by done.
  rewrite <- (pad_snoc _ (take k _)) by (rewrite length_take, length_claim_record; lia).
  rewrite length_take, length_claim_record. by rewrite Nat.min_l by lia.
Qed.

(** The valid flag is the highest bit of byte 7, which is 0 in an event number. *)
Lemma valid_bytes ev : 0 <= ev < 2 ^ 32 ->
  le_bytes 8 (Z.lor ev TRACE_RECORD_VALID) = <[7%nat := 128]> (le_bytes 8 ev) /\ le_bytes 8 ev !! 7%nat = Some 0.
Proof.
  intros H. unfold TRACE_RECORD_VALID. rewrite lor_pow2_add by lia. cbn [le_bytes insert list_insert lookup list_lookup].
  split; repeat (f_equal; try mlia).
Qed.

Lemma valid_record_insert pid c :
  claim_ok c -> valid_record pid c = <[7%nat := 128]> (claim_record pid c) /\ claim_record pid c !! 7%nat = Some 0.
Proof.
  intros [Hev _]. destruct (valid_bytes _ Hev) as [E H0].
  unfold valid_record, claim_record, valid_header, TraceRecord_bytes, mark_valid, fixed_part; cbn [event timestamp_ns length Ring.pid].
  rewrite E, <- !app_assoc. split.
  - rewrite insert_app_l by (rewrite length_le_bytes; lia). done.
  - rewrite lookup_app_l by (rewrite length_le_bytes; lia). done.
Qed.

Definition marked (pid : Z) (c : claim) (k : nat) : list Z :=
  if (k <=? 7)%nat then claim_record pid c else valid_record pid c.

Lemma marked_store pid c k x :
  claim_ok c -> valid_record pid c !! k = Some x -> marked pid c (S k) = list_inserts k [x] (marked pid c k).
Proof.
  intros Hc Hx. destruct (valid_record_insert pid c Hc) as [E H0]. cbn [list_inserts]. unfold marked.
  destruct (Nat.leb_spec k 7), (Nat.leb_spec (S k) 7); try lia.
  - rewrite E, list_lookup_insert_ne in Hx by lia. by rewrite list_insert_id.
  - assert (k = 7%nat) as -> by lia. rewrite E in Hx |- *.
    rewrite list_lookup_insert_eq in Hx by (by eapply lookup_lt_Some). congruence.
  - by rewrite list_insert_id.
Qed.

(** The next status of a record whose header is being stored again. *)
Definition next_mark (tid k : nat) : status :=
  if (S k <? sizeof_TraceRecord)%nat then EMarking tid (S k) else EDone.

Lemma entry_mark pid c tid k x :
  claim_ok c -> (k < sizeof_TraceRecord)%nat -> valid_header pid c !! k = Some x ->
  entry_bytes pid (mkEntry c (next_mark tid k)) =
    list_inserts k [x] (entry_bytes pid (mkEntry c (EMarking tid k))).
Proof.
  intros Hc Hk Hx. assert (valid_record pid c !! k = Some x) as Hx' by (unfold valid_record; by rewrite lookup_app_l).
  transitivity (marked pid c (S k)); [|by apply marked_store].
  unfold next_mark, entry_bytes, marked. cbn [e_status e_claim]. destruct (Nat.ltb_spec (S k) sizeof_TraceRecord); [done|].
  unfold sizeof_TraceRecord in *. by rewrite (proj2 (Nat.leb_gt _ _)) by lia.
Qed.

(** Clearing a byte. *)
Lemma entry_clear pid c k :
  (k < claim_size c)%nat ->
  entry_bytes pid (mkEntry c (ETaken (S k))) = list_inserts k [0] (entry_bytes pid (mkEntry c (ETaken k))).
Proof.
  intros Hk. unfold entry_bytes; cbn [e_claim e_status list_inserts].
  rewrite insert_app_r_alt by (by rewrite length_replicate). rewrite length_replicate, Nat.sub_diag.
  destruct (lookup_lt_is_Some_2 (valid_record pid c) k) as [x Hx]; [by rewrite length_valid_record|].
  rewrite (drop_S _ x k) by done. cbn [insert list_insert].
  rewrite replicate_S_end. by rewrite <- app_assoc.
Qed.

Lemma record_bytes pid c : claim_ok c -> 0 <= pid < 2 ^ 32 -> Forall is_byte (claim_record pid c) /\ Forall is_byte (valid_record pid c).
Proof.
  intros Hc Hpid. pose proof Hc as (_ & _ & Ha & _).
  assert (Forall is_byte (targs_bytes (c_args c))) as Hb.
  { unfold targs_bytes. induction Ha as [|a l Ha _ IH]; cbn [map concat]; [constructor|].
    apply Forall_app; split; [|done]. destruct a as [v|str]; cbn [targ_bytes]; [apply le_bytes_bytes|].
    apply Forall_app; split; [apply le_bytes_bytes|apply Ha]. }
  unfold claim_record, valid_record, valid_header, TraceRecord_bytes.
  rewrite !Forall_app. by split_and!; try apply le_bytes_bytes.
Qed.

Lemma zero_byte : is_byte 0.
Proof. unfold is_byte. lia. Qed.

Lemma entry_is_bytes pid e : entry_ok e -> 0 <= pid < 2 ^ 32 -> Forall is_byte (entry_bytes pid e).
Proof.
  intros [Hc _] Hpid. destruct (record_bytes pid _ Hc Hpid) as [H0 HV].
  assert (forall n, Forall is_byte (replicate n 0)) as Hz by (intros n; apply Forall_replicate, zero_byte).
  unfold entry_bytes. destruct (e_status e) as [t k|t k| |k]; [|by destruct (k <=? 7)%nat|done|].
  - unfold pad. apply Forall_app; split; [by apply Forall_take|done].
  - apply Forall_app; split; [done|by apply Forall_drop].
Qed.

(** Only a record whose flag is stored looks valid. *)
Lemma flag_byte pid e x :
  entry_ok e -> (forall k, e_status e <> ETaken k) -> entry_bytes pid e !! 7%nat = Some x -> 128 <= x -> ready (e_status e).
Proof.
  intros [Hc Hk] Ht Hx Hle. destruct (valid_record_insert pid _ Hc) as [_ H0].
  unfold entry_bytes in Hx. destruct (e_status e) as [t k|t k| |k]; [|cbn|done|by destruct (Ht k)].
  - exfalso. revert Hx. unfold pad. intros [Hx|[_ Hx]]%lookup_app_Some.
    + apply lookup_take_Some in Hx as [Hx _]. assert (x = 0) by congruence. lia.
    + apply lookup_replicate in Hx as [-> _]. lia.
  - destruct (Nat.leb_spec k 7); [|lia]. assert (x = 0) by congruence. lia.
Qed.

(** ** Positions *)

#[local] Opaque Z.modulo.

Lemma at_byte_next P o off : at_byte P o off -> at_byte P (S o) (wrap_idx off + 1).
Proof.
  intros [H0 Hm]. pose proof (wrap_idx_range off H0). split; [lia|].
  pose proof (mod_succ_wrap off 0 H0) as E. rewrite !Z.add_0_r in E. rewrite E.
  rewrite <- Zplus_mod_idemp_l, Hm, Zplus_mod_idemp_l. f_equal. lia.
Qed.

Lemma at_byte_mod P o : at_byte P o ((P + Z.of_nat o) mod TRACE_BUF_LEN).
Proof. split; [by apply Z.mod_pos_bound|]. by rewrite Z.mod_mod. Qed.

Lemma at_byte_start P : at_byte P 0 (P mod TRACE_BUF_LEN).
Proof. pose proof (at_byte_mod P 0) as H. by rewrite Z.add_0_r in H. Qed.

(** The arithmetic of the 32-bit indices: a lap divides [2^32]. *)
Lemma u32_mod_lap x : u32 x mod TRACE_BUF_LEN = x mod TRACE_BUF_LEN.
Proof.
  unfold u32. rewrite TRACE_BUF_LEN_val.
  replace (2 ^ 32) with (2 ^ 22 * 2 ^ 10) by done.
  rewrite Z.rem_mul_r by done. rewrite Z.mul_comm, Z_mod_plus_full, Z.mod_mod; done.
Qed.

Lemma claim_len_u32 c : claim_ok c -> u32 (claim_len c) = claim_len c.
Proof. intros H%claim_len_bounds. apply u32_small. lia. Qed.

(** The room test of [trace_record_start] computes the bytes in use. *)
Lemma claim_room W n len :
  0 <= n + len < 2 ^ 32 -> u32 (u32 (u32 (W + n) + len) - u32 W) = n + len.
Proof.
  intros H. rewrite u32_add_l. unfold u32 at 1 2 3.
  rewrite <- Zminus_mod. replace (W + n + len - W) with (n + len) by lia.
  by apply Z.mod_small.
Qed.

(** A load from the range of an entry. *)
Lemma load_entry pid tr s W em q k e j off :
  inv_at pid tr s W em q -> q !! k = Some e -> (j < List.length (entry_bytes pid e))%nat ->
  at_byte (W + Z.of_nat (offset pid q k)) j off ->
  entry_bytes pid e !! j = Some (load_byte (trace_buf (core s)) off).1.
Proof.
  intros H Hk Hj [H0 Hm]. pose proof (offset_bound pid q k e Hk).
  destruct (i_window _ _ _ _ _ _ H) as (_ & Hl & Hw). cbn [load_byte fst].
  rewrite wrap_idx_mod, Hm, <- Z.add_assoc, <- Nat2Z.inj_add, Hw by lia.
  rewrite (queue_split pid q k e Hk). unfold offset. rewrite lookup_app_r by lia.
  rewrite Nat.add_comm, Nat.add_sub, lookup_app_l by done.
  by destruct (lookup_lt_is_Some_2 _ _ Hj) as [x ->].
Qed.

Lemma inv_entry_ok pid tr s W em q k e :
  inv_at pid tr s W em q -> q !! k = Some e -> entry_ok e.
Proof. intros H Hk. by eapply Forall_lookup_1 in Hk; [|apply (i_entries _ _ _ _ _ _ H)]. Qed.

(** ** A thread moves on inside its own entry *)

Lemma entry_owner_frame pid P e ps ps' :
  entry_owner pid P e ps -> (forall tid, e_tid e = Some tid -> ps' !! tid = ps !! tid) ->
  entry_owner pid P e ps'.
Proof.
  unfold entry_owner, e_tid. intros H Hps.
  destruct (e_status e) as [t k|t k| |k]; try done; by rewrite Hps.
Qed.

Lemma owned_update pid W q ps k e e' tid p' :
  owned pid W q ps ->
  q !! k = Some e -> e_tid e = Some tid ->
  List.length (entry_bytes pid e') = List.length (entry_bytes pid e) ->
  e_tid e' = Some tid \/ e_status e' = EDone /\ leaving p' = true ->
  entry_owner pid (W + Z.of_nat (offset pid q k)) e' (<[tid := p']> ps) ->
  owned pid W (<[k := e']> q) (<[tid := p']> ps).
Proof.
  intros [Hown Hprod Huniq] Hk Ht Hl Hp Hown'.
  pose proof (lookup_lt_Some _ _ _ Hk) as Hlt.
  assert (forall j ej t, j <> k -> q !! j = Some ej -> e_tid ej = Some t -> t <> tid) as Hne.
  { intros j ej t Hj Hqj Het ->. apply Hj. eapply Huniq; eauto. }
  assert (forall t, e_tid e' = Some t -> t = tid) as He'.
  { intros t He. destruct Hp as [|[X _]]; [congruence|]. unfold e_tid in He. by rewrite X in He. }
  split.
  - intros j ej Hj. erewrite offset_insert by eauto.
    apply list_lookup_insert_Some in Hj as [(-> & -> & _)|(Hjk & Hj)]; [done|].
    eapply entry_owner_frame; [by apply Hown|]. intros t Het. apply lookup_insert_ne.
    intros <-. by eapply (Hne j).
  - intros t p Hs Hlv. destruct (decide (t = tid)) as [->|Htt].
    + exists k, e'. rewrite list_lookup_insert_eq by done. split; [done|].
      rewrite lookup_insert_eq in Hs. injection Hs as ->. destruct Hp as [|[_ ?]]; [done|congruence].
    + rewrite lookup_insert_ne in Hs by done. destruct (Hprod t p Hs Hlv) as (j & ej & Hj & Hej).
      exists j, ej. rewrite list_lookup_insert_ne; [done|]. intros <-. congruence.
  - intros k1 k2 e1 e2 t Hk1 Hk2 Ht1 Ht2. rewrite list_lookup_insert_Some in Hk1, Hk2.
    destruct Hk1 as [(-> & -> & _)|(Hk1n & Hk1)], Hk2 as [(-> & -> & _)|(Hk2n & Hk2)]; try done.
    + exfalso. by eapply (Hne k2 e2 t); eauto.
    + exfalso. by eapply (Hne k1 e1 t); eauto.
    + by eapply Huniq.
Qed.

(** The writeout thread does not notice. *)
Lemma head_ready_update q k e e' c :
  q !! k = Some e -> e_claim e' = e_claim e -> (ready (e_status e) -> ready (e_status e')) ->
  head_ready q c -> head_ready (<[k := e']> q) c.
Proof.
  intros Hk Hc Hr (st & q' & -> & Hst). destruct k as [|k]; cbn in *.
  - injection Hk as <-. cbn in *. exists (e_status e'), q'. rewrite <- Hc. split; [by destruct e'|auto].
  - exists st, (<[k := e']> q'). done.
Qed.

Lemma consumer_ok_update pid W q k e e' tid pc :
  q !! k = Some e -> e_tid e = Some tid -> e_claim e' = e_claim e -> (ready (e_status e) -> ready (e_status e')) ->
  consumer_ok pid W q pc -> consumer_ok pid W (<[k := e']> q) pc.
Proof.
  intros Hk Ht Hc Hr. pose proof (head_ready_update q k e e') as Hh.
  destruct pc as [| |r off got|record off n|record]; cbn [consumer_ok]; try done.
  - intros (Ha & Hl & H). split; [done|]. split; [done|]. destruct r as [| |len].
    + destruct H as [Hb H]. split; [done|]. intros x Hx Hle. destruct (H x Hx Hle) as [c Hq]. exists c. by apply Hh.
    + destruct H as (c & Hq & H). exists c. split; [by apply Hh|done].
    + destruct H as (c & Hq & H). exists c. split; [by apply Hh|done].
  - intros (c & j & q' & -> & H). destruct k as [|k]; cbn in Hk; [injection Hk as <-; done|].
    by exists c, j, (<[k := e']> q').
  - intros (c & q' & -> & H). destruct k as [|k]; cbn in Hk; [injection Hk as <-; done|].
    by exists c, (<[k := e']> q').
Qed.

(** Two backend states that differ at most in the buffer and the flags. *)
Definition same_indices (c c' : simple) : Prop :=
  trace_pid c' = trace_pid c /\ dropped_events c' = dropped_events c /\
  writeout_idx c' = writeout_idx c /\ trace_idx c' = trace_idx c.

(** The owner of entry [k] stores the bytes [d] at offset [o] of it. *)
Lemma inv_update pid tr s W em q k e e' tid p' core' o d idx :
  inv_at pid tr s W em q ->
  q !! k = Some e -> e_tid e = Some tid -> e_claim e' = e_claim e -> entry_ok e' ->
  e_tid e' = Some tid \/ e_status e' = EDone /\ leaving p' = true ->
  (ready (e_status e) -> ready (e_status e')) ->
  entry_bytes pid e' = list_inserts o d (entry_bytes pid e) ->
  (o + List.length d <= List.length (entry_bytes pid e))%nat ->
  entry_owner pid (W + Z.of_nat (offset pid q k)) e' (<[tid := p']> (producers s)) ->
  same_indices (core s) core' ->
  trace_buf core' = (write_to_buffer (trace_buf (core s)) idx d).1 ->
  at_byte (W + Z.of_nat (offset pid q k)) o idx ->
  inv pid tr (mkSys core' (<[tid := p']> (producers s)) (cpc s) (cidx s) (out s)).
Proof.
  intros H Hk Ht Hc Hok Hp Hr Hb Ho Hown (Hs1 & Hs2 & Hs3 & Hs4) Hbuf [Hi Hm].
  pose proof (queue_bytes_insert pid q k e e' o d Hk Hb Ho) as Hq.
  assert (forall j, e_status e' <> ETaken j) as HnT.
  { unfold e_tid in Hp. intros j X. rewrite X in Hp. by destruct Hp as [|[]]. }
  exists W, em, (<[k := e']> q).
  destruct H. split; cbn [core producers cpc cidx out]; try congruence.
  - rewrite list_fmap_insert, Hc, list_insert_id; [done|]. by rewrite list_lookup_fmap, Hk.
  - rewrite Hq, length_inserts. congruence.
  - rewrite Hbuf, Hq. eapply window_write; [done| |done|].
    + pose proof (offset_bound pid q k e Hk). lia.
    + rewrite Hm. f_equal. lia.
  - by apply Forall_insert.
  - eapply owned_update; eauto. by rewrite Hb, length_inserts.
  - intros j ej i [(-> & -> & _)|(Hjn & Hj)]%list_lookup_insert_Some Hst; [by destruct (HnT i)|by eapply i_taken0].
  - by eapply consumer_ok_update.
Qed.

(** A step of the owner that leaves the ring alone. *)
Lemma inv_silent pid tr s W em q k e e' tid p' :
  inv_at pid tr s W em q ->
  q !! k = Some e -> e_tid e = Some tid -> e_claim e' = e_claim e -> entry_ok e' ->
  e_tid e' = Some tid -> (ready (e_status e) -> ready (e_status e')) ->
  entry_bytes pid e' = entry_bytes pid e ->
  entry_owner pid (W + Z.of_nat (offset pid q k)) e' (<[tid := p']> (producers s)) ->
  inv pid tr (mkSys (core s) (<[tid := p']> (producers s)) (cpc s) (cidx s) (out s)).
Proof.
  intros H Hk Ht Hc Hok Hp Hr Hb Hown.
  apply (inv_update pid tr s W em q k e e' tid p' (core s) 0 []
    ((W + Z.of_nat (offset pid q k)) mod TRACE_BUF_LEN)); auto using at_byte_start; [cbn; lia|done].
Qed.

(** ** The producers *)

(** The entry of a thread that is not about to return. *)
Lemma producer_entry pid tr s W em q tid p :
  inv_at pid tr s W em q -> producers s !! tid = Some p -> leaving p = false ->
  exists k c st, q !! k = Some (mkEntry c st) /\ e_tid (mkEntry c st) = Some tid /\ entry_ok (mkEntry c st) /\
    match st with
    | EWriting _ n => writer pid (W + Z.of_nat (offset pid q k)) c n p
    | EMarking _ n => exists rec off, p = PMark rec off (drop n (valid_header pid c)) /\
        tbuf_idx rec = (W + Z.of_nat (offset pid q k)) mod TRACE_BUF_LEN /\
        at_byte (W + Z.of_nat (offset pid q k)) n off
    | _ => False
    end.
Proof.
  intros H Hp Hl. destruct (o_producers _ _ _ _ (i_owned _ _ _ _ _ _ H) tid p Hp Hl) as (k & [c st] & Hk & He).
  pose proof (o_owner _ _ _ _ (i_owned _ _ _ _ _ _ H) k _ Hk) as Ho.
  pose proof (inv_entry_ok _ _ _ _ _ _ _ _ H Hk) as Hok.
  exists k, c, st. split_and!; try done. unfold entry_owner, e_tid in *. cbn [e_status e_claim] in *.
  destruct st as [t n|t n| |n]; try done; injection He as ->.
  - destruct Ho as (p' & Hp' & Hw). congruence.
  - destruct Ho as (rec & off & Hp' & Ho). exists rec, off. split; [congruence|done].
Qed.

(** A thread stores the next byte of its record. *)
Lemma inv_store pid tr s W em q tid k c n x p' off :
  inv_at pid tr s W em q ->
  q !! k = Some (mkEntry c (EWriting tid n)) -> claim_record pid c !! n = Some x ->
  at_byte (W + Z.of_nat (offset pid q k)) n off ->
  writer pid (W + Z.of_nat (offset pid q k)) c (S n) p' ->
  inv pid tr (mkSys (set_buf (core s) (store_byte (trace_buf (core s)) off x).1)
                    (<[tid := p']> (producers s)) (cpc s) (cidx s) (out s)).
Proof.
  intros H Hk Hx Ha Hw. pose proof (inv_entry_ok _ _ _ _ _ _ _ _ H Hk) as Hok.
  pose proof (lookup_lt_Some _ _ _ Hx) as Hn. rewrite length_claim_record in Hn.
  apply (inv_update pid tr s W em q k _ (mkEntry c (EWriting tid (S n))) tid p' _ n [x] off H Hk); try done.
  - destruct Hok. by split.
  - by left.
  - by apply entry_write.
  - rewrite length_entry_bytes by done. cbn. lia.
  - exists p'. by rewrite lookup_insert_eq.
Qed.

(** A thread moves on without storing. *)
Lemma inv_local pid tr s W em q tid k c n p' :
  inv_at pid tr s W em q -> q !! k = Some (mkEntry c (EWriting tid n)) ->
  writer pid (W + Z.of_nat (offset pid q k)) c n p' ->
  inv pid tr (mkSys (core s) (<[tid := p']> (producers s)) (cpc s) (cidx s) (out s)).
Proof.
  intros H Hk Hw. pose proof (inv_entry_ok _ _ _ _ _ _ _ _ H Hk) as Hok.
  apply (inv_silent pid tr s W em q k _ (mkEntry c (EWriting tid n)) tid p' H Hk); try done.
  exists p'. by rewrite lookup_insert_eq.
Qed.

Lemma drop_cons {A} (l l' : list A) n x : x :: l' = drop n l -> l !! n = Some x /\ l' = drop (S n) l.
Proof.
  intros H. assert (l !! n = Some x) as Hx.
  { rewrite <- (Nat.add_0_r n), <- lookup_drop, <- H. done. }
  split; [done|]. rewrite (drop_S _ x n) in H by done. congruence.
Qed.

Lemma record_header_lookup pid c n x :
  TraceRecord_bytes (fixed_part pid c) !! n = Some x -> claim_record pid c !! n = Some x.
Proof. intros H. unfold claim_record. rewrite lookup_app_l; [done|]. by eapply lookup_lt_Some. Qed.

Lemma inv_header_step pid tr s W em q tid idx c off todo core' p' :
  inv_at pid tr s W em q -> producers s !! tid = Some (PHeader idx c off todo) ->
  produce (core s) (PHeader idx c off todo) = (core', p') ->
  inv pid tr (mkSys core' (set_thread tid p' (producers s)) (cpc s) (cidx s) (out s)).
Proof.
  intros H Hp. destruct (producer_entry _ _ _ _ _ _ _ _ H Hp eq_refl) as (k & c0 & st & Hk & Ht & Hok & Hst).
  destruct st as [t n|t n| |n]; try done; [|by destruct Hst as (? & ? & ? & _)].
  injection Ht as ->. destruct Hst as (<- & -> & Ha & -> & Hn).
  destruct (drop n (TraceRecord_bytes (fixed_part pid c))) as [|x todo] eqn:Ed; cbn [produce].
  - intros [= <- <-]. cbn [set_thread]. eapply inv_local; [done..|].
    assert (n = sizeof_TraceRecord) as ->.
    { apply (f_equal (@List.length Z)) in Ed. rewrite length_drop, length_TraceRecord_bytes in Ed. cbn [List.length] in Ed. lia. }
    cbn [writer tbuf_idx rec_off]. split_and!; [done| |done|done].
    pose proof (at_byte_mod (W + Z.of_nat (offset pid q k)) sizeof_TraceRecord) as Hm.
    by rewrite <- Zplus_mod_idemp_l in Hm.
  - destruct (drop_cons _ _ _ _ (eq_sym Ed)) as [Hx Hd].
    intros [= <- <-]. cbn [set_thread].
    pose proof (lookup_lt_Some _ _ _ Hx) as Hlt. rewrite length_TraceRecord_bytes in Hlt.
    eapply inv_store; [done..|by apply record_header_lookup|done|].
    cbn [writer]. split_and!; try done. by apply at_byte_next.
Qed.

Lemma inv_args_step pid tr s W em q tid rec todo rest core' p' :
  inv_at pid tr s W em q -> producers s !! tid = Some (PArgs rec todo rest) ->
  produce (core s) (PArgs rec todo rest) = (core', p') ->
  inv pid tr (mkSys core' (set_thread tid p' (producers s)) (cpc s) (cidx s) (out s)).
Proof.
  intros H Hp. destruct (producer_entry _ _ _ _ _ _ _ _ H Hp eq_refl) as (k & c & st & Hk & Ht & Hok & Hst).
  destruct st as [t n|t n| |n]; try done; [|by destruct Hst as (? & ? & ? & _)].
  injection Ht as ->. destruct Hst as (Hi & Ha & Hd & Hn). destruct todo as [|x todo]; cbn [produce].
  - destruct rest as [|a rest]; intros [= <- <-]; cbn [set_thread]; eapply inv_local; try done.
    + assert (n = claim_size c) as ->.
      { apply (f_equal (@List.length Z)) in Hd. rewrite length_drop, length_claim_record in Hd. cbn [List.length app targs_bytes map concat] in Hd.
        destruct Hok as [_ Hle]. cbn in Hle. lia. }
      cbn [writer]. rewrite Hi. split_and!; [done|done|apply at_byte_start|cbn; lia|done].
  - destruct (drop_cons _ _ _ _ Hd) as [Hx Hd']. intros [= <- <-]. cbn [set_thread].
    eapply inv_store; [done..|]. cbn [writer tbuf_idx rec_off]. split_and!; [done| |done|lia].
    by apply at_byte_next.
Qed.

Lemma fixed_part_ok pid c : claim_ok c -> 0 <= pid < 2 ^ 32 -> TraceRecord_ok (fixed_part pid c).
Proof.
  intros Hc ?. pose proof (claim_len_bounds _ Hc). destruct Hc as (? & ? & ? & ?).
  unfold TraceRecord_ok, fixed_part; cbn [event timestamp_ns length Ring.pid]. lia.
Qed.

Lemma inv_read_step pid tr s W em q tid rec off got core' p' :
  inv_at pid tr s W em q -> producers s !! tid = Some (PRead rec off got) ->
  produce (core s) (PRead rec off got) = (core', p') ->
  inv pid tr (mkSys core' (set_thread tid p' (producers s)) (cpc s) (cidx s) (out s)).
Proof.
  intros H Hp. destruct (producer_entry _ _ _ _ _ _ _ _ H Hp eq_refl) as (k & c & st & Hk & Ht & Hok & Hst).
  destruct st as [t n|t n| |n]; try done; [|by destruct Hst as (? & ? & ? & _)].
  injection Ht as ->. destruct Hst as (Hi & -> & Ha & Hl & Hg). cbn [produce].
  set (e := mkEntry c (EWriting tid (claim_size c))) in *.
  assert (entry_bytes pid e = claim_record pid c) as Hb.
  { unfold entry_bytes; cbn [e_claim e_status e]. rewrite take_ge by (by rewrite length_claim_record).
    apply pad_full, length_claim_record. }
  pose proof (claim_size_header c) as Hsz.
  destruct (Nat.ltb_spec (List.length got) sizeof_TraceRecord) as [Hlt|Hge].
  - pose proof (load_entry _ _ _ _ _ _ _ _ (List.length got) off H Hk) as Hx. rewrite Hb in Hx.
    specialize (Hx ltac:(rewrite length_claim_record; lia) Ha). cbn [load_byte fst] in Hx |- *.
    intros [= <- <-]. cbn [set_thread]. eapply inv_local; [done..|].
    cbn [writer]. rewrite length_app. cbn [List.length]. rewrite Nat.add_1_r.
    split_and!; try done; [by apply at_byte_next|].
    assert (TraceRecord_bytes (fixed_part pid c) !! List.length got = Some (buf_get (trace_buf (core s)) (wrap_idx off))) as Hy.
    { rewrite <- Hx. unfold claim_record. by rewrite lookup_app_l. }
    rewrite (take_S_r _ _ _ Hy). by f_equal.
  - intros [= <- <-]. cbn [set_thread].
    rewrite take_ge in Hg by (rewrite length_TraceRecord_bytes; lia). subst got.
    assert (TraceRecord_of_bytes (TraceRecord_bytes (fixed_part pid c)) = fixed_part pid c) as ->.
    { rewrite <- (app_nil_r (TraceRecord_bytes _)). apply TraceRecord_of_bytes_bytes, fixed_part_ok; [apply Hok|apply H]. }
    apply (inv_silent pid tr s W em q k e (mkEntry c (EMarking tid 0)) tid _ H Hk); try done.
    + destruct Hok. split; [done|]. cbn. unfold sizeof_TraceRecord. lia.
    + do 2 eexists. rewrite lookup_insert_eq. split; [done|]. rewrite Hi. split; [done|apply at_byte_start].
Qed.

(** A thread stores a byte of its header again. *)
Lemma inv_mark_step pid tr s W em q tid rec off x todo :
  inv_at pid tr s W em q -> producers s !! tid = Some (PMark rec off (x :: todo)) ->
  inv pid tr (mkSys (set_buf (core s) (store_byte (trace_buf (core s)) off x).1)
    (<[tid := PMark rec (store_byte (trace_buf (core s)) off x).2 todo]> (producers s)) (cpc s) (cidx s) (out s)).
Proof.
  intros H Hp. destruct (producer_entry _ _ _ _ _ _ _ _ H Hp eq_refl) as (k & c & st & Hk & Ht & Hok & Hst).
  destruct st as [t n|t n| |n]; try done. injection Ht as ->. destruct Hst as (rec' & off' & [= <- <- Hd] & Hi & Ha).
  destruct (drop_cons _ _ _ _ Hd) as [Hx ->]. destruct Hok as [Hc Hn]. cbn [e_claim e_status] in *.
  apply (inv_update pid tr s W em q k _ (mkEntry c (next_mark tid n)) tid _ _ n [x] off H Hk); try done.
  - split; [done|]. unfold next_mark. cbn [e_status]. by destruct (Nat.ltb_spec (S n) sizeof_TraceRecord).
  - unfold next_mark, e_tid. cbn [e_status]. destruct (Nat.ltb_spec (S n) sizeof_TraceRecord); [by left|right].
    split; [done|]. rewrite drop_ge by (rewrite length_valid_header; lia). done.
  - unfold next_mark. cbn [e_status]. destruct (S n <? sizeof_TraceRecord)%nat; cbn; [lia|done].
  - by apply entry_mark.
  - rewrite length_entry_bytes by done. pose proof (claim_size_header c). cbn [List.length e_claim]. lia.
  - unfold entry_owner, next_mark. cbn [e_status e_claim]. destruct (S n <? sizeof_TraceRecord)%nat; [|done].
    do 2 eexists. rewrite lookup_insert_eq. split; [done|]. split; [done|]. by apply at_byte_next.
Qed.

(** Steps that change neither the ring nor the queue nor a thread. *)
Lemma inv_flags pid tr s W em q core' ps pc :
  inv_at pid tr s W em q ->
  same_indices (core s) core' -> trace_buf core' = trace_buf (core s) ->
  owned pid W q ps -> taking pc = taking (cpc s) -> consumer_ok pid W q pc ->
  inv pid tr (mkSys core' ps pc (cidx s) (out s)).
Proof.
  intros H (E1 & E2 & E3 & E4) E5 Ho Ht Hc. exists W, em, q. destruct H.
  split; cbn [core producers cpc cidx out]; try congruence; try done.
  intros j e k Hj Hs. rewrite Ht. by eapply i_taken0.
Qed.

(** A thread returns. *)
Lemma owned_leave pid W q ps tid p :
  owned pid W q ps -> Forall entry_ok q -> ps !! tid = Some p -> leaving p = true -> owned pid W q (delete tid ps).
Proof.
  intros [Hown Hprod Huniq] Hok Hp Hl.
  assert (forall k e, q !! k = Some e -> e_tid e <> Some tid) as Hne.
  { intros k e Hk Ht. pose proof (Hown k e Hk) as Ho. eapply Forall_lookup_1 in Hok; [|exact Hk].
    destruct Hok as [_ Hn]. unfold entry_owner, e_tid in *. destruct (e_status e) as [t n|t n| |n]; try done; injection Ht as ->.
    - destruct Ho as (p' & Hp' & Hw). assert (p' = p) as -> by congruence. by destruct p as [| | |? ? []].
    - destruct Ho as (rec & off & Hp' & _). assert (p = PMark rec off (drop n (valid_header pid (e_claim e)))) as -> by congruence.
      cbn [leaving] in Hl. destruct (drop n _) eqn:E; [|done]. apply (f_equal (@List.length Z)) in E.
      rewrite length_drop, length_valid_header in E. cbn [List.length] in E. lia. }
  split; [| |done].
  - intros k e Hk. eapply entry_owner_frame; [by apply Hown|]. intros t Ht. apply lookup_delete_ne.
    intros <-. by eapply Hne.
  - intros t p' Ht. apply Hprod. by apply lookup_delete_Some in Ht as [_ Ht].
Qed.

Lemma kick_writeout_same s : same_indices s (kick_writeout s) /\ trace_buf (kick_writeout s) = trace_buf s.
Proof. unfold kick_writeout. by case_match. Qed.

Lemma inv_produce pid tr s W em q tid p core' p' :
  inv_at pid tr s W em q -> producers s !! tid = Some p -> produce (core s) p = (core', p') ->
  inv pid tr (mkSys core' (set_thread tid p' (producers s)) (cpc s) (cidx s) (out s)).
Proof.
  intros H Hp. destruct p as [idx c off todo|rec todo rest|rec off got|rec off [|x todo]].
  - by eapply inv_header_step.
  - by eapply inv_args_step.
  - by eapply inv_read_step.
  - intros [= <- <-]. cbn [set_thread]. destruct (kick_writeout_same (core s)). eapply inv_flags; try done.
    + eapply owned_leave; [apply H|apply H|done|done].
    + apply H.
  - intros [= <- <-]. by eapply inv_mark_step.
Qed.

(** ** Claims *)

(** A claim appends an entry owned by a thread that had none. *)
Lemma owned_claim pid W q ps tid c p :
  owned pid W q ps -> ps !! tid = None -> leaving p = false ->
  entry_owner pid (W + Z.of_nat (List.length (queue_bytes pid q))) (mkEntry c (EWriting tid 0)) (<[tid := p]> ps) ->
  owned pid W (q ++ [mkEntry c (EWriting tid 0)]) (<[tid := p]> ps).
Proof.
  intros [Hown Hprod Huniq] Hp Hl Hnew. set (e := mkEntry c (EWriting tid 0)) in *.
  assert (forall k ek, q !! k = Some ek -> e_tid ek <> Some tid) as Hfresh.
  { intros k ek Hk Het. pose proof (Hown k ek Hk) as Ho.
    unfold entry_owner, e_tid in *. destruct (e_status ek); simplify_eq; destruct Ho; destruct_and?; try congruence.
    destruct H as (? & ? & _). congruence. }
  split.
  - intros k ek [[Hlt Hk]|[-> <-]]%lookup_snoc_Some.
    + replace (offset pid (q ++ [e]) k) with (offset pid q k)
        by (unfold offset; by rewrite take_app_le by lia).
      eapply entry_owner_frame; [by apply Hown|].
      intros t Ht. apply lookup_insert_ne. intros ->. by eapply Hfresh.
    + unfold offset. by rewrite take_app_length.
  - intros t p' Ht Hlv. destruct (decide (t = tid)) as [->|Hne].
    + exists (List.length q), e. by rewrite lookup_snoc_Some; auto.
    + rewrite lookup_insert_ne in Ht by done. destruct (Hprod t p' Ht Hlv) as (k & ek & Hk & ?).
      exists k, ek. split; [|done]. rewrite lookup_app_l; [done|]. by eapply lookup_lt_Some.
  - intros k1 k2 e1 e2 t [[Hlt1 Hk1]|[-> <-]]%lookup_snoc_Some
      [[Hlt2 Hk2]|[-> <-]]%lookup_snoc_Some Ht1 Ht2; try done.
    + by eapply Huniq.
    + injection Ht2 as <-. by destruct (Hfresh _ _ Hk1).
    + injection Ht1 as <-. by destruct (Hfresh _ _ Hk2).
Qed.

Lemma consumer_ok_claim pid W q e pc : consumer_ok pid W q pc -> consumer_ok pid W (q ++ [e]) pc.
Proof.
  assert (forall c, head_ready q c -> head_ready (q ++ [e]) c) as Hh.
  { intros c (st & q' & -> & H). by exists st, (q' ++ [e]). }
  destruct pc as [| |r off got|record off n|record]; cbn [consumer_ok]; try done.
  - intros (Ha & Hl & H). split; [done|]. split; [done|]. destruct r as [| |len].
    + destruct H as [Hb H]. split; [done|]. intros x Hx Hle. destruct (H x Hx Hle) as [c Hq]. exists c. auto.
    + destruct H as (c & Hq & H). exists c. auto.
    + destruct H as (c & Hq & H). exists c. auto.
  - intros (c & j & q' & -> & H). by exists c, j, (q' ++ [e]).
  - intros (c & q' & -> & H). by exists c, (q' ++ [e]).
Qed.

Lemma inv_claim pid tr s W em q tid c old core' :
  inv_at pid tr s W em q ->
  producers s !! tid = None -> claim_ok c ->
  trace_record_claim (core s) (u32 (claim_len c)) = Some (old, core') ->
  inv pid (tr ++ [c])
    (mkSys core' (<[tid := started core' old c]> (producers s)) (cpc s) (cidx s) (out s)).
Proof.
  intros H Hp Hc. pose proof (claim_len_bounds _ Hc) as Hlen.
  unfold trace_record_claim. rewrite (claim_len_u32 c Hc).
  rewrite (i_trace_idx _ _ _ _ _ _ H), (i_writeout _ _ _ _ _ _ H).
  pose proof (i_window _ _ _ _ _ _ H) as Hw. destruct Hw as (HW & Hl & _).
  set (n := List.length (queue_bytes pid q)) in *.
  rewrite claim_room by (unfold TRACE_BUF_LEN in *; lia).
  destruct (Z.ltb_spec TRACE_BUF_LEN (Z.of_nat n + claim_len c)) as [|Hroom]; [done|].
  intros [= <- <-].
  set (e := mkEntry c (EWriting tid 0)).
  assert (queue_bytes pid (q ++ [e]) = queue_bytes pid q ++ replicate (claim_size c) 0) as Hq.
  { rewrite queue_bytes_app. f_equal. unfold queue_bytes. cbn [map concat]. rewrite app_nil_r.
    unfold entry_bytes, pad. cbn [e_status e_claim e take app List.length]. by rewrite Nat.sub_0_r. }
  exists W, em, (q ++ [e]). destruct H.
  split; cbn [core producers cpc cidx out set_trace_idx trace_pid dropped_events writeout_idx
              trace_idx trace_buf]; try done.
  - by rewrite map_app, app_assoc, <- i_trace0.
  - rewrite Hq, length_app, length_replicate. rewrite u32_add_l. f_equal. unfold claim_size. lia.
  - rewrite Hq. apply window_grow; [done|]. unfold claim_size. lia.
  - apply Forall_app; split; [done|]. apply Forall_singleton. split; [done|]. cbn. lia.
  - apply owned_claim; [done|done|done|]. eexists. rewrite lookup_insert_eq. split; [done|].
    unfold started, writer. cbn [trace_pid set_trace_idx]. rewrite u32_mod_lap, i_pid0, (claim_len_u32 c Hc). fold n.
    split_and!; [done|done|apply at_byte_start|done|lia].
  - intros k ek j [[Hlt Hk]|[-> <-]]%lookup_snoc_Some Hst; [by eapply i_taken0|done].
  - by apply consumer_ok_claim.
Qed.

(** ** The writeout thread *)

Lemma flag_test got :
  Forall is_byte got -> List.length got = 8%nat -> (Z.land (le_val got) TRACE_RECORD_VALID =? 0) = false ->
  exists x, got !! 7%nat = Some x /\ 128 <= x.
Proof.
  intros Hb Hl Ht. destruct (lookup_lt_is_Some_2 got 7) as [x Hx]; [lia|]. exists x. split; [done|].
  destruct (Z.le_gt_cases 128 x) as [|Hlt]; [done|]. exfalso.
  assert (got = take 7 got ++ [x]) as E.
  { rewrite <- (take_S_r _ _ _ Hx). by rewrite take_ge by lia. }
  pose proof (le_val_range (take 7 got) (Forall_take _ _ _ Hb)) as Hr. rewrite length_take, Nat.min_l in Hr by lia.
  assert (is_byte x) as Hx' by (by eapply Forall_lookup_1 in Hx). unfold is_byte in Hx'.
  rewrite E, le_val_app, length_take, Nat.min_l in Ht by lia. cbn [le_val] in Ht.
  unfold TRACE_RECORD_VALID in Ht. rewrite land_pow2, (testbit_small _ 63 63) in Ht; [done| |lia|lia].
  change (Z.of_nat 7) with 7 in *. lia.
Qed.

Lemma ready_bytes pid c st : ready st -> entry_bytes pid (mkEntry c st) = valid_record pid c.
Proof.
  unfold entry_bytes. cbn [e_status e_claim]. destruct st as [t k|t k| |k]; cbn [ready]; try done.
  intros H. by rewrite (proj2 (Nat.leb_gt _ _)) by lia.
Qed.

Lemma valid_fixed_part pid c : claim_ok c -> 0 <= pid < 2 ^ 32 ->
  TraceRecord_of_bytes (valid_header pid c) = mark_valid (fixed_part pid c).
Proof.
  intros Hc Hpid. unfold valid_header. rewrite <- (app_nil_r (TraceRecord_bytes _)). apply TraceRecord_of_bytes_bytes.
  pose proof (fixed_part_ok pid c Hc Hpid) as (? & ? & ? & ?). destruct Hc as [Hev _].
  pose proof (valid_range _ Hev). unfold TraceRecord_ok, mark_valid in *. cbn [event timestamp_ns length Ring.pid fixed_part] in *. lia.
Qed.

Lemma take_header r l : take 8 (TraceRecord_bytes r ++ l) = le_bytes 8 (event r).
Proof. reflexivity. Qed.

Lemma clear_valid_record pid c : claim_ok c -> clear_valid (valid_record pid c) = claim_record pid c.
Proof.
  intros [Hev _]. unfold clear_valid, valid_record, valid_header. rewrite take_header.
  pose proof (valid_range _ Hev). cbn [mark_valid event fixed_part].
  rewrite (le_val_bytes_small 8) by done. rewrite valid_cleared by done. reflexivity.
Qed.

Lemma record_length_field pid c :
  claim_ok c -> 0 <= pid < 2 ^ 32 -> length (TraceRecord_of_bytes (claim_record pid c)) = claim_len c.
Proof.
  intros Hc Hpid. unfold claim_record. by rewrite TraceRecord_of_bytes_bytes by (by apply fixed_part_ok).
Qed.

(** The index of the reader is that of the head of the queue. *)
Lemma cidx_head pid tr s W em q : inv_at pid tr s W em q -> at_byte W 0 (cidx s).
Proof. intros H. rewrite (i_cidx _ _ _ _ _ _ H). apply at_byte_start. Qed.

Lemma load_head pid tr s W em e q j off :
  inv_at pid tr s W em (e :: q) -> (j < claim_size (e_claim e))%nat -> at_byte W j off ->
  entry_bytes pid e !! j = Some (load_byte (trace_buf (core s)) off).1.
Proof.
  intros H Hj Ha. eapply (load_entry _ _ _ _ _ _ 0%nat); [done|done| |].
  - rewrite length_entry_bytes; [done|]. by eapply (inv_entry_ok _ _ _ _ _ _ 0%nat).
  - unfold offset. cbn. by rewrite Z.add_0_r.
Qed.

(** A byte of the event word, wherever its record is. *)
Lemma load_flag pid tr s W em q j off :
  inv_at pid tr s W em q -> taking (cpc s) = false -> (j < 8)%nat -> at_byte W j off ->
  is_byte (load_byte (trace_buf (core s)) off).1 /\
  (j = 7%nat -> 128 <= (load_byte (trace_buf (core s)) off).1 -> exists c, head_ready q c).
Proof.
  intros H Ht Hj Ha. destruct q as [|e q].
  - destruct Ha as [H0 Hm]. destruct (i_window _ _ _ _ _ _ H) as (_ & _ & Hw). cbn [load_byte fst].
    rewrite wrap_idx_mod, Hm, Hw by (unfold TRACE_BUF_LEN; lia).
    change (queue_bytes pid []) with (@nil Z). rewrite lookup_nil. cbn. split; [apply zero_byte|lia].
  - pose proof (inv_entry_ok _ _ _ _ _ _ 0%nat e H eq_refl) as Hok.
    pose proof (claim_size_header (e_claim e)) as Hsz. unfold sizeof_TraceRecord in Hsz.
    pose proof (load_head _ _ _ _ _ _ _ j off H ltac:(lia) Ha) as Hx. split.
    + eapply Forall_lookup_1 in Hx; [exact Hx|]. apply entry_is_bytes; [done|apply H].
    + intros -> Hle. assert (ready (e_status e)) as Hr.
      { eapply flag_byte; [done| |done|done]. intros k Hk.
        destruct (i_taken _ _ _ _ _ _ H 0%nat e k eq_refl Hk). congruence. }
      exists (e_claim e), (e_status e), q. by destruct e.
Qed.

(** A byte of a record whose flag was seen. *)
Lemma load_ready pid tr s W em q c j off :
  inv_at pid tr s W em q -> head_ready q c -> (j < claim_size c)%nat -> at_byte W j off ->
  valid_record pid c !! j = Some (load_byte (trace_buf (core s)) off).1.
Proof.
  intros H (st & q' & -> & Hr) Hj Ha. rewrite <- (ready_bytes pid c st Hr). by eapply load_head.
Qed.

Lemma inv_read pid tr s W em q r off got :
  inv_at pid tr s W em q -> cpc s = CRead r off got -> (List.length got < wanted r)%nat ->
  let '(x, off) := load_byte (trace_buf (core s)) off in
  inv pid tr (moved s (core s) (CRead r off (got ++ [x]))).
Proof.
  intros H Hc Hl. pose proof (i_consumer _ _ _ _ _ _ H) as HC. rewrite Hc in HC. cbn [consumer_ok] in HC.
  destruct HC as (Ha & _ & HC). destruct (load_byte (trace_buf (core s)) off) as [x off'] eqn:El.
  assert (off' = wrap_idx off + 1) as -> by (by injection El).
  assert (x = (load_byte (trace_buf (core s)) off).1) as Hx by (by rewrite El).
  eapply inv_flags; try done; [apply H|by rewrite Hc|]. cbn [consumer_ok].
  rewrite length_app. cbn [List.length]. rewrite Nat.add_1_r. split; [by apply at_byte_next|]. split; [lia|].
  destruct r as [| |len]; cbn [wanted] in Hl.
  - destruct HC as [Hb HC]. destruct (load_flag _ _ _ _ _ _ _ off H ltac:(by rewrite Hc) Hl Ha) as [Hbx Hfl].
    rewrite <- Hx in Hbx, Hfl. split; [apply Forall_app; split; [done|by constructor]|].
    intros y [Hy|[Hle Hy]]%lookup_app_Some Hge; [by eapply HC|].
    destruct (7 - List.length got)%nat eqn:E7; [|done]. injection Hy as ->. apply Hfl; [lia|done].
  - destruct HC as (c & Hr & Hg). exists c. split; [done|]. pose proof (claim_size_header c).
    pose proof (load_ready _ _ _ _ _ _ c (List.length got) off H Hr ltac:(lia) Ha) as Hv. rewrite <- Hx in Hv.
    unfold valid_record in Hv. rewrite lookup_app_l in Hv by (by rewrite length_valid_header).
    rewrite (take_S_r _ _ _ Hv). by f_equal.
  - destruct HC as (c & Hr & -> & Hg). exists c. split; [done|]. split; [done|].
    pose proof (load_ready _ _ _ _ _ _ _ _ off H Hr Hl Ha) as Hv. rewrite <- Hx in Hv.
    rewrite (take_S_r _ _ _ Hv). by f_equal.
Qed.

(** The three decisions of [get_trace_record]. *)
Lemma inv_flag_read pid tr s W em q off got :
  inv_at pid tr s W em q -> cpc s = CRead RFlag off got -> List.length got = 8%nat ->
  inv pid tr (if Z.land (le_val got) TRACE_RECORD_VALID =? 0 then moved s (core s) CWait
              else moved s (core s) (CRead RHead (cidx s) [])).
Proof.
  intros H Hc Hl. pose proof (i_consumer _ _ _ _ _ _ H) as HC. rewrite Hc in HC. destruct HC as (_ & _ & Hb & HC).
  destruct (Z.land _ _ =? 0) eqn:E; [eapply inv_flags; try done; [apply H|by rewrite Hc]|].
  eapply inv_flags; try done; [apply H|by rewrite Hc|].
  destruct (flag_test got Hb Hl E) as (x & Hx & Hle). destruct (HC x Hx Hle) as [c Hr].
  cbn [consumer_ok wanted List.length]. split; [by eapply cidx_head|]. split; [lia|]. by exists c.
Qed.

Lemma inv_head_read pid tr s W em q off got :
  inv_at pid tr s W em q -> cpc s = CRead RHead off got -> List.length got = sizeof_TraceRecord ->
  inv pid tr (moved s (core s) (CRead (RBody (Z.to_nat (length (TraceRecord_of_bytes got)))) (cidx s) [])).
Proof.
  intros H Hc Hl. pose proof (i_consumer _ _ _ _ _ _ H) as HC. rewrite Hc in HC. destruct HC as (_ & _ & c & Hr & Hg).
  eapply inv_flags; try done; [apply H|by rewrite Hc|]. cbn [consumer_ok List.length].
  split; [by eapply cidx_head|]. split; [lia|]. exists c. split; [done|]. split; [|done].
  rewrite take_ge in Hg by (rewrite length_valid_header; lia). rewrite Hg.
  destruct Hr as (st & q' & -> & _). destruct (inv_entry_ok _ _ _ _ _ _ 0%nat _ H eq_refl) as [Hcl _].
  by rewrite valid_fixed_part by (try done; apply H).
Qed.

(** Entries that no thread owns change at the head of the queue. *)
Lemma owned_head pid W e e' q ps :
  e_tid e = None -> e_tid e' = None -> List.length (entry_bytes pid e') = List.length (entry_bytes pid e) ->
  owned pid W (e :: q) ps -> owned pid W (e' :: q) ps.
Proof.
  intros Ht Ht' Hl [Hown Hprod Huniq].
  assert (forall k, offset pid (e' :: q) k = offset pid (e :: q) k) as Hoff.
  { intros k. change (e' :: q) with (<[0%nat := e']> (e :: q)). by eapply offset_insert. }
  split.
  - intros [|k] ek Hk; [|rewrite Hoff; by apply Hown]. injection Hk as <-.
    unfold entry_owner, e_tid in *. by destruct (e_status e').
  - intros t p Hp Hlv. destruct (Hprod t p Hp Hlv) as ([|k] & ek & Hk & He); [by injection Hk as <-; congruence|].
    by exists (S k), ek.
  - intros [|k1] [|k2] e1 e2 t Hk1 Hk2 Ht1 Ht2; try done;
      [injection Hk1 as <-; congruence|injection Hk2 as <-; congruence|].
    by apply (Huniq (S k1) (S k2) e1 e2 t).
Qed.

(** In a timely execution the record that is about to be cleared is finished. *)
Lemma timely_done pid tr s W em c st q :
  inv_at pid tr s W em (mkEntry c st :: q) -> ready st ->
  map_Forall (fun _ p => rewriting (cidx s) p = false) (producers s) -> st = EDone.
Proof.
  intros H Hr Ht. destruct st as [t k|t k| |k]; try done. exfalso.
  destruct (inv_entry_ok _ _ _ _ _ _ 0%nat _ H eq_refl) as [_ Hk]. cbn [e_status] in Hk.
  destruct (o_owner _ _ _ _ (i_owned _ _ _ _ _ _ H) 0%nat _ eq_refl) as (rec & off & Hp & Hi & _).
  specialize (Ht _ _ Hp). unfold rewriting in Ht. cbn [e_claim] in *.
  destruct (drop k (valid_header pid c)) eqn:E.
  - apply (f_equal (@List.length Z)) in E. rewrite length_drop, length_valid_header in E. cbn [List.length] in E. lia.
  - apply Z.eqb_neq in Ht. apply Ht. rewrite Hi, (i_cidx _ _ _ _ _ _ H). unfold offset. cbn. by rewrite Z.add_0_r.
Qed.

Lemma inv_body_read pid tr s W em q len off got :
  inv_at pid tr s W em q -> cpc s = CRead (RBody len) off got -> List.length got = len ->
  timely (moved s (core s) (CClear (clear_valid got) (cidx s) len)) ->
  inv pid tr (moved s (core s) (CClear (clear_valid got) (cidx s) len)).
Proof.
  intros H Hc Hl Ht. pose proof (i_consumer _ _ _ _ _ _ H) as HC. rewrite Hc in HC.
  destruct HC as (_ & _ & c & (st & q' & -> & Hr) & -> & Hg).
  pose proof (timely_done _ _ _ _ _ _ _ _ H Hr (Ht eq_refl)) as ->.
  rewrite take_ge in Hg by (rewrite length_valid_record; lia). subst got.
  destruct (inv_entry_ok _ _ _ _ _ _ 0%nat _ H eq_refl) as [Hcl _]. cbn [e_claim] in Hcl.
  pose proof (cidx_head _ _ _ _ _ _ H) as Ha.
  exists W, em, (mkEntry c (ETaken 0) :: q'). destruct H.
  split; cbn [moved core producers cpc cidx out taking]; try done.
  - inversion i_entries0; subst. constructor; [|done]. split; [done|]. cbn. lia.
  - eapply owned_head; [| | |done]; done.
  - intros [|j] e k Hj Hs; [done|]. destruct (i_taken0 (S j) e k Hj Hs). done.
  - cbn [consumer_ok]. exists c, 0%nat, q'. rewrite clear_valid_record by done. split_and!; try done; lia.
Qed.

Lemma inv_clear pid tr s W em q record off n :
  inv_at pid tr s W em q -> cpc s = CClear record off (S n) ->
  let '(b, off) := store_byte (trace_buf (core s)) off 0 in
  inv pid tr (moved s (set_buf (core s) b) (CClear record off n)).
Proof.
  intros H Hc. pose proof (i_consumer _ _ _ _ _ _ H) as HC. rewrite Hc in HC.
  destruct HC as (c & k & q' & -> & -> & Hk & Ha). cbn [store_byte].
  pose proof (entry_clear pid c k ltac:(lia)) as He.
  pose proof (inv_entry_ok _ _ _ _ _ _ 0%nat _ H eq_refl) as Hok.
  pose proof (length_entry_bytes pid _ Hok) as Hlen. cbn [e_claim] in Hlen.
  assert (queue_bytes pid (mkEntry c (ETaken (S k)) :: q') =
    list_inserts k [0] (queue_bytes pid (mkEntry c (ETaken k) :: q'))) as Hq.
  { change (mkEntry c (ETaken (S k)) :: q') with (<[0%nat := mkEntry c (ETaken (S k))]> (mkEntry c (ETaken k) :: q')).
    rewrite (queue_bytes_insert pid (mkEntry c (ETaken k) :: q') 0%nat _ _ k [0] eq_refl He); [done|].
    rewrite Hlen. cbn [List.length]. lia. }
  pose proof Ha as [H0 Hm]. exists W, em, (mkEntry c (ETaken (S k)) :: q'). destruct H.
  split; cbn [moved core producers cpc cidx out taking set_buf trace_pid dropped_events writeout_idx trace_idx trace_buf]; try done.
  - rewrite Hq, length_inserts. done.
  - rewrite Hq. apply (window_write (trace_buf (core s)) W _ k off [0]); try done.
    unfold queue_bytes. cbn [map concat]. rewrite length_app. cbn [List.length]. lia.
  - inversion i_entries0; subst. constructor; [|done]. destruct Hok. split; [done|]. cbn. lia.
  - apply (owned_head pid W (mkEntry c (ETaken k))); [done|done| |done]. by rewrite He, length_inserts.
  - intros [|j] e i Hj Hs; [done|]. destruct (i_taken0 (S j) e i Hj Hs). done.
  - cbn [consumer_ok]. exists c, (S k), q'. split_and!; try done; [lia|]. by apply at_byte_next.
Qed.

Lemma inv_cleared pid tr s W em q record off :
  inv_at pid tr s W em q -> cpc s = CClear record off 0 -> inv pid tr (moved s (core s) (CTaken record)).
Proof.
  intros H Hc. pose proof (i_consumer _ _ _ _ _ _ H) as HC. rewrite Hc in HC.
  destruct HC as (c & k & q' & -> & -> & Hk & Ha).
  eapply inv_flags; try done; [apply H|by rewrite Hc|]. cbn [consumer_ok]. exists c, q'.
  split; [|done]. by replace (claim_size c) with k by lia.
Qed.

Lemma owned_emit pid W e q ps :
  e_tid e = None -> owned pid W (e :: q) ps ->
  owned pid (W + Z.of_nat (List.length (entry_bytes pid e))) q ps.
Proof.
  intros He [Hown Hprod Huniq]. split.
  - intros k ek Hk. pose proof (Hown (S k) ek Hk) as Ho. rewrite offset_cons in Ho.
    by rewrite Nat2Z.inj_add, Z.add_assoc in Ho.
  - intros t p Ht Hl. destruct (Hprod t p Ht Hl) as ([|k] & ek & Hk & Hek); [|by exists k, ek].
    injection Hk as ->. congruence.
  - intros k1 k2 e1 e2 t Hk1 Hk2 Ht1 Ht2.
    pose proof (Huniq (S k1) (S k2) e1 e2 t Hk1 Hk2 Ht1 Ht2). lia.
Qed.

Lemma inv_emit pid tr s W em q record :
  inv_at pid tr s W em q -> cpc s = CTaken record ->
  let w := u32 (writeout_idx (core s) + length (TraceRecord_of_bytes record)) in
  let idx := w mod TRACE_BUF_LEN in
  inv pid tr (mkSys (set_writeout_idx (core s) w) (producers s) (CRead RFlag idx []) idx
                    (out s ++ [record_message record])).
Proof.
  intros H Hc. pose proof (i_consumer _ _ _ _ _ _ H) as HC. rewrite Hc in HC. destruct HC as (c & q' & -> & ->).
  pose proof (inv_entry_ok _ _ _ _ _ _ 0%nat _ H eq_refl) as Hok.
  pose proof (length_entry_bytes pid _ Hok) as Hlen. destruct Hok as [Hcl _]. cbn [e_claim] in *.
  pose proof (claim_len_bounds _ Hcl) as Hb. cbn zeta.
  rewrite record_length_field, (i_writeout _ _ _ _ _ _ H), u32_add_l, u32_mod_lap by (try done; apply H).
  assert (Z.of_nat (claim_size c) = claim_len c) as Hn by (unfold claim_size; lia).
  exists (W + Z.of_nat (claim_size c)), (em ++ [c]), q'. destruct H.
  split; cbn [core producers cpc cidx out set_writeout_idx trace_pid dropped_events writeout_idx
              trace_idx trace_buf taking]; try done.
  - rewrite i_trace0. cbn [map e_claim]. by rewrite <- app_assoc.
  - rewrite i_out0. by rewrite map_app.
  - by rewrite Hn.
  - rewrite i_trace_idx0. f_equal. unfold queue_bytes at 1. cbn [map concat].
    rewrite length_app, Hlen, Nat2Z.inj_add. unfold queue_bytes. lia.
  - by rewrite Hn.
  - apply window_advance. unfold queue_bytes in i_window0; cbn [map concat] in i_window0.
    unfold entry_bytes at 1 in i_window0. cbn [e_status e_claim] in i_window0.
    rewrite drop_ge, app_nil_r in i_window0 by (by rewrite length_valid_record). done.
  - by inversion i_entries0.
  - rewrite <- Hlen. eapply owned_emit; done.
  - intros j e k Hj Hs. by destruct (i_taken0 (S j) e k Hj Hs).
  - cbn [consumer_ok List.length wanted]. rewrite <- Hn. split; [apply at_byte_start|]. split; [lia|]. split; [constructor|].
    intros x Hx. by rewrite lookup_nil in Hx.
Qed.

(** ** The main results *)

Lemma inv_init pid : 0 <= pid < 2 ^ 32 -> inv_at pid [] (sys_init pid) 0 [] [].
Proof.
  intros Hpid. by split.
Qed.

Lemma inv_consume pid tr s W em q now s' :
  inv_at pid tr s W em q -> consume now s = Some s' -> timely s' -> inv pid tr s'.
Proof.
  intros H. unfold consume. destruct (cpc s) as [| |r off got|record off [|n]|record] eqn:Hc.
  - unfold wait_for_trace_records_available. destruct (_ && _); [|done].
    intros [= <-] _. eapply inv_flags; try done; [apply H|by rewrite Hc].
  - rewrite (i_dropped _ _ _ _ _ _ H). cbn [Z.eqb]. intros [= <-] _.
    eapply inv_flags; try done; [apply H|by rewrite Hc|]. cbn [consumer_ok List.length wanted].
    split; [by eapply cidx_head|]. split; [lia|]. split; [constructor|]. intros x Hx. by rewrite lookup_nil in Hx.
  - destruct (Nat.ltb_spec (List.length got) (wanted r)) as [Hlt|Hge].
    + pose proof (inv_read _ _ _ _ _ _ _ _ _ H Hc Hlt) as Hr. destruct (load_byte _ off). intros [= <-] _. exact Hr.
    + pose proof (i_consumer _ _ _ _ _ _ H) as HC. rewrite Hc in HC. destruct HC as (_ & Hle & _).
      destruct r as [| |len]; cbn [wanted] in *.
      * pose proof (inv_flag_read _ _ _ _ _ _ _ _ H Hc ltac:(lia)) as Hr.
        destruct (_ =? 0); intros [= <-] _; exact Hr.
      * intros [= <-] _. eapply inv_head_read; [done|done|lia].
      * intros [= <-] Ht. eapply inv_body_read; [done|done|lia|exact Ht].
  - intros [= <-] _. by eapply inv_cleared.
  - pose proof (inv_clear _ _ _ _ _ _ _ _ _ H Hc) as Hr. destruct (store_byte _ off 0). intros [= <-] _. exact Hr.
  - intros [= <-] _. by eapply inv_emit.
Qed.

Lemma inv_step pid tr s l s' :
  inv pid tr s -> step s l s' -> timely s' -> inv pid (tr ++ option_list l) s'.
Proof.
  intros (W & em & q & H) Hs Ht. destruct Hs; cbn [option_list]; rewrite ?app_nil_r.
  - by eapply inv_claim.
  - by eapply inv_produce.
  - by eapply inv_consume.
  - eapply inv_flags; try done; apply H.
  - eapply inv_flags; try done; apply H.
Qed.

Lemma inv_reachable pid tr s :
  0 <= pid < 2 ^ 32 -> steps timely (sys_init pid) tr s -> inv pid tr s.
Proof.
  intros Hpid H. remember (sys_init pid) as s0. induction H as [|s tr s' l s'' _ IH Hs Ht]; subst.
  - exists 0, [], []. by apply inv_init.
  - eapply inv_step; eauto.
Qed.

(** ** The record at the reader's index *)

Lemma read_head pid tr s W em e q n :
  inv_at pid tr s W em (e :: q) -> (n <= claim_size (e_claim e))%nat ->
  read_from_buffer (trace_buf (core s)) (cidx s) n = take n (entry_bytes pid e).
Proof.
  intros H Hn. destruct (cidx_head _ _ _ _ _ _ H) as [H0 Hm].
  pose proof (length_entry_bytes pid e (inv_entry_ok _ _ _ _ _ _ 0%nat e H eq_refl)) as Hl.
  rewrite (window_read _ W (queue_bytes pid (e :: q)) 0); [|apply H| |done|done].
  - unfold queue_bytes. cbn [map concat]. rewrite drop_0. by rewrite take_app_le by lia.
  - unfold queue_bytes. cbn [map concat]. rewrite length_app. lia.
Qed.

Lemma get_ready pid tr s W em q c :
  inv_at pid tr s W em q -> head_ready q c ->
  get_trace_record (trace_buf (core s)) (cidx s) =
    Some (claim_record pid c, clear_buffer_range (trace_buf (core s)) (cidx s) (claim_size c)).
Proof.
  intros H (st & q' & -> & Hr). pose proof (claim_size_header c) as Hsz.
  destruct (inv_entry_ok _ _ _ _ _ _ 0%nat _ H eq_refl) as [Hcl _]. cbn [e_claim] in Hcl.
  pose proof (i_pid_ok _ _ _ _ _ _ H) as Hpid. pose proof (proj1 Hcl) as Hev. pose proof (valid_range _ Hev).
  assert (forall n, (n <= claim_size c)%nat ->
    read_from_buffer (trace_buf (core s)) (cidx s) n = take n (valid_record pid c)) as Hread.
  { intros n Hn. rewrite (read_head _ _ _ _ _ _ _ _ H Hn). by rewrite (ready_bytes pid c st Hr). }
  unfold get_trace_record. rewrite (Hread 8%nat), (Hread sizeof_TraceRecord) by (unfold sizeof_TraceRecord in *; lia).
  change (take 8 (valid_record pid c)) with (le_bytes 8 (Z.lor (c_event c) TRACE_RECORD_VALID)).
  change (take sizeof_TraceRecord (valid_record pid c)) with (valid_header pid c).
  rewrite (le_val_bytes_small 8) by done. rewrite valid_set, valid_fixed_part by done.
  cbn [mark_valid length fixed_part]. fold (claim_size c).
  rewrite (Hread (claim_size c)) by done. rewrite take_ge by (by rewrite length_valid_record).
  by rewrite clear_valid_record.
Qed.

Lemma get_some_ready pid tr s W em q r :
  inv_at pid tr s W em q -> taking (cpc s) = false ->
  get_trace_record (trace_buf (core s)) (cidx s) = Some r -> exists c, head_ready q c.
Proof.
  intros H Ht. destruct (cidx_head _ _ _ _ _ _ H) as [H0 Hm]. unfold get_trace_record.
  set (got := read_from_buffer (trace_buf (core s)) (cidx s) 8).
  assert (forall j, (j < 8)%nat -> exists off, at_byte W j off /\
    got !! j = Some (load_byte (trace_buf (core s)) off).1) as Hgot.
  { intros j Hj. exists (cidx s + Z.of_nat j). split.
    - split; [lia|]. rewrite <- Zplus_mod_idemp_l, Hm, Z.add_0_r, Zplus_mod_idemp_l. done.
    - unfold got. rewrite read_from_buffer_lookup by done. cbn [load_byte fst]. by rewrite wrap_idx_mod by lia. }
  destruct (Z.land _ _ =? 0) eqn:E; [done|]. intros _.
  destruct (flag_test got) as (x & Hx & Hle); [|apply length_read_from_buffer|done|].
  - apply Forall_lookup. intros j x Hx. assert (j < 8)%nat as Hj.
    { apply lookup_lt_Some in Hx. unfold got in Hx. by rewrite length_read_from_buffer in Hx. }
    destruct (Hgot j Hj) as (off & Ha & Hb). destruct (load_flag _ _ _ _ _ _ j off H Ht Hj Ha). congruence.
  - destruct (Hgot 7%nat) as (off & Ha & Hb); [lia|].
    destruct (load_flag _ _ _ _ _ _ 7%nat off H Ht ltac:(lia) Ha) as [_ Hf]. apply Hf; [done|]. congruence.
Qed.

(** ** The drain loop as steps *)

(** The bytes in use. *)
Definition used (s : sys) : Z := u32 (trace_idx (core s) - writeout_idx (core s)).

Lemma used_queue pid tr s W em q :
  inv_at pid tr s W em q -> used s = Z.of_nat (List.length (queue_bytes pid q)).
Proof.
  intros H. unfold used. rewrite (i_trace_idx _ _ _ _ _ _ H), (i_writeout _ _ _ _ _ _ H).
  destruct (i_window _ _ _ _ _ _ H) as (_ & Hl & _). unfold TRACE_BUF_LEN in Hl.
  unfold u32. rewrite <- Zminus_mod.
  replace (W + _ - W) with (Z.of_nat (List.length (queue_bytes pid q))) by lia.
  apply Z.mod_small. lia.
Qed.

(** The system when the writeout thread has written [msgs] and goes on at [idx]. *)
Definition drained (s : sys) (core' : simple) (idx : Z) (msgs : list (list Z)) : sys :=
  mkSys core' (producers s) (CRead RFlag idx []) idx (out s ++ msgs).

(** The bytes in use bound the number of records: the fuel is enough. *)
Lemma writeout_one_used pid tr s msg core' idx :
  inv pid tr s -> taking (cpc s) = false ->
  writeout_one (core s) (cidx s) = Some (msg, core', idx) ->
  24 <= used s /\ used (drained s core' idx [msg]) <= used s - 24.
Proof.
  intros (W & em & q & H) Hc Ho. unfold writeout_one in Ho.
  destruct (get_trace_record _ _) as [[record b]|] eqn:Hg; [|done].
  destruct (get_some_ready _ _ _ _ _ _ _ H Hc Hg) as [c Hr].
  rewrite (get_ready _ _ _ _ _ _ _ H Hr) in Hg. injection Hg as <- _.
  destruct Hr as (st & q' & -> & _).
  pose proof (inv_entry_ok _ _ _ _ _ _ 0%nat _ H eq_refl) as Hok.
  pose proof (length_entry_bytes pid _ Hok) as Hlen. destruct Hok as [Hcl _]. cbn [e_claim] in *.
  pose proof (claim_len_bounds _ Hcl) as Hb. pose proof (used_queue _ _ _ _ _ _ H) as Hu.
  assert (claim_len c <= used s) as Hle.
  { rewrite Hu. unfold queue_bytes. cbn [map concat]. rewrite length_app, Hlen. unfold claim_size. lia. }
  split; [lia|]. revert Ho. rewrite record_length_field by (try done; apply H).
  cbn zeta. intros [[_ <-]%pair_equal_spec _]%(inj Some)%pair_equal_spec.
  unfold used, drained in *. cbn [core set_writeout_idx set_buf trace_idx writeout_idx].
  pose proof (u32_range (trace_idx (core s) - writeout_idx (core s))).
  unfold u32 in *. rewrite Zminus_mod_idemp_r.
  rewrite Z.sub_add_distr, <- (Zminus_mod_idemp_l (_ - _)). rewrite Z.mod_small; lia.
Qed.

(** With fuel for the records in use the loop ends because the next record
    is not valid, and what it does is an execution of the step relation. *)
Lemma writeout_loop_steps pid fuel tr s msgs core' idx :
  0 <= pid < 2 ^ 32 -> steps timely (sys_init pid) tr s -> quiet s ->
  cpc s = CRead RFlag (cidx s) [] -> used s < 24 * Z.of_nat fuel ->
  writeout_loop fuel (core s) (cidx s) = (msgs, core', idx) ->
  steps timely (sys_init pid) tr (drained s core' idx msgs) /\ writeout_one core' idx = None.
Proof.
  intros Hpid. revert s msgs core' idx.
  induction fuel as [|fuel IH]; intros s msgs core' idx Hs Hq Hc Hf; simpl.
  { pose proof (u32_range (trace_idx (core s) - writeout_idx (core s))). unfold used in Hf. lia. }
  destruct (writeout_one _ _) as [[[msg c1] i1]|] eqn:Ho.
  - destruct (writeout_loop fuel c1 i1) as [[msgs1 c2] i2] eqn:Hl.
    intros [[<- <-]%pair_equal_spec <-]%pair_equal_spec.
    pose proof (passes_steps _ _ (writeout_one_passes _ _ _ _ Hc Ho) Hq) as Hs1.
    pose proof (steps_trans _ _ _ _ _ _ Hs Hs1) as Hs2. rewrite app_nil_r in Hs2.
    destruct (writeout_one_used pid tr s _ _ _ (inv_reachable _ _ _ Hpid Hs) ltac:(by rewrite Hc) Ho).
    destruct (IH (drained s c1 i1 [msg]) msgs1 c2 i2) as [? ?]; try done; [lia|].
    split; [|done]. unfold drained in *. cbn [out producers] in *. by rewrite <- app_assoc in *.
  - intros [[<- <-]%pair_equal_spec <-]%pair_equal_spec. split; [|done].
    unfold drained. rewrite app_nil_r, <- Hc. by destruct s.
Qed.

Lemma writeout_one_None s idx :
  writeout_one s idx = None -> get_trace_record (trace_buf s) idx = None.
Proof. unfold writeout_one. by destruct (get_trace_record _ _) as [[]|]. Qed.

Lemma iteration_fuel s : used s < 24 * Z.of_nat (Z.to_nat (used s / Z.of_nat sizeof_TraceRecord + 1)).
Proof.
  unfold used. set (u := u32 _).
  assert (0 <= u) by (apply Z.mod_pos_bound; lia).
  change (Z.of_nat sizeof_TraceRecord) with 24.
  pose proof (Z.div_mod u 24). pose proof (Z.mod_pos_bound u 24).
  pose proof (Z.div_pos u 24). lia.
Qed.

(** ** A concrete execution

    Two threads whose records overlap in time.  The second claim is completed
    first and waits behind the first one; the writeout thread sees the flag of the
    first one and copies its header while its thread is still storing it. *)

Definition event_turns (c : claim) : nat :=
  (76 + Z.to_nat (targs_size (c_args c)) + List.length (c_args c))%nat.

Definition demo1 : claim := mkClaim 5 100 [ArgU64 7; ArgStr [113; 101; 109; 117]].
Definition demo2 : claim := mkClaim 6 101 [ArgU64 (2 ^ 63)].

Definition demo_produce : list action :=
  AClaim 1 demo1 :: repeat (AProduce 1) 10 ++ [AClaim 2 demo2] ++
  repeat (AProduce 2) (event_turns demo2) ++ [AEnable true; AFlush] ++ repeat AWrite 11 ++
  repeat (AProduce 1) 71 ++ [AFlush] ++ repeat AWrite 20 ++ repeat (AProduce 1) 13.

Definition demo_write : list action := repeat AWrite 209.

Definition demo_state (l : list action) : sys :=
  match run timely (sys_init 42) [] l with Some (_, s) => s | None => sys_init 42 end.

Lemma demo_steps l tr :
  fst <$> run timely (sys_init 42) [] l = Some tr -> steps timely (sys_init 42) tr (demo_state l).
Proof.
  unfold demo_state. destruct (run timely (sys_init 42) [] l) as [[tr' s]|] eqn:Hr; [|done].
  apply run_steps in Hr. by intros [= <-].
Qed.

(** C2: in every execution in which the writeout thread clears no record whose header is
    still being stored, byte by byte and however the threads are interleaved
    otherwise, the trace file holds the records of the first claims, complete, once
    each and in claim order: the ring buffer implements a queue. *)
Theorem trace_file_is_prefix pid tr s :
  0 <= pid < 2 ^ 32 -> steps timely (sys_init pid) tr s ->
  out s = map (claim_message pid) (take (List.length (out s)) tr).
Proof.
  intros Hpid (W & em & q & [])%inv_reachable; [|done].
  by rewrite i_trace0, i_out0, length_map, take_app_length.
Qed.

Lemma trace_file_is_prefix_witness :
  let s := demo_state (demo_produce ++ demo_write) in
  List.length (out s) = 2%nat /\
  out s = map (claim_message 42) (take (List.length (out s)) [demo1; demo2]).
Proof.
  split; [by vm_compute|].
  apply (trace_file_is_prefix 42); [lia|]. apply demo_steps. by vm_compute.
Defined.

(** Nothing in flight: every claimed record was written. *)
Lemma drained_out pid tr s :
  0 <= pid < 2 ^ 32 -> steps timely (sys_init pid) tr s ->
  producers s = ∅ -> taking (cpc s) = false ->
  get_trace_record (trace_buf (core s)) (cidx s) = None ->
  out s = map (claim_message pid) tr.
Proof.
  intros Hpid (W & em & q & H)%inv_reachable Hp Hc Hg; [|done].
  destruct q as [|[c st] q].
  { destruct H. by rewrite i_trace0, i_out0, app_nil_r. }
  pose proof (o_owner _ _ _ _ (i_owned _ _ _ _ _ _ H) 0%nat _ eq_refl) as Ho.
  unfold entry_owner in Ho. cbn [e_status] in Ho. rewrite Hp in Ho.
  destruct st as [t k|t k| |k].
  - by destruct Ho as (p & ? & _).
  - by destruct Ho as (rec & off & ? & _).
  - rewrite (get_ready _ _ _ _ _ _ c H) in Hg; [done|]. by exists EDone, q.
  - destruct (i_taken _ _ _ _ _ _ H 0%nat _ k eq_refl eq_refl). congruence.
Qed.

(** C13: no record is lost: in every execution in which no record is cleared while its
    header is still being stored, once no thread is inside a trace event function
    and the writeout thread, between two records, finds no further valid
    record, the file holds every claimed record. *)
Theorem drained_is_complete pid tr s :
  0 <= pid < 2 ^ 32 -> steps timely (sys_init pid) tr s ->
  producers s = ∅ -> taking (cpc s) = false ->
  get_trace_record (trace_buf (core s)) (cidx s) = None ->
  out s = map (claim_message pid) tr.
Proof. apply drained_out. Qed.

Lemma drained_is_complete_witness :
  let s := demo_state (demo_produce ++ demo_write) in
  cpc s = CWait /\ out s = map (claim_message 42) [demo1; demo2].
Proof.
  split; [by vm_compute|].
  apply (drained_is_complete 42); [lia| | | |].
  - apply demo_steps. by vm_compute.
  - by vm_compute.
  - by vm_compute.
  - by vm_compute.
Defined.

(** C28: a pass of the writeout thread over the buffer that no other thread
    interrupts, begun while no header is being stored again, ends (its turns are bounded
    by the bytes in use), is an execution of the byte-level steps, and leaves no valid
    record at the reader's index. *)
Theorem writeout_iteration_drains pid tr s now msgs core' idx :
  0 <= pid < 2 ^ 32 -> steps timely (sys_init pid) tr s -> quiet s ->
  cpc s = CRead RFlag (cidx s) [] ->
  writeout_iteration (core s) (cidx s) now = (msgs, core', idx) ->
  steps timely (sys_init pid) tr (drained s core' idx msgs) /\
  get_trace_record (trace_buf core') idx = None.
Proof.
  intros Hpid Hs Hq Hc. unfold writeout_iteration.
  pose proof (inv_reachable _ _ _ Hpid Hs) as (W & em & q & H).
  rewrite (i_dropped _ _ _ _ _ _ H). cbn [Z.eqb]. cbn zeta.
  destruct (writeout_loop _ _ _) as [[msgs1 c1] i1] eqn:Hl.
  intros [[<- <-]%pair_equal_spec <-]%pair_equal_spec.
  destruct (writeout_loop_steps pid _ _ _ _ _ _ Hpid Hs Hq Hc (iteration_fuel s) Hl).
  split; [done|]. by apply writeout_one_None.
Qed.

(** Two finished records, and the writeout thread about to look for the first. *)
Definition demo_full : list action :=
  AClaim 1 demo1 :: AClaim 2 demo2 :: repeat (AProduce 1) (event_turns demo1) ++
  repeat (AProduce 2) (event_turns demo2) ++ [AEnable true; AFlush; AWrite; AWrite].

Lemma writeout_iteration_drains_witness :
  let s := demo_state demo_full in
  let '(msgs, core', idx) := writeout_iteration (core s) (cidx s) 0 in
  List.length msgs = 2%nat /\
  steps timely (sys_init 42) [demo1; demo2] (drained s core' idx msgs) /\
  get_trace_record (trace_buf core') idx = None.
Proof.
  cbn zeta. destruct (writeout_iteration _ _ _) as [[msgs core'] idx] eqn:Hw.
  split; [revert Hw; vm_compute; by intros [[<- _]%pair_equal_spec _]%pair_equal_spec|].
  eapply (writeout_iteration_drains 42); [lia| | | |exact Hw].
  - apply demo_steps. by vm_compute.
  - intros tid p. vm_compute. done.
  - by vm_compute.
Defined.

(** C27: in the same executions the bytes between the writeout index and the claim index
    never exceed the buffer, so a claim never overwrites a record that was not written
    out, and no event is ever counted as dropped. *)
Theorem claims_fit_buffer pid tr s :
  0 <= pid < 2 ^ 32 -> steps timely (sys_init pid) tr s ->
  0 <= used s <= TRACE_BUF_LEN /\ dropped_events (core s) = 0.
Proof.
  intros Hpid (W & em & q & H)%inv_reachable; [|done].
  rewrite (used_queue _ _ _ _ _ _ H).
  destruct (i_window _ _ _ _ _ _ H) as (_ & Hl & _). split; [lia|]. apply H.
Qed.

Lemma claims_fit_buffer_witness :
  used (demo_state demo_produce) = 72 /\
  0 <= used (demo_state demo_produce) <= TRACE_BUF_LEN /\
  dropped_events (core (demo_state demo_produce)) = 0.
Proof.
  split; [by vm_compute|].
  apply (claims_fit_buffer 42 [demo1; demo2]); [lia|]. apply demo_steps. by vm_compute.
Defined.

(** ** A header stored too late

    The thread has stored the byte with the valid flag; before it goes on, the
    writeout thread takes the record and clears its range. *)

Definition late_claim : claim := mkClaim 5 0x80 [ArgU64 7].
Definition late_actions : list action :=
  AClaim 1 late_claim :: repeat (AProduce 1) 68 ++ [AEnable true; AFlush] ++ repeat AWrite 112 ++
  repeat (AProduce 1) 17.

Definition late_state : sys :=
  match run anytime (sys_init 42) [] late_actions with Some (_, s) => s | None => sys_init 42 end.

Lemma late_steps : steps anytime (sys_init 42) [late_claim] late_state.
Proof.
  assert (fst <$> run anytime (sys_init 42) [] late_actions = Some [late_claim]) as E by (by vm_compute).
  unfold late_state. destruct (run anytime (sys_init 42) [] late_actions) as [[tr s]|] eqn:Hr; [|done].
  apply run_steps in Hr. by injection E as <-.
Qed.


End Queue.
