(* ===== verification/TraceClaim.v ===== *)
(** * Claiming a record: the compare-and-exchange loop

    [TraceThreads.Threads] lets a thread claim its range of the ring in one
    step.  The code of qemu/trace/simple.c, [trace_record_start], reads
    [trace_idx], waits for room in an inner loop and then publishes the new
    index with a compare-and-exchange, and other threads run in between.  This
    file models that loop turn by turn and relates it to the atomic claim. *)

From S2P Require Import Prelude TraceBuffer.
Open Scope Z_scope.

Module Claiming.
Import Ring.

(** ** The loop *)

(** Where a thread is in the [do ... while (!compare_and_exchange)] loop. *)
Inductive claimer :=
| Reading                  (* about to read [trace_idx] *)
| Spinning (old_idx : Z)   (* in [while (new_idx - writeout_idx > TRACE_BUF_LEN)] *)
| Passed (old_idx : Z)     (* left the inner loop, about to exchange *)
| Claimed (old_idx : Z).

Definition no_room (s : simple) (old_idx rec_len : Z) : bool :=
  let new_idx := u32 (old_idx + rec_len) in
  TRACE_BUF_LEN <? u32 (new_idx - writeout_idx s).

Definition claim_turn (rec_len : Z) (s : simple) (p : claimer) : simple * claimer :=
  match p with
  | Reading => (s, Spinning (trace_idx s))
  | Spinning old_idx => if no_room s old_idx rec_len then (s, p) else (s, Passed old_idx)
  | Passed old_idx =>
      if trace_idx s =? old_idx
      then (set_trace_idx s (u32 (old_idx + rec_len)), Claimed old_idx)
      else (s, Reading)
  | Claimed _ => (s, p)
  end.

(** What the other threads do in between: claim [l] bytes, or write out [l]
    bytes of those in use. *)
Inductive others : simple -> Z -> Z -> simple -> Prop :=
| others_claim s l old s' :
    0 < l < 2 ^ 31 -> trace_record_claim s l = Some (old, s') -> others s l 0 s'
| others_write s l :
    0 <= l <= u32 (trace_idx s - writeout_idx s) ->
    others s 0 l (set_writeout_idx s (u32 (writeout_idx s + l))).

(** Executions of one pass through the loop, with the bytes claimed and the
    bytes written out by the others. *)
Inductive turns (rec_len : Z) : simple -> claimer -> Z -> Z -> simple -> claimer -> Prop :=
| turns_nil s p : turns rec_len s p 0 0 s p
| turns_self s p n m s' p' old s'' p'' :
    turns rec_len s p n m s' p' -> p' = Spinning old ->
    claim_turn rec_len s' p' = (s'', p'') ->
    turns rec_len s p n m s'' p''
| turns_others s p n m s' p' n' m' s'' :
    turns rec_len s p n m s' p' -> others s' n' m' s'' ->
    turns rec_len s p (n + n') (m + m') s'' p'.

(** The indices are 32-bit and at most one lap apart. *)
Definition wf (s : simple) : Prop :=
  0 <= trace_idx s < 2 ^ 32 /\ 0 <= writeout_idx s < 2 ^ 32 /\
  u32 (trace_idx s - writeout_idx s) <= TRACE_BUF_LEN.

(** ** Index arithmetic *)

Lemma u32_eq a b : u32 a = b -> exists k, a = b + k * 2 ^ 32 /\ 0 <= b < 2 ^ 32.
Proof.
  unfold u32. intros <-. exists (a / 2 ^ 32).
  pose proof (Z.mod_pos_bound a (2 ^ 32)). pose proof (Z.div_mod a (2 ^ 32)). lia.
Qed.

(** Replaces every [u32 e] of the context by a variable with its defining
    equation, for [lia]. *)
Ltac u32_elim :=
  repeat match goal with
  | |- context [u32 ?e] =>
      let x := fresh "u" in let H := fresh "Hu" in
      remember (u32 e) as x eqn:H in *; symmetry in H; apply u32_eq in H as (? & ? & ?)
  | H0 : context [u32 ?e] |- _ =>
      let x := fresh "u" in let H := fresh "Hu" in
      remember (u32 e) as x eqn:H in *; symmetry in H; apply u32_eq in H as (? & ? & ?)
  end; unfold TRACE_BUF_LEN in *; lia.

Lemma trace_record_claim_inv s l old s' :
  trace_record_claim s l = Some (old, s') ->
  old = trace_idx s /\ s' = set_trace_idx s (u32 (trace_idx s + l)) /\ no_room s old l = false.
Proof.
  unfold trace_record_claim, no_room. cbn zeta.
  destruct (_ <? _) eqn:E; [done|]. intros [<- <-]%(inj Some)%pair_equal_spec. done.
Qed.

Lemma no_room_false s old l :
  no_room s old l = false <-> u32 (u32 (old + l) - writeout_idx s) <= TRACE_BUF_LEN.
Proof. unfold no_room. cbn zeta. apply Z.ltb_ge. Qed.

Lemma no_room_true s old l :
  no_room s old l = true <-> TRACE_BUF_LEN < u32 (u32 (old + l) - writeout_idx s).
Proof. unfold no_room. cbn zeta. apply Z.ltb_lt. Qed.

Lemma wf_others s n m s' : wf s -> others s n m s' -> wf s'.
Proof.
  intros Hwf Ho. destruct Ho as [s l old s' Hl Hc|s l Hl]; destruct Hwf as (H1 & H2 & H3).
  - apply trace_record_claim_inv in Hc as (-> & -> & Hr%no_room_false).
    split_and!; simpl; [u32_elim..|done].
  - split_and!; simpl; u32_elim.
Qed.

(** What holds of a thread that read [old] as [trace_idx], [n] claimed bytes
    ago. *)
Definition claiming (rec_len old n : Z) (s : simple) (p : claimer) : Prop :=
  wf s /\ 0 <= n /\ trace_idx s = u32 (old + n) /\
  match p with
  | Spinning o => o = old
  | Passed o => o = old /\ (n = 0 -> no_room s o rec_len = false)
  | _ => False
  end.

Lemma claiming_others rec_len old n s p n' m' s' :
  0 < rec_len < 2 ^ 31 -> 0 <= old < 2 ^ 32 ->
  claiming rec_len old n s p -> others s n' m' s' -> claiming rec_len old (n + n') s' p.
Proof.
  intros Hlen Hold (Hwf & Hn & Hi & Hp) Ho. pose proof (wf_others _ _ _ _ Hwf Ho) as Hwf'.
  split; [done|]. destruct Ho as [s l o s' Hl (-> & -> & _)%trace_record_claim_inv|s l Hl]; simpl.
  - split_and!; [lia|rewrite Hi; u32_elim|]. destruct p; try done.
    split; [by destruct Hp|lia].
  - rewrite Z.add_0_r. split_and!; [done..|]. destruct p; try done.
    destruct Hp as [-> Hp]. split; [done|]. intros ->. specialize (Hp eq_refl).
    rewrite no_room_false in Hp |- *. destruct Hwf as (? & ? & ?). simpl. u32_elim.
Qed.

Lemma claiming_turns rec_len s n m s' p' :
  0 < rec_len < 2 ^ 31 -> wf s ->
  turns rec_len s (Spinning (trace_idx s)) n m s' p' -> claiming rec_len (trace_idx s) n s' p'.
Proof.
  intros Hlen Hwf H. remember (Spinning (trace_idx s)) as p eqn:Hp.
  induction H as [s p|s p n m s' p' o s'' p'' _ IH -> Ht|s p n m s' p' n' m' s'' _ IH Ho]; subst p.
  - split_and!; try done. rewrite Z.add_0_r. destruct Hwf as (H1 & _). by rewrite u32_small.
  - destruct (IH Hwf eq_refl) as (Hwf' & Hn & Hi & ->). simpl in Ht.
    destruct (no_room s' (trace_idx s) rec_len) eqn:E; injection Ht as <- <-; by split_and!.
  - eapply claiming_others; try done; [apply Hwf|by apply IH].
Qed.

(** A thread that spins stays where it is while no value the writeout index
    takes makes room for its stale [old_idx]. *)
Lemma spinning_turns rec_len s old n m s' p' :
  0 <= writeout_idx s < 2 ^ 32 ->
  turns rec_len s (Spinning old) n m s' p' ->
  0 <= n /\ 0 <= m /\ writeout_idx s' = u32 (writeout_idx s + m) /\
  ((forall j, 0 <= j <= m ->
     TRACE_BUF_LEN < u32 (u32 (old + rec_len) - u32 (writeout_idx s + j))) ->
   p' = Spinning old).
Proof.
  intros Hw H. remember (Spinning old) as p eqn:Hp.
  induction H as [s p|s p n m s' p' o s'' p'' _ IH -> Ht|s p n m s' p' n' m' s'' _ IH Ho].
  - rewrite Z.add_0_r, u32_small by done. done.
  - destruct (IH Hw Hp) as (Hn & Hm & Hi & Hs). simpl in Ht.
    destruct (no_room s' o rec_len) eqn:E; injection Ht as <- <-; [done|].
    split_and!; try done. intros Hj. exfalso. specialize (Hs Hj). rewrite Hp in Hs. injection Hs as ->.
    specialize (Hj m). apply no_room_false in E. rewrite Hi in E. lia.
  - destruct (IH Hw Hp) as (Hn & Hm & Hi & Hs).
    destruct Ho as [s1 l o s2 Hl (-> & -> & _)%trace_record_claim_inv|s1 l Hl]; simpl.
    + rewrite Z.add_0_r. split_and!; try done. lia.
    + rewrite Hi, u32_add_l, Z.add_assoc. split_and!; try done; try lia.
      intros Hj. apply Hs. intros j ?. apply Hj. lia.
Qed.

(** Concrete states: an empty ring, and one in which a single byte is free. *)
Definition demo_empty : simple := st_init_state 42.
Definition demo_full : simple := set_trace_idx demo_empty (TRACE_BUF_LEN - 1).

(** The writeout thread takes all but one byte, another thread claims 1000 bytes
    and the writeout thread takes those too. *)
Definition demo_overtaken : simple :=
  set_writeout_idx (set_trace_idx demo_empty (TRACE_BUF_LEN + 999)) (TRACE_BUF_LEN + 999).

Lemma demo_overtaken_turns :
  turns 32 demo_full (Spinning (trace_idx demo_full)) 1000 (TRACE_BUF_LEN + 999)
        demo_overtaken (Spinning (trace_idx demo_full)).
Proof.
  replace 1000 with (0 + 0 + 1000 + 0) by lia.
  replace (TRACE_BUF_LEN + 999) with (0 + (TRACE_BUF_LEN - 1) + 0 + 1000) by (unfold TRACE_BUF_LEN; lia).
  eapply turns_others; [eapply turns_others; [eapply turns_others;
    [eapply turns_self; [constructor|done|by vm_compute]|]|]|].
  - apply others_write. vm_compute. split; congruence.
  - eapply others_claim; [lia|by vm_compute].
  - match goal with |- others ?s _ _ _ => replace demo_overtaken
      with (set_writeout_idx s (u32 (writeout_idx s + 1000))) by (by vm_compute) end.
    apply others_write. vm_compute. split; congruence.
Qed.

(** C26: the compare-and-exchange loop refines the atomic claim: when it
    publishes its index, [trace_record_claim] succeeds in that very state with
    the same result, provided fewer than 2^32 bytes were claimed by the other
    threads since the index was read. *)
Theorem claim_loop_refines_claim rec_len s n m s' old s'' :
  0 < rec_len < 2 ^ 31 -> wf s -> n < 2 ^ 32 ->
  turns rec_len s (Spinning (trace_idx s)) n m s' (Passed old) ->
  claim_turn rec_len s' (Passed old) = (s'', Claimed old) ->
  trace_record_claim s' rec_len = Some (old, s'').
Proof.
  intros Hlen Hwf Hn32 Ht%claiming_turns Hc; try done.
  destruct Ht as (Hwf' & Hn & Hi & -> & Hr). simpl in Hc.
  destruct (Z.eqb_spec (trace_idx s') (trace_idx s)) as [E|]; [|done].
  injection Hc as <-. destruct Hwf as (Hs & _).
  assert (n = 0) as -> by (rewrite Hi in E; clear Hr; u32_elim).
  specialize (Hr eq_refl). unfold trace_record_claim, no_room in *. cbn zeta in *.
  by rewrite E, Hr.
Qed.

Lemma claim_loop_refines_claim_witness :
  trace_record_claim demo_empty 32 = Some (0, set_trace_idx demo_empty 32).
Proof.
  apply (claim_loop_refines_claim 32 demo_empty 0 0); [lia| |lia| |by vm_compute].
  - by vm_compute.
  - eapply turns_self; [constructor|done|by vm_compute].
Defined.

(** C39: a thread whose [old_idx] was overtaken - the other threads claimed and
    wrote out [k] bytes beyond the index it wants while it did not run - spins
    on, because the inner loop never reads [trace_idx] again: it is stuck until
    nearly 2^32 further bytes were written out. *)
Theorem overtaken_claim_spins rec_len s old k n m s' p' :
  0 <= writeout_idx s < 2 ^ 32 ->
  writeout_idx s = u32 (old + rec_len + k) -> 0 < k -> k + m < 2 ^ 32 - TRACE_BUF_LEN ->
  turns rec_len s (Spinning old) n m s' p' ->
  p' = Spinning old.
Proof.
  intros Hw Hk Hk0 Hm Ht%spinning_turns; [|done]. destruct Ht as (_ & _ & _ & Hs).
  apply Hs. intros j Hj. rewrite Hk. u32_elim.
Qed.

Lemma overtaken_claim_spins_witness :
  turns 32 demo_full (Spinning (trace_idx demo_full)) 1000 (TRACE_BUF_LEN + 999)
        demo_overtaken (Spinning (trace_idx demo_full)) /\
  trace_record_claim demo_overtaken 32 <> None /\
  (claim_turn 32 demo_overtaken (Spinning (trace_idx demo_full))).2 = Spinning (trace_idx demo_full).
Proof.
  split_and!; [exact demo_overtaken_turns|by vm_compute|].
  apply (overtaken_claim_spins 32 demo_overtaken (TRACE_BUF_LEN - 1) 968 0 0 demo_overtaken);
    unfold TRACE_BUF_LEN; [by vm_compute|by vm_compute|lia|lia|].
  eapply turns_self; [constructor|done|by vm_compute].
Defined.

(** With trace writeout disabled nothing is written out, and a thread that
    found the buffer full never leaves the loop: events block the caller
    instead of being dropped. *)
Theorem full_buffer_blocks rec_len s old n s' p' :
  0 <= writeout_idx s < 2 ^ 32 -> no_room s old rec_len = true ->
  turns rec_len s (Spinning old) n 0 s' p' ->
  p' = Spinning old.
Proof.
  intros Hw Hr%no_room_true Ht%spinning_turns; [|done]. destruct Ht as (_ & _ & _ & Hs).
  apply Hs. intros j Hj. replace j with 0 by lia. by rewrite Z.add_0_r, (u32_small (writeout_idx s)).
Qed.

Lemma full_buffer_blocks_witness :
  (claim_turn 32 demo_full (Spinning (trace_idx demo_full))).2 = Spinning (trace_idx demo_full).
Proof.
  apply (full_buffer_blocks 32 demo_full _ 0 demo_full); [by vm_compute..|].
  eapply turns_self; [constructor|done|by vm_compute].
Defined.

End Claiming.
