(* ===== verification/TraceFile.v ===== *)
(** * The trace file

    The part of qemu/trace/simple.c that owns the trace file: its header and
    event mapping, switching it on and off, the gzip variant with zlib's
    [deflate] as a parameter, start-up and exit, and the [trace-file] monitor
    command of qemu/monitor/misc.c.  Records reach this layer in the order of
    the queue of [TraceQueue.Queue]; here they wait in [pending] until the
    writeout thread is let through by [flush_trace_file]. *)

From S2P Require Import Prelude TraceBuffer.
Open Scope Z_scope.
Open Scope c_scope.

Module File.
Import Ring.

(** ** zlib *)

Inductive zflush := Z_NO_FLUSH | Z_FINISH.

(** [deflate z next_in flush avail_out]: the new stream, the input that was
    not consumed and the bytes produced; [None]: a negative status.
    [deflateBound] bounds what the stream still has to produce. *)
Class Zlib := {
  z_stream : Type;
  deflateInit2 : option z_stream;
  deflate : z_stream -> list Z -> zflush -> nat -> option (z_stream * list Z * list Z);
  deflateBound : z_stream -> nat -> nat;
}.

(** What zlib documents.  [z_hist z i o]: [z] has consumed [i] and produced
    [o]; [z_full z]: the last call filled its output.  A call with input, with
    [Z_FINISH] or after a call that filled its output succeeds; [deflate]
    leaves room in its output only when it consumed its input, and with
    [Z_FINISH] only when the stream is complete; a complete stream inflates to
    what was consumed. *)
Class ZlibSpec `{Zlib} := {
  inflate : list Z -> option (list Z);
  z_hist : z_stream -> list Z -> list Z -> Prop;
  z_full : z_stream -> Prop;
  z_hist_init z : deflateInit2 = Some z -> z_hist z [] [];
  z_status z i o inp f n :
    z_hist z i o -> (0 < n)%nat -> inp <> [] \/ f = Z_FINISH \/ z_full z ->
    is_Some (deflate z inp f n);
  z_hist_deflate z i o inp f n z' rest out :
    z_hist z i o -> deflate z inp f n = Some (z', rest, out) ->
    exists used, inp = used ++ rest /\ z_hist z' (i ++ used) (o ++ out);
  z_output z inp f n z' rest out :
    deflate z inp f n = Some (z', rest, out) ->
    (List.length out < n)%nat /\ rest = [] \/ List.length out = n /\ z_full z';
  z_bound z inp f n z' rest out m :
    deflate z inp f n = Some (z', rest, out) ->
    (List.length out + deflateBound z' (List.length rest + m)
     <= deflateBound z (List.length inp + m))%nat;
  z_finished z i o inp n z' rest out :
    z_hist z i o -> deflate z inp Z_FINISH n = Some (z', rest, out) ->
    (List.length out < n)%nat -> inflate (o ++ out) = Some (i ++ inp);
}.

(** ** Files *)

(** An open file: what was written and the space left on its device. *)
Record FILE := mkFILE {
  f_name : string;
  f_data : list Z;
  f_space : nat;
}.

(** [fwrite(data, 1, n, fp)]: the number of bytes written. *)
Definition fwrite_bytes (data : list Z) (fp : FILE) : nat * FILE :=
  let n := Nat.min (List.length data) (f_space fp) in
  (n, mkFILE (f_name fp) (f_data fp ++ take n data) (f_space fp - n)).

(** [fwrite(data, n, 1, fp) == 1]: an item of size zero counts as not written. *)
Definition fwrite_item (data : list Z) (fp : FILE) : bool * FILE :=
  let '(n, fp') := fwrite_bytes data fp in
  (negb (List.length data =? 0)%nat && (n =? List.length data)%nat, fp').

Definition CHUNK : nat := Z.to_nat 0x4000.

Definition HEADER_EVENT_ID : Z := not64 0.
Definition HEADER_MAGIC : Z := 0xf2b177cb0aa429b4.
Definition HEADER_VERSION : Z := 4.

Definition TraceLogHeader_bytes : list Z :=
  le_bytes 8 HEADER_EVENT_ID ++ le_bytes 8 HEADER_MAGIC ++ le_bytes 8 HEADER_VERSION.

(** The bytes of a string. *)
Fixpoint str_bytes (s : string) : list Z :=
  match s with
  | EmptyString => []
  | String c s => Z.of_N (Ascii.N_of_ascii c) :: str_bytes s
  end.

(** The items of one mapping record. *)
Definition mapping_parts (ev : Z * string) : list (list Z) :=
  [le_bytes 8 TRACE_RECORD_TYPE_MAPPING; le_bytes 8 ev.1;
   le_bytes 4 (Z.of_nat (List.length (str_bytes ev.2))); str_bytes ev.2].

Definition record_parts (record : list Z) : list (list Z) :=
  [le_bytes 8 TRACE_RECORD_TYPE_EVENT; record].

Section TraceFile.
Context {zlib : Zlib}.

(** The file system: the space available to a file opened for writing, [None]
    when it cannot be opened. *)
Variable fopen : string -> option nat.
(** The file name set at configuration time. *)
Variable config_trace_file : string.
(** The registered events: identifier and name. *)
Variable events : list (Z * string).

(** [malloc] leaves [is_compressed] and the stream indeterminate. *)
Record CompressedTraceBuffer := mkCTB {
  gz_stream : option z_stream;
  is_compressed : option bool;
}.

Inductive ctb_ptr :=
| CtbNull
| CtbFreed
| CtbLive (c : CompressedTraceBuffer).

Record tfile := mkTfile {
  trace_file_name : option string;
  trace_fp : option FILE;
  compressed_trace_buffer : ctb_ptr;
  writeout_enabled : bool;
  pending : list (list Z);
  disk : gmap string (list Z);
}.

Definition set_fp (s : tfile) (fp : option FILE) : tfile :=
  mkTfile (trace_file_name s) fp (compressed_trace_buffer s) (writeout_enabled s) (pending s) (disk s).
Definition set_ctb (s : tfile) (c : ctb_ptr) : tfile :=
  mkTfile (trace_file_name s) (trace_fp s) c (writeout_enabled s) (pending s) (disk s).
Definition set_writeout (s : tfile) (b : bool) : tfile :=
  mkTfile (trace_file_name s) (trace_fp s) (compressed_trace_buffer s) b (pending s) (disk s).
Definition set_pending (s : tfile) (l : list (list Z)) : tfile :=
  mkTfile (trace_file_name s) (trace_fp s) (compressed_trace_buffer s) (writeout_enabled s) l (disk s).
Definition set_name (s : tfile) (n : string) : tfile :=
  mkTfile (Some n) (trace_fp s) (compressed_trace_buffer s) (writeout_enabled s) (pending s) (disk s).

Definition tfile_init : tfile := mkTfile None None CtbNull false [] ∅.

(** Reading through [compressed_trace_buffer]. *)
Definition deref_ctb (s : tfile) : cres CompressedTraceBuffer :=
  match compressed_trace_buffer s with
  | CtbNull => Abort "null pointer"
  | CtbFreed => Abort "use after free"
  | CtbLive c => Ret c
  end.

Definition get_compressed (s : tfile) : cres bool :=
  let* c := deref_ctb s in
  match is_compressed c with
  | None => Abort "indeterminate value"
  | Some b => Ret b
  end.

(** ** Writing a message *)

(** The [do ... while (avail_out == 0)] loop around [deflate].  [check]: a
    short write ends it with an error. *)
Fixpoint deflate_loop (fuel : nat) (check : bool) (f : zflush) (z : z_stream)
  (inp : list Z) (fp : FILE) : cres (bool * z_stream * FILE) :=
  match fuel with
  | O => Abort "fuel"
  | S fuel =>
      match deflate z inp f CHUNK with
      | None => Abort "bad zlib status"
      | Some (z, rest, out) =>
          let '(n, fp) := fwrite_bytes out fp in
          if check && (n <? List.length out)%nat then Ret (false, z, fp)
          else if (List.length out =? CHUNK)%nat then deflate_loop fuel check f z rest fp
          else Ret (true, z, fp)
      end
  end.

(** Every turn but the last fills the output, so the bytes still to come
    bound the number of turns. *)
Definition deflate_fuel (z : z_stream) (inp : list Z) : nat :=
  S (deflateBound z (List.length inp)).

(** Plain items; with [check], the first failure skips the rest. *)
Fixpoint fwrite_items (check : bool) (parts : list (list Z)) (fp : FILE) : bool * FILE :=
  match parts with
  | [] => (true, fp)
  | d :: parts =>
      let '(ok, fp) := fwrite_item d fp in
      if check && negb ok then (false, fp) else fwrite_items check parts fp
  end.

(** The two branches every writer has: compress the message, or write its
    items. *)
Definition write_parts (check : bool) (parts : list (list Z)) (s : tfile) : cres (bool * tfile) :=
  let* comp := get_compressed s in
  match trace_fp s with
  | None => Abort "null file"
  | Some fp =>
      if comp then
        let* c := deref_ctb s in
        let message := concat parts in
        if (CHUNK <? List.length message)%nat then Abort "message overflow"
        else
          match gz_stream c with
          | None => Abort "indeterminate stream"
          | Some z =>
              let* r := deflate_loop (deflate_fuel z message) check Z_NO_FLUSH z message fp in
              let '(ok, z, fp) := r in
              Ret (ok, set_ctb (set_fp s (Some fp)) (CtbLive (mkCTB (Some z) (Some true))))
          end
      else
        let '(ok, fp) := fwrite_items check parts fp in
        Ret (ok, set_fp s (Some fp))
  end.

(** [writeout_thread] for the given records; results of [fwrite] are ignored. *)
Fixpoint writeout_records (records : list (list Z)) (s : tfile) : cres tfile :=
  match records with
  | [] => Ret s
  | r :: records =>
      let* p := write_parts false (record_parts r) s in
      writeout_records records p.2
  end.

(** [flush_trace_file(true)] returns after the writeout thread went through
    the buffer, or at once when writeout is disabled. *)
Definition flush_trace_file_wait (s : tfile) : cres tfile :=
  if writeout_enabled s then writeout_records (pending s) (set_pending s []) else Ret s.

Fixpoint write_mappings (evs : list (Z * string)) (s : tfile) : cres (bool * tfile) :=
  match evs with
  | [] => Ret (true, s)
  | ev :: evs =>
      let* p := write_parts true (mapping_parts ev) s in
      if p.1 then write_mappings evs p.2 else Ret (false, p.2)
  end.

Definition st_write_event_mapping (s : tfile) : cres (bool * tfile) := write_mappings events s.

(** ** Switching the file on and off *)

Definition fclose (s : tfile) : tfile :=
  match trace_fp s with
  | None => s
  | Some fp =>
      mkTfile (trace_file_name s) None (compressed_trace_buffer s) (writeout_enabled s)
              (pending s) (<[f_name fp := f_data fp]> (disk s))
  end.

(** [memcmp(name + strlen(name) - 3, ".gz", 3) == 0]; a name shorter than the
    suffix is read before its first byte. *)
Definition gz_name (name : string) : cres bool :=
  let b := str_bytes name in
  if (List.length b <? 3)%nat then Abort "read before the name"
  else Ret (bool_decide (drop (List.length b - 3) b = str_bytes ".gz")).

(** The choice of the format when a file is opened. *)
Definition init_compression (name : string) (s : tfile) : cres tfile :=
  let* gz := gz_name name in
  let* c := deref_ctb s in
  if gz then
    match deflateInit2 with
    | None => Abort "bad zlib status"
    | Some z => Ret (set_ctb s (CtbLive (mkCTB (Some z) (Some true))))
    end
  else Ret (set_ctb s (CtbLive (mkCTB (gz_stream c) (Some false)))).

Definition st_set_trace_file_enabled (enable : bool) (s : tfile) : cres (bool * tfile) :=
  let was_enabled := bool_decide (is_Some (trace_fp s)) in
  if Bool.eqb enable was_enabled then Ret (was_enabled, s)
  else
    let* s := flush_trace_file_wait s in
    let s := set_writeout s false in
    let* s := flush_trace_file_wait s in
    if enable then
      match trace_file_name s with
      | None => Abort "fopen of a null name"
      | Some name =>
          match fopen name with
          | None => Abort "assert(trace_fp != NULL)"
          | Some space =>
              let s := set_fp s (Some (mkFILE name [] space)) in
              let* s := init_compression name s in
              let* p := write_parts true [TraceLogHeader_bytes] s in
              if negb p.1 then Ret (was_enabled, fclose p.2)
              else
                let* p := st_write_event_mapping p.2 in
                if negb p.1 then Ret (was_enabled, fclose p.2)
                else Ret (was_enabled, set_writeout p.2 true)
          end
      end
    else Ret (was_enabled, fclose s).

Definition st_set_trace_file (file : option string) (s : tfile) : cres tfile :=
  let* p := st_set_trace_file_enabled false s in
  let saved_enable := p.1 in
  let name := match file with None => config_trace_file | Some f => f end in
  let s := set_name p.2 name in
  let* p := st_set_trace_file_enabled saved_enable s in
  let* p := st_set_trace_file_enabled true p.2 in
  Ret p.2.

(** The text printed: the name and whether the file is on. *)
Definition st_print_trace_file_status (s : tfile) : option string * string :=
  (trace_file_name s, if bool_decide (is_Some (trace_fp s)) then "on" else "off")%string.

(** ** Exit *)

Definition compressed_simple_trace_buffer_cleanup (s : tfile) : cres tfile :=
  let* comp := get_compressed s in
  let* c := deref_ctb s in
  if comp then
    match gz_stream c, trace_fp s with
    | Some z, Some fp =>
        let* r := deflate_loop (deflate_fuel z []) false Z_FINISH z [] fp in
        let '(_, _, fp) := r in
        Ret (set_ctb (set_fp s (Some fp)) CtbFreed)
    | None, _ => Abort "indeterminate stream"
    | _, None => Abort "null file"
    end
  else Ret (set_ctb s CtbFreed).

Definition st_flush_trace_buffer (s : tfile) : cres tfile :=
  let* s := flush_trace_file_wait s in
  compressed_simple_trace_buffer_cleanup s.

(** [thread]: whether the writeout thread could be created. *)
Definition st_init (thread : bool) (s : tfile) : bool * tfile :=
  (thread, set_ctb s (CtbLive (mkCTB None None))).

(** ** The monitor command *)

Inductive hmp_result :=
| HmpStatus (name : option string) (state : string)
| HmpDone
| HmpUnexpected (op : string).

Definition hmp_trace_file (op arg : option string) (s : tfile) : cres (hmp_result * tfile) :=
  match op with
  | None => let p := st_print_trace_file_status s in Ret (HmpStatus p.1 p.2, s)
  | Some op =>
      if String.eqb op "on" then
        let* p := st_set_trace_file_enabled true s in Ret (HmpDone, p.2)
      else if String.eqb op "off" then
        let* p := st_set_trace_file_enabled false s in Ret (HmpDone, p.2)
      else if String.eqb op "flush" then
        let* s := st_flush_trace_buffer s in Ret (HmpDone, s)
      else if String.eqb op "set" then
        match arg with
        | Some file => let* s := st_set_trace_file (Some file) s in Ret (HmpDone, s)
        | None => Ret (HmpDone, s)
        end
      else Ret (HmpUnexpected op, s)
  end.

(** A trace event: its record joins the queue. *)
Definition trace_event (record : list Z) (s : tfile) : tfile :=
  set_pending s (pending s ++ [record]).

(** ** Specification *)

(** What the file holds for a run: header, mappings, records. *)
Definition trace_file_prefix : list Z :=
  TraceLogHeader_bytes ++ concat (map (fun ev => concat (mapping_parts ev)) events).

Definition records_bytes (records : list (list Z)) : list Z :=
  concat (map (fun r => concat (record_parts r)) records).

Context {zspec : ZlibSpec}.

(** The open file holds [log], in its format, and has room for [m] more bytes. *)
Definition holds (s : tfile) (log : list Z) (m : nat) : Prop :=
  exists fp, trace_fp s = Some fp /\
    ((exists z, compressed_trace_buffer s = CtbLive (mkCTB z (Some false))) /\
       f_data fp = log /\ (m <= f_space fp)%nat \/
     (exists z, compressed_trace_buffer s = CtbLive (mkCTB (Some z) (Some true)) /\
       z_hist z log (f_data fp) /\ (deflateBound z m <= f_space fp)%nat)).

(** Everything but the file and the stream. *)
Definition same_rest (s s' : tfile) : Prop :=
  trace_file_name s' = trace_file_name s /\ writeout_enabled s' = writeout_enabled s /\
  pending s' = pending s /\ disk s' = disk s /\
  (f_name <$> trace_fp s') = (f_name <$> trace_fp s) /\
  get_compressed s' = get_compressed s.

#[local] Opaque CHUNK.

Lemma CHUNK_pos : (0 < CHUNK)%nat.
Proof. vm_compute. lia. Qed.

Lemma fwrite_bytes_room data fp :
  (List.length data <= f_space fp)%nat ->
  fwrite_bytes data fp =
    (List.length data, mkFILE (f_name fp) (f_data fp ++ data) (f_space fp - List.length data)).
Proof. intros H. unfold fwrite_bytes. by rewrite Nat.min_l, firstn_all. Qed.

Lemma fwrite_items_room check parts fp :
  Forall (fun d => d <> []) parts -> (List.length (concat parts) <= f_space fp)%nat ->
  fwrite_items check parts fp =
    (true, mkFILE (f_name fp) (f_data fp ++ concat parts) (f_space fp - List.length (concat parts))).
Proof.
  intros Hne. revert fp. induction Hne as [|d parts Hd _ IH]; intros fp Hs; cbn [fwrite_items concat] in *.
  { rewrite app_nil_r, Nat.sub_0_r. by destruct fp. }
  rewrite length_app in *. unfold fwrite_item. rewrite fwrite_bytes_room by lia.
  destruct d as [|x d]; [done|]. rewrite Nat.eqb_refl. simpl. rewrite andb_false_r.
  rewrite IH by (simpl in *; lia). simpl. do 2 f_equal; [by rewrite <- app_assoc|lia].
Qed.

(** The loop ends, and the stream has consumed the whole input. *)
Lemma deflate_loop_ok check f m fuel z i inp fp :
  z_hist z i (f_data fp) -> inp <> [] \/ f = Z_FINISH \/ z_full z ->
  (deflateBound z (List.length inp) < fuel)%nat ->
  (deflateBound z (List.length inp + m) <= f_space fp)%nat ->
  exists z' fp', deflate_loop fuel check f z inp fp = Ret (true, z', fp') /\
    z_hist z' (i ++ inp) (f_data fp') /\ (deflateBound z' m <= f_space fp')%nat /\
    f_name fp' = f_name fp /\ (f = Z_FINISH -> inflate (f_data fp') = Some (i ++ inp)).
Proof.
  revert z i inp fp. induction fuel as [|fuel IH]; intros z i inp fp Hh Hok Hf Hs; [lia|].
  cbn [deflate_loop].
  destruct (z_status z i _ inp f CHUNK Hh CHUNK_pos Hok) as [[[z' rest] out] Hd]. rewrite Hd.
  destruct (z_hist_deflate _ _ _ _ _ _ _ _ _ Hh Hd) as (u & -> & Hh').
  pose proof (z_bound _ _ _ _ _ _ _ 0%nat Hd) as Hb0.
  pose proof (z_bound _ _ _ _ _ _ _ m Hd) as Hbm. rewrite !Nat.add_0_r in Hb0.
  rewrite fwrite_bytes_room by lia. rewrite Nat.ltb_irrefl, andb_false_r.
  destruct (z_output _ _ _ _ _ _ _ Hd) as [[Hlt ->]|[Hl Hfull]].
  - destruct (Nat.eqb_spec (List.length out) CHUNK); [lia|]. rewrite app_nil_r in *.
    eexists _, _. split_and!; [done|done|simpl in *; lia|done|]. intros ->. simpl.
    rewrite <- (app_nil_r u). by eapply z_finished; [..|rewrite app_nil_r|].
  - rewrite Hl, Nat.eqb_refl. pose proof CHUNK_pos.
    destruct (IH z' (i ++ u) rest (mkFILE (f_name fp) (f_data fp ++ out) (f_space fp - CHUNK)))
      as (z2 & fp2 & -> & H1 & H2 & H3 & H4); simpl; [done|by auto|lia|lia|].
    rewrite <- app_assoc in H1, H4. eauto 10.
Qed.

Lemma write_parts_ok check parts s log m :
  holds s log (List.length (concat parts) + m) ->
  Forall (fun d => d <> []) parts -> concat parts <> [] ->
  (List.length (concat parts) <= CHUNK)%nat ->
  exists s', write_parts check parts s = Ret (true, s') /\
    holds s' (log ++ concat parts) m /\ same_rest s s'.
Proof.
  intros (fp & Hfp & Hc) Hne Hne' Hl. unfold write_parts, get_compressed, deref_ctb.
  destruct Hc as [[[z Hz] [Hd Hs]]|(z & Hz & Hh & Hs)]; rewrite Hz, Hfp;
    cbn [cbind is_compressed gz_stream].
  - rewrite fwrite_items_room by (try done; lia). eexists. split; [done|].
    split; [|by split_and!; simpl; rewrite ?Hfp; unfold get_compressed, deref_ctb; simpl; rewrite ?Hz].
    eexists. split; [done|]. left. simpl. rewrite Hd. split_and!; eauto. lia.
  - destruct (Nat.ltb_spec CHUNK (List.length (concat parts))); [lia|].
    destruct (deflate_loop_ok check Z_NO_FLUSH m (deflate_fuel z (concat parts)) z log (concat parts) fp)
      as (z' & fp' & -> & H1 & H2 & H3 & _); [done|by auto|unfold deflate_fuel; lia|done|].
    simpl. eexists. split; [done|].
    split; [|by split_and!; simpl; rewrite ?Hfp, ?H3; unfold get_compressed, deref_ctb; simpl; rewrite ?Hz].
    eexists. split; [done|]. right. simpl. eauto.
Qed.

(** ** Records and mappings *)

Definition record_ok (r : list Z) : Prop := r <> [] /\ (8 + List.length r <= CHUNK)%nat.
Definition event_ok (ev : Z * string) : Prop :=
  ev.2 <> EmptyString /\ (20 + List.length (str_bytes ev.2) <= CHUNK)%nat.

Lemma record_parts_ok r :
  record_ok r -> Forall (fun d => d <> []) (record_parts r) /\ concat (record_parts r) <> [] /\
    (List.length (concat (record_parts r)) <= CHUNK)%nat.
Proof.
  intros [Hne Hl]. split_and!; [by repeat constructor|done|].
  unfold record_parts. cbn [concat]. rewrite app_nil_r, length_app, length_le_bytes. lia.
Qed.

Lemma mapping_parts_ok ev :
  event_ok ev -> Forall (fun d => d <> []) (mapping_parts ev) /\ concat (mapping_parts ev) <> [] /\
    (List.length (concat (mapping_parts ev)) <= CHUNK)%nat.
Proof.
  intros [Hne Hl]. split_and!; [|done|].
  - repeat constructor; try done. by destruct (ev.2).
  - unfold mapping_parts. cbn [concat]. rewrite app_nil_r, !length_app, !length_le_bytes. lia.
Qed.

Lemma same_rest_trans s1 s2 s3 : same_rest s1 s2 -> same_rest s2 s3 -> same_rest s1 s3.
Proof. intros (?&?&?&?&?&?) (?&?&?&?&?&?). repeat split; congruence. Qed.

Lemma writeout_records_ok records : forall s log m,
  Forall record_ok records -> holds s log (List.length (records_bytes records) + m) ->
  exists s', writeout_records records s = Ret s' /\
    holds s' (log ++ records_bytes records) m /\ same_rest s s'.
Proof.
  induction records as [|r records IH]; intros s log m Hok Hs; cbn [writeout_records].
  { exists s. rewrite app_nil_r. by repeat split. }
  inversion Hok as [|? ? Hr Hrs]; subst. destruct (record_parts_ok r Hr) as (? & ? & ?).
  unfold records_bytes in *; cbn [map concat] in *. rewrite length_app, <- Nat.add_assoc in Hs.
  destruct (write_parts_ok false (record_parts r) s log _ Hs) as (s1 & -> & Hs1 & HR1); [done..|].
  cbn [cbind snd]. destruct (IH s1 _ m Hrs Hs1) as (s2 & -> & Hs2 & HR2).
  exists s2. rewrite app_assoc. split_and!; [done|done|]. by eapply same_rest_trans.
Qed.

Lemma write_mappings_ok evs : forall s log m,
  Forall event_ok evs ->
  holds s log (List.length (concat (map (fun ev => concat (mapping_parts ev)) evs)) + m) ->
  exists s', write_mappings evs s = Ret (true, s') /\
    holds s' (log ++ concat (map (fun ev => concat (mapping_parts ev)) evs)) m /\ same_rest s s'.
Proof.
  induction evs as [|ev evs IH]; intros s log m Hok Hs; cbn [write_mappings].
  { exists s. rewrite app_nil_r. by repeat split. }
  inversion Hok as [|? ? He Hes]; subst. destruct (mapping_parts_ok ev He) as (? & ? & ?).
  cbn [map concat] in *. rewrite length_app, <- Nat.add_assoc in Hs.
  destruct (write_parts_ok true (mapping_parts ev) s log _ Hs) as (s1 & -> & Hs1 & HR1); [done..|].
  cbn [cbind fst snd]. destruct (IH s1 _ m Hes Hs1) as (s2 & -> & Hs2 & HR2).
  exists s2. rewrite app_assoc. split_and!; [done|done|]. by eapply same_rest_trans.
Qed.

(** ** Opening, closing *)

(** The device has room for a file of [n] bytes. *)
Definition fits (name : string) (n : nat) : Prop :=
  exists space g, fopen name = Some space /\ gz_name name = Ret g /\
    if (g : bool) then exists z, deflateInit2 = Some z /\ (deflateBound z n <= space)%nat
    else (n <= space)%nat.

(** The file is off and may be switched on. *)
Definition ready (name : string) (s : tfile) : Prop :=
  trace_fp s = None /\ writeout_enabled s = false /\ trace_file_name s = Some name /\
  exists c, compressed_trace_buffer s = CtbLive c.

Lemma init_compression_ok name s m space :
  (exists c, compressed_trace_buffer s = CtbLive c) ->
  fopen name = Some space -> fits name m -> trace_fp s = Some (mkFILE name [] space) ->
  exists s', init_compression name s = Ret s' /\ holds s' [] m /\ trace_fp s' = trace_fp s /\
    gz_name name = get_compressed s' /\
    trace_file_name s' = trace_file_name s /\ pending s' = pending s /\ disk s' = disk s.
Proof.
  intros [c Hc] Ho (sp & g & Ho' & Hg & Hz) Hfp. rewrite Ho in Ho'. injection Ho' as <-.
  unfold init_compression, deref_ctb, get_compressed. rewrite Hg, Hc. cbn [cbind].
  destruct g.
  - destruct Hz as (z & Hi & Hb). rewrite Hi. eexists. split; [done|].
    split; [|by unfold deref_ctb]. eexists. split; [done|]. right. exists z.
    split_and!; [done|by apply z_hist_init|done].
  - eexists. split; [done|]. split; [|by unfold deref_ctb].
    eexists. split; [done|]. left. simpl. eauto.
Qed.

Lemma header_ok : Forall (fun d : list Z => d <> []) [TraceLogHeader_bytes] /\
  concat [TraceLogHeader_bytes] <> [] /\ (List.length (concat [TraceLogHeader_bytes]) <= CHUNK)%nat.
Proof. split_and!; [by repeat constructor|done|]. by apply Nat.leb_le; vm_compute. Qed.

Lemma was_off s : trace_fp s = None -> bool_decide (is_Some (trace_fp s)) = false.
Proof. intros ->. by apply bool_decide_eq_false_2, eq_None_not_Some. Qed.

Lemma was_on s fp : trace_fp s = Some fp -> bool_decide (is_Some (trace_fp s)) = true.
Proof. intros ->. by apply bool_decide_eq_true_2. Qed.

Lemma enable_ok name s m :
  ready name s -> Forall event_ok events -> fits name (List.length trace_file_prefix + m) ->
  exists s', st_set_trace_file_enabled true s = Ret (false, s') /\
    holds s' trace_file_prefix m /\ writeout_enabled s' = true /\ pending s' = pending s /\
    (f_name <$> trace_fp s') = Some name /\ get_compressed s' = gz_name name /\ disk s' = disk s.
Proof.
  intros (Hfp & Hw & Hn & Hc) Hev Hf. pose proof Hf as (space & g & Ho & _).
  unfold st_set_trace_file_enabled, flush_trace_file_wait. rewrite (was_off s Hfp), Hw.
  cbn [Bool.eqb cbind writeout_enabled set_writeout trace_file_name]. rewrite Hn, Ho.
  edestruct (init_compression_ok name (set_fp (set_writeout s false) (Some (mkFILE name [] space))))
    as (s1 & -> & Hs1 & Hfp1 & Hg1 & Hn1 & Hp1 & Hd1); [exact Hc|done|exact Hf|done|].
  cbn [cbind]. unfold trace_file_prefix in Hs1. rewrite length_app, <- Nat.add_assoc in Hs1.
  destruct header_ok as (? & ? & ?).
  destruct (write_parts_ok true [TraceLogHeader_bytes] s1 [] _ Hs1) as (s2 & -> & Hs2 & HR2); [done..|].
  cbn [cbind fst snd negb].
  destruct (write_mappings_ok events s2 _ m Hev Hs2) as (s3 & Hm & Hs3 & HR3).
  unfold st_write_event_mapping. rewrite Hm. cbn [cbind fst snd negb].
  pose proof (same_rest_trans _ _ _ HR2 HR3) as (R1 & R2 & R3 & R4 & R5 & R6).
  eexists. split; [done|]. cbn [trace_fp pending disk writeout_enabled set_writeout].
  split_and!; try done; [by rewrite R3|by rewrite R5, Hfp1|by rewrite Hg1|by rewrite R4].
Qed.

(** Stopping writeout empties the queue into the file. *)
Lemma flush_ok s log m :
  holds s log (List.length (records_bytes (pending s)) + m) -> Forall record_ok (pending s) ->
  writeout_enabled s = true ->
  exists s', flush_trace_file_wait s = Ret s' /\
    holds s' (log ++ records_bytes (pending s)) m /\ same_rest (set_pending s []) s'.
Proof. intros Hs Hp Hw. unfold flush_trace_file_wait. rewrite Hw. by apply writeout_records_ok. Qed.

(** What a closed file holds in the plain format, and how the open file ends
    up complete in the compressed one. *)
Lemma disable_ok s log name :
  holds s log (List.length (records_bytes (pending s))) -> Forall record_ok (pending s) ->
  writeout_enabled s = true -> (f_name <$> trace_fp s) = Some name ->
  get_compressed s = Ret false ->
  exists s', st_set_trace_file_enabled false s = Ret (true, s') /\
    disk s' !! name = Some (log ++ records_bytes (pending s)) /\
    trace_fp s' = None /\ writeout_enabled s' = false /\ pending s' = [].
Proof.
  intros Hs Hp Hw Hn Hc. destruct (trace_fp s) as [fp|] eqn:Hfp; [|done].
  rewrite <- (Nat.add_0_r (List.length _)) in Hs.
  destruct (flush_ok s log 0 Hs Hp Hw) as (s1 & Hf & H1 & (R1 & R2 & R3 & R4 & R5 & R6)).
  unfold st_set_trace_file_enabled. rewrite (was_on s fp Hfp). cbn [Bool.eqb].
  rewrite Hf. cbn [cbind]. unfold flush_trace_file_wait. cbn [writeout_enabled set_writeout cbind].
  destruct H1 as (fp1 & Hfp1 & Hd1).
  eexists. split; [done|]. unfold fclose. cbn [trace_fp set_writeout]. rewrite Hfp1 in R5 |- *.
  cbn [disk trace_fp writeout_enabled pending set_writeout]. split_and!; try done.
  destruct Hd1 as [(_ & -> & _)|(z & Hz & _)].
  - cbn in R5. rewrite Hfp in R5. cbn in Hn, R5.
    replace name with (f_name fp1) by congruence. apply lookup_insert_eq.
  - unfold get_compressed, deref_ctb in R6, Hc. rewrite Hz in R6. cbn in R6. congruence.
Qed.

Lemma exit_ok s log :
  holds s log (List.length (records_bytes (pending s))) -> Forall record_ok (pending s) ->
  writeout_enabled s = true -> get_compressed s = Ret true ->
  exists s' fp, st_flush_trace_buffer s = Ret s' /\ trace_fp s' = Some fp /\
    inflate (f_data fp) = Some (log ++ records_bytes (pending s)) /\ pending s' = [].
Proof.
  intros Hs Hp Hw Hc. rewrite <- (Nat.add_0_r (List.length _)) in Hs.
  destruct (flush_ok s log 0 Hs Hp Hw) as (s1 & Hf & (fp1 & Hfp1 & Hd1) & (_ & _ & R3 & _ & _ & R6)).
  unfold st_flush_trace_buffer. rewrite Hf. cbn [cbind].
  unfold compressed_simple_trace_buffer_cleanup. rewrite R6.
  change (get_compressed (set_pending s [])) with (get_compressed s). rewrite Hc. cbn [cbind].
  destruct Hd1 as [([z Hz] & _)|(z & Hz & Hh & Hb)].
  { unfold get_compressed, deref_ctb in R6. rewrite Hz in R6. cbn in R6.
    unfold get_compressed, deref_ctb in Hc. cbn in Hc. congruence. }
  unfold deref_ctb. rewrite Hz, Hfp1. cbn [cbind gz_stream].
  destruct (deflate_loop_ok false Z_FINISH 0 (deflate_fuel z []) z (log ++ records_bytes (pending s)) [] fp1)
    as (z' & fp' & -> & _ & _ & _ & Hi); [done|by auto|unfold deflate_fuel; simpl; lia|done|].
  eexists _, fp'. split; [done|]. rewrite app_nil_r in Hi. split_and!; try done. by apply Hi.
Qed.

Definition trace_events (records : list (list Z)) (s : tfile) : tfile :=
  foldl (fun s r => trace_event r s) s records.

Lemma trace_events_eq records s : trace_events records s = set_pending s (pending s ++ records).
Proof.
  revert s. induction records as [|r records IH]; intros s; simpl.
  - rewrite app_nil_r. by destruct s.
  - unfold trace_events in *. simpl. rewrite IH. unfold trace_event, set_pending. simpl.
    by rewrite <- app_assoc.
Qed.

(** A fresh process that sets its trace file. *)
Lemma set_trace_file_ok name m :
  Forall event_ok events -> fits name (List.length trace_file_prefix + m) ->
  exists s', st_set_trace_file (Some name) (st_init true tfile_init).2 = Ret s' /\
    holds s' trace_file_prefix m /\ writeout_enabled s' = true /\ pending s' = [] /\
    (f_name <$> trace_fp s') = Some name /\ get_compressed s' = gz_name name.
Proof.
  intros Hev Hf. unfold st_set_trace_file.
  set (s0 := set_name (st_init true tfile_init).2 name).
  assert (ready name s0) as Hr by (split_and!; try done; by eexists).
  destruct (enable_ok name s0 m Hr Hev Hf) as (s1 & H1 & ? & ? & ? & ? & ? & _).
  change (st_set_trace_file_enabled false (st_init true tfile_init).2)
    with (Ret (false, (st_init true tfile_init).2)). cbn [cbind fst snd]. fold s0.
  change (st_set_trace_file_enabled false s0) with (Ret (false, s0)). cbn [cbind fst snd].
  rewrite H1. cbn [cbind snd]. eauto 10.
Qed.

(** The whole life of a plain file. *)
Lemma plain_file_holds name records :
  gz_name name = Ret false -> Forall event_ok events -> Forall record_ok records ->
  fits name (List.length trace_file_prefix + List.length (records_bytes records)) ->
  exists s1 s2,
    st_set_trace_file (Some name) (st_init true tfile_init).2 = Ret s1 /\
    st_set_trace_file_enabled false (trace_events records s1) = Ret (true, s2) /\
    disk s2 !! name = Some (trace_file_prefix ++ records_bytes records).
Proof.
  intros Hg Hev Hr Hf. destruct (set_trace_file_ok name _ Hev Hf) as (s1 & Hs1 & H1 & Hw & Hp & Hn & Hc).
  exists s1. rewrite trace_events_eq, Hp. cbn [app].
  destruct (disable_ok (set_pending s1 records) trace_file_prefix name) as (s2 & ? & ? & _);
    try done; [|by exists s2]. rewrite <- Hg, <- Hc. done.
Qed.

(** A plain trace file, switched on, fed with records and switched off,
    holds the log header, the mapping of every event and every record, in
    order and nothing else. *)
Theorem plain_file_complete name records :
  gz_name name = Ret false -> Forall event_ok events -> Forall record_ok records ->
  fits name (List.length trace_file_prefix + List.length (records_bytes records)) ->
  exists s1 s2,
    st_set_trace_file (Some name) (st_init true tfile_init).2 = Ret s1 /\
    st_set_trace_file_enabled false (trace_events records s1) = Ret (true, s2) /\
    disk s2 !! name = Some (trace_file_prefix ++ records_bytes records).
Proof. apply plain_file_holds. Qed.

(** C30: a gzip trace file inflates, after the exit handler ran, to the same
    bytes as the plain file: header, mappings and every record. *)
Theorem gzip_file_complete name records :
  gz_name name = Ret true -> Forall event_ok events -> Forall record_ok records ->
  fits name (List.length trace_file_prefix + List.length (records_bytes records)) ->
  exists s1 s2 fp,
    st_set_trace_file (Some name) (st_init true tfile_init).2 = Ret s1 /\
    st_flush_trace_buffer (trace_events records s1) = Ret s2 /\
    trace_fp s2 = Some fp /\
    inflate (f_data fp) = Some (trace_file_prefix ++ records_bytes records).
Proof.
  intros Hg Hev Hr Hf. destruct (set_trace_file_ok name _ Hev Hf) as (s1 & Hs1 & H1 & Hw & Hp & Hn & Hc).
  exists s1. rewrite trace_events_eq, Hp. cbn [app].
  destruct (exit_ok (set_pending s1 records) trace_file_prefix) as (s2 & fp & ? & ? & ? & _);
    try done; [|by exists s2, fp]. rewrite <- Hg, <- Hc. done.
Qed.

(** ** After the exit handler *)

Lemma write_parts_queue check parts s p :
  write_parts check parts s = Ret p ->
  writeout_enabled p.2 = writeout_enabled s /\ pending p.2 = pending s.
Proof.
  unfold write_parts. rewrite cbind_Ret. intros (comp & _ & H).
  destruct (trace_fp s) as [fp|]; [|done]. destruct comp.
  - rewrite cbind_Ret in H. destruct H as (c & _ & H).
    destruct (_ <? _)%nat; [done|]. destruct (gz_stream c); [|done].
    rewrite cbind_Ret in H. destruct H as ([[ok z'] fp'] & _ & [= <-]). done.
  - destruct (fwrite_items _ _ _) as [ok fp']. by injection H as <-.
Qed.

Lemma writeout_records_queue records s s' :
  writeout_records records s = Ret s' ->
  writeout_enabled s' = writeout_enabled s /\ pending s' = pending s.
Proof.
  revert s. induction records as [|r records IH]; intros s; simpl; [by intros [= <-]|].
  rewrite cbind_Ret. intros (p & [Hw Hp]%write_parts_queue & H). apply IH in H as [? ?].
  split; congruence.
Qed.

Lemma flush_wait_queue s s' :
  flush_trace_file_wait s = Ret s' ->
  writeout_enabled s' = writeout_enabled s /\ (writeout_enabled s = true -> pending s' = []).
Proof.
  unfold flush_trace_file_wait. destruct (writeout_enabled s) eqn:E.
  - intros [? ?]%writeout_records_queue. by split; [rewrite H|].
  - by intros [= <-].
Qed.

Lemma cleanup_frees s s' :
  compressed_simple_trace_buffer_cleanup s = Ret s' ->
  compressed_trace_buffer s' = CtbFreed /\ writeout_enabled s' = writeout_enabled s /\
  pending s' = pending s.
Proof.
  unfold compressed_simple_trace_buffer_cleanup. rewrite cbind_Ret. intros (comp & _ & H).
  rewrite cbind_Ret in H. destruct H as (c & _ & H). destruct comp; [|by injection H as <-].
  destruct (gz_stream c), (trace_fp s); try done.
  rewrite cbind_Ret in H. destruct H as ([[? ?] ?] & _ & [= <-]). done.
Qed.

(** Writing records after the buffer was freed. *)
Lemma freed_writeout s r records :
  compressed_trace_buffer s = CtbFreed -> writeout_records (r :: records) s = Abort "use after free".
Proof.
  intros HF. cbn [writeout_records]. unfold write_parts, get_compressed, deref_ctb. by rewrite HF.
Qed.

(** C40: the exit handler frees the compression buffer, and the monitor command
    [trace-file flush] runs it: the next record that is written out, and a
    second flush, access freed memory. *)
Theorem flush_command_frees_buffer s s' r :
  hmp_trace_file (Some "flush"%string) None s = Ret (HmpDone, s') ->
  st_flush_trace_buffer s' = Abort "use after free" /\
  (writeout_enabled s' = true ->
   flush_trace_file_wait (trace_event r s') = Abort "use after free").
Proof.
  cbn -[st_flush_trace_buffer]. rewrite cbind_Ret. intros (s1 & Hf & [= <-]).
  unfold st_flush_trace_buffer in Hf. rewrite cbind_Ret in Hf.
  destruct Hf as (s2 & [Hw Hp]%flush_wait_queue & (HF & Hw1 & Hp1)%cleanup_frees).
  split.
  - unfold st_flush_trace_buffer, flush_trace_file_wait. destruct (writeout_enabled s1) eqn:E.
    + rewrite Hp1, Hp by congruence. cbn [writeout_records cbind].
      unfold compressed_simple_trace_buffer_cleanup, get_compressed, deref_ctb. cbn. by rewrite HF.
    + cbn [cbind]. unfold compressed_simple_trace_buffer_cleanup, get_compressed, deref_ctb.
      by rewrite HF.
  - intros E. unfold flush_trace_file_wait. cbn [writeout_enabled trace_event set_pending pending].
    rewrite E, Hp1, Hp by congruence. by apply freed_writeout.
Qed.

End TraceFile.
(** ** A compressor

    The simplest stream that behaves as zlib documents: a magic byte followed
    by the input, all of it held back until [Z_FINISH]. *)

Record hold_stream := mkHold {
  held : list Z;
  filled : bool;
}.

Definition hold_deflate (z : hold_stream) (inp : list Z) (f : zflush) (n : nat)
  : option (hold_stream * list Z * list Z) :=
  match f with
  | Z_NO_FLUSH => Some (mkHold (held z ++ inp) (n =? 0)%nat, [], [])
  | Z_FINISH =>
      let l := held z ++ inp in
      Some (mkHold (drop n l) (n <=? List.length l)%nat, [], take n l)
  end.

#[global] Instance hold_zlib : Zlib := {
  z_stream := hold_stream;
  deflateInit2 := Some (mkHold [31] false);
  deflate := hold_deflate;
  deflateBound z n := (List.length (held z) + n)%nat;
}.

Definition hold_inflate (l : list Z) : option (list Z) :=
  match l with
  | [] => None
  | b :: l => if b =? 31 then Some l else None
  end.

#[global, refine] Instance hold_spec : ZlibSpec := {
  inflate := hold_inflate;
  z_hist z i o := 31 :: i = o ++ held z;
  z_full z := filled z = true;
}.
Proof.
  - by intros z [= <-].
  - intros z i o inp f n _ _ _. destruct f; by eexists.
  - intros z i o inp f n z' rest out Hh. destruct f; intros [= <- <- <-]; exists inp;
      rewrite app_nil_r; split; try done; simpl.
    + by rewrite app_nil_r, app_assoc, <- Hh.
    + by rewrite <- app_assoc, take_drop, app_assoc, <- Hh.
  - intros z inp f n z' rest out. destruct f; intros [= <- <- <-]; simpl.
    + destruct n; [by right|left; split; [lia|done]].
    + rewrite length_take. destruct (Nat.leb_spec n (List.length (held z ++ inp)));
        [right; split; [lia|done]|left; split; [lia|done]].
  - intros z inp f n z' rest out m. destruct f; intros [= <- <- <-]; simpl;
      rewrite ?length_drop, ?length_take, ?length_app; lia.
  - intros z i o inp n z' rest out Hh [= <- <- <-] Hl. simpl in Hh. rewrite length_take in Hl.
    rewrite take_ge by lia. rewrite app_assoc, <- Hh. done.
Defined.

(** Files on an empty device. *)
Definition demo_fopen (_ : string) : option nat := Some 200%nat.
Definition demo_events : list (Z * string) :=
  [(63, "guest_trace_mem_access_itlb"); (65, "guest_trace_nop")]%string.
Definition demo_record : list Z :=
  event_record 42 65 1000 [ArgU64 0xbe; ArgU64 1; ArgU64 2].

Lemma demo_record_ok : Forall record_ok [demo_record].
Proof. constructor; [|constructor]. split; [done|]. by apply Nat.leb_le; vm_compute. Qed.

Lemma demo_events_ok : Forall event_ok demo_events.
Proof.
  constructor; [|constructor; [|constructor]]; (split; [done|by apply Nat.leb_le; vm_compute]).
Qed.

Lemma plain_file_complete_witness : exists s1 s2,
  st_set_trace_file demo_fopen "trace" demo_events (Some "t.trace"%string) (st_init true tfile_init).2 = Ret s1 /\
  st_set_trace_file_enabled demo_fopen demo_events false (trace_events [demo_record] s1) = Ret (true, s2) /\
  disk s2 !! "t.trace"%string = Some (trace_file_prefix demo_events ++ records_bytes [demo_record]).
Proof.
  apply (plain_file_complete demo_fopen "trace" demo_events (zspec := hold_spec)); [by vm_compute|exact demo_events_ok|exact demo_record_ok|].
  exists 200%nat, false. split_and!; [by vm_compute..|]. by apply Nat.leb_le; vm_compute.
Defined.

Lemma gzip_file_complete_witness : exists s1 s2 fp,
  st_set_trace_file demo_fopen "trace" demo_events (Some "t.gz"%string) (st_init true tfile_init).2 = Ret s1 /\
  st_flush_trace_buffer (trace_events [demo_record] s1) = Ret s2 /\
  trace_fp s2 = Some fp /\
  inflate (f_data fp) = Some (trace_file_prefix demo_events ++ records_bytes [demo_record]).
Proof.
  apply (gzip_file_complete demo_fopen "trace"); [by vm_compute|exact demo_events_ok|exact demo_record_ok|].
  exists 200%nat, true. split_and!; [by vm_compute..|]. exists (mkHold [31] false). split; [done|]. by apply Nat.leb_le; vm_compute.
Defined.

(** The state of a process that traces into [name]. *)
Definition demo_tracing (name : string) : tfile :=
  match st_set_trace_file demo_fopen "trace" demo_events (Some name) (st_init true tfile_init).2 with
  | Ret s => s
  | Abort _ => tfile_init
  end.

Lemma flush_command_frees_buffer_witness :
  let s' := set_ctb (demo_tracing "t.trace") CtbFreed in
  st_flush_trace_buffer s' = Abort "use after free" /\
  flush_trace_file_wait (trace_event demo_record s') = Abort "use after free".
Proof.
  cbn zeta. set (s' := set_ctb _ _).
  destruct (flush_command_frees_buffer demo_fopen "trace" demo_events (demo_tracing "t.trace") s' demo_record)
    as [H1 H2]; [by vm_compute|]. split; [exact H1|]. apply H2. by vm_compute.
Defined.

(** Switching a gzip trace file off closes it without finishing the
    stream: with a compressor that holds back its output the closed file is
    empty, and what it should hold is lost. *)
Theorem gzip_file_truncated :
  exists s2, st_set_trace_file_enabled demo_fopen demo_events false
      (trace_event demo_record (demo_tracing "t.gz")) = Ret (true, s2) /\
    disk s2 !! "t.gz"%string = Some [] /\ inflate [] = None.
Proof. eexists. by split_and!; vm_compute. Qed.

End File.
