(* ===== verification/TraceReader.v ===== *)
(** * Reading the trace back: ChampSim's QEMU trace reader

    champsim/src/tracereader.cc with the formats of champsim/inc/qemutrace.h and
    the instruction constructors of champsim/inc/instruction.h.  The file is the
    list of its remaining bytes.  The reader is related to the writer: the bytes
    are those of [TraceBuffer.Ring.record_message] for the three guest events. *)

From S2P Require Import Prelude TraceBuffer TraceFile.
Open Scope Z_scope.
Open Scope c_scope.

Module Reader.
Import Ring.

Definition EVENT_ID_INSN : Z := 63.
Definition EVENT_ID_DATA : Z := 64.
Definition EVENT_ID_NOP : Z := 65.

Record QEMU_event_header := mkHeader {
  h_type : Z;
  h_event : Z;
  h_timestamp_ns : Z;
  h_length : Z;
  h_pid : Z;
}.

Record QEMU_trace_insn := mkInsn {
  i_icount : Z;
  i_vaddr : Z;
  i_paddr : Z;
  i_seg_states : Z;
  i_cr3 : Z;
  i_br_type : Z;
  i_target_vaddr : Z;
}.

Record QEMU_trace_data := mkData {
  d_icount : Z;
  d_vaddr : Z;
  d_paddr : Z;
  d_load_store : Z;
  d_length : Z;
  d_seg_states : Z;
  d_cr3 : Z;
}.

Record QEMU_trace_nop := mkNop {
  n_byte0 : Z;
  n_byte1 : Z;
  n_byte2 : Z;
}.

(** [n] 64-bit words. *)
Fixpoint words (n : nat) (l : list Z) : list Z :=
  match n with
  | O => []
  | S n => le_val (take 8 l) :: words n (drop 8 l)
  end.

Definition header_of_bytes (l : list Z) : QEMU_event_header :=
  mkHeader (le_val (take 8 l)) (le_val (take 8 (drop 8 l))) (le_val (take 8 (drop 16 l)))
           (le_val (take 4 (drop 24 l))) (le_val (take 4 (drop 28 l))).

Definition insn_of_bytes (l : list Z) : QEMU_trace_insn :=
  let w k := nth k (words 7 l) 0 in
  mkInsn (w 0%nat) (w 1%nat) (w 2%nat) (w 3%nat) (w 4%nat) (w 5%nat) (w 6%nat).

Definition data_of_bytes (l : list Z) : QEMU_trace_data :=
  let w k := nth k (words 7 l) 0 in
  mkData (w 0%nat) (w 1%nat) (w 2%nat) (w 3%nat) (w 4%nat) (w 5%nat) (w 6%nat).

Definition nop_of_bytes (l : list Z) : QEMU_trace_nop :=
  let w k := nth k (words 3 l) 0 in mkNop (w 0%nat) (w 1%nat) (w 2%nat).

Definition sizeof_header : nat := 32.
Definition sizeof_insn : nat := 56.
Definition sizeof_data : nat := 56.
Definition sizeof_nop : nat := 24.

(** [fread(p, n, 1, trace_file)]; [None]: end of file. *)
Definition fread (n : nat) (l : list Z) : option (list Z * list Z) :=
  if (n <=? List.length l)%nat then Some (take n l, drop n l) else None.

(** [fread] that leaves the program at the end of the trace. *)
Definition fread_or_exit (n : nat) (l : list Z) : cres (list Z * list Z) :=
  match fread n l with Some p => Ret p | None => Abort "exit: end of trace" end.

(** [fread] whose result is not looked at: at the end of the file the object
    keeps its indeterminate value. *)
Definition fread_unchecked (n : nat) (l : list Z) : cres (list Z * list Z) :=
  match fread n l with Some p => Ret p | None => Abort "indeterminate value" end.

(** ** Instructions *)

Definition REG_STACK_POINTER : Z := 6.
Definition REG_FLAGS : Z := 25.
Definition REG_INSTRUCTION_POINTER : Z := 26.

Definition NOT_BRANCH : Z := 0.
Definition BRANCH_DIRECT_JUMP : Z := 1.
Definition BRANCH_INDIRECT : Z := 2.
Definition BRANCH_CONDITIONAL : Z := 3.
Definition BRANCH_DIRECT_CALL : Z := 4.
Definition BRANCH_INDIRECT_CALL : Z := 5.
Definition BRANCH_RETURN : Z := 6.
Definition BRANCH_OTHER : Z := 7.

Definition QEMU_OPTYPE_OP : Z := 0.
Definition QEMU_OPTYPE_BRANCH : Z := 1.
Definition QEMU_OPTYPE_JMP_DIRECT : Z := 2.
Definition QEMU_OPTYPE_JMP_INDIRECT : Z := 3.
Definition QEMU_OPTYPE_CALL_DIRECT : Z := 4.
Definition QEMU_OPTYPE_CALL_INDIRECT : Z := 5.
Definition QEMU_OPTYPE_RET : Z := 6.
Definition QEMU_OPTYPE_OTHERS : Z := 7.

Definition NUM_INSTR_DESTINATIONS_SPARC : nat := 4.
Definition NUM_INSTR_SOURCES : nat := 4.

(** The fields the reader sets or leaves at their initial value. *)
Record ooo_model_instr := mkInstr {
  ip : Z;
  is_branch : bool;
  branch_taken : bool;
  branch_type : Z;
  branch_target : Z;
  destination_registers : list Z;
  source_registers : list Z;
  destination_memory : list Z;
  source_memory : list Z;
  asid : Z * Z;
  is_kernel : bool;
}.

Definition asid_of (cr3 : Z) : Z * Z :=
  (Z.land (Z.shiftr cr3 12) 0xff, Z.land (Z.shiftr cr3 20) 0xff).

(** The constructors from an instruction without and with its first access. *)
Definition instr_of_insn (i : QEMU_trace_insn) : ooo_model_instr :=
  mkInstr (i_vaddr i) (0 <? i_br_type i) false (u8 (i_br_type i)) (i_target_vaddr i)
          (replicate NUM_INSTR_DESTINATIONS_SPARC 0) (replicate NUM_INSTR_SOURCES 0)
          (replicate NUM_INSTR_DESTINATIONS_SPARC 0) (replicate NUM_INSTR_SOURCES 0)
          (asid_of (i_cr3 i)) (i_seg_states i <? 3).

Definition instr_of_insn_data (i : QEMU_trace_insn) (d : QEMU_trace_data) : ooo_model_instr :=
  let store := ztrue (d_load_store d) in
  let dm := replicate NUM_INSTR_DESTINATIONS_SPARC 0 in
  let sm := replicate NUM_INSTR_SOURCES 0 in
  mkInstr (i_vaddr i) (0 <? i_br_type i) false (u8 (i_br_type i)) (i_target_vaddr i)
          (replicate NUM_INSTR_DESTINATIONS_SPARC 0) (replicate NUM_INSTR_SOURCES 0)
          (if store then <[0%nat := d_vaddr d]> dm else dm)
          (if store then sm else <[0%nat := d_vaddr d]> sm)
          (asid_of (i_cr3 i)) (i_seg_states i <? 3).

(** ** The reader *)

(** [tracereader::open]: skips the log header and the event mappings and
    checks the begin marker. *)
Definition MAPPINGS_SIZE : nat := Z.to_nat 134081.

Definition tracereader_open (file : list Z) : cres (list Z) :=
  let* p := fread_unchecked 24 file in
  let* p := fread_unchecked MAPPINGS_SIZE p.2 in
  let* h := fread_unchecked sizeof_header p.2 in
  let* n := fread_unchecked sizeof_nop h.2 in
  if (h_event (header_of_bytes h.1) =? EVENT_ID_NOP)
     && (n_byte0 (nop_of_bytes n.1) =? 0xbe) then
    let* h := fread_unchecked sizeof_header n.2 in
    if h_event (header_of_bytes h.1) =? EVENT_ID_INSN then Ret h.2
    else Abort "assert(event_header.event == EVENT_ID_INSN)"
  else Abort "assert: begin marker".

(** The loop that skips to the header of the next instruction.  Every turn
    consumes a header, so the bytes left bound the turns. *)
Fixpoint skip_to_insn (fuel : nat) (l : list Z) : cres (list Z) :=
  match fuel with
  | O => Abort "fuel"
  | S fuel =>
      let* h := fread_or_exit sizeof_header l in
      let ev := h_event (header_of_bytes h.1) in
      if ev =? EVENT_ID_INSN then Ret h.2
      else if ev =? EVENT_ID_DATA then
        let* d := fread_or_exit sizeof_data h.2 in skip_to_insn fuel d.2
      else if ev =? EVENT_ID_NOP then
        let* n := fread_or_exit sizeof_nop h.2 in skip_to_insn fuel n.2
      else Abort "assert(0)"
  end.

Definition read_single_instr_qemutrace (l : list Z) : cres (ooo_model_instr * list Z) :=
  let* i := fread_or_exit sizeof_insn l in
  let insn := insn_of_bytes i.1 in
  let* h := fread_or_exit sizeof_header i.2 in
  let ev := h_event (header_of_bytes h.1) in
  if ev =? EVENT_ID_DATA then
    let* d := fread_or_exit sizeof_data h.2 in
    let* l := skip_to_insn (S (List.length d.2)) d.2 in
    Ret (instr_of_insn_data insn (data_of_bytes d.1), l)
  else if ev =? EVENT_ID_NOP then
    let* n := fread_or_exit sizeof_nop h.2 in
    let* h := fread_or_exit sizeof_header n.2 in
    if h_event (header_of_bytes h.1) =? EVENT_ID_INSN then Ret (instr_of_insn insn, h.2)
    else Abort "assert(header.event == EVENT_ID_INSN)"
  else if ev =? EVENT_ID_INSN then Ret (instr_of_insn insn, h.2)
  else Abort "assert(header.event == EVENT_ID_INSN)".

(** The translation of the branch type in [qemu_tracereader::get]; [next_ip] is
    the address of the instruction that follows.  [dst] and [src] are stored
    into the first places of the register arrays. *)
Definition with_branch (i : ooo_model_instr) (b taken : bool) (ty target : Z) (dst src : list Z)
  : ooo_model_instr :=
  mkInstr (ip i) b taken ty target
          (list_inserts 0 dst (destination_registers i)) (list_inserts 0 src (source_registers i))
          (destination_memory i) (source_memory i) (asid i) (is_kernel i).

Definition translate_branch (i : ooo_model_instr) (next_ip : Z) : ooo_model_instr :=
  let t := branch_type i in
  let IP := REG_INSTRUCTION_POINTER in
  let SP := REG_STACK_POINTER in
  let target := branch_target i in
  if t =? QEMU_OPTYPE_OP then with_branch i false false NOT_BRANCH 0 [] []
  else if t =? QEMU_OPTYPE_BRANCH then
    with_branch i true (target =? next_ip) BRANCH_CONDITIONAL target [IP] [IP; REG_FLAGS]
  else if t =? QEMU_OPTYPE_JMP_DIRECT then
    with_branch i true true BRANCH_DIRECT_JUMP target [IP] []
  else if t =? QEMU_OPTYPE_JMP_INDIRECT then
    with_branch i true true BRANCH_INDIRECT target [IP] [50]
  else if t =? QEMU_OPTYPE_CALL_DIRECT then
    with_branch i true true BRANCH_DIRECT_CALL target [IP; SP] [IP; SP]
  else if t =? QEMU_OPTYPE_CALL_INDIRECT then
    with_branch i true true BRANCH_INDIRECT_CALL target [IP; SP] [IP; SP; 50]
  else if t =? QEMU_OPTYPE_RET then
    with_branch i true true BRANCH_RETURN target [IP; SP] [SP]
  else if t =? QEMU_OPTYPE_OTHERS then
    with_branch i true (target =? next_ip) BRANCH_OTHER target [IP] []
  else with_branch i false false NOT_BRANCH 0 [] [].

(** The reader object: the rest of the file and [last_instr] once initialized. *)
Record qemu_tracereader := mkReader {
  rest : list Z;
  last_instr : option ooo_model_instr;
}.

Definition reader_get (r : qemu_tracereader) : cres (ooo_model_instr * qemu_tracereader) :=
  let* p := read_single_instr_qemutrace (rest r) in
  let '(read, l) := p in
  match last_instr r with
  | Some last => Ret (translate_branch last (ip read), mkReader l (Some read))
  | None =>
      let* q := read_single_instr_qemutrace l in
      let '(read', l) := q in
      Ret (translate_branch read (ip read'), mkReader l (Some read'))
  end.

(** [n] calls of [get]. *)
Fixpoint reader_gets (n : nat) (r : qemu_tracereader) : cres (list ooo_model_instr * qemu_tracereader) :=
  match n with
  | O => Ret ([], r)
  | S n =>
      let* p := reader_get r in
      let* q := reader_gets n p.2 in
      Ret (p.1 :: q.1, q.2)
  end.

(** [get_tracereader] and the constructor: the format is chosen by the letter
    after the last dot. *)
Definition reader_new (file : list Z) : cres qemu_tracereader :=
  let* l := tracereader_open file in Ret (mkReader l None).

(** ** The writer's side *)

(** The three guest events as the instrumentation traces them. *)
Inductive guest_event :=
| EvInsn (i : QEMU_trace_insn)
| EvData (d : QEMU_trace_data)
| EvNop (n : QEMU_trace_nop).

Definition event_id (e : guest_event) : Z :=
  match e with
  | EvInsn _ => EVENT_ID_INSN
  | EvData _ => EVENT_ID_DATA
  | EvNop _ => EVENT_ID_NOP
  end.

Definition event_args (e : guest_event) : list Z :=
  match e with
  | EvInsn i => [i_icount i; i_vaddr i; i_paddr i; i_seg_states i; i_cr3 i; i_br_type i; i_target_vaddr i]
  | EvData d => [d_icount d; d_vaddr d; d_paddr d; d_load_store d; d_length d; d_seg_states d; d_cr3 d]
  | EvNop n => [n_byte0 n; n_byte1 n; n_byte2 n]
  end.

(** The message of an event, traced at time [ts] by process [pid]. *)
Definition event_message (pid : Z) (te : Z * guest_event) : list Z :=
  record_message (event_record pid (event_id te.2) te.1 (map ArgU64 (event_args te.2))).

Definition events_bytes (pid : Z) (l : list (Z * guest_event)) : list Z :=
  concat (map (event_message pid) l).

Definition event_ok (te : Z * guest_event) : Prop := Forall (fun v => 0 <= v < 2 ^ 64) (event_args te.2).

Definition is_insn (e : guest_event) : bool := match e with EvInsn _ => true | _ => false end.

(** What one instruction contributes to the trace: the instruction and the
    events up to the next one. *)
Record group := mkGroup {
  g_ts : Z;
  g_insn : QEMU_trace_insn;
  g_aux : list (Z * guest_event);
}.

(** The shapes the reader handles: nothing, a single marker, or a data access
    followed by any accesses and markers. *)
Definition group_ok (g : group) : Prop :=
  event_ok (g_ts g, EvInsn (g_insn g)) /\
  Forall (fun te => event_ok te /\ is_insn te.2 = false) (g_aux g) /\
  match g_aux g with
  | [] => True
  | (_, EvNop _) :: aux => aux = []
  | _ => True
  end.

Definition group_events (g : group) : list (Z * guest_event) := (g_ts g, EvInsn (g_insn g)) :: g_aux g.

(** The instruction a group stands for: with its first data access, if any. *)
Definition group_instr (g : group) : ooo_model_instr :=
  match g_aux g with
  | (_, EvData d) :: _ => instr_of_insn_data (g_insn g) d
  | _ => instr_of_insn (g_insn g)
  end.

(** *** What the simulator should see

    The kinds of branches: 1 conditional, 2 and 3 jumps, 4 and 5 calls (3 and 5
    through a register), 6 returns, 7 others; anything else is no branch. *)
Definition is_branch_kind (k : Z) : bool := (1 <=? k) && (k <=? 7).
Definition may_fall_through (k : Z) : bool := (k =? 1) || (k =? 7).
Definition is_call (k : Z) : bool := (k =? 4) || (k =? 5).
Definition uses_stack (k : Z) : bool := is_call k || (k =? 6).
Definition through_register (k : Z) : bool := (k =? 3) || (k =? 5).
Definition branch_class (k : Z) : Z := nth (Z.to_nat k) [0; 3; 1; 2; 4; 5; 6; 7] 0.

Definition pad4 (l : list Z) : list Z := l ++ replicate (4 - List.length l) 0.
Definition reads (k : Z) : list Z :=
  (if (k =? 1) || is_call k then [26] else []) ++ (if k =? 1 then [25] else []) ++
  (if uses_stack k then [6] else []) ++ (if through_register k then [50] else []).
Definition writes (k : Z) : list Z :=
  if is_branch_kind k then 26 :: (if uses_stack k then [6] else []) else [].

(** The instruction with its first access [d], followed by the one at [next]:
    a branch is taken when it cannot fall through or the next instruction is
    its target. *)
Definition decoded (i : QEMU_trace_insn) (d : option QEMU_trace_data) (next : Z) : ooo_model_instr :=
  let k := i_br_type i mod 256 in
  let br := is_branch_kind k in
  let mem (store : bool) :=
    match d with
    | Some d => if Bool.eqb store (negb (d_load_store d =? 0)) then pad4 [d_vaddr d] else pad4 []
    | None => pad4 []
    end in
  mkInstr (i_vaddr i) br (br && (negb (may_fall_through k) || (i_target_vaddr i =? next)))
    (if br then branch_class k else 0) (if br then i_target_vaddr i else 0)
    (pad4 (writes k)) (pad4 (if br then reads k else [])) (mem true) (mem false)
    (i_cr3 i / 2 ^ 12 mod 256, i_cr3 i / 2 ^ 20 mod 256) (i_seg_states i <? 3).

Definition first_data (l : list guest_event) : option QEMU_trace_data :=
  match l with EvData d :: _ => Some d | _ => None end.
Definition group_data (g : group) : option QEMU_trace_data := first_data (map snd (g_aux g)).

(** The instructions of a trace, each decided by its successor. *)
Fixpoint expected (gs : list group) : list ooo_model_instr :=
  match gs with
  | g :: (h :: _) as gs' => decoded (g_insn g) (group_data g) (i_vaddr (g_insn h)) :: expected gs'
  | _ => []
  end.

Lemma kind_cases k : is_branch_kind k = false \/ k ∈ [1; 2; 3; 4; 5; 6; 7].
Proof.
  unfold is_branch_kind. destruct (Z.leb_spec 1 k); [|by left]. destruct (Z.leb_spec k 7); [|by left]. right.
  rewrite !elem_of_cons. lia.
Qed.

Lemma kind_other k c : is_branch_kind k = false -> is_branch_kind c = true -> (k =? c) = false.
Proof. intros Hk Hc. apply Z.eqb_neq. congruence. Qed.

(** The reader's case analysis is the specification. *)
Lemma translate_branch_decodes g next : translate_branch (group_instr g) next = decoded (g_insn g) (group_data g) next.
Proof.
  assert (forall c, asid_of c = (c / 2 ^ 12 mod 256, c / 2 ^ 20 mod 256)) as Hasid.
  { intros c. unfold asid_of. change 0xff with (Z.ones 8). rewrite !Z.land_ones, !Z.shiftr_div_pow2 by lia. done. }
  unfold group_instr, group_data, first_data, decoded, translate_branch, with_branch, instr_of_insn, instr_of_insn_data, ztrue, u8.
  rewrite <- Hasid. change (2 ^ 8) with 256.
  destruct (g_aux g) as [|[ts [i|d|m]] aux]; cbn [map snd]; [| |destruct (d_load_store d =? 0)|];
    cbn [branch_type branch_target ip negb Bool.eqb]; generalize (i_br_type (g_insn g) mod 256); intros k;
    (destruct (kind_cases k) as [Hk|Hk];
     [unfold writes; destruct (k =? QEMU_OPTYPE_OP); rewrite Hk, ?(kind_other k) by done; reflexivity
     |repeat (apply elem_of_cons in Hk as [->|Hk]; [reflexivity|]); by apply not_elem_of_nil in Hk]).
Qed.

(** ** Decoding one event *)

Definition header_bytes (pid : Z) (te : Z * guest_event) : list Z :=
  le_bytes 8 TRACE_RECORD_TYPE_EVENT ++
  TraceRecord_bytes (mkTraceRecord (event_id te.2) te.1
    (Z.of_nat sizeof_TraceRecord + targs_size (map ArgU64 (event_args te.2))) pid).

Definition payload (e : guest_event) : list Z := concat (map (le_bytes 8) (event_args e)).

Lemma event_message_split pid te : event_message pid te = header_bytes pid te ++ payload te.2.
Proof.
  unfold event_message, record_message, event_record, header_bytes, payload.
  rewrite <- app_assoc. do 2 f_equal. by rewrite map_map.
Qed.

Lemma length_header pid te : List.length (header_bytes pid te) = sizeof_header.
Proof. reflexivity. Qed.

Lemma header_event pid te : h_event (header_of_bytes (header_bytes pid te)) = event_id te.2.
Proof.
  change (le_val (le_bytes 8 (event_id te.2)) = event_id te.2).
  by destruct (te.2).
Qed.

Lemma fread_app n a b : List.length a = n -> fread n (a ++ b) = Some (a, b).
Proof.
  intros <-. unfold fread. rewrite length_app, (proj2 (Nat.leb_le _ _)) by lia.
  by rewrite take_app_length, drop_app_length.
Qed.

Lemma fread_or_exit_app n a b : List.length a = n -> fread_or_exit n (a ++ b) = Ret (a, b).
Proof. intros H. unfold fread_or_exit. by rewrite fread_app. Qed.

Lemma le_word v : 0 <= v < 2 ^ 64 -> le_val (le_bytes 8 v) = v.
Proof. intros H. by apply le_val_bytes_small. Qed.

Lemma words_payload vs :
  Forall (fun v => 0 <= v < 2 ^ 64) vs -> words (List.length vs) (concat (map (le_bytes 8) vs)) = vs.
Proof.
  induction 1 as [|v vs Hv _ IH]; [done|]. cbn [List.length words map concat].
  rewrite take_app_length', drop_app_length' by (by rewrite length_le_bytes).
  by rewrite le_word, IH.
Qed.

Lemma insn_payload i : Forall (fun v => 0 <= v < 2 ^ 64) (event_args (EvInsn i)) ->
  insn_of_bytes (payload (EvInsn i)) = i.
Proof.
  intros H. unfold insn_of_bytes, payload. cbn beta zeta.
  rewrite (words_payload _ H : words 7 (concat (map (le_bytes 8) (event_args (EvInsn i)))) = _). by destruct i.
Qed.

Lemma data_payload d : Forall (fun v => 0 <= v < 2 ^ 64) (event_args (EvData d)) ->
  data_of_bytes (payload (EvData d)) = d.
Proof.
  intros H. unfold data_of_bytes, payload. cbn beta zeta.
  rewrite (words_payload _ H : words 7 (concat (map (le_bytes 8) (event_args (EvData d)))) = _). by destruct d.
Qed.

Lemma nop_payload n : Forall (fun v => 0 <= v < 2 ^ 64) (event_args (EvNop n)) ->
  nop_of_bytes (payload (EvNop n)) = n.
Proof.
  intros H. unfold nop_of_bytes, payload. cbn beta zeta.
  rewrite (words_payload _ H : words 3 (concat (map (le_bytes 8) (event_args (EvNop n)))) = _). by destruct n.
Qed.

Lemma length_payload e : List.length (payload e) =
  match e with EvInsn _ => sizeof_insn | EvData _ => sizeof_data | EvNop _ => sizeof_nop end.
Proof. by destruct e. Qed.

#[local] Opaque header_bytes payload header_of_bytes sizeof_header sizeof_insn sizeof_data sizeof_nop.

(** Decides the comparisons of event identifiers. *)
Ltac eval_ids :=
  cbv [event_id snd EVENT_ID_INSN EVENT_ID_DATA EVENT_ID_NOP Z.eqb Pos.eqb].

(** ** Reading one group *)

Lemma skip_ok pid aux : forall fuel h tail,
  Forall (fun te => event_ok te /\ is_insn te.2 = false) aux -> is_insn h.2 = true ->
  (List.length aux < fuel)%nat ->
  skip_to_insn fuel (events_bytes pid aux ++ header_bytes pid h ++ tail) = Ret tail.
Proof.
  induction aux as [|te aux IH]; intros fuel h tail Ha Hh Hf; destruct fuel as [|fuel]; try (simpl in Hf; lia).
  - cbn [skip_to_insn]. change (events_bytes pid []) with (@nil Z). rewrite app_nil_l.
    rewrite fread_or_exit_app by (by rewrite length_header). cbn [cbind fst snd].
    rewrite header_event. by destruct (h.2).
  - inversion Ha as [|? ? [Hok Hn] Ha']; subst. cbn [skip_to_insn].
    change (events_bytes pid (te :: aux)) with (event_message pid te ++ events_bytes pid aux).
    rewrite event_message_split, <- !app_assoc.
    rewrite fread_or_exit_app by (by rewrite length_header). cbn [cbind fst snd].
    rewrite header_event. destruct (te.2) as [i|d|n] eqn:E; [done| |]; eval_ids;
      rewrite fread_or_exit_app by (by rewrite length_payload); cbn [cbind snd];
      apply IH; try done; simpl in Hf; lia.
Qed.

Lemma length_events_bytes pid aux : (List.length aux <= List.length (events_bytes pid aux))%nat.
Proof.
  induction aux as [|te aux IH]; [simpl; lia|].
  change (events_bytes pid (te :: aux)) with (event_message pid te ++ events_bytes pid aux).
  rewrite event_message_split, !length_app, length_header. change sizeof_header with 32%nat.
  cbn [List.length]. lia.
Qed.

Lemma read_group pid g h tail :
  group_ok g -> is_insn h.2 = true ->
  read_single_instr_qemutrace
    (payload (EvInsn (g_insn g)) ++ events_bytes pid (g_aux g) ++ header_bytes pid h ++ tail) =
  Ret (group_instr g, tail).
Proof.
  intros (Hi & Ha & Hshape) Hh. unfold read_single_instr_qemutrace, group_instr.
  rewrite fread_or_exit_app by (by rewrite length_payload). cbn [cbind fst snd].
  rewrite (insn_payload _ Hi). destruct (g_aux g) as [|[ts [i|d|n]] aux].
  - change (events_bytes pid []) with (@nil Z). rewrite app_nil_l.
    rewrite fread_or_exit_app by (by rewrite length_header). cbn [cbind fst snd].
    rewrite header_event. by destruct (h.2).
  - by inversion Ha as [|? ? [_ ?] ?].
  - inversion Ha as [|? ? [Hd _] Ha']; subst.
    change (events_bytes pid ((ts, EvData d) :: aux)) with (event_message pid (ts, EvData d) ++ events_bytes pid aux).
    rewrite event_message_split, <- !app_assoc.
    rewrite fread_or_exit_app by (by rewrite length_header). cbn [cbind fst snd].
    rewrite header_event. eval_ids.
    rewrite fread_or_exit_app by (by rewrite length_payload). cbn [cbind fst snd].
    rewrite (data_payload _ Hd). rewrite skip_ok; try done.
    pose proof (length_events_bytes pid aux). rewrite length_app. lia.
  - subst aux. inversion Ha as [|? ? [Hn _] _]; subst.
    change (events_bytes pid [(ts, EvNop n)]) with (event_message pid (ts, EvNop n) ++ []). rewrite app_nil_r.
    rewrite event_message_split, <- !app_assoc.
    rewrite fread_or_exit_app by (by rewrite length_header). cbn [cbind fst snd].
    rewrite header_event. eval_ids.
    rewrite fread_or_exit_app by (by rewrite length_payload). cbn [cbind fst snd].
    rewrite fread_or_exit_app by (by rewrite length_header). cbn [cbind fst snd].
    rewrite header_event. by destruct (h.2).
Qed.

(** ** Reading a trace *)

(** The file after the header of the instruction of [g]. *)
Definition at_group (pid : Z) (g : group) (gs : list group) : list Z :=
  payload (EvInsn (g_insn g)) ++ events_bytes pid (g_aux g) ++
  events_bytes pid (concat (map group_events gs)).

Lemma events_bytes_app pid l1 l2 :
  events_bytes pid (l1 ++ l2) = events_bytes pid l1 ++ events_bytes pid l2.
Proof. unfold events_bytes. by rewrite map_app, concat_app. Qed.

(** The bytes of a group and what follows. *)
Lemma groups_bytes pid g gs :
  events_bytes pid (concat (map group_events (g :: gs))) =
  header_bytes pid (g_ts g, EvInsn (g_insn g)) ++ at_group pid g gs.
Proof.
  cbn [map concat]. unfold group_events at 1. rewrite events_bytes_app. unfold at_group.
  change (events_bytes pid (?x :: ?l)) with (event_message pid x ++ events_bytes pid l).
  by rewrite event_message_split, <- !app_assoc.
Qed.

Lemma read_at_group pid g h gs :
  group_ok g ->
  read_single_instr_qemutrace (at_group pid g (h :: gs)) = Ret (group_instr g, at_group pid h gs).
Proof. intros Hg. unfold at_group at 1. rewrite groups_bytes. by apply read_group. Qed.

Lemma ip_group_instr g : ip (group_instr g) = i_vaddr (g_insn g).
Proof. unfold group_instr. by destruct (g_aux g) as [|[? []] ?]. Qed.

Lemma gets_running pid k : forall g h gs,
  Forall group_ok (g :: h :: gs) -> (k <= List.length gs)%nat ->
  exists r, reader_gets k (mkReader (at_group pid h gs) (Some (group_instr g))) =
    Ret (take k (expected (g :: h :: gs)), r).
Proof.
  induction k as [|k IH]; intros g h gs Hok Hk; [by eexists|].
  destruct gs as [|h' gs]; [simpl in Hk; lia|]. cbn [reader_gets].
  inversion Hok as [|? ? Hg Hok']; subst. inversion Hok' as [|? ? Hh _]; subst.
  unfold reader_get at 1. cbn [rest last_instr]. rewrite read_at_group by done. cbn [cbind fst snd].
  destruct (IH h h' gs Hok') as [r ->]; [simpl in Hk; lia|]. cbn [cbind fst snd].
  exists r. by rewrite ip_group_instr, translate_branch_decodes.
Qed.

Lemma gets_from_start pid k g h gs :
  Forall group_ok (g :: h :: gs) -> (k <= List.length gs)%nat ->
  exists r, reader_gets k (mkReader (at_group pid g (h :: gs)) None) =
    Ret (take k (expected (g :: h :: gs)), r).
Proof.
  intros Hok Hk. destruct k as [|k]; [by eexists|].
  destruct gs as [|h' gs]; [simpl in Hk; lia|].
  inversion Hok as [|? ? Hg Hok']; subst. inversion Hok' as [|? ? Hh _]; subst.
  cbn [reader_gets]. unfold reader_get at 1. cbn [rest last_instr].
  rewrite read_at_group by done. cbn [cbind fst snd]. rewrite read_at_group by done. cbn [cbind fst snd].
  destruct (gets_running pid k h h' gs Hok') as [r ->]; [simpl in Hk; lia|].
  cbn [cbind fst snd]. exists r. by rewrite ip_group_instr, translate_branch_decodes.
Qed.

(** The bytes of a trace file whose first event is a marker. *)
Definition trace_bytes (pid : Z) (evs : list (Z * string)) (marker : Z * QEMU_trace_nop)
  (gs : list group) : list Z :=
  File.trace_file_prefix evs ++
  File.records_bytes (map (fun te => event_record pid (event_id te.2) te.1 (map ArgU64 (event_args te.2)))
    ((marker.1, EvNop marker.2) :: concat (map group_events gs))).

Lemma records_events_bytes pid l :
  File.records_bytes (map (fun te => event_record pid (event_id te.2) te.1 (map ArgU64 (event_args te.2))) l)
  = events_bytes pid l.
Proof.
  unfold File.records_bytes, events_bytes. rewrite map_map. f_equal. apply map_ext.
  intros te. unfold File.record_parts, event_message, record_message. cbn [concat].
  by rewrite app_nil_r.
Qed.

#[local] Opaque MAPPINGS_SIZE.

Lemma fread_unchecked_app n a b : List.length a = n -> fread_unchecked n (a ++ b) = Ret (a, b).
Proof. intros H. unfold fread_unchecked. by rewrite fread_app. Qed.

Lemma prefix_split evs :
  List.length (File.trace_file_prefix evs) = (24 + MAPPINGS_SIZE)%nat ->
  exists hdr maps, File.trace_file_prefix evs = hdr ++ maps /\ List.length hdr = 24%nat /\
    List.length maps = MAPPINGS_SIZE.
Proof.
  unfold File.trace_file_prefix. rewrite length_app.
  change (List.length File.TraceLogHeader_bytes) with 24%nat. intros H.
  eexists _, _. split; [done|]. split; [done|lia].
Qed.

Lemma open_ok pid evs marker g gs :
  List.length (File.trace_file_prefix evs) = (24 + MAPPINGS_SIZE)%nat ->
  event_ok (marker.1, EvNop marker.2) -> n_byte0 marker.2 = 0xbe ->
  reader_new (trace_bytes pid evs marker (g :: gs)) = Ret (mkReader (at_group pid g gs) None).
Proof.
  intros (hdr & maps & Hp & Hh & Hm)%prefix_split Hn Hb. unfold trace_bytes, reader_new, tracereader_open.
  rewrite Hp, records_events_bytes.
  change (events_bytes pid (?x :: ?l)) with (event_message pid x ++ events_bytes pid l).
  rewrite event_message_split, groups_bytes, <- !app_assoc.
  rewrite fread_unchecked_app by done. cbn [cbind fst snd].
  rewrite fread_unchecked_app by done. cbn [cbind fst snd].
  rewrite fread_unchecked_app by (by rewrite length_header). cbn [cbind fst snd].
  rewrite fread_unchecked_app by (by rewrite length_payload). cbn [cbind fst snd].
  rewrite header_event, (nop_payload _ Hn), Hb. eval_ids. cbn [andb].
  rewrite fread_unchecked_app by (by rewrite length_header). cbn [cbind fst snd].
  rewrite header_event. by eval_ids.
Qed.

(** C12: the simulator decodes what the tracer wrote: reading the bytes of a
    complete trace file yields the traced instructions in order, each with its
    first data access (the others are dropped), its address space and its branch outcome decided by
    the next instruction, for all but the last two instructions.  The file has the
    134081 bytes of event mappings that the reader skips and begins with an on marker; an instruction
    is followed by nothing, by one marker, or by a data access and then any accesses and markers:
    two markers after an instruction without access fail the reader ([marker_pair_asserts]). *)
Theorem trace_roundtrip pid evs marker gs k :
  List.length (File.trace_file_prefix evs) = (24 + MAPPINGS_SIZE)%nat ->
  event_ok (marker.1, EvNop marker.2) -> n_byte0 marker.2 = 0xbe ->
  Forall group_ok gs -> (k + 2 <= List.length gs)%nat ->
  exists r r', reader_new (trace_bytes pid evs marker gs) = Ret r /\
    reader_gets k r = Ret (take k (expected gs), r').
Proof.
  intros Hp Hn Hb Hg Hk. destruct gs as [|g [|h gs]]; [simpl in Hk; lia..|].
  destruct (gets_from_start pid k g h gs Hg) as [r Hr]; [simpl in Hk; lia|].
  eexists _, r. split; [by apply open_ok|done].
Qed.

(** A marker that follows an instruction without data access must be
    followed by an instruction: two markers in a row, the end of one region
    and the begin of the next, fail the reader's assertion. *)
Theorem marker_pair_asserts pid g ts n te aux tail :
  event_ok (g_ts g, EvInsn (g_insn g)) -> event_ok (ts, EvNop n) ->
  g_aux g = (ts, EvNop n) :: te :: aux -> is_insn te.2 = false ->
  read_single_instr_qemutrace
    (payload (EvInsn (g_insn g)) ++ events_bytes pid (g_aux g) ++ tail) =
  Abort "assert(header.event == EVENT_ID_INSN)".
Proof.
  intros Hi Hn -> Hte. unfold read_single_instr_qemutrace.
  rewrite fread_or_exit_app by (by rewrite length_payload). cbn [cbind fst snd].
  change (events_bytes pid (?x :: ?y :: ?l)) with
    (event_message pid x ++ event_message pid y ++ events_bytes pid l).
  rewrite !event_message_split, <- !app_assoc.
  rewrite fread_or_exit_app by (by rewrite length_header). cbn [cbind fst snd].
  rewrite header_event. eval_ids.
  rewrite fread_or_exit_app by (by rewrite length_payload). cbn [cbind fst snd].
  rewrite fread_or_exit_app by (by rewrite length_header). cbn [cbind fst snd].
  rewrite header_event. by destruct (te.2).
Qed.

(** A trace of three instructions: a load, a marker, a taken branch. *)
Definition demo_name : string := Nat.iter (Z.to_nat 134061) (String (Ascii.ascii_of_nat 120)) EmptyString.
Definition demo_groups : list group :=
  [mkGroup 10 (mkInsn 1 0x1000 0x91000 3 0x7f000 0 0)
     [(11, EvData (mkData 1 0x2000 0x92000 0 4 3 0x7f000)); (12, EvNop (mkNop 0xbe 1 2));
      (13, EvData (mkData 1 0x2008 0x92008 1 4 3 0x7f000))];
   mkGroup 14 (mkInsn 2 0x1004 0x91004 0 0x7f000 1 0x1000) [(15, EvNop (mkNop 0xed 0 0))];
   mkGroup 16 (mkInsn 3 0x1000 0x91000 0 0x7f000 0 0) []].

Lemma demo_groups_ok : Forall group_ok demo_groups.
Proof. repeat constructor; simpl; lia. Qed.

Lemma trace_roundtrip_witness :
  exists r r', reader_new (trace_bytes 42 [(0, demo_name)] (5, mkNop 0xbe 0 0) demo_groups) = Ret r /\
    reader_gets 1 r = Ret (take 1 (expected demo_groups), r').
Proof.
  apply trace_roundtrip; [by apply Nat.eqb_eq; vm_compute|repeat constructor; simpl; lia|done|exact demo_groups_ok|].
  simpl. lia.
Defined.

Lemma marker_pair_asserts_witness :
  read_single_instr_qemutrace
    (payload (EvInsn (mkInsn 1 0x1000 0x91000 3 0x7f000 0 0)) ++
     events_bytes 42 [(11, EvNop (mkNop 0xed 0 0)); (12, EvNop (mkNop 0xbe 0 0))] ++ []) =
  Abort "assert(header.event == EVENT_ID_INSN)".
Proof.
  apply (marker_pair_asserts 42
    (mkGroup 10 (mkInsn 1 0x1000 0x91000 3 0x7f000 0 0)
       [(11, EvNop (mkNop 0xed 0 0)); (12, EvNop (mkNop 0xbe 0 0))])
    11 (mkNop 0xed 0 0) (12, EvNop (mkNop 0xbe 0 0)) []); [..|done|done];
    repeat constructor; simpl; lia.
Defined.

End Reader.
