(* ===== verification/TraceControl.v ===== *)
(** * Trace event control

    qemu/trace/control.c, control-target.c, control-vcpu.h, control-internal.h
    and the QMP commands of trace/qmp.c: registration of event groups, the event
    iterator, the dynamic state of events globally and per vCPU, and the ways
    users switch events on and off.

    glib's [g_pattern_match_simple] is a parameter.  Events are addressed by
    group and position, as the iterator does. *)

From S2P Require Import Prelude TraceFile.
Open Scope Z_scope.
Open Scope c_scope.

Module Control.

Definition TRACE_VCPU_EVENT_NONE : Z := 2 ^ 32 - 1.
Definition CPU_TRACE_DSTATE_MAX_EVENTS : Z := 32.

Record TraceEvent := mkEv {
  ev_id : Z;
  vcpu_id : Z;
  ev_name : string;
  sstate : bool;
  dstate : Z;          (* 16 bits *)
}.

(** Bitmaps of at most 32 events are one word. *)
Record CPUState := mkCpu {
  cpu_index : Z;
  created : bool;
  trace_dstate : Z;
  trace_dstate_delayed : Z;
  queued_work : nat;   (* synchronisations queued on the vCPU *)
}.

Record control := mkControl {
  event_groups : list (list TraceEvent);
  next_id : Z;
  next_vcpu_id : Z;
  trace_events_enabled_count : Z;
  cpus : list CPUState;
}.

Definition control_init : control := mkControl [] 0 0 0 [].

Definition set_groups (c : control) (gs : list (list TraceEvent)) : control :=
  mkControl gs (next_id c) (next_vcpu_id c) (trace_events_enabled_count c) (cpus c).
Definition set_count (c : control) (n : Z) : control :=
  mkControl (event_groups c) (next_id c) (next_vcpu_id c) n (cpus c).
Definition set_cpus (c : control) (l : list CPUState) : control :=
  mkControl (event_groups c) (next_id c) (next_vcpu_id c) (trace_events_enabled_count c) l.

(** ** Registration *)

(** The loop over the new group: its events with their identifiers, the next
    identifiers and the names of the events dropped with a warning. *)
Fixpoint register_events (evs : list TraceEvent) (id vid : Z)
  : list TraceEvent * Z * Z * list string :=
  match evs with
  | [] => ([], id, vid, [])
  | e :: evs =>
      let id' := u32 (id + 1) in
      if vcpu_id e =? TRACE_VCPU_EVENT_NONE then
        let '(l, i, v, w) := register_events evs id' vid in
        (mkEv id (vcpu_id e) (ev_name e) (sstate e) (dstate e) :: l, i, v, w)
      else if vid <? CPU_TRACE_DSTATE_MAX_EVENTS then
        let '(l, i, v, w) := register_events evs id' (u32 (vid + 1)) in
        (mkEv id vid (ev_name e) (sstate e) (dstate e) :: l, i, v, w)
      else
        let '(l, i, v, w) := register_events evs id' vid in
        (mkEv id (vcpu_id e) (ev_name e) (sstate e) (dstate e) :: l, i, v, ev_name e :: w)
  end.

Definition trace_event_register_group (evs : list TraceEvent) (c : control) : control * list string :=
  let '(l, i, v, w) := register_events evs (next_id c) (next_vcpu_id c) in
  (mkControl (event_groups c ++ [l]) i v (trace_events_enabled_count c) (cpus c), w).

Definition trace_get_vcpu_event_count (c : control) : Z := next_vcpu_id c.

(** ** Events by position *)

Abbreviation key := (nat * nat)%type.

Definition ev_at (c : control) (k : key) : option TraceEvent := event_groups c !! k.1 ≫= (.!! k.2).

Definition set_dstate (c : control) (k : key) (d : Z) : control :=
  set_groups c
    (alter (alter (fun e => mkEv (ev_id e) (vcpu_id e) (ev_name e) (sstate e) d) k.2) k.1 (event_groups c)).

Definition trace_event_is_vcpu (e : TraceEvent) : bool := negb (vcpu_id e =? TRACE_VCPU_EVENT_NONE).

Definition trace_event_get_state_dynamic (c : control) (e : TraceEvent) : bool :=
  ztrue (trace_events_enabled_count c) && ztrue (dstate e).

Definition trace_event_get_vcpu_state_dynamic_by_vcpu_id (c : control) (cpu : CPUState) (v : Z) : bool :=
  if ztrue (trace_events_enabled_count c) then Z.testbit (trace_dstate cpu) v else false.

Definition trace_event_get_vcpu_state_dynamic (c : control) (cpu : CPUState) (e : TraceEvent) : cres bool :=
  let* _ := cassert (trace_event_is_vcpu e) "assert(trace_event_is_vcpu(ev))" in
  Ret (trace_event_get_vcpu_state_dynamic_by_vcpu_id c cpu (vcpu_id e)).

Definition trace_event_is_pattern (s : string) : bool :=
  bool_decide (42 ∈ File.str_bytes s).

(** ** The iterator *)

Record TraceEventIter := mkIter {
  it_event : nat;
  it_group : nat;
  it_pattern : option string;
}.

Definition trace_event_iter_init (pattern : option string) : TraceEventIter := mkIter 0 0 pattern.

Section Control.
(** [g_pattern_match_simple(pattern, string)] of glib. *)
Variable g_pattern_match_simple : string -> string -> bool.

Definition ev_matches (pattern : option string) (e : TraceEvent) : bool :=
  match pattern with None => true | Some p => g_pattern_match_simple p (ev_name e) end.

(** The position after the one the iterator is at. *)
Definition iter_advance (c : control) (it : TraceEventIter) : TraceEventIter :=
  match ev_at c (it_group it, S (it_event it)) with
  | Some _ => mkIter (S (it_event it)) (it_group it) (it_pattern it)
  | None => mkIter 0 (S (it_group it)) (it_pattern it)
  end.

(** Every turn of the loop passes one event, so their number bounds it. *)
Fixpoint iter_next_loop (fuel : nat) (c : control) (it : TraceEventIter) : option key * TraceEventIter :=
  match fuel with
  | O => (None, it)
  | S fuel =>
      match ev_at c (it_group it, it_event it) with
      | None => (None, it)
      | Some ev =>
          let it' := iter_advance c it in
          if ev_matches (it_pattern it) ev then (Some (it_group it, it_event it), it')
          else iter_next_loop fuel c it'
      end
  end.

Definition n_events (c : control) : nat := List.length (concat (event_groups c)).

Definition trace_event_iter_next (c : control) (it : TraceEventIter) : option key * TraceEventIter :=
  iter_next_loop (S (n_events c)) c it.

(** [while ((ev = trace_event_iter_next(&iter)) != NULL) body]; the body says
    whether it returns from the function. *)
Fixpoint iter_while {A} (fuel : nat) (body : key -> TraceEvent -> A * control -> cres (bool * (A * control)))
  (it : TraceEventIter) (s : A * control) : cres (bool * (A * control)) :=
  match fuel with
  | O => Abort "fuel"
  | S fuel =>
      match trace_event_iter_next s.2 it with
      | (None, _) => Ret (false, s)
      | (Some k, it) =>
          match ev_at s.2 k with
          | None => Abort "null event"
          | Some ev =>
              let* r := body k ev s in
              if r.1 then Ret (true, r.2) else iter_while fuel body it r.2
          end
      end
  end.

Definition for_events {A} (pattern : option string)
  (body : key -> TraceEvent -> A * control -> cres (bool * (A * control))) (s : A * control)
  : cres (bool * (A * control)) :=
  iter_while (S (n_events s.2)) body (trace_event_iter_init pattern) s.

(** [trace_event_name]. *)
Definition trace_event_name (name : string) (c : control) : cres (option key) :=
  let* r := for_events None
    (fun k ev s => if String.eqb (ev_name ev) name then Ret (true, (Some k, s.2)) else Ret (false, s))
    (None, c) in
  Ret r.2.1.

(** The names [trace_list_events] prints. *)
Definition trace_list_events (c : control) : cres (list string) :=
  let* r := for_events None (fun k ev s => Ret (false, (s.1 ++ [ev_name ev], s.2))) ([], c) in
  Ret r.2.1.

(** ** Dynamic state *)

Definition update_dstate (c : control) (k : key) (delta d : Z) : control :=
  set_dstate (set_count c (trace_events_enabled_count c + delta)) k d.

(** The global switch: [dstate] of the event becomes 0 or 1. *)
Definition set_state_global (k : key) (state : bool) (c : control) : cres control :=
  match ev_at c k with
  | None => Abort "null event"
  | Some ev =>
      let* _ := cassert (sstate ev) "assert(trace_event_get_state_static(ev))" in
      let state_pre := ztrue (dstate ev) in
      if Bool.eqb state_pre state then Ret c
      else if state then Ret (update_dstate c k 1 1) else Ret (update_dstate c k (-1) 0)
  end.

Definition trace_event_set_state_dynamic_init (k : key) (state : bool) (c : control) : cres control :=
  set_state_global k state c.

Definition trace_event_synchronize_vcpu_state_dynamic (v : CPUState) : CPUState :=
  mkCpu (cpu_index v) (created v) (trace_dstate_delayed v) (trace_dstate_delayed v) (queued_work v).

(** [async_run_on_cpu] queues the synchronisation of a running vCPU; it is
    performed when the vCPU leaves its translation block. *)
Definition queue_sync (v : CPUState) : CPUState :=
  mkCpu (cpu_index v) (created v) (trace_dstate v) (trace_dstate_delayed v) (S (queued_work v)).

Definition set_delayed (v : CPUState) (d : Z) : CPUState :=
  mkCpu (cpu_index v) (created v) (trace_dstate v) d (queued_work v).

Definition run_queued_work (v : CPUState) : CPUState :=
  match queued_work v with
  | O => v
  | _ => let v := trace_event_synchronize_vcpu_state_dynamic v in
         mkCpu (cpu_index v) (created v) (trace_dstate v) (trace_dstate_delayed v) 0
  end.

(** [trace_event_set_vcpu_state_dynamic] for the vCPU at position [i]. *)
Definition trace_event_set_vcpu_state_dynamic (i : nat) (k : key) (state : bool) (c : control)
  : cres control :=
  match ev_at c k, cpus c !! i with
  | Some ev, Some v =>
      let* _ := cassert (sstate ev) "assert(trace_event_get_state_static(ev))" in
      let* _ := cassert (trace_event_is_vcpu ev) "assert(trace_event_is_vcpu(ev))" in
      let b := vcpu_id ev in
      let state_pre := Z.testbit (trace_dstate v) b in
      if Bool.eqb state_pre state then Ret c
      else
        let '(c, v) :=
          if state then
            (update_dstate c k 1 (u16 (dstate ev + 1)), set_delayed v (Z.setbit (trace_dstate_delayed v) b))
          else
            (update_dstate c k (-1) (u16 (dstate ev - 1)), set_delayed v (Z.clearbit (trace_dstate_delayed v) b)) in
        let v := if created v then queue_sync v else trace_event_synchronize_vcpu_state_dynamic v in
        Ret (set_cpus c (<[i := v]> (cpus c)))
  | _, _ => Abort "null pointer"
  end.

(** [CPU_FOREACH] over the positions [0 .. n). *)
Fixpoint set_vcpus (l : list nat) (k : key) (state : bool) (c : control) : cres control :=
  match l with
  | [] => Ret c
  | i :: l => let* c := trace_event_set_vcpu_state_dynamic i k state c in set_vcpus l k state c
  end.

Definition trace_event_set_state_dynamic (k : key) (state : bool) (c : control) : cres control :=
  match ev_at c k with
  | None => Abort "null event"
  | Some ev =>
      let* _ := cassert (sstate ev) "assert(trace_event_get_state_static(ev))" in
      if trace_event_is_vcpu ev && negb (bool_decide (cpus c = [])) then
        set_vcpus (seq 0 (List.length (cpus c))) k state c
      else set_state_global k state c
  end.

(** ** vCPUs come and go *)

Definition adding_first_cpu (c : control) : bool := (List.length (cpus c) <=? 1)%nat.

(** [trace_init_vcpu] for the vCPU at position [i], which is in the list. *)
Definition trace_init_vcpu (i : nat) (c : control) : cres control :=
  let* r := for_events None (fun k ev s =>
      if trace_event_is_vcpu ev && sstate ev && trace_event_get_state_dynamic s.2 ev then
        if adding_first_cpu s.2 then
          let* _ := cassert (dstate ev =? 1) "assert(*ev->dstate == 1)" in
          let c := update_dstate s.2 k (-1) 0 in
          let* c := trace_event_set_vcpu_state_dynamic i k true c in Ret (false, (tt, c))
        else
          let* c := trace_event_set_vcpu_state_dynamic i k true s.2 in Ret (false, (tt, c))
      else Ret (false, s)) (tt, c) in
  Ret r.2.2.

Definition trace_fini_vcpu (i : nat) (c : control) : cres control :=
  let* r := for_events None (fun k ev s =>
      match cpus s.2 !! i with
      | None => Abort "null vcpu"
      | Some v =>
          if trace_event_is_vcpu ev && sstate ev then
            let* on := trace_event_get_vcpu_state_dynamic s.2 v ev in
            if on then
              let* c := trace_event_set_vcpu_state_dynamic i k false s.2 in Ret (false, (tt, c))
            else Ret (false, s)
          else Ret (false, s)
      end) (tt, c) in
  Ret r.2.2.

(** ** Command line *)

Definition minus : Z := 45.
Definition hash : Z := 35.

(** [line_buf + 1] *)
Definition str_tail (s : string) : string := match s with EmptyString => EmptyString | String _ s => s end.

(** The warnings of [do_trace_enable_events]. *)
Inductive warning := NotTraceable (name : string) | NoSuchEvent (name : string).

Definition do_trace_enable_events (line_buf : string) (c : control) : cres (list warning * control) :=
  let enable := negb (bool_decide (head (File.str_bytes line_buf) = Some minus)) in
  let line_ptr := if enable then line_buf else str_tail line_buf in
  let is_pattern := trace_event_is_pattern line_ptr in
  let* r := for_events (Some line_ptr) (fun k ev s =>
      if negb (sstate ev) then
        if negb is_pattern then Ret (true, ([NotTraceable line_ptr], s.2)) else Ret (false, s)
      else
        let* c := trace_event_set_state_dynamic k enable s.2 in
        Ret (negb is_pattern, (s.1, c))) ([], c) in
  if r.1 then Ret r.2
  else if negb is_pattern then Ret ([NoSuchEvent line_ptr], r.2.2) else Ret r.2.

Definition is_help_option (s : string) : bool := String.eqb s "?" || String.eqb s "help".

(** [monitor]: whether a monitor command is running. *)
Definition trace_enable_events (monitor : bool) (line_buf : string) (c : control)
  : cres (list warning * control) :=
  if is_help_option line_buf then
    let* _ := trace_list_events c in
    if monitor then Ret ([], c) else Abort "exit(0)"
  else do_trace_enable_events line_buf c.

(** [fgets] with a buffer of [n + 1] bytes: up to [n] bytes, through the first
    newline. *)
Fixpoint fgets (n : nat) (file : string) : string * string :=
  match n, file with
  | S n, String ch file =>
      if bool_decide (Ascii.N_of_ascii ch = 10%N) then (String ch EmptyString, file)
      else let '(line, rest) := fgets n file in (String ch line, rest)
  | _, _ => (EmptyString, file)
  end.

(** [line_buf[len - 1] = 0] *)
Fixpoint chop (s : string) : string :=
  match s with
  | EmptyString => EmptyString
  | String _ EmptyString => EmptyString
  | String ch s => String ch (chop s)
  end.

(** The loop over the lines of the events file; every turn but the last reads
    a byte. *)
Fixpoint read_events (fuel : nat) (monitor : bool) (file : string) (c : control)
  : cres (list warning * control) :=
  match fuel, file with
  | _, EmptyString => Ret ([], c)
  | O, _ => Abort "fuel"
  | S fuel, _ =>
      let '(line, rest) := fgets 1023 file in
      let* r :=
        if (1 <? String.length line)%nat then
          let line := chop line in
          if bool_decide (head (File.str_bytes line) = Some hash) then Ret ([], c)
          else trace_enable_events monitor line c
        else Ret ([], c) in
      let* q := read_events fuel monitor rest r.2 in
      Ret (r.1 ++ q.1, q.2)
  end.

(** [trace_init_events]: the contents of the file, [None] when it cannot be
    opened; closing succeeds. *)
Definition trace_init_events (monitor : bool) (fname : option (option string)) (c : control)
  : cres (list warning * control) :=
  match fname with
  | None => Ret ([], c)
  | Some None => Abort "exit(1)"
  | Some (Some file) => read_events (String.length file) monitor file c
  end.

(** The parsed [-trace] option. *)
Record trace_opts := mkOpts {
  o_enable : option string;
  o_events : option (option string);
  o_file : option string;
}.

Definition trace_opt_parse (monitor : bool) (opts : option trace_opts) (c : control)
  : cres (option string * (list warning * control)) :=
  match opts with
  | None => Abort "exit(1)"
  | Some o =>
      let* r := match o_enable o with
                | Some l => trace_enable_events monitor l c
                | None => Ret ([], c)
                end in
      let* q := trace_init_events monitor (o_events o) r.2 in
      Ret (o_file o, (r.1 ++ q.1, q.2))
  end.

(** ** QMP *)

Inductive qmp_error :=
| InvalidVcpu (vcpu : Z)
| UnknownEvent (name : string)
| NotVcpuSpecific (name : string)
| EventDisabled (name : string).

(** [qemu_get_cpu]: the position of the vCPU with the given index. *)
Fixpoint qemu_get_cpu (l : list CPUState) (index : Z) : option nat :=
  match l with
  | [] => None
  | v :: l => if cpu_index v =? index then Some 0%nat else S <$> qemu_get_cpu l index
  end.

Definition get_cpu (vcpu : option Z) (c : control) : qmp_error + option nat :=
  match vcpu with
  | None => inr None
  | Some n => match qemu_get_cpu (cpus c) n with None => inl (InvalidVcpu n) | Some i => inr (Some i) end
  end.

Definition check_events (has_vcpu ignore_unavailable is_pattern : bool) (name : string) (c : control)
  : cres (option qmp_error) :=
  if negb is_pattern then
    let* k := trace_event_name name c in
    match k ≫= ev_at c with
    | None => Ret (Some (UnknownEvent name))
    | Some ev =>
        if has_vcpu && negb (trace_event_is_vcpu ev) then Ret (Some (NotVcpuSpecific name))
        else if negb ignore_unavailable && negb (sstate ev) then Ret (Some (EventDisabled name))
        else Ret None
    end
  else
    let* r := for_events (Some name) (fun k ev s =>
        if negb ignore_unavailable && negb (sstate ev)
        then Ret (true, (Some (EventDisabled (ev_name ev)), s.2)) else Ret (false, s)) (None, c) in
    Ret r.2.1.

Inductive TraceEventState := UNAVAILABLE | DISABLED | ENABLED.

Record TraceEventInfo := mkInfo {
  info_vcpu : bool;
  info_name : string;
  info_state : TraceEventState;
}.

(** The infos are consed, so the list is in reverse order of the events. *)
Definition qmp_trace_event_get_state (name : string) (vcpu : option Z) (c : control)
  : cres (qmp_error + list TraceEventInfo) :=
  match get_cpu vcpu c with
  | inl e => Ret (inl e)
  | inr cpu =>
      let has_vcpu := bool_decide (is_Some vcpu) in
      let* e := check_events has_vcpu true (trace_event_is_pattern name) name c in
      match e with
      | Some e => Ret (inl e)
      | None =>
          let* r := for_events (Some name) (fun k ev s =>
              let is_vcpu := trace_event_is_vcpu ev in
              if has_vcpu && negb is_vcpu then Ret (false, s)
              else
                let* st :=
                  if negb (sstate ev) then Ret UNAVAILABLE
                  else
                    match cpu with
                    | Some i =>
                        match cpus s.2 !! i with
                        | None => Abort "null vcpu"
                        | Some v =>
                            let* on := trace_event_get_vcpu_state_dynamic s.2 v ev in
                            Ret (if on then ENABLED else DISABLED)
                        end
                    | None => Ret (if trace_event_get_state_dynamic s.2 ev then ENABLED else DISABLED)
                    end in
                Ret (false, (mkInfo is_vcpu (ev_name ev) st :: s.1, s.2))) ([], c) in
          Ret (inr r.2.1)
      end
  end.

Definition qmp_trace_event_set_state (name : string) (enable : bool) (ignore_unavailable : bool)
  (vcpu : option Z) (c : control) : cres (option qmp_error * control) :=
  match get_cpu vcpu c with
  | inl e => Ret (Some e, c)
  | inr cpu =>
      let has_vcpu := bool_decide (is_Some vcpu) in
      let* e := check_events has_vcpu ignore_unavailable (trace_event_is_pattern name) name c in
      match e with
      | Some e => Ret (Some e, c)
      | None =>
          let* r := for_events (Some name) (fun k ev s =>
              if negb (sstate ev) || (has_vcpu && negb (trace_event_is_vcpu ev)) then Ret (false, s)
              else
                let* c :=
                  match cpu with
                  | Some i => trace_event_set_vcpu_state_dynamic i k enable s.2
                  | None => trace_event_set_state_dynamic k enable s.2
                  end in
                Ret (false, (tt, c))) (tt, c) in
          Ret (None, r.2.2)
      end
  end.

(** ** What the iterator visits *)

Definition shape (c : control) : list (list string) := map (map ev_name) (event_groups c).

Definition name_at (sh : list (list string)) (k : key) : option string := sh !! k.1 ≫= (.!! k.2).

(** The positions in the groups from number [g] on, up to an empty group. *)
Fixpoint keys_from (sh : list (list string)) (g : nat) : list key :=
  match sh with
  | (n :: ns) :: sh => map (g,.) (seq 0 (S (List.length ns))) ++ keys_from sh (S g)
  | _ => []
  end.

Definition keys_rest (sh : list (list string)) (it : TraceEventIter) : list key :=
  drop (it_event it) (keys_from (drop (it_group it) sh) (it_group it)).

Definition key_matches (sh : list (list string)) (pattern : option string) (k : key) : bool :=
  match name_at sh k with
  | None => false
  | Some n => match pattern with None => true | Some p => g_pattern_match_simple p n end
  end.

Definition iter_valid (sh : list (list string)) (it : TraceEventIter) : Prop :=
  it_event it = 0%nat \/ is_Some (name_at sh (it_group it, it_event it)).

(** The events a loop over [pattern] visits. *)
Definition visited (sh : list (list string)) (pattern : option string) : list key :=
  filter (fun k => key_matches sh pattern k = true) (keys_from sh 0).

Lemma name_at_ev c k : name_at (shape c) k = ev_name <$> ev_at c k.
Proof.
  unfold name_at, shape, ev_at. rewrite list_lookup_fmap.
  destruct (event_groups c !! k.1); simpl; [|done]. by rewrite list_lookup_fmap.
Qed.

Lemma ev_matches_key c it ev :
  ev_at c (it_group it, it_event it) = Some ev ->
  ev_matches (it_pattern it) ev = key_matches (shape c) (it_pattern it) (it_group it, it_event it).
Proof. intros H. unfold key_matches. by rewrite name_at_ev, H. Qed.

(** A group entered at its start. *)
Lemma keys_group sh g :
  keys_from (drop g sh) g =
  match sh !! g with
  | Some (n :: ns) => map (g,.) (seq 0 (S (List.length ns))) ++ keys_from (drop (S g) sh) (S g)
  | _ => []
  end.
Proof.
  destruct (sh !! g) as [ns|] eqn:Hg.
  - rewrite (drop_S _ _ _ Hg). by destruct ns.
  - apply lookup_ge_None in Hg. by rewrite drop_ge.
Qed.

Lemma keys_rest_end sh it :
  iter_valid sh it -> name_at sh (it_group it, it_event it) = None -> keys_rest sh it = [].
Proof.
  intros [He|[n Hn]] Hn'; [|congruence]. unfold keys_rest. rewrite keys_group, He in *.
  unfold name_at in Hn'. simpl in Hn'. destruct (sh !! it_group it) as [[|n ns]|]; done.
Qed.

Lemma keys_rest_next c it :
  is_Some (ev_at c (it_group it, it_event it)) ->
  keys_rest (shape c) it = (it_group it, it_event it) :: keys_rest (shape c) (iter_advance c it) /\
  iter_valid (shape c) (iter_advance c it).
Proof.
  destruct it as [e g p]. cbn [it_group it_event]. intros [ev Hev].
  assert (exists ns, shape c !! g = Some ns /\ (e < List.length ns)%nat) as (ns & Hg & He).
  { unfold ev_at in Hev. simpl in Hev. destruct (event_groups c !! g) as [evs|] eqn:Hg; [|done].
    exists (map ev_name evs). unfold shape. rewrite list_lookup_fmap, Hg. split; [done|].
    rewrite length_map. by eapply lookup_lt_Some. }
  pose proof (name_at_ev c (g, S e)) as Hn. unfold name_at in Hn. cbn [fst snd] in Hn. rewrite Hg in Hn.
  cbn [mbind option_bind] in Hn.
  unfold iter_advance, keys_rest. cbn [it_group it_event it_pattern].
  rewrite (keys_group (shape c) g), Hg. destruct ns as [|n ns]; [simpl in He; lia|].
  set (ks := map (g,.) (seq 0 (S (List.length ns)))).
  assert (ks !! e = Some (g, e)) as Hk.
  { unfold ks. rewrite list_lookup_fmap, lookup_seq_lt by (simpl in He; lia). done. }
  assert (List.length ks = S (List.length ns)) as Hks by (unfold ks; by rewrite length_map, length_seq).
  rewrite (drop_S (ks ++ _) (g, e)) by (apply lookup_app_l_Some; exact Hk).
  destruct (ev_at c (g, S e)) as [ev'|] eqn:Hev'; cbn [it_event it_group].
  - rewrite (keys_group (shape c) g), Hg. split; [done|]. right. cbn [it_group it_event].
    rewrite name_at_ev, Hev'. by eexists.
  - split; [|by left]. simpl in Hn. apply lookup_ge_None in Hn. simpl in He.
    rewrite drop_app_length' by lia. by rewrite drop_0.
Qed.

Lemma iter_next_spec c fuel : forall it,
  iter_valid (shape c) it -> (List.length (keys_rest (shape c) it) < fuel)%nat ->
  let ks := filter (fun k => key_matches (shape c) (it_pattern it) k = true) (keys_rest (shape c) it) in
  exists it', iter_next_loop fuel c it = (head ks, it') /\
    (ks <> [] -> iter_valid (shape c) it' /\ it_pattern it' = it_pattern it /\
      (List.length (keys_rest (shape c) it') < List.length (keys_rest (shape c) it))%nat /\
      filter (fun k => key_matches (shape c) (it_pattern it) k = true) (keys_rest (shape c) it') = tail ks).
Proof.
  induction fuel as [|fuel IH]; intros it Hv Hf; [lia|]. cbn [iter_next_loop].
  destruct (ev_at c (it_group it, it_event it)) as [ev|] eqn:He.
  - destruct (keys_rest_next c it) as [Hr Hv']; [by eexists|].
    assert (it_pattern (iter_advance c it) = it_pattern it) as Hp
      by (unfold iter_advance; by case_match).
    rewrite Hr in *. rewrite (ev_matches_key _ _ _ He), filter_cons.
    destruct (key_matches _ _ _) eqn:Hm; case_decide; try done.
    + eexists. split; [done|]. intros _. split_and!; try done. simpl. lia.
    + destruct (IH (iter_advance c it) Hv') as (it' & -> & H'); [simpl in Hf; lia|].
      rewrite Hp in *. exists it'. split; [done|]. intros Hne.
      destruct (H' Hne) as (? & ? & ? & ?). split_and!; try done. simpl. lia.
  - rewrite keys_rest_end; [by eexists|done|]. by rewrite name_at_ev, He.
Qed.

Lemma length_keys_from sh g : (List.length (keys_from sh g) <= List.length (concat sh))%nat.
Proof.
  revert g. induction sh as [|[|n ns] sh IH]; intros g; cbn [keys_from concat]; [simpl; lia..|].
  rewrite length_app, length_map, length_seq. specialize (IH (S g)). simpl. rewrite length_app. lia.
Qed.

Lemma n_events_shape c : n_events c = List.length (concat (shape c)).
Proof. unfold n_events, shape. by rewrite <- concat_map, length_map. Qed.

Lemma length_keys_rest c g e p :
  (List.length (keys_rest (shape c) (mkIter e g p)) <= n_events c)%nat.
Proof.
  unfold keys_rest. cbn [it_event it_group]. rewrite length_drop, n_events_shape.
  pose proof (length_keys_from (drop g (shape c)) g) as H.
  assert (concat (shape c) = concat (take g (shape c)) ++ concat (drop g (shape c))) as ->
    by (by rewrite <- concat_app, take_drop).
  rewrite length_app. lia.
Qed.

(** A loop over the events as a fold over the visited positions. *)
Fixpoint fold_keys {A} (body : key -> TraceEvent -> A * control -> cres (bool * (A * control)))
  (ks : list key) (s : A * control) : cres (bool * (A * control)) :=
  match ks with
  | [] => Ret (false, s)
  | k :: ks =>
      match ev_at s.2 k with
      | None => Abort "null event"
      | Some ev =>
          let* r := body k ev s in
          if r.1 then Ret (true, r.2) else fold_keys body ks r.2
      end
  end.

(** The body of a loop does not change names or structure. *)
Definition keeps_shape {A} (body : key -> TraceEvent -> A * control -> cres (bool * (A * control))) : Prop :=
  forall k ev s r, ev_at s.2 k = Some ev -> body k ev s = Ret r -> shape r.2.2 = shape s.2.

Lemma iter_while_fold {A} body fuel : @keeps_shape A body -> forall it (s : A * control),
  iter_valid (shape s.2) it -> (List.length (keys_rest (shape s.2) it) < fuel)%nat ->
  iter_while fuel body it s =
  fold_keys body (filter (fun k => key_matches (shape s.2) (it_pattern it) k = true) (keys_rest (shape s.2) it)) s.
Proof.
  intros Hb. induction fuel as [|fuel IH]; intros it s Hv Hf; [lia|]. cbn [iter_while].
  unfold trace_event_iter_next.
  assert (List.length (keys_rest (shape s.2) it) <= n_events s.2)%nat as Hn
    by (destruct it; apply length_keys_rest).
  destruct (iter_next_spec s.2 (S (n_events s.2)) it Hv ltac:(lia)) as (it' & Heq & Hne). rewrite Heq.
  destruct (filter _ (keys_rest (shape s.2) it)) as [|k ks] eqn:Hks; [done|]. cbn [head fold_keys].
  destruct Hne as (Hv' & Hp' & Hl' & Hks'); [done|]. cbn [tail] in Hks'.
  destruct (ev_at s.2 k) as [ev|] eqn:Hev; [|done].
  destruct (body k ev s) as [r|] eqn:Hr; cbn [cbind]; [|done]. destruct (r.1); [done|].
  pose proof (Hb _ _ _ _ Hev Hr) as Hs. rewrite IH; rewrite Hs; [by rewrite Hp', Hks'|done|lia].
Qed.

Lemma for_events_fold {A} body pattern (s : A * control) :
  keeps_shape body -> for_events pattern body s = fold_keys body (visited (shape s.2) pattern) s.
Proof.
  intros Hb. unfold for_events, trace_event_iter_init.
  rewrite iter_while_fold; [|done|by left|].
  - done.
  - pose proof (length_keys_rest s.2 0 0 pattern). lia.
Qed.

(** The groups an iteration reaches: it ends at the first empty one. *)
Fixpoint groups_reached (sh : list (list string)) : list (list string) :=
  match sh with
  | (n :: ns) :: sh => (n :: ns) :: groups_reached sh
  | _ => []
  end.

(** The name at each reached position, in order. *)
Lemma keys_names sh : forall sh' g,
  drop g sh = sh' ->
  Forall2 (fun k n => name_at sh k = Some n) (keys_from sh' g) (concat (groups_reached sh')).
Proof.
  induction sh' as [|[|n ns] sh' IH]; intros g Hd; [constructor..|].
  assert (sh !! g = Some (n :: ns)) as Hg.
  { rewrite <- (Nat.add_0_r g), <- lookup_drop, Hd. done. }
  cbn [keys_from groups_reached concat]. apply Forall2_app.
  - apply Forall2_same_length_lookup_2; [by rewrite length_map, length_seq|].
    intros i k m Hk Hm. rewrite list_lookup_fmap in Hk.
    destruct (seq 0 (S (List.length ns)) !! i) as [j|] eqn:Hj; [|done].
    apply lookup_seq in Hj as [-> _]. injection Hk as <-. unfold name_at. cbn [fst snd].
    by rewrite Hg.
  - apply IH. rewrite (drop_S _ _ _ Hg) in Hd. by injection Hd.
Qed.

Lemma fold_keys_names ks ns acc c :
  Forall2 (fun k n => name_at (shape c) k = Some n) ks ns ->
  fold_keys (fun k ev s => Ret (false, (s.1 ++ [ev_name ev], s.2))) ks (acc, c) = Ret (false, (acc ++ ns, c)).
Proof.
  intros H. revert acc. induction H as [|k n ks ns Hk _ IH]; intros acc; cbn [fold_keys].
  { by rewrite app_nil_r. }
  rewrite name_at_ev in Hk. cbn [snd]. destruct (ev_at c k) as [ev|]; [|done].
  cbn [cbind fst snd]. rewrite IH. injection Hk as <-. by rewrite <- app_assoc.
Qed.

Lemma visited_None sh : visited sh None = keys_from sh 0.
Proof.
  unfold visited. pose proof (keys_names sh sh 0 eq_refl) as H. revert H.
  generalize (keys_from sh 0), (concat (groups_reached sh)). intros ks ns.
  induction 1 as [|k n ks ns Hk _ IH]; [done|].
  rewrite filter_cons, IH, decide_True; [done|]. unfold key_matches. by rewrite Hk.
Qed.

(** The iterator visits every registered event once, in registration
    order, ending at the first empty group (with no empty group: all events). *)
Theorem iterator_visits_events c :
  trace_list_events c = Ret (concat (groups_reached (shape c))).
Proof.
  unfold trace_list_events. rewrite for_events_fold by (by intros k ev s r _ [= <-]).
  cbn [snd]. rewrite visited_None, (fold_keys_names _ _ [] c (keys_names _ (shape c) 0 eq_refl)). done.
Qed.

(** ** Consistency of the dynamic state *)

Definition total (c : control) : Z := foldr (fun e n => dstate e + n) 0 (concat (event_groups c)).

Definition with_dstate (d : Z) (e : TraceEvent) : TraceEvent :=
  mkEv (ev_id e) (vcpu_id e) (ev_name e) (sstate e) d.

Lemma foldr_dstate_app l1 l2 :
  foldr (fun e n => dstate e + n) 0 (l1 ++ l2) =
  foldr (fun e n => dstate e + n) 0 l1 + foldr (fun e n => dstate e + n) 0 l2.
Proof. induction l1; simpl; lia. Qed.

Lemma foldr_dstate_alter l i e d :
  l !! i = Some e ->
  foldr (fun e n => dstate e + n) 0 (alter (with_dstate d) i l) =
  foldr (fun e n => dstate e + n) 0 l - dstate e + d.
Proof.
  revert i. induction l as [|e0 l IH]; intros [|i] H; try done.
  - injection H as ->. simpl. lia.
  - change (alter (with_dstate d) (S i) (e0 :: l)) with (e0 :: alter (with_dstate d) i l).
    cbn [foldr]. rewrite (IH i H). lia.
Qed.

Lemma total_set_dstate c k d ev :
  ev_at c k = Some ev -> total (set_dstate c k d) = total c - dstate ev + d.
Proof.
  unfold ev_at, total, set_dstate. cbn [event_groups set_groups]. destruct k as [g e]. cbn [fst snd].
  revert g. induction (event_groups c) as [|evs gs IH]; intros [|g] H; try done.
  - change (alter ?f 0%nat (evs :: gs)) with (f evs :: gs). cbn [concat].
    rewrite !foldr_dstate_app. pose proof (foldr_dstate_alter evs e ev d H) as E.
    unfold with_dstate in E. rewrite E. lia.
  - change (alter ?f (S g) (evs :: gs)) with (evs :: alter f g gs). cbn [concat].
    rewrite !foldr_dstate_app, (IH g H). lia.
Qed.

Lemma ev_at_set_dstate c k d k' :
  ev_at (set_dstate c k d) k' = if decide (k' = k) then with_dstate d <$> ev_at c k' else ev_at c k'.
Proof.
  unfold ev_at, set_dstate. cbn [event_groups set_groups]. destruct k as [g e], k' as [g' e'].
  cbn [fst snd]. destruct (decide (g' = g)) as [->|Hg].
  - rewrite list_lookup_alter_eq. destruct (event_groups c !! g) as [evs|]; simpl; [|by case_decide].
    destruct (decide (e' = e)) as [->|He].
    + rewrite list_lookup_alter_eq. case_decide; done.
    + rewrite list_lookup_alter_ne by done. case_decide; simplify_eq; done.
  - rewrite list_lookup_alter_ne by done. case_decide; simplify_eq; done.
Qed.

(** The vCPUs that have, or are about to have, event bit [b] set. *)
Definition bits (l : list CPUState) (b : Z) : Z :=
  Z.of_nat (List.length (filter (fun v => Z.testbit (trace_dstate_delayed v) b = true) l)).

Lemma bits_insert l i v v' b :
  l !! i = Some v ->
  bits (<[i := v']> l) b =
  bits l b - b2z (Z.testbit (trace_dstate_delayed v) b) + b2z (Z.testbit (trace_dstate_delayed v') b).
Proof.
  unfold bits. revert i. induction l as [|v0 l IH]; intros [|i] H; try done; simpl in H.
  - injection H as ->. simpl. rewrite !filter_cons.
    destruct (Z.testbit (trace_dstate_delayed v) b), (Z.testbit (trace_dstate_delayed v') b);
      repeat case_decide; try done; simpl; lia.
  - simpl. rewrite !filter_cons. specialize (IH _ H). case_decide; simpl; lia.
Qed.

Lemma bits_all l b state :
  (forall v, v ∈ l -> Z.testbit (trace_dstate_delayed v) b = state) ->
  bits l b = if state then Z.of_nat (List.length l) else 0.
Proof.
  unfold bits. intros H. induction l as [|v l IH]; [by destruct state|].
  rewrite filter_cons, (H v (list_elem_of_here _ _)).
  assert (forall w, w ∈ l -> Z.testbit (trace_dstate_delayed w) b = state) as H' by (intros; apply H; by right).
  specialize (IH H'). destruct state; case_decide; try done; simpl; lia.
Qed.

Record consistent (c : control) : Prop := {
  co_total : trace_events_enabled_count c = total c;
  co_range : forall k ev, ev_at c k = Some ev -> 0 <= dstate ev < 2 ^ 16;
  co_vcpu : forall k ev, ev_at c k = Some ev -> trace_event_is_vcpu ev = true -> cpus c <> [] ->
    dstate ev = bits (cpus c) (vcpu_id ev);
  co_ids : forall k k' ev ev', ev_at c k = Some ev -> ev_at c k' = Some ev' ->
    trace_event_is_vcpu ev = true -> trace_event_is_vcpu ev' = true ->
    vcpu_id ev = vcpu_id ev' -> k = k';
  co_nonneg : forall k ev, ev_at c k = Some ev -> 0 <= vcpu_id ev;
  co_cpus : Z.of_nat (List.length (cpus c)) < 2 ^ 16;
  co_bool : forall k ev, ev_at c k = Some ev -> trace_event_is_vcpu ev = false \/ cpus c = [] ->
    dstate ev <= 1;
}.

Lemma bits_bound l b : 0 <= bits l b <= Z.of_nat (List.length l).
Proof. unfold bits. pose proof (length_filter (fun v => Z.testbit (trace_dstate_delayed v) b = true) l). lia. Qed.

Lemma with_dstate_vcpu d ev : trace_event_is_vcpu (with_dstate d ev) = trace_event_is_vcpu ev.
Proof. done. Qed.

Lemma ev_at_update c k delta d l k' :
  ev_at (set_cpus (update_dstate c k delta d) l) k' =
  if decide (k' = k) then with_dstate d <$> ev_at c k' else ev_at c k'.
Proof. exact (ev_at_set_dstate (set_count c (trace_events_enabled_count c + delta)) k d k'). Qed.

Lemma ev_at_update_static c k delta d l k' e :
  ev_at (set_cpus (update_dstate c k delta d) l) k' = Some e ->
  exists e0, ev_at c k' = Some e0 /\ vcpu_id e0 = vcpu_id e /\
    trace_event_is_vcpu e0 = trace_event_is_vcpu e.
Proof.
  rewrite ev_at_update. case_decide; [|intros He; by exists e].
  destruct (ev_at c k') as [e0|]; [|done]. intros [= <-]. by exists e0.
Qed.

Lemma total_update c k delta d l ev :
  ev_at c k = Some ev ->
  total (set_cpus (update_dstate c k delta d) l) = total c - dstate ev + d.
Proof. exact (total_set_dstate (set_count c (trace_events_enabled_count c + delta)) k d ev). Qed.

(** Event [k] and vCPU [i] change together. *)
Lemma consistent_update c i k ev v v' d :
  consistent c -> ev_at c k = Some ev -> cpus c !! i = Some v -> trace_event_is_vcpu ev = true ->
  (forall b, 0 <= b -> b <> vcpu_id ev ->
     Z.testbit (trace_dstate_delayed v') b = Z.testbit (trace_dstate_delayed v) b) ->
  d = dstate ev - b2z (Z.testbit (trace_dstate_delayed v) (vcpu_id ev))
      + b2z (Z.testbit (trace_dstate_delayed v') (vcpu_id ev)) ->
  consistent (set_cpus (update_dstate c k (d - dstate ev) d) (<[i := v']> (cpus c))).
Proof.
  intros Hc Hk Hi Hv Hb Hd. pose proof (co_vcpu c Hc k ev Hk Hv) as Hbits.
  assert (cpus c <> []) as Hne by (intros E; by rewrite E in Hi). specialize (Hbits Hne).
  pose proof (bits_insert (cpus c) i v v' (vcpu_id ev) Hi) as Hins.
  pose proof (bits_bound (<[i := v']> (cpus c)) (vcpu_id ev)) as Hbd. rewrite length_insert in Hbd.
  pose proof (co_cpus c Hc) as Hcpus.
  split.
  - rewrite (total_update _ _ _ _ _ _ Hk). cbn. rewrite (co_total c Hc). lia.
  - intros k' e. rewrite ev_at_update. case_decide; [|apply (co_range c Hc)]. subst k'. rewrite Hk.
    intros [= <-]. cbn. lia.
  - intros k' e. rewrite ev_at_update. cbn [cpus set_cpus]. case_decide as Hkk.
    + subst k'. rewrite Hk. intros [= <-] _ _. cbn. lia.
    + intros He Hev _. rewrite (co_vcpu c Hc k' e He Hev Hne), (bits_insert _ i v v' _ Hi), Hb; [lia| |].
      * by apply (co_nonneg c Hc k').
      * intros E. apply Hkk. by eapply (co_ids c Hc).
  - intros k1 k2 e1 e2 (? & ? & ? & ?)%ev_at_update_static (? & ? & ? & ?)%ev_at_update_static ? ? ?.
    eapply (co_ids c Hc); eauto; congruence.
  - intros k' e. rewrite ev_at_update. case_decide; [|apply (co_nonneg c Hc)]. subst k'. rewrite Hk.
    intros [= <-]. by apply (co_nonneg c Hc k ev).
  - cbn. by rewrite length_insert.
  - intros k' e. rewrite ev_at_update. cbn [cpus set_cpus]. case_decide as Hkk.
    + subst k'. rewrite Hk. intros [= <-]. rewrite with_dstate_vcpu, Hv.
      intros [?|Hn]; [done|]. apply (f_equal List.length) in Hn. rewrite length_insert in Hn.
      by destruct (cpus c).
    + intros He [Hev|Hn]; [by apply (co_bool c Hc k' e He); left|].
      apply (f_equal List.length) in Hn. rewrite length_insert in Hn. by destruct (cpus c).
Qed.

(** The bit of event [ev] of a vCPU has no pending change. *)
Definition settled (ev : TraceEvent) (v : CPUState) : Prop :=
  Z.testbit (trace_dstate v) (vcpu_id ev) = Z.testbit (trace_dstate_delayed v) (vcpu_id ev).

Lemma delayed_sync v :
  trace_dstate_delayed (if created v then queue_sync v else trace_event_synchronize_vcpu_state_dynamic v)
  = trace_dstate_delayed v.
Proof. by destruct (created v). Qed.

Lemma set_vcpu_ok c i k state ev v :
  consistent c -> ev_at c k = Some ev -> cpus c !! i = Some v -> sstate ev = true ->
  trace_event_is_vcpu ev = true -> settled ev v ->
  exists c' v' d, trace_event_set_vcpu_state_dynamic i k state c = Ret c' /\ consistent c' /\
    cpus c' = <[i := v']> (cpus c) /\ Z.testbit (trace_dstate_delayed v') (vcpu_id ev) = state /\
    ev_at c' k = Some (with_dstate d ev) /\ (forall k', k' <> k -> ev_at c' k' = ev_at c k').
Proof.
  intros Hc Hk Hi Hs Hv Hset. unfold trace_event_set_vcpu_state_dynamic. rewrite Hk, Hi, Hs, Hv.
  cbn [cassert cbind]. pose proof (co_nonneg c Hc k ev Hk) as Hb0.
  pose proof (co_range c Hc k ev Hk) as Hr. unfold settled in Hset.
  destruct (Bool.eqb_spec (Z.testbit (trace_dstate v) (vcpu_id ev)) state) as [E|E].
  { exists c, v, (dstate ev). split_and!; try done; [by rewrite list_insert_id|congruence|].
    rewrite Hk. by destruct ev. }
  set (v1 := set_delayed v (if state then Z.setbit (trace_dstate_delayed v) (vcpu_id ev)
                            else Z.clearbit (trace_dstate_delayed v) (vcpu_id ev))).
  set (v' := if created v1 then queue_sync v1 else trace_event_synchronize_vcpu_state_dynamic v1).
  set (d := if state then dstate ev + 1 else dstate ev - 1).
  assert (Z.testbit (trace_dstate_delayed v') (vcpu_id ev) = state) as Hbit.
  { unfold v'. rewrite delayed_sync. unfold v1. cbn.
    destruct state; [by apply Z.setbit_eq|by apply Z.clearbit_eq]. }
  assert (consistent (set_cpus (update_dstate c k (d - dstate ev) d) (<[i := v']> (cpus c)))) as HC.
  { apply (consistent_update c i k ev v v'); try done.
    - intros b Hb Hne. unfold v'. rewrite delayed_sync. unfold v1. cbn.
      destruct state; [by rewrite Z.setbit_neq|by rewrite Z.clearbit_neq].
    - rewrite Hbit, <- Hset. unfold d. destruct state, (Z.testbit (trace_dstate v) (vcpu_id ev)); cbn; try done; lia. }
  assert (u16 d = d) as Hu.
  { apply Z.mod_small. pose proof (co_range _ HC k (with_dstate d ev)) as HR. apply HR.
    by rewrite ev_at_update, decide_True, Hk. }
  exists (set_cpus (update_dstate c k (d - dstate ev) d) (<[i := v']> (cpus c))), v', d.
  split_and!; try done.
  - unfold d in *. destruct state; rewrite Hu; do 2 f_equal; f_equal; lia.
  - by rewrite ev_at_update, decide_True, Hk.
  - intros k' Hne. by rewrite ev_at_update, decide_False.
Qed.

Lemma set_vcpus_ok l : forall c k state ev,
  consistent c -> ev_at c k = Some ev -> sstate ev = true -> trace_event_is_vcpu ev = true ->
  NoDup l -> (forall i, i ∈ l -> exists v, cpus c !! i = Some v /\ settled ev v) ->
  exists c' d, set_vcpus l k state c = Ret c' /\ consistent c' /\ ev_at c' k = Some (with_dstate d ev) /\
    List.length (cpus c') = List.length (cpus c) /\
    (forall j v, j ∈ l -> cpus c' !! j = Some v ->
       Z.testbit (trace_dstate_delayed v) (vcpu_id ev) = state) /\
    (forall j, j ∉ l -> cpus c' !! j = cpus c !! j) /\
    (forall k', k' <> k -> ev_at c' k' = ev_at c k').
Proof.
  induction l as [|i l IH]; intros c k state ev Hc Hk Hs Hv Hnd Hset; cbn [set_vcpus].
  { exists c, (dstate ev). rewrite Hk. split_and!; try done; [by destruct ev|].
    intros j v Hj. by apply not_elem_of_nil in Hj. }
  inversion Hnd as [|? ? Hi Hnd']; subst.
  destruct (Hset i) as (v & Hiv & Hsv); [by left|].
  destruct (set_vcpu_ok c i k state ev v Hc Hk Hiv Hs Hv Hsv) as (c1 & v1 & d1 & -> & Hc1 & Hcp & Hb & Hk1 & Ho).
  cbn [cbind].
  destruct (IH c1 k state (with_dstate d1 ev) Hc1 Hk1 Hs Hv Hnd') as (c' & d & -> & Hc' & Hk' & Hl & HB & HF & HO).
  { intros j Hj. destruct (Hset j) as (w & Hw & ?); [by right|]. exists w.
    rewrite Hcp, list_lookup_insert_ne by (intros ->; done). done. }
  exists c', d. split_and!; try done.
  - by rewrite Hl, Hcp, length_insert.
  - intros j w [->|Hj]%elem_of_cons Hw; [|by eapply HB].
    rewrite HF, Hcp, list_lookup_insert_eq in Hw by (try done; by eapply lookup_lt_Some).
    by injection Hw as <-.
  - intros j [Hji Hj]%not_elem_of_cons. rewrite HF, Hcp by done. by apply list_lookup_insert_ne.
  - intros k' Hne. by rewrite HO, Ho.
Qed.

(** ** Switching an event *)

Lemma foldr_dstate_bound l e :
  (forall e, e ∈ l -> 0 <= dstate e) -> e ∈ l -> dstate e <= foldr (fun e n => dstate e + n) 0 l.
Proof.
  intros Hl. induction l as [|e0 l IH]; [by intros ?%not_elem_of_nil|].
  assert (0 <= foldr (fun e n => dstate e + n) 0 l) as Hf.
  { clear IH. assert (forall e, e ∈ l -> 0 <= dstate e) as Hl' by (intros; apply Hl; by right).
    clear Hl. induction l as [|e1 l IH]; simpl; [lia|].
    pose proof (Hl' e1 (list_elem_of_here _ _)). specialize (IH ltac:(intros; apply Hl'; by right)). lia. }
  intros [->|He]%elem_of_cons; simpl; [lia|].
  pose proof (Hl e0 (list_elem_of_here _ _)). specialize (IH ltac:(intros; apply Hl; by right) He). lia.
Qed.

Lemma ev_at_concat c e : e ∈ concat (event_groups c) <-> exists k, ev_at c k = Some e.
Proof.
  rewrite list_elem_of_In, in_concat. unfold ev_at. split.
  - intros (g & Hg & He). apply list_elem_of_In in Hg. apply list_elem_of_In in He.
    apply list_elem_of_lookup in Hg as [i Hi], He as [j Hj]. exists (i, j). simpl. by rewrite Hi.
  - intros [[i j] H]. simpl in H. destruct (event_groups c !! i) as [g|] eqn:Hi; [|done].
    exists g. split; apply list_elem_of_In; by eapply list_elem_of_lookup_2.
Qed.

(** The fast-path test on the global counter never hides an enabled event. *)
Lemma get_state_consistent c k ev :
  consistent c -> ev_at c k = Some ev -> trace_event_get_state_dynamic c ev = ztrue (dstate ev).
Proof.
  intros Hc Hk. unfold trace_event_get_state_dynamic, ztrue.
  destruct (Z.eqb_spec (dstate ev) 0) as [E|E]; [by rewrite andb_false_r|].
  assert (dstate ev <= total c) as Ht.
  { apply foldr_dstate_bound; [|by apply ev_at_concat; exists k].
    intros e [k' He]%ev_at_concat. by apply (co_range c Hc k'). }
  pose proof (co_range c Hc k ev Hk). rewrite (co_total c Hc).
  destruct (Z.eqb_spec (total c) 0); [lia|done].
Qed.

Lemma consistent_global c k ev d :
  consistent c -> ev_at c k = Some ev -> trace_event_is_vcpu ev = false \/ cpus c = [] ->
  0 <= d <= 1 -> consistent (update_dstate c k (d - dstate ev) d).
Proof.
  intros Hc Hk Hv Hd.
  replace (update_dstate c k (d - dstate ev) d) with (set_cpus (update_dstate c k (d - dstate ev) d) (cpus c)) by done.
  split.
  - rewrite (total_update _ _ _ _ _ _ Hk). cbn. rewrite (co_total c Hc). lia.
  - intros k' e. rewrite ev_at_update. case_decide; [|apply (co_range c Hc)]. subst k'. rewrite Hk.
    intros [= <-]. cbn. lia.
  - intros k' e. rewrite ev_at_update. case_decide; [|apply (co_vcpu c Hc)]. subst k'. rewrite Hk.
    intros [= <-] Hev Hne. cbn in Hne. destruct Hv as [Hv|Hv]; [|done].
    rewrite with_dstate_vcpu in Hev. congruence.
  - intros k1 k2 e1 e2 (? & ? & ? & ?)%ev_at_update_static (? & ? & ? & ?)%ev_at_update_static ? ? ?.
    eapply (co_ids c Hc); eauto; congruence.
  - intros k' e (e0 & He & <- & _)%ev_at_update_static. by apply (co_nonneg c Hc k').
  - apply (co_cpus c Hc).
  - intros k' e. rewrite ev_at_update. case_decide; [|apply (co_bool c Hc)]. subst k'. rewrite Hk.
    intros [= <-] _. cbn. lia.
Qed.

Lemma set_state_global_ok c k state ev :
  consistent c -> ev_at c k = Some ev -> sstate ev = true ->
  trace_event_is_vcpu ev = false \/ cpus c = [] ->
  exists c' d, set_state_global k state c = Ret c' /\ consistent c' /\ cpus c' = cpus c /\
    ev_at c' k = Some (with_dstate d ev) /\ ztrue d = state /\
    (forall k', k' <> k -> ev_at c' k' = ev_at c k').
Proof.
  intros Hc Hk Hs Hv. unfold set_state_global. rewrite Hk, Hs. cbn [cassert cbind].
  destruct (Bool.eqb_spec (ztrue (dstate ev)) state) as [E|E].
  { exists c, (dstate ev). rewrite Hk. split_and!; try done. by destruct ev. }
  pose proof (co_bool c Hc k ev Hk Hv). pose proof (co_range c Hc k ev Hk).
  set (d := b2z state).
  assert (0 <= d <= 1 /\ ztrue d = state) as [Hd Hz] by (unfold d; by destruct state).
  assert (d - dstate ev = if state then 1 else -1) as Hdelta.
  { unfold d, ztrue in *. destruct (Z.eqb_spec (dstate ev) 0), state; simpl in *; try done; lia. }
  assert (forall k', ev_at (update_dstate c k (d - dstate ev) d) k' =
    if decide (k' = k) then with_dstate d <$> ev_at c k' else ev_at c k') as HA
    by exact (ev_at_update c k (d - dstate ev) d (cpus c)).
  exists (update_dstate c k (d - dstate ev) d), d. split_and!; try done.
  - rewrite Hdelta. by unfold d; destruct state.
  - by apply consistent_global.
  - by rewrite HA, decide_True, Hk.
  - intros k' Hne. by rewrite HA, decide_False.
Qed.

(** C37: switching an event keeps the global counter equal to the sum of the
    event states and each per-vCPU event's state equal to the number of vCPUs
    tracing it; afterwards the event reads as requested, on every vCPU, and
    no other event changed.  The vCPUs must have no change of this event
    pending. *)
Theorem set_state_dynamic_consistent c k state ev :
  consistent c -> ev_at c k = Some ev -> sstate ev = true ->
  (forall v, v ∈ cpus c -> settled ev v) ->
  exists c' ev', trace_event_set_state_dynamic k state c = Ret c' /\ consistent c' /\
    ev_at c' k = Some ev' /\ trace_event_get_state_dynamic c' ev' = state /\
    (forall k', k' <> k -> ev_at c' k' = ev_at c k') /\
    (trace_event_is_vcpu ev = true ->
     forall v, v ∈ cpus c' -> Z.testbit (trace_dstate_delayed v) (vcpu_id ev) = state).
Proof.
  intros Hc Hk Hs Hset. unfold trace_event_set_state_dynamic. rewrite Hk, Hs. cbn [cassert cbind].
  destruct (trace_event_is_vcpu ev && negb (bool_decide (cpus c = []))) eqn:E.
  - apply andb_prop in E as [Hv Hn%negb_true_iff%bool_decide_eq_false].
    destruct (set_vcpus_ok (seq 0 (List.length (cpus c))) c k state ev Hc Hk Hs Hv)
      as (c' & d & -> & Hc' & Hk' & Hl & HB & _ & HO).
    + apply NoDup_seq.
    + intros i [_ Hi]%elem_of_seq. apply lookup_lt_is_Some_2 in Hi as [v Hi]. exists v.
      split; [done|]. apply Hset. by eapply list_elem_of_lookup_2.
    + assert (forall v, v ∈ cpus c' -> Z.testbit (trace_dstate_delayed v) (vcpu_id ev) = state) as Hall.
      { intros v [j Hj]%list_elem_of_lookup. eapply HB; [|done].
        apply lookup_lt_Some in Hj. apply elem_of_seq. lia. }
      exists c', (with_dstate d ev). split_and!; try done.
      rewrite (get_state_consistent c' k _ Hc' Hk'), (co_vcpu c' Hc' k _ Hk' Hv)
        by (intros E; rewrite E in Hl; by destruct (cpus c)).
      change (vcpu_id (with_dstate d ev)) with (vcpu_id ev).
      rewrite (bits_all (cpus c') _ state Hall). destruct state; [|done].
      destruct (cpus c') eqn:E; [by destruct (cpus c)|done].
  - assert (trace_event_is_vcpu ev = false \/ cpus c = []) as Hv.
    { destruct (trace_event_is_vcpu ev); [right|by left]. simpl in E.
      by apply negb_false_iff, bool_decide_eq_true in E. }
    destruct (set_state_global_ok c k state ev Hc Hk Hs Hv) as (c' & d & -> & Hc' & Hcp & Hk' & Hz & HO).
    exists c', (with_dstate d ev). split_and!; try done.
    + by rewrite (get_state_consistent c' k _ Hc' Hk').
    + intros Hvt v. rewrite Hcp. destruct Hv as [Hv| ->]; [congruence|]. by intros ?%not_elem_of_nil.
Qed.

(** A second switch-off of a per-vCPU event before the running vCPU has
    applied the first one is counted again: the event state no longer is the
    number of vCPUs that trace the event. *)
Theorem pending_switch_counted_twice c i k ev v :
  consistent c -> ev_at c k = Some ev -> cpus c !! i = Some v -> sstate ev = true ->
  trace_event_is_vcpu ev = true -> created v = true ->
  Z.testbit (trace_dstate v) (vcpu_id ev) = true -> settled ev v ->
  exists c1 c2, trace_event_set_vcpu_state_dynamic i k false c = Ret c1 /\
    trace_event_set_vcpu_state_dynamic i k false c1 = Ret c2 /\
    trace_events_enabled_count c2 = trace_events_enabled_count c - 2 /\
    bits (cpus c2) (vcpu_id ev) = bits (cpus c) (vcpu_id ev) - 1.
Proof.
  intros Hc Hk Hi Hs Hv Hcr Hb Hset. pose proof (lookup_lt_Some _ _ _ Hi) as Hlt.
  pose proof (co_nonneg c Hc k ev Hk).
  assert (forall c v ev, ev_at c k = Some ev -> cpus c !! i = Some v -> sstate ev = true ->
    trace_event_is_vcpu ev = true -> created v = true -> Z.testbit (trace_dstate v) (vcpu_id ev) = true ->
    trace_event_set_vcpu_state_dynamic i k false c =
      Ret (set_cpus (update_dstate c k (-1) (u16 (dstate ev - 1)))
        (<[i := queue_sync (set_delayed v (Z.clearbit (trace_dstate_delayed v) (vcpu_id ev)))]> (cpus c)))) as Hstep.
  { intros c0 v0 ev0 H1 H2 H3 H4 H5 H6. unfold trace_event_set_vcpu_state_dynamic.
    rewrite H1, H2, H3, H4, H6. cbn. by rewrite H5. }
  rewrite (Hstep c v ev) by done. eexists _, _. split; [done|].
  rewrite (Hstep _ (queue_sync (set_delayed v (Z.clearbit (trace_dstate_delayed v) (vcpu_id ev))))
                 (with_dstate (u16 (dstate ev - 1)) ev)); try done.
  - split; [done|]. split; [cbn; lia|]. cbn [cpus set_cpus]. rewrite list_insert_insert_eq.
    rewrite (bits_insert _ i v _ _ Hi). cbn. rewrite Z.clearbit_eq, <- Hset, Hb. cbn. lia.
  - by rewrite ev_at_update, decide_True, Hk.
  - cbn. by apply list_lookup_insert_eq.
Qed.

(** ** Switching events by name or pattern *)

Lemma map_alter {A B} (f : A -> B) (g : A -> A) l i :
  (forall x, f (g x) = f x) -> map f (alter g i l) = map f l.
Proof.
  intros H. revert i. induction l as [|x l IH]; intros [|i]; try done; simpl.
  - by rewrite H.
  - f_equal. apply IH.
Qed.

Lemma shape_set_dstate c k d : shape (set_dstate c k d) = shape c.
Proof. unfold shape, set_dstate. apply map_alter. intros evs. by apply map_alter. Qed.

Lemma set_vcpu_shape i k state c c' :
  trace_event_set_vcpu_state_dynamic i k state c = Ret c' -> shape c' = shape c.
Proof.
  unfold trace_event_set_vcpu_state_dynamic.
  destruct (ev_at c k) as [ev|]; [|done]. destruct (cpus c !! i) as [v|]; [|done].
  destruct (sstate ev); [|done]. destruct (trace_event_is_vcpu ev); [|done]. cbn [cassert cbind].
  destruct (Bool.eqb _ _); [by intros [= <-]|].
  destruct state; intros [= <-]; apply (shape_set_dstate (set_count c _)).
Qed.

Lemma set_vcpus_shape l k state : forall c c', set_vcpus l k state c = Ret c' -> shape c' = shape c.
Proof.
  induction l as [|i l IH]; intros c c'; cbn [set_vcpus]; [by intros [= <-]|].
  rewrite cbind_Ret. intros (c1 & H1%set_vcpu_shape & H2%IH). congruence.
Qed.

Lemma set_state_dynamic_shape k state c c' :
  trace_event_set_state_dynamic k state c = Ret c' -> shape c' = shape c.
Proof.
  unfold trace_event_set_state_dynamic. destruct (ev_at c k) as [ev|] eqn:Hk; [|done].
  destruct (sstate ev) eqn:Hs; [|done]. cbn [cassert cbind].
  destruct (_ && _); [apply set_vcpus_shape|]. unfold set_state_global. rewrite Hk, Hs. cbn [cassert cbind].
  destruct (Bool.eqb _ _); [by intros [= <-]|].
  destruct state; intros [= <-]; apply (shape_set_dstate (set_count c _)).
Qed.

(** The body of [qmp_trace_event_set_state] for all vCPUs. *)
Definition qmp_set_body (enable : bool) (k : key) (ev : TraceEvent) (s : () * control)
  : cres (bool * (() * control)) :=
  if negb (sstate ev) || (false && negb (trace_event_is_vcpu ev)) then Ret (false, s)
  else let* c := trace_event_set_state_dynamic k enable s.2 in Ret (false, (tt, c)).

Lemma qmp_set_body_shape enable : keeps_shape (qmp_set_body enable).
Proof.
  intros k ev s r _. unfold qmp_set_body. destruct (_ || _); [by intros [= <-]|].
  rewrite cbind_Ret. intros (c' & H%set_state_dynamic_shape & [= <-]). done.
Qed.

Lemma qmp_set_fold enable ks : forall c,
  consistent c -> NoDup ks ->
  (forall k, k ∈ ks -> exists ev, ev_at c k = Some ev /\ trace_event_is_vcpu ev = false) ->
  exists c', fold_keys (qmp_set_body enable) ks (tt, c) = Ret (false, (tt, c')) /\ consistent c' /\
    (forall k ev, k ∈ ks -> ev_at c' k = Some ev -> sstate ev = true ->
       trace_event_get_state_dynamic c' ev = enable) /\
    (forall k, k ∉ ks -> ev_at c' k = ev_at c k).
Proof.
  induction ks as [|k ks IH]; intros c Hc Hnd Hks; cbn [fold_keys snd].
  { exists c. split_and!; try done. intros k ev Hk. by apply not_elem_of_nil in Hk. }
  inversion Hnd as [|? ? Hk Hnd']; subst.
  destruct (Hks k) as (ev & Hev & Hv); [by left|]. rewrite Hev. unfold qmp_set_body at 1. cbn [snd].
  assert (exists c1 ev1, (if negb (sstate ev) || (false && negb (trace_event_is_vcpu ev)) then Ret (false, (tt, c))
      else let* c := trace_event_set_state_dynamic k enable c in Ret (false, (tt, c))) = Ret (false, (tt, c1)) /\
      consistent c1 /\ ev_at c1 k = Some ev1 /\ (sstate ev1 = true -> ztrue (dstate ev1) = enable) /\
      (forall k', k' <> k -> ev_at c1 k' = ev_at c k')) as (c1 & ev1 & -> & Hc1 & Hk1 & Hst & Ho).
  { destruct (sstate ev) eqn:Hs; cbn; [|exists c, ev; split_and!; congruence].
    unfold trace_event_set_state_dynamic. rewrite Hev, Hs, Hv. cbn [cassert cbind andb].
    destruct (set_state_global_ok c k enable ev Hc Hev Hs (or_introl Hv)) as (c' & d & -> & ? & ? & ? & ? & ?).
    exists c', (with_dstate d ev). done. }
  cbn [cbind fst snd].
  destruct (IH c1 Hc1 Hnd') as (c' & -> & Hc' & HS & HO).
  { intros k' Hk'. destruct (Hks k') as (ev' & ? & ?); [by right|]. exists ev'.
    rewrite Ho by (by intros ->). done. }
  exists c'. split_and!; try done.
  - intros k' ev' [->|Hk']%elem_of_cons He Hs; [|by eapply HS].
    rewrite (get_state_consistent c' k ev' Hc' He). rewrite HO, Hk1 in He by done. injection He as <-. by apply Hst.
  - intros k' [Hne Hk']%not_elem_of_cons. by rewrite HO, Ho.
Qed.

Lemma keys_from_ge sh : forall g k, k ∈ keys_from sh g -> (g <= k.1)%nat.
Proof.
  induction sh as [|[|n ns] sh IH]; intros g k; cbn [keys_from]; try (by intros ?%not_elem_of_nil).
  intros [Hk|Hk]%elem_of_app; [|apply IH in Hk; lia].
  apply list_elem_of_In, in_map_iff in Hk as (? & <- & _). done.
Qed.

Lemma NoDup_keys_from sh : forall g, NoDup (keys_from sh g).
Proof.
  induction sh as [|[|n ns] sh IH]; intros g; cbn [keys_from]; [constructor..|].
  apply list.NoDup_app. split_and!; [|intros k Hk Hk'|apply IH].
  - apply NoDup_fmap_2; [by intros ? ? [= ->]|apply NoDup_seq].
  - apply list_elem_of_In, in_map_iff in Hk as (? & <- & _). apply keys_from_ge in Hk'. simpl in Hk'. lia.
Qed.

Lemma visited_ev c pattern k : k ∈ visited (shape c) pattern -> is_Some (ev_at c k).
Proof.
  intros [Hm _]%list_elem_of_filter. unfold key_matches in Hm. rewrite name_at_ev in Hm.
  by destruct (ev_at c k).
Qed.

(** The QMP command sets exactly the events its name or pattern selects:
    afterwards each selected event that can be traced reads as requested, all
    others are as before, and the counter is consistent.  (Events without a
    per-vCPU state.) *)
Theorem qmp_set_state_applies name enable ignore_unavailable c c' :
  consistent c ->
  (forall k ev, ev_at c k = Some ev -> trace_event_is_vcpu ev = false) ->
  qmp_trace_event_set_state name enable ignore_unavailable None c = Ret (None, c') ->
  consistent c' /\
  (forall k ev, k ∈ visited (shape c) (Some name) -> ev_at c' k = Some ev -> sstate ev = true ->
     trace_event_get_state_dynamic c' ev = enable) /\
  (forall k, k ∉ visited (shape c) (Some name) -> ev_at c' k = ev_at c k).
Proof.
  intros Hc Hv. unfold qmp_trace_event_set_state. cbn [get_cpu bool_decide].
  rewrite cbind_Ret. intros (e & _ & H). destruct e; [done|]. rewrite cbind_Ret in H.
  destruct H as (r & Hr & [= <-]).
  change (for_events (Some name) (qmp_set_body enable) (tt, c) = Ret r) in Hr.
  rewrite for_events_fold in Hr by apply qmp_set_body_shape. cbn [snd] in Hr.
  destruct (qmp_set_fold enable (visited (shape c) (Some name)) c Hc) as (c' & Hf & ? & ? & ?).
  - apply list.NoDup_filter, NoDup_keys_from.
  - intros k [ev Hk]%visited_ev. exists ev. eauto.
  - rewrite Hf in Hr. injection Hr as <-. done.
Qed.

(** ** The events file *)

Definition newline : Ascii.ascii := Ascii.ascii_of_nat 10.

(** A line that fits the buffer and has no newline of its own. *)
Fixpoint no_newline (s : string) : Prop :=
  match s with
  | EmptyString => True
  | String ch s => Ascii.N_of_ascii ch <> 10%N /\ no_newline s
  end.

Definition line_ok (s : string) : Prop := no_newline s /\ (String.length s <= 1022)%nat.

(** A file whose lines all end in a newline. *)
Fixpoint unlines (lines : list string) : string :=
  match lines with
  | [] => EmptyString
  | l :: lines => (l +:+ String newline (unlines lines))%string
  end.

(** What a line asks for. *)
Definition process_line (monitor : bool) (line : string) (c : control) : cres (list warning * control) :=
  if bool_decide (line = EmptyString) || bool_decide (head (File.str_bytes line) = Some hash)
  then Ret ([], c) else trace_enable_events monitor line c.

Fixpoint process_lines (monitor : bool) (lines : list string) (c : control) : cres (list warning * control) :=
  match lines with
  | [] => Ret ([], c)
  | l :: lines =>
      let* r := process_line monitor l c in
      let* q := process_lines monitor lines r.2 in
      Ret (r.1 ++ q.1, q.2)
  end.

Lemma fgets_line line rest n :
  no_newline line -> (String.length line < n)%nat ->
  fgets n (line +:+ String newline rest)%string = ((line +:+ String newline EmptyString)%string, rest).
Proof.
  revert n. induction line as [|ch line IH]; intros [|n] Hn Hl; simpl in *; try lia.
  - done.
  - destruct Hn as [Hc Hn]. rewrite bool_decide_eq_false_2 by done. rewrite (IH n) by (done || lia). done.
Qed.

Lemma fgets_last line n :
  no_newline line -> (String.length line < n)%nat -> fgets n line = (line, EmptyString).
Proof.
  revert n. induction line as [|ch line IH]; intros [|n] Hn Hl; simpl in *; try lia; [done|].
  destruct Hn as [Hc Hn]. rewrite bool_decide_eq_false_2 by done. rewrite (IH n) by (done || lia). done.
Qed.

Lemma chop_newline line : chop (line +:+ String newline EmptyString)%string = line.
Proof.
  induction line as [|ch line IH]; [done|]. simpl. rewrite IH.
  by destruct line.
Qed.

Lemma length_append s1 s2 : String.length (s1 +:+ s2)%string = (String.length s1 + String.length s2)%nat.
Proof. induction s1; simpl; auto. Qed.

Lemma read_line monitor fuel line rest c :
  line_ok line ->
  read_events (S fuel) monitor (line +:+ String newline rest)%string c =
  let* r := process_line monitor line c in
  let* q := read_events fuel monitor rest r.2 in Ret (r.1 ++ q.1, q.2).
Proof.
  intros [Hn Hl].
  assert (read_events (S fuel) monitor (line +:+ String newline rest)%string c =
    let '(l, rest) := fgets 1023 (line +:+ String newline rest)%string in
    let* r := if (1 <? String.length l)%nat then
        if bool_decide (head (File.str_bytes (chop l)) = Some hash) then Ret ([], c)
        else trace_enable_events monitor (chop l) c else Ret ([], c) in
    let* q := read_events fuel monitor rest r.2 in Ret (r.1 ++ q.1, q.2)) as ->.
  { by destruct line. }
  rewrite fgets_line by (done || lia). rewrite chop_newline, length_append. unfold process_line.
  destruct line as [|ch line]; [done|]. cbn [String.length]. destruct (Nat.ltb_spec 1 (S (String.length line) + 1)); [|lia].
  rewrite (bool_decide_eq_false_2 (String ch line = EmptyString)) by done. done.
Qed.

(** An events file switches the events of its lines in order, skipping
    empty lines and comments. *)
Theorem events_file_lines monitor lines c :
  Forall line_ok lines ->
  trace_init_events monitor (Some (Some (unlines lines))) c = process_lines monitor lines c.
Proof.
  intros H. unfold trace_init_events.
  assert (forall fuel c, (List.length lines <= fuel)%nat ->
    read_events fuel monitor (unlines lines) c = process_lines monitor lines c) as HR.
  { clear c. induction H as [|l lines Hl _ IH]; intros fuel c Hf; [by destruct fuel|].
    destruct fuel as [|fuel]; [simpl in Hf; lia|]. cbn [unlines process_lines].
    rewrite read_line by done. destruct (process_line monitor l c) as [r|]; cbn [cbind]; [|done].
    rewrite IH by (simpl in Hf; lia). done. }
  apply HR. clear. induction lines as [|l lines IH]; simpl; [lia|].
  rewrite length_append. simpl. lia.
Qed.

(** A last line without newline loses its last character: another event
    is switched, or none. *)
Theorem unterminated_line_truncated monitor line c :
  no_newline line -> (1 < String.length line <= 1022)%nat ->
  bool_decide (head (File.str_bytes (chop line)) = Some hash) = false ->
  trace_init_events monitor (Some (Some line)) c =
  let* r := trace_enable_events monitor (chop line) c in Ret (r.1 ++ [], r.2).
Proof.
  intros Hn Hl Hh. unfold trace_init_events.
  destruct line as [|ch line]; [simpl in Hl; lia|].
  assert (read_events (String.length (String ch line)) monitor (String ch line) c =
    let '(l, rest) := fgets 1023 (String ch line) in
    let* r := if (1 <? String.length l)%nat then
        if bool_decide (head (File.str_bytes (chop l)) = Some hash) then Ret ([], c)
        else trace_enable_events monitor (chop l) c else Ret ([], c) in
    let* q := read_events (String.length line) monitor rest r.2 in Ret (r.1 ++ q.1, q.2)) as -> by done.
  rewrite fgets_last by (done || lia). rewrite (proj2 (Nat.ltb_lt _ _)) by lia. rewrite Hh.
  destruct (trace_enable_events monitor _ c) as [r|]; cbn [cbind]; [|done]. by destruct (String.length line).
Qed.

End Control.

(** ** Registered events *)

Definition registered (c : control) : Prop :=
  next_id c = Z.of_nat (n_events c) /\
  map ev_id (concat (event_groups c)) = map Z.of_nat (seq 0 (n_events c)).

Lemma register_events_ids evs : forall id vid l i v w,
  0 <= id -> id + Z.of_nat (List.length evs) < 2 ^ 32 ->
  register_events evs id vid = (l, i, v, w) ->
  i = id + Z.of_nat (List.length evs) /\ List.length l = List.length evs /\
  map ev_id l = map (fun n => id + Z.of_nat n) (seq 0 (List.length evs)) /\
  map ev_name l = map ev_name evs.
Proof.
  induction evs as [|e evs IH]; intros id vid l i v w Hid Hlt H; cbn [register_events] in H.
  { injection H as <- <- _ _. split_and!; try done. simpl. lia. }
  cbn [List.length] in Hlt. assert (u32 (id + 1) = id + 1) as Hu by (apply u32_small; lia). rewrite Hu in H.
  assert (forall vid' x l' i' v' w',
    register_events evs (id + 1) vid' = (l', i', v', w') -> ev_id x = id -> ev_name x = ev_name e ->
    i' = id + Z.of_nat (S (List.length evs)) /\ List.length (x :: l') = S (List.length evs) /\
    map ev_id (x :: l') = map (fun n => id + Z.of_nat n) (seq 0 (S (List.length evs))) /\
    map ev_name (x :: l') = map ev_name (e :: evs)) as Hx.
  { intros vid' x l' i' v' w' Hr Hx Hn.
    destruct (IH (id + 1) vid' l' i' v' w' ltac:(lia) ltac:(lia) Hr) as (-> & Hl & Hm & Hn').
    split_and!; [lia|simpl; lia| |simpl; congruence].
    cbn [map seq]. f_equal; [lia|]. rewrite Hm, <- seq_shift, map_map. apply map_ext. intros n. lia. }
  destruct (vcpu_id e =? _); [|destruct (vid <? _)];
    destruct (register_events _ _ _) as [[[l' i'] v'] w'] eqn:Hr; injection H as <- <- <- <-;
    eapply Hx; eauto.
Qed.

(** Registration numbers the events consecutively over all groups, so an
    event identifier is the position of its event in the iteration. *)
Theorem register_group_ids evs c c' w :
  registered c -> Z.of_nat (n_events c + List.length evs) < 2 ^ 32 ->
  trace_event_register_group evs c = (c', w) ->
  registered c' /\ n_events c' = (n_events c + List.length evs)%nat /\
  shape c' = shape c ++ [map ev_name evs].
Proof.
  intros [Hn Hids] Hlt. unfold trace_event_register_group.
  destruct (register_events _ _ _) as [[[l i] v] w'] eqn:Hr. intros [= <- <-].
  apply register_events_ids in Hr as (-> & Hl & Hm & Hnm); [|lia..].
  unfold registered, n_events, shape in *. cbn [event_groups next_id].
  rewrite concat_app, map_app, map_app, length_app. simpl concat. rewrite app_nil_r, Hl. split_and!; [lia| |done|].
  - rewrite Hids, Hm, seq_app, map_app. f_equal. rewrite Hn, Nat.add_0_l.
    set (m := List.length (concat (event_groups c))).
    replace (seq m (List.length evs)) with (map (Nat.add m) (seq 0 (List.length evs)))
      by (etransitivity; [apply (fmap_add_seq m 0)|by rewrite Nat.add_0_r]).
    rewrite map_map. apply map_ext. intros n. lia.
  - simpl. by rewrite Hnm.
Qed.

(** ** Concrete instances *)

(** A matcher for names and the pattern "*". *)
Definition demo_match (p n : string) : bool := String.eqb p "*" || String.eqb p n.

(** Two events without and one with a per-vCPU state, one running vCPU. *)
Definition demo_groups : list (list TraceEvent) :=
  [[mkEv 0 TRACE_VCPU_EVENT_NONE "guest_trace_nop" true 0;
    mkEv 0 TRACE_VCPU_EVENT_NONE "set_tlb" false 0];
   [mkEv 0 0 "guest_cpu_enter" true 0]]%string.

Definition demo_control : control :=
  let c := foldl (fun c g => (trace_event_register_group g c).1) control_init demo_groups in
  set_cpus c [mkCpu 0 true 0 0 0].

Definition demo_static : control :=
  (trace_event_register_group
    [mkEv 0 TRACE_VCPU_EVENT_NONE "guest_trace_nop" true 0;
     mkEv 0 TRACE_VCPU_EVENT_NONE "set_tlb" false 0]%string control_init).1.

(** Case analysis over the positions of a concrete state. *)
Ltac each_event :=
  repeat match goal with
  | H : ev_at _ ?k = Some _ |- _ =>
      let g := fresh "g" in let e := fresh "e" in
      destruct k as [g e]; unfold ev_at in H; cbn [fst snd] in H;
      repeat (destruct g as [|g]; cbn in H; try discriminate H);
      repeat (destruct e as [|e]; cbn in H; try discriminate H);
      injection H as <-
  end.

Lemma demo_static_consistent : consistent demo_static.
Proof. split; intros; each_event; try done; by cbn in *; lia. Qed.

Definition demo_on : control :=
  match trace_event_set_state_dynamic (1, 0)%nat true demo_control with
  | Ret c => set_cpus c (map run_queued_work (cpus c))
  | Abort _ => demo_control
  end.

Lemma demo_control_consistent : consistent demo_control.
Proof. split; intros; each_event; try done; by cbn in *; lia. Qed.

Lemma demo_on_consistent : consistent demo_on.
Proof. split; intros; each_event; try done; by cbn in *; lia. Qed.

Lemma set_state_dynamic_consistent_witness :
  exists c' ev', trace_event_set_state_dynamic (1, 0)%nat true demo_control = Ret c' /\ consistent c' /\
    ev_at c' (1, 0)%nat = Some ev' /\ trace_event_get_state_dynamic c' ev' = true /\
    (forall k', k' <> (1, 0)%nat -> ev_at c' k' = ev_at demo_control k') /\
    (forall v, v ∈ cpus c' -> Z.testbit (trace_dstate_delayed v) 0 = true).
Proof.
  destruct (set_state_dynamic_consistent demo_control (1, 0)%nat true
    (mkEv 2 0 "guest_cpu_enter" true 0)) as (c' & ev' & H1 & H2 & H3 & H4 & H5 & H6);
    [exact demo_control_consistent|done|done| |].
  - intros v ->%list_elem_of_singleton. done.
  - exists c', ev'. split_and!; try done. by apply H6.
Defined.

Lemma pending_switch_counted_twice_witness :
  exists c1 c2, trace_event_set_vcpu_state_dynamic 0 (1, 0)%nat false demo_on = Ret c1 /\
    trace_event_set_vcpu_state_dynamic 0 (1, 0)%nat false c1 = Ret c2 /\
    trace_events_enabled_count c2 = 1 - 2 /\ bits (cpus c2) 0 = 1 - 1.
Proof.
  apply (pending_switch_counted_twice demo_on 0 (1, 0)%nat (mkEv 2 0 "guest_cpu_enter" true 1)
    (mkCpu 0 true 1 1 0)); [exact demo_on_consistent|done..].
Defined.

Definition demo_qmp : control :=
  match qmp_trace_event_set_state demo_match "*" true true None demo_static with
  | Ret (_, c) => c
  | Abort _ => demo_static
  end.

Lemma qmp_set_state_applies_witness :
  consistent demo_qmp /\
  (forall k ev, k ∈ visited demo_match (shape demo_static) (Some "*"%string) -> ev_at demo_qmp k = Some ev ->
     sstate ev = true -> trace_event_get_state_dynamic demo_qmp ev = true) /\
  (forall k, k ∉ visited demo_match (shape demo_static) (Some "*"%string) ->
     ev_at demo_qmp k = ev_at demo_static k).
Proof.
  apply (qmp_set_state_applies demo_match "*" true true demo_static demo_qmp);
    [exact demo_static_consistent| |by vm_compute].
  intros k ev H. by each_event.
Defined.

Lemma events_file_lines_witness :
  trace_init_events demo_match true (Some (Some (unlines ["#guest"; ""; "guest_trace_nop"]%string))) demo_static =
  process_lines demo_match true ["#guest"; ""; "guest_trace_nop"]%string demo_static.
Proof.
  apply events_file_lines. repeat constructor; try done; simpl; lia.
Defined.

Lemma unterminated_line_truncated_witness :
  trace_init_events demo_match true (Some (Some "guest_trace_nop"%string)) demo_static =
  Ret ([NoSuchEvent "guest_trace_no"], demo_static).
Proof.
  rewrite (unterminated_line_truncated demo_match true "guest_trace_nop" demo_static).
  - by vm_compute.
  - simpl. split_and!; done.
  - simpl. lia.
  - by vm_compute.
Defined.

Lemma register_group_ids_witness :
  registered demo_static /\ n_events demo_static = 2%nat /\
  shape demo_static = [["guest_trace_nop"; "set_tlb"]]%string.
Proof.
  apply (register_group_ids
    [mkEv 0 TRACE_VCPU_EVENT_NONE "guest_trace_nop" true 0;
     mkEv 0 TRACE_VCPU_EVENT_NONE "set_tlb" false 0]%string control_init demo_static []); done.
Defined.

End Control.
