(* ===== verification/PluginCore.v ===== *)
(** * Plugin subscriptions and callbacks

    qemu/plugins/core.c with the data types of plugins/plugin.h and
    include/qemu/plugin.h, the registration functions of plugins/api.c, and the
    memory-access descriptors of trace/mem-internal.h.

    Pointers are integers into explicit stores; 0 is NULL.  The pointers that
    [g_new] returns are arguments.  Calls into plugin code are recorded, as the
    function called and its arguments, in the order in which they are made. *)

From S2P Require Import Prelude.
Open Scope Z_scope.
Open Scope c_scope.

Module PluginCore.

(** ** Events and state *)

Inductive qemu_plugin_event :=
| EV_VCPU_INIT
| EV_VCPU_EXIT
| EV_VCPU_TB_TRANS
| EV_VCPU_IDLE
| EV_VCPU_RESUME
| EV_VCPU_SYSCALL
| EV_VCPU_SYSCALL_RET
| EV_FLUSH
| EV_ATEXIT.

#[global] Instance event_eq_dec : EqDecision qemu_plugin_event.
Proof. solve_decision. Defined.

Definition all_events : list qemu_plugin_event :=
  [EV_VCPU_INIT; EV_VCPU_EXIT; EV_VCPU_TB_TRANS; EV_VCPU_IDLE; EV_VCPU_RESUME;
   EV_VCPU_SYSCALL; EV_VCPU_SYSCALL_RET; EV_FLUSH; EV_ATEXIT].

(** The bit of an event in the masks. *)
Definition ev_bit (ev : qemu_plugin_event) : Z :=
  match ev with
  | EV_VCPU_INIT => 0
  | EV_VCPU_EXIT => 1
  | EV_VCPU_TB_TRANS => 2
  | EV_VCPU_IDLE => 3
  | EV_VCPU_RESUME => 4
  | EV_VCPU_SYSCALL => 5
  | EV_VCPU_SYSCALL_RET => 6
  | EV_FLUSH => 7
  | EV_ATEXIT => 8
  end.

(** Arrays indexed by events. *)
Definition aset {A} (f : qemu_plugin_event -> A) (ev : qemu_plugin_event) (a : A)
  : qemu_plugin_event -> A := fun e => if decide (e = ev) then a else f e.

Record qemu_plugin_cb := mkCb {
  cb_ctx : Z;
  cb_f : Z;
  cb_udata : Z;
}.

Record qemu_plugin_ctx := mkCtx {
  ctx_id : Z;
  callbacks : qemu_plugin_event -> Z;
  ctx_desc : Z;
  installing : bool;
  uninstalling : bool;
  resetting : bool;
}.

(** A vCPU, with the masks that [async_run_on_cpu] queued on it. *)
Record vcpu := mkVcpu {
  v_created : bool;
  plugin_mask : Z;
  queued_masks : list Z;
}.

Record qemu_plugin_state := mkPlugin {
  ctxs : list Z;
  ctx_mem : gmap Z qemu_plugin_ctx;
  cb_lists : qemu_plugin_event -> list Z;
  cb_mem : gmap Z qemu_plugin_cb;
  id_ht : gmap Z Z;           (* from an id to the address of the field holding it *)
  cpu_ht : gset Z;
  cpus : gmap Z vcpu;         (* by cpu_index *)
  mask : Z;
  lock : Z;                   (* depth of the recursive lock *)
  dyn_cb_arr_ht : gset Z;
}.

Definition set_cb_state (s : qemu_plugin_state) (cm : gmap Z qemu_plugin_ctx)
  (l : qemu_plugin_event -> list Z) (m : gmap Z qemu_plugin_cb) : qemu_plugin_state :=
  mkPlugin (ctxs s) cm l m (id_ht s) (cpu_ht s) (cpus s) (mask s) (lock s) (dyn_cb_arr_ht s).
Definition set_ctx_mem (s : qemu_plugin_state) (cm : gmap Z qemu_plugin_ctx) : qemu_plugin_state :=
  set_cb_state s cm (cb_lists s) (cb_mem s).
Definition set_mask (s : qemu_plugin_state) (n : Z) : qemu_plugin_state :=
  mkPlugin (ctxs s) (ctx_mem s) (cb_lists s) (cb_mem s) (id_ht s) (cpu_ht s) (cpus s) n (lock s) (dyn_cb_arr_ht s).
Definition set_vcpus (s : qemu_plugin_state) (c : gmap Z vcpu) : qemu_plugin_state :=
  mkPlugin (ctxs s) (ctx_mem s) (cb_lists s) (cb_mem s) (id_ht s) (cpu_ht s) c (mask s) (lock s) (dyn_cb_arr_ht s).
Definition set_cpu_ht (s : qemu_plugin_state) (h : gset Z) : qemu_plugin_state :=
  mkPlugin (ctxs s) (ctx_mem s) (cb_lists s) (cb_mem s) (id_ht s) h (cpus s) (mask s) (lock s) (dyn_cb_arr_ht s).
Definition set_lock (s : qemu_plugin_state) (n : Z) : qemu_plugin_state :=
  mkPlugin (ctxs s) (ctx_mem s) (cb_lists s) (cb_mem s) (id_ht s) (cpu_ht s) (cpus s) (mask s) n (dyn_cb_arr_ht s).
Definition set_dyn_ht (s : qemu_plugin_state) (h : gset Z) : qemu_plugin_state :=
  mkPlugin (ctxs s) (ctx_mem s) (cb_lists s) (cb_mem s) (id_ht s) (cpu_ht s) (cpus s) (mask s) (lock s) h.
Definition set_ids (s : qemu_plugin_state) (l : list Z) (h : gmap Z Z) : qemu_plugin_state :=
  mkPlugin l (ctx_mem s) (cb_lists s) (cb_mem s) h (cpu_ht s) (cpus s) (mask s) (lock s) (dyn_cb_arr_ht s).

Definition set_callbacks (c : qemu_plugin_ctx) (f : qemu_plugin_event -> Z) : qemu_plugin_ctx :=
  mkCtx (ctx_id c) f (ctx_desc c) (installing c) (uninstalling c) (resetting c).
Definition set_flags (c : qemu_plugin_ctx) (i u r : bool) : qemu_plugin_ctx :=
  mkCtx (ctx_id c) (callbacks c) (ctx_desc c) i u r.

(** [plugin_init], the constructor. *)
Definition plugin_init : qemu_plugin_state :=
  mkPlugin [] ∅ (fun _ => []) ∅ ∅ ∅ ∅ 0 0 ∅.

(** [offsetof(struct qemu_plugin_ctx, id)] *)
Definition id_offset : Z := 8.

(** [container_of] of the NULL that a failed lookup returns is not NULL: the
    test for an invalid id never succeeds and the result points nowhere. *)
Definition plugin_id_to_ctx_locked (id : Z) (s : qemu_plugin_state) : cres (Z * qemu_plugin_ctx) :=
  let id_p := default 0 (id_ht s !! id) in
  let ctx := u64 (id_p - id_offset) in
  if ctx =? 0 then Abort "invalid plugin id"
  else match ctx_mem s !! ctx with
       | None => Abort "wild context pointer"
       | Some c => Ret (ctx, c)
       end.

(** ** Telling the vCPUs *)

Definition plugin_cpu_update__async (m : Z) (v : vcpu) : vcpu := mkVcpu (v_created v) m (queued_masks v).

Definition plugin_cpu_update__locked (m : Z) (v : vcpu) : vcpu :=
  if v_created v then mkVcpu (v_created v) (plugin_mask v) (queued_masks v ++ [m])
  else plugin_cpu_update__async m v.

(** [g_hash_table_foreach(plugin.cpu_ht, plugin_cpu_update__locked, NULL)] *)
Definition update_cpus (s : qemu_plugin_state) : qemu_plugin_state :=
  set_vcpus s (map_imap (fun i v => Some (if bool_decide (i ∈ cpu_ht s)
                                          then plugin_cpu_update__locked (mask s) v else v)) (cpus s)).

(** A vCPU performs its queued work. *)
Definition run_queued (v : vcpu) : vcpu :=
  mkVcpu (v_created v) (plugin_mask (foldl (fun v m => plugin_cpu_update__async m v) v (queued_masks v))) [].

(** ** Subscriptions *)

Definition plugin_unregister_cb__locked (ctx : Z) (ev : qemu_plugin_event) (s : qemu_plugin_state)
  : cres qemu_plugin_state :=
  match ctx_mem s !! ctx with
  | None => Abort "wild context pointer"
  | Some c =>
      let cb := callbacks c ev in
      if cb =? 0 then Ret s
      else
        let l := filter (fun p => p <> cb) (cb_lists s ev) in
        let s := set_cb_state s (<[ctx := set_callbacks c (aset (callbacks c) ev 0)]> (ctx_mem s))
                   (aset (cb_lists s) ev l) (delete cb (cb_mem s)) in
        if bool_decide (l = []) then
          Ret (update_cpus (set_mask s (Z.clearbit (mask s) (ev_bit ev))))
        else Ret s
  end.

(** [new] is what [g_new] returns. *)
Definition do_plugin_register_cb (new id : Z) (ev : qemu_plugin_event) (func udata : Z)
  (s : qemu_plugin_state) : cres qemu_plugin_state :=
  let* p := plugin_id_to_ctx_locked id s in
  let '(ctx, c) := p in
  if uninstalling c then Ret s
  else if func =? 0 then plugin_unregister_cb__locked ctx ev s
  else
    let cb := callbacks c ev in
    if negb (cb =? 0) then
      match cb_mem s !! cb with
      | None => Abort "wild callback pointer"
      | Some r => Ret (set_cb_state s (ctx_mem s) (cb_lists s) (<[cb := mkCb (cb_ctx r) func udata]> (cb_mem s)))
      end
    else
      let s := set_cb_state s (<[ctx := set_callbacks c (aset (callbacks c) ev new)]> (ctx_mem s))
                 (aset (cb_lists s) ev (new :: cb_lists s ev))
                 (<[new := mkCb ctx func udata]> (cb_mem s)) in
      if negb (Z.testbit (mask s) (ev_bit ev)) then
        Ret (update_cpus (set_mask s (Z.setbit (mask s) (ev_bit ev))))
      else Ret s.

Definition plugin_register_cb (new id : Z) (ev : qemu_plugin_event) (func : Z) (s : qemu_plugin_state) :=
  do_plugin_register_cb new id ev func 0 s.

Definition plugin_register_cb_udata (new id : Z) (ev : qemu_plugin_event) (func udata : Z)
  (s : qemu_plugin_state) := do_plugin_register_cb new id ev func udata s.

(** The registration functions of the plugin API. *)
Definition qemu_plugin_register_vcpu_init_cb (new id cb : Z) := plugin_register_cb new id EV_VCPU_INIT cb.
Definition qemu_plugin_register_vcpu_exit_cb (new id cb : Z) := plugin_register_cb new id EV_VCPU_EXIT cb.
Definition qemu_plugin_register_vcpu_tb_trans_cb (new id cb : Z) := plugin_register_cb new id EV_VCPU_TB_TRANS cb.
Definition qemu_plugin_register_vcpu_syscall_cb (new id cb : Z) := plugin_register_cb new id EV_VCPU_SYSCALL cb.
Definition qemu_plugin_register_vcpu_syscall_ret_cb (new id cb : Z) :=
  plugin_register_cb new id EV_VCPU_SYSCALL_RET cb.
Definition qemu_plugin_register_vcpu_idle_cb (new id cb : Z) := plugin_register_cb new id EV_VCPU_IDLE cb.
Definition qemu_plugin_register_vcpu_resume_cb (new id cb : Z) := plugin_register_cb new id EV_VCPU_RESUME cb.
Definition qemu_plugin_register_flush_cb (new id cb : Z) := plugin_register_cb new id EV_FLUSH cb.
Definition qemu_plugin_register_atexit_cb (new id cb udata : Z) := plugin_register_cb_udata new id EV_ATEXIT cb udata.

(** ** Calling the plugins *)

(** A call into plugin code: function and arguments. *)
Definition call : Type := Z * list Z.

(** The calls of a [QLIST_FOREACH_SAFE_RCU] loop over the subscribers; [args]
    gives the arguments after the plugin id. *)
Fixpoint run_cbs (args : qemu_plugin_cb -> list Z) (l : list Z) (s : qemu_plugin_state) : cres (list call) :=
  match l with
  | [] => Ret []
  | p :: l =>
      match cb_mem s !! p with
      | None => Abort "wild callback pointer"
      | Some cb =>
          match ctx_mem s !! cb_ctx cb with
          | None => Abort "wild context pointer"
          | Some c => let* rest := run_cbs args l s in Ret ((cb_f cb, ctx_id c :: args cb) :: rest)
          end
      end
  end.

Definition plugin_vcpu_cb__simple (cpu_index : Z) (ev : qemu_plugin_event) (s : qemu_plugin_state)
  : cres (list call) :=
  match ev with
  | EV_VCPU_INIT | EV_VCPU_EXIT | EV_VCPU_IDLE | EV_VCPU_RESUME =>
      run_cbs (fun _ => [cpu_index]) (cb_lists s ev) s
  | _ => Abort "g_assert_not_reached"
  end.

Definition plugin_cb__simple (ev : qemu_plugin_event) (s : qemu_plugin_state) : cres (list call) :=
  match ev with
  | EV_FLUSH => run_cbs (fun _ => []) (cb_lists s ev) s
  | _ => Abort "g_assert_not_reached"
  end.

Definition plugin_cb__udata (ev : qemu_plugin_event) (s : qemu_plugin_state) : cres (list call) :=
  match ev with
  | EV_ATEXIT => run_cbs (fun cb => [cb_udata cb]) (cb_lists s ev) s
  | _ => Abort "g_assert_not_reached"
  end.

Definition qemu_plugin_tb_trans_cb (tb : Z) (s : qemu_plugin_state) : cres (list call) :=
  run_cbs (fun _ => [tb]) (cb_lists s EV_VCPU_TB_TRANS) s.

(** The vCPU's own copy of the mask decides. *)
Definition masked_cbs (cpu_index : Z) (ev : qemu_plugin_event) (args : list Z) (s : qemu_plugin_state)
  : cres (list call) :=
  match cpus s !! cpu_index with
  | None => Abort "null vcpu"
  | Some v =>
      if negb (Z.testbit (plugin_mask v) (ev_bit ev)) then Ret []
      else run_cbs (fun _ => cpu_index :: args) (cb_lists s ev) s
  end.

Definition qemu_plugin_vcpu_syscall (cpu_index num : Z) (a : list Z) (s : qemu_plugin_state) :=
  masked_cbs cpu_index EV_VCPU_SYSCALL (num :: a) s.

Definition qemu_plugin_vcpu_syscall_ret (cpu_index num ret : Z) (s : qemu_plugin_state) :=
  masked_cbs cpu_index EV_VCPU_SYSCALL_RET [num; ret] s.

Definition qemu_plugin_vcpu_idle_cb (cpu_index : Z) (s : qemu_plugin_state) :=
  plugin_vcpu_cb__simple cpu_index EV_VCPU_IDLE s.

Definition qemu_plugin_vcpu_resume_cb (cpu_index : Z) (s : qemu_plugin_state) :=
  plugin_vcpu_cb__simple cpu_index EV_VCPU_RESUME s.

Definition qemu_plugin_atexit_cb (s : qemu_plugin_state) := plugin_cb__udata EV_ATEXIT s.

(** The code cache was flushed: the callback arrays of its blocks go too. *)
Definition qemu_plugin_flush_cb (s : qemu_plugin_state) : cres (list call * qemu_plugin_state) :=
  let s := set_dyn_ht s ∅ in
  let* calls := plugin_cb__simple EV_FLUSH s in Ret (calls, s).

Definition qemu_plugin_vcpu_init_hook (cpu_index : Z) (s : qemu_plugin_state)
  : cres (list call * qemu_plugin_state) :=
  match cpus s !! cpu_index with
  | None => Abort "null vcpu"
  | Some v =>
      let s := set_vcpus s (<[cpu_index := plugin_cpu_update__locked (mask s) v]> (cpus s)) in
      let* _ := cassert (negb (bool_decide (cpu_index ∈ cpu_ht s))) "g_assert(success)" in
      let s := set_cpu_ht s ({[cpu_index]} ∪ cpu_ht s) in
      let* calls := plugin_vcpu_cb__simple cpu_index EV_VCPU_INIT s in Ret (calls, s)
  end.

Definition qemu_plugin_vcpu_exit_hook (cpu_index : Z) (s : qemu_plugin_state)
  : cres (list call * qemu_plugin_state) :=
  let* calls := plugin_vcpu_cb__simple cpu_index EV_VCPU_EXIT s in
  let* _ := cassert (bool_decide (cpu_index ∈ cpu_ht s)) "g_assert(success)" in
  Ret (calls, set_cpu_ht s (cpu_ht s ∖ {[cpu_index]})).

(** The calls of [qemu_plugin_vcpu_for_each]; the order of a hash table is not
    specified, here it is that of the elements of the set. *)
Definition qemu_plugin_vcpu_for_each (id cb : Z) (s : qemu_plugin_state) : cres (list call) :=
  if cb =? 0 then Ret []
  else
    let* p := plugin_id_to_ctx_locked id s in
    Ret (map (fun i => (cb, [ctx_id p.2; i])) (elements (cpu_ht s))).

(** ** Dynamic callbacks *)

Inductive qemu_plugin_cb_flags := CB_NO_REGS | CB_R_REGS | CB_RW_REGS.
Inductive plugin_dyn_cb_subtype := PLUGIN_CB_REGULAR | PLUGIN_CB_INLINE.

Definition QEMU_PLUGIN_MEM_R : Z := 1.
Definition QEMU_PLUGIN_MEM_W : Z := 2.
Definition QEMU_PLUGIN_MEM_RW : Z := 3.

Definition TCG_CALL_NO_READ_GLOBALS : Z := 0x1.
Definition TCG_CALL_NO_WRITE_GLOBALS : Z := 0x2.
Definition TCG_CALL_NO_WG : Z := TCG_CALL_NO_WRITE_GLOBALS.
Definition TCG_CALL_NO_RWG : Z := TCG_CALL_NO_READ_GLOBALS.

(** [op] is [QEMU_PLUGIN_INLINE_ADD_U64] or an invalid value. *)
Inductive qemu_plugin_op := INLINE_ADD_U64 | INLINE_OTHER.

Record qemu_plugin_dyn_cb := mkDyn {
  d_f : Z;
  userp : Z;
  tcg_flags : Z;
  d_type : plugin_dyn_cb_subtype;
  rw : Z;
  d_op : qemu_plugin_op;
  d_imm : Z;
}.

Definition cb_to_tcg_flags (flags : qemu_plugin_cb_flags) : Z :=
  match flags with
  | CB_RW_REGS => 0
  | CB_R_REGS => TCG_CALL_NO_WG
  | CB_NO_REGS => TCG_CALL_NO_RWG
  end.

(** Each appends one record to a callback array. *)
Definition plugin_register_inline_op (arr : list qemu_plugin_dyn_cb) (rw : Z) (op : qemu_plugin_op)
  (ptr imm : Z) : list qemu_plugin_dyn_cb := arr ++ [mkDyn 0 ptr 0 PLUGIN_CB_INLINE rw op imm].

Definition plugin_register_dyn_cb__udata (arr : list qemu_plugin_dyn_cb) (cb : Z)
  (flags : qemu_plugin_cb_flags) (udata : Z) : list qemu_plugin_dyn_cb :=
  arr ++ [mkDyn cb udata (cb_to_tcg_flags flags) PLUGIN_CB_REGULAR 0 INLINE_ADD_U64 0].

Definition plugin_register_vcpu_mem_cb (arr : list qemu_plugin_dyn_cb) (cb : Z)
  (flags : qemu_plugin_cb_flags) (rw udata : Z) : list qemu_plugin_dyn_cb :=
  arr ++ [mkDyn cb udata (cb_to_tcg_flags flags) PLUGIN_CB_REGULAR rw INLINE_ADD_U64 0].

(** Counters in plugin memory that inline operations update. *)
Definition exec_inline_op (cb : qemu_plugin_dyn_cb) (m : gmap Z Z) : cres (gmap Z Z) :=
  match d_op cb with
  | INLINE_ADD_U64 => Ret (<[userp cb := u64 (default 0 (m !! userp cb) + d_imm cb)]> m)
  | INLINE_OTHER => Abort "g_assert_not_reached"
  end.

(** ** Memory access descriptors *)

Definition TRACE_MEM_SZ_SHIFT_MASK : Z := 0xf.
Definition TRACE_MEM_SE : Z := 2 ^ 4.
Definition TRACE_MEM_BE : Z := 2 ^ 5.
Definition TRACE_MEM_ST : Z := 2 ^ 6.
Definition TRACE_MEM_MMU_SHIFT : Z := 8.

Definition trace_mem_build_info (size_shift : Z) (sign_extend big_endian store : bool) (mmu_idx : Z) : Z :=
  let res := Z.land size_shift TRACE_MEM_SZ_SHIFT_MASK in
  let res := if sign_extend then Z.lor res TRACE_MEM_SE else res in
  let res := if big_endian then Z.lor res TRACE_MEM_BE else res in
  let res := if store then Z.lor res TRACE_MEM_ST else res in
  u16 (Z.lor res (Z.shiftl mmu_idx TRACE_MEM_MMU_SHIFT)).

(** The memory operation: size in the low two bits, sign, byte swap. *)
Definition MO_SIZE : Z := 3.
Definition MO_SIGN : Z := 4.
Definition MO_BSWAP : Z := 8.

Definition trace_mem_get_info (op mmu_idx : Z) (store : bool) : Z :=
  trace_mem_build_info (Z.land op MO_SIZE) (ztrue (Z.land op MO_SIGN))
    (ztrue (Z.land op MO_BSWAP)) store mmu_idx.

Definition qemu_plugin_mem_size_shift (info : Z) : Z := Z.land info TRACE_MEM_SZ_SHIFT_MASK.
Definition qemu_plugin_mem_is_sign_extended (info : Z) : bool := ztrue (Z.land info TRACE_MEM_SE).
Definition qemu_plugin_mem_is_big_endian (info : Z) : bool := ztrue (Z.land info TRACE_MEM_BE).
Definition qemu_plugin_mem_is_store (info : Z) : bool := ztrue (Z.land info TRACE_MEM_ST).

(** The memory callback of the helpers: walks the array of the instruction and
    leaves the loop at the first callback that does not want the access. *)
Fixpoint vcpu_mem_loop (arr : list qemu_plugin_dyn_cb) (cpu_index vaddr info : Z) (m : gmap Z Z)
  : cres (list call * gmap Z Z) :=
  match arr with
  | [] => Ret ([], m)
  | cb :: arr =>
      let w := b2z (qemu_plugin_mem_is_store info) + 1 in
      if negb (ztrue (Z.land w (rw cb))) then Ret ([], m)
      else
        match d_type cb with
        | PLUGIN_CB_REGULAR =>
            let* r := vcpu_mem_loop arr cpu_index vaddr info m in
            Ret ((d_f cb, [cpu_index; info; vaddr; userp cb]) :: r.1, r.2)
        | PLUGIN_CB_INLINE =>
            let* m := exec_inline_op cb m in vcpu_mem_loop arr cpu_index vaddr info m
        end
  end.

(** [None]: [cpu->plugin_mem_cbs] is NULL. *)
Definition qemu_plugin_vcpu_mem_cb (arr : option (list qemu_plugin_dyn_cb)) (cpu_index vaddr info : Z)
  (m : gmap Z Z) : cres (list call * gmap Z Z) :=
  match arr with
  | None => Ret ([], m)
  | Some arr => vcpu_mem_loop arr cpu_index vaddr info m
  end.

(** ** Well-formed subscriptions *)

(** Contexts, their callbacks and the subscription lists agree. *)
Record subs_ok (s : qemu_plugin_state) : Prop := {
  so_cb : forall p c ev, ctx_mem s !! p = Some c -> callbacks c ev <> 0 ->
    callbacks c ev ∈ cb_lists s ev /\
    exists r, cb_mem s !! callbacks c ev = Some r /\ cb_ctx r = p;
  so_inj : forall p c ev ev', ctx_mem s !! p = Some c -> callbacks c ev <> 0 ->
    callbacks c ev = callbacks c ev' -> ev = ev';
  so_list : forall ev q, q ∈ cb_lists s ev ->
    q <> 0 /\ exists r c, cb_mem s !! q = Some r /\ ctx_mem s !! cb_ctx r = Some c /\ callbacks c ev = q;
  so_nodup : forall ev, NoDup (cb_lists s ev);
  so_mask : forall ev, Z.testbit (mask s) (ev_bit ev) = true <-> cb_lists s ev <> [];
}.

(** The table of ids finds every context. *)
Record ids_ok (s : qemu_plugin_state) : Prop := {
  io_ctx : forall p c, ctx_mem s !! p = Some c ->
    id_ht s !! ctx_id c = Some (p + id_offset) /\ 0 < p < 2 ^ 64 - id_offset;
  io_id : forall id q, id_ht s !! id = Some q ->
    exists c, ctx_mem s !! (q - id_offset) = Some c /\ ctx_id c = id;
}.

(** Every registered vCPU has, or is about to get, the current mask. *)
Record cpus_ok (s : qemu_plugin_state) : Prop := {
  co_mask : forall i, i ∈ cpu_ht s ->
    exists v, cpus s !! i = Some v /\ plugin_mask (run_queued v) = mask s;
  co_created : forall i v, cpus s !! i = Some v -> v_created v = false -> queued_masks v = [];
}.

Definition wf (s : qemu_plugin_state) : Prop := subs_ok s /\ ids_ok s /\ cpus_ok s.

Lemma ev_bit_inj ev ev' : ev_bit ev = ev_bit ev' -> ev = ev'.
Proof. by destruct ev, ev'. Qed.

Lemma ev_bit_nonneg ev : 0 <= ev_bit ev.
Proof. by destruct ev. Qed.

Lemma aset_eq {A} (f : qemu_plugin_event -> A) ev a : aset f ev a ev = a.
Proof. unfold aset. by rewrite decide_True. Qed.

Lemma aset_ne {A} (f : qemu_plugin_event -> A) ev ev' a : ev' <> ev -> aset f ev a ev' = f ev'.
Proof. intros H. unfold aset. by rewrite decide_False. Qed.

Lemma run_queued_update m v :
  (v_created v = false -> queued_masks v = []) ->
  plugin_mask (run_queued (plugin_cpu_update__locked m v)) = m.
Proof.
  intros H. unfold plugin_cpu_update__locked. destruct (v_created v) eqn:E; unfold run_queued; simpl.
  - by rewrite foldl_app.
  - by rewrite (H eq_refl).
Qed.

(** Broadcasting the mask establishes the vCPU part of the invariant. *)
Lemma update_cpus_ok s :
  (forall i, i ∈ cpu_ht s -> is_Some (cpus s !! i)) ->
  (forall i v, cpus s !! i = Some v -> v_created v = false -> queued_masks v = []) ->
  cpus_ok (update_cpus s).
Proof.
  intros Hin Hq. split; cbn [cpu_ht cpus mask update_cpus set_vcpus].
  - intros i Hi. destruct (Hin i Hi) as [v Hv]. rewrite map_lookup_imap, Hv. simpl.
    rewrite bool_decide_eq_true_2 by done. eexists. split; [done|]. apply run_queued_update. eauto.
  - intros i v. rewrite map_lookup_imap. destruct (cpus s !! i) as [w|] eqn:Hw; [|done]. simpl.
    intros [= <-]. case_bool_decide; [|by eauto]. unfold plugin_cpu_update__locked.
    destruct (v_created w) eqn:E; simpl; [congruence|by eauto].
Qed.

Lemma cpus_ok_in s : cpus_ok s -> forall i, i ∈ cpu_ht s -> is_Some (cpus s !! i).
Proof. intros H i Hi. destruct (co_mask s H i Hi) as (v & -> & _). by eexists. Qed.

Lemma cpus_ok_same s s' :
  cpus_ok s -> cpus s' = cpus s -> cpu_ht s' = cpu_ht s -> mask s' = mask s -> cpus_ok s'.
Proof. intros [H1 H2] E1 E2 E3. split; rewrite E1, ?E2, ?E3; eauto. Qed.

Lemma subs_ok_same s s' :
  subs_ok s -> ctx_mem s' = ctx_mem s -> cb_lists s' = cb_lists s -> cb_mem s' = cb_mem s ->
  mask s' = mask s -> subs_ok s'.
Proof. intros [H1 H2 H3 H4 H5] E1 E2 E3 E4. split; rewrite ?E1, ?E2, ?E3, ?E4; eauto. Qed.

(** Changing the callbacks of a context does not touch its id. *)
Lemma ids_ok_callbacks s p c f l m n cs :
  ids_ok s -> ctx_mem s !! p = Some c ->
  ids_ok (mkPlugin (ctxs s) (<[p := set_callbacks c f]> (ctx_mem s)) l m (id_ht s) (cpu_ht s) cs n
            (lock s) (dyn_cb_arr_ht s)).
Proof.
  intros [H1 H2] Hp. split; cbn [ctx_mem id_ht].
  - intros p' c'. rewrite lookup_insert_Some. intros [[<- <-]|[Hne Hc]]; [by apply (H1 p c)|by apply H1].
  - intros id q Hq. destruct (H2 id q Hq) as (c' & Hc' & <-).
    destruct (decide (q - id_offset = p)) as [E|E].
    + subst p. rewrite lookup_insert_eq. eexists. split; [done|]. rewrite Hc' in Hp. by injection Hp as ->.
    + rewrite lookup_insert_ne by done. by eauto.
Qed.

(** ** Looking a plugin up *)

Lemma id_to_ctx_ok s p c :
  ids_ok s -> ctx_mem s !! p = Some c -> plugin_id_to_ctx_locked (ctx_id c) s = Ret (p, c).
Proof.
  intros [H1 _] Hp. destruct (H1 p c Hp) as [Hid Hr]. unfold plugin_id_to_ctx_locked, id_offset in *.
  rewrite Hid. simpl. replace (p + 8 - 8) with p by lia. rewrite u64_small by lia.
  destruct (Z.eqb_spec p 0); [lia|]. by rewrite Hp.
Qed.

Lemma id_to_ctx_inv s id p c :
  ids_ok s -> is_Some (id_ht s !! id) -> plugin_id_to_ctx_locked id s = Ret (p, c) ->
  ctx_mem s !! p = Some c /\ ctx_id c = id.
Proof.
  intros H [q Hq]. destruct (io_id s H id q Hq) as (c' & Hc' & <-).
  rewrite (id_to_ctx_ok s _ c' H Hc'). by intros [= <- <-].
Qed.

(** ** Unsubscribing *)

Definition unsubscribe (s : qemu_plugin_state) (p : Z) (c : qemu_plugin_ctx) (ev : qemu_plugin_event)
  : qemu_plugin_state :=
  set_cb_state s (<[p := set_callbacks c (aset (callbacks c) ev 0)]> (ctx_mem s))
    (aset (cb_lists s) ev (filter (fun q => q <> callbacks c ev) (cb_lists s ev)))
    (delete (callbacks c ev) (cb_mem s)).

(** A mask that agrees with the lists after event [ev] changed. *)
Definition mask_at (ev : qemu_plugin_event) (b : bool) (m : Z) : Z :=
  if b then Z.setbit m (ev_bit ev) else Z.clearbit m (ev_bit ev).

Lemma mask_at_spec ev ev' b m :
  Z.testbit (mask_at ev b m) (ev_bit ev') = if decide (ev' = ev) then b else Z.testbit m (ev_bit ev').
Proof.
  pose proof (ev_bit_nonneg ev). pose proof (ev_bit_nonneg ev'). unfold mask_at.
  destruct (decide (ev' = ev)) as [->|Hne].
  - destruct b; [by apply Z.setbit_eq|by apply Z.clearbit_eq].
  - assert (ev_bit ev <> ev_bit ev') by (intros E; by apply Hne, ev_bit_inj).
    destruct b; [by apply Z.setbit_neq|by apply Z.clearbit_neq].
Qed.

Lemma unsubscribe_ok s p c ev m' :
  subs_ok s -> ctx_mem s !! p = Some c -> callbacks c ev <> 0 ->
  (forall ev', Z.testbit m' (ev_bit ev') = true <-> cb_lists (unsubscribe s p c ev) ev' <> []) ->
  subs_ok (set_mask (unsubscribe s p c ev) m').
Proof.
  intros H Hp Hcb Hm. destruct (so_cb s H p c ev Hp Hcb) as (_ & r0 & Hr0 & Hx0).
  assert (forall p' c' ev', ctx_mem s !! p' = Some c' -> callbacks c' ev' <> 0 ->
    (p', ev') <> (p, ev) -> callbacks c' ev' <> callbacks c ev) as Hother.
  { intros p' c' ev' Hc' Hq Hne E. destruct (so_cb s H p' c' ev' Hc' Hq) as (_ & r & Hr & Hx).
    rewrite E in Hr. assert (p' = p) as -> by congruence. assert (c' = c) as -> by congruence.
    apply Hne. f_equal. symmetry. by apply (so_inj s H p c). }
  split; cbn [ctx_mem cb_lists cb_mem mask set_mask unsubscribe set_cb_state].
  - intros p' c' ev'. rewrite lookup_insert_Some. intros [[-> <-]|[Hne Hc']] Hq; cbn [callbacks set_callbacks] in *.
    + destruct (decide (ev' = ev)) as [->|Hev]; [by rewrite aset_eq in Hq|]. rewrite aset_ne in Hq |- * by done.
      rewrite aset_ne by done. destruct (so_cb s H p' c ev' Hp Hq) as (? & r & Hr & ?). split; [done|].
      exists r. rewrite lookup_delete_ne; [done|]. apply not_eq_sym, (Hother p' c ev'); congruence.
    + destruct (so_cb s H p' c' ev' Hc' Hq) as (Hin & r & Hr & ?).
      assert (callbacks c' ev' <> callbacks c ev) as Hd by (apply (Hother p'); congruence).
      split; [|exists r; by rewrite lookup_delete_ne].
      destruct (decide (ev' = ev)) as [->|Hev]; [rewrite aset_eq; by apply list_elem_of_filter|by rewrite aset_ne].
  - intros p' c' ev1 ev2. rewrite lookup_insert_Some. intros [[-> <-]|[Hne Hc']]; cbn [callbacks set_callbacks];
      [|by apply (so_inj s H p')]. unfold aset. repeat case_decide; subst; try done; try congruence.
    by eapply (so_inj s H).
  - intros ev' q Hq.
    assert (q ∈ cb_lists s ev' /\ (ev' = ev -> q <> callbacks c ev)) as [Hq1 Hq2].
    { destruct (decide (ev' = ev)) as [->|Hev]; [rewrite aset_eq in Hq|rewrite aset_ne in Hq by done; done].
      apply list_elem_of_filter in Hq as [? ?]. done. }
    destruct (so_list s H ev' q Hq1) as (Hq0 & r & c0 & Hr & Hc0 & Hcq). split; [done|].
    assert ((cb_ctx r, ev') <> (p, ev)) as Hpe.
    { intros [= E ->]. rewrite E, Hp in Hc0. injection Hc0 as <-. by apply Hq2. }
    assert (q <> callbacks c ev) as Hd by (rewrite <- Hcq; apply (Hother (cb_ctx r)); congruence).
    exists r. rewrite lookup_delete_ne by done. destruct (decide (cb_ctx r = p)) as [E|E].
    + rewrite E, Hp in *. injection Hc0 as <-. eexists. split; [done|]. rewrite lookup_insert_eq.
      split; [done|]. cbn. rewrite aset_ne; [done|]. congruence.
    + exists c0. by rewrite lookup_insert_ne.
  - intros ev'. destruct (decide (ev' = ev)) as [->|Hev]; [rewrite aset_eq|rewrite aset_ne by done].
    + apply list.NoDup_filter, (so_nodup s H).
    + apply (so_nodup s H).
  - exact Hm.
Qed.

(** The abstract view: the function and the data a plugin registered for an
    event. *)
Definition subscription (s : qemu_plugin_state) (p : Z) (ev : qemu_plugin_event) : option (Z * Z) :=
  match ctx_mem s !! p with
  | None => None
  | Some c =>
      if callbacks c ev =? 0 then None
      else match cb_mem s !! callbacks c ev with
           | None => None
           | Some r => Some (cb_f r, cb_udata r)
           end
  end.

(** Two subscriptions never share a record. *)
Lemma callback_unique s p c ev p' c' ev' :
  subs_ok s -> ctx_mem s !! p = Some c -> callbacks c ev <> 0 ->
  ctx_mem s !! p' = Some c' -> callbacks c' ev' = callbacks c ev -> p' = p /\ ev' = ev.
Proof.
  intros H Hp Hcb Hc' E. destruct (so_cb s H p c ev Hp Hcb) as (_ & r0 & Hr0 & Hx0).
  rewrite <- E in Hcb. destruct (so_cb s H p' c' ev' Hc' Hcb) as (_ & r & Hr & Hx).
  rewrite E in Hr. assert (p' = p) as -> by congruence. assert (c' = c) as -> by congruence.
  split; [done|]. by apply (so_inj s H p c).
Qed.

Lemma unsubscribe_view s p c ev m' p' ev' :
  subs_ok s -> ctx_mem s !! p = Some c -> callbacks c ev <> 0 ->
  subscription (set_mask (unsubscribe s p c ev) m') p' ev' =
  if decide ((p', ev') = (p, ev)) then None else subscription s p' ev'.
Proof.
  intros H Hp Hcb. unfold subscription. cbn [ctx_mem cb_mem set_mask unsubscribe set_cb_state].
  destruct (decide (p' = p)) as [->|Hne].
  - rewrite lookup_insert_eq, Hp. cbn [callbacks set_callbacks].
    destruct (decide (ev' = ev)) as [->|Hev]; [by rewrite aset_eq, decide_True|].
    rewrite aset_ne, (decide_False (P := (p, ev') = (p, ev))) by congruence.
    destruct (Z.eqb_spec (callbacks c ev') 0) as [|Hq]; [done|].
    rewrite lookup_delete_ne; [done|]. intros E. apply Hev.
    by eapply (callback_unique s p c ev p c ev').
  - rewrite lookup_insert_ne, decide_False by congruence.
    destruct (ctx_mem s !! p') as [c'|] eqn:Hc'; [|done].
    destruct (Z.eqb_spec (callbacks c' ev') 0) as [|Hq]; [done|].
    rewrite lookup_delete_ne; [done|]. intros E. apply Hne.
    by eapply (callback_unique s p c ev p' c' ev').
Qed.

(** The same plugin, with other callbacks. *)
Definition same_plugin (c c' : qemu_plugin_ctx) : Prop :=
  ctx_id c' = ctx_id c /\ ctx_desc c' = ctx_desc c /\ installing c' = installing c /\
  uninstalling c' = uninstalling c /\ resetting c' = resetting c.

(** All but the subscriptions and the masks. *)
Definition same_tables (s s' : qemu_plugin_state) : Prop :=
  id_ht s' = id_ht s /\ ctxs s' = ctxs s /\ lock s' = lock s /\ cpu_ht s' = cpu_ht s /\
  dyn_cb_arr_ht s' = dyn_cb_arr_ht s.

Lemma unregister_wf s p c ev :
  wf s -> ctx_mem s !! p = Some c ->
  exists s' c', plugin_unregister_cb__locked p ev s = Ret s' /\ wf s' /\ same_tables s s' /\
    ctx_mem s' !! p = Some c' /\ same_plugin c c' /\
    (forall ev', callbacks c' ev' = if decide (ev' = ev) then 0 else callbacks c ev') /\
    (forall p', p' <> p -> ctx_mem s' !! p' = ctx_mem s !! p') /\
    (forall p' ev', subscription s' p' ev' =
       if decide ((p', ev') = (p, ev)) then None else subscription s p' ev').
Proof.
  intros (Hs & Hi & Hc) Hp. unfold plugin_unregister_cb__locked. rewrite Hp.
  destruct (Z.eqb_spec (callbacks c ev) 0) as [E|E].
  { exists s, c. split_and!; try done; [intros ev'; by case_decide; subst|].
    intros p' ev'. case_decide; [|done]. simplify_eq. unfold subscription. by rewrite Hp, E. }
  fold (unsubscribe s p c ev).
  set (l := filter (fun q => q <> callbacks c ev) (cb_lists s ev)).
  set (m' := if bool_decide (l = []) then Z.clearbit (mask s) (ev_bit ev) else mask s).
  assert (subs_ok (set_mask (unsubscribe s p c ev) m')) as Hs'.
  { apply unsubscribe_ok; try done. intros ev'. cbn [cb_lists unsubscribe set_cb_state]. fold l.
    unfold m'. destruct (decide (ev' = ev)) as [->|Hev].
    - rewrite aset_eq. case_bool_decide as Hl.
      + change (Z.clearbit ?m _) with (mask_at ev false m). rewrite mask_at_spec, decide_True by done.
        split; [done|]. congruence.
      + rewrite (so_mask s Hs). destruct (so_cb s Hs p c ev Hp E) as [Hin _].
        split; [done|]. intros _ Hn. rewrite Hn in Hin. by apply not_elem_of_nil in Hin.
    - rewrite aset_ne by done. rewrite <- (so_mask s Hs). case_bool_decide; [|done].
      change (Z.clearbit ?m _) with (mask_at ev false m). by rewrite mask_at_spec, decide_False. }
  exists (if bool_decide (l = []) then update_cpus (set_mask (unsubscribe s p c ev) m') else unsubscribe s p c ev),
    (set_callbacks c (aset (callbacks c) ev 0)).
  assert (ids_ok (set_mask (unsubscribe s p c ev) m')) as Hi'
    by exact (ids_ok_callbacks s p c _ _ _ _ _ Hi Hp).
  split_and!.
  - unfold m'. by case_bool_decide.
  - unfold m' in *. case_bool_decide as Hl.
    + split_and!; [by eapply subs_ok_same|destruct Hi' as [H1 H2]; by split|].
      apply update_cpus_ok; [apply (cpus_ok_in s Hc)|apply (co_created s Hc)].
    + split_and!; [by eapply subs_ok_same|destruct Hi' as [H1 H2]; by split|by eapply cpus_ok_same].
  - by case_bool_decide.
  - by case_bool_decide; cbn; rewrite lookup_insert_eq.
  - done.
  - intros ev'. done.
  - intros p' Hne. by case_bool_decide; cbn; rewrite lookup_insert_ne.
  - intros p' ev'. rewrite <- (unsubscribe_view s p c ev m' p' ev' Hs Hp E). by case_bool_decide.
Qed.

(** ** Subscribing *)

Definition subscribe (s : qemu_plugin_state) (p : Z) (c : qemu_plugin_ctx) (ev : qemu_plugin_event)
  (new func udata : Z) : qemu_plugin_state :=
  set_cb_state s (<[p := set_callbacks c (aset (callbacks c) ev new)]> (ctx_mem s))
    (aset (cb_lists s) ev (new :: cb_lists s ev)) (<[new := mkCb p func udata]> (cb_mem s)).

Lemma subscribe_ok s p c ev new func udata m' :
  subs_ok s -> ctx_mem s !! p = Some c -> callbacks c ev = 0 -> new <> 0 -> cb_mem s !! new = None ->
  (forall ev', Z.testbit m' (ev_bit ev') = true <-> cb_lists (subscribe s p c ev new func udata) ev' <> []) ->
  subs_ok (set_mask (subscribe s p c ev new func udata) m').
Proof.
  intros H Hp Hcb Hn Hfresh Hm.
  assert (forall p' c' ev', ctx_mem s !! p' = Some c' -> callbacks c' ev' <> new) as Hnew.
  { intros p' c' ev' Hc' E. destruct (so_cb s H p' c' ev' Hc') as (_ & r & Hr & _); congruence. }
  split; cbn [ctx_mem cb_lists cb_mem mask set_mask subscribe set_cb_state].
  - intros p' c' ev'. rewrite lookup_insert_Some. intros [[<- <-]|[Hne Hc']] Hq; cbn [callbacks set_callbacks] in *.
    + destruct (decide (ev' = ev)) as [->|Hev].
      * rewrite !aset_eq. split; [by left|]. exists (mkCb p func udata). by rewrite lookup_insert_eq.
      * rewrite aset_ne in Hq |- * by done. rewrite aset_ne by done.
        destruct (so_cb s H p c ev' Hp Hq) as (? & r & Hr & ?). split; [done|].
        exists r. by rewrite lookup_insert_ne by (apply not_eq_sym; by eapply Hnew).
    + destruct (so_cb s H p' c' ev' Hc' Hq) as (Hin & r & Hr & ?).
      split; [|exists r; by rewrite lookup_insert_ne by (apply not_eq_sym; by eapply Hnew)].
      destruct (decide (ev' = ev)) as [->|Hev]; [rewrite aset_eq; by right|by rewrite aset_ne].
  - intros p' c' ev1 ev2. rewrite lookup_insert_Some. intros [[<- <-]|[Hne Hc']]; cbn [callbacks set_callbacks];
      [|by apply (so_inj s H p')]. unfold aset. repeat case_decide; subst; try done.
    + intros _ E. by destruct (Hnew _ _ ev2 Hp).
    + intros _ E. by destruct (Hnew _ _ ev1 Hp).
    + by eapply (so_inj s H).
  - intros ev' q Hq. destruct (decide (ev' = ev /\ q = new)) as [[-> ->]|Hno].
    + split; [done|]. exists (mkCb p func udata), (set_callbacks c (aset (callbacks c) ev new)).
      cbn [cb_ctx]. rewrite !lookup_insert_eq. split_and!; [done..|]. cbn [callbacks set_callbacks]. by rewrite aset_eq.
    + assert (q ∈ cb_lists s ev') as Hq1.
      { destruct (decide (ev' = ev)) as [->|Hev]; [rewrite aset_eq in Hq|by rewrite aset_ne in Hq].
        apply elem_of_cons in Hq as [->|]; [|done]. by destruct Hno. }
      destruct (so_list s H ev' q Hq1) as (Hq0 & r & c0 & Hr & Hc0 & Hcq). split; [done|].
      exists r. rewrite lookup_insert_ne by congruence. destruct (decide (cb_ctx r = p)) as [E|E].
      * rewrite E, Hp in *. injection Hc0 as <-. eexists. split; [done|]. rewrite lookup_insert_eq.
        split; [done|]. cbn. rewrite aset_ne; [done|]. congruence.
      * exists c0. by rewrite lookup_insert_ne.
  - intros ev'. destruct (decide (ev' = ev)) as [->|Hev]; [rewrite aset_eq|rewrite aset_ne by done; apply (so_nodup s H)].
    constructor; [|apply (so_nodup s H)]. intros Hin. destruct (so_list s H ev new Hin) as (_ & r & ? & ? & _). congruence.
  - exact Hm.
Qed.

Lemma subscribe_view s p c ev new func udata m' p' ev' :
  subs_ok s -> ctx_mem s !! p = Some c -> new <> 0 -> cb_mem s !! new = None ->
  subscription (set_mask (subscribe s p c ev new func udata) m') p' ev' =
  if decide ((p', ev') = (p, ev)) then Some (func, udata) else subscription s p' ev'.
Proof.
  intros H Hp Hn Hfresh. unfold subscription. cbn [ctx_mem cb_mem set_mask subscribe set_cb_state].
  assert (forall p' c' ev', ctx_mem s !! p' = Some c' -> callbacks c' ev' <> new) as Hnew.
  { intros q c' e Hc' E. destruct (so_cb s H q c' e Hc') as (_ & r & Hr & _); congruence. }
  destruct (decide (p' = p)) as [->|Hne].
  - rewrite lookup_insert_eq, Hp. cbn [callbacks set_callbacks].
    destruct (decide (ev' = ev)) as [->|Hev].
    + rewrite aset_eq, lookup_insert_eq, decide_True by done. by destruct (Z.eqb_spec new 0).
    + rewrite aset_ne, (decide_False (P := (p, ev') = (p, ev))) by congruence.
      by rewrite lookup_insert_ne by (apply not_eq_sym; by eapply Hnew).
  - rewrite lookup_insert_ne, decide_False by congruence.
    destruct (ctx_mem s !! p') as [c'|] eqn:Hc'; [|done].
    by rewrite lookup_insert_ne by (apply not_eq_sym; by eapply Hnew).
Qed.

Lemma wf_subscribe s p c ev new func udata :
  wf s -> ctx_mem s !! p = Some c -> callbacks c ev = 0 -> new <> 0 -> cb_mem s !! new = None ->
  let s1 := subscribe s p c ev new func udata in
  wf (if negb (Z.testbit (mask s) (ev_bit ev))
      then update_cpus (set_mask s1 (Z.setbit (mask s) (ev_bit ev))) else s1).
Proof.
  intros (Hs & Hi & Hc) Hp Hcb Hn Hf s1.
  assert (subs_ok (set_mask s1 (Z.setbit (mask s) (ev_bit ev)))) as Hs1.
  { apply subscribe_ok; try done. intros ev'. change (Z.setbit ?m _) with (mask_at ev true m).
    rewrite mask_at_spec. cbn [cb_lists subscribe set_cb_state]. destruct (decide (ev' = ev)) as [->|Hev].
    - by rewrite aset_eq.
    - rewrite aset_ne by done. apply (so_mask s Hs). }
  assert (ids_ok s1) as Hi1 by exact (ids_ok_callbacks s p c _ _ _ _ _ Hi Hp).
  destruct (Z.testbit (mask s) (ev_bit ev)) eqn:Hb; cbn [negb]; split_and!.
  - split; try (apply Hs1). intros ev'. change (mask s1) with (mask s).
    rewrite <- (so_mask _ Hs1 ev'). cbn [mask set_mask]. change (Z.setbit ?m _) with (mask_at ev true m).
    rewrite mask_at_spec. case_decide; subst; [|done]. by rewrite Hb.
  - done.
  - by eapply cpus_ok_same.
  - by eapply subs_ok_same.
  - destruct Hi1 as [H1 H2]. by split.
  - apply update_cpus_ok; [apply (cpus_ok_in s Hc)|apply (co_created s Hc)].
Qed.

(** Another function for an existing subscription. *)
Lemma wf_replace s cb r func udata :
  wf s -> cb_mem s !! cb = Some r ->
  wf (set_cb_state s (ctx_mem s) (cb_lists s) (<[cb := mkCb (cb_ctx r) func udata]> (cb_mem s))).
Proof.
  intros (Hs & Hi & Hc) Hr.
  assert (forall q r', cb_mem s !! q = Some r' -> exists r2,
    <[cb := mkCb (cb_ctx r) func udata]> (cb_mem s) !! q = Some r2 /\ cb_ctx r2 = cb_ctx r') as HX.
  { intros q r' Hq. destruct (decide (q = cb)) as [->|Hne].
    - rewrite lookup_insert_eq. eexists. split; [done|]. by rewrite Hr in Hq; injection Hq as <-.
    - rewrite lookup_insert_ne by done. by exists r'. }
  split_and!; [|destruct Hi as [H1 H2]; by split|by eapply cpus_ok_same].
  split; cbn [ctx_mem cb_lists cb_mem mask set_cb_state]; try apply Hs.
  - intros p c ev Hp Hne. destruct (so_cb s Hs p c ev Hp Hne) as (? & r' & Hr' & Hx). split; [done|].
    destruct (HX _ _ Hr') as (r2 & ? & ?). exists r2. split; congruence.
  - intros ev q Hq. destruct (so_list s Hs ev q Hq) as (? & r' & c & Hr' & Hc' & ?). split; [done|].
    destruct (HX _ _ Hr') as (r2 & ? & E). exists r2, c. rewrite E. done.
Qed.

(** Registration, with what it keeps of the plugin's own context. *)
Lemma register_cb_ok new s p c ev func udata :
  wf s -> ctx_mem s !! p = Some c -> new <> 0 -> cb_mem s !! new = None ->
  exists s', do_plugin_register_cb new (ctx_id c) ev func udata s = Ret s' /\ wf s' /\
    same_tables s s' /\ (exists c', ctx_mem s' !! p = Some c' /\ same_plugin c c') /\
    forall p' ev', subscription s' p' ev' =
      if decide ((p', ev') = (p, ev) /\ uninstalling c = false)
      then (if func =? 0 then None else Some (func, udata)) else subscription s p' ev'.
Proof.
  intros Hwf Hp Hn Hf. pose proof Hwf as (Hs & Hi & Hc). unfold do_plugin_register_cb.
  rewrite (id_to_ctx_ok s p c Hi Hp). cbn [cbind].
  destruct (uninstalling c).
  { exists s. split_and!; try done; [by exists c|]. intros p' ev'. case_decide as Hd; [by destruct Hd|done]. }
  assert (forall (A : Type) p' ev' (x y : A), (if decide ((p', ev') = (p, ev) /\ false = false) then x else y) =
    if decide ((p', ev') = (p, ev)) then x else y) as Hdec.
  { intros A p' ev' x y. destruct (decide ((p', ev') = (p, ev))); [by rewrite decide_True|].
    rewrite decide_False; [done|]. by intros [? _]. }
  destruct (Z.eqb_spec func 0) as [->|Hfunc].
  { destruct (unregister_wf s p c ev Hwf Hp) as (s' & c' & -> & Hwf' & Ht & Hp' & Hsp & _ & _ & Hv).
    exists s'. split_and!; try done; [by exists c'|]. intros p' ev'. rewrite Hdec. apply Hv. }
  destruct (Z.eqb_spec (callbacks c ev) 0) as [E|E]; cbn [negb].
  - fold (subscribe s p c ev new func udata).
    pose proof (wf_subscribe s p c ev new func udata Hwf Hp E Hn Hf) as Hw. cbn zeta in Hw.
    eexists. split; [|split; [exact Hw|]].
    + cbn [mask subscribe set_cb_state]. by destruct (Z.testbit (mask s) (ev_bit ev)).
    + split; [by destruct (Z.testbit (mask s) (ev_bit ev))|]. split.
      { eexists. split; [by destruct (Z.testbit (mask s) (ev_bit ev)); cbn; apply lookup_insert_eq|done]. }
      intros p' ev'. rewrite Hdec.
      rewrite <- (subscribe_view s p c ev new func udata (mask s) p' ev' Hs Hp Hn Hf).
      by destruct (Z.testbit (mask s) (ev_bit ev)).
  - destruct (so_cb s Hs p c ev Hp E) as (_ & r & Hr & _). rewrite Hr.
    eexists. split; [done|]. split; [by apply wf_replace|]. split; [done|]. split; [by exists c|].
    intros p' ev'. rewrite Hdec. unfold subscription. cbn [ctx_mem cb_mem set_cb_state].
    destruct (ctx_mem s !! p') as [c'|] eqn:Hc'; [|by rewrite decide_False by congruence].
    destruct (decide (callbacks c' ev' = callbacks c ev)) as [Hq|Hq].
    + destruct (callback_unique s p c ev p' c' ev' Hs Hp E Hc' Hq) as [-> ->].
      rewrite Hq, lookup_insert_eq, decide_True by done. by destruct (Z.eqb_spec (callbacks c ev) 0).
    + rewrite lookup_insert_ne by done. rewrite decide_False; [done|].
      intros [= -> ->]. apply Hq. congruence.
Qed.

(** C36: registering a callback implements an update of the table "function
    and data per plugin and event": it sets the entry (or clears it for a null
    function), changes no other entry, ignores a plugin on its way out, and
    keeps the lists, the mask and every vCPU's copy of the mask consistent. *)
Theorem register_cb_refines new s p c ev func udata :
  wf s -> ctx_mem s !! p = Some c -> new <> 0 -> cb_mem s !! new = None ->
  exists s', do_plugin_register_cb new (ctx_id c) ev func udata s = Ret s' /\ wf s' /\
    same_tables s s' /\
    forall p' ev', subscription s' p' ev' =
      if decide ((p', ev') = (p, ev) /\ uninstalling c = false)
      then (if func =? 0 then None else Some (func, udata)) else subscription s p' ev'.
Proof.
  intros Hwf Hp Hn Hf. destruct (register_cb_ok new s p c ev func udata Hwf Hp Hn Hf) as (s' & ? & ? & ? & _ & ?).
  by exists s'.
Qed.

(** ** Who is called *)

Lemma run_cbs_ok args l s :
  (forall q, q ∈ l -> exists r c, cb_mem s !! q = Some r /\ ctx_mem s !! cb_ctx r = Some c) ->
  exists calls, run_cbs args l s = Ret calls /\
    Forall2 (fun q (k : call) => exists r c, cb_mem s !! q = Some r /\ ctx_mem s !! cb_ctx r = Some c /\
      k = (cb_f r, ctx_id c :: args r)) l calls.
Proof.
  induction l as [|q l IH]; intros H; cbn [run_cbs].
  { exists []. by split; [|constructor]. }
  destruct (H q) as (r & c & Hr & Hc); [by left|]. rewrite Hr, Hc.
  destruct IH as (calls & -> & Hf); [intros q' Hq'; apply H; by right|]. cbn [cbind].
  eexists. split; [done|]. constructor; [by eauto 10|done].
Qed.

(** The events dispatched with the plugin id and the vCPU index. *)
Definition vcpu_simple_event (ev : qemu_plugin_event) : bool :=
  match ev with
  | EV_VCPU_INIT | EV_VCPU_EXIT | EV_VCPU_IDLE | EV_VCPU_RESUME => true
  | _ => false
  end.

Lemma wf_list_mem s ev q : wf s -> q ∈ cb_lists s ev ->
  exists r c, cb_mem s !! q = Some r /\ ctx_mem s !! cb_ctx r = Some c.
Proof. intros (Hs & _) Hq. destruct (so_list s Hs ev q Hq) as (_ & r & c & ? & ? & _). eauto. Qed.

(** Two contexts have two ids. *)
Lemma ctx_id_inj s p p' c c' :
  ids_ok s -> ctx_mem s !! p = Some c -> ctx_mem s !! p' = Some c' -> ctx_id c = ctx_id c' -> p = p'.
Proof.
  intros H Hp Hp' E. destruct (io_ctx s H p c Hp) as [H1 _], (io_ctx s H p' c' Hp') as [H2 _].
  rewrite E in H1. rewrite H1 in H2. unfold id_offset in H2. injection H2. lia.
Qed.

(** A call list in which record and plugin id determine each other. *)
Lemma call_ids_nodup s ev args l calls :
  wf s -> (forall q, q ∈ l -> q ∈ cb_lists s ev) -> NoDup l ->
  Forall2 (fun q (k : call) => exists r c, cb_mem s !! q = Some r /\ ctx_mem s !! cb_ctx r = Some c /\
      k = (cb_f r, ctx_id c :: args r)) l calls ->
  NoDup (map (fun k : call => hd 0 k.2) calls).
Proof.
  intros Hwf Hsub Hnd Hf. induction Hf as [|q k l calls Hk Hf IH]; [constructor|].
  inversion Hnd as [|? ? Hq Hnd']; subst. cbn [map].
  constructor; [|apply IH; [intros; apply Hsub; by right|done]].
  intros (k' & E & Hk')%list_elem_of_fmap. apply Hq.
  apply list_elem_of_lookup in Hk' as [j Hj].
  destruct (Forall2_lookup_r _ _ _ _ _ Hf Hj) as (q' & Hq' & r' & c' & Hr' & Hc' & ->).
  destruct Hk as (r & c & Hr & Hc & ->). cbn in E.
  destruct Hwf as (Hs & Hi & _).
  pose proof (ctx_id_inj s _ _ c c' Hi Hc Hc' E) as Hp.
  apply list_elem_of_lookup_2 in Hq'.
  destruct (so_list s Hs ev q) as (_ & r1 & c1 & Hr1 & Hc1 & <-); [apply Hsub; by left|].
  destruct (so_list s Hs ev q') as (_ & r2 & c2 & Hr2 & Hc2 & Hq2); [apply Hsub; by right|].
  assert (c1 = c2) as -> by congruence. by rewrite Hq2.
Qed.

(** A vCPU hook calls every plugin subscribed to its event once, with the
    function it registered, its id and the vCPU's index, and calls no one
    else. *)
Theorem vcpu_hook_calls_subscribers s ev i :
  wf s -> vcpu_simple_event ev = true ->
  exists calls, plugin_vcpu_cb__simple i ev s = Ret calls /\
    NoDup (map (fun k : call => hd 0 k.2) calls) /\
    forall f id, (f, [id; i]) ∈ calls <->
      exists p c u, ctx_mem s !! p = Some c /\ ctx_id c = id /\ subscription s p ev = Some (f, u).
Proof.
  intros Hwf Hev. pose proof Hwf as (Hs & Hi & _).
  destruct (run_cbs_ok (fun _ => [i]) (cb_lists s ev) s) as (calls & Hr & Hf);
    [intros q Hq; by apply (wf_list_mem s ev)|].
  exists calls. split; [by destruct ev|]. split.
  { apply (call_ids_nodup s ev (fun _ => [i]) (cb_lists s ev)); [done|done|apply (so_nodup s Hs)|exact Hf]. }
  intros f id. split.
  - intros [j Hj]%list_elem_of_lookup.
    destruct (Forall2_lookup_r _ _ _ _ _ Hf Hj) as (q & Hq & r & c & Hq1 & Hc & [= -> ->]).
    apply list_elem_of_lookup_2 in Hq. destruct (so_list s Hs ev q Hq) as (Hq0 & r' & c' & Hr' & Hc' & Hcb).
    assert (r' = r) as -> by congruence. assert (c' = c) as -> by congruence.
    exists (cb_ctx r), c, (cb_udata r). split_and!; try done. unfold subscription. rewrite Hc, Hcb, Hq1.
    by destruct (Z.eqb_spec q 0).
  - intros (p & c & u & Hp & <- & Hsub). unfold subscription in Hsub. rewrite Hp in Hsub.
    destruct (Z.eqb_spec (callbacks c ev) 0) as [|Hne]; [done|].
    destruct (so_cb s Hs p c ev Hp Hne) as ([j Hj]%list_elem_of_lookup & r & Hr' & Hx). rewrite Hr' in Hsub.
    injection Hsub as <- _. destruct (Forall2_lookup_l _ _ _ _ _ Hf Hj) as (k & Hk & r2 & c2 & Hr2 & Hc2 & ->).
    assert (r2 = r) as -> by congruence. rewrite Hx, Hp in Hc2. injection Hc2 as <-.
    by eapply list_elem_of_lookup_2.
Qed.

(** Once a vCPU has applied its queued mask updates, the test of its own
    mask never suppresses a subscriber: the system call hook behaves as if it
    walked the list unconditionally. *)
Theorem vcpu_mask_exact s i v num a :
  wf s -> i ∈ cpu_ht s -> cpus s !! i = Some v -> queued_masks v = [] ->
  qemu_plugin_vcpu_syscall i num a s =
  run_cbs (fun _ => i :: num :: a) (cb_lists s EV_VCPU_SYSCALL) s.
Proof.
  intros (Hs & _ & Hc) Hi Hv Hq. unfold qemu_plugin_vcpu_syscall, masked_cbs. rewrite Hv.
  destruct (co_mask s Hc i Hi) as (v' & Hv' & Hm). rewrite Hv in Hv'. injection Hv' as <-.
  unfold run_queued in Hm. rewrite Hq in Hm. cbn in Hm. rewrite Hm.
  destruct (Z.testbit (mask s) (ev_bit EV_VCPU_SYSCALL)) eqn:Hb; [done|].
  destruct (cb_lists s EV_VCPU_SYSCALL) eqn:Hl; [done|].
  exfalso. assert (Z.testbit (mask s) (ev_bit EV_VCPU_SYSCALL) = true); [|congruence].
  apply (so_mask s Hs). by rewrite Hl.
Qed.

Lemma wf_cpu_tables s cs h :
  wf s -> cpus_ok (set_cpu_ht (set_vcpus s cs) h) -> wf (set_cpu_ht (set_vcpus s cs) h).
Proof.
  intros (Hs & [H1 H2] & _) Hc. split_and!; [by eapply subs_ok_same|by split|done].
Qed.

(** A new vCPU is registered with the current mask, whatever was
    subscribed before it existed, the hook calls the subscribers of vCPU
    creation, and the invariant is kept. *)
Theorem vcpu_init_hook_wf s i v :
  wf s -> cpus s !! i = Some v -> i ∉ cpu_ht s -> (v_created v = false -> queued_masks v = []) ->
  exists calls s', qemu_plugin_vcpu_init_hook i s = Ret (calls, s') /\ wf s' /\ i ∈ cpu_ht s' /\
    plugin_vcpu_cb__simple i EV_VCPU_INIT s = Ret calls.
Proof.
  intros Hwf Hv Hi Hq. pose proof Hwf as (_ & _ & Hc). unfold qemu_plugin_vcpu_init_hook. rewrite Hv.
  cbn [cpu_ht set_vcpus mask]. rewrite bool_decide_eq_false_2 by done. cbn [negb cassert cbind].
  set (s' := set_cpu_ht (set_vcpus s (<[i := plugin_cpu_update__locked (mask s) v]> (cpus s))) ({[i]} ∪ cpu_ht s)).
  assert (wf s') as Hwf'.
  { apply wf_cpu_tables; [done|]. split; cbn [cpus cpu_ht mask set_cpu_ht set_vcpus].
    - intros j Hj. destruct (decide (j = i)) as [->|Hne].
      + rewrite lookup_insert_eq. eexists. split; [done|]. by apply run_queued_update.
      + rewrite lookup_insert_ne by done. apply (co_mask s Hc).
        apply elem_of_union in Hj as [Hj%elem_of_singleton|]; done.
    - intros j w. rewrite lookup_insert_Some. intros [[<- <-]|[Hne Hw]]; [|by apply (co_created s Hc j)].
      unfold plugin_cpu_update__locked. destruct (v_created v) eqn:E; cbn; [congruence|by auto]. }
  destruct (run_cbs_ok (fun _ => [i]) (cb_lists s EV_VCPU_INIT) s) as (calls & Hr & _);
    [intros q Hl; by apply (wf_list_mem s EV_VCPU_INIT)|].
  exists calls, s'. split_and!; try done; [|by apply elem_of_union_l, elem_of_singleton].
  change (plugin_vcpu_cb__simple i EV_VCPU_INIT s') with (run_cbs (fun _ => [i]) (cb_lists s EV_VCPU_INIT) s').
  replace (run_cbs (fun _ => [i]) (cb_lists s EV_VCPU_INIT) s')
    with (run_cbs (fun _ => [i]) (cb_lists s EV_VCPU_INIT) s); [by rewrite Hr|].
  generalize (cb_lists s EV_VCPU_INIT). intros l. induction l as [|q l IH]; [done|].
  cbn [run_cbs]. rewrite IH. done.
Qed.

(** ** Memory callbacks *)

(** The callback wants loads or stores as the access is. *)
Definition wants (info : Z) (cb : qemu_plugin_dyn_cb) : bool :=
  ztrue (Z.land (b2z (qemu_plugin_mem_is_store info) + 1) (rw cb)).

Fixpoint take_while {A} (f : A -> bool) (l : list A) : list A :=
  match l with
  | [] => []
  | x :: l => if f x then x :: take_while f l else []
  end.

Definition is_regular (cb : qemu_plugin_dyn_cb) : bool :=
  match d_type cb with PLUGIN_CB_REGULAR => true | PLUGIN_CB_INLINE => false end.

(** The effect of the inline operations of an array. *)
Definition inline_effects (arr : list qemu_plugin_dyn_cb) (m : gmap Z Z) : gmap Z Z :=
  foldl (fun m cb => if is_regular cb then m
                     else <[userp cb := u64 (default 0 (m !! userp cb) + d_imm cb)]> m) m arr.

(** A memory access runs the callbacks of the instruction up to the first
    one that does not want its direction, calls and inline operations alike;
    callbacks behind that one are skipped even when they want the access. *)
Theorem mem_cb_runs_prefix arr i vaddr info m :
  Forall (fun cb => d_op cb = INLINE_ADD_U64) arr ->
  qemu_plugin_vcpu_mem_cb (Some arr) i vaddr info m =
  Ret (map (fun cb => (d_f cb, [i; info; vaddr; userp cb])) (filter (fun cb => is_regular cb = true) (take_while (wants info) arr)),
       inline_effects (take_while (wants info) arr) m).
Proof.
  cbn [qemu_plugin_vcpu_mem_cb]. intros H. revert m. induction H as [|cb arr Hop _ IH]; intros m; [done|].
  cbn [vcpu_mem_loop take_while]. unfold wants at 1 3. destruct (ztrue _) eqn:Hw; cbn [negb]; [|done].
  rewrite filter_cons. unfold inline_effects in *. cbn [foldl]. destruct (is_regular cb) eqn:Hr.
  - rewrite decide_True by done. unfold is_regular in Hr. destruct (d_type cb); [|done].
    rewrite IH. cbn [cbind map fst snd]. done.
  - rewrite decide_False by done. unfold is_regular in Hr. destruct (d_type cb); [done|].
    unfold exec_inline_op. rewrite Hop. cbn [cbind]. by rewrite IH.
Qed.

(** ** Descriptors *)

Lemma ztrue_land_bit x n : 0 <= n -> ztrue (Z.land x (2 ^ n)) = Z.testbit x n.
Proof. apply ztrue_land_pow2. Qed.

(** The bits of a descriptor. *)
Lemma info_bits size se be st mmu k :
  0 <= k < 16 ->
  Z.testbit (trace_mem_build_info size se be st mmu) k =
  (Z.testbit size k && (k <? 4)) || (se && (k =? 4)) || (be && (k =? 5)) || (st && (k =? 6)) ||
  ((8 <=? k) && Z.testbit mmu (k - 8)).
Proof.
  intros Hk. unfold trace_mem_build_info, u16. rewrite Z.mod_pow2_bits_low by lia.
  rewrite Z.lor_spec. f_equal.
  - assert (Z.testbit (Z.land size TRACE_MEM_SZ_SHIFT_MASK) k = Z.testbit size k && (k <? 4)) as Hs.
    { rewrite Z.land_spec. f_equal. change TRACE_MEM_SZ_SHIFT_MASK with (Z.ones 4).
      destruct (Z.ltb_spec k 4); [by rewrite Z.ones_spec_low by lia|by rewrite Z.ones_spec_high by lia]. }
    unfold TRACE_MEM_SE, TRACE_MEM_BE, TRACE_MEM_ST.
    destruct se, be, st; cbn [andb]; rewrite ?Z.lor_spec, ?Hs, ?Z.pow2_bits_eqb by lia;
      rewrite ?(Z.eqb_sym _ k), ?orb_false_r; done.
  - unfold TRACE_MEM_MMU_SHIFT. destruct (Z.leb_spec 8 k); cbn [andb].
    + by rewrite Z.shiftl_spec_high by lia.
    + by rewrite Z.shiftl_spec_low.
Qed.

(** The descriptor of a memory access round-trips: size, sign extension,
    byte order, direction and MMU index read back as they were packed. *)
Theorem meminfo_roundtrip size se be st mmu :
  0 <= size < 16 -> 0 <= mmu < 256 ->
  let info := trace_mem_build_info size se be st mmu in
  qemu_plugin_mem_size_shift info = size /\ qemu_plugin_mem_is_sign_extended info = se /\
  qemu_plugin_mem_is_big_endian info = be /\ qemu_plugin_mem_is_store info = st /\
  Z.shiftr info TRACE_MEM_MMU_SHIFT = mmu.
Proof.
  intros Hs Hm info.
  assert (0 <= info < 2 ^ 16) as Hi by (apply Z.mod_pos_bound; lia).
  split_and!; cbn [qemu_plugin_mem_is_sign_extended].
  - apply Z.bits_inj'. intros k Hk. unfold qemu_plugin_mem_size_shift. rewrite Z.land_spec.
    change TRACE_MEM_SZ_SHIFT_MASK with (Z.ones 4). destruct (Z.lt_ge_cases k 4).
    + rewrite Z.ones_spec_low, andb_true_r by lia. unfold info. rewrite info_bits by lia.
      destruct (Z.ltb_spec k 4), (Z.eqb_spec k 4), (Z.eqb_spec k 5), (Z.eqb_spec k 6), (Z.leb_spec 8 k); try lia.
      by rewrite !andb_false_r, !orb_false_r, andb_true_r.
    + rewrite Z.ones_spec_high, andb_false_r by lia. symmetry. by apply (testbit_small size 4 k).
  - unfold qemu_plugin_mem_is_sign_extended, TRACE_MEM_SE. rewrite ztrue_land_bit by lia.
    unfold info. rewrite info_bits by lia. by destruct (Z.testbit size 4), se, be, st.
  - unfold qemu_plugin_mem_is_big_endian, TRACE_MEM_BE. rewrite ztrue_land_bit by lia.
    unfold info. rewrite info_bits by lia. by destruct (Z.testbit size 5), se, be, st.
  - unfold qemu_plugin_mem_is_store, TRACE_MEM_ST. rewrite ztrue_land_bit by lia.
    unfold info. rewrite info_bits by lia. by destruct (Z.testbit size 6), se, be, st.
  - apply Z.bits_inj'. intros k Hk. rewrite Z.shiftr_spec by lia. unfold TRACE_MEM_MMU_SHIFT.
    destruct (Z.lt_ge_cases k 8).
    + unfold info. rewrite info_bits by lia.
      destruct (Z.ltb_spec (k + 8) 4), (Z.eqb_spec (k + 8) 4), (Z.eqb_spec (k + 8) 5), (Z.eqb_spec (k + 8) 6),
        (Z.leb_spec 8 (k + 8)); try lia.
      rewrite !andb_false_r. cbn [orb andb]. f_equal. lia.
    + rewrite (testbit_small info 16) by lia. symmetry. by apply (testbit_small mmu 8).
Qed.

(** ** Concrete instances *)

(** Two plugins without subscriptions and two vCPUs, one of them registered. *)
Definition demo_ctx (id : Z) : qemu_plugin_ctx := mkCtx id (fun _ => 0) id false false false.
Definition demo_plugins : qemu_plugin_state :=
  mkPlugin [0x1000; 0x2000] {[0x1000 := demo_ctx 11; 0x2000 := demo_ctx 22]} (fun _ => []) ∅
    {[11 := 0x1008; 22 := 0x2008]} {[0]} {[0 := mkVcpu true 0 []; 1 := mkVcpu false 0 []]} 0 0 ∅.

Lemma demo_plugins_wf : wf demo_plugins.
Proof.
  assert (forall p c, ctx_mem demo_plugins !! p = Some c ->
    p = 0x1000 /\ c = demo_ctx 11 \/ p = 0x2000 /\ c = demo_ctx 22) as Hc.
  { intros p c. cbn [ctx_mem demo_plugins]. rewrite lookup_insert_Some, lookup_singleton_Some.
    intros [[<- <-]|[_ [<- <-]]]; auto. }
  split_and!; split.
  - intros p c ev [[-> ->]|[-> ->]]%Hc; by cbn.
  - intros p c ev ev' [[-> ->]|[-> ->]]%Hc; by cbn.
  - intros ev q Hq. by apply not_elem_of_nil in Hq.
  - constructor.
  - intros ev. by destruct ev.
  - intros p c [[-> ->]|[-> ->]]%Hc; by vm_compute.
  - intros id q. cbn [id_ht demo_plugins]. rewrite lookup_insert_Some, lookup_singleton_Some.
    intros [[<- <-]|[_ [<- <-]]]; eexists; by vm_compute.
  - intros i Hi. change (i ∈ ({[0]} : gset Z)) in Hi. apply elem_of_singleton in Hi as ->.
    eexists. by vm_compute.
  - intros i v. cbn [cpus demo_plugins]. rewrite lookup_insert_Some, lookup_singleton_Some.
    intros [[<- <-]|[_ [<- <-]]]; done.
Qed.

Definition demo_subscribed : qemu_plugin_state :=
  match do_plugin_register_cb 0x9000 11 EV_VCPU_SYSCALL 77 0 demo_plugins with
  | Ret s => s
  | Abort _ => demo_plugins
  end.

Lemma register_cb_refines_witness :
  exists s', do_plugin_register_cb 0x9000 11 EV_VCPU_SYSCALL 77 0 demo_plugins = Ret s' /\ wf s' /\
    same_tables demo_plugins s' /\
    forall p' ev', subscription s' p' ev' =
      if decide ((p', ev') = (0x1000, EV_VCPU_SYSCALL) /\ false = false)
      then Some (77, 0) else subscription demo_plugins p' ev'.
Proof.
  apply (register_cb_refines 0x9000 demo_plugins 0x1000 (demo_ctx 11)); [exact demo_plugins_wf|done..].
Defined.

Lemma vcpu_hook_calls_subscribers_witness :
  exists calls, plugin_vcpu_cb__simple 0 EV_VCPU_IDLE demo_plugins = Ret calls /\
    NoDup (map (fun k : call => hd 0 k.2) calls) /\
    forall f id, (f, [id; 0]) ∈ calls <->
      exists p c u, ctx_mem demo_plugins !! p = Some c /\ ctx_id c = id /\
        subscription demo_plugins p EV_VCPU_IDLE = Some (f, u).
Proof. apply vcpu_hook_calls_subscribers; [exact demo_plugins_wf|done]. Defined.

Lemma vcpu_mask_exact_witness :
  qemu_plugin_vcpu_syscall 0 5 [1; 2] demo_plugins =
  run_cbs (fun _ => 0 :: 5 :: [1; 2]) (cb_lists demo_plugins EV_VCPU_SYSCALL) demo_plugins.
Proof.
  apply (vcpu_mask_exact demo_plugins 0 (mkVcpu true 0 []));
    [exact demo_plugins_wf|done..].
Defined.

Lemma vcpu_init_hook_wf_witness :
  exists calls s', qemu_plugin_vcpu_init_hook 1 demo_plugins = Ret (calls, s') /\ wf s' /\ 1 ∈ cpu_ht s' /\
    plugin_vcpu_cb__simple 1 EV_VCPU_INIT demo_plugins = Ret calls.
Proof.
  apply (vcpu_init_hook_wf demo_plugins 1 (mkVcpu false 0 [])); [exact demo_plugins_wf|done| |done].
  intros H. change (1 ∈ ({[0]} : gset Z)) in H. by apply elem_of_singleton in H.
Defined.

(** A store-only callback in front of one for all accesses hides it from a load. *)
Lemma mem_cb_runs_prefix_witness :
  let arr := [mkDyn 1 0 0 PLUGIN_CB_REGULAR QEMU_PLUGIN_MEM_W INLINE_ADD_U64 0;
              mkDyn 2 0 0 PLUGIN_CB_REGULAR QEMU_PLUGIN_MEM_RW INLINE_ADD_U64 0] in
  wants 2 (mkDyn 2 0 0 PLUGIN_CB_REGULAR QEMU_PLUGIN_MEM_RW INLINE_ADD_U64 0) = true /\
  qemu_plugin_vcpu_mem_cb (Some arr) 0 0x1000 2 ∅ = Ret ([], ∅).
Proof.
  split; [done|]. rewrite mem_cb_runs_prefix; [done|]. by repeat constructor.
Defined.

Lemma meminfo_roundtrip_witness :
  let info := trace_mem_build_info 2 true false true 3 in
  qemu_plugin_mem_size_shift info = 2 /\ qemu_plugin_mem_is_sign_extended info = true /\
  qemu_plugin_mem_is_big_endian info = false /\ qemu_plugin_mem_is_store info = true /\
  Z.shiftr info TRACE_MEM_MMU_SHIFT = 3.
Proof. apply meminfo_roundtrip; lia. Defined.

End PluginCore.
