(* ===== verification/PluginLoader.v ===== *)
(** * Loading and unloading plugins

    qemu/plugins/loader.c: the [-plugin] option, the choice of plugin ids, the
    installation of a plugin, and its reset and removal.  glib's module loader
    and the code of the plugins are parameters. *)

From S2P Require Import Prelude PluginCore.
Open Scope Z_scope.
Open Scope c_scope.

Module PluginLoader.
Import PluginCore.

(** ** The option *)

Record qemu_plugin_desc := mkDesc {
  path : string;
  argv : list string;
}.

(** The list under construction and the position of the current entry. *)
Record qemu_plugin_parse_arg := mkArg {
  head : list qemu_plugin_desc;
  curr : option nat;
}.

Fixpoint plugin_find_desc (l : list qemu_plugin_desc) (p : string) : option nat :=
  match l with
  | [] => None
  | d :: l => if String.eqb (path d) p then Some 0%nat else S <$> plugin_find_desc l p
  end.

(** The error is the message set through [errp]; the number is the result. *)
Definition plugin_add (arg : qemu_plugin_parse_arg) (name value : string)
  : option string * Z * qemu_plugin_parse_arg :=
  if String.eqb name "file" then
    if String.eqb value "" then (Some "requires a non-empty argument", 1, arg)%string
    else
      match plugin_find_desc (head arg) value with
      | None => (None, 0, mkArg (head arg ++ [mkDesc value []]) (Some (List.length (head arg))))
      | Some i => (None, 0, mkArg (head arg) (Some i))
      end
  else if String.eqb name "arg" then
    match curr arg with
    | None => (Some "missing earlier '-plugin file=' option", 1, arg)%string
    | Some i => (None, 0, mkArg (alter (fun d => mkDesc (path d) (argv d ++ [value])) i (head arg)) (curr arg))
    end
  else (Some "unexpected parameter; ignored", 0, arg)%string.

(** [qemu_opt_foreach] with [errp = &error_fatal]: setting an error exits. *)
Fixpoint opt_foreach (opts : list (string * string)) (arg : qemu_plugin_parse_arg)
  : cres qemu_plugin_parse_arg :=
  match opts with
  | [] => Ret arg
  | (name, value) :: opts =>
      let '(err, rc, arg) := plugin_add arg name value in
      match err with
      | Some e => Abort ("exit(1): " +:+ e)
      | None => if rc =? 0 then opt_foreach opts arg else Ret arg
      end
  end.

(** The options are those of one [-plugin]; [None]: they do not parse. *)
Definition qemu_plugin_opt_parse (opts : option (list (string * string))) (l : list qemu_plugin_desc)
  : cres (list qemu_plugin_desc) :=
  match opts with
  | None => Abort "exit(1)"
  | Some opts => let* arg := opt_foreach opts (mkArg l None) in Ret (head arg)
  end.

(** ** Plugin ids *)

Definition xorshift64star (x : Z) : Z :=
  let x := Z.lxor x (Z.shiftr x 12) in
  let x := Z.lxor x (u64 (Z.shiftl x 25)) in
  let x := Z.lxor x (Z.shiftr x 27) in
  u64 (x * 2685821657736338717).

(** The [for (;;)] loop; it ends at the first id that is not in use. *)
Fixpoint find_id (fuel : nat) (ht : gmap Z Z) (x : Z) : option Z :=
  match fuel with
  | O => None
  | S fuel =>
      let x := xorshift64star x in
      match ht !! x with
      | None => Some x
      | Some _ => find_id fuel ht x
      end
  end.

(** More turns than there are ids in use: [find_id_decides] shows that they
    decide the loop. *)
Definition id_fuel (ht : gmap Z Z) : nat := S (size ht).

(** ** Loading *)

Definition QEMU_PLUGIN_MIN_VERSION : Z := 0.
Definition QEMU_PLUGIN_VERSION : Z := 0.

(** A shared object: its install symbol (missing, or a value, 0 for NULL) and
    the version it declares. *)
Record gmodule := mkModule {
  m_install : option Z;
  m_version : option Z;
}.

Record qemu_plugin_reset_data := mkReset {
  rd_ctx : Z;
  rd_cb : Z;
  rd_reset : bool;
}.

(** The plugin state, the descriptors by address, the option list, and the
    work queued for a moment when all vCPUs are stopped. *)
Record loader := mkLoader {
  pl : qemu_plugin_state;
  descs : gmap Z qemu_plugin_desc;
  desc_list : list Z;
  safe_work : list qemu_plugin_reset_data;
}.

Definition set_pl (l : loader) (s : qemu_plugin_state) : loader :=
  mkLoader s (descs l) (desc_list l) (safe_work l).

Definition qemu_plugin_add_dyn_cb_arr (arr : Z) (s : qemu_plugin_state) : cres qemu_plugin_state :=
  let* _ := cassert (negb (bool_decide (arr ∈ dyn_cb_arr_ht s))) "g_assert(inserted)" in
  Ret (set_dyn_ht s ({[arr]} ∪ dyn_cb_arr_ht s)).

(** ** Reset and removal *)

Fixpoint unregister_all (ctx : Z) (evs : list qemu_plugin_event) (s : qemu_plugin_state)
  : cres qemu_plugin_state :=
  match evs with
  | [] => Ret s
  | ev :: evs => let* s := plugin_unregister_cb__locked ctx ev s in unregister_all ctx evs s
  end.

Definition update_ctx (s : qemu_plugin_state) (p : Z) (c : qemu_plugin_ctx) : qemu_plugin_state :=
  set_ctx_mem s (<[p := c]> (ctx_mem s)).

(** The calls into the plugin and the new state. *)
Definition plugin_reset_destroy__locked (data : qemu_plugin_reset_data) (l : loader)
  : cres (list call * loader) :=
  let ctx := rd_ctx data in
  let* s := unregister_all ctx all_events (pl l) in
  match ctx_mem s !! ctx with
  | None => Abort "wild context pointer"
  | Some c =>
      let calls := if rd_cb data =? 0 then [] else [(rd_cb data, [ctx_id c])] in
      if rd_reset data then
        let* _ := cassert (resetting c) "g_assert(ctx->resetting)" in
        Ret (calls, set_pl l (update_ctx s ctx (set_flags c (installing c) (uninstalling c) false)))
      else
        let* _ := cassert (uninstalling c) "g_assert(ctx->uninstalling)" in
        if installing c then Abort "abort: uninstall from the install function"
        else
          let* _ := cassert (bool_decide (is_Some (id_ht s !! ctx_id c))) "g_assert(success)" in
          let s := set_ids s (filter (fun p => p <> ctx) (ctxs s)) (delete (ctx_id c) (id_ht s)) in
          let s := set_ctx_mem s (delete ctx (ctx_mem s)) in
          Ret (calls, mkLoader s (delete (ctx_desc c) (descs l)) (desc_list l) (safe_work l))
  end.

(** Both calls take the lock. *)
Definition plugin_reset_destroy (data : qemu_plugin_reset_data) (l : loader) : cres (list call * loader) :=
  let l := set_pl l (set_lock (pl l) (lock (pl l) + 1)) in
  let* r := plugin_reset_destroy__locked data l in
  let l := r.2 in
  Ret (r.1, set_pl l (set_lock (pl l) (lock (pl l) + 1))).

(** Flushing the code cache in the exclusive context is immediate and reports to
    the subscribers of the flush event. *)
Definition plugin_flush_destroy (exclusive : bool) (data : qemu_plugin_reset_data) (l : loader)
  : cres (list call * loader) :=
  let* _ := cassert exclusive "g_assert(cpu_in_exclusive_context(cpu))" in
  let* f := qemu_plugin_flush_cb (pl l) in
  let* r := plugin_reset_destroy data (set_pl l f.2) in
  Ret (f.1 ++ r.1, r.2).

(** [current_cpu]: whether vCPU threads exist. *)
Definition plugin_reset_uninstall (current_cpu : bool) (id cb : Z) (reset : bool) (l : loader)
  : cres (list call * loader) :=
  let* p := plugin_id_to_ctx_locked id (pl l) in
  let '(ctx, c) := p in
  if uninstalling c || (reset && resetting c) then Ret ([], l)
  else
    let l := set_pl l (update_ctx (pl l) ctx (set_flags c (installing c) (negb reset) reset)) in
    let data := mkReset ctx cb reset in
    if current_cpu then Ret ([], mkLoader (pl l) (descs l) (desc_list l) (safe_work l ++ [data]))
    else plugin_reset_destroy data l.

(** The vCPU performs its queued work, each item in the exclusive context. *)
Fixpoint run_items (items : list qemu_plugin_reset_data) (l : loader) : cres (list call * loader) :=
  match items with
  | [] => Ret ([], l)
  | data :: items =>
      let* r := plugin_flush_destroy true data l in
      let* q := run_items items r.2 in
      Ret (r.1 ++ q.1, q.2)
  end.

Definition run_safe_work (l : loader) : cres (list call * loader) :=
  run_items (safe_work l) (mkLoader (pl l) (descs l) (desc_list l) []).

Definition qemu_plugin_uninstall (current_cpu : bool) (id cb : Z) := plugin_reset_uninstall current_cpu id cb false.
Definition qemu_plugin_reset (current_cpu : bool) (id cb : Z) := plugin_reset_uninstall current_cpu id cb true.

Section Load.
(** The block [qemu_memalign] returns for a context. *)
Variable qemu_memalign : loader -> Z.
(** [g_module_open] *)
Variable g_module_open : string -> option gmodule.
(** The plugin's install function, called with its id and arguments. *)
Variable install_code : Z -> Z -> list string -> loader -> cres (Z * loader).

(** The checks before the plugin is entered: [inl] an error message. *)
Definition plugin_check (m : option gmodule) : string + Z :=
  match m with
  | None => inl "cannot open"%string
  | Some m =>
      match m_install m with
      | None => inl "no install symbol"%string
      | Some f =>
          if f =? 0 then inl "qemu_plugin_install is NULL"%string
          else
            match m_version m with
            | None => inl "does not declare API version"%string
            | Some v =>
                if v <? QEMU_PLUGIN_MIN_VERSION then inl "version too old"%string
                else if QEMU_PLUGIN_VERSION <? v then inl "version too new"%string
                else inr f
            end
      end
  end.

Definition plugin_load (current_cpu : bool) (desc : Z) (l : loader) : cres (Z * loader) :=
  let ctx := qemu_memalign l in
  match descs l !! desc with
  | None => Abort "wild descriptor pointer"
  | Some d =>
      match plugin_check (g_module_open (path d)) with
      | inl _ => Ret (1, l)
      | inr install =>
          let s := set_lock (pl l) (lock (pl l) + 1) in
          match find_id (id_fuel (id_ht s)) (id_ht s) ctx with
          | None => Abort "no unused id"
          | Some id =>
              let s := set_ids s (ctxs s ++ [ctx]) (<[id := ctx + id_offset]> (id_ht s)) in
              let s := update_ctx s ctx (mkCtx id (fun _ => 0) desc true false false) in
              let* r := install_code install id (argv d) (set_pl l s) in
              let '(rc, l) := r in
              match ctx_mem (pl l) !! ctx with
              | None => Abort "wild context pointer"
              | Some c =>
                  let l := set_pl l (update_ctx (pl l) ctx (set_flags c false (uninstalling c) (resetting c))) in
                  let* l :=
                    if ztrue rc && negb (uninstalling c)
                    then let* q := plugin_reset_uninstall current_cpu (ctx_id c) 0 false l in Ret q.2
                    else Ret l in
                  Ret (rc, set_pl l (set_lock (pl l) (lock (pl l) - 1)))
              end
          end
      end
  end.

(** The loop over the option list; a loaded descriptor leaves the list. *)
Fixpoint load_descs (current_cpu : bool) (ds : list Z) (l : loader) : cres (Z * loader) :=
  match ds with
  | [] => Ret (0, l)
  | d :: ds =>
      let* r := plugin_load current_cpu d l in
      let '(err, l) := r in
      if ztrue err then Ret (err, l)
      else load_descs current_cpu ds
             (mkLoader (pl l) (descs l) (filter (fun p => p <> d) (desc_list l)) (safe_work l))
  end.

Definition qemu_plugin_load_list (current_cpu : bool) (l : loader) : cres (Z * loader) :=
  load_descs current_cpu (desc_list l) l.

End Load.

(** ** The option: arguments go to the plugin named last *)

Definition args_of (l : list qemu_plugin_desc) (p : string) : list string :=
  concat (map argv (filter (fun d => path d = p) l)).

(** The arguments that follow a [file=p], up to the next [file=]. *)
Fixpoint group_args (p : string) (cur : option string) (opts : list (string * string)) : list string :=
  match opts with
  | [] => []
  | (n, v) :: opts =>
      if String.eqb n "file" then group_args p (Some v) opts
      else if bool_decide (cur = Some p) then v :: group_args p cur opts
      else group_args p cur opts
  end.

(** Known names, non-empty files, no argument before the first file. *)
Fixpoint opts_ok (cur : bool) (opts : list (string * string)) : bool :=
  match opts with
  | [] => true
  | (n, v) :: opts =>
      if String.eqb n "file" then negb (String.eqb v "") && opts_ok true opts
      else String.eqb n "arg" && cur && opts_ok cur opts
  end.

Definition paths (l : list qemu_plugin_desc) : list string := map path l.

Lemma find_desc_Some l p i :
  plugin_find_desc l p = Some i -> exists d, l !! i = Some d /\ path d = p.
Proof.
  revert i. induction l as [|d l IH]; intros i; simpl; [done|].
  destruct (String.eqb_spec (path d) p) as [E|E]; [intros [= <-]; eauto|].
  destruct (plugin_find_desc l p) as [j|]; [|done]. intros [= <-]. simpl. by apply IH.
Qed.

Lemma find_desc_None l p : plugin_find_desc l p = None -> p ∉ paths l.
Proof.
  induction l as [|d l IH]; simpl; [intros _; apply not_elem_of_nil|].
  destruct (String.eqb_spec (path d) p) as [E|E]; [done|].
  destruct (plugin_find_desc l p); [done|]. intros _. rewrite not_elem_of_cons. split; [congruence|by apply IH].
Qed.

Lemma args_of_notin l p : p ∉ paths l -> args_of l p = [].
Proof.
  unfold args_of. induction l as [|d l IH]; [done|]. simpl. rewrite not_elem_of_cons. intros [Hd Hl].
  rewrite filter_cons, decide_False by congruence. by apply IH.
Qed.

Definition add_arg (v : string) (d : qemu_plugin_desc) : qemu_plugin_desc := mkDesc (path d) (argv d ++ [v]).

Lemma paths_alter l v i : paths (alter (add_arg v) i l) = paths l.
Proof. revert i. induction l as [|d l IH]; intros [|i]; [done..|]. simpl. f_equal. apply IH. Qed.

Lemma args_of_alter l v i d p :
  NoDup (paths l) -> l !! i = Some d ->
  args_of (alter (add_arg v) i l) p = args_of l p ++ (if bool_decide (path d = p) then [v] else []).
Proof.
  unfold args_of. revert i. induction l as [|e l IH]; intros i Hn Hi; [done|].
  simpl in Hn. inversion Hn as [|? ? Hnot Hn']; subst. destruct i as [|i].
  - simpl in Hi |- *. injection Hi as ->. rewrite !filter_cons. cbn [path add_arg]. case_bool_decide as E.
    + rewrite !decide_True by done. simpl. fold (args_of l p).
      rewrite args_of_notin by congruence. by rewrite !app_nil_r.
    + rewrite !decide_False by done. by rewrite app_nil_r.
  - change (alter (add_arg v) (S i) (e :: l)) with (e :: alter (add_arg v) i l). rewrite !filter_cons.
    destruct (decide (path e = p)); cbn [map concat];
      rewrite (IH i Hn' Hi); [by rewrite app_assoc|done].
Qed.

(** The current entry as a path. *)
Definition cur_path (arg : qemu_plugin_parse_arg) : option string := curr arg ≫= fun i => path <$> head arg !! i.

(** The outcome of the options [opts], from [arg] on. *)
Definition grouped (opts : list (string * string)) (arg : qemu_plugin_parse_arg) : Prop :=
  exists arg', opt_foreach opts arg = Ret arg' /\ NoDup (paths (head arg')) /\
    (paths (head arg) `prefix_of` paths (head arg')) /\
    (forall p, p ∈ paths (head arg') <-> p ∈ paths (head arg) \/ ("file"%string, p) ∈ opts) /\
    (forall p, args_of (head arg') p = args_of (head arg) p ++ group_args p (cur_path arg) opts).

(** A file is chosen, new or not. *)
Lemma grouped_file opts arg arg1 v :
  grouped opts arg1 -> cur_path arg1 = Some v -> paths (head arg) `prefix_of` paths (head arg1) ->
  (forall p, p ∈ paths (head arg1) <-> p ∈ paths (head arg) \/ p = v) ->
  (forall p, args_of (head arg1) p = args_of (head arg) p) ->
  exists arg', opt_foreach opts arg1 = Ret arg' /\ NoDup (paths (head arg')) /\
    paths (head arg) `prefix_of` paths (head arg') /\
    (forall p, p ∈ paths (head arg') <-> p ∈ paths (head arg) \/ ("file"%string, p) ∈ ("file"%string, v) :: opts) /\
    (forall p, args_of (head arg') p = args_of (head arg) p ++ group_args p (Some v) opts).
Proof.
  intros (arg' & ? & ? & Hp' & Hin & Hargs) H2 Hp H3 H4. exists arg'. split_and!; try done; [by etransitivity| |].
  - intros p. rewrite Hin, H3, elem_of_cons. split; [intros [[?| ->]|?]|intros [?|[[= ->]|?]]]; eauto.
  - intros p. by rewrite Hargs, H2, H4.
Qed.

Lemma opt_foreach_groups opts : forall arg,
  NoDup (paths (head arg)) -> (curr arg = None \/ is_Some (cur_path arg)) ->
  opts_ok (bool_decide (is_Some (cur_path arg))) opts = true -> grouped opts arg.
Proof.
  induction opts as [|[n v] opts IH]; intros arg Hn Hcur Hok.
  { exists arg. split_and!; try done; intros p; [|by rewrite app_nil_r].
    split; [by left|]. by intros [|?%not_elem_of_nil]. }
  unfold grouped. cbn [opts_ok opt_foreach group_args] in *. unfold plugin_add.
  destruct (String.eqb_spec n "file") as [->|Hf].
  - apply andb_prop in Hok as [->%negb_true_iff Hok].
    assert (forall arg1, NoDup (paths (head arg1)) -> cur_path arg1 = Some v -> grouped opts arg1) as Hgo.
    { intros arg1 H1 H2. apply IH; [done|right; by rewrite H2|by rewrite H2]. }
    destruct (plugin_find_desc (head arg) v) as [i|] eqn:Hi; cbn [Z.eqb].
    + destruct (find_desc_Some _ _ _ Hi) as (d & Hd & Hv).
      assert (cur_path (mkArg (head arg) (Some i)) = Some v) as Hc by (unfold cur_path; simpl; by rewrite Hd, <- Hv).
      apply (grouped_file opts arg); try done; [by apply Hgo|].
      intros p. split; [by left|]. intros [?| ->]; [done|]. rewrite <- Hv. apply list_elem_of_fmap_2. by eapply list_elem_of_lookup_2.
    + apply find_desc_None in Hi. set (arg1 := mkArg _ _).
      assert (paths (head arg1) = paths (head arg) ++ [v]) as Hp by (unfold arg1, paths; cbn [head]; by rewrite map_app).
      assert (cur_path arg1 = Some v) as Hc by (unfold cur_path; simpl; by rewrite lookup_app_r, Nat.sub_diag by lia).
      apply (grouped_file opts arg); rewrite ?Hp; try done.
      * apply Hgo; [|done]. rewrite Hp. apply list.NoDup_app. split_and!; [done| |apply NoDup_singleton].
        intros x Hx ->%list_elem_of_singleton. done.
      * by apply prefix_app_r.
      * intros p. rewrite elem_of_app. by rewrite list_elem_of_singleton.
      * intros p. unfold args_of. cbn [head arg1]. rewrite list.filter_app, map_app, concat_app, filter_cons. simpl.
        case_decide; simpl; by rewrite app_nil_r.
  - apply andb_prop in Hok as [[->%String.eqb_eq Hc%bool_decide_eq_true]%andb_prop Hok]. cbn [String.eqb Ascii.eqb Bool.eqb].
    destruct Hc as [q Hq]. pose proof Hq as Hq'. unfold cur_path in Hq'. destruct (curr arg) as [i|] eqn:Hi; [|done].
    simpl in Hq'. destruct (head arg !! i) as [d|] eqn:Hd; [|done]. injection Hq' as Hq'. cbn [Z.eqb].
    change (fun d0 => mkDesc (path d0) (argv d0 ++ [v])) with (add_arg v).
    set (arg1 := mkArg _ _). assert (cur_path arg1 = Some q) as Hq1.
    { unfold cur_path, arg1. cbn [curr head mbind option_bind]. rewrite list_lookup_alter_eq, Hd. by rewrite <- Hq'. }
    destruct (IH arg1) as (arg' & ? & ? & Hp & Hin & Hargs).
    + unfold arg1. cbn [head]. by rewrite paths_alter.
    + right. by rewrite Hq1.
    + rewrite Hq1. rewrite Hq in Hok. done.
    + unfold arg1 in Hp, Hin, Hargs. cbn [head] in Hp, Hin, Hargs. rewrite paths_alter in Hp.
      exists arg'. split_and!; try done.
      * intros p. rewrite Hin, paths_alter, elem_of_cons. split; [intros [?|?]|intros [?|[[=]|?]]]; eauto.
      * intros p. rewrite Hargs, (args_of_alter _ v i d p Hn Hd), <- app_assoc. f_equal. fold arg1.
        rewrite Hq1, Hq, Hq'. repeat case_bool_decide; congruence || done.
Qed.

(** A well-formed [-plugin] option adds one entry per distinct file, in
    order and after those of earlier options, and gives every entry the
    arguments that follow its file name, in order. *)
Theorem opt_parse_groups opts l :
  NoDup (paths l) -> opts_ok false opts = true ->
  exists l', qemu_plugin_opt_parse (Some opts) l = Ret l' /\ NoDup (paths l') /\
    (paths l `prefix_of` paths l') /\
    (forall p, p ∈ paths l' <-> p ∈ paths l \/ ("file"%string, p) ∈ opts) /\
    (forall p, args_of l' p = args_of l p ++ group_args p None opts).
Proof.
  intros Hn Hok. destruct (opt_foreach_groups opts (mkArg l None) Hn (or_introl eq_refl) Hok)
    as (arg' & Hr & H). exists (head arg'). unfold qemu_plugin_opt_parse. by rewrite Hr.
Qed.

(** ** Ids *)

(** Multiplication by an odd constant, undone by its inverse. *)
Lemma u64_mul_inv a b x : u64 (a * b) = 1 -> 0 <= x < 2 ^ 64 -> u64 (u64 (x * a) * b) = x.
Proof.
  intros H Hx. unfold u64 in *. rewrite Z.mul_mod_idemp_l by lia. rewrite <- Z.mul_assoc.
  rewrite <- Z.mul_mod_idemp_r, H by lia. rewrite Z.mul_1_r. by apply Z.mod_small.
Qed.

Lemma u64_lxor x y : u64 (Z.lxor x y) = Z.lxor (u64 x) (u64 y).
Proof.
  unfold u64. apply Z.bits_inj'. intros n Hn. rewrite Z.lxor_spec. destruct (Z.ltb_spec n 64).
  - by rewrite !Z.mod_pow2_bits_low, Z.lxor_spec by lia.
  - by rewrite !Z.mod_pow2_bits_high by lia.
Qed.

Lemma lxor_u64_range x y : 0 <= x < 2 ^ 64 -> 0 <= y < 2 ^ 64 -> 0 <= Z.lxor x y < 2 ^ 64.
Proof.
  intros Hx Hy. rewrite <- (u64_small x), <- (u64_small y) by done. rewrite <- u64_lxor. apply u64_range.
Qed.

(** A linear map with trivial kernel is injective. *)
Lemma lxor_injective (f : Z -> Z) x y :
  (forall x y, f (Z.lxor x y) = Z.lxor (f x) (f y)) ->
  (forall z, 0 <= z < 2 ^ 64 -> z = f z -> z = 0) ->
  0 <= x < 2 ^ 64 -> 0 <= y < 2 ^ 64 ->
  Z.lxor x (f x) = Z.lxor y (f y) -> x = y.
Proof.
  intros Hf Hk Hx Hy E. apply Z.lxor_eq, Hk; [by apply lxor_u64_range|]. rewrite Hf. apply Z.lxor_eq.
  rewrite <- Z.lxor_assoc, (Z.lxor_assoc x y), (Z.lxor_comm y), <- Z.lxor_assoc, E.
  rewrite (Z.lxor_assoc y), (Z.lxor_comm (f y)), <- (Z.lxor_assoc y y).
  by rewrite Z.lxor_nilpotent, Z.lxor_0_l, Z.lxor_nilpotent.
Qed.

Lemma shiftr_step_range k x : 0 <= k -> 0 <= x < 2 ^ 64 -> 0 <= Z.lxor x (Z.shiftr x k) < 2 ^ 64.
Proof.
  intros Hk Hx. apply lxor_u64_range; [done|]. rewrite Z.shiftr_div_pow2 by done.
  split; [apply Z.div_pos; lia|]. apply Z.div_lt_upper_bound; nia.
Qed.

Lemma shiftr_step_inj k x y :
  0 < k -> 0 <= x < 2 ^ 64 -> 0 <= y < 2 ^ 64 ->
  Z.lxor x (Z.shiftr x k) = Z.lxor y (Z.shiftr y k) -> x = y.
Proof.
  intros Hk. apply (lxor_injective (fun x => Z.shiftr x k)); [intros; apply Z.shiftr_lxor|].
  intros z Hz. rewrite Z.shiftr_div_pow2 by lia. intros E. destruct (Z.eq_dec z 0) as [|Hn]; [done|].
  assert (1 < 2 ^ k) by (apply Z.pow_gt_1; lia). pose proof (Z.div_lt z (2 ^ k)). lia.
Qed.

Lemma shiftl_step_inj x y :
  0 <= x < 2 ^ 64 -> 0 <= y < 2 ^ 64 ->
  Z.lxor x (u64 (Z.shiftl x 25)) = Z.lxor y (u64 (Z.shiftl y 25)) -> x = y.
Proof.
  apply (lxor_injective (fun x => u64 (Z.shiftl x 25))).
  - intros a b. by rewrite Z.shiftl_lxor, u64_lxor.
  - intros z Hz E. rewrite <- (u64_mul_inv (2 ^ 25 - 1) 18445618173769154559 z) by done.
    assert (u64 (z * (2 ^ 25 - 1)) = 0) as ->; [|done].
    rewrite Z.shiftl_mul_pow2 in E by lia. unfold u64 in *.
    replace (z * (2 ^ 25 - 1)) with (z * 2 ^ 25 - z) by lia.
    rewrite Zminus_mod, <- E, (Z.mod_small z), Z.sub_diag by lia. done.
Qed.

Lemma xorshift64star_range x : 0 <= xorshift64star x < 2 ^ 64.
Proof. apply u64_range. Qed.

(** The id generator permutes the 64-bit values: different seeds give
    different ids. *)
Theorem xorshift64star_injective x y :
  0 <= x < 2 ^ 64 -> 0 <= y < 2 ^ 64 -> x <> y -> xorshift64star x <> xorshift64star y.
Proof.
  intros Hx Hy Hne H. apply Hne. unfold xorshift64star in H.
  assert (forall x, 0 <= x < 2 ^ 64 -> 0 <= Z.lxor x (u64 (Z.shiftl x 25)) < 2 ^ 64) as HR
    by (intros; apply lxor_u64_range; [done|apply u64_range]).
  apply (f_equal (fun z => u64 (z * 6415128727920758069))) in H.
  rewrite !u64_mul_inv in H by (done || auto using shiftr_step_range with lia).
  apply shiftr_step_inj in H; [|lia|auto using shiftr_step_range with lia..].
  apply shiftl_step_inj in H; [|auto using shiftr_step_range with lia..].
  by apply shiftr_step_inj in H.
Qed.

Definition id_after (n : nat) (x : Z) : Z := Nat.iter n xorshift64star x.

Lemma iter_shift n x : id_after n (xorshift64star x) = xorshift64star (id_after n x).
Proof. induction n as [|n IH]; [done|]. unfold id_after in *. simpl. by rewrite IH. Qed.

Lemma find_id_None n : forall ht x,
  find_id n ht x = None <-> forall i, (1 <= i <= n)%nat -> is_Some (ht !! id_after i x).
Proof.
  induction n as [|n IH]; intros ht x; simpl; [split; [lia|done]|].
  destruct (ht !! xorshift64star x) as [z|] eqn:E.
  - rewrite IH. split; intros H i Hi.
    + destruct i as [|[|i]]; [lia|by eexists|].
      specialize (H (S i) ltac:(lia)). by rewrite iter_shift in H.
    + rewrite iter_shift. apply (H (S i)). lia.
  - split; [done|]. intros H. destruct (H 1%nat ltac:(lia)) as [z Hz]. unfold id_after in Hz. simpl in Hz. congruence.
Qed.

Lemma find_id_mono n m ht x id : find_id n ht x = Some id -> (n <= m)%nat -> find_id m ht x = Some id.
Proof.
  revert m x. induction n as [|n IH]; intros m x H Hm; [done|]. destruct m as [|m]; [lia|]. simpl in *.
  destruct (ht !! xorshift64star x); [|done]. apply IH; [done|lia].
Qed.

Lemma find_id_unused n : forall ht x id,
  find_id n ht x = Some id -> ht !! id = None /\ 0 <= id < 2 ^ 64.
Proof.
  induction n as [|n IH]; intros ht x id; simpl; [done|]. destruct (ht !! xorshift64star x) eqn:E; [by apply IH|].
  intros [= <-]. split; [done|apply xorshift64star_range].
Qed.

(** More values than a list has elements repeat. *)
Lemma pigeonhole (f : nat -> Z) (l : list Z) n :
  (forall i, (i < n)%nat -> f i ∈ l) -> (List.length l < n)%nat ->
  exists i j, (i < j < n)%nat /\ f i = f j.
Proof.
  revert l. induction n as [|n IH]; intros l Hin Hn; [lia|].
  destruct (decide (Exists (fun i => f i = f n) (seq 0 n))) as [(i & Hi & E)%list.Exists_exists|Hno].
  { exists i, n. apply elem_of_seq in Hi. split; [lia|done]. }
  destruct (IH (filter (fun z => z <> f n) l)) as (i & j & Hij & E); [| |exists i, j; split; [lia|done]].
  - intros i Hi. apply list_elem_of_filter. split; [|apply Hin; lia]. intros E. apply Hno, list.Exists_exists.
    exists i. split; [apply elem_of_seq; lia|done].
  - specialize (Hin n ltac:(lia)). apply list_elem_of_split in Hin as (l1 & l2 & ->).
    rewrite list.filter_app, filter_cons_False, length_app in * by (intros Hz; by apply Hz).
    simpl in Hn.
    pose proof (length_filter (fun z => z <> f n) l1). pose proof (length_filter (fun z => z <> f n) l2). lia.
Qed.

Lemma id_after_add a b x : id_after (a + b) x = id_after a (id_after b x).
Proof. apply Nat.iter_add. Qed.

(** Looking at one id more than there are in use decides the search for an
    unused id: if none was found by then, the sequence of ids has returned to
    one it visited and the loop of the code never ends; otherwise the id found
    is an unused 64-bit value. *)
Theorem find_id_decides ht x n :
  (id_fuel ht <= n)%nat ->
  find_id n ht x = find_id (id_fuel ht) ht x /\
  (forall id, find_id (id_fuel ht) ht x = Some id -> ht !! id = None /\ 0 <= id < 2 ^ 64).
Proof.
  intros Hn. split.
  - destruct (find_id (id_fuel ht) ht x) as [id|] eqn:E; [by apply (find_id_mono _ n) in E|].
    rewrite find_id_None in E |- *.
    destruct (pigeonhole (fun i => id_after (S i) x) (elements (dom ht)) (id_fuel ht)) as (i & j & Hij & Hr).
    + intros i Hi. apply elem_of_elements, elem_of_dom, E. lia.
    + unfold id_fuel. change (List.length (elements (dom ht))) with (size (dom ht)). rewrite size_dom. lia.
    + intros m Hm. induction m as [m IH] using lt_wf_ind. destruct (decide (m <= id_fuel ht)%nat); [apply E; lia|].
      replace m with ((m - S j) + S j)%nat by lia. rewrite id_after_add, <- Hr, <- id_after_add. apply IH; lia.
  - intros id. apply find_id_unused.
Qed.

(** ** Removal *)

Lemma wf_set_lock s n : wf s -> wf (set_lock s n).
Proof. intros (Hs & [H1 H2] & Hc). split_and!; [by eapply subs_ok_same|by split|by eapply cpus_ok_same]. Qed.

Lemma wf_flags s p c i u r :
  wf s -> ctx_mem s !! p = Some c -> wf (update_ctx s p (set_flags c i u r)).
Proof.
  intros (Hs & [H1 H2] & Hc) Hp. split_and!; [|split|by eapply cpus_ok_same]; [destruct Hs as [S1 S2 S3 S4 S5]; split|..];
    cbn [ctx_mem cb_lists cb_mem mask id_ht update_ctx set_ctx_mem set_cb_state]; try done.
  - intros p' c' ev. rewrite lookup_insert_Some. intros [[<- <-]|[_ Hc']]; [by apply (S1 p c)|by apply S1].
  - intros p' c' ev ev'. rewrite lookup_insert_Some. intros [[<- <-]|[_ Hc']]; [by apply (S2 p c)|by apply (S2 p')].
  - intros ev q Hq. destruct (S3 ev q Hq) as (? & r' & c0 & ? & Hc0 & ?). split; [done|]. exists r'.
    destruct (decide (cb_ctx r' = p)) as [E|E]; [|exists c0; by rewrite lookup_insert_ne].
    rewrite E in *. rewrite Hp in Hc0. injection Hc0 as <-. eexists. by rewrite lookup_insert_eq.
  - intros p' c'. rewrite lookup_insert_Some. intros [[<- <-]|[_ Hc']]; [by apply (H1 p c)|by apply H1].
  - intros id q Hq. destruct (H2 id q Hq) as (c' & Hc' & <-). destruct (decide (q - id_offset = p)) as [<-|E].
    + rewrite lookup_insert_eq. rewrite Hp in Hc'. injection Hc' as <-. by eexists.
    + rewrite lookup_insert_ne by done. by eexists.
Qed.

Lemma subscription_flags s p c i u r p' ev :
  ctx_mem s !! p = Some c ->
  subscription (update_ctx s p (set_flags c i u r)) p' ev = subscription s p' ev.
Proof.
  intros Hp. unfold subscription. cbn [ctx_mem cb_mem update_ctx set_ctx_mem set_cb_state].
  destruct (decide (p' = p)) as [->|E]; [by rewrite lookup_insert_eq, Hp|by rewrite lookup_insert_ne].
Qed.

Lemma subscription_lock s n p ev : subscription (set_lock s n) p ev = subscription s p ev.
Proof. done. Qed.

Definition remove_ctx (s : qemu_plugin_state) (p id : Z) : qemu_plugin_state :=
  set_ctx_mem (set_ids s (filter (fun q => q <> p) (ctxs s)) (delete id (id_ht s))) (delete p (ctx_mem s)).

(** A plugin without subscriptions can go. *)
Lemma wf_remove s p c :
  wf s -> ctx_mem s !! p = Some c -> (forall ev, callbacks c ev = 0) -> wf (remove_ctx s p (ctx_id c)).
Proof.
  intros (Hs & [H1 H2] & Hc) Hp H0. destruct (H1 p c Hp) as [Hid _].
  split_and!; [destruct Hs as [S1 S2 S3 S4 S5]; split|split|by eapply cpus_ok_same];
    cbn [ctx_mem cb_lists cb_mem mask id_ht remove_ctx set_ids set_ctx_mem set_cb_state]; try done.
  - intros p' c' ev [_ Hc']%lookup_delete_Some. by apply S1.
  - intros p' c' ev ev' [_ Hc']%lookup_delete_Some. by apply (S2 p').
  - intros ev q Hq. destruct (S3 ev q Hq) as (Hq0 & r & c0 & ? & Hc0 & E). split; [done|]. exists r, c0.
    split_and!; try done. apply lookup_delete_Some. split; [|done]. intros Ep.
    rewrite <- Ep, Hp in Hc0. injection Hc0 as <-. rewrite H0 in E. by apply Hq0.
  - intros p' c' [Hne Hc']%lookup_delete_Some. destruct (H1 p' c' Hc') as [Hid' ?]. split; [|done].
    rewrite lookup_delete_ne; [done|]. intros E. rewrite E, Hid' in Hid. injection Hid. lia.
  - intros id q [Hne Hq]%lookup_delete_Some. destruct (H2 id q Hq) as (c' & Hc' & <-). exists c'.
    split; [|done]. apply lookup_delete_Some. split; [|done]. intros ->. congruence.
Qed.

(** What [unregister_all] did to plugin [p]. *)
Definition cleared (s s' : qemu_plugin_state) (p : Z) (c c' : qemu_plugin_ctx) (evs : list qemu_plugin_event) : Prop :=
  wf s' /\ same_tables s s' /\ ctx_mem s' !! p = Some c' /\ same_plugin c c' /\
  (forall ev, callbacks c' ev = if decide (ev ∈ evs) then 0 else callbacks c ev) /\
  (forall p', p' <> p -> ctx_mem s' !! p' = ctx_mem s !! p') /\
  (forall p' ev, p' <> p -> subscription s' p' ev = subscription s p' ev).

Lemma unregister_all_ok evs : forall s p c,
  wf s -> ctx_mem s !! p = Some c ->
  exists s' c', unregister_all p evs s = Ret s' /\ cleared s s' p c c' evs.
Proof.
  induction evs as [|ev evs IH]; intros s p c Hwf Hp; cbn [unregister_all].
  { exists s, c. unfold cleared. split_and!; done. }
  destruct (unregister_wf s p c ev Hwf Hp) as (s1 & c1 & -> & Hwf1 & T1 & Hp1 & P1 & C1 & O1 & V1).
  destruct (IH s1 p c1 Hwf1 Hp1) as (s2 & c2 & E2 & Hwf2 & T2 & Hp2 & P2 & C2 & O2 & V2).
  exists s2, c2. unfold cleared, same_tables, same_plugin in *. split; [done|]. split_and!; try done.
  1-10: destruct_and!; congruence.
  - intros e. rewrite C2, C1. destruct (decide (e ∈ evs)); [rewrite decide_True; [done|by right]|].
    case_decide as E; [subst e; rewrite decide_True; [done|by left]|]. rewrite decide_False; [done|].
    rewrite elem_of_cons. by intros [?|?].
  - intros p' Hne. rewrite O2, O1; done.
  - intros p' e Hne. rewrite V2, V1, decide_False by congruence. done.
Qed.

Lemma all_events_complete ev : ev ∈ all_events.
Proof. by destruct ev; apply list_elem_of_In; vm_compute; tauto. Qed.

Definition cb_calls (cb id : Z) : list call := if cb =? 0 then [] else [(cb, [id])].

(** The plugin is gone and the others are as before. *)
Definition removed (l l' : loader) (p : Z) (c : qemu_plugin_ctx) : Prop :=
  wf (pl l') /\ ctx_mem (pl l') !! p = None /\ id_ht (pl l') !! ctx_id c = None /\
  (forall q, q ∈ ctxs (pl l') <-> q ∈ ctxs (pl l) /\ q <> p) /\
  (forall p', p' <> p -> ctx_mem (pl l') !! p' = ctx_mem (pl l) !! p') /\
  (forall p' ev, p' <> p -> subscription (pl l') p' ev = subscription (pl l) p' ev) /\
  descs l' = delete (ctx_desc c) (descs l) /\ desc_list l' = desc_list l /\ safe_work l' = safe_work l.

Lemma destroy_removes l p c cb :
  wf (pl l) -> ctx_mem (pl l) !! p = Some c -> uninstalling c = true -> installing c = false ->
  exists l', plugin_reset_destroy (mkReset p cb false) l = Ret (cb_calls cb (ctx_id c), l') /\ removed l l' p c.
Proof.
  intros Hwf Hp Hu Hi. unfold plugin_reset_destroy, plugin_reset_destroy__locked.
  cbn [rd_ctx rd_cb rd_reset pl set_pl].
  destruct (unregister_all_ok all_events (set_lock (pl l) (lock (pl l) + 1)) p c (wf_set_lock _ _ Hwf) Hp)
    as (s1 & c1 & -> & Hwf1 & (T1 & T2 & T3 & T4 & T5) & Hp1 & (P1 & P2 & P3 & P4 & P5) & C1 & O1 & V1).
  cbn [cbind]. rewrite Hp1, P4, P3, Hu, Hi. cbn [cassert cbind].
  assert (wf (remove_ctx s1 p (ctx_id c1))) as Hwf2.
  { apply wf_remove; [done..|]. intros ev. rewrite C1. by rewrite decide_True by apply all_events_complete. }
  destruct Hwf1 as (_ & Hids & _). destruct (io_ctx _ Hids p c1 Hp1) as [Hid _].
  rewrite bool_decide_eq_true_2 by (by rewrite Hid). cbn [cassert cbind fst snd]. rewrite P1 in *.
  eexists. split; [done|]. unfold removed. cbn [pl set_pl descs desc_list safe_work].
  split_and!; [by apply wf_set_lock| | | | | |by rewrite P2|done..].
  - apply lookup_delete_eq.
  - apply lookup_delete_eq.
  - intros q. cbn [ctxs set_lock set_ctx_mem set_cb_state set_ids]. rewrite T2. cbn. rewrite list_elem_of_filter. tauto.
  - intros p' Hne. cbn [ctx_mem set_lock set_ctx_mem set_cb_state set_ids]. by rewrite lookup_delete_ne, O1.
  - intros p' ev Hne. etransitivity; [|exact (V1 p' ev Hne)]. unfold subscription.
    cbn [ctx_mem cb_mem set_lock set_ctx_mem set_cb_state set_ids]. by rewrite lookup_delete_ne.
Qed.

Lemma removed_flags l l' p c i u r w :
  ctx_mem (pl l) !! p = Some c -> safe_work l = w ->
  removed (mkLoader (update_ctx (pl l) p (set_flags c i u r)) (descs l) (desc_list l) w) l' p (set_flags c i u r) ->
  removed l l' p c.
Proof.
  intros Hp Hw (R1 & R2 & R3 & R4 & R5 & R6 & R7 & R8 & R9). unfold removed. rewrite Hw. split_and!; try done.
  - intros p' Hne. rewrite R5 by done. by apply lookup_insert_ne.
  - intros p' ev Hne. rewrite R6 by done. by apply subscription_flags.
Qed.

(** Uninstalling a plugin while no vCPU runs calls its callback once with
    its id, drops its subscriptions, its id and its context, frees its
    descriptor, and leaves every other plugin's context and subscriptions, and
    the invariant, as they were. *)
Theorem uninstall_removes_plugin l p c cb :
  wf (pl l) -> ctx_mem (pl l) !! p = Some c -> uninstalling c = false -> installing c = false ->
  exists l', qemu_plugin_uninstall false (ctx_id c) cb l = Ret (cb_calls cb (ctx_id c), l') /\ removed l l' p c.
Proof.
  intros Hwf Hp Hu Hi. pose proof Hwf as (_ & Hids & _). unfold qemu_plugin_uninstall, plugin_reset_uninstall.
  rewrite (id_to_ctx_ok _ p c Hids Hp). cbn [cbind]. rewrite Hu, Hi. cbn [orb andb negb].
  set (c1 := set_flags c false true false). set (l1 := set_pl l _).
  destruct (destroy_removes l1 p c1 cb) as (l' & -> & R); [by apply wf_flags|apply lookup_insert_eq|done..|].
  exists l'. split; [done|]. by eapply removed_flags.
Qed.

Lemma wf_dyn_ht s h : wf s -> wf (set_dyn_ht s h).
Proof. intros (Hs & [H1 H2] & Hc). split_and!; [by eapply subs_ok_same|by split|by eapply cpus_ok_same]. Qed.

(** With running vCPUs an uninstall changes no subscription yet and a
    second request is ignored; the queued work first reports the flush of the
    code cache to all its subscribers, then calls the plugin back and removes
    it. *)
Theorem uninstall_deferred l p c cb cb' :
  wf (pl l) -> ctx_mem (pl l) !! p = Some c -> uninstalling c = false -> installing c = false ->
  safe_work l = [] ->
  exists l1 calls l', qemu_plugin_uninstall true (ctx_id c) cb l = Ret ([], l1) /\
    (forall p' ev, subscription (pl l1) p' ev = subscription (pl l) p' ev) /\
    qemu_plugin_uninstall true (ctx_id c) cb' l1 = Ret ([], l1) /\
    plugin_cb__simple EV_FLUSH (pl l1) = Ret calls /\
    run_safe_work l1 = Ret (calls ++ cb_calls cb (ctx_id c) ++ [], l') /\ removed l l' p c.
Proof.
  intros Hwf Hp Hu Hi Hw. pose proof Hwf as (_ & Hids & _). unfold qemu_plugin_uninstall, plugin_reset_uninstall at 1.
  rewrite (id_to_ctx_ok _ p c Hids Hp). cbn [cbind]. rewrite Hu, Hi.
  cbn [orb andb negb pl set_pl descs desc_list safe_work]. rewrite Hw. cbn [app].
  pose proof (wf_flags (pl l) p c false true false Hwf Hp) as Hwf1.
  set (s1 := update_ctx _ _ _) in *. set (c1 := set_flags c false true false) in *.
  assert (ctx_mem s1 !! p = Some c1) as Hp1 by apply lookup_insert_eq.
  destruct (run_cbs_ok (fun _ => []) (cb_lists s1 EV_FLUSH) s1) as (calls & Hr & _);
    [intros q Hq; by apply (wf_list_mem s1 EV_FLUSH)|].
  destruct (destroy_removes (mkLoader (set_dyn_ht s1 ∅) (descs l) (desc_list l) []) p c1 cb)
    as (l' & Hd & R); [by apply wf_dyn_ht|done..|].
  exists (mkLoader s1 (descs l) (desc_list l) [mkReset p cb false]), calls, l'. split_and!; try done.
  - intros p' ev. by apply subscription_flags.
  - unfold plugin_reset_uninstall. cbn [pl]. change (ctx_id c) with (ctx_id c1).
    by rewrite (id_to_ctx_ok s1 p c1 (proj1 (proj2 Hwf1)) Hp1).
  - unfold run_safe_work. cbn [safe_work run_items pl descs desc_list]. unfold plugin_flush_destroy, qemu_plugin_flush_cb.
    cbn [cassert cbind pl]. change (plugin_cb__simple EV_FLUSH (set_dyn_ht s1 ∅)) with (run_cbs (fun _ => []) (cb_lists s1 EV_FLUSH) (set_dyn_ht s1 ∅)).
    assert (run_cbs (fun _ => []) (cb_lists s1 EV_FLUSH) (set_dyn_ht s1 ∅) = Ret calls) as ->.
    { rewrite <- Hr. generalize (cb_lists s1 EV_FLUSH). induction l0 as [|q l0 IH]; [done|]. cbn [run_cbs]. by rewrite IH. }
    cbn [cbind fst snd]. change (set_pl _ (set_dyn_ht s1 ∅)) with (mkLoader (set_dyn_ht s1 ∅) (descs l) (desc_list l) []).
    rewrite Hd. cbn [cbind fst snd run_items]. by rewrite <- app_assoc.
  - by apply (removed_flags l l' p c false true false []).
Qed.

(** Resetting a plugin while no vCPU runs clears its subscriptions, keeps
    its id, calls it back, leaves the other plugins alone, and makes it ready
    for another reset. *)
Theorem reset_clears_subscriptions l p c cb :
  wf (pl l) -> ctx_mem (pl l) !! p = Some c -> uninstalling c = false -> resetting c = false ->
  exists l' c', qemu_plugin_reset false (ctx_id c) cb l = Ret (cb_calls cb (ctx_id c), l') /\ wf (pl l') /\
    id_ht (pl l') = id_ht (pl l) /\ ctx_mem (pl l') !! p = Some c' /\ ctx_id c' = ctx_id c /\
    resetting c' = false /\ uninstalling c' = false /\
    forall p' ev, subscription (pl l') p' ev = if decide (p' = p) then None else subscription (pl l) p' ev.
Proof.
  intros Hwf Hp Hu Hrs. pose proof Hwf as (_ & Hids & _). unfold qemu_plugin_reset, plugin_reset_uninstall.
  rewrite (id_to_ctx_ok _ p c Hids Hp). cbn [cbind]. rewrite Hu, Hrs. cbn [orb andb negb].
  pose proof (wf_flags (pl l) p c (installing c) false true Hwf Hp) as Hwf1.
  set (c1 := set_flags c _ _ _) in *. set (s1 := update_ctx _ _ _) in *.
  unfold plugin_reset_destroy, plugin_reset_destroy__locked. cbn [rd_ctx rd_cb rd_reset pl set_pl].
  destruct (unregister_all_ok all_events (set_lock s1 (lock s1 + 1)) p c1 (wf_set_lock _ _ Hwf1) (lookup_insert_eq _ _ _))
    as (s2 & c2 & -> & Hwf2 & (T1 & _) & Hp2 & (P1 & P2 & P3 & P4 & P5) & C2 & O2 & V2).
  cbn [cbind]. rewrite Hp2, P5. cbn [cassert cbind fst snd pl set_pl]. rewrite P1.
  eexists _, _. split_and!; [done|..].
  - apply wf_set_lock. by apply wf_flags.
  - exact T1.
  - apply lookup_insert_eq.
  - exact P1.
  - done.
  - exact P4.
  - intros p' ev. cbn [pl set_pl snd]. rewrite subscription_lock.
    rewrite subscription_flags by done. case_decide as E.
    + subst p'. unfold subscription. rewrite Hp2, C2, decide_True by apply all_events_complete. done.
    + rewrite V2, subscription_lock by done. by apply subscription_flags.
Qed.

Lemma unregister_all_lock p evs : forall s s', unregister_all p evs s = Ret s' -> lock s' = lock s.
Proof.
  induction evs as [|ev evs IH]; intros s s'; cbn [unregister_all]; [by intros [= ->]|].
  rewrite cbind_Ret. intros (s1 & H1 & ->%IH). unfold plugin_unregister_cb__locked in H1.
  destruct (ctx_mem s !! p); [|done]. destruct (_ =? 0); [by injection H1 as ->|].
  case_bool_decide; by injection H1 as <-.
Qed.

Lemma destroy_lock data l calls l' :
  plugin_reset_destroy data l = Ret (calls, l') -> lock (pl l') = lock (pl l) + 2.
Proof.
  unfold plugin_reset_destroy, plugin_reset_destroy__locked. rewrite cbind_Ret. cbn [pl set_pl].
  intros (r & H & [= <- <-]). rewrite cbind_Ret in H. destruct H as (s1 & Hs%unregister_all_lock & H). cbn in Hs.
  assert (lock (pl r.2) = lock (pl l) + 1) as E; [|cbn; lia].
  destruct (ctx_mem s1 !! rd_ctx data) as [c|]; [|done]. destruct (rd_reset data).
  - rewrite cbind_Ret in H. destruct H as (_ & _ & [= <-]). done.
  - rewrite cbind_Ret in H. destruct H as (_ & _ & H). destruct (installing c); [done|].
    rewrite cbind_Ret in H. destruct H as (_ & _ & [= <-]). done.
Qed.

(** Every completed reset or removal leaves the recursive plugin lock two
    levels deeper than it found it, where taking and releasing it would leave
    the depth unchanged. *)
Theorem reset_destroy_leaks_lock data l calls l' :
  plugin_reset_destroy data l = Ret (calls, l') -> lock (pl l') = lock (pl l) + 2.
Proof. apply destroy_lock. Qed.

(** ** Loading *)

(** The state in which the plugin's install function is entered. *)
Definition entered (l : loader) (p desc id : Z) : loader :=
  set_pl l (update_ctx (set_ids (set_lock (pl l) (lock (pl l) + 1)) (ctxs (pl l) ++ [p])
                         (<[id := p + id_offset]> (id_ht (pl l)))) p (mkCtx id (fun _ => 0) desc true false false)).

Lemma entered_wf l p desc id :
  wf (pl l) -> ctx_mem (pl l) !! p = None -> 0 < p < 2 ^ 64 - id_offset -> id_ht (pl l) !! id = None ->
  wf (pl (entered l p desc id)).
Proof.
  intros (Hs & [H1 H2] & Hc) Hp Hr Hid.
  split_and!; [destruct Hs as [S1 S2 S3 S4 S5]; split|split|by eapply cpus_ok_same];
    cbn [ctx_mem cb_lists cb_mem mask id_ht pl entered set_pl update_ctx set_ids set_lock set_ctx_mem set_cb_state]; try done.
  - intros p' c' ev. rewrite lookup_insert_Some. intros [[<- <-]|[_ Hc']]; [done|by apply S1].
  - intros p' c' ev ev'. rewrite lookup_insert_Some. intros [[<- <-]|[_ Hc']]; [done|by apply (S2 p')].
  - intros ev q Hq. destruct (S3 ev q Hq) as (? & r & c0 & ? & Hc0 & ?). split; [done|]. exists r, c0.
    split_and!; try done. rewrite lookup_insert_ne; [done|]. intros E. by rewrite <- E, Hp in Hc0.
  - intros p' c'. rewrite lookup_insert_Some. intros [[<- <-]|[Hne Hc']]; [by rewrite lookup_insert_eq|].
    destruct (H1 p' c' Hc') as [Hi ?]. split; [|done]. rewrite lookup_insert_ne; [done|]. intros E. by rewrite <- E, Hid in Hi.
  - intros i q. rewrite lookup_insert_Some. intros [[<- <-]|[Hne Hq]].
    + replace (p + id_offset - id_offset) with p by lia. eexists. by rewrite lookup_insert_eq.
    + destruct (H2 i q Hq) as (c' & Hc' & ?). exists c'. split; [|done].
      rewrite lookup_insert_ne; [done|]. intros E. by rewrite <- E, Hp in Hc'.
Qed.

(** What the loader relies on: an install function returns, uses the interface
    only (so the invariant is kept and the option list, the lock and its own
    context stay), and does not uninstall its own plugin. *)
Definition install_ok (install : Z -> Z -> list string -> loader -> cres (Z * loader)) : Prop :=
  forall f id args l p c, wf (pl l) -> ctx_mem (pl l) !! p = Some c -> ctx_id c = id -> installing c = true ->
  uninstalling c = false ->
  exists rc l2 c2, install f id args l = Ret (rc, l2) /\ wf (pl l2) /\ ctx_mem (pl l2) !! p = Some c2 /\
    ctx_id c2 = id /\ ctx_desc c2 = ctx_desc c /\ uninstalling c2 = false /\
    desc_list l2 = desc_list l /\ lock (pl l2) = lock (pl l).

Section Loading.
Context (mem : loader -> Z) (open : string -> option gmodule)
  (install : Z -> Z -> list string -> loader -> cres (Z * loader)).
Context (Hinstall : install_ok install).

(** Loading a valid module either installs the plugin under an unused id,
    with the lock as it was, or, when the install function fails, removes it
    again; then the descriptor is freed while it still is in the option list,
    and the lock is two levels deeper.  The invariant is kept in both cases. *)
Theorem plugin_load_outcome desc d f id l :
  wf (pl l) -> ctx_mem (pl l) !! mem l = None -> 0 < mem l < 2 ^ 64 - id_offset ->
  descs l !! desc = Some d -> plugin_check (open (path d)) = inr f ->
  find_id (id_fuel (id_ht (pl l))) (id_ht (pl l)) (mem l) = Some id ->
  exists rc l', plugin_load mem open install false desc l = Ret (rc, l') /\ wf (pl l') /\
    desc_list l' = desc_list l /\
    (rc = 0 -> lock (pl l') = lock (pl l) /\
       exists c, ctx_mem (pl l') !! mem l = Some c /\ ctx_id c = id /\ ctx_desc c = desc /\ installing c = false) /\
    (rc <> 0 -> ctx_mem (pl l') !! mem l = None /\ id_ht (pl l') !! id = None /\
       descs l' !! desc = None /\ lock (pl l') = lock (pl l) + 2).
Proof.
  intros Hwf Hp Hr Hd Hf Hid. destruct (find_id_unused _ _ _ _ Hid) as [Hfree _]. unfold plugin_load. rewrite Hd, Hf. cbn [id_ht set_lock]. rewrite Hid.
  fold (entered l (mem l) desc id).
  destruct (Hinstall f id (argv d) (entered l (mem l) desc id) (mem l) (mkCtx id (fun _ => 0) desc true false false))
    as (rc & l2 & c2 & Hi & Hwf2 & Hp2 & Hid2 & Hd2 & Hu2 & Hl2 & Hk2);
    [by apply entered_wf|apply lookup_insert_eq|done..|].
  cbn in Hd2, Hl2, Hk2. change (set_pl l _) with (entered l (mem l) desc id). rewrite Hi. cbn [cbind]. rewrite Hp2, Hu2.
  pose proof (wf_flags (pl l2) (mem l) c2 false false (resetting c2) Hwf2 Hp2) as Hwf3.
  exists rc. destruct (Z.eqb_spec rc 0) as [->|Hrc].
  - cbn [ztrue negb Z.eqb andb cbind]. eexists. split; [done|]. cbn [pl set_pl desc_list].
    split_and!; [by apply wf_set_lock|done| |done]. intros _. split; [cbn; lia|].
    eexists. split; [apply lookup_insert_eq|done].
  - assert (ztrue rc = true) as -> by (unfold ztrue; by destruct (Z.eqb_spec rc 0)). cbn [negb andb].
    set (c3 := set_flags c2 false false (resetting c2)) in *. set (l3 := set_pl l2 _).
    change (ctx_id c2) with (ctx_id c3). unfold plugin_reset_uninstall.
    assert (ctx_mem (pl l3) !! mem l = Some c3) as Hp3 by apply lookup_insert_eq.
    rewrite (id_to_ctx_ok (pl l3) (mem l) c3 (proj1 (proj2 Hwf3)) Hp3). cbn [cbind].
    change (uninstalling c3) with false. cbn [orb andb negb].
    destruct (destroy_removes (set_pl l3 (update_ctx (pl l3) (mem l) (set_flags c3 false true false)))
      (mem l) (set_flags c3 false true false) 0) as (l' & Hd4 & R4);
      [by apply wf_flags|apply lookup_insert_eq|done..|].
    change (installing c3) with false. rewrite Hd4. cbn [cbind snd].
    eexists. split; [done|]. destruct R4 as (R1 & R2 & R3 & _ & _ & _ & R7 & R8 & _).
    cbn [pl set_pl desc_list descs]. split_and!; [by apply wf_set_lock|by rewrite R8|done|].
    intros _. split_and!; [done| | |].
    + rewrite <- Hid2. exact R3.
    + rewrite R7. cbn. rewrite Hd2. apply lookup_delete_eq.
    + apply destroy_lock in Hd4. cbn [lock set_lock]. rewrite Hd4. cbn. lia.
Qed.
End Loading.

(** ** Concrete instances *)

Definition demo_opts : list (string * string) :=
  [("file", "a.so"); ("arg", "x"); ("file", "b.so"); ("file", "a.so"); ("arg", "y")]%string.

Lemma opt_parse_groups_witness :
  exists l', qemu_plugin_opt_parse (Some demo_opts) [] = Ret l' /\ NoDup (paths l') /\
    (paths [] `prefix_of` paths l') /\
    (forall p, p ∈ paths l' <-> p ∈ paths [] \/ ("file"%string, p) ∈ demo_opts) /\
    (forall p, args_of l' p = args_of [] p ++ group_args p None demo_opts).
Proof. apply opt_parse_groups; [constructor|done]. Defined.

Lemma xorshift64star_injective_witness : xorshift64star 0x1000 <> xorshift64star 0x2000.
Proof. apply xorshift64star_injective; lia. Defined.

Lemma find_id_decides_witness :
  find_id 7 {[xorshift64star 64 := 1]} 64 = find_id (id_fuel {[xorshift64star 64 := 1]}) {[xorshift64star 64 := 1]} 64 /\
  (forall id, find_id (id_fuel {[xorshift64star 64 := 1]}) {[xorshift64star 64 := 1]} 64 = Some id ->
     ({[xorshift64star 64 := 1]} : gmap Z Z) !! id = None /\ 0 <= id < 2 ^ 64).
Proof. apply (find_id_decides {[xorshift64star 64 := 1]} 64 7). apply Nat.leb_le. by vm_compute. Defined.

(** Two plugins are loaded, a third one is in the option list. *)
Definition demo_loader : loader :=
  mkLoader demo_plugins {[11 := mkDesc "a.so" []; 22 := mkDesc "b.so" []; 33 := mkDesc "c.so" ["x"%string]]} [33] [].

Lemma uninstall_removes_plugin_witness :
  exists l', qemu_plugin_uninstall false 11 5 demo_loader = Ret ([(5, [11])], l') /\
    removed demo_loader l' 0x1000 (demo_ctx 11).
Proof. apply (uninstall_removes_plugin demo_loader 0x1000 (demo_ctx 11) 5); [exact demo_plugins_wf|done..]. Defined.

Lemma uninstall_deferred_witness :
  exists l1 calls l', qemu_plugin_uninstall true 11 5 demo_loader = Ret ([], l1) /\
    (forall p' ev, subscription (pl l1) p' ev = subscription (pl demo_loader) p' ev) /\
    qemu_plugin_uninstall true 11 6 l1 = Ret ([], l1) /\
    plugin_cb__simple EV_FLUSH (pl l1) = Ret calls /\
    run_safe_work l1 = Ret (calls ++ [(5, [11])] ++ [], l') /\ removed demo_loader l' 0x1000 (demo_ctx 11).
Proof. apply (uninstall_deferred demo_loader 0x1000 (demo_ctx 11) 5 6); [exact demo_plugins_wf|done..]. Defined.

Lemma reset_clears_subscriptions_witness :
  exists l' c', qemu_plugin_reset false 11 5 demo_loader = Ret ([(5, [11])], l') /\ wf (pl l') /\
    id_ht (pl l') = id_ht (pl demo_loader) /\ ctx_mem (pl l') !! 0x1000 = Some c' /\ ctx_id c' = 11 /\
    resetting c' = false /\ uninstalling c' = false /\
    forall p' ev, subscription (pl l') p' ev =
      if decide (p' = 0x1000) then None else subscription (pl demo_loader) p' ev.
Proof.
  apply (reset_clears_subscriptions demo_loader 0x1000 (demo_ctx 11) 5); [exact demo_plugins_wf|done..].
Defined.

Definition demo_resetting : loader :=
  set_pl demo_loader (update_ctx demo_plugins 0x1000 (set_flags (demo_ctx 11) false false true)).

Lemma reset_destroy_leaks_lock_witness :
  match plugin_reset_destroy (mkReset 0x1000 0 true) demo_resetting with
  | Ret (_, l') => lock (pl l') = 2
  | Abort _ => False
  end.
Proof.
  destruct (plugin_reset_destroy (mkReset 0x1000 0 true) demo_resetting) as [[calls l']|w] eqn:E.
  - exact (reset_destroy_leaks_lock _ _ _ _ E).
  - vm_compute in E. discriminate E.
Defined.

(** Fails when it is given an argument. *)
Definition demo_install (f id : Z) (args : list string) (l : loader) : cres (Z * loader) :=
  Ret (Z.of_nat (List.length args), l).

Lemma demo_install_ok : install_ok demo_install.
Proof. intros f id args l p c Hwf Hp Hid _ Hu. eexists _, l, c. split_and!; done. Qed.

Lemma plugin_load_outcome_witness :
  exists rc l', plugin_load (fun _ => 0x3000) (fun _ => Some (mkModule (Some 7) (Some 0))) demo_install false 33 demo_loader
      = Ret (rc, l') /\ wf (pl l') /\ desc_list l' = [33] /\
    (rc = 0 -> lock (pl l') = 0 /\
       exists c, ctx_mem (pl l') !! 0x3000 = Some c /\ ctx_id c = xorshift64star 0x3000 /\
         ctx_desc c = 33 /\ installing c = false) /\
    (rc <> 0 -> ctx_mem (pl l') !! 0x3000 = None /\ id_ht (pl l') !! xorshift64star 0x3000 = None /\
       descs l' !! 33 = None /\ lock (pl l') = 2).
Proof.
  apply (plugin_load_outcome (fun _ => 0x3000) (fun _ => Some (mkModule (Some 7) (Some 0))) demo_install demo_install_ok
    33 (mkDesc "c.so" ["x"%string]) 7 (xorshift64star 0x3000) demo_loader); [exact demo_plugins_wf|done..|by vm_compute].
Defined.

End PluginLoader.
