(* ===== verification/PluginApi.v ===== *)
(** * Instrumentation records

    What the translator and a plugin share about a block under translation: the
    instruction and block records of qemu/include/qemu/plugin.h and the
    functions of plugins/api.c that query them and register callbacks on them. *)

From S2P Require Import Prelude PluginCore.
Open Scope Z_scope.
Open Scope c_scope.

Module PluginApi.
Import PluginCore.

(** ** Instructions and blocks *)

(** [cbs] is indexed by the kind and the subtype of the callbacks. *)
Record qemu_plugin_insn := mkPInsn {
  data : list Z;
  vaddr : Z;
  paddr : Z;
  haddr : Z;
  insn_regular : list qemu_plugin_dyn_cb;
  insn_inline : list qemu_plugin_dyn_cb;
  mem_regular : list qemu_plugin_dyn_cb;
  mem_inline : list qemu_plugin_dyn_cb;
  calls_helpers : bool;
  mem_helper : bool;
  is_br_jmp : Z;
  target_vaddr : Z;
}.

Definition qemu_plugin_insn_alloc : qemu_plugin_insn := mkPInsn [] 0 0 0 [] [] [] [] false false 0 0.

(** [insns] may hold more records than the [n] in use. *)
Record qemu_plugin_tb := mkPTb {
  insns : list qemu_plugin_insn;
  n : nat;
  tb_vaddr : Z;
  vaddr2 : Z;
  paddr1 : Z;
  paddr2 : Z;
  haddr1 : Z;
  haddr2 : Z;
  tb_regular : list qemu_plugin_dyn_cb;
  tb_inline : list qemu_plugin_dyn_cb;
}.

Definition set_insns (tb : qemu_plugin_tb) (l : list qemu_plugin_insn) (k : nat) : qemu_plugin_tb :=
  mkPTb l k (tb_vaddr tb) (vaddr2 tb) (paddr1 tb) (paddr2 tb) (haddr1 tb) (haddr2 tb) (tb_regular tb) (tb_inline tb).

(** A record reused for another instruction: the addresses and the branch kind
    keep their old values until they are set. *)
Definition insn_reuse (i : qemu_plugin_insn) : qemu_plugin_insn :=
  mkPInsn [] (vaddr i) (paddr i) (haddr i) [] [] [] [] false false (is_br_jmp i) (target_vaddr i).

(** The position of the record and the block. *)
Definition qemu_plugin_tb_insn_get (tb : qemu_plugin_tb) : nat * qemu_plugin_tb :=
  let l := if (n tb =? List.length (insns tb))%nat then insns tb ++ [qemu_plugin_insn_alloc] else insns tb in
  (n tb, set_insns tb (alter insn_reuse (n tb) l) (S (n tb))).

(** ** Queries *)

Definition qemu_plugin_tb_n_insns (tb : qemu_plugin_tb) : nat := n tb.
Definition qemu_plugin_tb_vaddr (tb : qemu_plugin_tb) : Z := tb_vaddr tb.

(** The record's position; [None] is NULL. *)
Definition qemu_plugin_tb_get_insn (tb : qemu_plugin_tb) (idx : nat) : option nat :=
  if (n tb <=? idx)%nat then None else Some idx.

Definition qemu_plugin_insn_data (i : qemu_plugin_insn) : list Z := data i.
Definition qemu_plugin_insn_size (i : qemu_plugin_insn) : nat := List.length (data i).
Definition qemu_plugin_insn_vaddr (i : qemu_plugin_insn) : Z := vaddr i.
Definition qemu_plugin_insn_haddr (i : qemu_plugin_insn) : Z := haddr i.
Definition qemu_plugin_insn_paddr (i : qemu_plugin_insn) : Z := paddr i.
Definition qemu_plugin_insn_is_br_jmp (i : qemu_plugin_insn) : Z := is_br_jmp i.
Definition qemu_plugin_insn_target_vaddr (i : qemu_plugin_insn) : Z := target_vaddr i.

(** ** Registration *)

Definition set_cbs (i : qemu_plugin_insn) (ir ii mr mi : list qemu_plugin_dyn_cb) : qemu_plugin_insn :=
  mkPInsn (data i) (vaddr i) (paddr i) (haddr i) ir ii mr mi (calls_helpers i) (mem_helper i) (is_br_jmp i) (target_vaddr i).

Definition qemu_plugin_register_vcpu_tb_exec_cb (tb : qemu_plugin_tb) (cb : Z) (flags : qemu_plugin_cb_flags)
  (udata : Z) : qemu_plugin_tb :=
  mkPTb (insns tb) (n tb) (tb_vaddr tb) (vaddr2 tb) (paddr1 tb) (paddr2 tb) (haddr1 tb) (haddr2 tb)
    (plugin_register_dyn_cb__udata (tb_regular tb) cb flags udata) (tb_inline tb).

Definition qemu_plugin_register_vcpu_tb_exec_inline (tb : qemu_plugin_tb) (op : qemu_plugin_op) (ptr imm : Z)
  : qemu_plugin_tb :=
  mkPTb (insns tb) (n tb) (tb_vaddr tb) (vaddr2 tb) (paddr1 tb) (paddr2 tb) (haddr1 tb) (haddr2 tb)
    (tb_regular tb) (plugin_register_inline_op (tb_inline tb) 0 op ptr imm).

Definition qemu_plugin_register_vcpu_insn_exec_cb (i : qemu_plugin_insn) (cb : Z) (flags : qemu_plugin_cb_flags)
  (udata : Z) : qemu_plugin_insn :=
  set_cbs i (plugin_register_dyn_cb__udata (insn_regular i) cb flags udata) (insn_inline i) (mem_regular i) (mem_inline i).

Definition qemu_plugin_register_vcpu_insn_exec_inline (i : qemu_plugin_insn) (op : qemu_plugin_op) (ptr imm : Z)
  : qemu_plugin_insn :=
  set_cbs i (insn_regular i) (plugin_register_inline_op (insn_inline i) 0 op ptr imm) (mem_regular i) (mem_inline i).

Definition qemu_plugin_register_vcpu_mem_cb (i : qemu_plugin_insn) (cb : Z) (flags : qemu_plugin_cb_flags)
  (rw udata : Z) : qemu_plugin_insn :=
  set_cbs i (insn_regular i) (insn_inline i) (plugin_register_vcpu_mem_cb (mem_regular i) cb flags rw udata) (mem_inline i).

Definition qemu_plugin_register_vcpu_mem_inline (i : qemu_plugin_insn) (rw : Z) (op : qemu_plugin_op) (ptr imm : Z)
  : qemu_plugin_insn :=
  set_cbs i (insn_regular i) (insn_inline i) (mem_regular i) (plugin_register_inline_op (mem_inline i) rw op ptr imm).

(** ** Records are handed out clean *)

Definition fresh_cbs (i : qemu_plugin_insn) : Prop :=
  data i = [] /\ insn_regular i = [] /\ insn_inline i = [] /\ mem_regular i = [] /\ mem_inline i = [] /\
  calls_helpers i = false /\ mem_helper i = false.

(** The record the translator gets carries nothing over from the block that
    used it before, and the records of the instructions before it are kept. *)
Lemma insn_get_fresh tb k tb' :
  (n tb <= List.length (insns tb))%nat -> qemu_plugin_tb_insn_get tb = (k, tb') ->
  k = n tb /\ n tb' = S (n tb) /\ (n tb' <= List.length (insns tb'))%nat /\
  (exists i, insns tb' !! k = Some i /\ fresh_cbs i) /\
  (forall j, (j < n tb)%nat -> insns tb' !! j = insns tb !! j).
Proof.
  intros Hle. unfold qemu_plugin_tb_insn_get. intros [= <- <-]. cbn [n insns set_insns].
  set (l := if (n tb =? List.length (insns tb))%nat then insns tb ++ [qemu_plugin_insn_alloc] else insns tb).
  assert ((n tb < List.length l)%nat /\ forall j, (j < n tb)%nat -> l !! j = insns tb !! j) as [Hl Hj].
  { unfold l. destruct (Nat.eqb_spec (n tb) (List.length (insns tb))) as [E|E]; [|split; [lia|done]].
    rewrite length_app. split; [simpl; lia|]. intros j Hj. apply lookup_app_l. lia. }
  split_and!; [done..|by rewrite length_alter| |].
  - destruct (lookup_lt_is_Some_2 l (n tb) Hl) as [i Hi]. exists (insn_reuse i).
    by rewrite list_lookup_alter_eq, Hi.
  - intros j Hlt. rewrite list_lookup_alter_ne by lia. by apply Hj.
Qed.

End PluginApi.
