(* ===== verification/Pqii.v ===== *)
(** * The instrumentation device

    qemu/hw/misc/pqii.c, with the tracing switch of include/hw/pqii.h that the
    device shares with the tracer plugin.  The bus master's view of memory is a
    function from addresses to bytes; the interrupts the device signals are
    recorded in order. *)

From S2P Require Import Prelude.
Open Scope Z_scope.
Open Scope c_scope.

Module Pqii.

Definition FACT_IRQ : Z := 0x00000001.
Definition DMA_IRQ : Z := 0x00000100.
Definition DMA_START : Z := 0x40000.
Definition DMA_SIZE : Z := 4096.
Definition PQII_STATUS_COMPUTING : Z := 0x01.
Definition PQII_STATUS_IRQFACT : Z := 0x80.
Definition PQII_DMA_RUN : Z := 0x1.
Definition PQII_DMA_FROM_PCI : Z := 0.
Definition PQII_DMA_IRQ : Z := 0x4.
Definition PQII_DMA_DIR (cmd : Z) : Z := Z.shiftr (Z.land cmd 0x2) 1.

(** The switch and the counter of the tracer. *)
Record pqii_data := mkData {
  status : Z;
  icount : Z;
}.

Record dma_state := mkDma {
  src : Z;
  dst : Z;
  cnt : Z;
  cmd : Z;
}.

Inductive signal := MsiNotify | SetIrq (level : bool).

(** [dma_timer] is the time the timer is set to, if it is. *)
Record PqiiState := mkPqii {
  msi : bool;
  stopping : bool;
  addr4 : Z;
  fact : Z;
  dev_status : Z;
  irq_status : Z;
  dma : dma_state;
  dma_timer : option Z;
  dma_buf : list Z;
  dma_mask : Z;
  signals : list signal;
}.

Definition set_irq (p : PqiiState) (v : Z) (s : list signal) : PqiiState :=
  mkPqii (msi p) (stopping p) (addr4 p) (fact p) (dev_status p) v (dma p) (dma_timer p) (dma_buf p) (dma_mask p) s.
Definition set_fact (p : PqiiState) (f s : Z) : PqiiState :=
  mkPqii (msi p) (stopping p) (addr4 p) f s (irq_status p) (dma p) (dma_timer p) (dma_buf p) (dma_mask p) (signals p).
Definition set_addr4 (p : PqiiState) (a : Z) : PqiiState :=
  mkPqii (msi p) (stopping p) a (fact p) (dev_status p) (irq_status p) (dma p) (dma_timer p) (dma_buf p) (dma_mask p) (signals p).
Definition set_dma (p : PqiiState) (d : dma_state) (t : option Z) : PqiiState :=
  mkPqii (msi p) (stopping p) (addr4 p) (fact p) (dev_status p) (irq_status p) d t (dma_buf p) (dma_mask p) (signals p).
Definition set_buf (p : PqiiState) (b : list Z) : PqiiState :=
  mkPqii (msi p) (stopping p) (addr4 p) (fact p) (dev_status p) (irq_status p) (dma p) (dma_timer p) b (dma_mask p) (signals p).
Definition set_stopping (p : PqiiState) : PqiiState :=
  mkPqii (msi p) true (addr4 p) (fact p) (dev_status p) (irq_status p) (dma p) (dma_timer p) (dma_buf p) (dma_mask p) (signals p).

(** ** Interrupts *)

Definition pqii_raise_irq (p : PqiiState) (val : Z) : PqiiState :=
  let v := Z.lor (irq_status p) (u32 val) in
  if ztrue v then set_irq p v (signals p ++ [if msi p then MsiNotify else SetIrq true])
  else set_irq p v (signals p).

Definition pqii_lower_irq (p : PqiiState) (val : Z) : PqiiState :=
  let v := Z.land (irq_status p) (not32 (u32 val)) in
  if negb (ztrue v) && negb (msi p) then set_irq p v (signals p ++ [SetIrq false])
  else set_irq p v (signals p).

(** ** DMA *)

Definition within (addr start end_ : Z) : bool := (start <=? addr) && (addr <? end_).

Definition pqii_check_range (addr size1 start size2 : Z) : cres unit :=
  let end1 := u64 (addr + size1) in
  let end2 := u64 (start + size2) in
  if within addr start end2 && (addr <? end1) && within end1 start end2 then Ret tt
  else Abort "PQII: DMA range out of bounds".

Definition pqii_clamp_addr (p : PqiiState) (addr : Z) : Z := Z.land addr (dma_mask p).

(** [pci_dma_read] and [pci_dma_write]: [n] bytes from or to an address. *)
Definition pci_dma_read (mem : Z -> Z) (addr : Z) (n : nat) : list Z :=
  map (fun i => mem (addr + Z.of_nat i)) (seq 0 n).
Definition pci_dma_write (mem : Z -> Z) (addr : Z) (bytes : list Z) : Z -> Z := fun a =>
  if (addr <=? a) then default (mem a) (bytes !! Z.to_nat (a - addr)) else mem a.

Definition pqii_dma_timer (p : PqiiState) (mem : Z -> Z) : cres (PqiiState * (Z -> Z)) :=
  let d := dma p in
  if negb (ztrue (Z.land (cmd d) PQII_DMA_RUN)) then Ret (p, mem)
  else
    let* r :=
      if PQII_DMA_DIR (cmd d) =? PQII_DMA_FROM_PCI then
        let* _ := pqii_check_range (dst d) (cnt d) DMA_START DMA_SIZE in
        let o := Z.to_nat (dst d - DMA_START) in
        Ret (set_buf p (list_inserts o (pci_dma_read mem (pqii_clamp_addr p (src d)) (Z.to_nat (cnt d))) (dma_buf p)), mem)
      else
        let* _ := pqii_check_range (src d) (cnt d) DMA_START DMA_SIZE in
        let o := Z.to_nat (src d - DMA_START) in
        Ret (p, pci_dma_write mem (pqii_clamp_addr p (dst d)) (take (Z.to_nat (cnt d)) (drop o (dma_buf p)))) in
    let '(p, mem) := r in
    let c := Z.land (cmd d) (not64 PQII_DMA_RUN) in
    let p := set_dma p (mkDma (src d) (dst d) (cnt d) c) (dma_timer p) in
    Ret (if ztrue (Z.land c PQII_DMA_IRQ) then pqii_raise_irq p DMA_IRQ else p, mem).

(** The registers [dma_rw] is applied to. *)
Inductive dma_reg := RSrc | RDst | RCnt | RCmd.

Definition dma_get (d : dma_state) (r : dma_reg) : Z :=
  match r with RSrc => src d | RDst => dst d | RCnt => cnt d | RCmd => cmd d end.
Definition dma_set (d : dma_state) (r : dma_reg) (v : Z) : dma_state :=
  match r with
  | RSrc => mkDma v (dst d) (cnt d) (cmd d)
  | RDst => mkDma (src d) v (cnt d) (cmd d)
  | RCnt => mkDma (src d) (dst d) v (cmd d)
  | RCmd => mkDma (src d) (dst d) (cnt d) v
  end.

(** [now] is the virtual clock in milliseconds. *)
Definition dma_rw_write (now : Z) (p : PqiiState) (val : Z) (r : dma_reg) (timer : bool) : PqiiState :=
  if ztrue (Z.land (cmd (dma p)) PQII_DMA_RUN) then p
  else set_dma p (dma_set (dma p) r val) (if timer then Some (now + 100) else dma_timer p).

Definition dma_rw_read (p : PqiiState) (r : dma_reg) : Z := dma_get (dma p) r.

(** ** Registers *)

(** The size test at the head of both handlers. *)
Definition bad_size (addr size : Z) : bool :=
  (addr <? 0x80) && negb (size =? 4) || (0x80 <=? addr) && negb (size =? 4) && negb (size =? 8).

Definition pqii_mmio_read (p : PqiiState) (addr size : Z) : Z :=
  let val := not64 0 in
  if bad_size addr size then val
  else if addr =? 0x00 then 0x010000ed
  else if addr =? 0x04 then addr4 p
  else if addr =? 0x08 then fact p
  else if addr =? 0x20 then dev_status p
  else if addr =? 0x24 then irq_status p
  else if addr =? 0x80 then dma_rw_read p RSrc
  else if addr =? 0x88 then dma_rw_read p RDst
  else if addr =? 0x90 then dma_rw_read p RCnt
  else if addr =? 0x98 then dma_rw_read p RCmd
  else val.

Definition pqii_mmio_write (now : Z) (addr val size : Z) (s : PqiiState * pqii_data) : PqiiState * pqii_data :=
  let '(p, g) := s in
  if bad_size addr size then (p, g)
  else if addr =? 0x04 then (set_addr4 p (u32 (Z.lnot val)), g)
  else if addr =? 0x08 then
    if ztrue (Z.land (dev_status p) PQII_STATUS_COMPUTING) then (p, g)
    else (set_fact p (u32 val) (Z.lor (dev_status p) PQII_STATUS_COMPUTING), g)
  else if addr =? 0x20 then
    if ztrue (Z.land val PQII_STATUS_IRQFACT)
    then (set_fact p (fact p) (Z.lor (dev_status p) PQII_STATUS_IRQFACT), g)
    else (set_fact p (fact p) (Z.land (dev_status p) (not32 PQII_STATUS_IRQFACT)), g)
  else if addr =? 0x60 then (pqii_raise_irq p val, g)
  else if addr =? 0x64 then (pqii_lower_irq p val, g)
  else if addr =? 0x80 then (dma_rw_write now p val RSrc false, g)
  else if addr =? 0x88 then (dma_rw_write now p val RDst false, g)
  else if addr =? 0x90 then (dma_rw_write now p val RCnt false, g)
  else if addr =? 0x98 then
    if negb (ztrue (Z.land val PQII_DMA_RUN)) then (p, g) else (dma_rw_write now p val RCmd true, g)
  else if addr =? 0xa0 then (p, mkData (b2z (negb (ztrue (status g)))) 0)
  else (p, g).

(** ** The factorial thread *)

(** [while (val > 0) ret *= val--] on 32-bit values; the counter is the value. *)
Fixpoint fact_loop (val : nat) (ret : Z) : Z :=
  match val with
  | O => ret
  | S v => fact_loop v (u32 (ret * Z.of_nat val))
  end.

Inductive fact_state :=
| FWaiting                    (* before the condition variable *)
| FComputing (val : Z)        (* the argument is read, the lock released *)
| FExited.

(** The first critical section of a turn. *)
Definition fact_begin (p : PqiiState) : fact_state :=
  if stopping p then FExited
  else if ztrue (Z.land (dev_status p) PQII_STATUS_COMPUTING) then FComputing (fact p)
  else FWaiting.

(** The rest of the turn. *)
Definition fact_end (val : Z) (p : PqiiState) : PqiiState :=
  let p := set_fact p (fact_loop (Z.to_nat val) 1) (Z.land (dev_status p) (not32 PQII_STATUS_COMPUTING)) in
  if ztrue (Z.land (dev_status p) PQII_STATUS_IRQFACT) then pqii_raise_irq p FACT_IRQ else p.

(** ** Life cycle *)

Definition pqii_instance_init (p : PqiiState) : PqiiState :=
  mkPqii (msi p) (stopping p) (addr4 p) (fact p) (dev_status p) (irq_status p) (dma p) (dma_timer p) (dma_buf p)
    (2 ^ 28 - 1) (signals p).

(** A device as allocated: zero-filled. *)
Definition pqii_new (msi : bool) : PqiiState :=
  pqii_instance_init
    (mkPqii msi false 0 0 0 0 (mkDma 0 0 0 0) None (replicate (Z.to_nat DMA_SIZE) 0) 0 []).

(** The flag that ends the factorial thread, and the timer. *)
Definition pci_pqii_uninit (p : PqiiState) : PqiiState :=
  set_dma (set_stopping p) (dma p) None.

Definition pqii_post_load (g : pqii_data) : pqii_data := mkData 0 (icount g).
Definition pqii_class_init (g : pqii_data) : pqii_data := mkData 0 (icount g).

(** ** The DMA window *)

Lemma check_range_iff addr size :
  0 <= addr < 2 ^ 64 -> 0 <= size < 2 ^ 64 ->
  pqii_check_range addr size DMA_START DMA_SIZE = Ret tt <->
  DMA_START <= addr /\ 0 < size /\ addr + size < DMA_START + DMA_SIZE.
Proof.
  intros Ha Hs. unfold pqii_check_range, within, DMA_START, DMA_SIZE.
  change (u64 (0x40000 + 4096)) with 266240.
  assert (u64 (addr + size) = if addr + size <? 2 ^ 64 then addr + size else addr + size - 2 ^ 64) as ->.
  { unfold u64. destruct (Z.ltb_spec (addr + size) (2 ^ 64)); [apply Z.mod_small; lia|].
    symmetry. apply (Z.mod_unique_pos _ _ 1); lia. }
  destruct (_ && _) eqn:E; split; try done;
    repeat (rewrite ?andb_true_iff, ?andb_false_iff, ?Z.leb_le, ?Z.ltb_lt, ?Z.leb_gt, ?Z.ltb_ge in E);
    destruct (Z.ltb_spec (addr + size) (2 ^ 64)); lia.
Qed.

Lemma check_range_unit a s b t u : pqii_check_range a s b t = Ret u -> pqii_check_range a s b t = Ret tt.
Proof. by destruct u. Qed.

Lemma length_pci_dma_read mem a n : List.length (pci_dma_read mem a n) = n.
Proof. unfold pci_dma_read. by rewrite length_map, length_seq. Qed.

(** The transfer a command asks for, as a range of the buffer. *)
Definition dma_offset (d : dma_state) : Z :=
  (if PQII_DMA_DIR (cmd d) =? PQII_DMA_FROM_PCI then dst d else src d) - DMA_START.

(** The DMA timer either stops the machine or stays inside the buffer: a
    transfer that completes reads and writes only bytes of the buffer, does not
    resize it, and never includes the buffer's last byte, so a transfer of the
    whole buffer is refused. *)
Theorem dma_stays_in_buffer p mem p' mem' :
  0 <= src (dma p) < 2 ^ 64 -> 0 <= dst (dma p) < 2 ^ 64 -> 0 <= cnt (dma p) < 2 ^ 64 ->
  List.length (dma_buf p) = Z.to_nat DMA_SIZE ->
  ztrue (Z.land (cmd (dma p)) PQII_DMA_RUN) = true ->
  pqii_dma_timer p mem = Ret (p', mem') ->
  0 <= dma_offset (dma p) /\ 0 < cnt (dma p) /\ dma_offset (dma p) + cnt (dma p) < DMA_SIZE /\
  List.length (dma_buf p') = Z.to_nat DMA_SIZE.
Proof.
  intros Hs Hd Hc Hb Hr. unfold pqii_dma_timer, dma_offset. rewrite Hr. cbn [negb]. rewrite cbind_Ret.
  intros ([p1 m1] & H1 & H2). assert (List.length (dma_buf p') = List.length (dma_buf p1)) as ->.
  { injection H2 as <- _. unfold pqii_raise_irq. repeat case_match; reflexivity. }
  destruct (_ =? PQII_DMA_FROM_PCI); rewrite cbind_Ret in H1; destruct H1 as (u & Hu%check_range_unit & [= <- <-]);
    apply check_range_iff in Hu; try done; unfold DMA_START, DMA_SIZE in *; split_and!; try lia; try done.
  cbn [dma_buf set_buf]. by rewrite length_inserts.
Qed.

(** A driver's transfer: program the registers, start, let the timer fire. *)
Definition transfer (now s d n c : Z) (st : PqiiState * pqii_data) (mem : Z -> Z)
  : cres (PqiiState * pqii_data * (Z -> Z)) :=
  let st := pqii_mmio_write now 0x80 s 8 st in
  let st := pqii_mmio_write now 0x88 d 8 st in
  let st := pqii_mmio_write now 0x90 n 8 st in
  let st := pqii_mmio_write now 0x98 c 8 st in
  let* r := pqii_dma_timer st.1 mem in
  Ret (r.1, st.2, r.2).

(** The device after the registers of an idle device were programmed. *)
Definition programmed (now s d n c : Z) (p : PqiiState) : PqiiState :=
  set_dma p (mkDma s d n c) (Some (now + 100)).

Lemma transfer_programmed now s d n c p g mem :
  ztrue (Z.land (cmd (dma p)) PQII_DMA_RUN) = false -> ztrue (Z.land c PQII_DMA_RUN) = true ->
  transfer now s d n c (p, g) mem =
  let* r := pqii_dma_timer (programmed now s d n c p) mem in Ret (r.1, g, r.2).
Proof.
  intros Hi Hr. unfold transfer, pqii_mmio_write, dma_rw_write. cbn [bad_size Z.ltb Z.leb Z.eqb Z.compare Pos.compare
    Pos.compare_cont Pos.eqb andb orb negb]. rewrite Hi. cbn [dma set_dma dma_set cmd src dst cnt]. rewrite Hi.
  cbn [dma set_dma dma_set cmd src dst cnt]. rewrite Hi, Hr.
  cbn [negb dma set_dma dma_set cmd src dst cnt fst snd]. by rewrite Hi.
Qed.

Lemma clamp_small p a : dma_mask p = 2 ^ 28 - 1 -> 0 <= a < 2 ^ 28 -> pqii_clamp_addr p a = a.
Proof.
  intros Hm Ha. unfold pqii_clamp_addr. rewrite Hm. replace (2 ^ 28 - 1) with (Z.ones 28) by done.
  rewrite Z.land_ones by lia. by apply Z.mod_small.
Qed.

Lemma read_inserted (buf l : list Z) o :
  (o + List.length l <= List.length buf)%nat -> take (List.length l) (drop o (list_inserts o l buf)) = l.
Proof.
  intros H. apply list_eq. intros i. destruct (decide (i < List.length l)%nat) as [Hi|Hi].
  - rewrite lookup_take_lt, lookup_drop by done. rewrite list_lookup_inserts by lia. f_equal. lia.
  - rewrite lookup_take_ge, lookup_ge_None_2 by lia. done.
Qed.

(** A block copied into the device and back out arrives unchanged, and no
    other byte of memory changes; the device is idle afterwards. *)
Theorem dma_roundtrip now p g mem a b o n :
  ztrue (Z.land (cmd (dma p)) PQII_DMA_RUN) = false -> dma_mask p = 2 ^ 28 - 1 ->
  List.length (dma_buf p) = Z.to_nat DMA_SIZE ->
  0 <= a < 2 ^ 28 -> 0 <= b < 2 ^ 28 -> 0 <= o -> 0 < n -> o + n < DMA_SIZE ->
  exists p1 p2 mem', transfer now a (DMA_START + o) n 1 (p, g) mem = Ret (p1, g, mem) /\
    transfer now (DMA_START + o) b n 3 (p1, g) mem = Ret (p2, g, mem') /\
    ztrue (Z.land (cmd (dma p2)) PQII_DMA_RUN) = false /\ signals p2 = signals p /\
    forall i, mem' i = if (b <=? i) && (i <? b + n) then mem (a + (i - b)) else mem i.
Proof.
  intros Hi Hm Hb Ha Hb' Ho Hn Hon.
  assert (pqii_check_range (DMA_START + o) n DMA_START DMA_SIZE = Ret tt) as Hr.
  { apply check_range_iff; unfold DMA_START, DMA_SIZE in *; lia. }
  set (data := pci_dma_read mem a (Z.to_nat n)).
  exists (set_dma (set_buf (programmed now a (DMA_START + o) n 1 p) (list_inserts (Z.to_nat o) data (dma_buf p)))
           (mkDma a (DMA_START + o) n 0) (Some (now + 100))).
  eexists _, _. split_and!.
  - rewrite transfer_programmed by done. unfold pqii_dma_timer. cbn [dma programmed set_dma cmd src dst cnt].
    change (negb (ztrue (Z.land 1 PQII_DMA_RUN))) with false. change (PQII_DMA_DIR 1 =? PQII_DMA_FROM_PCI) with true.
    rewrite Hr. cbn [cbind]. rewrite clamp_small by done. replace (DMA_START + o - DMA_START) with o by lia. done.
  - rewrite transfer_programmed by done. unfold pqii_dma_timer. cbn [dma programmed set_dma cmd src dst cnt].
    change (negb (ztrue (Z.land 3 PQII_DMA_RUN))) with false. change (PQII_DMA_DIR 3 =? PQII_DMA_FROM_PCI) with false.
    rewrite Hr. cbn [cbind]. rewrite clamp_small by done. replace (DMA_START + o - DMA_START) with o by lia.
    cbn [dma_buf set_dma set_buf programmed].
    assert (take (Z.to_nat n) (drop (Z.to_nat o) (list_inserts (Z.to_nat o) data (dma_buf p))) = data) as ->.
    { pose proof (read_inserted (dma_buf p) data (Z.to_nat o)) as H. unfold data in H at 1 2.
      rewrite length_pci_dma_read, Hb in H. apply H. unfold DMA_SIZE in *. lia. }
    done.
  - done.
  - done.
  - intros i. cbn [snd]. unfold pci_dma_write, data, pci_dma_read. destruct (Z.leb_spec b i); cbn [andb]; [|done].
    rewrite (list_lookup_fmap (fun i => mem (a + Z.of_nat i))). destruct (Z.ltb_spec i (b + n)).
    + rewrite lookup_seq_lt by lia. simpl. f_equal. lia.
    + by rewrite lookup_seq_ge by lia.
Qed.

(** ** The factorial *)

Fixpoint factorial (n : nat) : Z :=
  match n with
  | O => 1
  | S m => Z.of_nat n * factorial m
  end.

Lemma fact_loop_factorial n : forall r, fact_loop n (u32 r) = u32 (r * factorial n).
Proof.
  induction n as [|n IH]; intros r; cbn [fact_loop factorial]; [by rewrite Z.mul_1_r|].
  rewrite IH. unfold u32. by rewrite <- Z.mul_assoc, Z.mul_mod_idemp_l by lia.
Qed.

Definition computing (p : PqiiState) : bool := Z.testbit (dev_status p) 0.

Lemma computing_test p : ztrue (Z.land (dev_status p) PQII_STATUS_COMPUTING) = computing p.
Proof. by apply (ztrue_land_pow2 _ 0). Qed.

Lemma raise_irq_fact p v : fact (pqii_raise_irq p v) = fact p /\ dev_status (pqii_raise_irq p v) = dev_status p.
Proof. unfold pqii_raise_irq. by destruct (ztrue _). Qed.

Lemma lower_irq_fact p v : fact (pqii_lower_irq p v) = fact p /\ dev_status (pqii_lower_irq p v) = dev_status p.
Proof. unfold pqii_lower_irq. by destruct (_ && _). Qed.

Lemma dma_write_fact now p v r t :
  fact (dma_rw_write now p v r t) = fact p /\ dev_status (dma_rw_write now p v r t) = dev_status p.
Proof. unfold dma_rw_write. by destruct (ztrue _). Qed.

Lemma testbit0_irqfact s : Z.testbit (Z.lor s PQII_STATUS_IRQFACT) 0 = Z.testbit s 0.
Proof. rewrite Z.lor_spec. apply orb_false_r. Qed.

Lemma testbit0_not_irqfact s : Z.testbit (Z.land s (not32 PQII_STATUS_IRQFACT)) 0 = Z.testbit s 0.
Proof. rewrite Z.land_spec. apply andb_true_r. Qed.

(** No register write disturbs a computation. *)
Lemma write_computing now a v sz p g :
  computing p = true ->
  computing (pqii_mmio_write now a v sz (p, g)).1 = true /\ fact (pqii_mmio_write now a v sz (p, g)).1 = fact p.
Proof.
  intros Hc. unfold pqii_mmio_write. rewrite computing_test, Hc. unfold computing in *.
  repeat (case_match; [cbn [fst]|]); cbn [fst]; try done;
    rewrite ?(proj1 (raise_irq_fact _ _)), ?(proj2 (raise_irq_fact _ _)), ?(proj1 (lower_irq_fact _ _)),
      ?(proj2 (lower_irq_fact _ _)), ?(proj1 (dma_write_fact _ _ _ _ _)), ?(proj2 (dma_write_fact _ _ _ _ _));
    cbn [dev_status fact set_fact set_addr4]; rewrite ?testbit0_irqfact, ?testbit0_not_irqfact; done.
Qed.

Definition writes (l : list (Z * Z * Z * Z)) (s : PqiiState * pqii_data) : PqiiState * pqii_data :=
  foldl (fun s w => let '(now, a, v, sz) := w in pqii_mmio_write now a v sz s) s l.

Lemma writes_computing l : forall s,
  computing s.1 = true -> computing (writes l s).1 = true /\ fact (writes l s).1 = fact s.1.
Proof.
  induction l as [|[[[now a] v] sz] l IH]; intros [p g] Hc; [done|].
  destruct (write_computing now a v sz p g Hc) as [H1 H2]. unfold writes. cbn [foldl].
  destruct (IH (pqii_mmio_write now a v sz (p, g)) H1) as [H3 H4]. unfold writes in *. by rewrite H3, H4, H2.
Qed.

(** A value written to an idle factorial register is replaced by its
    factorial modulo 2^32, whatever the guest writes to the device while the
    thread computes; the status then no longer says computing. *)
Theorem fact_thread_computes now p g v ws :
  computing p = false -> stopping p = false -> 0 <= v < 2 ^ 32 ->
  let s1 := pqii_mmio_write now 0x08 v 4 (p, g) in
  fact_begin s1.1 = FComputing v /\
  fact (fact_end v (writes ws s1).1) = u32 (factorial (Z.to_nat v)) /\
  computing (fact_end v (writes ws s1).1) = false.
Proof.
  intros Hc Hs Hv. cbn zeta. unfold pqii_mmio_write. cbn [bad_size Z.ltb Z.leb Z.eqb Z.compare Pos.compare
    Pos.compare_cont Pos.eqb andb orb negb]. rewrite computing_test, Hc, u32_small by done. cbn [fst].
  split.
  - unfold fact_begin. cbn [stopping set_fact dev_status fact]. rewrite Hs.
    rewrite (ztrue_land_pow2 _ 0), Z.lor_spec by lia. by rewrite orb_true_r.
  - unfold fact_end. set (p1 := (writes ws _).1).
    assert (fact_loop (Z.to_nat v) 1 = u32 (factorial (Z.to_nat v))) as ->.
    { change 1 with (u32 1) at 1. rewrite fact_loop_factorial. by rewrite Z.mul_1_l. }
    assert (forall q, Z.testbit (Z.land q (not32 PQII_STATUS_COMPUTING)) 0 = false) as H0
      by (intros q; rewrite Z.land_spec; apply andb_false_r).
    unfold computing. destruct (ztrue _); [destruct (raise_irq_fact (set_fact p1 (u32 (factorial (Z.to_nat v)))
      (Z.land (dev_status p1) (not32 PQII_STATUS_COMPUTING))) FACT_IRQ) as [-> ->]|]; split; try done; apply H0.
Qed.

(** ** Concrete instances *)

Definition demo_pqii : PqiiState := pqii_new false.

Lemma dma_roundtrip_witness :
  exists p1 p2 mem', transfer 5 0x1000 (DMA_START + 16) 64 1 (demo_pqii, mkData 0 0) (fun a => a mod 256)
      = Ret (p1, mkData 0 0, fun a => a mod 256) /\
    transfer 5 (DMA_START + 16) 0x8000 64 3 (p1, mkData 0 0) (fun a => a mod 256) = Ret (p2, mkData 0 0, mem') /\
    ztrue (Z.land (cmd (dma p2)) PQII_DMA_RUN) = false /\ signals p2 = [] /\
    forall i, mem' i = if (0x8000 <=? i) && (i <? 0x8000 + 64) then (0x1000 + (i - 0x8000)) mod 256 else i mod 256.
Proof.
  apply (dma_roundtrip 5 demo_pqii (mkData 0 0) (fun a => a mod 256) 0x1000 0x8000 16 64);
    try done; apply length_replicate.
Defined.

(** A started transfer of the first 100 bytes. *)
Definition demo_started : PqiiState := programmed 5 0x1000 DMA_START 100 1 demo_pqii.

Lemma dma_stays_in_buffer_witness :
  match pqii_dma_timer demo_started (fun _ => 7) with
  | Ret (p', _) => 0 <= 0 /\ 0 < 100 /\ 0 + 100 < DMA_SIZE /\ List.length (dma_buf p') = Z.to_nat DMA_SIZE
  | Abort _ => False
  end.
Proof.
  destruct (pqii_dma_timer demo_started (fun _ => 7)) as [[p' mem']|w] eqn:E.
  - apply (dma_stays_in_buffer demo_started (fun _ => 7) p' mem'); try done.
  - discriminate E.
Defined.

Lemma fact_thread_computes_witness :
  let s1 := pqii_mmio_write 0 0x08 13 4 (demo_pqii, mkData 0 0) in
  fact_begin s1.1 = FComputing 13 /\
  fact (fact_end 13 (writes [(1, 0x08, 5, 4); (2, 0x20, 0x80, 4)] s1).1) = 1932053504 /\
  computing (fact_end 13 (writes [(1, 0x08, 5, 4); (2, 0x20, 0x80, 4)] s1).1) = false.
Proof. apply (fact_thread_computes 0 demo_pqii (mkData 0 0) 13); done. Defined.

End Pqii.
