(* ===== verification/SoftTlb.v ===== *)
(** * The software TLB

    qemu/accel/tcg/cputlb.c (with include/exec/cpu-defs.h, cpu-all.h and
    cpu_ldst.h) for one x86-64 vCPU: sizing and flushing, entering a page, the
    victim table, dirty tracking, and the look-up for code.  Entries carry the
    guest-physical page, which is what the tracer records.

    Arrays are functions of the index.  What the memory API and the target know
    (sections, clean pages, watchpoints, page walks, allocation) is a parameter. *)

From S2P Require Import Prelude.
Open Scope Z_scope.
Open Scope c_scope.

Module SoftTlb.

(** ** Constants *)

Definition TARGET_PAGE_BITS : Z := 12.
Definition TARGET_PAGE_SIZE : Z := 2 ^ TARGET_PAGE_BITS.
Definition TARGET_PAGE_MASK : Z := not64 (2 ^ TARGET_PAGE_BITS - 1).
Definition TLB_INVALID_MASK : Z := 2 ^ (TARGET_PAGE_BITS - 1).
Definition TLB_NOTDIRTY : Z := 2 ^ (TARGET_PAGE_BITS - 2).
Definition TLB_MMIO : Z := 2 ^ (TARGET_PAGE_BITS - 3).
Definition TLB_WATCHPOINT : Z := 2 ^ (TARGET_PAGE_BITS - 4).
Definition TLB_BSWAP : Z := 2 ^ (TARGET_PAGE_BITS - 5).
Definition TLB_DISCARD_WRITE : Z := 2 ^ (TARGET_PAGE_BITS - 6).
Definition NB_MMU_MODES : nat := 3.
Definition ALL_MMUIDX_BITS : Z := 2 ^ Z.of_nat NB_MMU_MODES - 1.
Definition CPU_VTLB_SIZE : Z := 8.
Definition CPU_TLB_ENTRY_BITS : Z := 6.
Definition CPU_TLB_DYN_MIN_BITS : Z := 6.
Definition CPU_TLB_DYN_DEFAULT_BITS : Z := 8.
Definition CPU_TLB_DYN_MAX_BITS : Z := 22.
Definition PAGE_READ : Z := 1.
Definition PAGE_WRITE : Z := 2.
Definition PAGE_EXEC : Z := 4.
Definition PAGE_WRITE_INV : Z := 0x40.
Definition BP_MEM_READ : Z := 1.
Definition BP_MEM_WRITE : Z := 2.

(** ** State *)

Record CPUTLBEntry := mkTLBE {
  addr_read : Z;
  addr_write : Z;
  addr_code : Z;
  addend : Z;
  e_paddr : Z;
}.

Record CPUIOTLBEntry := mkIO {
  io_addr : Z;
  io_attrs : Z;
}.

Record CPUTLBDesc := mkDesc {
  large_page_addr : Z;
  large_page_mask : Z;
  window_begin_ns : Z;
  window_max_entries : Z;
  n_used_entries : Z;
  vindex : Z;
  vtable : Z -> CPUTLBEntry;
  viotlb : Z -> CPUIOTLBEntry;
  iotlb : Z -> CPUIOTLBEntry;
}.

Record CPUTLBDescFast := mkFast {
  mask : Z;
  table : Z -> CPUTLBEntry;
}.

(** By MMU index: [d] and [f]; the three counters are statistics. *)
Record CPUTLB := mkTLB {
  dirty : Z;
  full_flush_count : Z;
  part_flush_count : Z;
  elide_flush_count : Z;
  d : Z -> CPUTLBDesc;
  f : Z -> CPUTLBDescFast;
}.

Definition zset {A} (g : Z -> A) (k : Z) (a : A) : Z -> A := fun j => if j =? k then a else g j.

Definition set_d (t : CPUTLB) (m : Z) (x : CPUTLBDesc) : CPUTLB :=
  mkTLB (dirty t) (full_flush_count t) (part_flush_count t) (elide_flush_count t) (zset (d t) m x) (f t).
Definition set_f (t : CPUTLB) (m : Z) (x : CPUTLBDescFast) : CPUTLB :=
  mkTLB (dirty t) (full_flush_count t) (part_flush_count t) (elide_flush_count t) (d t) (zset (f t) m x).
Definition set_dirty_mask (t : CPUTLB) (x : Z) : CPUTLB :=
  mkTLB x (full_flush_count t) (part_flush_count t) (elide_flush_count t) (d t) (f t).
Definition set_counts (t : CPUTLB) (a b c : Z) : CPUTLB := mkTLB (dirty t) a b c (d t) (f t).

Definition set_large (x : CPUTLBDesc) (a m : Z) : CPUTLBDesc :=
  mkDesc a m (window_begin_ns x) (window_max_entries x) (n_used_entries x) (vindex x) (vtable x) (viotlb x) (iotlb x).
Definition set_window (x : CPUTLBDesc) (ns mx : Z) : CPUTLBDesc :=
  mkDesc (large_page_addr x) (large_page_mask x) ns mx (n_used_entries x) (vindex x) (vtable x) (viotlb x) (iotlb x).
Definition set_used (x : CPUTLBDesc) (n : Z) : CPUTLBDesc :=
  mkDesc (large_page_addr x) (large_page_mask x) (window_begin_ns x) (window_max_entries x) n (vindex x) (vtable x)
    (viotlb x) (iotlb x).
Definition set_victims (x : CPUTLBDesc) (i : Z) (v : Z -> CPUTLBEntry) (vio io : Z -> CPUIOTLBEntry) : CPUTLBDesc :=
  mkDesc (large_page_addr x) (large_page_mask x) (window_begin_ns x) (window_max_entries x) (n_used_entries x) i v vio io.

Definition set_entry (t : CPUTLB) (m j : Z) (e : CPUTLBEntry) : CPUTLB :=
  set_f t m (mkFast (mask (f t m)) (zset (table (f t m)) j e)).

(** [memset(entry, -1, sizeof)] *)
Definition empty_entry : CPUTLBEntry := let x := 2 ^ 64 - 1 in mkTLBE x x x x x.

(** ** Look-up *)

Definition tlb_index (t : CPUTLB) (mmu_idx addr : Z) : Z :=
  Z.land (Z.shiftr addr TARGET_PAGE_BITS) (Z.shiftr (mask (f t mmu_idx)) CPU_TLB_ENTRY_BITS).
Definition tlb_entry (t : CPUTLB) (mmu_idx addr : Z) : CPUTLBEntry :=
  table (f t mmu_idx) (tlb_index t mmu_idx addr).

Definition tlb_hit_page (tlb_addr addr : Z) : bool :=
  addr =? Z.land tlb_addr (Z.lor TARGET_PAGE_MASK TLB_INVALID_MASK).
Definition tlb_hit (tlb_addr addr : Z) : bool := tlb_hit_page tlb_addr (Z.land addr TARGET_PAGE_MASK).

Definition tlb_hit_page_anyprot (e : CPUTLBEntry) (page : Z) : bool :=
  tlb_hit_page (addr_read e) page || tlb_hit_page (addr_write e) page || tlb_hit_page (addr_code e) page.

Definition tlb_entry_is_empty (e : CPUTLBEntry) : bool :=
  (addr_read e =? 2 ^ 64 - 1) && (addr_write e =? 2 ^ 64 - 1) && (addr_code e =? 2 ^ 64 - 1).

(** ** Sizing *)

Definition tlb_n_entries (x : CPUTLBDescFast) : Z := Z.shiftr (mask x) CPU_TLB_ENTRY_BITS + 1.

Definition tlb_window_reset (x : CPUTLBDesc) (ns max_entries : Z) : CPUTLBDesc := set_window x ns max_entries.

(** [clz64] for a 64-bit value *)
Definition clz64 (x : Z) : Z := if x =? 0 then 64 else 63 - Z.log2 x.
Definition pow2ceil (value : Z) : Z :=
  let n := clz64 (u64 (value - 1)) in
  if n =? 0 then b2z (value =? 0) else Z.shiftr (2 ^ 63) (n - 1).

Section Tlb.
(** [g_try_new] succeeds for both tables of this size. *)
Variable try_alloc : Z -> bool.

(** The loop that retries with smaller tables. *)
Fixpoint resize_alloc (fuel : nat) (new_size : Z) : cres Z :=
  if try_alloc new_size then Ret new_size
  else if new_size =? 2 ^ CPU_TLB_DYN_MIN_BITS then Abort "abort"
  else
    match fuel with
    | O => Abort "out of fuel"
    | S fuel => resize_alloc fuel (Z.max (Z.shiftr new_size 1) (2 ^ CPU_TLB_DYN_MIN_BITS))
    end.

(** The size wanted. *)
Definition resize_target (old_size window_max : Z) (window_expired : bool) : cres Z :=
  let rate := u64 (window_max * 100) / old_size in
  if 70 <? rate then Ret (Z.min (Z.shiftl old_size 1) (2 ^ CPU_TLB_DYN_MAX_BITS))
  else if (rate <? 30) && window_expired then
    let ceil := pow2ceil window_max in
    let* _ := cassert (negb (ceil =? 0)) "division by zero" in
    let expected_rate := u64 (window_max * 100) / ceil in
    let ceil := if 70 <? expected_rate then u64 (ceil * 2) else ceil in
    Ret (Z.max ceil (2 ^ CPU_TLB_DYN_MIN_BITS))
  else Ret old_size.

(** [fuel] 64: the size halves in every turn. *)
Definition tlb_mmu_resize_locked (x : CPUTLBDesc) (y : CPUTLBDescFast) (now : Z) : cres (CPUTLBDesc * CPUTLBDescFast) :=
  let old_size := tlb_n_entries y in
  let window_expired := window_begin_ns x + 100 * 1000 * 1000 <? now in
  let window_max := if window_max_entries x <? n_used_entries x then n_used_entries x else window_max_entries x in
  let x := set_window x (window_begin_ns x) window_max in
  let* new_size := resize_target old_size window_max window_expired in
  if new_size =? old_size then
    Ret (if window_expired then tlb_window_reset x now (n_used_entries x) else x, y)
  else
    let x := tlb_window_reset x now 0 in
    let* new_size := resize_alloc 64 new_size in
    Ret (x, mkFast (Z.shiftl (new_size - 1) CPU_TLB_ENTRY_BITS) (table y)).

(** ** Flushing *)

Definition tlb_mmu_flush_locked (x : CPUTLBDesc) (y : CPUTLBDescFast) : CPUTLBDesc * CPUTLBDescFast :=
  (mkDesc (2 ^ 64 - 1) (2 ^ 64 - 1) (window_begin_ns x) (window_max_entries x) 0 0 (fun _ => empty_entry) (viotlb x) (iotlb x),
   mkFast (mask y) (fun _ => empty_entry)).

Definition tlb_flush_one_mmuidx_locked (t : CPUTLB) (mmu_idx now : Z) : cres CPUTLB :=
  let* r := tlb_mmu_resize_locked (d t mmu_idx) (f t mmu_idx) now in
  let r := tlb_mmu_flush_locked r.1 r.2 in
  Ret (set_f (set_d t mmu_idx r.1) mmu_idx r.2).

Definition tlb_mmu_init (x : CPUTLBDesc) (y : CPUTLBDescFast) (now : Z) : CPUTLBDesc * CPUTLBDescFast :=
  let n_entries := 2 ^ CPU_TLB_DYN_DEFAULT_BITS in
  let x := set_used (tlb_window_reset x now 0) 0 in
  tlb_mmu_flush_locked x (mkFast (Z.shiftl (n_entries - 1) CPU_TLB_ENTRY_BITS) (table y)).

Fixpoint tlb_init_loop (k : nat) (t : CPUTLB) (now : Z) : CPUTLB :=
  match k with
  | O => t
  | S k =>
      let t := tlb_init_loop k t now in
      let r := tlb_mmu_init (d t (Z.of_nat k)) (f t (Z.of_nat k)) now in
      set_f (set_d t (Z.of_nat k) r.1) (Z.of_nat k) r.2
  end.
Definition tlb_init (t : CPUTLB) (now : Z) : CPUTLB := tlb_init_loop NB_MMU_MODES (set_dirty_mask t 0) now.

(** [ctz32], [ctpop16] *)
Fixpoint ctz (k : nat) (x : Z) : Z :=
  match k with
  | O => 0
  | S k => if Z.odd x then 0 else 1 + ctz k (Z.shiftr x 1)
  end.
Fixpoint ctpop (k : nat) (x : Z) : Z :=
  match k with
  | O => 0
  | S k => b2z (Z.odd x) + ctpop k (Z.shiftr x 1)
  end.

(** [for (work = to_clean; work != 0; work &= work - 1)]: every turn clears a
    bit, so 16 turns are enough. *)
Fixpoint flush_loop (fuel : nat) (work : Z) (t : CPUTLB) (now : Z) : cres CPUTLB :=
  if work =? 0 then Ret t
  else
    match fuel with
    | O => Abort "out of fuel"
    | S fuel =>
        let* t := tlb_flush_one_mmuidx_locked t (ctz 32 work) now in
        flush_loop fuel (Z.land work (work - 1)) t now
    end.

Definition tlb_flush_by_mmuidx_async_work (t : CPUTLB) (asked now : Z) : cres CPUTLB :=
  let all_dirty := dirty t in
  let to_clean := Z.land asked all_dirty in
  let t := set_dirty_mask t (Z.land all_dirty (not16 to_clean)) in
  let* t := flush_loop 16 to_clean t now in
  if to_clean =? ALL_MMUIDX_BITS then
    Ret (set_counts t (u64 (full_flush_count t + 1)) (part_flush_count t) (elide_flush_count t))
  else
    let t := set_counts t (full_flush_count t) (u64 (part_flush_count t + ctpop 16 to_clean)) (elide_flush_count t) in
    if negb (to_clean =? asked) then
      Ret (set_counts t (full_flush_count t) (part_flush_count t)
        (u64 (elide_flush_count t + ctpop 16 (Z.land asked (not16 to_clean)))))
    else Ret t.

(** From the vCPU's own thread. *)
Definition tlb_flush_by_mmuidx (t : CPUTLB) (idxmap now : Z) : cres CPUTLB := tlb_flush_by_mmuidx_async_work t idxmap now.
Definition tlb_flush (t : CPUTLB) (now : Z) : cres CPUTLB := tlb_flush_by_mmuidx t ALL_MMUIDX_BITS now.

Definition tlb_n_used_entries_inc (t : CPUTLB) (m : Z) : CPUTLB := set_d t m (set_used (d t m) (u64 (n_used_entries (d t m) + 1))).
Definition tlb_n_used_entries_dec (t : CPUTLB) (m : Z) : CPUTLB := set_d t m (set_used (d t m) (u64 (n_used_entries (d t m) - 1))).

(** The entry, and whether it was flushed. *)
Definition tlb_flush_entry_locked (e : CPUTLBEntry) (page : Z) : CPUTLBEntry * bool :=
  if tlb_hit_page_anyprot e page then (empty_entry, true) else (e, false).

Fixpoint flush_vtlb_loop (k : nat) (t : CPUTLB) (mmu_idx page : Z) : CPUTLB :=
  match k with
  | O => t
  | S k =>
      let t := flush_vtlb_loop k t mmu_idx page in
      let x := d t mmu_idx in
      let r := tlb_flush_entry_locked (vtable x (Z.of_nat k)) page in
      let t := set_d t mmu_idx (set_victims x (vindex x) (zset (vtable x) (Z.of_nat k) r.1) (viotlb x) (iotlb x)) in
      if r.2 then tlb_n_used_entries_dec t mmu_idx else t
  end.
Definition tlb_flush_vtlb_page_locked (t : CPUTLB) (mmu_idx page : Z) : CPUTLB :=
  flush_vtlb_loop (Z.to_nat CPU_VTLB_SIZE) t mmu_idx page.

Definition tlb_flush_page_locked (t : CPUTLB) (midx page now : Z) : cres CPUTLB :=
  if Z.land page (large_page_mask (d t midx)) =? large_page_addr (d t midx) then
    tlb_flush_one_mmuidx_locked t midx now
  else
    let r := tlb_flush_entry_locked (tlb_entry t midx page) page in
    let t := set_entry t midx (tlb_index t midx page) r.1 in
    let t := if r.2 then tlb_n_used_entries_dec t midx else t in
    Ret (tlb_flush_vtlb_page_locked t midx page).

Fixpoint flush_page_loop (k : nat) (t : CPUTLB) (addr idxmap now : Z) : cres CPUTLB :=
  match k with
  | O => Ret t
  | S k =>
      let* t := flush_page_loop k t addr idxmap now in
      if ztrue (Z.land (Z.shiftr idxmap (Z.of_nat k)) 1) then tlb_flush_page_locked t (Z.of_nat k) addr now else Ret t
  end.
Definition tlb_flush_page_by_mmuidx_async_0 (t : CPUTLB) (addr idxmap now : Z) : cres CPUTLB :=
  flush_page_loop NB_MMU_MODES t addr idxmap now.

(** The request another vCPU queues: the map in the page offset. *)
Definition tlb_flush_page_by_mmuidx_async_1 (t : CPUTLB) (addr_and_idxmap now : Z) : cres CPUTLB :=
  let addr := Z.land addr_and_idxmap TARGET_PAGE_MASK in
  let idxmap := u16 (Z.land addr_and_idxmap (not64 TARGET_PAGE_MASK)) in
  tlb_flush_page_by_mmuidx_async_0 t addr idxmap now.

(** [self]: called in the vCPU's own thread; otherwise the request is carried
    out when that thread runs its queue. *)
Definition tlb_flush_page_by_mmuidx (self : bool) (t : CPUTLB) (addr idxmap now : Z) : cres CPUTLB :=
  let addr := Z.land addr TARGET_PAGE_MASK in
  if self then tlb_flush_page_by_mmuidx_async_0 t addr idxmap now
  else if idxmap <? TARGET_PAGE_SIZE then tlb_flush_page_by_mmuidx_async_1 t (Z.lor addr idxmap) now
  else tlb_flush_page_by_mmuidx_async_0 t addr idxmap now.
Definition tlb_flush_page (t : CPUTLB) (addr now : Z) : cres CPUTLB :=
  tlb_flush_page_by_mmuidx true t addr ALL_MMUIDX_BITS now.

(** ** Dirty tracking *)

Definition set_write (e : CPUTLBEntry) (a : Z) : CPUTLBEntry :=
  mkTLBE (addr_read e) a (addr_code e) (addend e) (e_paddr e).

Definition tlb_reset_dirty_range_locked (e : CPUTLBEntry) (start length : Z) : CPUTLBEntry :=
  let addr := addr_write e in
  if Z.land addr (Z.lor (Z.lor (Z.lor TLB_INVALID_MASK TLB_MMIO) TLB_DISCARD_WRITE) TLB_NOTDIRTY) =? 0 then
    let addr := u64 (Z.land addr TARGET_PAGE_MASK + addend e) in
    if u64 (addr - start) <? length then set_write e (Z.lor (addr_write e) TLB_NOTDIRTY) else e
  else e.

(** All entries of all modes. *)
Definition tlb_reset_dirty (t : CPUTLB) (start1 length : Z) : CPUTLB :=
  let g e := tlb_reset_dirty_range_locked e start1 length in
  let modes m := (0 <=? m) && (m <? Z.of_nat NB_MMU_MODES) in
  mkTLB (dirty t) (full_flush_count t) (part_flush_count t) (elide_flush_count t)
    (fun m => let x := d t m in
       if modes m then
         set_victims x (vindex x) (fun k => if (0 <=? k) && (k <? CPU_VTLB_SIZE) then g (vtable x k) else vtable x k)
           (viotlb x) (iotlb x)
       else x)
    (fun m => let y := f t m in
       if modes m then
         mkFast (mask y) (fun j => if (0 <=? j) && (j <? tlb_n_entries y) then g (table y j) else table y j)
       else y).

Definition tlb_set_dirty1_locked (e : CPUTLBEntry) (vaddr : Z) : CPUTLBEntry :=
  if addr_write e =? Z.lor vaddr TLB_NOTDIRTY then set_write e vaddr else e.

Definition tlb_set_dirty (t : CPUTLB) (vaddr : Z) : CPUTLB :=
  let vaddr := Z.land vaddr TARGET_PAGE_MASK in
  let modes m := (0 <=? m) && (m <? Z.of_nat NB_MMU_MODES) in
  mkTLB (dirty t) (full_flush_count t) (part_flush_count t) (elide_flush_count t)
    (fun m => let x := d t m in
       if modes m then
         set_victims x (vindex x)
           (fun k => if (0 <=? k) && (k <? CPU_VTLB_SIZE) then tlb_set_dirty1_locked (vtable x k) vaddr else vtable x k)
           (viotlb x) (iotlb x)
       else x)
    (fun m => let y := f t m in
       if modes m then mkFast (mask y) (zset (table y) (tlb_index t m vaddr) (tlb_set_dirty1_locked (tlb_entry t m vaddr) vaddr))
       else y).

(** ** Entering a page *)

(** [while (((lp_addr ^ vaddr) & lp_mask) != 0) lp_mask <<= 1]: 64 shifts leave
    an empty mask. *)
Fixpoint large_page_loop (fuel : nat) (lp_addr vaddr lp_mask : Z) : cres Z :=
  if Z.land (Z.lxor lp_addr vaddr) lp_mask =? 0 then Ret lp_mask
  else
    match fuel with
    | O => Abort "out of fuel"
    | S fuel => large_page_loop fuel lp_addr vaddr (u64 (Z.shiftl lp_mask 1))
    end.

Definition tlb_add_large_page (t : CPUTLB) (mmu_idx vaddr size : Z) : cres CPUTLB :=
  let x := d t mmu_idx in
  let lp_addr := large_page_addr x in
  let lp_mask := not64 (size - 1) in
  let* r :=
    (if lp_addr =? 2 ^ 64 - 1 then Ret (vaddr, lp_mask)
     else
       let* lp_mask := large_page_loop 64 lp_addr vaddr (Z.land lp_mask (large_page_mask x)) in
       Ret (lp_addr, lp_mask)) in
  Ret (set_d t mmu_idx (set_large x (Z.land r.1 r.2) r.2)).

(** What the memory API knows of a physical page. *)
Record MemoryRegionSection := mkSection {
  sec_is_ram : bool;
  sec_is_romd : bool;
  sec_ram_ptr : Z;           (* memory_region_get_ram_ptr *)
  sec_ram_addr : Z;          (* memory_region_get_ram_addr *)
  sec_readonly : bool;
  sec_iotlb : Z;             (* memory_region_section_get_iotlb *)
}.

(** [address_space_translate_for_iotlb]: section, offset, size and protection. *)
Variable translate_for_iotlb : Z -> Z -> Z -> Z -> MemoryRegionSection * Z * Z * Z.
(** [attrs.byte_swap] *)
Variable byte_swap : Z -> bool.
(** [cpu_physical_memory_is_clean], [cpu_watchpoint_address_matches] *)
Variable is_clean : Z -> bool.
Variable watchpoint_matches : Z -> Z.

Definition or_if (b : bool) (x flag : Z) : Z := if b then Z.lor x flag else x.

(** The addresses of the entry for reads and code, and for writes, and the
    entry of the I/O table. *)
Definition page_address (vaddr_page attrs size : Z) : Z :=
  or_if (byte_swap attrs) (or_if (size <? TARGET_PAGE_SIZE) vaddr_page TLB_INVALID_MASK) TLB_BSWAP.

Definition page_write_address (section : MemoryRegionSection) (xlat prot address : Z) : Z * Z :=
  if sec_is_ram section then
    let iotlb := u64 (sec_ram_addr section + xlat) in
    (if ztrue (Z.land prot PAGE_WRITE) then
       if sec_readonly section then Z.lor address TLB_DISCARD_WRITE
       else if is_clean iotlb then Z.lor address TLB_NOTDIRTY else address
     else address, iotlb)
  else (Z.lor address TLB_MMIO, u64 (sec_iotlb section + xlat)).

(** [tn] *)
Definition new_entry (vaddr_page paddr_page addend address write_address prot wp_flags : Z) : CPUTLBEntry :=
  mkTLBE
    (if ztrue (Z.land prot PAGE_READ) then or_if (ztrue (Z.land wp_flags BP_MEM_READ)) address TLB_WATCHPOINT
     else 2 ^ 64 - 1)
    (if ztrue (Z.land prot PAGE_WRITE) then
       or_if (ztrue (Z.land wp_flags BP_MEM_WRITE))
         (or_if (ztrue (Z.land prot PAGE_WRITE_INV)) write_address TLB_INVALID_MASK) TLB_WATCHPOINT
     else 2 ^ 64 - 1)
    (if ztrue (Z.land prot PAGE_EXEC) then address else 2 ^ 64 - 1)
    (u64 (addend - vaddr_page)) paddr_page.

(** The old entry goes to the victim table unless it is for this page. *)
Definition evict (t : CPUTLB) (mmu_idx index vaddr_page : Z) : CPUTLB :=
  let te := table (f t mmu_idx) index in
  if negb (tlb_hit_page_anyprot te vaddr_page) && negb (tlb_entry_is_empty te) then
    let x := d t mmu_idx in
    let vidx := vindex x mod CPU_VTLB_SIZE in
    tlb_n_used_entries_dec
      (set_d t mmu_idx (set_victims x (u64 (vindex x + 1)) (zset (vtable x) vidx te) (zset (viotlb x) vidx (iotlb x index)) (iotlb x)))
      mmu_idx
  else t.

Definition tlb_set_page_with_attrs (t : CPUTLB) (vaddr paddr attrs prot mmu_idx size : Z) : cres CPUTLB :=
  let* r :=
    (if size <=? TARGET_PAGE_SIZE then Ret (t, TARGET_PAGE_SIZE)
     else let* t := tlb_add_large_page t mmu_idx vaddr size in Ret (t, size)) in
  let '(t, sz) := r in
  let vaddr_page := Z.land vaddr TARGET_PAGE_MASK in
  let paddr_page := Z.land paddr TARGET_PAGE_MASK in
  let '(section, xlat, sz, prot) := translate_for_iotlb paddr_page sz attrs prot in
  let* _ := cassert (TARGET_PAGE_SIZE <=? sz) "assert(sz >= TARGET_PAGE_SIZE)" in
  let address := page_address vaddr_page attrs size in
  let addend := if sec_is_ram section || sec_is_romd section then u64 (sec_ram_ptr section + xlat) else 0 in
  let '(write_address, io) := page_write_address section xlat prot address in
  let address := if negb (sec_is_ram section) && negb (sec_is_romd section) then write_address else address in
  let wp_flags := watchpoint_matches vaddr_page in
  let index := tlb_index t mmu_idx vaddr_page in
  let t := set_dirty_mask t (u16 (Z.lor (dirty t) (2 ^ mmu_idx))) in
  let t := tlb_flush_vtlb_page_locked t mmu_idx vaddr_page in
  let t := evict t mmu_idx index vaddr_page in
  let x := d t mmu_idx in
  let t := set_d t mmu_idx (set_victims x (vindex x) (vtable x) (viotlb x)
             (zset (iotlb x) index (mkIO (u64 (io - vaddr_page)) attrs))) in
  let t := set_entry t mmu_idx index (new_entry vaddr_page paddr_page addend address write_address prot wp_flags) in
  Ret (tlb_n_used_entries_inc t mmu_idx).

(** [attrs] 0 stands for MEMTXATTRS_UNSPECIFIED. *)
Definition tlb_set_page (t : CPUTLB) (vaddr paddr prot mmu_idx size : Z) : cres CPUTLB :=
  tlb_set_page_with_attrs t vaddr paddr 0 prot mmu_idx size.

(** ** The victim table and code addresses *)

(** [elt]: the address field compared.  The search stops at the first match,
    which is exchanged with the entry of the main table. *)
Fixpoint victim_loop (n : nat) (vidx : Z) (t : CPUTLB) (mmu_idx index : Z) (elt : CPUTLBEntry -> Z) (page : Z)
  : bool * CPUTLB :=
  match n with
  | O => (false, t)
  | S n =>
      let x := d t mmu_idx in
      let vtlb := vtable x vidx in
      if elt vtlb =? page then
        let tlb := table (f t mmu_idx) index in
        let t := set_entry t mmu_idx index vtlb in
        (true, set_d t mmu_idx
           (set_victims x (vindex x) (zset (vtable x) vidx tlb) (zset (viotlb x) vidx (iotlb x index))
              (zset (iotlb x) index (viotlb x vidx))))
      else victim_loop n (vidx + 1) t mmu_idx index elt page
  end.
Definition victim_tlb_hit (t : CPUTLB) (mmu_idx index : Z) (elt : CPUTLBEntry -> Z) (page : Z) : bool * CPUTLB :=
  victim_loop (Z.to_nat CPU_VTLB_SIZE) 0 t mmu_idx index elt page.

(** The target's page walk for an instruction fetch: it enters the page, or
    raises an exception in the guest. *)
Variable tlb_fill : CPUTLB -> Z -> Z -> cres CPUTLB.
(** [qemu_ram_addr_from_host_nofail] *)
Variable ram_addr_from_host : Z -> Z.

(** [hostp] and [paddr] are the values of the out parameters before the call;
    they keep them where the code does not store.  The result is -1 or the
    address in RAM, with the TLB and the out parameters. *)
Definition get_page_addr_code_hostp (t : CPUTLB) (mmu_idx addr hostp paddr : Z) : cres (Z * CPUTLB * Z * Z) :=
  let index := tlb_index t mmu_idx addr in
  let found (t : CPUTLB) : cres (Z * CPUTLB * Z * Z) :=
    let entry := tlb_entry t mmu_idx addr in
    if ztrue (Z.land (addr_code entry) TLB_MMIO) then Ret (2 ^ 64 - 1, t, 0, paddr)
    else
      let p := u64 (addr + addend entry) in
      let pa := u64 (Z.land addr (not64 TARGET_PAGE_MASK) + e_paddr entry) in
      Ret (ram_addr_from_host p, t, p, pa) in
  if tlb_hit (addr_code (tlb_entry t mmu_idx addr)) addr then found t
  else
    let '(hit, t) := victim_tlb_hit t mmu_idx index addr_code (Z.land addr TARGET_PAGE_MASK) in
    if hit then
      let* _ := cassert (tlb_hit (addr_code (tlb_entry t mmu_idx addr)) addr) "assert(tlb_hit(entry->addr_code, addr))" in
      found t
    else
      let* t := tlb_fill t mmu_idx addr in
      let entry := tlb_entry t mmu_idx addr in
      if ztrue (Z.land (addr_code entry) TLB_INVALID_MASK) then Ret (2 ^ 64 - 1, t, hostp, paddr)
      else
        let* _ := cassert (tlb_hit (addr_code entry) addr) "assert(tlb_hit(entry->addr_code, addr))" in
        found t.

(** ** Pages and entries *)

Definition aligned (p : Z) : Prop := Z.land p TARGET_PAGE_MASK = p.
Definition page_of (a : Z) : Z := Z.land a TARGET_PAGE_MASK.

Lemma page_of_aligned a : aligned (page_of a).
Proof. unfold aligned, page_of. by rewrite <- Z.land_assoc, Z.land_diag. Qed.

(** An address field of an entry for the page [p]. *)
Definition field_ok (p x : Z) : Prop := x = 2 ^ 64 - 1 \/ page_of x = p.
Definition entry_for (p : Z) (e : CPUTLBEntry) : Prop :=
  field_ok p (addr_read e) /\ field_ok p (addr_write e) /\ field_ok p (addr_code e).
Definition entry_ok (e : CPUTLBEntry) : Prop := exists p, entry_for p e.

Definition hits (e : CPUTLBEntry) (p : Z) : Prop := tlb_hit_page_anyprot e p = true.

Lemma hit_page_field p x q : field_ok p x -> aligned q -> tlb_hit_page x q = true -> q = p.
Proof.
  unfold tlb_hit_page, aligned. intros Hf Ha Hq%Z.eqb_eq.
  assert (q = page_of x) as E.
  { rewrite <- Ha, Hq, <- Z.land_assoc. reflexivity. }
  destruct Hf as [->|Hf]; [|congruence].
  exfalso. rewrite Hq in Ha. revert Ha. vm_compute. discriminate.
Qed.

Lemma hits_for p e q : entry_for p e -> aligned q -> hits e q -> q = p.
Proof.
  intros (H1 & H2 & H3) Ha. unfold hits, tlb_hit_page_anyprot. rewrite !orb_true_iff.
  intros [[H|H]|H]; eauto using hit_page_field.
Qed.

Lemma empty_no_hit q : aligned q -> ~ hits empty_entry q.
Proof.
  intros Ha H. assert (forall p, q = p) as Hq
    by (intros p; eapply hits_for; [|exact Ha|exact H]; repeat split; by left).
  specialize (Hq (q + 1)). lia.
Qed.

Lemma empty_entry_ok : entry_ok empty_entry.
Proof. exists 0. repeat split; by left. Qed.

(** A hit on an address is a hit of the entry on its page. *)
Lemma hit_read e a : tlb_hit (addr_read e) a = true -> hits e (page_of a).
Proof. unfold hits, tlb_hit_page_anyprot, tlb_hit. fold (page_of a). by intros ->. Qed.
Lemma hit_write e a : tlb_hit (addr_write e) a = true -> hits e (page_of a).
Proof. unfold hits, tlb_hit_page_anyprot, tlb_hit. fold (page_of a). intros ->. by rewrite orb_true_r. Qed.
Lemma hit_code e a : tlb_hit (addr_code e) a = true -> hits e (page_of a).
Proof. unfold hits, tlb_hit_page_anyprot, tlb_hit. fold (page_of a). intros ->. by rewrite orb_true_r. Qed.

(** The page of a 64-bit address. *)
Lemma page_of_shift a : 0 <= a < 2 ^ 64 -> page_of a = Z.shiftl (Z.shiftr a 12) 12.
Proof.
  intros Ha. unfold page_of. change TARGET_PAGE_MASK with (Z.ldiff (Z.ones 64) (Z.ones 12)).
  rewrite <- Z.ldiff_ones_r by lia.
  assert (Z.land a (Z.ones 64) = a) as E by (rewrite Z.land_ones by lia; by apply Z.mod_small).
  rewrite <- E at 2. apply Z.bits_inj'. intros k Hk. rewrite !Z.land_spec, !Z.ldiff_spec, Z.land_spec.
  by rewrite andb_assoc.
Qed.

Lemma page_of_shiftr a : 0 <= a < 2 ^ 64 -> Z.shiftr (page_of a) 12 = Z.shiftr a 12.
Proof. intros Ha. rewrite page_of_shift by done. rewrite Z.shiftr_shiftl_l, Z.sub_diag, Z.shiftl_0_r by lia. done. Qed.

Lemma tlb_index_page t m a : 0 <= a < 2 ^ 64 -> tlb_index t m (page_of a) = tlb_index t m a.
Proof. intros Ha. unfold tlb_index. change TARGET_PAGE_BITS with 12. by rewrite (page_of_shiftr a Ha). Qed.

(** ** The contract: translations in force *)

(** For an MMU index and a page: the physical page entered last and not flushed
    since, and the size of the guest's page. *)
Definition installed : Type := Z -> Z -> option (Z * Z).

(** Two pages are parts of the same guest page of size [sz]. *)
Definition same_large (sz p q : Z) : Prop := Z.land p (not64 (sz - 1)) = Z.land q (not64 (sz - 1)).
#[global] Instance same_large_dec sz p q : Decision (same_large sz p q).
Proof. unfold same_large. apply _. Defined.

Inductive tlb_op :=
| OpSet (vaddr paddr attrs prot mmu_idx size : Z)
| OpFlush (idxmap now : Z)
| OpFlushPage (self : bool) (addr idxmap now : Z)
| OpResetDirty (start length : Z)
| OpSetDirty (vaddr : Z)
| OpVictim (elt : CPUTLBEntry -> Z) (mmu_idx addr : Z).

Definition tlb_step (o : tlb_op) (t : CPUTLB) : cres CPUTLB :=
  match o with
  | OpSet vaddr paddr attrs prot mmu_idx size => tlb_set_page_with_attrs t vaddr paddr attrs prot mmu_idx size
  | OpFlush idxmap now => tlb_flush_by_mmuidx t idxmap now
  | OpFlushPage self addr idxmap now => tlb_flush_page_by_mmuidx self t addr idxmap now
  | OpResetDirty start length => Ret (tlb_reset_dirty t start length)
  | OpSetDirty vaddr => Ret (tlb_set_dirty t vaddr)
  | OpVictim elt mmu_idx addr => Ret (victim_tlb_hit t mmu_idx (tlb_index t mmu_idx addr) elt (page_of addr)).2
  end.

Fixpoint tlb_run (l : list tlb_op) (t : CPUTLB) : cres CPUTLB :=
  match l with
  | [] => Ret t
  | o :: l => let* t := tlb_step o t in tlb_run l t
  end.

(** What the guest asked for. *)
Definition spec_step (o : tlb_op) (inst : installed) : installed :=
  match o with
  | OpSet vaddr paddr _ _ mmu_idx size =>
      fun m p => if decide (m = mmu_idx /\ p = page_of vaddr) then Some (page_of paddr, size) else inst m p
  | OpFlush idxmap _ => fun m p => if Z.testbit idxmap m then None else inst m p
  | OpFlushPage _ addr idxmap _ =>
      fun m p =>
        match inst m p with
        | Some (pa, sz) =>
            if Z.testbit idxmap m &&
               bool_decide (p = page_of addr \/ (TARGET_PAGE_SIZE < sz /\ same_large sz p (page_of addr)))
            then None else Some (pa, sz)
        | None => None
        end
  | _ => inst
  end.
Definition spec_run (l : list tlb_op) (inst : installed) : installed := foldl (fun i o => spec_step o i) inst l.

(** 64-bit addresses, the MMU indexes there are, guest pages whose size is a
    power of two, one of the three fields. *)
Definition tlb_op_ok (o : tlb_op) : Prop :=
  match o with
  | OpSet vaddr _ _ _ m size =>
      0 <= vaddr < 2 ^ 64 /\ 0 <= m < 3 /\
      (TARGET_PAGE_SIZE < size -> exists k, TARGET_PAGE_BITS <= k < 64 /\ size = 2 ^ k)
  | OpFlush idxmap _ => 0 <= idxmap < 2 ^ 16
  | OpFlushPage _ addr idxmap _ => 0 <= addr < 2 ^ 64 /\ 0 <= idxmap < 2 ^ 16
  | OpResetDirty _ _ => True
  | OpSetDirty vaddr => 0 <= vaddr < 2 ^ 64
  | OpVictim elt m addr => (elt = addr_read \/ elt = addr_write \/ elt = addr_code) /\ 0 <= m < 3 /\ 0 <= addr < 2 ^ 64
  end.

(** ** The invariant *)

(** The region of large pages covers the guest's page. *)
Definition covered (x : CPUTLBDesc) (p sz : Z) : Prop :=
  Z.land p (large_page_mask x) = large_page_addr x /\ Z.land (large_page_mask x) (not64 (sz - 1)) = large_page_mask x.

(** The entry serves the page the guest asked for. *)
Definition good (inst : installed) (x : CPUTLBDesc) (m : Z) (e : CPUTLBEntry) (p : Z) : Prop :=
  exists sz, inst m p = Some (e_paddr e, sz) /\ (TARGET_PAGE_SIZE < sz -> covered x p sz).

(** The mask that clears the low [k] bits. *)
Definition high_mask (k : Z) : Z := Z.ldiff (Z.ones 64) (Z.ones k).

(** The region of large pages: none, or one aligned to its size. *)
Definition region_ok (x : CPUTLBDesc) : Prop :=
  (large_page_addr x = 2 ^ 64 - 1 /\ large_page_mask x = high_mask 0) \/
  exists k, TARGET_PAGE_BITS <= k <= 64 /\ large_page_mask x = high_mask k /\
    Z.land (large_page_addr x) (high_mask k) = large_page_addr x.

(** One MMU index. *)
Record mode_inv (inst : installed) (m : Z) (dirty : bool) (x : CPUTLBDesc) (y : CPUTLBDescFast) : Prop := {
  mi_ok : forall j, entry_ok (table y j);
  mi_vok : forall k, entry_ok (vtable x k);
  mi_main : forall j p, aligned p -> hits (table y j) p ->
    Z.land (Z.shiftr p TARGET_PAGE_BITS) (Z.shiftr (mask y) CPU_TLB_ENTRY_BITS) = j /\ good inst x m (table y j) p;
  mi_victim : forall k p, 0 <= k < CPU_VTLB_SIZE -> aligned p -> hits (vtable x k) p -> good inst x m (vtable x k) p;
  mi_clean : dirty = false -> forall p, aligned p ->
    (forall j, ~ hits (table y j) p) /\ (forall k, 0 <= k < CPU_VTLB_SIZE -> ~ hits (vtable x k) p);
  mi_region : region_ok x;
}.

Definition tlb_inv (inst : installed) (t : CPUTLB) : Prop :=
  0 <= dirty t < 8 /\ forall m, 0 <= m < 3 -> mode_inv inst m (Z.testbit (dirty t) m) (d t m) (f t m).

(** A flushed mode meets every contract. *)
Definition flushed (x : CPUTLBDesc) (y : CPUTLBDescFast) : Prop :=
  (forall j, table y j = empty_entry) /\ (forall k, vtable x k = empty_entry) /\
  large_page_addr x = 2 ^ 64 - 1 /\ large_page_mask x = high_mask 0.

Lemma flushed_inv inst m b x y : flushed x y -> mode_inv inst m b x y.
Proof.
  intros (H1 & H2 & H3). split; intros; rewrite ?H1, ?H2 in *; try apply empty_entry_ok; [| | |by left].
  - by edestruct empty_no_hit.
  - by edestruct empty_no_hit.
  - split; intros; rewrite ?H1, ?H2; by apply empty_no_hit.
Qed.

Lemma flush_one_spec t m now t' :
  tlb_flush_one_mmuidx_locked t m now = Ret t' ->
  dirty t' = dirty t /\ flushed (d t' m) (f t' m) /\ forall m', m' <> m -> d t' m' = d t m' /\ f t' m' = f t m'.
Proof.
  unfold tlb_flush_one_mmuidx_locked. intros ([x y] & _ & [= <-])%cbind_Ret. cbn.
  unfold zset. rewrite Z.eqb_refl. split_and!; [done|done|].
  intros m' Hm. by rewrite (proj2 (Z.eqb_neq _ _) Hm).
Qed.

(** ** Flushing modes *)

Lemma zset_eq {A} (g : Z -> A) k a : zset g k a k = a.
Proof. unfold zset. by rewrite Z.eqb_refl. Qed.
Lemma zset_ne {A} (g : Z -> A) k a j : j <> k -> zset g k a j = g j.
Proof. unfold zset. intros H. by rewrite (proj2 (Z.eqb_neq _ _) H). Qed.

#[local] Instance Ret_inj {A} : Inj (=) (=) (@Ret A).
Proof. by intros x y [= ->]. Qed.

(** A mode without hits meets every contract. *)
Lemma clean_inv inst inst' m x y : mode_inv inst m false x y -> mode_inv inst' m false x y.
Proof.
  intros [H1 H2 _ _ H5 H6]. split; try done.
  - intros j p Ha Hh. by destruct (proj1 (H5 eq_refl p Ha) j).
  - intros k p Hk Ha Hh. by destruct (proj2 (H5 eq_refl p Ha) k Hk).
Qed.

(** The contract of one mode is all it depends on. *)
Lemma mode_inv_ext inst inst' m b x y :
  (forall p, inst' m p = inst m p) -> mode_inv inst m b x y -> mode_inv inst' m b x y.
Proof.
  intros He [H1 H2 H3 H4 H5 H6]. split; try done.
  - intros j p Ha Hh. destruct (H3 j p Ha Hh) as (Hi & sz & E & Hc). split; [done|]. exists sz. by rewrite He.
  - intros k p Hk Ha Hh. destruct (H4 k p Hk Ha Hh) as (sz & E & Hc). exists sz. by rewrite He.
Qed.

Fixpoint flush_each (l : list Z) (t : CPUTLB) (now : Z) : cres CPUTLB :=
  match l with
  | [] => Ret t
  | m :: l => let* t := tlb_flush_one_mmuidx_locked t m now in flush_each l t now
  end.

Definition modes_of (work : Z) : list Z := filter (fun m => Z.testbit work m = true) [0; 1; 2].

(** The loop visits the modes of the map. *)
Lemma flush_loop_each work t now : 0 <= work < 8 -> flush_loop 16 work t now = flush_each (modes_of work) t now.
Proof.
  intros Hw. assert (work = 0 \/ work = 1 \/ work = 2 \/ work = 3 \/ work = 4 \/ work = 5 \/ work = 6 \/ work = 7) as H by lia.
  repeat destruct H as [->|H]; [reflexivity..|]. subst. reflexivity.
Qed.

Lemma flush_each_spec l t now t' :
  flush_each l t now = Ret t' ->
  dirty t' = dirty t /\ (forall m, m ∈ l -> flushed (d t' m) (f t' m)) /\
  forall m, m ∉ l -> d t' m = d t m /\ f t' m = f t m.
Proof.
  revert t. induction l as [|m l IH]; intros t; cbn [flush_each].
  { intros [= <-]. split_and!; [done| |done]. by intros m ?%not_elem_of_nil. }
  intros (t1 & H1 & H2)%cbind_Ret. apply flush_one_spec in H1 as (D1 & F1 & S1). apply IH in H2 as (D2 & F2 & S2).
  split_and!; [congruence| |].
  - intros m' Hm. destruct (decide (m' ∈ l)); [by apply F2|]. destruct (S2 m') as [-> ->]; [done|].
    apply elem_of_cons in Hm as [->|]; done.
  - intros m' [Hm Hl]%not_elem_of_cons. destruct (S2 m' Hl) as [-> ->]. by apply S1.
Qed.

Lemma elem_modes_of work m : 0 <= m < 3 -> m ∈ modes_of work <-> Z.testbit work m = true.
Proof using Type.
  intros Hm. unfold modes_of. rewrite list_elem_of_filter, !elem_of_cons.
  split; [by intros [? _]|]. intros H. split; [done|].
  assert (m = 0 \/ m = 1 \/ m = 2) as [->|[->| ->]] by lia; [by left|right; by left|right; right; by left].
Qed.

Lemma not16_testbit x m : 0 <= m < 16 -> Z.testbit (not16 x) m = negb (Z.testbit x m).
Proof. intros Hm. unfold not16, u16. rewrite Z.mod_pow2_bits_low, Z.lnot_spec by lia. done. Qed.

Lemma land_below a b k : 0 <= a < 2 ^ k -> 0 <= Z.land a b < 2 ^ k.
Proof.
  intros Ha. destruct (Z.neg_nonneg_cases k) as [Hk|Hk]; [rewrite Z.pow_neg_r in Ha by done; lia|].
  rewrite <- (Z.mod_small a (2 ^ k)) by lia. rewrite <- Z.land_ones, (Z.land_comm a), <- Z.land_assoc, Z.land_comm by done.
  rewrite Z.land_ones by done. apply Z.mod_pos_bound. lia.
Qed.

Lemma flush_by_mmuidx_inv inst t asked now t' :
  tlb_inv inst t -> 0 <= asked < 2 ^ 16 -> tlb_flush_by_mmuidx t asked now = Ret t' ->
  tlb_inv (spec_step (OpFlush asked now) inst) t'.
Proof.
  intros [Hd Hm] Ha. unfold tlb_flush_by_mmuidx, tlb_flush_by_mmuidx_async_work.
  set (c := Z.land asked (dirty t)). set (t0 := set_dirty_mask t (Z.land (dirty t) (not16 c))).
  intros (t1 & H1 & H2)%cbind_Ret.
  assert (exists a1 a2 a3, t' = set_counts t1 a1 a2 a3) as (a1 & a2 & a3 & ->).
  { revert H2. destruct (c =? ALL_MMUIDX_BITS); [|destruct (negb (c =? asked))]; intros H2; apply (inj Ret) in H2;
      eexists _, _, _; symmetry; exact H2. }
  assert (0 <= c < 8) as Hc by (unfold c; rewrite Z.land_comm; by apply (land_below _ _ 3)).
  rewrite flush_loop_each in H1 by done. apply flush_each_spec in H1 as (D & F & S).
  unfold tlb_inv, set_counts. cbn [dirty d f]. rewrite D. cbn [dirty t0 set_dirty_mask].
  split; [by apply (land_below _ _ 3)|]. intros m Hr.
  rewrite Z.land_spec, not16_testbit by lia. unfold c at 1. rewrite Z.land_spec.
  destruct (Z.testbit (dirty t) m) eqn:Hdm; destruct (Z.testbit asked m) eqn:Ham; cbn [andb negb].
  - apply flushed_inv, F. apply elem_modes_of; [done|]. unfold c. by rewrite Z.land_spec, Hdm, Ham.
  - destruct (S m) as [-> ->].
    { rewrite elem_modes_of by done. unfold c. rewrite Z.land_spec, Hdm, Ham. done. }
    eapply mode_inv_ext; [|rewrite <- Hdm; by apply Hm]. intros p. cbn. by rewrite Ham.
  - destruct (S m) as [-> ->].
    { rewrite elem_modes_of by done. unfold c. rewrite Z.land_spec, Hdm, Ham. done. }
    eapply clean_inv. rewrite <- Hdm. by apply Hm.
  - destruct (S m) as [-> ->].
    { rewrite elem_modes_of by done. unfold c. rewrite Z.land_spec, Hdm, Ham. done. }
    eapply clean_inv. rewrite <- Hdm. by apply Hm.
Qed.

(** ** Flushing a page *)

Definition flush_of (p : Z) (e : CPUTLBEntry) : CPUTLBEntry := (tlb_flush_entry_locked e p).1.

Lemma flush_of_hits p e q : hits (flush_of p e) q -> aligned q -> hits e q /\ flush_of p e = e.
Proof.
  unfold flush_of, tlb_flush_entry_locked. destruct (tlb_hit_page_anyprot e p); [|done].
  intros H Ha. by destruct (empty_no_hit q Ha).
Qed.

Lemma flush_of_ne p e : entry_ok e -> aligned p -> ~ hits (flush_of p e) p.
Proof.
  intros Hok Ha. unfold flush_of, tlb_flush_entry_locked. destruct (tlb_hit_page_anyprot e p) eqn:E.
  - by apply empty_no_hit.
  - cbn [fst]. unfold hits. by rewrite E.
Qed.

Lemma flush_of_ok p e : entry_ok e -> entry_ok (flush_of p e).
Proof. unfold flush_of, tlb_flush_entry_locked. destruct (tlb_hit_page_anyprot e p); [intros; apply empty_entry_ok|done]. Qed.

(** What flushing leaves alone. *)
Definition same_large_page (x x' : CPUTLBDesc) : Prop :=
  large_page_addr x' = large_page_addr x /\ large_page_mask x' = large_page_mask x.

Lemma flush_vtlb_loop_spec n t m p :
  let t' := flush_vtlb_loop n t m p in
  dirty t' = dirty t /\ f t' = f t /\ (forall m', m' <> m -> d t' m' = d t m') /\ same_large_page (d t m) (d t' m) /\
  forall k, vtable (d t' m) k = if (0 <=? k) && (k <? Z.of_nat n) then flush_of p (vtable (d t m) k) else vtable (d t m) k.
Proof.
  induction n as [|n IH]; cbn [flush_vtlb_loop].
  { split_and!; try done. intros k. by destruct (Z.leb_spec 0 k), (Z.ltb_spec k (Z.of_nat 0)); cbn; try lia. }
  destruct IH as (D & F & O & (L1 & L2) & V). set (t1 := flush_vtlb_loop n t m p) in *.
  fold (flush_of p (vtable (d t1 m) (Z.of_nat n))).
  assert (forall k, zset (vtable (d t1 m)) (Z.of_nat n) (flush_of p (vtable (d t1 m) (Z.of_nat n))) k =
    if (0 <=? k) && (k <? Z.of_nat (S n)) then flush_of p (vtable (d t m) k) else vtable (d t m) k) as Hv.
  { intros k. unfold zset. destruct (Z.eqb_spec k (Z.of_nat n)) as [->|Hk].
    - rewrite V. by destruct (Z.leb_spec 0 (Z.of_nat n)), (Z.ltb_spec (Z.of_nat n) (Z.of_nat n)), (Z.ltb_spec (Z.of_nat n) (Z.of_nat (S n)));
        cbn; try lia.
    - rewrite V. by destruct (Z.leb_spec 0 k), (Z.ltb_spec k (Z.of_nat n)), (Z.ltb_spec k (Z.of_nat (S n))); cbn; try lia. }
  destruct (tlb_flush_entry_locked (vtable (d t1 m) (Z.of_nat n)) p).2;
    unfold tlb_n_used_entries_dec; cbn; unfold zset at 1; rewrite ?Z.eqb_refl; cbn;
    split_and!; try done; try (intros m' Hm; unfold zset; rewrite (proj2 (Z.eqb_neq _ _) Hm); by apply O);
    unfold zset; rewrite ?Z.eqb_refl; cbn; done.
Qed.

Lemma flush_vtlb_spec t m p :
  let t' := tlb_flush_vtlb_page_locked t m p in
  dirty t' = dirty t /\ f t' = f t /\ (forall m', m' <> m -> d t' m' = d t m') /\ same_large_page (d t m) (d t' m) /\
  forall k, vtable (d t' m) k = if (0 <=? k) && (k <? CPU_VTLB_SIZE) then flush_of p (vtable (d t m) k) else vtable (d t m) k.
Proof. exact (flush_vtlb_loop_spec 8 t m p). Qed.

(** Mode [m'] with some victims and main entries flushed of the page [p]. *)
Lemma mode_inv_flush_page inst inst' m b x y x' y' p :
  mode_inv inst m b x y -> aligned p ->
  (forall j, table y' j = table y j \/ table y' j = flush_of p (table y j)) ->
  table y' (Z.land (Z.shiftr p TARGET_PAGE_BITS) (Z.shiftr (mask y) CPU_TLB_ENTRY_BITS)) =
    flush_of p (table y (Z.land (Z.shiftr p TARGET_PAGE_BITS) (Z.shiftr (mask y) CPU_TLB_ENTRY_BITS))) ->
  mask y' = mask y ->
  (forall k, vtable x' k = if (0 <=? k) && (k <? CPU_VTLB_SIZE) then flush_of p (vtable x k) else vtable x k) ->
  same_large_page x x' ->
  (forall e q, q <> p -> good inst x m e q -> good inst' x' m e q) ->
  mode_inv inst' m b x' y'.
Proof.
  intros [H1 H2 H3 H4 H5 H6] Ha Ht Hp Hm Hv HL Hg. split.
  - intros j. destruct (Ht j) as [-> | ->]; [done|by apply flush_of_ok].
  - intros k. rewrite Hv. destruct (_ && _); [by apply flush_of_ok|done].
  - intros j q Hq Hh. rewrite Hm.
    assert (hits (table y j) q /\ table y' j = table y j) as [Hh' He].
    { destruct (Ht j) as [E|E]; rewrite E in Hh |- *; [done|]. by apply flush_of_hits. }
    destruct (H3 j q Hq Hh') as [Hj Hgood]. split; [done|]. rewrite He. apply Hg; [|done].
    intros ->. subst j. rewrite Hp in Hh. eapply flush_of_ne; [apply H1|exact Ha|exact Hh].
  - intros k q Hk Hq Hh. rewrite Hv in Hh |- *.
    destruct (Z.leb_spec 0 k), (Z.ltb_spec k CPU_VTLB_SIZE); try lia. cbn [andb] in *.
    destruct (flush_of_hits p (vtable x k) q Hh Hq) as [Hh' He]. rewrite He.
    apply Hg; [|by apply H4]. intros ->. eapply flush_of_ne; [apply H2|exact Ha|exact Hh].
  - intros Hb q Hq. destruct (H5 Hb q Hq) as [N1 N2]. split.
    + intros j Hh. destruct (Ht j) as [E|E]; rewrite E in Hh; [by apply (N1 j)|].
      apply flush_of_hits in Hh as [Hh _]; [by apply (N1 j)|done].
    + intros k Hk Hh. rewrite Hv in Hh. destruct (_ && _); [|by apply (N2 k)].
      apply flush_of_hits in Hh as [Hh _]; [by apply (N2 k)|done].
  - unfold region_ok. destruct HL as [-> ->]. exact H6.
Qed.

Lemma flush_page_locked_inv inst t m page now t' :
  mode_inv inst m (Z.testbit (dirty t) m) (d t m) (f t m) -> aligned page ->
  tlb_flush_page_locked t m page now = Ret t' ->
  dirty t' = dirty t /\ (forall m', m' <> m -> d t' m' = d t m' /\ f t' m' = f t m') /\
  forall inst', (forall p, inst' m p =
      match inst m p with
      | Some (pa, sz) =>
          if bool_decide (p = page \/ (TARGET_PAGE_SIZE < sz /\ same_large sz p page)) then None else Some (pa, sz)
      | None => None
      end) ->
    mode_inv inst' m (Z.testbit (dirty t) m) (d t' m) (f t' m).
Proof.
  intros Hinv Ha. unfold tlb_flush_page_locked.
  destruct (Z.eqb_spec (Z.land page (large_page_mask (d t m))) (large_page_addr (d t m))) as [HL|HL].
  { intros (D & F & S)%flush_one_spec. split_and!; [done|done|]. intros. by apply flushed_inv. }
  set (t1 := set_entry t m _ _).
  set (t2 := if (tlb_flush_entry_locked (tlb_entry t m page) page).2 then tlb_n_used_entries_dec t1 m else t1).
  intros H%(inj Ret). subst t'.
  assert (dirty t2 = dirty t /\ f t2 = f t1 /\ (forall m', m' <> m -> d t2 m' = d t m') /\
    same_large_page (d t m) (d t2 m) /\ vtable (d t2 m) = vtable (d t m)) as (D2 & F2 & O2 & L2 & V2).
  { unfold t2. destruct (tlb_flush_entry_locked (tlb_entry t m page) page).2; [|done].
    unfold tlb_n_used_entries_dec, set_d. cbn. unfold zset. rewrite Z.eqb_refl. split_and!; try done.
    intros m' Hm. by rewrite (proj2 (Z.eqb_neq _ _) Hm). }
  destruct (flush_vtlb_spec t2 m page) as (D & F & O & (L3 & L4) & V).
  generalize dependent (tlb_flush_vtlb_page_locked t2 m page). intros t' D F O L3 L4 V.
  assert (forall m', f t' m' = if m' =? m then mkFast (mask (f t m)) (zset (table (f t m)) (tlb_index t m page) (flush_of page (tlb_entry t m page))) else f t m') as F'.
  { intros m'. rewrite F, F2. reflexivity. }
  split_and!; [congruence| |].
  { intros m' Hm. rewrite O, O2, F', (proj2 (Z.eqb_neq _ _) Hm) by done. done. }
  intros inst' Hi. rewrite F', Z.eqb_refl. destruct L2 as [L2 L2'].
  eapply mode_inv_flush_page; [exact Hinv|exact Ha| | |done| | |]; cbn [table].
  - intros j. unfold zset. destruct (Z.eqb_spec j (tlb_index t m page)) as [->|]; [by right|by left].
  - unfold zset, tlb_index, tlb_entry. rewrite Z.eqb_refl. done.
  - intros k. rewrite V, V2. done.
  - split; congruence.
  - intros e q Hq (sz & Hs & Hc). exists sz. rewrite Hi, Hs. split.
    + rewrite bool_decide_eq_false_2; [done|]. intros [|[Hbig Hsl]]; [done|].
      destruct (Hc Hbig) as [C1 C2]. apply HL. rewrite <- C1, <- C2. unfold same_large in Hsl.
      rewrite (Z.land_comm (large_page_mask _)), !Z.land_assoc, Hsl. done.
    + intros Hbig. destruct (Hc Hbig) as [C1 C2]. unfold covered. by rewrite L3, L4, L2, L2'.
Qed.

Lemma map_bit x k : 0 <= k -> ztrue (Z.land (Z.shiftr x k) 1) = Z.testbit x k.
Proof.
  intros Hk. change 1 with (2 ^ 0). rewrite ztrue_land_pow2, Z.shiftr_spec by lia. done.
Qed.

Lemma flush_page_loop_inv inst t page idxmap now self n t' :
  tlb_inv inst t -> page_of page = page -> (n <= 3)%nat -> flush_page_loop n t page idxmap now = Ret t' ->
  dirty t' = dirty t /\
  (forall m, 0 <= m < Z.of_nat n ->
    mode_inv (spec_step (OpFlushPage self page idxmap now) inst) m (Z.testbit (dirty t) m) (d t' m) (f t' m)) /\
  forall m, Z.of_nat n <= m -> d t' m = d t m /\ f t' m = f t m.
Proof.
  intros [Hd Hm] Hp. revert t'. induction n as [|n IH]; intros t' Hn; cbn [flush_page_loop].
  { intros [= <-]. split_and!; [done|lia|done]. }
  intros (t1 & H1 & H2)%cbind_Ret. destruct (IH t1 ltac:(lia) H1) as (D1 & M1 & S1).
  rewrite map_bit in H2 by lia. destruct (S1 (Z.of_nat n) ltac:(lia)) as [E1 E2].
  destruct (Z.testbit idxmap (Z.of_nat n)) eqn:Hb.
  - destruct (flush_page_locked_inv inst t1 (Z.of_nat n) page now t') as (D2 & S2 & M2);
      [rewrite D1, E1, E2; apply Hm; lia|done|done|].
    split_and!; [congruence| |].
    + intros m Hr. destruct (decide (m = Z.of_nat n)) as [->|Hne].
      * rewrite <- D1. apply M2. intros p. cbn [spec_step]. by rewrite Hb, Hp.
      * destruct (S2 m Hne) as [-> ->]. apply M1. lia.
    + intros m Hr. destruct (S2 m ltac:(lia)) as [-> ->]. apply S1. lia.
  - injection H2 as <-. split_and!; [done| |intros m Hr; apply S1; lia].
    intros m Hr. destruct (decide (m = Z.of_nat n)) as [->|Hne]; [|apply M1; lia].
    rewrite E1, E2. eapply mode_inv_ext; [|apply Hm; lia].
    intros p. cbn [spec_step]. rewrite Hb. by destruct (inst (Z.of_nat n) p) as [[]|].
Qed.

(** The page offset carries the map. *)
Lemma packed_map page idxmap :
  aligned page -> 0 <= idxmap < TARGET_PAGE_SIZE ->
  Z.land (Z.lor page idxmap) TARGET_PAGE_MASK = page /\
  u16 (Z.land (Z.lor page idxmap) (not64 TARGET_PAGE_MASK)) = idxmap.
Proof.
  intros Ha Hi. assert (idxmap = Z.land idxmap (Z.ones 12)) as E.
  { rewrite Z.land_ones by lia. symmetry. apply Z.mod_small. exact Hi. }
  split.
  - rewrite Z.land_lor_distr_l, Ha, E, <- Z.land_assoc. by rewrite Z.land_0_r, Z.lor_0_r.
  - change (not64 TARGET_PAGE_MASK) with (Z.ones 12). rewrite Z.land_lor_distr_l, <- E, <- Ha, <- Z.land_assoc.
    change (Z.land TARGET_PAGE_MASK (Z.ones 12)) with 0. rewrite Z.land_0_r, Z.lor_0_l.
    apply Z.mod_small. unfold TARGET_PAGE_SIZE, TARGET_PAGE_BITS in Hi. lia.
Qed.

Lemma flush_page_inv inst self t addr idxmap now t' :
  tlb_inv inst t -> 0 <= idxmap < 2 ^ 16 -> tlb_flush_page_by_mmuidx self t addr idxmap now = Ret t' ->
  tlb_inv (spec_step (OpFlushPage self addr idxmap now) inst) t'.
Proof.
  intros Hinv Hi H. pose proof (page_of_aligned addr) as Ha.
  assert (flush_page_loop 3 t (page_of addr) idxmap now = Ret t') as HL.
  { revert H. unfold tlb_flush_page_by_mmuidx, tlb_flush_page_by_mmuidx_async_1. fold (page_of addr).
    destruct self; [done|]. destruct (Z.ltb_spec idxmap TARGET_PAGE_SIZE); [|done].
    destruct (packed_map (page_of addr) idxmap) as [-> ->]; [done|lia|done]. }
  destruct (flush_page_loop_inv inst t (page_of addr) idxmap now self 3 t' Hinv Ha ltac:(lia) HL) as (D & M & _).
  split; [rewrite D; apply Hinv|]. intros m Hm. rewrite D.
  eapply mode_inv_ext; [|apply M; lia]. intros p. cbn [spec_step]. unfold aligned in Ha. fold (page_of (page_of addr)) in Ha.
  by rewrite Ha.
Qed.

(** ** Dirty tracking and the victim table *)

(** The entries hit alike. *)
Definition alike (e e' : CPUTLBEntry) : Prop :=
  e_paddr e' = e_paddr e /\ addr_read e' = addr_read e /\ addr_code e' = addr_code e /\
  (addr_write e' = addr_write e \/
   (addr_write e <> 2 ^ 64 - 1 /\ page_of (addr_write e') = page_of (addr_write e) /\
    forall p, tlb_hit_page (addr_write e') p = tlb_hit_page (addr_write e) p)).

Lemma alike_refl e : alike e e.
Proof. repeat split. by left. Qed.

Lemma alike_hits e e' p : alike e e' -> hits e' p -> hits e p.
Proof.
  intros (_ & Hr & Hc & Hw). unfold hits, tlb_hit_page_anyprot. rewrite Hr, Hc.
  destruct Hw as [->|(_ & _ & ->)]; done.
Qed.

Lemma alike_ok e e' : alike e e' -> entry_ok e -> entry_ok e'.
Proof.
  intros (_ & Hr & Hc & Hw) (p & F1 & F2 & F3). exists p. unfold entry_for. rewrite Hr, Hc. split_and!; try done.
  destruct Hw as [->|(Hn & Hp & _)]; [done|]. destruct F2 as [|F2]; [done|]. right. congruence.
Qed.

Lemma mode_inv_alike inst m b x y x' y' :
  mode_inv inst m b x y -> mask y' = mask y -> same_large_page x x' ->
  (forall j, alike (table y j) (table y' j)) -> (forall k, alike (vtable x k) (vtable x' k)) ->
  mode_inv inst m b x' y'.
Proof.
  intros [H1 H2 H3 H4 H5 H6] Hm [L1 L2] At Av.
  assert (forall e e' p, alike e e' -> good inst x m e p -> good inst x' m e' p) as Hg.
  { intros e e' p (Hp & _) (sz & E & C). exists sz. unfold covered. by rewrite Hp, L1, L2. }
  split.
  - intros j. eapply alike_ok; [apply At|apply H1].
  - intros k. eapply alike_ok; [apply Av|apply H2].
  - intros j p Ha Hh. destruct (H3 j p Ha (alike_hits _ _ _ (At j) Hh)) as [Hj G]. rewrite Hm. split; [done|].
    by eapply Hg.
  - intros k p Hk Ha Hh. eapply Hg; [apply Av|]. apply H4; [done|done|]. by eapply alike_hits.
  - intros Hb p Ha. destruct (H5 Hb p Ha) as [N1 N2].
    split; [intros j Hh; apply (N1 j)|intros k Hk Hh; apply (N2 k Hk)]; by eapply alike_hits.
  - unfold region_ok. rewrite L1, L2. exact H6.
Qed.

(** A flag below the page bits, other than the one that invalidates. *)
Lemma flag_page x flag : Z.land flag TARGET_PAGE_MASK = 0 -> page_of (Z.lor x flag) = page_of x.
Proof. intros H. unfold page_of. by rewrite Z.land_lor_distr_l, H, Z.lor_0_r. Qed.

Lemma flag_hit x flag p :
  Z.land flag (Z.lor TARGET_PAGE_MASK TLB_INVALID_MASK) = 0 -> tlb_hit_page (Z.lor x flag) p = tlb_hit_page x p.
Proof. intros H. unfold tlb_hit_page. by rewrite Z.land_lor_distr_l, H, Z.lor_0_r. Qed.

Lemma reset_dirty_alike e start len : alike e (tlb_reset_dirty_range_locked e start len).
Proof.
  unfold tlb_reset_dirty_range_locked. destruct (Z.eqb_spec (Z.land (addr_write e)
    (Z.lor (Z.lor (Z.lor TLB_INVALID_MASK TLB_MMIO) TLB_DISCARD_WRITE) TLB_NOTDIRTY)) 0) as [E|]; [|apply alike_refl].
  destruct (_ <? len); [|apply alike_refl].
  repeat split. right. split_and!.
  - intros Hw. rewrite Hw in E. revert E. by vm_compute.
  - by apply flag_page.
  - intros p. by apply flag_hit.
Qed.

Lemma set_dirty1_alike e v : aligned v -> alike e (tlb_set_dirty1_locked e v).
Proof.
  intros Ha. unfold tlb_set_dirty1_locked.
  destruct (Z.eqb_spec (addr_write e) (Z.lor v TLB_NOTDIRTY)) as [E|]; [|apply alike_refl].
  repeat split. right. cbn [addr_write set_write]. rewrite E. split_and!.
  - intros Hw. apply (f_equal (fun x => Z.testbit x 0)) in Hw. rewrite <- Ha in Hw. revert Hw.
    rewrite Z.lor_spec, Z.land_spec. change (Z.testbit TARGET_PAGE_MASK 0) with false. by rewrite andb_false_r.
  - symmetry. by apply flag_page.
  - intros p. symmetry. by apply flag_hit.
Qed.

Lemma mode_exists m : 0 <= m < 3 -> (0 <=? m) && (m <? Z.of_nat NB_MMU_MODES) = true.
Proof. intros Hm. apply andb_true_intro. split; [apply Z.leb_le; lia|apply Z.ltb_lt; change (Z.of_nat NB_MMU_MODES) with 3; lia]. Qed.

Lemma reset_dirty_inv inst t start len : tlb_inv inst t -> tlb_inv inst (tlb_reset_dirty t start len).
Proof.
  intros [Hd Hm]. split; [done|]. intros m Hr. specialize (Hm m Hr). cbn [dirty d f tlb_reset_dirty].
  rewrite (mode_exists m Hr).
  eapply mode_inv_alike; [exact Hm|done|done| |]; cbn.
  - intros j. destruct (_ && _); [apply reset_dirty_alike|apply alike_refl].
  - intros k. destruct (_ && _); [apply reset_dirty_alike|apply alike_refl].
Qed.

Lemma set_dirty_inv inst t v : tlb_inv inst t -> tlb_inv inst (tlb_set_dirty t v).
Proof.
  intros [Hd Hm]. pose proof (page_of_aligned v) as Ha. split; [done|]. intros m Hr. specialize (Hm m Hr).
  cbn [dirty d f tlb_set_dirty]. fold (page_of v).
  rewrite (mode_exists m Hr).
  eapply mode_inv_alike; [exact Hm|done|done| |]; cbn.
  - intros j. unfold zset. destruct (Z.eqb_spec j (tlb_index t m (page_of v))) as [->|];
      [by apply set_dirty1_alike|apply alike_refl].
  - intros k. destruct (_ && _); [by apply set_dirty1_alike|apply alike_refl].
Qed.

Lemma aligned_hit x : aligned x -> tlb_hit_page x x = true.
Proof.
  intros Ha. unfold tlb_hit_page. apply Z.eqb_eq. unfold aligned in Ha. rewrite <- Ha at 2.
  rewrite <- Z.land_assoc. change (Z.land TARGET_PAGE_MASK (Z.lor TARGET_PAGE_MASK TLB_INVALID_MASK)) with TARGET_PAGE_MASK.
  done.
Qed.

(** Exchanging a victim that hits the page with the main entry at its index. *)
Lemma mode_inv_swap inst m b x y p v io vio :
  mode_inv inst m b x y -> aligned p -> 0 <= v < CPU_VTLB_SIZE -> hits (vtable x v) p ->
  let index := Z.land (Z.shiftr p TARGET_PAGE_BITS) (Z.shiftr (mask y) CPU_TLB_ENTRY_BITS) in
  mode_inv inst m b (set_victims x (vindex x) (zset (vtable x) v (table y index)) vio io)
    (mkFast (mask y) (zset (table y) index (vtable x v))).
Proof.
  intros [H1 H2 H3 H4 H5 H6] Ha Hv Hh index.
  assert (forall e q, good inst x m e q -> good inst (set_victims x (vindex x) (zset (vtable x) v (table y index)) vio io) m e q)
    as Hg by done.
  assert (b = true) as Hb by (destruct b; [done|]; by destruct (proj2 (H5 eq_refl p Ha) v Hv)).
  split; cbn [table mask vtable set_victims]; unfold zset.
  - intros j. destruct (j =? index); [apply H2|apply H1].
  - intros k. destruct (k =? v); [apply H1|apply H2].
  - intros j q Hq. destruct (Z.eqb_spec j index) as [->|Hj]; intros Hhq.
    + destruct (H2 v) as [pv Hpv]. assert (q = p) as -> by (rewrite (hits_for _ _ _ Hpv Hq Hhq); symmetry; by eapply hits_for).
      split; [done|]. apply Hg. by apply H4.
    + destruct (H3 j q Hq Hhq). split; [done|]. by apply Hg.
  - intros k q Hk Hq. destruct (k =? v); intros Hhq; apply Hg; [by apply H3|by apply H4].
  - by rewrite Hb.
  - exact H6.
Qed.

Lemma victim_loop_inv inst m x y t n v elt p :
  d t m = x -> f t m = y -> mode_inv inst m (Z.testbit (dirty t) m) x y -> aligned p ->
  (forall e, elt e = p -> hits e p) -> 0 <= v -> v + Z.of_nat n <= CPU_VTLB_SIZE ->
  let t' := (victim_loop n v t m (Z.land (Z.shiftr p TARGET_PAGE_BITS) (Z.shiftr (mask y) CPU_TLB_ENTRY_BITS)) elt p).2 in
  dirty t' = dirty t /\ (forall m', m' <> m -> d t' m' = d t m' /\ f t' m' = f t m') /\
  mode_inv inst m (Z.testbit (dirty t) m) (d t' m) (f t' m).
Proof.
  intros Ex Ey Hinv Ha He. revert v. induction n as [|n IH]; intros v Hv Hn; cbn [victim_loop].
  { subst. done. }
  rewrite Ex. destruct (Z.eqb_spec (elt (vtable x v)) p) as [E|E]; [|apply IH; lia].
  unfold set_entry, set_f, set_d. rewrite Ey. cbn [snd dirty d f]. split_and!; [done| |].
  - intros m' Hm. by rewrite !zset_ne.
  - rewrite !zset_eq. apply mode_inv_swap; [done|done|lia|by apply He].
Qed.

(** ** Large pages *)

Lemma high_mask_testbit k i : 0 <= k -> 0 <= i -> Z.testbit (high_mask k) i = (k <=? i) && (i <? 64).
Proof.
  intros Hk Hi. unfold high_mask. rewrite Z.ldiff_spec, !Z.testbit_ones by lia.
  destruct (Z.leb_spec 0 i), (Z.ltb_spec i 64), (Z.ltb_spec i k), (Z.leb_spec k i); cbn; try done; lia.
Qed.

Lemma high_mask_land a b : 0 <= a -> 0 <= b -> Z.land (high_mask a) (high_mask b) = high_mask (Z.max a b).
Proof.
  intros Ha Hb. apply Z.bits_inj'. intros i Hi. rewrite Z.land_spec, !high_mask_testbit by lia.
  destruct (Z.leb_spec a i), (Z.leb_spec b i), (Z.leb_spec (Z.max a b) i), (Z.ltb_spec i 64); cbn; try done; lia.
Qed.

Lemma high_mask_shift k : 0 <= k -> u64 (Z.shiftl (high_mask k) 1) = high_mask (k + 1).
Proof.
  intros Hk. apply Z.bits_inj'. intros i Hi. rewrite high_mask_testbit by lia. unfold u64.
  destruct (Z.ltb_spec i 64) as [H|H]; [|by rewrite Z.mod_pow2_bits_high, andb_false_r by lia].
  rewrite Z.mod_pow2_bits_low, Z.shiftl_spec by lia.
  destruct (Z.eq_dec i 0) as [->|Hne]; [rewrite Z.testbit_neg_r by lia; destruct (Z.leb_spec (k + 1) 0); [lia|done]|].
  rewrite high_mask_testbit by lia.
  destruct (Z.leb_spec k (i - 1)), (Z.leb_spec (k + 1) i), (Z.ltb_spec (i - 1) 64); cbn; try done; lia.
Qed.

Lemma not64_pow2 k : 0 <= k -> not64 (2 ^ k - 1) = high_mask k.
Proof.
  intros Hk. apply Z.bits_inj'. intros i Hi. rewrite high_mask_testbit by lia. unfold not64, u64.
  replace (2 ^ k - 1) with (Z.ones k) by (rewrite Z.ones_equiv; lia).
  destruct (Z.ltb_spec i 64) as [H|H]; [|by rewrite Z.mod_pow2_bits_high, andb_false_r by lia].
  rewrite Z.mod_pow2_bits_low, Z.lnot_spec, Z.testbit_ones by lia.
  destruct (Z.leb_spec 0 i), (Z.ltb_spec i k), (Z.leb_spec k i); cbn; try done; lia.
Qed.

Lemma high_mask_zero k : 64 <= k -> high_mask k = 0.
Proof.
  intros Hk. apply Z.bits_inj'. intros i Hi. rewrite high_mask_testbit, Z.bits_0 by lia.
  destruct (Z.leb_spec k i), (Z.ltb_spec i 64); try done. lia.
Qed.

(** Widening the mask ends with one on which the two addresses agree. *)
Lemma large_page_loop_ok fuel lp_addr vaddr k :
  0 <= k -> 64 <= k + Z.of_nat fuel ->
  exists k', k <= k' /\ k' <= Z.max k 64 /\ large_page_loop fuel lp_addr vaddr (high_mask k) = Ret (high_mask k') /\
    Z.land lp_addr (high_mask k') = Z.land vaddr (high_mask k').
Proof.
  revert k. induction fuel as [|fuel IH]; intros k Hk Hf; cbn [large_page_loop];
    destruct (Z.eqb_spec (Z.land (Z.lxor lp_addr vaddr) (high_mask k)) 0) as [E|E].
  1,3: exists k; split_and!; [lia|lia|done|]; apply Z.bits_inj'; intros i Hi;
    apply (f_equal (fun x => Z.testbit x i)) in E; rewrite Z.land_spec, Z.lxor_spec, Z.bits_0 in E; rewrite !Z.land_spec;
    destruct (Z.testbit lp_addr i), (Z.testbit vaddr i), (Z.testbit (high_mask k) i); done.
  - destruct E. rewrite high_mask_zero by lia. apply Z.land_0_r.
  - rewrite high_mask_shift by lia. destruct (Z.leb_spec 64 k).
    { destruct E. rewrite high_mask_zero by lia. apply Z.land_0_r. }
    destruct (IH (k + 1)) as (k' & H1 & H2 & H3 & H4); [lia|lia|]. exists k'. split_and!; [lia|lia|done|done].
Qed.

Lemma high_mask_page k p : TARGET_PAGE_BITS <= k -> Z.land (page_of p) (high_mask k) = Z.land p (high_mask k).
Proof.
  intros Hk. unfold page_of. rewrite <- Z.land_assoc. f_equal.
  change TARGET_PAGE_MASK with (high_mask TARGET_PAGE_BITS). unfold TARGET_PAGE_BITS in *.
  rewrite high_mask_land by lia. f_equal. lia.
Qed.

Lemma region_not_minus1 a k : TARGET_PAGE_BITS <= k -> Z.land a (high_mask k) = a -> a <> 2 ^ 64 - 1.
Proof.
  unfold TARGET_PAGE_BITS. intros Hk Ha ->. apply (f_equal (fun x => Z.testbit x 0)) in Ha.
  rewrite Z.land_spec, high_mask_testbit in Ha by lia. destruct (Z.leb_spec k 0); [lia|]. by rewrite andb_false_r in Ha.
Qed.

Lemma add_large_ok t m vaddr k :
  region_ok (d t m) -> TARGET_PAGE_BITS <= k < 64 ->
  exists a mk, tlb_add_large_page t m vaddr (2 ^ k) = Ret (set_d t m (set_large (d t m) a mk)) /\
    region_ok (set_large (d t m) a mk) /\ covered (set_large (d t m) a mk) (page_of vaddr) (2 ^ k) /\
    forall p sz, aligned p -> covered (d t m) p sz -> covered (set_large (d t m) a mk) p sz.
Proof.
  unfold TARGET_PAGE_BITS. intros Hr Hk. unfold tlb_add_large_page. rewrite not64_pow2 by lia.
  destruct Hr as [[Ha Hm]|(k0 & Hk0 & Hm & Ha)]; unfold TARGET_PAGE_BITS in *.
  - rewrite Ha, Z.eqb_refl. cbn [cbind fst snd]. eexists _, _. split; [reflexivity|]. split_and!.
    + right. exists k. unfold TARGET_PAGE_BITS. split_and!; [lia|lia|done|]. cbn. by rewrite <- Z.land_assoc, Z.land_diag.
    + split; cbn [large_page_mask large_page_addr set_large]; [apply high_mask_page; unfold TARGET_PAGE_BITS; lia|].
      by rewrite not64_pow2, Z.land_diag by lia.
    + intros p sz Hp [C _]. rewrite Ha, Hm in C. exfalso. apply (f_equal (fun x => Z.testbit x 0)) in C.
      rewrite <- Hp, !Z.land_spec in C. change (Z.testbit TARGET_PAGE_MASK 0) with false in C. by rewrite andb_false_r in C.
  - assert (large_page_addr (d t m) <> 2 ^ 64 - 1) as Hne by (eapply region_not_minus1; [|exact Ha]; unfold TARGET_PAGE_BITS; lia).
    rewrite (proj2 (Z.eqb_neq _ _) Hne), Hm, high_mask_land by lia.
    destruct (large_page_loop_ok 64 (large_page_addr (d t m)) vaddr (Z.max k k0)) as (k' & H1 & H2 & -> & H4); [lia|lia|].
    cbn [cbind fst snd]. eexists _, _. split; [reflexivity|]. split_and!.
    + right. exists k'. unfold TARGET_PAGE_BITS. split_and!; [lia|lia|done|]. cbn. by rewrite <- Z.land_assoc, Z.land_diag.
    + split; cbn [large_page_mask large_page_addr set_large].
      * rewrite high_mask_page by (unfold TARGET_PAGE_BITS; lia). done.
      * rewrite not64_pow2, high_mask_land by lia. f_equal. lia.
    + intros p sz Hp [C1 C2]. rewrite Hm in C1, C2. split; cbn [large_page_mask large_page_addr set_large].
      * rewrite <- C1, <- Z.land_assoc, high_mask_land by lia. do 2 f_equal. lia.
      * replace (high_mask k') with (Z.land (high_mask k') (high_mask k0)) by (rewrite high_mask_land by lia; f_equal; lia).
        by rewrite <- Z.land_assoc, C2.
Qed.

(** ** Entering a page *)

Lemma or_if_page b x flag : Z.land flag TARGET_PAGE_MASK = 0 -> page_of (or_if b x flag) = page_of x.
Proof. intros H. destruct b; [by apply flag_page|done]. Qed.

Lemma page_address_page p attrs size : aligned p -> page_of (page_address p attrs size) = p.
Proof. intros Ha. unfold page_address. by rewrite !or_if_page. Qed.

Lemma page_write_address_page section xlat prot a : page_of (page_write_address section xlat prot a).1 = page_of a.
Proof.
  unfold page_write_address.
  destruct (sec_is_ram section), (ztrue (Z.land prot PAGE_WRITE)), (sec_readonly section),
    (is_clean (u64 (sec_ram_addr section + xlat))); cbn [fst]; try done; by apply flag_page.
Qed.

Lemma new_entry_for p pa ad a w prot wp :
  page_of a = p -> page_of w = p -> entry_for p (new_entry p pa ad a w prot wp).
Proof.
  intros Ha Hw. unfold new_entry, entry_for, field_ok. cbn [addr_read addr_write addr_code].
  split_and!; destruct (ztrue (Z.land prot _)); try (by left); right; by rewrite ?or_if_page.
Qed.

Lemma evict_spec t m index p :
  let t' := evict t m index p in
  dirty t' = dirty t /\ f t' = f t /\ (forall m', m' <> m -> d t' m' = d t m') /\ same_large_page (d t m) (d t' m) /\
  forall k, vtable (d t' m) k = vtable (d t m) k \/
    (vtable (d t' m) k = table (f t m) index /\ ~ hits (table (f t m) index) p).
Proof.
  unfold evict, hits. destruct (tlb_hit_page_anyprot (table (f t m) index) p) eqn:E; cbn [negb andb].
  { split_and!; try done. by left. }
  destruct (negb _); [|split_and!; try done; by left].
  unfold tlb_n_used_entries_dec, set_d. cbn [dirty d f]. rewrite !zset_eq. split_and!; try done.
  - intros m' Hm. by rewrite !zset_ne.
  - intros k. cbn [vtable set_used set_victims]. unfold zset. destruct (k =? vindex (d t m) mod CPU_VTLB_SIZE); [right|left; done]. done.
Qed.

Lemma mode_inv_enter inst inst' m b x y x' y' p e size :
  mode_inv inst m b x y -> aligned p -> entry_for p e ->
  let index := Z.land (Z.shiftr p TARGET_PAGE_BITS) (Z.shiftr (mask y) CPU_TLB_ENTRY_BITS) in
  y' = mkFast (mask y) (zset (table y) index e) ->
  (forall k, 0 <= k < CPU_VTLB_SIZE -> vtable x' k = flush_of p (vtable x k) \/
     (vtable x' k = table y index /\ ~ hits (table y index) p)) ->
  (forall k, entry_ok (vtable x' k)) ->
  region_ok x' -> (forall q sz, aligned q -> covered x q sz -> covered x' q sz) ->
  (TARGET_PAGE_SIZE < size -> covered x' p size) ->
  inst' m p = Some (e_paddr e, size) -> (forall q, q <> p -> inst' m q = inst m q) ->
  mode_inv inst' m true x' y'.
Proof.
  intros [H1 H2 H3 H4 H5 H6] Ha He index -> Hv Hvok Hr Hc Hs Hi Ho.
  assert (forall e q, aligned q -> q <> p -> good inst x m e q -> good inst' x' m e q) as Hg.
  { intros e' q Hq Hn (sz & E & C). exists sz. rewrite Ho by done. split; [done|]. auto. }
  split; cbn [table mask]; try done.
  - intros j. unfold zset. destruct (j =? index); [by exists p|apply H1].
  - intros j q Hq. unfold zset. destruct (Z.eqb_spec j index) as [->|Hj]; intros Hh.
    + assert (q = p) as -> by (by eapply hits_for). split; [done|]. by exists size.
    + destruct (H3 j q Hq Hh) as [Hj' G]. split; [done|]. apply Hg; [done| |done]. intros ->. by apply Hj.
  - intros k q Hk Hq Hh. destruct (Hv k Hk) as [E|[E Hn]]; rewrite E in Hh |- *.
    + destruct (flush_of_hits p _ q Hh Hq) as [Hh' ->]. apply Hg; [done| |by apply H4].
      intros ->. eapply flush_of_ne; [apply (H2 k)|exact Ha|exact Hh].
    + apply Hg; [done|by intros ->|by apply H3].
Qed.

Lemma lor_below a b k : 0 <= k -> 0 <= a < 2 ^ k -> 0 <= b < 2 ^ k -> 0 <= Z.lor a b < 2 ^ k.
Proof.
  intros Hk Ha Hb. rewrite <- (Z.mod_small a (2 ^ k)), <- (Z.mod_small b (2 ^ k)) by lia.
  rewrite <- !Z.land_ones, <- Z.land_lor_distr_l, Z.land_ones by done. apply Z.mod_pos_bound. lia.
Qed.

Lemma pow2_mode m : 0 <= m < 3 -> 0 <= 2 ^ m < 2 ^ 3.
Proof. intros Hm. assert (m = 0 \/ m = 1 \/ m = 2) as [->|[->| ->]] by lia; lia. Qed.

(** The region after the size was taken into account. *)
Lemma large_page_step t m vaddr size :
  region_ok (d t m) -> (TARGET_PAGE_SIZE < size -> exists k, TARGET_PAGE_BITS <= k < 64 /\ size = 2 ^ k) ->
  exists t1 sz,
    (if size <=? TARGET_PAGE_SIZE then Ret (t, TARGET_PAGE_SIZE)
     else let* t := tlb_add_large_page t m vaddr size in Ret (t, size)) = Ret (t1, sz) /\
    dirty t1 = dirty t /\ f t1 = f t /\ (forall m', m' <> m -> d t1 m' = d t m') /\ vtable (d t1 m) = vtable (d t m) /\
    region_ok (d t1 m) /\ (TARGET_PAGE_SIZE < size -> covered (d t1 m) (page_of vaddr) size) /\
    forall p sz, aligned p -> covered (d t m) p sz -> covered (d t1 m) p sz.
Proof.
  intros Hr Hs. destruct (Z.leb_spec size TARGET_PAGE_SIZE) as [Hle|Hgt].
  { exists t, TARGET_PAGE_SIZE. split_and!; try done. lia. }
  destruct (Hs Hgt) as (k & Hk & ->).
  destruct (add_large_ok t m vaddr k Hr Hk) as (a & mk & -> & H1 & H2 & H3).
  eexists _, _. split; [reflexivity|]. unfold set_d. cbn [dirty d f]. rewrite !zset_eq.
  split_and!; try done. intros m' Hm. by rewrite zset_ne.
Qed.

Lemma set_page_inv inst t vaddr paddr attrs prot m size t' :
  tlb_inv inst t -> tlb_op_ok (OpSet vaddr paddr attrs prot m size) ->
  tlb_set_page_with_attrs t vaddr paddr attrs prot m size = Ret t' ->
  tlb_inv (spec_step (OpSet vaddr paddr attrs prot m size) inst) t'.
Proof.
  intros [Hd Hm] (Hva & Hr & Hsz). unfold tlb_set_page_with_attrs.
  destruct (large_page_step t m vaddr size (mi_region _ _ _ _ _ (Hm m Hr)) Hsz)
    as (t1 & sz & -> & D1 & F1 & O1 & V1 & R1 & C1 & C1').
  cbn [cbind]. fold (page_of vaddr) (page_of paddr). pose proof (page_of_aligned vaddr) as Ha.
  destruct (translate_for_iotlb (page_of paddr) sz attrs prot) as [[[section xlat] sz'] prot'].
  intros (u & _ & H)%cbind_Ret.
  set (a := page_address (page_of vaddr) attrs size) in H.
  assert (page_of a = page_of vaddr) as Hpa by (by apply page_address_page).
  pose proof (page_write_address_page section xlat prot' a) as Hpw.
  destruct (page_write_address section xlat prot' a) as [w io]. cbn [fst] in Hpw.
  assert (tlb_index t1 m (page_of vaddr) = tlb_index t m (page_of vaddr)) as Hix by (unfold tlb_index; by rewrite F1).
  rewrite Hix in H. set (t2 := set_dirty_mask t1 _) in H.
  destruct (flush_vtlb_spec t2 m (page_of vaddr)) as (D3 & F3 & O3 & [L3 L3'] & V3).
  generalize dependent (tlb_flush_vtlb_page_locked t2 m (page_of vaddr)). intros t3 H D3 F3 O3 L3 L3' V3.
  destruct (evict_spec t3 m (tlb_index t m (page_of vaddr)) (page_of vaddr)) as (D4 & F4 & O4 & [L4 L4'] & V4).
  generalize dependent (evict t3 m (tlb_index t m (page_of vaddr)) (page_of vaddr)). intros t4 H D4 F4 O4 L4 L4' V4.
  apply (inj Ret) in H. subst t'.
  set (e := new_entry _ _ _ _ _ _ _).
  assert (entry_for (page_of vaddr) e) as He.
  { apply new_entry_for; [destruct (negb _ && negb _); congruence|congruence]. }
  assert (e_paddr e = page_of paddr) as Hep by done. clearbody e.
  unfold tlb_inv, tlb_n_used_entries_inc, set_entry, set_f, set_d. cbn [dirty d f].
  pose proof (lor_below (dirty t) (2 ^ m) 3 ltac:(lia) Hd (pow2_mode m Hr)) as Hlor.
  assert (dirty t4 = Z.lor (dirty t) (2 ^ m)) as Hdt by (rewrite D4, D3; cbn; rewrite D1; apply Z.mod_small; lia).
  rewrite Hdt. split; [done|]. intros m' Hr'. rewrite Z.lor_spec, Z.pow2_bits_eqb by lia.
  rewrite F4, F3. cbn [f t2 set_dirty_mask]. rewrite F1.
  destruct (Z.eqb_spec m m') as [<-|Hne].
  - rewrite orb_true_r, !zset_eq. cbn [d f].
    eapply (mode_inv_enter inst); [apply (Hm m Hr)|exact Ha|exact He|reflexivity| | | | | | |].
    + intros k Hk. cbn [vtable set_used set_victims]. destruct (V4 k) as [->|[-> Hn]]; rewrite F3 in *.
      * left. rewrite V3. cbn [d t2 set_dirty_mask]. rewrite V1.
        destruct (Z.leb_spec 0 k), (Z.ltb_spec k CPU_VTLB_SIZE); try lia. done.
      * right. unfold t2 in *. cbn [f set_dirty_mask] in *. rewrite F1 in *. done.
    + intros k. cbn [vtable set_used set_victims]. destruct (V4 k) as [->|[-> _]].
      * rewrite V3. cbn [d t2 set_dirty_mask]. rewrite V1. pose proof (mi_vok _ _ _ _ _ (Hm m Hr) k).
        destruct (_ && _); [by apply flush_of_ok|done].
      * rewrite F3. cbn [f t2 set_dirty_mask]. rewrite F1. apply (mi_ok _ _ _ _ _ (Hm m Hr)).
    + unfold region_ok. cbn. rewrite L4, L4', L3, L3'. exact R1.
    + intros q sz0 Hq Hc. unfold covered. cbn. rewrite L4, L4', L3, L3'. by apply C1'.
    + intros Hb. unfold covered. cbn. rewrite L4, L4', L3, L3'. by apply C1.
    + cbn [spec_step]. by rewrite decide_True, Hep.
    + intros q Hq. cbn [spec_step]. rewrite decide_False; [done|]. by intros [_ ?].
  - rewrite orb_false_r, !zset_ne by done. rewrite O4, O3 by done. cbn [d t2 set_dirty_mask]. rewrite O1 by done.
    eapply mode_inv_ext; [|by apply Hm]. intros q. cbn [spec_step]. rewrite decide_False; [done|]. by intros [? _].
Qed.

(** ** Refinement *)

Lemma victim_inv inst t elt m addr :
  tlb_inv inst t -> tlb_op_ok (OpVictim elt m addr) ->
  tlb_inv inst (victim_tlb_hit t m (tlb_index t m addr) elt (page_of addr)).2.
Proof.
  intros [Hd Hm] (He & Hr & Ha). rewrite <- tlb_index_page by done. unfold tlb_index, victim_tlb_hit.
  destruct (victim_loop_inv inst m (d t m) (f t m) t (Z.to_nat CPU_VTLB_SIZE) 0 elt (page_of addr))
    as (D & O & M); [done|done|by apply Hm|apply page_of_aligned| |done|done|].
  { intros e E. pose proof (aligned_hit _ (page_of_aligned addr)) as Hh. rewrite <- E in Hh at 1.
    unfold hits, tlb_hit_page_anyprot. destruct He as [->|[->| ->]]; rewrite Hh; by rewrite ?orb_true_r. }
  split; [by rewrite D|]. intros m' Hr'. rewrite D. destruct (decide (m' = m)) as [->|Hne]; [done|].
  destruct (O m' Hne) as [-> ->]. by apply Hm.
Qed.

Lemma step_inv o inst t t' :
  tlb_op_ok o -> tlb_inv inst t -> tlb_step o t = Ret t' -> tlb_inv (spec_step o inst) t'.
Proof.
  intros Hok Hinv. destruct o; cbn [tlb_step].
  - by apply set_page_inv.
  - by apply flush_by_mmuidx_inv.
  - apply flush_page_inv; [done|apply Hok].
  - intros [= <-]. by apply reset_dirty_inv.
  - intros [= <-]. by apply set_dirty_inv.
  - intros H%(inj Ret). subst t'. by apply victim_inv.
Qed.

Lemma run_inv l inst t t' :
  Forall tlb_op_ok l -> tlb_inv inst t -> tlb_run l t = Ret t' -> tlb_inv (spec_run l inst) t'.
Proof.
  intros Hl. revert inst t. induction Hl as [|o l Ho Hl IH]; intros inst t Hinv; cbn [tlb_run].
  { by intros [= <-]. }
  intros (t1 & H1 & H2)%cbind_Ret. cbn [spec_run foldl]. eapply IH; [|exact H2]. by eapply step_inv.
Qed.

Lemma init_inv t now : tlb_inv (fun _ _ => None) (tlb_init t now).
Proof.
  split; [done|]. intros m Hm. apply flushed_inv.
  assert (m = 0 \/ m = 1 \/ m = 2) as [->|[->| ->]] by lia; done.
Qed.

(** A hit in the main table is a translation in force. *)
Lemma hit_in_force inst t m addr :
  tlb_inv inst t -> 0 <= m < 3 -> 0 <= addr < 2 ^ 64 -> hits (tlb_entry t m addr) (page_of addr) ->
  exists sz, inst m (page_of addr) = Some (e_paddr (tlb_entry t m addr), sz).
Proof.
  intros [_ Hm] Hr Ha Hh. destruct (mi_main _ _ _ _ _ (Hm m Hr) _ _ (page_of_aligned addr) Hh) as (_ & sz & E & _). eauto.
Qed.

(** C4: the TLB never serves a stale translation.  After any sequence of pages
    entered, flushes of modes and of pages, dirty tracking and victim look-ups
    on an initialised TLB, an entry of the main table that hits an address for
    reading, writing or execution carries the physical page that was entered
    last for that page and mode and that no flush of the mode, of the page, or
    of the guest's large page around it has revoked since. *)
Theorem tlb_never_stale t0 now l t m addr :
  Forall tlb_op_ok l -> tlb_run l (tlb_init t0 now) = Ret t -> 0 <= m < 3 -> 0 <= addr < 2 ^ 64 ->
  tlb_hit (addr_read (tlb_entry t m addr)) addr = true \/ tlb_hit (addr_write (tlb_entry t m addr)) addr = true \/
    tlb_hit (addr_code (tlb_entry t m addr)) addr = true ->
  exists sz, spec_run l (fun _ _ => None) m (page_of addr) = Some (e_paddr (tlb_entry t m addr), sz).
Proof.
  intros Hl Hrun Hm Ha Hh. apply hit_in_force; [|done|done|].
  - eapply run_inv; [done|apply init_inv|exact Hrun].
  - destruct Hh as [H|[H|H]]; [by apply hit_read|by apply hit_write|by apply hit_code].
Qed.

(** ** Sizes *)

Definition size_ok (y : CPUTLBDescFast) : Prop :=
  exists k, CPU_TLB_DYN_MIN_BITS <= k <= CPU_TLB_DYN_MAX_BITS /\ mask y = Z.shiftl (2 ^ k - 1) CPU_TLB_ENTRY_BITS.

(** A mode with a table of a supported size and sensible counters. *)
Definition sized (x : CPUTLBDesc) (y : CPUTLBDescFast) : Prop :=
  size_ok y /\ 0 <= n_used_entries x < 2 ^ 57 /\ 0 <= window_max_entries x < 2 ^ 57.

Lemma n_entries_pow2 y k : mask y = Z.shiftl (2 ^ k - 1) CPU_TLB_ENTRY_BITS -> tlb_n_entries y = 2 ^ k.
Proof.
  intros E. unfold tlb_n_entries, CPU_TLB_ENTRY_BITS in *.
  rewrite E, Z.shiftr_shiftl_l, Z.sub_diag, Z.shiftl_0_r by lia. lia.
Qed.

(** [pow2ceil] is the least power of two not below its argument. *)
Lemma pow2ceil_spec v : 0 <= v < 2 ^ 57 -> exists c, 0 <= c <= 57 /\ pow2ceil v = 2 ^ c /\ (v <= 1 -> c = 0) /\ (1 < v -> 2 ^ c < 2 * v).
Proof.
  intros Hv. unfold pow2ceil, clz64.
  destruct (Z.eq_dec v 0) as [->|H0]; [exists 0; split_and!; [lia|lia|done|done|lia]|].
  rewrite (u64_small (v - 1)) by lia.
  destruct (Z.eqb_spec (v - 1) 0) as [E|E].
  { exists 0. assert (v = 1) as -> by lia. split_and!; [lia|lia|done|done|lia]. }
  pose proof (Z.log2_spec (v - 1) ltac:(lia)) as [L1 L2]. pose proof (Z.log2_nonneg (v - 1)).
  assert (Z.log2 (v - 1) < 57) as L3 by (apply Z.log2_lt_pow2; lia).
  destruct (Z.eqb_spec (63 - Z.log2 (v - 1)) 0); [lia|].
  exists (Z.succ (Z.log2 (v - 1))). split_and!; [lia|lia| |lia|].
  - rewrite Z.shiftr_div_pow2 by lia. rewrite <- Z.pow_sub_r by lia. f_equal. lia.
  - intros _. rewrite Z.pow_succ_r by done. lia.
Qed.

Lemma pow2_max a b : 0 <= a -> 0 <= b -> Z.max (2 ^ a) (2 ^ b) = 2 ^ Z.max a b.
Proof.
  intros Ha Hb. destruct (Z.leb_spec a b).
  - rewrite (Z.max_r a b) by done. apply Z.max_r, Z.pow_le_mono_r; lia.
  - rewrite (Z.max_l a b) by lia. apply Z.max_l, Z.pow_le_mono_r; lia.
Qed.

Lemma resize_target_ok k wmax expired :
  CPU_TLB_DYN_MIN_BITS <= k <= CPU_TLB_DYN_MAX_BITS -> 0 <= wmax < 2 ^ 57 ->
  exists j, CPU_TLB_DYN_MIN_BITS <= j <= CPU_TLB_DYN_MAX_BITS /\ resize_target (2 ^ k) wmax expired = Ret (2 ^ j).
Proof.
  unfold CPU_TLB_DYN_MIN_BITS, CPU_TLB_DYN_MAX_BITS. intros Hk Hw. unfold resize_target, CPU_TLB_DYN_MIN_BITS, CPU_TLB_DYN_MAX_BITS.
  rewrite (u64_small (wmax * 100)) by lia. pose proof (Z.pow_pos_nonneg 2 k ltac:(lia) ltac:(lia)) as Hpos.
  destruct (70 <? wmax * 100 / 2 ^ k).
  { exists (Z.min (k + 1) 22). split; [lia|]. f_equal. rewrite Z.shiftl_mul_pow2, <- Z.pow_add_r by lia.
    destruct (Z.leb_spec (k + 1) 22).
    - rewrite (Z.min_l (k + 1)) by done. apply Z.min_l. apply Z.pow_le_mono_r; lia.
    - rewrite (Z.min_r (k + 1)) by lia. apply Z.min_r. apply Z.pow_le_mono_r; lia. }
  destruct (Z.ltb_spec (wmax * 100 / 2 ^ k) 30) as [Hr|]; [|by exists k].
  destruct expired; [|by exists k]. cbn [andb].
  destruct (pow2ceil_spec wmax Hw) as (c & Hc & -> & Hc1 & Hc2).
  pose proof (Z.pow_pos_nonneg 2 c ltac:(lia) ltac:(lia)) as Hcp.
  rewrite (proj2 (Z.eqb_neq (2 ^ c) 0)) by lia. cbn [negb cassert cbind].
  assert (c + 1 <= k) as Hck.
  { destruct (Z.leb_spec wmax 1) as [Hle|Hgt]; [rewrite Hc1 by done; lia|].
    apply Z.lt_succ_r. replace (Z.succ k) with (k + 1) by lia.
    assert (wmax * 100 < 30 * 2 ^ k) as Hx.
    { pose proof (Z.mul_succ_div_gt (wmax * 100) (2 ^ k) Hpos). nia. }
    assert (2 ^ c < 2 ^ k) as Hy by (specialize (Hc2 Hgt); lia).
    apply Z.pow_lt_mono_r_iff in Hy; lia. }
  destruct (70 <? wmax * 100 / 2 ^ c).
  - exists (Z.max (c + 1) 6). split; [lia|]. f_equal.
    replace (2 ^ c * 2) with (2 ^ (c + 1)) by (rewrite Z.pow_add_r by lia; lia).
    assert (2 ^ (c + 1) <= 2 ^ 22) by (apply Z.pow_le_mono_r; lia).
    rewrite u64_small by (split; [apply Z.pow_nonneg|]; lia). apply pow2_max; lia.
  - exists (Z.max c 6). split; [lia|]. f_equal. apply pow2_max; lia.
Qed.

Lemma resize_alloc_ok fuel j :
  try_alloc (2 ^ CPU_TLB_DYN_MIN_BITS) = true -> CPU_TLB_DYN_MIN_BITS <= j -> j - CPU_TLB_DYN_MIN_BITS <= Z.of_nat fuel ->
  exists i, CPU_TLB_DYN_MIN_BITS <= i <= j /\ resize_alloc fuel (2 ^ j) = Ret (2 ^ i).
Proof.
  unfold CPU_TLB_DYN_MIN_BITS. intros Ht. revert j. induction fuel as [|fuel IH]; intros j Hj Hf; cbn [resize_alloc];
    destruct (try_alloc (2 ^ j)) eqn:E; try (exists j; split; [lia|done]).
  - assert (j = 6) by lia. subst. congruence.
  - unfold CPU_TLB_DYN_MIN_BITS. destruct (Z.eqb_spec (2 ^ j) (2 ^ 6)) as [Ej|Ej].
    { apply Z.pow_inj_r in Ej; [|lia..]. subst. congruence. }
    assert (6 < j) by (destruct (Z.eq_dec j 6); [subst; congruence|lia]).
    rewrite Z.shiftr_div_pow2, <- Z.pow_sub_r, pow2_max by lia.
    destruct (IH (Z.max (j - 1) 6)) as (i & Hi & ->); [lia|lia|]. exists i. split; [lia|done].
Qed.

Lemma resize_ok x y now :
  try_alloc (2 ^ CPU_TLB_DYN_MIN_BITS) = true -> sized x y ->
  exists x' y', tlb_mmu_resize_locked x y now = Ret (x', y') /\ size_ok y' /\ 0 <= window_max_entries x' < 2 ^ 57.
Proof.
  intros Ht ((k & Hk & Em) & Hu & Hw). unfold tlb_mmu_resize_locked. rewrite (n_entries_pow2 y k Em).
  set (wm := if window_max_entries x <? n_used_entries x then n_used_entries x else window_max_entries x).
  assert (0 <= wm < 2 ^ 57) as Hwm by (unfold wm; destruct (_ <? _); lia).
  destruct (resize_target_ok k wm (window_begin_ns x + 100 * 1000 * 1000 <? now) Hk Hwm) as (j & Hj & ->). cbn [cbind].
  destruct (Z.eqb_spec (2 ^ j) (2 ^ k)).
  { eexists _, y. split; [reflexivity|]. split; [by exists k|]. destruct (_ <? now); cbn; lia. }
  destruct (resize_alloc_ok 64 j Ht) as (i & Hi & ->); [lia|unfold CPU_TLB_DYN_MIN_BITS, CPU_TLB_DYN_MAX_BITS in *; lia|].
  cbn [cbind]. eexists _, _. split; [reflexivity|]. split; [|cbn; lia]. exists i. split; [lia|done].
Qed.

Lemma flush_one_sized t m now :
  try_alloc (2 ^ CPU_TLB_DYN_MIN_BITS) = true -> sized (d t m) (f t m) ->
  exists t', tlb_flush_one_mmuidx_locked t m now = Ret t' /\ sized (d t' m) (f t' m) /\
    forall m', m' <> m -> d t' m' = d t m' /\ f t' m' = f t m'.
Proof.
  intros Ht Hs. unfold tlb_flush_one_mmuidx_locked.
  destruct (resize_ok (d t m) (f t m) now Ht Hs) as (x' & y' & -> & Hy & Hw). cbn [cbind fst snd].
  eexists. split; [reflexivity|]. unfold set_f, set_d, tlb_mmu_flush_locked. cbn [d f fst snd]. rewrite !zset_eq. split.
  - split; [destruct Hy as (k & Hk & Em); by exists k|]. cbn. lia.
  - intros m' Hm. by rewrite !zset_ne.
Qed.

Definition all_sized (t : CPUTLB) : Prop := forall m, 0 <= m < 3 -> sized (d t m) (f t m).

Lemma flush_each_sized l t now :
  try_alloc (2 ^ CPU_TLB_DYN_MIN_BITS) = true -> Forall (fun m => 0 <= m < 3) l -> all_sized t ->
  exists t', flush_each l t now = Ret t' /\ all_sized t'.
Proof.
  intros Ht Hl. revert t. induction Hl as [|m l Hm Hl IH]; intros t Hs; cbn [flush_each]; [eauto|].
  destruct (flush_one_sized t m now Ht (Hs m Hm)) as (t1 & -> & H1 & H2). cbn [cbind].
  apply IH. intros m' Hm'. destruct (decide (m' = m)) as [->|Hne]; [done|]. destruct (H2 m' Hne) as [-> ->]. by apply Hs.
Qed.

(** A flush of any set of modes returns when the smallest tables can be
    allocated, however many larger sizes are refused, and every mode keeps a
    table of a power-of-two size between 2^6 and 2^22 entries. *)
Theorem tlb_flush_sized t asked now :
  try_alloc (2 ^ CPU_TLB_DYN_MIN_BITS) = true -> 0 <= asked < 2 ^ 16 -> 0 <= dirty t < 8 -> all_sized t ->
  exists t', tlb_flush_by_mmuidx t asked now = Ret t' /\ all_sized t'.
Proof.
  intros Ht Ha Hd Hs. unfold tlb_flush_by_mmuidx, tlb_flush_by_mmuidx_async_work.
  set (c := Z.land asked (dirty t)).
  assert (0 <= c < 8) as Hc by (unfold c; rewrite Z.land_comm; by apply (land_below _ _ 3)).
  rewrite flush_loop_each by done.
  destruct (flush_each_sized (modes_of c) (set_dirty_mask t (Z.land (dirty t) (not16 c))) now Ht) as (t1 & -> & H1); [|done|].
  { unfold modes_of. apply Forall_forall. intros m Hm. apply list_elem_of_In, list_elem_of_filter in Hm as [_ Hm].
    rewrite !elem_of_cons in Hm. destruct Hm as [->|[->|[->|Hm]]]; [lia..|by apply not_elem_of_nil in Hm]. }
  cbn [cbind]. destruct (c =? ALL_MMUIDX_BITS); [by eexists|]. destruct (negb (c =? asked)); by eexists.
Qed.

(** ** Code addresses *)

(** The page walk enters pages through the operations above. *)
Definition fill_ok : Prop :=
  forall t m a t', tlb_fill t m a = Ret t' -> exists l, Forall tlb_op_ok l /\ tlb_run l t = Ret t'.

(** The physical address of a fetch is the one of the page in force; otherwise
    the caller's value is left alone and the result is -1. *)
Lemma code_lookup_sound inst t m addr hostp paddr ra t' h pa :
  tlb_inv inst t -> fill_ok -> 0 <= m < 3 -> 0 <= addr < 2 ^ 64 ->
  get_page_addr_code_hostp t m addr hostp paddr = Ret (ra, t', h, pa) ->
  exists l, Forall tlb_op_ok l /\ tlb_inv (spec_run l inst) t' /\
    ((pa = paddr /\ ra = 2 ^ 64 - 1) \/
     exists pg sz, spec_run l inst m (page_of addr) = Some (pg, sz) /\
       pa = u64 (Z.land addr (not64 TARGET_PAGE_MASK) + pg)).
Proof.
  intros Hinv Hfill Hm Ha. unfold get_page_addr_code_hostp.
  assert (forall l t1, Forall tlb_op_ok l -> tlb_inv (spec_run l inst) t1 -> tlb_hit (addr_code (tlb_entry t1 m addr)) addr = true ->
    (if ztrue (Z.land (addr_code (tlb_entry t1 m addr)) TLB_MMIO) then Ret (2 ^ 64 - 1, t1, 0, paddr)
     else Ret (ram_addr_from_host (u64 (addr + addend (tlb_entry t1 m addr))), t1, u64 (addr + addend (tlb_entry t1 m addr)),
            u64 (Z.land addr (not64 TARGET_PAGE_MASK) + e_paddr (tlb_entry t1 m addr)))) = Ret (ra, t', h, pa) ->
    exists l, Forall tlb_op_ok l /\ tlb_inv (spec_run l inst) t' /\
      ((pa = paddr /\ ra = 2 ^ 64 - 1) \/
       exists pg sz, spec_run l inst m (page_of addr) = Some (pg, sz) /\
         pa = u64 (Z.land addr (not64 TARGET_PAGE_MASK) + pg))) as Hfound.
  { intros l t1 Hl Hi Hh H. exists l. destruct (hit_in_force _ _ _ _ Hi Hm Ha (hit_code _ _ Hh)) as [sz Hsz].
    destruct (ztrue _); injection H as <- <- <- <-; split_and!; try done; [by left|right; eauto]. }
  destruct (tlb_hit (addr_code (tlb_entry t m addr)) addr) eqn:Eh; [by apply (Hfound [] t)|].
  pose proof (victim_inv inst t addr_code m addr Hinv ltac:(cbn; tauto)) as Hv.
  fold (page_of addr). destruct (victim_tlb_hit t m (tlb_index t m addr) addr_code (page_of addr)) as [hit t1]. cbn [snd] in Hv.
  destruct hit.
  - destruct (tlb_hit (addr_code (tlb_entry t1 m addr)) addr) eqn:E1; [|done]. cbn [cassert cbind]. by apply (Hfound [] t1).
  - intros (t2 & H2 & H)%cbind_Ret. destruct (Hfill _ _ _ _ H2) as (l & Hl & Hrun).
    pose proof (run_inv l inst t1 t2 Hl Hv Hrun) as Hi2.
    destruct (ztrue _); [injection H as <- <- <- <-; exists l; split_and!; try done; by left|].
    destruct (tlb_hit (addr_code (tlb_entry t2 m addr)) addr) eqn:E2; [|done]. cbn [cassert cbind] in H. by apply (Hfound l t2).
Qed.

End Tlb.

(** ** A TLB in use *)

Definition demo_section : MemoryRegionSection := mkSection true false 0x7f0000000000 0 false 0.
Definition demo_translate (pa sz attrs prot : Z) : MemoryRegionSection * Z * Z * Z := (demo_section, pa, sz, prot).
Definition demo_tlb0 : CPUTLB :=
  mkTLB 0 0 0 0
    (fun _ => mkDesc 0 0 0 0 0 0 (fun _ => empty_entry) (fun _ => mkIO 0 0) (fun _ => mkIO 0 0))
    (fun _ => mkFast 0 (fun _ => empty_entry)).
Definition demo_run (l : list tlb_op) : cres CPUTLB :=
  tlb_run (fun _ => true) demo_translate (fun _ => false) (fun _ => false) (fun _ => 0) l (tlb_init demo_tlb0 0).

(** Two pages on the same index: the first becomes a victim and is found again. *)
Definition demo_ops : list tlb_op :=
  [OpSet 0x400123 0x42123 0 7 0 0x1000; OpSet 0x500000 0x99000 0 7 0 0x1000; OpVictim addr_code 0 0x400456].

Definition demo_tlb : CPUTLB := match demo_run demo_ops with Ret t => t | Abort _ => demo_tlb0 end.

Lemma tlb_never_stale_witness :
  exists sz, spec_run demo_ops (fun _ _ => None) 0 (page_of 0x400456) = Some (e_paddr (tlb_entry demo_tlb 0 0x400456), sz).
Proof.
  apply (tlb_never_stale (fun _ => true) demo_translate (fun _ => false) (fun _ => false) (fun _ => 0) demo_tlb0 0
    demo_ops demo_tlb 0 0x400456).
  - repeat constructor; cbn; try lia; try tauto; unfold TARGET_PAGE_SIZE, TARGET_PAGE_BITS; lia.
  - vm_compute. reflexivity.
  - lia.
  - lia.
  - right. right. vm_compute. reflexivity.
Defined.

Lemma tlb_flush_sized_witness :
  exists t', tlb_flush_by_mmuidx (fun n => n =? 64) demo_tlb 7 (10 ^ 9) = Ret t' /\ all_sized t'.
Proof.
  apply tlb_flush_sized.
  - reflexivity.
  - lia.
  - vm_compute. split; [discriminate|reflexivity].
  - intros m Hm. assert (m = 0 \/ m = 1 \/ m = 2) as [->|[->| ->]] by lia;
      (split; [exists 8; split; [split; discriminate|vm_compute; reflexivity]|vm_compute; repeat split; discriminate]).
Defined.

(** The count of entries in use is taken down when an entry becomes a victim and
    again when the victim is flushed: with two pages on one index it ends below
    zero, which for the unsigned counter is its largest value. *)
Theorem used_count_underflows :
  exists t, demo_run [OpSet 0x400000 0x42000 0 7 0 0x1000; OpSet 0x500000 0x99000 0 7 0 0x1000;
                      OpFlushPage true 0x400000 7 0; OpFlushPage true 0x500000 7 0] = Ret t /\
    n_used_entries (d t 0) = 2 ^ 64 - 1.
Proof. eexists. split; [vm_compute; reflexivity|vm_compute; reflexivity]. Qed.

End SoftTlb.
