(* ===== verification/SoftMmu.v ===== *)
(** * Guest loads and stores

    The load and store helpers of accel/tcg/cputlb.c: a guest access goes through
    the software TLB of [SoftTlb] to host memory, to a device, or to the page walk of
    the target; accesses that cross a page or meet a special page unaligned are
    taken apart.  Host and target are little endian, and the target permits unaligned
    accesses (x86). *)

From S2P Require Import Prelude SoftTlb.
Import SoftTlb.
Local Open Scope Z_scope.
Local Open Scope c_scope.

Module SoftMmu.

(** ** Memory operations (include/exec/memop.h, include/tcg/tcg.h) *)

Definition MO_SIZE : Z := 3.
Definition MO_BSWAP : Z := 8.
Definition MO_LE : Z := 0.
Definition MO_BE : Z := MO_BSWAP.
Definition MO_ASHIFT : Z := 4.
Definition MO_AMASK : Z := Z.shiftl 7 MO_ASHIFT.
Definition MO_ALIGN : Z := MO_AMASK.
Definition MO_UNALN : Z := 0.
Definition MO_UB : Z := 0.
Definition MO_UW : Z := 1.
Definition MO_UL : Z := 2.
Definition MO_Q : Z := 3.

Definition memop_size (op : Z) : Z := Z.shiftl 1 (Z.land op MO_SIZE).
Definition memop_big_endian (op : Z) : bool := Z.land op MO_BSWAP =? MO_BE.

Definition get_alignment_bits (memop : Z) : Z :=
  let a := Z.land memop MO_AMASK in
  if a =? MO_UNALN then 0 else if a =? MO_ALIGN then Z.land memop MO_SIZE else Z.shiftr a MO_ASHIFT.

Definition make_memop_idx (op idx : Z) : Z := Z.lor (Z.shiftl op 4) idx.
Definition get_memop (oi : Z) : Z := Z.shiftr oi 4.
Definition get_mmuidx (oi : Z) : Z := Z.land oi 15.

(** ** Host memory *)

(** Bytes by host address; the [n] bytes at [haddr]. *)
Definition host_bytes (ram : Z -> Z) (haddr : Z) (n : nat) : list Z := (fun i => ram (u64 (haddr + Z.of_nat i))) <$> seq 0 n.
Definition put_bytes (haddr : Z) (l : list Z) (ram : Z -> Z) : Z -> Z :=
  foldl (fun ram ib => zset ram (u64 (haddr + Z.of_nat ib.1)) ib.2) ram (zip (seq 0 (length l)) l).

(** The value of bytes in the order of an operation, and its bytes. *)
Definition memop_val (op : Z) (l : list Z) : Z := le_val (if memop_big_endian op then rev l else l).
Definition memop_bytes (op : Z) (v : Z) : list Z :=
  let l := le_bytes (Z.to_nat (memop_size op)) v in if memop_big_endian op then rev l else l.

(** The seven operations of the [switch]. *)
Definition memop_ok (op : Z) : bool := existsb (Z.eqb op) [MO_UB; Z.lor MO_BE MO_UW; Z.lor MO_LE MO_UW; Z.lor MO_BE MO_UL; Z.lor MO_LE MO_UL; Z.lor MO_BE MO_Q; Z.lor MO_LE MO_Q].

Definition load_memop (ram : Z -> Z) (haddr op : Z) : cres Z :=
  if memop_ok op then Ret (memop_val op (host_bytes ram haddr (Z.to_nat (memop_size op)))) else Abort "qemu_build_not_reached".
Definition store_memop (haddr val op : Z) (ram : Z -> Z) : cres (Z -> Z) :=
  if memop_ok op then Ret (put_bytes haddr (memop_bytes op val) ram) else Abort "qemu_build_not_reached".

Inductive MMUAccessType := MMU_DATA_LOAD | MMU_DATA_STORE | MMU_INST_FETCH.

(** The vCPU as its memory accesses see it: the TLB, host memory, the devices, and the dirty
    bitmaps with the code translated from RAM. *)
Record env {IO D : Type} := mkEnv {
  tlb : CPUTLB;
  ram : Z -> Z;
  io : IO;
  dirty_memory : D;
}.
Arguments env : clear implicits.
#[global] Instance eta_env {IO D} : Settable (env IO D) := mkEta _ (fun x => mkEnv IO D (tlb x) (ram x) (io x) (dirty_memory x)).

Section Mmu.
Context {IO D : Type}.
(** The page walk of the target: it enters the page, and may write the tables in memory, or
    leaves with an exception. *)
Variable tlb_fill : Z -> Z -> MMUAccessType -> Z -> env IO D -> cres (env IO D).
(** [cpu_check_watchpoint], which leaves when one is hit. *)
Variable check_watchpoint : Z -> Z -> Z -> Z -> cres unit.
(** Devices: [memory_region_dispatch_read] and [memory_region_dispatch_write] of the
    section of an I/O entry, at an offset; a failed transaction may leave. *)
Variable dispatch_read : CPUIOTLBEntry -> Z -> Z -> IO -> cres (Z * IO).
Variable dispatch_write : CPUIOTLBEntry -> Z -> Z -> Z -> IO -> cres IO.
(** The dirty bitmaps and the code translated from RAM. *)
Variable get_dirty_code : Z -> D -> bool.
Variable tb_invalidate : Z -> Z -> D -> cres D.
Variable set_dirty_range : Z -> Z -> D -> D.
Variable physical_is_clean : Z -> D -> bool.

Implicit Types s : env IO D.

(** ** Devices and clean pages *)

Definition io_offset (iotlbentry : CPUIOTLBEntry) (addr : Z) : Z := u64 (Z.land (io_addr iotlbentry) TARGET_PAGE_MASK + addr).

Definition io_readx (iotlbentry : CPUIOTLBEntry) (addr op : Z) s : cres (Z * env IO D) :=
  let* r := dispatch_read iotlbentry (io_offset iotlbentry addr) op (io s) in
  Ret (r.1, s <| io := r.2 |>).
Definition io_writex (iotlbentry : CPUIOTLBEntry) (val addr op : Z) s : cres (env IO D) :=
  let* i := dispatch_write iotlbentry (io_offset iotlbentry addr) val op (io s) in
  Ret (s <| io := i |>).

Definition notdirty_write (mem_vaddr size : Z) (iotlbentry : CPUIOTLBEntry) s : cres (env IO D) :=
  let ram_addr := u64 (mem_vaddr + io_addr iotlbentry) in
  let* dm := if get_dirty_code ram_addr (dirty_memory s) then Ret (dirty_memory s) else tb_invalidate ram_addr size (dirty_memory s) in
  let dm := set_dirty_range ram_addr size dm in
  let s := s <| dirty_memory := dm |> in
  Ret (if physical_is_clean ram_addr dm then s else s <| tlb ::= fun t => tlb_set_dirty t mem_vaddr |>).

(** ** Look-up *)

(** The entry for the address, from the main table, the victim table or the page walk; the
    value of its field. *)
Definition find_entry (elt : CPUTLBEntry -> Z) (addr size : Z) (access_type : MMUAccessType) (mmu_idx : Z) s : cres (Z * env IO D) :=
  let tlb_addr := elt (tlb_entry (tlb s) mmu_idx addr) in
  if tlb_hit tlb_addr addr then Ret (tlb_addr, s)
  else
    let '(hit, t) := victim_tlb_hit (tlb s) mmu_idx (tlb_index (tlb s) mmu_idx addr) elt (Z.land addr TARGET_PAGE_MASK) in
    let s := s <| tlb := t |> in
    let* s := if hit then Ret s else tlb_fill addr size access_type mmu_idx s in
    Ret (Z.land (elt (tlb_entry (tlb s) mmu_idx addr)) (not64 TLB_INVALID_MASK), s).

Definition crosses (addr size : Z) : bool :=
  (1 <? size) && (TARGET_PAGE_SIZE <=? Z.land addr (not64 TARGET_PAGE_MASK) + size - 1).

(** [haddr] *)
Definition host_address (t : CPUTLB) (mmu_idx addr : Z) : Z := u64 (addr + addend (tlb_entry t mmu_idx addr)).

(** ** Loads *)

(** The two halves of an access that is taken apart, as one value. *)
Definition combine (op addr r1 r2 : Z) : Z :=
  let size := memop_size op in
  let shift := Z.land addr (size - 1) * 8 in
  let res := if memop_big_endian op then Z.lor (u64 (Z.shiftl r1 shift)) (Z.shiftr r2 (size * 8 - shift))
             else Z.lor (Z.shiftr r1 shift) (u64 (Z.shiftl r2 (size * 8 - shift))) in
  Z.land res (Z.ones (size * 8)).

(** [depth]: the calls of [full_load] within one another; the parts of an access are
    aligned, and an aligned access is not taken apart. *)
Fixpoint load_helper (depth : nat) (addr oi op : Z) (code_read : bool) s : cres (Z * env IO D) :=
  let mmu_idx := get_mmuidx oi in
  let elt := if code_read then addr_code else addr_read in
  let access_type := if code_read then MMU_INST_FETCH else MMU_DATA_LOAD in
  let size := memop_size op in
  let unaligned s :=
    match depth with
    | O => Abort "recursion"
    | S depth =>
      let addr1 := Z.land addr (not64 (size - 1)) in
      let addr2 := u64 (addr1 + size) in
      let* r1 := load_helper depth addr1 oi op code_read s in
      let* r2 := load_helper depth addr2 oi op code_read r1.2 in
      Ret (combine op addr r1.1 r2.1, r2.2)
    end in
  let* _ := cassert (Z.land addr (Z.shiftl 1 (get_alignment_bits (get_memop oi)) - 1) =? 0) "cpu_unaligned_access" in
  let* r := find_entry elt addr size access_type mmu_idx s in
  let '(tlb_addr, s) := r in
  let t := tlb s in
  if ztrue (Z.land tlb_addr (not64 TARGET_PAGE_MASK)) then
    if ztrue (Z.land addr (size - 1)) then unaligned s
    else
      let iotlbentry := iotlb (d t mmu_idx) (tlb_index t mmu_idx addr) in
      let* _ := if ztrue (Z.land tlb_addr TLB_WATCHPOINT) then check_watchpoint addr size (io_attrs iotlbentry) BP_MEM_READ else Ret tt in
      let op := if (1 <? size) && ztrue (Z.land tlb_addr TLB_BSWAP) then Z.lxor op MO_BSWAP else op in
      if ztrue (Z.land tlb_addr TLB_MMIO) then io_readx iotlbentry addr op s
      else let* v := load_memop (ram s) (host_address t mmu_idx addr) op in Ret (v, s)
  else if crosses addr size then unaligned s
  else let* v := load_memop (ram s) (host_address t mmu_idx addr) op in Ret (v, s).

(** ** Stores *)

(** The second page of a store that is taken apart. *)
Definition find_page2 (page2 size2 mmu_idx : Z) s : cres (env IO D) :=
  if tlb_hit_page (addr_write (tlb_entry (tlb s) mmu_idx page2)) page2 then Ret s
  else
    let '(hit, t) := victim_tlb_hit (tlb s) mmu_idx (tlb_index (tlb s) mmu_idx page2) addr_write page2 in
    let s := s <| tlb := t |> in
    if hit then Ret s else tlb_fill page2 size2 MMU_DATA_STORE mmu_idx s.

(** The byte [i] of the value. *)
Definition val8 (op val : Z) (i : nat) : Z :=
  u8 (Z.shiftr val (if memop_big_endian op then (memop_size op - 1) * 8 - Z.of_nat i * 8 else Z.of_nat i * 8)).

Fixpoint store_bytes (stb : Z -> Z -> env IO D -> cres (env IO D)) (addr op val : Z) (l : list nat) s : cres (env IO D) :=
  match l with
  | [] => Ret s
  | i :: l => let* s := stb (u64 (addr + Z.of_nat i)) (val8 op val i) s in store_bytes stb addr op val l s
  end.

(** [depth]: [helper_ret_stb_mmu] within [store_helper]; a byte is not taken apart. *)
Fixpoint store_helper (depth : nat) (addr val oi op : Z) s : cres (env IO D) :=
  let mmu_idx := get_mmuidx oi in
  let size := memop_size op in
  let unaligned tlb_addr index s :=
    match depth with
    | O => Abort "recursion"
    | S depth =>
      let page2 := Z.land (u64 (addr + size)) TARGET_PAGE_MASK in
      let size2 := Z.land (u64 (addr + size)) (not64 TARGET_PAGE_MASK) in
      let* s := find_page2 page2 size2 mmu_idx s in
      let t := tlb s in
      let attrs i := io_attrs (iotlb (d t mmu_idx) i) in
      let tlb_addr2 := addr_write (tlb_entry t mmu_idx page2) in
      let* _ := if ztrue (Z.land tlb_addr TLB_WATCHPOINT) then check_watchpoint addr (size - size2) (attrs index) BP_MEM_WRITE else Ret tt in
      let* _ := if ztrue (Z.land tlb_addr2 TLB_WATCHPOINT) then check_watchpoint page2 size2 (attrs (tlb_index t mmu_idx page2)) BP_MEM_WRITE else Ret tt in
      store_bytes (fun a v => store_helper depth a v oi MO_UB) addr op val (seq 0 (Z.to_nat size)) s
    end in
  let* _ := cassert (Z.land addr (Z.shiftl 1 (get_alignment_bits (get_memop oi)) - 1) =? 0) "cpu_unaligned_access" in
  let* r := find_entry addr_write addr size MMU_DATA_STORE mmu_idx s in
  let '(tlb_addr, s) := r in
  let t := tlb s in
  let index := tlb_index t mmu_idx addr in
  if ztrue (Z.land tlb_addr (not64 TARGET_PAGE_MASK)) then
    if ztrue (Z.land addr (size - 1)) then unaligned tlb_addr index s
    else
      let iotlbentry := iotlb (d t mmu_idx) index in
      let* _ := if ztrue (Z.land tlb_addr TLB_WATCHPOINT) then check_watchpoint addr size (io_attrs iotlbentry) BP_MEM_WRITE else Ret tt in
      let op := if (1 <? size) && ztrue (Z.land tlb_addr TLB_BSWAP) then Z.lxor op MO_BSWAP else op in
      if ztrue (Z.land tlb_addr TLB_MMIO) then io_writex iotlbentry val addr op s
      else if ztrue (Z.land tlb_addr TLB_DISCARD_WRITE) then Ret s
      else
        let* s := if ztrue (Z.land tlb_addr TLB_NOTDIRTY) then notdirty_write addr size iotlbentry s else Ret s in
        let* m := store_memop (host_address (tlb s) mmu_idx addr) val op (ram s) in
        Ret (s <| ram := m |>)
  else if crosses addr size then unaligned tlb_addr index s
  else
    let* m := store_memop (host_address t mmu_idx addr) val op (ram s) in
    Ret (s <| ram := m |>).

(** ** The helpers of generated code *)

(** The calls of a helper by itself: one within another. *)
Definition DEPTH : nat := 1.
Local Abbreviation load := (load_helper DEPTH).
Local Abbreviation store := (store_helper DEPTH).

Definition full_ldub_mmu (addr oi : Z) s : cres (Z * env IO D) := load addr oi MO_UB false s.
Definition full_le_lduw_mmu (addr oi : Z) s : cres (Z * env IO D) := load addr oi (Z.lor MO_LE MO_UW) false s.
Definition full_be_lduw_mmu (addr oi : Z) s : cres (Z * env IO D) := load addr oi (Z.lor MO_BE MO_UW) false s.
Definition full_le_ldul_mmu (addr oi : Z) s : cres (Z * env IO D) := load addr oi (Z.lor MO_LE MO_UL) false s.
Definition full_be_ldul_mmu (addr oi : Z) s : cres (Z * env IO D) := load addr oi (Z.lor MO_BE MO_UL) false s.
Definition helper_le_ldq_mmu (addr oi : Z) s : cres (Z * env IO D) := load addr oi (Z.lor MO_LE MO_Q) false s.
Definition helper_be_ldq_mmu (addr oi : Z) s : cres (Z * env IO D) := load addr oi (Z.lor MO_BE MO_Q) false s.

(** The signed versions: extended to the register. *)
Definition sextract (n v : Z) : Z := u64 ((v + 2 ^ (n - 1)) mod 2 ^ n - 2 ^ (n - 1)).
Definition signed (n : Z) (m : cres (Z * env IO D)) : cres (Z * env IO D) := let* r := m in Ret (sextract n r.1, r.2).
Definition helper_ret_ldsb_mmu (addr oi : Z) s : cres (Z * env IO D) := signed 8 (full_ldub_mmu addr oi s).
Definition helper_le_ldsw_mmu (addr oi : Z) s : cres (Z * env IO D) := signed 16 (full_le_lduw_mmu addr oi s).
Definition helper_be_ldsw_mmu (addr oi : Z) s : cres (Z * env IO D) := signed 16 (full_be_lduw_mmu addr oi s).
Definition helper_le_ldsl_mmu (addr oi : Z) s : cres (Z * env IO D) := signed 32 (full_le_ldul_mmu addr oi s).
Definition helper_be_ldsl_mmu (addr oi : Z) s : cres (Z * env IO D) := signed 32 (full_be_ldul_mmu addr oi s).

Definition helper_ret_stb_mmu (addr val oi : Z) s : cres (env IO D) := store addr (u8 val) oi MO_UB s.
Definition helper_le_stw_mmu (addr val oi : Z) s : cres (env IO D) := store addr (u16 val) oi (Z.lor MO_LE MO_UW) s.
Definition helper_be_stw_mmu (addr val oi : Z) s : cres (env IO D) := store addr (u16 val) oi (Z.lor MO_BE MO_UW) s.
Definition helper_le_stl_mmu (addr val oi : Z) s : cres (env IO D) := store addr (u32 val) oi (Z.lor MO_LE MO_UL) s.
Definition helper_be_stl_mmu (addr val oi : Z) s : cres (env IO D) := store addr (u32 val) oi (Z.lor MO_BE MO_UL) s.
Definition helper_le_stq_mmu (addr val oi : Z) s : cres (env IO D) := store addr val oi (Z.lor MO_LE MO_Q) s.
Definition helper_be_stq_mmu (addr val oi : Z) s : cres (env IO D) := store addr val oi (Z.lor MO_BE MO_Q) s.

(** Fetching code to translate, in the mode [mmu_index]. *)
Definition cpu_ldub_code (mmu_index addr : Z) s : cres (Z * env IO D) := load addr (make_memop_idx MO_UB mmu_index) MO_UB true s.
Definition cpu_lduw_code (mmu_index addr : Z) s : cres (Z * env IO D) := load addr (make_memop_idx MO_UW mmu_index) MO_UW true s.
Definition cpu_ldl_code (mmu_index addr : Z) s : cres (Z * env IO D) := load addr (make_memop_idx MO_UL mmu_index) MO_UL true s.
Definition cpu_ldq_code (mmu_index addr : Z) s : cres (Z * env IO D) := load addr (make_memop_idx MO_Q mmu_index) MO_Q true s.
End Mmu.
End SoftMmu.
