(* ===== verification/SoftMmuBytes.v ===== *)
(** * Guest loads and stores: bytes, values and pages

    The value of an access from the bytes of the aligned blocks it spans, in either
    byte order ([combine_ok]), its bytes one by one, and the pages they lie in. *)

From S2P Require Import Prelude SoftTlb SoftMmu.
Import SoftTlb SoftMmu.
Local Open Scope Z_scope.
Local Open Scope c_scope.

Module SoftMmuBytes.

(** ** Bytes and values *)

(** A low part and the part shifted above it. *)
Lemma glue lo v n k :
  0 <= n -> 0 <= k -> n + k <= 64 -> 0 <= lo < 2 ^ n -> 0 <= v ->
  Z.land (Z.lor lo (u64 (Z.shiftl v n))) (Z.ones (n + k)) = lo + 2 ^ n * (v mod 2 ^ k).
Proof.
  intros Hn Hk H64 Hlo Hv. assert (2 ^ n <= 2 ^ (n + k)) by (apply Z.pow_le_mono_r; lia).
  rewrite Z.land_lor_distr_l, !Z.land_ones by lia. rewrite (Z.mod_small lo) by lia.
  unfold u64. replace (2 ^ 64) with (2 ^ (n + k) * 2 ^ (64 - (n + k))) by (rewrite <- Z.pow_add_r by lia; f_equal; lia).
  rewrite Z.mod_mod_divide by apply Z.divide_factor_l.
  rewrite Z.shiftl_mul_pow2, Z.pow_add_r, (Z.mul_comm v), Z.mul_mod_distr_l by lia.
  symmetry. apply Z.add_nocarry_lor. apply Z.bits_inj'. intros j Hj. rewrite Z.land_spec, Z.bits_0, Z.mul_comm.
  destruct (Z.lt_ge_cases j n); [by rewrite Z.mul_pow2_bits_low, andb_false_r by lia|by rewrite (testbit_small lo n j) by lia].
Qed.

Lemma bytes_pow n : 0 <= n -> 256 ^ n = 2 ^ (8 * n).
Proof. intros Hn. change 256 with (2 ^ 8). by rewrite <- Z.pow_mul_r by lia. Qed.

(** The four sizes. *)
Lemma memop_sizes op : memop_ok op = true -> exists k, 0 <= k <= 3 /\ memop_size op = 2 ^ k.
Proof.
  unfold memop_ok. cbn. rewrite !orb_true_iff, !Z.eqb_eq.
  intros [->|[->|[->|[->|[->|[->|[->|[=]]]]]]]]; [exists 0|exists 1|exists 1|exists 2|exists 2|exists 3|exists 3]; by vm_compute.
Qed.

(** The value of the bytes an access spans is combined from the aligned ones on
    both sides. *)
Lemma combine_ok op addr b1 b2 :
  memop_ok op = true -> 0 <= addr -> Z.land addr (memop_size op - 1) <> 0 -> Forall is_byte b1 -> Forall is_byte b2 ->
  length b1 = Z.to_nat (memop_size op) -> length b2 = Z.to_nat (memop_size op) ->
  let r := Z.to_nat (Z.land addr (memop_size op - 1)) in
  combine op addr (memop_val op b1) (memop_val op b2) = memop_val op (drop r b1 ++ take r b2).
Proof.
  intros Hop Ha Hne F1 F2 L1 L2. destruct (memop_sizes op Hop) as (k & Hk & Ek). rewrite Ek in *.
  assert (1 <= 2 ^ k <= 8) as Hs.
  { split; [pose proof (Z.pow_pos_nonneg 2 k); lia|]. change 8 with (2 ^ 3). apply Z.pow_le_mono_r; lia. }
  unfold combine. rewrite Ek. replace (2 ^ k - 1) with (Z.ones k) in * by (rewrite Z.ones_equiv; lia).
  rewrite (Z.land_ones addr) in * by lia. pose proof (Z.mod_pos_bound addr (2 ^ k)) as Hb.
  set (r := addr mod 2 ^ k) in *. set (s := 2 ^ k) in *. cbn zeta. unfold memop_val.
  pose proof (eq_sym (take_drop (Z.to_nat r) b1)) as Q1. pose proof (eq_sym (take_drop (Z.to_nat r) b2)) as Q2.
  set (a1 := take (Z.to_nat r) b1). set (a2 := drop (Z.to_nat r) b1). set (c1 := take (Z.to_nat r) b2). set (c2 := drop (Z.to_nat r) b2).
  fold a1 a2 in Q1. fold c1 c2 in Q2.
  assert (Forall is_byte a1 /\ Forall is_byte a2 /\ Forall is_byte c1 /\ Forall is_byte c2) as (B1 & B2 & B3 & B4)
    by (repeat split; first [by apply Forall_take|by apply Forall_drop]).
  assert (length a1 = Z.to_nat r /\ length a2 = Z.to_nat (s - r) /\ length c1 = Z.to_nat r /\ length c2 = Z.to_nat (s - r)) as (N1 & N2 & N3 & N4)
    by (unfold a1, a2, c1, c2; rewrite !length_take, !length_drop; lia).
  clearbody a1 a2 c1 c2. rewrite Q1, Q2. destruct (memop_big_endian op).
  - rewrite !rev_app_distr, !le_val_app, !length_rev, ?N2, ?N3, ?N4.
    pose proof (le_val_range (rev a1) (Forall_rev B1)). pose proof (le_val_range (rev a2) (Forall_rev B2)).
    pose proof (le_val_range (rev c1) (Forall_rev B3)). pose proof (le_val_range (rev c2) (Forall_rev B4)).
    rewrite !length_rev, ?N1, ?N2, ?N3, ?N4, !Z2Nat.id, !bytes_pow in * by lia.
    replace (s * 8) with (r * 8 + 8 * (s - r)) by lia.
    rewrite Z.lor_comm, Z.shiftr_div_pow2 by lia. replace (r * 8 + 8 * (s - r) - r * 8) with (8 * (s - r)) by lia.
    rewrite (Z.mul_comm _ (le_val (rev c1))), Z.div_add, Z.div_small, Z.add_0_l by lia.
    rewrite glue by (rewrite 1?(Z.mul_comm r); lia). rewrite (Z.mul_comm _ (le_val (rev a1))), Z.mod_add, Z.mod_small by lia.
    by rewrite (Z.mul_comm r).
  - rewrite !le_val_app, ?N1, ?N2, ?N3.
    pose proof (le_val_range a1 B1). pose proof (le_val_range a2 B2). pose proof (le_val_range c1 B3). pose proof (le_val_range c2 B4).
    rewrite ?N1, ?N2, ?N3, ?N4, !Z2Nat.id, !bytes_pow in * by lia.
    replace (s * 8) with (8 * (s - r) + 8 * r) by lia. replace (8 * (s - r) + 8 * r - r * 8) with (8 * (s - r)) by lia.
    rewrite Z.shiftr_div_pow2, (Z.mul_comm r) by lia.
    rewrite (Z.mul_comm _ (le_val a2)), Z.div_add, Z.div_small, Z.add_0_l by lia.
    rewrite glue by lia. rewrite (Z.mul_comm _ (le_val c2)), Z.mod_add, Z.mod_small by lia. done.
Qed.

(** The bytes of a value one by one. *)
Lemma le_bytes_seq n : forall v, le_bytes n v = (fun i => u8 (Z.shiftr v (Z.of_nat i * 8))) <$> seq 0 n.
Proof.
  induction n as [|n IH]; intros v; [done|]. cbn [le_bytes seq]. rewrite fmap_cons. f_equal.
  rewrite IH, <- fmap_S_seq, <- list_fmap_compose. apply list_fmap_ext. intros j i _. cbn [compose]. unfold u8. f_equal.
  change (v / 256) with (v / 2 ^ 8). rewrite <- Z.shiftr_div_pow2, Z.shiftr_shiftr by lia. f_equal. lia.
Qed.

Lemma memop_bytes_val8 op v : memop_ok op = true -> memop_bytes op v = val8 op v <$> seq 0 (Z.to_nat (memop_size op)).
Proof.
  unfold memop_bytes. rewrite le_bytes_seq. unfold memop_ok. cbn [existsb]. rewrite !orb_true_iff, !Z.eqb_eq.
  intros [->|[->|[->|[->|[->|[->|[->|[=]]]]]]]]; reflexivity.
Qed.

Lemma memop_roundtrip op v : memop_ok op = true -> memop_val op (memop_bytes op v) = v mod 256 ^ memop_size op.
Proof.
  intros Hop. pose proof (memop_sizes op Hop) as (k & Hk & E). unfold memop_val, memop_bytes.
  assert (le_val (le_bytes (Z.to_nat (memop_size op)) v) = v mod 256 ^ memop_size op) as H.
  { rewrite le_val_bytes, Z2Nat.id; [done|]. rewrite E. apply Z.pow_nonneg. lia. }
  destruct (memop_big_endian op); [by rewrite rev_involutive|done].
Qed.

(** ** Pages and offsets *)

Lemma page_offset a : 0 <= a < 2 ^ 64 -> Z.land a (not64 TARGET_PAGE_MASK) = a mod 4096 /\ page_of a = a - a mod 4096.
Proof.
  intros Ha. change (not64 TARGET_PAGE_MASK) with (Z.ones 12). rewrite Z.land_ones by lia. split; [done|].
  rewrite page_of_shift, Z.shiftl_mul_pow2, Z.shiftr_div_pow2 by lia. change (2 ^ 12) with 4096. pose proof (Z.div_mod a 4096). lia.
Qed.

Lemma same_page a i :
  0 <= a < 2 ^ 64 -> 0 <= i -> a mod 4096 + i < 4096 -> u64 (a + i) = a + i /\ page_of (u64 (a + i)) = page_of a /\ 0 <= a + i < 2 ^ 64.
Proof.
  intros Ha Hi Hp. assert (a + i < 2 ^ 64) by (change (2 ^ 64) with 18446744073709551616 in *; mlia).
  assert (u64 (a + i) = a + i) as E by (apply Z.mod_small; lia). rewrite E. split; [done|]. split; [|lia].
  rewrite (proj2 (page_offset a Ha)), (proj2 (page_offset (a + i) ltac:(lia))).
  rewrite <- (Z.add_mod_idemp_l a) by lia. rewrite (Z.mod_small (a mod 4096 + i)) by (pose proof (Z.mod_pos_bound a 4096); lia). lia.
Qed.

(** The aligned block of an operation around an address. *)
Lemma size_mask op addr : memop_ok op = true -> Z.land addr (memop_size op - 1) = addr mod memop_size op.
Proof.
  intros Hop. destruct (memop_sizes op Hop) as (k & Hk & ->). replace (2 ^ k - 1) with (Z.ones k) by (rewrite Z.ones_equiv; lia).
  apply Z.land_ones. lia.
Qed.

Lemma size_cases op : memop_ok op = true -> memop_size op = 1 \/ memop_size op = 2 \/ memop_size op = 4 \/ memop_size op = 8.
Proof.
  intros (k & Hk & ->)%memop_sizes. assert (k = 0 \/ k = 1 \/ k = 2 \/ k = 3) as [->|[->|[->| ->]]] by lia; auto.
Qed.

Lemma block_fits op addr : memop_ok op = true -> addr mod memop_size op = 0 -> addr mod 4096 + memop_size op <= 4096.
Proof. intros [E|[E|[E|E]]]%size_cases; rewrite E; mlia. Qed.

Lemma fits_crosses op addr : 0 <= addr < 2 ^ 64 -> addr mod 4096 + memop_size op <= 4096 -> crosses addr (memop_size op) = false.
Proof.
  intros Ha Hf. unfold crosses. rewrite (proj1 (page_offset addr Ha)). change TARGET_PAGE_SIZE with 4096.
  apply andb_false_intro2, Z.leb_gt. lia.
Qed.

Lemma block_base op addr :
  memop_ok op = true -> 0 <= addr < 2 ^ 64 -> Z.land addr (not64 (memop_size op - 1)) = addr - addr mod memop_size op.
Proof.
  intros Hop Ha. destruct (memop_sizes op Hop) as (k & Hk & ->).
  assert (not64 (2 ^ k - 1) = Z.ldiff (Z.ones 64) (Z.ones k)) as -> by (assert (k = 0 \/ k = 1 \/ k = 2 \/ k = 3) as [->|[->|[->| ->]]] by lia; done).
  assert (Z.land addr (Z.ldiff (Z.ones 64) (Z.ones k)) = Z.ldiff (Z.land addr (Z.ones 64)) (Z.ones k)) as ->.
  { apply Z.bits_inj'. intros j Hj. by rewrite !Z.land_spec, !Z.ldiff_spec, Z.land_spec, andb_assoc. }
  rewrite Z.land_ones, (Z.mod_small addr), Z.ldiff_ones_r, Z.shiftl_mul_pow2, Z.shiftr_div_pow2 by lia.
  pose proof (Z.div_mod addr (2 ^ k) ltac:(lia)). lia.
Qed.

(** The two blocks of an access that is not aligned: the first holds its first byte, the
    second its last one. *)
Lemma blocks op addr (sz := memop_size op) (r := addr mod memop_size op) (a1 := addr - r) (a2 := u64 (a1 + sz)) :
  memop_ok op = true -> 0 <= addr < 2 ^ 64 -> r <> 0 ->
  0 <= a1 < 2 ^ 64 /\ 0 <= a2 < 2 ^ 64 /\ a1 mod sz = 0 /\ a2 mod sz = 0 /\ addr = u64 (a1 + r) /\
  page_of a1 = page_of addr /\ page_of a2 = page_of (u64 (addr + sz - 1)).
Proof.
  intros Hop Ha Hr. pose proof (size_cases op Hop) as Hsz. fold sz in Hsz.
  assert (0 < r < sz) as Hb by (pose proof (Z.mod_pos_bound addr sz); subst r; fold sz; fold sz in Hr; lia).
  assert (0 <= a1 < 2 ^ 64) as H1 by (subst a1; assert (r <= addr) by (apply Z.mod_le; fold sz; lia); lia).
  assert (0 <= a2 < 2 ^ 64) as H2 by (apply Z.mod_pos_bound; lia).
  assert (a1 mod sz = 0) as B1 by (subst a1 r; fold sz; destruct Hsz as [E|[E|[E|E]]]; rewrite E; mlia).
  assert (a2 mod sz = 0) as B2.
  { subst a2. clearbody a1. destruct Hsz as [E|[E|[E|E]]]; rewrite E in *; unfold u64; mlia. }
  assert (addr = u64 (a1 + r)) as E1 by (symmetry; subst a1; replace (addr - r + r) with addr by lia; by apply Z.mod_small).
  do 5 (split; [done|]). pose proof (block_fits op a1 Hop B1). pose proof (block_fits op a2 Hop B2). fold sz in H, H0. split.
  - rewrite E1. symmetry. apply same_page; lia.
  - assert (u64 (addr + sz - 1) = u64 (a2 + (r - 1))) as ->.
    { subst a2 a1. unfold u64. rewrite Zplus_mod_idemp_l. f_equal. lia. }
    symmetry. apply same_page; lia.
Qed.

Lemma not_split op addr ta :
  memop_ok op = true -> 0 <= addr < 2 ^ 64 -> ~ (Z.land ta (not64 TARGET_PAGE_MASK) <> 0 \/ crosses addr (memop_size op) = true) ->
  Z.land ta (not64 TARGET_PAGE_MASK) = 0 /\ addr mod 4096 + memop_size op <= 4096.
Proof.
  intros Hop Ha Hd. destruct (decide (Z.land ta (not64 TARGET_PAGE_MASK) = 0)); [|tauto]. split; [done|].
  destruct (crosses addr (memop_size op)) eqn:Ecr; [tauto|]. unfold crosses in Ecr. rewrite (proj1 (page_offset addr Ha)) in Ecr.
  change TARGET_PAGE_SIZE with 4096 in Ecr. pose proof (Z.mod_pos_bound addr 4096). apply andb_false_iff in Ecr as [Q%Z.ltb_ge|Q%Z.leb_gt]; lia.
Qed.

(** The pages of the bytes of an access. *)
Lemma byte_page addr sz i :
  0 <= addr < 2 ^ 64 -> 0 <= i < sz -> sz <= 8 ->
  page_of (u64 (addr + i)) = page_of addr \/ page_of (u64 (addr + i)) = page_of (u64 (addr + sz - 1)).
Proof.
  intros Ha Hi Hs. destruct (Z.lt_ge_cases (addr mod 4096 + i) 4096) as [Hl|Hg]; [left; apply same_page; lia|right].
  assert (u64 (addr + sz - 1) = u64 (u64 (addr + i) + (sz - 1 - i))) as ->.
  { unfold u64. rewrite Zplus_mod_idemp_l. f_equal. lia. }
  symmetry. apply same_page; [apply Z.mod_pos_bound; lia|lia|]. unfold u64. change (2 ^ 64) with 18446744073709551616 in *. mlia.
Qed.

Lemma end_page op addr :
  memop_ok op = true -> 0 <= addr < 2 ^ 64 -> addr mod memop_size op <> 0 ->
  page_of (u64 (addr + memop_size op)) = page_of (u64 (addr + memop_size op - 1)).
Proof.
  intros Hop Ha Hne. replace (u64 (addr + memop_size op)) with (u64 (u64 (addr + memop_size op - 1) + 1)).
  2:{ unfold u64. rewrite Zplus_mod_idemp_l. f_equal. lia. }
  apply same_page; [apply Z.mod_pos_bound; lia|lia|]. unfold u64. change (2 ^ 64) with 18446744073709551616 in *.
  destruct (size_cases op Hop) as [E|[E|[E|E]]]; rewrite E in *; mlia.
Qed.

End SoftMmuBytes.
