(* ===== verification/SoftMmuLinks.v ===== *)
(** * Guest loads and stores: entries of the TLB

    Entries of the TLB lead to the host address of the physical page they carry, through
    every operation of [SoftTlb] ([linked]); with the page table of the guest in force, a
    hit leads to the byte the table says ([coherent], [entry_reaches]). *)

From S2P Require Import Prelude SoftTlb SoftMmu SoftMmuBytes.
Import SoftTlb SoftMmu SoftMmuBytes.
Local Open Scope Z_scope.
Local Open Scope c_scope.

Module SoftMmuLinks.

(** ** A property of all entries *)
Section Entries.
Context (P : CPUTLBEntry -> Prop).
Context (P_empty : P empty_entry) (P_reset : forall e start len, P e -> P (tlb_reset_dirty_range_locked e start len)).
Context (P_dirty : forall e v, aligned v -> P e -> P (tlb_set_dirty1_locked e v)).

Definition all_entries (t : CPUTLB) : Prop :=
  (forall m j, 0 <= m < 3 -> P (table (f t m) j)) /\ (forall m k, 0 <= m < 3 -> P (vtable (d t m) k)).

Lemma all_set_d t m x : all_entries t -> (forall k, 0 <= m < 3 -> P (vtable x k)) -> all_entries (set_d t m x).
Proof. intros [Ht Hv] Hx. split; [done|]. intros m' k Hm. cbn. unfold zset. destruct (Z.eqb_spec m' m) as [->|]; auto. Qed.

Lemma all_set_entry t m j e : all_entries t -> (0 <= m < 3 -> P e) -> all_entries (set_entry t m j e).
Proof.
  intros [Ht Hv] He. split; [|done]. intros m' j' Hm. cbn. unfold zset. destruct (Z.eqb_spec m' m) as [->|]; [|auto]. cbn.
  destruct (j' =? j); auto.
Qed.

Lemma all_used t m n : all_entries t -> all_entries (set_d t m (set_used (d t m) n)).
Proof. intros H. apply all_set_d; [done|]. intros k Hm. by apply H. Qed.

Lemma all_counts t a b c : all_entries t -> all_entries (set_counts t a b c).
Proof. intros H. exact H. Qed.

Lemma counted {A} (Q : A -> Prop) (q r : bool) x y z x' :
  (if q then Ret x else if r then Ret y else Ret z) = Ret x' -> Q x -> Q y -> Q z -> Q x'.
Proof. destruct q, r; by intros [= <-]. Qed.

Lemma all_flush_one try_alloc t m now t' :
  tlb_flush_one_mmuidx_locked try_alloc t m now = Ret t' -> all_entries t -> all_entries t'.
Proof using P_empty.
  unfold tlb_flush_one_mmuidx_locked. intros ([x y] & _ & E)%cbind_Ret [Ht Hv]. injection E as <-. cbn.
  split; intros m' j Hm; cbn; unfold zset; destruct (m' =? m); auto.
Qed.

Lemma all_flush_loop try_alloc fuel : forall work t now t',
  flush_loop try_alloc fuel work t now = Ret t' -> all_entries t -> all_entries t'.
Proof using P_empty.
  induction fuel as [|fuel IH]; intros work t now t'; cbn; destruct (work =? 0); [by intros [= <-]|done|by intros [= <-]|].
  intros (t1 & H1 & H2)%cbind_Ret Ha. eapply IH; [exact H2|]. by eapply all_flush_one.
Qed.

Lemma all_flush_vtlb t m p : all_entries t -> all_entries (tlb_flush_vtlb_page_locked t m p).
Proof using P_empty.
  intros [Ht Hv]. destruct (flush_vtlb_spec t m p) as (_ & F & O & _ & V). split; [intros; rewrite F; auto|].
  intros m' k Hm. destruct (decide (m' = m)) as [->|Hne]; [|rewrite O by done; auto]. rewrite V. destruct (_ && _); [|auto].
  unfold flush_of, tlb_flush_entry_locked. destruct (tlb_hit_page_anyprot _ _); [done|by apply Hv].
Qed.

Lemma all_flush_page try_alloc t m p now t' :
  tlb_flush_page_locked try_alloc t m p now = Ret t' -> all_entries t -> all_entries t'.
Proof using P_empty.
  unfold tlb_flush_page_locked. destruct (_ =? _); [apply all_flush_one|]. intros E Ha. injection E as <-.
  apply all_flush_vtlb. unfold tlb_flush_entry_locked. destruct (tlb_hit_page_anyprot _ _); cbn [fst snd];
    [apply all_used, all_set_entry; done|apply all_set_entry; [done|intros Hm; by apply Ha]].
Qed.

Lemma all_flush_page_loop try_alloc n : forall t a idx now t',
  flush_page_loop try_alloc n t a idx now = Ret t' -> all_entries t -> all_entries t'.
Proof using P_empty.
  induction n as [|n IH]; intros t a idx now t'; cbn; [by intros [= <-]|]. intros (t1 & H1 & H2)%cbind_Ret Ha.
  specialize (IH _ _ _ _ _ H1 Ha). destruct (ztrue _); [by eapply all_flush_page|by injection H2 as <-].
Qed.

Lemma all_reset_dirty t start len : all_entries t -> all_entries (tlb_reset_dirty t start len).
Proof using P_reset.
  intros [Ht Hv]. split; intros m j Hm; cbn; destruct (_ && _); cbn; auto; destruct (_ && _); auto.
Qed.

Lemma all_set_dirty t v : all_entries t -> all_entries (tlb_set_dirty t v).
Proof using P_dirty.
  intros [Ht Hv]. pose proof (page_of_aligned v) as Ha. split; intros m j Hm; cbn; fold (page_of v); destruct (_ && _); cbn; auto.
  - unfold zset. destruct (_ =? _); [apply P_dirty; [done|by apply Ht]|auto].
  - destruct (_ && _); auto.
Qed.

Lemma all_victim t m i elt p : all_entries t -> all_entries (victim_tlb_hit t m i elt p).2.
Proof.
  intros Ha. unfold victim_tlb_hit. generalize (Z.to_nat CPU_VTLB_SIZE) 0. intros n. induction n as [|n IH]; intros v; cbn; [done|].
  destruct (_ =? p); [|apply IH]. cbn [snd]. apply all_set_d; [apply all_set_entry; [done|intros Hm; by apply Ha]|].
  intros k Hm. cbn. unfold zset. destruct (k =? v); by apply Ha.
Qed.
End Entries.

(** ** Entries lead to host memory *)

(** The flags that divert an access from host memory or change its bytes. *)
Definition SPECIAL : Z := Z.lor (Z.lor TLB_MMIO TLB_BSWAP) TLB_DISCARD_WRITE.

Lemma special_flag x flag : Z.land x SPECIAL = 0 -> Z.land flag SPECIAL = 0 -> Z.land (Z.lor x flag) SPECIAL = 0.
Proof. intros Hx Hf. by rewrite Z.land_lor_distr_l, Hx, Hf. Qed.

Lemma special_or_if b x flag : Z.land x SPECIAL = 0 -> Z.land flag SPECIAL = 0 -> Z.land (or_if b x flag) SPECIAL = 0.
Proof. intros Hx Hf. destruct b; [by apply special_flag|done]. Qed.

Lemma aligned_special x : aligned x -> Z.land x SPECIAL = 0.
Proof. intros Ha. rewrite <- Ha, <- Z.land_assoc. change (Z.land TARGET_PAGE_MASK SPECIAL) with 0. apply Z.land_0_r. Qed.

(** The memory API: a physical page of RAM is writable and has one host address, which is
    page aligned; its translation keeps the rights and is not smaller than a page; the
    target swaps no bytes. *)
Class RamApi := {
  ram_page : Z -> Prop;
  host : Z -> Z;
  try_alloc : Z -> bool;
  translate_for_iotlb : Z -> Z -> Z -> Z -> MemoryRegionSection * Z * Z * Z;
  byte_swap : Z -> bool;
  is_clean : Z -> bool;
  watchpoint_matches : Z -> Z;
  translate_ram pa sz attrs prot section xlat sz' prot' : ram_page pa ->
    translate_for_iotlb pa sz attrs prot = (section, xlat, sz', prot') ->
    sec_is_ram section = true /\ sec_readonly section = false /\ u64 (sec_ram_ptr section + xlat) = host pa /\
    prot' = prot /\ (TARGET_PAGE_SIZE <= sz -> TARGET_PAGE_SIZE <= sz');
  no_swap attrs : byte_swap attrs = false;
  host_range pa : ram_page pa -> 0 <= host pa < 2 ^ 64;
  host_aligned pa : ram_page pa -> host pa mod 4096 = 0;
}.

Section Guest.
Context {api : RamApi}.
Local Abbreviation set_page := (tlb_set_page_with_attrs translate_for_iotlb byte_swap is_clean watchpoint_matches).
Local Abbreviation step := (tlb_step try_alloc translate_for_iotlb byte_swap is_clean watchpoint_matches).

Definition leads (e : CPUTLBEntry) (x : Z) : Prop :=
  x = 2 ^ 64 - 1 \/ (Z.land x SPECIAL = 0 /\ u64 (page_of x + addend e) = host (e_paddr e)).
Definition linked (e : CPUTLBEntry) : Prop :=
  ram_page (e_paddr e) -> leads e (addr_read e) /\ leads e (addr_write e) /\ leads e (addr_code e).

Lemma linked_empty : linked empty_entry.
Proof. intros _. by repeat split; left. Qed.

Lemma linked_write e x :
  (leads e (addr_write e) -> leads e x) -> linked e -> linked (set_write e x).
Proof. intros Hx Hl Hr. destruct (Hl Hr) as (H1 & H2 & H3). repeat split; [exact H1|exact (Hx H2)|exact H3]. Qed.

Lemma linked_reset e start len : linked e -> linked (tlb_reset_dirty_range_locked e start len).
Proof.
  unfold tlb_reset_dirty_range_locked. destruct (Z.eqb_spec (Z.land (addr_write e)
    (Z.lor (Z.lor (Z.lor TLB_INVALID_MASK TLB_MMIO) TLB_DISCARD_WRITE) TLB_NOTDIRTY)) 0) as [E|]; [|done].
  destruct (_ <? len); [|done]. apply linked_write. intros [Hw|[Hs Hh]].
  - exfalso. rewrite Hw in E. revert E. by vm_compute.
  - right. split; [by apply special_flag|]. by rewrite flag_page.
Qed.

Lemma linked_dirty e v : aligned v -> linked e -> linked (tlb_set_dirty1_locked e v).
Proof.
  intros Ha. unfold tlb_set_dirty1_locked. destruct (Z.eqb_spec (addr_write e) (Z.lor v TLB_NOTDIRTY)) as [E|]; [|done].
  apply linked_write. rewrite E. intros [Hw|[Hs Hh]].
  - exfalso. apply (f_equal (fun x => Z.testbit x 0)) in Hw. rewrite <- Ha in Hw. revert Hw.
    rewrite Z.lor_spec, Z.land_spec. change (Z.testbit TARGET_PAGE_MASK 0) with false. by rewrite andb_false_r.
  - right. split; [by apply aligned_special|]. by rewrite flag_page in Hh.
Qed.

Definition linked_tlb (t : CPUTLB) : Prop := all_entries linked t.

Lemma add_large_all (P : CPUTLBEntry -> Prop) t m v size t' :
  tlb_add_large_page t m v size = Ret t' -> f t' = f t /\ (all_entries P t -> all_entries P t').
Proof.
  unfold tlb_add_large_page. intros (r & _ & E)%cbind_Ret. injection E as <-. split; [done|].
  intros Ha. apply all_set_d; [done|]. intros k Hm. by apply Ha.
Qed.

(** The field of an access. *)
Definition elt_of (access_type : MMUAccessType) : CPUTLBEntry -> Z :=
  match access_type with
  | MMU_DATA_LOAD => addr_read
  | MMU_DATA_STORE => addr_write
  | MMU_INST_FETCH => addr_code
  end.

(** What an access of the kind needs of the rights. *)
Definition right_of (access_type : MMUAccessType) : Z :=
  match access_type with
  | MMU_DATA_LOAD => PAGE_READ
  | MMU_DATA_STORE => PAGE_WRITE
  | MMU_INST_FETCH => PAGE_EXEC
  end.

(** The entry that is made for a page diverts nothing, and leads to the page. *)
Lemma new_entry_field vp pa section xlat prot attrs size wp ad access_type :
  aligned vp -> sec_is_ram section = true -> sec_readonly section = false ->
  let a := page_address byte_swap vp attrs size in
  let x := elt_of access_type (new_entry vp pa ad a (page_write_address is_clean section xlat prot a).1 prot wp) in
  (ztrue (Z.land prot (right_of access_type)) = false /\ x = 2 ^ 64 - 1) \/
  (ztrue (Z.land prot (right_of access_type)) = true /\ Z.land x SPECIAL = 0 /\ page_of x = vp).
Proof.
  intros Ha Hram Hro a.
  assert (Z.land a SPECIAL = 0 /\ page_of a = vp) as [Hs Hp].
  { split; [|by apply page_address_page]. unfold a, page_address. rewrite no_swap. cbn [or_if].
    apply special_or_if; [by apply aligned_special|done]. }
  set (w := (page_write_address is_clean section xlat prot a).1).
  assert (Z.land w SPECIAL = 0 /\ page_of w = vp) as [Hsw Hpw].
  { split; [|unfold w; by rewrite page_write_address_page]. unfold w, page_write_address. rewrite Hram, Hro. cbn [fst].
    destruct (ztrue _); [|done]. destruct (is_clean _); [by apply special_flag|done]. }
  unfold new_entry. destruct access_type; cbn [elt_of addr_read addr_write addr_code right_of];
    (destruct (ztrue (Z.land prot _)); [right; split; [done|]|by left]).
  - split; [by apply special_or_if|]. by rewrite or_if_page.
  - split; [by repeat apply special_or_if|]. by rewrite !or_if_page.
  - done.
Qed.

Lemma new_entry_leads vp pa section xlat prot address attrs size wp :
  aligned vp -> ram_page pa -> sec_is_ram section = true -> sec_readonly section = false -> u64 (sec_ram_ptr section + xlat) = host pa ->
  address = page_address byte_swap vp attrs size ->
  linked (new_entry vp pa (u64 (sec_ram_ptr section + xlat)) address (page_write_address is_clean section xlat prot address).1 prot wp).
Proof.
  intros Ha Hr Hram Hro Hh -> _.
  assert (forall x, page_of x = vp -> u64 (page_of x + u64 (u64 (sec_ram_ptr section + xlat) - vp)) = host pa) as Hx.
  { intros x ->. rewrite Hh. unfold u64. rewrite Zplus_mod_idemp_r. replace (vp + (host pa - vp)) with (host pa) by lia.
    apply Z.mod_small. by apply host_range. }
  pose proof (fun at_ => new_entry_field vp pa section xlat prot attrs size wp (u64 (sec_ram_ptr section + xlat)) at_ Ha Hram Hro) as Hf.
  unfold leads. split; [|split]; [destruct (Hf MMU_DATA_LOAD) as [[_ E]|(_ & E1 & E2)]|destruct (Hf MMU_DATA_STORE) as [[_ E]|(_ & E1 & E2)]
    |destruct (Hf MMU_INST_FETCH) as [[_ E]|(_ & E1 & E2)]]; cbn [elt_of] in *; try (by left); right; (split; [done|by apply Hx]).
Qed.

(** After a page was entered, the entry for its addresses carries it. *)
Lemma set_page_spec t vaddr paddr attrs prot m size t' :
  set_page t vaddr paddr attrs prot m size = Ret t' -> linked_tlb t -> 0 <= vaddr < 2 ^ 64 ->
  linked_tlb t' /\ entry_for (page_of vaddr) (tlb_entry t' m vaddr) /\ e_paddr (tlb_entry t' m vaddr) = page_of paddr /\
  (ram_page (page_of paddr) -> forall access_type, ztrue (Z.land prot (right_of access_type)) = true ->
   Z.land (elt_of access_type (tlb_entry t' m vaddr)) SPECIAL = 0).
Proof.
  unfold tlb_set_page_with_attrs. intros ([t1 sz] & E1 & H)%cbind_Ret Hl Hv. fold (page_of vaddr) (page_of paddr) in H.
  assert (f t1 = f t /\ linked_tlb t1) as [F1 Hl1].
  { destruct (size <=? TARGET_PAGE_SIZE); [by injection E1 as <- _|]. apply cbind_Ret in E1 as (t2 & E2 & E1). injection E1 as -> _.
    destruct (add_large_all linked _ _ _ _ _ E2) as [? Hx]. split; [done|by apply Hx]. }
  destruct (translate_for_iotlb (page_of paddr) sz attrs prot) as [[[section xlat] sz'] prot'] eqn:Et.
  apply cbind_Ret in H as (_ & _ & H).
  set (a := page_address byte_swap (page_of vaddr) attrs size) in H.
  pose proof (page_address_page byte_swap (page_of vaddr) attrs size (page_of_aligned vaddr)) as Hpa. fold a in Hpa.
  pose proof (page_write_address_page is_clean section xlat prot' a) as Hpw.
  destruct (page_write_address is_clean section xlat prot' a) as [w io] eqn:Ew. cbn [fst] in Hpw.
  set (a' := if negb (sec_is_ram section) && negb (sec_is_romd section) then w else a) in H.
  set (ad := if sec_is_ram section || sec_is_romd section then u64 (sec_ram_ptr section + xlat) else 0) in H.
  set (e := new_entry (page_of vaddr) (page_of paddr) ad a' w prot' (watchpoint_matches (page_of vaddr))) in H.
  assert (entry_for (page_of vaddr) e) as He.
  { apply new_entry_for; [unfold a'; destruct (negb _ && negb _); congruence|congruence]. }
  assert (linked e) as Hle.
  { intros Hr. change (e_paddr e) with (page_of paddr) in Hr. destruct (translate_ram _ _ _ _ _ _ _ _ Hr Et) as (Hram & Hro & Hh & _).
    pose proof (new_entry_leads (page_of vaddr) (page_of paddr) section xlat prot' a attrs size (watchpoint_matches (page_of vaddr))
      (page_of_aligned vaddr) Hr Hram Hro Hh eq_refl) as Hn. rewrite Ew in Hn. cbn [fst] in Hn.
    unfold e, a', ad. rewrite Hram. cbn [orb negb andb]. by apply Hn. }
  assert (ram_page (page_of paddr) -> forall access_type, ztrue (Z.land prot (right_of access_type)) = true -> Z.land (elt_of access_type e) SPECIAL = 0) as Hfl.
  { intros Hr access_type Hpr. destruct (translate_ram _ _ _ _ _ _ _ _ Hr Et) as (Hram & Hro & Hh & -> & _).
    destruct (new_entry_field (page_of vaddr) (page_of paddr) section xlat prot attrs size (watchpoint_matches (page_of vaddr)) ad access_type) as [[? _]|(_ & Hs & _)];
      [apply page_of_aligned|done|done|congruence|]. fold a in Hs. rewrite Ew in Hs. cbn [fst] in Hs. unfold e, a'. rewrite Hram. exact Hs. }
  assert (e_paddr e = page_of paddr) as Hep by reflexivity. clearbody e. clear Ew Et.
  set (t2 := set_dirty_mask t1 _) in H. assert (linked_tlb t2) as Hl2 by exact Hl1.
  destruct (flush_vtlb_spec t2 m (page_of vaddr)) as (_ & F3 & _). pose proof (all_flush_vtlb linked linked_empty t2 m (page_of vaddr) Hl2) as Hl3.
  set (t3 := tlb_flush_vtlb_page_locked t2 m (page_of vaddr)) in *.
  destruct (evict_spec t3 m (tlb_index t1 m (page_of vaddr)) (page_of vaddr)) as (_ & F4 & O4 & _ & V4).
  set (t4 := evict t3 m (tlb_index t1 m (page_of vaddr)) (page_of vaddr)) in *.
  assert (linked_tlb t4) as Hl4.
  { split; [intros; rewrite F4; by apply Hl3|]. intros m' k Hm. destruct (decide (m' = m)) as [->|Hne]; [|rewrite O4 by done; by apply Hl3].
    destruct (V4 k) as [->|[-> _]]; by apply Hl3. }
  injection H as <-. assert (f t4 = f t) as F by (rewrite F4, F3; exact F1). split; [|].
  - apply all_used, all_set_entry; [|done]. apply all_set_d; [exact Hl4|]. intros k Hm. by apply Hl4.
  - unfold tlb_entry, tlb_index. cbn. rewrite !zset_eq. cbn. unfold tlb_index. rewrite F1, F. change TARGET_PAGE_BITS with 12.
    rewrite page_of_shiftr by done. rewrite zset_eq. by split.
Qed.

Lemma step_linked o t t' : tlb_op_ok o -> step o t = Ret t' -> linked_tlb t -> linked_tlb t'.
Proof.
  intros Hok. destruct o as [vaddr paddr attrs prot m size|idxmap now|self addr idxmap now|start len|vaddr|elt m addr]; cbn [tlb_step].
  - intros E Hl. destruct Hok as (Hv & _). by eapply set_page_spec.
  - unfold tlb_flush_by_mmuidx, tlb_flush_by_mmuidx_async_work. intros (t1 & E & H)%cbind_Ret Hl.
    assert (linked_tlb t1) as Hl1 by (eapply all_flush_loop; [apply linked_empty|exact E|exact Hl]).
    apply (counted _ _ _ _ _ _ _ H); repeat apply all_counts; exact Hl1.
  - unfold tlb_flush_page_by_mmuidx, tlb_flush_page_by_mmuidx_async_1, tlb_flush_page_by_mmuidx_async_0.
    destruct self; [|destruct (_ <? _)]; intros E Hl; (eapply all_flush_page_loop; [apply linked_empty|exact E|exact Hl]).
  - intros [= <-]. apply all_reset_dirty, linked_reset.
  - intros [= <-]. apply all_set_dirty, linked_dirty.
  - intros E. injection E as <-. apply all_victim.
Qed.

Lemma run_linked l : forall t t', Forall tlb_op_ok l ->
  tlb_run try_alloc translate_for_iotlb byte_swap is_clean watchpoint_matches l t = Ret t' -> linked_tlb t -> linked_tlb t'.
Proof.
  induction l as [|o l IH]; intros t t' Hf; cbn [tlb_run]; [by intros [= <-]|]. apply list.Forall_cons in Hf as [Ho Hf].
  intros (t1 & H1 & H2)%cbind_Ret Hl. eapply IH; [done|exact H2|]. by eapply step_linked.
Qed.

Lemma init_linked t now : linked_tlb (tlb_init t now).
Proof.
  split; intros m j Hm; assert (m = 0 \/ m = 1 \/ m = 2) as [->|[->| ->]] by lia; apply linked_empty.
Qed.

(** A page of RAM can be entered. *)
Lemma set_page_total inst t vaddr paddr attrs prot m size :
  tlb_inv inst t -> tlb_op_ok (OpSet vaddr paddr attrs prot m size) -> ram_page (page_of paddr) ->
  exists t', set_page t vaddr paddr attrs prot m size = Ret t'.
Proof.
  intros [_ Hi] (Hv & Hm & Hsz) Hr. unfold tlb_set_page_with_attrs.
  destruct (large_page_step t m vaddr size (mi_region _ _ _ _ _ (Hi m Hm)) Hsz) as (t1 & sz & E & _). rewrite E. cbn [cbind].
  fold (page_of paddr). destruct (translate_for_iotlb (page_of paddr) sz attrs prot) as [[[section xlat] sz'] prot'] eqn:Et.
  destruct (translate_ram _ _ _ _ _ _ _ _ Hr Et) as (_ & _ & _ & _ & Hs).
  assert (TARGET_PAGE_SIZE <= sz) as Hsize.
  { destruct (Z.leb_spec size TARGET_PAGE_SIZE); [by injection E as _ <-|]. apply cbind_Ret in E as (t2 & _ & E). injection E as _ <-. lia. }
  rewrite (proj2 (Z.leb_le _ _) (Hs Hsize)). cbn [cassert cbind].
  destruct (page_write_address is_clean section xlat prot' _) as [w io]. by eexists.
Qed.

(** ** Finding an entry *)

(** The page table of the guest.  The TLB agrees with it: the guest has flushed what it
    changed. *)
Context (page_table : Z -> Z -> option Z).
Definition coherent (t : CPUTLB) : Prop :=
  linked_tlb t /\ exists inst, tlb_inv inst t /\ forall m p pa sz, inst m p = Some (pa, sz) -> page_table m p = Some pa.

Lemma coherent_step o t t' :
  tlb_op_ok o -> step o t = Ret t' -> coherent t ->
  (forall vaddr paddr attrs prot m sz, o = OpSet vaddr paddr attrs prot m sz -> page_table m (page_of vaddr) = Some (page_of paddr)) ->
  coherent t'.
Proof.
  intros Ho E [Hl (inst & Hi & Hpt)] Hset. split; [by eapply step_linked|]. exists (spec_step o inst). split; [by eapply step_inv|].
  intros m p pa sz. destruct o as [vaddr paddr attrs prot m0 size|idxmap now|self addr idxmap now|start len|vaddr|elt m0 addr]; cbn [spec_step]; try apply Hpt.
  - destruct (decide _) as [[-> ->]|]; [|apply Hpt]. intros [= <- <-]. by eapply Hset.
  - destruct (Z.testbit idxmap m); [done|apply Hpt].
  - destruct (inst m p) as [[pa' sz']|] eqn:Ei; [|done]. destruct (_ && _); [done|]. intros [= <- <-]. by eapply Hpt.
Qed.

Lemma coherent_victim t m addr access_type :
  coherent t -> 0 <= m < 3 -> 0 <= addr < 2 ^ 64 ->
  coherent (victim_tlb_hit t m (tlb_index t m addr) (elt_of access_type) (page_of addr)).2.
Proof.
  intros Hc Hm Ha. eapply (coherent_step (OpVictim (elt_of access_type) m addr)); [|reflexivity|done|by intros].
  destruct access_type; cbn; auto.
Qed.

(** A victim that is found is put where the address is looked up. *)
Lemma victim_found t m i elt p :
  (victim_tlb_hit t m i elt p).1 = true ->
  mask (f (victim_tlb_hit t m i elt p).2 m) = mask (f t m) /\ elt (table (f (victim_tlb_hit t m i elt p).2 m) i) = p.
Proof.
  unfold victim_tlb_hit. generalize (Z.to_nat CPU_VTLB_SIZE) 0. intros n. induction n as [|n IH]; intros v; cbn [victim_loop]; [done|].
  destruct (Z.eqb_spec (elt (vtable (d t m) v)) p) as [E|]; [|apply IH]. intros _. cbn [snd]. unfold set_d, set_entry, set_f. cbn [f].
  rewrite zset_eq. cbn [mask table]. by rewrite zset_eq.
Qed.

Lemma hit_field e access_type p :
  tlb_hit_page (elt_of access_type e) p = true -> hits e p.
Proof. intros H. unfold hits, tlb_hit_page_anyprot. destruct access_type; cbn in H; rewrite H; by rewrite ?orb_true_r. Qed.

Lemma leads_of e access_type : linked e -> ram_page (e_paddr e) -> leads e (elt_of access_type e).
Proof. intros Hl Hr. destruct (Hl Hr) as (? & ? & ?). by destruct access_type. Qed.

(** The host address of a byte of a physical page. *)
Definition host_byte (pa addr : Z) : Z := u64 (host pa + Z.land addr (not64 TARGET_PAGE_MASK)).

Lemma page_and_offset addr : 0 <= addr < 2 ^ 64 -> addr = page_of addr + Z.land addr (not64 TARGET_PAGE_MASK).
Proof.
  intros Ha. rewrite page_of_shift by done. change (not64 TARGET_PAGE_MASK) with (Z.ones 12). rewrite Z.land_ones, Z.shiftl_mul_pow2, Z.shiftr_div_pow2 by lia.
  pose proof (Z.div_mod addr (2 ^ 12)). lia.
Qed.

(** What the field of the entry must say for the access to go to the page. *)
Lemma entry_reaches e access_type pa addr :
  linked e -> 0 <= addr < 2 ^ 64 -> e_paddr e = pa -> ram_page pa -> elt_of access_type e <> 2 ^ 64 - 1 ->
  page_of (elt_of access_type e) = page_of addr ->
  u64 (addr + addend e) = host_byte pa addr /\ Z.land (elt_of access_type e) SPECIAL = 0.
Proof.
  intros Hl Ha Hp Hr Hn Hpg. rewrite <- Hp in Hr. destruct (leads_of e access_type Hl Hr) as [|[Hs Hh]]; [done|].
  split; [|done]. unfold host_byte. rewrite <- Hp, <- Hh, Hpg. rewrite (page_and_offset addr Ha) at 1. unfold u64. rewrite Zplus_mod_idemp_l. f_equal. lia.
Qed.

Lemma hit_reaches t access_type m addr pa :
  coherent t -> 0 <= m < 3 -> 0 <= addr < 2 ^ 64 -> page_table m (page_of addr) = Some pa -> ram_page pa ->
  tlb_hit (elt_of access_type (tlb_entry t m addr)) addr = true ->
  host_address t m addr = host_byte pa addr /\ Z.land (elt_of access_type (tlb_entry t m addr)) SPECIAL = 0.
Proof.
  intros [Hl1 (inst & Hi & Hinst)] Hm Ha Hpt Hr Hh. unfold tlb_hit in Hh. fold (page_of addr) in Hh.
  pose proof (hit_field _ _ _ Hh) as Hhits. destruct (hit_in_force inst t m addr Hi Hm Ha Hhits) as [sz Hin]. apply Hinst in Hin.
  unfold tlb_hit_page in Hh. apply Z.eqb_eq in Hh. pose proof (page_of_aligned addr) as Hal. unfold aligned in Hal.
  apply (entry_reaches _ access_type pa); [by apply Hl1|done|congruence|done| |].
  - intros E. rewrite E in Hh. rewrite Hh in Hal. revert Hal. by vm_compute.
  - rewrite Hh in Hal at 1. rewrite <- Z.land_assoc in Hal. exact Hal.
Qed.

Lemma run_coherent t0 now l t :
  Forall tlb_op_ok l -> tlb_run try_alloc translate_for_iotlb byte_swap is_clean watchpoint_matches l (tlb_init t0 now) = Ret t ->
  (forall m p pa sz, spec_run l (fun _ _ => None) m p = Some (pa, sz) -> page_table m p = Some pa) -> coherent t.
Proof.
  intros Hl Hrun Hpt. split; [eapply run_linked; [done|exact Hrun|apply init_linked]|].
  exists (spec_run l (fun _ _ => None)). split; [|done]. eapply run_inv; [done|apply init_inv|exact Hrun].
Qed.
End Guest.

End SoftMmuLinks.
