(* ===== verification/SoftMmuSpec.v ===== *)
(** * Guest loads and stores: what the guest sees

    A load of [SoftMmu] gives the bytes the page table of the guest leads to, also across
    pages and in either byte order; a store changes those bytes and no others; what was
    stored is loaded again.  The page walk of the target is known by what it promises
    ([GuestWalk]). *)

From S2P Require Import Prelude SoftTlb SoftMmu SoftMmuBytes SoftMmuLinks.
Import SoftTlb SoftMmu SoftMmuBytes SoftMmuLinks.
Local Open Scope Z_scope.
Local Open Scope c_scope.

Module SoftMmuSpec.

(** What the page walk of a target promises: host memory holds tables ([encodes], in the
    bytes [table_byte]) that lead to [page_table]; a page whose access they permit is
    entered in the TLB; only tables are written, and they go on holding the same. *)
Class GuestWalk {api : RamApi} {IO D : Type} (tlb_fill : Z -> Z -> MMUAccessType -> Z -> env IO D -> cres (env IO D))
    (page_table : Z -> Z -> option Z) := {
  permits : MMUAccessType -> Z -> Z -> Prop;
  table_byte : Z -> Prop;
  encodes : (Z -> Z) -> Prop;
  ram_data pa i : ram_page pa -> 0 <= i < 4096 -> ~ table_byte (u64 (host pa + i));
  encodes_tables r r' : (forall h, table_byte h -> r' h = r h) -> encodes r -> encodes r';
  fill_enters s addr size access_type m pa :
    coherent page_table (tlb s) -> encodes (ram s) -> 0 <= addr < 2 ^ 64 -> 0 <= m < 3 ->
    page_table m (page_of addr) = Some pa -> ram_page pa -> permits access_type m (page_of addr) ->
    exists s' vaddr paddr attrs prot sz, tlb_fill addr size access_type m s = Ret s' /\
    tlb_set_page_with_attrs translate_for_iotlb byte_swap is_clean watchpoint_matches (tlb s) vaddr paddr attrs prot m sz = Ret (tlb s') /\
    tlb_op_ok (OpSet vaddr paddr attrs prot m sz) /\ page_of vaddr = page_of addr /\ page_of paddr = pa /\
    elt_of access_type (tlb_entry (tlb s') m addr) <> 2 ^ 64 - 1 /\
    io s' = io s /\ encodes (ram s') /\ (forall h, ~ table_byte h -> ram s' h = ram s h) /\
    ((forall h, is_byte (ram s h)) -> forall h, is_byte (ram s' h));
}.

Section Guest.
Context {api : RamApi} {IO D : Type} (tlb_fill : Z -> Z -> MMUAccessType -> Z -> env IO D -> cres (env IO D)).
Context (page_table : Z -> Z -> option Z) {walk : GuestWalk tlb_fill page_table}.
Local Abbreviation coherent := (coherent page_table).
Implicit Types s : env IO D.

(** The states between accesses, and what a walk keeps. *)
Definition good s : Prop := coherent (tlb s) /\ encodes (ram s) /\ forall h, is_byte (ram s h).
Definition kept s s' : Prop := io s' = io s /\ forall h, ~ table_byte h -> ram s' h = ram s h.

Lemma walk_kept_trans s1 s2 s3 : kept s1 s2 -> kept s2 s3 -> kept s1 s3.
Proof. intros [I1 R1] [I2 R2]. split; [congruence|]. intros h Hh. by rewrite R2, R1. Qed.

Lemma good_tlb s t : good s -> coherent t -> good (s <| tlb := t |>).
Proof. intros (_ & He & Hb) Hc. by split. Qed.

Lemma fill_ok s addr size access_type m pa :
  good s -> 0 <= addr < 2 ^ 64 -> 0 <= m < 3 -> page_table m (page_of addr) = Some pa -> permits access_type m (page_of addr) -> ram_page pa ->
  exists s', tlb_fill addr size access_type m s = Ret s' /\ good s' /\ kept s s' /\
  host_address (tlb s') m addr = host_byte pa addr /\ Z.land (elt_of access_type (tlb_entry (tlb s') m addr)) SPECIAL = 0.
Proof.
  intros (Hc & He & Hb) Ha Hm Hpt Hpm Hr.
  destruct (fill_enters s addr size access_type m pa) as (s' & v & paddr & attrs & prot & sz & E & Eset & Hok & Hv & Hpa & Hfield & Hio & He' & Hk & Hb'); [done..|].
  exists s'. split; [done|]. destruct Hok as (Hvr & Hok).
  assert (tlb_entry (tlb s') m addr = tlb_entry (tlb s') m v) as Een.
  { unfold tlb_entry. f_equal. by rewrite <- (tlb_index_page _ _ addr), <- Hv, tlb_index_page. }
  destruct (set_page_spec _ _ _ _ _ _ _ _ Eset (proj1 Hc) Hvr) as (Hl2 & Hen & Hep & _). rewrite <- Een, Hv in *.
  assert (coherent (tlb s')) as Hc'.
  { eapply (coherent_step page_table (OpSet v paddr attrs prot m sz)); [by split|exact Eset|done|]. intros ? ? ? ? ? ? [= <- <- <- <- <- <-]. congruence. }
  split; [split; [done|split; [done|by apply Hb']]|]. split; [by split|].
  apply entry_reaches; [by apply Hl2|done|congruence|done|done|].
  destruct Hen as (F1 & F2 & F3). destruct access_type; cbn in *; by destruct F1, F2, F3.
Qed.

(** ** Finding an entry *)

(** The entry is found, leads to the page of the table, and diverts nothing. *)
Lemma find_entry_ok access_type addr size m pa s :
  good s -> 0 <= m < 3 -> 0 <= addr < 2 ^ 64 -> page_table m (page_of addr) = Some pa -> ram_page pa ->
  permits access_type m (page_of addr) ->
  exists ta s', find_entry tlb_fill (elt_of access_type) addr size access_type m s = Ret (ta, s') /\ good s' /\ kept s s' /\
  host_address (tlb s') m addr = host_byte pa addr /\ Z.land ta SPECIAL = 0.
Proof.
  intros Hg Hm Ha Hpt Hr Hpm. unfold find_entry. fold (page_of addr). pose proof (proj1 Hg) as Hc.
  destruct (tlb_hit (elt_of access_type (tlb_entry (tlb s) m addr)) addr) eqn:Eh.
  { destruct (hit_reaches page_table (tlb s) access_type m addr pa) as [H1 H2]; [done..|]. do 2 eexists. split; [done|]. by split_and!. }
  pose proof (coherent_victim page_table (tlb s) m addr access_type Hc Hm Ha) as Hv.
  pose proof (victim_found (tlb s) m (tlb_index (tlb s) m addr) (elt_of access_type) (page_of addr)) as Hf.
  destruct (victim_tlb_hit (tlb s) m (tlb_index (tlb s) m addr) (elt_of access_type) (page_of addr)) as [hit t1]. cbn [fst snd] in *.
  assert (forall x, Z.land x SPECIAL = 0 -> Z.land (Z.land x (not64 TLB_INVALID_MASK)) SPECIAL = 0) as Hinv.
  { intros x Hx. rewrite (Z.land_comm x), <- Z.land_assoc, Hx. apply Z.land_0_r. }
  assert (good (s <| tlb := t1 |>)) as Hg1 by (by apply good_tlb). destruct hit; cbn [cbind].
  - destruct (Hf eq_refl) as [Hmask Helt].
    assert (tlb_entry t1 m addr = table (f t1 m) (tlb_index (tlb s) m addr)) as Ee by (unfold tlb_entry, tlb_index; by rewrite Hmask).
    destruct (hit_reaches page_table t1 access_type m addr pa) as [H1 H2]; try done.
    { rewrite Ee, Helt. unfold tlb_hit. fold (page_of addr). apply aligned_hit, page_of_aligned. }
    do 2 eexists. split; [done|]. split_and!; try done. by apply Hinv.
  - destruct (fill_ok (s <| tlb := t1 |>) addr size access_type m pa) as (s2 & -> & Hg2 & Hk & Hh & Hs); [done..|]. cbn [cbind].
    do 2 eexists. split; [done|]. split_and!; try done. by apply Hinv.
Qed.

(** ** What the guest sees *)

Definition mapped (access_type : MMUAccessType) (m a : Z) : Prop :=
  exists pa, page_table m (page_of a) = Some pa /\ ram_page pa /\ permits access_type m (page_of a).
Definition guest_byte (ram : Z -> Z) (m a : Z) : Z :=
  match page_table m (page_of a) with
  | Some pa => ram (host_byte pa a)
  | None => 0
  end.
Definition guest_bytes (ram : Z -> Z) (m addr : Z) (n : nat) : list Z := (fun i => guest_byte ram m (u64 (addr + Z.of_nat i))) <$> seq 0 n.

Lemma host_byte_add pa a i :
  0 <= a < 2 ^ 64 -> 0 <= i -> a mod 4096 + i < 4096 -> host_byte pa (u64 (a + i)) = u64 (host_byte pa a + i).
Proof.
  intros Ha Hi Hp. destruct (same_page a i Ha Hi Hp) as (E & Epg & Hr). rewrite E in *. unfold host_byte.
  rewrite (proj1 (page_offset a Ha)), (proj1 (page_offset (a + i) Hr)).
  rewrite (proj2 (page_offset a Ha)), (proj2 (page_offset (a + i) Hr)) in Epg.
  unfold u64. rewrite Zplus_mod_idemp_l. f_equal. lia.
Qed.

Lemma host_block ram m addr pa n :
  0 <= addr < 2 ^ 64 -> page_table m (page_of addr) = Some pa -> addr mod 4096 + Z.of_nat n <= 4096 ->
  host_bytes ram (host_byte pa addr) n = guest_bytes ram m addr n.
Proof.
  intros Ha Hpt Hn. apply list_fmap_ext. intros j i [-> Hi]%lookup_seq. cbn [plus]. unfold guest_byte.
  destruct (same_page addr (Z.of_nat j) Ha) as (_ & -> & _); [lia..|]. rewrite Hpt. by rewrite host_byte_add by lia.
Qed.

Lemma mapped_page access_type m a a' : page_of a = page_of a' -> mapped access_type m a' -> mapped access_type m a.
Proof. unfold mapped. by intros ->. Qed.

Lemma host_byte_data pa a : ram_page pa -> ~ table_byte (host_byte pa a).
Proof.
  intros Hr. apply ram_data; [done|]. change (not64 TARGET_PAGE_MASK) with (Z.ones 12). rewrite Z.land_ones by lia. by apply Z.mod_pos_bound.
Qed.

(** A walk does not change what the guest sees of its data. *)
Lemma guest_kept access_type s s' m addr n :
  kept s s' -> (forall i, 0 <= i < Z.of_nat n -> mapped access_type m (u64 (addr + i))) -> guest_bytes (ram s') m addr n = guest_bytes (ram s) m addr n.
Proof.
  intros [_ Hk] Hmap. apply list_fmap_ext. intros j i [-> Hi]%lookup_seq. cbn [plus]. unfold guest_byte.
  destruct (Hmap (Z.of_nat j)) as (pa & -> & Hr & _); [lia|]. apply Hk. by apply host_byte_data.
Qed.

(** ** Loads *)

Context (check_watchpoint : Z -> Z -> Z -> Z -> cres unit).
Context (dispatch_read : CPUIOTLBEntry -> Z -> Z -> IO -> cres (Z * IO)) (dispatch_write : CPUIOTLBEntry -> Z -> Z -> Z -> IO -> cres IO).
Context (get_dirty_code : Z -> D -> bool) (tb_invalidate : Z -> Z -> D -> cres D) (set_dirty_range : Z -> Z -> D -> D).
Context (physical_is_clean : Z -> D -> bool).
(** No watchpoint is hit, and code is discarded without leaving the access. *)
Context (no_watchpoint : forall addr len attrs flags, check_watchpoint addr len attrs flags = Ret tt).
Context (invalidate_total : forall addr len dm, exists dm', tb_invalidate addr len dm = Ret dm').
Local Abbreviation load := (load_helper tlb_fill check_watchpoint dispatch_read).
Local Abbreviation store := (store_helper tlb_fill check_watchpoint dispatch_write get_dirty_code tb_invalidate set_dirty_range physical_is_clean).
Local Abbreviation find access_type addr size m s := (find_entry tlb_fill (elt_of access_type) addr size access_type m s).
Local Abbreviation fetch code_read := (if code_read then MMU_INST_FETCH else MMU_DATA_LOAD) (only parsing).

Lemma special_clear x flag : Z.land x SPECIAL = 0 -> Z.land SPECIAL flag = flag -> ztrue (Z.land x flag) = false.
Proof. intros Hx <-. by rewrite Z.land_assoc, Hx, Z.land_0_l. Qed.

(** The access is made at once. *)
Lemma load_direct depth addr oi op (code_read : bool) s ta s1 :
  get_alignment_bits (get_memop oi) = 0 -> memop_ok op = true ->
  find (fetch code_read) addr (memop_size op) (get_mmuidx oi) s = Ret (ta, s1) -> Z.land ta SPECIAL = 0 ->
  Z.land addr (memop_size op - 1) = 0 \/ Z.land ta (not64 TARGET_PAGE_MASK) = 0 -> crosses addr (memop_size op) = false ->
  load depth addr oi op code_read s =
  Ret (memop_val op (host_bytes (ram s1) (host_address (tlb s1) (get_mmuidx oi) addr) (Z.to_nat (memop_size op))), s1).
Proof using no_watchpoint.
  intros Hal Hop Hf Hs Hd Hcr.
  assert (find_entry tlb_fill (if code_read then addr_code else addr_read) addr (memop_size op) (fetch code_read) (get_mmuidx oi) s = Ret (ta, s1))
    as Hf' by (destruct code_read; exact Hf).
  destruct depth; cbn [load_helper]; rewrite Hal; change (Z.shiftl 1 0 - 1) with 0; rewrite Z.land_0_r; cbn [cassert Z.eqb cbind];
    rewrite Hf'; cbn [cbind]; rewrite Hcr;
    (destruct (ztrue (Z.land ta (not64 TARGET_PAGE_MASK))) eqn:Ef; [|unfold load_memop; by rewrite Hop]);
    (destruct Hd as [Hd|Hd]; [|by rewrite Hd in Ef]); rewrite Hd; cbn [ztrue Z.eqb negb];
    rewrite no_watchpoint, (special_clear ta TLB_BSWAP), (special_clear ta TLB_MMIO), andb_false_r by done; unfold load_memop; rewrite Hop;
    by destruct (ztrue (Z.land ta TLB_WATCHPOINT)).
Qed.

(** The access is made of two aligned ones. *)
Lemma load_split depth addr oi op (code_read : bool) s ta s1 :
  get_alignment_bits (get_memop oi) = 0 ->
  find (fetch code_read) addr (memop_size op) (get_mmuidx oi) s = Ret (ta, s1) ->
  Z.land addr (memop_size op - 1) <> 0 -> Z.land ta (not64 TARGET_PAGE_MASK) <> 0 \/ crosses addr (memop_size op) = true ->
  load (S depth) addr oi op code_read s =
  let addr1 := Z.land addr (not64 (memop_size op - 1)) in
  let* r1 := load depth addr1 oi op code_read s1 in
  let* r2 := load depth (u64 (addr1 + memop_size op)) oi op code_read r1.2 in
  Ret (combine op addr r1.1 r2.1, r2.2).
Proof.
  intros Hal Hf Hne Hd.
  assert (find_entry tlb_fill (if code_read then addr_code else addr_read) addr (memop_size op) (fetch code_read) (get_mmuidx oi) s = Ret (ta, s1))
    as Hf' by (destruct code_read; exact Hf).
  cbn [load_helper]; rewrite Hal; change (Z.shiftl 1 0 - 1) with 0; rewrite Z.land_0_r; cbn [cassert Z.eqb cbind]; rewrite Hf'; cbn [cbind].
  assert (forall x, x <> 0 -> ztrue x = true) as Hz by (intros x Hx; unfold ztrue; by rewrite (proj2 (Z.eqb_neq x 0) Hx)).
  rewrite (Hz _ Hne). destruct (ztrue (Z.land ta (not64 TARGET_PAGE_MASK))) eqn:Ef; [done|]. destruct Hd as [Hd| ->]; [|done].
  by rewrite (Hz _ Hd) in Ef.
Qed.

(** The arguments of an access to RAM that the page table maps, at both ends. *)
Definition access (access_type : MMUAccessType) (oi op addr : Z) : Prop :=
  0 <= get_mmuidx oi < 3 /\ get_alignment_bits (get_memop oi) = 0 /\ memop_ok op = true /\ 0 <= addr < 2 ^ 64 /\
  mapped access_type (get_mmuidx oi) addr /\ mapped access_type (get_mmuidx oi) (u64 (addr + memop_size op - 1)).
(** ... of an aligned access. *)
Definition block_access (access_type : MMUAccessType) (oi op addr : Z) : Prop :=
  0 <= get_mmuidx oi < 3 /\ get_alignment_bits (get_memop oi) = 0 /\ memop_ok op = true /\ 0 <= addr < 2 ^ 64 /\
  mapped access_type (get_mmuidx oi) addr /\ addr mod memop_size op = 0.
Local Abbreviation bytes_at s oi op addr := (guest_bytes (ram s) (get_mmuidx oi) addr (Z.to_nat (memop_size op))).

Lemma load_block depth addr oi op (code_read : bool) s :
  good s -> block_access (fetch code_read) oi op addr ->
  exists s', load depth addr oi op code_read s = Ret (memop_val op (bytes_at s oi op addr), s') /\ good s' /\ kept s s'.
Proof using no_watchpoint.
  intros Hg (Hm & Hal & Hop & Ha & (pa & Hpt & Hr & Hpm) & Hb). pose proof (block_fits op addr Hop Hb) as Hfit. pose proof (size_cases op Hop) as Hsz.
  destruct (find_entry_ok (fetch code_read) addr (memop_size op) (get_mmuidx oi) pa s) as (ta & s1 & E & Hg1 & Hk & Hh & Hs); [done..|].
  exists s1. split; [|done]. rewrite (load_direct depth addr oi op code_read s ta s1); [|done..| |].
  - rewrite Hh, (host_block _ (get_mmuidx oi)) by (rewrite ?Z2Nat.id; lia || done). do 3 f_equal.
    apply (guest_kept (fetch code_read)); [done|]. intros i Hi. eapply mapped_page; [apply same_page; [done|lia|lia]|by exists pa].
  - left. by rewrite size_mask.
  - by apply fits_crosses.
Qed.

(** The bytes of an access, from the blocks it spans. *)
Lemma guest_split ram m a1 r n :
  (r <= n)%nat ->
  guest_bytes ram m (u64 (a1 + Z.of_nat r)) n =
  drop r (guest_bytes ram m a1 n) ++ take r (guest_bytes ram m (u64 (a1 + Z.of_nat n)) n).
Proof.
  intros Hr. unfold guest_bytes. rewrite <- fmap_drop, <- fmap_take, drop_seq, take_seq, Nat.min_l by lia.
  replace n with ((n - r) + r)%nat at 1 by lia. rewrite seq_app, fmap_app. f_equal; rewrite Nat.add_0_l.
  - rewrite <- (Nat.add_0_r r) at 2. rewrite <- fmap_add_seq, <- list_fmap_compose. apply list_fmap_ext. intros j i _. cbn.
    f_equal. unfold u64. rewrite Zplus_mod_idemp_l. f_equal. lia.
  - rewrite <- (Nat.add_0_r (n - r)) at 1. rewrite <- fmap_add_seq, <- list_fmap_compose. apply list_fmap_ext. intros j i _. cbn.
    f_equal. unfold u64. rewrite !Zplus_mod_idemp_l. f_equal. lia.
Qed.

Lemma length_guest_bytes ram m addr n : length (guest_bytes ram m addr n) = n.
Proof. unfold guest_bytes. by rewrite length_fmap, length_seq. Qed.

Lemma guest_bytes_bytes ram m addr n : (forall a, is_byte (ram a)) -> Forall is_byte (guest_bytes ram m addr n).
Proof.
  intros Hb. apply Forall_fmap, Forall_forall. intros i _. cbn. unfold guest_byte. destruct (page_table _ _); [apply Hb|].
  unfold is_byte. lia.
Qed.


Lemma access_blocks access_type oi op addr (a1 := addr - addr mod memop_size op) :
  access access_type oi op addr -> addr mod memop_size op <> 0 ->
  block_access access_type oi op a1 /\ block_access access_type oi op (u64 (a1 + memop_size op)).
Proof.
  intros (Hm & Hal & Hop & Ha & Hm1 & Hm2) Hnz. destruct (blocks op addr Hop Ha Hnz) as (R1 & R2 & B1 & B2 & E1 & P1 & P2).
  split; (do 4 (split; [done|])); (split; [by eapply mapped_page|done]).
Qed.

Lemma access_bytes access_type oi op addr i :
  access access_type oi op addr -> 0 <= i < memop_size op -> mapped access_type (get_mmuidx oi) (u64 (addr + i)).
Proof.
  intros (Hm & Hal & Hop & Ha & Hm1 & Hm2) Hi. pose proof (size_cases op Hop) as Hsz.
  destruct (byte_page addr (memop_size op) i) as [E|E]; [done|done|lia|by eapply mapped_page..].
Qed.

Lemma load_two depth addr oi op (code_read : bool) s :
  good s -> access (fetch code_read) oi op addr -> addr mod memop_size op <> 0 ->
  exists s', (let addr1 := Z.land addr (not64 (memop_size op - 1)) in
    let* r1 := load depth addr1 oi op code_read s in
    let* r2 := load depth (u64 (addr1 + memop_size op)) oi op code_read r1.2 in
    Ret (combine op addr r1.1 r2.1, r2.2)) = Ret (memop_val op (bytes_at s oi op addr), s') /\ good s' /\ kept s s'.
Proof using no_watchpoint.
  intros Hg Hacc Hnz. pose proof Hacc as (Hm & Hal & Hop & Ha & _). cbn zeta. rewrite block_base by done. pose proof (size_cases op Hop) as Hsz.
  pose proof (Z.mod_pos_bound addr (memop_size op)) as Hrb. destruct (blocks op addr Hop Ha Hnz) as (_ & R2 & _ & B2 & E1 & _).
  destruct (access_blocks _ _ _ _ Hacc Hnz) as [K1 K2]. set (a1 := addr - addr mod memop_size op) in *.
  destruct (load_block depth a1 oi op code_read s Hg K1) as (s1 & -> & Hg1 & Hk1). cbn [cbind fst snd].
  destruct (load_block depth (u64 (a1 + memop_size op)) oi op code_read s1 Hg1 K2) as (s2 & -> & Hg2 & Hk2). cbn [cbind fst snd].
  exists s2. split; [|split; [done|by eapply walk_kept_trans]].
  rewrite (guest_kept (fetch code_read) s s1); [|done|].
  2:{ intros i Hi. destruct K2 as (_ & _ & _ & _ & Hmp & Hb2). pose proof (block_fits op _ Hop Hb2). eapply mapped_page; [apply same_page; [done|lia|lia]|done]. }
  assert (forall a, Forall is_byte (bytes_at s oi op a)) as Hbytes by (intros; apply guest_bytes_bytes, Hg).
  rewrite combine_ok by (done || lia || (by rewrite size_mask) || apply length_guest_bytes).
  rewrite size_mask by done. pose proof (guest_split (ram s) (get_mmuidx oi) a1 (Z.to_nat (addr mod memop_size op)) (Z.to_nat (memop_size op))) as Hs.
  rewrite !Z2Nat.id in Hs by lia. rewrite <- Hs, <- E1 by lia. done.
Qed.

(** The value a load gives is that of the bytes the page table of the guest leads to. *)
Lemma guest_load_ok depth addr oi op (code_read : bool) s :
  good s -> access (fetch code_read) oi op addr ->
  exists s', load (S depth) addr oi op code_read s = Ret (memop_val op (bytes_at s oi op addr), s') /\ good s' /\ kept s s'.
Proof using no_watchpoint.
  intros Hg Hacc. pose proof Hacc as (Hm & Hal & Hop & Ha & Hm1 & Hm2).
  destruct (decide (addr mod memop_size op = 0)) as [Hz|Hnz]; [by apply load_block|].
  destruct Hm1 as (pa & Hpt & Hr & Hpm). pose proof (size_cases op Hop) as Hsz.
  destruct (find_entry_ok (fetch code_read) addr (memop_size op) (get_mmuidx oi) pa s) as (ta & s1 & E & Hg1 & Hk & Hh & Hs); [done..|].
  assert (bytes_at s1 oi op addr = bytes_at s oi op addr) as Eb.
  { apply (guest_kept (fetch code_read)); [done|]. intros i Hi. apply (access_bytes _ oi op); [done|lia]. }
  destruct (decide (Z.land ta (not64 TARGET_PAGE_MASK) <> 0 \/ crosses addr (memop_size op) = true)) as [Hd|Hd].
  - rewrite (load_split depth addr oi op code_read s ta s1) by (done || by rewrite size_mask).
    destruct (load_two depth addr oi op code_read s1) as (s2 & L & Hg2 & Hk2); [done..|]. exists s2. rewrite <- Eb.
    split; [exact L|split; [done|by eapply walk_kept_trans]].
  - destruct (not_split _ _ _ Hop Ha Hd) as [Hfl Hfit]. exists s1. split; [|done].
    rewrite (load_direct (S depth) addr oi op code_read s ta s1) by auto using fits_crosses.
    rewrite Hh, (host_block _ (get_mmuidx oi)), Eb; [done..|]. lia.
Qed.

(** ** Stores *)

(** Bytes put one after another where the page table leads. *)
Definition guest_set (m a b : Z) (ram : Z -> Z) : Z -> Z :=
  match page_table m (page_of a) with
  | Some pa => zset ram (host_byte pa a) b
  | None => ram
  end.
Definition guest_put (m addr : Z) (b : nat -> Z) (l : list nat) (ram : Z -> Z) : Z -> Z :=
  foldl (fun ram i => guest_set m (u64 (addr + Z.of_nat i)) (b i) ram) ram l.

Lemma host_put ram m addr pa b n :
  0 <= addr < 2 ^ 64 -> page_table m (page_of addr) = Some pa -> addr mod 4096 + Z.of_nat n <= 4096 ->
  put_bytes (host_byte pa addr) (b <$> seq 0 n) ram = guest_put m addr b (seq 0 n) ram.
Proof.
  intros Ha Hpt Hn. unfold put_bytes, guest_put. rewrite length_fmap, length_seq.
  rewrite <- (list_fmap_id (seq 0 n)) at 1. rewrite zip_with_fmap_l, zip_with_fmap_r, zip_with_diag, foldl_fmap.
  assert (Forall (fun i => (i < n)%nat) (seq 0 n)) as Hl by (apply Forall_seq; lia).
  revert ram. induction Hl as [|i l Hi Hl IH]; intros ram; [done|]. cbn [foldl fst snd]. rewrite IH. f_equal. unfold guest_set.
  destruct (same_page addr (Z.of_nat i) Ha) as (_ & -> & _); [lia..|]. rewrite Hpt. by rewrite host_byte_add by lia.
Qed.

Lemma set_dirty_host t v m addr : host_address (tlb_set_dirty t v) m addr = host_address t m addr.
Proof.
  unfold host_address, tlb_entry, tlb_index, tlb_set_dirty. cbn [f]. destruct (_ && _); cbn [mask table]; [|done].
  unfold zset, tlb_entry, tlb_index. destruct (_ =? _) eqn:E; [|done]. apply Z.eqb_eq in E. rewrite <- E.
  unfold tlb_set_dirty1_locked. by destruct (_ =? _).
Qed.

Lemma host_byte_offset pa a : ram_page pa -> 0 <= a < 2 ^ 64 -> host_byte pa a mod 4096 = a mod 4096.
Proof.
  intros Hr Ha. unfold host_byte. rewrite (proj1 (page_offset a Ha)). pose proof (host_aligned pa Hr) as Hh.
  revert Hh Ha. generalize (host pa). clear. intros x Hh Ha. unfold u64. change (2 ^ 64) with 18446744073709551616 in *. mlia.
Qed.

(** The host bytes of an access. *)
Definition spans (m addr : Z) (l : list nat) (h : Z) : Prop :=
  exists i pa, i ∈ l /\ page_table m (page_of (u64 (addr + Z.of_nat i))) = Some pa /\ h = host_byte pa (u64 (addr + Z.of_nat i)).

Lemma guest_put_cons m addr b i l ram : guest_put m addr b (i :: l) ram = guest_put m addr b l (guest_set m (u64 (addr + Z.of_nat i)) (b i) ram).
Proof. done. Qed.

Lemma put_frame m addr b l : forall ram h, ~ spans m addr l h -> guest_put m addr b l ram h = ram h.
Proof.
  induction l as [|i l IH]; intros ram h Hn; [done|]. rewrite guest_put_cons. rewrite IH.
  - unfold guest_set. destruct (page_table _ _) as [pa|] eqn:Ep; [|done]. unfold zset. destruct (Z.eqb_spec h (host_byte pa (u64 (addr + Z.of_nat i)))); [|done].
    destruct Hn. exists i, pa. split; [by left|done].
  - intros (j & pa & Hj & Hx). apply Hn. exists j, pa. split; [by right|done].
Qed.

Lemma guest_put_read m addr b l : forall ram i,
  NoDup l -> Forall (fun j => (j < 8)%nat) l -> i ∈ l -> Forall (fun j => mapped MMU_DATA_STORE m (u64 (addr + Z.of_nat j))) l ->
  guest_byte (guest_put m addr b l ram) m (u64 (addr + Z.of_nat i)) = b i.
Proof.
  induction l as [|j l IH]; intros ram i Hnd Hlt Hi Hmap; [by apply not_elem_of_nil in Hi|].
  apply list.NoDup_cons in Hnd as [Hj Hnd]. apply list.Forall_cons in Hlt as [Hlj Hlt]. apply list.Forall_cons in Hmap as [Hmj Hmap]. rewrite guest_put_cons.
  apply elem_of_cons in Hi as [->|Hi]; [|by apply IH]. destruct Hmj as (pa & Hpt & Hr & _).
  unfold guest_byte. rewrite Hpt. rewrite put_frame.
  { unfold guest_set. rewrite Hpt. apply zset_eq. }
  intros (i & pa' & Hi & Hpt' & E). pose proof (proj1 (list.Forall_forall _ _) Hlt i Hi) as Hli. pose proof (proj1 (list.Forall_forall _ _) Hmap i Hi) as (pa2 & Hpt2 & Hr2 & _).
  cbn in Hli. assert (pa2 = pa') as -> by congruence. assert (i <> j) as Hij by (intros ->; done).
  assert (forall k : nat, 0 <= u64 (addr + Z.of_nat k) < 2 ^ 64) as Hu by (intros; apply Z.mod_pos_bound; lia).
  apply (f_equal (fun x => x mod 4096)) in E. rewrite !host_byte_offset in E by done. revert E. clear - Hli Hlj Hij. unfold u64.
  change (2 ^ 64) with 18446744073709551616. mlia.
Qed.

Lemma put_bytes_bytes m addr op val l : forall ram, (forall a, is_byte (ram a)) -> forall a, is_byte (guest_put m addr (val8 op val) l ram a).
Proof.
  induction l as [|i l IH]; intros ram Hb a; [done|]. rewrite guest_put_cons. apply IH. intros a'. unfold guest_set.
  destruct (page_table _ _); [|done]. unfold zset. destruct (_ =? _); [apply u8_range|done].
Qed.

(** A store to mapped pages leaves the tables as they are. *)
Lemma put_tables access_type m addr b l ram :
  Forall (fun i => mapped access_type m (u64 (addr + Z.of_nat i))) l -> encodes ram -> encodes (guest_put m addr b l ram).
Proof.
  intros Hl. apply encodes_tables. intros h Hh. apply put_frame. intros (i & pa & Hi & Hpt & ->).
  destruct (proj1 (list.Forall_forall _ _) Hl i Hi) as (pa' & Hpt' & Hr & _). assert (pa' = pa) as -> by congruence.
  by apply (host_byte_data pa (u64 (addr + Z.of_nat i)) Hr).
Qed.

Lemma guest_put_agree m addr b l : forall ram ram' h, ram h = ram' h -> guest_put m addr b l ram h = guest_put m addr b l ram' h.
Proof.
  induction l as [|i l IH]; intros ram ram' h E; [done|]. rewrite !guest_put_cons. apply IH. unfold guest_set. destruct (page_table _ _); [|done].
  unfold zset. by destruct (_ =? _).
Qed.

Lemma notdirty_ok addr size iotlbentry s :
  coherent (tlb s) -> 0 <= addr < 2 ^ 64 ->
  exists s', notdirty_write get_dirty_code tb_invalidate set_dirty_range physical_is_clean addr size iotlbentry s = Ret s' /\
  coherent (tlb s') /\ ram s' = ram s /\ io s' = io s /\ forall m a, host_address (tlb s') m a = host_address (tlb s) m a.
Proof using no_watchpoint invalidate_total.
  intros Hc Ha. unfold notdirty_write. set (ra := u64 (addr + io_addr iotlbentry)).
  assert (exists dm, (if get_dirty_code ra (dirty_memory s) then Ret (dirty_memory s) else tb_invalidate ra size (dirty_memory s)) = Ret dm) as [dm ->].
  { destruct (get_dirty_code _ _); [by eauto|apply invalidate_total]. }
  cbn [cbind]. eexists. split; [done|]. destruct (physical_is_clean _ _); [done|]. cbn [tlb ram io].
  split; [|split; [done|split; [done|intros; apply set_dirty_host]]].
  eapply (coherent_step page_table (OpSetDirty addr)); [done|reflexivity|exact Hc|by intros].
Qed.

(** What a store leaves. *)
Definition stored (m addr op val : Z) (l : list nat) s s' : Prop :=
  good s' /\ io s' = io s /\ forall h, ~ table_byte h -> ram s' h = guest_put m addr (val8 op val) l (ram s) h.

Lemma dirty_then_put (notdirty : bool) addr size iotlbentry m l s h :
  coherent (tlb s) -> 0 <= addr < 2 ^ 64 -> host_address (tlb s) m addr = h ->
  exists s', (let* s := if notdirty then notdirty_write get_dirty_code tb_invalidate set_dirty_range physical_is_clean addr size iotlbentry s else Ret s in
              let* r := Ret (put_bytes (host_address (tlb s) m addr) l (ram s)) in Ret (s <| ram := r |>)) = Ret s' /\
  coherent (tlb s') /\ ram s' = put_bytes h l (ram s) /\ io s' = io s.
Proof using no_watchpoint invalidate_total.
  intros Hc Ha Hh. destruct notdirty; cbn [cbind].
  - destruct (notdirty_ok addr size iotlbentry s) as (s' & -> & C & R & I & Hs); [done..|]. cbn [cbind].
    rewrite Hs, R, Hh. eexists. split; [done|]. by split_and!.
  - rewrite Hh. eexists. split; [done|]. by split_and!.
Qed.

Lemma store_direct depth addr val oi op s pa ta s1 :
  access MMU_DATA_STORE oi op addr -> page_table (get_mmuidx oi) (page_of addr) = Some pa ->
  find MMU_DATA_STORE addr (memop_size op) (get_mmuidx oi) s = Ret (ta, s1) -> good s1 -> kept s s1 ->
  host_address (tlb s1) (get_mmuidx oi) addr = host_byte pa addr -> Z.land ta SPECIAL = 0 ->
  Z.land addr (memop_size op - 1) = 0 \/ Z.land ta (not64 TARGET_PAGE_MASK) = 0 -> addr mod 4096 + memop_size op <= 4096 ->
  exists s', store depth addr val oi op s = Ret s' /\ stored (get_mmuidx oi) addr op val (seq 0 (Z.to_nat (memop_size op))) s s'.
Proof using no_watchpoint invalidate_total.
  intros Hacc Hpt Hf Hg [Ik Hk] Hh Hs Hd Hfit. pose proof Hacc as (Hm & Hal & Hop & Ha & _). pose proof (size_cases op Hop) as Hsz. cbn [elt_of] in Hf.
  assert (forall r, put_bytes (host_byte pa addr) (memop_bytes op val) r = guest_put (get_mmuidx oi) addr (val8 op val) (seq 0 (Z.to_nat (memop_size op))) r) as Hput.
  { intros r. rewrite memop_bytes_val8 by done. apply host_put; [done..|]. rewrite Z2Nat.id; lia. }
  assert (exists s', store depth addr val oi op s = Ret s' /\ coherent (tlb s') /\
    ram s' = put_bytes (host_byte pa addr) (memop_bytes op val) (ram s1) /\ io s' = io s1) as (s' & E & C & R & I).
  2:{ exists s'. split; [done|]. rewrite Hput in R. split; [|split; [congruence|]].
      - split; [done|]. rewrite R. split; [|apply put_bytes_bytes, Hg]. apply (put_tables MMU_DATA_STORE); [|apply Hg].
        apply Forall_seq. intros i Hi. apply (access_bytes _ oi op); [done|lia].
      - intros h Hh'. rewrite R. apply guest_put_agree. by apply Hk. }
  pose proof (proj1 Hg) as Hc.
  destruct depth; cbn [store_helper]; rewrite Hal; change (Z.shiftl 1 0 - 1) with 0; rewrite Z.land_0_r; cbn [cassert Z.eqb cbind];
    rewrite Hf; cbn [cbind]; rewrite (fits_crosses op addr Ha Hfit);
    (destruct (ztrue (Z.land ta (not64 TARGET_PAGE_MASK))) eqn:Ef; [|unfold store_memop; rewrite Hop, Hh; by eauto]);
    (destruct Hd as [Hd|Hd]; [|by rewrite Hd in Ef]); rewrite Hd; cbn [ztrue Z.eqb negb];
    rewrite no_watchpoint, (special_clear ta TLB_BSWAP), (special_clear ta TLB_MMIO), (special_clear ta TLB_DISCARD_WRITE), andb_false_r by done;
    unfold store_memop; rewrite Hop;
    destruct (ztrue (Z.land ta TLB_WATCHPOINT)); cbn [cbind]; by apply dirty_then_put.
Qed.

Lemma block_is_access access_type oi op addr : block_access access_type oi op addr -> access access_type oi op addr.
Proof.
  intros (Hm & Hal & Hop & Ha & Hmp & Hb). do 5 (split; [done|]). pose proof (block_fits op addr Hop Hb). pose proof (size_cases op Hop).
  eapply mapped_page; [|done]. rewrite <- Z.add_sub_assoc. apply same_page; lia.
Qed.

Lemma store_block depth addr val oi op s :
  good s -> block_access MMU_DATA_STORE oi op addr ->
  exists s', store depth addr val oi op s = Ret s' /\ stored (get_mmuidx oi) addr op val (seq 0 (Z.to_nat (memop_size op))) s s'.
Proof using no_watchpoint invalidate_total.
  intros Hg Hba. pose proof (block_is_access _ _ _ _ Hba) as Hacc. destruct Hba as (Hm & Hal & Hop & Ha & (pa & Hpt & Hr & Hpm) & Hb).
  destruct (find_entry_ok MMU_DATA_STORE addr (memop_size op) (get_mmuidx oi) pa s) as (ta & s1 & E & Hg1 & Hk & Hh & Hs); [done..|].
  apply (store_direct depth addr val oi op s pa ta s1); try done; [left; by rewrite size_mask|by apply block_fits].
Qed.

Lemma store_byte depth addr val oi s :
  good s -> 0 <= get_mmuidx oi < 3 -> get_alignment_bits (get_memop oi) = 0 -> 0 <= addr < 2 ^ 64 -> mapped MMU_DATA_STORE (get_mmuidx oi) addr ->
  exists s', store depth addr val oi MO_UB s = Ret s' /\ good s' /\ io s' = io s /\
  forall h, ~ table_byte h -> ram s' h = guest_set (get_mmuidx oi) addr (u8 val) (ram s) h.
Proof using no_watchpoint invalidate_total.
  intros Hg Hm Hal Ha Hmap. destruct (store_block depth addr val oi MO_UB s) as (s' & E & C & I & R); [done| |].
  { do 5 (split; [done|]). change (memop_size MO_UB) with 1. apply Z.mod_1_r. }
  exists s'. do 3 (split; [done|]). intros h Hh. rewrite R by done. change (seq 0 (Z.to_nat (memop_size MO_UB))) with [0%nat].
  rewrite guest_put_cons. change (val8 MO_UB val 0) with (u8 (Z.shiftr val 0)). rewrite Z.shiftr_0_r. change (Z.of_nat 0) with 0.
  rewrite Z.add_0_r. unfold u64. by rewrite (Z.mod_small addr) by done.
Qed.

(** The loop over the bytes. *)
Lemma store_bytes_ok depth addr val oi op l : forall s,
  good s -> 0 <= get_mmuidx oi < 3 -> get_alignment_bits (get_memop oi) = 0 ->
  Forall (fun i => mapped MMU_DATA_STORE (get_mmuidx oi) (u64 (addr + Z.of_nat i))) l ->
  exists s', store_bytes (fun a v => store depth a v oi MO_UB) addr op val l s = Ret s' /\ stored (get_mmuidx oi) addr op val l s s'.
Proof using no_watchpoint invalidate_total.
  induction l as [|i l IH]; intros s Hg Hm Hal Hl; cbn [store_bytes]; [by exists s|]. apply list.Forall_cons in Hl as [Hi Hl].
  destruct (store_byte depth (u64 (addr + Z.of_nat i)) (val8 op val i) oi s) as (s1 & -> & C1 & I1 & R1); try done.
  { apply Z.mod_pos_bound. lia. }
  cbn [cbind]. destruct (IH s1) as (s' & -> & C & I & R); try done. exists s'. split; [done|]. split; [done|]. split; [congruence|].
  intros h Hh. rewrite R, guest_put_cons by done. apply guest_put_agree. rewrite R1 by done. f_equal. unfold val8, u8. by rewrite Z.mod_mod by lia.
Qed.

Lemma find_page2_ok page2 size2 m s :
  good s -> 0 <= m < 3 -> 0 <= page2 < 2 ^ 64 -> page_of page2 = page2 -> mapped MMU_DATA_STORE m page2 ->
  exists s', find_page2 tlb_fill page2 size2 m s = Ret s' /\ good s' /\ kept s s'.
Proof.
  intros Hg Hm Ha Hp (pa & Hpt & Hr & Hpm). unfold find_page2. destruct (tlb_hit_page _ _); [by exists s|].
  pose proof (coherent_victim page_table (tlb s) m page2 MMU_DATA_STORE (proj1 Hg) Hm Ha) as Hv. cbn [elt_of] in Hv. rewrite Hp in Hv.
  destruct (victim_tlb_hit (tlb s) m (tlb_index (tlb s) m page2) addr_write page2) as [hit t1]. cbn [snd] in Hv.
  assert (good (s <| tlb := t1 |>)) as Hg1 by (by apply good_tlb). destruct hit; [by eexists|].
  destruct (fill_ok (s <| tlb := t1 |>) page2 size2 MMU_DATA_STORE m pa) as (s2 & -> & Hg2 & Hk & _); [done..|]. by exists s2.
Qed.

(** The store that is taken apart: the second page is looked up, then the bytes are stored. *)
Lemma store_split depth addr val oi op s ta s1 :
  access MMU_DATA_STORE oi op addr -> find MMU_DATA_STORE addr (memop_size op) (get_mmuidx oi) s = Ret (ta, s1) -> good s1 -> kept s s1 ->
  addr mod memop_size op <> 0 -> Z.land ta (not64 TARGET_PAGE_MASK) <> 0 \/ crosses addr (memop_size op) = true ->
  exists s', store (S depth) addr val oi op s = Ret s' /\ stored (get_mmuidx oi) addr op val (seq 0 (Z.to_nat (memop_size op))) s s'.
Proof using no_watchpoint invalidate_total.
  intros Hacc Hf Hg Hk Hnz Hd. pose proof Hacc as (Hm & Hal & Hop & Ha & Hm1 & Hm2). pose proof (size_cases op Hop) as Hsz. cbn [elt_of] in Hf.
  assert (forall x, x <> 0 -> ztrue x = true) as Hz by (intros x Hx; unfold ztrue; by rewrite (proj2 (Z.eqb_neq x 0) Hx)).
  assert (ztrue (Z.land addr (memop_size op - 1)) = true) as Hne by (apply Hz; by rewrite size_mask).
  set (page2 := page_of (u64 (addr + memop_size op))).
  destruct (find_page2_ok page2 (Z.land (u64 (addr + memop_size op)) (not64 TARGET_PAGE_MASK)) (get_mmuidx oi) s1) as (s2 & E2 & Hg2 & Hk2); [done..| | | |].
  { assert (0 <= u64 (addr + memop_size op) < 2 ^ 64) as Hu by (apply Z.mod_pos_bound; lia).
    unfold page2. rewrite (proj2 (page_offset _ Hu)). pose proof (Z.mod_pos_bound (u64 (addr + memop_size op)) 4096).
    pose proof (Z.mod_le (u64 (addr + memop_size op)) 4096). lia. }
  { apply page_of_aligned. }
  { eapply mapped_page; [|exact Hm2]. unfold page2. rewrite end_page by done. apply page_of_aligned. }
  destruct (store_bytes_ok depth addr val oi op (seq 0 (Z.to_nat (memop_size op))) s2) as (s' & E & C & I & R); [done..| |].
  { apply Forall_seq. intros i Hi. apply (access_bytes _ oi op); [done|lia]. }
  exists s'. split.
  - cbn [store_helper]. rewrite Hal. change (Z.shiftl 1 0 - 1) with 0. rewrite Z.land_0_r. cbn [cassert Z.eqb cbind].
    rewrite Hf. cbn [cbind]. rewrite Hne. fold (page_of (u64 (addr + memop_size op))). fold page2. rewrite E2. cbn [cbind]. rewrite !no_watchpoint.
    assert (ztrue (Z.land ta (not64 TARGET_PAGE_MASK)) = true \/ crosses addr (memop_size op) = true) as Hd' by (destruct Hd; auto).
    destruct (ztrue (Z.land ta TLB_WATCHPOINT)), (ztrue (Z.land (addr_write (tlb_entry (tlb s2) (get_mmuidx oi) page2)) TLB_WATCHPOINT)); cbn [cbind];
      (destruct Hd' as [-> | ->]; [done|by destruct (ztrue (Z.land ta (not64 TARGET_PAGE_MASK)))]).
  - destruct (walk_kept_trans _ _ _ Hk Hk2) as [Ik Rk]. split; [done|]. split; [congruence|]. intros h Hh. rewrite R by done. by apply guest_put_agree, Rk.
Qed.

(** A store puts the bytes of its value where the page table leads, and nothing else. *)
Lemma guest_store_ok depth addr val oi op s :
  good s -> access MMU_DATA_STORE oi op addr ->
  exists s', store (S depth) addr val oi op s = Ret s' /\ stored (get_mmuidx oi) addr op val (seq 0 (Z.to_nat (memop_size op))) s s'.
Proof using no_watchpoint invalidate_total.
  intros Hg Hacc. pose proof Hacc as (Hm & Hal & Hop & Ha & Hm1 & Hm2).
  destruct (decide (addr mod memop_size op = 0)) as [Hz|Hnz]; [by apply store_block|]. destruct Hm1 as (pa & Hpt & Hr & Hpm).
  destruct (find_entry_ok MMU_DATA_STORE addr (memop_size op) (get_mmuidx oi) pa s) as (ta & s1 & E & Hg1 & Hk & Hh & Hs); [done..|].
  destruct (decide (Z.land ta (not64 TARGET_PAGE_MASK) <> 0 \/ crosses addr (memop_size op) = true)) as [Hd|Hd]; [by eapply store_split|].
  destruct (not_split _ _ _ Hop Ha Hd) as [Hfl Hfit]. apply (store_direct (S depth) addr val oi op s pa ta s1); auto.
Qed.

(** ** Reading back *)

Lemma read_back oi op addr val r :
  access MMU_DATA_STORE oi op addr ->
  memop_val op (guest_bytes (guest_put (get_mmuidx oi) addr (val8 op val) (seq 0 (Z.to_nat (memop_size op))) r) (get_mmuidx oi) addr (Z.to_nat (memop_size op))) =
  val mod 256 ^ memop_size op.
Proof.
  intros Hacc. pose proof Hacc as (_ & _ & Hop & Ha & _). rewrite <- memop_roundtrip, memop_bytes_val8 by done. f_equal. pose proof (size_cases op Hop) as Hsz.
  apply list_fmap_ext. intros j i [-> Hi]%lookup_seq. cbn [plus]. apply guest_put_read.
  - apply NoDup_seq.
  - apply Forall_seq. lia.
  - apply elem_of_seq. lia.
  - apply Forall_seq. intros k Hk. apply (access_bytes _ oi op); [done|lia].
Qed.

Lemma stored_read oi op addr val s s' :
  access MMU_DATA_STORE oi op addr -> stored (get_mmuidx oi) addr op val (seq 0 (Z.to_nat (memop_size op))) s s' ->
  memop_val op (bytes_at s' oi op addr) = val mod 256 ^ memop_size op.
Proof.
  intros Hacc (_ & _ & R). rewrite <- (read_back oi op addr val (ram s) Hacc). f_equal. apply list_fmap_ext. intros j i [-> Hi]%lookup_seq. cbn [plus].
  unfold guest_byte. destruct (access_bytes _ _ _ _ (Z.of_nat j) Hacc) as (pa & -> & Hr & _); [lia|]. apply R. by apply host_byte_data.
Qed.
End Guest.
End SoftMmuSpec.
