(* ===== verification/X86Walk.v ===== *)
(** * The page walk of x86

    target/i386/excp_helper.c: [handle_mmu_fault] walks the tables of the guest (two
    levels, PAE, four or five levels), checks the access against them, sets accessed and
    dirty bits and enters the page in the TLB; [get_hphys] is the second walk under nested
    paging; [x86_cpu_tlb_fill] is what the software TLB calls.  Also the walk of the
    debugger, target/i386/helper.c. *)

From S2P Require Import Prelude SoftTlb SoftMmu.
Import SoftTlb SoftMmu.
Local Open Scope Z_scope.

Declare Scope walk_scope.

Module X86Walk.

(** ** Constants (target/i386/cpu.h, svm.h) *)

Definition PG_PRESENT_MASK : Z := 1.
Definition PG_RW_MASK : Z := 2.
Definition PG_USER_MASK : Z := 4.
Definition PG_ACCESSED_MASK : Z := 0x20.
Definition PG_DIRTY_MASK : Z := 0x40.
Definition PG_PSE_MASK : Z := 0x80.
Definition PG_PSE_PAT_MASK : Z := 0x1000.
Definition PG_ADDRESS_MASK : Z := 0x000ffffffffff000.
Definition PHYS_ADDR_MASK : Z := 2 ^ 40 - 1.
Definition PG_HI_RSVD_MASK : Z := Z.land PG_ADDRESS_MASK (not64 PHYS_ADDR_MASK).
Definition PG_HI_USER_MASK : Z := 0x7ff0000000000000.
Definition PG_PKRU_BIT : Z := 59.
Definition PG_PKRU_MASK : Z := u64 (Z.shiftl 15 PG_PKRU_BIT).
Definition PG_NX_MASK : Z := 2 ^ 63.

Definition PG_ERROR_P_MASK : Z := 0x01.
Definition PG_ERROR_W_BIT : Z := 1.
Definition PG_ERROR_U_MASK : Z := 0x04.
Definition PG_ERROR_RSVD_MASK : Z := 0x08.
Definition PG_ERROR_I_D_MASK : Z := 0x10.
Definition PG_ERROR_PK_MASK : Z := 0x20.

Definition CR0_WP_MASK : Z := 2 ^ 16.
Definition CR0_PG_MASK : Z := 2 ^ 31.
Definition CR4_PSE_MASK : Z := 2 ^ 4.
Definition CR4_PAE_MASK : Z := 2 ^ 5.
Definition CR4_LA57_MASK : Z := 2 ^ 12.
Definition CR4_SMEP_MASK : Z := 2 ^ 20.
Definition CR4_PKE_MASK : Z := 2 ^ 22.
Definition MSR_EFER_NXE : Z := 2 ^ 11.
Definition HF_LMA_MASK : Z := 2 ^ 14.
Definition HF_SMM_MASK : Z := 2 ^ 19.
Definition HF2_NPT_MASK : Z := 2 ^ 6.

Definition SVM_NPT_PAE : Z := 1.
Definition SVM_NPT_LMA : Z := 2.
Definition SVM_NPT_NXE : Z := 4.
Definition SVM_NPTEXIT_P : Z := 1.
Definition SVM_NPTEXIT_RW : Z := 2.
Definition SVM_NPTEXIT_US : Z := 4.
Definition SVM_NPTEXIT_RSVD : Z := 8.
Definition SVM_NPTEXIT_ID : Z := 16.
Definition SVM_NPTEXIT_GPA : Z := 2 ^ 32.
Definition SVM_NPTEXIT_GPT : Z := 2 ^ 33.
(** [offsetof(struct vmcb, control.exit_info_2)] *)
Definition EXIT_INFO_2 : Z := 0x80.

Definition EXCP0D_GPF : Z := 13.
Definition EXCP0E_PAGE : Z := 14.

Definition MMU_KSMAP_IDX : Z := 0.
Definition MMU_USER_IDX : Z := 1.
Definition MMU_KNOSMAP_IDX : Z := 2.

(** The value of the C enumeration. *)
Definition access_code (access_type : MMUAccessType) : Z :=
  match access_type with
  | MMU_DATA_LOAD => 0
  | MMU_DATA_STORE => 1
  | MMU_INST_FETCH => 2
  end.

Definition s64 (x : Z) : Z := (x + 2 ^ 63) mod 2 ^ 64 - 2 ^ 63.

(** ** The vCPU *)

Record CPUX86State := mkCPU {
  cr0 : Z; cr2 : Z; cr3 : Z; cr4 : Z; efer : Z; hflags : Z; hflags2 : Z; pkru : Z;
  a20_mask : Z;
  nested_pg_mode : Z; nested_cr3 : Z; vm_vmcb : Z; intercept_exceptions : Z;
  error_code : Z; exception_index : Z;
}.
#[global] Instance eta_cpu : Settable CPUX86State := mkEta _ (fun x => mkCPU (cr0 x) (cr2 x) (cr3 x) (cr4 x) (efer x) (hflags x) (hflags2 x) (pkru x)
  (a20_mask x) (nested_pg_mode x) (nested_cr3 x) (vm_vmcb x) (intercept_exceptions x) (error_code x) (exception_index x)).

Definition x86_get_a20_mask (env : CPUX86State) : Z := if ztrue (Z.land (hflags env) HF_SMM_MASK) then -1 else a20_mask env.
Definition cpu_get_mem_attrs (env : CPUX86State) : Z := b2z (ztrue (Z.land (hflags env) HF_SMM_MASK)).

(** ** Walks *)

(** Where a walk stops: at a label, with the error code so far; with an exit of the nested
    guest; with a failed assertion or a null pointer. *)
Inductive label := do_fault_rsvd | do_fault_protect | do_fault.
Inductive stop := Goto (l : label) (error_code : Z) | Vmexit (exit_info_1 : Z) | Crash (why : string).

(** A walk reads and changes physical memory [P]. *)
Inductive wres (P A : Type) := Go (a : A) (p : P) | Stop (w : stop) (p : P).
Arguments Go {P A} a p.
Arguments Stop {P A} w p.
Definition walker (P A : Type) : Type := P -> wres P A.

Definition wret {P A} (a : A) : walker P A := fun p => Go a p.
Definition wbind {P A B} (m : walker P A) (k : A -> walker P B) : walker P B :=
  fun p => match m p with
           | Go a p => k a p
           | Stop w p => Stop w p
           end.
Notation "'let!' x ':=' m 'in' k" := (wbind m (fun x => k)) (at level 10, x pattern, k at level 200) : walk_scope.

Section Walk.
Local Open Scope walk_scope.
(** Guest-physical memory: [x86_ldq_phys] and the like. *)
Context {P : Type}.
Variable x86_ldq_phys : Z -> P -> Z.
Variable x86_ldl_phys : Z -> P -> Z.
Variable x86_stl_phys_notdirty : Z -> Z -> P -> P.
Variable x86_stq_phys : Z -> Z -> P -> P.

Local Abbreviation W := (walker P).

Definition ldq (a : Z) : W Z := fun p => Go (x86_ldq_phys a p) p.
Definition ldl (a : Z) : W Z := fun p => Go (x86_ldl_phys a p) p.
Definition stl (a v : Z) : W unit := fun p => Go tt (x86_stl_phys_notdirty a (u32 v) p).
Definition goto_if (b : bool) (l : label) : W unit := fun p => if b then Stop (Goto l 0) p else Go tt p.
Definition wassert (b : bool) (why : string) : W unit := fun p => if b then Go tt p else Stop (Crash why) p.

(** The entry is marked as accessed. *)
Definition mark (entry_addr entry : Z) : W Z :=
  if ztrue (Z.land entry PG_ACCESSED_MASK) then wret entry
  else let entry := Z.lor entry PG_ACCESSED_MASK in let! _ := stl entry_addr entry in wret entry.

(** What the tables give: the entry of the page, where it is, the rights of the way to
    it, and the bits that must be clear. *)
Record leaf := mkLeaf {
  ptep : Z; pte : Z; pte_addr : Z; page_size : Z; rsvd_mask : Z;
}.

(** [do_check_protect]: the bits below the page. *)
Definition check_size (x : leaf) : leaf :=
  mkLeaf (ptep x) (pte x) (pte_addr x) (page_size x)
    (Z.lor (rsvd_mask x) (Z.land (Z.land (page_size x - 1) PG_ADDRESS_MASK) (not64 PG_PSE_PAT_MASK))).

Section Tables.
(** The tables of the guest are read through the nested ones and the A20 gate; the
    nested tables directly. *)
Variable hphys : Z -> W Z.
Variable a20 : Z.

Definition walk_pml4 (addr rsvd_mask pml5e ptep : Z) : W (leaf + Z * Z) :=
  let! pml4e_addr := hphys (Z.land (u64 (Z.land pml5e PG_ADDRESS_MASK + Z.shiftl (Z.land (Z.shiftr addr 39) 0x1ff) 3)) a20) in
  let! pml4e := ldq pml4e_addr in
  let! _ := goto_if (negb (ztrue (Z.land pml4e PG_PRESENT_MASK))) do_fault in
  let! _ := goto_if (ztrue (Z.land pml4e (Z.lor rsvd_mask PG_PSE_MASK))) do_fault_rsvd in
  let! pml4e := mark pml4e_addr pml4e in
  let ptep := Z.land ptep (Z.lxor pml4e PG_NX_MASK) in
  let! pdpe_addr := hphys (Z.land (u64 (Z.land pml4e PG_ADDRESS_MASK + Z.shiftl (Z.land (Z.shiftr addr 30) 0x1ff) 3)) a20) in
  let! pdpe := ldq pdpe_addr in
  let! _ := goto_if (negb (ztrue (Z.land pdpe PG_PRESENT_MASK))) do_fault in
  let! _ := goto_if (ztrue (Z.land pdpe rsvd_mask)) do_fault_rsvd in
  let ptep := Z.land ptep (Z.lxor pdpe PG_NX_MASK) in
  let! pdpe := mark pdpe_addr pdpe in
  if ztrue (Z.land pdpe PG_PSE_MASK) then wret (inl (check_size (mkLeaf ptep pdpe pdpe_addr (1024 * 1024 * 1024) rsvd_mask)))
  else wret (inr (pdpe, ptep)).

Definition walk_pd (addr rsvd_mask pdpe ptep : Z) : W leaf :=
  let! pde_addr := hphys (Z.land (u64 (Z.land pdpe PG_ADDRESS_MASK + Z.shiftl (Z.land (Z.shiftr addr 21) 0x1ff) 3)) a20) in
  let! pde := ldq pde_addr in
  let! _ := goto_if (negb (ztrue (Z.land pde PG_PRESENT_MASK))) do_fault in
  let! _ := goto_if (ztrue (Z.land pde rsvd_mask)) do_fault_rsvd in
  let ptep := Z.land ptep (Z.lxor pde PG_NX_MASK) in
  if ztrue (Z.land pde PG_PSE_MASK) then wret (check_size (mkLeaf ptep pde pde_addr (2048 * 1024) rsvd_mask))
  else
    let! pde := mark pde_addr pde in
    let! pte_addr := hphys (Z.land (u64 (Z.land pde PG_ADDRESS_MASK + Z.shiftl (Z.land (Z.shiftr addr 12) 0x1ff) 3)) a20) in
    let! pte := ldq pte_addr in
    let! _ := goto_if (negb (ztrue (Z.land pte PG_PRESENT_MASK))) do_fault in
    let! _ := goto_if (ztrue (Z.land pte rsvd_mask)) do_fault_rsvd in
    wret (check_size (mkLeaf (Z.land ptep (Z.lxor pte PG_NX_MASK)) pte pte_addr 4096 rsvd_mask)).

(** PAE: the directory pointers. *)
Definition walk_pdpt (addr rsvd_mask cr3 : Z) : W leaf :=
  let! pdpe_addr := hphys (Z.land (u64 (Z.land cr3 (not64 0x1f) + Z.land (Z.shiftr addr 27) 0x18)) a20) in
  let! pdpe := ldq pdpe_addr in
  let! _ := goto_if (negb (ztrue (Z.land pdpe PG_PRESENT_MASK))) do_fault in
  let rsvd_mask := Z.lor rsvd_mask PG_HI_USER_MASK in
  let! _ := goto_if (ztrue (Z.land pdpe (Z.lor rsvd_mask PG_NX_MASK))) do_fault_rsvd in
  walk_pd addr rsvd_mask pdpe (Z.lor (Z.lor PG_NX_MASK PG_USER_MASK) PG_RW_MASK).

(** Two levels of 32-bit entries. *)
Definition walk_legacy (addr cr3 cr4 : Z) : W leaf :=
  let! pde_addr := hphys (Z.land (u64 (Z.land cr3 (not64 0xfff) + Z.land (Z.shiftr addr 20) 0xffc)) a20) in
  let! pde := ldl pde_addr in
  let! _ := goto_if (negb (ztrue (Z.land pde PG_PRESENT_MASK))) do_fault in
  let ptep := Z.lor pde PG_NX_MASK in
  if ztrue (Z.land pde PG_PSE_MASK) && ztrue (Z.land cr4 CR4_PSE_MASK) then
    wret (mkLeaf ptep (Z.lor pde (Z.shiftl (Z.land pde 0x1fe000) (32 - 13))) pde_addr (4096 * 1024) 0x200000)
  else
    let! pde := mark pde_addr pde in
    let! pte_addr := hphys (Z.land (u64 (Z.land pde (not32 0xfff) + Z.land (Z.shiftr addr 10) 0xffc)) a20) in
    let! pte := ldl pte_addr in
    let! _ := goto_if (negb (ztrue (Z.land pte PG_PRESENT_MASK))) do_fault in
    wret (check_size (mkLeaf (Z.land ptep (Z.lor pte PG_NX_MASK)) pte pte_addr 4096 0)).
End Tables.

Definition rights_all : Z := Z.lor (Z.lor PG_NX_MASK PG_USER_MASK) PG_RW_MASK.

(** ** Nested paging *)

(** [prot]: None is the null pointer of a table access. *)
Definition get_hphys_walk (env : CPUX86State) (gphys : Z) (access_type : MMUAccessType) (prot : option Z) : W (Z * option Z) :=
  let all := not64 0 in
  let rsvd := if ztrue (Z.land (nested_pg_mode env) SVM_NPT_NXE) then PG_HI_RSVD_MASK else Z.lor PG_HI_RSVD_MASK PG_NX_MASK in
  let! x :=
    if ztrue (Z.land (nested_pg_mode env) SVM_NPT_PAE) then
      if ztrue (Z.land (nested_pg_mode env) SVM_NPT_LMA) then
        let! y := walk_pml4 wret all gphys rsvd (nested_cr3 env) rights_all in
        match y with
        | inl x => wret x
        | inr (pdpe, ptep) => walk_pd wret all gphys rsvd pdpe ptep
        end
      else walk_pdpt wret all gphys rsvd (nested_cr3 env)
    else walk_legacy wret all gphys (nested_cr3 env) (cr4 env) in
  let! _ := goto_if (ztrue (Z.land (pte x) (rsvd_mask x))) do_fault_rsvd in
  let ptep := Z.lxor (ptep x) PG_NX_MASK in
  let! _ := goto_if (negb (ztrue (Z.land ptep PG_USER_MASK))) do_fault_protect in
  let drop (bit : Z) (prot : option Z) : W (option Z) :=
    match prot with
    | Some v => wret (Some (Z.land v (not32 bit)))
    | None => fun p => Stop (Crash "null prot") p
    end in
  let! prot :=
    if ztrue (Z.land ptep PG_NX_MASK) then
      let! _ := goto_if (access_code access_type =? 2) do_fault_protect in drop PAGE_EXEC prot
    else wret prot in
  let! prot :=
    if negb (ztrue (Z.land ptep PG_RW_MASK)) then
      let! _ := goto_if (access_code access_type =? 1) do_fault_protect in drop PAGE_WRITE prot
    else wret prot in
  let pte := Z.land (pte x) (Z.land PG_ADDRESS_MASK (not64 (page_size x - 1))) in
  let page_offset := u32 (Z.land gphys (page_size x - 1)) in
  wret (u64 (pte + page_offset), prot).

Definition exit_info (l : label) (access_type : MMUAccessType) (prot : option Z) : Z :=
  let info := match l with
              | do_fault_rsvd => Z.lor SVM_NPTEXIT_RSVD SVM_NPTEXIT_P
              | do_fault_protect => SVM_NPTEXIT_P
              | do_fault => 0
              end in
  let info := Z.lor info SVM_NPTEXIT_US in
  let info := match access_type with
              | MMU_DATA_STORE => Z.lor info SVM_NPTEXIT_RW
              | MMU_INST_FETCH => Z.lor info SVM_NPTEXIT_ID
              | MMU_DATA_LOAD => info
              end in
  Z.lor info (match prot with Some _ => SVM_NPTEXIT_GPA | None => SVM_NPTEXIT_GPT end).

Definition get_hphys (env : CPUX86State) (gphys : Z) (access_type : MMUAccessType) (prot : option Z) : W (Z * option Z) :=
  if negb (ztrue (Z.land (hflags2 env) HF2_NPT_MASK)) then wret (gphys, prot)
  else fun p =>
    match get_hphys_walk env gphys access_type prot p with
    | Stop (Goto l _) p => Stop (Vmexit (exit_info l access_type prot)) (x86_stq_phys (u64 (vm_vmcb env + EXIT_INFO_2)) gphys p)
    | r => r
    end.

(** ** The walk *)

Definition sign_extended (la57 : bool) (addr : Z) : bool :=
  let sext := Z.shiftr (s64 addr) (if la57 then 56 else 47) in (sext =? 0) || (sext =? -1).

(** The tables, in long mode after the test of the address. *)
Definition walk_tables (env : CPUX86State) (addr : Z) : W leaf :=
  let a20 := u64 (x86_get_a20_mask env) in
  let hphys a := let! r := get_hphys env a MMU_DATA_STORE None in wret r.1 in
  let rsvd_mask := if ztrue (Z.land (efer env) MSR_EFER_NXE) then PG_HI_RSVD_MASK else Z.lor PG_HI_RSVD_MASK PG_NX_MASK in
  if ztrue (Z.land (cr4 env) CR4_PAE_MASK) then
    if ztrue (Z.land (hflags env) HF_LMA_MASK) then
      let! top :=
        if ztrue (Z.land (cr4 env) CR4_LA57_MASK) then
          let! pml5e_addr := hphys (Z.land (u64 (Z.land (cr3 env) (not64 0xfff) + Z.shiftl (Z.land (Z.shiftr addr 48) 0x1ff) 3)) a20) in
          let! pml5e := ldq pml5e_addr in
          let! _ := goto_if (negb (ztrue (Z.land pml5e PG_PRESENT_MASK))) do_fault in
          let! _ := goto_if (ztrue (Z.land pml5e (Z.lor rsvd_mask PG_PSE_MASK))) do_fault_rsvd in
          let! pml5e := mark pml5e_addr pml5e in
          wret (pml5e, Z.lxor pml5e PG_NX_MASK)
        else wret (cr3 env, rights_all) in
      let '(pml5e, ptep) := top in
      let! y := walk_pml4 hphys a20 addr rsvd_mask pml5e ptep in
      match y with
      | inl x => wret x
      | inr (pdpe, ptep) => walk_pd hphys a20 addr rsvd_mask pdpe ptep
      end
    else walk_pdpt hphys a20 addr rsvd_mask (cr3 env)
  else walk_legacy hphys a20 addr (cr3 env) (cr4 env).

(** The rights of the access: protection keys last. *)
Definition page_prot (env : CPUX86State) (mmu_idx ptep : Z) : Z :=
  let is_user := mmu_idx =? MMU_USER_IDX in
  let user_page := ztrue (Z.land ptep PG_USER_MASK) in
  let prot :=
    if negb (mmu_idx =? MMU_KSMAP_IDX) || negb user_page then
      Z.lor PAGE_READ (if ztrue (Z.land ptep PG_RW_MASK) || (negb is_user && negb (ztrue (Z.land (cr0 env) CR0_WP_MASK))) then PAGE_WRITE else 0)
    else 0 in
  if negb (ztrue (Z.land ptep PG_NX_MASK)) && (is_user || negb (ztrue (Z.land (cr4 env) CR4_SMEP_MASK) && user_page)) then Z.lor prot PAGE_EXEC else prot.

Definition pkru_prot (env : CPUX86State) (is_user : bool) (pte : Z) : Z :=
  let pk := Z.shiftr (Z.land pte PG_PKRU_MASK) PG_PKRU_BIT in
  let pkru_ad := Z.land (Z.shiftr (pkru env) (pk * 2)) 1 in
  let pkru_wd := Z.land (Z.shiftr (pkru env) (pk * 2)) 2 in
  let all := Z.lor (Z.lor PAGE_READ PAGE_WRITE) PAGE_EXEC in
  if ztrue pkru_ad then Z.land all (not32 (Z.lor PAGE_READ PAGE_WRITE))
  else if ztrue pkru_wd && (is_user || ztrue (Z.land (cr0 env) CR0_WP_MASK)) then Z.land all (not32 PAGE_WRITE)
  else all.

(** From [do_check_protect_pse36]: the entry and the rights with which the page is
    entered. *)
Definition check_protect (env : CPUX86State) (is_write1 mmu_idx : Z) (x : leaf) : W (Z * Z) :=
  let is_user := mmu_idx =? MMU_USER_IDX in
  let is_write := ztrue (Z.land is_write1 1) in
  let bit := Z.shiftl 1 is_write1 in
  let! _ := goto_if (ztrue (Z.land (pte x) (rsvd_mask x))) do_fault_rsvd in
  let ptep := Z.lxor (ptep x) PG_NX_MASK in
  let! _ := goto_if (is_user && negb (ztrue (Z.land ptep PG_USER_MASK))) do_fault_protect in
  let prot := page_prot env mmu_idx ptep in
  let! prot :=
    if ztrue (Z.land (cr4 env) CR4_PKE_MASK) && ztrue (Z.land (hflags env) HF_LMA_MASK) && ztrue (Z.land ptep PG_USER_MASK) && ztrue (pkru env) then
      let keys := pkru_prot env is_user (pte x) in
      let prot := Z.land prot keys in
      if Z.land keys bit =? 0 then
        let! _ := wassert (negb (is_write1 =? 2)) "is_write1 != 2" in fun p => Stop (Goto do_fault_protect PG_ERROR_PK_MASK) p
      else wret prot
    else wret prot in
  let! _ := goto_if (Z.land prot bit =? 0) do_fault_protect in
  let is_dirty := is_write && negb (ztrue (Z.land (pte x) PG_DIRTY_MASK)) in
  let! pte :=
    if negb (ztrue (Z.land (pte x) PG_ACCESSED_MASK)) || is_dirty then
      let pte := Z.lor (pte x) PG_ACCESSED_MASK in
      let pte := if is_dirty then Z.lor pte PG_DIRTY_MASK else pte in
      let! _ := stl (pte_addr x) pte in wret pte
    else wret (pte x) in
  if negb (ztrue (Z.land pte PG_DIRTY_MASK)) then
    let! _ := wassert (negb is_write) "!is_write" in wret (pte, Z.land prot (not32 PAGE_WRITE))
  else wret (pte, prot).

(** The arguments of [tlb_set_page_with_attrs]. *)
Record mapping := mkMap { map_vaddr : Z; map_paddr : Z; map_prot : Z; map_size : Z }.

Definition do_mapping (env : CPUX86State) (addr : Z) (access_type : MMUAccessType) (pte prot page_size : Z) : W mapping :=
  let pte := Z.land pte (u64 (x86_get_a20_mask env)) in
  let pte := Z.land pte (Z.land PG_ADDRESS_MASK (not64 (page_size - 1))) in
  let page_offset := u32 (Z.land addr (page_size - 1)) in
  let! r := get_hphys env (u64 (pte + page_offset)) access_type (Some prot) in
  let prot := default 0 r.2 in
  let! _ := wassert (ztrue (Z.land prot (Z.shiftl 1 (access_code access_type)))) "prot" in
  wret (mkMap (Z.land addr TARGET_PAGE_MASK) (Z.land r.1 TARGET_PAGE_MASK) prot page_size).

Definition mmu_walk (env : CPUX86State) (addr : Z) (access_type : MMUAccessType) (mmu_idx : Z) : W mapping :=
  if negb (ztrue (Z.land (cr0 env) CR0_PG_MASK)) then
    let pte := if ztrue (Z.land (hflags env) HF_LMA_MASK) then addr else u32 addr in
    do_mapping env addr access_type pte (Z.lor (Z.lor PAGE_READ PAGE_WRITE) PAGE_EXEC) 4096
  else
    let! x := walk_tables env addr in
    let! r := check_protect env (access_code access_type) mmu_idx x in
    do_mapping env addr access_type r.1 r.2 (page_size x).

(** The error code at a label. *)
Definition fault_code (env : CPUX86State) (access_type : MMUAccessType) (mmu_idx : Z) (l : label) (code : Z) : Z :=
  let code := match l with
              | do_fault_rsvd => Z.lor (Z.lor code PG_ERROR_RSVD_MASK) PG_ERROR_P_MASK
              | do_fault_protect => Z.lor code PG_ERROR_P_MASK
              | do_fault => code
              end in
  let code := Z.lor code (Z.shiftl (Z.land (access_code access_type) 1) PG_ERROR_W_BIT) in
  let code := if mmu_idx =? MMU_USER_IDX then Z.lor code PG_ERROR_U_MASK else code in
  if (access_code access_type =? 2) &&
     ((ztrue (Z.land (efer env) MSR_EFER_NXE) && ztrue (Z.land (cr4 env) CR4_PAE_MASK)) || ztrue (Z.land (cr4 env) CR4_SMEP_MASK))
  then Z.lor code PG_ERROR_I_D_MASK else code.

(** Mapped, or an exception to raise. *)
Inductive mmu_result := Mapped (x : mapping) | Raise (env : CPUX86State).

Definition handle_mmu_fault (env : CPUX86State) (addr : Z) (access_type : MMUAccessType) (mmu_idx : Z) : W mmu_result :=
  if ztrue (Z.land (cr0 env) CR0_PG_MASK) && ztrue (Z.land (cr4 env) CR4_PAE_MASK) && ztrue (Z.land (hflags env) HF_LMA_MASK)
     && negb (sign_extended (ztrue (Z.land (cr4 env) CR4_LA57_MASK)) addr) then
    wret (Raise (env <| error_code := 0 |> <| exception_index := EXCP0D_GPF |>))
  else fun p =>
    match mmu_walk env addr access_type mmu_idx p with
    | Go x p => Go (Mapped x) p
    | Stop (Goto l code) p =>
        let env1 := env <| error_code := fault_code env access_type mmu_idx l code |> <| exception_index := EXCP0E_PAGE |> in
        if ztrue (Z.land (intercept_exceptions env) (Z.shiftl 1 EXCP0E_PAGE)) then
          Go (Raise env1) (x86_stq_phys (u64 (vm_vmcb env + EXIT_INFO_2)) addr p)
        else Go (Raise (env1 <| cr2 := addr |>)) p
    | Stop w p => Stop w p
    end.

(** ** The walk of the debugger *)

(** None: -1. *)
Definition x86_cpu_get_phys_page_attrs_debug (env : CPUX86State) (addr : Z) (p : P) : option Z :=
  let a20 := u64 (x86_get_a20_mask env) in
  let out pte page_size :=
    Some (Z.lor (Z.land pte (Z.land PG_ADDRESS_MASK (not64 (page_size - 1)))) (u32 (Z.land (Z.land addr TARGET_PAGE_MASK) (page_size - 1)))) in
  let present e := ztrue (Z.land e PG_PRESENT_MASK) in
  if negb (ztrue (Z.land (cr0 env) CR0_PG_MASK)) then out (Z.land addr a20) 4096
  else if ztrue (Z.land (cr4 env) CR4_PAE_MASK) then
    let pd pdpe :=
      let pde := x86_ldq_phys (Z.land (u64 (Z.land pdpe PG_ADDRESS_MASK + Z.shiftl (Z.land (Z.shiftr addr 21) 0x1ff) 3)) a20) p in
      if negb (present pde) then None
      else if ztrue (Z.land pde PG_PSE_MASK) then if present pde then out pde (2048 * 1024) else None
      else
        let pte := x86_ldq_phys (Z.land (u64 (Z.land pde PG_ADDRESS_MASK + Z.shiftl (Z.land (Z.shiftr addr 12) 0x1ff) 3)) a20) p in
        if present pte then out pte 4096 else None in
    if ztrue (Z.land (hflags env) HF_LMA_MASK) then
      let la57 := ztrue (Z.land (cr4 env) CR4_LA57_MASK) in
      if negb (sign_extended la57 addr) then None
      else
        let pml5e := if la57 then x86_ldq_phys (Z.land (u64 (Z.land (cr3 env) (not64 0xfff) + Z.shiftl (Z.land (Z.shiftr addr 48) 0x1ff) 3)) a20) p else cr3 env in
        if la57 && negb (present pml5e) then None
        else
          let pml4e := x86_ldq_phys (Z.land (u64 (Z.land pml5e PG_ADDRESS_MASK + Z.shiftl (Z.land (Z.shiftr addr 39) 0x1ff) 3)) a20) p in
          if negb (present pml4e) then None
          else
            let pdpe := x86_ldq_phys (Z.land (u64 (Z.land pml4e PG_ADDRESS_MASK + Z.shiftl (Z.land (Z.shiftr addr 30) 0x1ff) 3)) a20) p in
            if negb (present pdpe) then None
            else if ztrue (Z.land pdpe PG_PSE_MASK) then out pdpe (1024 * 1024 * 1024)
            else pd pdpe
    else
      let pdpe := x86_ldq_phys (Z.land (u64 (Z.land (cr3 env) (not64 0x1f) + Z.land (Z.shiftr addr 27) 0x18)) a20) p in
      if present pdpe then pd pdpe else None
  else
    let pde := x86_ldl_phys (Z.land (u64 (Z.land (cr3 env) (not64 0xfff) + Z.land (Z.shiftr addr 20) 0xffc)) a20) p in
    if negb (present pde) then None
    else if ztrue (Z.land pde PG_PSE_MASK) && ztrue (Z.land (cr4 env) CR4_PSE_MASK) then
      out (Z.land (Z.lor pde (Z.shiftl (Z.land pde 0x1fe000) (32 - 13))) a20) (4096 * 1024)
    else
      let pte := x86_ldl_phys (Z.land (u64 (Z.land pde (not32 0xfff) + Z.land (Z.shiftr addr 10) 0xffc)) a20) p in
      if present pte then out (Z.land pte a20) 4096 else None.
End Walk.

(** ** Filling the TLB *)
Section Fill.
Context {IO D : Type}.
(** Guest-physical memory in that of the host, and [tlb_set_page_with_attrs]. *)
Variable x86_ldq_phys : Z -> (Z -> Z) -> Z.
Variable x86_ldl_phys : Z -> (Z -> Z) -> Z.
Variable x86_stl_phys_notdirty : Z -> Z -> (Z -> Z) -> Z -> Z.
Variable x86_stq_phys : Z -> Z -> (Z -> Z) -> Z -> Z.
Variable tlb_set_page_with_attrs : CPUTLB -> Z -> Z -> Z -> Z -> Z -> Z -> cres CPUTLB.
Local Open Scope c_scope.

(** It does not return when there is an exception to raise. *)
Definition x86_cpu_tlb_fill (cpu : CPUX86State) (addr size : Z) (access_type : MMUAccessType) (mmu_idx : Z) (s : env IO D) : cres (env IO D) :=
  match handle_mmu_fault x86_ldq_phys x86_ldl_phys x86_stl_phys_notdirty x86_stq_phys cpu addr access_type mmu_idx (ram s) with
  | Go (Mapped x) r =>
      let* t := tlb_set_page_with_attrs (tlb s) (map_vaddr x) (map_paddr x) (cpu_get_mem_attrs cpu) (map_prot x) mmu_idx (map_size x) in
      Ret (s <| tlb := t |> <| ram := r |>)
  | Go (Raise _) _ => Abort "raise_exception_err_ra"
  | Stop (Vmexit _) _ => Abort "cpu_vmexit"
  | Stop _ _ => Abort "abort"
  end.
End Fill.
End X86Walk.
