(* ===== verification/X86WalkSpec.v ===== *)
(** * The page walk of x86: what it finds

    In long mode the unrolled walk of [X86Walk] is that of a radix tree of four or five
    levels, written here as a recursion over the levels, with the rights of all entries on
    the way; memory changes only in accessed and dirty bits. *)

From S2P Require Import Prelude SoftTlb SoftMmu SoftMmuBytes X86Walk.
Import SoftTlb SoftMmu SoftMmuBytes X86Walk.
Local Open Scope Z_scope.
Local Open Scope walk_scope.

Module X86WalkSpec.

(** ** Bits *)

Lemma ztrue_lor x a b : ztrue (Z.land x (Z.lor a b)) = ztrue (Z.land x a) || ztrue (Z.land x b).
Proof.
  rewrite Z.land_lor_distr_r. unfold ztrue. destruct (Z.eqb_spec (Z.land x a) 0) as [->|Ha].
  - by rewrite Z.lor_0_l.
  - cbn. destruct (Z.eqb_spec (Z.lor (Z.land x a) (Z.land x b)) 0) as [E|]; [|done]. apply Z.lor_eq_0_iff in E. tauto.
Qed.

Lemma land_field x lo n : 0 <= lo -> 0 <= n -> Z.land x (Z.shiftl (Z.ones n) lo) = ((x / 2 ^ lo) mod 2 ^ n) * 2 ^ lo.
Proof.
  intros Hl Hn. rewrite <- Z.shiftr_div_pow2, <- Z.land_ones, <- Z.shiftl_mul_pow2 by lia. apply Z.bits_inj'. intros k Hk.
  rewrite Z.land_spec, !Z.shiftl_spec, Z.land_spec by lia. destruct (Z.lt_ge_cases k lo).
  - rewrite !(Z.testbit_neg_r _ (k - lo)) by lia. by rewrite andb_false_r.
  - rewrite Z.shiftr_spec by lia. by replace (k - lo + lo) with k by lia.
Qed.

Lemma ztrue_field x lo n : 0 <= lo -> 0 <= n -> ztrue (Z.land x (Z.shiftl (Z.ones n) lo)) = negb ((x / 2 ^ lo) mod 2 ^ n =? 0).
Proof.
  intros Hl Hn. rewrite land_field by done. unfold ztrue. f_equal. pose proof (Z.pow_pos_nonneg 2 lo).
  destruct (Z.eqb_spec ((x / 2 ^ lo) mod 2 ^ n) 0) as [->|]; [done|]. apply Z.eqb_neq. nia.
Qed.

Lemma lor_low k n o : 0 <= n -> 0 <= o < 2 ^ n -> Z.lor (k * 2 ^ n) o = k * 2 ^ n + o.
Proof.
  intros Hn Ho. symmetry. apply Z.add_nocarry_lor. apply Z.bits_inj'. intros j Hj. rewrite Z.land_spec, Z.bits_0.
  destruct (Z.lt_ge_cases j n); [by rewrite Z.mul_pow2_bits_low by lia|by rewrite (testbit_small o n j), andb_false_r by lia].
Qed.

(** Accessed and dirty bits. *)
Definition AD : Z := Z.lor PG_ACCESSED_MASK PG_DIRTY_MASK.
Definition clear_ad (e : Z) : Z := Z.ldiff e AD.

Lemma clear_bit e k : 0 <= k -> k <> 5 -> k <> 6 -> Z.testbit (clear_ad e) k = Z.testbit e k.
Proof.
  intros Hk H5 H6. unfold clear_ad. rewrite Z.ldiff_spec. change AD with (Z.lor (2 ^ 5) (2 ^ 6)). rewrite Z.lor_spec, !Z.pow2_bits_eqb by lia.
  destruct (Z.eqb_spec 5 k), (Z.eqb_spec 6 k); try lia. by rewrite andb_true_r.
Qed.

Lemma clear_div e k : 7 <= k -> clear_ad e / 2 ^ k = e / 2 ^ k.
Proof.
  intros Hk. rewrite <- !Z.shiftr_div_pow2 by lia. apply Z.bits_inj'. intros j Hj. rewrite !Z.shiftr_spec by lia. apply clear_bit; lia.
Qed.

Lemma clear_lor e flags : Z.ldiff flags AD = 0 -> clear_ad (Z.lor e flags) = clear_ad e.
Proof.
  intros Hf. unfold clear_ad. apply Z.bits_inj'. intros k Hk.
  assert (Z.testbit (Z.ldiff flags AD) k = false) as Hb by (rewrite Hf; apply Z.bits_0). rewrite Z.ldiff_spec in *. rewrite Z.ldiff_spec, Z.lor_spec.
  destruct (Z.testbit flags k), (Z.testbit e k), (Z.testbit AD k); done.
Qed.

(** ** Tables in memory *)

(** Memory that holds tables: marking an entry changes that entry, and other entries only if
    they are the same memory. *)
Class TableMemory {P : Type} (x86_ldq_phys : Z -> P -> Z) (x86_stl_phys_notdirty : Z -> Z -> P -> P) := {
  entry : Z -> bool;
  wf : P -> Prop;
  ldq_range a p : wf p -> entry a = true -> 0 <= x86_ldq_phys a p < 2 ^ 64;
  mark_wf a p flags : wf p -> entry a = true -> Z.ldiff flags AD = 0 -> wf (x86_stl_phys_notdirty a (u32 (Z.lor (x86_ldq_phys a p) flags)) p);
  mark_same a p flags : wf p -> entry a = true -> Z.ldiff flags AD = 0 ->
    x86_ldq_phys a (x86_stl_phys_notdirty a (u32 (Z.lor (x86_ldq_phys a p) flags)) p) = Z.lor (x86_ldq_phys a p) flags;
  mark_other a b p flags : wf p -> entry a = true -> entry b = true -> Z.ldiff flags AD = 0 ->
    let q := x86_stl_phys_notdirty a (u32 (Z.lor (x86_ldq_phys a p) flags)) p in
    x86_ldq_phys b q = x86_ldq_phys b p \/ x86_ldq_phys b q = Z.lor (x86_ldq_phys b p) flags;
}.

(** ** The radix tree *)

Record rights := mkRights { r_user : bool; r_write : bool; r_exec : bool }.
Definition with_entry (r : rights) (e : Z) : rights :=
  mkRights (r_user r && Z.testbit e 2) (r_write r && Z.testbit e 1) (r_exec r && negb (Z.testbit e 63)).

(** The table or page an entry points to. *)
Definition frame (e : Z) : Z := (e / 2 ^ 12) mod 2 ^ 40 * 2 ^ 12.
Definition slot (table sh addr : Z) : Z := table + (addr / 2 ^ sh) mod 512 * 8.

Inductive found := Missing | Reserved | Found (sh a e : Z) (r : rights).

Section Radix.
Context {P : Type} (ldq : Z -> P -> Z).

(** Bits beyond the physical addresses, the bit of no execution when it is off, large pages
    where there are none. *)
Definition reserved (nxe : bool) (sh e : Z) : bool :=
  negb ((e / 2 ^ 40) mod 2 ^ 12 =? 0) || (negb nxe && Z.testbit e 63) || ((39 <=? sh) && Z.testbit e 7).

Fixpoint radix (nxe : bool) (shifts : list Z) (table : Z) (r : rights) (addr : Z) (p : P) : found :=
  match shifts with
  | [] => Missing
  | sh :: shifts =>
      let a := slot table sh addr in
      let e := clear_ad (ldq a p) in
      if negb (Z.testbit e 0) then Missing
      else if reserved nxe sh e then Reserved
      else if (sh =? 12) || Z.testbit e 7 then Found sh a e (with_entry r e)
      else radix nxe shifts (frame e) (with_entry r e) addr p
  end.

(** The entries that are read. *)
Fixpoint path (nxe : bool) (shifts : list Z) (table addr : Z) (p : P) : list Z :=
  match shifts with
  | [] => []
  | sh :: shifts =>
      let a := slot table sh addr in
      let e := clear_ad (ldq a p) in
      a :: (if negb (Z.testbit e 0) || reserved nxe sh e || (sh =? 12) || Z.testbit e 7 then [] else path nxe shifts (frame e) addr p)
  end.

Lemma radix_cons nxe sh shifts table r addr p (a := slot table sh addr) (e := clear_ad (ldq a p)) :
  radix nxe (sh :: shifts) table r addr p =
  if negb (Z.testbit e 0) then Missing else if reserved nxe sh e then Reserved
  else if (sh =? 12) || Z.testbit e 7 then Found sh a e (with_entry r e) else radix nxe shifts (frame e) (with_entry r e) addr p.
Proof. done. Qed.

Lemma path_cons nxe sh shifts table addr p (a := slot table sh addr) (e := clear_ad (ldq a p)) :
  path nxe (sh :: shifts) table addr p =
  a :: (if negb (Z.testbit e 0) || reserved nxe sh e || (sh =? 12) || Z.testbit e 7 then [] else path nxe shifts (frame e) addr p).
Proof. done. Qed.
End Radix.

(** ** Masks as bits *)

Definition rsvd (nxe : bool) : Z := if nxe then PG_HI_RSVD_MASK else Z.lor PG_HI_RSVD_MASK PG_NX_MASK.

Lemma present_bit e : ztrue (Z.land e PG_PRESENT_MASK) = Z.testbit (clear_ad e) 0.
Proof. rewrite clear_bit by lia. by apply (ztrue_land_pow2 e 0). Qed.

Lemma pse_bit e : ztrue (Z.land e PG_PSE_MASK) = Z.testbit (clear_ad e) 7.
Proof. rewrite clear_bit by lia. by apply (ztrue_land_pow2 e 7). Qed.

Lemma rsvd_bits nxe sh e : (39 <=? sh) = false -> ztrue (Z.land e (rsvd nxe)) = reserved nxe sh (clear_ad e).
Proof.
  intros Hs. unfold reserved. rewrite Hs, orb_false_r, clear_div, clear_bit by lia.
  assert (ztrue (Z.land e PG_HI_RSVD_MASK) = negb ((e / 2 ^ 40) mod 2 ^ 12 =? 0)) as E by (apply (ztrue_field e 40 12); lia).
  unfold rsvd. destruct nxe; cbn [negb andb]; [by rewrite orb_false_r|]. rewrite ztrue_lor, E. f_equal. by apply (ztrue_land_pow2 e 63).
Qed.

Lemma rsvd_bits_top nxe sh e : (39 <=? sh) = true -> ztrue (Z.land e (Z.lor (rsvd nxe) PG_PSE_MASK)) = reserved nxe sh (clear_ad e).
Proof.
  intros Hs. rewrite ztrue_lor, (rsvd_bits nxe 0), pse_bit by done. unfold reserved. rewrite Hs. cbn [andb]. by rewrite orb_false_r.
Qed.

Lemma frame_mask e : Z.land e PG_ADDRESS_MASK = frame (clear_ad e).
Proof. unfold frame. rewrite clear_div by lia. apply (land_field e 12 40); lia. Qed.

Lemma frame_range e : 0 <= frame e /\ frame e + 4096 <= 2 ^ 52.
Proof. unfold frame. pose proof (Z.mod_pos_bound (e / 2 ^ 12) (2 ^ 40)). change (2 ^ 52) with (2 ^ 40 * 2 ^ 12). lia. Qed.

Lemma slot_addr table sh addr :
  0 <= sh -> 0 <= table -> table + 4096 <= 2 ^ 52 ->
  Z.land (u64 (table + Z.shiftl (Z.land (Z.shiftr addr sh) 0x1ff) 3)) (u64 (-1)) = slot table sh addr.
Proof.
  intros Hs Ht Ht2. change 0x1ff with (Z.ones 9). rewrite Z.land_ones, Z.shiftr_div_pow2, Z.shiftl_mul_pow2 by lia.
  fold (slot table sh addr). change (2 ^ 9) with 512. change (2 ^ 3) with 8. fold (slot table sh addr). pose proof (Z.mod_pos_bound (addr / 2 ^ sh) 512) as Hb.
  assert (0 <= slot table sh addr < 2 ^ 64) as Hr by (unfold slot; lia). change (u64 (-1)) with (Z.ones 64).
  rewrite Z.land_ones by lia. unfold u64. rewrite Z.mod_mod, Z.mod_small by lia. done.
Qed.

Definition has_rights (ptep : Z) (r : rights) : Prop := Z.testbit ptep 2 = r_user r /\ Z.testbit ptep 1 = r_write r /\ Z.testbit ptep 63 = r_exec r.

Lemma has_rights_entry ptep r e : has_rights ptep r -> has_rights (Z.land ptep (Z.lxor e PG_NX_MASK)) (with_entry r (clear_ad e)).
Proof.
  intros (H1 & H2 & H3). unfold has_rights, with_entry. cbn [r_user r_write r_exec]. rewrite !Z.land_spec, !Z.lxor_spec, H1, H2, H3, !clear_bit by lia.
  change (Z.testbit PG_NX_MASK 2) with false. change (Z.testbit PG_NX_MASK 1) with false. change (Z.testbit PG_NX_MASK 63) with true.
  by rewrite !xorb_false_r, xorb_true_r.
Qed.

(** ** What the page allows *)

Record page_rights := mkPage { p_read : bool; p_write : bool; p_exec : bool }.
Definition page_allows (access_type : MMUAccessType) (x : page_rights) : bool :=
  match access_type with
  | MMU_DATA_LOAD => p_read x
  | MMU_DATA_STORE => p_write x
  | MMU_INST_FETCH => p_exec x
  end.

(** Supervisor-mode access prevention keeps mode 0 off user pages, write protection keeps the
    kernel off read-only pages, supervisor-mode execution prevention off user code. *)
Definition base_rights (env : CPUX86State) (m : Z) (r : rights) : page_rights :=
  let user := m =? MMU_USER_IDX in
  let rd := negb (m =? MMU_KSMAP_IDX) || negb (r_user r) in
  mkPage rd (rd && (r_write r || (negb user && negb (Z.testbit (cr0 env) 16)))) (r_exec r && (user || negb (Z.testbit (cr4 env) 20 && r_user r))).

(** Protection keys: bits of access and of writing. *)
Definition keys_on (env : CPUX86State) (r : rights) : bool :=
  Z.testbit (cr4 env) 22 && Z.testbit (hflags env) 14 && r_user r && negb (pkru env =? 0).
Definition key_rights (env : CPUX86State) (m e : Z) : page_rights :=
  let pk := (e / 2 ^ 59) mod 16 in
  let ad := Z.testbit (pkru env) (pk * 2) in
  let wd := Z.testbit (pkru env) (pk * 2 + 1) && ((m =? MMU_USER_IDX) || Z.testbit (cr0 env) 16) in
  mkPage (negb ad) (negb ad && negb wd) true.

Definition both (x y : page_rights) : page_rights := mkPage (p_read x && p_read y) (p_write x && p_write y) (p_exec x && p_exec y).

(** The page at the end of a walk, or why there is none. *)
Inductive outcome := Page (sh e : Z) (x : page_rights) | Fault (l : label) (code : Z).

(** Bits of a large page below its frame, but for bit 12. *)
Definition leaf_reserved (sh e : Z) : bool := (13 <=? sh) && negb ((e / 2 ^ 13) mod 2 ^ (sh - 13) =? 0).

Definition judge (env : CPUX86State) (access_type : MMUAccessType) (m : Z) (w : found) : outcome :=
  match w with
  | Missing => Fault do_fault 0
  | Reserved => Fault do_fault_rsvd 0
  | Found sh a e r =>
      if leaf_reserved sh e then Fault do_fault_rsvd 0
      else if (m =? MMU_USER_IDX) && negb (r_user r) then Fault do_fault_protect 0
      else if keys_on env r && negb (page_allows access_type (key_rights env m e)) then Fault do_fault_protect PG_ERROR_PK_MASK
      else
        let x := if keys_on env r then both (base_rights env m r) (key_rights env m e) else base_rights env m r in
        if page_allows access_type x then Page sh e x else Fault do_fault_protect 0
  end.

(** ** Rights as bits *)

Definition pbits (x : page_rights) : Z := Z.lor (Z.lor (if p_read x then PAGE_READ else 0) (if p_write x then PAGE_WRITE else 0)) (if p_exec x then PAGE_EXEC else 0).

Lemma pbits_both x y : Z.land (pbits x) (pbits y) = pbits (both x y).
Proof. by destruct x as [[] [] []], y as [[] [] []]. Qed.

Lemma pbits_allows access_type x : (Z.land (pbits x) (Z.shiftl 1 (access_code access_type)) =? 0) = negb (page_allows access_type x).
Proof. by destruct access_type, x as [[] [] []]. Qed.

Lemma pbits_no_write x : Z.land (pbits x) (not32 PAGE_WRITE) = pbits (mkPage (p_read x) false (p_exec x)).
Proof. by destruct x as [[] [] []]. Qed.

Lemma page_prot_bits env m ptep r :
  has_rights ptep r -> page_prot env m (Z.lxor ptep PG_NX_MASK) = pbits (base_rights env m r).
Proof.
  intros (Hu & Hwr & Hx). unfold page_prot, base_rights.
  assert (ztrue (Z.land (Z.lxor ptep PG_NX_MASK) PG_USER_MASK) = r_user r) as ->.
  { rewrite <- Hu. etransitivity; [by apply (ztrue_land_pow2 _ 2)|]. rewrite Z.lxor_spec. apply xorb_false_r. }
  assert (ztrue (Z.land (Z.lxor ptep PG_NX_MASK) PG_RW_MASK) = r_write r) as ->.
  { rewrite <- Hwr. etransitivity; [by apply (ztrue_land_pow2 _ 1)|]. rewrite Z.lxor_spec. apply xorb_false_r. }
  assert (ztrue (Z.land (Z.lxor ptep PG_NX_MASK) PG_NX_MASK) = negb (r_exec r)) as ->.
  { rewrite <- Hx. etransitivity; [by apply (ztrue_land_pow2 _ 63)|]. rewrite Z.lxor_spec. apply xorb_true_r. }
  assert (ztrue (Z.land (cr0 env) CR0_WP_MASK) = Z.testbit (cr0 env) 16) as -> by (by apply (ztrue_land_pow2 _ 16)).
  assert (ztrue (Z.land (cr4 env) CR4_SMEP_MASK) = Z.testbit (cr4 env) 20) as -> by (by apply (ztrue_land_pow2 _ 20)).
  destruct r as [u w x]. cbn [r_user r_write r_exec]. unfold pbits. cbn [p_read p_write p_exec]. rewrite negb_involutive.
  by destruct (m =? MMU_KSMAP_IDX), u, w, x, (m =? MMU_USER_IDX), (Z.testbit (cr0 env) 16), (Z.testbit (cr4 env) 20).
Qed.

Lemma pkru_prot_bits env m v e :
  clear_ad v = e -> pkru_prot env (m =? MMU_USER_IDX) v = pbits (key_rights env m e).
Proof.
  intros <-. unfold pkru_prot, key_rights.
  assert (Z.shiftr (Z.land v PG_PKRU_MASK) PG_PKRU_BIT = (clear_ad v / 2 ^ 59) mod 16) as ->.
  { rewrite clear_div by lia. change PG_PKRU_MASK with (Z.shiftl (Z.ones 4) 59). rewrite land_field, Z.shiftr_div_pow2 by (unfold PG_PKRU_BIT; lia).
    unfold PG_PKRU_BIT. rewrite Z.div_mul by lia. done. }
  set (k := (clear_ad v / 2 ^ 59) mod 16). assert (0 <= k) as Hk by (apply Z.mod_pos_bound; lia).
  assert (ztrue (Z.land (Z.shiftr (pkru env) (k * 2)) 1) = Z.testbit (pkru env) (k * 2)) as ->.
  { etransitivity; [by apply (ztrue_land_pow2 _ 0)|]. by rewrite Z.shiftr_spec, Z.add_0_l by lia. }
  assert (ztrue (Z.land (Z.shiftr (pkru env) (k * 2)) 2) = Z.testbit (pkru env) (k * 2 + 1)) as ->.
  { etransitivity; [by apply (ztrue_land_pow2 _ 1)|]. rewrite Z.shiftr_spec by lia. f_equal. lia. }
  assert (ztrue (Z.land (cr0 env) CR0_WP_MASK) = Z.testbit (cr0 env) 16) as -> by (by apply (ztrue_land_pow2 _ 16)).
  by destruct (Z.testbit (pkru env) (k * 2)), (Z.testbit (pkru env) (k * 2 + 1)), (m =? MMU_USER_IDX), (Z.testbit (cr0 env) 16).
Qed.

Lemma leaf_mask sh v e :
  clear_ad v = e -> sh = 12 \/ sh = 21 \/ sh = 30 ->
  ztrue (Z.land v (Z.land (Z.land (2 ^ sh - 1) PG_ADDRESS_MASK) (not64 PG_PSE_PAT_MASK))) = leaf_reserved sh e.
Proof.
  intros <- Hs. unfold leaf_reserved. rewrite clear_div by lia. destruct Hs as [->|[->| ->]].
  - change (Z.land (Z.land (2 ^ 12 - 1) PG_ADDRESS_MASK) (not64 PG_PSE_PAT_MASK)) with 0. by rewrite Z.land_0_r.
  - change (Z.land (Z.land (2 ^ 21 - 1) PG_ADDRESS_MASK) (not64 PG_PSE_PAT_MASK)) with (Z.shiftl (Z.ones 8) 13). by rewrite ztrue_field by lia.
  - change (Z.land (Z.land (2 ^ 30 - 1) PG_ADDRESS_MASK) (not64 PG_PSE_PAT_MASK)) with (Z.shiftl (Z.ones 17) 13). by rewrite ztrue_field by lia.
Qed.

(** ** The unrolled walk *)
Section Unrolled.
Context {P : Type} (x86_ldq_phys : Z -> P -> Z) (x86_ldl_phys : Z -> P -> Z) (x86_stl_phys_notdirty : Z -> Z -> P -> P) (x86_stq_phys : Z -> Z -> P -> P).
Context {mem : TableMemory x86_ldq_phys x86_stl_phys_notdirty}.
Local Abbreviation rd := x86_ldq_phys.
Local Abbreviation W := (walker P).

(** Memory with more accessed and dirty bits. *)
Definition marked (p q : P) : Prop := wf q /\ forall a, entry a = true -> clear_ad (rd a q) = clear_ad (rd a p).

Lemma marked_refl p : wf p -> marked p p.
Proof. by split. Qed.

Lemma marked_trans p q u : marked p q -> marked q u -> marked p u.
Proof. intros [_ H1] [W H2]. split; [done|]. intros a Ha. by rewrite H2, H1. Qed.

Lemma mark_marked a p flags :
  wf p -> entry a = true -> Z.ldiff flags AD = 0 -> marked p (x86_stl_phys_notdirty a (u32 (Z.lor (rd a p) flags)) p).
Proof.
  intros Hw Ha Hf. split; [by apply mark_wf|]. intros b Hb. destruct (mark_other a b p flags) as [-> | ->]; [done..|]. by apply clear_lor.
Qed.

Lemma mark_spec a p :
  wf p -> entry a = true ->
  exists q, mark x86_stl_phys_notdirty a (rd a p) p = Go (rd a q) q /\ marked p q.
Proof.
  intros Hw Ha. unfold mark. destruct (ztrue _); [by exists p|]. unfold wbind, stl, wret.
  exists (x86_stl_phys_notdirty a (u32 (Z.lor (rd a p) PG_ACCESSED_MASK)) p). split; [by rewrite mark_same|by apply mark_marked].
Qed.

Lemma radix_marked nxe shifts : forall table r addr p q,
  marked p q -> Forall (fun a => entry a = true) (path rd nxe shifts table addr p) ->
  radix rd nxe shifts table r addr q = radix rd nxe shifts table r addr p /\ path rd nxe shifts table addr q = path rd nxe shifts table addr p.
Proof.
  induction shifts as [|sh shifts IH]; intros table r addr p q Hm Hp; [done|]. cbn [radix path] in *. apply list.Forall_cons in Hp as [Ha Hp].
  rewrite (proj2 Hm) by done. destruct (negb _); [done|]. cbn [orb] in *. destruct (reserved _ _ _); [done|]. cbn [orb] in *.
  destruct (sh =? 12); [done|]. cbn [orb] in *. destruct (Z.testbit _ 7); [done|]. destruct (IH (frame (clear_ad (rd (slot table sh addr) p)))
    (with_entry r (clear_ad (rd (slot table sh addr) p))) addr p q Hm Hp) as [-> ->]. done.
Qed.

Lemma level_spec {A} (a : Z) (mask : Z) (b : bool) (k : Z -> W A) p :
  ztrue (Z.land (rd a p) mask) = b ->
  (let! e := ldq x86_ldq_phys a in
   let! _ := goto_if (negb (ztrue (Z.land e PG_PRESENT_MASK))) do_fault in
   let! _ := goto_if (ztrue (Z.land e mask)) do_fault_rsvd in k e) p =
  if negb (Z.testbit (clear_ad (rd a p)) 0) then Stop (Goto do_fault 0) p
  else if b then Stop (Goto do_fault_rsvd 0) p else k (rd a p) p.
Proof. intros Hb. unfold wbind, ldq, goto_if. rewrite present_bit, Hb. destruct (negb _); [done|]. by destruct b. Qed.

(** The walk ends as the recursion does. *)
Definition ends_as (nxe : bool) (w : found) (res : wres P leaf) (p : P) : Prop :=
  match w with
  | Missing => exists q, res = Stop (Goto do_fault 0) q /\ marked p q
  | Reserved => exists q, res = Stop (Goto do_fault_rsvd 0) q /\ marked p q
  | Found sh a e r => exists q x, res = Go (check_size x) q /\ marked p q /\ has_rights (ptep x) r /\ pte x = rd a q /\ pte_addr x = a /\
      clear_ad (pte x) = e /\ page_size x = 2 ^ sh /\ rsvd_mask x = rsvd nxe /\ entry a = true /\ reserved nxe sh e = false /\ (sh = 12 \/ sh = 21 \/ sh = 30)
  end.

Lemma ends_marked nxe w res p q : marked p q -> ends_as nxe w res q -> ends_as nxe w res p.
Proof.
  intros Hm. destruct w; cbn.
  - intros (u & -> & H). exists u. split; [done|by eapply marked_trans].
  - intros (u & -> & H). exists u. split; [done|by eapply marked_trans].
  - intros (u & x & -> & H & Hx). exists u, x. split; [done|]. split; [by eapply marked_trans|done].
Qed.

Lemma bind_ret {A B} (a : A) (k : A -> W B) p : wbind (wret a) k p = k a p.
Proof. done. Qed.

Lemma bind_go {A B} (m : W A) (k : A -> W B) p a q : m p = Go a q -> wbind m k p = k a q.
Proof. unfold wbind. by intros ->. Qed.

Local Abbreviation entries := (Forall (fun a => entry a = true)).

Lemma walk_pte_spec nxe addr pde ptep r p :
  wf p -> has_rights ptep r -> entries (path rd nxe [12] (frame (clear_ad pde)) addr p) ->
  ends_as nxe (radix rd nxe [12] (frame (clear_ad pde)) r addr p)
    ((let! pte_addr := wret (Z.land (u64 (Z.land pde PG_ADDRESS_MASK + Z.shiftl (Z.land (Z.shiftr addr 12) 0x1ff) 3)) (u64 (-1))) in
      let! pte := ldq x86_ldq_phys pte_addr in
      let! _ := goto_if (negb (ztrue (Z.land pte PG_PRESENT_MASK))) do_fault in
      let! _ := goto_if (ztrue (Z.land pte (rsvd nxe))) do_fault_rsvd in
      wret (check_size (mkLeaf (Z.land ptep (Z.lxor pte PG_NX_MASK)) pte pte_addr 4096 (rsvd nxe)))) p) p.
Proof.
  intros Hw Hr Hp. destruct (frame_range (clear_ad pde)) as [F1 F2]. rewrite frame_mask, slot_addr, bind_ret by lia.
  set (a := slot (frame (clear_ad pde)) 12 addr) in *. rewrite path_cons in Hp. fold a in Hp. apply list.Forall_cons in Hp as [Ha _].
  rewrite (level_spec a (rsvd nxe) _ _ p (rsvd_bits nxe 12 (rd a p) eq_refl)). rewrite radix_cons. fold a. destruct (negb _); [by exists p|].
  destruct (reserved nxe 12 (clear_ad (rd a p))) eqn:Er; [by exists p|]. cbn [Z.eqb Pos.eqb orb].
  exists p, (mkLeaf (Z.land ptep (Z.lxor (rd a p) PG_NX_MASK)) (rd a p) a 4096 (rsvd nxe)). split; [done|]. split; [done|]. split; [by apply has_rights_entry|].
  by split_and!; auto.
Qed.

Lemma walk_pd_spec nxe addr pdpe ptep r p :
  wf p -> has_rights ptep r -> entries (path rd nxe [21; 12] (frame (clear_ad pdpe)) addr p) ->
  ends_as nxe (radix rd nxe [21; 12] (frame (clear_ad pdpe)) r addr p)
    (walk_pd x86_ldq_phys x86_stl_phys_notdirty wret (u64 (-1)) addr (rsvd nxe) pdpe ptep p) p.
Proof.
  intros Hw Hr Hp. unfold walk_pd. destruct (frame_range (clear_ad pdpe)) as [F1 F2]. rewrite frame_mask, slot_addr, bind_ret by lia.
  set (a := slot (frame (clear_ad pdpe)) 21 addr) in *. rewrite path_cons in Hp. fold a in Hp. apply list.Forall_cons in Hp as [Ha Hp].
  rewrite (level_spec a (rsvd nxe) _ _ p (rsvd_bits nxe 21 (rd a p) eq_refl)).
  rewrite radix_cons. fold a. change (21 =? 12) with false in *. cbn [orb].
  destruct (negb _); [by exists p|]. destruct (reserved nxe 21 (clear_ad (rd a p))) eqn:Er; [by exists p|].
  rewrite pse_bit. destruct (Z.testbit (clear_ad (rd a p)) 7).
  { exists p, (mkLeaf (Z.land ptep (Z.lxor (rd a p) PG_NX_MASK)) (rd a p) a (2048 * 1024) (rsvd nxe)). split; [done|]. split; [done|].
    split; [by apply has_rights_entry|]. by split_and!; auto. }
  cbn [orb] in Hp. destruct (mark_spec a p Hw Ha) as (q & Eq & Hm). rewrite (bind_go _ _ _ _ _ Eq).
  destruct (radix_marked nxe [12] (frame (clear_ad (rd a p))) (with_entry r (clear_ad (rd a p))) addr p q Hm Hp) as [E1 E2].
  rewrite <- E2 in Hp. rewrite <- E1. rewrite <- (proj2 Hm a Ha) in Hp |- *. eapply ends_marked; [exact Hm|]. apply walk_pte_spec; [apply Hm| |done].
  rewrite (proj2 Hm a Ha). by apply has_rights_entry.
Qed.

(** A part of the walk stops, finds a large page, or goes on to the next table. *)
Definition goes_on (nxe : bool) (shifts : list Z) (addr : Z) (w : found) (res : wres P (leaf + Z * Z)) (p : P) : Prop :=
  match res with
  | Stop s q => ends_as nxe w (Stop s q) p
  | Go (inl x) q => ends_as nxe w (Go x q) p
  | Go (inr (e, ptep)) q => exists r, marked p q /\ has_rights ptep r /\ w = radix rd nxe shifts (frame (clear_ad e)) r addr q /\
      entries (path rd nxe shifts (frame (clear_ad e)) addr q)
  end.

Lemma goes_marked nxe shifts addr w res p q : marked p q -> goes_on nxe shifts addr w res q -> goes_on nxe shifts addr w res p.
Proof.
  intros Hm. destruct res as [[x|[e ptep]] u|s u]; cbn [goes_on]; [by apply ends_marked| |by apply ends_marked].
  intros (r & H & Hx). exists r. split; [by eapply marked_trans|done].
Qed.

Lemma walk_pdpe_spec nxe addr pml4e ptep r p :
  wf p -> has_rights ptep r -> entries (path rd nxe [30; 21; 12] (frame (clear_ad pml4e)) addr p) ->
  goes_on nxe [21; 12] addr (radix rd nxe [30; 21; 12] (frame (clear_ad pml4e)) r addr p)
    ((let! pdpe_addr := wret (Z.land (u64 (Z.land pml4e PG_ADDRESS_MASK + Z.shiftl (Z.land (Z.shiftr addr 30) 0x1ff) 3)) (u64 (-1))) in
      let! pdpe := ldq x86_ldq_phys pdpe_addr in
      let! _ := goto_if (negb (ztrue (Z.land pdpe PG_PRESENT_MASK))) do_fault in
      let! _ := goto_if (ztrue (Z.land pdpe (rsvd nxe))) do_fault_rsvd in
      let ptep := Z.land ptep (Z.lxor pdpe PG_NX_MASK) in
      let! pdpe := mark x86_stl_phys_notdirty pdpe_addr pdpe in
      if ztrue (Z.land pdpe PG_PSE_MASK) then wret (inl (check_size (mkLeaf ptep pdpe pdpe_addr (1024 * 1024 * 1024) (rsvd nxe))))
      else wret (inr (pdpe, ptep))) p) p.
Proof.
  intros Hw Hr Hp. destruct (frame_range (clear_ad pml4e)) as [F1 F2]. rewrite frame_mask, slot_addr, bind_ret by lia.
  set (a := slot (frame (clear_ad pml4e)) 30 addr) in *. rewrite path_cons in Hp. fold a in Hp. apply list.Forall_cons in Hp as [Ha Hp].
  rewrite (level_spec a (rsvd nxe) _ _ p (rsvd_bits nxe 30 (rd a p) eq_refl)). rewrite radix_cons. fold a. change (30 =? 12) with false in *. cbn [orb].
  destruct (negb _); [by exists p|]. destruct (reserved nxe 30 (clear_ad (rd a p))) eqn:Er; [by exists p|]. cbv zeta.
  destruct (mark_spec a p Hw Ha) as (q & Eq & Hm). rewrite (bind_go _ _ _ _ _ Eq), pse_bit, (proj2 Hm a Ha).
  destruct (Z.testbit (clear_ad (rd a p)) 7); cbn [orb] in Hp.
  - exists q, (mkLeaf (Z.land ptep (Z.lxor (rd a p) PG_NX_MASK)) (rd a q) a (1024 * 1024 * 1024) (rsvd nxe)). split; [done|]. split; [done|].
    split; [by apply has_rights_entry|]. split_and!; auto. apply (proj2 Hm a Ha).
  - exists (with_entry r (clear_ad (rd a p))). rewrite (proj2 Hm a Ha). split; [done|]. split; [by apply has_rights_entry|].
    destruct (radix_marked nxe [21; 12] (frame (clear_ad (rd a p))) (with_entry r (clear_ad (rd a p))) addr p q Hm Hp) as [-> ->]. done.
Qed.

Lemma walk_pml4_spec nxe addr pml5e ptep r p :
  wf p -> has_rights ptep r -> entries (path rd nxe [39; 30; 21; 12] (frame (clear_ad pml5e)) addr p) ->
  goes_on nxe [21; 12] addr (radix rd nxe [39; 30; 21; 12] (frame (clear_ad pml5e)) r addr p)
    (walk_pml4 x86_ldq_phys x86_stl_phys_notdirty wret (u64 (-1)) addr (rsvd nxe) pml5e ptep p) p.
Proof.
  intros Hw Hr Hp. unfold walk_pml4. destruct (frame_range (clear_ad pml5e)) as [F1 F2]. rewrite frame_mask, slot_addr, bind_ret by lia.
  set (a := slot (frame (clear_ad pml5e)) 39 addr) in *. rewrite path_cons in Hp. fold a in Hp. apply list.Forall_cons in Hp as [Ha Hp].
  rewrite (level_spec a _ _ _ p (rsvd_bits_top nxe 39 (rd a p) eq_refl)). rewrite radix_cons. fold a. change (39 =? 12) with false in *. cbn [orb].
  destruct (negb _); [by exists p|]. destruct (reserved nxe 39 (clear_ad (rd a p))) eqn:Er; [by exists p|].
  assert (Z.testbit (clear_ad (rd a p)) 7 = false) as E7.
  { unfold reserved in Er. change (39 <=? 39) with true in Er. rewrite !orb_false_iff in Er. apply Er. }
  rewrite E7 in *. cbn [orb] in Hp. destruct (mark_spec a p Hw Ha) as (q & Eq & Hm). rewrite (bind_go _ _ _ _ _ Eq). cbv zeta.
  destruct (radix_marked nxe [30; 21; 12] (frame (clear_ad (rd a p))) (with_entry r (clear_ad (rd a p))) addr p q Hm Hp) as [E1 E2].
  rewrite <- E2 in Hp. rewrite <- E1. rewrite <- (proj2 Hm a Ha) in Hp |- *. eapply goes_marked; [exact Hm|].
  apply walk_pdpe_spec; [apply Hm|by apply has_rights_entry|done].
Qed.

(** Four levels. *)
Lemma walk4_spec nxe addr pml5e ptep r p :
  wf p -> has_rights ptep r -> entries (path rd nxe [39; 30; 21; 12] (frame (clear_ad pml5e)) addr p) ->
  ends_as nxe (radix rd nxe [39; 30; 21; 12] (frame (clear_ad pml5e)) r addr p)
    ((let! y := walk_pml4 x86_ldq_phys x86_stl_phys_notdirty wret (u64 (-1)) addr (rsvd nxe) pml5e ptep in
      match y with
      | inl x => wret x
      | inr (pdpe, ptep) => walk_pd x86_ldq_phys x86_stl_phys_notdirty wret (u64 (-1)) addr (rsvd nxe) pdpe ptep
      end) p) p.
Proof.
  intros Hw Hr Hp. pose proof (walk_pml4_spec nxe addr pml5e ptep r p Hw Hr Hp) as H. unfold wbind.
  destruct (walk_pml4 _ _ _ _ _ _ _ _ p) as [[x|[e ptep']] q|s q]; cbn [goes_on] in H; [done| |done].
  destruct H as (r' & Hm & Hr' & -> & Hp'). eapply ends_marked; [exact Hm|]. apply walk_pd_spec; [apply Hm|done..].
Qed.

(** ** Long mode *)

(** Paging in long mode, the A20 gate open, no nested paging, a canonical address. *)
Record long_mode (env : CPUX86State) : Prop := {
  lm_pg : Z.testbit (cr0 env) 31 = true;
  lm_pae : Z.testbit (cr4 env) 5 = true;
  lm_lma : Z.testbit (hflags env) 14 = true;
  lm_npt : Z.testbit (hflags2 env) 6 = false;
  lm_a20 : x86_get_a20_mask env = -1;
  lm_cr3 : 0 <= cr3 env < 2 ^ 52;
}.

Definition la57 (env : CPUX86State) : bool := Z.testbit (cr4 env) 12.
Definition nxe (env : CPUX86State) : bool := Z.testbit (efer env) 11.
Definition all_rights : rights := mkRights true true true.
Definition levels (env : CPUX86State) : list Z := if la57 env then [48; 39; 30; 21; 12] else [39; 30; 21; 12].
Definition walk_found (env : CPUX86State) (addr : Z) (p : P) : found := radix rd (nxe env) (levels env) (frame (cr3 env)) all_rights addr p.
Definition walk_path (env : CPUX86State) (addr : Z) (p : P) : list Z := path rd (nxe env) (levels env) (frame (cr3 env)) addr p.

Lemma pae_bit env : ztrue (Z.land (cr4 env) CR4_PAE_MASK) = Z.testbit (cr4 env) 5.
Proof. by apply (ztrue_land_pow2 _ 5). Qed.
Lemma lma_bit env : ztrue (Z.land (hflags env) HF_LMA_MASK) = Z.testbit (hflags env) 14.
Proof. by apply (ztrue_land_pow2 _ 14). Qed.
Lemma la57_bit env : ztrue (Z.land (cr4 env) CR4_LA57_MASK) = la57 env.
Proof. by apply (ztrue_land_pow2 _ 12). Qed.
Lemma npt_bit env : ztrue (Z.land (hflags2 env) HF2_NPT_MASK) = Z.testbit (hflags2 env) 6.
Proof. by apply (ztrue_land_pow2 _ 6). Qed.
Lemma nxe_bit env : ztrue (Z.land (efer env) MSR_EFER_NXE) = nxe env.
Proof. by apply (ztrue_land_pow2 _ 11). Qed.

Lemma frame_clear e : frame (clear_ad e) = frame e.
Proof. unfold frame. by rewrite clear_div by lia. Qed.

Lemma frame_cr3 c : 0 <= c < 2 ^ 52 -> Z.land c (not64 0xfff) = frame c.
Proof.
  intros Hc. rewrite <- frame_clear, <- frame_mask. apply Z.bits_inj'. intros k Hk. rewrite !Z.land_spec.
  destruct (Z.lt_ge_cases k 52); [|rewrite (testbit_small c 52 k) by lia; cbn [andb]; reflexivity].
  assert (not64 0xfff = Z.lor PG_ADDRESS_MASK (Z.shiftl (Z.ones 12) 52)) as -> by (vm_compute; reflexivity).
  by rewrite Z.lor_spec, Z.shiftl_spec, (Z.testbit_neg_r _ (k - 52)), orb_false_r by lia.
Qed.

Lemma bind_pml5 {A} nxe a (k : Z * Z -> W A) p :
  (let! top := (let! pml5e_addr := wret a in
     let! pml5e := ldq x86_ldq_phys pml5e_addr in
     let! _ := goto_if (negb (ztrue (Z.land pml5e PG_PRESENT_MASK))) do_fault in
     let! _ := goto_if (ztrue (Z.land pml5e (Z.lor (rsvd nxe) PG_PSE_MASK))) do_fault_rsvd in
     let! pml5e := mark x86_stl_phys_notdirty pml5e_addr pml5e in
     wret (pml5e, Z.lxor pml5e PG_NX_MASK)) in k top) p =
  if negb (Z.testbit (clear_ad (rd a p)) 0) then Stop (Goto do_fault 0) p
  else if reserved nxe 48 (clear_ad (rd a p)) then Stop (Goto do_fault_rsvd 0) p
  else match mark x86_stl_phys_notdirty a (rd a p) p with
       | Go e q => k (e, Z.lxor e PG_NX_MASK) q
       | Stop s q => Stop s q
       end.
Proof.
  unfold wbind at 1. rewrite bind_ret, (level_spec a _ _ _ p (rsvd_bits_top nxe 48 (rd a p) eq_refl)).
  destruct (negb _); [done|]. destruct (reserved _ _ _); [done|]. unfold wbind. by destruct (mark _ _ _ _).
Qed.

Lemma reserved_pse nxe sh e : reserved nxe sh e = false -> (39 <=? sh) = true -> Z.testbit e 7 = false.
Proof. unfold reserved. intros Er Hs. rewrite Hs, !orb_false_iff in Er. apply Er. Qed.

Lemma walk_tables_spec env addr p :
  long_mode env -> wf p -> entries (walk_path env addr p) ->
  ends_as (nxe env) (walk_found env addr p) (walk_tables x86_ldq_phys x86_ldl_phys x86_stl_phys_notdirty x86_stq_phys env addr p) p.
Proof.
  intros [Hpg Hpae Hlma Hnpt Ha20 Hcr3] Hw Hp. unfold walk_tables, get_hphys, walk_found, walk_path, levels in *. rewrite Ha20.
  rewrite pae_bit, lma_bit, la57_bit, npt_bit, nxe_bit, Hpae, Hlma, Hnpt. fold (rsvd (nxe env)). cbn [negb].
  change (fun a => let! r := wret (a, None) in wret r.1) with (@wret P Z). destruct (la57 env); [|].
  2:{ rewrite bind_ret, <- frame_clear. apply walk4_spec; [done..|]. by rewrite frame_clear. }
  match goal with |- context [wbind (wret (?x, None)) (fun r => wret r.1)] => change (wbind (wret (x, None)) (fun r => wret r.1)) with (@wret P Z x) end.
  destruct (frame_range (cr3 env)) as [F1 F2]. rewrite frame_cr3, slot_addr by (done || lia).
  set (a := slot (frame (cr3 env)) 48 addr) in *. rewrite path_cons in Hp. fold a in Hp. apply list.Forall_cons in Hp as [Ha Hp].
  change (48 =? 12) with false in Hp. rewrite (bind_pml5 (nxe env) a) by done. rewrite radix_cons. fold a. change (48 =? 12) with false. cbn [orb].
  destruct (negb _); [by exists p|]. destruct (reserved (nxe env) 48 (clear_ad (rd a p))) eqn:Er; [by exists p|]. rewrite (reserved_pse _ _ _ Er eq_refl) in *.
  cbn [orb] in Hp. destruct (mark_spec a p Hw Ha) as (q & Eq & Hm). rewrite Eq.
  destruct (radix_marked (nxe env) [39; 30; 21; 12] (frame (clear_ad (rd a p))) (with_entry all_rights (clear_ad (rd a p))) addr p q Hm Hp) as [E1 E2].
  rewrite <- E2 in Hp. rewrite <- E1. rewrite <- (proj2 Hm a Ha) in Hp |- *. eapply ends_marked; [exact Hm|].
  apply walk4_spec; [apply Hm| |done]. unfold has_rights, with_entry. cbn [all_rights r_user r_write r_exec andb]. rewrite !Z.lxor_spec, !clear_bit by lia.
  change (Z.testbit PG_NX_MASK 2) with false. change (Z.testbit PG_NX_MASK 1) with false. change (Z.testbit PG_NX_MASK 63) with true.
  by rewrite !xorb_false_r, xorb_true_r.
Qed.

(** ** Rights and marks of the page *)

Local Abbreviation check := (check_protect x86_stl_phys_notdirty).

(** The rights with which the page is entered: writing only once the page is dirty. *)
Definition entered (x : page_rights) (dirty : bool) : page_rights := mkPage (p_read x) (p_write x && dirty) (p_exec x).

(** The last part: the marks, and the right to write. *)
Definition finish (access_type : MMUAccessType) (x : leaf) (prot : Z) : W (Z * Z) :=
  let is_write := ztrue (Z.land (access_code access_type) 1) in
  let is_dirty := is_write && negb (ztrue (Z.land (pte x) PG_DIRTY_MASK)) in
  let! pte :=
    if negb (ztrue (Z.land (pte x) PG_ACCESSED_MASK)) || is_dirty then
      let pte := Z.lor (pte x) PG_ACCESSED_MASK in
      let pte := if is_dirty then Z.lor pte PG_DIRTY_MASK else pte in
      let! _ := stl x86_stl_phys_notdirty (pte_addr x) pte in wret pte
    else wret (pte x) in
  if negb (ztrue (Z.land pte PG_DIRTY_MASK)) then
    let! _ := wassert (negb is_write) "!is_write" in wret (pte, Z.land prot (not32 PAGE_WRITE))
  else wret (pte, prot).

Lemma dirty_bit v : ztrue (Z.land v PG_DIRTY_MASK) = Z.testbit v 6.
Proof. by apply (ztrue_land_pow2 v 6). Qed.

Lemma finish_spec access_type x pr a p :
  wf p -> entry a = true -> pte x = rd a p -> pte_addr x = a ->
  exists q, finish access_type x (pbits pr) p = Go (rd a q, pbits (entered pr (Z.testbit (rd a q) 6))) q /\ marked p q /\
  (access_type = MMU_DATA_STORE -> Z.testbit (rd a q) 6 = true).
Proof.
  intros Hw Ha Hpte Hpa. unfold finish. rewrite Hpte, Hpa, dirty_bit.
  set (w := ztrue (Z.land (access_code access_type) 1)). set (dirty := w && negb (Z.testbit (rd a p) 6)).
  assert (exists q, (if negb (ztrue (Z.land (rd a p) PG_ACCESSED_MASK)) || dirty then
      let pte := Z.lor (rd a p) PG_ACCESSED_MASK in let pte := if dirty then Z.lor pte PG_DIRTY_MASK else pte in
      let! _ := stl x86_stl_phys_notdirty a pte in wret pte else wret (rd a p)) p = Go (rd a q) q /\ marked p q /\ (w = true -> Z.testbit (rd a q) 6 = true))
    as (q & Eq & Hm & Hd).
  { destruct (negb (ztrue _) || dirty) eqn:Eo.
    - set (flags := if dirty then Z.lor PG_ACCESSED_MASK PG_DIRTY_MASK else PG_ACCESSED_MASK).
      assert (Z.ldiff flags AD = 0) as Hf by (by unfold flags; destruct dirty).
      exists (x86_stl_phys_notdirty a (u32 (Z.lor (rd a p) flags)) p). split_and!; [|by apply mark_marked|].
      + rewrite mark_same by done. unfold flags. cbv zeta. destruct dirty; [|done]. by rewrite Z.lor_assoc.
      + intros Hwt. rewrite mark_same, Z.lor_spec by done. unfold flags, dirty. rewrite Hwt. cbn [andb]. destruct (Z.testbit (rd a p) 6); [done|]. cbn [negb]. done.
    - exists p. split_and!; [done..|by split|]. intros Hwt. apply orb_false_iff in Eo as [_ Eo]. unfold dirty in Eo. rewrite Hwt in Eo. cbn [andb] in Eo.
      by apply negb_false_iff in Eo. }
  exists q. rewrite (bind_go _ _ _ _ _ Eq). rewrite dirty_bit. split_and!; [|done|by intros ->; apply Hd].
  unfold entered. destruct (Z.testbit (rd a q) 6) eqn:E6; cbn [negb].
  - rewrite andb_true_r. by destruct pr.
  - rewrite andb_false_r, <- pbits_no_write. destruct w; [by specialize (Hd eq_refl)|done].
Qed.

Lemma bind_goto {A} (b : bool) l (k : unit -> W A) p : wbind (goto_if b l) k p = if b then Stop (Goto l 0) p else k tt p.
Proof. unfold wbind, goto_if. by destruct b. Qed.

(** The checks come out as the reference says. *)
Lemma check_protect_spec env access_type m x n sh a e r p :
  wf p -> has_rights (ptep x) r -> pte x = rd a p -> pte_addr x = a -> clear_ad (pte x) = e -> page_size x = 2 ^ sh ->
  rsvd_mask x = rsvd n -> entry a = true -> reserved n sh e = false -> sh = 12 \/ sh = 21 \/ sh = 30 ->
  match judge env access_type m (Found sh a e r) with
  | Fault l code => check env (access_code access_type) m (check_size x) p = Stop (Goto l code) p
  | Page _ _ pr => exists q, check env (access_code access_type) m (check_size x) p = Go (rd a q, pbits (entered pr (Z.testbit (rd a q) 6))) q /\
      marked p q /\ (access_type = MMU_DATA_STORE -> Z.testbit (rd a q) 6 = true)
  end.
Proof.
  intros Hw Hr Hpte Hpa He Hsz Hrs Ha Hres Hsh. unfold check_protect, judge. rewrite bind_goto. unfold check_size. cbn [ptep pte pte_addr rsvd_mask].
  rewrite ztrue_lor, Hsz, Hrs, (leaf_mask sh _ e He Hsh), (rsvd_bits n sh), He, Hres by (destruct Hsh as [->|[->| ->]]; done). cbn [orb].
  destruct (leaf_reserved sh e); [done|]. rewrite bind_goto.
  assert (ztrue (Z.land (Z.lxor (ptep x) PG_NX_MASK) PG_USER_MASK) = r_user r) as ->.
  { rewrite <- (proj1 Hr). etransitivity; [by apply (ztrue_land_pow2 _ 2)|]. rewrite Z.lxor_spec. apply xorb_false_r. }
  destruct ((m =? MMU_USER_IDX) && negb (r_user r)); [done|]. rewrite (page_prot_bits _ _ _ _ Hr), (pkru_prot_bits env m _ e He), lma_bit.
  assert (ztrue (Z.land (cr4 env) CR4_PKE_MASK) = Z.testbit (cr4 env) 22) as -> by (by apply (ztrue_land_pow2 _ 22)).
  fold (keys_on env r). assert (ztrue (pkru env) = negb (pkru env =? 0)) as -> by done. fold (keys_on env r).
  assert (forall pr, match (if page_allows access_type pr then Page sh e pr else Fault do_fault_protect 0) with
    | Fault l code => (let! _ := goto_if (Z.land (pbits pr) (Z.shiftl 1 (access_code access_type)) =? 0) do_fault_protect in finish access_type x (pbits pr)) p = Stop (Goto l code) p
    | Page _ _ pr' => exists q, (let! _ := goto_if (Z.land (pbits pr) (Z.shiftl 1 (access_code access_type)) =? 0) do_fault_protect in finish access_type x (pbits pr)) p =
        Go (rd a q, pbits (entered pr' (Z.testbit (rd a q) 6))) q /\ marked p q /\ (access_type = MMU_DATA_STORE -> Z.testbit (rd a q) 6 = true)
    end) as Hfin.
  { intros pr. destruct (page_allows access_type pr) eqn:Ep.
    - destruct (finish_spec access_type x pr a p) as (q & Eq & Hq); [done..|]. exists q. split; [|exact Hq]. by rewrite bind_goto, pbits_allows, Ep.
    - by rewrite bind_goto, pbits_allows, Ep. }
  destruct (keys_on env r); cbn [andb].
  - rewrite pbits_allows, pbits_both. destruct (page_allows access_type (key_rights env m e)) eqn:Ek; cbn [negb]; [exact (Hfin _)|].
    by destruct access_type.
  - exact (Hfin _).
Qed.

(** ** The whole walk *)

(** The physical address behind an entry of a page of [2 ^ sh] bytes. *)
Definition page_addr (sh e addr : Z) : Z := (e / 2 ^ sh) mod 2 ^ (52 - sh) * 2 ^ sh + addr mod 2 ^ sh.

Lemma page_addr_range sh e addr : 0 <= sh <= 52 -> 0 <= page_addr sh e addr < 2 ^ 52.
Proof.
  intros Hs. unfold page_addr. pose proof (Z.mod_pos_bound (e / 2 ^ sh) (2 ^ (52 - sh))). pose proof (Z.mod_pos_bound addr (2 ^ sh)).
  pose proof (Z.pow_pos_nonneg 2 sh). pose proof (Z.pow_pos_nonneg 2 (52 - sh)).
  replace (2 ^ 52) with (2 ^ (52 - sh) * 2 ^ sh) by (rewrite <- Z.pow_add_r by lia; f_equal; lia). nia.
Qed.

Lemma do_mapping_spec env addr access_type v sh e pr p :
  long_mode env -> clear_ad v = e -> sh = 12 \/ sh = 21 \/ sh = 30 -> page_allows access_type pr = true ->
  do_mapping x86_ldq_phys x86_ldl_phys x86_stl_phys_notdirty x86_stq_phys env addr access_type v (pbits pr) (2 ^ sh) p =
  Go (mkMap (page_of addr) (page_of (page_addr sh e addr)) (pbits pr) (2 ^ sh)) p.
Proof.
  intros [_ _ _ Hnpt Ha20 _] <- Hsh Hal. unfold do_mapping, get_hphys. rewrite Ha20, npt_bit, Hnpt. cbn [negb]. rewrite bind_ret. cbn [fst snd default].
  assert (u64 (Z.land (Z.land v (u64 (-1))) (Z.land PG_ADDRESS_MASK (not64 (2 ^ sh - 1))) + u32 (Z.land addr (2 ^ sh - 1))) = page_addr sh (clear_ad v) addr) as ->.
  { replace (2 ^ sh - 1) with (Z.ones sh) at 2 by (rewrite Z.ones_equiv; lia). rewrite Z.land_ones by lia.
    assert (Z.land (u64 (-1)) (Z.land PG_ADDRESS_MASK (not64 (2 ^ sh - 1))) = Z.shiftl (Z.ones (52 - sh)) sh) as E by (by destruct Hsh as [->|[->| ->]]).
    rewrite <- Z.land_assoc, E, land_field by lia.
    assert (u32 (addr mod 2 ^ sh) = addr mod 2 ^ sh) as ->.
    { apply Z.mod_small. pose proof (Z.mod_pos_bound addr (2 ^ sh)). pose proof (Z.pow_le_mono_r 2 sh 32). lia. }
    rewrite <- (clear_div v sh) by lia. fold (page_addr sh (clear_ad v) addr). apply Z.mod_small. pose proof (page_addr_range sh (clear_ad v) addr). lia. }
  unfold wassert, wbind, wret. cbn [default from_option id]. unfold ztrue. rewrite pbits_allows, Hal. done.
Qed.

(** The bits of the error code: the page is there, the access writes, comes from user mode, met
    a reserved bit, fetches an instruction, was refused by its key. *)
Definition error_bits (env : CPUX86State) (access_type : MMUAccessType) (m : Z) (l : label) (code : Z) : Z :=
  b2z (match l with do_fault => false | _ => true end) + 2 * b2z (match access_type with MMU_DATA_STORE => true | _ => false end)
  + 4 * b2z (m =? MMU_USER_IDX) + 8 * b2z (match l with do_fault_rsvd => true | _ => false end)
  + 16 * b2z (match access_type with MMU_INST_FETCH => nxe env && Z.testbit (cr4 env) 5 || Z.testbit (cr4 env) 20 | _ => false end) + code.

Lemma fault_code_bits env access_type m l code :
  code = 0 \/ code = PG_ERROR_PK_MASK -> fault_code env access_type m l code = error_bits env access_type m l code.
Proof.
  intros Hc. unfold fault_code, error_bits. rewrite nxe_bit, pae_bit.
  assert (ztrue (Z.land (cr4 env) CR4_SMEP_MASK) = Z.testbit (cr4 env) 20) as -> by (by apply (ztrue_land_pow2 _ 20)).
  destruct Hc as [-> | ->], l, access_type, (m =? MMU_USER_IDX), (nxe env), (Z.testbit (cr4 env) 5), (Z.testbit (cr4 env) 20); done.
Qed.

Local Abbreviation handle := (handle_mmu_fault x86_ldq_phys x86_ldl_phys x86_stl_phys_notdirty x86_stq_phys).

Lemma judge_page env access_type m w sh e pr :
  judge env access_type m w = Page sh e pr -> page_allows access_type pr = true /\ exists a r, w = Found sh a e r.
Proof.
  unfold judge. destruct w as [| |sh' a e' r]; [done..|].
  destruct (leaf_reserved _ _), ((m =? MMU_USER_IDX) && negb (r_user r)), (keys_on env r); cbn [andb]; try done.
  - destruct (negb _); [done|]. destruct (page_allows access_type (both _ _)) eqn:Ep; [|done]. intros [= -> -> <-]. by eauto.
  - destruct (page_allows access_type (base_rights _ _ _)) eqn:Ep; [|done]. intros [= -> -> <-]. by eauto.
Qed.

Lemma judge_code env access_type m w l code : judge env access_type m w = Fault l code -> code = 0 \/ code = PG_ERROR_PK_MASK.
Proof.
  unfold judge. destruct w as [| |sh' a e' r]; [intros [= _ <-]; auto..|]. destruct (leaf_reserved _ _); [intros [= _ <-]; auto|].
  destruct ((m =? MMU_USER_IDX) && negb (r_user r)); [intros [= _ <-]; auto|]. destruct (keys_on env r && negb _); [intros [= _ <-]; auto|]. destruct (page_allows _ _); [done|]. intros [= _ <-]. auto.
Qed.

Lemma mmu_walk_spec env addr access_type m p :
  long_mode env -> wf p -> entries (walk_path env addr p) ->
  exists q, marked p q /\
  match judge env access_type m (walk_found env addr p) with
  | Page sh e pr => exists d, mmu_walk x86_ldq_phys x86_ldl_phys x86_stl_phys_notdirty x86_stq_phys env addr access_type m p =
      Go (mkMap (page_of addr) (page_of (page_addr sh e addr)) (pbits (entered pr d)) (2 ^ sh)) q /\ (access_type = MMU_DATA_STORE -> d = true)
  | Fault l code => mmu_walk x86_ldq_phys x86_ldl_phys x86_stl_phys_notdirty x86_stq_phys env addr access_type m p = Stop (Goto l code) q
  end.
Proof.
  intros Hlm Hw Hp. unfold mmu_walk. assert (ztrue (Z.land (cr0 env) CR0_PG_MASK) = true) as -> by (etransitivity; [by apply (ztrue_land_pow2 _ 31)|apply Hlm]).
  cbn [negb]. pose proof (walk_tables_spec env addr p Hlm Hw Hp) as H. destruct (walk_found env addr p) as [| |sh a e r] eqn:Ef; cbn [ends_as] in H.
  - destruct H as (q & E & Hm). exists q. split; [done|]. cbn [judge]. unfold wbind. by rewrite E.
  - destruct H as (q & E & Hm). exists q. split; [done|]. cbn [judge]. unfold wbind. by rewrite E.
  - destruct H as (q & x & E & Hm & Hr & Hpte & Hpa & He & Hsz & Hrs & Ha & Hres & Hsh).
    pose proof (check_protect_spec env access_type m x (nxe env) sh a e r q (proj1 Hm) Hr Hpte Hpa He Hsz Hrs Ha Hres Hsh) as Hc.
    rewrite (bind_go _ _ _ _ _ E). destruct (judge env access_type m (Found sh a e r)) as [sh' e' pr|l code] eqn:Ej.
    + destruct Hc as (u & Ec & Hmu & Hd). exists u. split; [by eapply marked_trans|]. destruct (judge_page _ _ _ _ _ _ _ Ej) as (Hal & a' & r' & [= <- <- <- <-]).
      exists (Z.testbit (rd a u) 6). split; [|done]. rewrite (bind_go _ _ _ _ _ Ec). cbn [fst snd]. change (page_size (check_size x)) with (page_size x). rewrite Hsz.
      apply do_mapping_spec; [done| |done|].
      * rewrite (proj2 Hmu a Ha), <- Hpte. done.
      * destruct access_type; try done. cbn in *. by rewrite Hal, Hd.
    + exists q. split; [done|]. unfold wbind. by rewrite Hc.
Qed.

(** C6: in long mode, with four or five levels, [handle_mmu_fault] is the walk of a radix tree: the
    page it enters is the one the recursion over the levels finds, at the physical address the
    entry and the offset give, with the rights of all entries on the way, the mode, the
    control bits and the protection key, and the right to write only once the page is
    marked dirty; otherwise it raises a page fault at the address with the error code that
    says why.  Memory changes only in the accessed and dirty bits of tables. *)
Theorem x86_walk_is_radix env addr access_type m p :
  long_mode env -> sign_extended (la57 env) addr = true -> wf p -> entries (walk_path env addr p) ->
  exists q, marked p q /\
  match judge env access_type m (walk_found env addr p) with
  | Page sh e pr => exists d,
      handle env addr access_type m p = Go (Mapped (mkMap (page_of addr) (page_of (page_addr sh e addr)) (pbits (entered pr d)) (2 ^ sh))) q /\
      (access_type = MMU_DATA_STORE -> d = true)
  | Fault l code => Z.testbit (intercept_exceptions env) 14 = false ->
      handle env addr access_type m p = Go (Raise (env <| error_code := error_bits env access_type m l code |> <| exception_index := 14 |> <| cr2 := addr |>)) q
  end.
Proof.
  intros Hlm Hs Hw Hp. destruct (mmu_walk_spec env addr access_type m p Hlm Hw Hp) as (q & Hm & H). exists q. split; [done|].
  unfold handle_mmu_fault. rewrite la57_bit, Hs, andb_false_r. destruct (judge env access_type m (walk_found env addr p)) as [sh e pr|l code] eqn:Ej.
  - destruct H as (d & -> & Hd). by exists d.
  - intros Hi. rewrite H. assert (ztrue (Z.land (intercept_exceptions env) (Z.shiftl 1 EXCP0E_PAGE)) = false) as ->.
    { rewrite <- Hi. by apply (ztrue_land_pow2 _ 14). }
    by rewrite fault_code_bits by (by eapply judge_code).
Qed.

(** ** The debugger *)

Lemma debug_out sh v e addr :
  clear_ad v = e -> 0 <= addr < 2 ^ 64 -> sh = 12 \/ sh = 21 \/ sh = 30 ->
  Z.lor (Z.land v (Z.land PG_ADDRESS_MASK (not64 (2 ^ sh - 1)))) (u32 (Z.land (Z.land addr TARGET_PAGE_MASK) (2 ^ sh - 1))) = page_of (page_addr sh e addr).
Proof.
  intros <- Ha Hsh. fold (page_of addr). replace (2 ^ sh - 1) with (Z.ones sh) at 2 by (rewrite Z.ones_equiv; lia). rewrite Z.land_ones by lia.
  assert (Z.land PG_ADDRESS_MASK (not64 (2 ^ sh - 1)) = Z.shiftl (Z.ones (52 - sh)) sh) as -> by (by destruct Hsh as [->|[->| ->]]).
  rewrite land_field, <- (clear_div v sh) by lia. pose proof (page_addr_range sh (clear_ad v) addr) as Hr.
  rewrite (proj2 (page_offset (page_addr sh (clear_ad v) addr) ltac:(lia))), (proj2 (page_offset addr Ha)).
  assert (0 <= (addr - addr mod 4096) mod 2 ^ sh < 2 ^ sh) as Hb by (apply Z.mod_pos_bound; lia).
  assert (u32 ((addr - addr mod 4096) mod 2 ^ sh) = (addr - addr mod 4096) mod 2 ^ sh) as ->.
  { apply Z.mod_small. pose proof (Z.pow_le_mono_r 2 sh 32). lia. }
  rewrite lor_low by lia. unfold page_addr. set (k := (clear_ad v / 2 ^ sh) mod 2 ^ (52 - sh)). clearbody k. clear - Hsh Ha.
  destruct Hsh as [->|[->| ->]]; [change (2 ^ 12) with 4096|change (2 ^ 21) with 2097152|change (2 ^ 30) with 1073741824]; mlia.
Qed.

Lemma found_page n shifts : forall table r addr p sh a e r',
  radix rd n shifts table r addr p = Found sh a e r' -> Forall (fun s => s = 48 \/ s = 39 \/ s = 30 \/ s = 21 \/ s = 12) shifts -> sh = 12 \/ sh = 21 \/ sh = 30.
Proof.
  induction shifts as [|s shifts IH]; intros table r addr p sh a e r'; [done|]. rewrite radix_cons. intros E Hl. apply list.Forall_cons in Hl as [Hs Hl].
  destruct (negb _); [done|]. destruct (reserved n s _) eqn:Er; [done|]. destruct ((s =? 12) || _) eqn:Ep; [|by eapply IH]. injection E as <- _ _ _.
  destruct Hs as [->|[->|[->|[->| ->]]]]; auto; (rewrite (reserved_pse _ _ _ Er eq_refl) in Ep; done).
Qed.

(** One level of a walk that finds a page. *)
Lemma radix_found n sh shifts table r addr p sh' a' e' r' (a := slot table sh addr) :
  radix rd n (sh :: shifts) table r addr p = Found sh' a' e' r' ->
  ztrue (Z.land (rd a p) PG_PRESENT_MASK) = true /\
  (if (sh =? 12) || ztrue (Z.land (rd a p) PG_PSE_MASK) then sh' = sh /\ e' = clear_ad (rd a p) else radix rd n shifts (frame (rd a p)) (with_entry r (clear_ad (rd a p))) addr p = Found sh' a' e' r').
Proof.
  rewrite radix_cons. fold a. rewrite present_bit, pse_bit, frame_clear. destruct (Z.testbit (clear_ad (rd a p)) 0); cbn [negb]; [|done].
  destruct (reserved n sh _); [done|]. intros H. split; [done|]. destruct ((sh =? 12) || _); [|done]. by injection H as <- <- <- <-.
Qed.

(** A level where there are no large pages. *)
Lemma radix_found_top n sh shifts table r addr p sh' a' e' r' (a := slot table sh addr) :
  radix rd n (sh :: shifts) table r addr p = Found sh' a' e' r' -> 39 <= sh ->
  ztrue (Z.land (rd a p) PG_PRESENT_MASK) = true /\ radix rd n shifts (frame (rd a p)) (with_entry r (clear_ad (rd a p))) addr p = Found sh' a' e' r'.
Proof.
  intros H Hs. destruct (radix_found _ _ _ _ _ _ _ _ _ _ _ H) as [Hp Hn]. fold a in Hn. split; [done|]. revert H. rewrite radix_cons. fold a.
  destruct (negb _); [done|]. destruct (reserved n sh _) eqn:Er; [done|]. intros _. rewrite pse_bit, (reserved_pse _ _ _ Er), (proj2 (Z.eqb_neq sh 12)) in Hn by lia. done.
Qed.

Lemma table_mask e : Z.land e PG_ADDRESS_MASK = frame e.
Proof. by rewrite frame_mask, frame_clear. Qed.

(** C15: the walk of the debugger, which changes nothing, leads to the page the vCPU would
    use: where the recursion over the levels finds a page, it gives the physical address of
    that page. *)
Theorem debug_walk_agrees env addr p sh a e r :
  long_mode env -> sign_extended (la57 env) addr = true -> 0 <= addr < 2 ^ 64 -> walk_found env addr p = Found sh a e r ->
  x86_cpu_get_phys_page_attrs_debug x86_ldq_phys x86_ldl_phys env addr p = Some (page_of (page_addr sh e addr)).
Proof.
  intros Hlm Hs Ha H. pose proof Hlm as [Hpg Hpae Hlma Hnpt Ha20 Hcr3]. unfold x86_cpu_get_phys_page_attrs_debug.
  assert (ztrue (Z.land (cr0 env) CR0_PG_MASK) = true) as -> by (etransitivity; [by apply (ztrue_land_pow2 _ 31)|done]).
  rewrite Ha20, pae_bit, lma_bit, la57_bit, Hpae, Hlma, Hs. cbn [negb]. rewrite frame_cr3 by done.
  pose proof (fun e => proj1 (frame_range e)) as F1. pose proof (fun e => proj2 (frame_range e)) as F2. rewrite slot_addr by first [lia|apply F1|apply F2].
  assert (exists r0, radix rd (nxe env) [39; 30; 21; 12] (frame (if la57 env then rd (slot (frame (cr3 env)) 48 addr) p else cr3 env)) r0 addr p = Found sh a e r /\
    la57 env && negb (ztrue (Z.land (if la57 env then rd (slot (frame (cr3 env)) 48 addr) p else cr3 env) PG_PRESENT_MASK)) = false) as (r0 & H4 & ->).
  { unfold walk_found, levels in H. destruct (la57 env); [|by eexists]. apply radix_found_top in H as [-> H]; [|lia]. by eexists. }
  set (pml5e := if la57 env then rd (slot (frame (cr3 env)) 48 addr) p else cr3 env) in *. clearbody pml5e.
  rewrite !table_mask, !slot_addr by first [lia|apply F1|apply F2].
  apply radix_found_top in H4 as [P4 H3]; [|lia]. rewrite P4. set (pml4e := rd (slot (frame pml5e) 39 addr) p) in *. cbn [negb].
  apply radix_found in H3 as [P3 H2]. rewrite P3. set (pdpe := rd (slot (frame pml4e) 30 addr) p) in *. cbn [negb]. change (30 =? 12) with false in H2. cbn [orb] in H2.
  destruct (ztrue (Z.land pdpe PG_PSE_MASK)); [destruct H2 as [-> ->]; f_equal; apply (debug_out 30 pdpe); auto|].
  apply radix_found in H2 as [P2 H1]. rewrite P2. set (pde := rd (slot (frame pdpe) 21 addr) p) in *. cbn [negb]. change (21 =? 12) with false in H1. cbn [orb] in H1.
  destruct (ztrue (Z.land pde PG_PSE_MASK)); [destruct H1 as [-> ->]; f_equal; apply (debug_out 21 pde); auto|].
  apply radix_found in H1 as [P1 H0]. rewrite P1. destruct H0 as [-> ->]. f_equal. rewrite <- table_mask.
  apply (debug_out 12 (rd (slot (frame pde) 12 addr) p)); auto.
Qed.
End Unrolled.
End X86WalkSpec.
