(* ===== verification/X86Tables.v ===== *)
(** * Page tables in host memory

    The tables of the guest lie in pages of its RAM, and so in host memory: the accesses of
    the page walk ([x86_ldq_phys] and the like on RAM) and what they have to do with each
    other, for [X86WalkSpec]. *)

From S2P Require Import Prelude SoftTlb SoftMmu SoftMmuBytes SoftMmuLinks X86Walk X86WalkSpec.
Import SoftTlb SoftMmu SoftMmuBytes SoftMmuLinks X86Walk X86WalkSpec.
Local Open Scope Z_scope.

Module X86Tables.

(** The physical pages that hold tables: RAM of their own, apart from that of data. *)
Class TableRam {api : RamApi} := {
  table_page : Z -> bool;
  table_addr pt : table_page pt = true -> 0 <= pt < 2 ^ 52 /\ pt mod 4096 = 0;
  table_host pt : table_page pt = true -> 0 <= host pt < 2 ^ 64 /\ host pt mod 4096 = 0;
  table_apart pt pa : table_page pt = true -> ram_page pa -> host pt <> host pa;
}.

Section Tables.
Context {api : RamApi} {tables : TableRam}.

(** The memory API on RAM. *)
Definition phys (a : Z) : Z := host_byte (page_of a) a.
Definition ram_ldq (a : Z) (r : Z -> Z) : Z := le_val (host_bytes r (phys a) 8).
Definition ram_ldl (a : Z) (r : Z -> Z) : Z := le_val (host_bytes r (phys a) 4).
Definition ram_stl (a v : Z) (r : Z -> Z) : Z -> Z := put_bytes (phys a) (le_bytes 4 v) r.
Definition ram_stq (a v : Z) (r : Z -> Z) : Z -> Z := put_bytes (phys a) (le_bytes 8 v) r.

Definition table_entry (a : Z) : bool := (a mod 8 =? 0) && (0 <=? a) && (a <? 2 ^ 52) && table_page (page_of a).
Definition in_table (h : Z) : Prop := exists pt i, table_page pt = true /\ 0 <= i < 4096 /\ h = host pt + i.

(** The eight bytes of an entry. *)
Lemma entry_phys a :
  table_entry a = true -> phys a mod 8 = 0 /\ 0 <= phys a /\ phys a + 8 <= 2 ^ 64 /\ forall i, 0 <= i < 8 -> in_table (phys a + i).
Proof.
  unfold table_entry. rewrite !andb_true_iff, Z.eqb_eq, Z.leb_le, Z.ltb_lt. intros (((Ha & H0) & H52) & Ht).
  destruct (table_host _ Ht) as [Hh Hal]. unfold phys, host_byte. rewrite (proj1 (page_offset a ltac:(lia))).
  assert (u64 (host (page_of a) + a mod 4096) = host (page_of a) + a mod 4096) as ->.
  { apply Z.mod_small. change (2 ^ 64) with 18446744073709551616 in *. mlia. }
  change (2 ^ 64) with 18446744073709551616 in *. change (2 ^ 52) with 4503599627370496 in *.
  split; [mlia|]. split; [mlia|]. split; [mlia|]. intros i Hi. exists (page_of a), (a mod 4096 + i). split; [done|]. split; [mlia|lia].
Qed.

Lemma entry_bytes a r : table_entry a = true -> host_bytes r (phys a) 8 = (fun i => r (phys a + Z.of_nat i)) <$> seq 0 8.
Proof.
  intros He. destruct (entry_phys a He) as (_ & H0 & H1 & _). apply list_fmap_ext. intros j i [-> Hi]%lookup_seq. cbn [plus]. f_equal. apply Z.mod_small. lia.
Qed.

(** Four bytes put at the start of an entry. *)
Lemma put4 h l r x : 0 <= h -> h + 4 <= 2 ^ 64 -> length l = 4%nat ->
  put_bytes h l r x = if (h <=? x) && (x <? h + 4) then nth (Z.to_nat (x - h)) l 0 else r x.
Proof.
  intros H0 H1 Hl. destruct l as [|b0 [|b1 [|b2 [|b3 [|? ?]]]]]; try done. unfold put_bytes. cbn [length zip zip_with seq foldl fst snd].
  change (Z.of_nat 0) with 0. change (Z.of_nat 1) with 1. change (Z.of_nat 2) with 2. change (Z.of_nat 3) with 3.
  unfold u64. rewrite !Z.mod_small by lia. unfold zset.
  destruct (Z.leb_spec h x), (Z.ltb_spec x (h + 4)); cbn [andb]; try (repeat rewrite (proj2 (Z.eqb_neq _ _)) by lia; done).
  assert (x = h + 0 \/ x = h + 1 \/ x = h + 2 \/ x = h + 3) as [->|[->|[->| ->]]] by lia;
    repeat match goal with |- context [?a =? ?b] => first [rewrite (proj2 (Z.eqb_eq a b)) by lia|rewrite (proj2 (Z.eqb_neq a b)) by lia] end;
    match goal with |- _ = nth (Z.to_nat ?n) _ _ => ring_simplify n end; done.
Qed.

(** Memory that is [o] outside the tables, and bytes in them. *)
Definition table_wf (o r : Z -> Z) : Prop :=
  (forall h, ~ in_table h -> r h = o h) /\ (forall h, in_table h -> is_byte (r h)) /\ ((forall h, is_byte (o h)) -> forall h, is_byte (r h)).

Lemma table_ldq_range o r a : table_wf o r -> table_entry a = true -> 0 <= ram_ldq a r < 2 ^ 64.
Proof.
  intros (_ & Hb & _) Ha. unfold ram_ldq. rewrite entry_bytes by done. change (2 ^ 64) with (256 ^ Z.of_nat (length ((fun i => r (phys a + Z.of_nat i)) <$> seq 0 8))).
  apply le_val_range. apply Forall_fmap, Forall_seq. intros i Hi. apply Hb. apply entry_phys; [done|lia].
Qed.

Lemma stl_byte a v r h : table_entry a = true -> ram_stl a v r h = if (phys a <=? h) && (h <? phys a + 4) then nth (Z.to_nat (h - phys a)) (le_bytes 4 v) 0 else r h.
Proof. intros Ha. destruct (entry_phys a Ha) as (_ & H0 & H1 & _). apply put4; [lia..|apply length_le_bytes]. Qed.

Lemma stl_wf o r a v : table_wf o r -> table_entry a = true -> table_wf o (ram_stl a v r).
Proof.
  intros (Ho & Hb & Ha') Ha. destruct (entry_phys a Ha) as (_ & H0 & H1 & Hin).
  split; [|split; [|intros Hall; specialize (Ha' Hall)]]; intros h; [intros Hh|intros Hh|]; rewrite stl_byte by done;
    (destruct ((phys a <=? h) && (h <? phys a + 4)) eqn:E; [|auto]); apply andb_true_iff in E as [E1%Z.leb_le E2%Z.ltb_lt].
  - destruct Hh. replace h with (phys a + (h - phys a)) by lia. apply Hin. lia.
  - apply (proj1 (List.Forall_forall _ _) (le_bytes_bytes 4 v)), nth_In. rewrite length_le_bytes. lia.
  - apply (proj1 (List.Forall_forall _ _) (le_bytes_bytes 4 v)), nth_In. rewrite length_le_bytes. lia.
Qed.

(** Another entry is the same memory or keeps its bytes. *)
Lemma stl_other a b v r : table_entry a = true -> table_entry b = true -> phys b <> phys a -> ram_ldq b (ram_stl a v r) = ram_ldq b r.
Proof.
  intros Ha Hb Hne. unfold ram_ldq. rewrite !entry_bytes by done. f_equal. apply list_fmap_ext. intros j i [-> Hi]%lookup_seq. cbn [plus].
  rewrite stl_byte by done. destruct (entry_phys a Ha) as (A8 & A0 & _), (entry_phys b Hb) as (B8 & B0 & _).
  destruct ((phys a <=? phys b + Z.of_nat j) && (phys b + Z.of_nat j <? phys a + 4)) eqn:E; [|done].
  apply andb_true_iff in E as [E1%Z.leb_le E2%Z.ltb_lt]. exfalso. apply Hne. revert A8 B8 E1 E2. generalize (phys a) (phys b). intros x y. mlia.
Qed.

Lemma stl_same a b v r :
  table_entry a = true -> table_entry b = true -> phys b = phys a -> (forall h, in_table h -> is_byte (r h)) ->
  ram_ldq b r = ram_ldq a r /\ ram_ldq b (ram_stl a v r) = v mod 2 ^ 32 + ram_ldq a r / 2 ^ 32 * 2 ^ 32.
Proof.
  intros Ha Hb He Hbytes. unfold ram_ldq. rewrite He. split; [done|]. destruct (entry_phys a Ha) as (_ & H0 & H1 & Hin).
  assert (host_bytes (ram_stl a v r) (phys a) 8 = le_bytes 4 v ++ drop 4 (host_bytes r (phys a) 8)) as ->.
  { rewrite !entry_bytes by done. cbn [seq fmap list_fmap drop]. rewrite !stl_byte by done.
    repeat match goal with |- context [(?x <=? ?y) && (?y <? ?z)] => first [rewrite (proj2 (Z.leb_le x y)), (proj2 (Z.ltb_lt y z)) by lia|rewrite (proj2 (Z.ltb_ge y z)), andb_false_r by lia] end.
    cbn [andb]. rewrite !Z.add_simpl_l. done. }
  assert (Forall is_byte (host_bytes r (phys a) 8)) as HF.
  { rewrite entry_bytes by done. apply Forall_fmap, Forall_seq. intros i Hi. apply Hbytes, Hin. lia. }
  assert (length (host_bytes r (phys a) 8) = 8%nat) as Hlen by (unfold host_bytes; by rewrite length_fmap, length_seq).
  revert HF Hlen. generalize (host_bytes r (phys a) 8). intros l HF Hlen. rewrite le_val_app, length_le_bytes, le_val_bytes.
  assert (le_val l = le_val (take 4 l) + 256 ^ Z.of_nat 4 * le_val (drop 4 l)) as ->.
  { rewrite <- (take_drop 4 l) at 1. rewrite le_val_app, length_take, Hlen. done. }
  pose proof (le_val_range (take 4 l) (Forall_take _ _ _ HF)) as Hr. rewrite length_take, Hlen in Hr. change (256 ^ Z.of_nat (4 `min` 8)) with (2 ^ 32) in Hr.
  change (256 ^ Z.of_nat 4) with (2 ^ 32). rewrite (Z.mul_comm (2 ^ 32)), Z.div_add, (Z.div_small (le_val (take 4 l))) by lia. lia.
Qed.

(** A mark changes only the low half. *)
Lemma mark_value v flags : 0 <= v -> Z.ldiff flags AD = 0 -> u32 (Z.lor v flags) mod 2 ^ 32 + v / 2 ^ 32 * 2 ^ 32 = Z.lor v flags.
Proof.
  intros Hv Hf. unfold u32. rewrite Z.mod_mod by lia.
  assert (v / 2 ^ 32 = Z.lor v flags / 2 ^ 32) as ->; [|pose proof (Z.div_mod (Z.lor v flags) (2 ^ 32)); lia].
  rewrite <- !Z.shiftr_div_pow2 by lia. apply Z.bits_inj'. intros k Hk. rewrite !Z.shiftr_spec, Z.lor_spec by lia.
  assert (Z.testbit (Z.ldiff flags AD) (k + 32) = false) as Hb by (rewrite Hf; apply Z.bits_0). rewrite Z.ldiff_spec in Hb.
  assert (Z.testbit AD (k + 32) = false) as Ha by (apply (testbit_small AD 7); [by split|lia]). rewrite Ha, andb_true_r in Hb. by rewrite Hb, orb_false_r.
Qed.

#[export] Program Instance host_tables (o : Z -> Z) : TableMemory ram_ldq ram_stl := {| entry := table_entry; wf := table_wf o |}.
Next Obligation. intros o a p Hw Ha. by eapply table_ldq_range. Qed.
Next Obligation. intros o a p flags Hw Ha _. by apply stl_wf. Qed.
Next Obligation.
  intros o a p flags Hw Ha Hf. destruct (stl_same a a (u32 (Z.lor (ram_ldq a p) flags)) p Ha Ha eq_refl (proj1 (proj2 Hw))) as [_ ->].
  apply mark_value; [|done]. by apply (table_ldq_range o).
Qed.
Next Obligation.
  intros o a b p flags Hw Ha Hb Hf. cbn zeta. destruct (decide (phys b = phys a)) as [E|E]; [right|left; by apply stl_other].
  destruct (stl_same a b (u32 (Z.lor (ram_ldq a p) flags)) p Ha Hb E (proj1 (proj2 Hw))) as [-> ->]. apply mark_value; [|done]. by apply (table_ldq_range o).
Qed.

(** Entries are in the tables. *)
Lemma ldq_tables a r r' : table_entry a = true -> (forall h, in_table h -> r' h = r h) -> ram_ldq a r' = ram_ldq a r.
Proof.
  intros Ha Hr. unfold ram_ldq. rewrite !entry_bytes by done. f_equal. apply list_fmap_ext. intros j i [-> Hi]%lookup_seq. cbn [plus].
  apply Hr. apply entry_phys; [done|lia].
Qed.

(** Two memories whose tables differ in accessed and dirty bits, bits 5 and 6 of the
    first byte of an entry, and in nothing else. *)
Definition tables_marked (r r' : Z -> Z) : Prop :=
  forall h, in_table h -> Z.ldiff (r' h) AD = Z.ldiff (r h) AD /\ (h mod 8 <> 0 -> r' h = r h).

(** Every byte of a table is one of an entry. *)
Lemma table_byte_entry h : in_table h -> exists a i, table_entry a = true /\ (i < 8)%nat /\ h = phys a + Z.of_nat i.
Proof.
  intros (pt & i & Ht & Hi & ->). destruct (table_addr pt Ht) as [Hp Hm], (table_host pt Ht) as [Hh Hhm].
  change (2 ^ 52) with 4503599627370496 in *. change (2 ^ 64) with 18446744073709551616 in *.
  set (a := pt + i / 8 * 8). assert (0 <= a < 2 ^ 64) as Hr by (change (2 ^ 64) with 18446744073709551616; unfold a; mlia).
  assert (a mod 4096 = i / 8 * 8) as Ho by (unfold a; mlia). destruct (page_offset a Hr) as [Hl Hpg]. rewrite Ho in *.
  replace (a - i / 8 * 8) with pt in Hpg by (unfold a; lia).
  exists a, (Z.to_nat (i mod 8)). rewrite Z2Nat.id by mlia. split_and!; [|mlia|].
  - unfold table_entry. rewrite Hpg, Ht, !andb_true_iff, Z.eqb_eq, Z.leb_le, Z.ltb_lt. change (2 ^ 52) with 4503599627370496. unfold a. split_and!; mlia.
  - unfold phys, host_byte. rewrite Hpg, Hl. unfold u64. change (2 ^ 64) with 18446744073709551616. rewrite Z.mod_small by mlia. mlia.
Qed.

(** Words that agree up to the two bits have the same bytes, but for these bits of the first. *)
Lemma clear_ad_bytes b b' l l' :
  is_byte b -> is_byte b' -> Forall is_byte l -> Forall is_byte l' -> length l = length l' ->
  clear_ad (le_val (b :: l)) = clear_ad (le_val (b' :: l')) -> Z.ldiff b AD = Z.ldiff b' AD /\ l = l'.
Proof.
  intros Hb Hb' Hl Hl' Hlen. unfold clear_ad. cbn [le_val]. unfold is_byte in Hb, Hb'. intros E.
  assert (forall x y, 0 <= x < 256 -> Z.shiftr (Z.ldiff (x + 256 * y) AD) 8 = y) as Hhi.
  { intros x y Hx. rewrite Z.shiftr_ldiff. change (Z.shiftr AD 8) with 0. rewrite Z.ldiff_0_r, Z.shiftr_div_pow2 by lia. change (2 ^ 8) with 256. mlia. }
  assert (forall x y, 0 <= x < 256 -> Z.ldiff (x + 256 * y) AD mod 256 = Z.ldiff x AD) as Hlo.
  { intros x y Hx. change 256 with (2 ^ 8). apply Z.bits_inj'. intros k Hk. destruct (Z.ltb_spec k 8) as [H8|H8].
    - rewrite Z.mod_pow2_bits_low, !Z.ldiff_spec by done. f_equal. rewrite <- (Z.mod_pow2_bits_low (x + 2 ^ 8 * y) 8), <- (Z.mod_pow2_bits_low x 8) by done.
      f_equal. change (2 ^ 8) with 256. mlia.
    - rewrite Z.mod_pow2_bits_high, Z.ldiff_spec by lia. by rewrite (testbit_small x 8) by (change (2 ^ 8) with 256; lia). }
  split; [rewrite <- (Hlo b (le_val l) Hb), E; by apply Hlo|].
  rewrite <- (le_bytes_val l Hl), <- (le_bytes_val l' Hl'), Hlen. f_equal. by rewrite <- (Hhi b (le_val l) Hb), E, Hhi.
Qed.

Lemma entries_marked r r' :
  (forall h, in_table h -> is_byte (r h)) -> (forall h, in_table h -> is_byte (r' h)) ->
  (forall a, table_entry a = true -> clear_ad (ram_ldq a r') = clear_ad (ram_ldq a r)) -> tables_marked r r'.
Proof.
  intros Hb Hb' He h (a & i & Ha & Hi & ->)%table_byte_entry. specialize (He a Ha). destruct (entry_phys a Ha) as (H8 & _ & _ & Hin).
  unfold ram_ldq in He. rewrite !entry_bytes in He by done. cbn [fmap list_fmap seq] in He.
  apply clear_ad_bytes in He as [Hf Hr]; [|try (apply Hb' || apply Hb); apply Hin; lia..| | |done].
  2,3: repeat (constructor; [first [apply Hb', Hin|apply Hb, Hin]; lia|]); constructor.
  injection Hr as H1 H2 H3 H4 H5 H6 H7.
  destruct i as [|[|[|[|[|[|[|[|i]]]]]]]]; [|split; [congruence|done]..|lia]. change (Z.of_nat 0) with 0 in *. split; [exact Hf|]. rewrite Z.add_0_r. done.
Qed.

(** Data is not. *)
Lemma data_not_table pa i : ram_page pa -> 0 <= i < 4096 -> ~ in_table (u64 (host pa + i)).
Proof.
  intros Hr Hi (pt & j & Ht & Hj & E). destruct (table_host pt Ht) as [Hh Hal]. pose proof (host_range pa Hr) as Hp. pose proof (host_aligned pa Hr) as Hpa.
  pose proof (table_apart pt pa Ht Hr) as Hne. apply Hne. revert Hi Hj E Hh Hal Hp Hpa. generalize (host pt) (host pa). clear. intros x y. unfold u64.
  change (2 ^ 64) with 18446744073709551616. mlia.
Qed.

Lemma stq_bytes a v r : (forall h, is_byte (r h)) -> forall h, is_byte (ram_stq a v r h).
Proof.
  intros Hr. unfold ram_stq, put_bytes. pose proof (le_bytes_bytes 8 v) as Hb. revert r Hr. generalize (seq 0 (length (le_bytes 8 v))). intros l.
  revert l. induction Hb as [|b bs Hb Hbs IH]; intros [|i l] r Hr; try done. cbn [zip zip_with foldl]. apply IH. intros h. unfold zset. by destruct (_ =? _).
Qed.
End Tables.
End X86Tables.
