(* ===== verification/X86Guest.v ===== *)
(** * Guest memory of x86

    The page walk of x86 keeps the promises of [GuestWalk]: so what a guest in long mode
    loads and stores, through the software TLB, its victim table and the walk, is what
    the tables in its memory say. *)

From S2P Require Import Prelude SoftTlb SoftMmu SoftMmuBytes SoftMmuLinks SoftMmuSpec X86Walk X86WalkSpec X86Tables.
Import SoftTlb SoftMmu SoftMmuBytes SoftMmuLinks SoftMmuSpec X86Walk X86WalkSpec X86Tables.
Local Open Scope Z_scope.
Local Open Scope c_scope.

Module X86Guest.

(** ** Addresses of a page *)

Lemma page_div addr sh : 0 <= addr < 2 ^ 64 -> 12 <= sh -> page_of addr / 2 ^ sh = addr / 2 ^ sh.
Proof.
  intros Ha Hs. rewrite (proj2 (page_offset addr Ha)). replace (2 ^ sh) with (4096 * 2 ^ (sh - 12)).
  2:{ change 4096 with (2 ^ 12). rewrite <- Z.pow_add_r by lia. f_equal. lia. }
  rewrite <- !Z.div_div by lia. f_equal. mlia.
Qed.

Lemma page_slot table sh addr : 0 <= addr < 2 ^ 64 -> 12 <= sh -> slot table sh (page_of addr) = slot table sh addr.
Proof. intros Ha Hs. unfold slot. by rewrite page_div. Qed.

Lemma page_radix {P} (ldq : Z -> P -> Z) n shifts : forall table r addr p,
  0 <= addr < 2 ^ 64 -> Forall (fun sh => 12 <= sh) shifts ->
  radix ldq n shifts table r (page_of addr) p = radix ldq n shifts table r addr p /\ path ldq n shifts table (page_of addr) p = path ldq n shifts table addr p.
Proof.
  induction shifts as [|sh shifts IH]; intros table r addr p Ha Hs; [done|]. apply list.Forall_cons in Hs as [H1 H2]. rewrite !radix_cons, !path_cons, !page_slot by done.
  destruct (IH (frame (clear_ad (ldq (slot table sh addr) p))) (with_entry r (clear_ad (ldq (slot table sh addr) p))) addr p Ha H2) as [-> ->]. done.
Qed.

Lemma page_sign la57 addr : 0 <= addr < 2 ^ 64 -> sign_extended la57 (page_of addr) = sign_extended la57 addr.
Proof.
  intros Ha. unfold sign_extended. assert (Z.shiftr (s64 (page_of addr)) (if la57 then 56 else 47) = Z.shiftr (s64 addr) (if la57 then 56 else 47)) as ->; [|done].
  rewrite (proj2 (page_offset addr Ha)). unfold s64. rewrite !Z.shiftr_div_pow2 by (destruct la57; lia).
  change (2 ^ 63) with 9223372036854775808. change (2 ^ 64) with 18446744073709551616 in *.
  destruct la57; [change (2 ^ 56) with 72057594037927936|change (2 ^ 47) with 140737488355328]; mlia.
Qed.

Lemma page_page_addr sh e addr :
  0 <= addr < 2 ^ 64 -> sh = 12 \/ sh = 21 \/ sh = 30 -> page_of (page_addr sh e (page_of addr)) = page_of (page_addr sh e addr).
Proof.
  intros Ha Hsh. assert (0 <= page_of addr < 2 ^ 64) as Hp.
  { rewrite (proj2 (page_offset addr Ha)). pose proof (Z.mod_le addr 4096). pose proof (Z.mod_pos_bound addr 4096). lia. }
  assert (0 <= page_addr sh e addr < 2 ^ 64 /\ 0 <= page_addr sh e (page_of addr) < 2 ^ 64) as [R1 R2].
  { pose proof (page_addr_range sh e addr). pose proof (page_addr_range sh e (page_of addr)). lia. }
  rewrite (proj2 (page_offset _ R1)), (proj2 (page_offset _ R2)). unfold page_addr. rewrite (proj2 (page_offset addr Ha)).
  generalize ((e / 2 ^ sh) mod 2 ^ (52 - sh)). intros k. clear - Hsh Ha.
  destruct Hsh as [->|[->| ->]]; [change (2 ^ 12) with 4096|change (2 ^ 21) with 2097152|change (2 ^ 30) with 1073741824]; mlia.
Qed.

Section Guest.
Context {api : RamApi} {tables : TableRam} {IO D : Type} (cpu : CPUX86State) (r0 : Z -> Z).
Context (cpu_long : long_mode cpu).
Implicit Types s : env IO D.

Definition fill : Z -> Z -> MMUAccessType -> Z -> env IO D -> cres (env IO D) :=
  x86_cpu_tlb_fill ram_ldq ram_ldl ram_stl ram_stq (tlb_set_page_with_attrs translate_for_iotlb byte_swap is_clean watchpoint_matches) cpu.

(** The page table that the tables in the memory [r0] hold. *)
Definition table_of (m p : Z) : option Z :=
  if sign_extended (la57 cpu) p && forallb table_entry (walk_path ram_ldq cpu p r0) then
    match walk_found ram_ldq cpu p r0 with
    | Found sh a e r => Some (page_of (page_addr sh e p))
    | _ => None
    end
  else None.

(** ... and the accesses they permit. *)
Definition allows (access_type : MMUAccessType) (m p : Z) : Prop :=
  exists sh e x, judge cpu access_type m (walk_found ram_ldq cpu p r0) = Page sh e x.

(** Memory with the same tables, up to their accessed and dirty bits. *)
Definition same_tables (r : Z -> Z) : Prop :=
  (forall h, in_table h -> is_byte (r h)) /\ forall a, table_entry a = true -> clear_ad (ram_ldq a r) = clear_ad (ram_ldq a r0).

Lemma levels_page : Forall (fun sh => 12 <= sh) (levels cpu).
Proof. unfold levels. destruct (la57 cpu); repeat constructor; lia. Qed.

Lemma same_wf r : same_tables r -> table_wf r r.
Proof. intros [Hb _]. by split_and!. Qed.

Lemma walk_same r addr pa m :
  same_tables r -> 0 <= addr < 2 ^ 64 -> table_of m (page_of addr) = Some pa ->
  sign_extended (la57 cpu) addr = true /\ Forall (fun a => table_entry a = true) (walk_path ram_ldq cpu addr r) /\
  walk_found ram_ldq cpu addr r = walk_found ram_ldq cpu (page_of addr) r0 /\
  exists sh a e x, walk_found ram_ldq cpu (page_of addr) r0 = Found sh a e x /\ pa = page_of (page_addr sh e addr) /\ (sh = 12 \/ sh = 21 \/ sh = 30).
Proof.
  intros Hr Ha. unfold table_of. rewrite page_sign by done. destruct (sign_extended (la57 cpu) addr); [|done]. cbn [andb].
  destruct (forallb table_entry (walk_path ram_ldq cpu (page_of addr) r0)) eqn:Ef; [|done]. intros Hf. split; [done|].
  assert (Forall (fun a => table_entry a = true) (walk_path ram_ldq cpu (page_of addr) r0)) as Hp.
  { apply List.Forall_forall. by apply List.forallb_forall. }
  pose proof (proj1 (page_radix ram_ldq (nxe cpu) (levels cpu) (frame (cr3 cpu)) all_rights addr r Ha levels_page)) as E1.
  pose proof (proj2 (page_radix ram_ldq (nxe cpu) (levels cpu) (frame (cr3 cpu)) all_rights addr r Ha levels_page)) as E2.
  destruct (radix_marked ram_ldq ram_stl (mem := host_tables r) (nxe cpu) (levels cpu) (frame (cr3 cpu)) all_rights (page_of addr) r0 r) as [E3 E4];
    [split; [by apply same_wf|apply Hr]|done|].
  unfold walk_found, walk_path in *. rewrite <- E2, E4, <- E1, E3. split; [done|]. split; [done|].
  destruct (radix ram_ldq (nxe cpu) (levels cpu) (frame (cr3 cpu)) all_rights (page_of addr) r0) as [| |sh a e x] eqn:Er; [done..|].
  assert (sh = 12 \/ sh = 21 \/ sh = 30) as Hsh.
  { eapply found_page; [exact Er|]. unfold levels. destruct (la57 cpu); repeat (constructor; [lia|]); constructor. }
  exists sh, a, e, x. split; [done|]. split; [|done]. injection Hf as <-. by apply page_page_addr.
Qed.

Lemma entered_right access_type x d :
  page_allows access_type x = true -> (access_type = MMU_DATA_STORE -> d = true) -> ztrue (Z.land (pbits (entered x d)) (right_of access_type)) = true.
Proof. destruct access_type, x as [[] [] []], d; cbn; try done; intros _ Hd; by specialize (Hd eq_refl). Qed.

Lemma x86_fill_enters s addr size access_type m pa :
  coherent table_of (tlb s) -> same_tables (ram s) -> 0 <= addr < 2 ^ 64 -> 0 <= m < 3 ->
  table_of m (page_of addr) = Some pa -> ram_page pa -> allows access_type m (page_of addr) ->
  exists s' vaddr paddr attrs prot sz, fill addr size access_type m s = Ret s' /\
  tlb_set_page_with_attrs translate_for_iotlb byte_swap is_clean watchpoint_matches (tlb s) vaddr paddr attrs prot m sz = Ret (tlb s') /\
  tlb_op_ok (OpSet vaddr paddr attrs prot m sz) /\ page_of vaddr = page_of addr /\ page_of paddr = pa /\
  elt_of access_type (tlb_entry (tlb s') m addr) <> 2 ^ 64 - 1 /\
  io s' = io s /\ same_tables (ram s') /\ (forall h, ~ in_table h -> ram s' h = ram s h) /\
  ((forall h, is_byte (ram s h)) -> forall h, is_byte (ram s' h)).
Proof using cpu_long.
  intros Hc Hr Ha Hm Hpt Hram (sh & e & x & Hj). destruct (walk_same (ram s) addr pa m Hr Ha Hpt) as (Hsign & Hpath & Hsame & sh' & a & e' & r & Hf & -> & Hsh).
  destruct (judge_page _ _ _ _ _ _ _ Hj) as (Hal & a2 & r2 & Hf2). rewrite Hf in Hf2. injection Hf2 as -> <- -> <-.
  destruct (mmu_walk_spec ram_ldq ram_ldl ram_stl ram_stq (mem := host_tables (ram s)) cpu addr access_type m (ram s) cpu_long (same_wf _ Hr) Hpath) as (q & [Hw Hmq] & H).
  rewrite Hsame, Hj in H. destruct H as (d & Hwalk & Hd).
  set (pa := page_of (page_addr sh e addr)) in *. set (prot := pbits (entered x d)) in *.
  assert (0 <= page_of addr < 2 ^ 64) as Hpr.
  { rewrite (proj2 (page_offset addr Ha)). pose proof (Z.mod_le addr 4096). pose proof (Z.mod_pos_bound addr 4096). lia. }
  assert (page_of (page_of addr) = page_of addr) as Hpp by apply page_of_aligned. assert (page_of pa = pa) as Hpap by apply page_of_aligned.
  assert (tlb_op_ok (OpSet (page_of addr) pa (cpu_get_mem_attrs cpu) prot m (2 ^ sh))) as Hok.
  { split; [done|]. split; [done|]. intros _. exists sh. split; [|done]. unfold TARGET_PAGE_BITS. lia. }
  pose proof Hc as [Hl (inst & Hi & _)]. rewrite <- Hpap in Hram.
  destruct (set_page_total inst (tlb s) _ _ _ _ _ _ Hi Hok Hram) as [t' Et].
  exists (s <| tlb := t' |> <| ram := q |>), (page_of addr), pa, (cpu_get_mem_attrs cpu), prot, (2 ^ sh).
  assert (fill addr size access_type m s = Ret (s <| tlb := t' |> <| ram := q |>)) as Efill.
  { unfold fill, x86_cpu_tlb_fill, handle_mmu_fault. rewrite la57_bit, Hsign, andb_false_r, Hwalk. cbn [map_vaddr map_paddr map_prot map_size]. rewrite Et. done. }
  destruct (set_page_spec _ _ _ _ _ _ _ _ Et Hl Hpr) as (_ & _ & _ & Hfield).
  split; [done|]. split; [exact Et|]. split; [done|]. split; [done|]. split; [done|]. split; [|split; [done|split; [|split]]].
  - assert (tlb_entry t' m addr = tlb_entry t' m (page_of addr)) as E by (unfold tlb_entry; by rewrite tlb_index_page).
    change (tlb (s <| tlb := t' |> <| ram := q |>)) with t'. rewrite E. intros Hx.
    pose proof (Hfield Hram access_type (entered_right _ _ _ Hal Hd)) as Hs. rewrite Hx in Hs. by vm_compute in Hs.
  - split; [apply Hw|]. intros b Hb. cbn [ram]. etransitivity; [by apply Hmq|by apply Hr].
  - intros h Hh. by apply Hw.
  - intros Hb h. by apply Hw.
Qed.

(** The walk keeps its promises. *)
#[local] Program Instance x86_guest_walk : GuestWalk fill table_of := {| permits := allows; table_byte := in_table; encodes := same_tables |}.
Next Obligation. apply data_not_table. Qed.
Next Obligation.
  intros r r' Hr [Hb He]. split; [intros h Hh; rewrite Hr by done; by apply Hb|]. intros a Ha. by rewrite (ldq_tables a r r' Ha Hr), He.
Qed.
Next Obligation. intros s addr size access_type m pa. apply x86_fill_enters. Qed.

(** ** What the guest sees *)

Context (check_watchpoint : Z -> Z -> Z -> Z -> cres unit).
Context (dispatch_read : CPUIOTLBEntry -> Z -> Z -> IO -> cres (Z * IO)) (dispatch_write : CPUIOTLBEntry -> Z -> Z -> Z -> IO -> cres IO).
Context (get_dirty_code : Z -> D -> bool) (tb_invalidate : Z -> Z -> D -> cres D) (set_dirty_range : Z -> Z -> D -> D).
Context (physical_is_clean : Z -> D -> bool).
Context (no_watchpoint : forall addr len attrs flags, check_watchpoint addr len attrs flags = Ret tt).
Context (invalidate_total : forall addr len dm, exists dm', tb_invalidate addr len dm = Ret dm').
Local Abbreviation load := (load_helper fill check_watchpoint dispatch_read).
Local Abbreviation store := (store_helper fill check_watchpoint dispatch_write get_dirty_code tb_invalidate set_dirty_range physical_is_clean).

(** The access lies, at both ends, in pages of RAM that the tables map and permit. *)
Definition x86_access (access_type : MMUAccessType) (oi op addr : Z) : Prop :=
  0 <= get_mmuidx oi < 3 /\ get_alignment_bits (get_memop oi) = 0 /\ memop_ok op = true /\ 0 <= addr < 2 ^ 64 /\
  forall a, a = addr \/ a = u64 (addr + memop_size op - 1) ->
    exists pa, table_of (get_mmuidx oi) (page_of a) = Some pa /\ ram_page pa /\ allows access_type (get_mmuidx oi) (page_of a).

Lemma x86_access_ok access_type oi op addr : x86_access access_type oi op addr -> access fill table_of access_type oi op addr.
Proof. intros (Hm & Hal & Hop & Ha & H). do 4 (split; [done|]). split; apply H; auto. Qed.

(** The state of a vCPU whose TLB was filled and flushed by any operations, that agree with
    the tables in its memory. *)
Definition x86_state (t0 : CPUTLB) (now : Z) (l : list tlb_op) s : Prop :=
  Forall tlb_op_ok l /\ tlb_run try_alloc translate_for_iotlb byte_swap is_clean watchpoint_matches l (tlb_init t0 now) = Ret (tlb s) /\
  (forall m p pa sz, spec_run l (fun _ _ => None) m p = Some (pa, sz) -> table_of m p = Some pa) /\
  same_tables (ram s) /\ forall h, is_byte (ram s h).

Lemma x86_state_good t0 now l s : x86_state t0 now l s -> good fill table_of s.
Proof. intros (Hl & Hrun & Hpt & Hs & Hb). split; [by eapply run_coherent|done]. Qed.

(** From a good state to a good state, nothing of the tables changes but their marks. *)
Lemma good_marked s s' : good fill table_of s -> good fill table_of s' -> tables_marked (ram s) (ram s').
Proof. intros (_ & [Hb He] & _) (_ & [Hb' He'] & _). apply entries_marked; [done..|]. intros a Ha. by rewrite He, He'. Qed.

(** C5: a load of the guest, through the TLB, the victim table or the page walk, in one piece or
    taken apart over two pages, in either byte order, for data or code, gives the value of the
    bytes that its page tables lead to in host memory. It changes no memory outside the tables, and in
    them nothing but accessed and dirty bits: bits 5 and 6 of the first byte of an entry. The guest is in
    long mode, the pages of the access are RAM that the tables map and that permits it, apart from
    that of the tables, no watchpoint fires, and the operation asks for no alignment. *)
Theorem guest_load_correct t0 now l depth addr oi op (code_read : bool) s :
  x86_state t0 now l s -> x86_access (if code_read then MMU_INST_FETCH else MMU_DATA_LOAD) oi op addr ->
  exists s', load (S depth) addr oi op code_read s =
    Ret (memop_val op (guest_bytes table_of (ram s) (get_mmuidx oi) addr (Z.to_nat (memop_size op))), s') /\
  io s' = io s /\ (forall h, ~ in_table h -> ram s' h = ram s h) /\ tables_marked (ram s) (ram s').
Proof using cpu_long no_watchpoint.
  intros Hs%x86_state_good Ha%x86_access_ok.
  destruct (guest_load_ok fill table_of check_watchpoint dispatch_read no_watchpoint depth addr oi op code_read s Hs Ha) as (s' & E & Hg & Hio & Hk).
  exists s'. auto using good_marked.
Qed.

(** C7: a store of the guest is seen by a load of the same address, also as code, and in pieces:
    the load gives the value stored, cut to the size of the access. The store changes its own bytes, no
    others outside the tables, and in the tables, as the load after it, nothing but accessed and dirty bits.
    The conditions are those of a load: long mode, pages of RAM that the tables map and that permit
    the access, apart from that of the tables, no watchpoint, no alignment asked for. *)
Theorem guest_store_load t0 now l depth addr val oi op s :
  x86_state t0 now l s -> x86_access MMU_DATA_STORE oi op addr ->
  exists s1, store (S depth) addr val oi op s = Ret s1 /\ io s1 = io s /\
  (forall h, ~ in_table h -> ~ spans table_of (get_mmuidx oi) addr (seq 0 (Z.to_nat (memop_size op))) h -> ram s1 h = ram s h) /\
  tables_marked (ram s) (ram s1) /\
  forall code_read : bool, x86_access (if code_read then MMU_INST_FETCH else MMU_DATA_LOAD) oi op addr ->
    exists s2, load (S depth) addr oi op code_read s1 = Ret (val mod 256 ^ memop_size op, s2) /\ io s2 = io s /\
    (forall h, ~ in_table h -> ram s2 h = ram s1 h) /\ tables_marked (ram s1) (ram s2).
Proof using cpu_long no_watchpoint invalidate_total.
  intros Hs%x86_state_good Ha. pose proof (x86_access_ok _ _ _ _ Ha) as Hacc.
  destruct (guest_store_ok fill table_of check_watchpoint dispatch_write get_dirty_code tb_invalidate set_dirty_range physical_is_clean
    no_watchpoint invalidate_total depth addr val oi op s Hs Hacc) as (s1 & E & Hst).
  pose proof Hst as (Hg & Hio & Hram). exists s1. split; [done|]. split; [done|]. split; [|split; [by apply good_marked|]].
  - intros h Hh Hsp. rewrite Hram by done. by apply put_frame.
  - intros code_read Hal. destruct (guest_load_ok fill table_of check_watchpoint dispatch_read no_watchpoint depth addr oi op code_read s1 Hg (x86_access_ok _ _ _ _ Hal))
      as (s2 & E2 & Hg2 & Hio2 & Hk). exists s2. split; [|split; [congruence|auto using good_marked]].
    rewrite E2. by rewrite (stored_read fill table_of oi op addr val s s1 Hacc Hst).
Qed.
End Guest.

(** ** A guest *)

(** 512 GB of RAM, the tables below 64 KB: two pages of data at 0x400000. *)
#[local] Program Instance demo_api : RamApi := {|
  ram_page pa := 0x10000 <= pa < 2 ^ 39 /\ pa mod 4096 = 0;
  host pa := 0x7f0000000000 + pa;
  try_alloc _ := true;
  translate_for_iotlb := demo_translate;
  byte_swap _ := false;
  is_clean _ := false;
  watchpoint_matches _ := 0 |}.
Next Obligation. intros pa sz attrs prot section xlat sz' prot' [Hr _] [= <- <- <- <-]. split_and!; try done. cbn. apply Z.mod_small. lia. Qed.
Next Obligation. done. Qed.
Next Obligation. intros pa [Hr _]. lia. Qed.
Next Obligation. intros pa [_ Hr]. change 0x7f0000000000 with (34091302912 * 4096). rewrite Z.add_comm, Z.mod_add by lia. done. Qed.

#[local] Program Instance demo_tables : TableRam := {| table_page pt := (pt =? 0x1000) || (pt =? 0x2000) || (pt =? 0x3000) || (pt =? 0x4000) |}.
Next Obligation. intros pt. rewrite !orb_true_iff, !Z.eqb_eq. intros [[[->| ->]| ->]| ->]; by split; [cbn; lia|]. Qed.
Next Obligation. intros pt. rewrite !orb_true_iff, !Z.eqb_eq. intros [[[->| ->]| ->]| ->]; by split; [cbn; lia|]. Qed.
Next Obligation. intros pt pa. rewrite !orb_true_iff, !Z.eqb_eq. intros Ht [Hr _]. cbn. lia. Qed.

Definition demo_cpu : CPUX86State := mkCPU (2 ^ 31 + 2 ^ 16) 0 0x1000 (2 ^ 5) (2 ^ 11) (2 ^ 14) 0 0 (-1) 0 0 0 0 0 0.
Definition demo_ram : Z -> Z :=
  ram_stq 0x1000 0x2007 (ram_stq 0x2000 0x3007 (ram_stq 0x3010 0x4007 (ram_stq 0x4000 0x42007 (ram_stq 0x4008 0x99007
    (ram_stq 0x42ff8 0x1122334455667788 (ram_stq 0x99000 0x99aabbccddeeff00 (fun _ => 0))))))).
Definition demo_env : env unit unit := mkEnv unit unit (tlb_init demo_tlb0 0) demo_ram tt tt.

Lemma demo_long : long_mode demo_cpu.
Proof. by split. Qed.

Lemma demo_state : x86_state demo_cpu demo_ram demo_tlb0 0 [] demo_env.
Proof.
  assert (forall h, is_byte (demo_ram h)) as Hb by (repeat apply stq_bytes; intros h; unfold is_byte; lia).
  by split_and!.
Qed.

(** Eight bytes at 0x400ffd, over two pages. *)
Lemma demo_access access_type : x86_access demo_cpu demo_ram access_type (make_memop_idx MO_Q 1) MO_Q 0x400ffd.
Proof.
  split_and!; try done. intros a [->| ->].
  - exists 0x42000. split; [by vm_compute|]. split; [by split|]. exists 12, 0x42007, (mkPage true true true). by destruct access_type; vm_compute.
  - exists 0x99000. split; [by vm_compute|]. split; [by split|]. exists 12, 0x99007, (mkPage true true true). by destruct access_type; vm_compute.
Qed.

Lemma guest_load_correct_witness :
  exists s', load_helper (fill demo_cpu) (fun _ _ _ _ => Ret tt) (fun _ _ _ i => Ret (0, i)) 1 0x400ffd (make_memop_idx MO_Q 1) MO_Q false demo_env =
    Ret (0xccddeeff00112233, s') /\ io s' = tt.
Proof.
  destruct (guest_load_correct demo_cpu demo_ram demo_long (fun _ _ _ _ => Ret tt) (fun _ _ _ i => Ret (0, i)) (fun _ _ _ _ => eq_refl)
    demo_tlb0 0 [] 0 0x400ffd (make_memop_idx MO_Q 1) MO_Q false demo_env demo_state (demo_access _)) as (s' & E & Hio & _).
  exists s'. split; [|done]. rewrite E. by do 2 f_equal.
Defined.

Lemma guest_store_load_witness :
  exists s1, store_helper (fill demo_cpu) (fun _ _ _ _ => Ret tt) (fun _ _ _ _ i => Ret i) (fun _ _ => true) (fun _ _ dm => Ret dm) (fun _ _ dm => dm) (fun _ _ => false)
    1 0x400ffd 0xdeadbeef (make_memop_idx MO_Q 1) MO_Q demo_env = Ret s1 /\
  exists s2, load_helper (fill demo_cpu) (fun _ _ _ _ => Ret tt) (fun _ _ _ i => Ret (0, i)) 1 0x400ffd (make_memop_idx MO_Q 1) MO_Q true s1 = Ret (0xdeadbeef, s2).
Proof.
  destruct (guest_store_load demo_cpu demo_ram demo_long (fun _ _ _ _ => Ret tt) (fun _ _ _ i => Ret (0, i)) (fun _ _ _ _ i => Ret i) (fun _ _ => true)
    (fun _ _ dm => Ret dm) (fun _ _ dm => dm) (fun _ _ => false) (fun _ _ _ _ => eq_refl) (fun _ _ dm => ex_intro _ dm eq_refl)
    demo_tlb0 0 [] 0 0x400ffd 0xdeadbeef (make_memop_idx MO_Q 1) MO_Q demo_env demo_state (demo_access _)) as (s1 & E & _ & _ & _ & H).
  exists s1. split; [exact E|]. destruct (H true (demo_access _)) as (s2 & E2 & _). exists s2. exact E2.
Defined.

Lemma demo_path : Forall (fun a => entry (TableMemory := host_tables demo_ram) a = true) (walk_path ram_ldq demo_cpu 0x400ffd demo_ram).
Proof. apply List.Forall_forall, List.forallb_forall. vm_compute. reflexivity. Qed.

Lemma demo_wf : table_wf demo_ram demo_ram.
Proof. apply same_wf with demo_ram. apply demo_state. Qed.

Lemma x86_walk_is_radix_witness :
  exists q, handle_mmu_fault ram_ldq ram_ldl ram_stl ram_stq demo_cpu 0x400ffd MMU_DATA_STORE 1 demo_ram = Go (Mapped (mkMap 0x400000 0x42000 7 4096)) q.
Proof.
  destruct (x86_walk_is_radix ram_ldq ram_ldl ram_stl ram_stq (mem := host_tables demo_ram) demo_cpu 0x400ffd MMU_DATA_STORE 1 demo_ram demo_long eq_refl demo_wf demo_path)
    as (q & _ & H).
  assert (judge demo_cpu MMU_DATA_STORE 1 (walk_found ram_ldq demo_cpu 0x400ffd demo_ram) = Page 12 0x42007 (mkPage true true true)) as E by (vm_compute; reflexivity).
  rewrite E in H. destruct H as (d & Hh & Hd). rewrite (Hd eq_refl) in Hh. exists q. exact Hh.
Defined.

Lemma debug_walk_agrees_witness :
  x86_cpu_get_phys_page_attrs_debug ram_ldq ram_ldl demo_cpu 0x401008 demo_ram = Some 0x99000.
Proof.
  apply (debug_walk_agrees ram_ldq ram_ldl demo_cpu 0x401008 demo_ram 12 0x4008 0x99007 all_rights demo_long).
  - reflexivity.
  - lia.
  - vm_compute. reflexivity.
Defined.

(** A nested guest whose host maps its tables as not executable: the walk of the guest reads its
    first table entry with no [prot] to take the right from. *)
Definition nested_cpu : CPUX86State := mkCPU (2 ^ 31) 0 0x5000 (2 ^ 5) (2 ^ 11) (2 ^ 14) (2 ^ 6) 0 (-1) 7 0x1000 0 0 0 0.
Definition nested_ram : Z -> Z :=
  ram_stq 0x1000 0x2007 (ram_stq 0x2000 0x3007 (ram_stq 0x3000 0x4007 (ram_stq 0x4028 (0x5007 + 2 ^ 63) (fun _ => 0)))).

Theorem nested_nx_null :
  exists q, handle_mmu_fault ram_ldq ram_ldl ram_stl ram_stq nested_cpu 0x400000 MMU_DATA_LOAD 2 nested_ram = Stop (Crash "null prot") q.
Proof. eexists. vm_compute. reflexivity. Qed.
End X86Guest.
