(* ===== verification/Tracer.v ===== *)
(** * The tracer plugin

    qemu/tests/plugin/cache_test.c with the functions it calls: the trace points
    of plugins/api.c and the look-up of a traced access in the software TLB
    ([tlb_plugin_lookup] of accel/tcg/cputlb.c).  Traced events are those of [TraceReader]. *)

From S2P Require Import Prelude TraceReader PluginCore PluginLoader PluginApi Pqii SoftTlb.
Open Scope Z_scope.
Open Scope c_scope.

Module Tracer.
Import PluginCore PluginApi.

(** ** Looking up an access *)

Inductive hwaddr_v :=
| HwIo (offset : Z)
| HwRam (hostaddr paddr : Z).

Record qemu_plugin_hwaddr := mkHw {
  hw_is_store : bool;
  hw_v : hwaddr_v;
}.

Definition qemu_plugin_hwaddr_is_io (h : qemu_plugin_hwaddr) : bool :=
  match hw_v h with HwIo _ => true | HwRam _ _ => false end.

(** The registers the trace points read, and the TLB. *)
Record machine := mkMachine {
  cs_selector : Z;
  cr3 : Z;
  tlb : SoftTlb.CPUTLB;
}.

(** The result and the event traced. *)
Definition tlb_plugin_lookup (m : machine) (g : Pqii.pqii_data) (addr mmu_idx info : Z) (is_store : bool)
  : option qemu_plugin_hwaddr * list Reader.guest_event :=
  let tlbe := SoftTlb.tlb_entry (tlb m) mmu_idx addr in
  let tlb_addr := if is_store then SoftTlb.addr_write tlbe else SoftTlb.addr_read tlbe in
  if SoftTlb.tlb_hit tlb_addr addr then
    if ztrue (Z.land tlb_addr SoftTlb.TLB_MMIO) then
      let off := u64 (Z.land (SoftTlb.io_addr (SoftTlb.iotlb (SoftTlb.d (tlb m) mmu_idx) (SoftTlb.tlb_index (tlb m) mmu_idx addr))) SoftTlb.TARGET_PAGE_MASK + addr) in
      (Some (mkHw is_store (HwIo off)), [])
    else
      let pa := u64 (Z.land addr (not64 SoftTlb.TARGET_PAGE_MASK) + SoftTlb.e_paddr tlbe) in
      let h := mkHw is_store (HwRam (u64 (addr + SoftTlb.addend tlbe)) pa) in
      let mem_size := Z.shiftl 1 (Z.land info TRACE_MEM_SZ_SHIFT_MASK) in
      let mem_size := if qemu_plugin_hwaddr_is_io h then 0 else mem_size in
      (Some h,
       if ztrue (Pqii.status g) then
         [Reader.EvData (Reader.mkData (Pqii.icount g) addr pa (b2z is_store) (u8 mem_size)
            (Z.land (cs_selector m) 0x3) (cr3 m))]
       else [])
  else (None, []).

(** ** The plugin's state *)

Definition WARMUP_THRESHOLD_1 : Z := 0.
Definition WARMUP_THRESHOLD_2 : Z := 1000000000.
Definition MAX_UDATA_BUF_SIZE : Z := 10000.
Definition plugin_rw : Z := QEMU_PLUGIN_MEM_RW.

(** [udata_buf] by byte address; bytes that were never written are 0. *)
Record tracer := mkTracer {
  track_io : bool;
  do_inline : bool;
  udata_buf : gmap Z Z;
  idx_udata_buf : Z;
  tmp_vaddr : Z;
  tmp_paddr : Z;
  g_pqii_data : Pqii.pqii_data;
  trace : list Reader.guest_event;
}.

Definition set_g (st : tracer) (g : Pqii.pqii_data) (l : list Reader.guest_event) : tracer :=
  mkTracer (track_io st) (do_inline st) (udata_buf st) (idx_udata_buf st) (tmp_vaddr st) (tmp_paddr st) g (trace st ++ l).
Definition set_tmp (st : tracer) (v p : Z) : tracer :=
  mkTracer (track_io st) (do_inline st) (udata_buf st) (idx_udata_buf st) v p (g_pqii_data st) (trace st).
Definition set_udata (st : tracer) (b : gmap Z Z) (i : Z) : tracer :=
  mkTracer (track_io st) (do_inline st) b i (tmp_vaddr st) (tmp_paddr st) (g_pqii_data st) (trace st).

(** ** Trace points *)

Definition qemu_plugin_get_cpuinfo (m : machine) (vaddr paddr is_br_jmp target_vaddr icount : Z) (st : tracer)
  : tracer :=
  set_g st (g_pqii_data st)
    [Reader.EvInsn (Reader.mkInsn icount vaddr paddr (Z.land (cs_selector m) 0x3) (cr3 m) (u8 is_br_jmp) target_vaddr)].

(** The bytes [nop_data[k]]. *)
Definition nop_byte (st : tracer) (nop_data k : Z) : Z := default 0 (udata_buf st !! (nop_data + k)).

Definition qemu_plugin_nop (nop_data : Z) (st : tracer) : tracer :=
  set_g st (g_pqii_data st)
    [Reader.EvNop (Reader.mkNop (nop_byte st nop_data 0) (nop_byte st nop_data 1) (nop_byte st nop_data 2))].

Definition qemu_plugin_get_hwaddr (m : machine) (info vaddr : Z) (st : tracer)
  : option qemu_plugin_hwaddr * tracer :=
  let mmu_idx := Z.shiftr info TRACE_MEM_MMU_SHIFT in
  let r := tlb_plugin_lookup m (g_pqii_data st) vaddr mmu_idx info (ztrue (Z.land info TRACE_MEM_ST)) in
  (r.1, set_g st (g_pqii_data st) r.2).

(** ** Callbacks *)

(** What the callback does with the address is nothing, in both settings of
    [track_io]: only the event traced by the look-up remains. *)
Definition vcpu_haddr (m : machine) (meminfo vaddr : Z) (st : tracer) : tracer :=
  let g := g_pqii_data st in
  if ztrue (Pqii.status g) then
    if (WARMUP_THRESHOLD_1 <? Pqii.icount g) && (Pqii.icount g <=? WARMUP_THRESHOLD_2)
    then (qemu_plugin_get_hwaddr m meminfo vaddr st).2
    else st
  else st.

Definition vcpu_insn_exec_before (udata : Z) (st : tracer) : tracer :=
  let st := qemu_plugin_nop udata st in
  let g := g_pqii_data st in
  if nop_byte st udata 0 =? 0xbe then set_g st (Pqii.mkData 1 (Pqii.icount g)) []
  else if nop_byte st udata 0 =? 0xed then set_g st (Pqii.mkData 0 (Pqii.icount g)) []
  else st.

Definition vcpu_insn_get_vaddr (udata : Z) (st : tracer) : tracer := set_tmp st udata (tmp_paddr st).
Definition vcpu_insn_get_paddr (udata : Z) (st : tracer) : tracer := set_tmp st (tmp_vaddr st) udata.

(** The body the eight execution callbacks share; [kind] and [target] are the
    arguments each passes on. *)
Definition vcpu_insn_exec (m : machine) (kind target : Z) (st : tracer) : tracer :=
  let g := g_pqii_data st in
  if ztrue (Pqii.status g) then
    let c := u64 (Pqii.icount g + 1) in
    if c <=? WARMUP_THRESHOLD_2 then
      let st := set_g st (Pqii.mkData (Pqii.status g) c) [] in
      if WARMUP_THRESHOLD_1 <? c
      then qemu_plugin_get_cpuinfo m (tmp_vaddr st) (tmp_paddr st) kind target c st
      else st
    else set_g st (Pqii.mkData 0 c) []
  else st.

Definition vcpu_insn_exec_normal (m : machine) (udata : Z) := vcpu_insn_exec m 0 0.
Definition vcpu_insn_exec_br (m : machine) (udata : Z) := vcpu_insn_exec m 1 udata.
Definition vcpu_insn_exec_dir_jmp (m : machine) (udata : Z) := vcpu_insn_exec m 2 udata.
Definition vcpu_insn_exec_indir_jmp (m : machine) (udata : Z) := vcpu_insn_exec m 3 udata.
Definition vcpu_insn_exec_dir_call (m : machine) (udata : Z) := vcpu_insn_exec m 4 udata.
Definition vcpu_insn_exec_indir_call (m : machine) (udata : Z) := vcpu_insn_exec m 5 udata.
Definition vcpu_insn_exec_ret (m : machine) (udata : Z) := vcpu_insn_exec m 6 udata.
Definition vcpu_insn_exec_others (m : machine) (udata : Z) := vcpu_insn_exec m 7 udata.

(** The addresses of the callbacks. *)
Definition fn_exec_before : Z := 0x100.
Definition fn_get_vaddr : Z := 0x110.
Definition fn_get_paddr : Z := 0x120.
Definition fn_exec (kind : Z) : Z := 0x200 + kind.
Definition fn_haddr : Z := 0x300.
Definition fn_tb_trans : Z := 0x400.
Definition fn_plugin_exit : Z := 0x410.

(** A call through a pointer to an execution callback. *)
Definition call_exec (m : machine) (f udata : Z) (st : tracer) : cres tracer :=
  if f =? fn_exec_before then Ret (vcpu_insn_exec_before udata st)
  else if f =? fn_get_vaddr then Ret (vcpu_insn_get_vaddr udata st)
  else if f =? fn_get_paddr then Ret (vcpu_insn_get_paddr udata st)
  else if f =? fn_exec 0 then Ret (vcpu_insn_exec_normal m udata st)
  else if f =? fn_exec 1 then Ret (vcpu_insn_exec_br m udata st)
  else if f =? fn_exec 2 then Ret (vcpu_insn_exec_dir_jmp m udata st)
  else if f =? fn_exec 3 then Ret (vcpu_insn_exec_indir_jmp m udata st)
  else if f =? fn_exec 4 then Ret (vcpu_insn_exec_dir_call m udata st)
  else if f =? fn_exec 5 then Ret (vcpu_insn_exec_indir_call m udata st)
  else if f =? fn_exec 6 then Ret (vcpu_insn_exec_ret m udata st)
  else if f =? fn_exec 7 then Ret (vcpu_insn_exec_others m udata st)
  else Abort "wild function pointer".

Definition call_mem (m : machine) (f meminfo vaddr : Z) (st : tracer) : cres tracer :=
  if f =? fn_haddr then Ret (vcpu_haddr m meminfo vaddr st) else Abort "wild function pointer".

(** ** Translation *)

Definition byte (l : list Z) (k : nat) : cres Z :=
  match l !! k with Some b => Ret b | None => Abort "read past the instruction" end.

(** The condition of the marker instruction, tested from left to right. *)
Definition is_marker (d : list Z) : cres bool :=
  let* b0 := byte d 0 in
  if negb (b0 =? 0x0f) then Ret false else
  let* b1 := byte d 1 in
  if negb (b1 =? 0x1f) then Ret false else
  let* b2 := byte d 2 in
  if negb (b2 =? 0x84) then Ret false else
  let* b3 := byte d 3 in
  Ret ((b3 =? 0xbe) || (b3 =? 0xed) || (b3 =? 0xac)).

Section Translation.
(** The address of [udata_buf]. *)
Variable udata_base : Z.

Definition udata_slot (i : Z) : Z := udata_base + 3 * i.

(** One turn of the loop of [vcpu_tb_trans]. *)
Definition trans_insn (i : qemu_plugin_insn) (st : tracer) : cres (qemu_plugin_insn * tracer) :=
  let d := qemu_plugin_insn_data i in
  let* b := is_marker d in
  if b then
    let slot := udata_slot (idx_udata_buf st) in
    let* b3 := byte d 3 in
    let* b6 := byte d 6 in
    let* b7 := byte d 7 in
    let buf := <[slot + 2 := b7]> (<[slot + 1 := b6]> (<[slot := b3]> (udata_buf st))) in
    let i := qemu_plugin_register_vcpu_insn_exec_cb i fn_exec_before CB_NO_REGS slot in
    let idx := idx_udata_buf st + 1 in
    Ret (i, set_udata st buf (if MAX_UDATA_BUF_SIZE <=? idx then 0 else idx))
  else
    let va := qemu_plugin_insn_vaddr i in
    let pa := qemu_plugin_insn_paddr i in
    let k := qemu_plugin_insn_is_br_jmp i in
    let t := qemu_plugin_insn_target_vaddr i in
    let i := qemu_plugin_register_vcpu_insn_exec_cb i fn_get_vaddr CB_NO_REGS va in
    let i := qemu_plugin_register_vcpu_insn_exec_cb i fn_get_paddr CB_NO_REGS pa in
    let i :=
      if (1 <=? k) && (k <=? 7) then qemu_plugin_register_vcpu_insn_exec_cb i (fn_exec k) CB_NO_REGS t
      else qemu_plugin_register_vcpu_insn_exec_cb i (fn_exec 0) CB_NO_REGS 0 in
    Ret (qemu_plugin_register_vcpu_mem_cb i fn_haddr CB_NO_REGS plugin_rw 0, st).

(** [k] turns from position [i]. *)
Fixpoint trans_loop (k i : nat) (tb : qemu_plugin_tb) (st : tracer) : cres (qemu_plugin_tb * tracer) :=
  match k with
  | O => Ret (tb, st)
  | S k =>
      match qemu_plugin_tb_get_insn tb i with
      | None => Abort "null instruction"
      | Some j =>
          match insns tb !! j with
          | None => Abort "wild instruction"
          | Some insn =>
              let* r := trans_insn insn st in
              trans_loop k (S i) (set_insns tb (<[j := r.1]> (insns tb)) (n tb)) r.2
          end
      end
  end.

Definition vcpu_tb_trans (tb : qemu_plugin_tb) (st : tracer) : cres (qemu_plugin_tb * tracer) :=
  trans_loop (qemu_plugin_tb_n_insns tb) 0 tb st.

(** ** Execution of instrumented code *)

Fixpoint run_exec (m : machine) (cbs : list qemu_plugin_dyn_cb) (st : tracer) : cres tracer :=
  match cbs with
  | [] => Ret st
  | cb :: cbs => let* st := call_exec m (d_f cb) (userp cb) st in run_exec m cbs st
  end.

(** The callbacks of one access: those that want its direction. *)
Fixpoint run_mem (m : machine) (cbs : list qemu_plugin_dyn_cb) (info vaddr : Z) (st : tracer) : cres tracer :=
  match cbs with
  | [] => Ret st
  | cb :: cbs =>
      let* st :=
        if ztrue (Z.land (rw cb) (b2z (qemu_plugin_mem_is_store info) + 1))
        then call_mem m (d_f cb) info vaddr st else Ret st in
      run_mem m cbs info vaddr st
  end.

Fixpoint run_accesses (m : machine) (cbs : list qemu_plugin_dyn_cb) (accs : list (Z * Z)) (st : tracer)
  : cres tracer :=
  match accs with
  | [] => Ret st
  | (info, va) :: accs => let* st := run_mem m cbs info va st in run_accesses m cbs accs st
  end.

(** One execution of an instrumented instruction: its callbacks, then those of
    its memory accesses. *)
Definition exec_insn (m : machine) (i : qemu_plugin_insn) (accs : list (Z * Z)) (st : tracer) : cres tracer :=
  let* st := run_exec m (insn_regular i) st in
  run_accesses m (mem_regular i) accs st.

(** Blocks are translated into the code cache and executed from it. *)
Inductive event :=
| Translate (tb : qemu_plugin_tb)
| Execute (j : nat) (m : machine) (accs : list (Z * Z)).

Definition step (e : event) (s : list qemu_plugin_insn * tracer) : cres (list qemu_plugin_insn * tracer) :=
  match e with
  | Translate tb => let* r := vcpu_tb_trans tb s.2 in Ret (s.1 ++ take (n r.1) (insns r.1), r.2)
  | Execute j m accs =>
      match s.1 !! j with
      | None => Abort "not in the code cache"
      | Some i => let* st := exec_insn m i accs s.2 in Ret (s.1, st)
      end
  end.

Fixpoint run (es : list event) (s : list qemu_plugin_insn * tracer) : cres (list qemu_plugin_insn * tracer) :=
  match es with
  | [] => Ret s
  | e :: es => let* s := step e s in run es s
  end.

End Translation.

(** ** Installation *)

(** The options; [None]: an unknown one. *)
Fixpoint parse_opts (argv : list string) (o : bool * bool) : option (bool * bool) :=
  match argv with
  | [] => Some o
  | opt :: argv =>
      if String.eqb opt "io" then parse_opts argv (true, o.2)
      else if String.eqb opt "inline" then parse_opts argv (o.1, true)
      else None
  end.

(** [alloc] gives the address [g_new] returns for the next subscription. *)
Definition qemu_plugin_install (alloc : qemu_plugin_state -> Z) (id : Z) (argv : list string)
  (s : qemu_plugin_state) : cres (Z * qemu_plugin_state) :=
  match parse_opts argv (false, false) with
  | None => Ret (-1, s)
  | Some _ =>
      let* s := qemu_plugin_register_vcpu_tb_trans_cb (alloc s) id fn_tb_trans s in
      let* s := qemu_plugin_register_atexit_cb (alloc s) id fn_plugin_exit 0 s in
      Ret (0, s)
  end.

Definition tracer_init : tracer :=
  mkTracer false false ∅ 0 0 0 (Pqii.mkData 0 0) [].

(** ** What is traced: the specification *)

Definition marker_bytes (d : list Z) : Z * Z * Z := (nth 3 d 0, nth 6 d 0, nth 7 d 0).

(** The kind and the target recorded for an instruction. *)
Definition traced_kind (i : qemu_plugin_insn) : Z :=
  if (1 <=? is_br_jmp i) && (is_br_jmp i <=? 7) then is_br_jmp i else 0.
Definition traced_target (i : qemu_plugin_insn) : Z :=
  if (1 <=? is_br_jmp i) && (is_br_jmp i <=? 7) then target_vaddr i else 0.

(** The window of instructions that is recorded. *)
Definition in_window (c : Z) : bool := (WARMUP_THRESHOLD_1 <? c) && (c <=? WARMUP_THRESHOLD_2).

(** The event of an access of a traced instruction: a hit of the TLB on RAM. *)
Definition access_event (m : machine) (c : Z) (acc : Z * Z) : list Reader.guest_event :=
  let '(info, va) := acc in
  let store := qemu_plugin_mem_is_store info in
  let e := SoftTlb.tlb_entry (tlb m) (Z.shiftr info TRACE_MEM_MMU_SHIFT) va in
  let ta := if store then SoftTlb.addr_write e else SoftTlb.addr_read e in
  if SoftTlb.tlb_hit ta va && negb (ztrue (Z.land ta SoftTlb.TLB_MMIO)) then
    [Reader.EvData (Reader.mkData c va (u64 (Z.land va (not64 SoftTlb.TARGET_PAGE_MASK) + SoftTlb.e_paddr e)) (b2z store)
       (u8 (Z.shiftl 1 (qemu_plugin_mem_size_shift info))) (Z.land (cs_selector m) 0x3) (cr3 m))]
  else [].

(** One execution: a marker is always recorded and switches tracing on (0xbe)
    or off (0xed); any other instruction is counted while tracing is on, and
    recorded with its accesses while the count is in the window. *)
Definition spec_exec (m : machine) (i : qemu_plugin_insn) (accs : list (Z * Z))
  (s : Pqii.pqii_data * list Reader.guest_event) : cres (Pqii.pqii_data * list Reader.guest_event) :=
  let '(g, tr) := s in
  let* b := is_marker (data i) in
  if b then
    let '(b0, b1, b2) := marker_bytes (data i) in
    let on := if b0 =? 0xbe then 1 else if b0 =? 0xed then 0 else Pqii.status g in
    Ret (Pqii.mkData on (Pqii.icount g), tr ++ [Reader.EvNop (Reader.mkNop b0 b1 b2)])
  else if ztrue (Pqii.status g) then
    let c := u64 (Pqii.icount g + 1) in
    if in_window c then
      Ret (Pqii.mkData (Pqii.status g) c,
           tr ++ Reader.EvInsn (Reader.mkInsn c (vaddr i) (paddr i) (Z.land (cs_selector m) 0x3) (cr3 m)
                   (u8 (traced_kind i)) (traced_target i)) :: concat (map (access_event m c) accs))
    else Ret (Pqii.mkData (if c <=? WARMUP_THRESHOLD_2 then Pqii.status g else 0) c, tr)
  else Ret (g, tr).

(** The same on sequences; the code cache holds the instructions themselves. *)
Definition spec_step (e : event) (s : list qemu_plugin_insn * (Pqii.pqii_data * list Reader.guest_event))
  : cres (list qemu_plugin_insn * (Pqii.pqii_data * list Reader.guest_event)) :=
  match e with
  | Translate tb => Ret (s.1 ++ take (n tb) (insns tb), s.2)
  | Execute j m accs =>
      match s.1 !! j with
      | None => Abort "not in the code cache"
      | Some i => let* x := spec_exec m i accs s.2 in Ret (s.1, x)
      end
  end.

Fixpoint spec_run (es : list event) (s : list qemu_plugin_insn * (Pqii.pqii_data * list Reader.guest_event))
  : cres (list qemu_plugin_insn * (Pqii.pqii_data * list Reader.guest_event)) :=
  match es with
  | [] => Ret s
  | e :: es => let* s := spec_step e s in spec_run es s
  end.

(** ** Translated instructions *)

(** The bytes the plugin looks at are there, and no callback is registered. *)
Definition insn_ok (i : qemu_plugin_insn) : Prop :=
  insn_regular i = [] /\ mem_regular i = [] /\
  exists b, is_marker (data i) = Ret b /\ (b = true -> (8 <= List.length (data i))%nat).

Definition markers (l : list qemu_plugin_insn) : Z :=
  foldr (fun i k => (match is_marker (data i) with Ret true => 1 | _ => 0 end) + k) 0 l.

Definition exec_cb (f u : Z) : qemu_plugin_dyn_cb :=
  mkDyn f u (cb_to_tcg_flags CB_NO_REGS) PLUGIN_CB_REGULAR 0 INLINE_ADD_U64 0.

Definition plain_cbs (i : qemu_plugin_insn) : list qemu_plugin_dyn_cb :=
  [exec_cb fn_get_vaddr (vaddr i); exec_cb fn_get_paddr (paddr i); exec_cb (fn_exec (traced_kind i)) (traced_target i)].

Definition mem_cb : qemu_plugin_dyn_cb :=
  mkDyn fn_haddr 0 (cb_to_tcg_flags CB_NO_REGS) PLUGIN_CB_REGULAR plugin_rw INLINE_ADD_U64 0.

Section Refinement.
Context (base : Z).

(** The bytes in slot [k]. *)
Definition slot_bytes (buf : gmap Z Z) (k : Z) : Z * Z * Z :=
  let a := udata_slot base k in
  (default 0 (buf !! (a + 0)), default 0 (buf !! (a + 1)), default 0 (buf !! (a + 2))).

(** [i'] is the instrumented [i]; a marker has one of the first [nm] slots. *)
Definition instrumented (nm : Z) (buf : gmap Z Z) (i i' : qemu_plugin_insn) : Prop :=
  match is_marker (data i) with
  | Ret true => exists k, 0 <= k < nm /\ insn_regular i' = [exec_cb fn_exec_before (udata_slot base k)] /\
                mem_regular i' = [] /\ slot_bytes buf k = marker_bytes (data i)
  | Ret false => insn_regular i' = plain_cbs i /\ mem_regular i' = [mem_cb]
  | Abort _ => False
  end.

Definition same_slots (nm : Z) (b b' : gmap Z Z) : Prop :=
  forall k, 0 <= k < nm -> slot_bytes b' k = slot_bytes b k.

Lemma instrumented_mono nm nm' b b' i i' :
  instrumented nm b i i' -> nm <= nm' -> same_slots nm b b' -> instrumented nm' b' i i'.
Proof.
  unfold instrumented. destruct (is_marker (data i)) as [[]|]; [|done..].
  intros (k & Hk & H1 & H2 & H3) Hle Hs. exists k. split_and!; [lia..|done|done|]. by rewrite Hs.
Qed.

Lemma slot_insert nm buf k b3 b6 b7 :
  let a := udata_slot base nm in
  slot_bytes (<[a + 2 := b7]> (<[a + 1 := b6]> (<[a := b3]> buf))) k =
  if decide (k = nm) then (b3, b6, b7) else slot_bytes buf k.
Proof.
  intros a. unfold slot_bytes. destruct (decide (k = nm)) as [->|Hne]; fold a.
  - rewrite Z.add_0_r. rewrite lookup_insert_eq.
    rewrite (lookup_insert_ne _ (a + 2) a), (lookup_insert_ne _ (a + 1) a), lookup_insert_eq by lia.
    by rewrite (lookup_insert_ne _ (a + 2) (a + 1)), lookup_insert_eq by lia.
  - unfold a, udata_slot. by rewrite !lookup_insert_ne by lia.
Qed.

Lemma byte_nth d k : (k < List.length d)%nat -> byte d k = Ret (nth k d 0).
Proof. intros H. unfold byte. destruct (nth_lookup_or_length d k 0) as [->|?]; [done|lia]. Qed.

(** Only the switch, the counter and the trace are left alone. *)
Definition same_trace (st st' : tracer) : Prop :=
  g_pqii_data st' = g_pqii_data st /\ trace st' = trace st.

Lemma trans_insn_ok i st nm :
  insn_ok i -> 0 <= nm -> nm + markers [i] <= MAX_UDATA_BUF_SIZE -> idx_udata_buf st = nm mod MAX_UDATA_BUF_SIZE ->
  exists i' st', trans_insn base i st = Ret (i', st') /\ same_trace st st' /\
    idx_udata_buf st' = (nm + markers [i]) mod MAX_UDATA_BUF_SIZE /\
    same_slots nm (udata_buf st) (udata_buf st') /\
    instrumented (nm + markers [i]) (udata_buf st') i i'.
Proof.
  intros (Hr & Hm & b & Hb & Hlen) Hnm Hle Hidx. unfold trans_insn, qemu_plugin_insn_data, markers, instrumented in *.
  cbn [foldr] in *. rewrite Hb in *. cbn [cbind]. unfold MAX_UDATA_BUF_SIZE in *. destruct b.
  - specialize (Hlen eq_refl). rewrite !byte_nth by lia. cbn [cbind].
    assert (idx_udata_buf st = nm) as Hi by (rewrite Hidx; apply Z.mod_small; lia). rewrite Hi.
    eexists _, _. split; [done|]. cbn [idx_udata_buf udata_buf set_udata].
    split_and!; [done..| | |].
    + destruct (Z.leb_spec 10000 (nm + 1)).
      * replace (nm + (1 + 0)) with 10000 by lia. done.
      * rewrite Z.mod_small by lia. lia.
    + intros k Hk. rewrite slot_insert, decide_False by lia. done.
    + exists nm. split_and!; [lia|lia| |done|by rewrite slot_insert, decide_True].
      cbn [insn_regular qemu_plugin_register_vcpu_insn_exec_cb set_cbs]. by rewrite Hr.
  - eexists _, _. split; [done|]. split_and!; [done..|by rewrite Z.add_0_r|done| |].
    + unfold plain_cbs, traced_kind, traced_target, qemu_plugin_insn_is_br_jmp, qemu_plugin_insn_target_vaddr.
      destruct (_ && _); cbn [insn_regular qemu_plugin_register_vcpu_mem_cb
        qemu_plugin_register_vcpu_insn_exec_cb set_cbs]; by rewrite Hr.
    + destruct (_ && _); cbn [mem_regular qemu_plugin_register_vcpu_mem_cb
        qemu_plugin_register_vcpu_insn_exec_cb set_cbs]; by rewrite Hm.
Qed.

Lemma markers_cons i l : markers (i :: l) = markers [i] + markers l.
Proof. unfold markers. cbn [foldr]. lia. Qed.

Lemma markers_nonneg l : 0 <= markers l.
Proof. induction l as [|i l IH]; [done|]. unfold markers in *. cbn [foldr]. destruct (is_marker _) as [[]|]; lia. Qed.

Lemma markers_app l1 l2 : markers (l1 ++ l2) = markers l1 + markers l2.
Proof. induction l1 as [|i l1 IH]; [done|]. rewrite <- app_comm_cons, (markers_cons i (l1 ++ l2)), (markers_cons i l1), IH. lia. Qed.

(** The loop, on a block split into the instructions done, those ahead, and the
    unused records. *)
Lemma trans_loop_ok todo : forall done rest tb st nm,
  insns tb = done ++ todo ++ rest -> n tb = (List.length done + List.length todo)%nat ->
  Forall insn_ok todo -> 0 <= nm -> nm + markers todo <= MAX_UDATA_BUF_SIZE ->
  idx_udata_buf st = nm mod MAX_UDATA_BUF_SIZE ->
  exists todo' st', trans_loop base (List.length todo) (List.length done) tb st =
      Ret (set_insns tb (done ++ todo' ++ rest) (n tb), st') /\
    same_trace st st' /\ idx_udata_buf st' = (nm + markers todo) mod MAX_UDATA_BUF_SIZE /\
    same_slots nm (udata_buf st) (udata_buf st') /\
    Forall2 (instrumented (nm + markers todo) (udata_buf st')) todo todo'.
Proof.
  induction todo as [|i todo IH]; intros dn rest tb st nm Hins Hn Hok Hnm Hle Hidx.
  { exists [], st. split_and!; [|done..|by rewrite Z.add_0_r|done|constructor].
    cbn [trans_loop List.length]. rewrite <- Hins. by destruct tb. }
  inversion Hok as [|? ? Hi Hok']; subst. rewrite (markers_cons i todo) in *. pose proof (markers_nonneg todo).
  destruct (trans_insn_ok i st nm Hi) as (i' & st1 & E1 & [Hg1 Ht1] & Hidx1 & Hs1 & Hins1); [lia..|done|].
  cbn [trans_loop List.length]. unfold qemu_plugin_tb_get_insn. destruct (Nat.leb_spec (n tb) (List.length dn)) as [Hx|_];
    [simpl in Hn; lia|].
  assert (insns tb !! List.length dn = Some i) as -> by (rewrite Hins; by apply list_lookup_middle).
  rewrite E1. cbn [cbind fst snd].
  assert (<[List.length dn := i']> (insns tb) = (dn ++ [i']) ++ todo ++ rest) as ->.
  { rewrite Hins, insert_app_r_alt, Nat.sub_diag by lia. by rewrite <- app_assoc. }
  destruct (IH (dn ++ [i']) rest (set_insns tb ((dn ++ [i']) ++ todo ++ rest) (n tb)) st1 (nm + markers [i]))
    as (todo' & st2 & E2 & [Hg2 Ht2] & Hidx2 & Hs2 & HF); try done.
  { cbn [n set_insns]. rewrite length_app. simpl in *. lia. }
  { pose proof (markers_nonneg [i]). lia. }
  { lia. }
  exists (i' :: todo'), st2. rewrite length_app, Nat.add_1_r in E2. rewrite E2.
  pose proof (markers_nonneg [i]). split_and!.
  - by rewrite <- !app_assoc.
  - split; congruence.
  - rewrite Hidx2. f_equal. lia.
  - intros k Hk. rewrite Hs2 by lia. by apply Hs1.
  - rewrite <- Z.add_assoc in HF. constructor; [|done]. eapply instrumented_mono; [done|lia|done].
Qed.

(** *** Execution *)

(** All but the trace and the switch. *)
Definition same_buf (st st' : tracer) : Prop :=
  udata_buf st' = udata_buf st /\ idx_udata_buf st' = idx_udata_buf st.

Lemma call_exec_kind m k u st :
  0 <= k <= 7 -> (k = 0 -> u = 0) -> call_exec m (fn_exec k) u st = Ret (vcpu_insn_exec m k u st).
Proof.
  intros Hk Hu. assert (k = 0 \/ k = 1 \/ k = 2 \/ k = 3 \/ k = 4 \/ k = 5 \/ k = 6 \/ k = 7) as H by lia.
  repeat destruct H as [->|H]; try done; [by rewrite Hu|by subst k].
Qed.

Lemma haddr_event m info va st :
  vcpu_haddr m info va st =
  set_g st (g_pqii_data st)
    (if ztrue (Pqii.status (g_pqii_data st)) && in_window (Pqii.icount (g_pqii_data st))
     then access_event m (Pqii.icount (g_pqii_data st)) (info, va) else []).
Proof.
  assert (set_g st (g_pqii_data st) [] = st) as Hid by (destruct st; unfold set_g; cbn; by rewrite app_nil_r).
  unfold vcpu_haddr, in_window. destruct (ztrue (Pqii.status _)) eqn:Hs; cbn [andb]; [|done].
  destruct (_ && _); [|done]. unfold qemu_plugin_get_hwaddr, tlb_plugin_lookup, access_event. cbn [snd].
  change (ztrue (Z.land info TRACE_MEM_ST)) with (qemu_plugin_mem_is_store info).
  destruct (SoftTlb.tlb_hit _ va); cbn [andb snd]; [|done]. destruct (ztrue (Z.land _ SoftTlb.TLB_MMIO)); cbn [negb snd]; [done|].
  by rewrite Hs.
Qed.

Lemma run_accesses_none m accs st : run_accesses m [] accs st = Ret st.
Proof. induction accs as [|[info va] accs IH]; [done|]. cbn [run_accesses run_mem cbind]. done. Qed.

Lemma run_accesses_events m accs : forall st,
  run_accesses m [mem_cb] accs st =
  Ret (set_g st (g_pqii_data st)
    (if ztrue (Pqii.status (g_pqii_data st)) && in_window (Pqii.icount (g_pqii_data st))
     then concat (map (access_event m (Pqii.icount (g_pqii_data st))) accs) else [])).
Proof.
  induction accs as [|[info va] accs IH]; intros st; cbn [run_accesses run_mem].
  { destruct st as [? ? ? ? ? ? g ?]. unfold set_g. cbn. destruct (_ && _); cbn; by rewrite app_nil_r. }
  assert (ztrue (Z.land (rw mem_cb) (b2z (qemu_plugin_mem_is_store info) + 1)) = true) as ->
    by (by destruct (qemu_plugin_mem_is_store info)).
  cbn [call_mem cbind]. change (call_mem m (d_f mem_cb) info va st) with (Ret (vcpu_haddr m info va st)).
  cbn [cbind]. rewrite IH, haddr_event. unfold set_g. cbn [g_pqii_data trace map concat].
  do 2 f_equal. destruct (_ && _); by rewrite <- app_assoc.
Qed.

Lemma traced_kind_range i : 0 <= traced_kind i <= 7 /\ (traced_kind i = 0 -> traced_target i = 0).
Proof.
  unfold traced_kind, traced_target. destruct (Z.leb_spec 1 (is_br_jmp i)), (Z.leb_spec (is_br_jmp i) 7); cbn [andb]; lia.
Qed.

Lemma run_plain m i st :
  run_exec m (plain_cbs i) st =
  Ret (vcpu_insn_exec m (traced_kind i) (traced_target i) (set_tmp st (vaddr i) (paddr i))).
Proof.
  destruct (traced_kind_range i) as [Hk H0]. cbn [plain_cbs run_exec d_f userp exec_cb].
  change (call_exec m fn_get_vaddr (vaddr i) st) with (Ret (vcpu_insn_get_vaddr (vaddr i) st)). cbn [cbind].
  change (call_exec m fn_get_paddr (paddr i) ?s) with (Ret (vcpu_insn_get_paddr (paddr i) s)). cbn [cbind].
  by rewrite call_exec_kind.
Qed.

Lemma exec_insn_ok m i i' accs nm st g' tr' :
  instrumented nm (udata_buf st) i i' ->
  spec_exec m i accs (g_pqii_data st, trace st) = Ret (g', tr') ->
  exists st', exec_insn m i' accs st = Ret st' /\ g_pqii_data st' = g' /\ trace st' = tr' /\ same_buf st st'.
Proof.
  unfold instrumented, spec_exec, exec_insn. destruct (is_marker (data i)) as [[]|] eqn:Hb; [| |done]; cbn [cbind].
  - intros (k & _ & -> & -> & Hs). unfold slot_bytes in Hs. destruct (marker_bytes (data i)) as [[b0 b1] b2].
    injection Hs as H0 H1 H2. cbn [run_exec d_f userp exec_cb]. intros [= <- <-].
    change (call_exec m fn_exec_before ?u st) with (Ret (vcpu_insn_exec_before u st)). cbn [cbind].
    rewrite run_accesses_none. eexists. split; [done|].
    unfold vcpu_insn_exec_before, qemu_plugin_nop, nop_byte, same_buf. cbn [udata_buf set_g]. rewrite H0, H1, H2.
    destruct (b0 =? 0xbe), (b0 =? 0xed); cbn [g_pqii_data trace set_g udata_buf idx_udata_buf];
      rewrite ?app_nil_r; by destruct (g_pqii_data st).
  - intros [-> ->]. rewrite run_plain. cbn [cbind]. rewrite run_accesses_events.
    unfold vcpu_insn_exec. cbn [g_pqii_data set_tmp]. set (g := g_pqii_data st) in *.
    intros H. eexists. split; [done|]. destruct (ztrue (Pqii.status g)) eqn:Hs.
    + unfold in_window in *. set (c := u64 (Pqii.icount g + 1)) in *.
      destruct (c <=? WARMUP_THRESHOLD_2) eqn:H2; [destruct (WARMUP_THRESHOLD_1 <? c) eqn:H1|]; cbn [andb] in H;
        rewrite ?andb_false_r in H; injection H as <- <-;
        cbn [g_pqii_data trace set_g set_tmp qemu_plugin_get_cpuinfo Pqii.status Pqii.icount tmp_vaddr tmp_paddr];
        rewrite ?Hs, ?H1, ?H2; cbn [andb ztrue Z.eqb negb]; rewrite ?app_nil_r, <- ?app_assoc; done.
    + injection H as <- <-. cbn [g_pqii_data set_tmp]. fold g. rewrite Hs.
      cbn [andb g_pqii_data trace set_g set_tmp]. by rewrite app_nil_r.
Qed.

(** *** Whole runs *)

Definition event_fits (e : event) : Prop :=
  match e with
  | Translate tb => (n tb <= List.length (insns tb))%nat /\ Forall insn_ok (take (n tb) (insns tb))
  | Execute _ _ _ => True
  end.

Definition event_markers (e : event) : Z :=
  match e with Translate tb => markers (take (n tb) (insns tb)) | Execute _ _ _ => 0 end.

Definition run_markers (es : list event) : Z := foldr (fun e k => event_markers e + k) 0 es.

Lemma run_markers_nonneg es : 0 <= run_markers es.
Proof.
  induction es as [|e es IH]; [done|]. unfold run_markers in *. cbn [foldr]. destruct e; cbn [event_markers]; [|lia].
  pose proof (markers_nonneg (take (n tb) (insns tb))). lia.
Qed.

(** The concrete and the abstract state after [nm] marker translations. *)
Record related (nm : Z) (plain : list qemu_plugin_insn) (x : Pqii.pqii_data * list Reader.guest_event)
  (s : list qemu_plugin_insn * tracer) : Prop := {
  re_cache : Forall2 (instrumented nm (udata_buf s.2)) plain s.1;
  re_idx : idx_udata_buf s.2 = nm mod MAX_UDATA_BUF_SIZE;
  re_g : g_pqii_data s.2 = x.1;
  re_trace : trace s.2 = x.2;
}.

Lemma step_related nm plain x s e plain' x' :
  related nm plain x s -> 0 <= nm -> nm + event_markers e <= MAX_UDATA_BUF_SIZE -> event_fits e ->
  spec_step e (plain, x) = Ret (plain', x') ->
  exists s', step base e s = Ret s' /\ related (nm + event_markers e) plain' x' s'.
Proof.
  intros [Hc Hi Hg Ht] Hnm Hle Hf. destruct s as [cache st], x as [g tr]. cbn [fst snd] in *.
  destruct e as [tb|j m accs]; cbn [spec_step step event_markers event_fits fst snd] in *.
  - intros [= <- <-]. destruct Hf as [Hlen Hok].
    destruct (trans_loop_ok (take (n tb) (insns tb)) [] (drop (n tb) (insns tb)) tb st nm)
      as (l & st' & E & [Hg' Ht'] & Hidx & Hs & HF); [by rewrite take_drop|simpl; rewrite length_take; lia|done..|].
    assert (List.length l = n tb) as Hl.
    { apply Forall2_length in HF. rewrite <- HF, length_take. lia. }
    unfold vcpu_tb_trans, qemu_plugin_tb_n_insns. rewrite length_take, Nat.min_l in E by done.
    change (List.length []) with 0%nat in E. rewrite E. cbn [cbind fst snd]. eexists. split; [done|].
    pose proof (markers_nonneg (take (n tb) (insns tb))). split; cbn [fst snd]; [|congruence..].
    cbn [app n insns set_insns]. rewrite (take_app_length' l _ (n tb) (eq_sym Hl)). apply Forall2_app; [|done].
    eapply Forall2_impl; [|exact Hc]. intros i i' H'. eapply instrumented_mono; [done|lia|done].
  - destruct (plain !! j) as [i|] eqn:Hj; [|done]. rewrite cbind_Ret. intros (y & Hy & [= <- <-]).
    destruct (Forall2_lookup_l _ _ _ _ _ Hc Hj) as (i' & -> & Hi'). destruct y as [g' tr'].
    rewrite <- Hg, <- Ht in Hy.
    destruct (exec_insn_ok m i i' accs nm st g' tr' Hi' Hy) as (st' & -> & ? & ? & [Hb Hx]). cbn [cbind].
    eexists. split; [done|]. rewrite Z.add_0_r. split; cbn [fst snd]; [by rewrite Hb|congruence|done|done].
Qed.

Lemma run_related es : forall nm plain x s plain' x',
  related nm plain x s -> 0 <= nm -> nm + run_markers es <= MAX_UDATA_BUF_SIZE -> Forall event_fits es ->
  spec_run es (plain, x) = Ret (plain', x') ->
  exists s', run base es s = Ret s' /\ related (nm + run_markers es) plain' x' s'.
Proof.
  induction es as [|e es IH]; intros nm plain x s plain' x' HR Hnm Hle Hf; cbn [spec_run run].
  { intros [= <- <-]. exists s. by rewrite Z.add_0_r. }
  rewrite cbind_Ret. intros ([p1 x1] & H1 & H2). inversion Hf as [|? ? He Hf']; subst.
  unfold run_markers in *. cbn [foldr] in *. fold (run_markers es) in *. pose proof (run_markers_nonneg es).
  assert (0 <= event_markers e) by (destruct e; cbn; [apply markers_nonneg|lia]).
  destruct (step_related nm plain x s e p1 x1 HR) as (s1 & -> & HR1); [lia..|done|done|]. cbn [cbind].
  rewrite Z.add_assoc in *. apply (IH _ p1 x1); try done; lia.
Qed.

(** C8: the plugin implements its specification: over a sequence of
    translations and executions in which at most 10000 marker instructions are
    translated ([run_markers]; beyond that a slot of a live callback is reused), every translated
    instruction comes with the bytes that the plugin looks at and without callbacks ([event_fits]), and which
    the specification runs to its end, it records every marker executed, and between the on and the
    off marker every executed instruction with its own addresses, kind, target
    and accesses, up to the limit, and nothing else. *)
Theorem tracer_refines es plain x :
  Forall event_fits es -> run_markers es <= MAX_UDATA_BUF_SIZE ->
  spec_run es ([], (g_pqii_data tracer_init, [])) = Ret (plain, x) ->
  exists cache st, run base es ([], tracer_init) = Ret (cache, st) /\ (g_pqii_data st, trace st) = x.
Proof.
  intros Hf Hm Hs. destruct (run_related es 0 [] (g_pqii_data tracer_init, []) ([], tracer_init) plain x)
    as ([cache st] & Hr & [_ _ Hg Ht]); try done.
  exists cache, st. split; [done|]. cbn [snd] in Hg, Ht. rewrite Hg, Ht. by destruct x.
Qed.

(** *** The numbers of the recorded instructions *)

Definition insn_count (e : Reader.guest_event) : list Z :=
  match e with Reader.EvInsn i => [Reader.i_icount i] | _ => [] end.
Definition insn_counts (tr : list Reader.guest_event) : list Z := concat (map insn_count tr).

Lemma insn_counts_app t1 t2 : insn_counts (t1 ++ t2) = insn_counts t1 ++ insn_counts t2.
Proof. unfold insn_counts. by rewrite map_app, concat_app. Qed.

Lemma insn_counts_accesses m c accs : insn_counts (concat (map (access_event m c) accs)) = [].
Proof.
  induction accs as [|[info va] accs IH]; [done|]. cbn [map concat]. rewrite insn_counts_app, IH, app_nil_r.
  unfold access_event. by destruct (_ && _).
Qed.

(** The numbers recorded when [c] instructions were counted. *)
Definition numbered (c : Z) (tr : list Reader.guest_event) : Prop :=
  insn_counts tr = map Z.of_nat (seq 1 (Z.to_nat (Z.min c WARMUP_THRESHOLD_2))).

Lemma spec_exec_numbered m i accs g tr g' tr' k :
  0 <= Pqii.icount g <= k -> k < 2 ^ 63 -> numbered (Pqii.icount g) tr ->
  spec_exec m i accs (g, tr) = Ret (g', tr') ->
  0 <= Pqii.icount g' <= k + 1 /\ numbered (Pqii.icount g') tr'.
Proof.
  intros Hc Hk Hn. unfold spec_exec. destruct (is_marker (data i)) as [[]|]; cbn [cbind]; [| |done].
  - destruct (marker_bytes (data i)) as [[b0 b1] b2]. intros [= <- <-]. cbn [Pqii.icount]. split; [lia|].
    unfold numbered in *. rewrite insn_counts_app, Hn. apply app_nil_r.
  - destruct (ztrue (Pqii.status g)); [|intros [= <- <-]; split; [lia|done]].
    rewrite u64_small by lia. unfold in_window, numbered, WARMUP_THRESHOLD_1, WARMUP_THRESHOLD_2 in *.
    destruct (Z.ltb_spec 0 (Pqii.icount g + 1)); [|lia].
    destruct (Z.leb_spec (Pqii.icount g + 1) 1000000000); cbn [andb]; intros [= <- <-]; cbn [Pqii.icount]; (split; [lia|]).
    + rewrite insn_counts_app, Hn. unfold insn_counts at 1. cbn [map concat insn_count Reader.i_icount].
      fold (insn_counts (concat (map (access_event m (Pqii.icount g + 1)) accs))). rewrite insn_counts_accesses.
      rewrite !Z.min_l by lia. replace (Z.to_nat (Pqii.icount g + 1)) with (Z.to_nat (Pqii.icount g) + 1)%nat by lia.
      rewrite seq_app, map_app. cbn [seq map app]. repeat f_equal. lia.
    + rewrite Hn, !Z.min_r by lia. done.
Qed.

Lemma spec_run_numbered es : forall plain g tr plain' g' tr' k,
  0 <= Pqii.icount g <= k -> k + Z.of_nat (List.length es) < 2 ^ 63 -> numbered (Pqii.icount g) tr ->
  spec_run es (plain, (g, tr)) = Ret (plain', (g', tr')) -> 0 <= Pqii.icount g' /\ numbered (Pqii.icount g') tr'.
Proof.
  induction es as [|e es IH]; intros plain g tr plain' g' tr' k Hc Hk Hn; cbn [spec_run].
  { intros [= <- <- <-]. split; [lia|done]. }
  rewrite cbind_Ret. intros ([p1 [g1 t1]] & H1 & H2). cbn [List.length] in Hk.
  assert (0 <= Pqii.icount g1 <= k + 1 /\ numbered (Pqii.icount g1) t1) as [Hc1 Hn1].
  { destruct e as [tb|j m accs]; cbn [spec_step fst snd] in H1; [injection H1 as <- <- <-; split; [lia|done]|].
    destruct (plain !! j) as [i|]; [|done]. rewrite cbind_Ret in H1. destruct H1 as ([g2 t2] & H1 & [= <- <- <-]).
    eapply spec_exec_numbered; [exact Hc|lia|done|exact H1]. }
  eapply (IH p1 g1 t1 plain' g' tr' (k + 1)); [lia..|done|done].
Qed.

(** The recorded instructions carry the numbers 1, 2, 3, ... without gap
    or repetition, and there are at most 10^9 of them, however often tracing is
    switched off and on. *)
Theorem trace_numbered es plain x :
  Forall event_fits es -> run_markers es <= MAX_UDATA_BUF_SIZE -> Z.of_nat (List.length es) < 2 ^ 63 ->
  spec_run es ([], (g_pqii_data tracer_init, [])) = Ret (plain, x) ->
  exists cache st k, run base es ([], tracer_init) = Ret (cache, st) /\
    insn_counts (trace st) = map Z.of_nat (seq 1 k) /\ Z.of_nat k <= WARMUP_THRESHOLD_2.
Proof.
  intros Hf Hm Hlen Hs. destruct x as [g tr].
  destruct (run_related es 0 [] (g_pqii_data tracer_init, []) ([], tracer_init) plain (g, tr))
    as ([cache st] & Hr & [_ _ Hg Ht]); try done. cbn [fst snd] in Hg, Ht.
  destruct (spec_run_numbered es [] (g_pqii_data tracer_init) [] plain g tr 0) as [H0 Hn]; [done|lia|done|done|].
  eexists cache, st, _. split; [done|]. rewrite Ht. split; [exact Hn|]. unfold WARMUP_THRESHOLD_2. lia.
Qed.

(** *** Reuse of the marker slots *)

Lemma trans_insn_idx i st :
  insn_ok i -> 0 <= idx_udata_buf st < MAX_UDATA_BUF_SIZE ->
  exists i' st', trans_insn base i st = Ret (i', st') /\ same_trace st st' /\
    idx_udata_buf st' = (idx_udata_buf st + markers [i]) mod MAX_UDATA_BUF_SIZE /\
    (is_marker (data i) = Ret true ->
     insn_regular i' = [exec_cb fn_exec_before (udata_slot base (idx_udata_buf st))] /\ mem_regular i' = [] /\
     slot_bytes (udata_buf st') (idx_udata_buf st) = marker_bytes (data i)).
Proof.
  intros Hi Hidx.
  assert (markers [i] <= 1) as Hm1 by (unfold markers; cbn [foldr]; destruct (is_marker _) as [[]|]; lia).
  destruct (trans_insn_ok i st (idx_udata_buf st) Hi) as (i' & st' & E & Ht & Hx & _ & Hins);
    [lia|unfold MAX_UDATA_BUF_SIZE in *; lia|symmetry; by apply Z.mod_small|].
  exists i', st'. split_and!; [done..|]. intros Hb. revert E. unfold trans_insn, qemu_plugin_insn_data.
  destruct Hi as (Hr & Hmr & b & Hb' & Hl). rewrite Hb in Hb' |- *. injection Hb' as <-. specialize (Hl eq_refl).
  cbn [cbind]. rewrite !byte_nth by lia. cbn [cbind]. intros [= <- <-].
  split_and!; [by cbn; rewrite Hr|done|]. cbn [udata_buf set_udata]. by rewrite slot_insert, decide_True.
Qed.

(** Turns of the translation loop, over any number of blocks. *)
Fixpoint trans_list (l : list qemu_plugin_insn) (st : tracer) : cres (list qemu_plugin_insn * tracer) :=
  match l with
  | [] => Ret ([], st)
  | i :: l =>
      let* r := trans_insn base i st in
      let* q := trans_list l r.2 in
      Ret (r.1 :: q.1, q.2)
  end.

Lemma trans_list_idx l : forall st,
  Forall insn_ok l -> 0 <= idx_udata_buf st < MAX_UDATA_BUF_SIZE ->
  exists l' st', trans_list l st = Ret (l', st') /\ same_trace st st' /\
    idx_udata_buf st' = (idx_udata_buf st + markers l) mod MAX_UDATA_BUF_SIZE.
Proof.
  induction l as [|i l IH]; intros st Hok Hidx; cbn [trans_list].
  { exists [], st. split_and!; [done..|]. rewrite Z.add_0_r. symmetry. by apply Z.mod_small. }
  inversion Hok as [|? ? Hi Hok']; subst.
  destruct (trans_insn_idx i st Hi Hidx) as (i' & st1 & -> & [Hg Ht] & Hx & _). cbn [cbind fst snd].
  destruct (IH st1 Hok') as (l' & st2 & -> & [Hg2 Ht2] & Hx2);
    [rewrite Hx; by apply Z.mod_pos_bound|]. cbn [cbind fst snd].
  eexists _, _. split; [done|]. split; [split; congruence|].
  rewrite Hx2, Hx, (markers_cons i l), Z.add_mod_idemp_l, Z.add_assoc by done. done.
Qed.

(** The plugin keeps the bytes of only the last 10000 translated markers:
    after 9999 other markers and a marker [b] were translated, executing the
    older marker [a] records the bytes of [b] and switches tracing as [b]
    asks. *)
Theorem marker_slot_reused a l b st m accs :
  Forall insn_ok (a :: l ++ [b]) -> is_marker (data a) = Ret true -> is_marker (data b) = Ret true ->
  markers l = MAX_UDATA_BUF_SIZE - 1 -> 0 <= idx_udata_buf st < MAX_UDATA_BUF_SIZE ->
  exists a' l' st1 st2, trans_list (a :: l ++ [b]) st = Ret (a' :: l', st1) /\
    exec_insn m a' accs st1 = Ret st2 /\
    spec_exec m b accs (g_pqii_data st, trace st) = Ret (g_pqii_data st2, trace st2).
Proof.
  intros Hok Ha Hb Hl Hidx. inversion Hok as [|? ? Hia Hok']; subst. apply Forall_app in Hok' as [Hil Hib].
  inversion Hib as [|? ? Hb1 _]; subst.
  destruct (trans_insn_idx a st Hia Hidx) as (a' & s1 & E1 & [Hg1 Ht1] & Hx1 & HA). destruct (HA Ha) as (HA1 & HA2 & _).
  destruct (trans_list_idx l s1 Hil) as (l' & s2 & E2 & [Hg2 Ht2] & Hx2); [rewrite Hx1; by apply Z.mod_pos_bound|].
  assert (idx_udata_buf s2 = idx_udata_buf st) as Hsame.
  { rewrite Hx2, Hx1, Hl. unfold markers. cbn [foldr]. rewrite Ha. unfold MAX_UDATA_BUF_SIZE in *.
    rewrite Z.add_mod_idemp_l by done.
    replace (idx_udata_buf st + (1 + 0) + (10000 - 1)) with (idx_udata_buf st + 1 * 10000) by lia.
    rewrite Z.mod_add by done. by apply Z.mod_small. }
  destruct (trans_insn_idx b s2 Hb1) as (b' & s3 & E3 & [Hg3 Ht3] & _ & HB); [by rewrite Hsame|].
  destruct (HB Hb) as (_ & _ & HB3). rewrite Hsame in HB3.
  assert (trans_list (l ++ [b]) s1 = Ret (l' ++ [b'], s3)) as EL.
  { revert E2. generalize s1 l'. clear - E3. induction l as [|i l IH]; intros s l'; cbn [trans_list app].
    - intros [= <- ->]. by rewrite E3.
    - rewrite cbind_Ret. intros (r & -> & H). rewrite cbind_Ret in H. destruct H as ([q1 q2] & Hq & [= <- ->]).
      cbn [cbind]. by rewrite (IH _ _ Hq). }
  exists a', (l' ++ [b']), s3.
  assert (instrumented (idx_udata_buf st + 1) (udata_buf s3) b a') as HI.
  { unfold instrumented. rewrite Hb. exists (idx_udata_buf st). split_and!; [lia..|done|done|done]. }
  destruct (spec_exec m b accs (g_pqii_data s3, trace s3)) as [[g' tr']|] eqn:Hs;
    [|unfold spec_exec in Hs; rewrite Hb in Hs; discriminate Hs].
  destruct (exec_insn_ok m b a' accs _ s3 g' tr' HI Hs) as (s4 & E4 & Hg4 & Ht4 & _). exists s4.
  split_and!; [cbn [trans_list]; rewrite E1; cbn [cbind fst snd]; by rewrite EL|done|].
  rewrite Hg4, Ht4, <- Hs. congruence.
Qed.

End Refinement.

(** ** Installation *)

Definition loader_install (alloc : qemu_plugin_state -> Z) (f id : Z) (argv : list string)
  (l : PluginLoader.loader) : cres (Z * PluginLoader.loader) :=
  let* r := qemu_plugin_install alloc id argv (PluginLoader.pl l) in
  Ret (r.1, PluginLoader.set_pl l r.2).

Lemma same_tables_trans s1 s2 s3 : same_tables s1 s2 -> same_tables s2 s3 -> same_tables s1 s3.
Proof. unfold same_tables. intros. destruct_and!. split_and!; congruence. Qed.

(** With an allocator that returns unused addresses the tracer's install
    function meets the contract the plugin loader relies on, whatever its
    options. *)
Theorem tracer_install_ok alloc :
  (forall s, alloc s <> 0 /\ cb_mem s !! alloc s = None) -> PluginLoader.install_ok (loader_install alloc).
Proof.
  intros Ha f id args l p c Hwf Hp <- _ Hu. unfold loader_install, qemu_plugin_install.
  destruct (parse_opts args (false, false)) as [o|]; [|exists (-1), (PluginLoader.set_pl l (PluginLoader.pl l)), c; done].
  set (s := PluginLoader.pl l) in *. destruct (Ha s) as [Ha1 Ha2].
  destruct (register_cb_ok (alloc s) s p c EV_VCPU_TB_TRANS fn_tb_trans 0 Hwf Hp Ha1 Ha2)
    as (s1 & E1 & Hwf1 & T1 & (c1 & Hp1 & P1) & _).
  unfold qemu_plugin_register_vcpu_tb_trans_cb, plugin_register_cb. rewrite E1. cbn [cbind].
  destruct (Ha s1) as [Hb1 Hb2]. replace (ctx_id c) with (ctx_id c1) by apply P1.
  destruct (register_cb_ok (alloc s1) s1 p c1 EV_ATEXIT fn_plugin_exit 0 Hwf1 Hp1 Hb1 Hb2)
    as (s2 & E2 & Hwf2 & T2 & (c2 & Hp2 & P2) & _).
  unfold qemu_plugin_register_atexit_cb, plugin_register_cb_udata. rewrite E2. cbn [cbind fst snd].
  pose proof (same_tables_trans _ _ _ T1 T2) as (_ & _ & Hlock & _). unfold same_plugin in *. destruct_and!.
  exists 0, (PluginLoader.set_pl l s2), c2. split_and!; try done; try congruence.
Qed.

(** ** Concrete instances *)

Definition demo_insn (d : list Z) (va k target : Z) : qemu_plugin_insn :=
  mkPInsn d va (va + 0x90000) 0 [] [] [] [] false false k target.
Definition demo_marker (b : Z) : qemu_plugin_insn := demo_insn [0x0f; 0x1f; 0x84; b; 0; 0; 1; 2] 0x400 0 0.

(** On, a load, a taken branch, off. *)
Definition demo_tb : qemu_plugin_tb :=
  mkPTb [demo_marker 0xbe; demo_insn [0x8b; 0x07] 0x408 0 0; demo_insn [0x75; 0xfe] 0x40a 1 0x408; demo_marker 0xed]
    4 0x400 (-1) 0 0 0 0 [] [].

(** One page, at virtual address 0x7000. *)
Definition demo_machine : machine :=
  mkMachine 0x33 0x7f000
    (SoftTlb.mkTLB 1 0 0 0 (SoftTlb.d SoftTlb.demo_tlb0)
       (fun _ => SoftTlb.mkFast (0xff * 64) (fun _ => SoftTlb.mkTLBE 0x7000 0x7000 (2 ^ 64 - 1) 0x550000 0x42000))).

Definition demo_events : list event :=
  [Translate demo_tb; Execute 0 demo_machine []; Execute 1 demo_machine [(2, 0x7010)];
   Execute 2 demo_machine []; Execute 3 demo_machine []; Execute 1 demo_machine [(2, 0x7010)]].

Definition demo_trace : list Reader.guest_event :=
  [Reader.EvNop (Reader.mkNop 0xbe 1 2);
   Reader.EvInsn (Reader.mkInsn 1 0x408 0x90408 3 0x7f000 0 0);
   Reader.EvData (Reader.mkData 1 0x7010 0x42010 0 4 3 0x7f000);
   Reader.EvInsn (Reader.mkInsn 2 0x40a 0x9040a 3 0x7f000 1 0x408);
   Reader.EvNop (Reader.mkNop 0xed 1 2)].

Lemma demo_insn_ok i : i ∈ insns demo_tb -> insn_ok i.
Proof.
  intros Hi. cbn [insns demo_tb] in Hi. repeat (apply elem_of_cons in Hi as [->|Hi]);
    [..|by apply not_elem_of_nil in Hi]; (split; [done|split; [done|eexists; split; [by vm_compute|simpl; try done; lia]]]).
Qed.

Lemma demo_events_fit : Forall event_fits demo_events.
Proof.
  repeat constructor; cbn [n insns demo_tb take List.length]; try lia; apply demo_insn_ok;
    repeat (try (by left); right).
Qed.

Lemma tracer_refines_witness :
  exists cache st, run 0x5000 demo_events ([], tracer_init) = Ret (cache, st) /\
    (g_pqii_data st, trace st) = (Pqii.mkData 0 2, demo_trace).
Proof.
  apply (tracer_refines 0x5000 demo_events (insns demo_tb)); [exact demo_events_fit|by vm_compute|by vm_compute].
Defined.

Lemma trace_numbered_witness :
  exists cache st k, run 0x5000 demo_events ([], tracer_init) = Ret (cache, st) /\
    insn_counts (trace st) = map Z.of_nat (seq 1 k) /\ Z.of_nat k <= WARMUP_THRESHOLD_2.
Proof.
  apply (trace_numbered 0x5000 demo_events (insns demo_tb) (Pqii.mkData 0 2, demo_trace));
    [exact demo_events_fit|by vm_compute..].
Defined.

Lemma demo_marker_ok b : b = 0xbe \/ b = 0xed -> insn_ok (demo_marker b).
Proof. intros [-> | ->]; (split; [done|split; [done|eexists; split; [by vm_compute|simpl; lia]]]). Qed.

Lemma markers_replicate k i : is_marker (data i) = Ret true -> markers (replicate k i) = Z.of_nat k.
Proof. intros H. unfold markers. induction k as [|k IH]; [done|]. cbn [replicate foldr]. rewrite IH, H. lia. Qed.

(** An executed off marker acts as the on marker that took its slot. *)
Lemma marker_slot_reused_witness :
  exists a' l' st1 st2,
    trans_list 0x5000 (demo_marker 0xed :: replicate (Z.to_nat 9999) (demo_marker 0xed) ++ [demo_marker 0xbe]) tracer_init
      = Ret (a' :: l', st1) /\
    exec_insn demo_machine a' [] st1 = Ret st2 /\
    Ret (Pqii.mkData 1 0, [Reader.EvNop (Reader.mkNop 0xbe 1 2)]) = Ret (g_pqii_data st2, trace st2).
Proof.
  apply (marker_slot_reused 0x5000 (demo_marker 0xed) (replicate (Z.to_nat 9999) (demo_marker 0xed)) (demo_marker 0xbe)
    tracer_init demo_machine []); [|by vm_compute|by vm_compute|by rewrite markers_replicate by (by vm_compute)|done].
  constructor; [apply demo_marker_ok; by right|]. apply Forall_app. split.
  - apply Forall_replicate, demo_marker_ok. by right.
  - constructor; [apply demo_marker_ok; by left|constructor].
Defined.

Definition demo_alloc (s : qemu_plugin_state) : Z := fresh ({[0]} ∪ dom (cb_mem s) : gset Z).

Lemma tracer_install_ok_witness : PluginLoader.install_ok (loader_install demo_alloc).
Proof.
  apply tracer_install_ok. intros s. pose proof (is_fresh ({[0]} ∪ dom (cb_mem s) : gset Z)) as H.
  fold (demo_alloc s) in H. split.
  - intros E. apply H. apply elem_of_union. left. by apply elem_of_singleton.
  - apply not_elem_of_dom. intros E. apply H. apply elem_of_union. by right.
Defined.

End Tracer.
