(* ===== verification/EndToEnd.v ===== *)
(** * From the guest to the simulator

    The whole path of a trace: the guest executes a region between two markers,
    the tracer plugin records it (qemu/tests/plugin/cache_test.c), the threads of
    the trace backend, interleaved byte by byte, move the records through the
    ring buffer (qemu/trace/simple.c), the file is closed, and the simulator's
    reader (champsim/src/tracereader.cc) decodes it. *)

From S2P Require Import Prelude TraceBuffer TraceThreads TraceQueue TraceFile TraceReader PluginCore PluginApi Pqii SoftTlb Tracer.
Open Scope Z_scope.
Open Scope c_scope.

Module EndToEnd.
Import Ring Reader PluginCore PluginApi Tracer.

(** ** The guest *)

(** An instruction executed on a machine, with its accesses. *)
Record executed := mkExe {
  x_insn : qemu_plugin_insn;
  x_mach : machine;
  x_accs : list (Z * Z);
}.

(** Translations and executions of instructions other than markers, from one
    code cache to another. *)
Inductive runs : list qemu_plugin_insn -> list event -> list executed -> list qemu_plugin_insn -> Prop :=
| runs_nil p : runs p [] [] p
| runs_translate p tb es l p' : runs (p ++ take (n tb) (insns tb)) es l p' -> runs p (Translate tb :: es) l p'
| runs_execute p j i m accs es l p' :
    p !! j = Some i -> is_marker (data i) = Ret false -> runs p es l p' ->
    runs p (Execute j m accs :: es) (mkExe i m accs :: l) p'.

(** ** What the trace should say *)

(** The [c]-th instruction of the region, and its accesses. *)
Definition recorded_insn (c : Z) (x : executed) : QEMU_trace_insn :=
  mkInsn c (vaddr (x_insn x)) (paddr (x_insn x)) (Z.land (cs_selector (x_mach x)) 0x3) (cr3 (x_mach x))
    (u8 (traced_kind (x_insn x))) (traced_target (x_insn x)).
Definition recorded_accs (c : Z) (x : executed) : list guest_event := concat (map (access_event (x_mach x) c) (x_accs x)).

Fixpoint region (c : Z) (l : list executed) : list (QEMU_trace_insn * list guest_event) :=
  match l with
  | [] => []
  | x :: l => (recorded_insn c x, recorded_accs c x) :: region (c + 1) l
  end.

(** What the simulator should execute: each instruction with its first access,
    its outcome decided by the instruction executed next. *)
Fixpoint simulated (l : list (QEMU_trace_insn * list guest_event)) : list ooo_model_instr :=
  match l with
  | p :: (q :: _) as l' => decoded p.1 (first_data p.2) (i_vaddr q.1) :: simulated l'
  | _ => []
  end.

Definition pair_events (p : QEMU_trace_insn * list guest_event) : list guest_event := EvInsn p.1 :: p.2.
Definition marker (i : qemu_plugin_insn) : QEMU_trace_nop := mkNop (nth 3 (data i) 0) (nth 6 (data i) 0) (nth 7 (data i) 0).

(** ** The plugin's specification on a region *)

Lemma spec_run_app a b s : spec_run (a ++ b) s = let* s := spec_run a s in spec_run b s.
Proof. revert s. induction a as [|e a IH]; intros s; cbn; [done|]. destruct (spec_step e s); cbn; [apply IH|done]. Qed.

Lemma spec_run_off p es l p' c tr :
  runs p es l p' -> spec_run es (p, (Pqii.mkData 0 c, tr)) = Ret (p', (Pqii.mkData 0 c, tr)).
Proof.
  induction 1 as [p|p tb es l p' _ IH|p j i m accs es l p' Hj Hm _ IH]; cbn [spec_run spec_step cbind fst snd]; [done|exact IH|].
  rewrite Hj. unfold spec_exec. rewrite Hm. cbn [cbind]. exact IH.
Qed.

Lemma spec_run_on p es l p' : runs p es l p' -> forall c tr,
  0 <= c -> c + Z.of_nat (List.length l) <= WARMUP_THRESHOLD_2 ->
  spec_run es (p, (Pqii.mkData 1 c, tr)) =
    Ret (p', (Pqii.mkData 1 (c + Z.of_nat (List.length l)), tr ++ concat (map pair_events (region (c + 1) l)))).
Proof.
  unfold WARMUP_THRESHOLD_2.
  induction 1 as [p|p tb es l p' _ IH|p j i m accs es l p' Hj Hm _ IH]; intros c tr Hc Hle;
    cbn [spec_run spec_step cbind fst snd].
  - cbn. by rewrite Z.add_0_r, app_nil_r.
  - by apply IH.
  - rewrite Hj. unfold spec_exec. rewrite Hm. cbn [cbind Pqii.status Pqii.icount]. cbn [List.length] in Hle.
    rewrite u64_small by lia. unfold in_window, WARMUP_THRESHOLD_1, WARMUP_THRESHOLD_2.
    rewrite (proj2 (Z.ltb_lt 0 (c + 1))), (proj2 (Z.leb_le (c + 1) 1000000000)) by lia. cbn [ztrue andb cbind].
    change (ztrue 1) with true. cbv iota. cbn [cbind fst snd].
    rewrite IH by lia. cbn [region map concat List.length]. unfold pair_events at 2. cbn [fst snd].
    rewrite <- app_assoc. do 4 f_equal. lia.
Qed.

(** ** A region between two markers *)

(** Nothing but the begin marker, the region and the end marker is recorded. *)
Section Region.
Context (es0 es1 : list event) (l0 l1 : list executed) (p0 p1 : list qemu_plugin_insn).
Context (jb je : nat) (mb me : machine) (ab ae : list (Z * Z)) (ib ie : qemu_plugin_insn).
Hypothesis before : runs [] es0 l0 p0.
Hypothesis on : p0 !! jb = Some ib /\ is_marker (data ib) = Ret true /\ nth 3 (data ib) 0 = 0xbe.
Hypothesis inside : runs p0 es1 l1 p1.
Hypothesis off : p1 !! je = Some ie /\ is_marker (data ie) = Ret true /\ nth 3 (data ie) 0 = 0xed.
Hypothesis window : Z.of_nat (List.length l1) <= WARMUP_THRESHOLD_2.

Definition guest_run : list event := es0 ++ Execute jb mb ab :: es1 ++ [Execute je me ae].
Definition region_trace : list guest_event :=
  EvNop (marker ib) :: concat (map pair_events (region 1 l1)) ++ [EvNop (marker ie)].

Lemma region_recorded :
  spec_run guest_run ([], (Pqii.mkData 0 0, [])) = Ret (p1, (Pqii.mkData 0 (Z.of_nat (List.length l1)), region_trace)).
Proof using before on inside off window.
  destruct on as (Hb & Mb & Eb), off as (He & Me & Ee). unfold guest_run.
  rewrite spec_run_app, (spec_run_off _ _ _ _ _ _ before). cbn [cbind spec_run spec_step fst snd]. rewrite Hb.
  unfold spec_exec at 1. rewrite Mb. unfold marker_bytes. cbn [cbind Pqii.status Pqii.icount fst snd]. rewrite Eb.
  change (0xbe =? 0xbe) with true. cbv iota. cbn [cbind fst snd].
  rewrite spec_run_app, (spec_run_on _ _ _ _ inside) by (done || lia). cbn [cbind spec_run spec_step fst snd]. rewrite He.
  unfold spec_exec. rewrite Me. unfold marker_bytes. cbn [cbind Pqii.status Pqii.icount fst snd]. rewrite Ee.
  unfold region_trace, marker. rewrite Eb, Ee. cbn [cbind app Z.add]. done.
Qed.
End Region.

(** ** Events with their times *)

(** The end marker counts with the last instruction. *)
Fixpoint with_tail (tail : list guest_event) (l : list (QEMU_trace_insn * list guest_event))
  : list (QEMU_trace_insn * list guest_event) :=
  match l with
  | [] => []
  | [p] => [(p.1, p.2 ++ tail)]
  | p :: l => p :: with_tail tail l
  end.

Lemma with_tail_events tail l :
  l <> [] -> concat (map pair_events (with_tail tail l)) = concat (map pair_events l) ++ tail.
Proof.
  induction l as [|p [|q l] IH]; intros Hl; [done|cbn; by rewrite !app_nil_r|].
  change (with_tail tail (p :: q :: l)) with (p :: with_tail tail (q :: l)). cbn [map concat]. rewrite IH by done.
  by rewrite <- app_assoc.
Qed.

Lemma simulated_tail tail l : simulated (with_tail tail l) = simulated l.
Proof.
  induction l as [|p [|q l] IH]; [done..|].
  change (with_tail tail (p :: q :: l)) with (p :: with_tail tail (q :: l)).
  destruct l as [|r l]; [done|]. change (with_tail tail (q :: r :: l)) with (q :: with_tail tail (r :: l)) in *.
  cbn [simulated] in *. by rewrite IH.
Qed.

Definition stamps (g : group) (p : QEMU_trace_insn * list guest_event) : Prop := g_insn g = p.1 /\ map snd (g_aux g) = p.2.

Lemma stamped l : forall te, map snd te = concat (map pair_events l) ->
  exists gs, te = concat (map group_events gs) /\ Forall2 stamps gs l.
Proof.
  induction l as [|[i aux] l IH]; intros te H.
  - destruct te; [|done]. by exists [].
  - destruct te as [|[ts e] te]; [done|]. cbn [map concat pair_events app fst snd] in H. injection H as -> H.
    apply map_eq_app in H as (ta & tb & -> & Ha & Hb). destruct (IH tb Hb) as (gs & -> & Hgs).
    exists (mkGroup ts i ta :: gs). split; [done|]. by constructor.
Qed.

Lemma expected_simulated gs l : Forall2 stamps gs l -> expected gs = simulated l.
Proof.
  induction 1 as [|g p gs l [H1 H2] Hr IH]; [done|]. destruct Hr as [|h q gs l [H3 H4] Hr]; [done|].
  cbn [expected simulated] in *. rewrite IH. unfold group_data. by rewrite H1, H2, H3.
Qed.

(** Accesses, and perhaps a marker behind them. *)
Definition aux_ok (aux : list guest_event) : Prop :=
  exists ds ns, aux = map EvData ds ++ ns /\ (ns = [] \/ exists m, ns = [EvNop m]).

Lemma group_ok_of g p :
  stamps g p -> aux_ok p.2 -> Forall event_ok (group_events g) -> group_ok g.
Proof.
  intros [_ Ha] (ds & ns & Hp & Hn) Hok. inversion Hok as [|? ? H1 H2]; subst. rewrite Hp in Ha. split_and!; [done| |].
  - apply Forall_forall. intros te Hin. split; [by eapply Forall_forall in H2|].
    apply (in_map snd) in Hin. rewrite Ha in Hin. apply in_app_or in Hin as [Hin|Hin].
    + apply in_map_iff in Hin as (d & <- & _). done.
    + destruct Hn as [->|[m ->]]; [done|]. by destruct Hin as [<-|[]].
  - destruct (g_aux g) as [|[ts e] aux]; [done|]. destruct ds as [|d ds]; cbn in Ha; [|by injection Ha as -> _].
    destruct Hn as [->|[m ->]]; [done|]. injection Ha as -> Ha. by destruct aux.
Qed.

(** The accesses of an instruction are data events. *)
Lemma accs_data c x : exists ds, recorded_accs c x = map EvData ds.
Proof.
  unfold recorded_accs. induction (x_accs x) as [|[info va] l IH]; [by exists []|]. destruct IH as [ds IH].
  cbn [map concat]. rewrite IH. unfold access_event. destruct (_ && _); [by eexists (_ :: ds)|by exists ds].
Qed.

Lemma region_aux m l : forall c, Forall (fun p => aux_ok p.2) (with_tail [EvNop m] (region c l)).
Proof.
  induction l as [|x l IH]; intros c; [constructor|]. destruct (accs_data c x) as [ds Hd].
  cbn [region]. destruct l as [|y l].
  - constructor; [|constructor]. exists ds, [EvNop m]. cbn [fst snd]. rewrite Hd. eauto.
  - change (with_tail [EvNop m] ((recorded_insn c x, recorded_accs c x) :: region (c + 1) (y :: l))) with
      ((recorded_insn c x, recorded_accs c x) :: with_tail [EvNop m] (region (c + 1) (y :: l))).
    constructor; [|apply IH]. exists ds, []. rewrite app_nil_r. eauto.
Qed.

Lemma length_region c l : List.length (region c l) = List.length l.
Proof. revert c. induction l as [|x l IH]; intros c; cbn; [done|]. by rewrite IH. Qed.

(** ** The path of a trace *)

Definition claim_of (te : Z * guest_event) : Threads.claim :=
  Threads.mkClaim (event_id te.2) te.1 (map ArgU64 (event_args te.2)).
Definition record_of (pid : Z) (te : Z * guest_event) : list Z :=
  event_record pid (event_id te.2) te.1 (map ArgU64 (event_args te.2)).

Lemma messages_bytes pid te :
  concat (map (Queue.claim_message pid) (map claim_of te)) = File.records_bytes (map (record_of pid) te).
Proof. unfold record_of. rewrite records_events_bytes. unfold events_bytes. by rewrite map_map. Qed.

Lemma record_of_ok pid te : File.record_ok (record_of pid te).
Proof.
  assert (List.length (record_of pid te) <= 80)%nat as Hl.
  { unfold record_of, event_record. rewrite length_app, Queue.length_TraceRecord_bytes.
    destruct (te.2); cbn [event_args map targ_bytes concat]; rewrite !length_app, !length_le_bytes; cbn; lia. }
  split.
  - unfold record_of, event_record. intros E%(f_equal (@List.length Z)). rewrite length_app, Queue.length_TraceRecord_bytes in E. done.
  - assert (88 <= File.CHUNK)%nat by (unfold File.CHUNK; lia). lia.
Qed.

(** What the reader makes of the bytes of a region. *)
Lemma reader_of_region pid evs ib ie l te k :
  List.length (File.trace_file_prefix evs) = (24 + MAPPINGS_SIZE)%nat ->
  map snd te = region_trace l ib ie -> Forall event_ok te -> n_byte0 (marker ib) = 0xbe -> (k + 2 <= List.length l)%nat ->
  exists r r', reader_new (File.trace_file_prefix evs ++ File.records_bytes (map (record_of pid) te)) = Ret r /\
    reader_gets k r = Ret (take k (simulated (region 1 l)), r').
Proof.
  intros Hp Hte Hok Hb Hk. unfold region_trace in Hte.
  assert (region 1 l <> []) as Hne by (destruct l; [cbn in Hk; lia|done]).
  rewrite <- (with_tail_events [EvNop (marker ie)]) in Hte by done.
  destruct te as [|[ts e] te]; [done|]. cbn [map snd] in Hte. injection Hte as -> Hte.
  destruct (stamped _ _ Hte) as (gs & -> & Hgs).
  inversion Hok as [|? ? Hm Hrest]; subst.
  assert (Forall group_ok gs) as Hg.
  { clear - Hgs Hrest. pose proof (region_aux (marker ie) l 1) as Ha. revert Hrest Ha.
    induction Hgs as [|g p gs ps Hgp Hr IH]; intros Hrest Ha; [constructor|]. cbn [map concat] in Hrest.
    apply Forall_app in Hrest as [H1 H2]. inversion Ha; subst. constructor; [by eapply group_ok_of|by apply IH]. }
  assert (List.length gs = List.length l) as Hlen.
  { rewrite (Forall2_length Hgs), <- (length_region 1 l). clear. induction (region 1 l) as [|p [|q r] IH]; [done..|].
    change (with_tail [EvNop (marker ie)] (p :: q :: r)) with (p :: with_tail [EvNop (marker ie)] (q :: r)). cbn [List.length]. by rewrite IH. }
  rewrite <- (simulated_tail [EvNop (marker ie)]), <- (expected_simulated _ _ Hgs).
  destruct gs as [|g [|h gs]]; [cbn in Hlen; lia..|].
  destruct (gets_from_start pid k g h gs Hg) as [r Hr]; [cbn in Hlen; lia|].
  eexists _, r. split; [apply (open_ok pid evs (ts, marker ib) g (h :: gs)); done|done].
Qed.

Section Path.
Context `{zspec : File.ZlibSpec}.
Context (fopen : string -> option nat) (config_trace_file : string) (events : list (Z * string)).
Context (udata_base : Z).

(** C1: what the simulator reads is what the guest executed.  The guest runs
    with tracing off, executes a begin marker, a region of at most [10^9]
    instructions, and an end marker; its blocks, with at most 10000 markers, may
    be translated at any time.  The plugin records the region; the threads move the
    records, interleaved byte by byte in any way in which no record is cleared while
    its header is still being stored; once nothing is in flight, the closed
    uncompressed file, on a device with room for it, holds the log header, the
    mappings and what the writeout thread wrote.  If header and mappings have the
    size, and the events the numbers, that are compiled into the simulator, it
    decodes from the file the instructions of the region in the order of
    execution, each with its address, its first access, its address space and
    privilege, and the outcome of its branch, for all but the last two. *)
Theorem guest_to_simulator es0 es1 l0 l1 p0 p1 jb je mb me ab ae ib ie pid te sys name k :
  runs [] es0 l0 p0 -> (p0 !! jb = Some ib /\ is_marker (data ib) = Ret true /\ nth 3 (data ib) 0 = 0xbe) ->
  runs p0 es1 l1 p1 -> (p1 !! je = Some ie /\ is_marker (data ie) = Ret true /\ nth 3 (data ie) 0 = 0xed) ->
  Z.of_nat (List.length l1) <= WARMUP_THRESHOLD_2 ->
  Forall event_fits (guest_run es0 es1 jb je mb me ab ae) ->
  run_markers (guest_run es0 es1 jb je mb me ab ae) <= MAX_UDATA_BUF_SIZE ->
  map snd te = region_trace l1 ib ie -> Forall event_ok te ->
  0 <= pid < 2 ^ 32 -> Threads.steps Threads.timely (Threads.sys_init pid) (map claim_of te) sys ->
  Threads.producers sys = ∅ -> Threads.taking (Threads.cpc sys) = false ->
  get_trace_record (trace_buf (Threads.core sys)) (Threads.cidx sys) = None ->
  File.gz_name name = Ret false -> Forall File.event_ok events ->
  File.fits fopen name (List.length (File.trace_file_prefix events) + List.length (concat (Threads.out sys))) ->
  List.length (File.trace_file_prefix events) = (24 + MAPPINGS_SIZE)%nat -> (k + 2 <= List.length l1)%nat ->
  exists cache st s1 s2 file r r',
    Tracer.run udata_base (guest_run es0 es1 jb je mb me ab ae) ([], tracer_init) = Ret (cache, st) /\
    trace st = map snd te /\
    File.st_set_trace_file fopen config_trace_file events (Some name) (File.st_init true File.tfile_init).2 = Ret s1 /\
    File.st_set_trace_file_enabled fopen events false (File.trace_events (map (record_of pid) te) s1) = Ret (true, s2) /\
    File.disk s2 !! name = Some file /\ file = File.trace_file_prefix events ++ concat (Threads.out sys) /\
    reader_new file = Ret r /\ reader_gets k r = Ret (take k (simulated (region 1 l1)), r').
Proof.
  intros H0 Hon H1 Hoff Hw Hfit Hmk Hte Hok Hpid Hst Hp Hc Hg Hgz Hev Hroom Hmap Hk.
  pose proof (region_recorded es0 es1 l0 l1 p0 p1 jb je mb me ab ae ib ie H0 Hon H1 Hoff Hw) as Hspec.
  destruct (run_related udata_base _ 0 [] (g_pqii_data tracer_init, []) ([], tracer_init) _ _ ltac:(done) ltac:(lia) Hmk Hfit Hspec)
    as ([cache st] & Hrun & [_ _ _ Htr]).
  pose proof (Queue.drained_out pid _ sys Hpid Hst Hp Hc Hg) as Hout.
  rewrite Hout, messages_bytes in Hroom |- *.
  destruct (File.plain_file_holds fopen config_trace_file events name (map (record_of pid) te)) as (s1 & s2 & E1 & E2 & E3); try done.
  { apply Forall_map, Forall_forall. intros x _. apply record_of_ok. }
  destruct (reader_of_region pid events ib ie l1 te k) as (r & r' & R1 & R2); try done; [apply Hon|].
  exists cache, st, s1, s2. eexists. exists r, r'. split_and!; try done. cbn [snd] in Htr. congruence.
Qed.

End Path.
(** ** Physical addresses *)

(** C16: the physical address recorded for an access is the one in force.  After
    any sequence of operations on an initialised TLB, whatever the plugin's
    memory callback records for an access is one event with the access's address,
    the current instruction's number, and the physical page entered last for that
    address and not revoked since. *)
Theorem traced_access_in_force try_alloc translate byte_swap is_clean watchpoint t0 now ops t cs c3 info va st e :
  Forall SoftTlb.tlb_op_ok ops ->
  SoftTlb.tlb_run try_alloc translate byte_swap is_clean watchpoint ops (SoftTlb.tlb_init t0 now) = Ret t ->
  0 <= va < 2 ^ 64 -> 0 <= Z.shiftr info TRACE_MEM_MMU_SHIFT < 3 ->
  trace (vcpu_haddr (mkMachine cs c3 t) info va st) = trace st ++ [e] ->
  exists d pg sz, e = EvData d /\ d_vaddr d = va /\ d_icount d = Pqii.icount (g_pqii_data st) /\
    SoftTlb.spec_run ops (fun _ _ => None) (Z.shiftr info TRACE_MEM_MMU_SHIFT) (SoftTlb.page_of va) = Some (pg, sz) /\
    d_paddr d = u64 (Z.land va (not64 SoftTlb.TARGET_PAGE_MASK) + pg).
Proof.
  intros Hops Hrun Hva Hm. pose proof (SoftTlb.run_inv _ _ _ _ _ _ _ _ _ Hops (SoftTlb.init_inv t0 now) Hrun) as Hinv.
  unfold vcpu_haddr. destruct (ztrue (Pqii.status (g_pqii_data st))) eqn:Es; [|intros H%(f_equal (@List.length _)); rewrite length_app in H; cbn in H; lia].
  destruct (_ && _); [|intros H%(f_equal (@List.length _)); rewrite length_app in H; cbn in H; lia].
  unfold qemu_plugin_get_hwaddr, tlb_plugin_lookup. cbn [snd trace set_g tlb cs_selector cr3].
  set (mmu := Z.shiftr info TRACE_MEM_MMU_SHIFT) in *. set (te := SoftTlb.tlb_entry t mmu va).
  intros H%app_inv_head. revert H.
  assert (forall b : bool, SoftTlb.tlb_hit (if b then SoftTlb.addr_write te else SoftTlb.addr_read te) va = true ->
    exists sz, SoftTlb.spec_run ops (fun _ _ => None) mmu (SoftTlb.page_of va) = Some (SoftTlb.e_paddr te, sz)) as Hforce.
  { intros b Hb. apply (SoftTlb.hit_in_force _ t mmu va Hinv Hm Hva). destruct b; [by apply SoftTlb.hit_write|by apply SoftTlb.hit_read]. }
  specialize (Hforce (ztrue (Z.land info TRACE_MEM_ST))). generalize dependent (ztrue (Z.land info TRACE_MEM_ST)). intros b Hforce.
  destruct (SoftTlb.tlb_hit _ va); [|done]. destruct (ztrue (Z.land _ SoftTlb.TLB_MMIO)); [done|]. cbn [snd]. rewrite Es.
  intros [= <-]. destruct (Hforce eq_refl) as [sz Hsz]. do 3 eexists. split_and!; try reflexivity. exact Hsz.
Qed.

(** ** A region of four instructions *)

(** A load and a branch back to it, twice; the load of the first turn is
    recorded.  Before the region the load is executed untraced. *)
Definition demo_before : list event := [Translate demo_tb; Execute 1 demo_machine [(2, 0x7010)]].
Definition demo_inside : list event :=
  [Execute 1 demo_machine [(2, 0x7010)]; Execute 2 demo_machine []; Execute 1 demo_machine []; Execute 2 demo_machine []].
Definition demo_load : qemu_plugin_insn := demo_insn [0x8b; 0x07] 0x408 0 0.
Definition demo_branch : qemu_plugin_insn := demo_insn [0x75; 0xfe] 0x40a 1 0x408.
Definition demo_region : list executed :=
  [mkExe demo_load demo_machine [(2, 0x7010)]; mkExe demo_branch demo_machine []; mkExe demo_load demo_machine [];
   mkExe demo_branch demo_machine []].

Definition demo_stamped : list (Z * guest_event) :=
  combine [10; 11; 12; 13; 14; 15; 16] (region_trace demo_region (demo_marker 0xbe) (demo_marker 0xed)).
Definition demo_turns (l : list (Z * guest_event)) : nat :=
  (11 + sum_list (map (fun te => 37 + 2 * Queue.claim_size (claim_of te))%nat l))%nat.
Definition demo_actions : list Threads.action :=
  concat (map (fun te => Threads.AClaim 1 (claim_of te) :: repeat (Threads.AProduce 1) (Queue.event_turns (claim_of te)))
    demo_stamped) ++ [Threads.AEnable true; Threads.AFlush] ++ repeat Threads.AWrite (demo_turns demo_stamped).

(** Event names that make the mappings as long as the reader expects. *)
Definition long_name (k : nat) : string := Nat.iter k (String (Ascii.ascii_of_nat 120)) EmptyString.
Definition demo_names : list (Z * string) := map (fun n => (0, long_name (Z.to_nat n))) (repeat 16000 8 ++ [5901]).
Definition demo_device (_ : string) : option nat := Some (Z.to_nat 150000).

Lemma long_name_bytes k : List.length (File.str_bytes (long_name k)) = k.
Proof. induction k as [|k IH]; [done|]. unfold long_name in *. cbn [Nat.iter nat_rect File.str_bytes List.length]. by f_equal. Qed.

Lemma demo_names_ok : Forall File.event_ok demo_names.
Proof.
  apply Forall_map, Forall_forall. intros k Hk. assert (0 < k <= 16000) as Hr.
  { apply in_app_or in Hk as [Hk|[<-|[]]]; [apply repeat_spec in Hk as ->|]; lia. }
  split; cbn [snd].
  - destruct (Z.to_nat k) eqn:E; [lia|done].
  - rewrite long_name_bytes. unfold File.CHUNK. lia.
Qed.

Lemma demo_prefix_length : List.length (File.trace_file_prefix demo_names) = (24 + MAPPINGS_SIZE)%nat.
Proof. apply Nat.eqb_eq. vm_compute. reflexivity. Qed.

Lemma demo_runs_before : runs [] demo_before [mkExe demo_load demo_machine [(2, 0x7010)]] (insns demo_tb).
Proof. apply runs_translate. eapply runs_execute; [reflexivity|by vm_compute|]. apply runs_nil. Qed.

Lemma demo_runs_inside : runs (insns demo_tb) demo_inside demo_region (insns demo_tb).
Proof. unfold demo_inside, demo_region. do 4 (eapply runs_execute; [reflexivity|by vm_compute|]). apply runs_nil. Qed.

Lemma demo_run_fits :
  Forall event_fits (guest_run demo_before demo_inside 0 3 demo_machine demo_machine [] []).
Proof.
  unfold guest_run, demo_before, demo_inside. repeat constructor; cbn [n insns demo_tb take List.length]; try lia; apply demo_insn_ok;
    repeat (try (by left); right).
Qed.

Lemma guest_to_simulator_witness :
  map (fun i => (ip i, branch_taken i, source_memory i)) (take 2 (simulated (region 1 demo_region))) =
    [(0x408, false, [0x7010; 0; 0; 0]); (0x40a, true, [0; 0; 0; 0])] /\
  exists cache st s1 s2 file r r',
    Tracer.run 0x5000 (guest_run demo_before demo_inside 0 3 demo_machine demo_machine [] []) ([], tracer_init) = Ret (cache, st) /\
    trace st = map snd demo_stamped /\
    File.st_set_trace_file demo_device "trace" demo_names (Some "t.trace"%string) (File.st_init true File.tfile_init).2 = Ret s1 /\
    File.st_set_trace_file_enabled demo_device demo_names false (File.trace_events (map (record_of 42) demo_stamped) s1) = Ret (true, s2) /\
    File.disk s2 !! "t.trace"%string = Some file /\
    file = File.trace_file_prefix demo_names ++ concat (Threads.out (Queue.demo_state demo_actions)) /\
    reader_new file = Ret r /\ reader_gets 2 r = Ret (take 2 (simulated (region 1 demo_region)), r').
Proof.
  split; [vm_compute; reflexivity|].
  apply (guest_to_simulator demo_device "trace" demo_names 0x5000 demo_before demo_inside
    [mkExe demo_load demo_machine [(2, 0x7010)]] demo_region (insns demo_tb) (insns demo_tb) 0 3 demo_machine demo_machine [] []
    (demo_marker 0xbe) (demo_marker 0xed) 42 demo_stamped (Queue.demo_state demo_actions) "t.trace" 2).
  - exact demo_runs_before.
  - by vm_compute.
  - exact demo_runs_inside.
  - by vm_compute.
  - by vm_compute.
  - exact demo_run_fits.
  - by vm_compute.
  - vm_compute. reflexivity.
  - unfold event_ok. apply (bool_decide_unpack _). vm_compute. exact I.
  - lia.
  - apply Queue.demo_steps. vm_compute. reflexivity.
  - vm_compute. reflexivity.
  - vm_compute. reflexivity.
  - vm_compute. reflexivity.
  - by vm_compute.
  - exact demo_names_ok.
  - exists (Z.to_nat 150000), false. split; [reflexivity|split; [vm_compute; reflexivity|]]. apply Nat.leb_le. vm_compute. reflexivity.
  - exact demo_prefix_length.
  - cbn. lia.
Defined.

(** A store through the page found again in the victim table. *)
Lemma traced_access_in_force_witness :
  exists d pg sz, EvData (mkData 5 0x400456 0x42456 1 1 3 0x7f000) = EvData d /\ d_vaddr d = 0x400456 /\ d_icount d = 5 /\
    SoftTlb.spec_run SoftTlb.demo_ops (fun _ _ => None) 0 (SoftTlb.page_of 0x400456) = Some (pg, sz) /\
    d_paddr d = u64 (Z.land 0x400456 (not64 SoftTlb.TARGET_PAGE_MASK) + pg).
Proof.
  apply (traced_access_in_force (fun _ => true) SoftTlb.demo_translate (fun _ => false) (fun _ => false) (fun _ => 0)
    SoftTlb.demo_tlb0 0 SoftTlb.demo_ops SoftTlb.demo_tlb 0x33 0x7f000 TRACE_MEM_ST 0x400456
    (set_g tracer_init (Pqii.mkData 1 5) [])).
  - repeat constructor; cbn; try lia; try tauto; unfold SoftTlb.TARGET_PAGE_SIZE, SoftTlb.TARGET_PAGE_BITS; lia.
  - vm_compute. reflexivity.
  - lia.
  - vm_compute. split; [discriminate|reflexivity].
  - vm_compute. reflexivity.
Defined.

End EndToEnd.
