(* ===== verification/PluginGen.v ===== *)
(** * Generation of instrumentation code

    qemu/accel/tcg/plugin-gen.c for a 64-bit host and guest.  While a block is
    translated, a template (a stretch of operations between [plugin_cb_start]
    and [plugin_cb_end]) is emitted at every place a plugin may want to
    instrument; after the plugins were asked, each template is replaced by one
    copy per callback, or removed.

    Operations carry an identity, which stands for their address; a temporary
    is chosen by a parameter among those not in use. *)

From S2P Require Import Prelude PluginCore PluginApi.
Open Scope Z_scope.
Open Scope c_scope.

Module PluginGen.
Import PluginCore PluginApi.

(** ** Operations *)

Inductive TCGOpcode :=
| op_plugin_cb_start | op_plugin_cb_end
| op_movi_i32 | op_movi_i64 | op_mov_i32 | op_mov_i64 | op_extu_i32_i64
| op_ld_i32 | op_ld_i64 | op_st_i32 | op_st_i64
| op_add_i64 | op_add2_i32 | op_call
| op_guest (k : Z).            (* any operation of the translated program *)

#[global] Instance opcode_eq_dec : EqDecision TCGOpcode.
Proof. solve_decision. Defined.

(** [param1] and [param2] are the numbers of inputs and results of a call. *)
Record TCGOp := mkOp {
  op_id : nat;
  opc : TCGOpcode;
  args : list Z;
  param1 : Z;
  param2 : Z;
}.

Definition TCG_TARGET_REG_BITS : Z := 64.
Definition TARGET_LONG_BITS : Z := 64.
Definition UINTPTR_IS_32 : bool := false.

Inductive plugin_gen_from := FROM_TB | FROM_INSN | FROM_MEM | AFTER_INSN.
Inductive plugin_gen_cb := CB_UDATA | CB_INLINE | CB_MEM | ENABLE_MEM_HELPER | DISABLE_MEM_HELPER.

Definition from_code (f : plugin_gen_from) : Z :=
  match f with FROM_TB => 0 | FROM_INSN => 1 | FROM_MEM => 2 | AFTER_INSN => 3 end.
Definition type_code (t : plugin_gen_cb) : Z :=
  match t with CB_UDATA => 0 | CB_INLINE => 1 | CB_MEM => 2 | ENABLE_MEM_HELPER => 3 | DISABLE_MEM_HELPER => 4 end.

(** The translation context: the operations emitted, the starts of templates,
    the temporaries in use, the plugins' view of the block, and the callback
    arrays that helpers read. *)
Record tcg_context := mkTcg {
  ops : list TCGOp;
  plugin_ops : list nat;
  next_id : nat;
  live : gset Z;
  plugin_tb : qemu_plugin_tb;
  plugin_insn : option nat;
  dyn_arrs : gmap Z (list qemu_plugin_dyn_cb);
}.

Definition set_ops (s : tcg_context) (l : list TCGOp) (k : nat) : tcg_context :=
  mkTcg l (plugin_ops s) k (live s) (plugin_tb s) (plugin_insn s) (dyn_arrs s).
Definition set_plugin_ops (s : tcg_context) (l : list nat) : tcg_context :=
  mkTcg (ops s) l (next_id s) (live s) (plugin_tb s) (plugin_insn s) (dyn_arrs s).
Definition set_live (s : tcg_context) (l : gset Z) : tcg_context :=
  mkTcg (ops s) (plugin_ops s) (next_id s) l (plugin_tb s) (plugin_insn s) (dyn_arrs s).
Definition set_tb (s : tcg_context) (tb : qemu_plugin_tb) : tcg_context :=
  mkTcg (ops s) (plugin_ops s) (next_id s) (live s) tb (plugin_insn s) (dyn_arrs s).
Definition set_insn (s : tcg_context) (i : option nat) : tcg_context :=
  mkTcg (ops s) (plugin_ops s) (next_id s) (live s) (plugin_tb s) i (dyn_arrs s).
Definition set_arrs (s : tcg_context) (a : gmap Z (list qemu_plugin_dyn_cb)) : tcg_context :=
  mkTcg (ops s) (plugin_ops s) (next_id s) (live s) (plugin_tb s) (plugin_insn s) a.

(** [tcg_emit_op] with its arguments. *)
Definition emit (c : TCGOpcode) (a : list Z) (p1 p2 : Z) (s : tcg_context) : tcg_context :=
  set_ops s (ops s ++ [mkOp (next_id s) c a p1 p2]) (S (next_id s)).

Definition tcg_temp_free (t : Z) (s : tcg_context) : tcg_context := set_live s (live s ∖ {[t]}).

Section Gen.
(** [tcg_temp_new]: a temporary that is not in use. *)
Variable pick : gset Z -> Z.
(** The temporary of [cpu_env], the offsets from it of the vCPU's index and of
    [plugin_mem_cbs], and the addresses of the two helper stubs. *)
Variables (cpu_env off_cpu_index off_mem_cbs helper_udata helper_mem : Z).
(** The address of a new callback array. *)
Variable new_arr : gmap Z (list qemu_plugin_dyn_cb) -> Z.

Definition tcg_temp_new (s : tcg_context) : Z * tcg_context :=
  let t := pick (live s) in (t, set_live s ({[t]} ∪ live s)).

(** [tcg_const_i32], [tcg_const_ptr]: a new temporary and its initialisation. *)
Definition tcg_const (c : TCGOpcode) (v : Z) (s : tcg_context) : Z * tcg_context :=
  let '(t, s) := tcg_temp_new s in (t, emit c [t; v] 0 0 s).

(** A helper call without result: inputs, function, flags. *)
Definition gen_helper (f : Z) (inputs : list Z) (s : tcg_context) : tcg_context :=
  emit op_call (inputs ++ [f; 0]) (Z.of_nat (List.length inputs)) 0 s.

(** [tcg_gen_mov_i64]: a move to itself is not emitted. *)
Definition tcg_gen_extu_tl_i64 (ret arg : Z) (s : tcg_context) : tcg_context :=
  if ret =? arg then s else emit op_mov_i64 [ret; arg] 0 0 s.

(** [tcg_gen_addi_i64] *)
Definition tcg_gen_addi_i64 (ret arg1 arg2 : Z) (s : tcg_context) : tcg_context :=
  if arg2 =? 0 then tcg_gen_extu_tl_i64 ret arg1 s
  else
    let '(t0, s) := tcg_const op_movi_i64 arg2 s in
    tcg_temp_free t0 (emit op_add_i64 [ret; arg1; t0] 0 0 s).

(** ** Templates *)

Definition do_gen_mem_cb (vaddr info : Z) (s : tcg_context) : tcg_context :=
  let '(cpu_index, s) := tcg_temp_new s in
  let '(meminfo, s) := tcg_const op_movi_i32 info s in
  let '(vaddr64, s) := tcg_temp_new s in
  let '(udata, s) := tcg_const op_movi_i64 0 s in
  let s := emit op_ld_i32 [cpu_index; cpu_env; off_cpu_index] 0 0 s in
  let s := tcg_gen_extu_tl_i64 vaddr64 vaddr s in
  let s := gen_helper helper_mem [cpu_index; meminfo; vaddr64; udata] s in
  tcg_temp_free cpu_index (tcg_temp_free meminfo (tcg_temp_free vaddr64 (tcg_temp_free udata s))).

Definition gen_empty_udata_cb (s : tcg_context) : tcg_context :=
  let '(cpu_index, s) := tcg_temp_new s in
  let '(udata, s) := tcg_const op_movi_i64 0 s in
  let s := emit op_ld_i32 [cpu_index; cpu_env; off_cpu_index] 0 0 s in
  let s := gen_helper helper_udata [cpu_index; udata] s in
  tcg_temp_free cpu_index (tcg_temp_free udata s).

Definition gen_empty_inline_cb (s : tcg_context) : tcg_context :=
  let '(val, s) := tcg_temp_new s in
  let '(ptr, s) := tcg_const op_movi_i64 0 s in
  let s := emit op_ld_i64 [val; ptr; 0] 0 0 s in
  let s := tcg_gen_addi_i64 val val 0xdeadface s in
  let s := emit op_st_i64 [val; ptr; 0] 0 0 s in
  tcg_temp_free val (tcg_temp_free ptr s).

Definition gen_empty_mem_cb (addr info : Z) (s : tcg_context) : tcg_context := do_gen_mem_cb addr info s.

Definition gen_empty_mem_helper (s : tcg_context) : tcg_context :=
  let '(ptr, s) := tcg_const op_movi_i64 0 s in
  tcg_temp_free ptr (emit op_st_i64 [ptr; cpu_env; off_mem_cbs] 0 0 s).

Definition gen_plugin_cb_start (from : plugin_gen_from) (type : plugin_gen_cb) (wr : Z) (s : tcg_context)
  : tcg_context :=
  set_plugin_ops (emit op_plugin_cb_start [from_code from; type_code type; wr] 0 0 s) (plugin_ops s ++ [next_id s]).

Definition tcg_gen_plugin_cb_end (s : tcg_context) : tcg_context := emit op_plugin_cb_end [] 0 0 s.

Definition gen_wrapped (from : plugin_gen_from) (type : plugin_gen_cb) (func : tcg_context -> tcg_context)
  (s : tcg_context) : tcg_context :=
  tcg_gen_plugin_cb_end (func (gen_plugin_cb_start from type 0 s)).

Definition plugin_gen_empty_callback (from : plugin_gen_from) (s : tcg_context) : cres tcg_context :=
  let common s := gen_wrapped from CB_INLINE gen_empty_inline_cb (gen_wrapped from CB_UDATA gen_empty_udata_cb s) in
  match from with
  | AFTER_INSN => Ret (gen_wrapped from DISABLE_MEM_HELPER gen_empty_mem_helper s)
  | FROM_INSN => Ret (common (gen_wrapped from ENABLE_MEM_HELPER gen_empty_mem_helper s))
  | FROM_TB => Ret (common s)
  | FROM_MEM => Abort "g_assert_not_reached"
  end.

Definition gen_mem_wrapped (type : plugin_gen_cb) (func : tcg_context -> tcg_context) (info : Z) (s : tcg_context)
  : tcg_context :=
  let wr := b2z (ztrue (Z.land info TRACE_MEM_ST)) in
  tcg_gen_plugin_cb_end (func (gen_plugin_cb_start FROM_MEM type wr s)).

Definition plugin_gen_empty_mem_callback (addr info : Z) (s : tcg_context) : tcg_context :=
  gen_mem_wrapped CB_INLINE gen_empty_inline_cb info
    (gen_mem_wrapped CB_MEM (gen_empty_mem_cb addr info) info s).

(** ** Copying a template *)

(** [begin_op] is the template operation copied last, [cur] those behind it,
    [out] the copies, inserted one behind the other. *)
Record copier := mkCopier {
  begin_op : TCGOp;
  cur : list TCGOp;
  nid : nat;
  out : list TCGOp;
}.

Definition copy_op_nocheck (c : copier) : cres copier :=
  match cur c with
  | [] => Abort "tcg_debug_assert(*begin_op)"
  | b :: rest => Ret (mkCopier b rest (S (nid c)) (out c ++ [mkOp (nid c) (opc b) (args b) 0 0]))
  end.

Definition copy_op (o : TCGOpcode) (c : copier) : cres copier :=
  let* c := copy_op_nocheck c in
  let* _ := cassert (bool_decide (opc (begin_op c) = o)) "tcg_debug_assert(opc)" in
  Ret c.

(** [op->args[k] = v] for the operation inserted last. *)
Definition set_last (f : TCGOp -> TCGOp) (l : list TCGOp) : list TCGOp :=
  alter f (List.length l - 1)%nat l.
Definition set_arg (k : nat) (v : Z) (o : TCGOp) : TCGOp :=
  mkOp (op_id o) (opc o) (<[k := v]> (args o)) (param1 o) (param2 o).
Definition set_out (c : copier) (l : list TCGOp) : copier := mkCopier (begin_op c) (cur c) (nid c) l.

Definition copy_extu_i32_i64 (c : copier) : cres copier :=
  if TCG_TARGET_REG_BITS =? 32 then
    let* c := copy_op op_mov_i32 c in copy_op op_movi_i32 c
  else copy_op op_extu_i32_i64 c.

Definition copy_mov_i64 (c : copier) : cres copier :=
  if TCG_TARGET_REG_BITS =? 32 then
    let* c := copy_op op_mov_i32 c in copy_op op_mov_i32 c
  else copy_op op_mov_i64 c.

Definition copy_movi_i64 (v : Z) (c : copier) : cres copier :=
  if TCG_TARGET_REG_BITS =? 32 then
    let* c := copy_op op_movi_i32 c in
    let c := set_out c (set_last (set_arg 1 v) (out c)) in
    let* c := copy_op op_movi_i32 c in
    Ret (set_out c (set_last (set_arg 1 (Z.shiftr v 32)) (out c)))
  else
    let* c := copy_op op_movi_i64 c in
    Ret (set_out c (set_last (set_arg 1 v) (out c))).

Definition copy_const_ptr (ptr : Z) (c : copier) : cres copier :=
  if UINTPTR_IS_32 then
    let* c := copy_op op_movi_i32 c in
    Ret (set_out c (set_last (set_arg 1 ptr) (out c)))
  else copy_movi_i64 ptr c.

Definition copy_const_i64 (v : Z) (c : copier) : cres copier := copy_movi_i64 v c.

Definition copy_extu_tl_i64 (c : copier) : cres copier :=
  if TARGET_LONG_BITS =? 32 then copy_extu_i32_i64 c else copy_mov_i64 c.

Definition copy_ld_i64 (c : copier) : cres copier :=
  if TCG_TARGET_REG_BITS =? 32 then let* c := copy_op op_ld_i32 c in copy_op op_ld_i32 c
  else copy_op op_ld_i64 c.

Definition copy_st_i64 (c : copier) : cres copier :=
  if TCG_TARGET_REG_BITS =? 32 then let* c := copy_op op_st_i32 c in copy_op op_st_i32 c
  else copy_op op_st_i64 c.

Definition copy_add_i64 (c : copier) : cres copier :=
  if TCG_TARGET_REG_BITS =? 32 then copy_op op_add2_i32 c else copy_op op_add_i64 c.

Definition copy_st_ptr (c : copier) : cres copier :=
  if UINTPTR_IS_32 then copy_op op_st_i32 c else copy_st_i64 c.

(** The [do ... while] loop: copies up to and including the call. *)
Fixpoint copy_until_call (rest : list TCGOp) (id : nat) (o : list TCGOp) : cres copier :=
  match rest with
  | [] => Abort "tcg_debug_assert(*begin_op)"
  | b :: rest =>
      let o := o ++ [mkOp id (opc b) (args b) 0 0] in
      if bool_decide (opc b = op_call) then Ret (mkCopier b rest (S id) o)
      else copy_until_call rest (S id) o
  end.

(** The position of the stub among the arguments. *)
Fixpoint find_arg (l : list Z) (v : Z) : option nat :=
  match l with
  | [] => None
  | a :: l => if a =? v then Some 0%nat else S <$> find_arg l v
  end.

(** [cb_idx] is the position found for an earlier callback; [None] is -1. *)
Definition copy_call (empty_func func tcg_flags : Z) (cb_idx : option nat) (c : copier)
  : cres (copier * option nat) :=
  let* c := copy_until_call (cur c) (nid c) (out c) in
  let b := begin_op c in
  let idx := match cb_idx with Some i => Some i | None => find_arg (args b) empty_func end in
  match idx with
  | None => Abort "tcg_debug_assert(i < MAX_OPC_PARAM_ARGS)"
  | Some i =>
      let fill o := mkOp (op_id o) (opc o) (<[(i + 1)%nat := tcg_flags]> (<[i := func]> (args o))) (param1 b) (param2 b) in
      Ret (set_out c (set_last fill (out c)), Some i)
  end.

(** The load of the vCPU's index: passed over, copied for the first callback. *)
Definition copy_ld_once (cb_idx : option nat) (c : copier) : cres copier :=
  match cur c with
  | [] => Abort "tcg_debug_assert(begin_op)"
  | b :: rest =>
      let* _ := cassert (bool_decide (opc b = op_ld_i32)) "tcg_debug_assert(ld_i32)" in
      match cb_idx with
      | None => Ret (mkCopier b rest (S (nid c)) (out c ++ [mkOp (nid c) op_ld_i32 (args b) 0 0]))
      | Some _ => Ret (mkCopier b rest (nid c) (out c))
      end
  end.

Definition append_udata_cb (cb : qemu_plugin_dyn_cb) (cb_idx : option nat) (c : copier)
  : cres (copier * option nat) :=
  let* c := copy_const_ptr (userp cb) c in
  let* c := copy_ld_once cb_idx c in
  copy_call helper_udata (d_f cb) (tcg_flags cb) cb_idx c.

Definition append_inline_cb (cb : qemu_plugin_dyn_cb) (unused : option nat) (c : copier)
  : cres (copier * option nat) :=
  let* c := copy_const_ptr (userp cb) c in
  let* c := copy_ld_i64 c in
  let* c := copy_const_i64 (d_imm cb) c in
  let* c := copy_add_i64 c in
  let* c := copy_st_i64 c in
  Ret (c, unused).

Definition append_mem_cb (cb : qemu_plugin_dyn_cb) (cb_idx : option nat) (c : copier)
  : cres (copier * option nat) :=
  let* _ := cassert (nth 1 (args (begin_op c)) 0 =? type_code CB_MEM) "tcg_debug_assert(type == PLUGIN_GEN_CB_MEM)" in
  let* c := copy_op op_movi_i32 c in
  let* c := copy_const_ptr (userp cb) c in
  let* c := copy_ld_once cb_idx c in
  let* c := copy_extu_tl_i64 c in
  copy_call helper_mem (d_f cb) (tcg_flags cb) cb_idx c.

(** ** Injection *)

Definition op_ok (begin : TCGOp) (cb : qemu_plugin_dyn_cb) : bool := true.
Definition op_rw (begin : TCGOp) (cb : qemu_plugin_dyn_cb) : bool :=
  ztrue (Z.land (rw cb) (nth 2 (args begin) 0 + 1)).

(** [find_op(op, plugin_cb_end)]: what is before it and behind it.  The copying
    functions read what is before it; reading on is taken as a failure, where
    the code would read the end marker. *)
Fixpoint find_end (l : list TCGOp) : option (list TCGOp * list TCGOp) :=
  match l with
  | [] => None
  | o :: l =>
      if bool_decide (opc o = op_plugin_cb_end) then Some ([], l)
      else '(a, b) ← find_end l; Some (o :: a, b)
  end.

(** The loop over the callbacks: every copy starts again at the template's
    start and goes behind the copy before it. *)
Fixpoint inject_loop (inject : qemu_plugin_dyn_cb -> option nat -> copier -> cres (copier * option nat))
  (ok : TCGOp -> qemu_plugin_dyn_cb -> bool) (begin : TCGOp) (body : list TCGOp)
  (cbs : list qemu_plugin_dyn_cb) (cb_idx : option nat) (id : nat) (o : list TCGOp) : cres (list TCGOp * nat) :=
  match cbs with
  | [] => Ret (o, id)
  | cb :: cbs =>
      if negb (ok begin cb) then inject_loop inject ok begin body cbs cb_idx id o
      else
        let* r := inject cb cb_idx (mkCopier begin body id o) in
        inject_loop inject ok begin body cbs r.2 (nid r.1) (out r.1)
  end.

(** All operations up to and including [plugin_cb_end] are removed. *)
Definition rm_ops (rest : list TCGOp) (id : nat) : cres (list TCGOp * nat) :=
  match find_end rest with
  | None => Abort "tcg_debug_assert(end_op)"
  | Some (_, post) => Ret (post, id)
  end.

(** [rest] are the operations behind [begin]; the result replaces both. *)
Definition inject_cb_type (cbs : list qemu_plugin_dyn_cb) (begin : TCGOp) (rest : list TCGOp) (id : nat)
  (inject : qemu_plugin_dyn_cb -> option nat -> copier -> cres (copier * option nat))
  (ok : TCGOp -> qemu_plugin_dyn_cb -> bool) : cres (list TCGOp * nat) :=
  if (List.length cbs =? 0)%nat then rm_ops rest id
  else
    match find_end rest with
    | None => Abort "tcg_debug_assert(end_op)"
    | Some (body, post) =>
        let* r := inject_loop inject ok begin body cbs None id [] in
        Ret (r.1 ++ post, r.2)
    end.

Definition inject_udata_cb (cbs : list qemu_plugin_dyn_cb) (begin : TCGOp) (rest : list TCGOp) (id : nat) :=
  inject_cb_type cbs begin rest id append_udata_cb op_ok.
Definition inject_inline_cb (cbs : list qemu_plugin_dyn_cb) (begin : TCGOp) (rest : list TCGOp) (id : nat)
  (ok : TCGOp -> qemu_plugin_dyn_cb -> bool) :=
  inject_cb_type cbs begin rest id append_inline_cb ok.
Definition inject_mem_cb (cbs : list qemu_plugin_dyn_cb) (begin : TCGOp) (rest : list TCGOp) (id : nat) :=
  inject_cb_type cbs begin rest id append_mem_cb op_rw.

Definition inject_mem_helper (begin : TCGOp) (rest : list TCGOp) (id : nat) (arr : Z) : cres (list TCGOp * nat) :=
  match find_end rest with
  | None => Abort "tcg_debug_assert(end_op)"
  | Some (body, post) =>
      let* c := copy_const_ptr arr (mkCopier begin body id []) in
      let* c := copy_st_ptr c in
      Ret (out c ++ post, nid c)
  end.

Definition set_mem_helper (i : qemu_plugin_insn) (b : bool) : qemu_plugin_insn :=
  mkPInsn (data i) (vaddr i) (paddr i) (haddr i) (insn_regular i) (insn_inline i) (mem_regular i) (mem_inline i)
    (calls_helpers i) b (is_br_jmp i) (target_vaddr i).

(** The copied callback array, the instruction's flag, and the operations. *)
Definition inject_mem_enable_helper (i : qemu_plugin_insn) (begin : TCGOp) (rest : list TCGOp) (id : nat)
  (arrs : gmap Z (list qemu_plugin_dyn_cb))
  : cres (list TCGOp * nat * qemu_plugin_insn * gmap Z (list qemu_plugin_dyn_cb)) :=
  let n_cbs := (List.length (mem_regular i) + List.length (mem_inline i))%nat in
  let b := calls_helpers i && negb (n_cbs =? 0)%nat in
  let i := set_mem_helper i b in
  if negb b then
    let* r := rm_ops rest id in Ret (r.1, r.2, i, arrs)
  else
    let arr := new_arr arrs in
    let* _ := cassert (bool_decide (arrs !! arr = None)) "g_assert(inserted)" in
    let* r := inject_mem_helper begin rest id arr in
    Ret (r.1, r.2, i, <[arr := mem_regular i ++ mem_inline i]> arrs).

Definition inject_mem_disable_helper (i : qemu_plugin_insn) (begin : TCGOp) (rest : list TCGOp) (id : nat)
  : cres (list TCGOp * nat) :=
  if negb (mem_helper i) then rm_ops rest id else inject_mem_helper begin rest id 0.

(** [g_ptr_array_index(ptb->insns, insn_idx)] *)
Definition insn_at (ptb : qemu_plugin_tb) (insn_idx : Z) : cres qemu_plugin_insn :=
  if insn_idx <? 0 then Abort "instruction index out of range"
  else match insns ptb !! Z.to_nat insn_idx with
       | Some i => Ret i
       | None => Abort "instruction index out of range"
       end.

Definition plugin_gen_tb_udata (ptb : qemu_plugin_tb) (begin : TCGOp) (rest : list TCGOp) (id : nat) :=
  inject_udata_cb (tb_regular ptb) begin rest id.
Definition plugin_gen_tb_inline (ptb : qemu_plugin_tb) (begin : TCGOp) (rest : list TCGOp) (id : nat) :=
  inject_inline_cb (tb_inline ptb) begin rest id op_ok.
Definition plugin_gen_insn_udata (ptb : qemu_plugin_tb) (begin : TCGOp) (rest : list TCGOp) (id : nat) (insn_idx : Z) :=
  let* insn := insn_at ptb insn_idx in inject_udata_cb (insn_regular insn) begin rest id.
Definition plugin_gen_insn_inline (ptb : qemu_plugin_tb) (begin : TCGOp) (rest : list TCGOp) (id : nat) (insn_idx : Z) :=
  let* insn := insn_at ptb insn_idx in inject_inline_cb (insn_inline insn) begin rest id op_ok.
Definition plugin_gen_mem_regular (ptb : qemu_plugin_tb) (begin : TCGOp) (rest : list TCGOp) (id : nat) (insn_idx : Z) :=
  let* insn := insn_at ptb insn_idx in inject_mem_cb (mem_regular insn) begin rest id.
Definition plugin_gen_mem_inline (ptb : qemu_plugin_tb) (begin : TCGOp) (rest : list TCGOp) (id : nat) (insn_idx : Z) :=
  let* insn := insn_at ptb insn_idx in inject_inline_cb (mem_inline insn) begin rest id op_rw.
Definition plugin_gen_disable_mem_helper (ptb : qemu_plugin_tb) (begin : TCGOp) (rest : list TCGOp) (id : nat)
  (insn_idx : Z) :=
  let* insn := insn_at ptb insn_idx in inject_mem_disable_helper insn begin rest id.

(** The operations, the next identity, the block's record and the arrays. *)
Definition injected : Type := list TCGOp * nat * qemu_plugin_tb * gmap Z (list qemu_plugin_dyn_cb).

Definition plugin_gen_enable_mem_helper (ptb : qemu_plugin_tb) (begin : TCGOp) (rest : list TCGOp) (id : nat)
  (insn_idx : Z) (arrs : gmap Z (list qemu_plugin_dyn_cb)) : cres injected :=
  let* insn := insn_at ptb insn_idx in
  let* r := inject_mem_enable_helper insn begin rest id arrs in
  let '(l, id, insn, arrs) := r in
  Ret (l, id, set_insns ptb (<[Z.to_nat insn_idx := insn]> (insns ptb)) (n ptb), arrs).

Definition plugin_inject_cb (ptb : qemu_plugin_tb) (begin : TCGOp) (rest : list TCGOp) (id : nat) (insn_idx : Z)
  (arrs : gmap Z (list qemu_plugin_dyn_cb)) : cres injected :=
  let from := nth 0 (args begin) 0 in
  let type := nth 1 (args begin) 0 in
  let ret (m : cres (list TCGOp * nat)) : cres injected := let* r := m in Ret (r.1, r.2, ptb, arrs) in
  if from =? from_code FROM_TB then
    if type =? type_code CB_UDATA then ret (plugin_gen_tb_udata ptb begin rest id)
    else if type =? type_code CB_INLINE then ret (plugin_gen_tb_inline ptb begin rest id)
    else Abort "g_assert_not_reached"
  else if from =? from_code FROM_INSN then
    if type =? type_code CB_UDATA then ret (plugin_gen_insn_udata ptb begin rest id insn_idx)
    else if type =? type_code CB_INLINE then ret (plugin_gen_insn_inline ptb begin rest id insn_idx)
    else if type =? type_code ENABLE_MEM_HELPER then plugin_gen_enable_mem_helper ptb begin rest id insn_idx arrs
    else Abort "g_assert_not_reached"
  else if from =? from_code FROM_MEM then
    if type =? type_code CB_MEM then ret (plugin_gen_mem_regular ptb begin rest id insn_idx)
    else if type =? type_code CB_INLINE then ret (plugin_gen_mem_inline ptb begin rest id insn_idx)
    else Abort "g_assert_not_reached"
  else if from =? from_code AFTER_INSN then
    if type =? type_code DISABLE_MEM_HELPER then ret (plugin_gen_disable_mem_helper ptb begin rest id insn_idx)
    else Abort "g_assert_not_reached"
  else Abort "g_assert_not_reached".

(** The operation with a given identity, what is before it and behind it. *)
Fixpoint split_at (k : nat) (l : list TCGOp) : option (list TCGOp * TCGOp * list TCGOp) :=
  match l with
  | [] => None
  | o :: l =>
      if (op_id o =? k)%nat then Some ([], o, l)
      else '(a, b, c) ← split_at k l; Some (o :: a, b, c)
  end.

(** The loop over [tcg_ctx->plugin_ops]. *)
Fixpoint inject_all (starts : list nat) (insn_idx : Z) (s : tcg_context) : cres tcg_context :=
  match starts with
  | [] => Ret s
  | k :: starts =>
      match split_at k (ops s) with
      | None => Abort "wild operation"
      | Some (pre, begin, rest) =>
          let* _ := cassert (bool_decide (opc begin = op_plugin_cb_start)) "tcg_debug_assert(plugin_cb_start)" in
          let insn_idx :=
            if (nth 0 (args begin) 0 =? from_code FROM_INSN) && (nth 1 (args begin) 0 =? type_code ENABLE_MEM_HELPER)
            then insn_idx + 1 else insn_idx in
          let* r := plugin_inject_cb (plugin_tb s) begin rest (next_id s) insn_idx (dyn_arrs s) in
          let '(l, id, tb, arrs) := r in
          inject_all starts insn_idx (set_arrs (set_tb (set_ops s (pre ++ l) id) tb) arrs)
      end
  end.

Definition plugin_gen_inject (s : tcg_context) : cres tcg_context := inject_all (plugin_ops s) (-1) s.

(** Called before an operation that leaves the block. *)
Definition plugin_gen_disable_mem_helpers (s : tcg_context) : tcg_context :=
  match plugin_insn s with
  | None => s
  | Some k =>
      match insns (plugin_tb s) !! k with
      | None => s
      | Some i =>
          if negb (mem_helper i) then s
          else
            let '(ptr, s) := tcg_const op_movi_i64 0 s in
            let s := tcg_temp_free ptr (emit op_st_i64 [ptr; cpu_env; off_mem_cbs] 0 0 s) in
            set_tb s (set_insns (plugin_tb s) (<[k := set_mem_helper i false]> (insns (plugin_tb s))) (n (plugin_tb s)))
      end
  end.

(** The two ends of a guest memory access: the address is saved before it, for
    the templates behind it. *)
Definition plugin_prep_mem_callbacks (vaddr : Z) (s : tcg_context) : Z * tcg_context :=
  match plugin_insn s with
  | Some _ => let '(temp, s) := tcg_temp_new s in (temp, tcg_gen_extu_tl_i64 temp vaddr s)
  | None => (vaddr, s)
  end.

Definition plugin_gen_mem_callbacks (vaddr info : Z) (s : tcg_context) : tcg_context :=
  match plugin_insn s with
  | Some _ => tcg_temp_free vaddr (plugin_gen_empty_mem_callback vaddr info s)
  | None => s
  end.

(** Guest bytes, as they are fetched. *)
Definition plugin_insn_append (from : list Z) (s : tcg_context) : tcg_context :=
  match plugin_insn s with
  | None => s
  | Some k =>
      let add i := mkPInsn (data i ++ from) (vaddr i) (paddr i) (haddr i) (insn_regular i) (insn_inline i)
        (mem_regular i) (mem_inline i) (calls_helpers i) (mem_helper i) (is_br_jmp i) (target_vaddr i) in
      set_tb s (set_insns (plugin_tb s) (alter add k (insns (plugin_tb s))) (n (plugin_tb s)))
  end.

(** ** What a template becomes *)

(** An operation without its identity. *)
Definition strip (o : TCGOp) : TCGOp := mkOp 0 (opc o) (args o) (param1 o) (param2 o).
Definition ins (c : TCGOpcode) (a : list Z) : TCGOp := mkOp 0 c a 0 0.
Definition ins_call (f flags : Z) (inputs : list Z) : TCGOp :=
  mkOp 0 op_call (inputs ++ [f; flags]) (Z.of_nat (List.length inputs)) 0.

(** The templates, with the temporaries they use. *)
Inductive tmpl :=
| TTbUdata (ci ud : Z)
| TTbInline (v p t : Z)
| TEnable (p : Z)
| TInsnUdata (ci ud : Z)
| TInsnInline (v p t : Z)
| TMem (info addr ci mi va ud : Z)
| TMemInline (info v p t : Z)
| TDisable (p : Z).

Definition info_wr (info : Z) : Z := b2z (ztrue (Z.land info TRACE_MEM_ST)).

(** The arguments of [plugin_cb_start]. *)
Definition tmpl_args (t : tmpl) : list Z :=
  match t with
  | TTbUdata _ _ => [from_code FROM_TB; type_code CB_UDATA; 0]
  | TTbInline _ _ _ => [from_code FROM_TB; type_code CB_INLINE; 0]
  | TEnable _ => [from_code FROM_INSN; type_code ENABLE_MEM_HELPER; 0]
  | TInsnUdata _ _ => [from_code FROM_INSN; type_code CB_UDATA; 0]
  | TInsnInline _ _ _ => [from_code FROM_INSN; type_code CB_INLINE; 0]
  | TMem info _ _ _ _ _ => [from_code FROM_MEM; type_code CB_MEM; info_wr info]
  | TMemInline info _ _ _ => [from_code FROM_MEM; type_code CB_INLINE; info_wr info]
  | TDisable _ => [from_code AFTER_INSN; type_code DISABLE_MEM_HELPER; 0]
  end.

Definition inline_body (v p t : Z) : list TCGOp :=
  [ins op_movi_i64 [p; 0]; ins op_ld_i64 [v; p; 0]; ins op_movi_i64 [t; 0xdeadface];
   ins op_add_i64 [v; v; t]; ins op_st_i64 [v; p; 0]].
Definition udata_body (ci ud : Z) : list TCGOp :=
  [ins op_movi_i64 [ud; 0]; ins op_ld_i32 [ci; cpu_env; off_cpu_index]; ins_call helper_udata 0 [ci; ud]].
Definition mem_body (info addr ci mi va ud : Z) : list TCGOp :=
  [ins op_movi_i32 [mi; info]; ins op_movi_i64 [ud; 0]; ins op_ld_i32 [ci; cpu_env; off_cpu_index];
   ins op_mov_i64 [va; addr]; ins_call helper_mem 0 [ci; mi; va; ud]].
Definition helper_body (p : Z) : list TCGOp :=
  [ins op_movi_i64 [p; 0]; ins op_st_i64 [p; cpu_env; off_mem_cbs]].

Definition tmpl_body (t : tmpl) : list TCGOp :=
  match t with
  | TTbUdata ci ud | TInsnUdata ci ud => udata_body ci ud
  | TTbInline v p t | TInsnInline v p t | TMemInline _ v p t => inline_body v p t
  | TMem info addr ci mi va ud => mem_body info addr ci mi va ud
  | TEnable p | TDisable p => helper_body p
  end.

(** The temporaries a template allocates. *)
Definition tmpl_temps (t : tmpl) : list Z :=
  match t with
  | TTbUdata ci ud | TInsnUdata ci ud => [ci; ud]
  | TTbInline v p t | TInsnInline v p t | TMemInline _ v p t => [v; p; t]
  | TMem _ _ ci mi va ud => [ci; mi; va; ud]
  | TEnable p | TDisable p => [p]
  end.

(** The code for one callback; the vCPU's index is loaded for the first. *)
Definition ld_index (first : bool) (ci : Z) : list TCGOp :=
  if first then [ins op_ld_i32 [ci; cpu_env; off_cpu_index]] else [].
Definition udata_code (ci ud : Z) (first : bool) (cb : qemu_plugin_dyn_cb) : list TCGOp :=
  ins op_movi_i64 [ud; userp cb] :: ld_index first ci ++ [ins_call (d_f cb) (tcg_flags cb) [ci; ud]].
Definition inline_code (v p t : Z) (first : bool) (cb : qemu_plugin_dyn_cb) : list TCGOp :=
  [ins op_movi_i64 [p; userp cb]; ins op_ld_i64 [v; p; 0]; ins op_movi_i64 [t; d_imm cb];
   ins op_add_i64 [v; v; t]; ins op_st_i64 [v; p; 0]].
Definition mem_code (info addr ci mi va ud : Z) (first : bool) (cb : qemu_plugin_dyn_cb) : list TCGOp :=
  [ins op_movi_i32 [mi; info]; ins op_movi_i64 [ud; userp cb]] ++ ld_index first ci ++
  [ins op_mov_i64 [va; addr]; ins_call (d_f cb) (tcg_flags cb) [ci; mi; va; ud]].
Definition helper_code (p arr : Z) : list TCGOp :=
  [ins op_movi_i64 [p; arr]; ins op_st_i64 [p; cpu_env; off_mem_cbs]].

(** The code for a list of callbacks. *)
Fixpoint code_all (code : bool -> qemu_plugin_dyn_cb -> list TCGOp) (first : bool)
  (cbs : list qemu_plugin_dyn_cb) : list TCGOp :=
  match cbs with
  | [] => []
  | cb :: cbs => code first cb ++ code_all code false cbs
  end.

Definition ids_in (lo hi : nat) (l : list TCGOp) : Prop := Forall (fun o => (lo <= op_id o < hi)%nat) l.

Lemma ids_in_mono lo hi lo' hi' l : (lo' <= lo)%nat -> (hi <= hi')%nat -> ids_in lo hi l -> ids_in lo' hi' l.
Proof. intros Hl Hh. apply Forall_impl. cbn. lia. Qed.

(** ** Copying *)

Lemma set_last_snoc f o x : set_last f (o ++ [x]) = o ++ [f x].
Proof.
  unfold set_last. rewrite length_app, Nat.add_sub.
  rewrite <- (Nat.add_0_r (List.length o)). by rewrite alter_app_r.
Qed.

Lemma strip_cons_inv l o r :
  map strip l = o :: r -> exists x l', l = x :: l' /\ strip x = o /\ map strip l' = r.
Proof. destruct l as [|x l']; [done|]. intros [= <- <-]. eauto. Qed.

Lemma strip_nil_inv l : map strip l = [] -> l = [].
Proof. by destruct l. Qed.

(** The operation as a variable body has it. *)
Lemma strip_inv o c a p1 p2 : strip o = mkOp 0 c a p1 p2 -> exists k, o = mkOp k c a p1 p2.
Proof. destruct o. intros [= -> -> -> ->]. eauto. Qed.

(** [inject] emits [code] when it copies [body], and reports [k] as the
    position of the stub. *)
Definition appends (inject : qemu_plugin_dyn_cb -> option nat -> copier -> cres (copier * option nat))
  (begin : TCGOp) (body : list TCGOp) (code : bool -> qemu_plugin_dyn_cb -> list TCGOp) (k : option nat) : Prop :=
  forall cb (first : bool) id o, exists c' new,
    inject cb (if first then None else k) (mkCopier begin body id o) = Ret (c', k) /\
    out c' = o ++ new /\ map strip new = code first cb /\ (id <= nid c')%nat /\ ids_in id (nid c') new.

Ltac body_ops :=
  repeat match goal with
  | H : map strip _ = _ :: _ |- _ =>
      apply strip_cons_inv in H as (? & ? & -> & ?%strip_inv & H); destruct_and?;
      match goal with H : exists _, _ = _ |- _ => destruct H as [? ->] end
  | H : map strip _ = [] |- _ => apply strip_nil_inv in H as ->
  end.

Ltac opcodes :=
  repeat match goal with
  | |- context [bool_decide (?a = ?b)] =>
      first [rewrite (bool_decide_eq_true_2 (a = b)) by reflexivity
            |rewrite (bool_decide_eq_false_2 (a = b)) by discriminate]
  end.

Ltac copied :=
  cbn -[set_last app]; opcodes; cbn -[set_last app]; rewrite ?set_last_snoc; cbn -[set_last app].

Ltac copied_done :=
  eexists _, _; split_and!;
  [reflexivity|cbn [out set_out]; rewrite <- ?app_assoc; reflexivity|done|cbn [nid set_out]; lia
  |unfold ids_in; cbn [app nid set_out set_arg op_id]; rewrite ?list.Forall_cons, list.Forall_nil; cbn; lia].

Lemma append_udata_appends begin body ci ud :
  map strip body = udata_body ci ud -> ci <> helper_udata -> ud <> helper_udata ->
  appends append_udata_cb begin body (udata_code ci ud) (Some 2%nat).
Proof.
  intros Hb H1 H2 cb first id o. unfold udata_body, ins, ins_call in Hb. cbn in Hb. body_ops.
  apply Z.eqb_neq in H1, H2. unfold append_udata_cb, copy_call.
  destruct first; repeat copied; rewrite ?H1, ?H2, ?Z.eqb_refl; repeat copied; copied_done.
Qed.

Lemma append_inline_appends begin body v p t :
  map strip body = inline_body v p t -> appends append_inline_cb begin body (inline_code v p t) None.
Proof.
  intros Hb cb first id o. unfold inline_body, ins in Hb. body_ops. unfold append_inline_cb.
  destruct first; repeat copied; copied_done.
Qed.

Lemma append_mem_appends begin body info addr ci mi va ud :
  nth 1 (args begin) 0 = type_code CB_MEM ->
  map strip body = mem_body info addr ci mi va ud ->
  Forall (fun t => t <> helper_mem) [ci; mi; va; ud] ->
  appends append_mem_cb begin body (mem_code info addr ci mi va ud) (Some 4%nat).
Proof.
  intros Ht Hb Hn cb first id o. unfold mem_body, ins, ins_call in Hb. cbn in Hb. body_ops.
  decompose_Forall_hyps. rewrite <- !Z.eqb_neq in *. unfold append_mem_cb, copy_call.
  destruct first; cbn [begin_op]; rewrite Ht; repeat copied;
    repeat (match goal with H : (_ =? helper_mem) = false |- _ => rewrite H end); rewrite ?Z.eqb_refl;
    repeat copied; copied_done.
Qed.

Definition is_true (f : qemu_plugin_dyn_cb -> bool) (cbs : list qemu_plugin_dyn_cb) : list qemu_plugin_dyn_cb :=
  filter (fun cb => f cb = true) cbs.

Lemma inject_loop_ok inject ok begin body code k cbs (first : bool) id o :
  appends inject begin body code k ->
  exists new id',
    inject_loop inject ok begin body cbs (if first then None else k) id o = Ret (o ++ new, id') /\
    map strip new = code_all code first (is_true (ok begin) cbs) /\ (id <= id')%nat /\ ids_in id id' new.
Proof.
  intros Ha. unfold is_true. revert first id o. induction cbs as [|cb cbs IH]; intros first id o; cbn [inject_loop].
  { exists [], id. rewrite app_nil_r. split_and!; [done..|]. constructor. }
  rewrite filter_cons. destruct (ok begin cb); cbn [negb].
  - rewrite decide_True by done.
    destruct (Ha cb first id o) as (c' & new & -> & Ho & Hs & Hle & Hin). cbn [cbind fst snd].
    destruct (IH false (nid c') (out c')) as (new' & id' & -> & Hs' & Hle' & Hin').
    exists (new ++ new'), id'. rewrite Ho, app_assoc. split_and!; [done| |lia|].
    + rewrite map_app, Hs, Hs'. done.
    + apply Forall_app. split; [eapply ids_in_mono, Hin|eapply ids_in_mono, Hin']; lia.
  - rewrite decide_False by done. apply IH.
Qed.

Lemma find_end_app body e post :
  Forall (fun o => opc o <> op_plugin_cb_end) body -> opc e = op_plugin_cb_end ->
  find_end (body ++ e :: post) = Some (body, post).
Proof.
  intros Hb He. induction Hb as [|o body Ho Hb IH]; cbn [app find_end].
  - by rewrite bool_decide_eq_true_2.
  - rewrite bool_decide_eq_false_2 by done. by rewrite IH.
Qed.

Lemma inject_cb_type_ok inject ok begin body e post code k cbs id :
  appends inject begin body code k ->
  Forall (fun o => opc o <> op_plugin_cb_end) body -> opc e = op_plugin_cb_end ->
  exists new id',
    inject_cb_type cbs begin (body ++ e :: post) id inject ok = Ret (new ++ post, id') /\
    map strip new = code_all code true (is_true (ok begin) cbs) /\ (id <= id')%nat /\ ids_in id id' new.
Proof.
  intros Ha Hb He. unfold inject_cb_type, rm_ops. rewrite find_end_app by done.
  destruct cbs as [|cb cbs]; [exists [], id; split_and!; [done..|constructor]|].
  destruct (inject_loop_ok inject ok begin body code k (cb :: cbs) true id [] Ha) as (new & id' & H & ?).
  cbn [List.length Nat.eqb]. rewrite H. exists new, id'. done.
Qed.

Lemma rm_ops_ok body e post id :
  Forall (fun o => opc o <> op_plugin_cb_end) body -> opc e = op_plugin_cb_end ->
  rm_ops (body ++ e :: post) id = Ret (post, id).
Proof. intros Hb He. unfold rm_ops. by rewrite find_end_app. Qed.

Lemma inject_mem_helper_ok begin body e post p arr id :
  map strip body = helper_body p ->
  Forall (fun o => opc o <> op_plugin_cb_end) body -> opc e = op_plugin_cb_end ->
  exists new id',
    inject_mem_helper begin (body ++ e :: post) id arr = Ret (new ++ post, id') /\
    map strip new = helper_code p arr /\ (id <= id')%nat /\ ids_in id id' new.
Proof.
  intros Hb Hn He. unfold inject_mem_helper. rewrite find_end_app by done.
  unfold helper_body, ins in Hb. body_ops. repeat copied.
  eexists _, _; split_and!; [reflexivity|done|lia|].
  unfold ids_in. cbn [app]. rewrite ?list.Forall_cons, list.Forall_nil. cbn. lia.
Qed.

(** ** The stretches of a block *)

(** The operations of a block under translation: those of the guest, and
    templates. *)
Inductive seg :=
| SGuest (o : TCGOp)
| STmpl (start : TCGOp) (t : tmpl) (body : list TCGOp) (fin : TCGOp).

Definition seg_ops (g : seg) : list TCGOp :=
  match g with
  | SGuest o => [o]
  | STmpl st _ body e => st :: body ++ [e]
  end.
Definition flatten (l : list seg) : list TCGOp := concat (map seg_ops l).

Definition seg_starts (g : seg) : list nat :=
  match g with SGuest _ => [] | STmpl st _ _ _ => [op_id st] end.
Definition starts (l : list seg) : list nat := concat (map seg_starts l).

Definition plain (o : TCGOp) : Prop := opc o <> op_plugin_cb_start /\ opc o <> op_plugin_cb_end.

(** The stubs' addresses are not temporaries. *)
Definition not_stub (t : Z) : Prop := t <> helper_udata /\ t <> helper_mem.

Definition seg_ok (g : seg) : Prop :=
  match g with
  | SGuest o => plain o
  | STmpl st t body e =>
      strip st = ins op_plugin_cb_start (tmpl_args t) /\ map strip body = tmpl_body t /\
      opc e = op_plugin_cb_end /\ Forall not_stub (tmpl_temps t)
  end.

(** ** The code a block gets *)

(** The instruction needs its memory callbacks announced to helpers. *)
Definition needs_helper (i : qemu_plugin_insn) : bool :=
  calls_helpers i && negb (List.length (mem_regular i) + List.length (mem_inline i) =? 0)%nat.

Definition is_enable (t : tmpl) : bool := match t with TEnable _ => true | _ => false end.
Definition of_block (t : tmpl) : bool :=
  match t with TTbUdata _ _ | TTbInline _ _ _ => true | _ => false end.

(** The instruction a template belongs to: they are counted by [TEnable]. *)
Definition next_idx (t : tmpl) (idx : Z) : Z := if is_enable t then idx + 1 else idx.

Definition wants_rw (info : Z) (cb : qemu_plugin_dyn_cb) : bool := ztrue (Z.land (rw cb) (info_wr info + 1)).

(** What becomes of a template of the instruction [i] of the block [tb]. *)
Definition tmpl_code (tb : qemu_plugin_tb) (i : qemu_plugin_insn) (arrs : gmap Z (list qemu_plugin_dyn_cb)) (t : tmpl)
  : list TCGOp :=
  match t with
  | TTbUdata ci ud => code_all (udata_code ci ud) true (tb_regular tb)
  | TTbInline v p t => code_all (inline_code v p t) true (tb_inline tb)
  | TInsnUdata ci ud => code_all (udata_code ci ud) true (insn_regular i)
  | TInsnInline v p t => code_all (inline_code v p t) true (insn_inline i)
  | TMem info addr ci mi va ud =>
      code_all (mem_code info addr ci mi va ud) true (is_true (wants_rw info) (mem_regular i))
  | TMemInline info v p t => code_all (inline_code v p t) true (is_true (wants_rw info) (mem_inline i))
  | TEnable p => if needs_helper i then helper_code p (new_arr arrs) else []
  | TDisable p => if needs_helper i then helper_code p 0 else []
  end.

(** The callback arrays helpers may be pointed to. *)
Definition tmpl_arrs (i : qemu_plugin_insn) (arrs : gmap Z (list qemu_plugin_dyn_cb)) (t : tmpl)
  : gmap Z (list qemu_plugin_dyn_cb) :=
  if is_enable t && needs_helper i then <[new_arr arrs := mem_regular i ++ mem_inline i]> arrs else arrs.

Definition nth_insn (tb : qemu_plugin_tb) (idx : Z) : qemu_plugin_insn :=
  default qemu_plugin_insn_alloc (insns tb !! Z.to_nat idx).

Fixpoint expand (tb : qemu_plugin_tb) (idx : Z) (arrs : gmap Z (list qemu_plugin_dyn_cb)) (l : list seg)
  : list TCGOp * gmap Z (list qemu_plugin_dyn_cb) :=
  match l with
  | [] => ([], arrs)
  | SGuest o :: l => let r := expand tb idx arrs l in (strip o :: r.1, r.2)
  | STmpl _ t _ _ :: l =>
      let idx := next_idx t idx in
      let i := nth_insn tb idx in
      let r := expand tb idx (tmpl_arrs i arrs t) l in
      (tmpl_code tb i arrs t ++ r.1, r.2)
  end.

(** Every template of an instruction has its instruction. *)
Fixpoint placed (len : nat) (idx : Z) (l : list seg) : Prop :=
  match l with
  | [] => True
  | SGuest _ :: l => placed len idx l
  | STmpl _ t _ _ :: l =>
      (of_block t = true \/ 0 <= next_idx t idx < Z.of_nat len) /\ placed len (next_idx t idx) l
  end.

(** ** Injection at one template *)

(** A new array is not one of those in the table. *)
Hypothesis new_arr_fresh : forall arrs, arrs !! new_arr arrs = None.

Lemma is_true_all f cbs : (forall cb, f cb = true) -> is_true f cbs = cbs.
Proof.
  intros Hf. unfold is_true. induction cbs as [|cb cbs IH]; [done|].
  rewrite filter_cons, decide_True by done. by rewrite IH.
Qed.

Lemma is_true_ext f g cbs : (forall cb, f cb = g cb) -> is_true f cbs = is_true g cbs.
Proof.
  intros Hf. unfold is_true. induction cbs as [|cb cbs IH]; [done|].
  rewrite !filter_cons, IH, Hf. done.
Qed.

Lemma tmpl_body_no_end t body :
  map strip body = tmpl_body t -> Forall (fun o => opc o <> op_plugin_cb_end) body.
Proof.
  intros Hb. assert (Forall (fun o => opc o <> op_plugin_cb_end) (tmpl_body t)) as H
    by (destruct t; repeat constructor; discriminate).
  rewrite <- Hb, Forall_map in H. exact H.
Qed.

(** A record of the block, but for the flag injection sets. *)
Definition no_helper (i : qemu_plugin_insn) : qemu_plugin_insn := set_mem_helper i false.

Lemma no_helper_needs i j : no_helper i = no_helper j -> needs_helper i = needs_helper j.
Proof. destruct i, j. intros [=]. subst. done. Qed.

Record block_inv (tb tb' : qemu_plugin_tb) (idx : Z) : Prop := {
  bi_regular : tb_regular tb' = tb_regular tb;
  bi_inline : tb_inline tb' = tb_inline tb;
  bi_insns : map no_helper (insns tb') = map no_helper (insns tb);
  bi_cur : forall i, 0 <= idx -> insns tb' !! Z.to_nat idx = Some i -> mem_helper i = needs_helper i;
}.

Lemma insn_at_ok tb tb' idx idx' :
  block_inv tb tb' idx' -> 0 <= idx < Z.of_nat (List.length (insns tb)) ->
  exists i, insn_at tb' idx = Ret i /\ insns tb' !! Z.to_nat idx = Some i /\ no_helper i = no_helper (nth_insn tb idx).
Proof.
  intros [_ _ Hi _] Hr. unfold insn_at, nth_insn.
  destruct (Z.ltb_spec idx 0); [lia|].
  destruct (lookup_lt_is_Some_2 (insns tb) (Z.to_nat idx) ltac:(lia)) as [j Hj].
  assert (map no_helper (insns tb') !! Z.to_nat idx = Some (no_helper j)) as H1
    by (rewrite Hi; by rewrite list_lookup_fmap, Hj).
  rewrite list_lookup_fmap in H1. rewrite Hj. cbn [default].
  destruct (insns tb' !! Z.to_nat idx) as [i|]; [|done]. apply (inj Some) in H1. by exists i.
Qed.

Lemma inject_callbacks inject (ok : TCGOp -> qemu_plugin_dyn_cb -> bool) f st t body e post code k cbs id :
  map strip body = tmpl_body t -> opc e = op_plugin_cb_end ->
  (forall cb, ok st cb = f cb) -> appends inject st body code k ->
  exists new id',
    inject_cb_type cbs st (body ++ e :: post) id inject ok = Ret (new ++ post, id') /\
    map strip new = code_all code true (is_true f cbs) /\ (id <= id')%nat /\ ids_in id id' new.
Proof.
  intros Hb He Hf Ha. rewrite <- (is_true_ext (ok st) f) by done.
  eapply inject_cb_type_ok; [done|by eapply tmpl_body_no_end|done].
Qed.

(** What injection does at a template of the block [tb]: the code, new
    identities, and the record that carries on. *)
Definition replaced (tb tb' : qemu_plugin_tb) (st : TCGOp) (t : tmpl) (rest post : list TCGOp) (id : nat) (idx : Z)
  (arrs : gmap Z (list qemu_plugin_dyn_cb)) : Prop :=
  let i := nth_insn tb idx in
  exists new id' tb'',
    plugin_inject_cb tb' st rest id idx arrs = Ret (new ++ post, id', tb'', tmpl_arrs i arrs t) /\
    map strip new = tmpl_code tb i arrs t /\ (id <= id')%nat /\ ids_in id id' new /\ block_inv tb tb'' idx.

(** The start operation decides the case of [plugin_inject_cb]. *)
Lemma start_args st t : strip st = ins op_plugin_cb_start (tmpl_args t) -> args st = tmpl_args t.
Proof. by intros [= ]. Qed.

Lemma replaced_block tb tb' st t body e post id idx arrs :
  of_block t = true -> seg_ok (STmpl st t body e) -> block_inv tb tb' idx ->
  replaced tb tb' st t (body ++ e :: post) post id (next_idx t idx) arrs.
Proof.
  intros Ht (Hst & Hb & He & Hs) Hinv. pose proof (start_args _ _ Hst) as Ha.
  unfold replaced, plugin_inject_cb. rewrite Ha.
  destruct t as [ci ud|v p t| | | | | |]; try done; cbn; decompose_Forall_hyps.
  - destruct (inject_callbacks append_udata_cb op_ok (fun _ => true) st (TTbUdata ci ud) body e post
      (udata_code ci ud) (Some 2%nat) (tb_regular tb') id) as (new & id' & HI & HC & ?);
      [done..|by apply append_udata_appends; unfold not_stub in *; tauto|].
    unfold plugin_gen_tb_udata, inject_udata_cb. rewrite HI. exists new, id', tb'.
    split_and!; try tauto. rewrite HC, is_true_all by done. by rewrite (bi_regular _ _ _ Hinv).
  - destruct (inject_callbacks append_inline_cb op_ok (fun _ => true) st (TTbInline v p t) body e post
      (inline_code v p t) None (tb_inline tb') id) as (new & id' & HI & HC & ?);
      [done..|by apply append_inline_appends|].
    unfold plugin_gen_tb_inline, inject_inline_cb. rewrite HI. exists new, id', tb'.
    split_and!; try tauto. rewrite HC, is_true_all by done. by rewrite (bi_inline _ _ _ Hinv).
Qed.

Lemma replaced_callbacks tb tb' st t body e post id idx arrs :
  of_block t = false -> is_enable t = false -> (forall p, t <> TDisable p) ->
  seg_ok (STmpl st t body e) -> block_inv tb tb' idx -> 0 <= idx < Z.of_nat (List.length (insns tb)) ->
  replaced tb tb' st t (body ++ e :: post) post id idx arrs.
Proof.
  intros Ht Hen Hdis (Hst & Hb & He & Hs) Hinv Hr. pose proof (start_args _ _ Hst) as Ha.
  destruct (insn_at_ok tb tb' idx idx Hinv Hr) as (i & Hi & _ & Hn).
  assert (tmpl_arrs (nth_insn tb idx) arrs t = arrs) as Harr by (unfold tmpl_arrs; by rewrite Hen).
  unfold replaced, plugin_inject_cb. rewrite Ha, Harr.
  destruct t as [| | |ci ud|v p t|info addr ci mi va ud|info v p t|p]; try done; cbn in Hs |- *.
  - destruct (inject_callbacks append_udata_cb op_ok (fun _ => true) st (TInsnUdata ci ud) body e post
      (udata_code ci ud) (Some 2%nat) (insn_regular i) id) as (new & id' & HI & HC & ?);
      [done..|rewrite !list.Forall_cons in Hs; apply append_udata_appends; unfold not_stub in *; tauto|].
    unfold plugin_gen_insn_udata, inject_udata_cb. rewrite Hi; cbn [cbind]. rewrite HI. exists new, id', tb'.
    split_and!; try tauto. rewrite HC, is_true_all by done. by rewrite (f_equal insn_regular Hn : insn_regular i = _).
  - destruct (inject_callbacks append_inline_cb op_ok (fun _ => true) st (TInsnInline v p t) body e post
      (inline_code v p t) None (insn_inline i) id) as (new & id' & HI & HC & ?);
      [done..|by apply append_inline_appends|].
    unfold plugin_gen_insn_inline, inject_inline_cb. rewrite Hi; cbn [cbind]. rewrite HI. exists new, id', tb'.
    split_and!; try tauto. rewrite HC, is_true_all by done. by rewrite (f_equal insn_inline Hn : insn_inline i = _).
  - destruct (inject_callbacks append_mem_cb op_rw (wants_rw info) st (TMem info addr ci mi va ud) body e post
      (mem_code info addr ci mi va ud) (Some 4%nat) (mem_regular i) id) as (new & id' & HI & HC & ?);
      [done..|by intros; unfold op_rw; rewrite Ha| |].
    { apply append_mem_appends; [by rewrite Ha|done|]. eapply Forall_impl; [|exact Hs]. by intros ? []. }
    unfold plugin_gen_mem_regular, inject_mem_cb. rewrite Hi; cbn [cbind]. rewrite HI. exists new, id', tb'.
    split_and!; try tauto. rewrite HC. by rewrite (f_equal mem_regular Hn : mem_regular i = _).
  - destruct (inject_callbacks append_inline_cb op_rw (wants_rw info) st (TMemInline info v p t) body e post
      (inline_code v p t) None (mem_inline i) id) as (new & id' & HI & HC & ?);
      [done..|by intros; unfold op_rw; rewrite Ha|by apply append_inline_appends|].
    unfold plugin_gen_mem_inline, inject_inline_cb. rewrite Hi; cbn [cbind]. rewrite HI. exists new, id', tb'.
    split_and!; try tauto. rewrite HC. by rewrite (f_equal mem_inline Hn : mem_inline i = _).
  - by destruct (Hdis p).
Qed.

Lemma replaced_disable tb tb' st p body e post id idx arrs :
  seg_ok (STmpl st (TDisable p) body e) -> block_inv tb tb' idx -> 0 <= idx < Z.of_nat (List.length (insns tb)) ->
  replaced tb tb' st (TDisable p) (body ++ e :: post) post id idx arrs.
Proof.
  intros (Hst & Hb & He & Hs) Hinv Hr. pose proof (start_args _ _ Hst) as Ha.
  destruct (insn_at_ok tb tb' idx idx Hinv Hr) as (i & Hi & Hl & Hn).
  pose proof (bi_cur _ _ _ Hinv i ltac:(lia) Hl) as Hm. rewrite (no_helper_needs _ _ Hn) in Hm.
  unfold replaced, plugin_inject_cb, plugin_gen_disable_mem_helper. rewrite Ha; cbn. rewrite Hi; cbn [cbind].
  unfold inject_mem_disable_helper. rewrite Hm. destruct (needs_helper _); cbn [negb].
  - destruct (inject_mem_helper_ok st body e post p 0 id) as (new & id' & HI & HC & ?);
      [done|by apply (tmpl_body_no_end (TDisable p))|done|].
    rewrite HI. exists new, id', tb'. tauto.
  - rewrite rm_ops_ok by first [done|by apply (tmpl_body_no_end (TDisable p))].
    exists [], id, tb'. split_and!; try done. constructor.
Qed.

Lemma block_inv_enable tb tb' idx idx' i :
  block_inv tb tb' idx' -> 0 <= idx -> insns tb' !! Z.to_nat idx = Some i ->
  block_inv tb (set_insns tb' (<[Z.to_nat idx := set_mem_helper i (needs_helper i)]> (insns tb')) (n tb')) idx.
Proof.
  intros [H1 H2 H3 _] Hr Hl. split; cbn [set_insns tb_regular tb_inline insns]; try done.
  - rewrite <- H3. rewrite list_fmap_insert. apply list_insert_id. by rewrite list_lookup_fmap, Hl.
  - intros i' _. rewrite list_lookup_insert_eq by (by eapply lookup_lt_Some). by intros [= <-].
Qed.

Lemma replaced_enable tb tb' st p body e post id idx arrs :
  seg_ok (STmpl st (TEnable p) body e) -> block_inv tb tb' idx -> 0 <= idx + 1 < Z.of_nat (List.length (insns tb)) ->
  replaced tb tb' st (TEnable p) (body ++ e :: post) post id (idx + 1) arrs.
Proof.
  intros (Hst & Hb & He & Hs) Hinv Hr. pose proof (start_args _ _ Hst) as Ha.
  destruct (insn_at_ok tb tb' (idx + 1) idx Hinv Hr) as (i & Hi & Hl & Hn).
  pose proof (no_helper_needs _ _ Hn) as Hm.
  pose proof (block_inv_enable tb tb' (idx + 1) idx i Hinv ltac:(lia) Hl) as Hinv'.
  unfold replaced, plugin_inject_cb, plugin_gen_enable_mem_helper. rewrite Ha; cbn. rewrite Hi; cbn [cbind].
  unfold inject_mem_enable_helper, tmpl_arrs. fold (needs_helper i). rewrite <- Hm. cbn [is_enable andb].
  rewrite <- (f_equal mem_regular Hn : mem_regular i = mem_regular (nth_insn tb (idx + 1))).
  rewrite <- (f_equal mem_inline Hn : mem_inline i = mem_inline (nth_insn tb (idx + 1))).
  destruct (needs_helper i); cbn [negb].
  - rewrite bool_decide_eq_true_2 by apply new_arr_fresh. cbn [cassert cbind].
    destruct (inject_mem_helper_ok st body e post p (new_arr arrs) id) as (new & id' & HI & HC & ?);
      [done|by apply (tmpl_body_no_end (TEnable p))|done|].
    rewrite HI. eexists new, id', _. split; [done|]. tauto.
  - rewrite rm_ops_ok by first [done|by apply (tmpl_body_no_end (TEnable p))].
    eexists [], id, _. split; [done|]. split_and!; try done. constructor.
Qed.

Lemma replaced_tmpl tb tb' st t body e post id idx arrs :
  seg_ok (STmpl st t body e) -> block_inv tb tb' idx ->
  of_block t = true \/ 0 <= next_idx t idx < Z.of_nat (List.length (insns tb)) ->
  replaced tb tb' st t (body ++ e :: post) post id (next_idx t idx) arrs.
Proof.
  intros Hok Hinv Hp. destruct (of_block t) eqn:Ht; [by apply replaced_block|].
  destruct Hp as [|Hp]; [done|].
  destruct t; try done; [by apply replaced_enable|by apply replaced_callbacks..|by apply replaced_disable].
Qed.

(** ** Injection in a block *)

Lemma split_at_app k pre o rest :
  op_id o = k -> Forall (fun x => op_id x <> k) pre -> split_at k (pre ++ o :: rest) = Some (pre, o, rest).
Proof.
  intros Ho Hp. induction Hp as [|x pre Hx Hp IH]; cbn [app split_at].
  - by rewrite (proj2 (Nat.eqb_eq _ _)).
  - rewrite (proj2 (Nat.eqb_neq _ _)) by done. by rewrite IH.
Qed.

(** The operations still to be scanned: their identities are theirs alone. *)
Record scan (pre : list TCGOp) (l : list seg) (id : nat) : Prop := {
  scan_ok : Forall seg_ok l;
  scan_ids : NoDup (map op_id (flatten l));
  scan_old : Forall (fun o => (op_id o < id)%nat) (flatten l);
  scan_pre : Forall (fun o => op_id o ∉ map op_id (flatten l)) pre;
}.

(** A stretch scanned is a part of what lies behind. *)
Lemma scan_step pre new g l id id' :
  scan pre (g :: l) id -> (id <= id')%nat ->
  Forall (fun o => o ∈ seg_ops g \/ (id <= op_id o)%nat) new -> scan (pre ++ new) l id'.
Proof.
  intros [Hok Hnd Hold Hpre] Hle Hnew. unfold flatten in *. cbn [map concat] in *.
  rewrite map_app in *. apply list.NoDup_app in Hnd as (Hnd1 & Hdis & Hnd2).
  apply Forall_app in Hold as [_ Hold]. inversion_clear Hok. split; try done.
  - eapply Forall_impl; [|exact Hold]. cbn. lia.
  - apply Forall_app. split.
    + eapply Forall_impl; [|exact Hpre]. cbn. intros o Ho Hin. apply Ho, elem_of_app. by right.
    + eapply Forall_impl; [|exact Hnew]. cbn. intros o [Ho|Ho] Hin.
      * eapply Hdis; [|exact Hin]. by apply list_elem_of_fmap_2.
      * apply list_elem_of_fmap in Hin as (o' & He & Ho'). rewrite Forall_forall in Hold.
        specialize (Hold o'). rewrite list_elem_of_In in Ho'. specialize (Hold Ho'). lia.
Qed.

Lemma scan_start pre st t body e l id :
  scan pre (STmpl st t body e :: l) id -> Forall (fun x => op_id x <> op_id st) pre.
Proof.
  intros [_ _ _ Hpre]. eapply Forall_impl; [|exact Hpre]. cbn. intros x Hx He. apply Hx. rewrite He. apply list_elem_of_here.
Qed.

Lemma inject_all_ok tb l : forall pre idx s,
  ops s = pre ++ flatten l -> scan pre l (next_id s) -> block_inv tb (plugin_tb s) idx ->
  placed (List.length (insns tb)) idx l ->
  exists s',
    inject_all (starts l) idx s = Ret s' /\
    map strip (ops s') = map strip pre ++ (expand tb idx (dyn_arrs s) l).1 /\
    dyn_arrs s' = (expand tb idx (dyn_arrs s) l).2 /\
    map no_helper (insns (plugin_tb s')) = map no_helper (insns tb).
Proof.
  induction l as [|[o|st t body e] l IH]; intros pre idx s Ho Hsc Hinv Hpl.
  - exists s. cbn in Ho |- *. rewrite Ho, !app_nil_r. split_and!; try done. apply Hinv.
  - destruct (IH (pre ++ [o]) idx s) as (s' & H1 & H2 & H3); [by rewrite Ho, <- app_assoc| |done..|].
    { eapply scan_step; [done|lia|]. constructor; [left; set_solver|constructor]. }
    exists s'. cbn [starts seg_starts map concat app expand fst snd]. split_and!; [done| |tauto..].
    rewrite H2, map_app, <- app_assoc. done.
  - destruct Hpl as [Hp Hpl]. pose proof (scan_start _ _ _ _ _ _ _ Hsc) as Hst.
    pose proof (Forall_inv (scan_ok _ _ _ Hsc)) as Hok.
    destruct (replaced_tmpl tb (plugin_tb s) st t body e (flatten l) (next_id s) idx (dyn_arrs s) Hok Hinv Hp)
      as (new & id' & tb'' & HI & HC & Hle & Hin & Hinv').
    cbn [starts seg_starts map concat app inject_all].
    replace (ops s) with (pre ++ st :: body ++ e :: flatten l)
      by (rewrite Ho; unfold flatten; cbn; by rewrite <- app_assoc).
    rewrite (split_at_app _ _ st) by done.
    destruct Hok as (Hs & _). pose proof (start_args _ _ Hs) as Ha. injection Hs as Hopc _ _ _.
    rewrite bool_decide_eq_true_2 by done. cbn [cassert cbind]. rewrite Ha.
    replace (if _ && _ then idx + 1 else idx) with (next_idx t idx) by by destruct t.
    rewrite HI. cbn [cbind].
    edestruct (IH (pre ++ new) (next_idx t idx)) as (s' & H1 & H2 & H3); [| | | |exists s'; split; [exact H1|]].
    + cbn. by rewrite <- app_assoc.
    + eapply scan_step; [done|exact Hle|]. eapply Forall_impl; [|exact Hin]. cbn. lia.
    + done.
    + done.
    + cbn [expand fst snd]. split; [|done]. rewrite H2, map_app, HC, <- app_assoc. done.
Qed.

(** The code that replaces templates holds no plugin operation. *)
Lemma code_all_plain code first cbs :
  (forall first cb, Forall plain (code first cb)) -> Forall plain (code_all code first cbs).
Proof.
  intros Hc. revert first. induction cbs as [|cb cbs IH]; intros first; [constructor|].
  apply Forall_app. auto.
Qed.

Lemma tmpl_code_plain tb i arrs t : Forall plain (tmpl_code tb i arrs t).
Proof.
  destruct t; cbn [tmpl_code]; try (destruct (needs_helper i); [|constructor]); try apply code_all_plain; try intros [] cb;
    repeat constructor; discriminate.
Qed.

Lemma plain_strip o : plain (strip o) <-> plain o.
Proof. done. Qed.

Lemma expand_plain tb l : forall idx arrs, Forall seg_ok l -> Forall plain (expand tb idx arrs l).1.
Proof.
  induction l as [|[o|st t body e] l IH]; intros idx arrs Hok; [constructor| |]; inversion_clear Hok; cbn [expand fst].
  - constructor; [done|by apply IH].
  - apply Forall_app. split; [apply tmpl_code_plain|by apply IH].
Qed.

(** ** Emission of templates *)

(** A temporary is chosen among those not in use, and is no stub's address. *)
Hypothesis pick_fresh : forall l, pick l ∉ l.
Hypothesis pick_temp : forall l, not_stub (pick l).

(** Operations with consecutive identities. *)
Fixpoint number (id : nat) (l : list TCGOp) : list TCGOp :=
  match l with
  | [] => []
  | o :: l => mkOp id (opc o) (args o) (param1 o) (param2 o) :: number (S id) l
  end.

(** The context with operations emitted. *)
Definition extended (s : tcg_context) (l : list TCGOp) : tcg_context :=
  set_ops s (ops s ++ number (next_id s) l) (next_id s + List.length l).

Lemma number_app id a b : number id (a ++ b) = number id a ++ number (id + List.length a) b.
Proof using Type.
  revert id. induction a as [|o a IH]; intros id; cbn; [by rewrite Nat.add_0_r|].
  by rewrite IH, Nat.add_succ_comm.
Qed.

Lemma number_strip id l : map strip (number id l) = map strip l.
Proof using Type. revert id. induction l as [|o l IH]; intros id; cbn; [done|by rewrite IH]. Qed.

Lemma number_ids id l : map op_id (number id l) = seq id (List.length l).
Proof using Type. revert id. induction l as [|o l IH]; intros id; cbn; [done|by rewrite IH]. Qed.

Lemma extended_extended s a b : extended (extended s a) b = extended s (a ++ b).
Proof using Type.
  unfold extended. destruct s. cbn. by rewrite number_app, length_app, app_assoc, Nat.add_assoc.
Qed.

Lemma emit_extended c a p1 p2 s : emit c a p1 p2 s = extended s [mkOp 0 c a p1 p2].
Proof using Type. unfold emit, extended. cbn. by rewrite Nat.add_1_r. Qed.

Lemma set_live_extended s l v : set_live (extended s l) v = extended (set_live s v) l.
Proof using Type. done. Qed.

Lemma live_extended s l : live (extended s l) = live s.
Proof using Type. done. Qed.

(** The temporaries of a template are new and differ from each other. *)
Definition temps_ok (lv : gset Z) (t : tmpl) : Prop :=
  NoDup (tmpl_temps t) /\ Forall (fun x => x ∉ lv) (tmpl_temps t) /\ Forall not_stub (tmpl_temps t).

Lemma set_live_same s v : v = live s -> set_live s v = s.
Proof using Type. intros ->. by destruct s. Qed.

(** [func] emits the body of a template. *)
Definition emits_body (func : tcg_context -> tcg_context) (s : tcg_context) (t : tmpl) : Prop :=
  func s = extended s (tmpl_body t) /\ temps_ok (live s) t.

Lemma set_live_twice s a b : set_live (set_live s a) b = set_live s b.
Proof using Type. done. Qed.

Lemma extended_live s v l : v = live s -> extended (set_live s v) l = extended s l.
Proof using Type. intros Hv. by rewrite set_live_same. Qed.

Ltac emission :=
  repeat first [rewrite emit_extended | rewrite live_extended | rewrite set_live_extended
               |rewrite extended_extended | rewrite set_live_twice | progress cbn [set_live live app List.length]].

Lemma live_freed (t : Z) (lv : gset Z) : t ∉ lv -> ({[t]} ∪ lv) ∖ {[t]} = lv.
Proof using Type. intros Ht. apply set_eq. intros x. rewrite elem_of_difference, elem_of_union, elem_of_singleton. naive_solver. Qed.

(** Names the temporaries, the first one first. *)
Ltac new_temps :=
  repeat match goal with
  | |- context [pick ?l] =>
      match l with context [pick _] => fail 1 | _ => idtac end;
      let t := fresh "t" in let F := fresh "F" in let G := fresh "G" in let Et := fresh in
      pose proof (pick_fresh l) as F; pose proof (pick_temp l) as G;
      remember (pick l) as t eqn:Et in *; clear Et
  end.

Ltac emitted :=
  emission; new_temps;
  split; [apply extended_live; rewrite ?live_freed by assumption; reflexivity|];
  rewrite ?not_elem_of_union, ?not_elem_of_singleton in *; destruct_and?;
  rewrite ?list.NoDup_cons, ?list.Forall_cons, ?list.Forall_nil, ?not_elem_of_cons;
  split_and!; try assumption; try congruence; try apply not_elem_of_nil; try apply base.NoDup_nil_2; exact I.

Lemma gen_udata_emits s mk :
  (forall ci ud, tmpl_body (mk ci ud) = udata_body ci ud) -> (forall ci ud, tmpl_temps (mk ci ud) = [ci; ud]) ->
  exists ci ud, emits_body gen_empty_udata_cb s (mk ci ud).
Proof.
  intros Hb Ht. unfold emits_body, gen_empty_udata_cb, tcg_const, tcg_temp_new, gen_helper, tcg_temp_free, temps_ok.
  exists (pick (live s)), (pick ({[pick (live s)]} ∪ live s)). rewrite Hb, Ht. emitted.
Qed.

Lemma gen_inline_emits s mk :
  (forall v p t, tmpl_body (mk v p t) = inline_body v p t) -> (forall v p t, tmpl_temps (mk v p t) = [v; p; t]) ->
  exists v p t, emits_body gen_empty_inline_cb s (mk v p t).
Proof.
  intros Hb Ht.
  unfold emits_body, gen_empty_inline_cb, tcg_gen_addi_i64, tcg_const, tcg_temp_new, tcg_temp_free, temps_ok. cbn [Z.eqb].
  exists (pick (live s)), (pick ({[pick (live s)]} ∪ live s)),
    (pick ({[pick ({[pick (live s)]} ∪ live s)]} ∪ ({[pick (live s)]} ∪ live s))). rewrite Hb, Ht. emitted.
Qed.

Lemma gen_helper_emits s mk :
  (forall p, tmpl_body (mk p) = helper_body p) -> (forall p, tmpl_temps (mk p) = [p]) ->
  exists p, emits_body gen_empty_mem_helper s (mk p).
Proof.
  intros Hb Ht. unfold emits_body, gen_empty_mem_helper, tcg_const, tcg_temp_new, tcg_temp_free, temps_ok.
  exists (pick (live s)). rewrite Hb, Ht. emitted.
Qed.

Lemma gen_mem_emits s addr info :
  addr ∈ live s -> exists ci mi va ud, emits_body (gen_empty_mem_cb addr info) s (TMem info addr ci mi va ud).
Proof.
  intros Ha. unfold emits_body, gen_empty_mem_cb, do_gen_mem_cb, tcg_const, tcg_temp_new, gen_helper, tcg_temp_free,
    tcg_gen_extu_tl_i64, temps_ok.
  exists (pick (live s)), (pick ({[pick (live s)]} ∪ live s)),
    (pick ({[pick ({[pick (live s)]} ∪ live s)]} ∪ ({[pick (live s)]} ∪ live s))),
    (pick ({[pick ({[pick ({[pick (live s)]} ∪ live s)]} ∪ ({[pick (live s)]} ∪ live s))]} ∪
       ({[pick ({[pick (live s)]} ∪ live s)]} ∪ ({[pick (live s)]} ∪ live s)))).
  emission.
  match goal with |- context [pick ?l =? addr] =>
    replace (pick l =? addr) with false
      by (symmetry; apply Z.eqb_neq; intros E; apply (pick_fresh l); rewrite E; do 2 (apply elem_of_union; right); done)
  end.
  cbn [tmpl_body tmpl_temps]. emitted.
Qed.

(** A template with its markers, and the context that has it. *)
Definition tmpl_seg (id : nat) (t : tmpl) : seg :=
  STmpl (mkOp id op_plugin_cb_start (tmpl_args t) 0 0) t (number (S id) (tmpl_body t))
    (mkOp (S id + List.length (tmpl_body t)) op_plugin_cb_end [] 0 0).
Definition add_tmpl (s : tcg_context) (t : tmpl) : tcg_context :=
  set_plugin_ops
    (set_ops s (ops s ++ seg_ops (tmpl_seg (next_id s) t)) (S (S (next_id s + List.length (tmpl_body t)))))
    (plugin_ops s ++ [next_id s]).

Lemma wrapped_adds from type wr func s t :
  tmpl_args t = [from_code from; type_code type; wr] -> emits_body func (gen_plugin_cb_start from type wr s) t ->
  tcg_gen_plugin_cb_end (func (gen_plugin_cb_start from type wr s)) = add_tmpl s t /\ temps_ok (live s) t.
Proof using Type.
  intros Ha [Hf Ht]. split; [|done]. rewrite Hf.
  unfold tcg_gen_plugin_cb_end, gen_plugin_cb_start, emit, extended, add_tmpl, tmpl_seg, set_plugin_ops, set_ops.
  cbn [ops plugin_ops next_id live plugin_tb plugin_insn dyn_arrs seg_ops]. rewrite Ha, <- !app_assoc.
  do 2 f_equal; cbn; lia.
Qed.

(** The context emitted the stretches [l]. *)
Record shaped (s : tcg_context) (l : list seg) : Prop := {
  sh_ops : ops s = flatten l;
  sh_starts : plugin_ops s = starts l;
  sh_ok : Forall seg_ok l;
  sh_ids : NoDup (map op_id (ops s));
  sh_next : Forall (fun o => (op_id o < next_id s)%nat) (ops s);
}.

Lemma flatten_snoc l g : flatten (l ++ [g]) = flatten l ++ seg_ops g.
Proof using Type. unfold flatten. rewrite map_app, concat_app. cbn. by rewrite app_nil_r. Qed.
Lemma starts_snoc l g : starts (l ++ [g]) = starts l ++ seg_starts g.
Proof using Type. unfold starts. rewrite map_app, concat_app. cbn. by rewrite app_nil_r. Qed.

(** New operations at the end keep the identities apart. *)
Lemma ids_snoc l new (id id' : nat) :
  NoDup (map op_id l) -> Forall (fun o => (op_id o < id)%nat) l ->
  NoDup (map op_id new) -> ids_in id id' new -> (id <= id')%nat ->
  NoDup (map op_id (l ++ new)) /\ Forall (fun o => (op_id o < id')%nat) (l ++ new).
Proof using Type.
  intros Hn Hl Hn' Hin Hle. rewrite map_app. split.
  - apply list.NoDup_app. split_and!; try done. intros x Hx Hx'.
    apply list_elem_of_fmap in Hx as (o & -> & Ho), Hx' as (o' & He & Ho').
    unfold ids_in in Hin. rewrite Forall_forall in Hl, Hin.
    specialize (Hl o ltac:(by apply list_elem_of_In)). specialize (Hin o' ltac:(by apply list_elem_of_In)). lia.
  - apply Forall_app. split; [eapply Forall_impl; [|exact Hl]|eapply Forall_impl; [|exact Hin]]; cbn; lia.
Qed.

Lemma shaped_guest s l c a p1 p2 :
  shaped s l -> plain (ins c a) ->
  shaped (emit c a p1 p2 s) (l ++ [SGuest (mkOp (next_id s) c a p1 p2)]).
Proof using Type.
  intros [Ho Hs Hok Hid Hn] Hp. destruct (ids_snoc (ops s) [mkOp (next_id s) c a p1 p2] (next_id s) (S (next_id s)))
    as [H1 H2]; try done; [apply NoDup_singleton|repeat constructor; cbn; lia|lia|].
  split; unfold emit; cbn [ops plugin_ops next_id set_ops]; try done.
  - by rewrite Ho, flatten_snoc.
  - by rewrite Hs, starts_snoc, app_nil_r.
  - apply Forall_app. split; [done|]. apply Forall_singleton. exact Hp.
Qed.

Lemma tmpl_seg_ids id t : map op_id (seg_ops (tmpl_seg id t)) = seq id (S (S (List.length (tmpl_body t)))).
Proof using Type.
  cbn [seg_ops tmpl_seg map op_id]. rewrite map_app, number_ids. cbn [map op_id].
  rewrite <- (seq_S (List.length (tmpl_body t)) (S id)). done.
Qed.

Lemma shaped_tmpl s l t :
  shaped s l -> temps_ok (live s) t -> shaped (add_tmpl s t) (l ++ [tmpl_seg (next_id s) t]).
Proof using Type.
  intros [Ho Hs Hok Hid Hn] (_ & _ & Ht). pose proof (tmpl_seg_ids (next_id s) t) as Hi.
  destruct (ids_snoc (ops s) (seg_ops (tmpl_seg (next_id s) t)) (next_id s)
    (S (S (next_id s + List.length (tmpl_body t))))) as [H1 H2]; try done; [rewrite Hi; apply NoDup_seq| |lia|].
  { unfold ids_in. apply Forall_forall. intros o Hin. apply (in_map op_id) in Hin. rewrite Hi, in_seq in Hin. lia. }
  split; unfold add_tmpl; cbn [ops plugin_ops next_id set_ops set_plugin_ops]; try done.
  - by rewrite Ho, flatten_snoc.
  - by rewrite Hs, starts_snoc.
  - apply Forall_app. split; [done|]. constructor; [|constructor]. cbn. split_and!; try done.
    rewrite number_strip. destruct t; done.
Qed.

(** ** Running instrumentation

    The meaning of the operations instrumentation is made of, after the
    descriptions in qemu/tcg/README: temporaries, host memory in words, and the
    calls made.  A callee may change host memory. *)

Variable callee : Z -> list Z -> gmap Z Z -> gmap Z Z.

Record mach := mkMach {
  temps : gmap Z Z;
  hmem : gmap Z Z;
  calls : list (Z * Z * list Z);          (* function, flags, arguments *)
}.

Definition tval (m : mach) (t : Z) : Z := default 0 (temps m !! t).
Definition hword (h : gmap Z Z) (a : Z) : Z := default 0 (h !! a).
Definition set_temp (m : mach) (t v : Z) : mach := mkMach (<[t := v]> (temps m)) (hmem m) (calls m).

Definition exec_op (o : TCGOp) (m : mach) : option mach :=
  match opc o, args o with
  | op_movi_i32, [d; v] => Some (set_temp m d (u32 v))
  | op_movi_i64, [d; v] => Some (set_temp m d (u64 v))
  | op_mov_i64, [d; a] => Some (set_temp m d (tval m a))
  | op_ld_i32, [d; b; off] => Some (set_temp m d (u32 (hword (hmem m) (u64 (tval m b + off)))))
  | op_ld_i64, [d; b; off] => Some (set_temp m d (hword (hmem m) (u64 (tval m b + off))))
  | op_st_i64, [a; b; off] => Some (mkMach (temps m) (<[u64 (tval m b + off) := tval m a]> (hmem m)) (calls m))
  | op_add_i64, [d; a; b] => Some (set_temp m d (u64 (tval m a + tval m b)))
  | op_call, a =>
      let k := Z.to_nat (param1 o) in
      let f := nth k a 0 in
      let inputs := map (tval m) (take k a) in
      Some (mkMach (temps m) (callee f inputs (hmem m)) (calls m ++ [(f, nth (S k) a 0, inputs)]))
  | _, _ => None
  end.

Fixpoint exec_ops (l : list TCGOp) (m : mach) : option mach :=
  match l with
  | [] => Some m
  | o :: l => m ← exec_op o m; exec_ops l m
  end.

Lemma exec_op_strip o m : exec_op (strip o) m = exec_op o m.
Proof using Type. done. Qed.

Lemma exec_ops_strip l m : exec_ops (map strip l) m = exec_ops l m.
Proof using Type.
  revert m. induction l as [|o l IH]; intros m; [done|]. cbn [map exec_ops]. rewrite exec_op_strip.
  destruct (exec_op o m); [apply IH|done].
Qed.

Lemma exec_ops_app a b m : exec_ops (a ++ b) m = m ← exec_ops a m; exec_ops b m.
Proof using Type.
  revert m. induction a as [|o a IH]; intros m; [done|]. cbn [app exec_ops].
  destruct (exec_op o m); [apply IH|done].
Qed.

(** What the callbacks are meant to do, to host memory and the calls made. *)
Definition effect : Type := gmap Z Z * list (Z * Z * list Z).

Definition call_effect (a : qemu_plugin_dyn_cb -> list Z) (e : effect) (cb : qemu_plugin_dyn_cb) : effect :=
  (callee (d_f cb) (a cb) e.1, e.2 ++ [(d_f cb, tcg_flags cb, a cb)]).
Definition add_effect (e : effect) (cb : qemu_plugin_dyn_cb) : effect :=
  (<[userp cb := u64 (hword e.1 (userp cb) + d_imm cb)]> e.1, e.2).

(** The index of the vCPU that runs. *)
Definition cpu_index_of (m : mach) : Z := u32 (hword (hmem m) (u64 (tval m cpu_env + off_cpu_index))).

Definition set_mem_cbs (m : mach) (arr : Z) (e : effect) : effect :=
  (<[u64 (tval m cpu_env + off_mem_cbs) := u64 arr]> e.1, e.2).

Definition tmpl_effect (tb : qemu_plugin_tb) (i : qemu_plugin_insn) (arrs : gmap Z (list qemu_plugin_dyn_cb)) (t : tmpl)
  (m : mach) : effect :=
  let e := (hmem m, calls m) in
  let exec cb := [cpu_index_of m; userp cb] in
  match t with
  | TTbUdata _ _ => foldl (call_effect exec) e (tb_regular tb)
  | TInsnUdata _ _ => foldl (call_effect exec) e (insn_regular i)
  | TTbInline _ _ _ => foldl add_effect e (tb_inline tb)
  | TInsnInline _ _ _ => foldl add_effect e (insn_inline i)
  | TMem info addr _ _ _ _ =>
      foldl (call_effect (fun cb => [cpu_index_of m; u32 info; tval m addr; userp cb])) e
        (is_true (wants_rw info) (mem_regular i))
  | TMemInline info _ _ _ => foldl add_effect e (is_true (wants_rw info) (mem_inline i))
  | TEnable _ => if needs_helper i then set_mem_cbs m (new_arr arrs) e else e
  | TDisable _ => if needs_helper i then set_mem_cbs m 0 e else e
  end.

(** Only the template's temporaries differ. *)
Definition same_temps (tmps : list Z) (m m' : mach) : Prop := forall x, x ∉ tmps -> temps m' !! x = temps m !! x.

(** The run of a template's code. *)
Definition runs_to (tmps : list Z) (m : mach) (code : list TCGOp) (e : effect) : Prop :=
  exists m', exec_ops code m = Some m' /\ (hmem m', calls m') = e /\ same_temps tmps m m'.

Definition cb_range (cb : qemu_plugin_dyn_cb) : Prop := 0 <= userp cb < 2 ^ 64 /\ 0 <= d_imm cb < 2 ^ 64.

Lemma tval_eq m t v : tval (set_temp m t v) t = v.
Proof using Type. unfold tval, set_temp. cbn. by rewrite lookup_insert_eq. Qed.
Lemma tval_ne m t t' v : t <> t' -> tval (set_temp m t v) t' = tval m t'.
Proof using Type. intros. unfold tval, set_temp. cbn. by rewrite lookup_insert_ne. Qed.

Lemma same_temps_refl l m : same_temps l m m.
Proof using Type. done. Qed.
Lemma same_temps_set l m m' t v : t ∈ l -> same_temps l m m' -> same_temps l m (set_temp m' t v).
Proof using Type. intros Ht Hs x Hx. cbn. rewrite lookup_insert_ne by (by intros ->). by apply Hs. Qed.
Lemma same_temps_trans l m m1 m2 : same_temps l m m1 -> same_temps l m1 m2 -> same_temps l m m2.
Proof using Type. intros H1 H2 x Hx. rewrite H2 by done. by apply H1. Qed.

(** The state before the code of a callback gives its effect and the state
    before the code of the next. *)
Lemma code_all_runs code tmps eff (P : bool -> mach -> Prop) :
  (forall first cb m, cb_range cb -> P first m ->
    exists m', exec_ops (code first cb) m = Some m' /\ (hmem m', calls m') = eff (hmem m, calls m) cb /\
      same_temps tmps m m' /\ P false m') ->
  forall cbs first m, P first m -> Forall cb_range cbs ->
  runs_to tmps m (code_all code first cbs) (foldl eff (hmem m, calls m) cbs).
Proof using Type.
  intros Hc cbs. induction cbs as [|cb cbs IH]; intros first m HP Hr; cbn [code_all foldl].
  { by exists m. }
  inversion_clear Hr as [|? ? Hcb Hcbs].
  destruct (Hc first cb m Hcb HP) as (m1 & H1 & He & Hs & HP1).
  destruct (IH false m1 HP1 Hcbs) as (m2 & H2 & He2 & Hs2).
  exists m2. rewrite exec_ops_app, H1. cbn [mbind option_bind]. rewrite H2, He2, He.
  split_and!; [done..|]. by eapply same_temps_trans.
Qed.

Lemma hmem_set_temp m t v : hmem (set_temp m t v) = hmem m.
Proof using Type. done. Qed.
Lemma calls_set_temp m t v : calls (set_temp m t v) = calls m.
Proof using Type. done. Qed.

Lemma exec_movi32 d v l m : exec_ops (ins op_movi_i32 [d; v] :: l) m = exec_ops l (set_temp m d (u32 v)).
Proof using Type. done. Qed.
Lemma exec_movi64 d v l m : exec_ops (ins op_movi_i64 [d; v] :: l) m = exec_ops l (set_temp m d (u64 v)).
Proof using Type. done. Qed.
Lemma exec_mov d a l m : exec_ops (ins op_mov_i64 [d; a] :: l) m = exec_ops l (set_temp m d (tval m a)).
Proof using Type. done. Qed.
Lemma exec_ld32 d b off l m :
  exec_ops (ins op_ld_i32 [d; b; off] :: l) m =
  exec_ops l (set_temp m d (u32 (hword (hmem m) (u64 (tval m b + off))))).
Proof using Type. done. Qed.
Lemma exec_ld64 d b off l m :
  exec_ops (ins op_ld_i64 [d; b; off] :: l) m = exec_ops l (set_temp m d (hword (hmem m) (u64 (tval m b + off)))).
Proof using Type. done. Qed.
Lemma exec_add d a b l m :
  exec_ops (ins op_add_i64 [d; a; b] :: l) m = exec_ops l (set_temp m d (u64 (tval m a + tval m b))).
Proof using Type. done. Qed.
Lemma exec_st a b off m :
  exec_ops [ins op_st_i64 [a; b; off]] m =
  Some (mkMach (temps m) (<[u64 (tval m b + off) := tval m a]> (hmem m)) (calls m)).
Proof using Type. done. Qed.
Lemma exec_call f flags inputs m :
  exec_ops [ins_call f flags inputs] m =
  Some (mkMach (temps m) (callee f (map (tval m) inputs) (hmem m))
          (calls m ++ [(f, flags, map (tval m) inputs)])).
Proof using Type.
  cbn [exec_ops]. unfold exec_op, ins_call. cbn [opc args param1]. rewrite Nat2Z.id.
  rewrite take_app_length, !app_nth2, Nat.sub_diag, Nat.sub_succ_l, Nat.sub_diag by lia. done.
Qed.

(** Runs straight-line code and simplifies the values of temporaries. *)
Ltac run_ops :=
  cbn [app ld_index];
  rewrite ?exec_movi32, ?exec_movi64, ?exec_ld32, ?exec_ld64; rewrite ?exec_movi64, ?exec_mov, ?exec_add;
  rewrite ?exec_mov, ?exec_call, ?exec_st; cbn [map];
  repeat first [rewrite tval_eq | rewrite tval_ne by congruence | rewrite hmem_set_temp | rewrite calls_set_temp].

Ltac temps_done := cbn [hmem calls]; repeat (apply same_temps_set; [repeat first [apply list_elem_of_here | apply list_elem_of_further]|]);
  apply same_temps_refl.

(** A call leaves the temporaries as they are. *)
Lemma same_temps_call l m m' h c : same_temps l m m' -> same_temps l m (mkMach (temps m') h c).
Proof using Type. done. Qed.
Lemma tval_call m h c t : tval (mkMach (temps m) h c) t = tval m t.
Proof using Type. done. Qed.

Lemma udata_runs ci ud cbs m :
  NoDup [ci; ud] -> cpu_env ∉ [ci; ud] -> Forall cb_range cbs ->
  runs_to [ci; ud] m (code_all (udata_code ci ud) true cbs)
    (foldl (call_effect (fun cb => [cpu_index_of m; userp cb])) (hmem m, calls m) cbs).
Proof using Type.
  intros Hn He. rewrite list.NoDup_cons, list_elem_of_singleton in Hn. destruct Hn as [Hne _].
  rewrite not_elem_of_cons, list_elem_of_singleton in He. destruct He as [He1 He2].
  apply (code_all_runs _ _ _ (fun first m' => if first then cpu_index_of m' = cpu_index_of m else tval m' ci = cpu_index_of m));
    [|done].
  intros first cb m0 [Hu _] HP. unfold udata_code, ld_index.
  destruct first; run_ops; eexists; split_and!; try reflexivity.
  - unfold call_effect. cbn [hmem calls fst snd]. rewrite (u64_small (userp cb)) by lia.
    unfold cpu_index_of in HP at 1. by rewrite HP.
  - apply same_temps_call. temps_done.
  - rewrite tval_call. run_ops. exact HP.
  - unfold call_effect. cbn [hmem calls fst snd]. by rewrite (u64_small (userp cb)), HP by lia.
  - apply same_temps_call. temps_done.
  - rewrite tval_call. run_ops. exact HP.
Qed.

Lemma inline_runs v p t cbs m :
  NoDup [v; p; t] -> Forall cb_range cbs ->
  runs_to [v; p; t] m (code_all (inline_code v p t) true cbs) (foldl add_effect (hmem m, calls m) cbs).
Proof using Type.
  intros Hn. rewrite !list.NoDup_cons, !not_elem_of_cons in Hn. destruct_and!.
  apply (code_all_runs _ _ _ (fun _ _ => True)); [|done].
  intros first cb m0 [Hu Hi] _. unfold inline_code. run_ops. eexists. split_and!; try reflexivity.
  - unfold add_effect. cbn [hmem calls fst snd]. by rewrite (u64_small (userp cb)), Z.add_0_r, (u64_small (userp cb)), (u64_small (d_imm cb)) by lia.
  - apply same_temps_call. temps_done.
Qed.

Lemma mem_runs info addr ci mi va ud cbs m :
  NoDup [ci; mi; va; ud] -> cpu_env ∉ [ci; mi; va; ud] -> addr ∉ [ci; mi; va; ud] -> Forall cb_range cbs ->
  runs_to [ci; mi; va; ud] m (code_all (mem_code info addr ci mi va ud) true cbs)
    (foldl (call_effect (fun cb => [cpu_index_of m; u32 info; tval m addr; userp cb])) (hmem m, calls m) cbs).
Proof using Type.
  intros Hn He Ha. rewrite !list.NoDup_cons, !not_elem_of_cons in Hn. rewrite !not_elem_of_cons in He, Ha.
  destruct_and!.
  apply (code_all_runs _ _ _ (fun first m' => tval m' addr = tval m addr /\
    if first then cpu_index_of m' = cpu_index_of m else tval m' ci = cpu_index_of m)); [|done].
  intros first cb m0 [Hu _] [Hv HP]. unfold mem_code, ld_index.
  destruct first; run_ops; eexists; split_and!; try reflexivity.
  - unfold call_effect. cbn [hmem calls fst snd]. rewrite (u64_small (userp cb)) by lia.
    unfold cpu_index_of in HP at 1. by rewrite HP, Hv.
  - apply same_temps_call. temps_done.
  - rewrite tval_call. run_ops. exact Hv.
  - rewrite tval_call. run_ops. exact HP.
  - unfold call_effect. cbn [hmem calls fst snd]. by rewrite (u64_small (userp cb)), HP, Hv by lia.
  - apply same_temps_call. temps_done.
  - rewrite tval_call. run_ops. exact Hv.
  - rewrite tval_call. run_ops. exact HP.
Qed.

Lemma helper_runs p arr m :
  p <> cpu_env -> runs_to [p] m (helper_code p arr) (set_mem_cbs m arr (hmem m, calls m)).
Proof using Type.
  intros Hp. unfold runs_to, helper_code. run_ops. eexists. split_and!; try reflexivity.
  apply same_temps_call. temps_done.
Qed.

(** The address of a memory template is in use. *)
Definition addr_live (lv : gset Z) (t : tmpl) : Prop :=
  match t with TMem _ addr _ _ _ _ => addr ∈ lv | _ => True end.

(** Pointers and immediates of callbacks are 64-bit values. *)
Definition insn_range (i : qemu_plugin_insn) : Prop :=
  Forall cb_range (insn_regular i) /\ Forall cb_range (insn_inline i) /\
  Forall cb_range (mem_regular i) /\ Forall cb_range (mem_inline i).
Definition block_range (tb : qemu_plugin_tb) (i : qemu_plugin_insn) : Prop :=
  Forall cb_range (tb_regular tb) /\ Forall cb_range (tb_inline tb) /\ insn_range i.

Lemma is_true_range f cbs : Forall cb_range cbs -> Forall cb_range (is_true f cbs).
Proof using Type.
  unfold is_true. induction 1 as [|cb cbs Hc H IH]; [constructor|].
  rewrite filter_cons. destruct (decide _); [by constructor|done].
Qed.

Lemma temps_not_live lv t x : temps_ok lv t -> x ∈ lv -> x ∉ tmpl_temps t.
Proof using Type. intros (_ & Hl & _) Hx Hin. rewrite Forall_forall in Hl. by apply (Hl x); [apply list_elem_of_In|]. Qed.

Lemma tmpl_code_runs lv tb i arrs t m :
  temps_ok lv t -> cpu_env ∈ lv -> addr_live lv t -> block_range tb i ->
  runs_to (tmpl_temps t) m (tmpl_code tb i arrs t) (tmpl_effect tb i arrs t m).
Proof using Type.
  intros Hok He Ha (Hr1 & Hr2 & Hr3 & Hr4 & Hr5 & Hr6). pose proof (temps_not_live _ _ _ Hok He) as Hne.
  assert (forall x, x ∈ lv -> x ∉ tmpl_temps t) as Hx by (intros x; by apply temps_not_live).
  destruct Hok as (Hn & _ & _).
  destruct t; cbn [tmpl_temps tmpl_code tmpl_effect addr_live] in *;
    try (destruct (needs_helper i); [apply helper_runs; intros ->; apply Hne, list_elem_of_here|by exists m]).
  - by apply udata_runs.
  - by apply inline_runs.
  - by apply udata_runs.
  - by apply inline_runs.
  - apply mem_runs; auto using is_true_range.
  - apply inline_runs; auto using is_true_range.
Qed.

(** C29: the code injected at a template does what its callbacks ask for, and
    nothing else.  Where the generator emitted the template [t] with the
    temporaries [live s] in use, injection replaces it (keeping what follows)
    by operations that, run from any state, make exactly the registered calls
    in order with the vCPU's index, the access and the callback's pointer,
    perform exactly the inline additions, or set or clear the vCPU's memory
    callbacks, and leave every temporary the program uses as it was. *)
Theorem injected_code_runs s tb tb' t k post id idx arrs m :
  temps_ok (live s) t -> cpu_env ∈ live s -> addr_live (live s) t ->
  block_inv tb tb' idx -> of_block t = true \/ 0 <= next_idx t idx < Z.of_nat (List.length (insns tb)) ->
  block_range tb (nth_insn tb (next_idx t idx)) ->
  exists begin rest new id' tb'' arrs' m',
    seg_ops (tmpl_seg k t) = begin :: rest /\
    plugin_inject_cb tb' begin (rest ++ post) id (next_idx t idx) arrs = Ret (new ++ post, id', tb'', arrs') /\
    exec_ops new m = Some m' /\ (hmem m', calls m') = tmpl_effect tb (nth_insn tb (next_idx t idx)) arrs t m /\
    forall x, x ∈ live s -> temps m' !! x = temps m !! x.
Proof using new_arr_fresh.
  intros Hok He Ha Hinv Hp Hr. set (l := tmpl_seg k t).
  assert (seg_ok l) as Hsok.
  { cbn. split_and!; [done| |done|apply Hok]. rewrite number_strip. by destruct t. }
  destruct (replaced_tmpl tb tb' _ t _ _ post id idx arrs Hsok Hinv Hp) as (new & id' & tb'' & HI & HC & _).
  destruct (tmpl_code_runs (live s) tb (nth_insn tb (next_idx t idx)) arrs t m Hok He Ha Hr) as (m' & Hx & Hef & Hs).
  eexists _, _, new, id', tb'', _, m'. split; [reflexivity|]. rewrite <- app_assoc. split; [exact HI|].
  rewrite <- exec_ops_strip, HC. split_and!; [done..|].
  intros x Hl. apply Hs. by eapply temps_not_live.
Qed.

(** Injection in a whole block. *)
Lemma inject_block_ok s l :
  shaped s l -> placed (List.length (insns (plugin_tb s))) (-1) l ->
  exists s',
    plugin_gen_inject s = Ret s' /\
    map strip (ops s') = (expand (plugin_tb s) (-1) (dyn_arrs s) l).1 /\
    dyn_arrs s' = (expand (plugin_tb s) (-1) (dyn_arrs s) l).2 /\
    map no_helper (insns (plugin_tb s')) = map no_helper (insns (plugin_tb s)) /\
    Forall plain (ops s').
Proof.
  intros [Ho Hst Hok Hid Hn] Hpl. unfold plugin_gen_inject. rewrite Hst.
  destruct (inject_all_ok (plugin_tb s) l [] (-1) s) as (s' & H1 & H2 & H3 & H4);
    [done|split; [done|by rewrite <- Ho|by rewrite <- Ho|constructor]|split; [done..|intros; lia]|done|].
  exists s'. split_and!; try done.
  pose proof (expand_plain (plugin_tb s) l (-1) (dyn_arrs s) Hok) as Hpl'. cbn [map app] in H2.
  rewrite <- H2, Forall_map in Hpl'. exact Hpl'.
Qed.

End Gen.

(** ** An instruction with two callbacks *)

Definition demo_cb (f u : Z) : qemu_plugin_dyn_cb := mkDyn f u 1 PLUGIN_CB_REGULAR 0 INLINE_ADD_U64 0.
Definition demo_block : qemu_plugin_tb :=
  mkPTb [mkPInsn [0x90] 0x400 0x400 0 [demo_cb 0x100 7; demo_cb 0x110 8] [] [] [] false false 0 0] 1 0x400
    (2 ^ 64 - 1) 0x400 0 0 0 [] [].
Definition demo_tcg : tcg_context := mkTcg [] [] 0 {[1]} demo_block (Some 0%nat) ∅.
Definition demo_new_arr (arrs : gmap Z (list qemu_plugin_dyn_cb)) : Z := fresh (dom arrs : gset Z).
Definition demo_mach : mach := mkMach {[1 := 0x5000]} {[0x5008 := 3]} [].
Definition demo_callee (f : Z) (a : list Z) (h : gmap Z Z) : gmap Z Z := h.

Lemma demo_new_arr_fresh arrs : arrs !! demo_new_arr arrs = None.
Proof. apply (not_elem_of_dom (D := gset Z)). unfold demo_new_arr. apply is_fresh. Qed.

Lemma injected_code_runs_witness :
  tmpl_effect 1 8 16 demo_new_arr demo_callee demo_block (nth_insn demo_block 0) ∅ (TInsnUdata 20 21) demo_mach =
    ({[0x5008 := 3]}, [(0x100, 1, [3; 7]); (0x110, 1, [3; 8])]) /\
  exists begin rest new id' tb'' arrs' m',
    seg_ops (tmpl_seg 1 8 16 0x900 0x908 0 (TInsnUdata 20 21)) = begin :: rest /\
    plugin_inject_cb 0x900 0x908 demo_new_arr demo_block begin (rest ++ []) 10 (next_idx (TInsnUdata 20 21) 0) ∅ =
      Ret (new ++ [], id', tb'', arrs') /\
    exec_ops demo_callee new demo_mach = Some m' /\
    (hmem m', calls m') =
      tmpl_effect 1 8 16 demo_new_arr demo_callee demo_block (nth_insn demo_block (next_idx (TInsnUdata 20 21) 0)) ∅
        (TInsnUdata 20 21) demo_mach /\
    forall x, x ∈ live demo_tcg -> temps m' !! x = temps demo_mach !! x.
Proof.
  split; [vm_compute; reflexivity|].
  apply (injected_code_runs 1 8 16 0x900 0x908 demo_new_arr demo_new_arr_fresh demo_callee demo_tcg demo_block).
  - repeat split; repeat constructor; set_solver.
  - set_solver.
  - done.
  - split; [done..|]. intros i _ [= <-]. done.
  - right. cbn. lia.
  - repeat split; repeat constructor; cbn; lia.
Defined.

End PluginGen.
