(* ===== verification/Translator.v ===== *)
(** * The translator

    qemu/accel/tcg/translator.c and the hooks of accel/tcg/plugin-gen.c around
    it: a block is translated instruction by instruction, the plugins are asked
    what to instrument, and their callbacks are injected.

    The guest architecture is a record of hooks, as [TranslatorOps] is in the
    code; the theorems hold for every architecture that emits code through the
    interface of [PluginGen]. *)

From S2P Require Import Prelude PluginCore PluginApi SoftTlb PluginGen.
Open Scope Z_scope.
Open Scope c_scope.

Module Translator.
Import PluginCore PluginApi PluginGen.

Definition DISAS_NEXT : Z := 0.
Definition DISAS_TOO_MANY : Z := 1.
Definition CF_LAST_IO : Z := 0x8000.
Definition CF_USE_ICOUNT : Z := 0x20000.
Definition TB_EXIT_IDXMAX : Z := 1.
Definition TB_EXIT_REQUESTED : Z := 3.
Definition TCG_COND_LT : Z := 2.

(** Operations that instrumentation does not use. *)
Definition op_sub_i32 : TCGOpcode := op_guest 1.
Definition op_brcond_i32 : TCGOpcode := op_guest 2.
Definition op_st16_i32 : TCGOpcode := op_guest 3.
Definition op_set_label : TCGOpcode := op_guest 4.
Definition op_exit_tb : TCGOpcode := op_guest 5.

Record DisasContextBase := mkDb {
  pc_first : Z;
  pc_next : Z;
  is_jmp : Z;
  num_insns : Z;
  max_insns : Z;
  singlestep_enabled : bool;
}.

Definition set_jmp (db : DisasContextBase) (j : Z) : DisasContextBase :=
  mkDb (pc_first db) (pc_next db) j (num_insns db) (max_insns db) (singlestep_enabled db).
Definition inc_insns (db : DisasContextBase) : DisasContextBase :=
  mkDb (pc_first db) (pc_next db) (is_jmp db) (num_insns db + 1) (max_insns db) (singlestep_enabled db).

(** The block and the vCPU, as far as translation reads them. *)
Record TranslationBlock := mkTb {
  tb_ptr : Z;                   (* the block's own address *)
  pc : Z;
  cflags : Z;
  size : Z;
  icount : Z;
}.
Record CPUState := mkCpu {
  cpu_index : Z;
  breakpoints : list Z;
  cpu_singlestep : bool;
  mmu_index : Z;                (* cpu_mmu_index(env, true) *)
}.

Section Translate.
(** The architecture's own state, and that of the plugins' code. *)
Context {X W : Type}.
Variable pick : gset Z -> Z.
Variables (cpu_env off_cpu_index off_mem_cbs off_can_do_io off_icount_u32 off_icount_low helper_udata helper_mem : Z).
Variable new_arr : gmap Z (list qemu_plugin_dyn_cb) -> Z.
Variable tlb_fill : SoftTlb.CPUTLB -> Z -> Z -> cres SoftTlb.CPUTLB.
Variable ram_addr_from_host : Z -> Z.
(** [qemu_loglevel_mask(CPU_LOG_TB_NOCHAIN)] *)
Variable nochain : bool.
(** What the function at an address of a plugin does when it is called for a
    block. *)
Variable plugin_fn : call -> qemu_plugin_tb -> W -> cres (qemu_plugin_tb * W).

(** Labels are numbered; their reference counts are read by later passes only. *)
Record labels := mkLabels {
  nb_labels : Z;
  exitreq_label : Z;
  icount_start_insn : option nat;
}.

Record tstate := mkT {
  db : DisasContextBase;
  tcg : tcg_context;
  lab : labels;
  tlb : SoftTlb.CPUTLB;
  arch : X;
}.
Definition set_db (s : tstate) (b : DisasContextBase) : tstate := mkT b (tcg s) (lab s) (tlb s) (arch s).
Definition set_tcg (s : tstate) (c : tcg_context) : tstate := mkT (db s) c (lab s) (tlb s) (arch s).
Definition set_lab (s : tstate) (x : labels) : tstate := mkT (db s) (tcg s) x (tlb s) (arch s).

(** The hooks of an architecture. *)
Record TranslatorOps := mkOps {
  init_disas_context : tstate -> cres tstate;
  tb_start : tstate -> cres tstate;
  insn_start : tstate -> cres tstate;
  breakpoint_check : Z -> tstate -> cres (bool * tstate);
  translate_insn : tstate -> cres tstate;
  tb_stop : tstate -> cres tstate;
}.

(** ** exec/gen-icount.h *)

Definition gen_io_start (s : tcg_context) : tcg_context :=
  let '(tmp, s) := tcg_const pick op_movi_i32 1 s in
  tcg_temp_free tmp (emit op_st_i32 [tmp; cpu_env; off_can_do_io] 0 0 s).

Definition gen_io_end (s : tcg_context) : tcg_context :=
  let '(tmp, s) := tcg_const pick op_movi_i32 0 s in
  tcg_temp_free tmp (emit op_st_i32 [tmp; cpu_env; off_can_do_io] 0 0 s).

(** For a condition other than always and never. *)
Definition tcg_gen_brcondi_i32 (cond arg1 arg2 l : Z) (s : tcg_context) : tcg_context :=
  let '(t0, s) := tcg_const pick op_movi_i32 arg2 s in
  tcg_temp_free t0 (emit op_brcond_i32 [arg1; t0; cond; l] 0 0 s).

(** The [movi] gets its number of instructions at the end of the block. *)
Definition gen_count (count : Z) (s : tcg_context) : tcg_context :=
  let '(imm, s) := tcg_temp_new pick s in
  let s := emit op_movi_i32 [imm; 0xffffffffdeadbeef] 0 0 s in
  tcg_temp_free imm (emit op_sub_i32 [count; count; imm] 0 0 s).

Definition gen_tb_start (tb : TranslationBlock) (s : tstate) : tstate :=
  let use := ztrue (Z.land (cflags tb) CF_USE_ICOUNT) in
  let l := nb_labels (lab s) in
  let '(count, c) := tcg_temp_new pick (tcg s) in
  let c := emit op_ld_i32 [count; cpu_env; off_icount_u32] 0 0 c in
  let start := if use then Some (next_id c) else icount_start_insn (lab s) in
  let c := if use then gen_count count c else c in
  let c := tcg_gen_brcondi_i32 TCG_COND_LT count 0 l c in
  let c := if use then gen_io_end (emit op_st16_i32 [count; cpu_env; off_icount_low] 0 0 c) else c in
  set_lab (set_tcg s (tcg_temp_free count c)) (mkLabels (l + 1) l start).

(** [tcg_gen_exit_tb] without the checks of a debug build. *)
Definition tcg_gen_exit_tb (tb idx : Z) (s : tcg_context) : tcg_context :=
  let val := if negb (tb =? 0) && (idx <=? TB_EXIT_IDXMAX) && nochain then 0 else u64 (tb + idx) in
  emit op_exit_tb [val] 0 0 (plugin_gen_disable_mem_helpers pick cpu_env off_mem_cbs s).

(** [op->args[arg] = v] for the operation with an identity. *)
Definition tcg_set_insn_param (k arg : nat) (v : Z) (s : tcg_context) : tcg_context :=
  set_ops s (map (fun o => if (op_id o =? k)%nat then set_arg arg v o else o) (ops s)) (next_id s).

Definition gen_tb_end (tb : TranslationBlock) (num : Z) (s : tstate) : cres tstate :=
  let* c :=
    (if ztrue (Z.land (cflags tb) CF_USE_ICOUNT) then
       match icount_start_insn (lab s) with
       | Some k => Ret (tcg_set_insn_param k 1 (u64 num) (tcg s))
       | None => Abort "icount_start_insn is NULL"
       end
     else Ret (tcg s)) in
  let c := emit op_set_label [exitreq_label (lab s)] 0 0 c in
  Ret (set_tcg s (tcg_gen_exit_tb (tb_ptr tb) TB_EXIT_REQUESTED c)).

Definition tcg_op_buf_full (s : tcg_context) : bool := (4000 <=? Z.of_nat (List.length (ops s))).

(** ** Hooks for plugins *)

Definition set_block (tb : qemu_plugin_tb) (va va2 pa1 pa2 ha1 ha2 : Z) : qemu_plugin_tb :=
  mkPTb (insns tb) (n tb) va va2 pa1 pa2 ha1 ha2 (tb_regular tb) (tb_inline tb).

Definition empty_callback (from : plugin_gen_from) (s : tcg_context) : cres tcg_context :=
  plugin_gen_empty_callback pick cpu_env off_cpu_index off_mem_cbs helper_udata from s.

(** The mask of the vCPU decides; the result says whether plugins want blocks. *)
Definition plugin_gen_tb_start (cpu : CPUState) (tb : TranslationBlock) (mask : Z) (s : tstate) : cres (bool * tstate) :=
  if Z.testbit mask (ev_bit EV_VCPU_TB_TRANS) then
    let c := set_plugin_ops (tcg s) [] in
    let ptb := plugin_tb c in
    let* r := SoftTlb.get_page_addr_code_hostp tlb_fill ram_addr_from_host (tlb s) (mmu_index cpu) (pc tb)
                (haddr1 ptb) (paddr1 ptb) in
    let '(_, t, h, p) := r in
    let c := set_tb c (set_block ptb (pc tb) (2 ^ 64 - 1) p (paddr2 ptb) h 0) in
    let* c := empty_callback FROM_TB c in
    Ret (true, mkT (db s) c (lab s) t (arch s))
  else Ret (false, s).

(** The record of an instruction with its addresses; the branch kind is reset. *)
Definition start_insn (i : qemu_plugin_insn) (va pa ha : Z) : qemu_plugin_insn :=
  mkPInsn (data i) va pa ha (insn_regular i) (insn_inline i) (mem_regular i) (mem_inline i) (calls_helpers i)
    (mem_helper i) 0 0.

Definition plugin_gen_insn_start (cpu : CPUState) (s : tstate) : cres tstate :=
  let '(k, ptb) := qemu_plugin_tb_insn_get (plugin_tb (tcg s)) in
  let* c := empty_callback FROM_INSN (set_insn (set_tb (tcg s) ptb) (Some k)) in
  let va := pc_next (db s) in
  let* r :=
    (if negb (haddr1 ptb =? 0) && (vaddr2 ptb =? 2 ^ 64 - 1) &&
        negb (Z.land va SoftTlb.TARGET_PAGE_MASK =? Z.land (pc_first (db s)) SoftTlb.TARGET_PAGE_MASK) then
       let* r := SoftTlb.get_page_addr_code_hostp tlb_fill ram_addr_from_host (tlb s) (mmu_index cpu) va
                   (haddr2 ptb) (paddr2 ptb) in
       let '(_, t, h, p) := r in
       Ret (t, set_block ptb (tb_vaddr ptb) va (paddr1 ptb) p (haddr1 ptb) h)
     else Ret (tlb s, ptb)) in
  let '(t, ptb) := r in
  let '(pa, ha) :=
    if vaddr2 ptb =? 2 ^ 64 - 1
    then (u64 (paddr1 ptb + va - tb_vaddr ptb), u64 (haddr1 ptb + va - tb_vaddr ptb))
    else (u64 (paddr2 ptb + va - vaddr2 ptb), u64 (haddr2 ptb + va - vaddr2 ptb)) in
  let ptb := set_insns ptb (alter (fun i => start_insn i va pa ha) k (insns ptb)) (n ptb) in
  Ret (mkT (db s) (set_tb c ptb) (lab s) t (arch s)).

Definition plugin_gen_insn_end (s : tstate) : cres tstate :=
  let* c := empty_callback AFTER_INSN (tcg s) in Ret (set_tcg s c).

(** The plugins' functions, one after the other. *)
Fixpoint run_trans (l : list call) (tb : qemu_plugin_tb) (w : W) : cres (qemu_plugin_tb * W) :=
  match l with
  | [] => Ret (tb, w)
  | k :: l => let* r := plugin_fn k tb w in run_trans l r.1 r.2
  end.

(** [tb_addr] is the address of the block's record. *)
Definition plugin_gen_tb_end (plugins : qemu_plugin_state) (tb_addr : Z) (s : tstate) (w : W) : cres (tstate * W) :=
  let* calls := qemu_plugin_tb_trans_cb tb_addr plugins in
  let* r := run_trans calls (plugin_tb (tcg s)) w in
  let* c := plugin_gen_inject helper_udata helper_mem new_arr (set_tb (tcg s) r.1) in
  let ptb := plugin_tb c in
  let ptb := mkPTb (insns ptb) 0 (tb_vaddr ptb) (vaddr2 ptb) (paddr1 ptb) (paddr2 ptb) (haddr1 ptb) (haddr2 ptb) [] [] in
  Ret (set_tcg s (set_insn (set_tb c ptb) None), r.2).

(** ** The loop *)

(** The breakpoints at this instruction, up to the first that is hit. *)
Fixpoint check_breakpoints (ops : TranslatorOps) (l : list Z) (s : tstate) : cres (bool * tstate) :=
  match l with
  | [] => Ret (false, s)
  | bp :: l =>
      if bp =? pc_next (db s) then
        let* r := breakpoint_check ops bp s in
        if r.1 then Ret (true, r.2) else check_breakpoints ops l r.2
      else check_breakpoints ops l s
  end.

(** The rest of a turn, from the breakpoints on. *)
Definition turn_rest (ops : TranslatorOps) (cpu : CPUState) (tb : TranslationBlock) (plugin_enabled bp_insn : bool)
  (s : tstate) : cres (tstate * bool * bool) :=
  let* r :=
    (if negb (singlestep_enabled (db s)) && negb (List.length (breakpoints cpu) =? 0)%nat then
       let* r := check_breakpoints ops (breakpoints cpu) s in
       Ret (r.2, bp_insn || r.1, DISAS_TOO_MANY <? is_jmp (db r.2))
     else Ret (s, bp_insn, false)) in
  let '(s, bp_insn, stop) := r in
  if stop then Ret (s, bp_insn, false)
  else
    let s :=
      if (num_insns (db s) =? max_insns (db s)) && ztrue (Z.land (cflags tb) CF_LAST_IO)
      then set_tcg s (gen_io_start (tcg s)) else s in
    let* s := translate_insn ops s in
    if negb (is_jmp (db s) =? DISAS_NEXT) then Ret (s, bp_insn, false)
    else
      let* s := (if plugin_enabled then plugin_gen_insn_end s else Ret s) in
      if tcg_op_buf_full (tcg s) || (max_insns (db s) <=? num_insns (db s))
      then Ret (set_db s (set_jmp (db s) DISAS_TOO_MANY), bp_insn, false)
      else Ret (s, bp_insn, true).

(** One turn: the state, whether a breakpoint was hit, and whether to go on. *)
Definition translate_one (ops : TranslatorOps) (cpu : CPUState) (tb : TranslationBlock) (plugin_enabled : bool)
  (bp_insn : bool) (s : tstate) : cres (tstate * bool * bool) :=
  let s := set_db s (inc_insns (db s)) in
  let* s := insn_start ops s in
  let* _ := cassert (is_jmp (db s) =? DISAS_NEXT) "tcg_debug_assert(db->is_jmp == DISAS_NEXT)" in
  let* s := (if plugin_enabled then plugin_gen_insn_start cpu s else Ret s) in
  turn_rest ops cpu tb plugin_enabled bp_insn s.

Fixpoint translate_loop (fuel : nat) (ops : TranslatorOps) (cpu : CPUState) (tb : TranslationBlock)
  (plugin_enabled bp_insn : bool) (s : tstate) : cres (tstate * bool) :=
  match fuel with
  | O => Abort "out of fuel"
  | S fuel =>
      let* r := translate_one ops cpu tb plugin_enabled bp_insn s in
      let '(s, bp_insn, more) := r in
      if more then translate_loop fuel ops cpu tb plugin_enabled bp_insn s else Ret (s, bp_insn)
  end.

(** Everything up to the plugins' part at the end.  Every turn counts an
    instruction, so [max_insns] turns are enough. *)
Definition translate_block (ops : TranslatorOps) (cpu : CPUState) (tb : TranslationBlock) (mask max : Z) (s : tstate)
  : cres (bool * tstate) :=
  let s := set_db s (mkDb (pc tb) (pc tb) DISAS_NEXT 0 max (cpu_singlestep cpu)) in
  let* s := init_disas_context ops s in
  let* _ := cassert (is_jmp (db s) =? DISAS_NEXT) "tcg_debug_assert(db->is_jmp == DISAS_NEXT)" in
  let s := gen_tb_start tb s in
  let* s := tb_start ops s in
  let* _ := cassert (is_jmp (db s) =? DISAS_NEXT) "tcg_debug_assert(db->is_jmp == DISAS_NEXT)" in
  let* r := plugin_gen_tb_start cpu tb mask s in
  let '(plugin_enabled, s) := r in
  let* r := translate_loop (Z.to_nat (max_insns (db s))) ops cpu tb plugin_enabled false s in
  let '(s, bp_insn) := r in
  let* s := tb_stop ops s in
  let* s := gen_tb_end tb (num_insns (db s) - b2z bp_insn) s in
  Ret (plugin_enabled, s).

Definition translator_loop (ops : TranslatorOps) (cpu : CPUState) (tb : TranslationBlock) (plugins : qemu_plugin_state)
  (mask tb_addr max : Z) (s : tstate) (w : W) : cres (tstate * TranslationBlock * W) :=
  let* r := translate_block ops cpu tb mask max s in
  let '(plugin_enabled, s) := r in
  let* r := (if plugin_enabled then plugin_gen_tb_end plugins tb_addr s w else Ret (s, w)) in
  let '(s, w) := r in
  Ret (s, mkTb (tb_ptr tb) (pc tb) (cflags tb) (u16 (pc_next (db s) - pc_first (db s))) (u16 (num_insns (db s))), w).

(** ** The shape of a block *)

(** The operations outside templates: a template reaches from its begin marker to the
    next end marker. *)
Fixpoint outside (inside : bool) (l : list TCGOp) : list TCGOp :=
  match l with
  | [] => []
  | o :: l =>
      if inside then outside (negb (bool_decide (opc o = op_plugin_cb_end))) l
      else if bool_decide (opc o = op_plugin_cb_start) then outside true l
      else o :: outside false l
  end.
Definition seg_guest (g : seg) : list TCGOp := match g with SGuest o => [o] | STmpl _ _ _ _ => [] end.
Definition guests (l : list seg) : list TCGOp := concat (map seg_guest l).

(** The kind of a template, without its temporaries. *)
Inductive tag := KTbUdata | KTbInline | KEnable | KInsnUdata | KInsnInline | KMem | KMemInline | KDisable.

Definition tag_of (t : tmpl) : tag :=
  match t with
  | TTbUdata _ _ => KTbUdata | TTbInline _ _ _ => KTbInline | TEnable _ => KEnable
  | TInsnUdata _ _ => KInsnUdata | TInsnInline _ _ _ => KInsnInline
  | TMem _ _ _ _ _ _ => KMem | TMemInline _ _ _ _ => KMemInline | TDisable _ => KDisable
  end.
Definition seg_tags (g : seg) : list tag := match g with SGuest _ => [] | STmpl _ t _ _ => [tag_of t] end.
Definition tags (l : list seg) : list tag := concat (map seg_tags l).

(** The templates of [m] memory accesses, of an instruction, of a block: only
    the last instruction may lack the template behind it. *)
Definition mems (m : nat) : list tag := concat (repeat [KMem; KMemInline] m).
Definition insn_tags (fin : bool) (m : nat) : list tag :=
  [KEnable; KInsnUdata; KInsnInline] ++ mems m ++ (if fin then [KDisable] else []).
Definition block_tags (ms : list nat) (m : nat) (fin : bool) (m' : nat) : list tag :=
  [KTbUdata; KTbInline] ++ concat (map (insn_tags true) ms) ++ insn_tags fin m ++ mems m'.

Definition enables (l : list seg) : nat :=
  List.length (List.filter (fun k => match k with KEnable => true | _ => false end) (tags l)).

(** What an architecture may do to the context: emit operations, take and free
    temporaries, announce accesses whose address it holds (where [mem] allows
    it), and edit the record of the block without adding or dropping
    instructions. *)
Inductive gen_step (mem : bool) (s : tcg_context) : tcg_context -> Prop :=
| gs_op c a p1 p2 : plain (ins c a) -> gen_step mem s (emit c a p1 p2 s)
| gs_live v : gen_step mem s (set_live s v)
| gs_mem addr info : mem = true -> addr ∈ live s -> gen_step mem s (plugin_gen_mem_callbacks pick cpu_env off_cpu_index helper_mem addr info s)
| gs_tb tb : n tb = n (plugin_tb s) -> List.length (insns tb) = List.length (insns (plugin_tb s)) -> gen_step mem s (set_tb s tb).
Definition grows (mem : bool) : tcg_context -> tcg_context -> Prop := rtc (gen_step mem).

Local Abbreviation shaped := (shaped cpu_env off_cpu_index off_mem_cbs helper_udata helper_mem).
Local Abbreviation temps_ok := (temps_ok helper_udata helper_mem).
Local Abbreviation add_tmpl := (add_tmpl cpu_env off_cpu_index off_mem_cbs helper_udata helper_mem).

(** The context emitted [l], which has the templates of [k] instructions. *)
Record tracked (k : nat) (s : tcg_context) (l : list seg) : Prop := {
  tr_shaped : shaped s l;
  tr_placed : placed (List.length (insns (plugin_tb s))) (-1) l;
  tr_enables : enables l = k;
}.

Hypothesis pick_fresh : forall l, pick l ∉ l.
Hypothesis pick_temp : forall l, not_stub helper_udata helper_mem (pick l).
Hypothesis new_arr_fresh : forall arrs, arrs !! new_arr arrs = None.

Lemma tags_app a b : tags (a ++ b) = tags a ++ tags b.
Proof using Type. unfold tags. by rewrite map_app, concat_app. Qed.

Lemma enables_app a b : enables (a ++ b) = (enables a + enables b)%nat.
Proof using Type. unfold enables. by rewrite tags_app, List.filter_app, length_app. Qed.

Lemma enables_tmpl st t body e : Z.of_nat (enables [STmpl st t body e]) = b2z (is_enable t).
Proof using Type. by destruct t. Qed.

Lemma placed_mono len len' idx l : (len <= len')%nat -> placed len idx l -> placed len' idx l.
Proof using Type.
  intros Hle. revert idx. induction l as [|[o|st t body e] l IH]; intros idx; cbn; [done|apply IH|].
  intros [H1 H2]. split; [destruct H1; [by left|right; lia]|by apply IH].
Qed.

Lemma placed_app len idx a b :
  placed len idx a -> placed len (idx + Z.of_nat (enables a)) b -> placed len idx (a ++ b).
Proof using Type.
  revert idx. induction a as [|g a IH]; intros idx Ha Hb; [cbn in *; by rewrite Z.add_0_r in Hb|].
  change (g :: a) with ([g] ++ a) in Hb. rewrite enables_app in Hb.
  destruct g as [o|st t body e]; cbn [app placed] in *.
  - apply IH; [done|]. by rewrite Nat2Z.inj_add in Hb.
  - destruct Ha as [Ha1 Ha2]. split; [done|]. apply IH; [done|].
    rewrite Nat2Z.inj_add, enables_tmpl in Hb.
    replace (next_idx t idx + Z.of_nat (enables a)) with (idx + (b2z (is_enable t) + Z.of_nat (enables a))); [done|].
    unfold next_idx, b2z. destruct (is_enable t); lia.
Qed.

(** ** Steps of the context *)

Lemma tracked_guest k s l c a p1 p2 :
  tracked k s l -> plain (ins c a) -> tracked k (emit c a p1 p2 s) (l ++ [SGuest (mkOp (next_id s) c a p1 p2)]).
Proof using Type.
  intros [Hs Hp He] Hc. split; [by apply shaped_guest| |].
  - by apply placed_app.
  - rewrite enables_app, He. cbn. lia.
Qed.

(** A template of the block, or of the last instruction. *)
Lemma tracked_tmpl k s l t :
  tracked k s l -> temps_ok (live s) t ->
  of_block t = true \/ 0 < Z.of_nat k + b2z (is_enable t) <= Z.of_nat (List.length (insns (plugin_tb s))) ->
  exists g, seg_tags g = [tag_of t] /\ tracked (k + Z.to_nat (b2z (is_enable t))) (add_tmpl s t) (l ++ [g]).
Proof using Type.
  intros [Hs Hp He] Ht Hk. eexists. split; [|split; [by apply shaped_tmpl| |]]; [done| |].
  - apply placed_app; [done|]. cbn [tmpl_seg placed]. split; [|done]. rewrite He. unfold next_idx, b2z in *.
    destruct (is_enable t); (destruct Hk; [by left|right; cbn [plugin_tb add_tmpl set_plugin_ops set_ops]; lia]).
  - rewrite enables_app, He. f_equal. by destruct t.
Qed.

Lemma tracked_live k s l v : tracked k s l -> tracked k (set_live s v) l.
Proof using Type. intros [[H1 H2 H3 H4 H5] Hp He]. by split; [split|..]. Qed.

Lemma tracked_tb k s l tb :
  tracked k s l -> (List.length (insns (plugin_tb s)) <= List.length (insns tb))%nat -> tracked k (set_tb s tb) l.
Proof using Type.
  intros [[H1 H2 H3 H4 H5] Hp He] Hle. split; [by split| |done]. by eapply placed_mono.
Qed.

Lemma tracked_insn k s l i : tracked k s l -> tracked k (set_insn s i) l.
Proof using Type. intros [[H1 H2 H3 H4 H5] Hp He]. by split; [split|..]. Qed.

(** [b] was reached from [a] by code generation. *)
Record kept (a b : tcg_context) : Prop := {
  kp_insn : plugin_insn b = plugin_insn a;
  kp_n : n (plugin_tb b) = n (plugin_tb a);
  kp_len : List.length (insns (plugin_tb b)) = List.length (insns (plugin_tb a));
  kp_arrs : dyn_arrs b = dyn_arrs a;
}.

Lemma kept_refl a : kept a a.
Proof using Type. by split. Qed.
Lemma kept_trans a b c : kept a b -> kept b c -> kept a c.
Proof using Type. intros [] []. split; congruence. Qed.

(** From [s] to [c] the templates [tg] were added, and operations. *)
Definition tracks (k k' : nat) (s c : tcg_context) (tg : list tag) : Prop :=
  forall l, tracked k s l -> exists l', tags l' = tg /\ tracked k' c (l ++ l').
Definition adds (k k' : nat) (s c : tcg_context) (tg : list tag) : Prop := kept s c /\ tracks k k' s c tg.

Lemma tracks_trans k1 k2 k3 a b c t u : tracks k1 k2 a b t -> tracks k2 k3 b c u -> tracks k1 k3 a c (t ++ u).
Proof using Type.
  intros H1 H2 l Hl. destruct (H1 l Hl) as (l1 & <- & T1). destruct (H2 _ T1) as (l2 & <- & T2).
  exists (l1 ++ l2). rewrite tags_app, app_assoc. done.
Qed.

Lemma adds_refl k s : adds k k s s [].
Proof using Type. split; [apply kept_refl|]. intros l H. exists []. by rewrite app_nil_r. Qed.

Lemma adds_trans k1 k2 k3 a b c t u : adds k1 k2 a b t -> adds k2 k3 b c u -> adds k1 k3 a c (t ++ u).
Proof using Type.
  intros [K1 H1] [K2 H2]. split; [by eapply kept_trans|by eapply tracks_trans].
Qed.

Lemma adds_op k s c a p1 p2 : plain (ins c a) -> adds k k s (emit c a p1 p2 s) [].
Proof using Type.
  intros Hc. split; [done|]. intros l Hl. eexists. split; [|by apply tracked_guest]. done.
Qed.

Lemma adds_live k s v : adds k k s (set_live s v) [].
Proof using Type. split; [done|]. intros l Hl. exists []. rewrite app_nil_r. split; [done|by apply tracked_live]. Qed.

Lemma adds_tb k s tb :
  n tb = n (plugin_tb s) -> List.length (insns tb) = List.length (insns (plugin_tb s)) -> adds k k s (set_tb s tb) [].
Proof using Type.
  intros Hn Hl. split; [done|]. intros l H. exists []. rewrite app_nil_r. split; [done|]. apply tracked_tb; [done|lia].
Qed.

(** Where a template may stand: [k] instructions are begun. *)
Definition fits (k : nat) (s : tcg_context) (t : tmpl) : Prop :=
  of_block t = true \/ 0 < Z.of_nat k + b2z (is_enable t) <= Z.of_nat (List.length (insns (plugin_tb s))).

Lemma adds_wrapped k s from type wr func t :
  fits k s t -> tmpl_args t = [from_code from; type_code type; wr] ->
  emits_body cpu_env off_cpu_index off_mem_cbs helper_udata helper_mem func (gen_plugin_cb_start from type wr s) t ->
  adds k (k + Z.to_nat (b2z (is_enable t))) s (tcg_gen_plugin_cb_end (func (gen_plugin_cb_start from type wr s))) [tag_of t].
Proof using Type.
  intros Hk Ha He. destruct (wrapped_adds _ _ _ _ _ _ _ _ _ _ _ Ha He) as [-> Ht]. split; [done|]. intros l Htr.
  destruct (tracked_tmpl k s l t Htr Ht Hk) as (g & Hg & H). exists [g]. split; [|done].
  unfold tags. cbn. by rewrite Hg.
Qed.

Lemma adds_udata k s from wr mk tg :
  (forall ci ud, fits k s (mk ci ud)) -> (forall ci ud, tmpl_args (mk ci ud) = [from_code from; type_code CB_UDATA; wr]) ->
  (forall ci ud, is_enable (mk ci ud) = false /\ tag_of (mk ci ud) = tg /\ tmpl_temps (mk ci ud) = [ci; ud] /\
     tmpl_body cpu_env off_cpu_index off_mem_cbs helper_udata helper_mem (mk ci ud) =
     udata_body cpu_env off_cpu_index helper_udata ci ud) ->
  adds k k s (tcg_gen_plugin_cb_end (gen_empty_udata_cb pick cpu_env off_cpu_index helper_udata
    (gen_plugin_cb_start from CB_UDATA wr s))) [tg].
Proof using pick_fresh pick_temp.
  intros Hf Ha Hm.
  destruct (gen_udata_emits pick cpu_env off_cpu_index off_mem_cbs helper_udata helper_mem pick_fresh pick_temp
    (gen_plugin_cb_start from CB_UDATA wr s) mk) as (ci & ud & E); [intros; apply Hm..|].
  pose proof (adds_wrapped k s from CB_UDATA wr _ _ (Hf ci ud) (Ha ci ud) E) as H.
  destruct (Hm ci ud) as (He & Ht & _). rewrite He, Ht in H. by rewrite Nat.add_0_r in H.
Qed.

Lemma adds_inline k s from wr mk tg :
  (forall v p t, fits k s (mk v p t)) -> (forall v p t, tmpl_args (mk v p t) = [from_code from; type_code CB_INLINE; wr]) ->
  (forall v p t, is_enable (mk v p t) = false /\ tag_of (mk v p t) = tg /\ tmpl_temps (mk v p t) = [v; p; t] /\
     tmpl_body cpu_env off_cpu_index off_mem_cbs helper_udata helper_mem (mk v p t) = inline_body v p t) ->
  adds k k s (tcg_gen_plugin_cb_end (gen_empty_inline_cb pick (gen_plugin_cb_start from CB_INLINE wr s))) [tg].
Proof using pick_fresh pick_temp.
  intros Hf Ha Hm.
  destruct (gen_inline_emits pick cpu_env off_cpu_index off_mem_cbs helper_udata helper_mem pick_fresh pick_temp
    (gen_plugin_cb_start from CB_INLINE wr s) mk) as (v & p & t & E); [intros; apply Hm..|].
  pose proof (adds_wrapped k s from CB_INLINE wr _ _ (Hf v p t) (Ha v p t) E) as H.
  destruct (Hm v p t) as (He & Ht & _). rewrite He, Ht in H. by rewrite Nat.add_0_r in H.
Qed.

Lemma adds_helper k s from type mk :
  (forall p, fits k s (mk p)) -> (forall p, tmpl_args (mk p) = [from_code from; type_code type; 0]) ->
  (forall p, tmpl_temps (mk p) = [p] /\
     tmpl_body cpu_env off_cpu_index off_mem_cbs helper_udata helper_mem (mk p) = helper_body cpu_env off_mem_cbs p) ->
  exists p, adds k (k + Z.to_nat (b2z (is_enable (mk p)))) s
    (gen_wrapped from type (gen_empty_mem_helper pick cpu_env off_mem_cbs) s) [tag_of (mk p)].
Proof using pick_fresh pick_temp.
  intros Hf Ha Hm.
  destruct (gen_helper_emits pick cpu_env off_cpu_index off_mem_cbs helper_udata helper_mem pick_fresh pick_temp
    (gen_plugin_cb_start from type 0 s) mk) as (p & E); [intros; apply Hm..|].
  exists p. apply (adds_wrapped k s from type 0 _ _ (Hf p) (Ha p) E).
Qed.

(** The templates of a block, of the begin and of the end of an instruction,
    and of a memory access. *)
Lemma block_templates k s : exists c, empty_callback FROM_TB s = Ret c /\ adds k k s c [KTbUdata; KTbInline].
Proof using pick_fresh pick_temp.
  eexists. split; [reflexivity|].
  apply (adds_trans k k k _ (gen_wrapped FROM_TB CB_UDATA (gen_empty_udata_cb pick cpu_env off_cpu_index helper_udata) s)
    _ [KTbUdata] [KTbInline]).
  - apply (adds_udata _ _ _ _ TTbUdata); [by left|done..].
  - apply (adds_inline _ _ _ _ TTbInline); [by left|done..].
Qed.

Lemma insn_templates k s :
  (k < List.length (insns (plugin_tb s)))%nat ->
  exists c, empty_callback FROM_INSN s = Ret c /\ adds k (S k) s c [KEnable; KInsnUdata; KInsnInline].
Proof using pick_fresh pick_temp.
  intros Hk. eexists. split; [reflexivity|].
  destruct (adds_helper k s FROM_INSN ENABLE_MEM_HELPER TEnable) as [p H1]; [intros; right; cbn; lia|done..|].
  cbn [is_enable b2z tag_of] in H1. rewrite Nat.add_1_r in H1.
  apply (adds_trans _ _ _ _ _ _ [KEnable] _ H1).
  pose proof (kp_len _ _ (proj1 H1)) as Hl.
  match type of H1 with adds _ _ _ ?c _ =>
    assert (adds (S k) (S k) c (gen_wrapped FROM_INSN CB_UDATA (gen_empty_udata_cb pick cpu_env off_cpu_index helper_udata) c)
      [KInsnUdata]) as H2
  end.
  { apply (adds_udata _ _ _ _ TInsnUdata); [intros; right; rewrite Hl; cbn; lia|done..]. }
  apply (adds_trans _ _ _ _ _ _ [KInsnUdata] [KInsnInline] H2). pose proof (kp_len _ _ (proj1 H2)) as Hl2.
  apply (adds_inline _ _ _ _ TInsnInline); [intros; right; rewrite Hl2, Hl; cbn; lia|done..].
Qed.

Lemma end_template k s :
  (0 < k <= List.length (insns (plugin_tb s)))%nat ->
  exists c, empty_callback AFTER_INSN s = Ret c /\ adds k k s c [KDisable].
Proof using pick_fresh pick_temp.
  intros Hk. eexists. split; [reflexivity|].
  destruct (adds_helper k s AFTER_INSN DISABLE_MEM_HELPER TDisable) as [p H1]; [intros; right; cbn; lia|done..|].
  cbn [is_enable b2z tag_of] in H1. by rewrite Nat.add_0_r in H1.
Qed.

Lemma mem_templates k s addr info :
  (0 < k <= List.length (insns (plugin_tb s)))%nat -> addr ∈ live s ->
  adds k k s (plugin_gen_empty_mem_callback pick cpu_env off_cpu_index helper_mem addr info s) [KMem; KMemInline].
Proof using pick_fresh pick_temp.
  intros Hk Ha. unfold plugin_gen_empty_mem_callback.
  assert (adds k k s (gen_mem_wrapped CB_MEM (gen_empty_mem_cb pick cpu_env off_cpu_index helper_mem addr info) info s) [KMem]) as H1.
  { destruct (gen_mem_emits pick cpu_env off_cpu_index off_mem_cbs helper_udata helper_mem pick_fresh pick_temp
      (gen_plugin_cb_start FROM_MEM CB_MEM (info_wr info) s) addr info Ha) as (ci & mi & va & ud & E).
    assert (fits k s (TMem info addr ci mi va ud)) as F by (right; cbn; lia).
    pose proof (adds_wrapped k s FROM_MEM CB_MEM (info_wr info) _ _ F eq_refl E) as H.
    cbn [is_enable b2z tag_of] in H. by rewrite Nat.add_0_r in H. }
  apply (adds_trans _ _ _ _ _ _ [KMem] [KMemInline] H1). pose proof (kp_len _ _ (proj1 H1)) as Hl.
  apply (adds_inline _ _ _ _ (TMemInline info)); [intros; right; rewrite Hl; cbn; lia|done..].
Qed.

Lemma mems_add a b : mems (a + b) = mems a ++ mems b.
Proof using Type. unfold mems. by rewrite repeat_app, concat_app. Qed.

(** Whatever an architecture does adds templates of accesses only. *)
Lemma grows_adds mem k s s' :
  grows mem s s' -> (mem = true -> (0 < k <= List.length (insns (plugin_tb s)))%nat) ->
  exists m, adds k k s s' (mems m) /\ (mem = false -> m = 0%nat).
Proof using pick_fresh pick_temp.
  induction 1 as [s|s s1 s' Hs _ IH]; intros Hk; [exists 0%nat; split; [apply adds_refl|done]|].
  assert (exists m, adds k k s s1 (mems m) /\ (mem = false -> m = 0%nat)) as (m1 & H1 & Z1).
  { destruct Hs as [c a p1 p2 Hc|v|addr info -> Ha|tb Hn Hl].
    - exists 0%nat. split; [by apply adds_op|done].
    - exists 0%nat. split; [apply adds_live|done].
    - unfold plugin_gen_mem_callbacks, tcg_temp_free. destruct (plugin_insn s); [|exists 0%nat; split; [apply adds_refl|done]].
      exists 1%nat. split; [|done]. eapply (adds_trans _ _ _ _ _ _ _ []); [apply mem_templates; eauto|apply adds_live].
    - exists 0%nat. split; [by apply adds_tb|done]. }
  destruct (proj1 H1) as [E1 E2 E3 E4]. destruct IH as (m2 & H2 & Z2); [rewrite E3; done|].
  exists (m1 + m2)%nat. split; [|intros HN; rewrite Z1, Z2 by done; done].
  rewrite mems_add. by eapply adds_trans.
Qed.

(** ** Architectures *)

(** Translation does not fault on states with this property: a fetch that
    faults leaves the translator altogether. *)
Variable tlb_ok : SoftTlb.CPUTLB -> Prop.
Hypothesis fetch_ok : forall t m a h p, tlb_ok t -> exists ra t' h' p',
  SoftTlb.get_page_addr_code_hostp tlb_fill ram_addr_from_host t m a h p = Ret (ra, t', h', p') /\ tlb_ok t'.

(** What a hook leaves alone. *)
Record moved (mem : bool) (s s' : tstate) : Prop := {
  mv_tcg : grows mem (tcg s) (tcg s');
  mv_num : num_insns (db s') = num_insns (db s);
  mv_max : max_insns (db s') = max_insns (db s);
  mv_exit : exitreq_label (lab s') = exitreq_label (lab s);
  mv_count : icount_start_insn (lab s') = icount_start_insn (lab s);
  mv_tlb : tlb_ok (tlb s');
}.
Definition hook_ok (mem : bool) (h : tstate -> cres tstate) : Prop :=
  forall s, tlb_ok (tlb s) -> exists s', h s = Ret s' /\ moved mem s s'.
(** A hook before the instruction: no accesses, and translation goes on. *)
Definition early_ok (h : tstate -> cres tstate) : Prop :=
  forall s, tlb_ok (tlb s) -> is_jmp (db s) = DISAS_NEXT ->
  exists s', h s = Ret s' /\ moved false s s' /\ is_jmp (db s') = DISAS_NEXT.

Record arch_ok (ops : TranslatorOps) : Prop := {
  ok_init : early_ok (init_disas_context ops);
  ok_start : early_ok (tb_start ops);
  ok_insn_start : early_ok (insn_start ops);
  ok_breakpoint : forall bp s, tlb_ok (tlb s) -> exists b s', breakpoint_check ops bp s = Ret (b, s') /\ moved true s s';
  ok_translate : hook_ok true (translate_insn ops);
  ok_stop : hook_ok true (tb_stop ops);
}.

Lemma moved_refl mem s : tlb_ok (tlb s) -> moved mem s s.
Proof using Type. intros Ht. split; try done. Qed.

Lemma moved_trans mem a b c : moved mem a b -> moved mem b c -> moved mem a c.
Proof using Type. intros [] []. split; try congruence. by etrans. Qed.

Lemma breakpoints_ok ops l s :
  arch_ok ops -> tlb_ok (tlb s) -> exists b s', check_breakpoints ops l s = Ret (b, s') /\ moved true s s'.
Proof using Type.
  intros Hok. revert s. induction l as [|bp l IH]; intros s Ht; cbn [check_breakpoints].
  - exists false, s. split; [done|by split].
  - destruct (bp =? pc_next (db s)); [|by apply IH].
    destruct (ok_breakpoint ops Hok bp s Ht) as (b & s1 & -> & M). cbn [cbind fst snd].
    destruct b; [by exists true, s1|]. destruct (IH s1 (mv_tlb _ _ _ M)) as (b & s' & E & M'). exists b, s'.
    split; [done|by eapply moved_trans].
Qed.

(** ** The state between two instructions *)

(** [k] instructions of the block are begun. *)
Record begun (k : nat) (s : tstate) : Prop := {
  bg_n : n (plugin_tb (tcg s)) = k;
  bg_len : (k <= List.length (insns (plugin_tb (tcg s))))%nat;
  bg_num : num_insns (db s) = Z.of_nat k;
  bg_tlb : tlb_ok (tlb s);
}.

Lemma begun_moved mem k s s' :
  begun k s -> moved mem s s' -> (mem = true -> (0 < k)%nat) ->
  begun k s' /\ exists m, adds k k (tcg s) (tcg s') (mems m) /\ (mem = false -> m = 0%nat).
Proof using pick_fresh pick_temp.
  intros [Bn Bl Bk Bt] [Mg Mn Mm Me Mc Mt] Hk.
  destruct (grows_adds mem k _ _ Mg) as (m & [[K1 K2 K3 K4] H] & Z); [intros Hi; specialize (Hk Hi); lia|].
  split; [split; rewrite ?K1, ?K2, ?K3, ?Mn; done|]. by exists m.
Qed.

Lemma insn_get_len tb k tb' :
  qemu_plugin_tb_insn_get tb = (k, tb') -> (n tb <= List.length (insns tb))%nat ->
  k = n tb /\ n tb' = S (n tb) /\ (List.length (insns tb) <= List.length (insns tb'))%nat /\ (n tb < List.length (insns tb'))%nat.
Proof using Type.
  unfold qemu_plugin_tb_insn_get. intros [= <- <-] Hle. cbn [n insns set_insns]. rewrite length_alter.
  destruct (Nat.eqb_spec (n tb) (List.length (insns tb))); rewrite ?length_app; cbn; lia.
Qed.

(** The begin of an instruction: one more record, and its templates. *)
Lemma insn_start_ok cpu k s :
  n (plugin_tb (tcg s)) = k -> (k <= List.length (insns (plugin_tb (tcg s))))%nat -> tlb_ok (tlb s) ->
  exists s', plugin_gen_insn_start cpu s = Ret s' /\
    tracks k (S k) (tcg s) (tcg s') [KEnable; KInsnUdata; KInsnInline] /\
    n (plugin_tb (tcg s')) = S k /\ (S k <= List.length (insns (plugin_tb (tcg s'))))%nat /\ is_Some (plugin_insn (tcg s')) /\
    dyn_arrs (tcg s') = dyn_arrs (tcg s) /\ db s' = db s /\ lab s' = lab s /\ tlb_ok (tlb s').
Proof using pick_fresh pick_temp fetch_ok.
  intros Bn Bl Bt. unfold plugin_gen_insn_start.
  destruct (qemu_plugin_tb_insn_get (plugin_tb (tcg s))) as [k' ptb] eqn:Eg.
  destruct (insn_get_len _ _ _ Eg ltac:(lia)) as (-> & Hn & Hl & Hl').
  destruct (insn_templates k (set_insn (set_tb (tcg s) ptb) (Some (n (plugin_tb (tcg s)))))) as (c & -> & [K1 K2 K3 K4] & T);
    [cbn; lia|]. cbn [cbind].
  match goal with |- exists s', cbind ?m _ = _ /\ _ =>
    assert (exists t ptb', m = Ret (t, ptb') /\ tlb_ok t /\ insns ptb' = insns ptb /\ n ptb' = n ptb) as (t & ptb' & -> & Ht & Ei & En)
  end.
  { destruct (_ && _); [|by exists (tlb s), ptb].
    destruct (fetch_ok (tlb s) (mmu_index cpu) (pc_next (db s)) (haddr2 ptb) (paddr2 ptb) Bt) as (? & t & ? & ? & -> & Ht).
    cbn [cbind]. by do 2 eexists. }
  cbn [cbind]. destruct (vaddr2 ptb' =? 2 ^ 64 - 1); eexists; (split; [reflexivity|]);
    cbn [tcg db lab tlb plugin_tb plugin_insn dyn_arrs set_tb set_insns n insns]; rewrite length_alter, Ei, En, K1, K4, Hn;
    (split_and!; [|congruence|lia|done..]); intros l Hl0.
  all: destruct (T l) as (l' & Hl'' & Htr); [by apply tracked_insn, tracked_tb|]; exists l'; (split; [done|]);
    apply tracked_tb; [done|]; cbn [insns set_insns]; rewrite length_alter, ?Ei, K3; done.
Qed.

(** The translator's own code is of the kind an architecture may emit. *)
Ltac growing :=
  unfold tcg_temp_free, tcg_const, tcg_temp_new; cbn [fst snd];
  repeat first [apply rtc_refl | eapply rtc_r; [|apply gs_live] | eapply rtc_r; [|apply gs_op; split; discriminate]].

Lemma io_start_grows mem c : grows mem c (gen_io_start c).
Proof using Type. unfold grows, gen_io_start. growing. Qed.

Lemma moved_io mem s : tlb_ok (tlb s) -> moved mem s (set_tcg s (gen_io_start (tcg s))).
Proof using Type. intros Ht. split; try done. apply io_start_grows. Qed.

(** The breakpoints of an instruction. *)
Lemma breakpoints_turn ops cpu (bp : bool) s :
  arch_ok ops -> tlb_ok (tlb s) ->
  exists bp' s' (stop : bool),
    (if negb (singlestep_enabled (db s)) && negb (List.length (breakpoints cpu) =? 0)%nat then
       let* r := check_breakpoints ops (breakpoints cpu) s in
       Ret (r.2, bp || r.1, DISAS_TOO_MANY <? is_jmp (db r.2))
     else Ret (s, bp, false)) = Ret (s', bp', stop) /\ moved true s s'.
Proof using Type.
  intros Hok Ht. destruct (_ && _); [|exists bp, s, false; split; [done|by apply moved_refl]].
  destruct (breakpoints_ok ops (breakpoints cpu) s Hok Ht) as (b & s' & -> & M). cbn [cbind fst snd]. by do 3 eexists.
Qed.

(** What every part of the translator leaves alone. *)
Record carried (s s' : tstate) : Prop := {
  ca_arrs : dyn_arrs (tcg s') = dyn_arrs (tcg s);
  ca_max : max_insns (db s') = max_insns (db s);
  ca_exit : exitreq_label (lab s') = exitreq_label (lab s);
  ca_count : icount_start_insn (lab s') = icount_start_insn (lab s);
}.

Lemma carried_trans a b c : carried a b -> carried b c -> carried a c.
Proof using Type. intros [] []. split; congruence. Qed.

(** [s'] was reached from [s], which had [k] instructions begun. *)
Record goes (k k' : nat) (s s' : tstate) (tg : list tag) : Prop := {
  go_begun : begun k' s';
  go_tracks : tracks k k' (tcg s) (tcg s') tg;
  go_carried : carried s s';
}.

Lemma goes_trans k1 k2 k3 a b c t u : goes k1 k2 a b t -> goes k2 k3 b c u -> goes k1 k3 a c (t ++ u).
Proof using Type. intros [] []. split; [done|by eapply tracks_trans|by eapply carried_trans]. Qed.

Lemma goes_moved mem k s s' :
  begun k s -> moved mem s s' -> (mem = true -> (0 < k)%nat) ->
  exists m, goes k k s s' (mems m) /\ (mem = false -> m = 0%nat).
Proof using pick_fresh pick_temp.
  intros Hb M Hk. destruct (begun_moved mem k s s' Hb M Hk) as (Hb' & m & [[K1 K2 K3 K4] H] & Z).
  destruct M. exists m. by split.
Qed.

Lemma turn_rest_ok ops cpu tb bp k s :
  arch_ok ops -> begun k s -> (0 < k)%nat ->
  exists s' bp' more fin m,
    turn_rest ops cpu tb true bp s = Ret (s', bp', more) /\
    goes k k s s' (mems m ++ (if fin : bool then [KDisable] else [])) /\
    (more = true -> fin = true /\ is_jmp (db s') = DISAS_NEXT /\ Z.of_nat k < max_insns (db s')).
Proof using pick_fresh pick_temp.
  intros Hok Hb Hk. unfold turn_rest.
  destruct (breakpoints_turn ops cpu bp s Hok (bg_tlb _ _ Hb)) as (bp' & s1 & stop & -> & M1). cbn [cbind].
  destruct (goes_moved true k s s1 Hb M1 (fun _ => Hk)) as (m1 & G1 & _). pose proof (go_begun _ _ _ _ _ G1) as Hb1.
  destruct stop; [exists s1, bp', false, false, m1; rewrite app_nil_r; done|].
  match goal with |- context [translate_insn ops ?x] => assert (moved true s1 x) as M2 end.
  { destruct (_ && _); [apply moved_io|apply moved_refl]; apply Hb1. }
  destruct (ok_translate ops Hok _ (mv_tlb _ _ _ M2)) as (s2 & -> & M3). cbn [cbind].
  destruct (goes_moved true k s1 s2 Hb1 (moved_trans _ _ _ _ M2 M3) (fun _ => Hk)) as (m2 & G2 & _).
  pose proof (goes_trans _ _ _ _ _ _ _ _ G1 G2) as G. rewrite <- mems_add in G. pose proof (go_begun _ _ _ _ _ G2) as [Bn Bl Bk Bt].
  destruct (negb (is_jmp (db s2) =? DISAS_NEXT)) eqn:Ej.
  { exists s2, bp', false, false, (m1 + m2)%nat. rewrite app_nil_r. done. }
  apply negb_false_iff, Z.eqb_eq in Ej.
  destruct (end_template k (tcg s2)) as (c & Ec & [[K1 K2 K3 K4] T]); [lia|].
  unfold plugin_gen_insn_end. rewrite Ec. cbn [cbind].
  assert (forall d, num_insns d = num_insns (db s2) -> max_insns d = max_insns (db s2) ->
    goes k k s (set_db (set_tcg s2 c) d) (mems (m1 + m2) ++ [KDisable])) as G'.
  { intros d Hd1 Hd2. eapply goes_trans; [exact G|]. split; [split|done|by split]; cbn; congruence. }
  destruct (tcg_op_buf_full _ || _) eqn:Ef.
  - do 3 eexists. exists true, (m1 + m2)%nat. split; [reflexivity|]. split; [by apply G'|done].
  - apply orb_false_iff in Ef as [_ Ef]. cbn [db set_tcg] in Ef. apply Z.leb_gt in Ef.
    do 3 eexists. exists true, (m1 + m2)%nat. split; [reflexivity|].
    split; [by apply (G' (db s2))|]. intros _. split_and!; [done..|cbn; lia].
Qed.

(** One turn begins one instruction and adds its templates; the last of them
    is there whenever the loop goes on. *)
Lemma one_ok ops cpu tb bp k s :
  arch_ok ops -> begun k s -> is_jmp (db s) = DISAS_NEXT ->
  exists s' bp' more fin m,
    translate_one ops cpu tb true bp s = Ret (s', bp', more) /\ goes k (S k) s s' (insn_tags fin m) /\
    (more = true -> fin = true /\ is_jmp (db s') = DISAS_NEXT /\ Z.of_nat (S k) < max_insns (db s')).
Proof using pick_fresh pick_temp fetch_ok.
  intros Hok [Bn Bl Bk Bt] Hj. unfold translate_one.
  destruct (ok_insn_start ops Hok (set_db s (inc_insns (db s))) Bt Hj) as (s1 & -> & [Mg Mn Mm Me Mc Mt] & Hj1). cbn [cbind].
  destruct (grows_adds false k _ _ Mg) as (m0 & [[K1 K2 K3 K4] T0] & Z0); [done..|].
  rewrite (Z0 eq_refl) in T0. cbn [set_db tcg db lab tlb] in *.
  rewrite Hj1. cbn [Z.eqb DISAS_NEXT cassert cbind].
  destruct (insn_start_ok cpu k s1) as (s2 & -> & T2 & N2 & L2 & I2 & A2 & D2 & B2 & Ht2); [congruence|lia|done|]. cbn [cbind].
  assert (goes k (S k) s s2 [KEnable; KInsnUdata; KInsnInline]) as G.
  { split; [split; try done|exact (tracks_trans _ _ _ _ _ _ [] _ T0 T2)|split; [congruence|rewrite D2; exact Mm|congruence..]].
    rewrite D2, Mn. cbn [inc_insns num_insns]. lia. }
  destruct (turn_rest_ok ops cpu tb bp (S k) s2 Hok (go_begun _ _ _ _ _ G) ltac:(lia)) as (s' & bp' & more & fin & m & E & G' & Hm).
  exists s', bp', more, fin, m. split; [done|]. split; [|done]. exact (goes_trans _ _ _ _ _ _ _ _ G G').
Qed.

(** The loop returns: every turn counts an instruction. *)
Lemma loop_ok ops cpu tb fuel : forall bp k s,
  arch_ok ops -> begun k s -> is_jmp (db s) = DISAS_NEXT -> Z.of_nat k < max_insns (db s) ->
  max_insns (db s) - Z.of_nat k <= Z.of_nat fuel ->
  exists s' bp' ms m fin,
    translate_loop fuel ops cpu tb true bp s = Ret (s', bp') /\
    goes k (k + S (List.length ms)) s s' (concat (map (insn_tags true) ms) ++ insn_tags fin m) /\
    Z.of_nat (k + S (List.length ms)) <= max_insns (db s).
Proof using pick_fresh pick_temp fetch_ok.
  induction fuel as [|fuel IH]; intros bp k s Hok Hb Hj Hk Hf; [lia|]. cbn [translate_loop].
  destruct (one_ok ops cpu tb bp k s Hok Hb Hj) as (s1 & bp1 & more & fin & m & -> & G & Hm). cbn [cbind].
  destruct more.
  - destruct (Hm eq_refl) as (-> & Hj1 & Hk1). pose proof (ca_max _ _ (go_carried _ _ _ _ _ G)) as Emax.
    destruct (IH bp1 (S k) s1 Hok (go_begun _ _ _ _ _ G) Hj1 Hk1 ltac:(lia)) as (s' & bp' & ms & m' & fin' & E & G' & Hle).
    exists s', bp', (m :: ms), m', fin'. split; [done|]. cbn [List.length map concat].
    rewrite <- app_assoc. replace (k + S (S (List.length ms)))%nat with (S k + S (List.length ms))%nat by lia.
    split; [by eapply goes_trans|lia].
  - exists s1, bp1, [], m, fin. cbn [List.length map concat app]. rewrite Nat.add_1_r. split; [done|]. split; [done|lia].
Qed.

(** ** The begin of a block *)

(** The templates of an earlier block are forgotten at the begin of this one. *)
Definition forget (c : tcg_context) : tcg_context := set_plugin_ops c [].

Lemma grows_forget c c' : grows false c c' -> grows false (forget c) (forget c').
Proof using Type.
  induction 1 as [c|c c1 c' Hs _ IH]; [apply rtc_refl|]. eapply rtc_l; [|exact IH].
  destruct Hs as [o a p1 p2 Hc|v|addr info ? Ha|tb Hn Hl];
    [apply (gs_op false (forget c) o a p1 p2 Hc)|apply (gs_live false (forget c))|done|by apply (gs_tb false (forget c))].
Qed.

Lemma quiet_grows c c' l :
  grows false c c' -> tracked 0 (forget c) l -> kept c c' /\ exists l', tags l' = [] /\ tracked 0 (forget c') (l ++ l').
Proof using pick_fresh pick_temp.
  intros Hg Hl. destruct (grows_adds false 0 _ _ (grows_forget _ _ Hg)) as (m & [K T] & Z); [done|].
  rewrite (Z eq_refl) in T. destruct K. split; [by split|]. by apply T.
Qed.

(** The number of instructions is set in this operation later. *)
Definition counts (l : list seg) (start : option nat) : Prop :=
  exists id imm v, SGuest (mkOp id op_movi_i32 [imm; v] 0 0) ∈ l /\ start = Some id.

Lemma counts_app l l' start : counts l start -> counts (l ++ l') start.
Proof using Type. intros (id & imm & v & H & E). exists id, imm, v. split; [|done]. apply elem_of_app. by left. Qed.

Definition uses_icount (tb : TranslationBlock) : bool := ztrue (Z.land (cflags tb) CF_USE_ICOUNT).

Lemma tb_start_tracked tb s l :
  tracked 0 (forget (tcg s)) l ->
  let s' := gen_tb_start tb s in
  kept (tcg s) (tcg s') /\
  exists l', tags l' = [] /\ tracked 0 (forget (tcg s')) (l ++ l') /\
    (uses_icount tb = true -> counts (l ++ l') (icount_start_insn (lab s'))).
Proof using pick_fresh pick_temp.
  intros Hl. cbv zeta. unfold gen_tb_start, tcg_temp_new. fold (uses_icount tb). destruct (uses_icount tb).
  - set (count := pick _).
    set (c0 := set_live (tcg s) _). set (c1 := emit op_ld_i32 _ _ _ c0).
    assert (grows false (tcg s) c1) as G1 by (unfold c1, c0; growing).
    destruct (quiet_grows _ _ l G1 Hl) as [K1 (l1 & Hl1 & T1)].
    unfold gen_count, tcg_temp_new. set (imm := pick _).
    pose proof (tracked_guest 0 (forget (set_live c1 ({[imm]} ∪ live c1))) (l ++ l1) op_movi_i32
      [imm; 0xffffffffdeadbeef] 0 0 (tracked_live _ _ _ _ T1) ltac:(split; discriminate)) as T2.
    set (c2 := emit op_movi_i32 [imm; 0xffffffffdeadbeef] 0 0 (set_live c1 ({[imm]} ∪ live c1))).
    change (tracked 0 (forget c2) ((l ++ l1) ++ [SGuest (mkOp (next_id c1) op_movi_i32 [imm; 0xffffffffdeadbeef] 0 0)])) in T2.
    match goal with |- kept _ (tcg (set_lab (set_tcg s ?c) _)) /\ _ => assert (grows false c2 c) as G2 end.
    { unfold tcg_gen_brcondi_i32, gen_io_end. growing. }
    destruct (quiet_grows _ _ _ G2 T2) as [K2 (l2 & Hl2 & T3)].
    split; [exact (kept_trans _ c2 _ ltac:(destruct K1; by split) K2)|].
    exists (l1 ++ [SGuest (mkOp (next_id c1) op_movi_i32 [imm; 0xffffffffdeadbeef] 0 0)] ++ l2).
    rewrite !tags_app, Hl1, Hl2, !app_assoc. split_and!; [done..|]. intros _. apply counts_app.
    do 3 eexists. split; [apply elem_of_app; right; apply list_elem_of_singleton; reflexivity|done].
  - match goal with |- kept _ (tcg (set_lab (set_tcg s ?c) _)) /\ _ => assert (grows false (tcg s) c) as G end.
    { unfold tcg_gen_brcondi_i32. growing. }
    destruct (quiet_grows _ _ l G Hl) as [K (l1 & Hl1 & T1)]. split; [done|]. by exists l1.
Qed.

(** ** The end of a block *)

Lemma placed_guest len l1 o o' l2 : forall idx, placed len idx (l1 ++ SGuest o :: l2) -> placed len idx (l1 ++ SGuest o' :: l2).
Proof using Type. induction l1 as [|[x|st t body e] l1 IH]; intros idx; cbn; [done|apply IH|]. intros [H1 H2]. eauto. Qed.

Lemma flatten_app a b : flatten (a ++ b) = flatten a ++ flatten b.
Proof using Type. unfold flatten. by rewrite map_app, concat_app. Qed.

Local Abbreviation seg_ok := (seg_ok cpu_env off_cpu_index off_mem_cbs helper_udata helper_mem).

Lemma outside_body body e post :
  Forall (fun o => opc o <> op_plugin_cb_end) body -> opc e = op_plugin_cb_end ->
  outside true (body ++ e :: post) = outside false post.
Proof using Type.
  intros Hb He. induction Hb as [|o body Ho _ IH]; cbn [app outside].
  - by rewrite bool_decide_eq_true_2.
  - by rewrite bool_decide_eq_false_2.
Qed.

(** Stretches with complete templates leave exactly their guest operations outside. *)
Lemma outside_flatten l : Forall seg_ok l -> outside false (flatten l) = guests l.
Proof using Type.
  induction 1 as [|g l Hg _ IH]; [done|]. change (flatten (g :: l)) with (seg_ops g ++ flatten l).
  change (guests (g :: l)) with (seg_guest g ++ guests l). destruct g as [o|st t body e]; cbn [seg_ops seg_guest app outside].
  - destruct Hg as [Hs _]. rewrite bool_decide_eq_false_2 by done. by rewrite IH.
  - destruct Hg as (Hst & Hb & He & _). rewrite bool_decide_eq_true_2 by (by apply (f_equal opc) in Hst).
    rewrite <- app_assoc. cbn [app]. rewrite outside_body; [done| |done]. by eapply tmpl_body_no_end.
Qed.

Lemma set_other k (f : TCGOp -> TCGOp) l :
  k ∉ map op_id l -> map (fun o => if (op_id o =? k)%nat then f o else o) l = l.
Proof using Type.
  induction l as [|o l IH]; cbn; [done|]. intros [H1 H2]%not_elem_of_cons. rewrite IH by done.
  destruct (Nat.eqb_spec (op_id o) k); [congruence|done].
Qed.

(** Setting an argument of an operation of the guest. *)
Lemma tracked_param k c l1 o l2 a v :
  tracked k c (l1 ++ SGuest o :: l2) ->
  tracked k (tcg_set_insn_param (op_id o) a v c) (l1 ++ SGuest (set_arg a v o) :: l2).
Proof using Type.
  intros [[H1 H2 H3 H4 H5] Hp He].
  assert (ops (tcg_set_insn_param (op_id o) a v c) = flatten l1 ++ set_arg a v o :: flatten l2) as Eo.
  { unfold tcg_set_insn_param. cbn [ops set_ops]. rewrite H1, flatten_app in *.
    change (flatten (SGuest o :: l2)) with (o :: flatten l2) in *. rewrite map_app in *. cbn [map] in *.
    apply list.NoDup_app in H4 as (_ & Hd & [Hn _]%list.NoDup_cons).
    rewrite Nat.eqb_refl, !set_other; [done|done|]. intros Hin. apply (Hd _ Hin), list_elem_of_here. }
  assert (map op_id (ops (tcg_set_insn_param (op_id o) a v c)) = map op_id (ops c)) as Ei.
  { rewrite Eo, H1, flatten_app, !map_app. done. }
  split; [split| |].
  - by rewrite Eo, flatten_app.
  - change (plugin_ops c = starts (l1 ++ SGuest (set_arg a v o) :: l2)). rewrite H2. unfold starts. by rewrite !map_app, !concat_app.
  - apply Forall_app in H3 as [H3 H3']. apply Forall_app. split; [done|]. inversion H3'. by constructor.
  - by rewrite Ei.
  - change (next_id (tcg_set_insn_param (op_id o) a v c)) with (next_id c).
    apply (Forall_map op_id (fun i => (i < next_id c)%nat)). rewrite Ei. by apply Forall_map.
  - by apply placed_guest with o.
  - rewrite enables_app in *. exact He.
Qed.

Lemma exit_grows tb idx c : grows false c (tcg_gen_exit_tb tb idx c).
Proof using Type.
  unfold grows, tcg_gen_exit_tb. eapply rtc_r; [|apply gs_op; split; discriminate]. unfold plugin_gen_disable_mem_helpers.
  destruct (plugin_insn c); [|apply rtc_refl]. destruct (insns (plugin_tb c) !! _); [|apply rtc_refl].
  destruct (negb _); [apply rtc_refl|]. unfold tcg_const, tcg_temp_new.
  eapply rtc_r; [|apply gs_tb; [done|apply length_insert]]. growing.
Qed.

Lemma tb_end_ok tb num k s l :
  tracked k (tcg s) l -> (uses_icount tb = true -> counts l (icount_start_insn (lab s))) ->
  exists s' l',
    gen_tb_end tb num s = Ret s' /\ tracked k (tcg s') l' /\ tags l' = tags l /\ kept (tcg s) (tcg s') /\ db s' = db s /\ tlb s' = tlb s /\
    (uses_icount tb = true -> exists id imm, SGuest (mkOp id op_movi_i32 [imm; u64 num] 0 0) ∈ l').
Proof using pick_fresh pick_temp.
  intros Hl Hc. unfold gen_tb_end. fold (uses_icount tb).
  assert (forall c l0, tracked k c l0 -> kept (tcg s) c -> tags l0 = tags l ->
    let c' := tcg_gen_exit_tb (tb_ptr tb) TB_EXIT_REQUESTED (emit op_set_label [exitreq_label (lab s)] 0 0 c) in
    exists l1, tracked k c' (l0 ++ l1) /\ tags (l0 ++ l1) = tags l /\ kept (tcg s) c') as Hrest.
  { intros c l0 Hl0 Hk0 Ht0 c'. assert (grows false c c') as G.
    { eapply rtc_l; [|apply exit_grows]. apply gs_op. split; discriminate. }
    destruct (grows_adds false k _ _ G) as (m & [K T] & Z); [done|]. rewrite (Z eq_refl) in T.
    destruct (T l0 Hl0) as (l1 & E1 & T1). exists l1. rewrite tags_app, E1, app_nil_r. split_and!; [done..|by eapply kept_trans]. }
  destruct (uses_icount tb).
  - destruct (Hc eq_refl) as (id & imm & v & Hin & ->). cbn [cbind].
    apply list_elem_of_split in Hin as (l1 & l2 & ->).
    pose proof (tracked_param k (tcg s) l1 _ l2 1 (u64 num) Hl) as Hp. cbn [op_id] in Hp.
    destruct (Hrest _ _ Hp) as (l3 & T & Et & K); [done|by rewrite !tags_app|].
    eexists. exists ((l1 ++ SGuest (set_arg 1 (u64 num) (mkOp id op_movi_i32 [imm; v] 0 0)) :: l2) ++ l3).
    split; [reflexivity|]. split_and!; try done. intros _. exists id, imm.
    apply elem_of_app. left. apply elem_of_app. right. apply list_elem_of_here.
  - cbn [cbind]. destruct (Hrest _ _ Hl (kept_refl _) eq_refl) as (l3 & T & Et & K).
    eexists. exists (l ++ l3). split; [reflexivity|]. by split_and!.
Qed.

(** The plugins' part of the begin. *)
Lemma plugin_start_ok cpu tb mask s l :
  Z.testbit mask (ev_bit EV_VCPU_TB_TRANS) = true -> tracked 0 (forget (tcg s)) l -> tlb_ok (tlb s) ->
  exists s' l', plugin_gen_tb_start cpu tb mask s = Ret (true, s') /\ tags l' = [KTbUdata; KTbInline] /\
    tracked 0 (tcg s') (l ++ l') /\ n (plugin_tb (tcg s')) = n (plugin_tb (tcg s)) /\ dyn_arrs (tcg s') = dyn_arrs (tcg s) /\
    db s' = db s /\ lab s' = lab s /\ tlb_ok (tlb s').
Proof using pick_fresh pick_temp fetch_ok.
  intros Hm Hl Ht. unfold plugin_gen_tb_start. rewrite Hm. fold (forget (tcg s)).
  destruct (fetch_ok (tlb s) (mmu_index cpu) (pc tb) (haddr1 (plugin_tb (forget (tcg s)))) (paddr1 (plugin_tb (forget (tcg s)))) Ht)
    as (ra & t & h & p & -> & Ht'). cbn [cbind].
  match goal with |- context [empty_callback FROM_TB ?c] => destruct (block_templates 0 c) as (c' & -> & [[K1 K2 K3 K4] T]) end.
  cbn [cbind]. destruct (T l) as (l' & E & T'); [by apply tracked_tb|]. by exists (mkT (db s) c' (lab s) t (arch s)), l'.
Qed.

(** What is known when the loop starts. *)
Record at_loop (tb : TranslationBlock) (max : Z) (arrs : gmap Z (list qemu_plugin_dyn_cb)) (s : tstate) (l : list seg) : Prop := {
  al_tags : tags l = [KTbUdata; KTbInline];
  al_tracked : tracked 0 (tcg s) l;
  al_begun : begun 0 s;
  al_jmp : is_jmp (db s) = DISAS_NEXT;
  al_max : max_insns (db s) = max;
  al_arrs : dyn_arrs (tcg s) = arrs;
  al_count : uses_icount tb = true -> counts l (icount_start_insn (lab s));
}.

(** What the end needs of the begin and of the loop. *)
Lemma prefix_ok ops cpu tb mask max s :
  arch_ok ops -> Z.testbit mask (ev_bit EV_VCPU_TB_TRANS) = true -> PluginGen.ops (tcg s) = [] ->
  n (plugin_tb (tcg s)) = 0%nat -> tlb_ok (tlb s) ->
  exists s1 s3 s' l,
    init_disas_context ops (set_db s (mkDb (pc tb) (pc tb) DISAS_NEXT 0 max (cpu_singlestep cpu))) = Ret s1 /\
    is_jmp (db s1) = DISAS_NEXT /\ tb_start ops (gen_tb_start tb s1) = Ret s3 /\ is_jmp (db s3) = DISAS_NEXT /\
    plugin_gen_tb_start cpu tb mask s3 = Ret (true, s') /\ at_loop tb max (dyn_arrs (tcg s)) s' l.
Proof using pick_fresh pick_temp fetch_ok.
  intros Hok Hmask Ho Hn Ht. set (s0 := set_db s _).
  assert (tracked 0 (forget (tcg s0)) []) as T0.
  { split; [split|done|done]; cbn; rewrite ?Ho; try done; constructor. }
  destruct (ok_init ops Hok s0 Ht eq_refl) as (s1 & E1 & M1 & J1).
  destruct (quiet_grows _ _ _ (mv_tcg _ _ _ M1) T0) as [K1 (l1 & G1 & T1)].
  destruct (tb_start_tracked tb s1 _ T1) as [K2 (l2 & G2 & T2 & C2)].
  destruct (ok_start ops Hok (gen_tb_start tb s1)) as (s3 & E3 & M3 & J3); [apply (mv_tlb _ _ _ M1)|exact J1|].
  destruct (quiet_grows _ _ _ (mv_tcg _ _ _ M3) T2) as [K3 (l3 & G3 & T3)].
  destruct (plugin_start_ok cpu tb mask s3 _ Hmask T3 (mv_tlb _ _ _ M3)) as (s4 & l4 & E4 & G4 & T4 & N4 & A4 & D4 & L4 & Ht4).
  destruct (kept_trans _ _ _ (kept_trans _ _ _ K1 K2) K3) as [_ Kn _ Ka].
  exists s1, s3, s4. eexists. split_and!; try done. destruct M1, M3. split; try exact T4.
  - rewrite !tags_app, G1, G2, G3, G4. done.
  - split; [rewrite N4, Kn; exact Hn|lia|rewrite D4, mv_num1; exact mv_num0|done].
  - by rewrite D4.
  - rewrite D4, mv_max1. exact mv_max0.
  - rewrite A4, Ka. done.
  - intros Hu. rewrite L4, mv_count1. do 2 apply counts_app. apply C2, Hu.
Qed.

(** The whole block, before the plugins are asked. *)
Lemma block_ok ops cpu tb mask max s :
  arch_ok ops -> Z.testbit mask (ev_bit EV_VCPU_TB_TRANS) = true -> PluginGen.ops (tcg s) = [] ->
  n (plugin_tb (tcg s)) = 0%nat -> tlb_ok (tlb s) -> 0 < max ->
  exists s' l ms m fin m' b,
    translate_block ops cpu tb mask max s = Ret (true, s') /\ tracked (S (List.length ms)) (tcg s') l /\
    tags l = block_tags ms m fin m' /\ begun (S (List.length ms)) s' /\ dyn_arrs (tcg s') = dyn_arrs (tcg s) /\
    Z.of_nat (S (List.length ms)) <= max /\
    (uses_icount tb = true -> exists id imm,
      SGuest (mkOp id op_movi_i32 [imm; u64 (Z.of_nat (S (List.length ms)) - b2z b)] 0 0) ∈ l).
Proof using pick_fresh pick_temp fetch_ok.
  intros Hok Hmask Ho Hn Ht Hmax.
  destruct (prefix_ok ops cpu tb mask max s Hok Hmask Ho Hn Ht) as (s1 & s3 & s4 & l4 & E1 & J1 & E3 & J3 & E4 & [A1 A2 A3 A4 A5 A6 A7]).
  unfold translate_block. rewrite E1. cbn [cbind]. rewrite J1. cbn [Z.eqb DISAS_NEXT cassert cbind]. rewrite E3. cbn [cbind].
  rewrite J3. cbn [Z.eqb DISAS_NEXT cassert cbind]. rewrite E4. cbn [cbind].
  destruct (loop_ok ops cpu tb (Z.to_nat (max_insns (db s4))) false 0 s4) as (s5 & bp & ms & m & fin & -> & G5 & Hle);
    [done..|rewrite A5; cbn; lia|rewrite A5; cbn; lia|]. cbn [cbind]. cbn [Nat.add] in *.
  destruct (ok_stop ops Hok s5 (bg_tlb _ _ (go_begun _ _ _ _ _ G5))) as (s6 & -> & M6). cbn [cbind].
  destruct (goes_moved true _ s5 s6 (go_begun _ _ _ _ _ G5) M6 ltac:(intros _; lia)) as (m' & G6 & _).
  destruct (goes_trans _ _ _ _ _ _ _ _ G5 G6) as [[Bn Bl Bk Bt] T [C1 C2 C3 C4]].
  destruct (T l4 A2) as (l5 & El & Hl).
  destruct (tb_end_ok tb (num_insns (db s6) - b2z bp) _ s6 _ Hl) as (s7 & l7 & -> & T7 & Et & [K1 K2 K3 K4] & D7 & L7 & C7).
  { intros Hu. rewrite C4. apply counts_app, A7, Hu. }
  cbn [cbind]. exists s7, l7, ms, m, fin, m', bp. rewrite Bk in C7. split_and!; try done; try congruence; try lia.
  - rewrite Et, tags_app, A1, El. unfold block_tags. by rewrite <- !app_assoc.
  - split; [congruence|lia|by rewrite D7|by rewrite L7].
Qed.

(** ** Asking the plugins *)

(** A plugin's function registers callbacks; the instructions stay. *)
Definition plugins_ok (l : list call) : Prop :=
  forall k tb w, k ∈ l -> exists tb' w',
    plugin_fn k tb w = Ret (tb', w') /\ List.length (insns tb') = List.length (insns tb).

Lemma run_trans_ok l : plugins_ok l -> forall tb w,
  exists tb' w', run_trans l tb w = Ret (tb', w') /\ List.length (insns tb') = List.length (insns tb).
Proof using Type.
  induction l as [|k l IH]; intros Hl tb w; cbn [run_trans]; [by eauto|].
  destruct (Hl k tb w (list_elem_of_here _ _)) as (tb1 & w1 & -> & E1). cbn [cbind fst snd].
  destruct (IH (fun k' tb w H => Hl k' tb w (list_elem_of_further _ _ _ H)) tb1 w1) as (tb' & w' & E & E'). exists tb', w'.
  split; [done|congruence].
Qed.

(** C3: translation of a block with plugins.  For every architecture that emits
    code through the interface and every plugin that only registers callbacks,
    [translator_loop] returns within [max_insns] turns.  What was emitted is a
    sequence of guest operations and of complete templates, each from its begin marker
    through exactly its own operations to its end marker, so that the guest operations
    are all those outside templates; the templates are the two of the block,
    the three of every instruction before its code, two per memory access, and one
    behind every instruction but possibly the last.  The final code is that
    sequence, every guest operation unchanged and in its place, with every template
    replaced by the code of the callbacks the plugins asked for at the instruction it
    belongs to; no marker is left; the block's instruction count is right, also in
    the operation that counts down (less an instruction with a breakpoint); and the
    record is ready for the next block. *)
Theorem translator_loop_instruments ops cpu tb plugins mask tb_addr max s w calls :
  arch_ok ops -> plugins_ok calls -> qemu_plugin_tb_trans_cb tb_addr plugins = Ret calls ->
  Z.testbit mask (ev_bit EV_VCPU_TB_TRANS) = true -> PluginGen.ops (tcg s) = [] ->
  n (plugin_tb (tcg s)) = 0%nat -> tlb_ok (tlb s) -> 0 < max ->
  exists s1 l ms m fin m' asked s' tb' w',
    translate_block ops cpu tb mask max s = Ret (true, s1) /\ PluginGen.ops (tcg s1) = flatten l /\
    Forall seg_ok l /\ outside false (PluginGen.ops (tcg s1)) = guests l /\
    tags l = block_tags ms m fin m' /\ n (plugin_tb (tcg s1)) = S (List.length ms) /\ Z.of_nat (S (List.length ms)) <= max /\
    run_trans calls (plugin_tb (tcg s1)) w = Ret (asked, w') /\
    translator_loop ops cpu tb plugins mask tb_addr max s w = Ret (s', tb', w') /\
    map strip (PluginGen.ops (tcg s')) =
      (expand cpu_env off_cpu_index off_mem_cbs new_arr asked (-1) (dyn_arrs (tcg s)) l).1 /\
    Forall plain (PluginGen.ops (tcg s')) /\ icount tb' = u16 (Z.of_nat (S (List.length ms))) /\
    (uses_icount tb = true -> exists id imm b,
      SGuest (mkOp id op_movi_i32 [imm; u64 (Z.of_nat (S (List.length ms)) - b2z b)] 0 0) ∈ l) /\
    n (plugin_tb (tcg s')) = 0%nat /\ plugin_insn (tcg s') = None.
Proof using pick_fresh pick_temp fetch_ok new_arr_fresh.
  intros Hok Hp Hcalls Hmask Ho Hn Ht Hmax.
  destruct (block_ok ops cpu tb mask max s Hok Hmask Ho Hn Ht Hmax)
    as (s1 & l & ms & m & fin & m' & b & E1 & [Hsh Hpl He] & Etags & [Bn Bl Bk Bt] & Ea & Hle & Hc).
  destruct (run_trans_ok calls Hp (plugin_tb (tcg s1)) w) as (asked & w' & Er & El).
  destruct (inject_block_ok cpu_env off_cpu_index off_mem_cbs helper_udata helper_mem new_arr new_arr_fresh
    (set_tb (tcg s1) asked) l) as (c & Ei & Hops & _ & _ & Hplain).
  { destruct Hsh as [H1 H2 H3 H4 H5]. by split. }
  { cbn [plugin_tb set_tb]. by rewrite El. }
  cbn [plugin_tb set_tb dyn_arrs] in Hops. rewrite Ea in Hops.
  exists s1, l, ms, m, fin, m', asked. do 2 eexists. exists w'. unfold translator_loop. rewrite E1. cbn [cbind].
  unfold plugin_gen_tb_end. rewrite Hcalls. cbn [cbind]. rewrite Er. cbn [cbind fst snd]. rewrite Ei. cbn [cbind].
  pose proof (sh_ops _ _ _ _ _ _ _ Hsh) as Hfl. pose proof (sh_ok _ _ _ _ _ _ _ Hsh) as Hok'.
  split_and!; try reflexivity; try done; [rewrite Hfl; by apply outside_flatten|cbn; by rewrite Bk|].
  intros Hu. destruct (Hc Hu) as (id & imm & H). by exists id, imm, b.
Qed.

(** ** The interface an architecture emits code through *)

Lemma append_grows mem bytes c : grows mem c (plugin_insn_append bytes c).
Proof using Type.
  unfold plugin_insn_append. destruct (plugin_insn c); [|apply rtc_refl]. apply rtc_once, gs_tb; [done|].
  cbn [insns set_insns]. apply length_alter.
Qed.

(** A guest access: the address is saved, the access made, and announced. *)
Lemma access_grows addr info op a c :
  plain (ins op a) ->
  let '(t, c1) := plugin_prep_mem_callbacks pick addr c in
  grows true c (plugin_gen_mem_callbacks pick cpu_env off_cpu_index helper_mem t info (emit op a 0 0 c1)).
Proof using Type.
  intros Hop. unfold plugin_prep_mem_callbacks. destruct (plugin_insn c) as [k|] eqn:Ek.
  - unfold tcg_temp_new, tcg_gen_extu_tl_i64. eapply rtc_r; [|apply gs_mem; [done|]].
    + eapply rtc_r; [|by apply gs_op]. eapply rtc_l; [apply gs_live|].
      destruct (_ =? _); [apply rtc_refl|]. apply rtc_once, gs_op. split; discriminate.
    + destruct (_ =? _); cbn [emit live set_ops set_live]; apply elem_of_union_l, elem_of_singleton; done.
  - unfold plugin_gen_mem_callbacks. cbn [emit plugin_insn set_ops]. rewrite Ek. by apply rtc_once, gs_op.
Qed.

(** ** Memory helpers *)

(** [mem_helper] is decided when the callbacks are injected, so the code that
    leaves a block never turns memory callbacks off: between the begin of an
    instruction and the end of the block there is nothing to undo. *)
Lemma disable_does_nothing cpu s s' :
  (n (plugin_tb (tcg s)) <= List.length (insns (plugin_tb (tcg s))))%nat -> plugin_gen_insn_start cpu s = Ret s' ->
  plugin_gen_disable_mem_helpers pick cpu_env off_mem_cbs (tcg s') = tcg s'.
Proof using pick_fresh pick_temp.
  intros Hle. unfold plugin_gen_insn_start.
  destruct (qemu_plugin_tb_insn_get (plugin_tb (tcg s))) as [k ptb] eqn:Eg.
  assert (forall i, insns ptb !! k = Some i -> mem_helper i = false) as Hk.
  { unfold qemu_plugin_tb_insn_get in Eg. injection Eg as <- <-. cbn [insns set_insns]. intros i.
    rewrite list_lookup_alter_eq. intros (i0 & _ & ->)%fmap_Some. done. }
  destruct (insn_get_len _ _ _ Eg Hle) as (-> & _ & _ & Hl).
  destruct (insn_templates _ (set_insn (set_tb (tcg s) ptb) (Some (n (plugin_tb (tcg s))))) Hl) as (c & -> & [[K1 _ _ _] _]).
  cbn [cbind]. intros ([t ptb'] & H1 & H)%cbind_Ret.
  assert (insns ptb' = insns ptb) as Ei.
  { destruct (_ && _); [apply cbind_Ret in H1 as ([[[ra t0] h] p] & _ & H1)|]; by injection H1 as <- <-. }
  rewrite <- Ei in Hk. clear Hl Eg Ei H1.
  destruct (vaddr2 ptb' =? 2 ^ 64 - 1); injection H as <-; unfold plugin_gen_disable_mem_helpers;
    cbn [tcg plugin_insn set_tb plugin_tb set_insns insns set_insn] in *; rewrite K1, list_lookup_alter_eq;
    (destruct (insns ptb' !! _) as [i|]; [cbn; rewrite (Hk i eq_refl)|]); done.
Qed.

(** ** Physical addresses of instructions *)

Section Addresses.
Context (try_alloc : Z -> bool) (translate : Z -> Z -> Z -> Z -> SoftTlb.MemoryRegionSection * Z * Z * Z).
Context (byte_swap is_clean : Z -> bool) (watchpoint : Z -> Z).

Definition in_page (a : Z) : Z := Z.land a (not64 SoftTlb.TARGET_PAGE_MASK).

Lemma page_split a : 0 <= a < 2 ^ 64 -> a = SoftTlb.page_of a + in_page a.
Proof using Type.
  intros Ha. rewrite SoftTlb.page_of_shift by done. unfold in_page.
  change (not64 SoftTlb.TARGET_PAGE_MASK) with (Z.ones 12). rewrite Z.land_ones, Z.shiftl_mul_pow2, Z.shiftr_div_pow2 by lia.
  pose proof (Z.div_mod a (2 ^ 12)). lia.
Qed.

(** An address on the page of a reference whose physical address is known. *)
Lemma same_page_paddr va ref pg :
  0 <= va < 2 ^ 64 -> 0 <= ref < 2 ^ 64 -> SoftTlb.page_of va = SoftTlb.page_of ref ->
  u64 (u64 (in_page ref + pg) + va - ref) = u64 (in_page va + pg).
Proof using Type.
  intros Hv Hr Hp. pose proof (page_split va Hv) as E1. pose proof (page_split ref Hr) as E2.
  unfold u64. rewrite <- Z.add_sub_assoc, Zplus_mod_idemp_l. f_equal. lia.
Qed.

(** The block began at [pcf], on the physical page [pg1]; the addresses behind
    the end of its page, if any was met, are relative to [v2] on [pg2]. *)
Record located (pcf pg1 : Z) (second : option (Z * Z)) (ptb : qemu_plugin_tb) : Prop := {
  lo_va : tb_vaddr ptb = pcf;
  lo_pa : paddr1 ptb = u64 (in_page pcf + pg1);
  lo_ha : haddr1 ptb <> 0;
  lo_second :
    match second with
    | None => vaddr2 ptb = 2 ^ 64 - 1
    | Some (v2, pg2) => vaddr2 ptb = v2 /\ 0 <= v2 < 2 ^ 64 - 1 /\ paddr2 ptb = u64 (in_page v2 + pg2)
    end;
}.

(** A look-up at the begin of a block, or of its second page, found RAM. *)
Definition finds (cpu : CPUState) (t : SoftTlb.CPUTLB) (va h p : Z) : Prop :=
  exists ra t' h' p', SoftTlb.get_page_addr_code_hostp tlb_fill ram_addr_from_host t (mmu_index cpu) va h p = Ret (ra, t', h', p') /\
    ra <> 2 ^ 64 - 1.

(** The physical page of the instruction at [va]: the block's first page, the
    second one met before, or one that is entered now. *)
Inductive page_for (cpu : CPUState) (inst inst' : SoftTlb.installed) (pcf pg1 va : Z)
  : option (Z * Z) -> Z -> option (Z * Z) -> Prop :=
| on_first : SoftTlb.page_of va = SoftTlb.page_of pcf -> inst' = inst -> page_for cpu inst inst' pcf pg1 va None pg1 None
| on_second v2 pg2 : SoftTlb.page_of va = SoftTlb.page_of v2 -> inst' = inst ->
    page_for cpu inst inst' pcf pg1 va (Some (v2, pg2)) pg2 (Some (v2, pg2))
| crossing pg2 sz : SoftTlb.page_of va <> SoftTlb.page_of pcf ->
    inst' (mmu_index cpu) (SoftTlb.page_of va) = Some (pg2, sz) ->
    page_for cpu inst inst' pcf pg1 va None pg2 (Some (va, pg2)).

(** The begin of a block on RAM makes the record right. *)
Lemma tb_start_located cpu tb mask s s' inst ra t' h p :
  SoftTlb.fill_ok try_alloc translate byte_swap is_clean watchpoint tlb_fill -> SoftTlb.tlb_inv inst (tlb s) ->
  0 <= mmu_index cpu < 3 -> 0 <= pc tb < 2 ^ 64 ->
  SoftTlb.get_page_addr_code_hostp tlb_fill ram_addr_from_host (tlb s) (mmu_index cpu) (pc tb)
    (haddr1 (plugin_tb (tcg s))) (paddr1 (plugin_tb (tcg s))) = Ret (ra, t', h, p) ->
  ra <> 2 ^ 64 - 1 -> h <> 0 -> plugin_gen_tb_start cpu tb mask s = Ret (true, s') ->
  exists ops pg sz, Forall SoftTlb.tlb_op_ok ops /\ SoftTlb.tlb_inv (SoftTlb.spec_run ops inst) (tlb s') /\
    SoftTlb.spec_run ops inst (mmu_index cpu) (SoftTlb.page_of (pc tb)) = Some (pg, sz) /\
    located (pc tb) pg None (plugin_tb (tcg s')).
Proof using pick_fresh pick_temp.
  intros Hfill Hinv Hmmu Hpc El Hra Hh. unfold plugin_gen_tb_start. destruct (Z.testbit _ _); [|done].
  change (plugin_tb (set_plugin_ops (tcg s) [])) with (plugin_tb (tcg s)). rewrite El. cbn [cbind].
  destruct (SoftTlb.code_lookup_sound _ _ _ _ _ _ _ _ _ _ _ _ _ _ _ _ _ Hinv Hfill Hmmu Hpc El)
    as (ops & Hops & Hinv' & [[_ ?]|(pg & sz & Hsz & ->)]); [done|].
  intros (c & Hc & H)%cbind_Ret. injection H as <-. exists ops, pg, sz. split_and!; try done.
  unfold empty_callback, plugin_gen_empty_callback in Hc. injection Hc as <-. by split.
Qed.

(** What the begin of an instruction does to the record of the block. *)
Lemma insn_start_record cpu s s' :
  (n (plugin_tb (tcg s)) <= List.length (insns (plugin_tb (tcg s))))%nat -> plugin_gen_insn_start cpu s = Ret s' ->
  exists ptb2 i,
    (let ptb := (qemu_plugin_tb_insn_get (plugin_tb (tcg s))).2 in
     if negb (haddr1 ptb =? 0) && (vaddr2 ptb =? 2 ^ 64 - 1) &&
        negb (SoftTlb.page_of (pc_next (db s)) =? SoftTlb.page_of (pc_first (db s))) then
       let* r := SoftTlb.get_page_addr_code_hostp tlb_fill ram_addr_from_host (tlb s) (mmu_index cpu) (pc_next (db s))
                   (haddr2 ptb) (paddr2 ptb) in
       let '(_, t, h, p) := r in
       Ret (t, set_block ptb (tb_vaddr ptb) (pc_next (db s)) (paddr1 ptb) p (haddr1 ptb) h)
     else Ret (tlb s, ptb)) = Ret (tlb s', ptb2) /\
    (forall pcf pg1 second, located pcf pg1 second ptb2 -> located pcf pg1 second (plugin_tb (tcg s'))) /\
    insns (plugin_tb (tcg s')) !! n (plugin_tb (tcg s)) = Some i /\ vaddr i = pc_next (db s) /\
    paddr i = if vaddr2 ptb2 =? 2 ^ 64 - 1 then u64 (paddr1 ptb2 + pc_next (db s) - tb_vaddr ptb2)
              else u64 (paddr2 ptb2 + pc_next (db s) - vaddr2 ptb2).
Proof using pick_fresh pick_temp.
  intros Hle. unfold plugin_gen_insn_start.
  destruct (qemu_plugin_tb_insn_get (plugin_tb (tcg s))) as [k ptb] eqn:Eg. cbn [snd].
  destruct (insn_get_len _ _ _ Eg Hle) as (-> & _ & _ & Hl).
  destruct (insn_templates _ (set_insn (set_tb (tcg s) ptb) (Some (n (plugin_tb (tcg s))))) Hl) as (c & -> & _).
  cbn [cbind]. intros ([t ptb'] & H1 & H)%cbind_Ret.
  assert (insns ptb' = insns ptb) as Ei.
  { destruct (_ && _); [apply cbind_Ret in H1 as ([[[ra t0] h] p] & _ & H1)|]; by injection H1 as <- <-. }
  rewrite <- Ei in Hl. apply lookup_lt_is_Some in Hl as [i Hi].
  assert (forall v pa ha, insns (set_insns ptb' (alter (fun i => start_insn i v pa ha) (n (plugin_tb (tcg s))) (insns ptb')) (n ptb'))
    !! n (plugin_tb (tcg s)) = Some (start_insn i v pa ha)) as Ha.
  { intros v pa ha. cbn [insns set_insns]. by rewrite list_lookup_alter_eq, Hi. }
  exists ptb'. destruct (vaddr2 ptb' =? 2 ^ 64 - 1) eqn:E2; injection H as <-; eexists;
    (split; [exact H1|split; [by intros pcf pg1 second []; split|split; [apply Ha|done]]]).
Qed.

(** C14: the physical address recorded for an instruction is right.  In a block
    that began on RAM, for an instruction on the block's first page, on a second
    page met before, or on a second page that this instruction is the first to
    reach, the address recorded is the instruction's offset in its page on the
    physical page of the block's begin, of the page met before, or of the
    translation in force; and the record stays right for the next
    instruction. *)
Theorem insn_paddr_correct cpu s s' inst pcf pg1 second va :
  SoftTlb.fill_ok try_alloc translate byte_swap is_clean watchpoint tlb_fill -> SoftTlb.tlb_inv inst (tlb s) ->
  0 <= mmu_index cpu < 3 -> (n (plugin_tb (tcg s)) <= List.length (insns (plugin_tb (tcg s))))%nat ->
  located pcf pg1 second (plugin_tb (tcg s)) -> pc_first (db s) = pcf -> 0 <= pcf < 2 ^ 64 ->
  pc_next (db s) = va -> 0 <= va < 2 ^ 64 - 1 ->
  match second with
  | None => SoftTlb.page_of va <> SoftTlb.page_of pcf ->
      finds cpu (tlb s) va (haddr2 (plugin_tb (tcg s))) (paddr2 (plugin_tb (tcg s)))
  | Some (v2, _) => SoftTlb.page_of va = SoftTlb.page_of v2
  end ->
  plugin_gen_insn_start cpu s = Ret s' ->
  exists i pg second' ops, Forall SoftTlb.tlb_op_ok ops /\
    insns (plugin_tb (tcg s')) !! n (plugin_tb (tcg s)) = Some i /\ vaddr i = va /\ paddr i = u64 (in_page va + pg) /\
    page_for cpu inst (SoftTlb.spec_run ops inst) pcf pg1 va second pg second' /\
    located pcf pg1 second' (plugin_tb (tcg s')) /\ SoftTlb.tlb_inv (SoftTlb.spec_run ops inst) (tlb s').
Proof using pick_fresh pick_temp.
  intros Hfill Hinv Hmmu Hle [L1 L2 L3 L4] Hpcf Hpr Hva Hvr Hcase Hs.
  destruct (insn_start_record cpu s s' Hle Hs) as (ptb2 & i & H1 & Hloc & Hi & Hiv & Hip). rewrite Hva, Hpcf in *.
  assert (forall f : qemu_plugin_tb -> Z, (forall b l k, f (set_insns b l k) = f b) ->
    f (qemu_plugin_tb_insn_get (plugin_tb (tcg s))).2 = f (plugin_tb (tcg s))) as Hf by (intros f Hf; apply Hf).
  cbv zeta in H1. rewrite !(Hf haddr1), !(Hf vaddr2), !(Hf haddr2), !(Hf paddr2), !(Hf tb_vaddr), !(Hf paddr1) in H1 by done.
  rewrite (proj2 (Z.eqb_neq _ _) L3) in H1. cbn [negb andb] in H1.
  set (ptb := (qemu_plugin_tb_insn_get (plugin_tb (tcg s))).2) in *.
  assert (forall sec, match sec with
    | None => vaddr2 (plugin_tb (tcg s)) = 2 ^ 64 - 1
    | Some (v2, pg2) => vaddr2 (plugin_tb (tcg s)) = v2 /\ 0 <= v2 < 2 ^ 64 - 1 /\ paddr2 (plugin_tb (tcg s)) = u64 (in_page v2 + pg2)
    end -> located pcf pg1 sec ptb) as Hsame.
  { intros sec Hsec. split; try done. }
  destruct second as [[v2 pg2]|].
  - destruct L4 as (E2 & Hr2 & P2). rewrite E2, (proj2 (Z.eqb_neq v2 (2 ^ 64 - 1)) ltac:(lia)) in H1. cbn [andb] in H1. injection H1 as Et <-.
    exists i, pg2, (Some (v2, pg2)), []. rewrite Et in Hinv. split_and!; try done; [|by apply on_second|by apply Hloc, Hsame].
    change (vaddr2 ptb) with (vaddr2 (plugin_tb (tcg s))) in Hip. rewrite E2, (proj2 (Z.eqb_neq v2 (2 ^ 64 - 1)) ltac:(lia)) in Hip.
    change (paddr2 ptb) with (paddr2 (plugin_tb (tcg s))) in Hip. rewrite P2, same_page_paddr in Hip by (done || lia). done.
  - rewrite L4, Z.eqb_refl in H1. cbn [andb] in H1. destruct (Z.eqb_spec (SoftTlb.page_of va) (SoftTlb.page_of pcf)) as [Ep|Ep].
    + injection H1 as Et <-. exists i, pg1, None, []. rewrite Et in Hinv.
      split_and!; try done; [|by apply on_first|by apply Hloc, Hsame].
      change (vaddr2 ptb) with (vaddr2 (plugin_tb (tcg s))) in Hip. rewrite L4, Z.eqb_refl in Hip.
      change (paddr1 ptb) with (paddr1 (plugin_tb (tcg s))) in Hip. change (tb_vaddr ptb) with (tb_vaddr (plugin_tb (tcg s))) in Hip.
      rewrite L1, L2, same_page_paddr in Hip by (done || lia). done.
    + cbn [negb] in H1. destruct (Hcase Ep) as (ra & t' & h' & p' & El & Hra). rewrite El in H1. cbn [cbind] in H1. injection H1 as <- <-.
      assert (0 <= va < 2 ^ 64) as Hv64 by lia.
      destruct (SoftTlb.code_lookup_sound _ _ _ _ _ _ _ _ _ _ _ _ _ _ _ _ _ Hinv Hfill Hmmu Hv64 El)
        as (ops & Hops & Hinv' & [[_ ?]|(pg & sz & Hsz & Hp)]); [done|].
      exists i, pg, (Some (va, pg)), ops. cbn [set_block vaddr2 paddr2] in Hip. rewrite (proj2 (Z.eqb_neq va (2 ^ 64 - 1)) ltac:(lia)) in Hip.
      fold (in_page va) in Hp. rewrite Hp, same_page_paddr in Hip by (done || lia).
      split_and!; try done; [by eapply crossing|]. apply Hloc. by split.
Qed.

End Addresses.

End Translate.

(** ** A block of two instructions *)

(** Each instruction fetches a byte and loads; the second ends the block. *)
Definition demo_pick (l : gset Z) : Z := fresh (l ∪ {[0x900; 0x908]}).
Definition demo_load (s : tstate (X := unit)) : cres tstate :=
  let c := plugin_insn_append [0x8b] (tcg s) in
  let '(t, c) := plugin_prep_mem_callbacks demo_pick 50 c in
  let c := emit (op_guest 11) [51; 50] 0 0 c in
  let c := plugin_gen_mem_callbacks demo_pick 1 8 0x908 t 0 c in
  let b := db s in
  let b := mkDb (pc_first b) (pc_next b + 1) (if num_insns b =? 2 then 2 else is_jmp b) (num_insns b) (max_insns b)
    (singlestep_enabled b) in
  Ret (set_db (set_tcg s c) b).
Definition demo_arch : TranslatorOps (X := unit) :=
  mkOps Ret Ret (fun s => Ret (set_tcg s (emit (op_guest 10) [pc_next (db s)] 0 0 (tcg s)))) (fun _ s => Ret (true, s))
    demo_load Ret.

(** The plugin asks to be called at every instruction of the block. *)
Definition demo_plugin (k : call) (tb : qemu_plugin_tb) (w : unit) : cres (qemu_plugin_tb * unit) :=
  Ret (set_insns tb (map (fun i => qemu_plugin_register_vcpu_insn_exec_cb i 0x100 CB_NO_REGS (vaddr i)) (insns tb)) (n tb), w).

Definition demo_plugins_tb : qemu_plugin_state :=
  match qemu_plugin_register_vcpu_tb_trans_cb 0x9000 11 77 demo_plugins with Ret s => s | Abort _ => demo_plugins end.
Definition demo_cpu : CPUState := mkCpu 0 [] false 0.
Definition demo_tb : TranslationBlock := mkTb 0x7000 0x400 CF_USE_ICOUNT 0 0.

(** The context with the records that earlier blocks left. *)
Definition demo_state (left : list qemu_plugin_insn) (k : nat) : tstate :=
  mkT (mkDb 0 0 0 0 0 false) (mkTcg [] [5%nat] 7 {[1; 50; 51]} (mkPTb left k 0 0 0 0 0 0 [] []) None ∅)
    (mkLabels 0 0 None) SoftTlb.demo_tlb0 tt.

Definition demo_fill (t : SoftTlb.CPUTLB) (m a : Z) : cres SoftTlb.CPUTLB := Ret t.
Definition demo_loop (s : tstate) : cres (tstate * TranslationBlock * unit) :=
  translator_loop demo_pick 1 8 16 24 32 40 0x900 0x908 demo_new_arr demo_fill (fun _ => 0) false demo_plugin
    demo_arch demo_cpu demo_tb demo_plugins_tb 4 0x6000 64 s tt.

Lemma demo_pick_fresh l : demo_pick l ∉ l.
Proof. unfold demo_pick. pose proof (is_fresh (l ∪ {[0x900; 0x908]})) as H. intros Hin. apply H. apply elem_of_union. by left. Qed.

Lemma demo_pick_temp l : not_stub 0x900 0x908 (demo_pick l).
Proof.
  unfold demo_pick, not_stub. pose proof (is_fresh (l ∪ {[0x900; 0x908]})) as H.
  split; intros E; rewrite E in H; apply H, elem_of_union; right; apply elem_of_union; [left|right]; by apply elem_of_singleton.
Qed.

(** An empty TLB answers every fetch with -1. *)
Lemma empty_misses a x : Z.testbit x 11 = true -> SoftTlb.tlb_hit x a = false.
Proof.
  intros Hx. unfold SoftTlb.tlb_hit, SoftTlb.tlb_hit_page. apply Z.eqb_neq. intros E.
  apply (f_equal (fun z => Z.testbit z 11)) in E. rewrite !Z.land_spec, Hx in E.
  change (Z.testbit SoftTlb.TARGET_PAGE_MASK 11) with false in E.
  change (Z.testbit (Z.lor SoftTlb.TARGET_PAGE_MASK SoftTlb.TLB_INVALID_MASK) 11) with true in E.
  by rewrite andb_false_r in E.
Qed.

Lemma demo_fetch_ok t m a h p :
  t = SoftTlb.demo_tlb0 -> exists ra t' h' p',
    SoftTlb.get_page_addr_code_hostp demo_fill (fun _ => 0) t m a h p = Ret (ra, t', h', p') /\ t' = SoftTlb.demo_tlb0.
Proof.
  intros ->. unfold SoftTlb.get_page_addr_code_hostp.
  change (SoftTlb.tlb_entry SoftTlb.demo_tlb0 m a) with SoftTlb.empty_entry. rewrite empty_misses by done.
  assert (forall k v i, SoftTlb.victim_loop k v SoftTlb.demo_tlb0 m i SoftTlb.addr_code (Z.land a SoftTlb.TARGET_PAGE_MASK) =
    (false, SoftTlb.demo_tlb0)) as Hv.
  { intros k. induction k as [|k IH]; intros v i; cbn [SoftTlb.victim_loop]; [done|].
    pose proof (empty_misses a (2 ^ 64 - 1) eq_refl) as E. cbn [SoftTlb.d SoftTlb.demo_tlb0 SoftTlb.vtable].
    destruct (Z.eqb_spec (SoftTlb.addr_code SoftTlb.empty_entry) (Z.land a SoftTlb.TARGET_PAGE_MASK)) as [E'|]; [|apply IH].
    apply (f_equal (fun z => Z.testbit z 11)) in E'. rewrite Z.land_spec in E'.
    change (Z.testbit SoftTlb.TARGET_PAGE_MASK 11) with false in E'. by rewrite andb_false_r in E'. }
  unfold SoftTlb.victim_tlb_hit. rewrite Hv. by do 4 eexists.
Qed.

Lemma demo_arch_ok : arch_ok demo_pick 1 8 0x908 (fun t => t = SoftTlb.demo_tlb0) demo_arch.
Proof.
  assert (forall mem (s : tstate (X := unit)), tlb s = SoftTlb.demo_tlb0 -> moved demo_pick 1 8 0x908 (fun t => t = SoftTlb.demo_tlb0) mem s s)
    as Hr by (intros; by apply moved_refl).
  split; cbn [init_disas_context tb_start insn_start breakpoint_check translate_insn tb_stop demo_arch].
  - intros s Ht Hj. eexists. split; [reflexivity|]. auto.
  - intros s Ht Hj. eexists. split; [reflexivity|]. auto.
  - intros s Ht Hj. eexists. split; [reflexivity|]. split; [|done]. split; try done. apply rtc_once, gs_op. by split.
  - intros bp s Ht. eauto.
  - intros s Ht. unfold demo_load.
    pose proof (append_grows demo_pick 1 8 0x908 true [0x8b] (tcg s)) as G1.
    pose proof (access_grows demo_pick 1 8 0x908 50 0 (op_guest 11) [51; 50] (plugin_insn_append [0x8b] (tcg s)) ltac:(by split)) as G2.
    destruct (plugin_prep_mem_callbacks demo_pick 50 _) as [t c]. eexists. split; [reflexivity|].
    split; try done. by etrans; [exact G1|exact G2].
  - intros s Ht. eauto.
Qed.

Lemma translator_loop_instruments_witness :
  exists s1 l ms m fin m' asked s' tb' w',
    translate_block demo_pick 1 8 16 24 32 40 0x900 demo_fill (fun _ => 0) false demo_arch demo_cpu demo_tb 4 64 (demo_state [] 0) =
      Ret (true, s1) /\ PluginGen.ops (tcg s1) = flatten l /\ Forall (seg_ok 1 8 16 0x900 0x908) l /\
    outside false (PluginGen.ops (tcg s1)) = guests l /\ tags l = block_tags ms m fin m' /\
    n (plugin_tb (tcg s1)) = S (List.length ms) /\ Z.of_nat (S (List.length ms)) <= 64 /\
    run_trans demo_plugin [(77, [11; 0x6000])] (plugin_tb (tcg s1)) tt = Ret (asked, w') /\
    demo_loop (demo_state [] 0) = Ret (s', tb', w') /\
    map strip (PluginGen.ops (tcg s')) = (expand 1 8 16 demo_new_arr asked (-1) ∅ l).1 /\
    Forall plain (PluginGen.ops (tcg s')) /\ icount tb' = u16 (Z.of_nat (S (List.length ms))) /\
    (uses_icount demo_tb = true -> exists id imm b,
      SGuest (mkOp id op_movi_i32 [imm; u64 (Z.of_nat (S (List.length ms)) - b2z b)] 0 0) ∈ l) /\
    n (plugin_tb (tcg s')) = 0%nat /\ plugin_insn (tcg s') = None.
Proof.
  apply (translator_loop_instruments demo_pick 1 8 16 24 32 40 0x900 0x908 demo_new_arr demo_fill (fun _ => 0) false demo_plugin
    demo_pick_fresh demo_pick_temp demo_new_arr_fresh (fun t => t = SoftTlb.demo_tlb0) demo_fetch_ok
    demo_arch demo_cpu demo_tb demo_plugins_tb 4 0x6000 64 (demo_state [] 0) tt [(77, [11; 0x6000])]).
  - exact demo_arch_ok.
  - intros k tb w _. do 2 eexists. split; [reflexivity|]. apply length_map.
  - vm_compute. reflexivity.
  - reflexivity.
  - reflexivity.
  - reflexivity.
  - reflexivity.
  - lia.
Defined.

(** A block that began at 0x3ffff8 reaches the page at 0x400000. *)
Definition demo_crossing : tstate (X := unit) :=
  mkT (mkDb 0x3ffff8 0x400456 0 1 64 false)
    (mkTcg [] [] 7 {[1]} (mkPTb [] 0 0x3ffff8 (2 ^ 64 - 1) (u64 (in_page 0x3ffff8 + 0x77000)) 0 0x7f00 0 [] []) None ∅)
    (mkLabels 0 0 None) SoftTlb.demo_tlb tt.
Definition demo_crossed : tstate (X := unit) :=
  match plugin_gen_insn_start demo_pick 1 8 16 0x900 demo_fill (fun _ => 0) demo_cpu demo_crossing with
  | Ret s => s
  | Abort _ => demo_crossing
  end.

Lemma insn_paddr_correct_witness :
  exists i pg second' ops, Forall SoftTlb.tlb_op_ok ops /\
    insns (plugin_tb (tcg demo_crossed)) !! 0%nat = Some i /\ vaddr i = 0x400456 /\ paddr i = u64 (in_page 0x400456 + pg) /\
    page_for demo_cpu (SoftTlb.spec_run SoftTlb.demo_ops (fun _ _ => None))
      (SoftTlb.spec_run ops (SoftTlb.spec_run SoftTlb.demo_ops (fun _ _ => None))) 0x3ffff8 0x77000 0x400456 None pg second' /\
    located 0x3ffff8 0x77000 second' (plugin_tb (tcg demo_crossed)) /\
    SoftTlb.tlb_inv (SoftTlb.spec_run ops (SoftTlb.spec_run SoftTlb.demo_ops (fun _ _ => None))) (tlb demo_crossed).
Proof.
  apply (insn_paddr_correct demo_pick 1 8 16 0x900 0x908 demo_fill (fun _ => 0) demo_pick_fresh demo_pick_temp
    (fun _ => true) SoftTlb.demo_translate (fun _ => false) (fun _ => false) (fun _ => 0)
    demo_cpu demo_crossing demo_crossed (SoftTlb.spec_run SoftTlb.demo_ops (fun _ _ => None)) 0x3ffff8 0x77000 None 0x400456).
  - intros t m a t' [= <-]. by exists [].
  - apply (SoftTlb.run_inv (fun _ => true) SoftTlb.demo_translate (fun _ => false) (fun _ => false) (fun _ => 0) SoftTlb.demo_ops _
      (SoftTlb.tlb_init SoftTlb.demo_tlb0 0)); [|apply SoftTlb.init_inv|vm_compute; reflexivity].
    repeat constructor; cbn; try lia; try tauto; unfold SoftTlb.TARGET_PAGE_SIZE, SoftTlb.TARGET_PAGE_BITS; lia.
  - cbn. lia.
  - cbn. lia.
  - split; [reflexivity..|done|reflexivity].
  - reflexivity.
  - lia.
  - reflexivity.
  - lia.
  - intros _. do 4 eexists. split; [vm_compute; reflexivity|discriminate].
  - vm_compute. reflexivity.
Defined.

(** The values passed to the plugin, one per instruction. *)
Definition passed (s : tstate (X := unit)) : list Z :=
  concat (map (fun o => if bool_decide (opc o = op_movi_i64) then [nth 1 (args o) 0] else []) (PluginGen.ops (tcg s))).

(** The number of records is only reset at the end of a block.  When a fetch
    faults, the translator is left before that, and the next block's code is
    instrumented with the records of the abandoned one: the first instruction,
    at 0x400, calls the plugin with the data of the abandoned one, at 0x700, and
    the second with the data of the first. *)
Theorem stale_records_shift :
  (exists s' tb', demo_loop (demo_state [] 0) = Ret (s', tb', tt) /\ passed s' = [0x400; 0x401]) /\
  exists s' tb',
    demo_loop (demo_state [mkPInsn [] 0x700 0 0 [] [] [] [] false false 0 0] 1) = Ret (s', tb', tt) /\
    passed s' = [0x700; 0x400].
Proof. split; (do 2 eexists; split; [vm_compute; reflexivity|vm_compute; reflexivity]). Qed.

End Translator.
