(* ===== verification/SimUtil.v ===== *)
(** * ChampSim: shared utilities

    inc/util.h and the parts of the standard algorithms it is used with
    ([Module Util]), and the packets and blocks of the memory hierarchy of
    inc/block.h and inc/memory_class.h ([Module Mem]). *)

From stdpp Require Import sorting.
From S2P Require Import Prelude.

(** The constants of the generated header champsim_constants.h that the memory
    system uses.  They come from the configuration of a build. *)
Class Config := {
  BLOCK_SIZE : Z;
  PAGE_SIZE : Z;
  NUM_CPUS : Z;
}.

Module Util.

(** ** Bits (inc/util.h) *)

(** [lg2] halves its argument until it is below 2; 64 turns are enough for a
    [uint64_t]. *)
Fixpoint lg2_rec (turns : nat) (n : Z) : Z :=
  match turns with
  | O => 0
  | S turns => if n <? 2 then 0 else 1 + lg2_rec turns (n / 2)
  end.
Definition lg2 (n : Z) : Z := lg2_rec 64 n.

Definition bitmask (begin end_ : Z) : Z :=
  u64 (Z.shiftl (u64 (u64 (Z.shiftl 1 (begin - end_)) - 1)) end_).

Definition splice_bits (upper lower bits : Z) : Z :=
  Z.lor (Z.land upper (not64 (bitmask bits 0))) (Z.land lower (bitmask bits 0)).

(** ** Predicates and comparators

    [is_valid] and the fields [address], [lru] and [event_cycle] are what the
    templates of util.h require of their argument; a type provides them as
    instances. *)

Class IsValid (A : Type) := is_valid : A -> bool.
Class HasAddress (A : Type) := address_of : A -> Z.
Class HasEventCycle (A : Type) := event_cycle_of : A -> Z.
Class HasLru (A : Type) := { lru_of : A -> Z; set_lru : Z -> A -> A }.

Definition eq_addr {A} `{IsValid A, HasAddress A} (val shamt : Z) (test : A) : bool :=
  is_valid test && (Z.shiftr (address_of test) shamt =? Z.shiftr val shamt).

Definition invalid_is_maximal {A} (valid : A -> bool) (cmp : A -> A -> bool) (lhs rhs : A) : bool :=
  negb (valid rhs) || (valid lhs && cmp lhs rhs).

Definition cmp_event_cycle {A} `{HasEventCycle A} (lhs rhs : A) : bool :=
  event_cycle_of lhs <? event_cycle_of rhs.

Definition min_event_cycle {A} `{IsValid A, HasEventCycle A} : A -> A -> bool :=
  invalid_is_maximal is_valid cmp_event_cycle.

Definition cmp_lru {A} `{HasLru A} (lhs rhs : A) : bool := lru_of lhs <? lru_of rhs.

Definition lru_comparator {A} `{IsValid A, HasLru A} : A -> A -> bool :=
  invalid_is_maximal is_valid cmp_lru.

(** [operator()] of [lru_updater(val)]; [lru] is a [uint32_t]. *)
Definition lru_updater {A} `{HasLru A} (val : Z) (x : A) : A :=
  if lru_of x =? val then set_lru 0 x else set_lru (u32 (lru_of x + 1)) x.

Definition ord_event_cycle {A} `{IsValid A, HasEventCycle A} (lhs rhs : A) : bool :=
  negb (is_valid rhs) || (is_valid lhs && (event_cycle_of lhs <? event_cycle_of rhs)).

(** ** Standard algorithms on a range

    A range is a list and an iterator its distance from the beginning; the end
    of the range is the length of the list. *)

Fixpoint find_if {A} (p : A -> bool) (l : list A) : nat :=
  match l with
  | [] => 0
  | x :: l => if p x then 0 else S (find_if p l)
  end.

Definition find_if_not {A} (p : A -> bool) (l : list A) : nat := find_if (fun x => negb (p x)) l.

(** [best] is the element found so far and [k] its position, [i] the position
    of the rest. *)
Fixpoint max_element_from {A} (cmp : A -> A -> bool) (best : A) (k i : nat) (l : list A) : nat :=
  match l with
  | [] => k
  | x :: l =>
    if cmp best x then max_element_from cmp x i (S i) l else max_element_from cmp best k (S i) l
  end.
Definition max_element {A} (cmp : A -> A -> bool) (l : list A) : nat :=
  match l with
  | [] => 0
  | x :: l => max_element_from cmp x 0 1 l
  end.

(** [std::min_element] is the same loop with the arguments of the comparator
    exchanged. *)
Definition min_element {A} (cmp : A -> A -> bool) (l : list A) : nat :=
  max_element (fun best x => cmp x best) l.

Definition count_if {A} (p : A -> bool) (l : list A) : Z := Z.of_nat (length (List.filter p l)).

(** ** Lemmas: bits *)

Lemma lg2_rec_log2 turns n : 0 <= n < 2 ^ Z.of_nat turns -> lg2_rec turns n = Z.log2 n.
Proof.
  revert n. induction turns as [|turns IH]; intros n Hn; simpl.
  { by replace n with 0 by (simpl in Hn; lia). }
  rewrite Nat2Z.inj_succ, Z.pow_succ_r in Hn by lia.
  destruct (Z.ltb_spec n 2) as [Hl|Hl].
  - assert (n = 0 \/ n = 1) as [-> | ->] by lia; done.
  - rewrite IH by mlia. rewrite <- Z.div2_div, Z.div2_spec, Z.log2_shiftr by lia.
    assert (1 <= Z.log2 n) by (change 1 with (Z.log2 2); apply Z.log2_le_mono; lia). lia.
Qed.

Lemma lg2_log2 n : 0 <= n < 2 ^ 64 -> lg2 n = Z.log2 n.
Proof. apply (lg2_rec_log2 64). Qed.

Lemma lg2_pow2 k : 0 <= k < 64 -> lg2 (2 ^ k) = k.
Proof.
  intros Hk. rewrite lg2_log2; [apply Z.log2_pow2; lia|].
  split; [apply Z.pow_nonneg; lia|apply Z.pow_lt_mono_r; lia].
Qed.

Lemma bitmask_ones b : 0 <= b < 64 -> bitmask b 0 = Z.ones b.
Proof.
  intros Hb. unfold bitmask. rewrite Z.shiftl_0_r, Z.sub_0_r, Z.shiftl_1_l, Z.ones_equiv.
  assert (0 < 2 ^ b < 2 ^ 64) by (split; [apply Z.pow_pos_nonneg; lia|apply Z.pow_lt_mono_r; lia]).
  rewrite (u64_small (2 ^ b)), (u64_small (2 ^ b - 1)), u64_small by lia. lia.
Qed.

Lemma land_bitmask x b : 0 <= b < 64 -> Z.land x (bitmask b 0) = x mod 2 ^ b.
Proof. intros Hb. by rewrite bitmask_ones, Z.land_ones by lia. Qed.

(** [x & ~bitmask(b)] clears the low bits. *)
Lemma land_not_bitmask x b :
  0 <= b < 64 -> 0 <= x < 2 ^ 64 -> Z.land x (not64 (bitmask b 0)) = x / 2 ^ b * 2 ^ b.
Proof.
  intros Hb Hx. rewrite <- Z.shiftl_mul_pow2, <- Z.shiftr_div_pow2, bitmask_ones by lia.
  apply Z.bits_inj'. intros k Hk. unfold not64, u64.
  rewrite Z.land_spec, Z.shiftl_spec by done.
  destruct (Z.ltb_spec k 64) as [Hk64|Hk64].
  - rewrite Z.mod_pow2_bits_low, Z.lnot_spec, Z.testbit_ones_nonneg by lia.
    destruct (Z.ltb_spec k b).
    + by rewrite andb_false_r, Z.testbit_neg_r by lia.
    + rewrite andb_true_r, Z.shiftr_spec by lia. f_equal. lia.
  - rewrite (testbit_small x 64 k) by lia. simpl.
    rewrite Z.shiftr_spec by lia. replace (k - b + b) with k by lia.
    by rewrite (testbit_small x 64 k) by lia.
Qed.

(** Splicing takes the upper bits of one address and the lower of another. *)
Lemma splice_bits_spec upper lower b :
  0 <= b < 64 -> 0 <= upper < 2 ^ 64 -> splice_bits upper lower b = upper / 2 ^ b * 2 ^ b + lower mod 2 ^ b.
Proof.
  intros Hb Hu. unfold splice_bits. rewrite land_not_bitmask, land_bitmask by done.
  symmetry. apply Z.add_nocarry_lor. apply Z.bits_inj'. intros k Hk.
  rewrite Z.land_spec, Z.bits_0. destruct (Z.ltb_spec k b).
  - by rewrite Z.mul_pow2_bits_low by lia.
  - by rewrite Z.mod_pow2_bits_high, andb_false_r by lia.
Qed.

(** ** Lemmas: searching *)

Lemma find_if_le {A} (p : A -> bool) l : (find_if p l <= length l)%nat.
Proof. induction l as [|x l IH]; simpl; [done|]. destruct (p x); lia. Qed.

Lemma find_if_Some {A} (p : A -> bool) l :
  (find_if p l < length l)%nat -> exists x, l !! find_if p l = Some x /\ p x = true.
Proof.
  induction l as [|x l IH]; simpl; [lia|]. destruct (p x) eqn:E; [eauto|].
  intros. apply IH. lia.
Qed.

Lemma find_if_before {A} (p : A -> bool) l i x :
  l !! i = Some x -> (i < find_if p l)%nat -> p x = false.
Proof.
  revert i. induction l as [|y l IH]; intros i; simpl; [done|].
  destruct (p y) eqn:E; [lia|]. destruct i; simpl; [by intros [= ->] _|].
  intros Hi Hlt. eapply IH; [exact Hi|lia].
Qed.

Lemma find_if_end {A} (p : A -> bool) l :
  find_if p l = length l <-> Forall (fun x => p x = false) l.
Proof.
  induction l as [|x l IH]; simpl; [by split|]. rewrite list.Forall_cons.
  destruct (p x) eqn:E; [split; [lia|by intros [? _]]|].
  split; [intros H; split; [done|apply IH; lia]|intros [_ H]; f_equal; by apply IH].
Qed.

Lemma find_if_unique {A} (p : A -> bool) l i x :
  l !! i = Some x -> p x = true -> (forall j y, l !! j = Some y -> p y = true -> j = i) ->
  find_if p l = i.
Proof.
  intros Hi Hp Hu. assert (find_if p l < length l)%nat as Hlt.
  { pose proof (find_if_le p l). destruct (decide (find_if p l = length l)) as [He|]; [|lia].
    apply find_if_end in He. rewrite Forall_lookup in He. pose proof (He _ _ Hi). simpl in *. congruence. }
  apply find_if_Some in Hlt as (y & Hy & Hpy). by apply (Hu _ y).
Qed.

Lemma find_if_ext {A} (p q : A -> bool) l :
  Forall (fun x => p x = q x) l -> find_if p l = find_if q l.
Proof. induction 1 as [|x l Hx _ IH]; simpl; [done|]. rewrite Hx. destruct (q x); [done|by rewrite IH]. Qed.

(** ** Lemmas: changing an element *)

Lemma list_alter_Some {A} (f : A -> A) i x (l : list A) : l !! i = Some x -> alter f i l = <[i := f x]> l.
Proof.
  intros Hi. pose proof (lookup_lt_Some _ _ _ Hi). apply list_eq. intros j. destruct (decide (j = i)) as [->|].
  - by rewrite list_lookup_alter_eq, Hi, list_lookup_insert_eq.
  - by rewrite list_lookup_alter_ne, list_lookup_insert_ne.
Qed.

Lemma list_alter_same {A} (f : A -> A) i x (l : list A) : l !! i = Some x -> f x = x -> alter f i l = l.
Proof. intros Hi Hf. rewrite (list_alter_Some f i x l Hi), Hf. by apply list_insert_id. Qed.

(** ** Lemmas: the greatest element *)

(** Where the comparator orders by a key, [max_element] is the first element
    with the greatest key. *)
Lemma max_element_from_key {A} (cmp : A -> A -> bool) (key : A -> Z) best k l0 l :
  (forall x y, x ∈ l0 ++ l -> y ∈ l0 ++ l -> cmp x y = (key x <? key y)) ->
  l0 !! k = Some best ->
  (forall j y, l0 !! j = Some y -> key y <= key best /\ ((j < k)%nat -> key y < key best)) ->
  exists x, (l0 ++ l) !! max_element_from cmp best k (length l0) l = Some x /\
  forall j y, (l0 ++ l) !! j = Some y ->
    key y <= key x /\ ((j < max_element_from cmp best k (length l0) l)%nat -> key y < key x).
Proof.
  revert best k l0. induction l as [|x l IH]; intros best k l0 Hcmp Hk Hmax; simpl.
  { rewrite app_nil_r. eauto. }
  assert (cmp best x = (key best <? key x)) as Hc.
  { apply Hcmp; apply elem_of_app; [left; by eapply list_elem_of_lookup_2|right; left]. }
  replace (S (length l0)) with (length (l0 ++ [x])) by (rewrite length_app; simpl; lia).
  rewrite Hc. clear Hc.
  replace (l0 ++ x :: l) with ((l0 ++ [x]) ++ l) in * by (by rewrite <- (assoc_L (++))).
  destruct (Z.ltb_spec (key best) (key x)) as [Hlt|Hge].
  - apply (IH x (length l0) (l0 ++ [x])); [done|by apply list_lookup_middle|].
    intros j y [Hj|[Hj Hy]]%lookup_app_Some.
    + destruct (Hmax j y Hj). split; intros; lia.
    + apply list_lookup_singleton_Some in Hy as [? ->]. split; intros; [lia|].
      exfalso. lia.
  - apply (IH best k (l0 ++ [x])); [done|by apply lookup_app_l_Some|].
    intros j y [Hj|[Hj Hy]]%lookup_app_Some; [by apply Hmax|].
    apply list_lookup_singleton_Some in Hy as [? ->]. split; intros; [lia|].
    apply lookup_lt_Some in Hk. exfalso. lia.
Qed.

Lemma max_element_key {A} (cmp : A -> A -> bool) (key : A -> Z) l :
  l <> [] -> (forall x y, x ∈ l -> y ∈ l -> cmp x y = (key x <? key y)) ->
  exists x, l !! max_element cmp l = Some x /\
  forall j y, l !! j = Some y -> key y <= key x /\ ((j < max_element cmp l)%nat -> key y < key x).
Proof.
  destruct l as [|x l]; [done|]. intros _ Hcmp.
  apply (max_element_from_key cmp key x 0 [x] l).
  - exact Hcmp.
  - done.
  - intros j y Hj. apply list_lookup_singleton_Some in Hj as [-> ->]. split; intros; lia.
Qed.

Lemma max_element_lt {A} (cmp : A -> A -> bool) l : l <> [] -> (max_element cmp l < length l)%nat.
Proof.
  destruct l as [|x l]; [done|]. intros _. simpl.
  enough (forall best k i, (k < S i)%nat -> (max_element_from cmp best k (S i) l < S i + length l)%nat) as H.
  { apply (H x 0%nat 0%nat). lia. }
  induction l as [|y l IH]; intros best k i Hk; simpl; [lia|].
  destruct (cmp best y); [pose proof (IH y (S i) (S i))|pose proof (IH best k (S i))]; lia.
Qed.

End Util.

Module Mem.
Import Util.

(** ** Access types (inc/memory_class.h) *)

Definition LOAD : Z := 0.
Definition RFO : Z := 1.
Definition PREFETCH : Z := 2.
Definition WRITEBACK : Z := 3.
Definition TRANSLATION : Z := 4.
Definition NUM_TYPES : Z := 5.

Definition UINT64_MAX : Z := 2 ^ 64 - 1.
(** Initial [lru] of a block: [std::numeric_limits<uint32_t>::max() >> 1]. *)
Definition LRU_INIT : Z := 2 ^ 31 - 1.

(** ** Packets (inc/block.h)

    Iterators into the load and store queues are indices, iterators into the
    fetch buffer are positions, and a pointer to a [MemoryRequestProducer] is
    the number of the object. *)
Record PACKET := mkPACKET {
  scheduled : bool;
  asid : Z * Z;
  type : Z;
  fill_level : Z;
  pf_origin_level : Z;
  pf_metadata : Z;
  cpu : Z;
  address : Z;
  v_address : Z;
  data : Z;
  instr_id : Z;
  ip : Z;
  event_cycle : Z;
  cycle_enqueued : Z;
  lq_index_depend_on_me : list nat;
  sq_index_depend_on_me : list nat;
  instr_depend_on_me : list nat;
  to_return : list nat;
  translation_level : Z;
  init_translation_level : Z;
}.

#[global] Instance eta_PACKET : Settable PACKET :=
  mkEta _ (fun x => mkPACKET (scheduled x) (asid x) (type x) (fill_level x) (pf_origin_level x)
    (pf_metadata x) (cpu x) (address x) (v_address x) (data x) (instr_id x) (ip x)
    (event_cycle x) (cycle_enqueued x) (lq_index_depend_on_me x) (sq_index_depend_on_me x)
    (instr_depend_on_me x) (to_return x) (translation_level x) (init_translation_level x)).

(** [PACKET{}].  [pf_metadata] has no initialiser; its value is the argument. *)
Definition new_PACKET `{Config} (pf_metadata : Z) : PACKET :=
  mkPACKET false (255, 255) 0 0 0 pf_metadata NUM_CPUS 0 0 0 0 0 UINT64_MAX 0 [] [] [] [] 0 0.

#[global] Instance is_valid_PACKET : IsValid PACKET := fun test => negb (address test =? 0).
#[global] Instance has_address_PACKET : HasAddress PACKET := address.
#[global] Instance has_event_cycle_PACKET : HasEventCycle PACKET := event_cycle.

(** ** Blocks (inc/memory_class.h) *)
Record BLOCK := mkBLOCK {
  b_valid : bool;
  b_prefetch : bool;
  b_dirty : bool;
  b_address : Z;
  b_v_address : Z;
  b_tag : Z;
  b_data : Z;
  b_ip : Z;
  b_cpu : Z;
  b_instr_id : Z;
  b_lru : Z;
}.

#[global] Instance eta_BLOCK : Settable BLOCK :=
  mkEta _ (fun x => mkBLOCK (b_valid x) (b_prefetch x) (b_dirty x) (b_address x) (b_v_address x)
    (b_tag x) (b_data x) (b_ip x) (b_cpu x) (b_instr_id x) (b_lru x)).

Definition new_BLOCK : BLOCK := mkBLOCK false false false 0 0 0 0 0 0 0 LRU_INIT.

#[global] Instance is_valid_BLOCK : IsValid BLOCK := b_valid.
#[global] Instance has_address_BLOCK : HasAddress BLOCK := b_address.
#[global] Instance has_lru_BLOCK : HasLru BLOCK :=
  { lru_of := b_lru; set_lru := fun v b => b <| b_lru := v |> }.

(** ** [packet_dep_merge] (inc/block.h)

    [std::inplace_merge] takes from the second range only what is smaller;
    [std::unique] drops what equals the element kept before it. *)
Fixpoint inplace_merge {A} (lt : A -> A -> bool) (l1 : list A) : list A -> list A :=
  match l1 with
  | [] => fun l2 => l2
  | x :: l1' =>
    fix merge_x (l2 : list A) : list A :=
      match l2 with
      | [] => x :: l1'
      | y :: l2' => if lt y x then y :: merge_x l2' else x :: inplace_merge lt l1' l2
      end
  end.

Fixpoint unique_from {A} (eq : A -> A -> bool) (kept : A) (l : list A) : list A :=
  match l with
  | [] => []
  | x :: l => if eq kept x then unique_from eq kept l else x :: unique_from eq x l
  end.
Definition unique {A} (eq : A -> A -> bool) (l : list A) : list A :=
  match l with
  | [] => []
  | x :: l => x :: unique_from eq x l
  end.

Definition packet_dep_merge {A} (lt eq : A -> A -> bool) (dest src : list A) : list A :=
  unique eq (inplace_merge lt dest src).

(** ** Lemmas *)

Lemma inplace_merge_Permutation {A} (lt : A -> A -> bool) l1 l2 :
  inplace_merge lt l1 l2 ≡ₚ l1 ++ l2.
Proof.
  revert l2. induction l1 as [|x l1 IH1]; intros l2; [done|].
  induction l2 as [|y l2 IH2]; [by rewrite app_nil_r|].
  change (inplace_merge lt (x :: l1) (y :: l2)) with
    (if lt y x then y :: inplace_merge lt (x :: l1) l2 else x :: inplace_merge lt l1 (y :: l2)).
  destruct (lt y x).
  - rewrite IH2. by rewrite (Permutation_middle (x :: l1) l2 y).
  - by rewrite IH1.
Qed.

Lemma elem_of_unique_from {A} (eq : A -> A -> bool) k l x :
  (forall a b, eq a b = true -> a = b) -> x ∈ k :: unique_from eq k l <-> x ∈ k :: l.
Proof.
  intros Heq. revert k. induction l as [|y l IH]; intros k; simpl; [done|].
  destruct (eq k y) eqn:E.
  - apply Heq in E as ->. rewrite IH, !elem_of_cons. tauto.
  - rewrite !elem_of_cons in *. specialize (IH y). rewrite !elem_of_cons in IH. tauto.
Qed.

(** Merging loses no dependency and invents none, whatever the order. *)
Lemma elem_of_packet_dep_merge {A} (lt eq : A -> A -> bool) dest src x :
  (forall a b, eq a b = true -> a = b) ->
  x ∈ packet_dep_merge lt eq dest src <-> x ∈ dest \/ x ∈ src.
Proof.
  intros Heq. unfold packet_dep_merge.
  assert (x ∈ inplace_merge lt dest src <-> x ∈ dest \/ x ∈ src) as <-.
  { by rewrite inplace_merge_Permutation, elem_of_app. }
  destruct (inplace_merge lt dest src) as [|y l]; [done|]. by apply elem_of_unique_from.
Qed.

Lemma elem_of_nat_merge (dest src : list nat) x :
  x ∈ packet_dep_merge Nat.ltb Nat.eqb dest src <-> x ∈ dest \/ x ∈ src.
Proof. apply elem_of_packet_dep_merge. intros a b. apply Nat.eqb_eq. Qed.

(** The lists stay sorted, as [std::inplace_merge] requires, and without
    duplicates. *)
Definition increasing : list nat -> Prop := StronglySorted lt.

Lemma inplace_merge_sorted l1 l2 :
  StronglySorted le l1 -> StronglySorted le l2 -> StronglySorted le (inplace_merge Nat.ltb l1 l2).
Proof.
  intros H1. revert l2. induction H1 as [|x l1 H1 IH1 Hx]; intros l2 H2; [done|].
  induction H2 as [|y l2 H2 IH2 Hy]; [by constructor|].
  change (inplace_merge Nat.ltb (x :: l1) (y :: l2)) with
    (if (y <? x)%nat then y :: inplace_merge Nat.ltb (x :: l1) l2 else x :: inplace_merge Nat.ltb l1 (y :: l2)).
  destruct (Nat.ltb_spec y x) as [Hlt|Hge]; constructor.
  - exact IH2.
  - rewrite inplace_merge_Permutation. apply Forall_app. split; [|done]. constructor; [lia|].
    eapply Forall_impl; [|exact Hx]. simpl. lia.
  - apply IH1. by constructor.
  - rewrite inplace_merge_Permutation. apply Forall_app. split; [done|]. constructor; [lia|].
    eapply Forall_impl; [|exact Hy]. simpl. lia.
Qed.

Lemma unique_from_increasing k l : StronglySorted le (k :: l) -> increasing (k :: unique_from Nat.eqb k l).
Proof.
  revert k. induction l as [|y l IH]; intros k Hs; simpl; [repeat constructor|].
  apply StronglySorted_inv in Hs as [Hs Hk]. apply list.Forall_cons in Hk as [Hky Hk].
  destruct (Nat.eqb_spec k y) as [->|Hne]; [by apply IH|]. specialize (IH y Hs). constructor; [done|].
  apply StronglySorted_inv in IH as [_ Hy]. constructor; [lia|]. eapply Forall_impl; [|exact Hy]. simpl. lia.
Qed.

Lemma increasing_merge l1 l2 : increasing l1 -> increasing l2 -> increasing (packet_dep_merge Nat.ltb Nat.eqb l1 l2).
Proof.
  intros H1 H2. assert (forall l, increasing l -> StronglySorted le l) as Hle.
  { intros l Hl. induction Hl as [|x l Hl IH Hx]; constructor; [done|]. eapply Forall_impl; [|exact Hx]. simpl. lia. }
  unfold packet_dep_merge. pose proof (inplace_merge_sorted l1 l2 (Hle _ H1) (Hle _ H2)) as Hs.
  destruct (inplace_merge Nat.ltb l1 l2) as [|x l]; [constructor|]. by apply unique_from_increasing.
Qed.

Lemma increasing_NoDup l : increasing l -> NoDup l.
Proof.
  intros Hl. induction Hl as [|x l Hl IH Hx]; constructor; [|done]. intros Hin.
  rewrite list.Forall_forall in Hx. specialize (Hx x Hin). lia.
Qed.

End Mem.
