(* ===== verification/SimQueue.v ===== *)
(** * ChampSim: the circular buffer and the delay queue

    inc/circular_buffer.hpp ([Module Circ]) and inc/delay_queue.hpp
    ([Module Delay]), and that they implement bounded queues. *)

From S2P Require Import Prelude SimUtil.
Local Open Scope c_scope.

Module Circ.

(** An iterator of a buffer is its field [pos]. *)
Record circular_buffer (T : Type) := mkCB {
  sz_ : Z;
  entry_ : list T;
  head_ : Z;
  tail_ : Z;
}.
Arguments mkCB {T}.
Arguments sz_ {T}.
Arguments entry_ {T}.
Arguments head_ {T}.
Arguments tail_ {T}.

#[global] Instance eta_cb T : Settable (circular_buffer T) :=
  mkEta _ (fun x => mkCB (sz_ x) (entry_ x) (head_ x) (tail_ x)).

Section Buffer.
Context {T : Type}.
Implicit Types b : circular_buffer T.

(** [circular_buffer(N)]: the vector has one more entry than the buffer. *)
Definition new_circular_buffer (dflt : T) (N : nat) : circular_buffer T :=
  mkCB (Z.of_nat N) (replicate (S N) dflt) 0 0.

(** [entry_.size()] *)
Definition entry_size b : Z := Z.of_nat (length (entry_ b)).

(** The loops of [circ_inc]; every turn changes the base by at least one. *)
Fixpoint adjust_negative (turns : nat) (x max_size : Z) : Z :=
  match turns with
  | O => x
  | S turns => if x <? 0 then adjust_negative turns (x + max_size) max_size else x
  end.
Fixpoint adjust_positive (turns : nat) (x max_size : Z) : Z :=
  match turns with
  | O => x
  | S turns => if max_size <=? x then adjust_positive turns (x - max_size) max_size else x
  end.

Definition circ_inc (base inc : Z) b : Z :=
  let signed_new_base := base + inc in
  let x := adjust_negative (Z.to_nat (Z.abs signed_new_base)) signed_new_base (entry_size b) in
  adjust_positive (Z.to_nat (Z.abs x)) x (entry_size b).

(** [*this - other] of two iterators. *)
Definition it_diff b (pos other : Z) : Z :=
  let diff := pos - other in
  if (pos <? head_ b) && (head_ b <=? other) then entry_size b + diff
  else if (other <? head_ b) && (head_ b <=? pos) then entry_size b - diff
  else diff.

Definition it_lt b (pos other : Z) : bool := 0 <? it_diff b other pos.
Definition it_gt b (pos other : Z) : bool := it_lt b other pos.
Definition it_ge b (pos other : Z) : bool := negb (it_lt b pos other).
Definition it_le b (pos other : Z) : bool := negb (it_gt b pos other).
Definition it_eq b (pos other : Z) : bool := it_le b pos other && it_ge b pos other.

(** [std::min(a, b)] of two iterators. *)
Definition it_min b (p q : Z) : Z := if it_lt b q p then q else p.

Definition begin_ b : Z := head_ b.
Definition end_ b : Z := tail_ b.

(** [*it]: [entry_.at(pos)], which throws outside the vector. *)
Definition at_ b (pos : Z) : cres T :=
  match entry_ b !! Z.to_nat pos with
  | Some x => Ret x
  | None => Abort "std::out_of_range"
  end.

Definition occupancy b : Z := it_diff b (end_ b) (begin_ b).
Definition empty b : bool := occupancy b =? 0.
Definition full b : bool := occupancy b =? sz_ b.

Definition front b : cres T := at_ b (head_ b).
Definition back b : cres T := at_ b (circ_inc (tail_ b) (-1) b).

Definition clear b : circular_buffer T := b <| head_ := 0 |> <| tail_ := 0 |>.

Definition push_back (item : T) b : cres (circular_buffer T) :=
  let* _ := cassert (negb (full b)) "!full()" in
  let* _ := at_ b (tail_ b) in
  let b := b <| entry_ ::= insert (Z.to_nat (tail_ b)) item |> in
  Ret (b <| tail_ := circ_inc (tail_ b) 1 b |>).

Definition pop_front b : cres (circular_buffer T) :=
  let* _ := cassert (negb (empty b)) "!empty()" in
  Ret (b <| head_ := circ_inc (head_ b) 1 b |>).

(** [*it = f( *it)] *)
Definition modify_at (f : T -> T) (pos : Z) b : circular_buffer T :=
  b <| entry_ ::= alter f (Z.to_nat pos) |>.

(** [for (auto& x : b) x = f(x);] *)
Fixpoint for_each_from (turns : nat) (f : T -> T) (pos last : Z) b : circular_buffer T :=
  match turns with
  | O => b
  | S turns =>
    if it_eq b pos last then b
    else
      let b := modify_at f pos b in
      for_each_from turns f (circ_inc pos 1 b) last b
  end.
Definition for_each (f : T -> T) b : circular_buffer T :=
  for_each_from (length (entry_ b)) f (begin_ b) (end_ b) b.

(** [std::find_if(pos, last, p)] *)
Fixpoint it_find_if (turns : nat) (p : T -> bool) (pos last : Z) b : Z :=
  match turns with
  | O => last
  | S turns =>
    if it_eq b pos last then last
    else match entry_ b !! Z.to_nat pos with
         | Some x => if p x then pos else it_find_if turns p (circ_inc pos 1 b) last b
         | None => last
         end
  end.

(** [std::partition_point]: halving the range [first, first + len). *)
Fixpoint partition_point_from (turns : nat) (p : T -> bool) (first len : Z) b : Z :=
  match turns with
  | O => first
  | S turns =>
    if 0 <? len then
      let half := len / 2 in
      let middle := circ_inc first half b in
      match entry_ b !! Z.to_nat middle with
      | Some x =>
        if p x then partition_point_from turns p (circ_inc middle 1 b) (len - half - 1) b
        else partition_point_from turns p first half b
      | None => first
      end
    else first
  end.
Definition partition_point (p : T -> bool) b : Z :=
  partition_point_from (S (length (entry_ b))) p (begin_ b) (it_diff b (end_ b) (begin_ b)) b.

(** ** Well-formed buffers and their contents *)

Definition wf b : Prop :=
  sz_ b = entry_size b - 1 /\ 0 <= head_ b < entry_size b /\ 0 <= tail_ b < entry_size b.

(** The position of the [i]-th element and the index of a position. *)
Definition pos_of b (i : Z) : Z := (head_ b + i) mod entry_size b.
Definition index_of b (pos : Z) : Z := (pos - head_ b) mod entry_size b.

(** The number of elements. *)
Definition count b : Z := index_of b (tail_ b).

(** What the buffer holds, oldest first. *)
Definition contents b : list T :=
  take (Z.to_nat (count b))
    (drop (Z.to_nat (head_ b)) (entry_ b) ++ take (Z.to_nat (head_ b)) (entry_ b)).

(** ** Lemmas *)

Lemma adjust_negative_spec turns x m :
  0 < m -> -Z.of_nat turns <= x ->
  adjust_negative turns x m = if x <? 0 then x mod m else x.
Proof.
  intros Hm. revert x. induction turns as [|turns IH]; intros x Hx; simpl.
  { by destruct (Z.ltb_spec x 0); [lia|]. }
  destruct (Z.ltb_spec x 0); [|done]. rewrite IH by lia.
  rewrite <- (Z_mod_plus_full x 1 m), Z.mul_1_l.
  destruct (Z.ltb_spec (x + m) 0); [done|]. symmetry. apply Z.mod_small. lia.
Qed.

Lemma adjust_positive_spec turns x m :
  0 < m -> 0 <= x <= Z.of_nat turns -> adjust_positive turns x m = x mod m.
Proof.
  intros Hm. revert x. induction turns as [|turns IH]; intros x Hx; simpl.
  { symmetry. apply Z.mod_small. lia. }
  destruct (Z.leb_spec m x); [|symmetry; apply Z.mod_small; lia].
  rewrite IH by lia. rewrite <- (Z_mod_plus_full (x - m) 1 m). f_equal. lia.
Qed.

Lemma circ_inc_mod base inc b :
  0 < entry_size b -> circ_inc base inc b = (base + inc) mod entry_size b.
Proof.
  intros Hn. unfold circ_inc. rewrite adjust_negative_spec by lia.
  destruct (Z.ltb_spec (base + inc) 0).
  - pose proof (Z.mod_pos_bound (base + inc) _ Hn).
    rewrite adjust_positive_spec by lia. apply Z.mod_mod. lia.
  - rewrite adjust_positive_spec by lia. done.
Qed.

(** An index is the distance from the head, around the end of the vector. *)
Lemma index_of_cases b pos :
  wf b -> 0 <= pos < entry_size b ->
  index_of b pos = if pos <? head_ b then pos - head_ b + entry_size b else pos - head_ b.
Proof.
  intros (_ & Hh & _) Hp. unfold index_of. destruct (Z.ltb_spec pos (head_ b)).
  - rewrite <- (Z_mod_plus_full _ 1). rewrite Z.mod_small; lia.
  - rewrite Z.mod_small; lia.
Qed.

Lemma index_of_range b pos : wf b -> 0 <= index_of b pos < entry_size b.
Proof. intros (_ & Hh & _). apply Z.mod_pos_bound. lia. Qed.

Lemma pos_of_range b i : wf b -> 0 <= pos_of b i < entry_size b.
Proof. intros (_ & Hh & _). apply Z.mod_pos_bound. lia. Qed.

Lemma pos_of_index b pos : wf b -> 0 <= pos < entry_size b -> pos_of b (index_of b pos) = pos.
Proof.
  intros Hw Hp. pose proof Hw as (_ & Hh & _). rewrite index_of_cases by done. unfold pos_of.
  destruct (Z.ltb_spec pos (head_ b)).
  - replace (head_ b + (pos - head_ b + entry_size b)) with (pos + 1 * entry_size b) by lia.
    rewrite Z_mod_plus_full. apply Z.mod_small. lia.
  - rewrite Z.mod_small; lia.
Qed.

Lemma index_of_pos b i : wf b -> 0 <= i < entry_size b -> index_of b (pos_of b i) = i.
Proof.
  intros (_ & Hh & _) Hi. unfold index_of, pos_of. rewrite Zminus_mod_idemp_l.
  replace (head_ b + i - head_ b) with i by lia. apply Z.mod_small. lia.
Qed.

(** The difference of two iterators of one buffer: exact when they are on the
    same side of the end of the vector, and otherwise its absolute value. *)
Lemma it_diff_spec b pos other :
  wf b -> 0 <= pos < entry_size b -> 0 <= other < entry_size b ->
  it_diff b pos other =
    if Bool.eqb (pos <? head_ b) (other <? head_ b) then index_of b pos - index_of b other
    else Z.abs (index_of b pos - index_of b other).
Proof.
  intros Hw Hp Ho. rewrite !index_of_cases by done. destruct Hw as (_ & Hh & Ht).
  unfold it_diff.
  destruct (Z.ltb_spec pos (head_ b)), (Z.ltb_spec other (head_ b)),
    (Z.leb_spec (head_ b) pos), (Z.leb_spec (head_ b) other); simpl; lia.
Qed.

Lemma index_of_inj b p q :
  wf b -> 0 <= p < entry_size b -> 0 <= q < entry_size b -> index_of b p = index_of b q -> p = q.
Proof. intros Hw Hp Hq He. rewrite <- (pos_of_index b p), <- (pos_of_index b q) by done. by rewrite He. Qed.

(** Comparing for equality is right in spite of the order below. *)
Lemma it_eq_spec b p q :
  wf b -> 0 <= p < entry_size b -> 0 <= q < entry_size b -> it_eq b p q = (p =? q).
Proof.
  intros Hw Hp Hq. unfold it_eq, it_le, it_ge, it_gt, it_lt.
  rewrite !it_diff_spec by done. pose proof (index_of_inj b p q Hw Hp Hq).
  destruct (Z.eqb_spec p q) as [->|Hne].
  { rewrite Bool.eqb_reflx, Z.sub_diag. done. }
  destruct (Bool.eqb _ _) eqn:E1, (Bool.eqb (q <? _) _) eqn:E2;
    destruct (Z.ltb_spec 0 (index_of b q - index_of b p)),
             (Z.ltb_spec 0 (index_of b p - index_of b q)),
             (Z.ltb_spec 0 (Z.abs (index_of b q - index_of b p))),
             (Z.ltb_spec 0 (Z.abs (index_of b p - index_of b q))); try done; lia.
Qed.

Lemma occupancy_count b : wf b -> occupancy b = count b.
Proof.
  intros Hw. pose proof Hw as (_ & Hh & Ht). unfold occupancy, end_, begin_, count.
  rewrite it_diff_spec by done.
  assert (index_of b (head_ b) = 0) as ->.
  { unfold index_of. by rewrite Z.sub_diag, Z.mod_0_l by lia. }
  pose proof (index_of_range b (tail_ b) Hw). destruct (Bool.eqb _ _); lia.
Qed.

(** ** The contents *)

Lemma count_range b : wf b -> 0 <= count b <= sz_ b.
Proof. intros Hw. pose proof (index_of_range b (tail_ b) Hw). destruct Hw. unfold count. lia. Qed.

Lemma length_contents b : wf b -> length (contents b) = Z.to_nat (count b).
Proof.
  intros Hw. pose proof (count_range b Hw). pose proof Hw as (? & ? & ?). unfold entry_size in *.
  unfold contents. rewrite length_take, length_app, length_drop, length_take. lia.
Qed.

Lemma lookup_contents b (i : nat) :
  wf b -> contents b !! i =
    if decide (i < Z.to_nat (count b))%nat then entry_ b !! Z.to_nat (pos_of b (Z.of_nat i)) else None.
Proof.
  intros Hw. pose proof (count_range b Hw) as Hc. pose proof Hw as (Hs & Hh & Ht).
  unfold entry_size in *. unfold contents. destruct (decide _) as [Hi|Hi].
  - rewrite lookup_take_lt by done. unfold pos_of, entry_size.
    destruct (decide (Z.to_nat (head_ b) + i < length (entry_ b))%nat) as [Hl|Hl].
    + rewrite lookup_app_l by (rewrite length_drop; lia). rewrite lookup_drop.
      rewrite Z.mod_small by lia. f_equal. lia.
    + rewrite lookup_app_r by (rewrite length_drop; lia). rewrite length_drop, lookup_take_lt by lia.
      rewrite <- (Z_mod_plus_full _ (-1)), Z.mod_small by lia. f_equal. lia.
  - apply lookup_take_ge. lia.
Qed.

Lemma at_pos_of b (i : nat) x : wf b -> contents b !! i = Some x -> at_ b (pos_of b (Z.of_nat i)) = Ret x.
Proof.
  intros Hw Hi. rewrite lookup_contents in Hi by done. unfold at_.
  destruct (decide _); [by rewrite Hi|done].
Qed.

Lemma is_lookup_pos b pos : wf b -> 0 <= pos < entry_size b -> is_Some (entry_ b !! Z.to_nat pos).
Proof. intros Hw Hp. apply lookup_lt_is_Some. unfold entry_size in Hp. lia. Qed.

Lemma full_spec b : wf b -> full b = bool_decide (Z.of_nat (length (contents b)) = sz_ b).
Proof.
  intros Hw. unfold full. rewrite occupancy_count, length_contents by done.
  pose proof (count_range b Hw). rewrite Z2Nat.id by lia.
  case_bool_decide; [by apply Z.eqb_eq|by apply Z.eqb_neq].
Qed.

Lemma empty_spec b : wf b -> empty b = bool_decide (contents b = []).
Proof.
  intros Hw. unfold empty. rewrite occupancy_count by done. pose proof (count_range b Hw).
  pose proof (length_contents b Hw) as Hl. case_bool_decide as He.
  - rewrite He in Hl. simpl in Hl. apply Z.eqb_eq. lia.
  - apply Z.eqb_neq. destruct (contents b); [done|]. simpl in Hl. lia.
Qed.

Lemma front_spec b x l : wf b -> contents b = x :: l -> front b = Ret x.
Proof.
  intros Hw Hc. unfold front. rewrite <- (at_pos_of b 0 x Hw); [|by rewrite Hc].
  f_equal. unfold pos_of. destruct Hw as (_ & ? & _). rewrite Z.add_0_r, Z.mod_small; lia.
Qed.

(** The step of an index. *)
Lemma index_of_succ b pos :
  wf b -> index_of b pos + 1 < entry_size b -> index_of b (circ_inc pos 1 b) = index_of b pos + 1.
Proof.
  intros Hw Hi. pose proof Hw as (_ & Hh & _). rewrite circ_inc_mod by lia.
  unfold index_of in *. rewrite Zminus_mod_idemp_l.
  replace (pos + 1 - head_ b) with (pos - head_ b + 1) by lia.
  rewrite <- Zplus_mod_idemp_l. apply Z.mod_small.
  pose proof (Z.mod_pos_bound (pos - head_ b) (entry_size b)). lia.
Qed.

(** [push_back] appends when there is room and fails its assertion otherwise. *)
Lemma push_back_spec b x :
  wf b ->
  if bool_decide (Z.of_nat (length (contents b)) = sz_ b) then push_back x b = Abort "!full()"
  else exists b', push_back x b = Ret b' /\ wf b' /\ contents b' = contents b ++ [x] /\
       sz_ b' = sz_ b /\ head_ b' = head_ b /\ entry_size b' = entry_size b /\
       tail_ b' = circ_inc (tail_ b) 1 b.
Proof.
  intros Hw. unfold push_back. rewrite (full_spec b) by done. case_bool_decide as Hf; [done|].
  pose proof Hw as (Hs & Hh & Ht). pose proof (count_range b Hw) as Hc.
  rewrite length_contents, Z2Nat.id in Hf by (done || lia). simpl.
  destruct (is_lookup_pos b (tail_ b) Hw Ht) as [y Hy]. unfold at_. rewrite Hy. simpl.
  match goal with |- exists _, Ret ?r = _ /\ _ => pose (b' := r) end. exists b'.
  assert (entry_size b' = entry_size b) as Hn by (unfold entry_size, b'; simpl; by rewrite length_insert).
  assert (tail_ b' = circ_inc (tail_ b) 1 b) as Htl.
  { unfold b'. simpl. unfold circ_inc, entry_size. simpl. by rewrite length_insert. }
  assert (wf b') as Hw'.
  { split; [by rewrite Hn|]. rewrite Hn, Htl. split; [done|]. rewrite circ_inc_mod by lia.
    apply Z.mod_pos_bound. lia. }
  assert (count b' = count b + 1) as Hcnt.
  { unfold count in *. rewrite <- (index_of_succ b (tail_ b)) by (done || lia).
    rewrite Htl. unfold index_of. by rewrite Hn. }
  split; [done|]. split; [done|]. split; [|done].
  apply list_eq. intros i. rewrite (lookup_contents b') by done. rewrite Hcnt.
  assert (pos_of b' = pos_of b) as -> by (unfold pos_of; by rewrite Hn).
  destruct (decide _) as [Hi|Hi].
  - destruct (decide (i = Z.to_nat (count b))) as [->|Hne].
    + rewrite lookup_app_r, length_contents, Nat.sub_diag by (rewrite ?length_contents; done).
      rewrite Z2Nat.id by lia. unfold count. rewrite pos_of_index by done.
      apply list_lookup_insert_eq. unfold entry_size in Ht. lia.
    + rewrite lookup_app_l, lookup_contents by (rewrite ?length_contents; done || lia).
      destruct (decide _); [|lia]. apply list_lookup_insert_ne. intros He.
      pose proof (pos_of_range b (Z.of_nat i) Hw).
      assert (Z.of_nat i = count b); [|lia].
      rewrite <- (index_of_pos b (Z.of_nat i)) by (done || lia). unfold count. f_equal. lia.
  - symmetry. apply lookup_ge_None. rewrite length_app, length_contents by done. simpl. lia.
Qed.

(** [pop_front] drops the oldest element. *)
Lemma pop_front_spec b :
  wf b ->
  match contents b with
  | [] => pop_front b = Abort "!empty()"
  | x :: l => exists b', pop_front b = Ret b' /\ wf b' /\ contents b' = l /\
       sz_ b' = sz_ b /\ tail_ b' = tail_ b /\ entry_size b' = entry_size b /\
       head_ b' = circ_inc (head_ b) 1 b
  end.
Proof.
  intros Hw. unfold pop_front. rewrite (empty_spec b) by done.
  pose proof (length_contents b Hw) as Hl. destruct (contents b) as [|x l] eqn:Hc; [done|].
  rewrite bool_decide_eq_false_2 by done. simpl. pose proof Hw as (Hs & Hh & Ht).
  match goal with |- exists _, Ret ?r = _ /\ _ => pose (b' := r) end. exists b'.
  assert (head_ b' = (head_ b + 1) mod entry_size b) as Hhd by (apply circ_inc_mod; lia).
  assert (wf b') as Hw'.
  { split; [done|]. split; [|done]. rewrite Hhd. apply (Z.mod_pos_bound _ (entry_size b)). lia. }
  assert (count b' = count b - 1) as Hcnt.
  { unfold count, index_of. rewrite Hhd. change (entry_size b') with (entry_size b).
    change (tail_ b') with (tail_ b).
    rewrite Zminus_mod_idemp_r. replace (tail_ b - (head_ b + 1)) with (tail_ b - head_ b - 1) by lia.
    rewrite <- Zminus_mod_idemp_l. apply Z.mod_small.
    pose proof (Z.mod_pos_bound (tail_ b - head_ b) (entry_size b)).
    unfold count, index_of in Hl. simpl in Hl. lia. }
  split; [done|]. split; [done|]. split; [|done].
  apply list_eq. intros i. change (l !! i) with ((x :: l) !! S i). rewrite <- Hc.
  rewrite !lookup_contents by done. rewrite Hcnt. simpl in Hl.
  assert (pos_of b' (Z.of_nat i) = pos_of b (Z.of_nat (S i))) as ->.
  { unfold pos_of. rewrite Hhd. change (entry_size b') with (entry_size b).
    rewrite Zplus_mod_idemp_l. f_equal. lia. }
  by destruct (decide _), (decide _); try done; lia.
Qed.

Lemma new_circular_buffer_spec (dflt : T) N :
  wf (new_circular_buffer dflt N) /\ contents (new_circular_buffer dflt N) = [].
Proof.
  assert (wf (new_circular_buffer dflt N)) as Hw.
  { unfold wf, entry_size, new_circular_buffer. cbn [sz_ entry_ head_ tail_].
    rewrite length_replicate. lia. }
  split; [done|]. apply length_zero_iff_nil. by rewrite length_contents.
Qed.

Lemma clear_spec b : wf b -> wf (clear b) /\ contents (clear b) = [].
Proof.
  intros (Hs & Hh & Ht). assert (wf (clear b)) as Hw.
  { split; [done|]. split; unfold entry_size in *; simpl; lia. }
  split; [done|]. apply length_zero_iff_nil. by rewrite length_contents.
Qed.

Lemma modify_at_spec f b (i : nat) :
  wf b -> (i < length (contents b))%nat ->
  wf (modify_at f (pos_of b (Z.of_nat i)) b) /\
  contents (modify_at f (pos_of b (Z.of_nat i)) b) = alter f i (contents b).
Proof.
  intros Hw Hi. set (b' := modify_at _ _ _).
  assert (entry_size b' = entry_size b) as Hn by (unfold entry_size, b'; simpl; by rewrite length_alter).
  assert (wf b') as Hw' by (unfold wf; by rewrite Hn). split; [done|].
  pose proof (count_range b Hw). pose proof Hw as (? & ? & ?).
  assert (count b' = count b) as Hc by (unfold count, index_of; by rewrite Hn).
  assert (pos_of b' = pos_of b) as Hp by (unfold pos_of; by rewrite Hn).
  rewrite length_contents in Hi by done.
  apply list_eq. intros j. rewrite lookup_contents, Hc, Hp by done.
  destruct (decide (j = i)) as [->|Hne].
  - rewrite list_lookup_alter_eq, lookup_contents by done. destruct (decide _); [|lia].
    simpl. by rewrite list_lookup_alter_eq.
  - rewrite list_lookup_alter_ne, lookup_contents by done. destruct (decide _); [|done].
    apply list_lookup_alter_ne. intros He.
    pose proof (pos_of_range b (Z.of_nat i) Hw). pose proof (pos_of_range b (Z.of_nat j) Hw).
    apply Hne. apply Nat2Z.inj. rewrite <- (index_of_pos b (Z.of_nat i)), <- (index_of_pos b (Z.of_nat j)) by (done || lia).
    f_equal. lia.
Qed.

Lemma pos_of_succ b i : wf b -> circ_inc (pos_of b i) 1 b = pos_of b (i + 1).
Proof.
  intros (_ & Hh & _). rewrite circ_inc_mod by lia. unfold pos_of.
  rewrite Zplus_mod_idemp_l. f_equal. lia.
Qed.

Lemma pos_of_count b : wf b -> pos_of b (count b) = tail_ b.
Proof. intros Hw. unfold count. apply pos_of_index; [done|apply Hw]. Qed.

Lemma pos_of_0 b : wf b -> pos_of b 0 = head_ b.
Proof. intros (_ & Hh & _). unfold pos_of. rewrite Z.add_0_r, Z.mod_small; lia. Qed.

(** An iterator that has not reached the end differs from the end. *)
Lemma it_eq_end b i : wf b -> 0 <= i <= count b -> it_eq b (pos_of b i) (end_ b) = (i =? count b).
Proof.
  intros Hw Hi. pose proof Hw as (Hs & Hh & Ht). pose proof (count_range b Hw).
  rewrite it_eq_spec by (done || by apply pos_of_range). unfold end_.
  rewrite <- (pos_of_count b) by done.
  destruct (Z.eqb_spec i (count b)) as [->|Hne]; [by apply Z.eqb_refl|].
  apply Z.eqb_neq. intros He. apply Hne. rewrite <- (index_of_pos b i), He by (done || lia).
  apply index_of_pos; [done|lia].
Qed.

Lemma for_each_from_spec turns f b (i : nat) :
  wf b -> (i <= length (contents b) <= i + turns)%nat ->
  let b' := for_each_from turns f (pos_of b (Z.of_nat i)) (end_ b) b in
  wf b' /\ contents b' = take i (contents b) ++ (f <$> drop i (contents b)) /\
  sz_ b' = sz_ b /\ head_ b' = head_ b /\ tail_ b' = tail_ b /\ entry_size b' = entry_size b.
Proof.
  revert b i. induction turns as [|turns IH]; intros b i Hw Hi; cbn [for_each_from].
  { split; [done|]. rewrite take_ge, drop_ge, app_nil_r by lia. done. }
  pose proof (length_contents b Hw) as Hl. pose proof (count_range b Hw).
  rewrite it_eq_end by (done || lia). destruct (Z.eqb_spec (Z.of_nat i) (count b)) as [He|Hne].
  { split; [done|]. rewrite take_ge, drop_ge, app_nil_r by lia. done. }
  destruct (modify_at_spec f b i Hw ltac:(lia)) as [Hw' Hc'].
  set (b1 := modify_at _ _ _) in *.
  assert (entry_size b1 = entry_size b) as Hn by (unfold entry_size, b1; simpl; by rewrite length_alter).
  replace (circ_inc (pos_of b (Z.of_nat i)) 1 b1) with (pos_of b1 (Z.of_nat (S i))).
  2: { rewrite Nat2Z.inj_succ, <- Z.add_1_r, <- pos_of_succ by done. unfold pos_of. by rewrite Hn. }
  destruct (IH b1 (S i) Hw' ltac:(rewrite Hc', length_alter; lia)) as (Hw2 & Hc2 & E1 & E2 & E3 & E4).
  change (end_ b1) with (end_ b) in *.
  split; [done|]. split; [|rewrite E1, E2, E3, E4, Hn; done]. rewrite Hc2, Hc'.
  destruct (lookup_lt_is_Some_2 (contents b) i ltac:(lia)) as [x Hx].
  rewrite drop_alter_lt by lia. rewrite (drop_S (contents b) x i Hx). simpl.
  rewrite (take_S_r _ _ (f x)) by (by rewrite list_lookup_alter_eq, Hx).
  rewrite take_alter_ge by lia. by rewrite <- (assoc_L (++)).
Qed.

Lemma for_each_spec f b :
  wf b -> wf (for_each f b) /\ contents (for_each f b) = f <$> contents b /\
  sz_ (for_each f b) = sz_ b /\ head_ (for_each f b) = head_ b /\
  tail_ (for_each f b) = tail_ b /\ entry_size (for_each f b) = entry_size b.
Proof.
  intros Hw. pose proof (for_each_from_spec (length (entry_ b)) f b 0 Hw) as H.
  change (Z.of_nat 0) with 0 in H. rewrite (pos_of_0 b Hw) in H. apply H.
  rewrite length_contents by done. pose proof (count_range b Hw). destruct Hw as (? & ? & ?).
  unfold entry_size in *. lia.
Qed.

(** Searching the buffer finds the first element of its contents, or the end. *)
Lemma it_find_if_from_spec turns p b (i : nat) :
  wf b -> (i <= length (contents b) < i + turns)%nat ->
  it_find_if turns p (pos_of b (Z.of_nat i)) (end_ b) b =
  pos_of b (Z.of_nat (i + Util.find_if p (drop i (contents b)))).
Proof.
  revert i. induction turns as [|turns IH]; intros i Hw Hi; cbn [it_find_if]; [lia|].
  pose proof (length_contents b Hw) as Hl. pose proof (count_range b Hw).
  rewrite it_eq_end by (done || lia). destruct (Z.eqb_spec (Z.of_nat i) (count b)) as [He|Hne].
  { rewrite drop_ge by lia. simpl. rewrite Nat.add_0_r, He, pos_of_count; done. }
  destruct (lookup_lt_is_Some_2 (contents b) i ltac:(lia)) as [x Hx].
  rewrite (drop_S _ x i Hx). simpl. pose proof Hx as Hx'. rewrite lookup_contents in Hx' by done.
  destruct (decide _); [|done]. rewrite Hx'. destruct (p x); [by rewrite Nat.add_0_r|].
  rewrite pos_of_succ by done. replace (Z.of_nat i + 1) with (Z.of_nat (S i)) by lia.
  rewrite IH by (done || lia). do 2 f_equal. lia.
Qed.

Definition it_find (p : T -> bool) b : Z := it_find_if (length (entry_ b)) p (begin_ b) (end_ b) b.

Lemma it_find_spec p b : wf b -> it_find p b = pos_of b (Z.of_nat (Util.find_if p (contents b))).
Proof.
  intros Hw. unfold it_find, begin_. rewrite <- (pos_of_0 b Hw). change 0 with (Z.of_nat 0).
  rewrite it_find_if_from_spec; [done|done|].
  rewrite length_contents by done. pose proof (count_range b Hw). destruct Hw as (? & ? & ?).
  unfold entry_size in *. lia.
Qed.

(** ** The order of iterators

    [operator<] says that an iterator precedes another when it does, and also
    when it follows it across the end of the vector. *)
Lemma it_lt_spec b i j :
  wf b -> 0 <= i < entry_size b -> 0 <= j < entry_size b ->
  it_lt b (pos_of b i) (pos_of b j) =
    (i <? j) || ((j <? i) && (pos_of b i <? head_ b) && (head_ b <=? pos_of b j)).
Proof.
  intros Hw Hi Hj. unfold it_lt. rewrite it_diff_spec by (done || by apply pos_of_range).
  pose proof (pos_of_range b i Hw) as Hpi. pose proof (pos_of_range b j Hw) as Hpj.
  pose proof (index_of_cases b (pos_of b i) Hw Hpi) as Ei.
  pose proof (index_of_cases b (pos_of b j) Hw Hpj) as Ej.
  rewrite !index_of_pos in * by done. destruct Hw as (_ & Hh & _).
  destruct (Z.ltb_spec (pos_of b i) (head_ b)), (Z.ltb_spec (pos_of b j) (head_ b)),
    (Z.leb_spec (head_ b) (pos_of b j)), (Z.ltb_spec i j), (Z.ltb_spec j i); simpl;
    try lia; first [apply Z.ltb_lt; lia | apply Z.ltb_ge; lia].
Qed.

(** ** Partition points *)

Lemma partition_point_from_spec turns p b (a len k : nat) :
  wf b -> (a + len <= length (contents b))%nat -> (len < turns)%nat -> (a <= k <= a + len)%nat ->
  (forall i x, contents b !! i = Some x -> p x = bool_decide (i < k)%nat) ->
  partition_point_from turns p (pos_of b (Z.of_nat a)) (Z.of_nat len) b = pos_of b (Z.of_nat k).
Proof.
  intros Hw. revert a len. induction turns as [|turns IH]; intros a len Hl Ht Hk Hp; [lia|].
  cbn [partition_point_from]. destruct (Z.ltb_spec 0 (Z.of_nat len)) as [Hlen|Hlen].
  2: { replace k with a by lia. done. }
  replace (Z.of_nat len / 2) with (Z.of_nat (len / 2)) by (rewrite Nat2Z.inj_div; done).
  assert (len / 2 < len)%nat by (apply Nat.div_lt; lia). set (h := (len / 2)%nat) in *.
  pose proof Hw as (_ & Hh & _).
  assert (circ_inc (pos_of b (Z.of_nat a)) (Z.of_nat h) b = pos_of b (Z.of_nat (a + h))) as ->.
  { rewrite circ_inc_mod by lia. unfold pos_of. rewrite Zplus_mod_idemp_l. f_equal. lia. }
  destruct (lookup_lt_is_Some_2 (contents b) (a + h) ltac:(lia)) as [x Hx].
  pose proof Hx as Hx'. rewrite lookup_contents in Hx' by done. destruct (decide _); [|done].
  rewrite Hx', (Hp _ _ Hx). case_bool_decide.
  - rewrite pos_of_succ by done. replace (Z.of_nat (a + h) + 1) with (Z.of_nat (S (a + h))) by lia.
    replace (Z.of_nat len - Z.of_nat h - 1) with (Z.of_nat (len - h - 1)) by lia.
    apply IH; [lia..|done].
  - apply IH; [lia..|done].
Qed.

(** The result is an iterator of the buffer in any case. *)
Lemma partition_point_from_range turns p b (a len : nat) :
  wf b -> (a + len <= length (contents b))%nat ->
  exists k, (a <= k <= a + len)%nat /\
  partition_point_from turns p (pos_of b (Z.of_nat a)) (Z.of_nat len) b = pos_of b (Z.of_nat k).
Proof.
  intros Hw. revert a len. induction turns as [|turns IH]; intros a len Hl; cbn [partition_point_from].
  { exists a. split; [lia|done]. }
  destruct (Z.ltb_spec 0 (Z.of_nat len)) as [Hlen|Hlen]; [|exists a; split; [lia|done]].
  replace (Z.of_nat len / 2) with (Z.of_nat (len / 2)) by (rewrite Nat2Z.inj_div; done).
  assert (len / 2 < len)%nat by (apply Nat.div_lt; lia). set (h := (len / 2)%nat) in *.
  pose proof Hw as (_ & Hh & _).
  assert (circ_inc (pos_of b (Z.of_nat a)) (Z.of_nat h) b = pos_of b (Z.of_nat (a + h))) as ->.
  { rewrite circ_inc_mod by lia. unfold pos_of. rewrite Zplus_mod_idemp_l. f_equal. lia. }
  destruct (entry_ b !! _) as [x|]; [|exists a; split; [lia|done]].
  rewrite pos_of_succ by done. replace (Z.of_nat (a + h) + 1) with (Z.of_nat (S (a + h))) by lia.
  replace (Z.of_nat len - Z.of_nat h - 1) with (Z.of_nat (len - h - 1)) by lia.
  destruct (p x).
  - destruct (IH (S (a + h)) (len - h - 1)%nat) as (k & Hk & E); [lia|]. exists k. split; [lia|done].
  - destruct (IH a h) as (k & Hk & E); [lia|]. exists k. split; [lia|done].
Qed.

Lemma partition_point_range p b :
  wf b -> exists k, (k <= length (contents b))%nat /\ partition_point p b = pos_of b (Z.of_nat k).
Proof.
  intros Hw. unfold partition_point. fold (occupancy b). rewrite occupancy_count by done.
  pose proof (count_range b Hw). pose proof (length_contents b Hw) as Hl.
  unfold begin_. rewrite <- (pos_of_0 b Hw).
  replace (count b) with (Z.of_nat (length (contents b))) by lia.
  destruct (partition_point_from_range (S (length (entry_ b))) p b 0 (length (contents b)) Hw) as (k & Hk & E); [lia|].
  exists k. split; [lia|]. exact E.
Qed.

(** On a partitioned buffer the result is the first element of the second part. *)
Lemma partition_point_spec p b (k : nat) :
  wf b -> (k <= length (contents b))%nat ->
  (forall i x, contents b !! i = Some x -> p x = bool_decide (i < k)%nat) ->
  partition_point p b = pos_of b (Z.of_nat k).
Proof.
  intros Hw Hk Hp. unfold partition_point. fold (occupancy b). rewrite occupancy_count by done.
  pose proof (count_range b Hw). pose proof (length_contents b Hw) as Hl.
  unfold begin_. rewrite <- (pos_of_0 b Hw). change 0 with (Z.of_nat 0) at 1.
  replace (count b) with (Z.of_nat (length (contents b))) by lia.
  destruct Hw as (? & ? & ?) eqn:E. unfold entry_size in *.
  apply partition_point_from_spec; [done|lia|lia|lia|done].
Qed.

End Buffer.
End Circ.

Module Delay.
Import Circ.

Record delay_queue (T : Type) := mkDQ {
  dq_sz : Z;
  _buf : circular_buffer T;
  _delays : circular_buffer Z;
  _latency : Z;
  _end_ready : Z;
}.
Arguments mkDQ {T}.
Arguments dq_sz {T}.
Arguments _buf {T}.
Arguments _delays {T}.
Arguments _latency {T}.
Arguments _end_ready {T}.

#[global] Instance eta_dq T : Settable (delay_queue T) :=
  mkEta _ (fun x => mkDQ (dq_sz x) (_buf x) (_delays x) (_latency x) (_end_ready x)).

Section Queue.
Context {T : Type}.
Implicit Types q : delay_queue T.

Definition new_delay_queue (dflt : T) (size : nat) (latency : Z) : delay_queue T :=
  mkDQ (Z.of_nat size) (new_circular_buffer dflt size) (new_circular_buffer 0 size) latency 0.

Definition dq_size q : Z := dq_sz q.
Definition dq_occupancy q : Z := occupancy (_buf q).
Definition dq_empty q : bool := dq_occupancy q =? 0.
Definition dq_full q : bool := full (_buf q).
Definition dq_front q : cres T := front (_buf q).
Definition end_ready q : Z := _end_ready q.
Definition has_ready q : bool := negb (it_eq (_buf q) (begin_ (_buf q)) (end_ready q)).
Definition dq_clear q : delay_queue T := q <| _buf ::= clear |>.

Definition dq_push_back (item : T) q : cres (delay_queue T) :=
  let* buf := push_back item (_buf q) in
  let* delays := push_back (_latency q) (_delays q) in
  Ret (q <| _buf := buf |> <| _delays := delays |>).

Definition dq_pop_front q : cres (delay_queue T) :=
  let* buf := pop_front (_buf q) in
  let* delays := pop_front (_delays q) in
  Ret (q <| _buf := buf |> <| _delays := delays |>).

Definition push_back_ready (item : T) q : cres (delay_queue T) :=
  let* buf := push_back item (_buf q) in
  let* delays := push_back 0 (_delays q) in
  Ret (q <| _buf := buf |> <| _delays := delays |>).

Definition operate q : delay_queue T :=
  let q := q <| _delays ::= for_each (fun x => x - 1) |> in
  let delay_it := partition_point (fun x => x <=? 0) (_delays q) in
  q <| _end_ready := circ_inc (begin_ (_buf q)) (it_diff (_delays q) delay_it (begin_ (_delays q))) (_buf q) |>.

(** ** The abstract queue: elements, their delays and how many are released *)

Definition items q : list T := contents (_buf q).
Definition delays q : list Z := contents (_delays q).
Definition ready q : nat := Z.to_nat (index_of (_buf q) (_end_ready q)).

Definition dq_wf q : Prop :=
  wf (_buf q) /\ wf (_delays q) /\ head_ (_delays q) = head_ (_buf q) /\
  tail_ (_delays q) = tail_ (_buf q) /\ sz_ (_delays q) = sz_ (_buf q) /\
  0 <= _end_ready q < entry_size (_buf q) /\ (ready q <= length (items q))%nat.

(** The prefix of the delays that has run out. *)
Definition expired (ds : list Z) : nat := Util.find_if (fun d => 0 <? d) ds.

(** The delays do not decrease towards the back. *)
Definition ordered (ds : list Z) : Prop :=
  forall i j d e, ds !! i = Some d -> ds !! j = Some e -> (i <= j)%nat -> d <= e.

(** ** Lemmas *)

Lemma dq_wf_sizes q : dq_wf q -> entry_size (_delays q) = entry_size (_buf q).
Proof. intros (Hb & Hd & _ & _ & Hs & _). destruct Hb, Hd. lia. Qed.

Lemma length_delays q : dq_wf q -> length (delays q) = length (items q).
Proof.
  intros Hw. pose proof (dq_wf_sizes q Hw) as Hn. destruct Hw as (Hb & Hd & Hh & Ht & _).
  unfold items, delays. rewrite !length_contents by done. unfold count, index_of.
  by rewrite Hn, Hh, Ht.
Qed.

Lemma has_ready_spec q : dq_wf q -> has_ready q = bool_decide (0 < ready q)%nat.
Proof.
  intros (Hb & Hd & _ & _ & _ & He & Hr). unfold has_ready, end_ready, begin_, ready.
  pose proof Hb as (_ & Hh & _). rewrite it_eq_spec by done.
  rewrite (index_of_cases _ _ Hb He).
  destruct (Z.eqb_spec (head_ (_buf q)) (_end_ready q)) as [Heq|Hne];
    destruct (Z.ltb_spec (_end_ready q) (head_ (_buf q))); simpl;
    symmetry; first [apply bool_decide_eq_false | apply bool_decide_eq_true]; lia.
Qed.

Lemma dq_full_spec q : dq_wf q -> dq_full q = bool_decide (Z.of_nat (length (items q)) = sz_ (_buf q)).
Proof. intros (Hb & _). by apply full_spec. Qed.

Lemma dq_occupancy_spec q : dq_wf q -> dq_occupancy q = Z.of_nat (length (items q)).
Proof.
  intros (Hb & _). unfold dq_occupancy, items. rewrite occupancy_count, length_contents by done.
  pose proof (count_range _ Hb). lia.
Qed.

Lemma dq_front_spec q x l : dq_wf q -> items q = x :: l -> dq_front q = Ret x.
Proof. intros (Hb & _). by apply front_spec. Qed.

Lemma ready_with (b b' : circular_buffer T) e :
  head_ b' = head_ b -> entry_size b' = entry_size b -> index_of b' e = index_of b e.
Proof. intros Hh Hn. unfold index_of. by rewrite Hh, Hn. Qed.

Lemma new_delay_queue_spec (dflt : T) n latency :
  let q := new_delay_queue dflt n latency in
  dq_wf q /\ items q = [] /\ delays q = [] /\ ready q = 0%nat /\ dq_sz q = sz_ (_buf q).
Proof.
  intros q. destruct (new_circular_buffer_spec dflt n) as [Hw Hc]. destruct (new_circular_buffer_spec 0 n) as [Hw0 Hc0].
  assert (ready q = 0%nat) as Hr by done.
  split; [|done]. split; [exact Hw|]. split; [exact Hw0|]. do 3 (split; [done|]).
  split; [|rewrite Hr; lia]. unfold entry_size, q. cbn. rewrite length_replicate. lia.
Qed.

(** Both pushes append an element that is not released yet. *)
Lemma push_spec (item : T) d q :
  dq_wf q ->
  let r := let* buf := push_back item (_buf q) in
           let* delays := push_back d (_delays q) in
           Ret (q <| _buf := buf |> <| _delays := delays |>) in
  if bool_decide (Z.of_nat (length (items q)) = sz_ (_buf q)) then r = Abort "!full()"
  else exists q', r = Ret q' /\ dq_wf q' /\ items q' = items q ++ [item] /\
       delays q' = delays q ++ [d] /\ ready q' = ready q /\
       sz_ (_buf q') = sz_ (_buf q) /\ _latency q' = _latency q /\ dq_sz q' = dq_sz q.
Proof.
  intros Hw. pose proof (length_delays q Hw) as Hl. pose proof (dq_wf_sizes q Hw) as Hn.
  pose proof Hw as (Hb & Hd & Hh & Ht & Hs & He & Hr).
  pose proof (push_back_spec (_buf q) item Hb) as H1. pose proof (push_back_spec (_delays q) d Hd) as H2.
  unfold items, delays in *. rewrite Hs, Hl in H2. case_bool_decide; [by rewrite H1|].
  destruct H1 as (b1 & -> & Hw1 & Hc1 & S1 & Hh1 & N1 & T1).
  destruct H2 as (b2 & E2 & Hw2 & Hc2 & S2 & Hh2 & N2 & T2). simpl. rewrite E2. simpl.
  eexists. split; [done|]. unfold ready in *. simpl. rewrite (ready_with (_buf q)) by done.
  split; [|done]. split; [done|]. split; [done|]. simpl.
  assert (tail_ b2 = tail_ b1) as Htl.
  { rewrite T1, T2. pose proof Hb as (_ & ? & _). rewrite !circ_inc_mod by lia. by rewrite Ht, Hn. }
  unfold ready, items. simpl. rewrite (ready_with (_buf q)), Hc1, length_app by done.
  repeat split; lia.
Qed.

Lemma dq_push_back_spec item q :
  dq_wf q ->
  if bool_decide (Z.of_nat (length (items q)) = sz_ (_buf q)) then dq_push_back item q = Abort "!full()"
  else exists q', dq_push_back item q = Ret q' /\ dq_wf q' /\ items q' = items q ++ [item] /\
       delays q' = delays q ++ [_latency q] /\ ready q' = ready q /\
       sz_ (_buf q') = sz_ (_buf q) /\ _latency q' = _latency q /\ dq_sz q' = dq_sz q.
Proof. apply push_spec. Qed.

Lemma push_back_ready_spec item q :
  dq_wf q ->
  if bool_decide (Z.of_nat (length (items q)) = sz_ (_buf q)) then push_back_ready item q = Abort "!full()"
  else exists q', push_back_ready item q = Ret q' /\ dq_wf q' /\ items q' = items q ++ [item] /\
       delays q' = delays q ++ [0] /\ ready q' = ready q /\
       sz_ (_buf q') = sz_ (_buf q) /\ _latency q' = _latency q /\ dq_sz q' = dq_sz q.
Proof. apply push_spec. Qed.

(** Popping a released element. *)
Lemma dq_pop_front_spec q x l :
  dq_wf q -> items q = x :: l -> (0 < ready q)%nat ->
  exists q', dq_pop_front q = Ret q' /\ dq_wf q' /\ items q' = l /\ delays q' = tail (delays q) /\
  ready q' = (ready q - 1)%nat /\ sz_ (_buf q') = sz_ (_buf q) /\ _latency q' = _latency q /\ dq_sz q' = dq_sz q.
Proof.
  intros Hw Hx Hready. pose proof (length_delays q Hw) as Hl. pose proof (dq_wf_sizes q Hw) as Hn.
  pose proof Hw as (Hb & Hd & Hh & Ht & Hs & He & Hr).
  pose proof (pop_front_spec (_buf q) Hb) as H1. pose proof (pop_front_spec (_delays q) Hd) as H2.
  unfold items, delays in *. rewrite Hx in H1, Hl. destruct (contents (_delays q)) as [|d ds]; [done|].
  destruct H1 as (b1 & E1 & Hw1 & Hc1 & S1 & T1 & N1 & Hh1).
  destruct H2 as (b2 & E2 & Hw2 & Hc2 & S2 & T2 & N2 & Hh2).
  unfold dq_pop_front. rewrite E1. simpl. rewrite E2. simpl. eexists. split; [done|].
  assert (head_ b2 = head_ b1) as Hhd.
  { rewrite Hh1, Hh2. pose proof Hb as (_ & ? & _). rewrite !circ_inc_mod by lia. by rewrite Hh, Hn. }
  assert (index_of b1 (_end_ready q) = index_of (_buf q) (_end_ready q) - 1) as Hix.
  { pose proof (index_of_range (_buf q) (_end_ready q) Hb). unfold index_of in *.
    pose proof Hb as (_ & ? & _). rewrite Hh1, N1, circ_inc_mod by lia.
    rewrite Zminus_mod_idemp_r.
    replace (_end_ready q - (head_ (_buf q) + 1)) with (_end_ready q - head_ (_buf q) - 1) by lia.
    rewrite <- Zminus_mod_idemp_l. apply Z.mod_small. unfold ready, index_of in Hready. lia. }
  unfold ready in *. simpl in *. rewrite Hix. rewrite Hx in Hr. simpl in Hr.
  split; [|repeat split; try done; lia].
  split; [done|]. split; [done|]. unfold ready, items. simpl. rewrite Hix, Hc1.
  repeat split; try lia.
Qed.

Lemma ordered_partitioned ds i d :
  ordered ds -> ds !! i = Some d -> (d <=? 0) = bool_decide (i < expired ds)%nat.
Proof.
  intros Ho Hi. unfold expired. case_bool_decide as Hlt.
  - pose proof (Util.find_if_before _ _ _ _ Hi Hlt) as Hp. simpl in Hp. lia.
  - pose proof (Util.find_if_le (fun d => 0 <? d) ds).
    assert (Util.find_if (fun d : Z => (0 <? d)%Z) ds < length ds)%nat as Hf.
    { apply lookup_lt_Some in Hi. lia. }
    apply Util.find_if_Some in Hf as (e & He & Hp). simpl in Hp.
    specialize (Ho _ _ _ _ He Hi ltac:(lia)). lia.
Qed.

(** One cycle: every delay is one less, and the released elements are those up
    to the partition point. *)
Lemma operate_point q k :
  dq_wf q -> (k <= length (items q))%nat ->
  partition_point (fun x => x <=? 0) (for_each (fun x => x - 1) (_delays q)) =
    pos_of (for_each (fun x => x - 1) (_delays q)) (Z.of_nat k) ->
  dq_wf (operate q) /\ items (operate q) = items q /\ delays (operate q) = Z.pred <$> delays q /\
  ready (operate q) = k /\
  sz_ (_buf (operate q)) = sz_ (_buf q) /\ _latency (operate q) = _latency q /\ dq_sz (operate q) = dq_sz q.
Proof.
  intros Hw Hk Hpp. pose proof (length_delays q Hw) as Hl. pose proof (dq_wf_sizes q Hw) as Hn.
  pose proof Hw as (Hb & Hd & Hh & Ht & Hs & He & Hr).
  destruct (for_each_spec (fun x => x - 1) (_delays q) Hd) as (Hw2 & Hc2 & S2 & Hh2 & T2 & N2).
  set (d2 := for_each _ _) in *. fold (delays q) in Hc2.
  assert ((fun x => x - 1) <$> delays q = Z.pred <$> delays q) as Hpred.
  { apply list_fmap_ext. intros ? x _. lia. }
  rewrite Hpred in Hc2. pose proof (count_range (_buf q) Hb) as Hcr.
  pose proof (length_contents (_buf q) Hb) as Hlc. pose proof Hb as (Hsz & Hhd & _). fold (items q) in Hlc.
  assert (it_diff d2 (partition_point (fun x => x <=? 0) d2) (begin_ d2) = Z.of_nat k) as Hdiff.
  { rewrite Hpp. unfold begin_. rewrite it_diff_spec; [|done|by apply pos_of_range|rewrite Hh2, N2; lia].
    rewrite index_of_pos by (done || lia).
    assert (index_of d2 (head_ d2) = 0) as -> by (unfold index_of; by rewrite Z.sub_diag, Z.mod_0_l by lia).
    destruct (Bool.eqb _ _); lia. }
  assert (_end_ready (operate q) = pos_of (_buf q) (Z.of_nat k)) as Hend.
  { unfold operate. simpl. fold d2. rewrite Hdiff. unfold begin_. rewrite circ_inc_mod by lia. done. }
  assert (ready (operate q) = k) as Hrk.
  { unfold ready. rewrite Hend. change (_buf (operate q)) with (_buf q).
    rewrite index_of_pos by (done || lia). lia. }
  assert (delays (operate q) = Z.pred <$> delays q) as Hdl by exact Hc2.
  split; [|rewrite Hrk, Hdl; done].
  split; [done|]. split; [done|]. change (_delays (operate q)) with d2.
  change (_buf (operate q)) with (_buf q). rewrite Hh2, T2, S2, Hend, Hrk.
  change (items (operate q)) with (items q).
  pose proof (pos_of_range (_buf q) (Z.of_nat k) Hb). done.
Qed.

Lemma operate_wf q :
  dq_wf q -> dq_wf (operate q) /\ items (operate q) = items q /\ delays (operate q) = Z.pred <$> delays q /\
  sz_ (_buf (operate q)) = sz_ (_buf q) /\ dq_sz (operate q) = dq_sz q.
Proof.
  intros Hw. pose proof (length_delays q Hw) as Hl. pose proof Hw as (_ & Hd & _).
  destruct (for_each_spec (fun x => x - 1) (_delays q) Hd) as (Hw2 & Hc2 & _).
  destruct (partition_point_range (fun x => x <=? 0) _ Hw2) as (k & Hk & E).
  rewrite Hc2, length_fmap in Hk. fold (delays q) in Hk. rewrite Hl in Hk.
  destruct (operate_point q k Hw Hk E) as (? & ? & ? & ? & ? & ? & ?). done.
Qed.

(** When the delays are in order, what has run out is released. *)
Lemma operate_spec q :
  dq_wf q -> ordered (delays q) ->
  dq_wf (operate q) /\ items (operate q) = items q /\ delays (operate q) = Z.pred <$> delays q /\
  ready (operate q) = expired (Z.pred <$> delays q) /\ ordered (delays (operate q)).
Proof.
  intros Hw Ho. pose proof (length_delays q Hw) as Hl. pose proof Hw as (_ & Hd & _).
  destruct (for_each_spec (fun x => x - 1) (_delays q) Hd) as (Hw2 & Hc2 & _).
  assert ((fun x => x - 1) <$> delays q = Z.pred <$> delays q) as Hpred.
  { apply list_fmap_ext. intros ? x _. lia. }
  fold (delays q) in Hc2. rewrite Hpred in Hc2. assert (ordered (Z.pred <$> delays q)) as Ho2.
  { intros i j d e. rewrite !list_lookup_fmap, !fmap_Some. intros (d' & Hd' & ->) (e' & He' & ->) Hij.
    specialize (Ho i j d' e' Hd' He' Hij). lia. }
  assert (expired (Z.pred <$> delays q) <= length (items q))%nat as Hexp.
  { etrans; [apply Util.find_if_le|]. by rewrite length_fmap, Hl. }
  destruct (operate_point q (expired (Z.pred <$> delays q)) Hw Hexp) as (H1 & H2 & H3 & H4 & _).
  { apply partition_point_spec; [done|rewrite Hc2, length_fmap, Hl; done|].
    rewrite Hc2. intros i x Hi. by apply ordered_partitioned. }
  rewrite H3. done.
Qed.

(** Several cycles. *)
Lemma operate_iter q k :
  dq_wf q -> ordered (delays q) ->
  let r := Nat.iter (S k) operate q in
  dq_wf r /\ ordered (delays r) /\ items r = items q /\
  delays r = (fun d => d - Z.of_nat (S k)) <$> delays q /\ ready r = expired (delays r).
Proof.
  intros Hw Ho. induction k as [|k IH]; cbn zeta.
  - simpl Nat.iter. destruct (operate_spec q Hw Ho) as (Hw1 & Hi1 & Hd1 & Hr1 & Ho1).
    rewrite Hi1, Hr1, Hd1 in *. split; [done|]. split; [done|]. split; [done|]. split; [|done].
    apply list_fmap_ext. intros ? x _. lia.
  - cbn zeta in IH. destruct IH as (Hw0 & Ho0 & Hi0 & Hd0 & _).
    set (r := Nat.iter (S k) operate q) in *. change (Nat.iter (S (S k)) operate q) with (operate r).
    destruct (operate_spec r Hw0 Ho0) as (Hw1 & Hi1 & Hd1 & Hr1 & Ho1).
    rewrite Hi1, Hr1, Hd1 in *. split; [done|]. split; [done|]. split; [done|]. split; [|done].
    rewrite Hd0, <- list_fmap_compose. apply list_fmap_ext. intros ? x _. simpl. lia.
Qed.

Lemma expired_all ds : expired ds = length ds <-> Forall (fun d => d <= 0) ds.
Proof.
  unfold expired. rewrite Util.find_if_end, !Forall_lookup.
  split; intros H i d Hi; specialize (H i d Hi); simpl in *; lia.
Qed.

End Queue.

(** An element pushed behind elements whose delays are in order and at most the latency of
    the queue, with room for it, and with nothing taken out or pushed meanwhile, is released exactly when
    [operate] has run as often as the latency says, and at least once; elements stay in order. *)
Theorem delay_queue_releases {T} (q : delay_queue T) item k :
  dq_wf q -> ordered (delays q) -> Forall (fun d => d <= _latency q) (delays q) ->
  Z.of_nat (length (items q)) < sz_ (_buf q) -> (0 < k)%nat ->
  exists q', dq_push_back item q = Ret q' /\
  let r := Nat.iter k operate q' in
  items r = items q ++ [item] /\
  ready r = expired ((fun d => d - Z.of_nat k) <$> delays q ++ [_latency q]) /\
  (ready r = length (items r) <-> _latency q <= Z.of_nat k).
Proof.
  intros Hw Ho Hlat Hroom Hk. pose proof (dq_push_back_spec item q Hw) as H.
  rewrite bool_decide_eq_false_2 in H by lia. destruct H as (q' & -> & Hw' & Hi & Hd & _).
  exists q'. split; [done|]. destruct k as [|k]; [lia|].
  assert (ordered (delays q')) as Ho'.
  { rewrite Hd. rewrite Forall_lookup in Hlat. intros i j d e [Hi'|[Hi' Hd']]%lookup_app_Some.
    - intros [Hj'|[Hj' He']]%lookup_app_Some Hij; [by apply (Ho i j)|].
      apply list_lookup_singleton_Some in He' as [_ <-]. by apply (Hlat i).
    - apply list_lookup_singleton_Some in Hd' as [? <-].
      intros [Hj'|[Hj' He']]%lookup_app_Some Hij.
      + apply lookup_lt_Some in Hj'. lia.
      + apply list_lookup_singleton_Some in He' as [_ <-]. done. }
  destruct (operate_iter q' k Hw' Ho') as (Hwr & _ & Hir & Hdr & Hrr).
  set (r := Nat.iter (S k) operate q') in *. cbn zeta. rewrite Hir, Hrr, Hdr, Hd, Hi in *.
  split; [done|]. split; [done|].
  rewrite length_app. simpl length. pose proof (length_delays q Hw) as Hl.
  replace (length (items q) + 1)%nat with (length ((fun d => d - Z.of_nat (S k)) <$> delays q ++ [_latency q]))
    by (rewrite length_fmap, length_app, Hl; done).
  rewrite expired_all, fmap_app, Forall_app. simpl. rewrite list.Forall_cons.
  split; [intros (_ & ? & _); lia|]. intros Hle. split; [|split; [lia|done]].
  apply Forall_fmap. eapply Forall_impl; [|exact Hlat]. intros d Hd'. simpl in *. lia.
Qed.

(** Mixed with elements that need not wait, an element is released before its
    delay has run out: the range is not partitioned. *)
Theorem mixed_delays_release_early {T} (x y : T) L q1 q2 :
  2 <= L -> dq_push_back x (new_delay_queue x 2 L) = Ret q1 -> push_back_ready y q1 = Ret q2 ->
  ready (operate q2) = 2%nat /\ exists d, delays (operate q2) = [d; -1] /\ 0 < d.
Proof.
  intros HL H1 H2. injection H1 as <-. injection H2 as <-. split; [done|]. exists (L - 1). split; [done|lia].
Qed.

Lemma delay_queue_releases_witness :
  let q := new_delay_queue 0 4 3 in
  exists q', dq_push_back 7 q = Ret q' /\ items (Nat.iter 3 operate q') = [7] /\ ready (Nat.iter 2 operate q') = 0%nat /\
  ready (Nat.iter 3 operate q') = 1%nat.
Proof.
  intros q. destruct (new_delay_queue_spec 0 4 3) as (Hw & Hi & Hd & _). fold q in Hw, Hi, Hd.
  destruct (delay_queue_releases q 7 3 Hw) as (q' & E & Hi' & _ & Hr);
    [rewrite Hd; intros i j d e H; by rewrite lookup_nil in H|rewrite Hd; constructor|reflexivity|lia|].
  exists q'. split; [exact E|]. split; [exact Hi'|]. injection E as <-. split; reflexivity.
Defined.

Lemma mixed_delays_witness :
  exists q : delay_queue Z, ready (operate q) = 2%nat /\ exists d, delays (operate q) = [d; -1] /\ 0 < d.
Proof.
  destruct (dq_push_back 1 (new_delay_queue 1 2 5)) as [q1|] eqn:E1; [|discriminate].
  destruct (push_back_ready 2 q1) as [q2|] eqn:E2; [|injection E1 as <-; discriminate].
  exists q2. apply (mixed_delays_release_early 1 2 5 q1 q2); [lia|exact E1|exact E2].
Defined.

End Delay.
