(* ===== verification/SimVmem.v ===== *)
(** * ChampSim: virtual memory

    src/vmem.cc: the translation of virtual pages to physical pages and the
    pages that hold page tables. *)

From S2P Require Import Prelude SimUtil.
Import Util.
Local Open Scope c_scope.

Module Vmem.
Section Vmem.
Context `{Config}.

Definition LOG2_PAGE_SIZE : Z := lg2 PAGE_SIZE.
Definition VMEM_RESERVE_CAPACITY : Z := 1048576.
Definition PTE_BYTES : Z := 8.

(** The maps are [std::map]s: from (cpu, virtual page) and from (cpu, prefix of
    the virtual address, level). *)
Record VirtualMemory := mkVM {
  vpage_to_ppage_map : gmap (Z * Z) Z;
  page_table : gmap (Z * Z * Z) Z;
  next_pte_page : Z;
  minor_fault_penalty : Z;
  pt_levels : Z;
  page_size : Z;
  ppage_free_list : list Z;
}.

#[global] Instance eta_VM : Settable VirtualMemory :=
  mkEta _ (fun x => mkVM (vpage_to_ppage_map x) (page_table x) (next_pte_page x)
    (minor_fault_penalty x) (pt_levels x) (page_size x) (ppage_free_list x)).

(** [front()] of a deque; undefined when it is empty. *)
Definition deque_front (l : list Z) : cres Z :=
  match l with
  | x :: _ => Ret x
  | [] => Abort "front() of an empty deque"
  end.

(** [std::partial_sum] *)
Fixpoint partial_sum_from (acc : Z) (l : list Z) : list Z :=
  match l with
  | [] => []
  | x :: l => u64 (acc + x) :: partial_sum_from (u64 (acc + x)) l
  end.
Definition partial_sum (l : list Z) : list Z := partial_sum_from 0 l.

(** The constructor.  [shuffle] is [std::shuffle] with the generator of the
    given seed. *)
Definition new_VirtualMemory (shuffle : list Z -> list Z)
    (capacity pg_size page_table_levels minor_fault_penalty : Z) : cres VirtualMemory :=
  let free_list := replicate (Z.to_nat (u64 (capacity - VMEM_RESERVE_CAPACITY) / PAGE_SIZE)) PAGE_SIZE in
  let* _ := cassert (capacity mod PAGE_SIZE =? 0) "capacity % PAGE_SIZE == 0" in
  let* _ := cassert ((pg_size =? u64 (Z.shiftl 1 (lg2 pg_size))) && (1024 <? pg_size))
              "pg_size == (1ul << lg2(pg_size)) && pg_size > 1024" in
  let* _ := deque_front free_list in
  let free_list := shuffle (partial_sum (<[0%nat := VMEM_RESERVE_CAPACITY]> free_list)) in
  let* first := deque_front free_list in
  Ret (mkVM ∅ ∅ first minor_fault_penalty page_table_levels (u32 pg_size) (tail free_list)).

Definition shamt (level : Z) (vm : VirtualMemory) : Z :=
  LOG2_PAGE_SIZE + lg2 (page_size vm / PTE_BYTES) * level.

Definition get_offset (vaddr level : Z) (vm : VirtualMemory) : Z :=
  Z.land (Z.shiftr vaddr (shamt level vm)) (bitmask (lg2 (page_size vm / PTE_BYTES)) 0).

Definition va_to_pa (cpu_num vaddr : Z) (vm : VirtualMemory) : cres ((Z * bool) * VirtualMemory) :=
  let key := (cpu_num, Z.shiftr vaddr LOG2_PAGE_SIZE) in
  let* front := deque_front (ppage_free_list vm) in
  match vpage_to_ppage_map vm !! key with
  | Some ppage => Ret ((splice_bits ppage vaddr LOG2_PAGE_SIZE, false), vm)
  | None =>
    Ret ((splice_bits front vaddr LOG2_PAGE_SIZE, true),
         vm <| vpage_to_ppage_map ::= insert key front |> <| ppage_free_list ::= tail |>)
  end.

Definition get_pte_pa (cpu_num vaddr level : Z) (vm : VirtualMemory) : cres ((Z * bool) * VirtualMemory) :=
  let key := (cpu_num, Z.shiftr vaddr (shamt (level + 1) vm), level) in
  let pte ppage := splice_bits ppage (u64 (get_offset vaddr level vm * PTE_BYTES)) (lg2 (page_size vm)) in
  match page_table vm !! key with
  | Some ppage => Ret ((pte ppage, false), vm)
  | None =>
    let ppage := next_pte_page vm in
    let vm := vm <| page_table ::= insert key ppage |> in
    let vm := vm <| next_pte_page ::= fun p => u64 (p + page_size vm) |> in
    if ztrue (next_pte_page vm mod PAGE_SIZE) then
      let* front := deque_front (ppage_free_list vm) in
      Ret ((pte ppage, true), vm <| next_pte_page := front |> <| ppage_free_list ::= tail |>)
    else Ret ((pte ppage, true), vm)
  end.

(** ** Runs: any sequence of translations and page-table lookups *)

Inductive vm_op :=
| VaToPa (cpu_num vaddr : Z)
| GetPtePa (cpu_num vaddr level : Z).

Definition vm_do (op : vm_op) (vm : VirtualMemory) : cres ((Z * bool) * VirtualMemory) :=
  match op with
  | VaToPa cpu_num vaddr => va_to_pa cpu_num vaddr vm
  | GetPtePa cpu_num vaddr level => get_pte_pa cpu_num vaddr level vm
  end.

Fixpoint vm_run (ops : list vm_op) (vm : VirtualMemory) : cres VirtualMemory :=
  match ops with
  | [] => Ret vm
  | op :: ops => let* r := vm_do op vm in vm_run ops r.2
  end.

(** ** Physical pages *)

Section Pages.
(** Pages are of a power of two and the reserved space is a number of pages. *)
Context (lp : Z) (Hlp : 0 <= lp <= 20) (HPS : PAGE_SIZE = 2 ^ lp).

Lemma PAGE_SIZE_pos : 0 < PAGE_SIZE.
Proof using Hlp HPS. rewrite HPS. apply Z.pow_pos_nonneg; lia. Qed.

Lemma PAGE_SIZE_le : PAGE_SIZE <= 1048576.
Proof using Hlp HPS. rewrite HPS. change 1048576 with (2 ^ 20). apply Z.pow_le_mono_r; lia. Qed.

Lemma LOG2_PAGE_SIZE_eq : LOG2_PAGE_SIZE = lp.
Proof using Hlp HPS. unfold LOG2_PAGE_SIZE. rewrite HPS. apply lg2_pow2. lia. Qed.

(** A physical page between the reserved space and [capacity]. *)
Definition is_page (capacity p : Z) : Prop :=
  p mod PAGE_SIZE = 0 /\ VMEM_RESERVE_CAPACITY <= p < capacity.

Lemma splice_page capacity p v :
  capacity <= 2 ^ 64 -> is_page capacity p ->
  splice_bits p v LOG2_PAGE_SIZE = p + v mod PAGE_SIZE.
Proof using Hlp HPS.
  intros Hcap [Hp Hr]. unfold VMEM_RESERVE_CAPACITY in Hr.
  rewrite LOG2_PAGE_SIZE_eq, splice_bits_spec, <- HPS by lia.
  pose proof PAGE_SIZE_pos. rewrite (Z.div_mod p PAGE_SIZE) at 2 by lia. lia.
Qed.

Lemma splice_page_div capacity p v :
  capacity <= 2 ^ 64 -> is_page capacity p ->
  splice_bits p v LOG2_PAGE_SIZE / PAGE_SIZE = p / PAGE_SIZE /\
  splice_bits p v LOG2_PAGE_SIZE mod PAGE_SIZE = v mod PAGE_SIZE.
Proof using Hlp HPS.
  intros Hcap Hp. rewrite (splice_page capacity) by done. destruct Hp as [Hp _].
  pose proof PAGE_SIZE_pos. pose proof (Z.mod_pos_bound v PAGE_SIZE).
  apply Z.mod_divide in Hp as [q ->]; [|lia].
  rewrite Z.div_add_l, Z.div_mul, Z.div_small by lia.
  rewrite (Z.add_comm (q * PAGE_SIZE)), Z.mod_add, Z.mod_mod by lia. lia.
Qed.

Lemma page_inj capacity p q : is_page capacity p -> is_page capacity q -> p / PAGE_SIZE = q / PAGE_SIZE -> p = q.
Proof using Hlp HPS.
  intros [Hp _] [Hq _] He. pose proof PAGE_SIZE_pos.
  rewrite (Z.div_mod p PAGE_SIZE), (Z.div_mod q PAGE_SIZE) by lia. congruence.
Qed.

(** ** The invariant *)

Definition vm_wf (capacity : Z) (vm : VirtualMemory) : Prop :=
  (forall key p, vpage_to_ppage_map vm !! key = Some p -> is_page capacity p /\ p ∉ ppage_free_list vm) /\
  (forall k1 k2 p, vpage_to_ppage_map vm !! k1 = Some p -> vpage_to_ppage_map vm !! k2 = Some p -> k1 = k2) /\
  NoDup (ppage_free_list vm) /\ Forall (is_page capacity) (ppage_free_list vm).

Lemma partial_sum_spec n acc :
  0 <= acc -> acc + Z.of_nat n * PAGE_SIZE < 2 ^ 64 ->
  partial_sum_from acc (replicate n PAGE_SIZE) = (fun i => acc + Z.of_nat i * PAGE_SIZE) <$> seq 1 n.
Proof using Hlp HPS.
  pose proof PAGE_SIZE_pos. revert acc. induction n as [|n IH]; intros acc Ha Hn; [done|].
  cbn [replicate partial_sum_from seq fmap list_fmap]. rewrite u64_small by nia.
  f_equal; [lia|]. rewrite IH by nia. rewrite <- (fmap_S_seq 1 n), <- list_fmap_compose.
  apply list_fmap_ext. intros ? i _. simpl. lia.
Qed.

(** The pages the constructor puts on the free list. *)
Definition all_pages (capacity : Z) : list Z :=
  (fun i => VMEM_RESERVE_CAPACITY + Z.of_nat i * PAGE_SIZE) <$>
  seq 0 (Z.to_nat ((capacity - VMEM_RESERVE_CAPACITY) / PAGE_SIZE)).

Lemma all_pages_NoDup capacity : NoDup (all_pages capacity).
Proof using Hlp HPS.
  pose proof PAGE_SIZE_pos. apply NoDup_fmap_2; [|apply NoDup_seq].
  intros i j Hij. apply Nat2Z.inj. nia.
Qed.

Lemma elem_of_all_pages capacity p : p ∈ all_pages capacity -> is_page capacity p.
Proof using Hlp HPS.
  pose proof PAGE_SIZE_pos. unfold all_pages. rewrite list_elem_of_fmap.
  intros (i & -> & Hi%elem_of_seq). split.
  - rewrite Z.mod_add by lia. rewrite HPS. unfold VMEM_RESERVE_CAPACITY. change 1048576 with (2 ^ 20).
    replace 20 with (20 - lp + lp) by lia. rewrite Z.pow_add_r by lia. apply Z_mod_mult.
  - assert (Z.of_nat i < (capacity - VMEM_RESERVE_CAPACITY) / PAGE_SIZE) by lia.
    assert ((capacity - VMEM_RESERVE_CAPACITY) / PAGE_SIZE * PAGE_SIZE <= capacity - VMEM_RESERVE_CAPACITY)
      by (rewrite Z.mul_comm; apply Z.mul_div_le; lia). nia.
Qed.

Lemma all_pages_elem capacity p : capacity mod PAGE_SIZE = 0 -> is_page capacity p -> p ∈ all_pages capacity.
Proof using Hlp HPS.
  intros Hc [Hp Hr]. pose proof PAGE_SIZE_pos as HP.
  assert (VMEM_RESERVE_CAPACITY mod PAGE_SIZE = 0) as HR.
  { rewrite HPS. unfold VMEM_RESERVE_CAPACITY. change 1048576 with (2 ^ 20).
    replace 20 with (20 - lp + lp) by lia. rewrite Z.pow_add_r by lia. apply Z_mod_mult. }
  apply Z.mod_divide in Hc as [c ->], Hp as [q ->], HR as [r HR]; [|lia..].
  rewrite HR in *. unfold all_pages. rewrite HR, <- Z.mul_sub_distr_r, Z.div_mul by lia.
  assert (r <= q < c) by nia.
  apply list_elem_of_fmap. exists (Z.to_nat (q - r)). split; [rewrite Z2Nat.id by lia; lia|].
  apply elem_of_seq. lia.
Qed.

(** What the constructor builds. *)
Lemma new_VirtualMemory_spec shuffle capacity pg levels penalty vm :
  (forall l, shuffle l ≡ₚ l) -> VMEM_RESERVE_CAPACITY <= capacity < 2 ^ 64 ->
  new_VirtualMemory shuffle capacity pg levels penalty = Ret vm ->
  capacity mod PAGE_SIZE = 0 /\ vpage_to_ppage_map vm = ∅ /\ page_table vm = ∅ /\
  next_pte_page vm :: ppage_free_list vm ≡ₚ all_pages capacity /\ page_size vm = u32 pg.
Proof using Hlp HPS.
  intros Hsh Hcap. unfold new_VirtualMemory.
  rewrite (u64_small (capacity - _)) by (unfold VMEM_RESERVE_CAPACITY in *; lia).
  pose proof PAGE_SIZE_pos as HP.
  intros (? & Hc & (? & ? & (x & Hx & H')%cbind_Ret)%cbind_Ret)%cbind_Ret.
  assert (capacity mod PAGE_SIZE = 0) as Hmod.
  { unfold cassert in Hc. destruct (Z.eqb_spec (capacity mod PAGE_SIZE) 0); done. }
  destruct (Z.to_nat ((capacity - VMEM_RESERVE_CAPACITY) / PAGE_SIZE)) as [|n] eqn:En; [done|]. simpl replicate in H'. cbn [insert list_insert] in H'.
  assert (partial_sum (VMEM_RESERVE_CAPACITY :: replicate n PAGE_SIZE) = all_pages capacity) as Hps.
  { assert ((capacity - VMEM_RESERVE_CAPACITY) / PAGE_SIZE * PAGE_SIZE <= capacity - VMEM_RESERVE_CAPACITY)
      by (rewrite Z.mul_comm; apply Z.mul_div_le; lia).
    assert (Z.of_nat (S n) <= (capacity - VMEM_RESERVE_CAPACITY) / PAGE_SIZE) by lia.
    unfold partial_sum, all_pages. rewrite En. cbn [partial_sum_from seq fmap list_fmap].
    rewrite u64_small by (unfold VMEM_RESERVE_CAPACITY; lia). f_equal.
    rewrite partial_sum_spec by (unfold VMEM_RESERVE_CAPACITY in *; nia).
    apply list_fmap_ext. intros ? i _. lia. }
  rewrite Hps in H'. apply cbind_Ret in H' as (first & Hf & [= <-]).
  destruct (shuffle (all_pages capacity)) as [|y l] eqn:Es; [done|]. injection Hf as <-.
  cbn. split; [done|]. split; [done|]. split; [done|]. split; [|done]. rewrite <- Es. apply Hsh.
Qed.

Lemma new_VirtualMemory_wf shuffle capacity pg levels penalty vm :
  (forall l, shuffle l ≡ₚ l) -> VMEM_RESERVE_CAPACITY <= capacity < 2 ^ 64 ->
  new_VirtualMemory shuffle capacity pg levels penalty = Ret vm -> vm_wf capacity vm.
Proof using Hlp HPS.
  intros Hsh Hcap Hn. destruct (new_VirtualMemory_spec _ _ _ _ _ _ Hsh Hcap Hn) as (_ & Hm & _ & Hp & _).
  assert (NoDup (next_pte_page vm :: ppage_free_list vm)) as Hnd by (rewrite Hp; apply all_pages_NoDup).
  unfold vm_wf. rewrite Hm. split; [done|]. split; [done|]. split; [by apply list.NoDup_cons in Hnd as [_ ?]|].
  apply list.Forall_forall. intros p Hpl. apply elem_of_all_pages. rewrite <- Hp. by right.
Qed.

(** ** The operations keep the invariant *)

Lemma vm_wf_tail capacity vm p l :
  vm_wf capacity vm -> ppage_free_list vm = p :: l ->
  forall vm', vpage_to_ppage_map vm' = vpage_to_ppage_map vm -> ppage_free_list vm' = l -> vm_wf capacity vm'.
Proof using Type.
  intros (Hm & Hi & Hn & Hf) Hl vm' Em El. unfold vm_wf. rewrite Em, El. rewrite Hl in *.
  split; [|split; [exact Hi|]].
  - intros key q Hq. destruct (Hm key q Hq) as [? Hne]. split; [done|]. intros ?. apply Hne. by right.
  - split; [by apply list.NoDup_cons in Hn as [_ ?]|by apply list.Forall_cons in Hf as [_ ?]].
Qed.

Lemma va_to_pa_wf capacity c v vm r vm' :
  vm_wf capacity vm -> va_to_pa c v vm = Ret (r, vm') ->
  vm_wf capacity vm' /\ vpage_to_ppage_map vm ⊆ vpage_to_ppage_map vm' /\
  exists p, vpage_to_ppage_map vm' !! (c, Z.shiftr v LOG2_PAGE_SIZE) = Some p /\ is_page capacity p /\
  r.1 = splice_bits p v LOG2_PAGE_SIZE /\ r.2 = bool_decide (vpage_to_ppage_map vm !! (c, Z.shiftr v LOG2_PAGE_SIZE) = None).
Proof using Type.
  intros Hw. unfold va_to_pa. set (key := (c, _)). intros (f & Hf & H')%cbind_Ret.
  pose proof Hw as (Hm & Hi & Hn & Hfr).
  destruct (ppage_free_list vm) as [|p l] eqn:El; [done|]. injection Hf as <-.
  destruct (vpage_to_ppage_map vm !! key) as [q|] eqn:Ek; injection H' as <- <-.
  - split; [done|]. split; [done|]. exists q. split; [done|]. split; [by apply (Hm key)|]. done.
  - apply list.Forall_cons in Hfr as [Hpp Hfr]. apply list.NoDup_cons in Hn as [Hpl Hnd].
    assert (forall k, vpage_to_ppage_map vm !! k = Some p -> False) as Hfresh.
    { intros k Hk. destruct (Hm k p Hk) as [_ Hne]. apply Hne. left. }
    split; [|split; [by apply insert_subseteq|]].
    + unfold vm_wf. cbn. rewrite El. cbn. split; [|split; [|done]].
      * intros k q. rewrite lookup_insert_Some. intros [[<- <-]|[_ Hq]]; [done|].
        destruct (Hm k q Hq) as [? Hne]. split; [done|]. intros ?. apply Hne. by right.
      * intros k1 k2 q. rewrite !lookup_insert_Some.
        intros [[<- <-]|[_ H1]] [[<- ?]|[_ H2]]; [done|by exfalso; eapply Hfresh| |by eapply Hi].
        subst. by exfalso; eapply Hfresh.
    + exists p. cbn. rewrite lookup_insert_eq. done.
Qed.

Lemma get_pte_pa_wf capacity c v lv vm r vm' :
  vm_wf capacity vm -> get_pte_pa c v lv vm = Ret (r, vm') ->
  vm_wf capacity vm' /\ vpage_to_ppage_map vm' = vpage_to_ppage_map vm.
Proof using Type.
  intros Hw. unfold get_pte_pa. destruct (page_table vm !! _) as [q|]; [by intros [= _ <-]|].
  destruct (ztrue _); [|by intros [= _ <-]].
  intros (f & Hf & [= _ <-])%cbind_Ret. cbn in Hf. destruct (ppage_free_list vm) as [|p l] eqn:El; [done|].
  split; [|done]. eapply (vm_wf_tail capacity vm p l Hw El); [done|]. cbn. by rewrite ?El.
Qed.

Lemma vm_run_wf capacity ops vm vm' :
  vm_wf capacity vm -> vm_run ops vm = Ret vm' ->
  vm_wf capacity vm' /\ vpage_to_ppage_map vm ⊆ vpage_to_ppage_map vm'.
Proof using Type.
  revert vm. induction ops as [|op ops IH]; intros vm Hw; simpl; [by intros [= <-]|].
  intros ([r vm1] & H1 & H2)%cbind_Ret. simpl in H2.
  assert (vm_wf capacity vm1 /\ vpage_to_ppage_map vm ⊆ vpage_to_ppage_map vm1) as [Hw1 Hs1].
  { destruct op; simpl in H1.
    - by destruct (va_to_pa_wf capacity _ _ _ _ _ Hw H1) as (? & ? & _).
    - destruct (get_pte_pa_wf capacity _ _ _ _ _ _ Hw H1) as (? & ->). done. }
  destruct (IH vm1 Hw1 H2). split; [done|]. by etrans.
Qed.

(** C19: Two translations, with anything in between, give the same physical page
    exactly when they are of the same page of the same CPU, and only the first
    of a page faults. *)
Theorem translation_is_stable_and_injective shuffle capacity pg levels penalty vm0 before between
    vm1 vm2 vm3 vm4 c1 v1 c2 v2 p1 f1 p2 f2 :
  (forall l, shuffle l ≡ₚ l) -> VMEM_RESERVE_CAPACITY <= capacity < 2 ^ 64 ->
  new_VirtualMemory shuffle capacity pg levels penalty = Ret vm0 ->
  vm_run before vm0 = Ret vm1 -> va_to_pa c1 v1 vm1 = Ret ((p1, f1), vm2) ->
  vm_run between vm2 = Ret vm3 -> va_to_pa c2 v2 vm3 = Ret ((p2, f2), vm4) ->
  (p1 / PAGE_SIZE = p2 / PAGE_SIZE <-> c1 = c2 /\ v1 / PAGE_SIZE = v2 / PAGE_SIZE) /\
  p1 mod PAGE_SIZE = v1 mod PAGE_SIZE /\ VMEM_RESERVE_CAPACITY <= p1 < capacity /\
  (p1 / PAGE_SIZE = p2 / PAGE_SIZE -> f2 = false).
Proof using Hlp HPS.
  intros Hsh Hcap Hnew Hr1 Ht1 Hr2 Ht2.
  pose proof (new_VirtualMemory_wf _ _ _ _ _ _ Hsh Hcap Hnew) as Hw0.
  destruct (vm_run_wf capacity _ _ _ Hw0 Hr1) as [Hw1 _].
  destruct (va_to_pa_wf capacity _ _ _ _ _ Hw1 Ht1) as (Hw2 & _ & q1 & Hq1 & Hp1 & E1 & _).
  destruct (vm_run_wf capacity _ _ _ Hw2 Hr2) as [Hw3 Hs3].
  destruct (va_to_pa_wf capacity _ _ _ _ _ Hw3 Ht2) as (Hw4 & Hs4 & q2 & Hq2 & Hp2 & E2 & F2).
  simpl in E1, E2, F2. rewrite LOG2_PAGE_SIZE_eq, Z.shiftr_div_pow2, <- HPS in * by lia.
  pose proof (lookup_weaken _ _ _ _ Hq1 Hs3) as Hq1'. pose proof (lookup_weaken _ _ _ _ Hq1' Hs4) as Hq1''.
  rewrite <- LOG2_PAGE_SIZE_eq in E1, E2.
  destruct (splice_page_div capacity q1 v1 ltac:(lia) Hp1) as [D1 M1].
  destruct (splice_page_div capacity q2 v2 ltac:(lia) Hp2) as [D2 _].
  rewrite <- E1 in D1, M1. rewrite <- E2 in D2.
  assert (p1 / PAGE_SIZE = p2 / PAGE_SIZE <-> c1 = c2 /\ v1 / PAGE_SIZE = v2 / PAGE_SIZE) as Hiff.
  { rewrite D1, D2. split.
    - intros He. pose proof (page_inj capacity _ _ Hp1 Hp2 He) as ->.
      destruct Hw4 as (_ & Hinj & _). by injection (Hinj _ _ _ Hq1'' Hq2).
    - intros [<- Hv]. rewrite Hv in Hq1''. congruence. }
  split; [done|]. split; [done|]. split.
  - rewrite E1, (splice_page capacity) by (done || lia). destruct Hp1 as [Hal ?].
    destruct (new_VirtualMemory_spec _ _ _ _ _ _ Hsh Hcap Hnew) as (Hcm & _).
    pose proof PAGE_SIZE_pos. pose proof (Z.mod_pos_bound v1 PAGE_SIZE).
    apply Z.mod_divide in Hcm as [c Hc], Hal as [q Hq]; [|lia..].
    assert (q < c) by nia. nia.
  - intros [<- Hv]%Hiff. rewrite F2. apply bool_decide_eq_false. rewrite <- Hv, Hq1'. done.
Qed.

(** ** Page-table pages

    The free list is not consulted when a page table takes a page of
    [PAGE_SIZE]: the next one is simply the physically next page. *)
Lemma get_pte_pa_next c v lv vm :
  page_size vm = PAGE_SIZE -> next_pte_page vm mod PAGE_SIZE = 0 -> 0 <= next_pte_page vm ->
  next_pte_page vm + PAGE_SIZE < 2 ^ 64 ->
  page_table vm !! (c, Z.shiftr v (shamt (lv + 1) vm), lv) = None ->
  exists r vm', get_pte_pa c v lv vm = Ret (r, vm') /\
  page_table vm' = <[(c, Z.shiftr v (shamt (lv + 1) vm), lv) := next_pte_page vm]> (page_table vm) /\
  next_pte_page vm' = next_pte_page vm + PAGE_SIZE /\
  vpage_to_ppage_map vm' = vpage_to_ppage_map vm /\ ppage_free_list vm' = ppage_free_list vm /\
  page_size vm' = PAGE_SIZE.
Proof using Hlp HPS.
  intros Hsz Hal H0 Hmax Hn. pose proof PAGE_SIZE_pos.
  assert (u64 (next_pte_page vm + page_size vm) = next_pte_page vm + PAGE_SIZE) as Hu
    by (rewrite Hsz; apply u64_small; lia).
  assert ((next_pte_page vm + PAGE_SIZE) mod PAGE_SIZE = 0) as Hm
    by (rewrite <- (Z.mul_1_l PAGE_SIZE) at 1; by rewrite Z.mod_add by lia).
  unfold get_pte_pa. rewrite Hn. cbn. rewrite Hu, Hm. cbn. do 2 eexists. by split.
Qed.

(** Translating fresh pages hands out the free list in order. *)
Lemma va_to_pa_takes c n k vm :
  (forall i, n <= i -> vpage_to_ppage_map vm !! (c, i) = None) -> 0 <= n ->
  (k < length (ppage_free_list vm))%nat ->
  exists vm', vm_run ((fun i => VaToPa c ((n + Z.of_nat i) * PAGE_SIZE)) <$> seq 0 (S k)) vm = Ret vm' /\
  page_table vm' = page_table vm /\
  vpage_to_ppage_map vm' !! (c, n + Z.of_nat k) = ppage_free_list vm !! k.
Proof using Hlp HPS.
  pose proof PAGE_SIZE_pos.
  assert (forall i, Z.shiftr (i * PAGE_SIZE) LOG2_PAGE_SIZE = i) as Hsh.
  { intros i. rewrite LOG2_PAGE_SIZE_eq, Z.shiftr_div_pow2, <- HPS by lia. apply Z.div_mul. lia. }
  revert n vm. induction k as [|k IH]; intros n vm Hn Hn0 Hk;
    (destruct (ppage_free_list vm) as [|p l] eqn:El; [simpl in Hk; lia|]);
    rewrite <- (cons_seq _ 0); cbn [fmap list_fmap vm_run vm_do]; unfold va_to_pa at 1; rewrite El; cbn [deque_front cbind];
    rewrite Hsh, Z.add_0_r, Hn by lia; cbn [cbind snd].
  - eexists. split; [done|]. split; [done|]. cbn. apply lookup_insert_eq.
  - set (vm1 := set _ _ _). cbn [length] in Hk.
    assert (ppage_free_list vm1 = l) as El1 by (unfold vm1; cbn; by rewrite El).
    destruct (IH (n + 1) vm1) as (vm' & Hr & Ht & Hl).
    + intros i Hi. unfold vm1. cbn. rewrite lookup_insert_ne by (intros [=]; lia). apply Hn. lia.
    + lia.
    + rewrite El1. lia.
    + exists vm'. split; [|split; [done|]].
      * rewrite <- Hr. f_equal. change (list_fmap nat vm_op) with (@fmap list _ nat vm_op).
        rewrite <- fmap_S_seq, <- list_fmap_compose.
        apply list_fmap_ext. intros ? i _. simpl. f_equal. lia.
      * rewrite El1 in Hl. simpl. rewrite <- Hl. do 2 f_equal. lia.
Qed.

(** A page that holds a page table is later given to a program as data: the
    second page of page tables stays on the free list. *)
Theorem page_table_page_handed_out shuffle capacity levels penalty vm0 c v1 l1 v2 l2 :
  (forall l, shuffle l ≡ₚ l) -> VMEM_RESERVE_CAPACITY <= capacity < 2 ^ 64 ->
  new_VirtualMemory shuffle capacity PAGE_SIZE levels penalty = Ret vm0 ->
  next_pte_page vm0 + PAGE_SIZE < capacity -> l1 <> l2 ->
  exists k vm p, vm_run (GetPtePa c v1 l1 :: GetPtePa c v2 l2 ::
                         ((fun i => VaToPa c (Z.of_nat i * PAGE_SIZE)) <$> seq 0 (S k))) vm0 = Ret vm /\
  (exists prefix, page_table vm !! (c, prefix, l2) = Some p) /\
  vpage_to_ppage_map vm !! (c, Z.of_nat k) = Some p.
Proof using Hlp HPS.
  intros Hsh Hcap Hnew Hroom Hne. pose proof PAGE_SIZE_pos as HP. pose proof PAGE_SIZE_le as HP2.
  destruct (new_VirtualMemory_spec _ _ _ _ _ _ Hsh Hcap Hnew) as (Hcm & Hm & Ht & Hfree & Hps).
  rewrite u32_small in Hps by lia.
  assert (is_page capacity (next_pte_page vm0)) as [Hal Hrng].
  { apply elem_of_all_pages. rewrite <- Hfree. left. }
  unfold VMEM_RESERVE_CAPACITY in Hrng.
  assert (next_pte_page vm0 + 2 * PAGE_SIZE <= capacity) as Hroom2.
  { apply Z.mod_divide in Hcm as [x Hx], Hal as [y Hy]; [|lia..].
    rewrite Hx, Hy in *. assert (y + 1 < x) by nia. nia. }
  destruct (get_pte_pa_next c v1 l1 vm0) as (r1 & vm1 & E1 & T1 & N1 & M1 & F1 & P1);
    [done|done|lia|lia|by rewrite Ht|].
  assert ((next_pte_page vm0 + PAGE_SIZE) mod PAGE_SIZE = 0) as Hal1
    by (rewrite <- (Z.mul_1_l PAGE_SIZE) at 1; by rewrite Z.mod_add by lia).
  destruct (get_pte_pa_next c v2 l2 vm1) as (r2 & vm2 & E2 & T2 & N2 & M2 & F2 & P2);
    [done|by rewrite N1|lia|lia|rewrite T1, Ht, lookup_insert_ne by congruence; done|].
  assert (next_pte_page vm1 ∈ ppage_free_list vm2) as [k Hk]%list_elem_of_lookup.
  { assert (next_pte_page vm1 ∈ next_pte_page vm0 :: ppage_free_list vm0) as Hin.
    { rewrite Hfree. apply all_pages_elem; [done|]. split; [by rewrite N1|].
      unfold VMEM_RESERVE_CAPACITY. lia. }
    rewrite F2, F1. apply elem_of_cons in Hin as [Hin|Hin]; [lia|done]. }
  destruct (va_to_pa_takes c 0 k vm2) as (vm3 & E3 & T3 & L3);
    [by rewrite M2, M1, Hm|done|by eapply lookup_lt_Some|].
  exists k, vm3, (next_pte_page vm1). split; [|split].
  - cbn [vm_run vm_do]. rewrite E1. cbn [cbind snd]. rewrite E2. cbn [cbind snd]. exact E3.
  - exists (Z.shiftr v2 (shamt (l2 + 1) vm1)). rewrite T3, T2. apply lookup_insert_eq.
  - rewrite Hk in L3. exact L3.
Qed.

End Pages.
End Vmem.
#[local] Instance small : Config := {| BLOCK_SIZE := 64; PAGE_SIZE := 4096; NUM_CPUS := 1 |}.
Definition small_capacity : Z := VMEM_RESERVE_CAPACITY + 4 * 4096.

Lemma translation_witness :
  exists vm0 p1 p2 f vm2 vm4, new_VirtualMemory id small_capacity 4096 5 0 = Ret vm0 /\
  va_to_pa 0 8197 vm0 = Ret ((p1, true), vm2) /\ va_to_pa 0 8200 vm2 = Ret ((p2, f), vm4) /\
  p1 / 4096 = p2 / 4096 /\ f = false.
Proof.
  destruct (new_VirtualMemory id small_capacity 4096 5 0) as [vm0|] eqn:E0; [|vm_compute in E0; discriminate].
  destruct (va_to_pa 0 8197 vm0) as [[[p1 f1] vm2]|] eqn:E1; [|vm_compute in E0; injection E0 as <-; vm_compute in E1; discriminate].
  destruct (va_to_pa 0 8200 vm2) as [[[p2 f2] vm4]|] eqn:E2.
  2: { vm_compute in E0. injection E0 as <-. vm_compute in E1. injection E1 as _ _ <-. vm_compute in E2. discriminate. }
  destruct (translation_is_stable_and_injective 12 ltac:(lia) (eq_refl : @PAGE_SIZE small = 2 ^ 12) id small_capacity 4096 5 0 vm0 [] [] vm0 vm2 vm2 vm4
              0 8197 0 8200 p1 f1 p2 f2) as (Hiff & _ & _ & Hf);
    [done|split; [vm_compute; discriminate|reflexivity]|exact E0|done|exact E1|done|exact E2|].
  exists vm0, p1, p2, f2, vm2, vm4. split; [done|]. assert (f1 = true) as ->.
  { vm_compute in E0. injection E0 as <-. vm_compute in E1. by injection E1. }
  split; [done|]. split; [done|]. assert (p1 / 4096 = p2 / 4096) as Ep by (apply Hiff; done). split; [done|by apply Hf].
Defined.

Lemma page_table_page_witness :
  exists vm0 k vm p, new_VirtualMemory id small_capacity 4096 5 0 = Ret vm0 /\
  vm_run (GetPtePa 0 0 4 :: GetPtePa 0 0 3 :: ((fun i => VaToPa 0 (Z.of_nat i * 4096)) <$> seq 0 (S k))) vm0 = Ret vm /\
  (exists prefix, page_table vm !! (0, prefix, 3) = Some p) /\ vpage_to_ppage_map vm !! (0, Z.of_nat k) = Some p.
Proof.
  destruct (new_VirtualMemory id small_capacity 4096 5 0) as [vm0|] eqn:E0; [|vm_compute in E0; discriminate].
  destruct (page_table_page_handed_out 12 ltac:(lia) (eq_refl : @PAGE_SIZE small = 2 ^ 12) id small_capacity 5 0 vm0 0 0 4 0 3) as (k & vm & p & E & H);
    [done|split; [vm_compute; discriminate|reflexivity]|exact E0| |lia|].
  - vm_compute in E0. injection E0 as <-. reflexivity.
  - exists vm0, k, vm, p. split; [done|]. split; [exact E|exact H].
Defined.

End Vmem.
