(* ===== verification/SimRepl.v ===== *)
(** * ChampSim: replacement policies

    What a policy promises to the cache ([Class ReplacementOk]) and the policies
    of replacement/lru, srrip, drrip and ship. *)

From S2P Require Import Prelude SimUtil.
Import Util Mem.
Local Open Scope c_scope.

(** ** The blocks of a set

    The blocks of a cache are one vector; set [set] is the [NUM_WAY] blocks from
    [set * NUM_WAY]. *)
Module Sets.

Definition set_blocks (NUM_WAY set : nat) (bs : list BLOCK) : list BLOCK :=
  take NUM_WAY (drop (set * NUM_WAY) bs).

Definition put_set (NUM_WAY set : nat) (s bs : list BLOCK) : list BLOCK :=
  take (set * NUM_WAY) bs ++ s ++ drop (set * NUM_WAY + NUM_WAY) bs.

(** [block[i]] with a position outside the vector undefined. *)
Definition block_at (i : nat) (bs : list BLOCK) : cres BLOCK :=
  match bs !! i with
  | Some b => Ret b
  | None => Abort "block[] outside the vector"
  end.

Definition modify_block (f : BLOCK -> BLOCK) (i : nat) (bs : list BLOCK) : cres (list BLOCK) :=
  let* _ := block_at i bs in Ret (alter f i bs).

Definition set_block_lru (v : Z) (i : nat) (bs : list BLOCK) : cres (list BLOCK) :=
  modify_block (fun b => b <| b_lru := v |>) i bs.

(** The vector of a cache with [NUM_SET] sets. *)
Definition shape (NUM_SET NUM_WAY : nat) (bs : list BLOCK) : Prop :=
  length bs = (NUM_SET * NUM_WAY)%nat.

(** Two vectors that differ in the replacement state only. *)
Definition same_but_lru (bs bs' : list BLOCK) : Prop :=
  Forall2 (fun b b' => b' = b <| b_lru := b_lru b' |>) bs bs'.

Section Sets.
Context (NUM_SET NUM_WAY : nat).

Lemma length_set_blocks set bs :
  shape NUM_SET NUM_WAY bs -> (set < NUM_SET)%nat -> length (set_blocks NUM_WAY set bs) = NUM_WAY.
Proof.
  unfold shape, set_blocks. intros Hs Hset. rewrite length_take, length_drop, Hs.
  assert (set * NUM_WAY + NUM_WAY <= NUM_SET * NUM_WAY)%nat by nia. lia.
Qed.

Lemma lookup_set_blocks set way bs :
  (way < NUM_WAY)%nat -> set_blocks NUM_WAY set bs !! way = bs !! (set * NUM_WAY + way)%nat.
Proof. intros Hw. unfold set_blocks. by rewrite lookup_take_lt, lookup_drop by done. Qed.

Lemma length_put_set set s bs :
  shape NUM_SET NUM_WAY bs -> (set < NUM_SET)%nat -> length s = NUM_WAY ->
  shape NUM_SET NUM_WAY (put_set NUM_WAY set s bs).
Proof.
  unfold shape, put_set. intros Hs Hset Hl. rewrite !length_app, length_take, length_drop, Hs, Hl.
  assert (set * NUM_WAY + NUM_WAY <= NUM_SET * NUM_WAY)%nat by nia. lia.
Qed.

Lemma put_set_same set s bs :
  shape NUM_SET NUM_WAY bs -> (set < NUM_SET)%nat -> length s = NUM_WAY ->
  set_blocks NUM_WAY set (put_set NUM_WAY set s bs) = s.
Proof.
  unfold shape, put_set, set_blocks. intros Hs Hset Hl.
  assert (set * NUM_WAY + NUM_WAY <= NUM_SET * NUM_WAY)%nat by nia.
  rewrite drop_app_length' by (rewrite length_take; lia). by apply take_app_length'.
Qed.

Lemma lookup_put_set set s bs i :
  shape NUM_SET NUM_WAY bs -> (set < NUM_SET)%nat -> length s = NUM_WAY ->
  put_set NUM_WAY set s bs !! i =
    if decide (set * NUM_WAY <= i < set * NUM_WAY + NUM_WAY)%nat then s !! (i - set * NUM_WAY)%nat else bs !! i.
Proof.
  unfold shape, put_set. intros Hs Hset Hl.
  assert (set * NUM_WAY + NUM_WAY <= NUM_SET * NUM_WAY)%nat by nia.
  destruct (decide _) as [[H1 H2]|Hn].
  - rewrite lookup_app_r, length_take by (rewrite length_take; lia).
    rewrite lookup_app_l by lia. f_equal. lia.
  - destruct (decide (i < set * NUM_WAY)%nat).
    + by rewrite lookup_app_l, lookup_take_lt by (rewrite ?length_take; lia).
    + rewrite lookup_app_r, length_take by (rewrite length_take; lia).
      rewrite lookup_app_r, lookup_drop by lia. f_equal. lia.
Qed.

Lemma put_set_other set set' s bs :
  shape NUM_SET NUM_WAY bs -> (set < NUM_SET)%nat -> length s = NUM_WAY -> set' <> set ->
  set_blocks NUM_WAY set' (put_set NUM_WAY set s bs) = set_blocks NUM_WAY set' bs.
Proof.
  intros Hs Hset Hl Hne. apply list_eq. intros way. unfold set_blocks.
  destruct (decide (way < NUM_WAY)%nat).
  - rewrite !lookup_take_lt, !lookup_drop by done. rewrite lookup_put_set by done.
    destruct (decide _); [|done]. assert (set' < set \/ set < set')%nat as [?|?] by lia; nia.
  - rewrite !lookup_take_ge by lia. done.
Qed.

Lemma put_set_blocks set bs :
  shape NUM_SET NUM_WAY bs -> (set < NUM_SET)%nat ->
  put_set NUM_WAY set (set_blocks NUM_WAY set bs) bs = bs.
Proof.
  intros Hs Hset. apply list_eq. intros i. rewrite lookup_put_set by (done || by apply length_set_blocks).
  destruct (decide _); [|done]. rewrite lookup_set_blocks by lia. f_equal. lia.
Qed.

End Sets.

Lemma same_but_lru_refl bs : same_but_lru bs bs.
Proof. induction bs; constructor; [|done]. by destruct a. Qed.

Lemma same_but_lru_trans a b c : same_but_lru a b -> same_but_lru b c -> same_but_lru a c.
Proof.
  intros Hab. revert c. induction Hab as [|x y a b Hxy Hab IH]; intros c Hbc.
  - exact Hbc.
  - inversion Hbc as [|? z ? c' Hyz Hbc']; subst. constructor; [|by apply IH].
    rewrite Hyz. rewrite Hxy. done.
Qed.

Lemma same_but_lru_lookup bs bs' i b :
  same_but_lru bs bs' -> bs !! i = Some b ->
  exists b', bs' !! i = Some b' /\ b' = b <| b_lru := b_lru b' |>.
Proof. intros Hs Hi. destruct (Forall2_lookup_l _ _ _ _ _ Hs Hi) as (b' & ? & ?). eauto. Qed.

Lemma same_but_lru_length bs bs' : same_but_lru bs bs' -> length bs' = length bs.
Proof. intros H. symmetry. by eapply Forall2_length. Qed.

Lemma same_but_lru_alter f bs i :
  (forall b, f b = b <| b_lru := b_lru (f b) |>) -> same_but_lru bs (alter f i bs).
Proof.
  intros Hf. revert i. induction bs as [|b bs IH]; intros [|i]; simpl; [constructor..| |].
  - constructor; [apply Hf|apply same_but_lru_refl].
  - constructor; [by destruct b|apply IH].
Qed.

(** Changing a block in the same way on both sides. *)
Lemma same_but_lru_alter_both f bs bs' i :
  (forall b v, f (b <| b_lru := v |>) = f b <| b_lru := v |>) ->
  same_but_lru bs bs' -> same_but_lru (alter f i bs) (alter f i bs').
Proof.
  intros Hf Hs. revert i. induction Hs as [|b b' bs bs' Hb Hs IH]; intros [|i]; simpl; [constructor..| |].
  - constructor; [|done]. rewrite Hb, Hf. by destruct (f b).
  - constructor; [done|apply IH].
Qed.

Lemma same_but_lru_fmap f bs :
  (forall b, f b = b <| b_lru := b_lru (f b) |>) -> same_but_lru bs (f <$> bs).
Proof. intros Hf. induction bs; constructor; [apply Hf|done]. Qed.

End Sets.

Import Sets.

(** ** The interface

    A policy has a state of its own and the [lru] field of the blocks.  The
    arguments are those of the source, with the way, set and [NUM_WAY] as
    natural numbers. *)
Class Replacement (R : Type) := {
  find_victim (NUM_WAY : nat) (cpu instr_id : Z) (set : nat) (ip full_addr type : Z)
    (r : R) (bs : list BLOCK) : cres (nat * (R * list BLOCK));
  update_replacement_state (NUM_WAY : nat) (cpu : Z) (set way : nat) (full_addr ip victim_addr type : Z)
    (hit : bool) (r : R) (bs : list BLOCK) : cres (R * list BLOCK);
}.

(** Every valid block, but the one at [exc], has replacement state the policy
    can work with. *)
Definition lrus_ok (lru_ok : Z -> Prop) (exc : option nat) (bs : list BLOCK) : Prop :=
  forall i b, bs !! i = Some b -> b_valid b = true -> exc <> Some i -> lru_ok (b_lru b).

(** What the cache needs: a full set has a victim, and an access leaves every
    valid block in a good state, also the one that has just been filled; nothing
    but replacement state changes. *)
Class ReplacementOk (R : Type) `{Replacement R} (NUM_SET NUM_WAY : nat) := {
  lru_ok : Z -> Prop;
  policy_ok : R -> Prop;
  find_victim_ok (cpu instr_id : Z) (set : nat) (ip full_addr type : Z) (r : R) (bs : list BLOCK) :
    shape NUM_SET NUM_WAY bs -> (set < NUM_SET)%nat -> (0 < NUM_WAY)%nat ->
    Forall (fun b => b_valid b = true) (set_blocks NUM_WAY set bs) ->
    policy_ok r -> lrus_ok lru_ok None bs ->
    exists way r' bs', find_victim NUM_WAY cpu instr_id set ip full_addr type r bs = Ret (way, (r', bs')) /\
    (way < NUM_WAY)%nat /\ same_but_lru bs bs' /\ policy_ok r' /\ lrus_ok lru_ok None bs';
  update_ok (cpu : Z) (set way : nat) (full_addr ip victim_addr type : Z) (hit : bool) (r : R) (bs : list BLOCK) :
    shape NUM_SET NUM_WAY bs -> (set < NUM_SET)%nat -> (way < NUM_WAY)%nat ->
    policy_ok r -> lrus_ok lru_ok (if hit then None else Some (set * NUM_WAY + way)%nat) bs ->
    exists r' bs', update_replacement_state NUM_WAY cpu set way full_addr ip victim_addr type hit r bs = Ret (r', bs') /\
    same_but_lru bs bs' /\ policy_ok r' /\ lrus_ok lru_ok None bs';
}.

(** ** replacement/lru/lru.cc *)
Module Lru.

(** The policy has no state besides the blocks. *)
Inductive state := mkLru.

Definition find_victim (NUM_WAY : nat) (cpu instr_id : Z) (set : nat) (ip full_addr type : Z)
    (r : state) (bs : list BLOCK) : cres (nat * (state * list BLOCK)) :=
  Ret (max_element lru_comparator (set_blocks NUM_WAY set bs), (r, bs)).

(** Promote [way] of a set to the most recent position. *)
Definition promote (way : nat) (hit_lru : Z) (s : list BLOCK) : list BLOCK :=
  alter (fun b => b <| b_lru := 0 |>) way
    ((fun x => if b_lru x <=? hit_lru then x <| b_lru ::= fun l => u32 (l + 1) |> else x) <$> s).

Definition update_replacement_state (NUM_WAY : nat) (cpu : Z) (set way : nat)
    (full_addr ip victim_addr type : Z) (hit : bool) (r : state) (bs : list BLOCK) : cres (state * list BLOCK) :=
  if hit && (type =? WRITEBACK) then Ret (r, bs)
  else
    let* b := block_at (set * NUM_WAY + way) bs in
    Ret (r, put_set NUM_WAY set (promote way (b_lru b) (set_blocks NUM_WAY set bs)) bs).

#[global] Instance replacement : Replacement state := {
  find_victim := find_victim;
  update_replacement_state := update_replacement_state;
}.
End Lru.

(** ** replacement/srrip/srrip.cc *)
Module Srrip.

Definition maxRRPV : Z := 3.

Inductive state := mkSrrip.

Definition initialize_replacement (bs : list BLOCK) : list BLOCK :=
  (fun blk => blk <| b_lru := maxRRPV |>) <$> bs.

(** One turn of the loop: the first way with the greatest value, or every value
    one more. *)
Definition age_or_stop (s : list BLOCK) : list BLOCK + (nat * list BLOCK) :=
  let victim := find_if (fun x => b_lru x =? maxRRPV) s in
  if (victim =? length s)%nat then inl ((fun x => x <| b_lru ::= fun l => u32 (l + 1) |>) <$> s)
  else inr (victim, s).

(** The values are of 32 bits, so that [2^32] turns reach every value. *)
Definition aging_bound : positive := 2 ^ 32.

Definition find_victim (NUM_WAY : nat) (cpu instr_id : Z) (set : nat) (ip full_addr type : Z)
    {R} (r : R) (bs : list BLOCK) : cres (nat * (R * list BLOCK)) :=
  match iter_until aging_bound age_or_stop (set_blocks NUM_WAY set bs) with
  | inr (victim, s) => Ret (victim, (r, put_set NUM_WAY set s bs))
  | inl _ => Abort "the loop does not end"
  end.

Definition update_replacement_state (NUM_WAY : nat) (cpu : Z) (set way : nat)
    (full_addr ip victim_addr type : Z) (hit : bool) (r : state) (bs : list BLOCK) : cres (state * list BLOCK) :=
  let* bs := set_block_lru (if hit then 0 else maxRRPV - 1) (set * NUM_WAY + way) bs in
  Ret (r, bs).

#[global] Instance replacement : Replacement state := {
  find_victim NUM_WAY cpu instr_id set ip full_addr type r bs :=
    find_victim NUM_WAY cpu instr_id set ip full_addr type r bs;
  update_replacement_state := update_replacement_state;
}.
End Srrip.

(** ** replacement/drrip/drrip.cc *)
Module Drrip.
Import Srrip.

Definition NUM_POLICY : Z := 2.
Definition SDM_SIZE : Z := 32.
Definition BIP_MAX : Z := 32.
Definition PSEL_WIDTH : Z := 10.
Definition PSEL_MAX : Z := Z.shiftl 1 PSEL_WIDTH - 1.
Definition PSEL_THRS : Z := PSEL_MAX / 2.
Definition TOTAL_SDM_SETS `{Config} : Z := NUM_CPUS * NUM_POLICY * SDM_SIZE.

(** The entries of the maps for one cache; an absent [PSEL] is 0. *)
Record state := mkDrrip {
  bip_counter : Z;
  rand_sets : list Z;
  PSEL : gmap Z Z;
}.

#[global] Instance eta_state : Settable state :=
  mkEta _ (fun x => mkDrrip (bip_counter x) (rand_sets x) (PSEL x)).

(** The next sampled set: draw until the value is not in the sorted list yet.
    [fuel] bounds the draws. *)
Fixpoint draw_set (fuel : nat) (NUM_SET rand_seed : Z) (sets : list Z) : option (Z * nat * Z) :=
  match fuel with
  | O => None
  | S fuel =>
    let val := (rand_seed / 65536) mod NUM_SET in
    let loc := find_if (fun x => val <=? x) sets in
    if (loc <? length sets)%nat && bool_decide (sets !! loc = Some val) then
      draw_set fuel NUM_SET (u64 (rand_seed * 1103515245 + 12345)) sets
    else Some (val, loc, rand_seed)
  end.

(** The loop of [initialize_replacement] that chooses [n] sets. *)
Fixpoint draw_sets (fuel : nat) (NUM_SET : Z) (n : nat) (rand_seed : Z) (sets : list Z) : option (list Z) :=
  match n with
  | O => Some sets
  | S n =>
    match draw_set fuel NUM_SET rand_seed sets with
    | Some (val, loc, rand_seed) => draw_sets fuel NUM_SET n rand_seed (take loc sets ++ val :: drop loc sets)
    | None => None
    end
  end.

Definition initialize_replacement `{Config} (fuel : nat) (NUM_SET : Z) : option state :=
  match draw_sets fuel NUM_SET (Z.to_nat TOTAL_SDM_SETS) (1103515245 + 12345) [] with
  | Some sets => Some (mkDrrip 0 sets ∅)
  | None => None
  end.

(** The bimodal insertion that two branches share. *)
Definition bip_insert (i : nat) (r : state) (bs : list BLOCK) : cres (state * list BLOCK) :=
  let* bs := set_block_lru maxRRPV i bs in
  let r := r <| bip_counter ::= fun c => u32 (c + 1) |> in
  let r := if bip_counter r =? BIP_MAX then r <| bip_counter := 0 |> else r in
  if bip_counter r =? 0 then let* bs := set_block_lru (maxRRPV - 1) i bs in Ret (r, bs)
  else Ret (r, bs).

Definition psel (cpu : Z) (r : state) : Z := default 0 (PSEL r !! cpu).

Definition update_replacement_state (NUM_WAY : nat) (cpu : Z) (set way : nat)
    (full_addr ip victim_addr type : Z) (hit : bool) (r : state) (bs : list BLOCK) : cres (state * list BLOCK) :=
  let i := (set * NUM_WAY + way)%nat in
  if type =? WRITEBACK then let* bs := set_block_lru (maxRRPV - 1) i bs in Ret (r, bs)
  else if hit then let* bs := set_block_lru 0 i bs in Ret (r, bs)
  else
    let range := take (Z.to_nat (NUM_POLICY * SDM_SIZE)) (drop (Z.to_nat (cpu * NUM_POLICY * SDM_SIZE)) (rand_sets r)) in
    let leader := find_if (fun x => x =? Z.of_nat set) range in
    if (leader =? length range)%nat then
      if PSEL_THRS <? psel cpu r then bip_insert i r bs
      else let* bs := set_block_lru (maxRRPV - 1) i bs in Ret (r, bs)
    else if (leader =? 0)%nat then
      let r := if 0 <? psel cpu r then r <| PSEL ::= insert cpu (psel cpu r - 1) |> else r in
      bip_insert i r bs
    else if (leader =? 1)%nat then
      let r := if psel cpu r <? PSEL_MAX then r <| PSEL ::= insert cpu (psel cpu r + 1) |> else r in
      let* bs := set_block_lru (maxRRPV - 1) i bs in Ret (r, bs)
    else Ret (r, bs).

#[global] Instance replacement : Replacement state := {
  find_victim NUM_WAY cpu instr_id set ip full_addr type r bs :=
    Srrip.find_victim NUM_WAY cpu instr_id set ip full_addr type r bs;
  update_replacement_state := update_replacement_state;
}.
End Drrip.

(** ** replacement/ship/ship.cc *)
Module Ship.
Import Srrip.

Definition SHCT_SIZE : Z := 16384.
Definition SHCT_PRIME : Z := 16381.
Definition SAMPLER_SET `{Config} : Z := 256 * NUM_CPUS.
Definition SHCT_MAX : Z := 7.

Record SAMPLER_class := mkSAMPLER {
  s_valid : bool;
  s_type : Z;
  s_used : Z;
  s_address : Z;
  s_cl_addr : Z;
  s_ip : Z;
  s_lru : Z;
}.

#[global] Instance eta_sampler : Settable SAMPLER_class :=
  mkEta _ (fun x => mkSAMPLER (s_valid x) (s_type x) (s_used x) (s_address x) (s_cl_addr x) (s_ip x) (s_lru x)).

Definition new_SAMPLER : SAMPLER_class := mkSAMPLER false 0 0 0 0 0 9999999.

#[global] Instance is_valid_sampler : IsValid SAMPLER_class := s_valid.
#[global] Instance has_address_sampler : HasAddress SAMPLER_class := s_address.
#[global] Instance has_lru_sampler : HasLru SAMPLER_class :=
  { lru_of := s_lru; set_lru := fun v x => x <| s_lru := v |> }.

(** The entries of the maps for one cache; the counters of a CPU are an array of
    zeros until written. *)
Record state := mkShip {
  rand_sets : list Z;
  sampler : list SAMPLER_class;
  SHCT : gmap (Z * Z) Z;
}.

#[global] Instance eta_state : Settable state :=
  mkEta _ (fun x => mkShip (rand_sets x) (sampler x) (SHCT x)).

Definition initialize_replacement `{Config} (fuel : nat) (NUM_SET : Z) (NUM_WAY : nat) : option state :=
  match Drrip.draw_sets fuel NUM_SET (Z.to_nat SAMPLER_SET) (1103515245 + 12345) [] with
  | Some sets => Some (mkShip sets (replicate (Z.to_nat SAMPLER_SET * NUM_WAY) new_SAMPLER) ∅)
  | None => None
  end.

Definition shct (cpu idx : Z) (r : state) : Z := default 0 (SHCT r !! (cpu, idx)).

(** The sampler's part of [update_replacement_state] for the sampled set at
    position [s_idx]. *)
Definition update_sampler (NUM_WAY s_idx : nat) (cpu full_addr ip type : Z) (r : state) : cres state :=
  let s_set := take NUM_WAY (drop s_idx (sampler r)) in
  let put s r := r <| sampler := take s_idx (sampler r) ++ s ++ drop (s_idx + NUM_WAY) (sampler r) |> in
  let found := find_if (eq_addr full_addr (8 + lg2 (Z.of_nat NUM_WAY))) s_set in
  let m := if (found =? length s_set)%nat then max_element lru_comparator s_set else found in
  match s_set !! m with
  | None => Abort "no sampler entry"
  | Some e =>
    let idx := u32 (s_ip e mod SHCT_PRIME) in
    let '(r, e') :=
      if (found =? length s_set)%nat then
        (if ztrue (s_used e) && (shct cpu idx r <? SHCT_MAX) then
           r <| SHCT ::= insert (cpu, idx) (shct cpu idx r + 1) |> else r,
         e <| s_valid := true |> <| s_address := full_addr |> <| s_ip := ip |> <| s_type := u8 type |> <| s_used := 0 |>)
      else
        (if 0 <? shct cpu idx r then r <| SHCT ::= insert (cpu, idx) (shct cpu idx r - 1) |> else r,
         e <| s_type := u8 type |> <| s_used := 1 |>) in
    let s_set := (fun x => x <| s_lru ::= fun l => u32 (l + 1) |>) <$> <[m := e']> s_set in
    Ret (put (alter (fun x => x <| s_lru := 0 |>) m s_set) r)
  end.

(** Update the sampler if the set is sampled. *)
Definition sample (NUM_WAY set : nat) (cpu full_addr ip type : Z) (r : state) : cres state :=
  let s_idx := find_if (fun x => x =? Z.of_nat set) (rand_sets r) in
  if (s_idx <? length (rand_sets r))%nat then update_sampler NUM_WAY s_idx cpu full_addr ip type r
  else Ret r.

Definition update_replacement_state (NUM_WAY : nat) (cpu : Z) (set way : nat)
    (full_addr ip victim_addr type : Z) (hit : bool) (r : state) (bs : list BLOCK) : cres (state * list BLOCK) :=
  let i := (set * NUM_WAY + way)%nat in
  if type =? WRITEBACK then
    if negb hit then let* bs := set_block_lru (maxRRPV - 1) i bs in Ret (r, bs) else Ret (r, bs)
  else
    let* r := sample NUM_WAY set cpu full_addr ip type r in
    if hit then let* bs := set_block_lru 0 i bs in Ret (r, bs)
    else
      let idx := u32 (ip mod SHCT_PRIME) in
      let* bs := set_block_lru (maxRRPV - 1) i bs in
      if shct cpu idx r =? SHCT_MAX then let* bs := set_block_lru maxRRPV i bs in Ret (r, bs)
      else Ret (r, bs).

#[global] Instance replacement : Replacement state := {
  find_victim NUM_WAY cpu instr_id set ip full_addr type r bs :=
    Srrip.find_victim NUM_WAY cpu instr_id set ip full_addr type r bs;
  update_replacement_state := update_replacement_state;
}.
End Ship.
