(* ===== verification/SimLru.v ===== *)
(** * ChampSim: the LRU policy evicts the least recently used block

    The [lru] fields of replacement/lru/lru.cc against the order of the accesses. *)

From stdpp Require Import sorting.
From S2P Require Import Prelude SimUtil SimRepl.
Import Util Mem Sets.
Local Open Scope c_scope.

Module LruOrder.

(** ** Abstractly: the ways used, most recent first *)

Definition touch (way : nat) (l : list nat) : list nat := way :: filter (fun w => w <> way) l.
Definition touches (ws : list nat) : list nat := foldl (fun l w => touch w l) [] ws.

(** Since the last use of [y] there has been a use of [x]. *)
Definition later (ws : list nat) (x y : nat) : Prop :=
  exists a b, ws = a ++ (y :: b) /\ (y ∉ b) /\ x ∈ b.

Lemma StronglySorted_impl_in {A} (R R' : A -> A -> Prop) l :
  (forall x y, x ∈ l -> y ∈ l -> R x y -> R' x y) -> StronglySorted R l -> StronglySorted R' l.
Proof.
  intros H Hs. induction Hs as [|x l Hs IH Hx]; constructor.
  - apply IH. intros y z Hy Hz. apply H; by right.
  - rewrite list.Forall_forall in *. intros y Hy. apply H; [left|by right|by apply Hx].
Qed.

Lemma StronglySorted_lookup_lt {A} (R : A -> A -> Prop) l i j x y :
  StronglySorted R l -> l !! i = Some x -> l !! j = Some y -> (i < j)%nat -> R x y.
Proof.
  intros Hs. revert i j. induction Hs as [|z l Hs IH Hz]; intros i j Hi Hj Hij; [done|].
  destruct j as [|j]; [lia|]. destruct i as [|i]; simpl in *.
  - injection Hi as ->. rewrite list.Forall_forall in Hz. by eapply Hz, list_elem_of_lookup_2.
  - apply (IH i j); [done|done|lia].
Qed.

Lemma StronglySorted_filter_ne {A} `{EqDecision A} (R : A -> A -> Prop) (w : A) l :
  StronglySorted R l -> StronglySorted R (filter (fun v => v <> w) l).
Proof.
  induction 1 as [|x l Hs IH Hx]; [constructor|]. rewrite filter_cons.
  destruct (decide (x <> w)); [|done]. constructor; [done|].
  rewrite list.Forall_forall in *. intros y Hy%list_elem_of_filter. apply Hx, Hy.
Qed.

Lemma touches_snoc ws w : touches (ws ++ [w]) = touch w (touches ws).
Proof. unfold touches. by rewrite foldl_app. Qed.

Lemma elem_of_touch w v l : v ∈ touch w l <-> v = w \/ v ∈ l.
Proof.
  unfold touch. rewrite elem_of_cons, list_elem_of_filter.
  destruct (decide (v = w)); [by subst; intuition|intuition].
Qed.

Lemma elem_of_touches ws w : w ∈ touches ws <-> w ∈ ws.
Proof.
  induction ws as [|v ws IH] using rev_ind; [done|].
  rewrite touches_snoc, elem_of_touch, elem_of_app, IH, list_elem_of_singleton. intuition.
Qed.

Lemma touch_NoDup w l : NoDup l -> NoDup (touch w l).
Proof.
  intros H. constructor; [|by apply list.NoDup_filter].
  rewrite list_elem_of_filter. by intros [[] _].
Qed.

Lemma touches_NoDup ws : NoDup (touches ws).
Proof.
  induction ws as [|v ws IH] using rev_ind; [constructor|].
  rewrite touches_snoc. by apply touch_NoDup.
Qed.

(** A use has a last occurrence. *)
Lemma last_use (ws : list nat) x : x ∈ ws -> exists a b, ws = a ++ x :: b /\ x ∉ b.
Proof.
  induction ws as [|v ws IH] using rev_ind; [by intros ?%elem_of_nil|].
  intros [Hx|Hx]%elem_of_app.
  - destruct (decide (x = v)) as [<-|Hne].
    + exists ws, []. split; [done|apply not_elem_of_nil].
    + destruct (IH Hx) as (a & b & -> & Hb). exists a, (b ++ [v]).
      rewrite <- (assoc_L (++)). split; [done|]. rewrite elem_of_app, list_elem_of_singleton. intuition.
  - apply list_elem_of_singleton in Hx as ->. exists ws, []. split; [done|apply not_elem_of_nil].
Qed.

Lemma touches_sorted ws : StronglySorted (later ws) (touches ws).
Proof.
  induction ws as [|v ws IH] using rev_ind; [constructor|]. rewrite touches_snoc. constructor.
  - apply StronglySorted_filter_ne with (w := v) in IH.
    eapply StronglySorted_impl_in; [|exact IH]. intros x y _ Hy (a & b & -> & Hyb & Hx).
    apply list_elem_of_filter in Hy as [Hy _]. exists a, (b ++ [v]). rewrite <- (assoc_L (++)).
    split; [done|]. rewrite !elem_of_app, !list_elem_of_singleton. intuition.
  - apply list.Forall_forall. intros y [Hy Hin]%list_elem_of_filter.
    rewrite elem_of_touches in Hin. destruct (last_use ws y Hin) as (a & b & -> & Hb).
    exists a, (b ++ [v]). rewrite <- (assoc_L (++)). split; [done|].
    rewrite !elem_of_app, !list_elem_of_singleton. intuition.
Qed.

(** The last use of an element is unique. *)
Lemma last_use_unique (ws : list nat) y a b a' b' :
  ws = a ++ y :: b -> y ∉ b -> ws = a' ++ y :: b' -> y ∉ b' -> b = b'.
Proof.
  intros -> Hb He Hb'. revert a' He. induction a as [|z a IH]; intros [|z' a'] He; simpl in He.
  - by injection He.
  - injection He as -> ->. exfalso. apply Hb, elem_of_app. right. left.
  - injection He as -> <-. exfalso. apply Hb', elem_of_app. right. left.
  - injection He as _ He. by apply (IH a').
Qed.

(** The oldest way: every other has been used since. *)
Lemma oldest_spec ws v :
  list.last (touches ws) = Some v ->
  exists ws1 ws2, ws = ws1 ++ v :: ws2 /\ (v ∉ ws2) /\ forall w, w ∈ ws -> w <> v -> w ∈ ws2.
Proof.
  intros Hl. assert (v ∈ ws) as Hv.
  { apply elem_of_touches. apply last_Some in Hl as [l ->]. apply elem_of_app. right. left. }
  destruct (last_use ws v Hv) as (a & b & Hws & Hb). exists a, b. split; [done|]. split; [done|].
  intros w Hw Hne. pose proof (touches_sorted ws) as Hs. apply elem_of_touches in Hw.
  apply last_Some in Hl as [l El]. rewrite El in *.
  apply elem_of_app in Hw as [Hw|Hw%list_elem_of_singleton]; [|done].
  assert (later ws w v) as (a' & b' & Hws' & Hb' & Hin).
  { apply list_elem_of_split in Hw as (l1 & l2 & ->). rewrite <- (assoc_L (++)) in Hs.
    clear -Hs. induction l1 as [|x l1 IH]; simpl in Hs.
    - apply StronglySorted_inv in Hs as [_ Hs]. rewrite list.Forall_forall in Hs. apply Hs, elem_of_app. right. left.
    - apply StronglySorted_inv in Hs as [Hs _]. by apply IH. }
  by rewrite (last_use_unique ws v a b a' b' Hws Hb Hws' Hb').
Qed.

(** ** Concretely: the [lru] fields of a set *)

Definition lru_at (s : list BLOCK) (w : nat) : Z := from_option b_lru 0 (s !! w).

(** The fields of a set represent a recency list: they grow along it, and the
    ways never used share the greatest value. *)
Definition recency (l : list nat) (s : list BLOCK) : Prop :=
  NoDup l /\ (forall w, w ∈ l -> (w < length s)%nat) /\
  StronglySorted (fun w v => lru_at s w < lru_at s v) l /\
  (forall w, w ∈ l -> 0 <= lru_at s w < LRU_INIT + Z.of_nat (length l)) /\
  (forall w, (w < length s)%nat -> w ∉ l -> lru_at s w = LRU_INIT + Z.of_nat (length l)).

Lemma lookup_promote way h s w :
  Lru.promote way h s !! w =
  (fun b => if decide (w = way) then (if b_lru b <=? h then b <| b_lru ::= fun l => u32 (l + 1) |> else b) <| b_lru := 0 |>
            else if b_lru b <=? h then b <| b_lru ::= fun l => u32 (l + 1) |> else b) <$> s !! w.
Proof.
  unfold Lru.promote. destruct (decide (w = way)) as [->|Hne].
  - rewrite list_lookup_alter_eq, list_lookup_fmap. by destruct (s !! way).
  - rewrite list_lookup_alter_ne, list_lookup_fmap by done. by destruct (s !! w).
Qed.

Lemma length_promote way h s : length (Lru.promote way h s) = length s.
Proof. unfold Lru.promote. by rewrite length_alter, length_fmap. Qed.

Lemma lru_at_promote way h s w :
  (w < length s)%nat ->
  lru_at (Lru.promote way h s) w =
    if decide (w = way) then 0 else if lru_at s w <=? h then u32 (lru_at s w + 1) else lru_at s w.
Proof.
  intros Hw. unfold lru_at. rewrite lookup_promote.
  destruct (lookup_lt_is_Some_2 s w Hw) as [b Hb]. rewrite Hb. simpl.
  destruct (decide _); [done|]. by destruct (_ <=? _).
Qed.

Lemma filter_ne_length (w : nat) l :
  NoDup l -> length (touch w l) = if decide (w ∈ l) then length l else S (length l).
Proof.
  intros Hn. unfold touch. simpl. induction Hn as [|x l Hx Hn IH]; [done|].
  rewrite filter_cons. destruct (decide (x <> w)) as [Hne|Hne].
  - simpl. destruct (decide (w ∈ l)), (decide (w ∈ x :: l)); try lia; exfalso.
    + apply n. by right.
    + by apply elem_of_cons in e as [->|].
  - apply dec_stable in Hne as ->. destruct (decide (w ∈ w :: l)) as [_|n]; [|exfalso; apply n; left].
    destruct (decide (w ∈ l)); [done|]. simpl. lia.
Qed.

(** The fields of a set stay clear of the width, and no two used ways agree. *)
Lemma recency_range l s w :
  recency l s -> (w < length s)%nat -> Z.of_nat (length s) < 2 ^ 31 ->
  0 <= lru_at s w <= LRU_INIT + Z.of_nat (length l) /\ u32 (lru_at s w + 1) = lru_at s w + 1.
Proof.
  intros (Hnd & Hlen & _ & Hin & Hout) Hw Hmax.
  assert (length l <= length s)%nat as Hll.
  { rewrite <- (length_seq (length s) 0). apply submseteq_length, NoDup_submseteq; [done|].
    intros v Hv. apply elem_of_seq. specialize (Hlen v Hv). lia. }
  assert (0 <= lru_at s w <= LRU_INIT + Z.of_nat (length l)) as Hr.
  { destruct (decide (w ∈ l)) as [Hwl|Hwl]; [specialize (Hin w Hwl); lia|]. rewrite (Hout w Hw Hwl). unfold LRU_INIT. lia. }
  split; [done|]. apply u32_small. unfold LRU_INIT in *. lia.
Qed.

Lemma recency_distinct l s w way :
  recency l s -> (way < length s)%nat -> w ∈ l -> w <> way -> lru_at s w <> lru_at s way.
Proof.
  intros (_ & _ & Hsort & Hin & Hout) Hway Hwl Hne Heq. destruct (decide (way ∈ l)) as [Hyl|Hyl].
  - apply list_elem_of_lookup in Hwl as [i Hi], Hyl as [j Hj]. assert (i <> j) by congruence.
    destruct (decide (i < j)%nat) as [Hij|Hij].
    + pose proof (StronglySorted_lookup_lt _ l _ _ _ _ Hsort Hi Hj Hij). simpl in *. lia.
    + pose proof (StronglySorted_lookup_lt _ l _ _ _ _ Hsort Hj Hi ltac:(lia)). simpl in *. lia.
  - specialize (Hin w Hwl). rewrite (Hout way Hway Hyl) in Heq. lia.
Qed.

(** Promoting a way is touching it. *)
Lemma promote_recency l s way :
  recency l s -> (way < length s)%nat -> Z.of_nat (length s) < 2 ^ 31 ->
  recency (touch way l) (Lru.promote way (lru_at s way) s).
Proof.
  intros Hrec Hway Hmax.
  assert (forall w, (w < length s)%nat -> 0 <= lru_at s w <= LRU_INIT + Z.of_nat (length l)) as Hrng
    by (intros w Hw; by apply recency_range).
  assert (forall w, (w < length s)%nat -> u32 (lru_at s w + 1) = lru_at s w + 1) as Hu
    by (intros w Hw; by eapply recency_range).
  assert (forall w, w ∈ l -> w <> way -> lru_at s w <> lru_at s way) as Hdist
    by (intros w; by apply recency_distinct).
  destruct Hrec as (Hnd & Hlen & Hsort & Hin & Hout).
  pose proof (filter_ne_length way l Hnd) as Hlt. set (h := lru_at s way) in *.
  split; [by apply touch_NoDup|]. rewrite length_promote. split.
  { intros w [->|Hw]%elem_of_touch; auto. }
  split; [|split].
  - constructor.
    + apply StronglySorted_filter_ne with (w := way) in Hsort.
      eapply StronglySorted_impl_in; [|exact Hsort].
      intros x y [Hx Hxl]%list_elem_of_filter [Hy Hyl]%list_elem_of_filter Hxy. simpl in *.
      rewrite !lru_at_promote by auto. rewrite !decide_False by done.
      rewrite !Hu by auto. specialize (Hdist x Hxl Hx).
      destruct (Z.leb_spec (lru_at s x) h), (Z.leb_spec (lru_at s y) h); lia.
    + apply list.Forall_forall. intros y [Hy Hyl]%list_elem_of_filter.
      rewrite !lru_at_promote by auto. rewrite decide_True, (decide_False (P := y = way)) by done.
      rewrite Hu by auto. specialize (Hin y Hyl). specialize (Hrng way Hway). fold h in Hrng.
      destruct (Z.leb_spec (lru_at s y) h); lia.
  - intros w Hw. rewrite Hlt. destruct (decide (way ∈ l)) as [Hyl|Hyl].
    + assert (w ∈ l) as Hwl by (apply elem_of_touch in Hw as [->|]; done).
      rewrite lru_at_promote by auto. specialize (Hin w Hwl) as Hi. specialize (Hin way Hyl). fold h in Hin.
      destruct (decide _); [lia|]. rewrite Hu by auto. destruct (Z.leb_spec (lru_at s w) h); [|lia].
      assert (lru_at s w <> h) by auto. lia.
    + unfold h. rewrite (Hout way Hway Hyl). apply elem_of_touch in Hw as [->|Hwl].
      * rewrite lru_at_promote by done. destruct (decide _); [|done]. unfold LRU_INIT. lia.
      * rewrite lru_at_promote by auto. specialize (Hin w Hwl).
        destruct (decide _); [unfold LRU_INIT; lia|]. rewrite Hu by auto.
        destruct (lru_at s w <=? _); lia.
  - intros w Hw Hwl. rewrite elem_of_touch in Hwl. rewrite lru_at_promote by done.
    destruct (decide (w = way)) as [->|Hne]; [tauto|]. rewrite Hlt, Hu by done.
    assert (w ∉ l) as Hwl' by tauto. rewrite (Hout w Hw Hwl'). unfold h.
    destruct (decide (way ∈ l)) as [Hyl|Hyl].
    + specialize (Hin way Hyl). destruct (Z.leb_spec (LRU_INIT + Z.of_nat (length l)) (lru_at s way)); lia.
    + rewrite (Hout way Hway Hyl), Z.leb_refl. lia.
Qed.

(** In a full set of which every way has been used, the victim is the oldest. *)
Lemma victim_oldest l s :
  recency l s -> s <> [] -> Forall (fun b => b_valid b = true) s -> (forall w, (w < length s)%nat -> w ∈ l) ->
  list.last l = Some (max_element lru_comparator s).
Proof.
  intros (Hnd & Hlen & Hsort & Hin & Hout) Hne Hval Hall. rewrite list.Forall_forall in Hval.
  destruct (max_element_key lru_comparator b_lru s Hne) as (b & Hb & Hmax).
  { intros x y Hx Hy. unfold lru_comparator, invalid_is_maximal, is_valid, is_valid_BLOCK, cmp_lru. simpl.
    by rewrite (Hval x Hx), (Hval y Hy). }
  set (v := max_element lru_comparator s) in *.
  assert (v ∈ l) as Hv by (apply Hall; by eapply lookup_lt_Some).
  destruct (list.last l) as [z|] eqn:Ez; [|apply last_None in Ez; subst; by apply elem_of_nil in Hv].
  f_equal. apply last_Some in Ez as [l' ->]. apply elem_of_app in Hv as [Hv|Hv%list_elem_of_singleton]; [|done].
  exfalso. apply list_elem_of_lookup in Hv as [i Hi].
  assert (lru_at s v < lru_at s z) as Hlt.
  { pose proof (lookup_lt_Some _ _ _ Hi) as Hil.
    apply (StronglySorted_lookup_lt _ _ _ _ _ _ Hsort (lookup_app_l_Some _ [z] _ _ Hi) (list_lookup_middle l' [] z (length l') eq_refl) Hil). }
  destruct (lookup_lt_is_Some_2 s z) as [c Hc]; [apply Hlen, elem_of_app; right; left|].
  destruct (Hmax z c Hc) as [Hle _]. unfold lru_at in Hlt. rewrite Hb, Hc in Hlt. simpl in Hlt. lia.
Qed.

(** ** Runs of the policy *)

(** A call of [update_replacement_state]. *)
Record access := mkAccess {
  a_cpu : Z;
  a_set : nat;
  a_way : nat;
  a_full_addr : Z;
  a_ip : Z;
  a_type : Z;
  a_hit : bool;
}.

Fixpoint run_accesses (NUM_WAY : nat) (accs : list access) (bs : list BLOCK) : cres (list BLOCK) :=
  match accs with
  | [] => Ret bs
  | a :: accs =>
    let* r := Lru.update_replacement_state NUM_WAY (a_cpu a) (a_set a) (a_way a) (a_full_addr a) (a_ip a) 0
                (a_type a) (a_hit a) Lru.mkLru bs in
    run_accesses NUM_WAY accs r.2
  end.

(** The ways of a set that were used, in order: a write-back that hits is not a
    use. *)
Definition is_use (a : access) : bool := negb (a_hit a && (a_type a =? WRITEBACK)).
Definition uses (set : nat) (accs : list access) : list nat :=
  a_way <$> filter (fun a => is_use a = true /\ a_set a = set) accs.

Lemma uses_cons set a accs :
  uses set (a :: accs) = (if decide (is_use a = true /\ a_set a = set) then [a_way a] else []) ++ uses set accs.
Proof. unfold uses. rewrite filter_cons. by destruct (decide _). Qed.

Lemma run_recency NUM_SET NUM_WAY set accs bs bs' ws :
  Z.of_nat NUM_WAY < 2 ^ 31 -> (set < NUM_SET)%nat ->
  Forall (fun a => (a_set a < NUM_SET)%nat /\ (a_way a < NUM_WAY)%nat) accs ->
  shape NUM_SET NUM_WAY bs -> recency (touches ws) (set_blocks NUM_WAY set bs) ->
  run_accesses NUM_WAY accs bs = Ret bs' ->
  shape NUM_SET NUM_WAY bs' /\ recency (touches (ws ++ uses set accs)) (set_blocks NUM_WAY set bs').
Proof.
  intros Hmax Hset. revert bs ws. induction accs as [|a accs IH]; intros bs ws Hr Hs Hrec; simpl.
  { intros [= <-]. unfold uses. simpl. by rewrite app_nil_r. }
  apply list.Forall_cons in Hr as [[Ha1 Ha2] Hr].
  intros ([u bs1] & Hu & Hrun)%cbind_Ret. simpl in Hrun. rewrite uses_cons.
  unfold Lru.update_replacement_state in Hu.
  destruct (a_hit a && (a_type a =? WRITEBACK)) eqn:Hwb.
  { assert (bs1 = bs) as -> by congruence. rewrite decide_False by (unfold is_use; rewrite Hwb; by intros [? _]). by apply (IH bs). }
  apply cbind_Ret in Hu as (b & Hb & Hu). injection Hu as <-.
  unfold block_at in Hb. destruct (bs !! _) as [b'|] eqn:Eb; [injection Hb as ->|done].
  assert (length (Lru.promote (a_way a) (b_lru b) (set_blocks NUM_WAY (a_set a) bs)) = NUM_WAY) as Hl
    by (rewrite length_promote; by eapply length_set_blocks).
  assert (shape NUM_SET NUM_WAY (put_set NUM_WAY (a_set a) (Lru.promote (a_way a) (b_lru b) (set_blocks NUM_WAY (a_set a) bs)) bs))
    as Hs1 by (by apply length_put_set).
  assert (is_use a = true) as Huse by (unfold is_use; by rewrite Hwb).
  rewrite (assoc_L (++)). destruct (decide (a_set a = set)) as [<-|Hne].
  - rewrite decide_True by done. apply (IH _ (ws ++ [a_way a])) in Hrun; [done|done|done|].
    rewrite touches_snoc. erewrite put_set_same by done.
    replace (b_lru b) with (lru_at (set_blocks NUM_WAY (a_set a) bs) (a_way a)).
    2: { unfold lru_at. rewrite lookup_set_blocks, Eb by done. done. }
    apply promote_recency; [done|..]; erewrite length_set_blocks by done; done.
  - rewrite decide_False by tauto. rewrite app_nil_r. apply (IH _ ws) in Hrun; [done|done|done|].
    by erewrite put_set_other by done.
Qed.

Lemma recency_initial NUM_SET NUM_WAY set :
  (set < NUM_SET)%nat -> recency (touches []) (set_blocks NUM_WAY set (replicate (NUM_SET * NUM_WAY) new_BLOCK)).
Proof.
  intros Hset. split; [constructor|]. split; [by intros w Hw%elem_of_nil|]. split; [constructor|].
  split; [by intros w Hw%elem_of_nil|]. intros w Hw _. unfold lru_at, set_blocks in *.
  rewrite length_take in Hw. rewrite lookup_take_lt, lookup_drop by lia.
  rewrite lookup_replicate_2 by nia. done.
Qed.

Lemma set_blocks_fmap {A} (f : BLOCK -> A) NUM_WAY set bs bs' :
  f <$> bs' = f <$> bs -> f <$> set_blocks NUM_WAY set bs' = f <$> set_blocks NUM_WAY set bs.
Proof. intros He. unfold set_blocks. by rewrite !fmap_take, !fmap_drop, He. Qed.

Lemma recency_fmap l s s' : b_lru <$> s' = b_lru <$> s -> recency l s -> recency l s'.
Proof.
  intros He Hr. unfold recency. assert (forall w, lru_at s' w = lru_at s w) as Hw.
  { intros w. unfold lru_at. pose proof (f_equal (.!! w) He) as Hl. rewrite !list_lookup_fmap in Hl.
    by destruct (s !! w), (s' !! w); simplify_eq/=. }
  assert (length s' = length s) as -> by (by rewrite <- (length_fmap b_lru s'), He, length_fmap).
  destruct Hr as (H1 & H2 & H3 & H4 & H5). split; [done|]. split; [done|]. split.
  - eapply StronglySorted_impl_in; [|exact H3]. intros x y _ _ Hxy. simpl in *. by rewrite !Hw.
  - split; intros w Hl; rewrite Hw; auto.
Qed.

(** C24: Once every way of a full set has been used, the victim is the way all
    others have been used after. *)
Theorem lru_evicts_least_recent NUM_SET NUM_WAY set accs bs bs' cpu instr_id ip full_addr type :
  (0 < NUM_WAY)%nat -> Z.of_nat NUM_WAY < 2 ^ 31 -> (set < NUM_SET)%nat ->
  Forall (fun a => (a_set a < NUM_SET)%nat /\ (a_way a < NUM_WAY)%nat) accs ->
  run_accesses NUM_WAY accs (replicate (NUM_SET * NUM_WAY) new_BLOCK) = Ret bs ->
  b_lru <$> bs' = b_lru <$> bs ->
  Forall (fun b => b_valid b = true) (set_blocks NUM_WAY set bs') ->
  (forall w, (w < NUM_WAY)%nat -> w ∈ uses set accs) ->
  exists v, Lru.find_victim NUM_WAY cpu instr_id set ip full_addr type Lru.mkLru bs' = Ret (v, (Lru.mkLru, bs')) /\
  (v < NUM_WAY)%nat /\
  exists before since, uses set accs = before ++ v :: since /\ (v ∉ since) /\
  forall w, (w < NUM_WAY)%nat -> w <> v -> w ∈ since.
Proof.
  intros Hpos Hmax Hset Hr Hrun He Hval Hall.
  assert (shape NUM_SET NUM_WAY (replicate (NUM_SET * NUM_WAY) new_BLOCK)) as Hs0 by (apply length_replicate).
  destruct (run_recency NUM_SET NUM_WAY set accs _ _ [] Hmax Hset Hr Hs0 (recency_initial _ _ _ Hset) Hrun) as [Hs Hrec].
  simpl in Hrec. apply (recency_fmap _ _ (set_blocks NUM_WAY set bs')) in Hrec; [|by apply set_blocks_fmap].
  assert (shape NUM_SET NUM_WAY bs') as Hs'.
  { unfold shape in *. rewrite <- Hs, <- (length_fmap b_lru bs'), He. apply length_fmap. }
  pose proof (length_set_blocks NUM_SET NUM_WAY set bs' Hs' Hset) as Hl.
  assert (set_blocks NUM_WAY set bs' <> []) as Hne by (intros E; rewrite E in Hl; simpl in Hl; lia).
  exists (max_element lru_comparator (set_blocks NUM_WAY set bs')). split; [done|].
  split; [rewrite <- Hl at 2; by apply max_element_lt|].
  assert (list.last (touches (uses set accs)) = Some (max_element lru_comparator (set_blocks NUM_WAY set bs'))) as Hlast.
  { apply victim_oldest; [done..|]. intros w Hw. rewrite Hl in Hw. by apply elem_of_touches, Hall. }
  destruct (oldest_spec _ _ Hlast) as (a & b & Hu & Hb & Hw). exists a, b.
  split; [done|]. split; [done|]. intros w Hw1 Hw2. apply Hw; [by apply Hall|done].
Qed.

(** Two ways of set 1, way 0 used last: way 1 goes. *)
Lemma lru_evicts_witness :
  let use w := mkAccess 0 1 w 0 0 LOAD false in
  exists bs v, run_accesses 2 (use <$> [0; 1; 0]%nat) (replicate 4 new_BLOCK) = Ret bs /\
  Lru.find_victim 2 0 0 1 0 0 LOAD Lru.mkLru ((fun b => b <| b_valid := true |>) <$> bs) =
    Ret (v, (Lru.mkLru, (fun b => b <| b_valid := true |>) <$> bs)) /\ v = 1%nat.
Proof.
  intros use. destruct (run_accesses 2 (use <$> [0; 1; 0]%nat) (replicate 4 new_BLOCK)) as [bs|] eqn:E; [|discriminate].
  destruct (lru_evicts_least_recent 2 2 1 (use <$> [0; 1; 0]%nat) bs ((fun b => b <| b_valid := true |>) <$> bs) 0 0 0 0 LOAD)
    as (v & Ev & _ & before & since & Eu & Hv & Hs); [lia|lia|lia| |exact E| | | |].
  - repeat constructor.
  - rewrite <- list_fmap_compose. apply list_fmap_ext. by intros i [].
  - apply Forall_take, Forall_drop, Forall_fmap, Forall_true. by intros [].
  - intros [|[|w]] Hw; [left|right; left|lia].
  - exists bs, v. split; [done|]. split; [exact Ev|]. injection E as <-. injection Ev as <-. reflexivity.
Defined.

(** ** The policy is one the cache can use *)

Lemma find_victim_lru_ok NUM_SET NUM_WAY cpu instr_id set ip full_addr type r bs :
  shape NUM_SET NUM_WAY bs -> (set < NUM_SET)%nat -> (0 < NUM_WAY)%nat ->
  exists v, Lru.find_victim NUM_WAY cpu instr_id set ip full_addr type r bs = Ret (v, (r, bs)) /\ (v < NUM_WAY)%nat.
Proof.
  intros Hs Hset Hw. exists (max_element lru_comparator (set_blocks NUM_WAY set bs)). split; [done|].
  pose proof (length_set_blocks NUM_SET NUM_WAY set bs Hs Hset) as Hl.
  rewrite <- Hl at 2. apply max_element_lt. intros E. rewrite E in Hl. simpl in Hl. lia.
Qed.

Lemma update_lru_ok NUM_SET NUM_WAY cpu set way full_addr ip victim_addr type hit r bs :
  shape NUM_SET NUM_WAY bs -> (set < NUM_SET)%nat -> (way < NUM_WAY)%nat ->
  exists bs', Lru.update_replacement_state NUM_WAY cpu set way full_addr ip victim_addr type hit r bs = Ret (r, bs') /\
  same_but_lru bs bs'.
Proof.
  intros Hs Hset Hw. unfold Lru.update_replacement_state. destruct (hit && _).
  { exists bs. split; [done|]. apply same_but_lru_refl. }
  destruct (lookup_lt_is_Some_2 bs (set * NUM_WAY + way)) as [b Hb]; [unfold shape in Hs; nia|].
  unfold block_at. rewrite Hb. cbn. eexists. split; [done|].
  apply Forall2_same_length_lookup. split.
  - unfold shape in Hs at 1. rewrite Hs. symmetry. apply length_put_set; [done..|]. rewrite length_promote. by eapply length_set_blocks.
  - intros i x y Hx Hy. rewrite (lookup_put_set NUM_SET) in Hy;
      [|done..|by rewrite length_promote; eapply length_set_blocks].
    destruct (decide _) as [Hi|_]; [|rewrite Hx in Hy; injection Hy as <-; by destruct x].
    rewrite lookup_promote, lookup_set_blocks in Hy by lia.
    replace (set * NUM_WAY + (i - set * NUM_WAY))%nat with i in Hy by lia. rewrite Hx in Hy.
    injection Hy as <-. destruct x. destruct (decide _); by destruct (_ <=? _).
Qed.

#[export] Instance lru_replacement_ok NUM_SET NUM_WAY : ReplacementOk Lru.state NUM_SET NUM_WAY.
Proof.
  refine {| lru_ok := fun _ => True; policy_ok := fun _ => True |}; [|].
  - intros cpu instr_id set ip full_addr type r bs Hs Hset Hw _ _ _.
    destruct (find_victim_lru_ok NUM_SET NUM_WAY cpu instr_id set ip full_addr type r bs Hs Hset Hw) as (v & E & Hv).
    exists v, r, bs. split; [exact E|]. split; [done|]. split; [apply same_but_lru_refl|done].
  - intros cpu set way full_addr ip victim_addr type hit r bs Hs Hset Hw _ _.
    destruct (update_lru_ok NUM_SET NUM_WAY cpu set way full_addr ip victim_addr type hit r bs Hs Hset Hw) as (bs' & E & Hb).
    exists r, bs'. split; [exact E|]. split; done.
Defined.

End LruOrder.
