(* ===== verification/SimRrip.v ===== *)
(** * ChampSim: the policies that predict re-reference

    The search for a victim of replacement/srrip, drrip and ship ends, which
    block it finds, and the sets of drrip that make it run for a long time. *)

From S2P Require Import Prelude SimUtil SimRepl.
Import Util Mem Sets Srrip.
Local Open Scope c_scope.

Module Rrip.

(** ** The search for a victim *)

Definition age (n : Z) (s : list BLOCK) : list BLOCK :=
  (fun x => x <| b_lru ::= fun l => u32 (l + n) |>) <$> s.

(** How often a value must grow to become [maxRRPV]. *)
Definition distance (b : BLOCK) : Z := (maxRRPV - b_lru b) mod 2 ^ 32.

Definition is_u32 (b : BLOCK) : Prop := 0 <= b_lru b < 2 ^ 32.

Lemma age_0 s : Forall is_u32 s -> age 0 s = s.
Proof.
  intros Hs. unfold age. rewrite <- (list_fmap_id s) at 2. apply list_fmap_ext.
  intros i b Hb. rewrite Forall_lookup in Hs. specialize (Hs i b Hb). unfold is_u32 in Hs.
  destruct b as [? ? ? ? ? ? ? ? ? ? l]. simpl in *. unfold set. simpl. f_equal. rewrite Z.add_0_r. by apply u32_small.
Qed.

Lemma age_age n s : 0 <= n -> age 1 (age n s) = age (n + 1) s.
Proof.
  intros Hn. unfold age. rewrite <- list_fmap_compose. apply list_fmap_ext. intros _ b _.
  destruct b as [? ? ? ? ? ? ? ? ? ? l]. unfold set. simpl. f_equal. rewrite u32_add_l. f_equal. lia.
Qed.

Lemma length_age n s : length (age n s) = length s.
Proof. apply length_fmap. Qed.

(** A value has grown to [maxRRPV] exactly after its distance. *)
Lemma aged_max n b : is_u32 b -> 0 <= n < 2 ^ 32 -> (u32 (b_lru b + n) =? maxRRPV) = (distance b =? n).
Proof.
  unfold is_u32, distance, u32, maxRRPV. intros Hb Hn.
  destruct (Z.eqb_spec ((3 - b_lru b) mod 2 ^ 32) n) as [<-|Hne].
  - apply Z.eqb_eq. rewrite Zplus_mod_idemp_r. by replace (b_lru b + (3 - b_lru b)) with 3 by lia.
  - apply Z.eqb_neq. intros He. apply Hne. rewrite <- He, Zminus_mod_idemp_l || idtac.
    mlia.
Qed.

Lemma find_aged n s :
  Forall is_u32 s -> 0 <= n < 2 ^ 32 ->
  find_if (fun x => b_lru x =? maxRRPV) (age n s) = find_if (fun b => distance b =? n) s.
Proof.
  intros Hs Hn. induction Hs as [|b s Hb Hs IH]; [done|]. simpl.
  rewrite <- (aged_max n b Hb Hn). destruct (_ =? _); [done|]. f_equal. exact IH.
Qed.

(** While no distance has been reached the loop goes on. *)
Lemma aging_goes_on n s :
  Forall is_u32 s -> Z.of_nat n <= 2 ^ 32 -> Forall (fun b => Z.of_nat n <= distance b) s ->
  iter_until_nat n age_or_stop s = inl (age (Z.of_nat n) s).
Proof.
  intros Hs. induction n as [|n IH]; intros Hn Hd; [simpl; by rewrite age_0|].
  replace (S n) with (n + 1)%nat by lia. rewrite iter_until_nat_add, IH;
    [|lia|eapply Forall_impl; [|exact Hd]; intros b Hb; simpl in *; lia].
  simpl. unfold age_or_stop. rewrite find_aged by (done || lia).
  assert (find_if (fun b => distance b =? Z.of_nat n) s = length s) as ->.
  { apply find_if_end. eapply Forall_impl; [|exact Hd]. intros b Hb. simpl in *. lia. }
  rewrite length_age, Nat.eqb_refl. replace (Z.of_nat (n + 1)) with (Z.of_nat n + 1) by lia.
  by rewrite <- age_age by lia.
Qed.

(** The search stops after the least distance, at the first block that has it. *)
Lemma aging_stops d s :
  Forall is_u32 s -> Forall (fun b => d <= distance b) s -> Exists (fun b => distance b = d) s ->
  iter_until aging_bound age_or_stop s = inr (find_if (fun b => (distance b =? d)%Z) s, age d s).
Proof.
  intros Hs Hd He. apply Exists_exists in He as (b & Hb & Hbd).
  assert (0 <= d < 2 ^ 32) as Hr by (rewrite <- Hbd; apply Z.mod_pos_bound; lia).
  rewrite iter_until_unary.
  assert (exists m, Pos.to_nat aging_bound = (Z.to_nat d + S m)%nat) as [m ->].
  { exists (Pos.to_nat aging_bound - Z.to_nat d - 1)%nat. unfold aging_bound.
    assert (Z.to_nat d < Pos.to_nat (2 ^ 32))%nat; [|lia].
    apply Nat2Z.inj_lt. rewrite positive_nat_Z, Z2Nat.id by lia. exact (proj2 Hr). }
  rewrite iter_until_nat_add, aging_goes_on;
    [|done|lia|eapply Forall_impl; [|exact Hd]; intros x Hx; simpl in *; lia].
  rewrite Z2Nat.id by lia. simpl. unfold age_or_stop. rewrite find_aged by done.
  destruct (Nat.eqb_spec (find_if (fun b => (distance b =? d)%Z) s) (length (age d s))) as [E|]; [|done].
  rewrite length_age in E. apply find_if_end in E. rewrite list.Forall_forall in E.
  specialize (E b ltac:(by apply list_elem_of_In)). simpl in E. lia.
Qed.

Lemma least_distance s :
  s <> [] -> exists d, Forall (fun b => d <= distance b) s /\ Exists (fun b => distance b = d) s.
Proof.
  induction s as [|b s IH]; [done|]. intros _. destruct s as [|c s].
  { exists (distance b). split; [by repeat constructor|by constructor]. }
  destruct IH as (d & Hd & He); [done|].
  exists (Z.min (distance b) d). split.
  - constructor; [lia|]. eapply Forall_impl; [|exact Hd]. intros x Hx. simpl in *. lia.
  - destruct (Z.le_ge_cases (distance b) d); [constructor; lia|apply Exists_cons_tl].
    eapply Exists_impl; [|exact He]. intros x Hx. simpl in *. lia.
Qed.

(** Every way of a set is a [uint32_t]: the search ends, whatever the values. *)
Lemma find_victim_ends NUM_SET NUM_WAY cpu instr_id set ip full_addr type {R} (r : R) bs :
  shape NUM_SET NUM_WAY bs -> (set < NUM_SET)%nat -> (0 < NUM_WAY)%nat ->
  Forall is_u32 (set_blocks NUM_WAY set bs) ->
  exists d v, find_victim NUM_WAY cpu instr_id set ip full_addr type r bs =
    Ret (v, (r, put_set NUM_WAY set (age d (set_blocks NUM_WAY set bs)) bs)) /\ (v < NUM_WAY)%nat /\
  v = find_if (fun b => (distance b =? d)%Z) (set_blocks NUM_WAY set bs) /\
  Forall (fun b => d <= distance b) (set_blocks NUM_WAY set bs) /\
  exists b, bs !! (set * NUM_WAY + v)%nat = Some b /\ distance b = d.
Proof.
  intros Hs Hset Hw Hu. pose proof (length_set_blocks NUM_SET NUM_WAY set bs Hs Hset) as Hl.
  destruct (least_distance (set_blocks NUM_WAY set bs)) as (d & Hd & He).
  { intros E. rewrite E in Hl. simpl in Hl. lia. }
  exists d, (find_if (fun b => (distance b =? d)%Z) (set_blocks NUM_WAY set bs)).
  unfold find_victim. rewrite (aging_stops d) by done. split; [done|].
  assert (find_if (fun b => (distance b =? d)%Z) (set_blocks NUM_WAY set bs) < length (set_blocks NUM_WAY set bs))%nat as Hv.
  { pose proof (find_if_le (fun b => (distance b =? d)%Z) (set_blocks NUM_WAY set bs)) as Hle.
    apply Exists_exists in He as (b & Hb & Hbd).
    destruct (decide (find_if (fun b => (distance b =? d)%Z) (set_blocks NUM_WAY set bs) = length (set_blocks NUM_WAY set bs))) as [E|]; [|lia].
    apply find_if_end in E. rewrite list.Forall_forall in E. specialize (E b ltac:(by apply list_elem_of_In)).
    simpl in E. lia. }
  destruct (find_if_Some _ _ Hv) as (b & Hb & Hbd). rewrite Hl in Hv.
  split; [done|]. split; [done|]. split; [done|]. exists b. rewrite lookup_set_blocks in Hb by done.
  split; [done|]. by apply Z.eqb_eq.
Qed.

(** *** The values of the policies *)

Definition rrpv_ok (l : Z) : Prop := 0 <= l <= maxRRPV.

Lemma rrpv_distance b : rrpv_ok (b_lru b) -> distance b = maxRRPV - b_lru b.
Proof. unfold rrpv_ok, distance, maxRRPV. intros. apply Z.mod_small. lia. Qed.

Lemma rrpv_u32 b : rrpv_ok (b_lru b) -> is_u32 b.
Proof. unfold rrpv_ok, is_u32, maxRRPV. lia. Qed.

Lemma age_same n s : same_but_lru s (age n s).
Proof. apply same_but_lru_fmap. by intros []. Qed.

Lemma same_but_lru_put_set NUM_SET NUM_WAY set s bs :
  shape NUM_SET NUM_WAY bs -> (set < NUM_SET)%nat -> same_but_lru (set_blocks NUM_WAY set bs) s ->
  same_but_lru bs (put_set NUM_WAY set s bs).
Proof.
  intros Hs Hset Hsame. pose proof (same_but_lru_length _ _ Hsame) as Hl.
  rewrite (length_set_blocks NUM_SET) in Hl by done. apply Forall2_same_length_lookup. split.
  - symmetry. unfold shape in Hs at 1. rewrite Hs. by apply length_put_set.
  - intros i x y Hx Hy. rewrite (lookup_put_set NUM_SET) in Hy by done.
    destruct (decide _) as [Hi|]; [|rewrite Hx in Hy; injection Hy as <-; by destruct x].
    assert (set_blocks NUM_WAY set bs !! (i - set * NUM_WAY)%nat = Some x) as Hx'.
    { rewrite lookup_set_blocks by lia. rewrite <- Hx. f_equal. lia. }
    destruct (same_but_lru_lookup _ _ _ _ Hsame Hx') as (z & Hz & Ez). rewrite Hz in Hy. by injection Hy as <-.
Qed.

(** The blocks of a full set have good values. *)
Lemma full_set_rrpv NUM_WAY set bs :
  Forall (fun b => b_valid b = true) (set_blocks NUM_WAY set bs) -> lrus_ok rrpv_ok None bs ->
  Forall (fun b => rrpv_ok (b_lru b)) (set_blocks NUM_WAY set bs).
Proof.
  intros Hv Hok. rewrite Forall_lookup in *. intros i b Hb. pose proof (Hv i b Hb) as Hval.
  unfold set_blocks in Hb. apply lookup_take_Some in Hb as [Hb Hi]. rewrite lookup_drop in Hb.
  by apply (Hok _ b Hb).
Qed.

Lemma lrus_ok_put_set NUM_SET NUM_WAY set s bs (ok : Z -> Prop) :
  shape NUM_SET NUM_WAY bs -> (set < NUM_SET)%nat -> length s = NUM_WAY ->
  lrus_ok ok None bs -> Forall (fun b => ok (b_lru b)) s -> lrus_ok ok None (put_set NUM_WAY set s bs).
Proof.
  intros Hs Hset Hl Hok Hsok i b Hi Hv He. rewrite (lookup_put_set NUM_SET) in Hi by done.
  destruct (decide _); [|by apply (Hok i)]. rewrite Forall_lookup in Hsok. by apply (Hsok _ _ Hi).
Qed.

(** What the search does to a full set with good values. *)
Lemma find_victim_rrpv NUM_SET NUM_WAY cpu instr_id set ip full_addr type {R} (r : R) bs :
  shape NUM_SET NUM_WAY bs -> (set < NUM_SET)%nat -> (0 < NUM_WAY)%nat ->
  Forall (fun b => b_valid b = true) (set_blocks NUM_WAY set bs) -> lrus_ok rrpv_ok None bs ->
  exists v bs', find_victim NUM_WAY cpu instr_id set ip full_addr type r bs = Ret (v, (r, bs')) /\
  (v < NUM_WAY)%nat /\ same_but_lru bs bs' /\ lrus_ok rrpv_ok None bs'.
Proof.
  intros Hs Hset Hw Hv Hok. pose proof (full_set_rrpv _ _ _ Hv Hok) as Hset_ok.
  destruct (find_victim_ends NUM_SET NUM_WAY cpu instr_id set ip full_addr type r bs Hs Hset Hw)
    as (d & v & E & Hvw & _ & Hd & b & Hb & Hbd).
  { eapply Forall_impl; [|exact Hset_ok]. intros b. apply rrpv_u32. }
  exists v, (put_set NUM_WAY set (age d (set_blocks NUM_WAY set bs)) bs). split; [done|]. split; [done|].
  split; [eapply same_but_lru_put_set; [done..|apply age_same]|].
  assert (0 <= d) by (rewrite <- Hbd; apply Z.mod_pos_bound; lia).
  apply (lrus_ok_put_set NUM_SET); [done..|rewrite length_age; by apply (length_set_blocks NUM_SET)|done|].
  apply Forall_fmap. rewrite Forall_lookup in Hset_ok, Hd. apply Forall_lookup. intros i x Hx.
  pose proof (Hset_ok i x Hx) as Hx1. pose proof (Hd i x Hx) as Hx2. simpl in *.
  rewrite rrpv_distance in Hx2 by done. unfold rrpv_ok, maxRRPV in *. rewrite u32_small; lia.
Qed.

Lemma set_block_lru_ok (v : Z) i bs :
  (i < length bs)%nat -> exists bs', set_block_lru v i bs = Ret bs' /\ bs' = alter (fun b => b <| b_lru := v |>) i bs.
Proof.
  intros Hi. destruct (lookup_lt_is_Some_2 bs i Hi) as [b Hb].
  unfold set_block_lru, modify_block, block_at. rewrite Hb. eauto.
Qed.

Lemma lrus_ok_alter (ok : Z -> Prop) v i exc bs :
  ok v -> exc = None \/ exc = Some i -> lrus_ok ok exc bs ->
  lrus_ok ok None (alter (fun b => b <| b_lru := v |>) i bs).
Proof.
  intros Hv He Hok j b Hj Hval _. destruct (decide (j = i)) as [->|Hne].
  - rewrite list_lookup_alter_eq in Hj. destruct (bs !! i); [|done]. by injection Hj as <-.
  - rewrite list_lookup_alter_ne in Hj by done. apply (Hok j); [done..|]. destruct He; congruence.
Qed.

Lemma same_but_lru_set v i bs : same_but_lru bs (alter (fun b => b <| b_lru := v |>) i bs).
Proof. apply same_but_lru_alter. by intros []. Qed.

(** ** The policies are ones the cache can use *)

#[export] Instance srrip_replacement_ok NUM_SET NUM_WAY : ReplacementOk Srrip.state NUM_SET NUM_WAY.
Proof.
  refine {| lru_ok := rrpv_ok; policy_ok := fun _ => True |}.
  - intros cpu instr_id set ip full_addr type r bs Hs Hset Hw Hv _ Hok.
    destruct (find_victim_rrpv NUM_SET NUM_WAY cpu instr_id set ip full_addr type r bs Hs Hset Hw Hv Hok)
      as (v & bs' & E & H1 & H2 & H3). exists v, r, bs'. done.
  - intros cpu set way full_addr ip victim_addr type hit r bs Hs Hset Hw _ Hok. cbn.
    unfold Srrip.update_replacement_state.
    destruct (set_block_lru_ok (if hit then 0 else maxRRPV - 1) (set * NUM_WAY + way) bs) as (bs' & -> & ->);
      [unfold shape in Hs; nia|].
    cbn. do 2 eexists. split; [done|]. split; [apply same_but_lru_set|]. split; [done|].
    eapply lrus_ok_alter; [|..|exact Hok]; [unfold rrpv_ok, maxRRPV; destruct hit; lia|destruct hit; auto].
Qed.

(** *** SHIP *)

(** The sampler has room for the window of every sampled set. *)
Definition sampler_ok (NUM_WAY : nat) (r : Ship.state) : Prop :=
  (0 < NUM_WAY)%nat /\ (length (Ship.rand_sets r) + NUM_WAY <= S (length (Ship.sampler r)))%nat.

Lemma update_sampler_ok NUM_WAY s_idx cpu full_addr ip type r :
  sampler_ok NUM_WAY r -> (s_idx < length (Ship.rand_sets r))%nat ->
  exists r', Ship.update_sampler NUM_WAY s_idx cpu full_addr ip type r = Ret r' /\ sampler_ok NUM_WAY r'.
Proof.
  intros [Hw Hr] Hi. unfold Ship.update_sampler.
  set (s_set := take NUM_WAY (drop s_idx (Ship.sampler r))).
  assert (length s_set = NUM_WAY) as Hl by (unfold s_set; rewrite length_take, length_drop; lia).
  set (found := find_if _ s_set). set (m := if (found =? length s_set)%nat then _ else _).
  assert (m < length s_set)%nat as Hm.
  { unfold m. destruct (Nat.eqb_spec found (length s_set)) as [|Hne].
    - apply max_element_lt. intros E. rewrite E in Hl. simpl in Hl. lia.
    - pose proof (find_if_le (eq_addr full_addr (8 + lg2 (Z.of_nat NUM_WAY))) s_set). fold found in H. lia. }
  destruct (lookup_lt_is_Some_2 s_set m Hm) as [e ->].
  assert (forall r1 s, Ship.rand_sets r1 = Ship.rand_sets r -> Ship.sampler r1 = Ship.sampler r -> length s = NUM_WAY ->
    sampler_ok NUM_WAY (r1 <| Ship.sampler := take s_idx (Ship.sampler r1) ++ s ++ drop (s_idx + NUM_WAY) (Ship.sampler r1) |>)) as Hput.
  { intros r1 s E1 E2 Es. unfold sampler_ok. cbn. rewrite E1, E2, !length_app, length_take, length_drop, Es. lia. }
  destruct (found =? length s_set)%nat; (eexists; split; [done|]); apply Hput;
    rewrite ?length_alter, ?length_fmap, ?length_insert; try done;
    by (destruct (ztrue _ && _) || destruct (0 <? _)).
Qed.

Lemma sample_ok NUM_WAY set cpu full_addr ip type r :
  sampler_ok NUM_WAY r ->
  exists r', Ship.sample NUM_WAY set cpu full_addr ip type r = Ret r' /\ sampler_ok NUM_WAY r'.
Proof.
  intros Hp. unfold Ship.sample.
  destruct (Nat.ltb_spec (find_if (fun x => (x =? Z.of_nat set)%Z) (Ship.rand_sets r)) (length (Ship.rand_sets r)));
    [by apply update_sampler_ok|eauto].
Qed.

#[export] Instance ship_replacement_ok NUM_SET NUM_WAY : ReplacementOk Ship.state NUM_SET NUM_WAY.
Proof.
  refine {| lru_ok := rrpv_ok; policy_ok := sampler_ok NUM_WAY |}.
  - intros cpu instr_id set ip full_addr type r bs Hs Hset Hw Hv Hp Hok.
    destruct (find_victim_rrpv NUM_SET NUM_WAY cpu instr_id set ip full_addr type r bs Hs Hset Hw Hv Hok)
      as (v & bs' & E & H1 & H2 & H3). exists v, r, bs'. done.
  - intros cpu set way full_addr ip victim_addr type hit r bs Hs Hset Hw Hp Hok. cbn.
    assert (set * NUM_WAY + way < length bs)%nat as Hi by (unfold shape in Hs; nia).
    assert (forall v, rrpv_ok v -> exists bs', set_block_lru v (set * NUM_WAY + way) bs = Ret bs' /\
              same_but_lru bs bs' /\ lrus_ok rrpv_ok None bs' /\ length bs' = length bs) as Hset_lru.
    { intros v Hv. destruct (set_block_lru_ok v _ bs Hi) as (bs' & -> & ->). eexists. split; [done|].
      split; [apply same_but_lru_set|]. split; [|apply length_alter].
      eapply lrus_ok_alter; [done|..|exact Hok]. destruct hit; auto. }
    assert (rrpv_ok 0 /\ rrpv_ok 2 /\ rrpv_ok 3) as (Hv0 & Hv2 & Hv3) by (unfold rrpv_ok, maxRRPV; lia).
    unfold Ship.update_replacement_state. change (maxRRPV - 1) with 2. change maxRRPV with 3.
    destruct (type =? WRITEBACK).
    { destruct hit; cbn.
      - do 2 eexists. split; [done|]. split; [apply same_but_lru_refl|done].
      - destruct (Hset_lru 2 Hv2) as (bs' & -> & ? & ? & _). cbn. eauto 10. }
    destruct (sample_ok NUM_WAY set cpu full_addr ip type r Hp) as (r' & -> & Hp'). cbn [cbind].
    destruct hit.
    { destruct (Hset_lru 0 Hv0) as (bs' & -> & ? & ? & _). cbn. eauto 10. }
    destruct (Hset_lru 2 Hv2) as (bs' & -> & Hs2 & Hok2 & Hlen). cbn [cbind].
    destruct (_ =? _); [|eauto 10].
    destruct (set_block_lru_ok 3 (set * NUM_WAY + way) bs') as (bs2 & -> & ->); [lia|]. cbn.
    do 2 eexists. split; [done|]. split; [eapply same_but_lru_trans; [exact Hs2|apply same_but_lru_set]|].
    split; [done|]. eapply lrus_ok_alter; [done|by left|done].
Qed.

(** ** Which block is evicted *)

(** SRRIP: the first block of the greatest value, and every value of the set
    grows by what that block needs to reach [maxRRPV]. *)
Theorem srrip_evicts_most_distant NUM_SET NUM_WAY cpu instr_id set ip full_addr type (r : Srrip.state) bs :
  shape NUM_SET NUM_WAY bs -> (set < NUM_SET)%nat -> (0 < NUM_WAY)%nat ->
  Forall (fun b => rrpv_ok (b_lru b)) (set_blocks NUM_WAY set bs) ->
  exists v b, bs !! (set * NUM_WAY + v)%nat = Some b /\ (v < NUM_WAY)%nat /\
  (forall w c, (w < NUM_WAY)%nat -> bs !! (set * NUM_WAY + w)%nat = Some c ->
     b_lru c <= b_lru b /\ ((w < v)%nat -> b_lru c < b_lru b)) /\
  find_victim NUM_WAY cpu instr_id set ip full_addr type r bs =
    Ret (v, (r, put_set NUM_WAY set
      ((fun c => c <| b_lru ::= fun l => l + (maxRRPV - b_lru b) |>) <$> set_blocks NUM_WAY set bs) bs)).
Proof.
  intros Hs Hset Hw Hok.
  destruct (find_victim_ends NUM_SET NUM_WAY cpu instr_id set ip full_addr type r bs Hs Hset Hw)
    as (d & v & E & Hv & Hvd & Hd & b & Hb & Hbd).
  { eapply Forall_impl; [|exact Hok]. intros b. apply rrpv_u32. }
  rewrite Forall_lookup in Hok, Hd.
  pose proof (lookup_set_blocks NUM_WAY set v bs Hv) as Hb'. rewrite Hb in Hb'.
  pose proof (Hok v b Hb') as Hbok. simpl in Hbok. rewrite rrpv_distance in Hbd by done.
  exists v, b. split; [done|]. split; [done|]. split.
  - intros w c Hwv Hc. pose proof (lookup_set_blocks NUM_WAY set w bs Hwv) as Hc'. rewrite Hc in Hc'.
    pose proof (Hok w c Hc') as Hcok. pose proof (Hd w c Hc') as Hcd. simpl in Hcok, Hcd.
    rewrite rrpv_distance in Hcd by done. split; [lia|]. intros Hlt. rewrite Hvd in Hlt.
    pose proof (find_if_before _ _ _ _ Hc' Hlt) as Hne. simpl in Hne. rewrite rrpv_distance in Hne by done. lia.
  - rewrite E. do 4 f_equal. unfold age. apply list_fmap_ext. intros w c Hc.
    pose proof (Hok w c Hc) as Hcok. pose proof (Hd w c Hc) as Hcd. simpl in Hcok, Hcd.
    rewrite rrpv_distance in Hcd by done. destruct c as [? ? ? ? ? ? ? ? ? ? l]. unfold Prelude.set. cbn in *. f_equal.
    unfold rrpv_ok, maxRRPV in *. rewrite u32_small; lia.
Qed.

Lemma srrip_evicts_witness :
  let bs := (fun l => new_BLOCK <| b_lru := l |>) <$> [0; 1; 2; 1] in
  exists bs', find_victim 2 0 0 1 0 0 LOAD Srrip.mkSrrip bs = Ret (0%nat, (Srrip.mkSrrip, bs')) /\ b_lru <$> bs' = [0; 1; 3; 2].
Proof.
  intros bs. destruct (srrip_evicts_most_distant 2 2 0 0 1 0 0 LOAD Srrip.mkSrrip bs) as (v & b & Hb & Hv & Hmax & E);
    [reflexivity|lia|lia| |].
  { apply list.Forall_cons; split; [|apply list.Forall_cons; split; [|constructor]]; unfold rrpv_ok, maxRRPV; cbn; lia. }
  destruct v as [|[|v]]; [| |lia].
  - injection Hb as <-. eexists. split; [exact E|reflexivity].
  - destruct (Hmax 0%nat (new_BLOCK <| b_lru := 2 |>)) as [Hle _]; [lia|reflexivity|]. injection Hb as <-. cbn in Hle. lia.
Defined.

(** ** DRRIP

    A miss in a sampled set that is neither the first nor the second of the
    sample leaves the replacement state of the filled block as it was. *)
Lemma drrip_ignores_sampled NUM_WAY cpu set way full_addr ip victim_addr type r bs p :
  let range := take (Z.to_nat (Drrip.NUM_POLICY * Drrip.SDM_SIZE))
                 (drop (Z.to_nat (cpu * Drrip.NUM_POLICY * Drrip.SDM_SIZE)) (Drrip.rand_sets r)) in
  find_if (fun x => x =? Z.of_nat set) range = p -> (2 <= p < length range)%nat -> type <> WRITEBACK ->
  Drrip.update_replacement_state NUM_WAY cpu set way full_addr ip victim_addr type false r bs = Ret (r, bs).
Proof.
  intros range Hp Hr Ht. unfold Drrip.update_replacement_state. fold range.
  destruct (Z.eqb_spec type WRITEBACK); [done|]. rewrite Hp.
  destruct (Nat.eqb_spec p (length range)); [lia|]. destruct (Nat.eqb_spec p 0); [lia|].
  by destruct (Nat.eqb_spec p 1); [lia|].
Qed.

(** Blocks are created with [2^31 - 1] there, so that once such a set is full
    the search for a victim ages it for more than two thousand million turns. *)
Theorem drrip_sampled_set_spins NUM_WAY cpu set r p :
  let range := take (Z.to_nat (Drrip.NUM_POLICY * Drrip.SDM_SIZE))
                 (drop (Z.to_nat (cpu * Drrip.NUM_POLICY * Drrip.SDM_SIZE)) (Drrip.rand_sets r)) in
  find_if (fun x => x =? Z.of_nat set) range = p -> (2 <= p < length range)%nat ->
  (forall way full_addr ip victim_addr type bs, type <> WRITEBACK ->
     Drrip.update_replacement_state NUM_WAY cpu set way full_addr ip victim_addr type false r bs = Ret (r, bs)) /\
  (forall s turns, Forall (fun b => b_lru b = LRU_INIT) s -> Z.of_nat turns <= 2 ^ 31 + 4 ->
     iter_until_nat turns age_or_stop s = inl (age (Z.of_nat turns) s)).
Proof.
  intros range Hp Hr. split.
  - intros way full_addr ip victim_addr type bs Ht. by eapply drrip_ignores_sampled.
  - intros s turns Hs Ht. apply aging_goes_on; [|lia|]; eapply Forall_impl; [|exact Hs| |exact Hs];
      intros b Hb; unfold is_u32, distance; simpl in *; rewrite Hb; unfold LRU_INIT, maxRRPV.
    + lia.
    + change ((3 - (2 ^ 31 - 1)) mod 2 ^ 32) with (2 ^ 31 + 4). lia.
Qed.

Lemma drrip_spins_witness :
  iter_until_nat 1000 age_or_stop [new_BLOCK; new_BLOCK] = inl (age 1000 [new_BLOCK; new_BLOCK]).
Proof.
  destruct (drrip_sampled_set_spins 2 0 7 (Drrip.mkDrrip 0 [3; 5; 7] ∅) 2) as [_ H]; [reflexivity|split; [lia|vm_compute; lia]|].
  apply (H [new_BLOCK; new_BLOCK] 1000%nat); [repeat constructor|lia].
Defined.

(** ** SHIP

    The counters rise when a line that has been reused leaves the sampler: lines
    that are never reused leave them at zero, and are never predicted distant. *)
Lemma ship_never_reused NUM_WAY s_idx cpu full_addr ip type r r' :
  Ship.SHCT r = ∅ -> Forall (fun e => Ship.s_used e = 0) (Ship.sampler r) ->
  Forall (fun e => eq_addr full_addr (8 + lg2 (Z.of_nat NUM_WAY)) e = false) (Ship.sampler r) ->
  Ship.update_sampler NUM_WAY s_idx cpu full_addr ip type r = Ret r' ->
  Ship.SHCT r' = ∅ /\ Forall (fun e => Ship.s_used e = 0) (Ship.sampler r').
Proof.
  intros Hsh Hu Hne. unfold Ship.update_sampler. set (s_set := take NUM_WAY _).
  assert (forall P, Forall P (Ship.sampler r) -> Forall P s_set) as Hsub
    by (intros P HP; by apply Forall_take, Forall_drop).
  assert (find_if (eq_addr full_addr (8 + lg2 (Z.of_nat NUM_WAY))) s_set = length s_set) as ->
    by (apply find_if_end; by apply Hsub).
  rewrite Nat.eqb_refl. destruct (s_set !! _) as [e|] eqn:Ee; [|done].
  pose proof (Hsub _ Hu) as Hus. rewrite Forall_lookup in Hus. specialize (Hus _ _ Ee). simpl in Hus.
  rewrite Hus. cbn. intros [= <-]. cbn. split; [done|].
  apply Forall_app. split; [by apply Forall_take|]. apply Forall_app. split; [|by apply Forall_drop].
  apply Forall_alter; [|by intros []]. apply Forall_fmap. apply Forall_insert; [|done].
  eapply Forall_impl; [|exact (Hsub _ Hu)]. by intros [].
Qed.

End Rrip.
