(* ===== verification/SimCache.v ===== *)
(** * ChampSim: the cache

    src/cache.cc and inc/cache.h: one cache with its queues and miss registers,
    over any lower level, replacement policy and prefetcher. *)

From S2P Require Import Prelude SimUtil SimQueue SimVmem SimRepl.
Import Util Mem Circ Delay Vmem Sets.
Local Open Scope c_scope.

(** ** The interface between levels (inc/memory_class.h)

    [add_rq] and its like take a pointer to a packet, which they may change, and
    may call [return_data] of the producers named in it before they return: the
    result has the value returned, the packet, the calls in order (a producer and
    the packet it is given), and the new state. *)
Definition calls : Type := list (nat * PACKET).

Class LowerLevel (L : Type) := {
  ll_fill_level : L -> Z;
  ll_add_rq : PACKET -> L -> cres (Z * PACKET * calls * L);
  ll_add_wq : PACKET -> L -> cres (Z * PACKET * calls * L);
  ll_add_pq : PACKET -> L -> cres (Z * PACKET * calls * L);
  ll_get_occupancy : Z -> Z -> L -> cres Z;
  ll_get_size : Z -> Z -> L -> cres Z;
}.

Module Cache.

(** The constants of a cache.  [self] is the number of the object as a
    producer. *)
Record params := mkParams {
  NUM_SET : nat;
  NUM_WAY : nat;
  MSHR_SIZE : Z;
  FILL_LATENCY : Z;
  OFFSET_BITS : Z;
  MAX_READ : Z;
  MAX_WRITE : Z;
  prefetch_as_load : bool;
  match_offset_bits : bool;
  virtual_prefetch : bool;
  pref_activate_mask : Z;
  cache_level : Z;
  self : nat;
}.

(** The counters, which are only printed. *)
Record STATS := mkSTATS {
  pf_requested : Z;
  pf_issued : Z;
  pf_useful : Z;
  pf_useless : Z;
  pf_fill : Z;
  sim_access : gmap (Z * Z) Z;
  sim_hit : gmap (Z * Z) Z;
  sim_miss : gmap (Z * Z) Z;
  RQ_ACCESS : Z;
  RQ_MERGED : Z;
  RQ_FULL : Z;
  RQ_TO_CACHE : Z;
  PQ_ACCESS : Z;
  PQ_MERGED : Z;
  PQ_FULL : Z;
  PQ_TO_CACHE : Z;
  WQ_ACCESS : Z;
  WQ_MERGED : Z;
  WQ_FULL : Z;
  WQ_FORWARD : Z;
  WQ_TO_CACHE : Z;
  total_miss_latency : Z;
}.

#[global] Instance eta_STATS : Settable STATS :=
  mkEta _ (fun x => mkSTATS (pf_requested x) (pf_issued x) (pf_useful x) (pf_useless x) (pf_fill x)
    (sim_access x) (sim_hit x) (sim_miss x) (RQ_ACCESS x) (RQ_MERGED x) (RQ_FULL x)
    (RQ_TO_CACHE x) (PQ_ACCESS x) (PQ_MERGED x) (PQ_FULL x) (PQ_TO_CACHE x)
    (WQ_ACCESS x) (WQ_MERGED x) (WQ_FULL x) (WQ_FORWARD x) (WQ_TO_CACHE x)
    (total_miss_latency x)).

(** The mutable part.  [returned] records the calls of [return_data] of other
    objects, in order. *)
Record CACHE (R P L : Type) := mkCACHE {
  c_cpu : Z;
  block : list BLOCK;
  reads_available_this_cycle : Z;
  writes_available_this_cycle : Z;
  ever_seen_data : bool;
  RQ : delay_queue PACKET;
  PQ : delay_queue PACKET;
  VAPQ : delay_queue PACKET;
  WQ : delay_queue PACKET;
  MSHR : list PACKET;
  current_cycle : Z;
  lower_level : option L;
  repl : R;
  pref : P;
  vmem : VirtualMemory;
  returned : calls;
  stats : STATS;
}.
Arguments c_cpu {R P L}.
Arguments block {R P L}.
Arguments reads_available_this_cycle {R P L}.
Arguments writes_available_this_cycle {R P L}.
Arguments ever_seen_data {R P L}.
Arguments RQ {R P L}.
Arguments PQ {R P L}.
Arguments VAPQ {R P L}.
Arguments WQ {R P L}.
Arguments MSHR {R P L}.
Arguments current_cycle {R P L}.
Arguments lower_level {R P L}.
Arguments repl {R P L}.
Arguments pref {R P L}.
Arguments vmem {R P L}.
Arguments returned {R P L}.
Arguments stats {R P L}.

#[global] Instance eta_CACHE R P L : Settable (CACHE R P L) :=
  mkEta _ (fun x => mkCACHE R P L (c_cpu x) (block x) (reads_available_this_cycle x)
    (writes_available_this_cycle x) (ever_seen_data x) (RQ x) (PQ x) (VAPQ x)
    (WQ x) (MSHR x) (current_cycle x) (lower_level x) (repl x) (pref x)
    (vmem x) (returned x) (stats x)).

(** A prefetcher: the functions that the source generated from the
    configuration dispatches to. *)
Class Prefetcher (C : Type) := {
  prefetcher_cache_operate (addr ip : Z) (cache_hit : bool) (type metadata : Z) : C -> cres (Z * C);
  prefetcher_cache_fill (addr : Z) (set way : nat) (prefetch : bool) (evicted_addr metadata : Z) : C -> cres (Z * C);
  prefetcher_cycle_operate : C -> cres C;
}.
(** Increment a 64-bit counter, and the entry of a table of counters. *)
Definition inc (x : Z) : Z := u64 (x + 1).
Definition bump (cpu type : Z) (m : gmap (Z * Z) Z) : gmap (Z * Z) Z :=
  <[(cpu, type) := inc (default 0 (m !! (cpu, type)))]> m.

Definition VA_PREFETCH_TRANSLATION_LATENCY : Z := 2.

Section Cache.
Context `{Config} {R P L : Type} `{Replacement R} `{LowerLevel L}.
(** The constants of the cache, the warm-up flags of the CPUs, and the order of
    iterators into the fetch buffer. *)
Context (k : params) (warmup_complete : Z -> bool) (instr_lt instr_eq : nat -> nat -> bool).
(** What an uninitialised [pf_metadata] holds. *)
Context (uninit : Z).
Local Abbreviation cache := (CACHE R P L).
Context {prefetcher : Prefetcher cache}.

(** *** Construction

    [cpu] and the accesses left in the cycle have no initialiser. *)
Definition new_CACHE (WQ_SIZE RQ_SIZE PQ_SIZE : nat) (HIT_LATENCY : Z)
    (ll : option L) (r : R) (p : P) (vm : VirtualMemory) : cache :=
  mkCACHE R P L uninit (replicate (NUM_SET k * NUM_WAY k) new_BLOCK) uninit uninit false
    (new_delay_queue (new_PACKET uninit) RQ_SIZE HIT_LATENCY) (new_delay_queue (new_PACKET uninit) PQ_SIZE HIT_LATENCY)
    (new_delay_queue (new_PACKET uninit) PQ_SIZE VA_PREFETCH_TRANSLATION_LATENCY)
    (new_delay_queue (new_PACKET uninit) WQ_SIZE HIT_LATENCY) [] 0 ll r p vm []
    (mkSTATS 0 0 0 0 0 ∅ ∅ ∅ 0 0 0 0 0 0 0 0 0 0 0 0 0 0).

(** *** References to packets

    The handlers work on a packet where it is stored: the front of a queue, or
    the first miss register. *)
Inductive pkt_ref := RQ_front | WQ_front | PQ_front | MSHR_begin.

Definition deref (p : pkt_ref) (c : cache) : cres PACKET :=
  match p with
  | RQ_front => dq_front (RQ c)
  | WQ_front => dq_front (WQ c)
  | PQ_front => dq_front (PQ c)
  | MSHR_begin => match MSHR c with x :: _ => Ret x | [] => Abort "end iterator" end
  end.

Definition dq_modify (f : PACKET -> PACKET) (pos : Z) (q : delay_queue PACKET) : delay_queue PACKET :=
  q <| _buf ::= modify_at f pos |>.

Definition assign (p : pkt_ref) (f : PACKET -> PACKET) (c : cache) : cache :=
  match p with
  | RQ_front => c <| RQ := dq_modify f (head_ (_buf (RQ c))) (RQ c) |>
  | WQ_front => c <| WQ := dq_modify f (head_ (_buf (WQ c))) (WQ c) |>
  | PQ_front => c <| PQ := dq_modify f (head_ (_buf (PQ c))) (PQ c) |>
  | MSHR_begin => c <| MSHR ::= alter f 0%nat |>
  end.

(** [std::find_if] over a queue: the position found, unless it is the end. *)
Definition dq_find (p : PACKET -> bool) (q : delay_queue PACKET) : option Z :=
  let pos := it_find p (_buf q) in
  if it_eq (_buf q) pos (end_ (_buf q)) then None else Some pos.

(** [for (auto ret : pkt.to_return) ret->return_data(&pkt);] for producers other
    than this cache. *)
Definition return_to_all (pkt : PACKET) : calls := (fun ret => (ret, pkt)) <$> to_return pkt.

Definition merge_nat : list nat -> list nat -> list nat := packet_dep_merge Nat.ltb Nat.eqb.

(** The four [packet_dep_merge] of an entry with a packet for the same block. *)
Definition merge_deps (entry packet : PACKET) : PACKET :=
  entry <| lq_index_depend_on_me := merge_nat (lq_index_depend_on_me entry) (lq_index_depend_on_me packet) |>
        <| sq_index_depend_on_me := merge_nat (sq_index_depend_on_me entry) (sq_index_depend_on_me packet) |>
        <| instr_depend_on_me := packet_dep_merge instr_lt instr_eq (instr_depend_on_me entry) (instr_depend_on_me packet) |>
        <| to_return := merge_nat (to_return entry) (to_return packet) |>.

(** *** Addresses *)

Definition get_set (address : Z) : nat :=
  Z.to_nat (u32 (Z.land (Z.shiftr address (OFFSET_BITS k)) (bitmask (lg2 (Z.of_nat (NUM_SET k))) 0))).

Definition get_way (address : Z) (set : nat) (c : cache) : nat :=
  find_if (eq_addr address (OFFSET_BITS k)) (set_blocks (NUM_WAY k) set (block c)).

(** [addr & ~bitmask(match_offset_bits ? 0 : OFFSET_BITS)] *)
Definition pf_align (addr : Z) : Z :=
  Z.land addr (not64 (bitmask (if match_offset_bits k then 0 else OFFSET_BITS k) 0)).

Definition wq_shamt : Z := if match_offset_bits k then 0 else OFFSET_BITS k.

Definition should_activate_prefetcher (type : Z) : bool :=
  ztrue (Z.land (Z.shiftl 1 type) (pref_activate_mask k)).

Definition invalidate_entry (inval_addr : Z) (c : cache) : nat * cache :=
  let set := get_set inval_addr in
  let way := get_way inval_addr set c in
  (way, if (way <? NUM_WAY k)%nat
        then c <| block ::= alter (fun b => b <| b_valid := false |>) (set * NUM_WAY k + way)%nat |> else c).

(** *** The queues *)

Definition get_occupancy (queue_type address : Z) (c : cache) : Z :=
  if queue_type =? 0 then count_if is_valid (MSHR c)
  else if queue_type =? 1 then dq_occupancy (RQ c)
  else if queue_type =? 2 then dq_occupancy (WQ c)
  else if queue_type =? 3 then dq_occupancy (PQ c)
  else 0.

Definition get_size (queue_type address : Z) (c : cache) : Z :=
  if queue_type =? 0 then MSHR_SIZE k
  else if queue_type =? 1 then dq_size (RQ c)
  else if queue_type =? 2 then dq_size (WQ c)
  else if queue_type =? 3 then dq_size (PQ c)
  else 0.

(** [if (warmup_complete[cpu]) q.push_back(x); else q.push_back_ready(x);] *)
Definition dq_push (cpu : Z) (x : PACKET) (q : delay_queue PACKET) : cres (delay_queue PACKET) :=
  if warmup_complete cpu then dq_push_back x q else push_back_ready x q.

Definition add_rq (packet : PACKET) (c : cache) : cres (Z * PACKET * calls * cache) :=
  let* _ := cassert (negb (address packet =? 0)) "packet->address != 0" in
  let c := c <| stats ::= fun s => s <| RQ_ACCESS ::= inc |> |> in
  match dq_find (eq_addr (address packet) wq_shamt) (WQ c) with
  | Some found_wq =>
    let* w := at_ (_buf (WQ c)) found_wq in
    let packet := packet <| data := data w |> in
    Ret (-1, packet, return_to_all packet, c <| stats ::= fun s => s <| WQ_FORWARD ::= inc |> |>)
  | None =>
    match dq_find (eq_addr (address packet) (OFFSET_BITS k)) (RQ c) with
    | Some found_rq =>
      Ret (0, packet, [], c <| RQ ::= dq_modify (fun e => merge_deps e packet) found_rq |>
                            <| stats ::= fun s => s <| RQ_MERGED ::= inc |> |>)
    | None =>
      if dq_full (RQ c) then Ret (-2, packet, [], c <| stats ::= fun s => s <| RQ_FULL ::= inc |> |>)
      else
        let* q := dq_push (c_cpu c) packet (RQ c) in
        Ret (dq_occupancy q, packet, [], c <| RQ := q |> <| stats ::= fun s => s <| RQ_TO_CACHE ::= inc |> |>)
    end
  end.

Definition add_wq (packet : PACKET) (c : cache) : cres (Z * PACKET * calls * cache) :=
  let c := c <| stats ::= fun s => s <| WQ_ACCESS ::= inc |> |> in
  match dq_find (eq_addr (address packet) wq_shamt) (WQ c) with
  | Some _ => Ret (0, packet, [], c <| stats ::= fun s => s <| WQ_MERGED ::= inc |> |>)
  | None =>
    if dq_full (WQ c) then Ret (-2, packet, [], c <| stats ::= fun s => s <| WQ_FULL ::= inc |> |>)
    else
      let* q := dq_push (c_cpu c) packet (WQ c) in
      Ret (dq_occupancy q, packet, [],
           c <| WQ := q |> <| stats ::= fun s => s <| WQ_TO_CACHE ::= inc |> <| WQ_ACCESS ::= inc |> |>)
  end.

Definition add_pq (packet : PACKET) (c : cache) : cres (Z * PACKET * calls * cache) :=
  let* _ := cassert (negb (address packet =? 0)) "packet->address != 0" in
  let c := c <| stats ::= fun s => s <| PQ_ACCESS ::= inc |> |> in
  match dq_find (eq_addr (address packet) wq_shamt) (WQ c) with
  | Some found_wq =>
    let* w := at_ (_buf (WQ c)) found_wq in
    let packet := packet <| data := data w |> in
    Ret (-1, packet, return_to_all packet, c <| stats ::= fun s => s <| WQ_FORWARD ::= inc |> |>)
  | None =>
    match dq_find (eq_addr (address packet) (OFFSET_BITS k)) (PQ c) with
    | Some found =>
      Ret (0, packet, [],
           c <| PQ ::= dq_modify (fun e => e <| fill_level := Z.min (fill_level e) (fill_level packet) |>
                                             <| to_return := merge_nat (to_return e) (to_return packet) |>) found |>
             <| stats ::= fun s => s <| PQ_MERGED ::= inc |> |>)
    | None =>
      if dq_full (PQ c) then Ret (-2, packet, [], c <| stats ::= fun s => s <| PQ_FULL ::= inc |> |>)
      else
        let* q := dq_push (c_cpu c) packet (PQ c) in
        Ret (dq_occupancy q, packet, [], c <| PQ := q |> <| stats ::= fun s => s <| PQ_TO_CACHE ::= inc |> |>)
    end
  end.

(** *** Answers from the lower level *)

(** [event_cycle] of a request that has not been answered. *)
Definition unreturned (x : PACKET) : bool := event_cycle x =? UINT64_MAX.

(** [std::iter_swap] *)
Definition iter_swap (i j : nat) (l : list PACKET) : cres (list PACKET) :=
  match l !! i, l !! j with
  | Some x, Some y => Ret (<[j := x]> (<[i := y]> l))
  | _, _ => Abort "iter_swap with an end iterator"
  end.

Definition return_data (packet : PACKET) (c : cache) : cres cache :=
  let mshr_entry := find_if (eq_addr (address packet) (OFFSET_BITS k)) (MSHR c) in
  let first_unreturned := find_if unreturned (MSHR c) in
  let* _ := cassert (mshr_entry <? length (MSHR c))%nat "cannot find a matching entry!" in
  let fill_time := u64 (current_cycle c + if warmup_complete (c_cpu c) then FILL_LATENCY k else 0) in
  let mshr := alter (fun e => e <| data := data packet |> <| pf_metadata := pf_metadata packet |>
                                <| event_cycle := fill_time |>) mshr_entry (MSHR c) in
  let* mshr := iter_swap mshr_entry first_unreturned mshr in
  Ret (c <| MSHR := mshr |>).

(** The calls a level below has made: its answers to this cache, and to others. *)
Fixpoint deliver (l : calls) (c : cache) : cres cache :=
  match l with
  | [] => Ret c
  | (ret, pkt) :: l =>
    let* c := if (ret =? self k)%nat then return_data pkt c else Ret (c <| returned ::= fun r => r ++ [(ret, pkt)] |>) in
    deliver l c
  end.

(** [lower_level->...] *)
Definition the_lower_level (c : cache) : cres L :=
  match lower_level c with
  | Some l => Ret l
  | None => Abort "lower_level is NULL"
  end.

(** *** Hits and misses *)

(** The call of the prefetcher that hits and misses share. *)
Definition activate_prefetcher (p : pkt_ref) (hit : bool) (c : cache) : cres cache :=
  let* pkt := deref p c in
  if should_activate_prefetcher (type pkt) && (pf_origin_level pkt <? cache_level k) then
    let c := c <| c_cpu := cpu pkt |> in
    let pf_base_addr := pf_align (if virtual_prefetch k then v_address pkt else address pkt) in
    let* r := prefetcher_cache_operate pf_base_addr (ip pkt) hit (type pkt) (pf_metadata pkt) c in
    let '(metadata, c) := r in
    Ret (assign p (fun e => e <| pf_metadata := metadata |>) c)
  else Ret c.

Definition update_replacement (cpu : Z) (set way : nat) (full_addr ip type : Z) (hit : bool) (c : cache) : cres cache :=
  let* r := update_replacement_state (NUM_WAY k) cpu set way full_addr ip 0 type hit (repl c) (block c) in
  Ret (c <| repl := r.1 |> <| block := r.2 |>).

Definition readlike_hit (set way : nat) (p : pkt_ref) (c : cache) : cres cache :=
  let i := (set * NUM_WAY k + way)%nat in
  let* hit_block := block_at i (block c) in
  let c := assign p (fun e => e <| data := b_data hit_block |>) c in
  let* c := activate_prefetcher p true c in
  let* pkt := deref p c in
  let* hit_block := block_at i (block c) in
  let* c := update_replacement (cpu pkt) set way (b_address hit_block) (ip pkt) (type pkt) true c in
  let c := c <| stats ::= fun s => s <| sim_hit ::= bump (cpu pkt) (type pkt) |>
                                     <| sim_access ::= bump (cpu pkt) (type pkt) |> |> in
  let c := c <| returned ::= fun r => r ++ return_to_all pkt |> in
  let* hit_block := block_at i (block c) in
  if b_prefetch hit_block then
    Ret (c <| stats ::= fun s => s <| pf_useful ::= inc |> |>
           <| block ::= alter (fun b => b <| b_prefetch := false |>) i |>)
  else Ret c.

(** A miss to a block that is already being fetched. *)
Definition merge_mshr (i : nat) (pkt : PACKET) (c : cache) : cres cache :=
  let c := c <| MSHR ::= alter (fun e => merge_deps (e <| fill_level := Z.min (fill_level e) (fill_level pkt) |>) pkt) i |> in
  match MSHR c !! i with
  | None => Abort "end iterator"
  | Some e =>
    if (type e =? PREFETCH) && negb (type pkt =? PREFETCH) then
      let c := if pf_origin_level e =? cache_level k then c <| stats ::= fun s => s <| pf_useful ::= inc |> |> else c in
      Ret (c <| MSHR ::= insert i (pkt <| event_cycle := event_cycle e |>) |>)
    else Ret c
  end.

(** A miss to a block that is not: pass the request on, if there is room. *)
Definition new_miss (p : pkt_ref) (c : cache) : cres (bool * cache) :=
  let* pkt := deref p c in
  if Z.of_nat (length (MSHR c)) =? MSHR_SIZE k then Ret (false, c)
  else
    let is_read := prefetch_as_load k || negb (type pkt =? PREFETCH) in
    let queue_type := if is_read then 1 else 3 in
    let* lower := the_lower_level c in
    let* occupancy := ll_get_occupancy queue_type (address pkt) lower in
    let* size := ll_get_size queue_type (address pkt) lower in
    if occupancy =? size then Ret (false, c)
    else
      let c := if fill_level pkt <=? cache_level k
               then c <| MSHR ::= fun l => l ++ [pkt <| cycle_enqueued := current_cycle c |> <| event_cycle := UINT64_MAX |>] |>
               else c in
      let c := assign p (fun e => e <| to_return := if fill_level pkt <=? cache_level k then [self k] else [] |>) c in
      let* pkt := deref p c in
      let* r := if is_read then ll_add_rq pkt lower else ll_add_pq pkt lower in
      let '(_, pkt, ret_calls, lower) := r in
      let c := assign p (fun _ => pkt) c <| lower_level := Some lower |> in
      let* c := deliver ret_calls c in
      Ret (true, c).

Definition readlike_miss (p : pkt_ref) (c : cache) : cres (bool * cache) :=
  let* pkt := deref p c in
  let mshr_entry := find_if (eq_addr (address pkt) (OFFSET_BITS k)) (MSHR c) in
  let* r := if (mshr_entry <? length (MSHR c))%nat then let* c := merge_mshr mshr_entry pkt c in Ret (true, c)
            else new_miss p c in
  let '(success, c) := r in
  if success then let* c := activate_prefetcher p false c in Ret (true, c) else Ret (false, c).

(** *** Filling a block *)

(** Write back the victim if it is dirty; [false] when the lower level has no room. *)
Definition write_back_victim (fill_block : BLOCK) (pkt : PACKET) (c : cache) : cres (bool * cache) :=
  match lower_level c with
  | Some lower =>
    if b_dirty fill_block then
      let wb := new_PACKET uninit <| fill_level := u8 (ll_fill_level lower) |> <| cpu := cpu pkt |>
                  <| address := b_address fill_block |> <| data := b_data fill_block |>
                  <| instr_id := instr_id pkt |> <| ip := 0 |> <| type := WRITEBACK |> in
      let* r := ll_add_wq wb lower in
      let '(result, _, ret_calls, lower) := r in
      let* c := deliver ret_calls (c <| lower_level := Some lower |>) in
      Ret (negb (result =? -2), c)
    else Ret (true, c)
  | None => Ret (true, c)
  end.

(** The block after the fill. *)
Definition filled (pkt : PACKET) (b : BLOCK) : BLOCK :=
  b <| b_valid := true |>
    <| b_prefetch := (type pkt =? PREFETCH) && (pf_origin_level pkt =? cache_level k) |>
    <| b_dirty := (type pkt =? WRITEBACK) || ((type pkt =? RFO) && bool_decide (to_return pkt = [])) |>
    <| b_address := address pkt |> <| b_v_address := v_address pkt |> <| b_data := data pkt |>
    <| b_ip := ip pkt |> <| b_cpu := cpu pkt |> <| b_instr_id := instr_id pkt |>.

Definition filllike_miss (set way : nat) (p : pkt_ref) (c : cache) : cres (bool * cache) :=
  let* pkt := deref p c in
  let bypass := (way =? NUM_WAY k)%nat in
  let i := (set * NUM_WAY k + way)%nat in
  let* _ := cassert (negb (type pkt =? WRITEBACK) || negb bypass) "handle_pkt.type != WRITEBACK || !bypass" in
  let* r := if bypass then Ret (true, 0, c)
            else
              let* fill_block := block_at i (block c) in
              let* r := write_back_victim fill_block pkt c in
              let '(success, c) := r in
              if success then
                let evicting_address := pf_align (if ever_seen_data c then b_address fill_block else b_v_address fill_block) in
                let c := c <| stats ::= fun s => s <| pf_useless ::= fun x => if b_prefetch fill_block then inc x else x |>
                                                   <| pf_fill ::= fun x => if type pkt =? PREFETCH then inc x else x |> |> in
                Ret (true, evicting_address, c <| block ::= alter (filled pkt) i |>)
              else Ret (false, 0, c) in
  let '(success, evicting_address, c) := r in
  if success then
    let c := if warmup_complete (cpu pkt) && negb (cycle_enqueued pkt =? 0)
             then c <| stats ::= fun s => s <| total_miss_latency ::= fun t => u64 (t + u64 (current_cycle c - cycle_enqueued pkt)) |> |>
             else c in
    let c := c <| c_cpu := cpu pkt |> in
    let* r := prefetcher_cache_fill (pf_align (if virtual_prefetch k then v_address pkt else address pkt)) set way
                (type pkt =? PREFETCH) evicting_address (pf_metadata pkt) c in
    let '(metadata, c) := r in
    let c := assign p (fun e => e <| pf_metadata := metadata |>) c in
    let* pkt := deref p c in
    let* c := update_replacement (cpu pkt) set way (address pkt) (ip pkt) (type pkt) false c in
    Ret (true, c <| stats ::= fun s => s <| sim_miss ::= bump (cpu pkt) (type pkt) |>
                                          <| sim_access ::= bump (cpu pkt) (type pkt) |> |>)
  else Ret (false, c).

(** The way to fill: an invalid one, or the victim of the policy. *)
Definition choose_way (set : nat) (pkt : PACKET) (c : cache) : cres (nat * cache) :=
  let way := find_if_not is_valid (set_blocks (NUM_WAY k) set (block c)) in
  if (way =? NUM_WAY k)%nat then
    let* r := find_victim (NUM_WAY k) (cpu pkt) (instr_id pkt) set (ip pkt) (address pkt) (type pkt) (repl c) (block c) in
    let '(way, (r, bs)) := r in
    Ret (way, c <| repl := r |> <| block := bs |>)
  else Ret (way, c).

(** *** The handlers

    One turn of each loop; the result says whether the loop goes on. *)

Definition handle_fill_step (c : cache) : cres (bool * cache) :=
  match MSHR c with
  | [] => Ret (false, c)
  | fill_mshr :: _ =>
    if current_cycle c <? event_cycle fill_mshr then Ret (false, c)
    else
      let set := get_set (address fill_mshr) in
      let* r := choose_way set fill_mshr c in
      let '(way, c) := r in
      let* r := filllike_miss set way MSHR_begin c in
      let '(success, c) := r in
      if success then
        let* c := if (way =? NUM_WAY k)%nat then Ret c
                  else
                    let* b := block_at (set * NUM_WAY k + way)%nat (block c) in
                    let c := assign MSHR_begin (fun e => e <| data := b_data b |>) c in
                    let* pkt := deref MSHR_begin c in
                    Ret (c <| returned ::= fun r => r ++ return_to_all pkt |>) in
        Ret (true, c <| MSHR ::= tail |> <| writes_available_this_cycle ::= fun n => n - 1 |>)
      else Ret (false, c)
  end.

Definition handle_writeback_step (c : cache) : cres (bool * cache) :=
  if has_ready (WQ c) then
    let* pkt := deref WQ_front c in
    let set := get_set (address pkt) in
    let way := get_way (address pkt) set c in
    let* r :=
      if (way <? NUM_WAY k)%nat then
        let* fill_block := block_at (set * NUM_WAY k + way)%nat (block c) in
        let* c := update_replacement (cpu pkt) set way (b_address fill_block) (ip pkt) (type pkt) true c in
        let c := c <| stats ::= fun s => s <| sim_hit ::= bump (cpu pkt) (type pkt) |>
                                           <| sim_access ::= bump (cpu pkt) (type pkt) |> |> in
        Ret (true, c <| block ::= alter (fun b => b <| b_dirty := true |>) (set * NUM_WAY k + way)%nat |>)
      else if (type pkt =? RFO) && bool_decide (to_return pkt = []) then readlike_miss WQ_front c
      else
        let* r := choose_way set pkt c in
        let '(way, c) := r in filllike_miss set way WQ_front c in
    let '(success, c) := r in
    if success then
      let* q := dq_pop_front (WQ c) in
      Ret (true, c <| writes_available_this_cycle ::= fun n => n - 1 |> <| WQ := q |>)
    else Ret (false, c)
  else Ret (false, c).

Definition handle_read_step (c : cache) : cres (bool * cache) :=
  if has_ready (RQ c) then
    let* pkt := deref RQ_front c in
    let c := c <| ever_seen_data ::= fun b => b || negb (v_address pkt =? ip pkt) |> in
    let set := get_set (address pkt) in
    let way := get_way (address pkt) set c in
    let* r := if (way <? NUM_WAY k)%nat then let* c := readlike_hit set way RQ_front c in Ret (true, c)
              else readlike_miss RQ_front c in
    let '(success, c) := r in
    if success then
      let* q := dq_pop_front (RQ c) in
      Ret (true, c <| RQ := q |> <| reads_available_this_cycle ::= fun n => n - 1 |>)
    else Ret (false, c)
  else Ret (false, c).

Definition handle_prefetch_step (c : cache) : cres (bool * cache) :=
  if has_ready (PQ c) then
    let* pkt := deref PQ_front c in
    let set := get_set (address pkt) in
    let way := get_way (address pkt) set c in
    let* r := if (way <? NUM_WAY k)%nat then let* c := readlike_hit set way PQ_front c in Ret (true, c)
              else readlike_miss PQ_front c in
    let '(success, c) := r in
    if success then
      let* q := dq_pop_front (PQ c) in
      Ret (true, c <| PQ := q |> <| reads_available_this_cycle ::= fun n => n - 1 |>)
    else Ret (false, c)
  else Ret (false, c).

(** [while (available > 0)]: every turn that goes on uses one of the accesses
    available in the cycle. *)
Fixpoint while_available (turns : nat) (available : cache -> Z) (step : cache -> cres (bool * cache)) (c : cache) : cres cache :=
  match turns with
  | O => Ret c
  | S turns =>
    if 0 <? available c then
      let* r := step c in
      if r.1 then while_available turns available step r.2 else Ret r.2
    else Ret c
  end.

Definition handle_fill (c : cache) : cres cache :=
  while_available (Z.to_nat (writes_available_this_cycle c)) writes_available_this_cycle handle_fill_step c.
Definition handle_writeback (c : cache) : cres cache :=
  while_available (Z.to_nat (writes_available_this_cycle c)) writes_available_this_cycle handle_writeback_step c.
Definition handle_read (c : cache) : cres cache :=
  while_available (Z.to_nat (reads_available_this_cycle c)) reads_available_this_cycle handle_read_step c.
Definition handle_prefetch (c : cache) : cres cache :=
  while_available (Z.to_nat (reads_available_this_cycle c)) reads_available_this_cycle handle_prefetch_step c.

(** *** Prefetches *)

Definition prefetch_line (pf_addr : Z) (fill_this_level : bool) (prefetch_metadata : Z) (c : cache) : cres (Z * cache) :=
  let c := c <| stats ::= fun s => s <| pf_requested ::= inc |> |> in
  let* level := if fill_this_level then Ret (cache_level k)
                else let* lower := the_lower_level c in Ret (ll_fill_level lower) in
  let pf_packet := new_PACKET uninit <| type := PREFETCH |> <| fill_level := u8 level |>
                     <| pf_origin_level := u8 (cache_level k) |> <| pf_metadata := prefetch_metadata |>
                     <| cpu := c_cpu c |> <| address := pf_addr |>
                     <| v_address := if virtual_prefetch k then pf_addr else 0 |> in
  if virtual_prefetch k then
    if dq_full (VAPQ c) then Ret (0, c)
    else let* q := dq_push_back pf_packet (VAPQ c) in Ret (1, c <| VAPQ := q |>)
  else
    let* r := add_pq pf_packet c in
    let '(result, _, ret_calls, c) := r in
    let* c := deliver ret_calls c in
    if result =? -2 then Ret (0, c)
    else Ret (1, if 0 <? result then c <| stats ::= fun s => s <| pf_issued ::= inc |> |> else c).

Definition va_translate_prefetches (c : cache) : cres cache :=
  if has_ready (VAPQ c) then
    let* front := dq_front (VAPQ c) in
    let* t := va_to_pa (c_cpu c) (v_address front) (vmem c) in
    let c := c <| vmem := t.2 |>
               <| VAPQ := dq_modify (fun e => e <| address := t.1.1 |>) (head_ (_buf (VAPQ c))) (VAPQ c) |> in
    let* front := dq_front (VAPQ c) in
    let* r := add_pq front c in
    let '(result, front, ret_calls, c) := r in
    let c := c <| VAPQ := dq_modify (fun _ => front) (head_ (_buf (VAPQ c))) (VAPQ c) |> in
    let* c := deliver ret_calls c in
    let* c := if result =? -2 then Ret c else let* q := dq_pop_front (VAPQ c) in Ret (c <| VAPQ := q |>) in
    Ret (if 0 <? result then c <| stats ::= fun s => s <| pf_issued ::= inc |> |> else c)
  else Ret c.

(** *** A cycle *)

Definition operate_writes (c : cache) : cres cache :=
  let c := c <| writes_available_this_cycle := MAX_WRITE k |> in
  let* c := handle_fill c in
  let* c := handle_writeback c in
  Ret (c <| WQ ::= Delay.operate |>).

Definition operate_reads (c : cache) : cres cache :=
  let c := c <| reads_available_this_cycle := MAX_READ k |> in
  let* c := handle_read c in
  let* c := va_translate_prefetches c in
  let* c := handle_prefetch c in
  Ret (c <| RQ ::= Delay.operate |> <| PQ ::= Delay.operate |> <| VAPQ ::= Delay.operate |>).

Definition operate (c : cache) : cres cache :=
  let* c := operate_writes c in
  let* c := operate_reads c in
  prefetcher_cycle_operate c.

End Cache.
End Cache.
