(* ===== verification/SimCacheSpec.v ===== *)
(** * ChampSim: what the cache guarantees

    The contracts of lower levels and prefetchers, the invariant of a cache, and
    that requests, answers and cycles keep it without failing an assertion. *)

From S2P Require Import Prelude SimUtil SimQueue SimVmem SimRepl SimCache.
Import Util Mem Circ Delay Vmem Sets Cache.
Local Open Scope c_scope.

Module CacheSpec.

(** ** Queues of packets *)

Lemma dq_find_spec p q :
  dq_wf q ->
  match dq_find p q with
  | None => Forall (fun x => p x = false) (items q)
  | Some pos => exists (i : nat) x, pos = pos_of (_buf q) (Z.of_nat i) /\ items q !! i = Some x /\ p x = true
  end.
Proof.
  intros (Hb & _). unfold dq_find. rewrite it_find_spec by done.
  pose proof (find_if_le p (contents (_buf q))) as Hle. pose proof (length_contents _ Hb) as Hl.
  pose proof (count_range _ Hb) as Hc. rewrite it_eq_end by (done || lia).
  destruct (Z.eqb_spec (Z.of_nat (find_if p (contents (_buf q)))) (count (_buf q))) as [E|Hne].
  - apply find_if_end. unfold items. lia.
  - destruct (find_if_Some p (contents (_buf q))) as (x & Hx & Hp); [lia|]. eauto.
Qed.

Lemma dq_modify_spec f q (i : nat) :
  dq_wf q -> (i < length (items q))%nat ->
  let q' := dq_modify f (pos_of (_buf q) (Z.of_nat i)) q in
  dq_wf q' /\ items q' = alter f i (items q) /\ delays q' = delays q /\ ready q' = ready q /\
  sz_ (_buf q') = sz_ (_buf q) /\ dq_sz q' = dq_sz q.
Proof.
  intros (Hb & Hd & Hh & Ht & Hs & He & Hr) Hi.
  destruct (modify_at_spec f (_buf q) i Hb Hi) as [Hw' Hc'].
  set (b' := modify_at f _ (_buf q)) in *.
  assert (entry_size b' = entry_size (_buf q)) as Hn by (unfold entry_size, b'; simpl; by rewrite length_alter).
  assert (index_of b' (_end_ready q) = index_of (_buf q) (_end_ready q)) as Hix
    by (unfold index_of; by rewrite Hn).
  cbn zeta. split; [|split; [exact Hc'|split; [done|split; [|done]]]].
  2: { change (Z.to_nat (index_of b' (_end_ready q)) = ready q). by rewrite Hix. }
  split; [done|]. split; [done|]. split; [done|]. split; [done|]. split; [done|].
  split; [change (0 <= _end_ready q < entry_size b'); by rewrite Hn|].
  change (Z.to_nat (index_of b' (_end_ready q)) <= length (contents b'))%nat.
  rewrite Hix, Hc', length_alter. done.
Qed.

(** Writing to the front of a queue. *)
Lemma dq_modify_front f q x l :
  dq_wf q -> items q = x :: l ->
  let q' := dq_modify f (head_ (_buf q)) q in
  dq_wf q' /\ items q' = f x :: l /\ delays q' = delays q /\ ready q' = ready q /\
  sz_ (_buf q') = sz_ (_buf q) /\ dq_sz q' = dq_sz q.
Proof.
  intros Hw Hx. pose proof Hw as (Hb & _). rewrite <- (pos_of_0 _ Hb).
  destruct (dq_modify_spec f q 0 Hw) as (H1 & H2 & H3); [rewrite Hx; simpl; lia|].
  change (Z.of_nat 0) with 0 in *. cbn zeta. rewrite H2, Hx. done.
Qed.

(** A packet names a block: a valid address, and the part above the offset. *)
Definition same_block (k : params) (a b : Z) : Prop := Z.shiftr a (OFFSET_BITS k) = Z.shiftr b (OFFSET_BITS k).

Lemma eq_addr_PACKET val shamt (x : PACKET) :
  eq_addr val shamt x = true <-> address x <> 0 /\ Z.shiftr (address x) shamt = Z.shiftr val shamt.
Proof.
  unfold eq_addr, is_valid, is_valid_PACKET, address_of, has_address_PACKET.
  rewrite andb_true_iff, negb_true_iff, Z.eqb_neq, Z.eqb_eq. done.
Qed.

Lemma eq_addr_BLOCK val shamt (x : BLOCK) :
  eq_addr val shamt x = true <-> b_valid x = true /\ Z.shiftr (b_address x) shamt = Z.shiftr val shamt.
Proof.
  unfold eq_addr, is_valid, is_valid_BLOCK, address_of, has_address_BLOCK.
  rewrite andb_true_iff, Z.eqb_eq. done.
Qed.

(** ** Exchanging two elements *)

Lemma iter_swap_spec (l : list PACKET) i j x y :
  l !! i = Some x -> l !! j = Some y ->
  exists l', iter_swap i j l = Ret l' /\ l' ≡ₚ l /\
  forall n, l' !! n = (if decide (n = j) then Some x else if decide (n = i) then Some y else l !! n).
Proof.
  intros Hi Hj. unfold iter_swap. rewrite Hi, Hj. exists (<[j:=x]> (<[i:=y]> l)). split; [done|].
  pose proof (lookup_lt_Some _ _ _ Hi). pose proof (lookup_lt_Some _ _ _ Hj).
  assert (forall n, <[j:=x]> (<[i:=y]> l) !! n = (if decide (n = j) then Some x else if decide (n = i) then Some y else l !! n)) as Hl.
  { intros n. destruct (decide (n = j)) as [->|]; [apply list_lookup_insert_eq; rewrite length_insert; lia|].
    rewrite list_lookup_insert_ne by done. destruct (decide (n = i)) as [->|]; [by apply list_lookup_insert_eq|].
    by rewrite list_lookup_insert_ne. }
  split; [|exact Hl]. apply Permutation_inj. rewrite !length_insert. split; [done|].
  exists (fun n => if decide (n = j) then i else if decide (n = i) then j else n). split.
  - intros a b. repeat case_decide; lia.
  - intros n. rewrite Hl. repeat case_decide; congruence.
Qed.

(** ** Contracts *)

(** A request that may be passed on: the address is valid, no memory controller
    has scheduled it yet, and no producer is named twice. *)
Definition request_ok (x : PACKET) : Prop := address x <> 0 /\ scheduled x = false /\ increasing (to_return x).

Lemma request_ok_merge lt eq x y : request_ok x -> request_ok y -> request_ok (merge_deps lt eq x y).
Proof. intros (? & ? & ?) (_ & _ & ?). split; [done|]. split; [done|]. by apply increasing_merge. Qed.

(** What a level promises to the one above.  It answers only the producers named
    in the packet, with packets of its address; a write is not answered.
    [ll_owes l w blk] says that an answer to [w] with the block [blk] is still to
    come; only an accepted read that names [w] is answered later.  [ll_clock] is
    its clock, which requests do not move. *)
Class LowerLevelOk (L : Type) `{LowerLevel L} := {
  ll_inv : L -> Prop;
  ll_offset : Z;
  ll_owes : L -> nat -> Z -> Prop;
  ll_clock : L -> Z;
  ll_get_occupancy_ok q a l : ll_inv l -> exists n, ll_get_occupancy q a l = Ret n;
  ll_get_size_ok q a l : ll_inv l -> exists n, ll_get_size q a l = Ret n;
  ll_add_rq_ok pkt l : ll_inv l -> request_ok pkt ->
    exists res pkt' ret_calls l', ll_add_rq pkt l = Ret (res, pkt', ret_calls, l') /\ ll_inv l' /\ ll_clock l' = ll_clock l /\
    pkt' = pkt <| data := data pkt' |> /\
    (ret_calls = [] \/ ret_calls = (fun ret => (ret, pkt')) <$> to_return pkt) /\
    forall w blk, ll_owes l' w blk ->
      ll_owes l w blk \/ (ret_calls = [] /\ w ∈ to_return pkt /\ blk = Z.shiftr (address pkt) ll_offset);
  ll_add_pq_ok pkt l : ll_inv l -> request_ok pkt ->
    exists res pkt' ret_calls l', ll_add_pq pkt l = Ret (res, pkt', ret_calls, l') /\ ll_inv l' /\ ll_clock l' = ll_clock l /\
    pkt' = pkt <| data := data pkt' |> /\
    (ret_calls = [] \/ ret_calls = (fun ret => (ret, pkt')) <$> to_return pkt) /\
    forall w blk, ll_owes l' w blk ->
      ll_owes l w blk \/ (ret_calls = [] /\ w ∈ to_return pkt /\ blk = Z.shiftr (address pkt) ll_offset);
  ll_add_wq_ok pkt l : ll_inv l -> request_ok pkt -> to_return pkt = [] ->
    exists res pkt' l', ll_add_wq pkt l = Ret (res, pkt', [], l') /\ ll_inv l' /\ ll_clock l' = ll_clock l /\
    forall w blk, ll_owes l' w blk -> ll_owes l w blk;
}.

(** A configuration: the sets are a power of two, and a way exists. *)
Record params_ok (k : params) : Prop := mkParamsOk {
  ok_sets : exists n : nat, NUM_SET k = (2 ^ n)%nat /\ (n < 32)%nat;
  ok_ways : (0 < NUM_WAY k)%nat;
  ok_offset : 0 <= OFFSET_BITS k;
  ok_latency : 0 <= FILL_LATENCY k;
  ok_mshr : 0 <= MSHR_SIZE k;
}.

Section Spec.
Context `{Config} {R P L : Type} `{Replacement R} `{LowerLevel L} `{!LowerLevelOk L}.
Context (k : params) (warmup_complete : Z -> bool) (instr_lt instr_eq : nat -> nat -> bool) (uninit : Z).
Context `{!ReplacementOk R (NUM_SET k) (NUM_WAY k)}.
Local Abbreviation cache := (CACHE R P L).
Context (Hk : params_ok k).

(** ** The invariant *)

(** A queue of requests. *)
Definition queue_ok (q : delay_queue PACKET) : Prop :=
  dq_wf q /\ dq_sz q = sz_ (_buf q) /\ Forall request_ok (items q).

(** The block a packet asks for. *)
Definition block_of (x : PACKET) : Z := Z.shiftr (address x) (OFFSET_BITS k).

(** The miss registers: no more than there are, one per block, with valid
    addresses, and the answered ones first. *)
Definition mshr_ok (l : list PACKET) : Prop :=
  Z.of_nat (length l) <= MSHR_SIZE k /\ NoDup (block_of <$> l) /\ Forall (fun x => address x <> 0) l /\
  (forall i j x y, l !! i = Some x -> l !! j = Some y -> (i < j)%nat -> unreturned x = true -> unreturned y = true).

(** A register waits for the block. *)
Definition awaits (l : list PACKET) (blk : Z) : Prop := exists e, e ∈ l /\ unreturned e = true /\ block_of e = blk.

(** Requests of the list name [w] for the block. *)
Definition owed_in (l : list PACKET) (w : nat) (blk : Z) : Prop :=
  exists x, x ∈ l /\ block_of x = blk /\ w ∈ to_return x.

(** The answers that the cache has still to give. *)
Definition owes (c : cache) (w : nat) (blk : Z) : Prop :=
  owed_in (items (RQ c)) w blk \/ owed_in (items (PQ c)) w blk \/ owed_in (MSHR c) w blk.

(** A block that holds data has an address. *)
Definition block_ok (b : BLOCK) : Prop := b_valid b = true \/ b_dirty b = true -> b_address b <> 0.

(** [exc] is a block that has just been filled and whose replacement state is
    still to be set. *)
Record inv_except (exc : option nat) (c : cache) : Prop := mkInv {
  inv_shape : shape (NUM_SET k) (NUM_WAY k) (block c);
  inv_policy : policy_ok (repl c);
  inv_lru : lrus_ok lru_ok exc (block c);
  inv_block : Forall block_ok (block c);
  inv_RQ : queue_ok (RQ c);
  inv_WQ : queue_ok (WQ c);
  inv_PQ : queue_ok (PQ c);
  inv_VAPQ : queue_ok (VAPQ c) /\ items (VAPQ c) = [];
  inv_MSHR : mshr_ok (MSHR c);
  inv_time : 0 <= current_cycle c /\ current_cycle c + FILL_LATENCY k < UINT64_MAX;
  inv_lower : exists l, lower_level c = Some l /\ ll_inv l /\ forall blk, ll_owes l (self k) blk -> awaits (MSHR c) blk;
}.

Definition inv (c : cache) : Prop := inv_except None c.

Lemma new_queue_ok (x : PACKET) n latency : queue_ok (new_delay_queue x n latency) /\ items (new_delay_queue x n latency) = [].
Proof.
  destruct (new_delay_queue_spec x n latency) as (Hw & Hi & _ & _ & Hs). split; [|done].
  split; [done|]. split; [done|]. rewrite Hi. constructor.
Qed.

(** The invariant holds of a new cache. *)
Lemma new_CACHE_ok WQ_SIZE RQ_SIZE PQ_SIZE hit_latency (l : L) r (p : P) vm :
  ll_inv l -> (forall blk, ~ ll_owes l (self k) blk) -> policy_ok r -> FILL_LATENCY k < UINT64_MAX ->
  inv (new_CACHE k uninit WQ_SIZE RQ_SIZE PQ_SIZE hit_latency (Some l) r p vm).
Proof.
  intros Hl Hno Hr Ht. constructor; try apply new_queue_ok; cbn [block repl MSHR current_cycle lower_level new_CACHE].
  - unfold shape. apply length_replicate.
  - done.
  - intros i b Hb%lookup_replicate_1. by destruct Hb as [-> _].
  - apply Forall_replicate. intros [Hv|Hd]; discriminate.
  - split; [simpl; apply Hk|]. split; [constructor|]. split; [constructor|]. intros i j x y Hx. by rewrite lookup_nil in Hx.
  - pose proof (ok_latency k Hk). lia.
  - exists l. split; [done|]. split; [done|]. intros blk Hb. by apply Hno in Hb.
Qed.

(** A prefetcher may ask for lines, and must leave alone what is being handled:
    the requests in the prefetch queue stay where they are, possibly with more
    to be answered. *)
Definition same_request (x y : PACKET) : Prop :=
  address y = address x /\ type y = type x /\ cpu y = cpu x /\ ip y = ip x /\ data y = data x /\
  event_cycle y = event_cycle x /\
  forall w, w ∈ to_return y <-> w ∈ to_return x.

Definition pf_frame (c c' : cache) : Prop :=
  c_cpu c' = c_cpu c /\ block c' = block c /\ RQ c' = RQ c /\ WQ c' = WQ c /\ MSHR c' = MSHR c /\
  reads_available_this_cycle c' = reads_available_this_cycle c /\
  writes_available_this_cycle c' = writes_available_this_cycle c /\
  current_cycle c' = current_cycle c /\ lower_level c' = lower_level c /\ repl c' = repl c /\
  returned c' = returned c /\ ready (PQ c') = ready (PQ c) /\
  exists l, length l = length (items (PQ c)) /\ l `prefix_of` items (PQ c') /\ Forall2 same_request (items (PQ c)) l.

Class PrefetcherOk `{Prefetcher cache} := {
  prefetcher_cache_operate_ok addr ip hit type metadata c : inv c ->
    exists m c', prefetcher_cache_operate addr ip hit type metadata c = Ret (m, c') /\ inv c' /\ pf_frame c c';
  prefetcher_cache_fill_ok exc addr set way prefetch evicted metadata c : inv_except exc c ->
    exists m c', prefetcher_cache_fill addr set way prefetch evicted metadata c = Ret (m, c') /\
    inv_except exc c' /\ pf_frame c c';
  prefetcher_cycle_operate_ok c : inv c -> exists c', prefetcher_cycle_operate c = Ret c' /\ inv c' /\ pf_frame c c';
}.

(** ** Requests *)

(** The invariant of a cache that differs in parts the invariant does not
    mention, or in parts for which it is at hand. *)
Ltac inv_parts := constructor; assumption.


Lemma dq_push_ok cpu x q :
  queue_ok q -> dq_full q = false -> request_ok x ->
  exists q', dq_push warmup_complete cpu x q = Ret q' /\ queue_ok q' /\ items q' = items q ++ [x] /\
  ready q' = ready q /\ dq_sz q' = dq_sz q.
Proof.
  intros (Hw & Hs & Hv) Hf Hx. rewrite dq_full_spec in Hf by done. apply bool_decide_eq_false in Hf.
  unfold dq_push. destruct (warmup_complete cpu);
    [pose proof (dq_push_back_spec x q Hw) as Hp|pose proof (push_back_ready_spec x q Hw) as Hp];
    rewrite bool_decide_eq_false_2 in Hp by done; destruct Hp as (q' & -> & Hw' & Hi & _ & Hr & Hsz & _ & Hdq);
    (exists q'; split; [done|]; split; [|done]; split; [done|]; split; [congruence|]; rewrite Hi;
     apply Forall_app; split; [done|]; constructor; [done|constructor]).
Qed.

(** Changing an entry of a queue. *)
Lemma queue_ok_modify f q (i : nat) :
  queue_ok q -> (i < length (items q))%nat -> (forall x, request_ok x -> request_ok (f x)) ->
  queue_ok (dq_modify f (pos_of (_buf q) (Z.of_nat i)) q).
Proof.
  intros (Hw & Hs & Hv) Hi Hf. destruct (dq_modify_spec f q i Hw Hi) as (Hw' & Hit & _ & _ & Hsz & Hdq).
  split; [done|]. split; [congruence|]. rewrite Hit. apply Forall_alter; [done|]. intros x _ Hx. by apply Hf.
Qed.

Lemma queue_ok_front q : queue_ok q -> (0 < ready q)%nat -> exists x l, items q = x :: l /\ dq_front q = Ret x /\ request_ok x.
Proof.
  intros (Hw & _ & Hv) Hr. pose proof Hw as (_ & _ & _ & _ & _ & _ & Hle).
  destruct (items q) as [|x l] eqn:E; [simpl in Hle; lia|]. exists x, l.
  split; [done|]. split; [by eapply dq_front_spec|]. by apply list.Forall_cons in Hv as [? _].
Qed.

(** What a request does to a queue: nothing, or it is merged with one for the
    same block by [f], or appended. *)
Inductive arrived (f : PACKET -> PACKET) (pkt : PACKET) (q q' : delay_queue PACKET) : Prop :=
  | arrived_not : q' = q -> arrived f pkt q q'
  | arrived_merged (i : nat) x :
      items q !! i = Some x -> block_of x = block_of pkt -> items q' = alter f i (items q) -> ready q' = ready q -> arrived f pkt q q'
  | arrived_pushed : items q' = items q ++ [pkt] -> ready q' = ready q -> arrived f pkt q q'.

Lemma arrive_merge f pkt q (pos : Z) :
  queue_ok q -> dq_find (eq_addr (address pkt) (OFFSET_BITS k)) q = Some pos -> (forall x, request_ok x -> request_ok (f x)) ->
  queue_ok (dq_modify f pos q) /\ arrived f pkt q (dq_modify f pos q).
Proof.
  intros Hq Hf Hok. pose proof (dq_find_spec (eq_addr (address pkt) (OFFSET_BITS k)) q (proj1 Hq)) as Hs. rewrite Hf in Hs.
  destruct Hs as (i & x & -> & Hx & [_ Hbx]%eq_addr_PACKET). pose proof (lookup_lt_Some _ _ _ Hx) as Hlt.
  destruct (dq_modify_spec f q i (proj1 Hq) Hlt) as (_ & Hit & _ & Hr & _).
  split; [by apply queue_ok_modify|]. by apply (arrived_merged _ _ _ _ i x).
Qed.

Lemma arrive_push f pkt cpu q :
  queue_ok q -> request_ok pkt -> dq_full q = false ->
  exists q', dq_push warmup_complete cpu pkt q = Ret q' /\ queue_ok q' /\ arrived f pkt q q'.
Proof.
  intros Hq Hp Hf. destruct (dq_push_ok cpu pkt q Hq Hf Hp) as (q' & E & Hq' & Hi & Hr & _).
  exists q'. split; [done|]. split; [done|]. by apply arrived_pushed.
Qed.

(** Only who is named in the request is owed more. *)
Lemma owed_in_arrived f pkt q q' w blk :
  arrived f pkt q q' -> (forall x, address (f x) = address x) ->
  (forall x w, w ∈ to_return (f x) -> w ∈ to_return x \/ w ∈ to_return pkt) ->
  owed_in (items q') w blk -> owed_in (items q) w blk \/ (w ∈ to_return pkt /\ blk = block_of pkt).
Proof.
  intros [->|i x Hx Hb Hi _|Hi _] Hf Hr (y & Hy & <- & Hw).
  - left. by exists y.
  - rewrite Hi, (list_alter_Some f i x _ Hx) in Hy.
    apply list_elem_of_lookup in Hy as [j Hy]. apply list_lookup_insert_Some in Hy as [(<- & <- & _)|[Hne Hy]].
    + unfold block_of in *. rewrite Hf. destruct (Hr x w Hw) as [?|?]; [left|right; by rewrite Hb].
      exists x. split; [by eapply list_elem_of_lookup_2|done].
    + left. exists y. split; [by eapply list_elem_of_lookup_2|done].
  - rewrite Hi in Hy. apply elem_of_app in Hy as [Hy| ->%list_elem_of_singleton]; [left; by exists y|by right].
Qed.

(** The queue still has the requests it had. *)
Lemma arrived_same f pkt q q' :
  arrived f pkt q q' -> (forall x, same_request x (f x)) ->
  ready q' = ready q /\ exists l, length l = length (items q) /\ l `prefix_of` items q' /\ Forall2 same_request (items q) l.
Proof.
  assert (forall l : list PACKET, Forall2 same_request l l) as Hrefl by (intros l; by apply Forall_Forall2_diag, Forall_true).
  intros [->|i x Hx _ Hi Hr|Hi Hr] Hf; (split; [done|]).
  - by exists (items q).
  - exists (items q'). rewrite Hi, length_alter. split; [done|]. split; [done|].
    apply Forall2_same_length_lookup. rewrite length_alter. split; [done|]. intros j a b Hja Hjb.
    destruct (decide (j = i)) as [->|Hne].
    + rewrite list_lookup_alter_eq, Hja in Hjb. by injection Hjb as <-.
    + rewrite list_lookup_alter_ne in Hjb by done. rewrite Hja in Hjb. by injection Hjb as <-.
  - exists (items q). rewrite Hi. split; [done|]. split; [by apply prefix_app_r|done].
Qed.

(** What a read or a prefetch adds to what is owed; it takes no time. *)
Definition owes_more (c c' : cache) (pkt : PACKET) (ret_calls : calls) : Prop :=
  current_cycle c' = current_cycle c /\ forall w blk, owes c' w blk -> owes c w blk \/ (ret_calls = [] /\ w ∈ to_return pkt /\ blk = block_of pkt).

Lemma add_rq_ok pkt c :
  inv c -> request_ok pkt ->
  exists res pkt' ret_calls c', add_rq k warmup_complete instr_lt instr_eq pkt c = Ret (res, pkt', ret_calls, c') /\
  inv c' /\ pkt' = pkt <| data := data pkt' |> /\ (ret_calls = [] \/ ret_calls = return_to_all pkt') /\
  owes_more c c' pkt ret_calls.
Proof.
  intros Hi Ha. unfold add_rq. destruct (Z.eqb_spec (address pkt) 0); [by destruct Ha|]. cbn [cassert negb cbind].
  pose proof Hi as [? ? ? ? Hrq Hwq ? ? ? ? ?]. set (f := fun e => merge_deps instr_lt instr_eq e pkt).
  change (WQ (c <| stats ::= _ |>)) with (WQ c). change (RQ (c <| stats ::= _ |>)) with (RQ c).
  assert (forall q s, queue_ok q -> arrived f pkt (RQ c) q ->
    inv (c <| RQ := q |> <| stats := s |>) /\ owes_more c (c <| RQ := q |> <| stats := s |>) pkt []) as Hput.
  { intros q s Hq Harr. split; [constructor; assumption|]. split; [done|]. intros w blk [Ho|Ho]; [|by left; right].
    apply (owed_in_arrived f pkt (RQ c)) in Ho as [?|[? ?]]; [by left; left|by right|done|done|].
    intros x w'. apply elem_of_nat_merge. }
  pose proof (dq_find_spec (eq_addr (address pkt) (wq_shamt k)) (WQ c) (proj1 Hwq)) as Hf.
  destruct (dq_find (eq_addr (address pkt) (wq_shamt k)) (WQ c)) as [pos|].
  - destruct Hf as (i & x & -> & Hx & _). rewrite (at_pos_of _ i x) by (apply Hwq || done). cbn [cbind].
    do 4 eexists. split; [done|]. split; [by inv_parts|]. split; [done|]. split; [by right|]. by split; [|intros w blk; left].
  - destruct (dq_find (eq_addr (address pkt) (OFFSET_BITS k)) (RQ c)) as [pos|] eqn:Erq.
    + destruct (arrive_merge f pkt (RQ c) pos Hrq Erq) as [Hq Harr]; [intros x Hx; by apply request_ok_merge|].
      destruct (Hput _ (stats c <| RQ_ACCESS ::= inc |> <| RQ_MERGED ::= inc |>) Hq Harr) as [Hi' Ho].
      do 4 eexists. split; [done|]. split; [exact Hi'|]. split; [by destruct pkt|]. split; [by left|exact Ho].
    + destruct (dq_full (RQ c)) eqn:Hfull.
      { do 4 eexists. split; [done|]. split; [by inv_parts|]. split; [by destruct pkt|]. split; [by left|]. by split; [|intros w blk; left]. }
      change (c_cpu (c <| stats ::= _ |>)) with (c_cpu c).
      destruct (arrive_push f pkt (c_cpu c) (RQ c) Hrq Ha Hfull) as (q & -> & Hq & Harr). cbn [cbind].
      destruct (Hput _ (stats c <| RQ_ACCESS ::= inc |> <| RQ_TO_CACHE ::= inc |>) Hq Harr) as [Hi' Ho].
      do 4 eexists. split; [done|]. split; [exact Hi'|]. split; [by destruct pkt|]. split; [by left|exact Ho].
Qed.

Lemma add_wq_ok pkt c :
  inv c -> request_ok pkt ->
  exists res c', add_wq k warmup_complete pkt c = Ret (res, pkt, [], c') /\ inv c' /\ current_cycle c' = current_cycle c /\
  forall w blk, owes c' w blk -> owes c w blk.
Proof.
  intros Hi Ha. unfold add_wq. pose proof Hi as [? ? ? ? Hrq Hwq ? ? ? ? ?].
  change (WQ (c <| stats ::= _ |>)) with (WQ c). change (c_cpu (c <| stats ::= _ |>)) with (c_cpu c).
  destruct (dq_find _ (WQ c)); [do 2 eexists; split; [done|]; split; [by inv_parts|done]|].
  destruct (dq_full (WQ c)) eqn:Hfull; [do 2 eexists; split; [done|]; split; [by inv_parts|done]|].
  destruct (dq_push_ok (c_cpu c) pkt (WQ c) Hwq Hfull Ha) as (q & -> & Hq & _). cbn [cbind].
  do 2 eexists. split; [done|]. split; [constructor; assumption|done].
Qed.

(** Adding to the prefetch queue changes nothing else and keeps the requests in it. *)
Lemma add_pq_ok exc pkt c :
  inv_except exc c -> request_ok pkt ->
  exists res pkt' ret_calls c', add_pq k warmup_complete pkt c = Ret (res, pkt', ret_calls, c') /\
  inv_except exc c' /\ pkt' = pkt <| data := data pkt' |> /\ (ret_calls = [] \/ ret_calls = return_to_all pkt') /\
  pref c' = pref c /\ (to_return pkt = [] -> pf_frame c c') /\ owes_more c c' pkt ret_calls.
Proof.
  intros Hi Ha. unfold add_pq. destruct (Z.eqb_spec (address pkt) 0); [by destruct Ha|]. cbn [cassert negb cbind].
  pose proof Hi as [? ? ? ? Hrq Hwq Hpq ? ? ? ?].
  set (f := fun e => e <| fill_level := Z.min (fill_level e) (fill_level pkt) |> <| to_return := merge_nat (to_return e) (to_return pkt) |>).
  change (WQ (c <| stats ::= _ |>)) with (WQ c). change (PQ (c <| stats ::= _ |>)) with (PQ c).
  assert (forall q s, queue_ok q -> arrived f pkt (PQ c) q ->
    inv_except exc (c <| PQ := q |> <| stats := s |>) /\ owes_more c (c <| PQ := q |> <| stats := s |>) pkt [] /\
    (to_return pkt = [] -> pf_frame c (c <| PQ := q |> <| stats := s |>))) as Hput.
  { intros q s Hq Harr. split; [constructor; assumption|]. split.
    - split; [done|]. intros w blk [Ho|[Ho|Ho]]; [by left; left| |by left; right; right].
      apply (owed_in_arrived f pkt (PQ c)) in Ho as [?|[? ?]]; [by left; right; left|by right|done|done|].
      intros x w'. apply elem_of_nat_merge.
    - intros Hret. destruct (arrived_same f pkt (PQ c) q Harr) as [Hr Hl].
      { intros x. do 6 (split; [done|]). intros w. unfold f. cbn. unfold merge_nat.
        rewrite elem_of_nat_merge, Hret. split; [by intros [?|[]%elem_of_nil]|by left]. }
      repeat (split; [done|]). exact Hl. }
  assert (forall s, pf_frame c (c <| stats := s |>)) as Hframe.
  { intros s. destruct (Hput (PQ c) s Hpq) as (_ & _ & Hf); [by apply arrived_not|].
    repeat (split; [done|]). exists (items (PQ c)). split; [done|]. split; [done|]. by apply Forall_Forall2_diag, Forall_true. }
  pose proof (dq_find_spec (eq_addr (address pkt) (wq_shamt k)) (WQ c) (proj1 Hwq)) as Hf.
  destruct (dq_find (eq_addr (address pkt) (wq_shamt k)) (WQ c)) as [pos|].
  { destruct Hf as (i & x & -> & Hx & _). rewrite (at_pos_of _ i x) by (apply Hwq || done). cbn [cbind].
    do 4 eexists. split; [done|]. split; [by inv_parts|]. split; [done|]. split; [by right|]. split; [done|].
    split; [intros _; apply Hframe|]. by split; [|intros w blk; left]. }
  destruct (dq_find (eq_addr (address pkt) (OFFSET_BITS k)) (PQ c)) as [pos|] eqn:Epq.
  - destruct (arrive_merge f pkt (PQ c) pos Hpq Epq) as [Hq Harr].
    { intros x (? & ? & ?). split; [done|]. split; [done|]. apply increasing_merge; [done|apply Ha]. }
    destruct (Hput _ (stats c <| PQ_ACCESS ::= inc |> <| PQ_MERGED ::= inc |>) Hq Harr) as (Hi' & Ho & Hfr).
    do 4 eexists. split; [done|]. split; [exact Hi'|]. split; [by destruct pkt|]. split; [by left|]. split; [done|].
    split; [exact Hfr|exact Ho].
  - destruct (dq_full (PQ c)) eqn:Hfull.
    { do 4 eexists. split; [done|]. split; [by inv_parts|]. split; [by destruct pkt|]. split; [by left|]. split; [done|].
      split; [intros _; apply Hframe|]. by split; [|intros w blk; left]. }
    change (c_cpu (c <| stats ::= _ |>)) with (c_cpu c).
    destruct (arrive_push f pkt (c_cpu c) (PQ c) Hpq Ha Hfull) as (q & -> & Hq & Harr). cbn [cbind].
    destruct (Hput _ (stats c <| PQ_ACCESS ::= inc |> <| PQ_TO_CACHE ::= inc |>) Hq Harr) as (Hi' & Ho & Hfr).
    do 4 eexists. split; [done|]. split; [exact Hi'|]. split; [by destruct pkt|]. split; [by left|]. split; [done|].
    split; [exact Hfr|exact Ho].
Qed.

(** ** Answers *)

(** The miss registers that wait are those from the first on. *)
Lemma unreturned_from l i x :
  mshr_ok l -> l !! i = Some x -> unreturned x = bool_decide (find_if unreturned l <= i)%nat.
Proof.
  intros (_ & _ & _ & Ho) Hx. case_bool_decide as Hle.
  - destruct (find_if_Some unreturned l) as (y & Hy & Hp); [apply lookup_lt_Some in Hx; lia|].
    destruct (decide (find_if unreturned l = i)) as [<-|]; [congruence|].
    eapply Ho; [exact Hy|exact Hx|lia|done].
  - eapply find_if_before; [exact Hx|lia].
Qed.

(** Permuting the registers and changing those that wait. *)
Lemma mshr_ok_perm l l' n :
  mshr_ok l -> block_of <$> l' ≡ₚ block_of <$> l -> Forall (fun x => address x <> 0) l' ->
  (forall i x, l' !! i = Some x -> unreturned x = bool_decide (n <= i)%nat) -> mshr_ok l'.
Proof.
  intros (Hlen & Hnd & Hv & _) Hp Hv' Ho. split; [|split; [|split]].
  - apply Permutation_length in Hp. rewrite !length_fmap in Hp. lia.
  - by rewrite Hp.
  - done.
  - intros i j x y Hx Hy Hlt. rewrite (Ho _ _ Hx), (Ho _ _ Hy), !bool_decide_eq_true. lia.
Qed.

(** The register of a block. *)
Lemma find_mshr l i e a :
  mshr_ok l -> l !! i = Some e -> Z.shiftr a (OFFSET_BITS k) = block_of e ->
  find_if (eq_addr a (OFFSET_BITS k)) l = i.
Proof.
  intros (_ & Hnd & Hv & _) He Ha.
  assert (eq_addr a (OFFSET_BITS k) e = true) as Hp.
  { apply eq_addr_PACKET. rewrite list.Forall_forall in Hv. split; [eapply Hv, list_elem_of_lookup_2, He|done]. }
  apply (find_if_unique _ _ _ e); [done|done|]. intros j y Hy [_ Hpy]%eq_addr_PACKET.
  rewrite NoDup_alt in Hnd. eapply (Hnd _ _ (block_of e)); rewrite list_lookup_fmap, ?Hy, ?He; simpl; [|done].
  unfold block_of in *. congruence.
Qed.

(** An answer to a request that waits: its register, with the data, moves in
    front of those that wait. *)
Lemma return_data_ok i e pkt (c : cache) :
  inv c -> MSHR c !! i = Some e -> unreturned e = true -> Z.shiftr (address pkt) (OFFSET_BITS k) = block_of e ->
  (forall l, lower_level c = Some l -> ~ ll_owes l (self k) (block_of e)) ->
  exists t c', return_data k warmup_complete pkt c = Ret c' /\ inv c' /\
  c' = c <| MSHR := MSHR c' |> /\ t <= current_cycle c + FILL_LATENCY k /\
  MSHR c' ≡ₚ <[i := e <| data := data pkt |> <| pf_metadata := pf_metadata pkt |> <| event_cycle := t |>]> (MSHR c).
Proof.
  intros Hi He Hu Hp Hno. pose proof (inv_MSHR _ _ Hi) as Hm. destruct (inv_time _ _ Hi) as [Ht0 Ht1].
  pose proof (unreturned_from _ _ _ Hm He) as Hj. rewrite Hu in Hj. symmetry in Hj. apply bool_decide_eq_true in Hj.
  pose proof (lookup_lt_Some _ _ _ He) as Hlt.
  unfold return_data. rewrite (find_mshr _ i e) by done. cbv zeta.
  rewrite (proj2 (Nat.ltb_lt _ _) Hlt). cbn [cassert cbind].
  set (t := u64 _). set (f := fun _ : PACKET => _). set (j := find_if unreturned (MSHR c)) in *.
  pose proof (ok_latency k Hk) as Hl0.
  assert (t <= current_cycle c + FILL_LATENCY k /\ t <> UINT64_MAX) as [Ht Htm].
  { unfold t, UINT64_MAX in *. destruct (warmup_complete (c_cpu c)); rewrite u64_small; lia. }
  assert (alter f i (MSHR c) = <[i:=f e]> (MSHR c)) as Ha by (by apply list_alter_Some).
  assert (exists y, <[i:=f e]> (MSHR c) !! j = Some y) as [y Hy]
    by (apply lookup_lt_is_Some; rewrite length_insert; lia).
  rewrite Ha. destruct (iter_swap_spec (<[i:=f e]> (MSHR c)) i j (f e) y) as (l' & -> & Hperm & Hl);
    [by apply list_lookup_insert_eq|done|].
  exists t, (c <| MSHR := l' |>). split; [done|]. split; [|split; [done|split; [done|exact Hperm]]].
  pose proof Hi as [? ? ? ? ? ? ? ? ? ? (l & Hlow & Hll & Haw)]. constructor; try assumption.
  2: { exists l. split; [done|]. split; [done|]. intros blk Hb. destruct (Haw blk Hb) as (z & Hz & Huz & Hbz).
       exists z. split; [|done]. change (z ∈ l'). rewrite Hperm. apply list_elem_of_lookup in Hz as [n Hz].
       apply (list_elem_of_lookup_2 _ n). rewrite list_lookup_insert_ne; [done|]. intros ->.
       apply (Hno l Hlow). rewrite He in Hz. injection Hz as ->. by rewrite Hbz. }
  change (mshr_ok l').
  assert (block_of <$> <[i:=f e]> (MSHR c) = block_of <$> MSHR c) as Hb.
  { rewrite list_fmap_insert. apply list_insert_id. rewrite list_lookup_fmap, He. done. }
  apply (mshr_ok_perm (MSHR c) l' (S j)); [done|by rewrite Hperm, Hb| |].
  - rewrite Hperm. apply Forall_insert; [apply Hm|]. destruct Hm as (_ & _ & Hv & _).
    by eapply (Forall_lookup_1 _ _ _ _ Hv He).
  - intros n x. rewrite Hl. destruct (decide (n = j)) as [->|Hnj].
    { intros [= <-]. rewrite bool_decide_eq_false_2 by lia. by apply Z.eqb_neq. }
    destruct (decide (n = i)) as [->|Hni].
    + intros [= <-]. rewrite bool_decide_eq_true_2 by lia. rewrite list_lookup_insert_ne in Hy by lia.
      rewrite (unreturned_from _ _ _ Hm Hy). by apply bool_decide_eq_true.
    + rewrite list_lookup_insert_ne by done. intros Hx. rewrite (unreturned_from _ _ _ Hm Hx).
      apply bool_decide_ext. unfold j in *. lia.
Qed.

End Spec.
End CacheSpec.
