(* ===== verification/SimCacheStep.v ===== *)
(** * ChampSim: the handlers of the cache

    Hits, misses and fills, under the contracts of the lower level, the
    replacement policy and the prefetcher: what each does, and that it keeps the
    invariant of [SimCacheSpec] without failing. *)

From S2P Require Import Prelude SimUtil SimQueue SimVmem SimRepl SimCache SimCacheSpec.
Import Util Mem Circ Delay Vmem Sets Cache CacheSpec.
Local Open Scope c_scope.

Module CacheStep.

Section Step.
Context `{Config} {R P L : Type} `{Replacement R} `{LowerLevel L} `{!LowerLevelOk L}.
Context (k : params) (warmup_complete : Z -> bool) (instr_lt instr_eq : nat -> nat -> bool) (uninit : Z).
Context `{!ReplacementOk R (NUM_SET k) (NUM_WAY k)}.
Local Abbreviation cache := (CACHE R P L).
Context {prefetcher : Prefetcher cache} {prefetcher_ok : PrefetcherOk k}.
Context (Hk : params_ok k) (Hoff : OFFSET_BITS k = ll_offset).

Implicit Types (c : cache) (p : pkt_ref).

(** ** The packet being handled *)

(** The packet [x] is where [p] says. *)
Definition here p c (x : PACKET) : Prop :=
  match p with
  | RQ_front => head (items (RQ c)) = Some x
  | WQ_front => head (items (WQ c)) = Some x
  | PQ_front => head (items (PQ c)) = Some x
  | MSHR_begin => head (MSHR c) = Some x
  end.

(** What handling a packet leaves alone: the accesses that are left, the time,
    and the queues, the front of the one it is in and the arrival of prefetches
    apart, and the clock of the level below. *)
Record frame p c c' : Prop := mkFrame {
  fr_reads : reads_available_this_cycle c' = reads_available_this_cycle c;
  fr_writes : writes_available_this_cycle c' = writes_available_this_cycle c;
  fr_cycle : current_cycle c' = current_cycle c;
  fr_clock : ll_clock <$> lower_level c' = ll_clock <$> lower_level c;
  fr_RQ : ready (RQ c') = ready (RQ c) /\ tail (items (RQ c')) = tail (items (RQ c));
  fr_WQ : ready (WQ c') = ready (WQ c) /\ tail (items (WQ c')) = tail (items (WQ c));
  fr_PQ : ready (PQ c') = ready (PQ c);
  fr_other_RQ : p <> RQ_front -> RQ c' = RQ c;
  fr_other_WQ : p <> WQ_front -> WQ c' = WQ c;
}.

#[global] Instance frame_preorder p : PreOrder (frame p).
Proof.
  split; [by intros c; constructor|]. intros c1 c2 c3 [? ? ? ? [? ?] [? ?] ? HR HW] [? ? ? ? [? ?] [? ?] ? HR' HW'].
  constructor; try split; try congruence; intros Hp; [by rewrite (HR' Hp), HR|by rewrite (HW' Hp), HW].
Qed.

Lemma head_cons {A} (l : list A) x : head l = Some x -> l = x :: tail l.
Proof. destruct l; [done|]. by intros [= ->]. Qed.

Lemma deref_here exc p c x : inv_except k exc c -> here p c x -> deref p c = Ret x.
Proof.
  intros [? ? ? ? Hr Hw Hp ? ? ? ?]. destruct p; simpl; intros Hx; apply head_cons in Hx.
  1-3: (eapply dq_front_spec; [by (apply Hr || apply Hw || apply Hp)|exact Hx]).
  by rewrite Hx.
Qed.

Lemma here_request exc p c x : inv_except k exc c -> p <> MSHR_begin -> here p c x -> request_ok x.
Proof.
  intros [? ? ? ? (_ & _ & Hr) (_ & _ & Hw) (_ & _ & Hp) ? ? ? ?] Hne.
  destruct p; simpl; intros Hx%head_cons; [rewrite Hx in Hr|rewrite Hx in Hw|rewrite Hx in Hp|done];
    [exact (Forall_inv Hr)|exact (Forall_inv Hw)|exact (Forall_inv Hp)].
Qed.

Lemma here_valid exc p c x : inv_except k exc c -> here p c x -> address x <> 0.
Proof.
  intros Hi Hx. destruct p; [by edestruct here_request as [? _]; [exact Hi| |exact Hx|]..|].
  destruct Hi as [? ? ? ? ? ? ? ? (_ & _ & Hm & _) ? ?]. apply head_cons in Hx. rewrite Hx in Hm. exact (Forall_inv Hm).
Qed.

Lemma queue_ok_assign f (q : delay_queue PACKET) x :
  queue_ok q -> head (items q) = Some x -> (request_ok x -> request_ok (f x)) ->
  let q' := dq_modify f (head_ (_buf q)) q in
  queue_ok q' /\ ready q' = ready q /\ items q' = f x :: tail (items q).
Proof.
  intros (Hw & Hs & Hv) Hx%head_cons Hf.
  destruct (dq_modify_front f q x _ Hw Hx) as (Hw' & Hi & _ & Hr & Hz & Hd). cbn zeta.
  split; [|done]. split; [done|]. split; [congruence|]. rewrite Hi. rewrite Hx in Hv.
  apply list.Forall_cons in Hv as [? ?]. apply list.Forall_cons. auto.
Qed.

Lemma inv_mshr_insert exc i e e' c :
  inv_except k exc c -> MSHR c !! i = Some e -> address e' <> 0 -> block_of k e' = block_of k e ->
  event_cycle e' = event_cycle e -> inv_except k exc (c <| MSHR := <[i := e']> (MSHR c) |>).
Proof.
  intros [? ? ? ? ? ? ? ? Hm ? (l & Hlow & Hll & Haw)] He Ha Hb Hc. constructor; try assumption.
  2: { exists l. split; [done|]. split; [done|]. intros blk Ho. destruct (Haw blk Ho) as (z & Hz & Huz & Hbz).
       apply list_elem_of_lookup in Hz as [n Hz]. destruct (decide (n = i)) as [->|Hne].
       - exists e'. rewrite He in Hz. injection Hz as ->. split; [apply list_elem_of_insert; by eapply lookup_lt_Some|].
         split; [unfold unreturned in *; by rewrite Hc|congruence].
       - exists z. split; [|done]. apply (list_elem_of_lookup_2 _ n). cbn. by rewrite list_lookup_insert_ne. }
  change (mshr_ok k (<[i := e']> (MSHR c))). apply (mshr_ok_perm k (MSHR c) _ (find_if unreturned (MSHR c))); [done|..].
  - rewrite list_fmap_insert, list_insert_id; [done|]. rewrite list_lookup_fmap, He. simpl. by rewrite Hb.
  - apply Forall_insert; [apply Hm|done].
  - intros j x. rewrite list_lookup_insert_Some. intros [(<- & <- & _)|[_ Hx]]; [|by apply (unreturned_from k)].
    rewrite <- (unreturned_from k _ _ _ Hm He). unfold unreturned. by rewrite Hc.
Qed.

(** Writing to the packet being handled. *)
Lemma assign_ok exc p f c x :
  inv_except k exc c -> here p c x -> address (f x) = address x -> event_cycle (f x) = event_cycle x -> (request_ok x -> request_ok (f x)) ->
  inv_except k exc (assign p f c) /\ here p (assign p f c) (f x) /\ frame p c (assign p f c) /\
  tail (MSHR (assign p f c)) = tail (MSHR c).
Proof.
  intros Hi Hx Ha He Hsc. pose proof Hi as [? ? ? ? Hr Hw Hp ? Hm ? ?]. destruct p; simpl in Hx |- *;
    [pose proof (queue_ok_assign f _ x Hr Hx Hsc) as Hq|pose proof (queue_ok_assign f _ x Hw Hx Hsc) as Hq|
     pose proof (queue_ok_assign f _ x Hp Hx Hsc) as Hq|].
  1-3: (destruct Hq as (Hq & Hrd & Hit); split; [constructor; assumption|]; split; [exact (f_equal head Hit)|];
    split; [constructor; try done; first [exact Hrd|split; [exact Hrd|exact (f_equal tail Hit)]]|done]).
  assert (MSHR c !! 0%nat = Some x) as H0x by (by destruct (MSHR c)).
  assert (alter f 0%nat (MSHR c) = <[0%nat := f x]> (MSHR c)) as E by (by apply list_alter_Some).
  assert (inv_except k exc (c <| MSHR := <[0%nat := f x]> (MSHR c) |>)) as Hi'.
  { apply (inv_mshr_insert exc 0 x); [done|done| |unfold block_of; by rewrite Ha|done].
    rewrite Ha. apply (Forall_lookup_1 _ _ _ _ (proj1 (proj2 (proj2 Hm))) H0x). }
  change (c <| MSHR ::= alter f 0%nat |>) with (c <| MSHR := alter f 0%nat (MSHR c) |>). rewrite E.
  split; [done|]. destruct (MSHR c); [done|]. split; [done|]. split; [by constructor|done].
Qed.

(** ** The prefetcher and the replacement policy *)

Lemma inv_set_cpu exc v c : inv_except k exc c -> inv_except k exc (c <| c_cpu := v |>).
Proof. intros [? ? ? ? ? ? ? ? ? ? ?]. by constructor. Qed.

Lemma same_request_refl x : same_request x x.
Proof. done. Qed.

Lemma pf_frame_frame p c c' : pf_frame c c' -> frame p c c'.
Proof.
  intros (? & ? & Hr & Hw & ? & ? & ? & ? & Hl & ? & ? & ? & _). constructor; try done; [by rewrite Hl|by rewrite Hr|by rewrite Hw].
Qed.

Lemma pf_frame_here p c c' x : pf_frame c c' -> here p c x -> exists x', here p c' x' /\ same_request x x'.
Proof.
  intros (_ & _ & Hr & Hw & Hm & _ & _ & _ & _ & _ & _ & _ & l & Hl & [l' Hp] & Hs). destruct p; simpl.
  - rewrite Hr. eauto using same_request_refl.
  - rewrite Hw. eauto using same_request_refl.
  - intros Hx%head_cons. rewrite Hx in Hs. inversion Hs as [|? y ? ly Hy]; subst. rewrite Hp. simpl. eauto.
  - rewrite Hm. eauto using same_request_refl.
Qed.

(** The parts of a cache that neither calls to the prefetcher nor writing to the
    packet being handled change. *)
Definition same_core c c' : Prop :=
  block c' = block c /\ repl c' = repl c /\ lower_level c' = lower_level c /\ returned c' = returned c /\
  tail (MSHR c') = tail (MSHR c).

Lemma same_core_trans c1 c2 c3 : same_core c1 c2 -> same_core c2 c3 -> same_core c1 c3.
Proof. intros (? & ? & ? & ? & ?) (? & ? & ? & ? & ?). repeat split; congruence. Qed.

Lemma assign_core exc p f c x :
  inv_except k exc c -> here p c x -> address (f x) = address x -> event_cycle (f x) = event_cycle x -> (request_ok x -> request_ok (f x)) ->
  same_core c (assign p f c) /\ (p <> MSHR_begin -> MSHR (assign p f c) = MSHR c).
Proof.
  intros Hi Hx Ha He Hsc. destruct (assign_ok exc p f c x Hi Hx Ha He Hsc) as (_ & _ & _ & Ht).
  split; [|by destruct p]. repeat split; [by destruct p..|exact Ht].
Qed.

Lemma assign_metadata exc p m c x :
  inv_except k exc c -> here p c x ->
  let c' := assign p (fun e => e <| pf_metadata := m |>) c in
  inv_except k exc c' /\ frame p c c' /\ same_core c c' /\ (p <> MSHR_begin -> MSHR c' = MSHR c) /\
  here p c' (x <| pf_metadata := m |>).
Proof.
  intros Hi Hx c'. destruct (assign_ok exc p (fun e => e <| pf_metadata := m |>) c x Hi Hx) as (? & ? & ? & _); [done..|].
  destruct (assign_core exc p (fun e => e <| pf_metadata := m |>) c x Hi Hx) as (? & ?); [done..|]. done.
Qed.

Lemma activate_prefetcher_ok p hit c x :
  inv k c -> here p c x ->
  exists c' x', activate_prefetcher k p hit c = Ret c' /\ inv k c' /\ frame p c c' /\ same_core c c' /\
  (p <> MSHR_begin -> MSHR c' = MSHR c) /\ here p c' x' /\ same_request x x'.
Proof.
  intros Hi Hx. unfold activate_prefetcher. rewrite (deref_here None p c x) by done. cbn [cbind].
  destruct (_ && _).
  2: { exists c, x. split; [done|]. split; [done|]. split; [done|]. split; [done|]. done. }
  cbv zeta. edestruct (prefetcher_cache_operate_ok k) as (m & c1 & -> & Hi1 & Hf); [apply inv_set_cpu, Hi|].
  cbn [cbind]. destruct (pf_frame_here p _ _ x Hf) as (x1 & Hx1 & Hs1); [by destruct p|].
  destruct (assign_metadata None p m c1 x1 Hi1 Hx1) as (Hi2 & Hfr2 & Hc2 & Hm2 & Hx2).
  eexists _, (x1 <| pf_metadata := m |>). split; [done|]. split; [exact Hi2|].
  pose proof (pf_frame_frame p _ _ Hf) as Hfr1. destruct Hf as (_ & Hb & _ & _ & HM & _ & _ & _ & Hl & Hr & Hret & _).
  split; [etransitivity; [|exact Hfr2]; by destruct Hfr1; constructor|].
  split; [eapply same_core_trans; [|exact Hc2]; repeat split; [done..|by rewrite HM]|].
  split; [intros Hp; rewrite (Hm2 Hp); exact HM|]. split; [exact Hx2|]. exact Hs1.
Qed.

Lemma shape_same_but_lru bs bs' : same_but_lru bs bs' -> shape (NUM_SET k) (NUM_WAY k) bs -> shape (NUM_SET k) (NUM_WAY k) bs'.
Proof. unfold shape. intros Hs. by rewrite (same_but_lru_length _ _ Hs). Qed.

Lemma block_ok_same_but_lru bs bs' : same_but_lru bs bs' -> Forall block_ok bs -> Forall block_ok bs'.
Proof.
  intros Hs Hb. apply Forall_lookup. intros i b' Hb'. destruct (Forall2_lookup_r _ _ _ _ _ Hs Hb') as (b & Hi & ->).
  by apply (Forall_lookup_1 _ _ _ _ Hb Hi).
Qed.

Lemma update_replacement_ok cpu set way full_addr ip type (hit : bool) c :
  inv_except k (if hit then None else Some (set * NUM_WAY k + way)%nat) c ->
  (set < NUM_SET k)%nat -> (way < NUM_WAY k)%nat ->
  exists c', update_replacement k cpu set way full_addr ip type hit c = Ret c' /\ inv k c' /\
  same_but_lru (block c) (block c') /\ c' = c <| repl := repl c' |> <| block := block c' |>.
Proof.
  intros [? ? ? ? ? ? ? ? ? ? ?] Hs Hw. unfold update_replacement.
  destruct (update_ok cpu set way full_addr ip 0 type hit (repl c) (block c)) as (r & bs & -> & Hb & ? & ?); [done..|].
  cbn [cbind]. eexists. split; [done|]. split; [|by destruct c].
  constructor; try assumption; [by eapply shape_same_but_lru|by eapply block_ok_same_but_lru].
Qed.

Lemma inv_alter_block exc f i b c :
  inv_except k exc c -> block c !! i = Some b -> (b_valid (f b) = true -> b_valid b = true) -> b_lru (f b) = b_lru b ->
  block_ok (f b) -> inv_except k exc (c <| block ::= alter f i |>).
Proof.
  intros [? ? Hl Hb ? ? ? ? ? ? ?] Hi Hv Hlru Hok. constructor; try assumption.
  - unfold shape. change (block (c <| block ::= alter f i |>)) with (alter f i (block c)). by rewrite length_alter.
  - intros j b'. change (block (c <| block ::= alter f i |>)) with (alter f i (block c)).
    destruct (decide (j = i)) as [->|]; [|rewrite list_lookup_alter_ne by done; eauto].
    rewrite list_lookup_alter_eq, Hi. intros [= <-] Hv'. rewrite Hlru. eauto.
  - change (Forall block_ok (alter f i (block c))). apply Forall_alter; [done|]. intros x Hx _. rewrite Hi in Hx. by injection Hx as <-.
Qed.

Lemma inv_stats exc f c : inv_except k exc c -> inv_except k exc (c <| stats ::= f |>).
Proof. intros [? ? ? ? ? ? ? ? ? ? ?]. by constructor. Qed.

Lemma inv_returned exc f c : inv_except k exc c -> inv_except k exc (c <| returned ::= f |>).
Proof. intros [? ? ? ? ? ? ? ? ? ? ?]. by constructor. Qed.

Lemma block_lookup exc c set way :
  inv_except k exc c -> (set < NUM_SET k)%nat -> (way < NUM_WAY k)%nat ->
  exists b, block c !! (set * NUM_WAY k + way)%nat = Some b.
Proof. intros Hi Hs Hw. apply lookup_lt_is_Some. pose proof (inv_shape _ _ _ Hi) as Hl. unfold shape in Hl. rewrite Hl. nia. Qed.

Lemma block_at_Some i b bs : bs !! i = Some b -> block_at i bs = Ret b.
Proof. unfold block_at. by intros ->. Qed.

(** ** Hits

    Everyone who waits is answered with the data of the block; the block keeps
    its contents, and is no longer marked as prefetched. *)
Lemma readlike_hit_ok set way p c x b :
  inv k c -> p <> MSHR_begin -> here p c x -> (set < NUM_SET k)%nat -> (way < NUM_WAY k)%nat ->
  block c !! (set * NUM_WAY k + way)%nat = Some b ->
  exists c' x', readlike_hit k set way p c = Ret c' /\ inv k c' /\ frame p c c' /\
  MSHR c' = MSHR c /\ lower_level c' = lower_level c /\
  same_but_lru (alter (fun b => b <| b_prefetch := false |>) (set * NUM_WAY k + way)%nat (block c)) (block c') /\
  here p c' x' /\ same_request (x <| data := b_data b |>) x' /\ returned c' = returned c ++ return_to_all x'.
Proof.
  intros Hi Hp Hx Hset Hway Hb. unfold readlike_hit. set (i := (set * NUM_WAY k + way)%nat) in *.
  rewrite (block_at_Some i b) by done. cbn [cbind].
  destruct (assign_ok None p (fun e => e <| data := b_data b |>) c x Hi Hx) as (Hi1 & Hx1 & Hf1 & _); [done..|].
  destruct (assign_core None p (fun e => e <| data := b_data b |>) c x Hi Hx) as ((Hb1 & Hr1 & Hl1 & Ht1 & _) & HM1); [done..|].
  set (c1 := assign p _ c) in *.
  destruct (activate_prefetcher_ok p true c1 _ Hi1 Hx1) as (c2 & x2 & -> & Hi2 & Hf2 & (Hb2 & Hr2 & Hl2 & Ht2 & _) & HM2 & Hx2 & Hs2).
  cbn [cbind]. rewrite (deref_here None p c2 x2) by done. cbn [cbind].
  rewrite (block_at_Some i b) by congruence. cbn [cbind].
  edestruct (update_replacement_ok (cpu x2) set way (b_address b) (ip x2) (type x2) true c2) as (c3 & -> & Hi3 & Hb3 & E3); [done..|].
  cbn [cbind]. destruct (same_but_lru_lookup _ _ i b Hb3) as (b3 & Hb3i & Eb3); [congruence|].
  change (block (c3 <| stats ::= _ |> <| returned ::= _ |>)) with (block c3).
  rewrite (block_at_Some i b3) by done. cbn [cbind].
  assert (frame p c c3) as Hf3.
  { transitivity c1; [done|]. transitivity c2; [done|]. rewrite E3. by constructor. }
  assert (MSHR c3 = MSHR c) as HM3 by (rewrite E3; change (MSHR c2 = MSHR c); rewrite HM2, HM1; done).
  assert (lower_level c3 = lower_level c) as Hl3 by (rewrite E3; change (lower_level c2 = lower_level c); congruence).
  assert (returned c3 = returned c) as Ht3 by (rewrite E3; change (returned c2 = returned c); congruence).
  rewrite Hb2, Hb1 in Hb3. assert (here p c3 x2) as Hx3 by (rewrite E3; by destruct p).
  assert (b_prefetch b3 = b_prefetch b) as Hpf by (by rewrite Eb3).
  rewrite <- Ht3. destruct (b_prefetch b3) eqn:Ep; eexists _, x2.
  - split; [done|]. split.
    { apply (inv_alter_block None _ i b3); [by apply inv_stats, inv_returned, inv_stats|done..|].
      apply (Forall_lookup_1 _ _ _ _ (inv_block _ _ _ Hi3) Hb3i). }
    split; [by destruct Hf3; constructor|]. split; [done|]. split; [done|]. split.
    { apply same_but_lru_alter_both; [done|]. exact Hb3. }
    split; [by destruct p|done].
  - split; [done|]. split; [by apply inv_returned, inv_stats|].
    split; [by destruct Hf3; constructor|]. split; [done|]. split; [done|].
    split; [|split; [by destruct p|done]]. rewrite (list_alter_same _ i b); [exact Hb3|done|]. destruct b. simpl in Hpf. by rewrite <- Hpf.
Qed.

(** ** Misses *)

Lemma inv_mshr_tail exc m c :
  inv_except k exc c -> head (MSHR c) = Some m -> unreturned m = false -> inv_except k exc (c <| MSHR ::= tail |>).
Proof.
  intros [? ? ? ? ? ? ? ? (Hl & Hnd & Hv & Ho) ? (l0 & Hlow & Hll & Haw)] Hm Hu. constructor; try assumption.
  2: { exists l0. split; [done|]. split; [done|]. intros blk Hb. destruct (Haw blk Hb) as (z & Hz & Huz & Hbz).
       exists z. split; [|done]. change (z ∈ tail (MSHR c)). rewrite (head_cons _ _ Hm) in Hz.
       apply elem_of_cons in Hz as [->|]; [congruence|done]. }
  change (mshr_ok k (tail (MSHR c))). destruct (MSHR c) as [|x l]; [done|]. simpl in *.
  split; [lia|]. split; [by apply list.NoDup_cons in Hnd as [_ ?]|]. split; [by apply list.Forall_cons in Hv as [_ ?]|].
  intros i j y z Hy Hz Hlt. apply (Ho (S i) (S j) y z Hy Hz). lia.
Qed.

(** A demand that meets the register of a prefetch takes it over. *)
Definition overtakes (pkt e : PACKET) : bool := (type e =? PREFETCH) && negb (type pkt =? PREFETCH).

(** The register [e'] that [e] becomes when [pkt] is merged with it: it answers
    both, unless [pkt] takes it over. *)
Definition merged (pkt e e' : PACKET) : Prop :=
  fill_level e' <= fill_level pkt /\
  if overtakes pkt e then type e' = type pkt /\ to_return e' = to_return pkt
  else type e' = type e /\ fill_level e' <= fill_level e /\
       forall w, w ∈ to_return e' <-> w ∈ to_return e \/ w ∈ to_return pkt.

Lemma merge_mshr_ok i e pkt c :
  inv k c -> MSHR c !! i = Some e -> block_of k pkt = block_of k e -> address pkt <> 0 ->
  exists c' e', merge_mshr k instr_lt instr_eq i pkt c = Ret c' /\ inv k c' /\
  c' = c <| MSHR := <[i := e']> (MSHR c) |> <| stats := stats c' |> /\
  event_cycle e' = event_cycle e /\ block_of k e' = block_of k e /\ merged pkt e e'.
Proof.
  intros Hi He Hb Ha. pose proof (lookup_lt_Some _ _ _ He) as Hlt.
  pose proof (Forall_lookup_1 _ _ _ _ (proj1 (proj2 (proj2 (inv_MSHR _ _ _ Hi)))) He) as Hea.
  unfold merge_mshr. set (f := fun e => merge_deps _ _ (e <| fill_level := _ |>) pkt).
  change (MSHR (c <| MSHR ::= alter f i |>)) with (alter f i (MSHR c)).
  rewrite list_lookup_alter_eq, He. simpl fmap. cbv match.
  change (type (f e)) with (type e). change (event_cycle (f e)) with (event_cycle e).
  change ((type e =? PREFETCH) && negb (type pkt =? PREFETCH)) with (overtakes pkt e). unfold merged.
  destruct (overtakes pkt e).
  - set (e' := pkt <| event_cycle := event_cycle e |>).
    assert (insert i e' (alter f i (MSHR c)) = <[i := e']> (MSHR c)) as Em
      by (rewrite (list_alter_Some f i e _ He); apply list_insert_insert_eq).
    pose proof (inv_mshr_insert None i e e' c Hi He Ha Hb eq_refl) as Hi'.
    rewrite <- Em in Hi'. destruct Hi' as [? ? ? ? ? ? ? ? ? ? ?].
    destruct (pf_origin_level (f e) =? cache_level k); eexists _, e';
      (split; [done|]; split; [constructor; assumption|]; split; [by rewrite <- Em|]; split; [done|]; split; [done|]; done).
  - exists (c <| MSHR ::= alter f i |>), (f e). split; [done|].
    change (c <| MSHR ::= alter f i |>) with (c <| MSHR := alter f i (MSHR c) |>). rewrite (list_alter_Some f i e _ He).
    split; [by apply (inv_mshr_insert None i e)|]. split; [done|]. split; [done|]. split; [done|].
    split; [apply Z.le_min_r|]. split; [done|]. split; [apply Z.le_min_l|]. intros w. apply elem_of_nat_merge.
Qed.

Lemma inv_lower_level exc l c :
  inv_except k exc c -> ll_inv l -> (forall blk, ll_owes l (self k) blk -> awaits k (MSHR c) blk) ->
  inv_except k exc (c <| lower_level := Some l |>).
Proof. intros [? ? ? ? ? ? ? ? ? ? ?] Hl Ho. constructor; try assumption. by exists l. Qed.

Lemma inv_mshr_app exc e c :
  inv_except k exc c -> Z.of_nat (length (MSHR c)) < MSHR_SIZE k -> address e <> 0 -> unreturned e = true ->
  Forall (fun y => block_of k y <> block_of k e) (MSHR c) -> inv_except k exc (c <| MSHR ::= fun l => l ++ [e] |>).
Proof.
  intros [? ? ? ? ? ? ? ? (Hl & Hnd & Hv & Ho) ? (l0 & Hlow & Hll & Haw)] Hlen Ha Hu Hnew. constructor; try assumption.
  2: { exists l0. split; [done|]. split; [done|]. intros blk Hb. destruct (Haw blk Hb) as (z & Hz & Huz & Hbz).
       exists z. split; [|done]. apply elem_of_app. by left. }
  change (mshr_ok k (MSHR c ++ [e])). split; [|split; [|split]].
  - rewrite length_app. simpl. lia.
  - rewrite fmap_app. apply list.NoDup_app. split; [done|]. split; [|by apply NoDup_singleton].
    intros y Hy Hye. apply list_elem_of_singleton in Hye as ->. apply list_elem_of_fmap in Hy as (z & Hz & Hin).
    rewrite list.Forall_forall in Hnew. by apply (Hnew z Hin).
  - apply Forall_app. split; [done|]. by constructor.
  - intros i j x y Hx Hy Hlt Hux. apply lookup_app_Some in Hy as [Hy|[_ Hy]].
    + rewrite lookup_app_l in Hx by (apply lookup_lt_Some in Hy; lia). by apply (Ho i j x y).
    + apply list_lookup_singleton_Some in Hy as [_ <-]. done.
Qed.

(** The answers the level below gives at once are for this cache. *)
Lemma deliver_self c e i ret_calls pkt :
  inv k c -> MSHR c !! i = Some e -> unreturned e = true -> block_of k pkt = block_of k e ->
  ret_calls = [] \/ (ret_calls = [(self k, pkt)] /\ forall l, lower_level c = Some l -> ~ ll_owes l (self k) (block_of k e)) ->
  exists c', deliver k warmup_complete ret_calls c = Ret c' /\ inv k c' /\ c' = c <| MSHR := MSHR c' |> /\
  exists e', MSHR c' ≡ₚ <[i := e']> (MSHR c) /\ block_of k e' = block_of k e /\ type e' = type e /\ to_return e' = to_return e /\ fill_level e' = fill_level e.
Proof.
  intros Hi He Hu Hb [->|[-> Hno]]; cbn [deliver].
  - exists c. split; [done|]. split; [done|]. split; [by destruct c|]. exists e. by rewrite list_insert_id.
  - rewrite Nat.eqb_refl.
    destruct (return_data_ok k warmup_complete Hk i e pkt c Hi He Hu Hb Hno) as (t & c' & -> & Hi' & Ec & _ & Hp).
    cbn [cbind]. exists c'. split; [done|]. split; [done|]. split; [done|]. eexists. split; [exact Hp|done].
Qed.

(** The call of the level below. *)
Lemma request_below (is_read : bool) pkt (l : L) :
  ll_inv l -> request_ok pkt ->
  exists res pkt' ret_calls l', (if is_read then ll_add_rq pkt l else ll_add_pq pkt l) = Ret (res, pkt', ret_calls, l') /\
  ll_inv l' /\ ll_clock l' = ll_clock l /\ pkt' = pkt <| data := data pkt' |> /\
  (ret_calls = [] \/ ret_calls = (fun ret => (ret, pkt')) <$> to_return pkt) /\
  forall w blk, ll_owes l' w blk ->
    ll_owes l w blk \/ (ret_calls = [] /\ w ∈ to_return pkt /\ blk = Z.shiftr (address pkt) ll_offset).
Proof. intros Hl Ha. destruct is_read; [by apply ll_add_rq_ok|by apply ll_add_pq_ok]. Qed.

(** The miss registers after a miss of [x] has been passed on: one more, for
    those who wait for [x], unless the block is not to be kept here. *)
Definition allocated (x : PACKET) (l l' : list PACKET) : Prop :=
  if fill_level x <=? cache_level k
  then exists e, l' ≡ₚ l ++ [e] /\ block_of k e = block_of k x /\ type e = type x /\ to_return e = to_return x /\ fill_level e = fill_level x
  else l' = l.

(** Passing on a request for which a register [e] has been allocated, or none. *)
Lemma pass_on p c0 x (keep is_read : bool) l e :
  inv k c0 -> p <> MSHR_begin -> here p c0 x -> lower_level c0 = Some l -> ll_inv l ->
  (forall blk, ll_owes l (self k) blk -> awaits k (MSHR c0) blk) ->
  (if keep then ~ ll_owes l (self k) (block_of k x) /\ MSHR c0 !! (length (MSHR c0) - 1)%nat = Some e /\ unreturned e = true /\ block_of k e = block_of k x else True) ->
  let c1 := assign p (fun e => e <| to_return := if keep then [self k] else [] |>) c0 in
  exists res pkt ret_calls lower c', deref p c1 = Ret (x <| to_return := if keep then [self k] else [] |>) /\
  (if is_read then ll_add_rq (x <| to_return := if keep then [self k] else [] |>) l
   else ll_add_pq (x <| to_return := if keep then [self k] else [] |>) l) = Ret (res, pkt, ret_calls, lower) /\
  deliver k warmup_complete ret_calls (assign p (fun _ => pkt) c1 <| lower_level := Some lower |>) = Ret c' /\
  inv k c' /\ frame p c0 c' /\ block c' = block c0 /\ repl c' = repl c0 /\ returned c' = returned c0 /\
  here p c' pkt /\ block_of k pkt = block_of k x /\
  (if keep then exists e', MSHR c' ≡ₚ <[(length (MSHR c0) - 1)%nat := e']> (MSHR c0) /\
     block_of k e' = block_of k e /\ type e' = type e /\ to_return e' = to_return e /\ fill_level e' = fill_level e
   else MSHR c' = MSHR c0).
Proof.
  intros Hi Hp Hx Hl Hll Haw He. set (x1 := x <| to_return := _ |>). intros c1.
  assert (request_ok x -> request_ok x1) as Hok.
  { intros (? & ? & _). split; [done|]. split; [done|]. unfold x1. cbn. destruct keep; repeat constructor. }
  destruct (assign_ok None p (fun e => e <| to_return := if keep then [self k] else [] |>) c0 x Hi Hx) as (Hi1 & Hx1 & Hf1 & _); [done..|].
  destruct (assign_core None p (fun e => e <| to_return := if keep then [self k] else [] |>) c0 x Hi Hx) as ((Hb1 & Hr1 & Hl1 & Ht1 & _) & HM1); [done..|].
  specialize (HM1 Hp). fold c1 in Hi1, Hx1, Hf1, Hb1, Hr1, Hl1, Ht1, HM1. fold x1 in Hx1.
  destruct (request_below is_read x1 l Hll) as (res & pkt & calls & lower & Hreq & Hlow & Hclk & Epkt & Hcalls & Howes);
    [by apply (here_request None p c1)|].
  assert (address pkt = address x1) as Ha by (by rewrite Epkt).
  assert (event_cycle pkt = event_cycle x1) as Hev by (by rewrite Epkt).
  assert (request_ok x1 -> request_ok pkt) as Hsc by (by rewrite Epkt).
  destruct (assign_ok None p (fun _ => pkt) c1 x1 Hi1 Hx1 Ha Hev Hsc) as (Hi2 & Hx2 & Hf2 & _).
  destruct (assign_core None p (fun _ => pkt) c1 x1 Hi1 Hx1 Ha Hev Hsc) as ((Hb2 & Hr2 & Hl2 & Ht2 & _) & HM2).
  specialize (HM2 Hp). set (c2 := assign p (fun _ => pkt) c1) in *.
  assert (forall blk, ll_owes lower (self k) blk -> awaits k (MSHR c2) blk) as Haw2.
  { rewrite HM2, HM1. intros blk Hb. destruct (Howes _ _ Hb) as [Hb'|(_ & Hw & ->)]; [by apply Haw|].
    destruct keep; [|by apply elem_of_nil in Hw]. destruct He as (_ & He & Hu & Hbe). exists e.
    split; [by eapply list_elem_of_lookup_2|]. split; [done|]. rewrite Hbe, <- Hoff. done. }
  pose proof (inv_lower_level None lower c2 Hi2 Hlow Haw2) as Hi3. set (c3 := c2 <| lower_level := Some lower |>) in *.
  assert (MSHR c3 = MSHR c0) as HM3 by (change (MSHR c2 = MSHR c0); congruence).
  assert (exists c', deliver k warmup_complete calls c3 = Ret c' /\ inv k c' /\ c' = c3 <| MSHR := MSHR c' |> /\
    (if keep then exists e', MSHR c' ≡ₚ <[(length (MSHR c0) - 1)%nat := e']> (MSHR c0) /\
       block_of k e' = block_of k e /\ type e' = type e /\ to_return e' = to_return e /\ fill_level e' = fill_level e else MSHR c' = MSHR c0))
    as (c' & Hd & Hi' & Ec & HM).
  { destruct keep.
    - destruct He as (Hno & He & Hu & Hbe). rewrite <- HM3 in He |- *. apply (deliver_self c3 e _ calls pkt); try done.
      { unfold block_of in *. rewrite Ha. done. }
      destruct Hcalls as [->| ->]; [by left|right]. split; [done|]. intros l' [= <-] Hb.
      destruct (Howes _ _ Hb) as [Hb'|(? & _)]; [|done]. apply Hno. by rewrite <- Hbe.
    - exists c3. destruct Hcalls as [->| ->]; by destruct c3. }
  exists res, pkt, calls, lower, c'. split; [by apply (deref_here None)|]. split; [done|]. split; [done|].
  split; [done|]. split; [rewrite Ec; transitivity c1; [done|]; transitivity c2; [done|]; constructor; try done; cbn; by rewrite Hclk, Hl2, Hl1, Hl|].
  rewrite Ec. split; [change (block c2 = block c0); congruence|]. split; [change (repl c2 = repl c0); congruence|].
  split; [change (returned c2 = returned c0); congruence|]. split; [by destruct p|].
  split; [unfold block_of; by rewrite Ha|]. exact HM.
Qed.

Lemma new_miss_ok p c x :
  inv k c -> p <> MSHR_begin -> here p c x -> Forall (fun y => block_of k y <> block_of k x) (MSHR c) ->
  exists success c', new_miss k warmup_complete p c = Ret (success, c') /\ inv k c' /\ frame p c c' /\
  block c' = block c /\ repl c' = repl c /\ returned c' = returned c /\
  (if success : bool then exists x', here p c' x' /\ block_of k x' = block_of k x /\ allocated x (MSHR c) (MSHR c')
   else c' = c).
Proof.
  intros Hi Hp Hx Hnew. unfold new_miss. rewrite (deref_here None p c x) by done. cbn [cbind].
  destruct (Z.eqb_spec (Z.of_nat (length (MSHR c))) (MSHR_SIZE k)) as [|Hroom]; [by exists false, c|].
  pose proof (proj1 (inv_MSHR _ _ _ Hi)) as Hlen. destruct (inv_lower _ _ _ Hi) as (l & Hl & Hll & Haw).
  unfold the_lower_level. rewrite Hl. cbn [cbind].
  destruct (ll_get_occupancy_ok (if prefetch_as_load k || negb (type x =? PREFETCH) then 1 else 3) (address x) l Hll) as (n1 & ->).
  destruct (ll_get_size_ok (if prefetch_as_load k || negb (type x =? PREFETCH) then 1 else 3) (address x) l Hll) as (n2 & ->).
  cbn [cbind]. destruct (n1 =? n2); [by exists false, c|].
  unfold allocated. destruct (fill_level x <=? cache_level k).
  - set (e := x <| cycle_enqueued := _ |> <| event_cycle := _ |>). set (c0 := c <| MSHR ::= _ |>).
    assert (inv k c0) as Hi0 by (apply inv_mshr_app; [done|lia|by apply (here_valid None p c x)|done|done]).
    assert (MSHR c0 !! (length (MSHR c0) - 1)%nat = Some e) as He.
    { change (MSHR c0) with (MSHR c ++ [e]). rewrite length_app, lookup_app_r by (simpl; lia). simpl.
      replace (_ - _)%nat with 0%nat by lia. done. }
    assert (~ ll_owes l (self k) (block_of k x)) as Hno.
    { intros Hb. destruct (Haw _ Hb) as (z & Hz & _ & Hbz). rewrite list.Forall_forall in Hnew. by apply (Hnew z Hz). }
    assert (forall blk, ll_owes l (self k) blk -> awaits k (MSHR c0) blk) as Haw0.
    { destruct (inv_lower _ _ _ Hi0) as (l' & Hl' & _ & Haw'). change (lower_level c = Some l') in Hl'. rewrite Hl in Hl'. injection Hl' as <-. exact Haw'. }
    edestruct (pass_on p c0 x true) as (res & pkt & calls & lower & c' & -> & Hreq & Hd & Hi' & Hf & Hb & Hr & Ht & Hx' & Hbx & e' & HM & He'); try done.
    { by destruct p. }
    cbn [cbind]. rewrite Hreq. cbn [cbind]. rewrite Hd. cbn [cbind].
    exists true, c'. split; [done|]. split; [done|]. split; [by destruct Hf; constructor|]. do 3 (split; [done|]).
    exists pkt. split; [done|]. split; [done|]. exists e'. split; [|done]. rewrite HM.
    change (MSHR c0) with (MSHR c ++ [e]). rewrite length_app, insert_app_r_alt by (simpl; lia). simpl.
    replace (_ - _)%nat with 0%nat by lia. done.
  - edestruct (pass_on p c x false) as (res & pkt & calls & lower & c' & -> & Hreq & Hd & Hi' & Hf & Hb & Hr & Ht & Hx' & Hbx & HM); try done.
    cbn [cbind]. rewrite Hreq. cbn [cbind]. rewrite Hd. cbn [cbind].
    exists true, c'. do 6 (split; [done|]). by exists pkt.
Qed.

(** The miss registers after a miss of [x]: the register of its block also
    answers those who wait for [x], or a register is allocated.  Those who
    waited for a prefetch are dropped when a demand takes its register over. *)
Inductive missed (x : PACKET) (l l' : list PACKET) : Prop :=
  | missed_merged i e e' :
      l !! i = Some e -> block_of k e = block_of k x -> l' = <[i := e']> l -> block_of k e' = block_of k x ->
      event_cycle e' = event_cycle e -> merged x e e' -> missed x l l'
  | missed_new :
      Forall (fun y => block_of k y <> block_of k x) l -> allocated x l l' -> missed x l l'.

Lemma readlike_miss_ok p c x :
  inv k c -> p <> MSHR_begin -> here p c x ->
  exists success c', readlike_miss k warmup_complete instr_lt instr_eq p c = Ret (success, c') /\ inv k c' /\ frame p c c' /\
  block c' = block c /\ repl c' = repl c /\ returned c' = returned c /\
  (if success : bool then (exists x', here p c' x') /\ missed x (MSHR c) (MSHR c') else c' = c).
Proof.
  intros Hi Hp Hx. pose proof (here_valid _ _ _ _ Hi Hx) as Ha. pose proof (inv_MSHR _ _ _ Hi) as (_ & _ & Hv & _).
  assert (exists success c', (if (find_if (eq_addr (address x) (OFFSET_BITS k)) (MSHR c) <? length (MSHR c))%nat
      then let* c := merge_mshr k instr_lt instr_eq (find_if (eq_addr (address x) (OFFSET_BITS k)) (MSHR c)) x c in Ret (true, c)
      else new_miss k warmup_complete p c) = Ret (success, c') /\ inv k c' /\ frame p c c' /\
    block c' = block c /\ repl c' = repl c /\ returned c' = returned c /\
    (if success : bool then (exists x', here p c' x') /\ missed x (MSHR c) (MSHR c') else c' = c)) as (s & c1 & E & Hi1 & Hf1 & Hb1 & Hr1 & Ht1 & Hs).
  { destruct (Nat.ltb_spec (find_if (eq_addr (address x) (OFFSET_BITS k)) (MSHR c)) (length (MSHR c))) as [Hlt|Hge].
    - destruct (find_if_Some _ _ Hlt) as (e & He & Hbe). apply eq_addr_PACKET in Hbe as [Hae Hbe].
      destruct (merge_mshr_ok _ e x c Hi He (eq_sym Hbe) Ha) as (c' & e' & -> & Hi' & Ec & Hev & Hbe' & Hret).
      exists true, c'. split; [done|]. split; [done|]. rewrite Ec. split; [by constructor|]. do 3 (split; [done|]).
      split; [exists x; by destruct p|]. eapply missed_merged; [exact He|exact Hbe|done| |done|exact Hret].
      rewrite Hbe'. exact Hbe.
    - assert (Forall (fun y => block_of k y <> block_of k x) (MSHR c)) as Hnew.
      { pose proof (find_if_le (eq_addr (address x) (OFFSET_BITS k)) (MSHR c)) as Hle.
        assert (Forall (fun y => eq_addr (address x) (OFFSET_BITS k) y = false) (MSHR c)) as Hno by (apply find_if_end; lia).
        apply list.Forall_forall. intros y Hy Hby. rewrite list.Forall_forall in Hno, Hv.
        specialize (Hno y Hy). cbv beta in Hno. apply not_true_iff_false in Hno. apply Hno, eq_addr_PACKET. split; [by apply Hv|done]. }
      destruct (new_miss_ok p c x Hi Hp Hx Hnew) as (s & c' & -> & Hi' & Hf & Hb & Hr & Ht & Hs).
      exists s, c'. do 6 (split; [done|]). destruct s; [|done]. destruct Hs as (x' & Hx' & _ & Hall).
      split; [by exists x'|by apply missed_new]. }
  unfold readlike_miss. rewrite (deref_here None p c x) by done. cbn [cbind]. rewrite E. cbn [cbind].
  destruct s; [|by exists false, c1]. destruct Hs as [[x1 Hx1] Hm].
  destruct (activate_prefetcher_ok p false c1 x1 Hi1 Hx1) as (c2 & x2 & -> & Hi2 & Hf2 & (Hb2 & Hr2 & Hl2 & Ht2 & _) & HM2 & Hx2 & _).
  cbn [cbind]. exists true, c2. split; [done|]. split; [done|]. split; [by transitivity c1|].
  do 3 (split; [congruence|]). split; [by exists x2|]. by rewrite (HM2 Hp).
Qed.

(** ** Fills *)

Lemma write_back_victim_ok b pkt c :
  inv k c -> block_ok b ->
  exists success c', write_back_victim k warmup_complete uninit b pkt c = Ret (success, c') /\ inv k c' /\
  c' = c <| lower_level := lower_level c' |> /\ ll_clock <$> lower_level c' = ll_clock <$> lower_level c /\
  (b_dirty b = false -> success = true /\ c' = c) /\
  (b_dirty b = true -> exists wb l res wb' l', lower_level c = Some l /\ address wb = b_address b /\ data wb = b_data b /\
     type wb = WRITEBACK /\ ll_add_wq wb l = Ret (res, wb', [], l') /\ lower_level c' = Some l' /\ success = negb (res =? -2)).
Proof.
  intros Hi Hb. unfold write_back_victim. destruct (inv_lower _ _ _ Hi) as (l & Hl & Hll & Haw). rewrite Hl.
  destruct (b_dirty b) eqn:Ed.
  - set (wb := new_PACKET uninit <| fill_level := _ |> <| cpu := _ |> <| address := _ |> <| data := _ |>
                 <| instr_id := _ |> <| ip := _ |> <| type := _ |>).
    destruct (ll_add_wq_ok wb l Hll) as (res & wb' & l' & E & Hl' & Hclk & Ho'); [split; [by apply Hb; right|split; [done|constructor]]|done|]. rewrite E. cbn [cbind deliver].
    eexists _, _. split; [done|]. split; [by apply inv_lower_level; [| |intros blk Hb'; apply Haw, Ho']|]. split; [done|].
    split; [cbn; by rewrite Hclk|]. split; [done|]. intros _.
    exists wb, l, res, wb', l'. done.
  - exists true, c. split; [done|]. split; [done|]. split; [by destruct c|]. split; [by rewrite Hl|]. done.
Qed.

Lemma inv_fill i b x c :
  inv k c -> block c !! i = Some b -> address x <> 0 ->
  inv_except k (Some i) (c <| block ::= alter (filled k x) i |>).
Proof.
  intros [? ? Hl Hb ? ? ? ? ? ? ?] Hi Ha. constructor; try assumption.
  - unfold shape. change (block (c <| block ::= alter (filled k x) i |>)) with (alter (filled k x) i (block c)).
    by rewrite length_alter.
  - intros j b'. change (block (c <| block ::= alter (filled k x) i |>)) with (alter (filled k x) i (block c)).
    destruct (decide (j = i)) as [->|]; [done|]. rewrite list_lookup_alter_ne by done. intros Hj Hv _. by eapply Hl.
  - change (Forall block_ok (alter (filled k x) i (block c))). apply Forall_alter; [done|].
    intros y _ _ _. exact Ha.
Qed.

(** The calls that follow the fill of a block. *)
Lemma finish_fill set way p c x metadata addr pf evicted :
  inv_except k (Some (set * NUM_WAY k + way)%nat) c -> here p c x -> (set < NUM_SET k)%nat -> (way < NUM_WAY k)%nat ->
  exists m c1 x1 c', prefetcher_cache_fill addr set way pf evicted metadata c = Ret (m, c1) /\
  deref p (assign p (fun e => e <| pf_metadata := m |>) c1) = Ret x1 /\
  update_replacement k (cpu x1) set way (address x1) (ip x1) (type x1) false (assign p (fun e => e <| pf_metadata := m |>) c1) = Ret c' /\
  inv k c' /\ frame p c c' /\ here p c' x1 /\ same_request x x1 /\ same_but_lru (block c) (block c') /\
  tail (MSHR c') = tail (MSHR c) /\ (p <> MSHR_begin -> MSHR c' = MSHR c) /\ returned c' = returned c /\
  lower_level c' = lower_level c.
Proof.
  intros Hi Hx Hset Hway.
  destruct (prefetcher_cache_fill_ok k _ addr set way pf evicted metadata c Hi) as (m & c1 & E1 & Hi1 & Hf1).
  destruct (pf_frame_here p _ _ x Hf1 Hx) as (x1 & Hx1 & Hs1).
  destruct (assign_metadata _ p m c1 x1 Hi1 Hx1) as (Hi2 & Hf2 & (Hb2 & _ & Hl2 & Ht2 & Htl2) & HM2 & Hx2).
  set (c2 := assign p _ c1) in *. set (x2 := x1 <| pf_metadata := m |>) in *.
  destruct (update_replacement_ok (cpu x2) set way (address x2) (ip x2) (type x2) false c2) as (c3 & E3 & Hi3 & Hb3 & Ec3); [done..|].
  exists m, c1, x2, c3. split; [done|]. split; [by eapply deref_here|]. split; [done|]. split; [done|].
  pose proof (pf_frame_frame p _ _ Hf1) as Hfr1.
  destruct Hf1 as (_ & Hb1 & _ & _ & HM1 & _ & _ & _ & Hl1 & _ & Ht1 & _).
  split; [transitivity c1; [done|]; transitivity c2; [done|]; rewrite Ec3; by constructor|].
  split; [rewrite Ec3; by destruct p|]. split; [exact Hs1|]. split; [by rewrite Hb2, Hb1 in Hb3|].
  assert (MSHR c3 = MSHR c2) as -> by (by rewrite Ec3).
  assert (returned c3 = returned c2) as -> by (by rewrite Ec3).
  assert (lower_level c3 = lower_level c2) as -> by (by rewrite Ec3).
  split; [congruence|]. split; [intros Hp; rewrite (HM2 Hp); congruence|]. split; congruence.
Qed.

(** The victim of a fill: written back if it is dirty. *)
Definition victim_saved (b : BLOCK) c (success : bool) (low : option L) : Prop :=
  if b_dirty b then
    exists wb l res wb' l', lower_level c = Some l /\ address wb = b_address b /\ data wb = b_data b /\
    type wb = WRITEBACK /\ ll_add_wq wb l = Ret (res, wb', [], l') /\ low = Some l' /\ success = negb (res =? -2)
  else success = true /\ low = lower_level c.

Lemma filllike_miss_ok set way p c x b :
  inv k c -> here p c x -> (set < NUM_SET k)%nat -> (way < NUM_WAY k)%nat ->
  block c !! (set * NUM_WAY k + way)%nat = Some b ->
  exists success c', filllike_miss k warmup_complete uninit set way p c = Ret (success, c') /\ inv k c' /\ frame p c c' /\
  victim_saved b c success (lower_level c') /\
  (if success : bool then
     exists x', here p c' x' /\ same_request x x' /\ tail (MSHR c') = tail (MSHR c) /\
     (p <> MSHR_begin -> MSHR c' = MSHR c) /\ returned c' = returned c /\
     same_but_lru (alter (filled k x) (set * NUM_WAY k + way)%nat (block c)) (block c')
   else c' = c <| lower_level := lower_level c' |>).
Proof.
  intros Hi Hx Hset Hway Hb. unfold filllike_miss. rewrite (deref_here None p c x) by done. cbn [cbind].
  rewrite (proj2 (Nat.eqb_neq way (NUM_WAY k))) by lia. rewrite orb_true_r. cbn [cassert cbind].
  rewrite (block_at_Some _ b) by done. cbn [cbind].
  destruct (write_back_victim_ok b x c Hi) as (s & c1 & -> & Hi1 & Ec1 & Hclk & Hclean & Hdirty).
  { apply (Forall_lookup_1 _ _ _ _ (inv_block _ _ _ Hi) Hb). }
  assert (victim_saved b c s (lower_level c1)) as Hsaved.
  { unfold victim_saved. destruct (b_dirty b); [by apply Hdirty|]. destruct Hclean as [-> ->]; done. }
  cbn [cbind]. destruct s.
  2: { cbn [cbind]. exists false, c1. split; [done|]. split; [done|]. split; [rewrite Ec1; constructor; try done; by rewrite <- Ec1|]. done. }
  cbn [cbind]. cbv zeta.
  assert (block c1 = block c) as Hb1 by (by rewrite Ec1).
  match goal with |- context [prefetcher_cache_fill _ _ _ _ _ _ ?cc] => set (c2 := cc) end.
  assert (block c2 = alter (filled k x) (set * NUM_WAY k + way)%nat (block c)) as Hb2
    by (rewrite <- Hb1; unfold c2; by destruct (_ && _)).
  assert (inv_except k (Some (set * NUM_WAY k + way)%nat) c2) as Hi2.
  { pose proof (inv_fill (set * NUM_WAY k + way)%nat b x c1 Hi1) as Hf.
    rewrite Hb1 in Hf. specialize (Hf Hb (here_valid _ _ _ _ Hi Hx)). destruct Hf as [? ? ? ? ? ? ? ? ? ? ?].
    unfold c2. destruct (_ && _); constructor; assumption. }
  assert (here p c2 x /\ frame p c c2 /\ MSHR c2 = MSHR c /\ returned c2 = returned c) as (Hx2 & Hf2 & HM2 & Ht2).
  { assert (frame p c c1) as Hf1 by (rewrite Ec1; constructor; try done; by rewrite <- Ec1).
    unfold c2. destruct Hf1. rewrite Ec1. by destruct (_ && _); (split; [by destruct p|]); (split; [by constructor|]). }
  assert (lower_level c2 = lower_level c1) as Hl2 by (unfold c2; by destruct (_ && _)).
  clearbody c2.
  edestruct (finish_fill set way p c2 x) as (m & c3 & x1 & c4 & -> & Hd & Hu & Hi4 & Hf4 & Hx4 & Hs4 & Hb4 & Htl4 & HM4 & Ht4 & Hl4); [done..|].
  cbn [cbind]. rewrite Hd. cbn [cbind]. rewrite Hu. cbn [cbind].
  eexists true, _. split; [done|]. split; [by apply inv_stats|].
  split; [assert (frame p c c4) as Hf by (by transitivity c2); by destruct Hf; constructor|].
  split; [change (victim_saved b c true (lower_level c4)); by rewrite Hl4, Hl2|].
  exists x1. rewrite <- Hb2, <- HM2, <- Ht2. split; [by destruct p|]. done.
Qed.

End Step.
End CacheStep.
