(* ===== verification/SimCacheRun.v ===== *)
(** * ChampSim: cycles of the cache

    The loops over the queues and miss registers, and a whole cycle: it keeps
    the invariant without failing, and no demand is forgotten. *)

From S2P Require Import Prelude SimUtil SimQueue SimVmem SimRepl SimCache SimCacheSpec SimCacheStep.
Import Util Mem Circ Delay Vmem Sets Cache CacheSpec CacheStep.
Local Open Scope c_scope.

Module CacheRun.

Section Run.
Context `{Config} {R P L : Type} `{Replacement R} `{LowerLevel L} `{!LowerLevelOk L}.
Context (k : params) (warmup_complete : Z -> bool) (instr_lt instr_eq : nat -> nat -> bool) (uninit : Z).
Context `{!ReplacementOk R (NUM_SET k) (NUM_WAY k)}.
Local Abbreviation cache := (CACHE R P L).
Context {prefetcher : Prefetcher cache} {prefetcher_ok : PrefetcherOk k}.
Context (Hk : params_ok k) (Hoff : OFFSET_BITS k = ll_offset).

Implicit Types (c : cache) (p : pkt_ref).

(** Neither the time nor the clock of the level below has moved. *)
Definition same_time c c' : Prop :=
  current_cycle c' = current_cycle c /\ ll_clock <$> lower_level c' = ll_clock <$> lower_level c.

#[global] Instance same_time_preorder : PreOrder same_time.
Proof. split; [done|]. intros c1 c2 c3 [? ?] [? ?]. split; congruence. Qed.

(** ** Sets and ways *)

Lemma get_set_range a : (get_set k a < NUM_SET k)%nat.
Proof.
  destruct (ok_sets k Hk) as (n & Hn & Hn32). unfold get_set.
  assert (Z.of_nat (NUM_SET k) = 2 ^ Z.of_nat n) as E by (rewrite Hn, Nat2Z.inj_pow; done).
  rewrite E, lg2_pow2, land_bitmask by lia.
  pose proof (Z.mod_pos_bound (Z.shiftr a (OFFSET_BITS k)) (2 ^ Z.of_nat n) ltac:(lia)).
  assert (2 ^ Z.of_nat n < 2 ^ 32) by (apply Z.pow_lt_mono_r; lia).
  rewrite u32_small by lia. lia.
Qed.

(** A hit: the block found has the address. *)
Lemma get_way_hit exc a set c :
  inv_except k exc c -> (set < NUM_SET k)%nat -> (get_way k a set c < NUM_WAY k)%nat ->
  exists b, block c !! (set * NUM_WAY k + get_way k a set c)%nat = Some b /\ b_valid b = true /\
  Z.shiftr (b_address b) (OFFSET_BITS k) = Z.shiftr a (OFFSET_BITS k).
Proof.
  intros Hi Hset. unfold get_way. set (bs := set_blocks (NUM_WAY k) set (block c)). intros Hlt.
  assert (length bs = NUM_WAY k) as Hlen by (eapply length_set_blocks; [apply Hi|done]).
  destruct (find_if_Some (eq_addr a (OFFSET_BITS k)) bs) as (b & Hb & Hp); [lia|].
  exists b. apply eq_addr_BLOCK in Hp as [Hv Hp]. split; [|done]. by rewrite <- lookup_set_blocks by lia.
Qed.

(** A block that is in the set is found. *)
Lemma get_way_found exc a set way b c :
  inv_except k exc c -> (set < NUM_SET k)%nat -> (way < NUM_WAY k)%nat ->
  block c !! (set * NUM_WAY k + way)%nat = Some b -> b_valid b = true ->
  Z.shiftr (b_address b) (OFFSET_BITS k) = Z.shiftr a (OFFSET_BITS k) -> (get_way k a set c < NUM_WAY k)%nat.
Proof.
  intros Hi Hset Hway Hb Hv Ha. unfold get_way. rewrite <- lookup_set_blocks in Hb by lia.
  apply Nat.le_lt_trans with way; [|done]. apply Nat.nlt_ge. intros Hlt.
  pose proof (find_if_before _ _ _ _ Hb Hlt) as Hn. rewrite (proj2 (eq_addr_BLOCK _ _ _)) in Hn; done.
Qed.

Lemma choose_way_ok set pkt c :
  inv k c -> (set < NUM_SET k)%nat ->
  exists way c', choose_way k set pkt c = Ret (way, c') /\ (way < NUM_WAY k)%nat /\ inv k c' /\
  same_but_lru (block c) (block c') /\ c' = c <| repl := repl c' |> <| block := block c' |>.
Proof.
  intros Hi Hset. unfold choose_way. set (bs := set_blocks (NUM_WAY k) set (block c)).
  assert (length bs = NUM_WAY k) as Hlen by (eapply length_set_blocks; [apply Hi|done]).
  unfold find_if_not. pose proof (find_if_le (fun b => negb (is_valid b)) bs) as Hle.
  destruct (Nat.eqb_spec (find_if (fun b => negb (is_valid b)) bs) (NUM_WAY k)) as [E|Hne].
  - destruct Hi as [? ? ? ? ? ? ? ? ? ? ?].
    destruct (find_victim_ok (cpu pkt) (instr_id pkt) set (ip pkt) (address pkt) (type pkt) (repl c) (block c))
      as (way & r & bs' & -> & Hw & Hs & Hp & Hl); [done..|apply Hk| |done|done|].
    { rewrite <- Hlen in E. apply find_if_end in E. eapply Forall_impl; [|exact E].
      intros b Hb. by apply negb_false_iff in Hb. }
    cbn [cbind]. eexists _, _. split; [done|]. split; [done|]. split; [|by destruct c].
    constructor; try assumption; [by eapply (shape_same_but_lru k)|by eapply block_ok_same_but_lru].
  - eexists _, c. split; [done|]. split; [lia|]. split; [done|]. split; [apply same_but_lru_refl|by destruct c].
Qed.

(** Choosing a way and filling it: the victim is written back if it is dirty, or
    nothing but replacement state changes. *)
Lemma fill_way_ok set p x c :
  inv k c -> here p c x -> (set < NUM_SET k)%nat ->
  exists way c1 success c' b, choose_way k set x c = Ret (way, c1) /\
  filllike_miss k warmup_complete uninit set way p c1 = Ret (success, c') /\
  (way < NUM_WAY k)%nat /\ inv k c' /\ frame p c c' /\
  block c !! (set * NUM_WAY k + way)%nat = Some b /\ victim_saved b c success (lower_level c') /\
  (if success : bool then
     exists x', here p c' x' /\ same_request x x' /\ tail (MSHR c') = tail (MSHR c) /\
     (p <> MSHR_begin -> MSHR c' = MSHR c) /\ returned c' = returned c /\
     same_but_lru (alter (filled k x) (set * NUM_WAY k + way)%nat (block c)) (block c')
   else MSHR c' = MSHR c /\ returned c' = returned c /\ same_but_lru (block c) (block c')).
Proof.
  intros Hi Hx Hset. destruct (choose_way_ok set x c Hi Hset) as (way & c1 & E1 & Hway & Hi1 & Hb1 & Ec1).
  assert (here p c1 x) as Hx1 by (rewrite Ec1; by destruct p).
  destruct (block_lookup k None c set way Hi Hset Hway) as (b & Hb).
  destruct (same_but_lru_lookup _ _ _ _ Hb1 Hb) as (b1 & Hb1i & Eb1).
  destruct (filllike_miss_ok k warmup_complete uninit set way p c1 x b1 Hi1 Hx1 Hset Hway Hb1i) as (s & c' & E2 & Hi' & Hf & Hv & Hs).
  exists way, c1, s, c', b. split; [done|]. split; [done|]. split; [done|]. split; [done|].
  split; [transitivity c1; [rewrite Ec1; by constructor|done]|]. split; [done|].
  assert (MSHR c1 = MSHR c /\ returned c1 = returned c /\ lower_level c1 = lower_level c) as (EM & Er & El)
    by (by rewrite Ec1).
  split; [rewrite Eb1 in Hv; unfold victim_saved in *; by rewrite El in Hv|].
  destruct s.
  - destruct Hs as (x' & Hx' & Hs & Htl & HM & Hr & Hbl). rewrite EM, Er in *. exists x'. do 5 (split; [done|]).
    eapply same_but_lru_trans; [|exact Hbl]. by apply same_but_lru_alter_both.
  - rewrite Hs. by rewrite <- EM, <- Er.
Qed.

(** A fill: the block is put in the cache, where it is found from now on, and
    everyone who waits is answered with its data.  It is put off when the victim
    cannot be written back. *)
Lemma fill_step m l c :
  inv k c -> MSHR c = m :: l -> event_cycle m <= current_cycle c ->
  exists go c' way b, handle_fill_step k warmup_complete uninit c = Ret (go, c') /\ inv k c' /\
  same_time c c' /\
  writes_available_this_cycle c' = writes_available_this_cycle c - b2z go /\ RQ c' = RQ c /\
  block c !! (get_set k (address m) * NUM_WAY k + way)%nat = Some b /\ victim_saved b c go (lower_level c') /\
  (if go : bool then
     MSHR c' = l /\ (exists m', same_request m m' /\ returned c' = returned c ++ return_to_all m') /\
     same_but_lru (alter (filled k m) (get_set k (address m) * NUM_WAY k + way)%nat (block c)) (block c') /\
     (get_way k (address m) (get_set k (address m)) c' < NUM_WAY k)%nat
   else MSHR c' = MSHR c /\ returned c' = returned c /\ same_but_lru (block c) (block c')).
Proof.
  intros Hi HM Ht. unfold handle_fill_step. rewrite HM, (proj2 (Z.ltb_ge _ _) Ht). cbv match.
  set (set := get_set k (address m)). pose proof (get_set_range (address m)) as Hset. fold set in Hset.
  destruct (fill_way_ok set MSHR_begin m c Hi) as (way & c1 & s & c' & b & -> & E & Hway & Hi' & Hf & Hb & Hv & Hs); [by simpl; rewrite HM|done|].
  cbn [cbind]. rewrite E. cbn [cbind]. destruct s.
  2: { exists false, c', way, b. destruct Hf as [? ? ? ? ? ? ? HR _]. specialize (HR ltac:(done)).
       split; [done|]. split; [done|]. split; [done|]. split; [simpl; lia|]. split; [done|]. rewrite HM in Hs. done. }
  destruct Hs as (m' & Hm' & Hsame & Htl & _ & Hr & Hbl). rewrite (proj2 (Nat.eqb_neq way (NUM_WAY k))) by lia.
  destruct (same_but_lru_lookup _ _ (set * NUM_WAY k + way)%nat (filled k m b) Hbl) as (b' & Hb' & Eb');
    [by rewrite list_lookup_alter_eq, Hb|].
  rewrite (block_at_Some _ b') by done. cbn [cbind].
  destruct (assign_ok k None MSHR_begin (fun e => e <| data := b_data b' |>) c' m' Hi' Hm') as (Hi2 & Hm2 & Hf2 & Htl2); [done..|].
  set (c2 := assign MSHR_begin _ c') in *.
  rewrite (deref_here k None MSHR_begin c2 _ Hi2 Hm2). cbn [cbind].
  assert (unreturned (m' <| data := b_data b' |>) = false) as Hu2.
  { destruct Hsame as (_ & _ & _ & _ & _ & Hev & _), (inv_time _ _ _ Hi) as [_ Hlim]. pose proof (ok_latency k Hk).
    unfold unreturned. cbn. rewrite Hev. apply Z.eqb_neq. lia. }
  exists true. eexists. exists way, b. split; [done|].
  split; [pose proof (inv_mshr_tail k None _ c2 Hi2 Hm2 Hu2) as [? ? ? ? ? ? ? ? ? ? ?]; by constructor|].
  assert (frame MSHR_begin c c2) as [_ Hwr Hrd Hck _ _ _ HR _] by (by transitivity c').
  split; [split; [exact Hrd|exact Hck]|]. split; [change (writes_available_this_cycle c2 - 1 = writes_available_this_cycle c - 1); by rewrite Hwr|].
  split; [by apply HR|]. split; [done|]. split; [exact Hv|].
  split; [change (tail (MSHR c2) = l); rewrite Htl2, Htl, HM; done|].
  assert (b_data b' = data m) as Ed by (by rewrite Eb').
  split; [exists (m' <| data := b_data b' |>)|split; [exact Hbl|]].
  - split; [|by rewrite <- Hr]. rewrite Ed. destruct Hsame as (? & ? & ? & ? & ? & ? & ?). by do 6 (split; [done|]).
  - change (get_way k (address m) set c' < NUM_WAY k)%nat.
    apply (get_way_found None _ set way b'); [done..| |]; by rewrite Eb'.
Qed.

(** ** Demands

    A demand is a request that is not a prefetch and is to be kept at this level
    or above. *)
Definition demand (x : PACKET) : Prop := type x <> PREFETCH /\ fill_level x <= cache_level k.

(** [w] waits for the block [blk]: a demand in the read queue, or in a miss
    register. *)
Definition waits_in (l : list PACKET) (w : nat) (blk : Z) : Prop :=
  exists x, x ∈ l /\ demand x /\ block_of k x = blk /\ w ∈ to_return x.
#[global] Instance waits_in_proper : Proper (Permutation ==> eq ==> eq ==> iff) waits_in.
Proof. intros l l' Hl w _ <- blk _ <-. unfold waits_in. by setoid_rewrite Hl. Qed.
Definition waits c w blk : Prop := waits_in (items (RQ c)) w blk \/ waits_in (MSHR c) w blk.

(** [w] has been answered with the block [blk]. *)
Definition answered c (w : nat) (blk : Z) : Prop := exists x, (w, x) ∈ returned c /\ block_of k x = blk.

(** From [c] to [c'] answers are only added, and who waits still waits or is
    answered. *)
Definition keeps c c' : Prop :=
  returned c `prefix_of` returned c' /\ forall w blk, waits c w blk -> waits c' w blk \/ answered c' w blk.

#[global] Instance keeps_preorder : PreOrder keeps.
Proof.
  split; [by intros c; split; [|intros; left]|]. intros c1 c2 c3 [Hp1 Hw1] [Hp2 Hw2]. split; [by etransitivity|].
  intros w blk Hw. destruct (Hw1 w blk Hw) as [Hw'|(x & Hx & Hb)]; [by apply Hw2|].
  right. exists x. split; [|done]. destruct Hp2 as [l ->]. rewrite elem_of_app. by left.
Qed.

Lemma keeps_same c c' : RQ c' = RQ c -> MSHR c' = MSHR c -> returned c' = returned c -> keeps c c'.
Proof. intros HR HM Hr. split; [by rewrite Hr|]. intros w blk. unfold waits. rewrite HR, HM. by left. Qed.

Lemma elem_of_return_to_all w x : w ∈ to_return x -> (w, x) ∈ return_to_all x.
Proof. intros Hw. apply list_elem_of_fmap. eauto. Qed.

(** Answering everyone who waits for a packet. *)
Lemma answered_returned c x x' w l :
  same_request x x' -> w ∈ to_return x -> returned c = l ++ return_to_all x' -> answered c w (block_of k x).
Proof.
  intros (Ha & _ & _ & _ & _ & _ & Hr) Hw E. exists x'. rewrite E, elem_of_app. split; [right|unfold block_of; by rewrite Ha].
  by apply elem_of_return_to_all, Hr.
Qed.

(** A merge or an allocation forgets no demand. *)
Lemma missed_waits x l l' w blk : missed k x l l' -> waits_in l w blk -> waits_in l' w blk.
Proof.
  intros [i e e' He Hbe -> Hbe' _ [Hfl Hm]|_ Hall] (y & Hy & Hd & Hb & Hw).
  - apply list_elem_of_lookup in Hy as [j Hy]. destruct (decide (j = i)) as [->|Hne].
    + rewrite He in Hy. injection Hy as ->. destruct Hd as [Ht Hf].
      unfold overtakes in Hm. rewrite (proj2 (Z.eqb_neq _ _) Ht) in Hm. simpl in Hm. destruct Hm as (Ety & Hf' & Hr).
      exists e'. split; [apply list_elem_of_insert; by eapply lookup_lt_Some|]. split; [split; [congruence|lia]|].
      split; [congruence|]. apply Hr. by left.
    + exists y. split; [|done]. eapply list_elem_of_lookup_2. by rewrite list_lookup_insert_ne.
  - exists y. split; [|done]. unfold allocated in Hall. destruct (_ <=? _); [|by subst].
    destruct Hall as (e & -> & _). rewrite elem_of_app. by left.
Qed.

Lemma missed_request x l l' w : missed k x l l' -> demand x -> w ∈ to_return x -> waits_in l' w (block_of k x).
Proof.
  intros [i e e' He Hbe -> Hbe' _ [Hfl Hm]|_ Hall] [Ht Hf] Hw.
  - exists e'. split; [apply list_elem_of_insert; by eapply lookup_lt_Some|].
    assert (type e' <> PREFETCH /\ w ∈ to_return e') as [Ht' Hw'].
    { unfold overtakes in Hm. rewrite (proj2 (Z.eqb_neq (type x) _) Ht) in Hm. simpl in Hm.
      destruct (Z.eqb_spec (type e) PREFETCH); simpl in Hm; [by destruct Hm as [-> ->]|].
      destruct Hm as (-> & _ & Hr). split; [done|]. apply Hr. by right. }
    split; [split; [done|lia]|]. done.
  - unfold allocated in Hall. rewrite (proj2 (Z.leb_le _ _) Hf) in Hall. destruct Hall as (e & -> & Hb & Hte & Hr & Hfe).
    exists e. split; [rewrite elem_of_app, list_elem_of_singleton; by right|]. unfold demand. rewrite Hte, Hfe, Hr. done.
Qed.

(** ** Turns of the loops *)

(** A turn does not fail, and uses one of the accesses available when the loop
    goes on. *)
Definition turn_ok (available : cache -> Z) (step : cache -> cres (bool * cache)) : Prop :=
  forall c, inv k c -> exists go c', step c = Ret (go, c') /\ inv k c' /\ keeps c c' /\
  same_time c c' /\ available c' = available c - b2z go.

Lemma turn_stops (available : cache -> Z) (step : cache -> cres (bool * cache)) c :
  step c = Ret (false, c) -> inv k c ->
  exists go c', step c = Ret (go, c') /\ inv k c' /\ keeps c c' /\
  same_time c c' /\ available c' = available c - b2z go.
Proof. intros -> Hi. exists false, c. split; [done|]. split; [done|]. split; [done|]. simpl. split; [done|lia]. Qed.

Lemma fill_turn : turn_ok writes_available_this_cycle (handle_fill_step k warmup_complete uninit).
Proof.
  intros c Hi. destruct (MSHR c) as [|m l] eqn:HM.
  { apply turn_stops; [|done]. unfold handle_fill_step. by rewrite HM. }
  destruct (Z.ltb_spec (current_cycle c) (event_cycle m)) as [Hlt|Hle].
  { apply turn_stops; [|done]. unfold handle_fill_step. by rewrite HM, (proj2 (Z.ltb_lt _ _) Hlt). }
  destruct (fill_step m l c Hi HM Hle) as (go & c' & way & b & -> & Hi' & Ht & Hw & HR & _ & _ & Hgo).
  exists go, c'. split; [done|]. split; [done|]. split; [|done]. destruct go; [|destruct Hgo as (? & ? & _); by apply keeps_same].
  destruct Hgo as (HM' & (m' & Hs & Hr) & _). split; [rewrite Hr; by apply prefix_app_r|].
  intros w blk [Hw'|(x & Hx & Hd & Hb & Hwx)]; [left; left; by rewrite HR|].
  rewrite HM in Hx. apply elem_of_cons in Hx as [->|Hx]; [|left; right; exists x; by rewrite HM'].
  right. subst blk. by eapply answered_returned.
Qed.

(** Handling a read or a prefetch, up to its removal from the queue. *)
Lemma readlike_ok p x c :
  inv k c -> p <> MSHR_begin -> here p c x ->
  let set := get_set k (address x) in
  let way := get_way k (address x) set c in
  exists success c',
  (if (way <? NUM_WAY k)%nat then let* c := readlike_hit k set way p c in Ret (true, c)
   else readlike_miss k warmup_complete instr_lt instr_eq p c) = Ret (success, c') /\ inv k c' /\ frame p c c' /\
  returned c `prefix_of` returned c' /\
  (if success : bool then
     (exists x', here p c' x') /\ (forall w blk, waits_in (MSHR c) w blk -> waits_in (MSHR c') w blk) /\
     (forall w, demand x -> w ∈ to_return x -> waits_in (MSHR c') w (block_of k x) \/ answered c' w (block_of k x))
   else c' = c).
Proof.
  intros Hi Hp Hx set way. pose proof (get_set_range (address x)) as Hset. fold set in Hset.
  destruct (Nat.ltb_spec way (NUM_WAY k)) as [Hway|Hway].
  - destruct (get_way_hit None (address x) set c Hi Hset Hway) as (b & Hb & _).
    destruct (readlike_hit_ok k set way p c x b Hi Hp Hx Hset Hway Hb) as (c' & x' & -> & Hi' & Hf & HM & _ & _ & Hx' & Hs & Hr).
    cbn [cbind]. exists true, c'. split; [done|]. split; [done|]. split; [done|]. split; [rewrite Hr; by apply prefix_app_r|].
    split; [by exists x'|]. split; [by rewrite HM|]. intros w _ Hw. right. exact (answered_returned c' (x <| data := b_data b |>) x' w _ Hs Hw Hr).
  - destruct (readlike_miss_ok k warmup_complete instr_lt instr_eq Hk Hoff p c x Hi Hp Hx) as (s & c' & -> & Hi' & Hf & _ & _ & Hr & Hs).
    exists s, c'. split; [done|]. split; [done|]. split; [done|]. split; [by rewrite Hr|]. destruct s; [|done].
    destruct Hs as [Hx' Hm]. split; [done|]. split; [intros w blk; by apply missed_waits with x|].
    intros w Hd Hw. left. by eapply missed_request.
Qed.

(** Removing the request that has been handled. *)
Lemma pop_ok q x : queue_ok q -> (0 < ready q)%nat -> head (items q) = Some x ->
  exists q', dq_pop_front q = Ret q' /\ queue_ok q' /\ items q' = tail (items q).
Proof.
  intros (Hw & Hs & Hv) Hr Hx%head_cons.
  destruct (dq_pop_front_spec q x _ Hw Hx Hr) as (q' & -> & Hw' & Hi & _ & _ & Hsz & _ & Hd).
  exists q'. split; [done|]. split; [|done]. split; [done|]. split; [congruence|]. rewrite Hi. rewrite Hx in Hv.
  by apply list.Forall_cons in Hv as [_ ?].
Qed.

Lemma queue_ready q : queue_ok q -> has_ready q = true -> (0 < ready q)%nat /\ exists x, head (items q) = Some x.
Proof.
  intros Hq. rewrite has_ready_spec by apply Hq. intros Hr%bool_decide_eq_true. split; [done|].
  destruct (queue_ok_front q Hq Hr) as (x & l & -> & _). by exists x.
Qed.

Lemma read_turn : turn_ok reads_available_this_cycle (handle_read_step k warmup_complete instr_lt instr_eq).
Proof.
  intros c Hi. destruct (has_ready (RQ c)) eqn:Er.
  2: { apply turn_stops; [|done]. unfold handle_read_step. by rewrite Er. }
  destruct (queue_ready (RQ c) (inv_RQ _ _ _ Hi) Er) as (Hr & x & Hx). unfold handle_read_step. rewrite Er.
  rewrite (deref_here k None RQ_front c x) by done. cbn [cbind].
  set (c0 := c <| ever_seen_data ::= _ |>).
  assert (inv k c0) as Hi0 by (destruct Hi as [? ? ? ? ? ? ? ? ? ? ?]; by constructor).
  destruct (readlike_ok RQ_front x c0 Hi0) as (s & c1 & -> & Hi1 & [Hrd _ Ht Hck [Hrdy Htl] _ _ _ _] & Hret & Hs); [done..|].
  cbn [cbind]. destruct s.
  2: { rewrite Hs. exists false, c0. split; [done|]. split; [done|]. split; [by apply keeps_same|]. simpl. split; [done|lia]. }
  destruct Hs as ((x' & Hx') & HM & Hw).
  destruct (pop_ok (RQ c1) x' (inv_RQ _ _ _ Hi1)) as (q & -> & Hq & Hqi); [by rewrite Hrdy|done|].
  cbn [cbind]. eexists true, _. split; [done|].
  split; [destruct Hi1 as [? ? ? ? ? ? ? ? ? ? ?]; by constructor|].
  split; [|split; [split; [exact Ht|exact Hck]|change (reads_available_this_cycle c1 - 1 = reads_available_this_cycle c - 1); by rewrite Hrd]].
  split; [exact Hret|]. intros w blk [(y & Hy & Hd & Hb & Hwy)|Hwm]; [|left; right; by apply HM].
  rewrite (head_cons _ _ Hx) in Hy. apply elem_of_cons in Hy as [->|Hy].
  - destruct (Hw w Hd Hwy) as [?|?]; [left; right; by subst blk|right; by subst blk].
  - left. left. exists y. split; [|done]. change (y ∈ items q). rewrite Hqi, Htl. exact Hy.
Qed.

Lemma prefetch_turn : turn_ok reads_available_this_cycle (handle_prefetch_step k warmup_complete instr_lt instr_eq).
Proof.
  intros c Hi. destruct (has_ready (PQ c)) eqn:Er.
  2: { apply turn_stops; [|done]. unfold handle_prefetch_step. by rewrite Er. }
  destruct (queue_ready (PQ c) (inv_PQ _ _ _ Hi) Er) as (Hr & x & Hx). unfold handle_prefetch_step. rewrite Er.
  rewrite (deref_here k None PQ_front c x) by done. cbn [cbind].
  destruct (readlike_ok PQ_front x c Hi) as (s & c1 & -> & Hi1 & [Hrd _ Ht Hck _ _ Hrdy HR _] & Hret & Hs); [done..|].
  cbn [cbind]. destruct s.
  2: { rewrite Hs. exists false, c. split; [done|]. split; [done|]. split; [done|]. simpl. split; [done|lia]. }
  destruct Hs as ((x' & Hx') & HM & Hw).
  destruct (pop_ok (PQ c1) x' (inv_PQ _ _ _ Hi1)) as (q & -> & Hq & Hqi); [by rewrite Hrdy|done|].
  cbn [cbind]. eexists true, _. split; [done|].
  split; [destruct Hi1 as [? ? ? ? ? ? ? ? ? ? ?]; by constructor|].
  split; [|split; [split; [exact Ht|exact Hck]|change (reads_available_this_cycle c1 - 1 = reads_available_this_cycle c - 1); by rewrite Hrd]].
  split; [exact Hret|]. intros w blk [Hwr|Hwm]; left; [left|right; by apply HM].
  change (waits_in (items (RQ c1)) w blk). by rewrite HR.
Qed.

(** Handling a write, up to its removal from the queue. *)
Lemma writelike_ok x c :
  inv k c -> here WQ_front c x ->
  let set := get_set k (address x) in
  let way := get_way k (address x) set c in
  exists success c',
  (if (way <? NUM_WAY k)%nat then
     let* fill_block := block_at (set * NUM_WAY k + way)%nat (block c) in
     let* c := update_replacement k (cpu x) set way (b_address fill_block) (ip x) (type x) true c in
     let c := c <| stats ::= fun s => s <| sim_hit ::= bump (cpu x) (type x) |> <| sim_access ::= bump (cpu x) (type x) |> |> in
     Ret (true, c <| block ::= alter (fun b => b <| b_dirty := true |>) (set * NUM_WAY k + way)%nat |>)
   else if (type x =? RFO) && bool_decide (to_return x = []) then readlike_miss k warmup_complete instr_lt instr_eq WQ_front c
   else let* r := choose_way k set x c in
        let '(way, c) := r in filllike_miss k warmup_complete uninit set way WQ_front c) = Ret (success, c') /\
  inv k c' /\ frame WQ_front c c' /\ returned c' = returned c /\
  (forall w blk, waits_in (MSHR c) w blk -> waits_in (MSHR c') w blk) /\
  (success = true -> exists x', here WQ_front c' x').
Proof.
  intros Hi Hx set way. pose proof (get_set_range (address x)) as Hset. fold set in Hset.
  destruct (Nat.ltb_spec way (NUM_WAY k)) as [Hway|Hway].
  - destruct (get_way_hit None (address x) set c Hi Hset Hway) as (b & Hb & Hv & _).
    rewrite (block_at_Some _ b) by done. cbn [cbind].
    edestruct (update_replacement_ok k (cpu x) set way (b_address b) (ip x) (type x) true c) as (c1 & -> & Hi1 & Hb1 & Ec1); [done..|].
    cbn [cbind]. destruct (same_but_lru_lookup _ _ _ _ Hb1 Hb) as (b1 & Hb1i & Eb1).
    assert (b_valid b1 = true) as Hv1 by (by rewrite Eb1).
    eexists true, _. split; [done|]. split.
    { apply (inv_alter_block k None _ _ b1); [by apply inv_stats|done|done|done|].
      intros _. apply (Forall_lookup_1 _ _ _ _ (inv_block _ _ _ Hi1) Hb1i). by left. }
    rewrite Ec1. split; [by constructor|]. split; [done|]. split; [done|]. by exists x.
  - destruct (_ && _).
    + destruct (readlike_miss_ok k warmup_complete instr_lt instr_eq Hk Hoff WQ_front c x Hi) as (s & c' & -> & Hi' & Hf & _ & _ & Hr & Hs); [done..|].
      exists s, c'. do 4 (split; [done|]). destruct s; [|by rewrite Hs]. destruct Hs as [Hx' Hm].
      split; [intros w blk; by apply missed_waits with x|done].
    + destruct (fill_way_ok set WQ_front x c Hi Hx Hset) as (way' & c1 & s & c' & b & -> & E & _ & Hi' & Hf & _ & _ & Hs).
      cbn [cbind]. rewrite E. exists s, c'. split; [done|]. split; [done|]. split; [done|]. destruct s.
      * destruct Hs as (x' & Hx' & _ & _ & HM & Hr & _). split; [done|]. rewrite HM by done. split; [done|]. by exists x'.
      * destruct Hs as (HM & Hr & _). by rewrite HM.
Qed.

Lemma write_turn : turn_ok writes_available_this_cycle (handle_writeback_step k warmup_complete instr_lt instr_eq uninit).
Proof.
  intros c Hi. destruct (has_ready (WQ c)) eqn:Er.
  2: { apply turn_stops; [|done]. unfold handle_writeback_step. by rewrite Er. }
  destruct (queue_ready (WQ c) (inv_WQ _ _ _ Hi) Er) as (Hr & x & Hx). unfold handle_writeback_step. rewrite Er.
  rewrite (deref_here k None WQ_front c x) by done. cbn [cbind].
  pose proof (writelike_ok x c Hi Hx) as W. cbv zeta in W |- *. destruct W as (s & c1 & -> & Hi1 & [_ Hwr Ht Hck _ [Hrdy _] _ HR _] & Hret & HM & Hs).
  cbn [cbind]. assert (forall c', RQ c' = RQ c1 -> MSHR c' = MSHR c1 -> returned c' = returned c1 -> keeps c c') as Hkeep.
  { intros c' ER EM Et. split; [by rewrite Et, Hret|]. intros w blk [Hwr'|Hwm]; left; [left|right; rewrite EM; by apply HM].
    by rewrite ER, HR. }
  destruct s.
  2: { exists false, c1. split; [done|]. split; [done|]. split; [by apply Hkeep|]. simpl. split; [done|lia]. }
  destruct (Hs eq_refl) as (x' & Hx').
  destruct (pop_ok (WQ c1) x' (inv_WQ _ _ _ Hi1)) as (q & -> & Hq & Hqi); [by rewrite Hrdy|done|].
  cbn [cbind]. eexists true, _. split; [done|].
  split; [destruct Hi1 as [? ? ? ? ? ? ? ? ? ? ?]; by constructor|]. split; [by apply Hkeep|].
  split; [split; [exact Ht|exact Hck]|]. change (writes_available_this_cycle c1 - 1 = writes_available_this_cycle c - 1). by rewrite Hwr.
Qed.

(** ** The loops and the cycle *)

(** A loop ends with no access left, or because the step stopped it. *)
Lemma while_available_ok available step n c :
  turn_ok available step -> inv k c -> available c <= Z.of_nat n ->
  exists c', while_available n available step c = Ret c' /\ inv k c' /\ keeps c c' /\ same_time c c' /\
  (available c' <= 0 \/ exists c0, keeps c c0 /\ step c0 = Ret (false, c')).
Proof.
  intros Hstep. revert c. induction n as [|n IH]; intros c Hi Hn; simpl.
  - exists c. split; [done|]. split; [done|]. split; [done|]. split; [done|]. left. lia.
  - destruct (Z.ltb_spec 0 (available c)) as [Hpos|]; [|exists c; by do 4 (split; [done|]); left].
    destruct (Hstep c Hi) as (go & c1 & E & Hi1 & Hk1 & Ht1 & Ha). rewrite E. cbn [cbind fst snd]. destruct go.
    + destruct (IH c1 Hi1) as (c2 & E2 & Hi2 & Hk2 & Ht2 & Hend); [simpl in Ha; lia|]. exists c2. split; [done|].
      split; [done|]. split; [by transitivity c1|]. split; [by transitivity c1|]. destruct Hend as [?|(c0 & Hc0 & ?)]; [by left|].
      right. exists c0. split; [by transitivity c1|done].
    + exists c1. split; [done|]. split; [done|]. split; [done|]. split; [done|]. right. by exists c.
Qed.

Lemma queue_ok_operate q : queue_ok q -> queue_ok (Delay.operate q) /\ items (Delay.operate q) = items q.
Proof.
  intros (Hw & Hs & Hv). destruct (operate_wf q Hw) as (Hw' & Hi & _ & Hz & Hd).
  split; [|done]. split; [done|]. split; [congruence|]. by rewrite Hi.
Qed.

(** A cache that a turn or a cycle has produced from [c]. *)
Definition follows c c' : Prop := inv k c' /\ keeps c c' /\ same_time c c'.

Lemma operate_writes_ok c :
  inv k c -> exists c', operate_writes k warmup_complete instr_lt instr_eq uninit c = Ret c' /\ follows c c'.
Proof.
  intros Hi. unfold operate_writes, handle_fill, handle_writeback. set (c0 := c <| writes_available_this_cycle := _ |>).
  assert (inv k c0) as Hi0 by (destruct Hi as [? ? ? ? ? ? ? ? ? ? ?]; by constructor).
  destruct (while_available_ok _ _ (Z.to_nat (writes_available_this_cycle c0)) c0 fill_turn Hi0) as (c1 & -> & Hi1 & Hk1 & Ht1 & _); [lia|].
  cbn [cbind].
  destruct (while_available_ok _ _ (Z.to_nat (writes_available_this_cycle c1)) c1 write_turn Hi1) as (c2 & -> & Hi2 & Hk2 & Ht2 & _); [lia|].
  cbn [cbind]. eexists. split; [done|]. destruct (queue_ok_operate _ (inv_WQ _ _ _ Hi2)) as [Hq _].
  split; [destruct Hi2 as [? ? ? ? ? ? ? ? ? ? ?]; by constructor|].
  split; [|change (same_time c c2); by transitivity c1].
  transitivity c0; [by apply keeps_same|]. transitivity c1; [done|]. transitivity c2; [done|]. by apply keeps_same.
Qed.

Lemma va_translate_none c : inv k c -> va_translate_prefetches k warmup_complete c = Ret c.
Proof.
  intros Hi. destruct (inv_VAPQ _ _ _ Hi) as [Hq Hi0]. unfold va_translate_prefetches.
  destruct (has_ready (VAPQ c)) eqn:E; [|done]. destruct (queue_ready _ Hq E) as (_ & x & Hx). by rewrite Hi0 in Hx.
Qed.

Lemma operate_reads_ok c :
  inv k c -> exists c', operate_reads k warmup_complete instr_lt instr_eq c = Ret c' /\ follows c c'.
Proof.
  intros Hi. unfold operate_reads, handle_read, handle_prefetch. set (c0 := c <| reads_available_this_cycle := _ |>).
  assert (inv k c0) as Hi0 by (destruct Hi as [? ? ? ? ? ? ? ? ? ? ?]; by constructor).
  destruct (while_available_ok _ _ (Z.to_nat (reads_available_this_cycle c0)) c0 read_turn Hi0) as (c1 & -> & Hi1 & Hk1 & Ht1 & _); [lia|].
  cbn [cbind]. rewrite va_translate_none by done. cbn [cbind].
  destruct (while_available_ok _ _ (Z.to_nat (reads_available_this_cycle c1)) c1 prefetch_turn Hi1) as (c2 & -> & Hi2 & Hk2 & Ht2 & _); [lia|].
  cbn [cbind]. eexists. split; [done|].
  destruct (queue_ok_operate _ (inv_RQ _ _ _ Hi2)) as [Hq1 Hq1i]. destruct (queue_ok_operate _ (inv_PQ _ _ _ Hi2)) as [Hq2 _].
  destruct (queue_ok_operate _ (proj1 (inv_VAPQ _ _ _ Hi2))) as [Hq3 Hq3i].
  split.
  { destruct Hi2 as [? ? ? ? ? ? ? [? Hv] ? ? ?]. constructor; try assumption.
    split; [done|]. change (items (Delay.operate (VAPQ c2)) = []). by rewrite Hq3i. }
  split; [|change (same_time c c2); by transitivity c1].
  transitivity c0; [by apply keeps_same|]. transitivity c1; [done|]. transitivity c2; [done|].
  split; [done|]. intros w blk Hw. left. unfold waits in *.
  change (waits_in (items (Delay.operate (RQ c2))) w blk \/ waits_in (MSHR c2) w blk). by rewrite Hq1i.
Qed.

Lemma operate_ok c :
  inv k c -> exists c', operate k warmup_complete instr_lt instr_eq uninit c = Ret c' /\ follows c c'.
Proof.
  intros Hi. unfold operate. destruct (operate_writes_ok c Hi) as (c1 & -> & Hi1 & Hk1 & Ht1). cbn [cbind].
  destruct (operate_reads_ok c1 Hi1) as (c2 & -> & Hi2 & Hk2 & Ht2). cbn [cbind].
  destruct (prefetcher_cycle_operate_ok k c2 Hi2) as (c3 & -> & Hi3 & Hf). exists c3. split; [done|]. split; [done|].
  destruct Hf as (_ & _ & HR & _ & HM & _ & _ & Ht & Hl & _ & Hr & _).
  split; [|transitivity c1; [done|]; transitivity c2; [done|]; split; [done|by rewrite Hl]]. transitivity c1; [done|]. transitivity c2; [done|]. by apply keeps_same.
Qed.

(** ** Answers from below

    Answers that were owed arrive; each finds its register. *)
Lemma deliver_ok ret_calls c :
  inv k c -> NoDup ((fun r : nat * PACKET => (r.1, block_of k r.2)) <$> ret_calls) ->
  (forall pkt, (self k, pkt) ∈ ret_calls -> awaits k (MSHR c) (block_of k pkt)) ->
  (forall l pkt, lower_level c = Some l -> (self k, pkt) ∈ ret_calls -> ~ ll_owes l (self k) (block_of k pkt)) ->
  exists c', deliver k warmup_complete ret_calls c = Ret c' /\ inv k c' /\ keeps c c' /\
  current_cycle c' = current_cycle c /\ lower_level c' = lower_level c.
Proof.
  revert c. induction ret_calls as [|[w pkt] l IH]; intros c Hi Hnd Haw Hno; cbn [deliver].
  { exists c. split; [done|]. split; [done|]. split; [done|]. done. }
  rewrite fmap_cons in Hnd. apply list.NoDup_cons in Hnd as [Hnin Hnd]. destruct (Nat.eqb_spec w (self k)) as [->|Hne].
  - destruct (Haw pkt) as (e & [i He]%list_elem_of_lookup & Hu & Hb); [by left|].
    assert (forall l0, lower_level c = Some l0 -> ~ ll_owes l0 (self k) (block_of k e)) as Hno'.
    { intros l0 Hl0. rewrite Hb. apply (Hno l0 pkt Hl0). by left. }
    destruct (return_data_ok k warmup_complete Hk i e pkt c Hi He Hu (eq_sym Hb) Hno') as (t & c1 & -> & Hi1 & Ec & _ & HM).
    cbn [cbind]. destruct (IH c1 Hi1 Hnd) as (c' & -> & Hi' & Hk' & Ht' & Hl').
    + intros pkt' Hin. destruct (Haw pkt') as (z & [j Hz]%list_elem_of_lookup & Huz & Hbz); [by right|].
      exists z. split; [|done]. rewrite HM. apply (list_elem_of_lookup_2 _ j). rewrite list_lookup_insert_ne; [done|].
      intros ->. rewrite He in Hz. injection Hz as <-. apply Hnin, list_elem_of_fmap. exists (self k, pkt'). split; [|done].
      simpl. congruence.
    + intros l0 pkt' Hl0 Hin. apply (Hno l0); [by rewrite Ec in Hl0|by right].
    + exists c'. split; [done|]. split; [done|]. split; [|rewrite Ht', Hl', Ec; done].
      transitivity c1; [|done]. split; [by rewrite Ec|]. intros w blk [Hw|(x & [j Hx]%list_elem_of_lookup & Hd & Hbx & Hwx)].
      { left. left. by rewrite Ec. }
      left. right. destruct (decide (j = i)) as [->|Hji].
      * rewrite He in Hx. injection Hx as <-. eexists. split; [rewrite HM; apply list_elem_of_insert; by eapply lookup_lt_Some|]. done.
      * exists x. split; [|done]. rewrite HM. apply (list_elem_of_lookup_2 _ j). by rewrite list_lookup_insert_ne.
  - cbn [cbind]. set (c1 := c <| returned ::= _ |>).
    assert (inv k c1) as Hi1 by (by apply inv_returned).
    destruct (IH c1 Hi1 Hnd) as (c' & E & Hi' & Hk' & Ht' & Hl').
    + intros pkt' Hin. apply Haw. by right.
    + intros l0 pkt' Hl0 Hin. apply (Hno l0 pkt' Hl0). by right.
    + exists c'. split; [done|]. split; [done|]. split; [|done]. transitivity c1; [|done].
      split; [by apply prefix_app_r|]. by intros w' blk; left.
Qed.

End Run.
End CacheRun.
