(* ===== verification/SimDram.v ===== *)
(** * ChampSim: the memory controller

    src/dram_controller.cc and inc/dram_controller.h: the channels with their
    queues and banks, and the controller as the lowest level of the hierarchy. *)

From S2P Require Import Prelude SimUtil SimQueue SimVmem SimRepl SimCache SimCacheSpec.
Import Util Mem Cache CacheSpec.
Local Open Scope c_scope.

(** The constants of champsim_constants.h for the memory, and the latencies that
    dram_controller.h computes from them, in cycles. *)
Class DramConfig := {
  DRAM_CHANNELS : Z;
  DRAM_RANKS : Z;
  DRAM_BANKS : Z;
  DRAM_ROWS : Z;
  DRAM_COLUMNS : Z;
  DRAM_WQ_SIZE : Z;
  DRAM_RQ_SIZE : Z;
  tRP : Z;
  tRCD : Z;
  tCAS : Z;
  DRAM_DBUS_TURN_AROUND_TIME : Z;
  DRAM_DBUS_RETURN_TIME : Z;
}.

Module Dram.

Section Dram.
Context `{Config} `{DramConfig}.
(** The order of iterators into the fetch buffer, what an uninitialised
    [pf_metadata] holds, and [all_warmup_complete]. *)
Context (instr_lt instr_eq : nat -> nat -> bool) (uninit : Z) (all_warmup_complete : Z).

Definition DRAM_WRITE_HIGH_WM : Z := Z.shiftr (DRAM_WQ_SIZE * 7) 3.
Definition DRAM_WRITE_LOW_WM : Z := Z.shiftr (DRAM_WQ_SIZE * 6) 3.

(** ** Data *)

(** An iterator into one of the queues of a channel. *)
Inductive pkt_it := singular | in_WQ (i : nat) | in_RQ (i : nat).

#[global] Instance pkt_it_eq_dec : EqDecision pkt_it.
Proof. solve_decision. Defined.

Record BANK_REQUEST := mkBANK {
  br_valid : bool;
  row_buffer_hit : bool;
  open_row : Z;
  br_event_cycle : Z;
  br_pkt : pkt_it;
}.

#[global] Instance eta_BANK : Settable BANK_REQUEST :=
  mkEta _ (fun x => mkBANK (br_valid x) (row_buffer_hit x) (open_row x) (br_event_cycle x) (br_pkt x)).

#[global] Instance is_valid_BANK : IsValid BANK_REQUEST := br_valid.
#[global] Instance has_event_cycle_BANK : HasEventCycle BANK_REQUEST := br_event_cycle.

Definition UINT32_MAX : Z := 2 ^ 32 - 1.
Definition new_BANK : BANK_REQUEST := mkBANK false false UINT32_MAX 0 singular.

(** [active_request] is a position in [bank_request], or its end. *)
Record DRAM_CHANNEL := mkCHANNEL {
  ch_WQ : list PACKET;
  ch_RQ : list PACKET;
  bank_request : list BANK_REQUEST;
  active_request : option nat;
  dbus_cycle_available : Z;
  dbus_cycle_congested : Z;
  dbus_count_congested : Z;
  write_mode : bool;
  WQ_ROW_BUFFER_HIT : Z;
  WQ_ROW_BUFFER_MISS : Z;
  RQ_ROW_BUFFER_HIT : Z;
  RQ_ROW_BUFFER_MISS : Z;
  ch_WQ_FULL : Z;
}.

#[global] Instance eta_CHANNEL : Settable DRAM_CHANNEL :=
  mkEta _ (fun x => mkCHANNEL (ch_WQ x) (ch_RQ x) (bank_request x) (active_request x) (dbus_cycle_available x)
    (dbus_cycle_congested x) (dbus_count_congested x) (write_mode x) (WQ_ROW_BUFFER_HIT x) (WQ_ROW_BUFFER_MISS x)
    (RQ_ROW_BUFFER_HIT x) (RQ_ROW_BUFFER_MISS x) (ch_WQ_FULL x)).

Definition new_CHANNEL : DRAM_CHANNEL :=
  mkCHANNEL (replicate (Z.to_nat DRAM_WQ_SIZE) (new_PACKET uninit)) (replicate (Z.to_nat DRAM_RQ_SIZE) (new_PACKET uninit))
    (replicate (Z.to_nat (DRAM_RANKS * DRAM_BANKS)) new_BANK) None 0 0 0 false 0 0 0 0 0.

Record MEMORY_CONTROLLER := mkMC {
  channels : list DRAM_CHANNEL;
  mc_current_cycle : Z;
  mc_returned : calls;
}.

#[global] Instance eta_MC : Settable MEMORY_CONTROLLER :=
  mkEta _ (fun x => mkMC (channels x) (mc_current_cycle x) (mc_returned x)).

Definition new_MC : MEMORY_CONTROLLER := mkMC (replicate (Z.to_nat DRAM_CHANNELS) new_CHANNEL) 0 [].

(** ** Addresses

    Row, rank, column, bank and channel, from the top; then the offset. *)
Definition LOG2_BLOCK_SIZE : Z := lg2 BLOCK_SIZE.

Definition dram_get_channel (address : Z) : Z :=
  let shift := LOG2_BLOCK_SIZE in u32 (Z.land (Z.shiftr address shift) (bitmask (lg2 DRAM_CHANNELS) 0)).
Definition dram_get_bank (address : Z) : Z :=
  let shift := lg2 DRAM_CHANNELS + LOG2_BLOCK_SIZE in
  u32 (Z.land (Z.shiftr address shift) (bitmask (lg2 DRAM_BANKS) 0)).
Definition dram_get_column (address : Z) : Z :=
  let shift := lg2 DRAM_BANKS + lg2 DRAM_CHANNELS + LOG2_BLOCK_SIZE in
  u32 (Z.land (Z.shiftr address shift) (bitmask (lg2 DRAM_COLUMNS) 0)).
Definition dram_get_rank (address : Z) : Z :=
  let shift := lg2 DRAM_BANKS + lg2 DRAM_COLUMNS + lg2 DRAM_CHANNELS + LOG2_BLOCK_SIZE in
  u32 (Z.land (Z.shiftr address shift) (bitmask (lg2 DRAM_RANKS) 0)).
Definition dram_get_row (address : Z) : Z :=
  let shift := lg2 DRAM_RANKS + lg2 DRAM_BANKS + lg2 DRAM_COLUMNS + lg2 DRAM_CHANNELS + LOG2_BLOCK_SIZE in
  u32 (Z.land (Z.shiftr address shift) (bitmask (lg2 DRAM_ROWS) 0)).

(** ** Iterators *)

Definition at_it (it : pkt_it) (ch : DRAM_CHANNEL) : cres PACKET :=
  match it with
  | singular => Abort "singular iterator"
  | in_WQ i => match ch_WQ ch !! i with Some x => Ret x | None => Abort "end iterator" end
  | in_RQ i => match ch_RQ ch !! i with Some x => Ret x | None => Abort "end iterator" end
  end.

Definition modify_it (f : PACKET -> PACKET) (it : pkt_it) (ch : DRAM_CHANNEL) : cres DRAM_CHANNEL :=
  let* _ := at_it it ch in
  Ret match it with
      | singular => ch
      | in_WQ i => ch <| ch_WQ ::= alter f i |>
      | in_RQ i => ch <| ch_RQ ::= alter f i |>
      end.

Definition bank_at (i : nat) (ch : DRAM_CHANNEL) : cres BANK_REQUEST :=
  match bank_request ch !! i with Some b => Ret b | None => Abort "bank_request out of range" end.

Definition modify_bank (f : BANK_REQUEST -> BANK_REQUEST) (i : nat) (ch : DRAM_CHANNEL) : DRAM_CHANNEL :=
  ch <| bank_request ::= alter f i |>.

(** ** A cycle of a channel *)

(** Finish the request on the bus. *)
Definition finish_request (current_cycle : Z) (ch : DRAM_CHANNEL) : cres (DRAM_CHANNEL * calls) :=
  match active_request ch with
  | None => Ret (ch, [])
  | Some i =>
    let* b := bank_at i ch in
    if br_event_cycle b <=? current_cycle then
      let* pkt := at_it (br_pkt b) ch in
      let ch := modify_bank (fun b => b <| br_valid := false |>) i ch in
      let* ch := modify_it (fun _ => new_PACKET uninit) (br_pkt b) ch in
      Ret (ch <| active_request := None |>, return_to_all pkt)
    else Ret (ch, [])
  end.

(** Take back a scheduled request, unless it is on the bus. *)
Definition reset_bank (current_cycle : Z) (i : nat) (ch : DRAM_CHANNEL) : cres DRAM_CHANNEL :=
  let* b := bank_at i ch in
  if negb (bool_decide (active_request ch = Some i)) && br_valid b then
    let ch := modify_bank (fun b => (if br_event_cycle b <? u64 (current_cycle + tCAS) then b <| open_row := UINT32_MAX |> else b)
                                      <| br_valid := false |>) i ch in
    modify_it (fun x => x <| scheduled := false |> <| event_cycle := current_cycle |>) (br_pkt b) ch
  else Ret ch.

Fixpoint reset_banks (current_cycle : Z) (l : list nat) (ch : DRAM_CHANNEL) : cres DRAM_CHANNEL :=
  match l with
  | [] => Ret ch
  | i :: l => let* ch := reset_bank current_cycle i ch in reset_banks current_cycle l ch
  end.

(** Are the queues unbalanced? *)
Definition wants_mode_change (ch : DRAM_CHANNEL) : bool :=
  let wq_occu := count_if is_valid (ch_WQ ch) in
  let rq_occu := count_if is_valid (ch_RQ ch) in
  (negb (write_mode ch) && ((DRAM_WRITE_HIGH_WM <=? wq_occu) || ((rq_occu =? 0) && (0 <? wq_occu))))
  || (write_mode ch && ((wq_occu =? 0) || ((0 <? rq_occu) && (wq_occu <? DRAM_WRITE_LOW_WM)))).

Definition change_mode (current_cycle : Z) (ch : DRAM_CHANNEL) : cres DRAM_CHANNEL :=
  if wants_mode_change ch then
    let* ch := reset_banks current_cycle (seq 0 (length (bank_request ch))) ch in
    let* available :=
      match active_request ch with
      | Some i => let* b := bank_at i ch in Ret (u64 (br_event_cycle b + DRAM_DBUS_TURN_AROUND_TIME))
      | None => Ret (u64 (current_cycle + DRAM_DBUS_TURN_AROUND_TIME))
      end in
    Ret (ch <| dbus_cycle_available := available |> <| write_mode ::= negb |>)
  else Ret ch.

(** Put a request on the bus, if the bus is free. *)
Definition put_on_bus (current_cycle : Z) (ch : DRAM_CHANNEL) : cres DRAM_CHANNEL :=
  let next := min_element min_event_cycle (bank_request ch) in
  let* b := bank_at next ch in
  if br_valid b && (br_event_cycle b <=? current_cycle) then
    if bool_decide (active_request ch = None) && (dbus_cycle_available ch <=? current_cycle) then
      let ch := modify_bank (fun b => b <| br_event_cycle := u64 (current_cycle + DRAM_DBUS_RETURN_TIME) |>) next
                  (ch <| active_request := Some next |>) in
      Ret (if row_buffer_hit b then
             if write_mode ch then ch <| WQ_ROW_BUFFER_HIT ::= fun n => u32 (n + 1) |>
             else ch <| RQ_ROW_BUFFER_HIT ::= fun n => u32 (n + 1) |>
           else if write_mode ch then ch <| WQ_ROW_BUFFER_MISS ::= fun n => u32 (n + 1) |>
           else ch <| RQ_ROW_BUFFER_MISS ::= fun n => u32 (n + 1) |>)
    else
      let* until := match active_request ch with
                    | Some i => let* b := bank_at i ch in Ret (br_event_cycle b)
                    | None => Ret (dbus_cycle_available ch)
                    end in
      Ret (ch <| dbus_cycle_congested ::= fun n => u64 (n + u64 (until - current_cycle)) |>
              <| dbus_count_congested ::= fun n => u64 (n + 1) |>)
  else Ret ch.

Definition is_unscheduled (x : PACKET) : bool := negb (scheduled x).
Definition next_schedule : PACKET -> PACKET -> bool := invalid_is_maximal is_unscheduled min_event_cycle.

(** The bank of an address in [bank_request]. *)
Definition op_idx (address : Z) : nat := Z.to_nat (dram_get_rank address * DRAM_BANKS + dram_get_bank address).

(** Hand a queued request to its bank. *)
Definition schedule (current_cycle : Z) (ch : DRAM_CHANNEL) : cres DRAM_CHANNEL :=
  let it := if write_mode ch then in_WQ (min_element next_schedule (ch_WQ ch))
            else in_RQ (min_element next_schedule (ch_RQ ch)) in
  let* x := at_it it ch in
  if is_valid x && (event_cycle x <=? current_cycle) then
    let op_row := dram_get_row (address x) in
    let i := op_idx (address x) in
    let* b := bank_at i ch in
    if br_valid b then Ret ch
    else
      let hit := open_row b =? op_row in
      let ch := modify_bank (fun _ => mkBANK true hit op_row (u64 (current_cycle + tCAS + if hit then 0 else tRP + tRCD)) it) i ch in
      modify_it (fun x => x <| scheduled := true |> <| event_cycle := UINT64_MAX |>) it ch
  else Ret ch.

Definition operate_channel (current_cycle : Z) (ch : DRAM_CHANNEL) : cres (DRAM_CHANNEL * calls) :=
  let* r := finish_request current_cycle ch in
  let '(ch, ret_calls) := r in
  let* ch := change_mode current_cycle ch in
  let* ch := put_on_bus current_cycle ch in
  let* ch := schedule current_cycle ch in
  Ret (ch, ret_calls).

Fixpoint operate_channels (current_cycle : Z) (l : list DRAM_CHANNEL) : cres (list DRAM_CHANNEL * calls) :=
  match l with
  | [] => Ret ([], [])
  | ch :: l =>
    let* r := operate_channel current_cycle ch in
    let* rest := operate_channels current_cycle l in
    Ret (r.1 :: rest.1, r.2 ++ rest.2)
  end.

Definition operate (m : MEMORY_CONTROLLER) : cres MEMORY_CONTROLLER :=
  let* r := operate_channels (mc_current_cycle m) (channels m) in
  Ret (m <| channels := r.1 |> <| mc_returned ::= fun l => l ++ r.2 |>).

(** ** Requests *)

Definition channel_at (address : Z) (m : MEMORY_CONTROLLER) : cres DRAM_CHANNEL :=
  match channels m !! Z.to_nat (dram_get_channel address) with
  | Some ch => Ret ch
  | None => Abort "channels out of range"
  end.

Definition put_channel (address : Z) (ch : DRAM_CHANNEL) (m : MEMORY_CONTROLLER) : MEMORY_CONTROLLER :=
  m <| channels ::= <[Z.to_nat (dram_get_channel address) := ch]> |>.

Definition get_occupancy (queue_type address : Z) (m : MEMORY_CONTROLLER) : cres Z :=
  let* ch := channel_at address m in
  Ret (if (queue_type =? 1) || (queue_type =? 3) then count_if is_valid (ch_RQ ch)
       else if queue_type =? 2 then count_if is_valid (ch_WQ ch) else 0).

Definition get_size (queue_type address : Z) (m : MEMORY_CONTROLLER) : cres Z :=
  let* ch := channel_at address m in
  Ret (if (queue_type =? 1) || (queue_type =? 3) then Z.of_nat (length (ch_RQ ch))
       else if queue_type =? 2 then Z.of_nat (length (ch_WQ ch)) else 0).

Definition add_rq (packet : PACKET) (m : MEMORY_CONTROLLER) : cres (Z * PACKET * calls * MEMORY_CONTROLLER) :=
  if all_warmup_complete <? NUM_CPUS then Ret (-1, packet, return_to_all packet, m)
  else
    let* ch := channel_at (address packet) m in
    match ch_WQ ch !! find_if (eq_addr (address packet) LOG2_BLOCK_SIZE) (ch_WQ ch) with
    | Some w =>
      let packet := packet <| data := data w |> in Ret (-1, packet, return_to_all packet, m)
    | None =>
      let i := find_if (eq_addr (address packet) LOG2_BLOCK_SIZE) (ch_RQ ch) in
      if (i <? length (ch_RQ ch))%nat then
        Ret (Z.of_nat i, packet, [],
             put_channel (address packet) (ch <| ch_RQ ::= alter (fun e => merge_deps instr_lt instr_eq e packet) i |>) m)
      else
        let i := find_if_not is_valid (ch_RQ ch) in
        if (i <? length (ch_RQ ch))%nat then
          let m := put_channel (address packet)
                     (ch <| ch_RQ ::= <[i := packet <| event_cycle := mc_current_cycle m |>]> |>) m in
          let* n := get_occupancy 1 (address packet) m in
          Ret (n, packet, [], m)
        else Ret (0, packet, [], m)
    end.

Definition add_wq (packet : PACKET) (m : MEMORY_CONTROLLER) : cres (Z * PACKET * calls * MEMORY_CONTROLLER) :=
  if all_warmup_complete <? NUM_CPUS then Ret (-1, packet, [], m)
  else
    let* ch := channel_at (address packet) m in
    if (find_if (eq_addr (address packet) LOG2_BLOCK_SIZE) (ch_WQ ch) <? length (ch_WQ ch))%nat then Ret (0, packet, [], m)
    else
      let i := find_if_not is_valid (ch_WQ ch) in
      if (i <? length (ch_WQ ch))%nat then
        let m := put_channel (address packet)
                   (ch <| ch_WQ ::= <[i := packet <| event_cycle := mc_current_cycle m |>]> |>) m in
        let* n := get_occupancy 2 (address packet) m in
        Ret (n, packet, [], m)
      else Ret (-2, packet, [], put_channel (address packet) (ch <| ch_WQ_FULL ::= fun n => u32 (n + 1) |>) m).

Definition add_pq (packet : PACKET) (m : MEMORY_CONTROLLER) : cres (Z * PACKET * calls * MEMORY_CONTROLLER) := add_rq packet m.

(** The controller as the level below a cache.  Its [fill_level] is the greatest
    [unsigned]. *)
#[global] Instance dram_lower_level : LowerLevel MEMORY_CONTROLLER := {|
  ll_fill_level := fun _ => UINT32_MAX;
  ll_add_rq := add_rq;
  ll_add_wq := add_wq;
  ll_add_pq := add_pq;
  ll_get_occupancy := get_occupancy;
  ll_get_size := get_size;
|}.

End Dram.
End Dram.
