(* ===== verification/SimDramSpec.v ===== *)
(** * ChampSim: what the memory controller guarantees

    How addresses are spread over the memory, that banks and queues agree, that
    no read is forgotten, and that the controller meets the contract of a level
    below a cache. *)

From S2P Require Import Prelude SimUtil SimQueue SimVmem SimRepl SimCache SimCacheSpec SimDram.
Import Util Mem Cache CacheSpec Dram.
Local Open Scope c_scope.

Module DramSpec.

(** ** Selection

    Where a comparator prefers elements that qualify, and among those the ones
    with the smaller key, [min_element] finds a qualifying element with the
    smallest key. *)
Section Selection.
Context {A : Type} (cmp : A -> A -> bool) (ok : A -> bool) (key : A -> Z).
Hypothesis Hok : forall x best, ok best = true -> cmp x best = ok x && (key x <? key best).
Hypothesis Hno : forall x best, ok best = false -> ok x = true -> cmp x best = true.

Lemma min_element_from_ok best k l0 l :
  l0 !! k = Some best ->
  (forall y, y ∈ l0 -> ok y = true -> ok best = true /\ key best <= key y) ->
  exists x, (l0 ++ l) !! max_element_from (fun best x => cmp x best) best k (length l0) l = Some x /\
  forall y, y ∈ l0 ++ l -> ok y = true -> ok x = true /\ key x <= key y.
Proof using Hok Hno.
  revert best k l0. induction l as [|x l IH]; intros best k l0 Hk Hbest; simpl.
  { rewrite app_nil_r. eauto. }
  replace (S (length l0)) with (length (l0 ++ [x])) by (rewrite length_app; simpl; lia).
  replace (l0 ++ x :: l) with ((l0 ++ [x]) ++ l) by (by rewrite <- (assoc_L (++))).
  destruct (cmp x best) eqn:E.
  - apply IH; [by apply list_lookup_middle|]. intros y [Hy| ->%list_elem_of_singleton]%elem_of_app Hv; [|done].
    destruct (Hbest y Hy Hv) as [Hb Hle]. rewrite (Hok _ _ Hb) in E. apply andb_true_iff in E as [? Hlt%Z.ltb_lt]. split; [done|lia].
  - apply IH; [by apply lookup_app_l_Some|]. intros y [Hy| ->%list_elem_of_singleton]%elem_of_app Hv; [by apply Hbest|].
    destruct (ok best) eqn:Eb; [|by rewrite (Hno _ _ Eb Hv) in E].
    rewrite (Hok _ _ Eb), Hv in E. apply Z.ltb_ge in E. done.
Qed.

Lemma min_element_ok l :
  l <> [] -> exists x, l !! min_element cmp l = Some x /\ forall y, y ∈ l -> ok y = true -> ok x = true /\ key x <= key y.
Proof using Hok Hno.
  destruct l as [|x l]; [done|]. intros _. apply (min_element_from_ok x 0 [x] l); [done|].
  intros y ->%list_elem_of_singleton. done.
Qed.
End Selection.

(** The bank that is due first, and the oldest request that is not scheduled. *)
Lemma min_event_cycle_spec (l : list BANK_REQUEST) :
  l <> [] -> exists x, l !! min_element min_event_cycle l = Some x /\
  forall y, y ∈ l -> br_valid y = true -> br_valid x = true /\ br_event_cycle x <= br_event_cycle y.
Proof.
  apply min_element_ok; unfold min_event_cycle, invalid_is_maximal, is_valid, is_valid_BANK, cmp_event_cycle, event_cycle_of,
    has_event_cycle_BANK; intros x best Hb; rewrite Hb; [done|]. done.
Qed.

Lemma next_schedule_spec (l : list PACKET) :
  l <> [] -> exists x, l !! min_element next_schedule l = Some x /\
  forall y, y ∈ l -> is_valid y && negb (scheduled y) = true ->
    is_valid x && negb (scheduled x) = true /\ event_cycle x <= event_cycle y.
Proof.
  apply (min_element_ok _ (fun x => is_valid x && negb (scheduled x)) event_cycle);
    unfold next_schedule, min_event_cycle, invalid_is_maximal, is_unscheduled, cmp_event_cycle, event_cycle_of, has_event_cycle_PACKET.
  - intros x best [Hb1 Hb2]%andb_true_iff. rewrite Hb1, Hb2. simpl. destruct (is_valid x), (scheduled x); done.
  - intros x best Hb [Hx1 Hx2]%andb_true_iff. rewrite Hx1, Hx2. destruct (is_valid best), (scheduled best); done.
Qed.

(** ** Addresses

    The sizes are powers of two; the exponents are named. *)
Class DramOk `{Config} `{DramConfig} := {
  l_block : Z; l_channels : Z; l_banks : Z; l_columns : Z; l_ranks : Z; l_rows : Z;
  BLOCK_SIZE_eq : BLOCK_SIZE = 2 ^ l_block;
  DRAM_CHANNELS_eq : DRAM_CHANNELS = 2 ^ l_channels;
  DRAM_BANKS_eq : DRAM_BANKS = 2 ^ l_banks;
  DRAM_COLUMNS_eq : DRAM_COLUMNS = 2 ^ l_columns;
  DRAM_RANKS_eq : DRAM_RANKS = 2 ^ l_ranks;
  DRAM_ROWS_eq : DRAM_ROWS = 2 ^ l_rows;
  l_range : 0 <= l_block <= 32 /\ 0 <= l_channels <= 32 /\ 0 <= l_banks <= 32 /\ 0 <= l_columns <= 32 /\
            0 <= l_ranks <= 32 /\ 0 <= l_rows <= 32;
  queue_sizes : 0 < DRAM_WQ_SIZE /\ 0 < DRAM_RQ_SIZE;
}.

Section Addresses.
Context `{DramOk}.

(** The number of a block from its place: the layout that dram_controller.cc
    gives in a comment. *)
Definition place (row rank column bank channel : Z) : Z :=
  channel + DRAM_CHANNELS * (bank + DRAM_BANKS * (column + DRAM_COLUMNS * (rank + DRAM_RANKS * row))).

Lemma field_eq a s l : 0 <= s -> 0 <= l <= 32 ->
  u32 (Z.land (Z.shiftr a s) (bitmask (lg2 (2 ^ l)) 0)) = (a / 2 ^ s) mod 2 ^ l.
Proof.
  intros Hs Hl. rewrite lg2_pow2, land_bitmask, Z.shiftr_div_pow2 by lia.
  pose proof (Z.mod_pos_bound (a / 2 ^ s) (2 ^ l) ltac:(lia)).
  assert (2 ^ l <= 2 ^ 32) by (apply Z.pow_le_mono_r; lia). apply u32_small. lia.
Qed.

Lemma div_pow_add a s t : 0 <= s -> 0 <= t -> a / 2 ^ (s + t) = a / 2 ^ t / 2 ^ s.
Proof. intros Hs Ht. rewrite Z.div_div by lia. f_equal. rewrite <- Z.pow_add_r by lia. f_equal. lia. Qed.

Lemma lg2_block : LOG2_BLOCK_SIZE = l_block.
Proof. unfold LOG2_BLOCK_SIZE. pose proof l_range. rewrite BLOCK_SIZE_eq. apply lg2_pow2. lia. Qed.

(** The fields of an address, from the bottom. *)
Lemma fields a :
  dram_get_channel a = (a / BLOCK_SIZE) mod DRAM_CHANNELS /\
  dram_get_bank a = (a / BLOCK_SIZE / DRAM_CHANNELS) mod DRAM_BANKS /\
  dram_get_column a = (a / BLOCK_SIZE / DRAM_CHANNELS / DRAM_BANKS) mod DRAM_COLUMNS /\
  dram_get_rank a = (a / BLOCK_SIZE / DRAM_CHANNELS / DRAM_BANKS / DRAM_COLUMNS) mod DRAM_RANKS /\
  dram_get_row a = (a / BLOCK_SIZE / DRAM_CHANNELS / DRAM_BANKS / DRAM_COLUMNS / DRAM_RANKS) mod DRAM_ROWS.
Proof.
  pose proof l_range as (? & ? & ? & ? & ? & ?).
  unfold dram_get_channel, dram_get_bank, dram_get_column, dram_get_rank, dram_get_row. rewrite lg2_block.
  rewrite BLOCK_SIZE_eq, DRAM_CHANNELS_eq, DRAM_BANKS_eq, DRAM_COLUMNS_eq, DRAM_RANKS_eq, DRAM_ROWS_eq.
  cbv zeta. rewrite !field_eq, !lg2_pow2 by (rewrite ?lg2_pow2; lia).
  rewrite <- !div_pow_add by lia.
  repeat split; do 3 f_equal; lia.
Qed.

Lemma sizes_pos : 0 < BLOCK_SIZE /\ 0 < DRAM_CHANNELS /\ 0 < DRAM_BANKS /\ 0 < DRAM_COLUMNS /\ 0 < DRAM_RANKS /\ 0 < DRAM_ROWS.
Proof.
  pose proof l_range. rewrite BLOCK_SIZE_eq, DRAM_CHANNELS_eq, DRAM_BANKS_eq, DRAM_COLUMNS_eq, DRAM_RANKS_eq, DRAM_ROWS_eq.
  repeat split; apply Z.pow_pos_nonneg; lia.
Qed.

Lemma digit d b r : 0 <= d < b -> (d + b * r) mod b = d /\ (d + b * r) / b = r.
Proof.
  intros Hd. rewrite (Z.mul_comm b r), Z.mod_add, Z.div_add, Z.mod_small, Z.div_small by lia. done.
Qed.

Lemma undigit n b : 0 < b -> n mod b + b * (n / b) = n.
Proof. intros Hb. pose proof (Z.div_mod n b). lia. Qed.

Lemma div_range n b m : 0 < b -> 0 <= n < b * m -> 0 <= n / b < m.
Proof. intros Hb Hn. split; [apply Z.div_pos; lia|apply Z.div_lt_upper_bound; lia]. Qed.

End Addresses.

(** ** The invariant *)

Section Inv.
Context `{DramOk} (uninit : Z).
Implicit Types (ch : DRAM_CHANNEL) (it : pkt_it) (x : PACKET).

(** A slot of a queue: it is free, or holds a request that has been there, or
    has been handed to a bank.  Nobody waits for a write, and nobody is named
    twice in a read. *)
Definition packet_ok (now : Z) it x : Prop :=
  (address x = 0 -> scheduled x = false) /\
  (address x <> 0 -> scheduled x = false -> event_cycle x <= now) /\
  (scheduled x = true -> event_cycle x = UINT64_MAX) /\
  (if it is in_WQ _ then to_return x = [] else increasing (to_return x)).

(** The banks that are busy and the requests that are scheduled correspond, each
    request to the bank of its address. *)
Record channel_ok (now : Z) ch : Prop := mkChannelOk {
  ck_banks_len : length (bank_request ch) = Z.to_nat (DRAM_RANKS * DRAM_BANKS);
  ck_WQ_len : length (ch_WQ ch) = Z.to_nat DRAM_WQ_SIZE;
  ck_RQ_len : length (ch_RQ ch) = Z.to_nat DRAM_RQ_SIZE;
  ck_packets : forall it x, at_it it ch = Ret x -> packet_ok now it x;
  ck_busy : forall i b, bank_request ch !! i = Some b -> br_valid b = true ->
    exists x, at_it (br_pkt b) ch = Ret x /\ scheduled x = true /\ op_idx (address x) = i;
  ck_scheduled : forall it x, at_it it ch = Ret x -> scheduled x = true ->
    exists b, bank_request ch !! op_idx (address x) = Some b /\ br_valid b = true /\ br_pkt b = it;
  ck_active : forall i, active_request ch = Some i -> exists b, bank_request ch !! i = Some b /\ br_valid b = true;
}.

Lemma op_idx_range a : (op_idx a < Z.to_nat (DRAM_RANKS * DRAM_BANKS))%nat.
Proof.
  unfold op_idx. destruct sizes_pos as (Hb & Hc & Hk & Hco & Hra & Hro).
  destruct (fields a) as (_ & -> & _ & -> & _).
  match goal with |- context [Z.to_nat (?r mod _ * _ + ?b mod _)] =>
    pose proof (Z.mod_pos_bound r DRAM_RANKS Hra); pose proof (Z.mod_pos_bound b DRAM_BANKS Hk) end. nia.
Qed.

(** *** Changing a request *)

Lemma at_RQ i x ch : at_it (in_RQ i) ch = Ret x <-> ch_RQ ch !! i = Some x.
Proof. simpl. destruct (ch_RQ ch !! i); split; congruence. Qed.

(** What a change of a request leaves alone. *)
Definition same_rest ch ch' : Prop :=
  bank_request ch' = bank_request ch /\ active_request ch' = active_request ch /\ write_mode ch' = write_mode ch /\
  length (ch_WQ ch') = length (ch_WQ ch) /\ length (ch_RQ ch') = length (ch_RQ ch).

Lemma modify_it_spec f it ch x :
  at_it it ch = Ret x ->
  exists ch', modify_it f it ch = Ret ch' /\ same_rest ch ch' /\
  forall it', at_it it' ch' = if decide (it' = it) then Ret (f x) else at_it it' ch.
Proof.
  intros Hx. unfold modify_it. rewrite Hx. cbn [cbind]. eexists. split; [done|]. destruct it as [|i|i]; [done|..]; simpl in Hx.
  - destruct (ch_WQ ch !! i) eqn:E; [|done]. injection Hx as ->.
    split; [by repeat split; simpl; rewrite ?length_alter|]. intros [|j|j]; simpl; [done| |done].
    destruct (decide (j = i)) as [->|Hne]; [rewrite list_lookup_alter_eq, E; by rewrite decide_True|].
    rewrite list_lookup_alter_ne by done. rewrite decide_False; congruence.
  - destruct (ch_RQ ch !! i) eqn:E; [|done]. injection Hx as ->.
    split; [by repeat split; simpl; rewrite ?length_alter|]. intros [|j|j]; simpl; [done|done|].
    destruct (decide (j = i)) as [->|Hne]; [rewrite list_lookup_alter_eq, E; by rewrite decide_True|].
    rewrite list_lookup_alter_ne by done. rewrite decide_False; congruence.
Qed.

Lemma at_it_bank f i ch it : at_it it (modify_bank f i ch) = at_it it ch.
Proof. by destruct it. Qed.

Lemma packet_valid now it x : packet_ok now it x -> scheduled x = true -> address x <> 0.
Proof. intros (Hfree & _) Hs Ha. by rewrite (Hfree Ha) in Hs. Qed.

(** *** Taking a request from its bank *)

(** Every request of [ch] is still in [ch'], if it is not at [it]. *)
Definition same_requests (it : option pkt_it) ch ch' : Prop :=
  forall it' x, at_it it' ch = Ret x -> it <> Some it' ->
  exists y, at_it it' ch' = Ret y /\ address y = address x /\ to_return y = to_return x.

Lemma release now ch i b x f g a :
  channel_ok now ch -> bank_request ch !! i = Some b -> br_valid b = true -> at_it (br_pkt b) ch = Ret x ->
  br_valid (g b) = false -> packet_ok now (br_pkt b) (f x) -> scheduled (f x) = false -> a <> Some i ->
  (a = active_request ch \/ a = None) ->
  exists ch', modify_it f (br_pkt b) (modify_bank g i ch) = Ret ch' /\
  channel_ok now (ch' <| active_request := a |>) /\ same_rest (modify_bank g i ch) ch' /\
  (forall it', at_it it' ch' = if decide (it' = br_pkt b) then Ret (f x) else at_it it' ch).
Proof.
  intros [Hl1 Hl2 Hl3 Hp Hbusy Hsch Hact] Hb Hv Hx Hg Hfp Hfs Ha Haa.
  destruct (Hbusy i b Hb Hv) as (x0 & Hx0 & Hsx & Hix). rewrite Hx in Hx0. injection Hx0 as <-.
  destruct (modify_it_spec f (br_pkt b) (modify_bank g i ch) x) as (ch' & E & Hr & Hat); [by rewrite at_it_bank|].
  assert (forall it', at_it it' ch' = if decide (it' = br_pkt b) then Ret (f x) else at_it it' ch) as Hat'.
  { intros it'. rewrite Hat. destruct (decide _); [done|]. apply at_it_bank. }
  exists ch'. split; [done|]. split; [|done]. destruct Hr as (Hrb & _ & _ & Hrw & Hrr).
  assert (bank_request ch' = alter g i (bank_request ch)) as Eb by (by rewrite Hrb).
  assert (forall it, at_it it (ch' <| active_request := a |>) = at_it it ch') as Hact' by (by intros []).
  constructor.
  - change (length (bank_request ch') = Z.to_nat (DRAM_RANKS * DRAM_BANKS)). by rewrite Eb, length_alter.
  - change (length (ch_WQ ch') = Z.to_nat DRAM_WQ_SIZE). by rewrite Hrw.
  - change (length (ch_RQ ch') = Z.to_nat DRAM_RQ_SIZE). by rewrite Hrr.
  - intros it y. rewrite Hact', Hat'. destruct (decide (it = br_pkt b)) as [->|]; [by intros [= <-]|]. apply Hp.
  - intros j c. change (bank_request (ch' <| active_request := a |>)) with (bank_request ch'). rewrite Eb.
    destruct (decide (j = i)) as [->|Hji]; [rewrite list_lookup_alter_eq, Hb; intros [= <-]; by rewrite Hg|].
    rewrite list_lookup_alter_ne by done. intros Hj Hcv. destruct (Hbusy j c Hj Hcv) as (y & Hy & Hsy & Hiy).
    exists y. rewrite Hact', Hat'. rewrite decide_False; [done|]. intros E'. rewrite E', Hx in Hy. injection Hy as <-. congruence.
  - intros it y. rewrite Hact', Hat'. destruct (decide _) as [|Hne]; [intros [= <-]; by rewrite Hfs|].
    intros Hy Hsy. destruct (Hsch it y Hy Hsy) as (c & Hc & Hcv & Hcp). exists c. split; [|done].
    change (bank_request ch' !! op_idx (address y) = Some c). rewrite Eb, list_lookup_alter_ne; [done|].
    intros E'. rewrite E' in Hb. congruence.
  - intros j Hj. change (a = Some j) in Hj. change (exists b, bank_request ch' !! j = Some b /\ br_valid b = true).
    rewrite Eb. rewrite list_lookup_alter_ne by congruence. apply Hact. destruct Haa; congruence.
Qed.

(** *** The steps of a cycle *)

Lemma finish_ok now ch :
  channel_ok now ch ->
  exists ch' ret_calls, finish_request uninit now ch = Ret (ch', ret_calls) /\ channel_ok now ch' /\
  ((ret_calls = [] /\ ch' = ch) \/
   exists it x y, at_it it ch = Ret x /\ address x <> 0 /\ ret_calls = return_to_all x /\ same_requests (Some it) ch ch' /\
   at_it it ch' = Ret y /\ address y = 0).
Proof.
  intros Hc. unfold finish_request. destruct (active_request ch) as [i|] eqn:Ea; [|exists ch, []; auto].
  destruct (ck_active _ _ Hc i Ea) as (b & Hb & Hv). destruct (ck_busy _ _ Hc i b Hb Hv) as (x & Hx & Hs & Hix).
  unfold bank_at. rewrite Hb. cbn [cbind]. destruct (br_event_cycle b <=? now); [|exists ch, []; auto].
  rewrite Hx. cbn [cbind].
  destruct (release now ch i b x (fun _ => new_PACKET uninit) (fun b => b <| br_valid := false |>) None Hc Hb Hv Hx)
    as (ch' & -> & Hc' & _ & Hat); [done| |done|done|by right|]; [split; [done|]; split; [done|]; split; [done|]; destruct (br_pkt b); done || constructor|].
  cbn [cbind]. eexists _, _. split; [done|]. split; [done|]. right. exists (br_pkt b), x, (new_PACKET uninit). split; [done|].
  split; [eapply packet_valid; [exact (ck_packets _ _ Hc _ _ Hx)|done]|]. split; [done|].
  assert (forall it, at_it it (ch' <| active_request := None |>) = at_it it ch') as Hact by (by intros []).
  split; [|by rewrite Hact, Hat, decide_True].
  intros it y Hy Hne. exists y. rewrite Hact, Hat, decide_False; [done|congruence].
Qed.

Lemma same_requests_refl ch : same_requests None ch ch.
Proof. intros it x Hx _. eauto. Qed.

Lemma same_requests_trans o ch1 ch2 ch3 :
  same_requests o ch1 ch2 -> same_requests None ch2 ch3 -> same_requests o ch1 ch3.
Proof.
  intros H12 H23 it' x Hx Hne. destruct (H12 it' x Hx Hne) as (y & Hy & Ha & Hr).
  destruct (H23 it' y Hy) as (z & Hz & Ha' & Hr'); [done|]. exists z. split; [done|]. split; congruence.
Qed.

Lemma reset_bank_ok now i ch :
  channel_ok now ch -> (i < length (bank_request ch))%nat ->
  exists ch', reset_bank now i ch = Ret ch' /\ channel_ok now ch' /\ same_requests None ch ch' /\
  active_request ch' = active_request ch.
Proof.
  intros Hc Hi. unfold reset_bank, bank_at. destruct (lookup_lt_is_Some_2 _ _ Hi) as [b Hb]. rewrite Hb. cbn [cbind].
  destruct (negb _ && br_valid b) eqn:E; [|exists ch; auto using same_requests_refl].
  apply andb_true_iff in E as [Ha Hv]. apply negb_true_iff, bool_decide_eq_false in Ha.
  destruct (ck_busy _ _ Hc i b Hb Hv) as (x & Hx & Hs & Hix).
  match goal with |- context [modify_it ?f _ (modify_bank ?g _ _)] =>
    destruct (release now ch i b x f g (active_request ch) Hc Hb Hv Hx) as (ch' & -> & Hc' & (_ & Hact & _) & Hat) end;
    [by destruct (_ <? _)| |done|done|by left|].
  - split; [done|]. split; [intros _ _; cbn; lia|]. split; [done|]. exact (proj2 (proj2 (proj2 (ck_packets _ _ Hc _ _ Hx)))).
  - exists ch'. assert (ch' <| active_request := active_request ch |> = ch') as Eeta
      by (destruct ch'; cbn in Hact; by rewrite <- Hact).
    rewrite Eeta in Hc'. split; [done|]. split; [done|]. split; [|exact Hact].
    intros it y Hy _. rewrite Hat. destruct (decide (it = br_pkt b)) as [->|]; [|by eauto].
    rewrite Hx in Hy. injection Hy as <-. by eexists.
Qed.

Lemma reset_banks_ok now l ch :
  channel_ok now ch -> Forall (fun i => i < length (bank_request ch))%nat l ->
  exists ch', reset_banks now l ch = Ret ch' /\ channel_ok now ch' /\ same_requests None ch ch' /\
  active_request ch' = active_request ch.
Proof.
  revert ch. induction l as [|i l IH]; intros ch Hc Hl; simpl; [exists ch; auto using same_requests_refl|].
  apply list.Forall_cons in Hl as [Hi Hl].
  destruct (reset_bank_ok now i ch Hc Hi) as (ch1 & -> & Hc1 & Hs1 & Ha1). cbn [cbind].
  destruct (IH ch1 Hc1) as (ch2 & -> & Hc2 & Hs2 & Ha2).
  { by rewrite (ck_banks_len _ _ Hc1), <- (ck_banks_len _ _ Hc). }
  exists ch2. split; [done|]. split; [done|]. split; [by eapply same_requests_trans|congruence].
Qed.

(** Fields of a channel that the invariant does not mention. *)
Lemma channel_ok_ext now ch0 ch ch' :
  channel_ok now ch -> same_requests None ch0 ch -> ch_WQ ch' = ch_WQ ch -> ch_RQ ch' = ch_RQ ch -> bank_request ch' = bank_request ch ->
  active_request ch' = active_request ch -> channel_ok now ch' /\ same_requests None ch0 ch'.
Proof.
  intros [? ? ? Hp Hb Hs Ha] H0' Ew Er Eb Ea.
  assert (forall it, at_it it ch' = at_it it ch) as Hat by (intros []; simpl; by rewrite ?Ew, ?Er).
  split; [|intros it x Hx Hne; rewrite Hat; by apply H0'].
  constructor; rewrite ?Ew, ?Er, ?Eb, ?Ea; try assumption; intros; rewrite ?Hat in *; eauto.
Qed.

Lemma change_mode_ok now ch :
  channel_ok now ch -> exists ch', change_mode now ch = Ret ch' /\ channel_ok now ch' /\ same_requests None ch ch'.
Proof.
  intros Hc. unfold change_mode. destruct (wants_mode_change ch); [|exists ch; auto using same_requests_refl].
  destruct (reset_banks_ok now (seq 0 (length (bank_request ch))) ch Hc) as (ch1 & -> & Hc1 & Hs1 & Ha1).
  { apply list.Forall_forall. intros i Hi%elem_of_seq. lia. }
  cbn [cbind].
  assert (exists v, match active_request ch1 with
    | Some i => let* b := bank_at i ch1 in Ret (u64 (br_event_cycle b + DRAM_DBUS_TURN_AROUND_TIME))
    | None => Ret (u64 (now + DRAM_DBUS_TURN_AROUND_TIME)) end = Ret v) as [v ->].
  { destruct (active_request ch1) as [i|] eqn:Ea; [|by eauto]. destruct (ck_active _ _ Hc1 i Ea) as (b & Hb & _).
    unfold bank_at. rewrite Hb. by eauto. }
  cbn [cbind]. eexists. split; [done|].
  by apply (channel_ok_ext now ch ch1).
Qed.

(** A busy bank goes on the bus. *)
Lemma activate now ch i b g :
  channel_ok now ch -> bank_request ch !! i = Some b -> br_valid b = true ->
  br_valid (g b) = true -> br_pkt (g b) = br_pkt b ->
  channel_ok now (modify_bank g i (ch <| active_request := Some i |>)).
Proof.
  intros [Hl1 Hl2 Hl3 Hp Hbusy Hsch Hact] Hb Hv Hgv Hgp.
  set (ch' := modify_bank g i _).
  assert (forall it, at_it it ch' = at_it it ch) as Hat by (by intros []).
  assert (bank_request ch' !! i = Some (g b)) as Hbi by (simpl; by rewrite list_lookup_alter_eq, Hb).
  assert (forall j, j <> i -> bank_request ch' !! j = bank_request ch !! j) as Hbj by (intros j Hj; simpl; by rewrite list_lookup_alter_ne).
  constructor; [by simpl; rewrite length_alter|done|done|..].
  - intros it x. rewrite Hat. apply Hp.
  - intros j c Hj Hcv. destruct (decide (j = i)) as [->|Hne].
    + rewrite Hbi in Hj. injection Hj as <-. rewrite Hgp. destruct (Hbusy i b Hb Hv) as (x & ?). exists x. by rewrite Hat.
    + rewrite Hbj in Hj by done. destruct (Hbusy j c Hj Hcv) as (x & ?). exists x. by rewrite Hat.
  - intros it x. rewrite Hat. intros Hx Hs. destruct (Hsch it x Hx Hs) as (c & Hcx & Hcv & Hcp).
    destruct (decide (op_idx (address x) = i)) as [E|Hne]; [|exists c; by rewrite Hbj].
    rewrite E in Hcx |- *. exists (g b). split; [done|]. split; [done|]. congruence.
  - intros j Hj. injection Hj as <-. by exists (g b).
Qed.

Lemma put_on_bus_ok now ch :
  channel_ok now ch -> exists ch', put_on_bus now ch = Ret ch' /\ channel_ok now ch' /\ same_requests None ch ch'.
Proof.
  intros Hc. unfold put_on_bus.
  assert (bank_request ch <> []) as Hne.
  { intros E. pose proof (ck_banks_len _ _ Hc) as Hl. rewrite E in Hl. pose proof (op_idx_range 0). simpl in Hl. lia. }
  destruct (min_event_cycle_spec _ Hne) as (b & Hb & _). set (i := min_element _ _) in *.
  unfold bank_at at 1. rewrite Hb. cbn [cbind].
  destruct (br_valid b && (br_event_cycle b <=? now)) eqn:E; [|exists ch; auto using same_requests_refl].
  apply andb_true_iff in E as [Hv _].
  destruct (bool_decide (active_request ch = None) && _).
  - eexists. split; [done|].
    pose proof (activate now ch i b (fun b => b <| br_event_cycle := u64 (now + DRAM_DBUS_RETURN_TIME) |>) Hc Hb Hv Hv eq_refl) as Hc1.
    set (ch1 := modify_bank _ i _) in *.
    assert (same_requests None ch ch1) as Hs by (intros [|j|j] x Hx _; exists x; done).
    destruct (row_buffer_hit b), (write_mode ch1);
      by apply (channel_ok_ext now ch ch1).
  - assert (exists v, match active_request ch with
      | Some i => let* b := bank_at i ch in Ret (br_event_cycle b) | None => Ret (dbus_cycle_available ch) end = Ret v) as [v ->].
    { destruct (active_request ch) as [j|] eqn:Ea; [|by eauto]. destruct (ck_active _ _ Hc j Ea) as (c & Hcj & _).
      unfold bank_at. rewrite Hcj. by eauto. }
    cbn [cbind]. eexists. split; [done|]. apply (channel_ok_ext now ch ch); auto using same_requests_refl.
Qed.

(** A request is handed to its bank, which is free. *)
Lemma occupy now ch it x b b' f :
  channel_ok now ch -> at_it it ch = Ret x -> scheduled x = false -> address x <> 0 ->
  bank_request ch !! op_idx (address x) = Some b -> br_valid b = false -> br_valid b' = true -> br_pkt b' = it ->
  address (f x) = address x -> to_return (f x) = to_return x -> scheduled (f x) = true -> event_cycle (f x) = UINT64_MAX ->
  exists ch', modify_it f it (modify_bank (fun _ => b') (op_idx (address x)) ch) = Ret ch' /\
  channel_ok now ch' /\ same_requests None ch ch'.
Proof.
  intros [Hl1 Hl2 Hl3 Hp Hbusy Hsch Hact] Hx Hsx Hax Hb Hbv Hbv' Hbp Hfa Hfr Hfs Hfe.
  destruct (modify_it_spec f it (modify_bank (fun _ => b') (op_idx (address x)) ch) x) as (ch' & -> & (Hrb & Hra & _ & Hrw & Hrr) & Hat);
    [by rewrite at_it_bank|].
  assert (forall it', at_it it' ch' = if decide (it' = it) then Ret (f x) else at_it it' ch) as Hat'
    by (intros it'; by rewrite Hat, at_it_bank). clear Hat. rename Hat' into Hat.
  assert (bank_request ch' !! op_idx (address x) = Some b') as Hbi by (rewrite Hrb; simpl; by rewrite list_lookup_alter_eq, Hb).
  assert (forall j, j <> op_idx (address x) -> bank_request ch' !! j = bank_request ch !! j) as Hbj
    by (intros j Hj; rewrite Hrb; simpl; by rewrite list_lookup_alter_ne).
  exists ch'. split; [done|]. split.
  - constructor; [by rewrite Hrb; simpl; rewrite length_alter|by rewrite Hrw|by rewrite Hrr|..].
    + intros it' y. rewrite Hat. destruct (decide (it' = it)) as [->|]; [intros [= <-]|apply Hp].
      split; [by rewrite Hfa|]. split; [by rewrite Hfs|]. split; [done|]. rewrite Hfr. apply (Hp it x Hx).
    + intros j c Hj Hcv. destruct (decide (j = op_idx (address x))) as [->|Hne].
      * rewrite Hbi in Hj. injection Hj as <-. exists (f x). rewrite Hbp, Hat, decide_True, Hfa by done. done.
      * rewrite Hbj in Hj by done. destruct (Hbusy j c Hj Hcv) as (y & Hy & Hsy & Hiy). exists y.
        rewrite Hat, decide_False; [done|]. intros E. rewrite E, Hx in Hy. injection Hy as <-. congruence.
    + intros it' y. rewrite Hat. destruct (decide (it' = it)) as [->|Hne].
      * intros [= <-] _. rewrite Hfa. by exists b'.
      * intros Hy Hsy. destruct (Hsch it' y Hy Hsy) as (c & Hcy & Hcv & Hcp). exists c. rewrite Hbj; [done|].
        intros E. rewrite E in Hcy. congruence.
    + intros j Hj. rewrite Hra in Hj. destruct (Hact j Hj) as (c & Hcj & Hcv). exists c. rewrite Hbj; [done|].
      intros ->. congruence.
  - intros it' y Hy _. rewrite Hat. destruct (decide (it' = it)) as [->|]; [|by eauto].
    rewrite Hx in Hy. injection Hy as <-. by exists (f x).
Qed.

Lemma schedule_ok now ch :
  channel_ok now ch -> 0 <= now < UINT64_MAX ->
  exists ch', schedule now ch = Ret ch' /\ channel_ok now ch' /\ same_requests None ch ch'.
Proof.
  intros Hc Hnow. unfold schedule. set (it := if write_mode ch then _ else _).
  assert (exists x, at_it it ch = Ret x) as [x Hx].
  { pose proof queue_sizes. pose proof (ck_WQ_len _ _ Hc) as Hw. pose proof (ck_RQ_len _ _ Hc) as Hr. unfold it.
    destruct (write_mode ch); simpl.
    - destruct (next_schedule_spec (ch_WQ ch)) as (x & -> & _); [intros E; rewrite E in Hw; simpl in Hw; lia|]. by eauto.
    - destruct (next_schedule_spec (ch_RQ ch)) as (x & -> & _); [intros E; rewrite E in Hr; simpl in Hr; lia|]. by eauto. }
  clearbody it. rewrite Hx. cbn [cbind].
  destruct (is_valid x && (event_cycle x <=? now)) eqn:E; [|exists ch; auto using same_requests_refl].
  apply andb_true_iff in E as [Hv He%Z.leb_le]. unfold is_valid, is_valid_PACKET in Hv. apply negb_true_iff, Z.eqb_neq in Hv.
  pose proof (op_idx_range (address x)) as Hi. rewrite <- (ck_banks_len _ _ Hc) in Hi.
  destruct (lookup_lt_is_Some_2 _ _ Hi) as [b Hb]. unfold bank_at. rewrite Hb. cbn [cbind].
  destruct (br_valid b) eqn:Hbv; [exists ch; auto using same_requests_refl|].
  assert (scheduled x = false) as Hsx.
  { apply not_true_iff_false. intros Hs. pose proof (proj1 (proj2 (proj2 (ck_packets _ _ Hc _ _ Hx))) Hs). lia. }
  by apply (occupy now ch it x b).
Qed.

(** A cycle of a channel: it does not fail, and at most one request leaves its
    queue, with everyone who waits for it answered. *)
Lemma operate_channel_ok now ch :
  channel_ok now ch -> 0 <= now < UINT64_MAX ->
  exists ch' ret_calls, operate_channel uninit now ch = Ret (ch', ret_calls) /\ channel_ok now ch' /\
  ((ret_calls = [] /\ same_requests None ch ch') \/
   exists it x y, at_it it ch = Ret x /\ address x <> 0 /\ ret_calls = return_to_all x /\ same_requests (Some it) ch ch' /\
   at_it it ch' = Ret y /\ address y = 0).
Proof.
  intros Hc Hnow. unfold operate_channel. destruct (finish_ok now ch Hc) as (ch1 & calls & -> & Hc1 & Hs1). cbn [cbind].
  destruct (change_mode_ok now ch1 Hc1) as (ch2 & -> & Hc2 & Hs2). cbn [cbind].
  destruct (put_on_bus_ok now ch2 Hc2) as (ch3 & -> & Hc3 & Hs3). cbn [cbind].
  destruct (schedule_ok now ch3 Hc3 Hnow) as (ch4 & -> & Hc4 & Hs4). cbn [cbind].
  assert (same_requests None ch1 ch4) as Hs by (by do 2 (eapply same_requests_trans; [|done])).
  exists ch4, calls. split; [done|]. split; [done|].
  destruct Hs1 as [[-> ->]|(it & x & y & Hx & Ha & -> & Hs1 & Hy & Hay)]; [by left|]. right.
  destruct (Hs it y Hy) as (z & Hz & Haz & _); [done|]. exists it, x, z. do 3 (split; [done|]).
  split; [by eapply same_requests_trans|]. split; [done|congruence].
Qed.

(** *** Requests *)

(** A request that arrives in a free slot, or is merged with one that is there. *)
Lemma store now ch ch' it x y :
  channel_ok now ch -> at_it it ch = Ret x -> scheduled y = scheduled x -> (scheduled x = true -> address y = address x) ->
  packet_ok now it y -> same_rest ch ch' -> (forall it', at_it it' ch' = if decide (it' = it) then Ret y else at_it it' ch) ->
  channel_ok now ch'.
Proof.
  intros [Hl1 Hl2 Hl3 Hp Hbusy Hsch Hact] Hx Hs Ha Hy (Hrb & Hra & _ & Hrw & Hrr) Hat.
  constructor; [by rewrite Hrb|by rewrite Hrw|by rewrite Hrr|..].
  - intros it' z. rewrite Hat. destruct (decide (it' = it)) as [->|]; [by intros [= <-]|apply Hp].
  - intros j c. rewrite Hrb. intros Hj Hcv. destruct (Hbusy j c Hj Hcv) as (z & Hz & Hsz & Hiz).
    destruct (decide (br_pkt c = it)) as [E|Hne]; [|exists z; by rewrite Hat, decide_False].
    exists y. rewrite Hat, decide_True by done. rewrite E, Hx in Hz. injection Hz as <-.
    split; [done|]. split; [congruence|]. by rewrite Ha.
  - intros it' z. rewrite Hat, Hrb. destruct (decide (it' = it)) as [->|]; [|apply Hsch].
    intros [= <-] Hsy. rewrite Ha by congruence. apply Hsch; congruence.
  - intros j. rewrite Hra, Hrb. apply Hact.
Qed.

Lemma alter_RQ_at f i x ch : ch_RQ ch !! i = Some x ->
  let ch' := ch <| ch_RQ ::= alter f i |> in
  same_rest ch ch' /\ forall it', at_it it' ch' = if decide (it' = in_RQ i) then Ret (f x) else at_it it' ch.
Proof.
  intros Hx ch'. destruct (modify_it_spec f (in_RQ i) ch x) as (ch1 & E & ? & ?); [simpl; by rewrite Hx|].
  unfold modify_it in E. simpl in E. rewrite Hx in E. injection E as <-. done.
Qed.

Lemma alter_WQ_at f i x ch : ch_WQ ch !! i = Some x ->
  let ch' := ch <| ch_WQ ::= alter f i |> in
  same_rest ch ch' /\ forall it', at_it it' ch' = if decide (it' = in_WQ i) then Ret (f x) else at_it it' ch.
Proof.
  intros Hx ch'. destruct (modify_it_spec f (in_WQ i) ch x) as (ch1 & E & ? & ?); [simpl; by rewrite Hx|].
  unfold modify_it in E. simpl in E. rewrite Hx in E. injection E as <-. done.
Qed.

(** A free slot. *)
Lemma free_slot now it x : packet_ok now it x -> is_valid x = false -> address x = 0 /\ scheduled x = false.
Proof.
  intros (Hfree & _) Hv. unfold is_valid, is_valid_PACKET in Hv. apply negb_false_iff, Z.eqb_eq in Hv. auto.
Qed.

End Inv.

(** Every block of the memory has exactly one place: the fields of an address
    within the memory give back the number of its block, and every place is the
    place of a block. *)
Theorem dram_places `{DramOk} :
  (forall a, 0 <= a < BLOCK_SIZE * (DRAM_CHANNELS * (DRAM_BANKS * (DRAM_COLUMNS * (DRAM_RANKS * DRAM_ROWS)))) ->
     place (dram_get_row a) (dram_get_rank a) (dram_get_column a) (dram_get_bank a) (dram_get_channel a) = a / BLOCK_SIZE) /\
  (forall row rank column bank channel offset,
     0 <= row < DRAM_ROWS -> 0 <= rank < DRAM_RANKS -> 0 <= column < DRAM_COLUMNS -> 0 <= bank < DRAM_BANKS ->
     0 <= channel < DRAM_CHANNELS -> 0 <= offset < BLOCK_SIZE ->
     let a := offset + BLOCK_SIZE * place row rank column bank channel in
     dram_get_row a = row /\ dram_get_rank a = rank /\ dram_get_column a = column /\ dram_get_bank a = bank /\
     dram_get_channel a = channel).
Proof.
  destruct sizes_pos as (Hb & Hc & Hk & Hco & Hra & Hro). split.
  - intros a Ha. destruct (fields a) as (-> & -> & -> & -> & ->). unfold place.
    set (n := a / BLOCK_SIZE). assert (0 <= n < DRAM_CHANNELS * (DRAM_BANKS * (DRAM_COLUMNS * (DRAM_RANKS * DRAM_ROWS)))) as Hn
      by (by apply div_range).
    rewrite (Z.mod_small (n / _ / _ / _ / _)).
    + by rewrite !undigit by lia.
    + do 4 apply div_range in Hn; [done|lia..].
  - intros row rank column bank channel offset Hrow Hrank Hcol Hbank Hch Hoff a.
    destruct (fields a) as (-> & -> & -> & -> & ->). unfold a, place.
    rewrite (proj2 (digit _ _ _ Hoff)), (proj1 (digit _ _ _ Hch)), (proj2 (digit _ _ _ Hch)), (proj1 (digit _ _ _ Hbank)),
      (proj2 (digit _ _ _ Hbank)), (proj1 (digit _ _ _ Hcol)), (proj2 (digit _ _ _ Hcol)), (proj1 (digit _ _ _ Hrank)),
      (proj2 (digit _ _ _ Hrank)), Z.mod_small by lia. done.
Qed.

End DramSpec.
