(* ===== verification/SimMemory.v ===== *)
(** * ChampSim: requests to the memory controller

    The reads the controller has accepted and not answered, what requests and
    cycles do to them, and the controller as the level below a cache. *)

From S2P Require Import Prelude SimUtil SimQueue SimVmem SimRepl SimCache SimCacheSpec SimDram SimDramSpec.
Import Util Mem Cache CacheSpec Dram DramSpec.
Local Open Scope c_scope.

Module Memory.

(** ** Lists of lists *)

Lemma bind_insert {A B} (f : A -> list B) l n x :
  l !! n = Some x -> exists rest, l ≫= f ≡ₚ f x ++ rest /\ forall y, <[n := y]> l ≫= f ≡ₚ f y ++ rest.
Proof.
  intros Hn. exists ((take n l ≫= f) ++ (drop (S n) l ≫= f)).
  assert (forall y, <[n := y]> l ≫= f ≡ₚ f y ++ ((take n l ≫= f) ++ (drop (S n) l ≫= f))) as Hi.
  { intros y. rewrite insert_take_drop by (by eapply lookup_lt_Some). rewrite bind_app, bind_cons.
    rewrite !(assoc_L (++)). apply Permutation_app; [|done]. apply Permutation_app_comm. }
  split; [|done]. rewrite <- (list_insert_id l n x Hn) at 1. apply Hi.
Qed.

Lemma bind_same {A B} (f : A -> list B) l l' : Forall2 (fun x y => f y = f x) l l' -> l' ≫= f = l ≫= f.
Proof. induction 1 as [|x y l l' Hxy _ IH]; [done|]. by rewrite !bind_cons, Hxy, IH. Qed.

Section Controller.
Context `{DramOk} (instr_lt instr_eq : nat -> nat -> bool) (uninit all_warmup_complete : Z).
Implicit Types (ch : DRAM_CHANNEL) (m : MEMORY_CONTROLLER) (x : PACKET).

(** ** Reads

    A read that waits: its block, and who is to be answered. *)
Definition blk (x : PACKET) : Z := Z.shiftr (address x) LOG2_BLOCK_SIZE.
Definition read_of x : list (Z * list nat) := if is_valid x then [(blk x, to_return x)] else [].
Definition rd ch : list (Z * list nat) := ch_RQ ch ≫= read_of.
Definition rds m : list (Z * list nat) := channels m ≫= rd.

(** [w] is still to be answered with the block [b]. *)
Definition owed m (w : nat) (b : Z) : Prop := exists ws, (b, ws) ∈ rds m /\ w ∈ ws.

(** Reads are kept in the channel of their block, and one per block. *)
Record mc_ok m : Prop := mkMcOk {
  mk_channels : length (channels m) = Z.to_nat DRAM_CHANNELS;
  mk_channel_ok : Forall (channel_ok (mc_current_cycle m)) (channels m);
  mk_time : 0 <= mc_current_cycle m < UINT64_MAX;
  mk_home : forall n ch p, channels m !! n = Some ch -> p ∈ rd ch -> Z.to_nat (p.1 mod DRAM_CHANNELS) = n;
  mk_unique : NoDup (fst <$> rds m);
}.

Lemma elem_of_rd p ch : p ∈ rd ch <-> exists i x, ch_RQ ch !! i = Some x /\ is_valid x = true /\ p = (blk x, to_return x).
Proof.
  unfold rd. rewrite list_elem_of_bind. split.
  - intros (x & Hp & [i Hx]%list_elem_of_lookup). exists i, x. unfold read_of in Hp. destruct (is_valid x); [|by apply elem_of_nil in Hp].
    apply list_elem_of_singleton in Hp. done.
  - intros (i & x & Hx & Hv & ->). exists x. unfold read_of. rewrite Hv. split; [by left|by eapply list_elem_of_lookup_2].
Qed.

Lemma elem_of_rds p m : p ∈ rds m <-> exists n ch, channels m !! n = Some ch /\ p ∈ rd ch.
Proof.
  unfold rds. rewrite list_elem_of_bind. split.
  - intros (ch & Hp & [n Hn]%list_elem_of_lookup). eauto.
  - intros (n & ch & Hn & Hp). exists ch. split; [done|by eapply list_elem_of_lookup_2].
Qed.

Lemma read_of_eq x y : address y = address x -> to_return y = to_return x -> read_of y = read_of x.
Proof. intros Ha Hr. unfold read_of, is_valid, is_valid_PACKET, blk. by rewrite Ha, Hr. Qed.

Lemma channel_of_blk a : dram_get_channel a = Z.shiftr a LOG2_BLOCK_SIZE mod DRAM_CHANNELS.
Proof.
  destruct (fields a) as (-> & _). rewrite lg2_block, Z.shiftr_div_pow2, BLOCK_SIZE_eq by (pose proof l_range; lia). done.
Qed.

(** Nobody is named twice. *)
Lemma rds_increasing m p : mc_ok m -> p ∈ rds m -> increasing p.2.
Proof.
  intros Hm (n & ch & Hn & (i & x & Hx & _ & ->)%elem_of_rd)%elem_of_rds.
  pose proof (Forall_lookup_1 _ _ _ _ (mk_channel_ok _ Hm) Hn) as Hc.
  apply (ck_packets _ _ Hc (in_RQ i) x). by apply at_RQ.
Qed.

(** ** Cycles *)

(** The answers to a list of reads. *)
Definition answers (fin : list (Z * list nat)) : list (nat * Z) := fin ≫= fun p => (fun w => (w, p.1)) <$> p.2.
Definition calls_of (l : calls) : list (nat * Z) := (fun c => (c.1, blk c.2)) <$> l.

Lemma calls_of_return x : is_valid x = true -> calls_of (return_to_all x) = answers (read_of x).
Proof.
  intros Hv. unfold calls_of, return_to_all, answers, read_of. rewrite Hv. simpl. rewrite app_nil_r, <- list_fmap_compose. done.
Qed.

Lemma same_reads o ch ch' :
  same_requests o ch ch' -> length (ch_RQ ch') = length (ch_RQ ch) -> (forall i, o <> Some (in_RQ i)) -> rd ch' = rd ch.
Proof.
  intros Hs Hl Ho. apply bind_same, Forall2_same_length_lookup. split; [done|]. intros i x y Hx Hy.
  destruct (Hs (in_RQ i) x) as (y' & Hy' & Ha & Hr); [by apply at_RQ|apply Ho|].
  apply at_RQ in Hy'. rewrite Hy in Hy'. injection Hy' as <-. by apply read_of_eq.
Qed.

Lemma finished_read i ch ch' x y :
  same_requests (Some (in_RQ i)) ch ch' -> length (ch_RQ ch') = length (ch_RQ ch) ->
  ch_RQ ch !! i = Some x -> ch_RQ ch' !! i = Some y -> address y = 0 -> rd ch ≡ₚ read_of x ++ rd ch'.
Proof.
  intros Hs Hl Hx Hy Hay. destruct (bind_insert read_of (ch_RQ ch) i x Hx) as (rest & E1 & E2).
  assert (rd ch' = <[i := y]> (ch_RQ ch) ≫= read_of) as E.
  { apply bind_same, Forall2_same_length_lookup. rewrite length_insert. split; [done|]. intros j a b Ha Hb.
    destruct (decide (j = i)) as [->|Hne].
    - rewrite list_lookup_insert_eq in Ha by (by eapply lookup_lt_Some). congruence.
    - rewrite list_lookup_insert_ne in Ha by done. destruct (Hs (in_RQ j) a) as (b' & Hb' & Hab & Hrb); [by apply at_RQ|congruence|].
      apply at_RQ in Hb'. rewrite Hb in Hb'. injection Hb' as <-. by apply read_of_eq. }
  assert (read_of y = []) as Ey by (unfold read_of, is_valid, is_valid_PACKET; by rewrite Hay).
  rewrite E, E2, Ey. exact E1.
Qed.

Lemma operate_channel_reads now ch :
  channel_ok now ch -> 0 <= now < UINT64_MAX ->
  exists ch' ret_calls fin, operate_channel uninit now ch = Ret (ch', ret_calls) /\ channel_ok now ch' /\
  rd ch ≡ₚ fin ++ rd ch' /\ calls_of ret_calls = answers fin.
Proof.
  intros Hc Hnow. destruct (operate_channel_ok uninit now ch Hc Hnow) as (ch' & calls & E & Hc' & Hs).
  assert (length (ch_RQ ch') = length (ch_RQ ch)) as Hl by (by rewrite (ck_RQ_len _ _ Hc'), (ck_RQ_len _ _ Hc)).
  exists ch', calls. destruct Hs as [[-> Hs]|(it & x & y & Hx & Hax & -> & Hs & Hy & Hay)].
  - exists []. do 2 (split; [done|]). split; [|done]. simpl. by rewrite (same_reads None ch ch' Hs Hl).
  - destruct it as [|i|i]; [done|..].
    + exists []. do 2 (split; [done|]). split; [simpl; by rewrite (same_reads _ ch ch' Hs Hl)|].
      destruct (ck_packets _ _ Hc _ _ Hx) as (_ & _ & _ & Hr). unfold return_to_all. by rewrite Hr.
    + exists (read_of x). do 2 (split; [done|]). apply at_RQ in Hx, Hy. split; [by eapply finished_read|].
      apply calls_of_return. unfold is_valid, is_valid_PACKET. by apply negb_true_iff, Z.eqb_neq.
Qed.

Lemma answers_app l1 l2 : answers (l1 ++ l2) = answers l1 ++ answers l2.
Proof. apply bind_app. Qed.

Lemma operate_channels_reads now l :
  Forall (channel_ok now) l -> 0 <= now < UINT64_MAX ->
  exists l' ret_calls fin, operate_channels uninit now l = Ret (l', ret_calls) /\ Forall (channel_ok now) l' /\ length l' = length l /\
  l ≫= rd ≡ₚ fin ++ (l' ≫= rd) /\ calls_of ret_calls = answers fin /\
  forall n ch' p, l' !! n = Some ch' -> p ∈ rd ch' -> exists ch, l !! n = Some ch /\ p ∈ rd ch.
Proof.
  intros Hl Hnow. induction Hl as [|ch l Hc Hl IH]; simpl; [by exists [], [], []|].
  destruct (operate_channel_reads now ch Hc Hnow) as (ch' & calls & fin & -> & Hc' & Hp & Ha). cbn [cbind].
  destruct IH as (l' & calls' & fin' & -> & Hl' & Hlen & Hp' & Ha' & Hn'). cbn [cbind fst snd].
  exists (ch' :: l'), (calls ++ calls'), (fin ++ fin'). split; [done|]. split; [by constructor|]. split; [simpl; congruence|].
  split; [|split].
  - rewrite !bind_cons, Hp, Hp', <- !(assoc_L (++)). apply Permutation_app; [done|]. rewrite !(assoc_L (++)).
    apply Permutation_app; [apply Permutation_app_comm|done].
  - unfold calls_of in *. by rewrite fmap_app, answers_app, Ha, Ha'.
  - intros [|n] c p Hc0 Hin; simpl in *; [|by eapply Hn'].
    injection Hc0 as ->. exists ch. split; [done|]. rewrite Hp, elem_of_app. by right.
Qed.

Lemma operate_reads m :
  mc_ok m -> exists m' ret_calls fin, operate uninit m = Ret m' /\ mc_ok m' /\ mc_current_cycle m' = mc_current_cycle m /\
  mc_returned m' = mc_returned m ++ ret_calls /\ rds m ≡ₚ fin ++ rds m' /\ calls_of ret_calls = answers fin.
Proof.
  intros [Hl Hc Ht Hh Hu]. unfold operate.
  destruct (operate_channels_reads (mc_current_cycle m) (channels m) Hc Ht) as (l' & calls & fin & -> & Hl' & Hlen & Hp & Ha & Hn).
  cbn [cbind]. eexists _, calls, fin. split; [done|]. split; [|done]. constructor; cbn; [congruence|done|done| |].
  - intros n ch p Hch Hin. destruct (Hn n ch p Hch Hin) as (ch0 & Hch0 & Hin0). by eapply Hh.
  - rewrite Hp, fmap_app in Hu. by apply list.NoDup_app in Hu as (_ & _ & ?).
Qed.

(** ** Requests *)

Lemma channel_range a m : mc_ok m -> exists ch, channels m !! Z.to_nat (dram_get_channel a) = Some ch /\
  channel_at a m = Ret ch /\ channel_ok (mc_current_cycle m) ch.
Proof.
  intros [Hl Hc _]. destruct (lookup_lt_is_Some_2 (channels m) (Z.to_nat (dram_get_channel a))) as [ch Hch].
  { rewrite Hl. destruct sizes_pos as (_ & Hpos & _). destruct (fields a) as (-> & _).
    match goal with |- context [Z.to_nat (?r mod _)] => pose proof (Z.mod_pos_bound r DRAM_CHANNELS Hpos) end. lia. }
  exists ch. split; [done|]. split; [unfold channel_at; by rewrite Hch|]. by apply (Forall_lookup_1 _ _ _ _ Hc Hch).
Qed.

Lemma get_occupancy_ok q a m : mc_ok m -> exists n, get_occupancy q a m = Ret n.
Proof. intros Hm. destruct (channel_range a m Hm) as (ch & _ & E & _). unfold get_occupancy. rewrite E. by eexists. Qed.

Lemma get_size_ok q a m : mc_ok m -> exists n, get_size q a m = Ret n.
Proof. intros Hm. destruct (channel_range a m Hm) as (ch & _ & E & _). unfold get_size. rewrite E. by eexists. Qed.

(** The reads that [pkt] makes of [l]: one more, or one that also answers those
    who wait for [pkt]. *)
Inductive reads_after (pkt : PACKET) (l l' : list (Z * list nat)) : Prop :=
  | reads_new : blk pkt ∉ fst <$> l -> l' ≡ₚ (blk pkt, to_return pkt) :: l -> reads_after pkt l l'
  | reads_merged ws ws' r : l ≡ₚ (blk pkt, ws) :: r -> l' ≡ₚ (blk pkt, ws') :: r ->
      (forall w, w ∈ ws' <-> w ∈ ws \/ w ∈ to_return pkt) -> reads_after pkt l l'.

Lemma reads_after_owed pkt m m' w b :
  reads_after pkt (rds m) (rds m') -> owed m' w b <-> owed m w b \/ (w ∈ to_return pkt /\ b = blk pkt).
Proof using Type.
  intros [_ E|ws ws' r E E' Hw]; unfold owed; split.
  - intros (ws & Hin & Hw). rewrite E, elem_of_cons in Hin. destruct Hin as [[= -> ->]|Hin]; [by right|left; by exists ws].
  - intros [(ws & Hin & Hw)|[Hw ->]]; [exists ws|exists (to_return pkt)]; rewrite E, elem_of_cons; [by split; [right|]|by split; [left|]].
  - intros (us & Hin & Hu). rewrite E', elem_of_cons in Hin. destruct Hin as [[= -> ->]|Hin].
    + apply Hw in Hu as [Hu|Hu]; [|by right]. left. exists ws. rewrite E, elem_of_cons. split; [by left|done].
    + left. exists us. rewrite E, elem_of_cons. split; [by right|done].
  - intros [(us & Hin & Hu)|[Hu ->]].
    + rewrite E, elem_of_cons in Hin. destruct Hin as [[= -> ->]|Hin].
      * exists ws'. rewrite E', elem_of_cons. split; [by left|]. apply Hw. by left.
      * exists us. rewrite E', elem_of_cons. split; [by right|done].
    + exists ws'. rewrite E', elem_of_cons. split; [by left|]. apply Hw. by right.
Qed.

(** A block that its own channel does not hold is held by none. *)
Lemma absent a ch m :
  mc_ok m -> channels m !! Z.to_nat (dram_get_channel a) = Some ch ->
  Z.shiftr a LOG2_BLOCK_SIZE ∉ fst <$> rd ch -> Z.shiftr a LOG2_BLOCK_SIZE ∉ fst <$> rds m.
Proof.
  intros Hm Hch Hno ([b ws] & Eb & Hin)%list_elem_of_fmap. simpl in Eb.
  apply elem_of_rds in Hin as (n & ch' & Hn & Hin). pose proof (mk_home _ Hm n ch' _ Hn Hin) as Hhome.
  simpl in Hhome. rewrite <- Eb, <- channel_of_blk in Hhome. rewrite Hhome, Hn in Hch. injection Hch as ->.
  apply Hno, list_elem_of_fmap. by exists (b, ws).
Qed.

(** Replacing a channel. *)
Lemma put_channel_reads pkt ch ch' m :
  mc_ok m -> channels m !! Z.to_nat (dram_get_channel (address pkt)) = Some ch -> channel_ok (mc_current_cycle m) ch' ->
  reads_after pkt (rd ch) (rd ch') ->
  mc_ok (put_channel (address pkt) ch' m) /\ reads_after pkt (rds m) (rds (put_channel (address pkt) ch' m)).
Proof.
  intros Hm Hch Hc' Hr. destruct (bind_insert rd (channels m) _ ch Hch) as (rest & E & E').
  specialize (E' ch'). change (rds m ≡ₚ rd ch ++ rest) in E. change (rds (put_channel (address pkt) ch' m) ≡ₚ rd ch' ++ rest) in E'.
  set (m' := put_channel (address pkt) ch' m) in *.
  assert (reads_after pkt (rds m) (rds m')) as Hra.
  { destruct Hr as [Hno Er|ws ws' r Er Er' Hw].
    - apply reads_new; [by apply (absent _ ch)|]. by rewrite E', E, Er.
    - apply (reads_merged _ _ _ ws ws' (r ++ rest)); [by rewrite E, Er|by rewrite E', Er'|done]. }
  split; [|done]. constructor.
  - cbn. rewrite length_insert. apply Hm.
  - apply Forall_insert; [apply Hm|done].
  - apply Hm.
  - intros n c p Hn Hin. apply list_lookup_insert_Some in Hn as [(<- & <- & _)|[_ Hn]]; [|by eapply mk_home].
    assert (p.1 = blk pkt \/ p ∈ rd ch) as [Ep|Hp]; [| |by eapply mk_home].
    + destruct Hr as [_ Er|ws ws' r Er Er' _].
      * rewrite Er, elem_of_cons in Hin. destruct Hin as [->|?]; [by left|by right].
      * rewrite Er', elem_of_cons in Hin. destruct Hin as [->|?]; [by left|]. right. rewrite Er, elem_of_cons. by right.
    + rewrite Ep. unfold blk. by rewrite <- channel_of_blk.
  - destruct Hra as [Hno Er|ws ws' r Er Er' _].
    + rewrite Er. simpl. constructor; [done|apply Hm].
    + pose proof (mk_unique _ Hm) as Hu. rewrite Er in Hu. rewrite Er'. exact Hu.
Qed.

(** Putting [y] in slot [i] of the read queue, where [e] was. *)
Lemma put_read pkt m ch i e y :
  mc_ok m -> channels m !! Z.to_nat (dram_get_channel (address pkt)) = Some ch -> ch_RQ ch !! i = Some e ->
  scheduled y = scheduled e -> (scheduled e = true -> address y = address e) -> packet_ok (mc_current_cycle m) (in_RQ i) y ->
  reads_after pkt (rd ch) (<[i := y]> (ch_RQ ch) ≫= read_of) ->
  let m' := put_channel (address pkt) (ch <| ch_RQ ::= <[i := y]> |>) m in
  mc_ok m' /\ reads_after pkt (rds m) (rds m').
Proof.
  intros Hm Hch He Hs Hse Hy Hra m'. set (ch' := ch <| ch_RQ ::= <[i := y]> |>) in *.
  pose proof (Forall_lookup_1 _ _ _ _ (mk_channel_ok _ Hm) Hch) as Hc.
  destruct (alter_RQ_at (fun _ => y) i e ch He) as [Hrest Hat].
  assert (ch' = ch <| ch_RQ ::= alter (fun _ => y) i |>) as Ech.
  { unfold ch'. pose proof (list_alter_Some (fun _ => y) i e _ He) as Ei. destruct ch; cbn in *; by rewrite Ei. }
  rewrite <- Ech in Hrest, Hat. apply put_channel_reads with ch; [done|done| |done].
  eapply (store _ ch ch' (in_RQ i) e y); try done. by apply at_RQ.
Qed.

(** No request of the queue is for the block. *)
Lemma unmatched a (l : list PACKET) :
  (length l <= find_if (eq_addr a LOG2_BLOCK_SIZE) l)%nat -> Forall (fun x => is_valid x = true -> blk x <> Z.shiftr a LOG2_BLOCK_SIZE) l.
Proof.
  intros Hno. pose proof (find_if_le (eq_addr a LOG2_BLOCK_SIZE) l).
  assert (Forall (fun x => eq_addr a LOG2_BLOCK_SIZE x = false) l) as Hne by (apply find_if_end; lia).
  eapply Forall_impl; [|exact Hne]. intros x Hx Hv E. simpl in Hx. apply not_true_iff_false in Hx. apply Hx, eq_addr_PACKET.
  split; [|done]. unfold is_valid, is_valid_PACKET in Hv. by apply negb_true_iff, Z.eqb_neq in Hv.
Qed.

Lemma valid_packet x : address x <> 0 -> is_valid x = true.
Proof. intros Ha. unfold is_valid, is_valid_PACKET. by apply negb_true_iff, Z.eqb_neq. Qed.

(** Merging with the read of the block, and adding one. *)
Lemma reads_merge pkt ch i e :
  ch_RQ ch !! i = Some e -> address e <> 0 -> blk e = blk pkt ->
  reads_after pkt (rd ch) (<[i := merge_deps instr_lt instr_eq e pkt]> (ch_RQ ch) ≫= read_of).
Proof.
  intros He Ha Hb. destruct (bind_insert read_of (ch_RQ ch) i e He) as (r & E1 & E2).
  apply (reads_merged _ _ _ (to_return e) (to_return (merge_deps instr_lt instr_eq e pkt)) r).
  - unfold rd. rewrite E1. unfold read_of at 1. by rewrite valid_packet, Hb.
  - rewrite E2. unfold read_of at 1. rewrite valid_packet by done.
    change (blk (merge_deps instr_lt instr_eq e pkt)) with (blk e). by rewrite Hb.
  - intros w. apply elem_of_nat_merge.
Qed.

Lemma reads_add pkt ch i e t :
  ch_RQ ch !! i = Some e -> is_valid e = false -> address pkt <> 0 ->
  Forall (fun x => is_valid x = true -> blk x <> blk pkt) (ch_RQ ch) ->
  reads_after pkt (rd ch) (<[i := pkt <| event_cycle := t |>]> (ch_RQ ch) ≫= read_of).
Proof.
  intros He Hv Ha Hno. destruct (bind_insert read_of (ch_RQ ch) i e He) as (r & E1 & E2). apply reads_new.
  - intros (p & Ep & (j & x & Hx & Hvx & ->)%elem_of_rd)%list_elem_of_fmap. by apply (Forall_lookup_1 _ _ _ _ Hno Hx Hvx).
  - unfold rd. rewrite E1, E2. unfold read_of. by rewrite Hv, valid_packet.
Qed.

(** A read is answered at once, or waits in the queue of its channel; it is
    dropped, with the result 0, when the queue is full. *)
Lemma mc_add_rq_ok pkt m :
  mc_ok m -> request_ok pkt ->
  exists res pkt' ret_calls m', add_rq instr_lt instr_eq all_warmup_complete pkt m = Ret (res, pkt', ret_calls, m') /\
  mc_ok m' /\ pkt' = pkt <| data := data pkt' |> /\
  mc_current_cycle m' = mc_current_cycle m /\ mc_returned m' = mc_returned m /\
  ((ret_calls = return_to_all pkt' /\ m' = m) \/
   (ret_calls = [] /\ reads_after pkt (rds m) (rds m')) \/
   (ret_calls = [] /\ m' = m /\ res = 0 /\ exists ch, channel_at (address pkt) m = Ret ch /\
    Forall (fun x => is_valid x = true /\ blk x <> blk pkt) (ch_RQ ch))).
Proof.
  intros Hm (Ha & Hs & Hinc). unfold add_rq. destruct (_ <? _).
  { eexists _, _, _, _. split; [done|]. split; [done|]. split; [by destruct pkt|]. do 2 (split; [done|]). by left. }
  destruct (channel_range (address pkt) m Hm) as (ch & Hch & Eat & Hc). rewrite Eat. cbn [cbind].
  destruct (ch_WQ ch !! _) as [wx|].
  { eexists _, _, _, _. split; [done|]. split; [done|]. split; [by destruct pkt|]. do 2 (split; [done|]). by left. }
  destruct (Nat.ltb_spec (find_if (eq_addr (address pkt) LOG2_BLOCK_SIZE) (ch_RQ ch)) (length (ch_RQ ch))) as [Hlt|Hge].
  - destruct (find_if_Some _ _ Hlt) as (e & He & [Hae Hbe]%eq_addr_PACKET). set (i := find_if _ _) in *.
    pose proof (ck_packets _ _ Hc (in_RQ i) e (proj2 (at_RQ i e ch) He)) as (Hp1 & Hp2 & Hp3 & Hp4).
    destruct (put_read pkt m ch i e (merge_deps instr_lt instr_eq e pkt)) as (Hm' & Hra); try done.
    { split; [done|]. split; [done|]. split; [done|]. by apply increasing_merge. }
    { by apply reads_merge. }
    assert (ch <| ch_RQ ::= alter (fun e => merge_deps instr_lt instr_eq e pkt) i |> =
            ch <| ch_RQ ::= <[i := merge_deps instr_lt instr_eq e pkt]> |>) as ->.
    { pose proof (list_alter_Some (fun e => merge_deps instr_lt instr_eq e pkt) i e _ He) as Ei.
      destruct ch; cbn in *; by rewrite Ei. }
    eexists _, _, _, _. split; [done|]. split; [done|]. split; [by destruct pkt|]. do 2 (split; [done|]). auto.
  - unfold find_if_not. set (i := find_if (fun x => negb (is_valid x)) (ch_RQ ch)).
    pose proof (unmatched _ _ Hge) as Hno.
    destruct (Nat.ltb_spec i (length (ch_RQ ch))) as [Hlt|Hge'].
    + destruct (find_if_Some _ _ Hlt) as (e & He & Hv%negb_true_iff). fold i in He.
      destruct (free_slot _ _ e (ck_packets _ _ Hc (in_RQ i) e (proj2 (at_RQ i e ch) He)) Hv) as [Hae Hse].
      destruct (put_read pkt m ch i e (pkt <| event_cycle := mc_current_cycle m |>)) as (Hm' & Hra); try done.
      { by rewrite Hse. }
      { by rewrite Hse. }
      { split; [done|]. split; [cbn; lia|]. split; [cbn; by rewrite Hs|done]. }
      { by apply reads_add with e. }
      destruct (get_occupancy_ok 1 (address pkt) _ Hm') as (n & ->). cbn [cbind].
      eexists _, _, _, _. split; [done|]. split; [done|]. split; [by destruct pkt|]. do 2 (split; [done|]). auto.
    + eexists _, _, _, _. split; [done|]. split; [done|]. split; [by destruct pkt|]. do 2 (split; [done|]).
      right. right. do 3 (split; [done|]). exists ch. split; [done|].
      pose proof (find_if_le (fun x => negb (is_valid x)) (ch_RQ ch)).
      assert (Forall (fun x => negb (is_valid x) = false) (ch_RQ ch)) as Hv by (apply find_if_end; unfold i in *; lia).
      rewrite list.Forall_forall in *. intros x Hx. specialize (Hv x Hx). apply negb_false_iff in Hv.
      split; [done|]. by apply Hno.
Qed.

Lemma mc_add_wq_ok pkt m :
  mc_ok m -> request_ok pkt -> to_return pkt = [] ->
  exists res m', add_wq all_warmup_complete pkt m = Ret (res, pkt, [], m') /\ mc_ok m' /\
  mc_current_cycle m' = mc_current_cycle m /\ mc_returned m' = mc_returned m /\ rds m' ≡ₚ rds m.
Proof.
  intros Hm (Ha & Hs & _) Hret. unfold add_wq. destruct (_ <? _); [by eexists _, _|].
  destruct (channel_range (address pkt) m Hm) as (ch & Hch & -> & Hc). cbn [cbind].
  destruct (_ <? _)%nat; [by eexists _, _|]. unfold find_if_not. set (i := find_if (fun x => negb (is_valid x)) (ch_WQ ch)).
  assert (forall ch', ch_RQ ch' = ch_RQ ch -> channel_ok (mc_current_cycle m) ch' ->
    mc_ok (put_channel (address pkt) ch' m) /\ rds (put_channel (address pkt) ch' m) ≡ₚ rds m) as Hput.
  { intros ch' Er Hc'. destruct (bind_insert rd (channels m) _ ch Hch) as (rest & E & E').
    assert (rds (put_channel (address pkt) ch' m) ≡ₚ rds m) as Hrd.
    { unfold rds. rewrite E. cbn. rewrite E'. unfold rd. by rewrite Er. }
    split; [|done]. destruct Hm as [Hl Hcs Ht Hh Hu]. constructor; [cbn; by rewrite length_insert|by apply Forall_insert|done| |by rewrite Hrd].
    intros n c p Hn Hin. apply list_lookup_insert_Some in Hn as [(<- & <- & _)|[_ Hn]]; [|by eapply Hh].
    eapply Hh; [exact Hch|]. unfold rd in *. by rewrite <- Er. }
  destruct (Nat.ltb_spec i (length (ch_WQ ch))) as [Hlt|Hge'].
  - destruct (find_if_Some _ _ Hlt) as (e & He & Hv%negb_true_iff). fold i in He.
    assert (at_it (in_WQ i) ch = Ret e) as Hit by (simpl; by rewrite He).
    destruct (free_slot _ _ e (ck_packets _ _ Hc (in_WQ i) e Hit) Hv) as [Hae Hse].
    set (y := pkt <| event_cycle := mc_current_cycle m |>). set (ch' := ch <| ch_WQ ::= <[i := y]> |>).
    destruct (alter_WQ_at (fun _ => y) i e ch He) as [Hrest Hat].
    assert (ch' = ch <| ch_WQ ::= alter (fun _ => y) i |>) as Ech.
    { unfold ch'. pose proof (list_alter_Some (fun _ => y) i e _ He) as Ei. destruct ch; cbn in *; by rewrite Ei. }
    rewrite <- Ech in Hrest, Hat. destruct (Hput ch') as [Hm' Hold]; [done| |].
    { eapply (store _ ch ch' (in_WQ i) e y); try done; [by rewrite Hse|by rewrite Hse|].
      split; [done|]. split; [cbn; lia|]. split; [cbn; by rewrite Hs|done]. }
    destruct (get_occupancy_ok 2 (address pkt) _ Hm') as (n & ->). by eexists _, _.
  - destruct (Hput (ch <| ch_WQ_FULL ::= fun n => u32 (n + 1) |>)) as [Hm' Hold]; [done| |by eexists _, _].
    by apply (channel_ok_ext _ ch ch); [|apply same_requests_refl|..].
Qed.

(** ** The controller as a lower level *)

Lemma contract_rq pkt m :
  mc_ok m -> request_ok pkt ->
  exists res pkt' ret_calls m', add_rq instr_lt instr_eq all_warmup_complete pkt m = Ret (res, pkt', ret_calls, m') /\ mc_ok m' /\
  mc_current_cycle m' = mc_current_cycle m /\ pkt' = pkt <| data := data pkt' |> /\ (ret_calls = [] \/ ret_calls = (fun ret => (ret, pkt')) <$> to_return pkt) /\
  forall w b, owed m' w b -> owed m w b \/ (ret_calls = [] /\ w ∈ to_return pkt /\ b = blk pkt).
Proof.
  intros Hm Hp. destruct (mc_add_rq_ok pkt m Hm Hp) as (res & pkt' & calls & m' & E & Hm' & Ep & Ht & _ & Hc).
  exists res, pkt', calls, m'. do 4 (split; [done|]). destruct Hc as [[-> ->]|[[-> Hr]|[-> [-> _]]]].
  - split; [right; unfold return_to_all; by rewrite Ep|]. by intros w b; left.
  - split; [by left|]. intros w b Ho. apply (reads_after_owed pkt m) in Ho as [?|[? ?]]; [by left|by right|done].
  - split; [by left|]. by intros w b; left.
Qed.

#[global] Instance dram_lower_level_ok : LowerLevelOk MEMORY_CONTROLLER (H := dram_lower_level instr_lt instr_eq all_warmup_complete).
Proof.
  refine {| ll_inv := mc_ok; ll_offset := LOG2_BLOCK_SIZE; ll_owes := owed; ll_clock := mc_current_cycle |}.
  - apply get_occupancy_ok.
  - apply get_size_ok.
  - apply contract_rq.
  - apply contract_rq.
  - intros pkt m Hm Hp Hr. destruct (mc_add_wq_ok pkt m Hm Hp Hr) as (res & m' & E & Hm' & Ht & _ & Hrd).
    exists res, pkt, m'. do 3 (split; [done|]). intros w b (ws & Hin & Hw). exists ws. by rewrite <- Hrd.
Defined.

(** The invariant holds of a new controller, which owes nothing. *)
Lemma new_MC_ok : mc_ok (new_MC uninit) /\ rds (new_MC uninit) = [].
Proof.
  assert (channel_ok 0 (new_CHANNEL uninit)) as Hc.
  { assert (forall it x, at_it it (new_CHANNEL uninit) = Ret x -> x = new_PACKET uninit) as Hnew.
    { intros [|i|i] x; simpl; [done|..]; destruct (replicate _ _ !! i) eqn:E; try done;
        apply lookup_replicate_1 in E as [-> _]; by intros [= <-]. }
    constructor; simpl; [apply length_replicate..| | | |done].
    - intros it x Hx%Hnew. subst x. do 3 (split; [done|]). destruct it; done || constructor.
    - intros i b [-> _]%lookup_replicate_1. done.
    - intros it x Hx%Hnew. by subst x. }
  assert (rd (new_CHANNEL uninit) = []) as Hrd by (unfold rd; simpl; induction (Z.to_nat DRAM_RQ_SIZE); done).
  assert (rds (new_MC uninit) = []) as Hrds.
  { unfold rds, new_MC. cbn [channels]. induction (Z.to_nat DRAM_CHANNELS) as [|n IH]; [done|].
    cbn [replicate]. by rewrite bind_cons, Hrd, IH. }
  split; [|done]. constructor; [apply length_replicate|by apply Forall_replicate|done| |by rewrite Hrds; constructor].
  intros n ch p [-> _]%lookup_replicate_1 Hin. rewrite Hrd in Hin. by apply elem_of_nil in Hin.
Qed.

(** ** The answers of a cycle *)

Lemma mc_ok_later m t :
  mc_ok m -> mc_current_cycle m <= t < UINT64_MAX -> mc_ok (m <| mc_current_cycle := t |>).
Proof.
  intros [Hl Hc Ht Hh Hu] Hle. constructor; [done| |cbn; lia|done|done].
  eapply Forall_impl; [|exact Hc]. intros ch [? ? ? Hp ? ? ?]. constructor; try done.
  intros it x Hx. destruct (Hp it x Hx) as (? & Hev & ? & ?). split; [done|]. split; [|done].
  intros Hax Hsx. specialize (Hev Hax Hsx). cbn. lia.
Qed.

Lemma elem_of_answers w b fin : (w, b) ∈ answers fin <-> exists ws, (b, ws) ∈ fin /\ w ∈ ws.
Proof.
  unfold answers. rewrite list_elem_of_bind. split.
  - intros ([b' ws] & (w' & [= -> ->] & Hw)%list_elem_of_fmap & Hin). eauto.
  - intros (ws & Hin & Hw). exists (b, ws). split; [|done]. apply list_elem_of_fmap. eauto.
Qed.

Lemma answers_NoDup fin : NoDup (fst <$> fin) -> Forall (fun p => increasing p.2) fin -> NoDup (answers fin).
Proof.
  induction fin as [|[b ws] fin IH]; intros Hnd Hinc; [constructor|].
  rewrite fmap_cons in Hnd. apply list.NoDup_cons in Hnd as [Hnin Hnd]. apply list.Forall_cons in Hinc as [Hws Hinc].
  change (answers ((b, ws) :: fin)) with (((fun w => (w, b)) <$> ws) ++ answers fin). apply list.NoDup_app. split; [|split].
  - apply NoDup_fmap_2; [by intros ? ? [= ->]|by apply increasing_NoDup].
  - intros [w b'] (w' & [= -> ->] & _)%list_elem_of_fmap (us & Hin & _)%elem_of_answers.
    apply Hnin, list_elem_of_fmap. by exists (b, us).
  - by apply IH.
Qed.

(** Each answer of a cycle was owed, is given once, and is owed no more. *)
Lemma operate_answers m :
  mc_ok m -> exists m' ret_calls, operate uninit m = Ret m' /\ mc_ok m' /\ mc_current_cycle m' = mc_current_cycle m /\
  mc_returned m' = mc_returned m ++ ret_calls /\ NoDup (calls_of ret_calls) /\
  (forall w b, owed m w b <-> owed m' w b \/ (w, b) ∈ calls_of ret_calls) /\
  (forall w b, (w, b) ∈ calls_of ret_calls -> ~ owed m' w b).
Proof.
  intros Hm. destruct (operate_reads m Hm) as (m' & calls & fin & E & Hm' & Ht & Hr & Hp & Ha).
  exists m', calls. do 4 (split; [done|]). rewrite Ha.
  pose proof (mk_unique _ Hm) as Hu. rewrite Hp, fmap_app in Hu. apply list.NoDup_app in Hu as (Hu1 & Hdis & _).
  split; [|split].
  - apply answers_NoDup; [done|]. apply list.Forall_forall. intros p Hin. apply (rds_increasing m); [done|].
    rewrite Hp, elem_of_app. by left.
  - intros w b. rewrite elem_of_answers. unfold owed. setoid_rewrite Hp. setoid_rewrite elem_of_app. split.
    + intros (ws & [Hin|Hin] & Hw); [right|left]; by exists ws.
    + intros [(ws & Hin & Hw)|(ws & Hin & Hw)]; exists ws; auto.
  - intros w b (ws & Hin & Hw)%elem_of_answers (us & Hin' & _).
    apply (Hdis b); apply list_elem_of_fmap; [by exists (b, ws)|by exists (b, us)].
Qed.

End Controller.
End Memory.
