(* ===== verification/SimSystem.v ===== *)
(** * ChampSim: the memory hierarchy

    The cache as the level below another cache, the prefetcher that does nothing,
    and what holds of whole runs of a hierarchy. *)

From S2P Require Import Prelude SimUtil SimQueue SimVmem SimRepl SimLru SimRrip SimCache SimCacheSpec SimCacheStep SimCacheRun SimDram SimDramSpec SimMemory.
Import Util Mem Circ Delay Vmem Sets Cache CacheSpec CacheStep CacheRun.
Local Open Scope c_scope.

(** ** prefetcher/no/no.cc *)
Module NoPrefetch.

#[global] Instance prefetcher C : Prefetcher C := {|
  prefetcher_cache_operate := fun addr ip cache_hit type metadata_in c => Ret (metadata_in, c);
  prefetcher_cache_fill := fun addr set way prefetch evicted_addr metadata_in c => Ret (metadata_in, c);
  prefetcher_cycle_operate := fun c => Ret c;
|}.

Section Ok.
Context {R P L : Type} `{Replacement R} `{LowerLevel L} `{!LowerLevelOk L} (k : params).
Context `{!ReplacementOk R (NUM_SET k) (NUM_WAY k)}.

Lemma pf_frame_refl (c : CACHE R P L) : pf_frame c c.
Proof.
  repeat (split; [done|]). exists (items (PQ c)). split; [done|]. split; [done|].
  apply Forall_Forall2_diag, Forall_true. done.
Qed.

#[global] Instance prefetcher_ok : PrefetcherOk (R:=R) (P:=P) (L:=L) k.
Proof. split; intros; eauto 6 using pf_frame_refl. Qed.
End Ok.

End NoPrefetch.

Module System.

(** ** A cache below another *)

Definition cache_lower_level {R P L : Type} (k : params) (warmup_complete : Z -> bool) (instr_lt instr_eq : nat -> nat -> bool)
    : LowerLevel (CACHE R P L) := {|
  ll_fill_level := fun _ => cache_level k;
  ll_add_rq := add_rq k warmup_complete instr_lt instr_eq;
  ll_add_wq := add_wq k warmup_complete;
  ll_add_pq := add_pq k warmup_complete;
  ll_get_occupancy := fun q a c => Ret (get_occupancy q a c);
  ll_get_size := fun q a c => Ret (get_size k q a c);
|}.

Section Stack.
Context {R P L : Type} `{Replacement R} `{LowerLevel L} `{!LowerLevelOk L}.
Context (k : params) (warmup_complete : Z -> bool) (instr_lt instr_eq : nat -> nat -> bool).
Context `{!ReplacementOk R (NUM_SET k) (NUM_WAY k)}.

#[global] Instance cache_lower_level_ok :
  LowerLevelOk (CACHE R P L) (H := cache_lower_level k warmup_complete instr_lt instr_eq).
Proof.
  refine {| ll_inv := inv k; ll_offset := OFFSET_BITS k; ll_owes := owes k; ll_clock := current_cycle |}.
  - intros. by eexists.
  - intros. by eexists.
  - intros pkt c Hi Hp. destruct (CacheSpec.add_rq_ok k warmup_complete instr_lt instr_eq pkt c Hi Hp)
      as (res & pkt' & calls & c' & E & Hi' & Ep & Hc & Ht & Ho). exists res, pkt', calls, c'. do 4 (split; [done|]).
    split; [|done]. destruct Hc as [->| ->]; [by left|right]. unfold return_to_all. by rewrite Ep.
  - intros pkt c Hi Hp. destruct (CacheSpec.add_pq_ok k warmup_complete None pkt c Hi Hp)
      as (res & pkt' & calls & c' & E & Hi' & Ep & Hc & _ & _ & Ht & Ho). exists res, pkt', calls, c'. do 4 (split; [done|]).
    split; [|done]. destruct Hc as [->| ->]; [by left|right]. unfold return_to_all. by rewrite Ep.
  - intros pkt c Hi Hp _. destruct (CacheSpec.add_wq_ok k warmup_complete pkt c Hi Hp) as (res & c' & E & Hi' & Ht & Ho).
    by exists res, pkt, c'.
Defined.

End Stack.

(** ** Runs

    [operable::_operate] of inc/operable.h, for a component at the frequency of
    the simulation: [leap_operation] stays 0. *)
Section Runs.
Context `{Config} {R P L : Type} `{Replacement R} `{LowerLevel L}.
Context (k : params) (warmup_complete : Z -> bool) (instr_lt instr_eq : nat -> nat -> bool) (uninit : Z).
Context `{!Prefetcher (CACHE R P L)}.

Definition _operate (c : CACHE R P L) : cres (CACHE R P L) :=
  let* c := operate k warmup_complete instr_lt instr_eq uninit c in
  Ret (c <| current_cycle ::= fun n => u64 (n + 1) |>).

Fixpoint cycles (n : nat) (c : CACHE R P L) : cres (CACHE R P L) :=
  match n with
  | O => Ret c
  | S n => let* c := _operate c in cycles n c
  end.

Context `{!LowerLevelOk L} `{!ReplacementOk R (NUM_SET k) (NUM_WAY k)} `{!PrefetcherOk k}.

Lemma _operate_ok c :
  params_ok k -> OFFSET_BITS k = ll_offset -> inv k c -> current_cycle c + 1 + FILL_LATENCY k < UINT64_MAX ->
  exists c', _operate c = Ret c' /\ inv k c' /\ keeps k c c' /\ current_cycle c' = current_cycle c + 1 /\
  ll_clock <$> lower_level c' = ll_clock <$> lower_level c.
Proof.
  intros Hk Hoff Hi Ht. unfold _operate.
  destruct (CacheRun.operate_ok k warmup_complete instr_lt instr_eq uninit Hk Hoff c Hi) as (c1 & -> & Hi1 & Hk1 & Ht1 & Hck).
  cbn [cbind]. eexists. split; [done|]. destruct (inv_time _ _ _ Hi) as [Hpos _].
  pose proof (ok_latency k Hk) as Hlat.
  assert (u64 (current_cycle c1 + 1) = current_cycle c + 1) as E by (rewrite Ht1; apply u64_small; unfold UINT64_MAX in *; lia).
  split; [|split; [|split; [exact E|exact Hck]]].
  - destruct Hi1 as [? ? ? ? ? ? ? ? ? ? ?]. constructor; try assumption. cbn. rewrite E. lia.
  - transitivity c1; [done|]. by apply keeps_same.
Qed.

(** C18: However long a cache runs over a level that keeps its contract, it fails no
    assertion, keeps its queues, miss registers and blocks in order, and forgets
    no demand: who waits for a block in the read queue or in a miss register still
    waits, or has been answered with that block. *)
Theorem cache_cycles_keep_demands n c :
  params_ok k -> OFFSET_BITS k = ll_offset -> inv k c -> current_cycle c + Z.of_nat n + FILL_LATENCY k < UINT64_MAX ->
  exists c', cycles n c = Ret c' /\ inv k c' /\ keeps k c c' /\ current_cycle c' = current_cycle c + Z.of_nat n.
Proof.
  intros Hk Hoff. revert c. induction n as [|n IH]; intros c Hi Ht.
  - exists c. split; [done|]. split; [done|]. split; [done|lia].
  - destruct (_operate_ok c Hk Hoff Hi) as (c1 & E & Hi1 & Hk1 & Ht1 & _); [lia|].
    destruct (IH c1 Hi1) as (c2 & E2 & Hi2 & Hk2 & Ht2); [lia|].
    exists c2. simpl. rewrite E. split; [done|]. split; [done|]. split; [by transitivity c1|lia].
Qed.

(** C31: A fill whose data has arrived takes effect or is put off: the block is put
    in its set, where it is found from now on, everyone who waits for it is
    answered with its data and the register is freed; a dirty victim has been
    written back before.  When the level below refuses the write-back, nothing
    changes but replacement state. *)
Theorem fill_answers_waiters m l (c : CACHE R P L) :
  params_ok k -> inv k c -> MSHR c = m :: l -> event_cycle m <= current_cycle c ->
  exists go c' way b, handle_fill_step k warmup_complete uninit c = Ret (go, c') /\ inv k c' /\
  block c !! (get_set k (address m) * NUM_WAY k + way)%nat = Some b /\ victim_saved b c go (lower_level c') /\
  (if go : bool then
     MSHR c' = l /\ (exists m', same_request m m' /\ returned c' = returned c ++ return_to_all m') /\
     same_but_lru (alter (filled k m) (get_set k (address m) * NUM_WAY k + way)%nat (block c)) (block c') /\
     (get_way k (address m) (get_set k (address m)) c' < NUM_WAY k)%nat
   else MSHR c' = MSHR c /\ returned c' = returned c /\ same_but_lru (block c) (block c')).
Proof.
  intros Hk Hi HM Ht.
  destruct (CacheRun.fill_step k warmup_complete uninit Hk m l c Hi HM Ht) as (go & c' & way & b & ? & ? & _ & _ & _ & ?).
  by exists go, c', way, b.
Qed.

(** A miss to a block that is being fetched joins its register, which then
    answers both, except when a demand meets the register of a prefetch: the
    demand replaces it, and those who waited for the prefetch are dropped. *)
Theorem mshr_merge_waiters i e pkt (c : CACHE R P L) :
  inv k c -> MSHR c !! i = Some e -> block_of k pkt = block_of k e -> address pkt <> 0 ->
  exists c' e', merge_mshr k instr_lt instr_eq i pkt c = Ret c' /\ inv k c' /\ MSHR c' = <[i := e']> (MSHR c) /\
  returned c' = returned c /\
  if (type e =? PREFETCH) && negb (type pkt =? PREFETCH) then to_return e' = to_return pkt
  else forall w, w ∈ to_return e' <-> w ∈ to_return e \/ w ∈ to_return pkt.
Proof.
  intros Hi He Hb Ha.
  destruct (CacheStep.merge_mshr_ok k instr_lt instr_eq i e pkt c Hi He Hb Ha) as (c' & e' & E & Hi' & Ec & _ & _ & _ & Hm).
  exists c', e'. split; [done|]. split; [done|]. split; [by rewrite Ec|]. split; [by rewrite Ec|].
  unfold overtakes in Hm. destruct (_ && _); apply Hm.
Qed.

End Runs.

(** ** A cache over the memory

    A cycle of the last cache and the memory controller: the cache runs, then the
    controller, whose answers reach the cache. *)
Section CacheMemory.
Context `{DramSpec.DramOk} {R P : Type} `{Replacement R}.
Context (k : params) (warmup_complete : Z -> bool) (instr_lt instr_eq : nat -> nat -> bool) (uninit all_warmup_complete : Z).
Local Abbreviation MC := Dram.MEMORY_CONTROLLER.
#[local] Instance memory : LowerLevel MC := Dram.dram_lower_level instr_lt instr_eq all_warmup_complete.
Context `{!Prefetcher (CACHE R P MC)}.

Definition memory_cycle (c : CACHE R P MC) : cres (CACHE R P MC) :=
  let* c := _operate k warmup_complete instr_lt instr_eq uninit c in
  let* m := the_lower_level c in
  let* m' := Dram.operate uninit m in
  let ret_calls := drop (length (Dram.mc_returned m)) (Dram.mc_returned m') in
  deliver k warmup_complete ret_calls
    (c <| lower_level := Some (m' <| Dram.mc_current_cycle ::= fun n => u64 (n + 1) |>) |>).

Fixpoint memory_cycles (n : nat) (c : CACHE R P MC) : cres (CACHE R P MC) :=
  match n with
  | O => Ret c
  | S n => let* c := memory_cycle c in memory_cycles n c
  end.

#[local] Instance memory_ok : LowerLevelOk MC := Memory.dram_lower_level_ok instr_lt instr_eq all_warmup_complete.
Context `{!ReplacementOk R (NUM_SET k) (NUM_WAY k)} `{!PrefetcherOk k}.

(** The two components have cycles left to count. *)
Definition time_left (n : Z) (c : CACHE R P MC) : Prop :=
  current_cycle c + n + FILL_LATENCY k < UINT64_MAX /\
  forall m, lower_level c = Some m -> Dram.mc_current_cycle m + n < UINT64_MAX.

Lemma memory_cycle_ok n c :
  params_ok k -> OFFSET_BITS k = Dram.LOG2_BLOCK_SIZE -> inv k c -> 0 <= n -> time_left (1 + n) c ->
  exists c', memory_cycle c = Ret c' /\ inv k c' /\ keeps k c c' /\ time_left n c'.
Proof.
  intros Hk Hoff Hi Hn [Ht Htm]. unfold memory_cycle.
  assert (OFFSET_BITS k = ll_offset (L := MC)) as Hoff' by exact Hoff.
  destruct (_operate_ok k warmup_complete instr_lt instr_eq uninit c Hk Hoff' Hi) as (c1 & -> & Hi1 & Hk1 & Ht1 & Hck); [lia|].
  cbn [cbind]. destruct (inv_lower _ _ _ Hi1) as (m & Hl & Hm & Haw).
  unfold the_lower_level. rewrite Hl. cbn [cbind].
  destruct (Memory.operate_answers uninit m Hm) as (m' & calls & -> & Hm' & Htm' & Hr & Hnd & Ho & Hno). cbn [cbind].
  assert (exists m0, lower_level c = Some m0 /\ Dram.mc_current_cycle m = Dram.mc_current_cycle m0) as (m0 & Hl0 & Hc0).
  { rewrite Hl in Hck. destruct (lower_level c) as [m0|]; [|done]. injection Hck as Hck. by exists m0. }
  pose proof (Htm m0 Hl0) as Hbound. pose proof (Memory.mk_time _ Hm) as Htime.
  rewrite Hr, drop_app_length. set (m2 := m' <| Dram.mc_current_cycle ::= _ |>).
  assert (u64 (Dram.mc_current_cycle m' + 1) = Dram.mc_current_cycle m + 1) as Eclk
    by (rewrite Htm'; apply u64_small; unfold UINT64_MAX in *; lia).
  assert (Memory.mc_ok m2) as Hm2.
  { apply Memory.mc_ok_later; [done|]. change (Dram.mc_current_cycle m' <= u64 (Dram.mc_current_cycle m' + 1) < UINT64_MAX).
    rewrite Eclk. lia. }
  assert (forall pkt : PACKET, block_of k pkt = Memory.blk pkt) as Eblk by (intros pkt; unfold block_of, Memory.blk; by rewrite Hoff).
  assert (forall pkt, (self k, pkt) ∈ calls -> (self k, block_of k pkt) ∈ Memory.calls_of calls) as Hcall.
  { intros pkt Hin. rewrite Eblk. apply list_elem_of_fmap. by exists (self k, pkt). }
  destruct (CacheRun.deliver_ok k warmup_complete Hk calls (c1 <| lower_level := Some m2 |>)) as (c' & -> & Hi' & Hk' & Ht' & Hl').
  - apply inv_lower_level; [done|done|]. intros b Hb. apply Haw. apply Ho. by left.
  - unfold Memory.calls_of in Hnd. erewrite list_fmap_ext; [exact Hnd|]. intros i r _. by rewrite Eblk.
  - intros pkt Hin. apply Haw, Ho. right. by apply Hcall.
  - intros l pkt [= <-] Hin. by apply (Hno (self k)), Hcall.
  - exists c'. split; [done|]. split; [done|]. split.
    + transitivity c1; [done|]. transitivity (c1 <| lower_level := Some m2 |>); [by apply keeps_same|done].
    + split; [rewrite Ht'; change (current_cycle c1 + n + FILL_LATENCY k < UINT64_MAX); lia|].
      intros m3 Hm3. rewrite Hl' in Hm3. injection Hm3 as <-.
      change (u64 (Dram.mc_current_cycle m' + 1) + n < UINT64_MAX). lia.
Qed.

Lemma memory_cycles_ok n left c :
  params_ok k -> OFFSET_BITS k = Dram.LOG2_BLOCK_SIZE -> inv k c -> 0 <= left -> time_left (Z.of_nat n + left) c ->
  exists c', memory_cycles n c = Ret c' /\ inv k c' /\ keeps k c c' /\ time_left left c'.
Proof.
  intros Hk Hoff Hi Hl. revert c Hi. induction n as [|n IH]; intros c Hi Ht; [by exists c|].
  destruct (memory_cycle_ok (Z.of_nat n + left) c Hk Hoff Hi) as (c1 & E & Hi1 & Hk1 & Ht1); [lia| |].
  { by replace (1 + (Z.of_nat n + left)) with (Z.of_nat (S n) + left) by lia. }
  destruct (IH c1 Hi1 Ht1) as (c2 & E2 & Hi2 & Hk2 & Ht2). exists c2. simpl. rewrite E.
  split; [done|]. split; [done|]. split; [by transitivity c1|done].
Qed.

(** C9: A cache over the memory controller runs for as long as the counters last:
    no assertion of either fails, every answer of the controller finds a miss
    register that waits for it, and no demand is forgotten. *)
Theorem cache_memory_runs n c :
  params_ok k -> OFFSET_BITS k = Dram.LOG2_BLOCK_SIZE -> inv k c -> time_left (Z.of_nat n) c ->
  exists c', memory_cycles n c = Ret c' /\ inv k c' /\ keeps k c c' /\ time_left 0 c'.
Proof. intros Hk Hoff Hi Ht. apply memory_cycles_ok; [done..|]. by rewrite Z.add_0_r. Qed.

End CacheMemory.

(** ** A small hierarchy

    Two caches of two sets and two ways over one channel of memory. *)
Module Small.

#[local] Instance config : Config := {| BLOCK_SIZE := 64; PAGE_SIZE := 4096; NUM_CPUS := 1 |}.
#[local] Instance dram_config : DramConfig := {|
  DRAM_CHANNELS := 1; DRAM_RANKS := 1; DRAM_BANKS := 2; DRAM_ROWS := 16; DRAM_COLUMNS := 8;
  DRAM_WQ_SIZE := 4; DRAM_RQ_SIZE := 4; tRP := 2; tRCD := 2; tCAS := 2;
  DRAM_DBUS_TURN_AROUND_TIME := 1; DRAM_DBUS_RETURN_TIME := 1 |}.
#[local] Instance dram_ok : DramSpec.DramOk.
Proof.
  refine {| DramSpec.l_block := 6; DramSpec.l_channels := 0; DramSpec.l_banks := 1; DramSpec.l_columns := 3;
            DramSpec.l_ranks := 0; DramSpec.l_rows := 4 |}; try reflexivity; split; try split; try lia; done.
Defined.

(** The constants of the cache at a level; it is producer number [level]. *)
Definition constants (level : Z) : params :=
  mkParams 2 2 2 1 6 1 1 false false false 5 level (Z.to_nat level).

Lemma constants_ok level : params_ok (constants level).
Proof. constructor; cbn; [exists 1%nat; split; [done|lia]|lia|lia|lia|lia]. Qed.

Definition warm (cpu : Z) : bool := true.

#[local] Instance memory : LowerLevel Dram.MEMORY_CONTROLLER := Dram.dram_lower_level Nat.ltb Nat.eqb 1.
#[local] Instance memory_ok : LowerLevelOk Dram.MEMORY_CONTROLLER := Memory.dram_lower_level_ok Nat.ltb Nat.eqb 1.

Definition L2_state : Type := CACHE Lru.state unit Dram.MEMORY_CONTROLLER.
#[local] Instance L2 : LowerLevel L2_state := System.cache_lower_level (constants 2) warm Nat.ltb Nat.eqb.
Import LruOrder.
#[local] Instance L2_ok : LowerLevelOk L2_state := System.cache_lower_level_ok (constants 2) warm Nat.ltb Nat.eqb.

Definition no_vmem : VirtualMemory := mkVM ∅ ∅ 0 0 5 4096 [].
Definition new_L2 : L2_state := new_CACHE (constants 2) 0 4 4 4 1 (Some (Dram.new_MC 0)) Lru.mkLru tt no_vmem.
Definition new_L1 : CACHE Lru.state unit L2_state := new_CACHE (constants 1) 0 4 4 4 1 (Some new_L2) Lru.mkLru tt no_vmem.


(** A demand for the block at [a], for the core, which is producer 0. *)
Definition request (a : Z) : PACKET := new_PACKET 0 <| address := a |> <| type := LOAD |> <| to_return := [0%nat] |>.

Lemma request_request_ok a : a <> 0 -> request_ok (request a).
Proof. intros Ha. split; [exact Ha|]. split; [done|]. repeat constructor. Qed.

Lemma new_L2_ok : inv (constants 2) new_L2.
Proof.
  destruct (Memory.new_MC_ok 0) as [Hm Hr]. apply CacheSpec.new_CACHE_ok; [apply constants_ok|exact Hm| |exact I|reflexivity].
  intros b (ws & Hin & _). rewrite Hr in Hin. by apply elem_of_nil in Hin.
Qed.

Definition get {A} (d : A) (m : cres A) : A := match m with Ret x => x | Abort _ => d end.

(** The cache with the demand, and the cache later. *)
Definition asked : L2_state := (get (0, request 64, [], new_L2) (add_rq (constants 2) warm Nat.ltb Nat.eqb (request 64) new_L2)).2.
Definition after (n : nat) : L2_state := get asked (memory_cycles (constants 2) warm Nat.ltb Nat.eqb 0 1 n asked).

Lemma asked_ok : inv (constants 2) asked.
Proof.
  unfold asked. destruct (CacheSpec.add_rq_ok (constants 2) warm Nat.ltb Nat.eqb (request 64) new_L2 new_L2_ok)
    as (res & pkt' & calls & c' & E & Hi & _); [by apply request_request_ok|]. by rewrite E.
Qed.

Lemma asked_time n : n <= 1000 -> time_left (constants 2) n asked.
Proof.
  intros Hn. assert (current_cycle asked = 0) as E0 by (vm_compute; reflexivity).
  split; [rewrite E0; cbn; unfold UINT64_MAX; lia|]. intros m Hm.
  assert (Dram.mc_current_cycle <$> lower_level asked = Some 0) as E by (vm_compute; reflexivity).
  rewrite Hm in E. injection E as ->. unfold UINT64_MAX. lia.
Qed.

Lemma after_ok n : (n < 1000)%nat -> inv (constants 2) (after n).
Proof.
  intros Hn. unfold after.
  destruct (memory_cycles_ok (constants 2) warm Nat.ltb Nat.eqb 0 1 n (1000 - Z.of_nat n) asked) as (c' & E & Hi & _);
    [apply constants_ok|done|apply asked_ok|lia| |by rewrite E].
  apply asked_time. lia.
Qed.

Lemma cache_memory_runs_witness :
  waits (constants 2) asked 0 1 /\
  exists c', memory_cycles (constants 2) warm Nat.ltb Nat.eqb 0 1 12 asked = Ret c' /\ keeps (constants 2) asked c' /\
  c' = after 12 /\ fst <$> returned c' = [0%nat].
Proof.
  split. { left. exists (request 64). split; [vm_compute; left|]. split; [done|]. split; [done|left]. }
  destruct (cache_memory_runs (constants 2) warm Nat.ltb Nat.eqb 0 1 12 asked) as (c' & E & _ & Hk & _);
    [apply constants_ok|done|apply asked_ok|apply (asked_time 12); lia|].
  exists c'. split; [done|]. split; [done|]. assert (c' = after 12) as -> by (unfold after; by rewrite E).
  split; [done|]. vm_compute. reflexivity.
Defined.

Lemma cache_cycles_witness :
  exists c', cycles (constants 2) warm Nat.ltb Nat.eqb 0 5 asked = Ret c' /\ inv (constants 2) c' /\ keeps (constants 2) asked c' /\
  current_cycle c' = 5.
Proof.
  destruct (cache_cycles_keep_demands (constants 2) warm Nat.ltb Nat.eqb 0 5 asked) as (c' & E & Hi & Hk & Ht);
    [apply constants_ok|done|apply asked_ok|vm_compute; reflexivity|].
  exists c'. split; [done|]. split; [done|]. split; [done|]. rewrite Ht. vm_compute. reflexivity.
Defined.

Lemma fill_answers_waiters_witness :
  exists go c', handle_fill_step (constants 2) warm 0 (after 10) = Ret (go, c') /\ inv (constants 2) c'.
Proof.
  destruct (MSHR (after 10)) as [|m l] eqn:E; [vm_compute in E; discriminate|].
  assert (event_cycle m <= current_cycle (after 10)) as Hm.
  { assert (event_cycle <$> MSHR (after 10) = [10]) as Em by (vm_compute; reflexivity).
    rewrite E in Em. injection Em as -> _. vm_compute. discriminate. }
  destruct (fill_answers_waiters (constants 2) warm 0 m l (after 10)) as (go & c' & _ & _ & Ef & Hi & _);
    [apply constants_ok|apply after_ok; lia|exact E|exact Hm|]. exists go, c'. exact (conj Ef Hi).
Defined.

Lemma mshr_merge_witness :
  exists c', merge_mshr (constants 2) Nat.ltb Nat.eqb 0 (request 72 <| to_return := [3%nat] |>) (after 3) = Ret c' /\
  inv (constants 2) c'.
Proof.
  destruct (MSHR (after 3) !! 0%nat) as [e|] eqn:He; [|vm_compute in He; discriminate].
  assert (block_of (constants 2) <$> MSHR (after 3) !! 0%nat = Some 1) as Eb by (vm_compute; reflexivity).
  destruct (mshr_merge_waiters (constants 2) Nat.ltb Nat.eqb 0 e (request 72 <| to_return := [3%nat] |>) (after 3))
    as (c' & _ & E & Hi & _); [apply after_ok; lia|exact He| |discriminate|].
  - rewrite He in Eb. injection Eb as ->. reflexivity.
  - exists c'. exact (conj E Hi).
Defined.

(** The last block of a memory of 2^14 bytes. *)
Lemma dram_places_witness :
  DramSpec.place (Dram.dram_get_row 16383) (Dram.dram_get_rank 16383) (Dram.dram_get_column 16383)
    (Dram.dram_get_bank 16383) (Dram.dram_get_channel 16383) = 255.
Proof. destruct DramSpec.dram_places as [H _]. apply (H 16383). cbn. lia. Defined.

End Small.
End System.
