(* ===== verification/SimBranch.v ===== *)
(** * ChampSim's branch predictors

    The four predictors of champsim/branch/: [Bimodal], [Gshare], [Perceptron] and
    [HashedPerceptron], behind the class [BranchPredictor] through which the core
    uses them, with what each of them has learnt after a run.  The tables are
    those of one CPU.  Outcomes are booleans: the core passes 0 and 1 only. *)
From stdpp Require Import base list gmap.
From S2P Require Import Prelude SimUtil.
Open Scope Z_scope.
Import Util.

(** What the core calls: [impl_predict_branch] and [impl_last_branch_result].  A
    prediction may record state for the update. *)
Class BranchPredictor (S : Type) := {
  predict_branch : forall (ip predicted_target : Z) (always_taken : bool) (branch_type : Z), S -> bool * S;
  last_branch_result : forall (ip branch_target : Z) (taken : bool) (branch_type : Z), S -> S;
}.

(** The core predicts every branch and reports its outcome at once. *)
Definition branch_step {S} `{BranchPredictor S} (s : S) (b : Z * bool) : S :=
  last_branch_result b.1 0 b.2 0 (predict_branch b.1 0 false 0 s).2.
Definition branch_run {S} `{BranchPredictor S} (bs : list (Z * bool)) (s : S) : S := foldl branch_step s bs.

Lemma branch_run_snoc {S} `{BranchPredictor S} bs b (s : S) : branch_run (bs ++ [b]) s = branch_step (branch_run bs s) b.
Proof. unfold branch_run. by rewrite foldl_app. Qed.

Lemma branch_run_app {S} `{BranchPredictor S} bs bs' (s : S) : branch_run (bs ++ bs') s = branch_run bs' (branch_run bs s).
Proof. apply foldl_app. Qed.

(** The entry of an array, and its update. *)
Definition entry (l : list Z) (i : nat) : Z := default 0 (l !! i).

Lemma entry_insert l i j v : (i < length l)%nat -> entry (<[i := v]> l) j = if decide (i = j) then v else entry l j.
Proof.
  intros Hi. unfold entry. destruct (decide (i = j)) as [<-|Hne].
  - by rewrite list_lookup_insert_eq.
  - by rewrite list_lookup_insert_ne.
Qed.

Lemma entry_replicate n v i : (i < n)%nat -> entry (replicate n v) i = v.
Proof. intros Hi. unfold entry. by rewrite lookup_replicate_2. Qed.

(** ** branch/bimodal/bimodal.cc *)
Module Bimodal.

Definition BIMODAL_TABLE_SIZE : Z := 16384.
Definition BIMODAL_PRIME : Z := 16381.
Definition COUNTER_BITS : Z := 2.

Record state := mkBimodal { bimodal_table : list Z }.

Definition initialize_branch_predictor : state := mkBimodal (replicate (Z.to_nat BIMODAL_TABLE_SIZE) 0).

Definition hash (ip : Z) : nat := Z.to_nat (u32 (ip mod BIMODAL_PRIME)).

Definition predict (ip : Z) (s : state) : bool :=
  Z.shiftl 1 (COUNTER_BITS - 1) <=? entry (bimodal_table s) (hash ip).

(** The saturating counter. *)
Definition count (taken : bool) (c : Z) : Z :=
  if taken then Z.min (c + 1) (Z.shiftl 1 COUNTER_BITS - 1) else Z.max (c - 1) 0.

#[global] Instance predictor : BranchPredictor state := {|
  predict_branch := fun ip predicted_target always_taken branch_type s => (predict ip s, s);
  last_branch_result := fun ip branch_target taken branch_type s =>
    mkBimodal (<[hash ip := count taken (entry (bimodal_table s) (hash ip))]> (bimodal_table s));
|}.

(** *** What has been learnt *)

Definition ok (s : state) : Prop :=
  length (bimodal_table s) = Z.to_nat BIMODAL_TABLE_SIZE /\ Forall (fun c => 0 <= c <= 3) (bimodal_table s).

Lemma bimodal_hash_lt ip : (hash ip < Z.to_nat BIMODAL_TABLE_SIZE)%nat.
Proof.
  unfold hash, BIMODAL_TABLE_SIZE, BIMODAL_PRIME. pose proof (Z.mod_pos_bound ip 16381).
  rewrite u32_small by lia. lia.
Qed.

Lemma bimodal_count_range taken c : 0 <= c <= 3 -> 0 <= count taken c <= 3.
Proof. unfold count. change (Z.shiftl 1 COUNTER_BITS - 1) with 3. destruct taken; lia. Qed.

Lemma bimodal_entry_range s ip : ok s -> 0 <= entry (bimodal_table s) (hash ip) <= 3.
Proof.
  intros [Hl Hr]. unfold entry. destruct (bimodal_table s !! hash ip) as [c|] eqn:E; [|simpl; lia].
  rewrite Forall_lookup in Hr. exact (Hr _ _ E).
Qed.

Lemma bimodal_step_ok s b : ok s -> ok (branch_step s b).
Proof.
  intros [Hl Hr]. split; simpl; [by rewrite length_insert|]. apply Forall_insert; [done|].
  by apply bimodal_count_range, bimodal_entry_range.
Qed.

Lemma bimodal_run_ok bs s : ok s -> ok (branch_run bs s).
Proof. revert s. induction bs as [|b bs IH]; intros s Hs; [done|]. by apply IH, bimodal_step_ok. Qed.

(** The outcomes of the branches that share the counter of [ip]. *)
Definition outcomes (ip : Z) (bs : list (Z * bool)) : list bool := (filter (fun b => hash b.1 = hash ip) bs).*2.

(** The counter of a branch has counted these outcomes only. *)
Lemma bimodal_run_counter bs s ip :
  ok s -> entry (bimodal_table (branch_run bs s)) (hash ip) = foldl (fun c t => count t c) (entry (bimodal_table s) (hash ip)) (outcomes ip bs).
Proof.
  revert s. induction bs as [|b bs IH]; intros s Hs; [done|].
  change (branch_run (b :: bs) s) with (branch_run bs (branch_step s b)). rewrite IH by (by apply bimodal_step_ok).
  unfold outcomes. rewrite filter_cons. destruct Hs as [Hl _]. simpl bimodal_table.
  rewrite entry_insert by (rewrite Hl; apply bimodal_hash_lt). destruct (decide (hash b.1 = hash ip)) as [E|E]; [|done].
  simpl. by rewrite E.
Qed.

Lemma bimodal_count_3 d c : 0 <= c <= 3 -> count d (count d (count d c)) = if d then 3 else 0.
Proof. unfold count. change (Z.shiftl 1 COUNTER_BITS - 1) with 3. destruct d; lia. Qed.

Lemma bimodal_foldl_count_range os c : 0 <= c <= 3 -> 0 <= foldl (fun c t => count t c) c os <= 3.
Proof. revert c. induction os as [|o os IH]; intros c Hc; [done|]. by apply IH, bimodal_count_range. Qed.

(** Two equal outcomes in a row are predicted again; after three, one exception
    does not change the prediction.  [before] and other branches are arbitrary. *)
Theorem bimodal_predicts bs ip before d :
  let predicted := (predict_branch ip 0 false 0 (branch_run bs initialize_branch_predictor)).1 in
  (outcomes ip bs = before ++ [d; d] -> predicted = d) /\
  (outcomes ip bs = before ++ [d; d; d; negb d] -> predicted = d).
Proof.
  assert (ok initialize_branch_predictor) as Hok.
  { split; [apply length_replicate|]. apply Forall_replicate. lia. }
  cbn [predict_branch predictor fst]. unfold predict. rewrite bimodal_run_counter by done.
  set (c0 := entry _ _). assert (0 <= c0 <= 3) as Hc0 by (by apply bimodal_entry_range).
  change (Z.shiftl 1 (COUNTER_BITS - 1)) with 2. split; intros ->; rewrite foldl_app; simpl;
    pose proof (bimodal_foldl_count_range before c0 Hc0) as Hc; set (c := foldl _ c0 before) in *.
  - unfold count. change (Z.shiftl 1 COUNTER_BITS - 1) with 3. destruct d; lia.
  - rewrite bimodal_count_3 by done. by destruct d.
Qed.

End Bimodal.

(** ** branch/gshare/gshare.cc *)
Module Gshare.

Definition GLOBAL_HISTORY_LENGTH : Z := 14.
Definition GLOBAL_HISTORY_MASK : Z := Z.shiftl 1 GLOBAL_HISTORY_LENGTH - 1.
Definition GS_HISTORY_TABLE_SIZE : Z := 16384.

Record state := mkGshare {
  branch_history_vector : Z;
  gs_history_table : list Z;
  my_last_prediction : Z;
}.

Definition initialize_branch_predictor : state := mkGshare 0 (replicate (Z.to_nat GS_HISTORY_TABLE_SIZE) 2) 0.

Definition gs_table_hash (ip bh_vector : Z) : nat :=
  Z.to_nat (u32 (Z.lxor (Z.lxor (Z.lxor ip (Z.shiftr ip GLOBAL_HISTORY_LENGTH)) (Z.shiftr ip (GLOBAL_HISTORY_LENGTH * 2))) bh_vector)
            mod GS_HISTORY_TABLE_SIZE).

Definition predict (ip : Z) (s : state) : bool :=
  2 <=? entry (gs_history_table s) (gs_table_hash ip (branch_history_vector s)).

Definition count (taken : bool) (c : Z) : Z :=
  if taken then (if c <? 3 then c + 1 else c) else (if 0 <? c then c - 1 else c).

Definition shift_history (taken : bool) (v : Z) : Z := Z.lor (Z.land (Z.shiftl v 1) GLOBAL_HISTORY_MASK) (b2z taken).

#[global] Instance predictor : BranchPredictor state := {|
  predict_branch := fun ip predicted_target always_taken branch_type s =>
    let prediction := predict ip s in
    (prediction, mkGshare (branch_history_vector s) (gs_history_table s) (b2z prediction));
  last_branch_result := fun ip branch_target taken branch_type s =>
    let gs_hash := gs_table_hash ip (branch_history_vector s) in
    mkGshare (shift_history taken (branch_history_vector s))
      (<[gs_hash := count taken (entry (gs_history_table s) gs_hash)]> (gs_history_table s))
      (my_last_prediction s);
|}.

(** *** The history register *)

Lemma shift_history_bit taken v i :
  0 <= i -> Z.testbit (shift_history taken v) i =
    if i =? 0 then taken else (i <? GLOBAL_HISTORY_LENGTH) && Z.testbit v (i - 1).
Proof.
  intros Hi. unfold shift_history, GLOBAL_HISTORY_MASK. rewrite Z.lor_spec, Z.land_spec, Z.shiftl_spec by done.
  change (Z.shiftl 1 GLOBAL_HISTORY_LENGTH - 1) with (Z.ones 14).
  assert (Z.testbit (b2z taken) i = (i =? 0) && taken) as ->.
  { destruct (Z.eqb_spec i 0) as [->|Hne]; [by destruct taken|]. destruct taken; simpl; [|apply Z.bits_0].
    change 1 with (2 ^ 0). apply Z.pow2_bits_false. lia. }
  destruct (Z.eqb_spec i 0) as [->|Hne]; simpl.
  - done.
  - rewrite orb_false_r, andb_comm. f_equal. unfold GLOBAL_HISTORY_LENGTH.
    destruct (Z.ltb_spec i 14); [apply Z.ones_spec_low; lia|apply Z.ones_spec_high; lia].
Qed.

Definition history_range (v : Z) : Prop := 0 <= v < 2 ^ GLOBAL_HISTORY_LENGTH.

Lemma shift_history_range taken v : history_range v -> history_range (shift_history taken v).
Proof.
  intros [Hv _]. unfold history_range. assert (0 <= shift_history taken v) as H0.
  { unfold shift_history. apply Z.lor_nonneg. split; [|destruct taken; done]. apply Z.land_nonneg. right.
    unfold GLOBAL_HISTORY_MASK. by vm_compute. }
  split; [done|]. destruct (decide (shift_history taken v = 0)) as [->|Hne]; [done|].
  apply Z.log2_lt_pow2; [lia|]. apply Z.nle_gt. intros Hle.
  assert (Z.testbit (shift_history taken v) (Z.log2 (shift_history taken v)) = true) as Hb by (apply Z.bit_log2; lia).
  rewrite shift_history_bit in Hb by (apply Z.log2_nonneg). unfold GLOBAL_HISTORY_LENGTH in *.
  destruct (Z.eqb_spec (Z.log2 (shift_history taken v)) 0); [lia|].
  destruct (Z.ltb_spec (Z.log2 (shift_history taken v)) 14); [lia|done].
Qed.

(** The register holds the last outcomes of all branches, the latest in bit 0. *)
Lemma history_is_last_outcomes bs i :
  0 <= i < GLOBAL_HISTORY_LENGTH ->
  Z.testbit (branch_history_vector (branch_run bs initialize_branch_predictor)) i =
    default false (reverse bs.*2 !! Z.to_nat i).
Proof.
  revert i. induction bs as [|b bs IH] using rev_ind; intros i Hi; [by rewrite Z.bits_0|].
  rewrite branch_run_snoc. cbn [branch_step last_branch_result predict_branch predictor branch_history_vector snd].
  rewrite shift_history_bit by lia. rewrite fmap_app, reverse_app. simpl.
  destruct (Z.eqb_spec i 0) as [->|Hne]; [done|].
  replace (Z.to_nat i) with (S (Z.to_nat (i - 1))) by lia. cbn [lookup list_lookup].
  rewrite <- IH by lia. destruct (Z.ltb_spec i GLOBAL_HISTORY_LENGTH); [done|lia].
Qed.

(** *** What has been learnt *)

Lemma gshare_hash_lt ip v : (gs_table_hash ip v < Z.to_nat GS_HISTORY_TABLE_SIZE)%nat.
Proof. unfold gs_table_hash, GS_HISTORY_TABLE_SIZE. pose proof (Z.mod_pos_bound (u32 (Z.lxor (Z.lxor (Z.lxor ip (Z.shiftr ip GLOBAL_HISTORY_LENGTH)) (Z.shiftr ip (GLOBAL_HISTORY_LENGTH * 2))) v)) 16384). lia. Qed.

(** A branch has a counter of its own for every history. *)
Lemma gshare_hash_inj ip v w : history_range v -> history_range w -> gs_table_hash ip v = gs_table_hash ip w -> v = w.
Proof.
  unfold history_range, gs_table_hash, GS_HISTORY_TABLE_SIZE, GLOBAL_HISTORY_LENGTH. intros Hv Hw.
  set (x := Z.lxor (Z.lxor ip _) _). unfold u32. intros E%Z2Nat.inj; [|apply Z.mod_pos_bound; lia..].
  change 16384 with (2 ^ 14) in E. change 4294967296 with (2 ^ 32) in E.
  apply Z.bits_inj'. intros i Hi. destruct (Z.ltb_spec i 14) as [Hlt|Hge].
  - apply (f_equal (fun n => Z.testbit n i)) in E. rewrite !Z.mod_pow2_bits_low in E by lia.
    rewrite !Z.lxor_spec in E. by destruct (Z.testbit x i), (Z.testbit v i), (Z.testbit w i).
  - rewrite (testbit_small v 14), (testbit_small w 14) by lia. done.
Qed.

Lemma seen_or_not (g : nat -> Z) n h : (exists m, (m < n)%nat /\ g m = h) \/ ~ exists m, (m < n)%nat /\ g m = h.
Proof.
  induction n as [|n [(m & Hm & E)|IH]]; [right; intros (m & Hm & _); lia|left; exists m; split; [lia|done]|].
  destruct (decide (g n = h)) as [E|E]; [left; exists n; split; [lia|done]|].
  right. intros (m & Hm & Em). apply IH. exists m. split; [|done]. assert (m <> n) by congruence. lia.
Qed.

Section Learn.
(** A branch alone, whose outcome is a function of its last 14 outcomes. *)
Context (ip : Z) (f : Z -> bool).
Definition execute (s : state) : state := branch_step s (ip, f (branch_history_vector s)).
Definition executed (n : nat) : state := Nat.iter n execute initialize_branch_predictor.
Definition history (n : nat) : Z := branch_history_vector (executed n).

(** A counter is as it was until its history comes up, and right afterwards. *)
Definition learnt (seen : Z -> Prop) (s : state) : Prop :=
  length (gs_history_table s) = Z.to_nat GS_HISTORY_TABLE_SIZE /\
  forall h, history_range h ->
    let c := entry (gs_history_table s) (gs_table_hash ip h) in
    (seen h -> if f h then 2 <= c <= 3 else 0 <= c <= 1) /\ (~ seen h -> c = 2).

Lemma learnt_all n : history_range (history n) /\ learnt (fun h => exists m, (m < n)%nat /\ history m = h) (executed n).
Proof.
  induction n as [|n [Hr [Hl IH]]].
  { split; [unfold history, history_range; split; vm_compute; congruence|]. split; [apply length_replicate|].
    intros h Hh. split; [intros (m & Hm & _); lia|]. intros _. apply entry_replicate, gshare_hash_lt. }
  split; [by apply shift_history_range|]. split; [simpl; by rewrite length_insert|].
  intros h Hh. cbv zeta.
  change (gs_history_table (executed (S n))) with
    (<[gs_table_hash ip (history n) := count (f (history n)) (entry (gs_history_table (executed n)) (gs_table_hash ip (history n)))]>
       (gs_history_table (executed n))).
  rewrite entry_insert by (rewrite Hl; apply gshare_hash_lt).
  destruct (IH h Hh) as [IHs IHn]. destruct (decide (gs_table_hash ip (history n) = gs_table_hash ip h)) as [E|E].
  - apply gshare_hash_inj in E; [|done..]. rewrite E. split; [|intros Hns; exfalso; apply Hns; exists n; split; [lia|done]].
    intros _. destruct (seen_or_not history n h) as [Hs|Hs].
    + specialize (IHs Hs). unfold count. destruct (f h); simpl in *; destruct (_ <? _) eqn:?; lia.
    + specialize (IHn Hs). rewrite IHn. unfold count. by destruct (f h).
  - split.
    + intros (m & Hm & Em). apply IHs. exists m. split; [|done]. assert (m <> n) by (intros ->; by rewrite Em in E). lia.
    + intros Hns. apply IHn. intros (m & Hm & Em). apply Hns. exists m. split; [lia|done].
Qed.

End Learn.

(** A branch whose outcome depends on its last 14 outcomes only is mispredicted
    at most once for every history: never when the history came up before, and
    never when the outcome is taken. *)
Theorem gshare_learns ip f n :
  (exists m, (m < n)%nat /\ history ip f m = history ip f n) \/ f (history ip f n) = true ->
  (predict_branch ip 0 false 0 (executed ip f n)).1 = f (history ip f n).
Proof.
  intros Hs. destruct (learnt_all ip f n) as [Hr [_ H]]. destruct (H _ Hr) as [Hseen Hnew].
  cbn [predict_branch predictor fst]. unfold predict. fold (history ip f n). set (c := entry _ _) in *.
  destruct (seen_or_not (history ip f) n (history ip f n)) as [Hx|Hx].
  - specialize (Hseen Hx). destruct (f _); lia.
  - destruct Hs as [Hs|Hs]; [done|]. rewrite Hs, (Hnew Hx). done.
Qed.

(** A branch that alternates, at its 30th execution. *)
Lemma gshare_learns_witness :
  let f h := negb (Z.testbit h 0) in
  (predict_branch 64 0 false 0 (executed 64 f 30)).1 = f (history 64 f 30).
Proof.
  intros f. apply (gshare_learns 64 f 30). left. exists 28%nat. split; [lia|]. vm_compute. reflexivity.
Defined.

End Gshare.
