(* ===== verification/SimPerceptron.v ===== *)
(** * ChampSim's perceptron predictors

    branch/perceptron/perceptron.cc ([Perceptron]) and
    branch/hashed_perceptron/hashed_perceptron.cc ([HashedPerceptron]): weights stay
    within eight bits, histories are the last outcomes, and training converges. *)
From stdpp Require Import base list gmap.
From S2P Require Import Prelude SimUtil SimBranch.
Open Scope Z_scope.
Import Util.

Module Perceptron.

(** ** The class [perceptron<int, HISTLEN, BITS>]

    A [std::bitset] is the list of its bits, from bit 0. *)
Definition PERCEPTRON_HISTORY : nat := 24.
Definition PERCEPTRON_BITS : Z := 8.
Definition NUM_PERCEPTRONS : Z := 163.
Definition max_weight : Z := Z.shiftl 1 (PERCEPTRON_BITS - 1) - 1.
Definition min_weight : Z := - (max_weight + 1).

Record perceptron := mkPerceptron {
  bias : Z;
  weights : list Z;
}.

Definition new_perceptron : perceptron := mkPerceptron 0 (replicate PERCEPTRON_HISTORY 0).

Definition predict (history : list bool) (p : perceptron) : Z :=
  foldl (fun output hw => if (hw : bool * Z).1 then output + hw.2 else output - hw.2) (bias p) (zip history (weights p)).

Definition update (result : bool) (history : list bool) (p : perceptron) : perceptron :=
  let upd_mask := if result then history else negb <$> history in
  mkPerceptron
    (if result then Z.min (bias p + 1) max_weight else Z.max (bias p - 1) min_weight)
    (zip_with (fun (m : bool) w => if m then Z.min (w + 1) max_weight else Z.max (w - 1) min_weight) upd_mask (weights p)).

(** ** The predictor *)

(** [1.93 * PERCEPTRON_HISTORY + 14], truncated. *)
Definition THETA : Z := (193 * Z.of_nat PERCEPTRON_HISTORY + 1400) / 100.
Definition NUM_UPDATE_ENTRIES : nat := 100.

Record perceptron_state := mkState {
  p_ip : Z;
  p_prediction : bool;
  p_output : Z;
  p_history : list bool;
}.

Record state := mkPred {
  perceptrons : list perceptron;
  perceptron_state_buf : list perceptron_state;
  spec_global_history : list bool;
  global_history : list bool;
}.

Definition initialize_branch_predictor : state :=
  mkPred (replicate (Z.to_nat NUM_PERCEPTRONS) new_perceptron) []
    (replicate PERCEPTRON_HISTORY false) (replicate PERCEPTRON_HISTORY false).

Definition index (ip : Z) : nat := Z.to_nat (ip mod NUM_PERCEPTRONS).
Definition perceptron_at (ip : Z) (s : state) : perceptron := default new_perceptron (perceptrons s !! index ip).

(** [history <<= 1; history.set(0, b)] *)
Definition shift_in (b : bool) (history : list bool) : list bool := b :: take (PERCEPTRON_HISTORY - 1) history.

Definition predict_step (ip : Z) (s : state) : bool * state :=
  let output := predict (spec_global_history s) (perceptron_at ip s) in
  let prediction := 0 <=? output in
  let buf := perceptron_state_buf s ++ [mkState ip prediction output (spec_global_history s)] in
  let buf := if (NUM_UPDATE_ENTRIES <? length buf)%nat then tail buf else buf in
  (prediction, mkPred (perceptrons s) buf (shift_in prediction (spec_global_history s)) (global_history s)).

Definition result_step (ip : Z) (taken : bool) (s : state) : state :=
  let i := find_if (fun x => p_ip x =? ip) (perceptron_state_buf s) in
  match perceptron_state_buf s !! i with
  | None => s
  | Some x =>
    let buf := take i (perceptron_state_buf s) ++ drop (S i) (perceptron_state_buf s) in
    let global := shift_in taken (global_history s) in
    let spec := if eqb (p_prediction x) taken then spec_global_history s else global in
    let table :=
      if ((p_output x <=? THETA) && (- THETA <=? p_output x)) || negb (eqb (p_prediction x) taken)
      then alter (update taken (p_history x)) (index ip) (perceptrons s) else perceptrons s in
    mkPred table buf spec global
  end.

#[global] Instance predictor : BranchPredictor state := {|
  predict_branch := fun ip predicted_target always_taken branch_type => predict_step ip;
  last_branch_result := fun ip branch_target taken branch_type => result_step ip taken;
|}.

(** ** Outputs

    The dot product, and the weights as they count for an outcome. *)
Definition signed (r : bool) (x : Z) : Z := if r then x else - x.

Lemma predict_sum history p :
  predict history p = bias p + foldr Z.add 0 (zip_with signed history (weights p)).
Proof.
  unfold predict. generalize (bias p). generalize (weights p). induction history as [|h hs IH]; intros ws b; [simpl; lia|].
  destruct ws as [|w ws]; [simpl; lia|]. simpl. rewrite IH. destruct h; simpl; lia.
Qed.

(** How a weight speaks for the outcome [r] under a history bit. *)
Definition speaks (r h : bool) (w : Z) : Z := signed r (signed h w).

Lemma signed_predict r history p :
  signed r (predict history p) = signed r (bias p) + foldr Z.add 0 (zip_with (speaks r) history (weights p)).
Proof.
  rewrite predict_sum.
  assert (foldr Z.add 0 (zip_with (speaks r) history (weights p)) = signed r (foldr Z.add 0 (zip_with signed history (weights p)))) as ->.
  { generalize (weights p). induction history as [|h hs IH]; intros ws; [by destruct r|].
    destruct ws as [|w ws]; [by destruct r|]. simpl. rewrite IH. unfold speaks. destruct r; simpl; lia. }
  destruct r; simpl; lia.
Qed.

Definition in_range (w : Z) : Prop := min_weight <= w <= max_weight.
Definition p_ok (p : perceptron) : Prop := in_range (bias p) /\ length (weights p) = PERCEPTRON_HISTORY /\ Forall in_range (weights p).

Lemma new_perceptron_ok : p_ok new_perceptron.
Proof. split; [done|]. split; [done|]. by apply Forall_replicate. Qed.

(** One step of a weight. *)
Definition nudge (up : bool) (w : Z) : Z := if up then Z.min (w + 1) max_weight else Z.max (w - 1) min_weight.

Lemma nudge_range up w : in_range w -> in_range (nudge up w).
Proof. unfold in_range, nudge, min_weight, max_weight. change (Z.shiftl 1 (PERCEPTRON_BITS - 1)) with 128. destruct up; lia. Qed.

Lemma update_nudge r history p :
  update r history p = mkPerceptron (nudge r (bias p)) (zip_with (fun h w => nudge (eqb h r) w) history (weights p)).
Proof.
  unfold update. f_equal. destruct r.
  - apply zip_with_ext; [|done..]. by intros [] w.
  - rewrite zip_with_fmap_l. apply zip_with_ext; [|done..]. by intros [] w.
Qed.

Lemma update_ok r history p : p_ok p -> length history = PERCEPTRON_HISTORY -> p_ok (update r history p).
Proof.
  intros (Hb & Hl & Hw) Hh. rewrite update_nudge. split; [by apply nudge_range|]. split; cbn [weights].
  - rewrite length_zip_with. lia.
  - apply Forall_lookup. intros i w (h & w0 & -> & _ & Hw0)%lookup_zip_with_Some. apply nudge_range.
    rewrite Forall_lookup in Hw. exact (Hw _ _ Hw0).
Qed.

(** ** Training converges

    Every weight speaks for [r] with at least [k]. *)
Definition at_least (r : bool) (history : list bool) (k : Z) (p : perceptron) : Prop :=
  k <= signed r (bias p) /\ Forall2 (fun h w => k <= speaks r h w) history (weights p).

Lemma speaks_nudge r h k w :
  in_range w -> k <= speaks r h w -> Z.min (k + 1) max_weight <= speaks r h (nudge (eqb h r) w).
Proof.
  unfold in_range, speaks, nudge, min_weight, max_weight. change (Z.shiftl 1 (PERCEPTRON_BITS - 1)) with 128.
  destruct r, h; simpl; lia.
Qed.

Lemma update_at_least r history k p :
  p_ok p -> at_least r history k p -> at_least r history (Z.min (k + 1) max_weight) (update r history p).
Proof.
  intros (Hb & Hl & Hw) [Hkb Hkw]. rewrite update_nudge. split.
  - cbn [bias]. pose proof (speaks_nudge true r k (bias p) Hb) as H. unfold speaks in H. simpl in H.
    replace (eqb r true) with r in H by (by destruct r). by apply H.
  - cbn [weights]. clear Hl. induction Hkw as [|h w hs ws Hk Hkw IH]; [constructor|].
    apply list.Forall_cons in Hw as [Hw Hws]. constructor; [by apply speaks_nudge|by apply IH].
Qed.

Lemma at_least_min r history p : p_ok p -> length history = PERCEPTRON_HISTORY -> at_least r history min_weight p.
Proof.
  intros (Hb & Hl & Hw) Hh. unfold in_range, min_weight, max_weight in *.
  change (Z.shiftl 1 (PERCEPTRON_BITS - 1)) with 128 in *.
  split; [destruct r; simpl; lia|]. apply Forall2_same_length_lookup. split; [lia|].
  intros i h w _ Hi. rewrite Forall_lookup in Hw. specialize (Hw _ _ Hi). simpl in Hw. unfold speaks. destruct r, h; simpl; lia.
Qed.

Lemma at_least_predicts r history k p : 0 < k -> at_least r history k p -> (0 <=? predict history p) = r.
Proof.
  intros Hk [Hb Hw]. assert (0 < signed r (predict history p)) as Hpos.
  { rewrite signed_predict. assert (0 <= foldr Z.add 0 (zip_with (speaks r) history (weights p))); [|lia].
    induction Hw as [|h w hs ws Hkw _ IH]; simpl; lia. }
  destruct r; simpl in Hpos; lia.
Qed.

(** A perceptron that is trained with one history and outcome predicts the
    outcome after 129 updates at the latest, whatever its weights were. *)
Lemma training_converges r history p n :
  p_ok p -> length history = PERCEPTRON_HISTORY ->
  p_ok (Nat.iter n (update r history) p) /\
  at_least r history (Z.min (min_weight + Z.of_nat n) max_weight) (Nat.iter n (update r history) p).
Proof.
  intros Hp Hh. induction n as [|n [IHo IH]].
  - split; [done|]. simpl. rewrite Z.add_0_r. by apply at_least_min.
  - split; [by apply update_ok|]. cbn [Nat.iter nat_rect].
    replace (Z.min (min_weight + Z.of_nat (S n)) max_weight)
      with (Z.min (Z.min (min_weight + Z.of_nat n) max_weight + 1) max_weight) by lia.
    by apply update_at_least.
Qed.

(** ** The predictor in the core

    Between instructions the two histories agree and nothing is in flight. *)
Definition ok (s : state) : Prop :=
  length (perceptrons s) = Z.to_nat NUM_PERCEPTRONS /\ Forall p_ok (perceptrons s) /\
  perceptron_state_buf s = [] /\ spec_global_history s = global_history s /\
  length (global_history s) = PERCEPTRON_HISTORY.

Lemma perceptron_init_ok : ok initialize_branch_predictor.
Proof.
  split; [apply length_replicate|]. split; [apply Forall_replicate, new_perceptron_ok|]. done.
Qed.

(** Whether an output leads to training. *)
Definition trains (taken : bool) (output : Z) : bool :=
  ((output <=? THETA) && (- THETA <=? output)) || negb (eqb (0 <=? output) taken).

Lemma perceptron_step s b :
  ok s ->
  branch_step s b = mkPred
    (if trains b.2 (predict (global_history s) (perceptron_at b.1 s))
     then alter (update b.2 (global_history s)) (index b.1) (perceptrons s) else perceptrons s)
    [] (shift_in b.2 (global_history s)) (shift_in b.2 (global_history s)).
Proof.
  intros (Hl & Hp & Hbuf & Hspec & Hlen). destruct b as [ip taken].
  unfold branch_step. cbn [predict_branch last_branch_result predictor fst snd]. unfold predict_step.
  rewrite Hbuf, Hspec. set (output := predict _ _). cbn [app length snd]. change (NUM_UPDATE_ENTRIES <? 1)%nat with false.
  unfold result_step. cbn [perceptron_state_buf find_if p_ip]. rewrite Z.eqb_refl.
  cbn [lookup list_lookup p_output p_prediction p_history take drop app spec_global_history global_history perceptrons].
  unfold trains. destruct (eqb (0 <=? output) taken) eqn:E; [|done].
  apply eqb_prop in E. by rewrite E.
Qed.

Lemma perceptron_step_ok s b : ok s -> ok (branch_step s b).
Proof.
  intros Hs. rewrite perceptron_step by done. destruct Hs as (Hl & Hp & _ & _ & Hlen). split; [|split; [|split; [done|split; [done|]]]].
  - cbn [perceptrons]. destruct (trains _ _); [|done]. by rewrite length_alter.
  - cbn [perceptrons]. destruct (trains _ _); [|done]. apply Forall_alter; [done|].
    intros p Hi Hpi. by apply update_ok.
  - cbn [global_history]. unfold shift_in. cbn [length]. rewrite length_take. unfold PERCEPTRON_HISTORY in *. lia.
Qed.

Lemma perceptron_run_ok bs s : ok s -> ok (branch_run bs s).
Proof. revert s. induction bs as [|b bs IH]; intros s Hs; [done|]. by apply IH, perceptron_step_ok. Qed.

(** The history after a branch has gone the same way [k] times. *)
Lemma constant_history ip d k s :
  ok s -> global_history (branch_run (replicate k (ip, d)) s) = take PERCEPTRON_HISTORY (replicate k d ++ global_history s).
Proof.
  intros Hs. induction k as [|k IH].
  - simpl. rewrite take_ge; [done|]. destruct Hs as (_ & _ & _ & _ & ->). done.
  - rewrite replicate_S_end, branch_run_snoc, perceptron_step by (by apply perceptron_run_ok).
    cbn [global_history fst snd]. rewrite IH. unfold shift_in. by rewrite take_take.
Qed.

(** With its history constant a branch is trained, or is predicted for good. *)
Lemma constant_phase ip d m s :
  let h := replicate PERCEPTRON_HISTORY d in
  ok s -> global_history s = h ->
  let s' := branch_run (replicate m (ip, d)) s in
  ok s' /\ global_history s' = h /\
  (perceptron_at ip s' = Nat.iter m (update d h) (perceptron_at ip s) \/ trains d (predict h (perceptron_at ip s')) = false).
Proof.
  intros h Hs Hh. induction m as [|m (IHo & IHh & IH)]; [by split; [|split; [|left]]|].
  cbv zeta in *. set (s1 := branch_run (replicate m (ip, d)) s) in *.
  replace (branch_run (replicate (S m) (ip, d)) s) with (branch_step s1 (ip, d)) by (by rewrite replicate_S_end, branch_run_snoc).
  split; [by apply perceptron_step_ok|]. rewrite perceptron_step by done. rewrite IHh. cbn [fst snd global_history]. split; [done|].
  unfold perceptron_at at 1. unfold perceptron_at at 3. cbn [perceptrons].
  destruct (trains d (predict h (perceptron_at ip s1))) eqn:E; [|right; exact E].
  left. destruct IH as [IH|IH]; [|done]. rewrite list_lookup_alter_eq. cbn [Nat.iter nat_rect].
  change (nat_rect _ _ _ m) with (Nat.iter m (update d h) (perceptron_at ip s)). rewrite <- IH. unfold perceptron_at.
  destruct IHo as (Hl & _). destruct (lookup_lt_is_Some_2 (perceptrons s1) (index ip)) as [p Hp]; [|by rewrite Hp].
  rewrite Hl. unfold index, NUM_PERCEPTRONS. pose proof (Z.mod_pos_bound ip 163). lia.
Qed.

Lemma perceptron_at_ok ip s : ok s -> p_ok (perceptron_at ip s).
Proof.
  intros (_ & Hp & _). unfold perceptron_at. destruct (perceptrons s !! index ip) as [p|] eqn:E; [|apply new_perceptron_ok].
  rewrite Forall_lookup in Hp. exact (Hp _ _ E).
Qed.

(** Whatever the predictor has seen before, a branch that always goes the same
    way is predicted from its 154th execution on: 24 fill the history, and 129
    updates outweigh any weights. *)
Theorem perceptron_learns bs ip d n :
  (153 <= n)%nat ->
  (predict_branch ip 0 false 0 (branch_run (bs ++ replicate n (ip, d)) initialize_branch_predictor)).1 = d.
Proof.
  intros Hn.
  assert (replicate n (ip, d) = replicate PERCEPTRON_HISTORY (ip, d) ++ replicate (n - PERCEPTRON_HISTORY) (ip, d)) as ->.
  { rewrite <- replicate_add. f_equal. unfold PERCEPTRON_HISTORY. lia. }
  rewrite !branch_run_app. set (m := (n - PERCEPTRON_HISTORY)%nat).
  assert (129 <= m)%nat as Hm by (unfold m, PERCEPTRON_HISTORY; lia). clearbody m.
  assert (ok (branch_run bs initialize_branch_predictor)) as Hs1 by (apply perceptron_run_ok, perceptron_init_ok).
  revert Hs1. generalize (branch_run bs initialize_branch_predictor). intros s1 Hs1.
  pose proof (constant_history ip d PERCEPTRON_HISTORY s1 Hs1) as Hh.
  assert (ok (branch_run (replicate PERCEPTRON_HISTORY (ip, d)) s1)) as Hs2 by (by apply perceptron_run_ok).
  revert Hh Hs2. generalize (branch_run (replicate PERCEPTRON_HISTORY (ip, d)) s1). intros s2 Hh Hs2.
  rewrite take_app_length' in Hh by (symmetry; apply length_replicate).
  destruct (constant_phase ip d m s2 Hs2 Hh) as (Hs3 & Hh3 & Hp). revert Hs3 Hh3 Hp.
  generalize (branch_run (replicate m (ip, d)) s2). intros s3 (_ & _ & _ & Hspec & _) Hh3 Hp.
  cbn [predict_branch predictor]. unfold predict_step. cbn [fst]. rewrite Hspec, Hh3. destruct Hp as [-> | Ht].
  - destruct (training_converges d (replicate PERCEPTRON_HISTORY d) (perceptron_at ip s2) m) as [_ Hk];
      [by apply perceptron_at_ok|apply length_replicate|].
    eapply at_least_predicts; [|exact Hk]. unfold min_weight, max_weight.
    change (Z.shiftl 1 (PERCEPTRON_BITS - 1)) with 128. lia.
  - unfold trains in Ht. apply orb_false_iff in Ht as [_ Ht]. apply negb_false_iff in Ht. by apply eqb_prop in Ht.
Qed.

Lemma perceptron_learns_witness :
  (predict_branch 64 0 false 0 (branch_run ([(128, false)] ++ replicate 153 (64, true)) initialize_branch_predictor)).1 = true.
Proof. apply (perceptron_learns [(128, false)] 64 true 153). lia. Defined.

(** ** The types of the tables

    The calls of a core in any order: a prediction, or the outcome of a branch,
    which may be of one whose record is lost. *)
Inductive call := Predict (ip : Z) | Result (ip : Z) (taken : bool).
Definition call_step (s : state) (c : call) : state :=
  match c with Predict ip => (predict_step ip s).2 | Result ip taken => result_step ip taken s end.

(** [perceptron<int, 24, 8>], [std::bitset<24>] and a bounded buffer. *)
Record typed (s : state) : Prop := {
  t_size : length (perceptrons s) = Z.to_nat NUM_PERCEPTRONS;
  t_table : Forall p_ok (perceptrons s);
  t_room : (length (perceptron_state_buf s) <= NUM_UPDATE_ENTRIES)%nat;
  t_buf : Forall (fun x => length (p_history x) = PERCEPTRON_HISTORY) (perceptron_state_buf s);
  t_spec : length (spec_global_history s) = PERCEPTRON_HISTORY;
  t_global : length (global_history s) = PERCEPTRON_HISTORY;
}.

Lemma shift_in_length b h : length h = PERCEPTRON_HISTORY -> length (shift_in b h) = PERCEPTRON_HISTORY.
Proof. unfold shift_in. simpl. rewrite length_take. unfold PERCEPTRON_HISTORY. lia. Qed.

Lemma predict_step_typed ip s : typed s -> typed (predict_step ip s).2.
Proof.
  intros []. set (x := mkState ip (0 <=? predict (spec_global_history s) (perceptron_at ip s))
    (predict (spec_global_history s) (perceptron_at ip s)) (spec_global_history s)).
  assert (Forall (fun x => length (p_history x) = PERCEPTRON_HISTORY) (perceptron_state_buf s ++ [x])) as Hb
    by (apply Forall_app_2; [done|by apply Forall_singleton]).
  constructor; try done; cbn [predict_step snd perceptron_state_buf spec_global_history]; fold x;
    [| |by apply shift_in_length]; destruct (NUM_UPDATE_ENTRIES <? length (perceptron_state_buf s ++ [x]))%nat eqn:E; try done.
  - rewrite length_tl, length_app. simpl. lia.
  - by apply Nat.ltb_ge.
  - destruct (perceptron_state_buf s ++ [x]); [done|]. by apply list.Forall_cons in Hb as [_ Hb].
Qed.

Lemma result_step_typed ip taken s : typed s -> typed (result_step ip taken s).
Proof.
  intros Hs. unfold result_step. set (i := find_if _ _). destruct (perceptron_state_buf s !! i) as [x|] eqn:Ex; [|done].
  destruct Hs as [? Ht ? Hb ? ?]. assert (length (p_history x) = PERCEPTRON_HISTORY) by (rewrite Forall_lookup in Hb; by apply (Hb i)).
  constructor; cbn [perceptrons perceptron_state_buf spec_global_history global_history]; try (by apply shift_in_length).
  - destruct (_ || _); [by rewrite length_alter|done].
  - destruct (_ || _); [|done]. apply Forall_alter; [done|]. intros p _ Hp. by apply update_ok.
  - rewrite length_app, length_take, length_drop. lia.
  - apply Forall_app_2; [by apply Forall_take|by apply Forall_drop].
  - destruct (eqb _ _); [done|by apply shift_in_length].
Qed.

Lemma init_typed : typed initialize_branch_predictor.
Proof. constructor; try done; [apply Forall_replicate, new_perceptron_ok|simpl; lia]. Qed.

Lemma calls_typed cs s : typed s -> typed (foldl call_step s cs).
Proof.
  revert s. induction cs as [|[ip|ip taken] cs IH]; intros s Hs; [done| |]; apply IH;
    [by apply predict_step_typed|by apply result_step_typed].
Qed.

Lemma dot_bound hs ws :
  Forall in_range ws -> - (128 * Z.of_nat (length ws)) <= foldr Z.add 0 (zip_with signed hs ws) <= 128 * Z.of_nat (length ws).
Proof.
  intros Hw. revert hs. induction Hw as [|w ws Hw _ IH]; intros [|h hs]; simpl; try lia. specialize (IH hs).
  unfold in_range, min_weight, max_weight in Hw. change (Z.shiftl 1 (PERCEPTRON_BITS - 1)) with 128 in Hw.
  unfold signed at 1 3. destruct h; lia.
Qed.

(** C33: the tables keep their types however predictions and outcomes follow one another:
    every weight fits eight bits, every history has 24 bits, at most 100 predictions
    are remembered, and the dot product of a prediction stays far within an [int]. *)
Theorem perceptron_typed cs ip :
  let s := foldl call_step initialize_branch_predictor cs in
  typed s /\ - 3200 <= predict (spec_global_history s) (perceptron_at ip s) <= 3200.
Proof.
  intros s. assert (typed s) as Hs by apply calls_typed, init_typed. split; [done|].
  assert (p_ok (perceptron_at ip s)) as (Hb & Hl & Hw).
  { unfold perceptron_at. destruct (perceptrons s !! index ip) as [p|] eqn:E; [|apply new_perceptron_ok].
    pose proof (t_table s Hs) as Ht. rewrite Forall_lookup in Ht. exact (Ht _ _ E). }
  rewrite predict_sum. pose proof (dot_bound (spec_global_history s) _ Hw) as Hd. rewrite Hl in Hd.
  unfold in_range, min_weight, max_weight in Hb. change (Z.shiftl 1 (PERCEPTRON_BITS - 1)) with 128 in Hb.
  unfold PERCEPTRON_HISTORY in Hd. lia.
Qed.

End Perceptron.

Module HashedPerceptron.

Definition NTABLES : nat := 16.
Definition MAXHIST : Z := 232.
Definition SPEED : Z := 18.
Definition history_lengths : list Z := [0; 3; 4; 6; 8; 10; 14; 19; 26; 36; 49; 67; 91; 125; 170; MAXHIST].
Definition LOG_TABLE_SIZE : Z := 12.
Definition TABLE_SIZE : Z := Z.shiftl 1 LOG_TABLE_SIZE.
Definition NGHIST_WORDS : nat := Z.to_nat (MAXHIST / LOG_TABLE_SIZE + 1).

(** A weight of a table that is not in the map is 0, as [memset] leaves it. *)
Record state := mkHashed {
  tables : gmap (nat * Z) Z;
  ghist_words : list Z;
  indices : list Z;
  theta : Z;
  tc : Z;
  yout : Z;
}.

Definition initialize_branch_predictor : state :=
  mkHashed ∅ (replicate NGHIST_WORDS 0) (replicate NTABLES 0) 10 0 0.

Definition weight (t : gmap (nat * Z) Z) (i : nat) (x : Z) : Z := default 0 (t !! (i, x)).

(** The index into table [i]. *)
Definition table_index (pc : Z) (i : nat) (words : list Z) : Z :=
  let n := entry history_lengths i in
  let most_words := n / LOG_TABLE_SIZE in
  let last_word := n mod LOG_TABLE_SIZE in
  let x := foldl Z.lxor 0 (take (Z.to_nat most_words) words) in
  let x := Z.lxor x (Z.land (entry words (Z.to_nat most_words)) (Z.shiftl 1 last_word - 1)) in
  let x := u32 (Z.lxor x pc) in
  Z.land x (TABLE_SIZE - 1).

Definition predict_step (pc : Z) (s : state) : bool * state :=
  let idx := (fun i => table_index pc i (ghist_words s)) <$> seq 0 NTABLES in
  let y := foldl (fun y ix => y + weight (tables s) (ix : nat * Z).1 ix.2) 0 (zip (seq 0 NTABLES) idx) in
  (1 <=? y, mkHashed (tables s) (ghist_words s) idx (theta s) (tc s) y).

(** The words of the history shifted by one bit, [b] coming in. *)
Fixpoint shift_words (b : bool) (words : list Z) : list Z :=
  match words with
  | [] => []
  | w :: words =>
    let w := Z.lor (u32 (Z.shiftl w 1)) (b2z b) in
    Z.land w (TABLE_SIZE - 1) :: shift_words (ztrue (Z.land w TABLE_SIZE)) words
  end.

Definition nudge (taken : bool) (c : Z) : Z :=
  if taken then (if c <? 127 then c + 1 else c) else (if -128 <? c then c - 1 else c).

Definition train_tables (taken : bool) (idx : list Z) (t : gmap (nat * Z) Z) : gmap (nat * Z) Z :=
  foldl (fun t ix => <[ix := nudge taken (weight t ix.1 ix.2)]> t) t (zip (seq 0 NTABLES) idx).

Definition result_step (taken : bool) (s : state) : state :=
  let correct := eqb taken (1 <=? yout s) in
  let words := shift_words taken (ghist_words s) in
  let a := if yout s <? 0 then - yout s else yout s in
  if negb correct || (a <? theta s) then
    let t := train_tables taken (indices s) (tables s) in
    let '(theta', tc') :=
      if negb correct then
        let tc := tc s + 1 in
        if SPEED <=? tc then (theta s + 1, 0) else (theta s, tc)
      else if a <? theta s then
        let tc := tc s - 1 in
        if tc <=? - SPEED then (theta s - 1, 0) else (theta s, tc)
      else (theta s, tc s) in
    mkHashed t words (indices s) theta' tc' (yout s)
  else mkHashed (tables s) words (indices s) (theta s) (tc s) (yout s).

#[global] Instance predictor : BranchPredictor state := {|
  predict_branch := fun pc predicted_target always_taken branch_type => predict_step pc;
  last_branch_result := fun pc branch_target taken branch_type => result_step taken;
|}.

(** ** The words hold the last outcomes *)

(** Outcome number [k], counted from the latest. *)
Definition outcome (os : list bool) (k : Z) : bool := default false (os !! Z.to_nat k).

Definition holds (os : list bool) (first : Z) (words : list Z) : Prop :=
  forall j w, words !! j = Some w -> 0 <= w < TABLE_SIZE /\
  forall b, 0 <= b < LOG_TABLE_SIZE -> Z.testbit w b = outcome os (first + LOG_TABLE_SIZE * Z.of_nat j + b).

(** The word before its top bit moves on. *)
Lemma word_shift w b i :
  0 <= w < TABLE_SIZE -> 0 <= i ->
  Z.testbit (Z.lor (u32 (Z.shiftl w 1)) (b2z b)) i = if i =? 0 then b else Z.testbit w (i - 1).
Proof.
  change TABLE_SIZE with 4096. intros Hw Hi. rewrite u32_small by (rewrite Z.shiftl_mul_pow2 by lia; lia).
  rewrite Z.lor_spec, Z.shiftl_spec by done. destruct (Z.eqb_spec i 0) as [->|Hne].
  - rewrite (Z.testbit_neg_r w) by lia. by destruct b.
  - assert (Z.testbit (b2z b) i = false) as ->; [|apply orb_false_r].
    destruct b; simpl; [|apply Z.bits_0]. change 1 with (2 ^ 0). apply Z.pow2_bits_false. lia.
Qed.

Lemma outcome_cons t os k : 1 <= k -> outcome (t :: os) k = outcome os (k - 1).
Proof. intros Hk. unfold outcome. by replace (Z.to_nat k) with (S (Z.to_nat (k - 1))) by lia. Qed.

Lemma land_word w : Z.land w (TABLE_SIZE - 1) = w mod TABLE_SIZE.
Proof. change (TABLE_SIZE - 1) with (Z.ones 12). by rewrite Z.land_ones. Qed.

Lemma shift_words_holds t os first words :
  0 <= first -> holds os first words -> holds (t :: os) first (shift_words (outcome (t :: os) first) words).
Proof.
  revert first. induction words as [|w words IH]; intros first Hf H; [intros j x Hx; cbn in Hx; by rewrite lookup_nil in Hx|].
  destruct (H 0%nat w eq_refl) as [Hw Hbits].
  assert (forall i, 0 <= i <= 12 ->
    Z.testbit (Z.lor (u32 (Z.shiftl w 1)) (b2z (outcome (t :: os) first))) i = outcome (t :: os) (first + i)) as Hb.
  { intros i Hi. rewrite word_shift by (done || lia). destruct (Z.eqb_spec i 0) as [->|Hne]; [by rewrite Z.add_0_r|].
    rewrite Hbits by (unfold LOG_TABLE_SIZE; lia). rewrite (outcome_cons t os (first + i)) by lia. f_equal.
    unfold LOG_TABLE_SIZE. lia. }
  cbn [shift_words]. set (v := Z.lor _ _) in *.
  assert (ztrue (Z.land v TABLE_SIZE) = outcome (t :: os) (first + 12)) as ->.
  { change TABLE_SIZE with (2 ^ 12). rewrite ztrue_land_pow2 by lia. apply Hb. lia. }
  intros [|j] x Hx.
  - injection Hx as <-. rewrite land_word. split; [apply Z.mod_pos_bound; done|]. change TABLE_SIZE with (2 ^ 12).
    intros b Hbr. unfold LOG_TABLE_SIZE in *. rewrite Z.mod_pow2_bits_low by lia. rewrite Hb by lia. f_equal. lia.
  - assert (holds os (first + 12) words) as H'.
    { intros k y Hy. destruct (H (S k) y Hy) as [Hr Hy']. split; [done|]. intros b Hbr. rewrite Hy' by done. f_equal.
      unfold LOG_TABLE_SIZE. lia. }
    destruct (IH (first + 12) ltac:(lia) H' j x Hx) as [Hr Hx']. split; [done|]. intros b Hbr. rewrite Hx' by done. f_equal.
    unfold LOG_TABLE_SIZE. lia.
Qed.

Lemma length_shift_words b words : length (shift_words b words) = length words.
Proof. revert b. induction words as [|w words IH]; intros b; [done|]. simpl. by rewrite IH. Qed.

Lemma step_words s b : ghist_words (branch_step s b) = shift_words b.2 (ghist_words s).
Proof.
  destruct b as [pc t]. unfold branch_step. cbn [predict_branch last_branch_result predictor snd fst]. unfold result_step.
  destruct (_ || _); [|done]. by destruct (if negb _ then _ else _).
Qed.

Lemma run_holds bs :
  let s := branch_run bs initialize_branch_predictor in
  length (ghist_words s) = NGHIST_WORDS /\ holds (reverse bs.*2) 0 (ghist_words s).
Proof.
  induction bs as [|b bs [IHl IH]] using rev_ind; cbv zeta in *.
  - split; [done|]. intros j w [-> _]%lookup_replicate_1. split; [done|]. intros k Hk. by rewrite Z.bits_0.
  - rewrite branch_run_snoc, step_words, length_shift_words. split; [done|].
    rewrite fmap_app, reverse_app. exact (shift_words_holds b.2 _ 0 _ (Z.le_refl 0) IH).
Qed.

(** ** The index of a table

    Bits [0 .. n-1] of the history, folded to twelve by exclusive or: bit [b] is
    the parity of the outcomes [b], [b + 12], ... below [n]. *)
Definition parity (l : list bool) : bool := foldr xorb false l.
Definition folded (os : list bool) (n b : Z) : bool :=
  parity ((fun j => outcome os (LOG_TABLE_SIZE * Z.of_nat j + b)) <$>
    filter (fun j => LOG_TABLE_SIZE * Z.of_nat j + b < n) (seq 0 NGHIST_WORDS)).

Lemma testbit_xor_words words x b :
  Z.testbit (foldl Z.lxor x words) b = xorb (Z.testbit x b) (parity ((fun w => Z.testbit w b) <$> words)).
Proof.
  revert x. induction words as [|w words IH]; intros x; simpl; [by rewrite xorb_false_r|].
  rewrite IH, Z.lxor_spec. by rewrite xorb_assoc.
Qed.

Lemma parity_app l k : parity (l ++ k) = xorb (parity l) (parity k).
Proof. unfold parity. induction l as [|b l IH]; simpl; [by destruct (foldr xorb false k)|]. rewrite IH. by rewrite xorb_assoc. Qed.

Lemma filter_below (n b : Z) (m N : nat) :
  (m < N)%nat -> 0 <= b < LOG_TABLE_SIZE -> LOG_TABLE_SIZE * Z.of_nat m <= n < LOG_TABLE_SIZE * Z.of_nat m + LOG_TABLE_SIZE ->
  filter (fun j => LOG_TABLE_SIZE * Z.of_nat j + b < n) (seq 0 N) =
    seq 0 m ++ (if b <? n - LOG_TABLE_SIZE * Z.of_nat m then [m] else []).
Proof.
  unfold LOG_TABLE_SIZE. intros Hm Hb Hn.
  replace (seq 0 N) with (seq 0 m ++ m :: seq (S m) (N - S m)) by (rewrite cons_seq, <- seq_app; f_equal; lia).
  rewrite list.filter_app, filter_cons. f_equal.
  - assert (forall l, Forall (fun j => 12 * Z.of_nat j + b < n) l -> filter (fun j => 12 * Z.of_nat j + b < n) l = l) as Hall.
    { intros l Hl. induction Hl as [|j l Hj Hl IH]; [done|]. by rewrite filter_cons, decide_True, IH. }
    apply Hall, list.Forall_forall. intros j Hj%elem_of_seq. lia.
  - assert (filter (fun j => 12 * Z.of_nat j + b < n) (seq (S m) (N - S m)) = []) as ->.
    { destruct (filter _ _) as [|j l] eqn:E; [done|]. exfalso.
      assert (j ∈ filter (fun j => 12 * Z.of_nat j + b < n) (seq (S m) (N - S m))) as [Hj Hin]%list_elem_of_filter
        by (rewrite E; left). apply elem_of_seq in Hin. lia. }
    destruct (Z.ltb_spec b (n - 12 * Z.of_nat m)); [by rewrite decide_True by lia|by rewrite decide_False by lia].
Qed.

Lemma holds_fmap os words m b :
  holds os 0 words -> (m <= length words)%nat -> 0 <= b < LOG_TABLE_SIZE ->
  (fun w => Z.testbit w b) <$> take m words = (fun j => outcome os (LOG_TABLE_SIZE * Z.of_nat j + b)) <$> seq 0 m.
Proof.
  intros Hw Hm Hb. apply list_eq. intros j. rewrite !list_lookup_fmap. destruct (decide (j < m)%nat) as [Hj|Hj].
  - rewrite lookup_take_lt, lookup_seq_lt by done. destruct (lookup_lt_is_Some_2 words j) as [w Ew]; [lia|].
    rewrite Ew. simpl. f_equal. destruct (Hw j w Ew) as [_ ->]; [|done]. f_equal.
  - rewrite lookup_take_ge, lookup_seq_ge by lia. done.
Qed.

(** The index of table [i] is the branch address and the last
    [history_lengths[i]] outcomes, the latter folded to twelve bits. *)
Theorem hashed_index bs pc i x b :
  (predict_branch pc 0 false 0 (branch_run bs initialize_branch_predictor)).2.(indices) !! i = Some x ->
  0 <= b < LOG_TABLE_SIZE ->
  0 <= x < TABLE_SIZE /\
  Z.testbit x b = xorb (folded (reverse bs.*2) (entry history_lengths i) b) (Z.testbit pc b).
Proof.
  destruct (run_holds bs) as [Hl Hw]. set (s := branch_run bs _) in *. set (os := reverse bs.*2) in *.
  cbn [predict_branch predictor]. unfold predict_step. cbn [snd indices]. rewrite list_lookup_fmap.
  intros (j & Hj & Hx)%fmap_Some Hb. apply lookup_seq in Hj as [-> Hi]. simpl plus in *. subst x. unfold table_index.
  rewrite land_word. split; [apply Z.mod_pos_bound; done|]. change TABLE_SIZE with (2 ^ 12). unfold u32.
  change 4294967296 with (2 ^ 32). unfold LOG_TABLE_SIZE in Hb. rewrite !Z.mod_pow2_bits_low by lia.
  rewrite !Z.lxor_spec. f_equal. set (n := entry history_lengths i).
  assert (0 <= n <= MAXHIST) as Hn.
  { do 16 (destruct i as [|i]; [by vm_compute|]). unfold NTABLES in Hi. lia. }
  unfold folded, MAXHIST in *. pose proof (Z.div_mod n 12 ltac:(lia)) as Hdm. pose proof (Z.mod_pos_bound n 12 ltac:(lia)) as Hmb.
  change LOG_TABLE_SIZE with 12 in *. set (m := Z.to_nat (n / 12)). assert (Z.of_nat m = n / 12) as Em by (unfold m; lia).
  assert (m < NGHIST_WORDS)%nat as HmN by (unfold NGHIST_WORDS; change (Z.to_nat _) with 20%nat; lia).
  pose proof (filter_below n b m NGHIST_WORDS HmN Hb) as Hf. change LOG_TABLE_SIZE with 12 in Hf. rewrite Hf by lia.
  rewrite fmap_app, parity_app, testbit_xor_words, Z.bits_0, xorb_false_l. f_equal.
  - f_equal. apply holds_fmap; [done|lia|done].
  - destruct (lookup_lt_is_Some_2 (ghist_words s) m) as [w Ew]; [lia|].
    unfold entry. rewrite Ew. cbn [default from_option id]. rewrite Z.land_spec.
    destruct (Hw m w Ew) as [_ ->]; [|done]. rewrite Z.shiftl_1_l, Z.sub_1_r, <- Z.ones_equiv.
    replace (n - 12 * Z.of_nat m) with (n mod 12) by lia. change LOG_TABLE_SIZE with 12.
    destruct (Z.ltb_spec b (n mod 12)).
    + rewrite Z.ones_spec_low by lia. simpl. by rewrite andb_true_r, xorb_false_r.
    + rewrite Z.ones_spec_high by lia. by rewrite andb_false_r.
Qed.

Lemma hashed_index_witness :
  exists x, (predict_branch 4660 0 false 0 (branch_run [(64, true); (128, false); (64, true)] initialize_branch_predictor)).2.(indices) !! 2%nat = Some x /\
  Z.testbit x 0 = xorb (folded [true; false; true] (entry history_lengths 2) 0) (Z.testbit 4660 0).
Proof.
  destruct ((predict_branch 4660 0 false 0 (branch_run [(64, true); (128, false); (64, true)] initialize_branch_predictor)).2.(indices) !! 2%nat)
    as [x|] eqn:E; [|vm_compute in E; discriminate E].
  exists x. split; [reflexivity|]. apply (hashed_index [(64, true); (128, false); (64, true)] 4660 2 x 0 E).
  split; [lia|reflexivity].
Defined.

(** ** Weights keep to eight bits *)

Definition weights_ok (t : gmap (nat * Z) Z) : Prop := map_Forall (fun _ w => -128 <= w <= 127) t.

Lemma train_tables_ok taken idx t : weights_ok t -> weights_ok (train_tables taken idx t).
Proof.
  unfold train_tables. generalize (zip (seq 0 NTABLES) idx). intros l. revert t. induction l as [|ix l IH]; intros t Ht; [done|].
  apply IH. apply map_Forall_insert_2; [|done]. assert (-128 <= weight t ix.1 ix.2 <= 127) as Hw.
  { unfold weight. destruct (t !! (ix.1, ix.2)) as [w|] eqn:E; simpl; [exact (Ht _ _ E)|lia]. }
  unfold nudge. destruct taken, (Z.ltb_spec (weight t ix.1 ix.2) 127), (Z.ltb_spec (-128) (weight t ix.1 ix.2)); lia.
Qed.

Lemma hashed_weights_ok bs : weights_ok (tables (branch_run bs initialize_branch_predictor)).
Proof.
  induction bs as [|b bs IH] using rev_ind; [apply map_Forall_empty|]. rewrite branch_run_snoc.
  destruct b as [pc t]. unfold branch_step. cbn [predict_branch last_branch_result predictor snd fst]. unfold result_step.
  destruct (_ || _); [|exact IH]. destruct (if negb _ then _ else _) as [th c]. by apply train_tables_ok.
Qed.

End HashedPerceptron.
