(* ===== verification/SimBtb.v ===== *)
(** * ChampSim's branch target buffer

    btb/basic_btb/basic_btb.cc for one CPU: a set-associative table for direct
    branches, a table indexed by history for indirect ones, and a return address
    stack with trackers of the sizes of call instructions.  Arrays are lists; that
    indices stay in range is part of the invariant [ok]. *)
From stdpp Require Import base list.
From S2P Require Import Prelude SimUtil TraceReader.
Open Scope Z_scope.
Import Util Reader.

Module BasicBtb.

Definition BASIC_BTB_SETS : Z := 1024.
Definition BASIC_BTB_WAYS : nat := 8.
Definition BASIC_BTB_INDIRECT_SIZE : Z := 4096.
Definition BASIC_BTB_RAS_SIZE : Z := 64.
Definition BASIC_BTB_CALL_INSTR_SIZE_TRACKERS : Z := 1024.

Record BASIC_BTB_ENTRY := mkEntry {
  ip_tag : Z;
  target : Z;
  always_taken : bool;
  lru : Z;
}.
#[global] Instance eta_entry : Settable BASIC_BTB_ENTRY :=
  mkEta _ (fun x => mkEntry (ip_tag x) (target x) (always_taken x) (lru x)).

Record state := mkBtb {
  basic_btb : list (list BASIC_BTB_ENTRY);
  basic_btb_lru_counter : Z;
  basic_btb_indirect : list Z;
  basic_btb_conditional_history : Z;
  basic_btb_ras : list Z;
  basic_btb_ras_index : Z;
  basic_btb_call_instr_sizes : list Z;
}.
#[global] Instance eta_btb : Settable state :=
  mkEta _ (fun x => mkBtb (basic_btb x) (basic_btb_lru_counter x) (basic_btb_indirect x) (basic_btb_conditional_history x)
    (basic_btb_ras x) (basic_btb_ras_index x) (basic_btb_call_instr_sizes x)).

Definition initialize_btb : state :=
  mkBtb (replicate (Z.to_nat BASIC_BTB_SETS) (replicate BASIC_BTB_WAYS (mkEntry 0 0 false 0))) 0
    (replicate (Z.to_nat BASIC_BTB_INDIRECT_SIZE) 0) 0
    (replicate (Z.to_nat BASIC_BTB_RAS_SIZE) 0) 0
    (replicate (Z.to_nat BASIC_BTB_CALL_INSTR_SIZE_TRACKERS) 4).

Definition basic_btb_abs_addr_dist (addr1 addr2 : Z) : Z :=
  if addr2 <? addr1 then addr1 - addr2 else addr2 - addr1.

Definition basic_btb_set_index (ip : Z) : nat := Z.to_nat (Z.land (Z.shiftr ip 2) (BASIC_BTB_SETS - 1)).
Definition btb_set (ip : Z) (s : state) : list BASIC_BTB_ENTRY := default [] (basic_btb s !! basic_btb_set_index ip).

(** The way of the entry of a branch in its set, or [None] for [NULL]. *)
Definition basic_btb_find_entry (ip : Z) (s : state) : option nat :=
  let i := find_if (fun e => ip_tag e =? ip) (btb_set ip s) in
  if (i <? length (btb_set ip s))%nat then Some i else None.

Fixpoint lru_loop (i : nat) (lru_way : nat) (lru_value : Z) (set : list BASIC_BTB_ENTRY) : nat :=
  match set with
  | [] => lru_way
  | e :: set => if lru e <? lru_value then lru_loop (S i) i (lru e) set else lru_loop (S i) lru_way lru_value set
  end.

Definition basic_btb_get_lru_entry (set : list BASIC_BTB_ENTRY) : nat :=
  lru_loop 0 0 (from_option lru 0 (set !! 0%nat)) set.

Definition modify_entry (f : BASIC_BTB_ENTRY -> BASIC_BTB_ENTRY) (ip : Z) (way : nat) (s : state) : state :=
  s <| basic_btb ::= alter (alter f way) (basic_btb_set_index ip) |>.

Definition basic_btb_update_lru (ip : Z) (way : nat) (s : state) : state :=
  modify_entry (fun e => e <| lru := basic_btb_lru_counter s |>) ip way s <| basic_btb_lru_counter ::= fun c => u64 (c + 1) |>.

Definition basic_btb_indirect_hash (ip : Z) (s : state) : nat :=
  Z.to_nat (Z.land (Z.lxor (Z.shiftr ip 2) (basic_btb_conditional_history s)) (BASIC_BTB_INDIRECT_SIZE - 1)).

Definition push_basic_btb_ras (ip : Z) (s : state) : state :=
  let i := basic_btb_ras_index s + 1 in
  let i := if i =? BASIC_BTB_RAS_SIZE then 0 else i in
  s <| basic_btb_ras_index := i |> <| basic_btb_ras ::= <[Z.to_nat i := ip]> |>.

Definition peek_basic_btb_ras (s : state) : Z := default 0 (basic_btb_ras s !! Z.to_nat (basic_btb_ras_index s)).

Definition pop_basic_btb_ras (s : state) : Z * state :=
  let target := peek_basic_btb_ras s in
  let i := basic_btb_ras_index s - 1 in
  let i := if i =? -1 then i + BASIC_BTB_RAS_SIZE else i in
  (target, s <| basic_btb_ras ::= <[Z.to_nat (basic_btb_ras_index s) := 0]> |> <| basic_btb_ras_index := i |>).

Definition basic_btb_call_size_tracker_hash (ip : Z) : nat := Z.to_nat (Z.land ip (BASIC_BTB_CALL_INSTR_SIZE_TRACKERS - 1)).
Definition basic_btb_get_call_size (ip : Z) (s : state) : Z :=
  default 0 (basic_btb_call_instr_sizes s !! basic_btb_call_size_tracker_hash ip).

Definition is_indirect (branch_type : Z) : bool := (branch_type =? BRANCH_INDIRECT) || (branch_type =? BRANCH_INDIRECT_CALL).

Definition btb_prediction (ip branch_type : Z) (s : state) : (Z * bool) * state :=
  let taken := negb (branch_type =? BRANCH_CONDITIONAL) in
  let s := if (branch_type =? BRANCH_DIRECT_CALL) || (branch_type =? BRANCH_INDIRECT_CALL) then push_basic_btb_ras ip s else s in
  if branch_type =? BRANCH_RETURN then
    let target := peek_basic_btb_ras s in
    ((u64 (target + basic_btb_get_call_size target s), taken), s)
  else if is_indirect branch_type then
    ((default 0 (basic_btb_indirect s !! basic_btb_indirect_hash ip s), taken), s)
  else
    match basic_btb_find_entry ip s with
    | None => ((0, true), s)
    | Some way =>
      let e := default (mkEntry 0 0 false 0) (btb_set ip s !! way) in
      ((target e, always_taken e), basic_btb_update_lru ip way s)
    end.

(** The table for direct branches. *)
Definition update_table (ip branch_target : Z) (taken : bool) (s : state) : state :=
  match basic_btb_find_entry ip s with
  | None =>
    if negb (branch_target =? 0) && taken then
      let way := basic_btb_get_lru_entry (btb_set ip s) in
      basic_btb_update_lru ip way
        (modify_entry (fun e => e <| ip_tag := ip |> <| target := branch_target |> <| always_taken := true |>) ip way s)
    else s
  | Some way =>
    modify_entry (fun e => let e := e <| target := branch_target |> in if taken then e else e <| always_taken := false |>) ip way s
  end.

Definition update_btb (ip branch_target : Z) (taken : bool) (branch_type : Z) (s : state) : state :=
  let s := if is_indirect branch_type
           then s <| basic_btb_indirect ::= <[basic_btb_indirect_hash ip s := branch_target]> |> else s in
  let s := if branch_type =? BRANCH_CONDITIONAL
           then s <| basic_btb_conditional_history ::= fun h =>
                  let h := u64 (Z.shiftl h 1) in if taken then Z.lor h 1 else h |> else s in
  if branch_type =? BRANCH_RETURN then
    let '(call_ip, s) := pop_basic_btb_ras s in
    let estimated_call_instr_size := basic_btb_abs_addr_dist call_ip branch_target in
    if estimated_call_instr_size <=? 10
    then s <| basic_btb_call_instr_sizes ::= <[basic_btb_call_size_tracker_hash call_ip := estimated_call_instr_size]> |>
    else s
  else if is_indirect branch_type then s
  else update_table ip branch_target taken s.

(** ** The return address stack

    The core asks for a prediction and reports the outcome of every branch. *)
Record branch := mkBranch {
  b_ip : Z;
  b_type : Z;
  b_target : Z;
  b_taken : bool;
}.
Definition btb_step (s : state) (b : branch) : state :=
  update_btb (b_ip b) (b_target b) (b_taken b) (b_type b) (btb_prediction (b_ip b) (b_type b) s).2.
Definition btb_run (bs : list branch) : state := foldl btb_step initialize_btb bs.

(** What the stack and the trackers mean: the last 64 calls that have not
    returned, latest first, and the distance of the last return to a call. *)
Definition is_call (branch_type : Z) : bool := (branch_type =? BRANCH_DIRECT_CALL) || (branch_type =? BRANCH_INDIRECT_CALL).
Record calls_spec := mkCalls {
  stack : list Z;
  sizes : nat -> Z;
}.
Definition spec_step (a : calls_spec) (b : branch) : calls_spec :=
  if is_call (b_type b) then mkCalls (take (Z.to_nat BASIC_BTB_RAS_SIZE) (b_ip b :: stack a)) (sizes a)
  else if b_type b =? BRANCH_RETURN then
    let c := default 0 (head (stack a)) in
    let d := Z.abs (c - b_target b) in
    mkCalls (tail (stack a))
      (if d <=? 10 then fun h => if (h =? basic_btb_call_size_tracker_hash c)%nat then d else sizes a h else sizes a)
  else a.
Definition spec_run (bs : list branch) : calls_spec := foldl spec_step (mkCalls [] (fun _ => 4)) bs.

(** The array from the top down is the stack, then zeros. *)
Record represents (a : calls_spec) (s : state) : Prop := {
  rp_length : length (basic_btb_ras s) = Z.to_nat BASIC_BTB_RAS_SIZE;
  rp_index : 0 <= basic_btb_ras_index s < BASIC_BTB_RAS_SIZE;
  rp_stack : (length (stack a) <= Z.to_nat BASIC_BTB_RAS_SIZE)%nat;
  rp_ras : forall i, 0 <= i < BASIC_BTB_RAS_SIZE ->
    basic_btb_ras s !! Z.to_nat ((basic_btb_ras_index s - i) mod BASIC_BTB_RAS_SIZE) = Some (default 0 (stack a !! Z.to_nat i));
  rp_trackers : length (basic_btb_call_instr_sizes s) = Z.to_nat BASIC_BTB_CALL_INSTR_SIZE_TRACKERS;
  rp_sizes : forall h, (h < Z.to_nat BASIC_BTB_CALL_INSTR_SIZE_TRACKERS)%nat -> basic_btb_call_instr_sizes s !! h = Some (sizes a h);
}.

Lemma initialize_represents : represents (mkCalls [] (fun _ => 4)) initialize_btb.
Proof.
  constructor; cbn [basic_btb_ras basic_btb_ras_index basic_btb_call_instr_sizes initialize_btb stack sizes];
    [apply length_replicate|unfold BASIC_BTB_RAS_SIZE; lia|simpl; lia| |apply length_replicate|].
  - intros i Hi. apply lookup_replicate_2. pose proof (Z.mod_pos_bound (0 - i) BASIC_BTB_RAS_SIZE ltac:(done)). lia.
  - intros h Hh. by apply lookup_replicate_2.
Qed.

(** Only the fields of the stack and the trackers matter. *)
Lemma represents_same a s s' :
  basic_btb_ras s' = basic_btb_ras s -> basic_btb_ras_index s' = basic_btb_ras_index s ->
  basic_btb_call_instr_sizes s' = basic_btb_call_instr_sizes s -> represents a s -> represents a s'.
Proof. intros H1 H2 H3 [? ? ? ? ? ?]. constructor; rewrite ?H1, ?H2, ?H3; assumption. Qed.

Lemma push_represents a ip s :
  represents a s -> represents (mkCalls (take (Z.to_nat BASIC_BTB_RAS_SIZE) (ip :: stack a)) (sizes a)) (push_basic_btb_ras ip s).
Proof.
  intros [Hl Hi Hst Hr Ht Hs]. unfold BASIC_BTB_RAS_SIZE in *.
  assert ((if basic_btb_ras_index s + 1 =? 64 then 0 else basic_btb_ras_index s + 1) = (basic_btb_ras_index s + 1) mod 64) as E.
  { destruct (Z.eqb_spec (basic_btb_ras_index s + 1) 64) as [E|E]; [by rewrite E|]. rewrite Z.mod_small; lia. }
  unfold push_basic_btb_ras, BASIC_BTB_RAS_SIZE. rewrite E. pose proof (Z.mod_pos_bound (basic_btb_ras_index s + 1) 64 ltac:(lia)) as Hb.
  constructor; cbn [stack sizes]; unfold BASIC_BTB_RAS_SIZE.
  - cbn. by rewrite length_insert.
  - exact Hb.
  - rewrite length_take. lia.
  - intros i Hir. cbn [basic_btb_ras basic_btb_ras_index Prelude.set].
    rewrite lookup_take_lt by lia. destruct (decide (i = 0)) as [->|Hne].
    + rewrite Z.sub_0_r, Z.mod_mod by lia. apply list_lookup_insert_eq. lia.
    + rewrite list_lookup_insert_ne.
      * replace (((basic_btb_ras_index s + 1) mod 64 - i) mod 64) with ((basic_btb_ras_index s - (i - 1)) mod 64)
          by (rewrite Zminus_mod_idemp_l; f_equal; lia).
        rewrite Hr by lia. replace (Z.to_nat i) with (S (Z.to_nat (i - 1))) by lia. done.
      * rewrite Zminus_mod_idemp_l. intros Heq. apply Z2Nat.inj in Heq; [|lia|apply Z.mod_pos_bound; lia].
        pose proof (Z.div_mod (basic_btb_ras_index s + 1) 64). pose proof (Z.div_mod (basic_btb_ras_index s + 1 - i) 64). lia.
  - exact Ht.
  - exact Hs.
Qed.

Lemma peek_represents a s : represents a s -> peek_basic_btb_ras s = default 0 (head (stack a)).
Proof.
  intros [Hl Hi Hst Hr Ht Hs]. unfold peek_basic_btb_ras. specialize (Hr 0 ltac:(done)).
  rewrite Z.sub_0_r, Z.mod_small in Hr by done. rewrite Hr. simpl. by destruct (stack a).
Qed.

Lemma pop_represents a s :
  represents a s -> represents (mkCalls (tail (stack a)) (sizes a)) (pop_basic_btb_ras s).2.
Proof.
  intros [Hl Hi Hst Hr Ht Hs]. unfold BASIC_BTB_RAS_SIZE in *.
  assert ((if basic_btb_ras_index s - 1 =? -1 then basic_btb_ras_index s - 1 + 64 else basic_btb_ras_index s - 1) =
          (basic_btb_ras_index s - 1) mod 64) as E.
  { destruct (Z.eqb_spec (basic_btb_ras_index s - 1) (-1)) as [E|E]; [by rewrite E|]. rewrite Z.mod_small; lia. }
  unfold pop_basic_btb_ras, BASIC_BTB_RAS_SIZE. cbn [snd]. rewrite E.
  pose proof (Z.mod_pos_bound (basic_btb_ras_index s - 1) 64 ltac:(lia)) as Hb.
  constructor; cbn [stack sizes]; unfold BASIC_BTB_RAS_SIZE.
  - cbn. by rewrite length_insert.
  - exact Hb.
  - destruct (stack a); simpl in *; lia.
  - intros i Hir. cbn [basic_btb_ras basic_btb_ras_index Prelude.set]. rewrite Zminus_mod_idemp_l.
    pose proof (Z.mod_pos_bound (basic_btb_ras_index s - 1 - i) 64 ltac:(lia)) as Hp.
    pose proof (Z.div_mod (basic_btb_ras_index s - 1 - i) 64 ltac:(lia)) as Hdm.
    rewrite lookup_tail. destruct (decide (i = 63)) as [->|Hne].
    + replace ((basic_btb_ras_index s - 1 - 63) mod 64) with (basic_btb_ras_index s) by lia.
      rewrite list_lookup_insert_eq by lia. f_equal. rewrite lookup_ge_None_2; [done|lia].
    + rewrite list_lookup_insert_ne by lia. specialize (Hr (i + 1) ltac:(lia)).
      replace (basic_btb_ras_index s - (i + 1)) with (basic_btb_ras_index s - 1 - i) in Hr by lia. rewrite Hr.
      do 3 f_equal. lia.
  - exact Ht.
  - exact Hs.
Qed.

Lemma tracker_hash_lt ip : (basic_btb_call_size_tracker_hash ip < Z.to_nat BASIC_BTB_CALL_INSTR_SIZE_TRACKERS)%nat.
Proof.
  unfold basic_btb_call_size_tracker_hash. change (BASIC_BTB_CALL_INSTR_SIZE_TRACKERS - 1) with (Z.ones 10). rewrite Z.land_ones by lia.
  pose proof (Z.mod_pos_bound ip (2 ^ 10) ltac:(done)). change BASIC_BTB_CALL_INSTR_SIZE_TRACKERS with (2 ^ 10). lia.
Qed.

Lemma dist_abs x y : basic_btb_abs_addr_dist x y = Z.abs (x - y).
Proof. unfold basic_btb_abs_addr_dist. destruct (Z.ltb_spec y x); lia. Qed.

(** Recalibration. *)
Lemma calibrate_represents a h d s :
  represents a s -> (h < Z.to_nat BASIC_BTB_CALL_INSTR_SIZE_TRACKERS)%nat ->
  represents (mkCalls (stack a) (fun h' => if (h' =? h)%nat then d else sizes a h'))
    (s <| basic_btb_call_instr_sizes ::= <[h := d]> |>).
Proof.
  intros [Hl Hi Hst Hr Ht Hs] Hh. constructor; cbn [stack sizes]; try assumption.
  - cbn. by rewrite length_insert.
  - intros h' Hh'. cbn [basic_btb_call_instr_sizes Prelude.set]. destruct (Nat.eqb_spec h' h) as [->|Hne].
    + apply list_lookup_insert_eq. lia.
    + rewrite list_lookup_insert_ne by done. by apply Hs.
Qed.

Lemma update_table_represents a ip t tk s : represents a s -> represents a (update_table ip t tk s).
Proof.
  apply represents_same; unfold update_table; destruct (basic_btb_find_entry ip s); try done; by destruct (_ && _).
Qed.

(** The state a prediction leaves. *)
Lemma prediction_represents a ip ty s :
  represents a s ->
  represents (if is_call ty then mkCalls (take (Z.to_nat BASIC_BTB_RAS_SIZE) (ip :: stack a)) (sizes a) else a)
    (btb_prediction ip ty s).2.
Proof.
  intros Ha. unfold btb_prediction. fold (is_call ty). set (s1 := if is_call ty then push_basic_btb_ras ip s else s).
  assert (represents (if is_call ty then mkCalls (take (Z.to_nat BASIC_BTB_RAS_SIZE) (ip :: stack a)) (sizes a) else a) s1) as Hs1.
  { unfold s1. destruct (is_call ty); [by apply push_represents|done]. }
  destruct (ty =? BRANCH_RETURN); [done|]. destruct (is_indirect ty); [done|].
  destruct (basic_btb_find_entry ip s1); [|done]. by apply (represents_same _ s1).
Qed.

Lemma step_represents a s b : represents a s -> represents (spec_step a b) (btb_step s b).
Proof.
  intros Ha. unfold btb_step, spec_step. pose proof (prediction_represents a (b_ip b) (b_type b) s Ha) as Hp.
  set (s1 := (btb_prediction _ _ _).2) in *. unfold update_btb.
  set (s2 := if is_indirect _ then _ else _). set (s3 := if b_type b =? BRANCH_CONDITIONAL then _ else _).
  set (a1 := if is_call _ then _ else _) in *.
  assert (represents a1 s3) as H3.
  { apply (represents_same _ s1); unfold s3, s2; try done; by destruct (b_type b =? BRANCH_CONDITIONAL), (is_indirect (b_type b)). }
  clearbody s3. unfold a1 in *. destruct (is_call (b_type b)) eqn:Ec.
  - assert ((b_type b =? BRANCH_RETURN) = false) as ->
      by (unfold is_call in Ec; apply orb_true_iff in Ec as [E|E]; apply Z.eqb_eq in E; by rewrite E).
    destruct (is_indirect (b_type b)); [done|]. by apply update_table_represents.
  - destruct (b_type b =? BRANCH_RETURN).
    + pose proof (pop_represents a s3 H3) as H4. rewrite (surjective_pairing (pop_basic_btb_ras s3)).
      cbn [fst]. change ((pop_basic_btb_ras s3).1) with (peek_basic_btb_ras s3). rewrite (peek_represents a s3 H3), dist_abs.
      destruct (_ <=? 10); [|done]. apply (calibrate_represents _ _ _ _ H4), tracker_hash_lt.
    + destruct (is_indirect (b_type b)); [done|]. by apply update_table_represents.
Qed.

Lemma run_represents bs : represents (spec_run bs) (btb_run bs).
Proof.
  unfold spec_run, btb_run. generalize initialize_represents. generalize initialize_btb.
  generalize (mkCalls [] (fun _ => 4)). induction bs as [|b bs IH]; intros a s Ha; [done|]. by apply IH, step_represents.
Qed.

(** A return is predicted to go behind its call: the latest of the last 64 calls
    that has not returned, plus the distance at which the last return to a call
    with that tracker was found, or 4. *)
Theorem return_target bs ip :
  let a := spec_run bs in
  let c := default 0 (head (stack a)) in
  (btb_prediction ip BRANCH_RETURN (btb_run bs)).1 = (u64 (c + sizes a (basic_btb_call_size_tracker_hash c)), true).
Proof.
  intros a c. pose proof (run_represents bs) as Ha. fold a in Ha. unfold btb_prediction.
  change ((BRANCH_RETURN =? BRANCH_DIRECT_CALL) || (BRANCH_RETURN =? BRANCH_INDIRECT_CALL)) with false.
  cbv zeta iota. rewrite Z.eqb_refl. cbn [fst]. rewrite (peek_represents a _ Ha). fold c.
  unfold basic_btb_get_call_size. rewrite (rp_sizes _ _ Ha) by apply tracker_hash_lt. done.
Qed.

(** ** Direct branches *)

Definition table_ok (s : state) : Prop :=
  length (basic_btb s) = Z.to_nat BASIC_BTB_SETS /\ Forall (fun set => length set = BASIC_BTB_WAYS) (basic_btb s).

Lemma modify_entry_ok f ip way s : table_ok s -> table_ok (modify_entry f ip way s).
Proof.
  intros [Hl Hs]. split; cbn; [by rewrite length_alter|]. apply Forall_alter; [done|]. intros l _ Hll. by rewrite length_alter.
Qed.

Lemma update_table_ok ip t tk s : table_ok s -> table_ok (update_table ip t tk s).
Proof.
  intros Hs. unfold update_table. destruct (basic_btb_find_entry ip s); [by apply modify_entry_ok|].
  destruct (_ && _); [|done]. unfold basic_btb_update_lru. by apply (modify_entry_ok _ ip), modify_entry_ok.
Qed.

Lemma prediction_table_ok ip ty s : table_ok s -> table_ok (btb_prediction ip ty s).2.
Proof.
  intros Hs. unfold btb_prediction. fold (is_call ty). set (s1 := if is_call ty then push_basic_btb_ras ip s else s).
  assert (table_ok s1) as H1 by (unfold s1; by destruct (is_call ty)).
  destruct (ty =? BRANCH_RETURN); [done|]. destruct (is_indirect ty); [done|].
  destruct (basic_btb_find_entry ip s1); [|done]. cbn [snd]. by apply modify_entry_ok.
Qed.

Lemma run_table_ok bs : table_ok (btb_run bs).
Proof.
  unfold btb_run. assert (table_ok initialize_btb) as Hs.
  { split; [apply length_replicate|]. apply Forall_replicate, length_replicate. }
  revert Hs. generalize initialize_btb. induction bs as [|b bs IH]; intros s Hs; [done|]. apply IH.
  pose proof (prediction_table_ok (b_ip b) (b_type b) s Hs) as H1. unfold btb_step, update_btb.
  set (s1 := (btb_prediction _ _ _).2) in *. set (s2 := if is_indirect _ then _ else _).
  set (s3 := if b_type b =? BRANCH_CONDITIONAL then _ else _).
  assert (table_ok s3) as H3 by (unfold s3, s2; by destruct (b_type b =? BRANCH_CONDITIONAL), (is_indirect (b_type b))).
  clearbody s3. destruct (b_type b =? BRANCH_RETURN).
  - rewrite (surjective_pairing (pop_basic_btb_ras s3)). by destruct (_ <=? 10).
  - destruct (is_indirect (b_type b)); [done|]. by apply update_table_ok.
Qed.

Lemma set_index_lt ip : (basic_btb_set_index ip < Z.to_nat BASIC_BTB_SETS)%nat.
Proof.
  unfold basic_btb_set_index. change (BASIC_BTB_SETS - 1) with (Z.ones 10). rewrite Z.land_ones by lia.
  pose proof (Z.mod_pos_bound (Z.shiftr ip 2) (2 ^ 10) ltac:(done)). change BASIC_BTB_SETS with (2 ^ 10). lia.
Qed.

Lemma length_btb_set ip s : table_ok s -> length (btb_set ip s) = BASIC_BTB_WAYS.
Proof.
  intros [Hl Hs]. unfold btb_set. destruct (lookup_lt_is_Some_2 (basic_btb s) (basic_btb_set_index ip)) as [l E].
  { rewrite Hl. apply set_index_lt. }
  rewrite E. simpl. rewrite Forall_lookup in Hs. exact (Hs _ _ E).
Qed.

Lemma btb_set_modify f ip way s : table_ok s -> btb_set ip (modify_entry f ip way s) = alter f way (btb_set ip s).
Proof.
  intros [Hl _]. unfold btb_set, modify_entry. cbn. rewrite list_lookup_alter_eq.
  destruct (lookup_lt_is_Some_2 (basic_btb s) (basic_btb_set_index ip)) as [l E]; [|by rewrite E].
  rewrite Hl. apply set_index_lt.
Qed.

Lemma lru_loop_lt i w v set : (w < i + length set)%nat -> (lru_loop i w v set < i + length set)%nat.
Proof.
  revert i w v. induction set as [|e set IH]; intros i w v Hw; simpl in *; [lia|].
  destruct (_ <? _); (eapply Nat.lt_le_trans; [apply IH; lia|lia]).
Qed.

Lemma find_if_tag ip way l (f : BASIC_BTB_ENTRY -> BASIC_BTB_ENTRY) :
  (forall e, ip_tag (f e) = ip_tag e) ->
  find_if (fun e => ip_tag e =? ip) (alter f way l) = find_if (fun e => ip_tag e =? ip) l.
Proof.
  intros Hf. revert way. induction l as [|x l IH]; intros [|way]; simpl; [done..| |].
  - by rewrite Hf.
  - destruct (ip_tag x =? ip); [done|]. f_equal. apply IH.
Qed.

(** Where a taken branch is found after it has been entered. *)
Lemma update_table_finds ip t s :
  table_ok s -> t <> 0 ->
  exists way e, basic_btb_find_entry ip (update_table ip t true s) = Some way /\
  btb_set ip (update_table ip t true s) !! way = Some e /\ target e = t.
Proof.
  intros Hs Ht. pose proof (length_btb_set ip s Hs) as Hlen. unfold update_table. unfold basic_btb_find_entry at 2 3.
  set (l := btb_set ip s) in *. destruct (Nat.ltb_spec (find_if (fun e => ip_tag e =? ip) l) (length l)) as [Hlt|Hge].
  - destruct (find_if_Some _ _ Hlt) as (e & He & Htag). set (way := find_if _ l) in *.
    unfold basic_btb_find_entry. rewrite btb_set_modify by done. fold l. rewrite length_alter.
    assert (find_if (fun e => ip_tag e =? ip) (alter (fun e => e <| target := t |>) way l) = way) as E.
    { etransitivity; [|by unfold way]. apply (find_if_tag _ _ _ (fun e => e <| target := t |>)). done. }
    exists way, (e <| target := t |>). rewrite E, list_lookup_alter_eq, He.
    split; [|done]. destruct (Nat.ltb_spec way (length l)); [done|lia].
  - rewrite (proj2 (Z.eqb_neq t 0) Ht). cbn [negb andb].
    set (way := basic_btb_get_lru_entry l).
    assert (way < length l)%nat as Hway by (apply (lru_loop_lt 0); rewrite Hlen; unfold BASIC_BTB_WAYS; lia).
    unfold basic_btb_find_entry, basic_btb_update_lru.
    change (btb_set ip (?x <| basic_btb_lru_counter ::= ?f |>)) with (btb_set ip x).
    rewrite !btb_set_modify by (done || by apply modify_entry_ok). fold l. rewrite !length_alter.
    destruct (lookup_lt_is_Some_2 l way Hway) as [e He].
    assert (forall j x, l !! j = Some x -> (ip_tag x =? ip) = false) as Hno.
    { intros j x Hx. apply (find_if_before (fun e => ip_tag e =? ip) l j x Hx). apply lookup_lt_Some in Hx. lia. }
    assert (find_if (fun e => ip_tag e =? ip)
      (alter (fun e0 => e0 <| lru := basic_btb_lru_counter s |>) way
        (alter (fun e0 => e0 <| ip_tag := ip |> <| target := t |> <| always_taken := true |>) way l)) = way) as E.
    { eapply find_if_unique; [rewrite !list_lookup_alter_eq, He; done|apply Z.eqb_refl|].
      intros j y Hy Hp. destruct (decide (j = way)) as [|Hne]; [done|]. rewrite !list_lookup_alter_ne in Hy by done.
      by rewrite (Hno j y Hy) in Hp. }
    cbn -[Nat.ltb] in E |- *. rewrite E. eexists way, _. split; [destruct (Nat.ltb_spec way (length l)); [done|lia]|].
    split; [rewrite !list_lookup_alter_eq, He; done|done].
Qed.

(** A direct branch that was taken is predicted to go where it went. *)
Theorem direct_target bs b ty :
  b_taken b = true -> b_target b <> 0 ->
  is_indirect (b_type b) = false -> b_type b <> BRANCH_RETURN -> is_indirect ty = false -> ty <> BRANCH_RETURN ->
  (btb_prediction (b_ip b) ty (btb_step (btb_run bs) b)).1.1 = b_target b.
Proof.
  intros Htk Ht Hi Hr Hi' Hr'. pose proof (prediction_table_ok (b_ip b) (b_type b) _ (run_table_ok bs)) as H1.
  unfold btb_step, update_btb. set (s1 := (btb_prediction _ _ (btb_run bs)).2) in *. rewrite Hi, Htk.
  rewrite (proj2 (Z.eqb_neq _ _) Hr). set (s3 := if b_type b =? BRANCH_CONDITIONAL then _ else s1).
  assert (table_ok s3) as H3 by (unfold s3; by destruct (b_type b =? BRANCH_CONDITIONAL)). clearbody s3.
  destruct (update_table_finds (b_ip b) (b_target b) s3 H3 Ht) as (way & e & Hf & He & Hte).
  unfold btb_prediction. fold (is_call ty). rewrite (proj2 (Z.eqb_neq _ _) Hr'), Hi'.
  set (s4 := update_table _ _ _ _) in *. set (s5 := if is_call ty then push_basic_btb_ras _ s4 else s4).
  assert (basic_btb_find_entry (b_ip b) s5 = Some way) as -> by (rewrite <- Hf; unfold s5; by destruct (is_call ty)).
  assert (btb_set (b_ip b) s5 = btb_set (b_ip b) s4) as -> by (unfold s5; by destruct (is_call ty)).
  cbn [fst]. by rewrite He.
Qed.

Lemma direct_target_witness :
  (btb_prediction 4096 BRANCH_CONDITIONAL (btb_step (btb_run []) (mkBranch 4096 BRANCH_CONDITIONAL 8192 true))).1.1 = 8192.
Proof. apply (direct_target [] (mkBranch 4096 BRANCH_CONDITIONAL 8192 true) BRANCH_CONDITIONAL); try reflexivity; discriminate. Defined.

End BasicBtb.
