(* ===== verification/SimCpu.v ===== *)
(** * ChampSim's out-of-order core

    src/ooo_cpu.cc and inc/ooo_cpu.h: instructions enter the fetch buffer
    ([init_instruction]), are translated and fetched, decoded, dispatched into the
    reorder buffer, scheduled, executed and retired.  Iterators into the fetch and
    reorder buffers are positions of the ring, iterators into the load and store
    queues are indices.  The core reaches the memory hierarchy over four buses;
    what is behind them is the class [Memory]. *)
From stdpp Require Import base list.
From S2P Require Import Prelude SimUtil SimQueue SimBranch SimBtb.
From S2P Require TraceReader SimVmem.
Open Scope Z_scope.
Open Scope c_scope.
Import Util Circ.
Import (notations) Mem.

(** The buses of the core to its TLBs and first-level caches. *)
Inductive bus := ITLB | DTLB | L1I | L1D.
#[global] Instance bus_eq_dec : EqDecision bus.
Proof. solve_decision. Defined.

(** The hierarchy behind the buses: [lower_level->...] of a bus.  The calls of
    [return_data] an operation makes to the buses are part of its result. *)
Class Memory (M : Type) := {
  bus_fill_level : bus -> M -> Z;
  bus_add_rq : bus -> Mem.PACKET -> M -> cres (Z * Mem.PACKET * list (bus * Mem.PACKET) * M);
  bus_add_wq : bus -> Mem.PACKET -> M -> cres (Z * Mem.PACKET * list (bus * Mem.PACKET) * M);
}.

(** A branch target buffer, and the instruction prefetcher's hook. *)
Class TargetBuffer (B : Type) := {
  btb_prediction : forall (ip branch_type : Z), B -> (Z * bool) * B;
  update_btb : forall (ip branch_target : Z) (taken : bool) (branch_type : Z), B -> B;
}.
#[global] Instance basic_target_buffer : TargetBuffer BasicBtb.state := {|
  btb_prediction := BasicBtb.btb_prediction;
  update_btb := BasicBtb.update_btb;
|}.

Module Cpu.

Definition INFLIGHT : Z := 1.
Definition COMPLETED : Z := 2.
Definition DEADLOCK_CYCLE : Z := 1000000.
Local Abbreviation NUM_INSTR_DESTINATIONS_SPARC := TraceReader.Reader.NUM_INSTR_DESTINATIONS_SPARC.
Local Abbreviation NUM_INSTR_SOURCES := TraceReader.Reader.NUM_INSTR_SOURCES.

(** ** Instructions (inc/instruction.h) *)
Record ooo_model_instr := mkInstr {
  instr_id : Z;
  ip : Z;
  event_cycle : Z;
  is_branch : bool;
  is_memory : bool;
  branch_taken : bool;
  branch_mispredicted : bool;
  source_added : list bool;
  destination_added : list bool;
  is_kernel : bool;
  asid : Z * Z;
  branch_type : Z;
  branch_target : Z;
  translated : Z;
  fetched : Z;
  decoded : Z;
  scheduled : Z;
  executed : Z;
  num_reg_ops : Z;
  num_mem_ops : Z;
  num_reg_dependent : Z;
  destination_registers : list Z;
  source_registers : list Z;
  registers_instrs_depend_on_me : list Z;
  memory_instrs_depend_on_me : list Z;
  instruction_pa : Z;
  destination_memory : list Z;
  source_memory : list Z;
  lq_index : list (option nat);
  sq_index : list (option nat);
}.
#[global] Instance eta_instr : Settable ooo_model_instr :=
  mkEta _ (fun x => mkInstr (instr_id x) (ip x) (event_cycle x) (is_branch x) (is_memory x) (branch_taken x)
    (branch_mispredicted x) (source_added x) (destination_added x) (is_kernel x) (asid x) (branch_type x) (branch_target x)
    (translated x) (fetched x) (decoded x) (scheduled x) (executed x) (num_reg_ops x) (num_mem_ops x) (num_reg_dependent x)
    (destination_registers x) (source_registers x) (registers_instrs_depend_on_me x) (memory_instrs_depend_on_me x)
    (instruction_pa x) (destination_memory x) (source_memory x) (lq_index x) (sq_index x)).

(** An instruction as the trace reader leaves it; all else has its initial value. *)
Definition of_reader (i : TraceReader.Reader.ooo_model_instr) : ooo_model_instr :=
  mkInstr 0 (TraceReader.Reader.ip i) 0 (TraceReader.Reader.is_branch i) false (TraceReader.Reader.branch_taken i) false
    (replicate NUM_INSTR_SOURCES false) (replicate NUM_INSTR_DESTINATIONS_SPARC false)
    (TraceReader.Reader.is_kernel i) (TraceReader.Reader.asid i) (TraceReader.Reader.branch_type i) (TraceReader.Reader.branch_target i)
    0 0 0 0 0 0 0 0
    (TraceReader.Reader.destination_registers i) (TraceReader.Reader.source_registers i) [] [] 0
    (TraceReader.Reader.destination_memory i) (TraceReader.Reader.source_memory i)
    (replicate NUM_INSTR_SOURCES None) (replicate NUM_INSTR_DESTINATIONS_SPARC None).

(** ** Load and store queue entries (inc/block.h) *)
Record LSQ_ENTRY := mkLSQ {
  l_instr_id : Z;
  producer_id : Z;
  virtual_address : Z;
  physical_address : Z;
  l_ip : Z;
  l_event_cycle : Z;
  rob_index : option Z;
  l_translated : Z;
  l_fetched : Z;
  l_asid : Z * Z;
}.
#[global] Instance eta_LSQ : Settable LSQ_ENTRY :=
  mkEta _ (fun x => mkLSQ (l_instr_id x) (producer_id x) (virtual_address x) (physical_address x) (l_ip x) (l_event_cycle x)
    (rob_index x) (l_translated x) (l_fetched x) (l_asid x)).
Definition new_LSQ : LSQ_ENTRY := mkLSQ 0 Mem.UINT64_MAX 0 0 0 0 None 0 0 (255, 255).
#[global] Instance is_valid_LSQ : IsValid LSQ_ENTRY := fun test => negb (virtual_address test =? 0).

Record dib_entry_t := mkDib {
  d_valid : bool;
  d_lru : Z;
  d_address : Z;
}.
#[global] Instance eta_dib : Settable dib_entry_t := mkEta _ (fun x => mkDib (d_valid x) (d_lru x) (d_address x)).
Definition new_dib_entry : dib_entry_t := mkDib false 999999 0.
#[global] Instance is_valid_dib : IsValid dib_entry_t := d_valid.
#[global] Instance has_address_dib : HasAddress dib_entry_t := d_address.
#[global] Instance has_lru_dib : HasLru dib_entry_t := { lru_of := d_lru; set_lru := fun v x => x <| d_lru := v |> }.

(** ** The core *)

(** Constants of a core; the [MAX_READ] are those of the caches on its buses. *)
Record cpu_params := mkCpuParams {
  cpu : Z;
  dib_set : Z;
  dib_way : nat;
  dib_window : Z;
  FETCH_WIDTH : nat;
  DECODE_WIDTH : nat;
  DISPATCH_WIDTH : nat;
  SCHEDULER_SIZE : nat;
  EXEC_WIDTH : nat;
  LQ_WIDTH : nat;
  SQ_WIDTH : nat;
  RETIRE_WIDTH : nat;
  BRANCH_MISPREDICT_PENALTY : Z;
  SCHEDULING_LATENCY : Z;
  EXEC_LATENCY : Z;
  MAX_INSTR_DESTINATIONS : nat;
  bus_MAX_READ : bus -> nat;
}.

Record O3_CPU (S B M : Type) := mkCPU {
  kernel_insn : Z;
  kernel_data : Z;
  user_insn : Z;
  user_data : Z;
  current_cycle : Z;
  instr_unique_id : Z;
  completed_executions : Z;
  instrs_to_read_this_cycle : Z;
  num_retired : Z;
  inflight_reg_executions : Z;
  inflight_mem_executions : Z;
  DIB : list dib_entry_t;
  IFETCH_BUFFER : circular_buffer ooo_model_instr;
  DISPATCH_BUFFER : Delay.delay_queue ooo_model_instr;
  DECODE_BUFFER : Delay.delay_queue ooo_model_instr;
  ROB : circular_buffer ooo_model_instr;
  LQ : list LSQ_ENTRY;
  SQ : list LSQ_ENTRY;
  STA : list Z;
  ready_to_execute : list Z;
  RTL0 : list nat;
  RTL1 : list nat;
  RTS0 : list nat;
  RTS1 : list nat;
  fetch_stall : bool;
  fetch_resume_cycle : Z;
  num_branch : Z;
  branch_mispredictions : Z;
  total_rob_occupancy_at_branch_mispredict : Z;
  total_branch_types : list Z;
  branch_type_misses : list Z;
  PROCESSED : bus -> circular_buffer Mem.PACKET;
  predictor_state : S;
  btb_state : B;
  memory : M;
}.
Arguments mkCPU {S B M}.
Arguments kernel_insn {S B M}.
Arguments kernel_data {S B M}.
Arguments user_insn {S B M}.
Arguments user_data {S B M}.
Arguments current_cycle {S B M}.
Arguments instr_unique_id {S B M}.
Arguments completed_executions {S B M}.
Arguments instrs_to_read_this_cycle {S B M}.
Arguments num_retired {S B M}.
Arguments inflight_reg_executions {S B M}.
Arguments inflight_mem_executions {S B M}.
Arguments DIB {S B M}.
Arguments IFETCH_BUFFER {S B M}.
Arguments DISPATCH_BUFFER {S B M}.
Arguments DECODE_BUFFER {S B M}.
Arguments ROB {S B M}.
Arguments LQ {S B M}.
Arguments SQ {S B M}.
Arguments STA {S B M}.
Arguments ready_to_execute {S B M}.
Arguments RTL0 {S B M}.
Arguments RTL1 {S B M}.
Arguments RTS0 {S B M}.
Arguments RTS1 {S B M}.
Arguments fetch_stall {S B M}.
Arguments fetch_resume_cycle {S B M}.
Arguments num_branch {S B M}.
Arguments branch_mispredictions {S B M}.
Arguments total_rob_occupancy_at_branch_mispredict {S B M}.
Arguments total_branch_types {S B M}.
Arguments branch_type_misses {S B M}.
Arguments PROCESSED {S B M}.
Arguments predictor_state {S B M}.
Arguments btb_state {S B M}.
Arguments memory {S B M}.
#[global] Instance eta_CPU S B M : Settable (O3_CPU S B M) :=
  mkEta _ (fun x => mkCPU (kernel_insn x) (kernel_data x) (user_insn x) (user_data x) (current_cycle x) (instr_unique_id x)
    (completed_executions x) (instrs_to_read_this_cycle x) (num_retired x) (inflight_reg_executions x) (inflight_mem_executions x)
    (DIB x) (IFETCH_BUFFER x) (DISPATCH_BUFFER x) (DECODE_BUFFER x) (ROB x) (LQ x) (SQ x) (STA x) (ready_to_execute x)
    (RTL0 x) (RTL1 x) (RTS0 x) (RTS1 x) (fetch_stall x) (fetch_resume_cycle x) (num_branch x) (branch_mispredictions x)
    (total_rob_occupancy_at_branch_mispredict x) (total_branch_types x) (branch_type_misses x) (PROCESSED x)
    (predictor_state x) (btb_state x) (memory x)).

Section Core.
Context `{Config} {S B M : Type} `{BranchPredictor S} `{TargetBuffer B} `{Memory M}.
Context (k : cpu_params) (warmup_complete : Z -> bool) (uninit : Z).
Local Abbreviation core := (O3_CPU S B M).

(** The constructor; a bus has room for as many packets as the reorder buffer. *)
Definition new_CPU (ifetch_buffer_size decode_buffer_size dispatch_buffer_size rob_size lq_size sq_size : nat)
    (decode_latency dispatch_latency : Z) (i0 : ooo_model_instr) (s : S) (b : B) (m : M) : core :=
  mkCPU 0 0 0 0 0 0 0 0 0 0 0 (replicate (Z.to_nat (dib_set k) * dib_way k) new_dib_entry)
    (new_circular_buffer i0 ifetch_buffer_size)
    (Delay.new_delay_queue i0 dispatch_buffer_size dispatch_latency)
    (Delay.new_delay_queue i0 decode_buffer_size decode_latency)
    (new_circular_buffer i0 rob_size)
    (replicate lq_size new_LSQ) (replicate sq_size new_LSQ) [] [] [] [] [] []
    false 0 0 0 uninit (replicate 8 0) (replicate 8 0)
    (fun _ => new_circular_buffer (Mem.new_PACKET uninit) rob_size) s b m.

Definition warm : bool := warmup_complete (cpu k).
Definition inc64 (x : Z) : Z := u64 (x + 1).

(** [array[i]++] of the statistics by branch type. *)
Definition count_type (i : Z) (l : list Z) : cres (list Z) :=
  match l !! Z.to_nat i with
  | Some n => Ret (<[Z.to_nat i := inc64 n]> l)
  | None => Abort "index out of range"
  end.

(** [deadlock] when the oldest instruction has not moved for too long. *)
Definition check_deadlock (oldest : cres ooo_model_instr) (c : core) : cres unit :=
  let* i := oldest in
  if u64 (event_cycle i + DEADLOCK_CYCLE) <=? current_cycle c then Abort "champsim::deadlock" else Ret tt.

(** *** Entering an instruction *)

(** What the registers of an instruction say about the kind of branch. *)
Definition has_reg (r : Z) (l : list Z) : bool := existsb (fun x => x =? r) l.
Definition is_other_reg (x : Z) : bool :=
  negb ((x =? 0) || (x =? TraceReader.Reader.REG_STACK_POINTER) || (x =? TraceReader.Reader.REG_FLAGS)
        || (x =? TraceReader.Reader.REG_INSTRUCTION_POINTER)).

Definition classify (i : ooo_model_instr) : ooo_model_instr :=
  let dst := take (MAX_INSTR_DESTINATIONS k) (destination_registers i) in
  let src := take NUM_INSTR_SOURCES (source_registers i) in
  let writes_sp := has_reg TraceReader.Reader.REG_STACK_POINTER dst in
  let writes_ip := has_reg TraceReader.Reader.REG_INSTRUCTION_POINTER dst in
  let reads_sp := has_reg TraceReader.Reader.REG_STACK_POINTER src in
  let reads_flags := has_reg TraceReader.Reader.REG_FLAGS src in
  let reads_ip := has_reg TraceReader.Reader.REG_INSTRUCTION_POINTER src in
  let reads_other := existsb is_other_reg src in
  let branch (taken : bool) (ty : Z) := i <| is_branch := true |> <| branch_taken := taken |> <| branch_type := ty |> in
  if negb reads_sp && negb reads_flags && writes_ip && negb reads_other then branch true TraceReader.Reader.BRANCH_DIRECT_JUMP
  else if negb reads_sp && negb reads_flags && writes_ip && reads_other then branch true TraceReader.Reader.BRANCH_INDIRECT
  else if negb reads_sp && reads_ip && negb writes_sp && writes_ip && reads_flags && negb reads_other
  then branch (branch_taken i) TraceReader.Reader.BRANCH_CONDITIONAL
  else if reads_sp && reads_ip && writes_sp && writes_ip && negb reads_flags && negb reads_other
  then branch true TraceReader.Reader.BRANCH_DIRECT_CALL
  else if reads_sp && reads_ip && writes_sp && writes_ip && negb reads_flags && reads_other
  then branch true TraceReader.Reader.BRANCH_INDIRECT_CALL
  else if reads_sp && negb reads_ip && writes_sp && writes_ip then branch true TraceReader.Reader.BRANCH_RETURN
  else if writes_ip then branch (branch_taken i) TraceReader.Reader.BRANCH_OTHER
  else i.

(** The first loop: operands are counted, and stores are entered in [STA] under
    the number of the instruction. *)
Fixpoint count_destinations (ROB_size : Z) (id : Z) (regs mems : list Z) (i : ooo_model_instr) (STA : list Z)
    : cres (ooo_model_instr * list Z) :=
  match regs, mems with
  | r :: regs, m :: mems =>
    let i := if r =? 0 then i else i <| num_reg_ops ::= fun n => n + 1 |> in
    if m =? 0 then count_destinations ROB_size id regs mems i STA
    else
      let i := i <| num_mem_ops ::= fun n => n + 1 |> in
      let* _ := cassert (Z.of_nat (length STA) <? ROB_size * Z.of_nat NUM_INSTR_DESTINATIONS_SPARC)
                  "STA.size() < ROB.size() * NUM_INSTR_DESTINATIONS_SPARC" in
      count_destinations ROB_size id regs mems i (STA ++ [id])
  | _, _ => Ret (i, STA)
  end.

Definition count_nonzero (l : list Z) : Z := Z.of_nat (length (List.filter (fun x => negb (x =? 0)) l)).

(** Stack pointer folding. *)
Definition fold_stack_pointer (i : ooo_model_instr) : ooo_model_instr :=
  let n := MAX_INSTR_DESTINATIONS k in
  let dst := take n (destination_registers i) in
  let is_sp x := x =? TraceReader.Reader.REG_STACK_POINTER in
  if existsb is_sp dst && (is_branch i || (0 <? num_mem_ops i) || negb (existsb is_other_reg (take NUM_INSTR_SOURCES (source_registers i))))
  then i <| destination_registers := ((fun x => if is_sp x then 0 else x) <$> dst) ++ drop n (destination_registers i) |>
         <| num_reg_ops ::= fun c => c - Z.of_nat (length (List.filter is_sp dst)) |>
  else i.

(** Branch prediction; [asid] of the source is not used further. *)
Definition predict (i : ooo_model_instr) (c : core) : cres (ooo_model_instr * core) :=
  let c := c <| num_branch ::= inc64 |> in
  let '((predicted_branch_target, always_taken), b) := btb_prediction (ip i) (branch_type i) (btb_state c) in
  let '(branch_prediction, s) :=
    predict_branch (ip i) predicted_branch_target always_taken (branch_type i) (predictor_state c) in
  let c := c <| btb_state := b |> <| predictor_state := s |> in
  let* ic :=
    (if eqb branch_prediction (branch_taken i) then
      Ret (i, if branch_taken i then c <| instrs_to_read_this_cycle := 0 |> else c)
    else
      let* misses := count_type (branch_type i) (branch_type_misses c) in
      let c := c <| branch_mispredictions ::= inc64 |>
                 <| total_rob_occupancy_at_branch_mispredict ::= fun n => u64 (n + occupancy (ROB c)) |>
                 <| branch_type_misses := misses |> in
      if warm then Ret (i <| branch_mispredicted := true |>, c <| fetch_stall := true |> <| instrs_to_read_this_cycle := 0 |>)
      else Ret (i, c)) in
  let '(i, c) := ic in
  Ret (i, c <| btb_state ::= update_btb (ip i) (branch_target i) (branch_taken i) (branch_type i) |>
            <| predictor_state ::= last_branch_result (ip i) (branch_target i) (branch_taken i) (branch_type i) |>).

Definition init_instruction (i : ooo_model_instr) (c : core) : cres core :=
  let c := c <| instrs_to_read_this_cycle ::= fun n => u64 (n - 1) |> in
  let i := i <| instr_id := instr_unique_id c |> in
  let n := MAX_INSTR_DESTINATIONS k in
  let* r := count_destinations (sz_ (ROB c)) (instr_unique_id c) (take n (destination_registers i)) (take n (destination_memory i)) i (STA c) in
  let '(i, sta) := r in
  let c := c <| STA := sta |> in
  let i := i <| num_reg_ops ::= fun m => m + count_nonzero (take NUM_INSTR_SOURCES (source_registers i)) |>
             <| num_mem_ops ::= fun m => m + count_nonzero (take NUM_INSTR_SOURCES (source_memory i)) |> in
  let i := if 0 <? num_mem_ops i then i <| is_memory := true |> else i in
  let i := classify i in
  let* types := count_type (branch_type i) (total_branch_types c) in
  let c := c <| total_branch_types := types |> in
  let i := if negb (is_branch i) || negb (branch_taken i) then i <| branch_target := 0 |> else i in
  let i := fold_stack_pointer i in
  let* ic := if is_branch i then predict i c else Ret (i, c) in
  let '(i, c) := ic in
  let i := i <| event_cycle := current_cycle c |> in
  let i := if warm then i
           else i <| source_registers := replicate NUM_INSTR_SOURCES 0 |>
                  <| destination_registers ::= fun l => replicate n 0 ++ drop n l |> <| num_reg_ops := 0 |> in
  let* b := push_back i (IFETCH_BUFFER c) in
  Ret (c <| IFETCH_BUFFER := b |> <| instr_unique_id ::= inc64 |>).

(** *** Buses *)

Definition set_processed (b : bus) (q : circular_buffer Mem.PACKET) (c : core) : core :=
  c <| PROCESSED ::= fun f b' => if decide (b' = b) then q else f b' |>.

(** [CacheBus::return_data] *)
Definition bus_return_data (b : bus) (packet : Mem.PACKET) (c : core) : cres core :=
  if Mem.type packet =? Mem.PREFETCH then Ret c
  else
    let* q := push_back packet (PROCESSED c b) in Ret (set_processed b q c).

Fixpoint bus_returns (l : list (bus * Mem.PACKET)) (c : core) : cres core :=
  match l with
  | [] => Ret c
  | (b, packet) :: l => let* c := bus_return_data b packet c in bus_returns l c
  end.

(** [bus.lower_level->add_rq(&packet)] and [add_wq]. *)
Definition send_rq (b : bus) (packet : Mem.PACKET) (c : core) : cres (Z * Mem.PACKET * core) :=
  let* r := bus_add_rq b packet (memory c) in
  let '(result, packet, returns, m) := r in
  let* c := bus_returns returns (c <| memory := m |>) in
  Ret (result, packet, c).
Definition send_wq (b : bus) (packet : Mem.PACKET) (c : core) : cres (Z * core) :=
  let* r := bus_add_wq b packet (memory c) in
  let '(result, packet, returns, m) := r in
  let* c := bus_returns returns (c <| memory := m |>) in
  Ret (result, c).

Definition bus_id (b : bus) : nat := match b with ITLB => 0 | DTLB => 1 | L1I => 2 | L1D => 3 end.

(** *** Fetching *)

(** The set of the decoded instruction buffer an address belongs to. *)
Definition dib_base (a : Z) : nat := (Z.to_nat (Z.shiftr a (lg2 (dib_window k)) mod dib_set k) * dib_way k)%nat.
Definition dib_set_of (a : Z) (d : list dib_entry_t) : list dib_entry_t := take (dib_way k) (drop (dib_base a) d).
Definition put_dib_set (a : Z) (s d : list dib_entry_t) : list dib_entry_t :=
  take (dib_base a) d ++ s ++ drop (dib_base a + dib_way k) d.
Definition touch_way (way : nat) (s : list dib_entry_t) : list dib_entry_t :=
  lru_updater (from_option d_lru 0 (s !! way)) <$> s.

Definition do_check_dib (pos : Z) (c : core) : cres core :=
  let* i := at_ (IFETCH_BUFFER c) pos in
  let s := dib_set_of (ip i) (DIB c) in
  let way := find_if (eq_addr (ip i) (lg2 (dib_window k))) s in
  if (way <? length s)%nat then
    Ret (c <| IFETCH_BUFFER ::= modify_at (fun i =>
                i <| translated := COMPLETED |> <| fetched := COMPLETED |> <| decoded := COMPLETED |>
                  <| event_cycle := current_cycle c |>) pos |>
           <| DIB ::= put_dib_set (ip i) (touch_way way s) |>)
  else Ret c.

(** [for (auto it = first; it != last; ++it) step(it);] over the fetch buffer. *)
Fixpoint for_ifetch (turns : nat) (step : Z -> core -> cres core) (pos last : Z) (c : core) : cres core :=
  match turns with
  | O => Ret c
  | Datatypes.S turns =>
    if it_eq (IFETCH_BUFFER c) pos last then Ret c
    else
      let* c := step pos c in
      for_ifetch turns step (circ_inc pos 1 (IFETCH_BUFFER c)) last c
  end.

Definition check_dib (c : core) : cres core :=
  let b := IFETCH_BUFFER c in
  let last := it_min b (end_ b) (circ_inc (begin_ b) (Z.of_nat (FETCH_WIDTH k)) b) in
  for_ifetch (length (entry_ b)) do_check_dib (begin_ b) last c.

(** The positions [first, last). *)
Fixpoint positions (turns : nat) (pos last : Z) (b : circular_buffer ooo_model_instr) : list Z :=
  match turns with
  | O => []
  | Datatypes.S turns => if it_eq b pos last then [] else pos :: positions turns (circ_inc pos 1 b) last b
  end.

Definition mark_ifetch (f : ooo_model_instr -> ooo_model_instr) (l : list nat) (c : core) : core :=
  c <| IFETCH_BUFFER ::= fun b => foldl (fun b pos => modify_at f (Z.of_nat pos) b) b l |>.

Definition do_translate_fetch (first last : Z) (c : core) : cres core :=
  let b := IFETCH_BUFFER c in
  let* i := at_ b first in
  let packet := Mem.new_PACKET uninit
    <| Mem.fill_level := bus_fill_level ITLB (memory c) |> <| Mem.cpu := cpu k |> <| Mem.address := ip i |>
    <| Mem.v_address := ip i |> <| Mem.instr_id := instr_id i |> <| Mem.ip := ip i |> <| Mem.type := Mem.LOAD |>
    <| Mem.asid := (0, 0) |> <| Mem.to_return := [bus_id ITLB] |>
    <| Mem.instr_depend_on_me := Z.to_nat <$> positions (length (entry_ b)) first last b |> in
  let* r := send_rq ITLB packet c in
  let '(rq_index, packet, c) := r in
  if rq_index =? -2 then Ret c
  else Ret (mark_ifetch (fun i => i <| translated := INFLIGHT |>) (Mem.instr_depend_on_me packet) c).

Definition translate_fetch (c : core) : cres core :=
  let b := IFETCH_BUFFER c in
  if empty b then Ret c
  else
    let turns := length (entry_ b) in
    let first := it_find_if turns (fun x => translated x =? 0) (begin_ b) (end_ b) b in
    let* i := at_ b first in
    let last := it_find_if turns
      (fun x => negb (Z.shiftr (ip i) SimVmem.Vmem.LOG2_PAGE_SIZE =? Z.shiftr (ip x) SimVmem.Vmem.LOG2_PAGE_SIZE)) first (end_ b) b in
    if negb (it_eq b last (end_ b)) || it_eq b first (begin_ b) then do_translate_fetch first last c else Ret c.

Definition LOG2_BLOCK_SIZE : Z := lg2 BLOCK_SIZE.

Definition do_fetch_instruction (first last : Z) (c : core) : cres core :=
  let b := IFETCH_BUFFER c in
  let* i := at_ b first in
  let packet := Mem.new_PACKET uninit
    <| Mem.fill_level := bus_fill_level L1I (memory c) |> <| Mem.cpu := cpu k |> <| Mem.address := instruction_pa i |>
    <| Mem.data := instruction_pa i |> <| Mem.v_address := ip i |> <| Mem.instr_id := instr_id i |> <| Mem.ip := ip i |>
    <| Mem.type := Mem.LOAD |> <| Mem.asid := (0, 0) |> <| Mem.to_return := [bus_id L1I] |>
    <| Mem.instr_depend_on_me := Z.to_nat <$> positions (length (entry_ b)) first last b |> in
  let* r := send_rq L1I packet c in
  let '(rq_index, packet, c) := r in
  if rq_index =? -2 then Ret c
  else Ret (mark_ifetch (fun i => i <| fetched := INFLIGHT |>) (Mem.instr_depend_on_me packet) c).

Definition fetch_instruction (c : core) : cres core :=
  let c := if fetch_stall c && (fetch_resume_cycle c <=? current_cycle c) && negb (fetch_resume_cycle c =? 0)
           then c <| fetch_stall := false |> <| fetch_resume_cycle := 0 |> else c in
  let b := IFETCH_BUFFER c in
  if empty b then Ret c
  else
    let turns := length (entry_ b) in
    let first := it_find_if turns (fun x => (translated x =? COMPLETED) && (fetched x =? 0)) (begin_ b) (end_ b) b in
    let* i := at_ b first in
    let last := it_find_if turns
      (fun x => negb (Z.shiftr (instruction_pa i) LOG2_BLOCK_SIZE =? Z.shiftr (instruction_pa x) LOG2_BLOCK_SIZE)) first (end_ b) b in
    if negb (it_eq b last (end_ b)) || it_eq b first (begin_ b) then do_fetch_instruction first last c else Ret c.

(** *** Decoding and dispatching *)

Fixpoint promote_loop (available_fetch_bandwidth : nat) (c : core) : cres core :=
  match available_fetch_bandwidth with
  | O => Ret c
  | Datatypes.S bw =>
    if empty (IFETCH_BUFFER c) || Delay.dq_full (DECODE_BUFFER c) then Ret c
    else
      let* i := front (IFETCH_BUFFER c) in
      if (translated i =? COMPLETED) && (fetched i =? COMPLETED) then
        let* d := (if negb warm || ztrue (decoded i) then Delay.push_back_ready i (DECODE_BUFFER c)
                   else Delay.dq_push_back i (DECODE_BUFFER c)) in
        let* b := pop_front (IFETCH_BUFFER c) in
        promote_loop bw (c <| DECODE_BUFFER := d |> <| IFETCH_BUFFER := b |>)
      else Ret c
  end.

Definition promote_to_decode (c : core) : cres core :=
  let* c := promote_loop (FETCH_WIDTH k) c in
  if empty (IFETCH_BUFFER c) then Ret c
  else let* _ := check_deadlock (front (IFETCH_BUFFER c)) c in Ret c.

Definition do_dib_update (i : ooo_model_instr) (c : core) : cres core :=
  let s := dib_set_of (ip i) (DIB c) in
  let way := find_if (eq_addr (ip i) (lg2 (dib_window k))) s in
  if (way <? length s)%nat then Ret (c <| DIB ::= put_dib_set (ip i) (touch_way way s) |>)
  else
    let way := max_element lru_comparator s in
    let* _ := cassert (way <? length s)%nat "way != dib_set_end" in
    let s := alter (fun e => e <| d_valid := true |> <| d_address := ip i |>) way s in
    Ret (c <| DIB ::= put_dib_set (ip i) (touch_way way s) |>).

Fixpoint decode_loop (available_decode_bandwidth : nat) (c : core) : cres core :=
  match available_decode_bandwidth with
  | O => Ret c
  | Datatypes.S bw =>
    if negb (Delay.has_ready (DECODE_BUFFER c)) || Delay.dq_full (DISPATCH_BUFFER c) then Ret c
    else
      let* i := Delay.dq_front (DECODE_BUFFER c) in
      let* c := do_dib_update i c in
      let at_decode := branch_mispredicted i &&
        ((branch_type i =? TraceReader.Reader.BRANCH_DIRECT_JUMP) || (branch_type i =? TraceReader.Reader.BRANCH_DIRECT_CALL)) in
      let i := if at_decode then i <| branch_mispredicted := false |> else i in
      let c := if at_decode then c <| fetch_resume_cycle := u64 (current_cycle c + BRANCH_MISPREDICT_PENALTY k) |> else c in
      let* d := (if warm then Delay.dq_push_back i (DISPATCH_BUFFER c) else Delay.push_back_ready i (DISPATCH_BUFFER c)) in
      let* q := Delay.dq_pop_front (DECODE_BUFFER c) in
      decode_loop bw (c <| DISPATCH_BUFFER := d |> <| DECODE_BUFFER := q |>)
  end.

Definition decode_instruction (c : core) : cres core :=
  let* c := decode_loop (DECODE_WIDTH k) c in
  if Delay.dq_empty (DECODE_BUFFER c) then Ret c
  else let* _ := check_deadlock (Delay.dq_front (DECODE_BUFFER c)) c in Ret c.

Fixpoint dispatch_loop (available_dispatch_bandwidth : nat) (c : core) : cres core :=
  match available_dispatch_bandwidth with
  | O => Ret c
  | Datatypes.S bw =>
    if negb (Delay.has_ready (DISPATCH_BUFFER c)) || full (ROB c) then Ret c
    else
      let* i := Delay.dq_front (DISPATCH_BUFFER c) in
      let* rob := push_back i (ROB c) in
      let* q := Delay.dq_pop_front (DISPATCH_BUFFER c) in
      dispatch_loop bw (c <| ROB := rob |> <| DISPATCH_BUFFER := q |>)
  end.

Definition dispatch_instruction (c : core) : cres core :=
  if Delay.dq_empty (DISPATCH_BUFFER c) then Ret c
  else
    let* c := dispatch_loop (DISPATCH_WIDTH k) c in
    if Delay.dq_empty (DISPATCH_BUFFER c) then Ret c
    else let* _ := check_deadlock (Delay.dq_front (DISPATCH_BUFFER c)) c in Ret c.

(** *** Scheduling and executing *)

Definition modify_rob (f : ooo_model_instr -> ooo_model_instr) (pos : Z) (c : core) : core := c <| ROB ::= modify_at f pos |>.

(** [for (auto rob_it = begin; rob_it != end && search_bw > 0; ++rob_it)]: a step
    returns whether it leaves the bandwidth alone. *)
Fixpoint for_rob (turns : nat) (bw : nat) (step : Z -> core -> cres (bool * core)) (pos : Z) (c : core) : cres core :=
  match turns, bw with
  | Datatypes.S turns, Datatypes.S bw' =>
    if it_eq (ROB c) pos (end_ (ROB c)) then Ret c
    else
      let* r := step pos c in
      for_rob turns (if r.1 then bw else bw') step (circ_inc pos 1 (ROB r.2)) r.2
  | _, _ => Ret c
  end.
Definition for_each_rob (bw : nat) (step : Z -> core -> cres (bool * core)) (c : core) : cres core :=
  for_rob (length (entry_ (ROB c))) bw step (begin_ (ROB c)) c.

(** [std::find_if(reverse_iterator(pos), rend(), p)]: the position of the element
    found, [None] for [rend()]. *)
Fixpoint find_prior (turns : nat) (p : ooo_model_instr -> bool) (pos : Z) (b : circular_buffer ooo_model_instr) : option Z :=
  match turns with
  | O => None
  | Datatypes.S turns =>
    if it_eq b pos (begin_ b) then None
    else
      let pos := circ_inc pos (-1) b in
      match entry_ b !! Z.to_nat pos with
      | Some x => if p x then Some pos else find_prior turns p pos b
      | None => None
      end
  end.

Definition instr_reg_will_produce (match_reg : Z) (test : ooo_model_instr) : bool :=
  negb (executed test =? COMPLETED) && existsb (fun r => r =? match_reg) (destination_registers test).

(** One source register of [do_scheduling]. *)
Definition mark_source (pos : Z) (src_reg : Z) (c : core) : cres core :=
  if src_reg =? 0 then Ret c
  else
    match find_prior (length (entry_ (ROB c))) (instr_reg_will_produce src_reg) pos (ROB c) with
    | None => Ret c
    | Some prior =>
      let* p := at_ (ROB c) prior in
      let known := match list.last (registers_instrs_depend_on_me p) with
                   | Some d => it_eq (ROB c) d pos
                   | None => false
                   end in
      if known then Ret c
      else Ret (modify_rob (fun i => i <| num_reg_dependent ::= fun n => n + 1 |>) pos
                 (modify_rob (fun i => i <| registers_instrs_depend_on_me ::= fun l => l ++ [pos] |>) prior c))
    end.

Fixpoint mark_sources (pos : Z) (srcs : list Z) (c : core) : cres core :=
  match srcs with
  | [] => Ret c
  | r :: srcs => let* c := mark_source pos r c in mark_sources pos srcs c
  end.

Definition do_scheduling (pos : Z) (c : core) : cres core :=
  let* i := at_ (ROB c) pos in
  let* c := mark_sources pos (source_registers i) c in
  if is_memory i then Ret (modify_rob (fun i => i <| scheduled := INFLIGHT |>) pos c)
  else Ret (modify_rob (fun i => i <| scheduled := COMPLETED |>
              <| event_cycle := u64 (current_cycle c + if warm then SCHEDULING_LATENCY k else 0) |>) pos c).

(** [ready_to_execute.push(rob_it)] *)
Definition push_ready (pos : Z) (c : core) : cres core :=
  let* _ := cassert (Z.of_nat (length (ready_to_execute c)) <? sz_ (ROB c)) "ready_to_execute.size() < ROB.size()" in
  Ret (c <| ready_to_execute ::= fun l => l ++ [pos] |>).

Definition schedule_step (pos : Z) (c : core) : cres (bool * core) :=
  let* i := at_ (ROB c) pos in
  let* c :=
    (if scheduled i =? 0 then
      let* c := do_scheduling pos c in
      let* i := at_ (ROB c) pos in
      if (scheduled i =? COMPLETED) && (num_reg_dependent i =? 0) then push_ready pos c else Ret c
    else Ret c) in
  let* i := at_ (ROB c) pos in
  Ret (negb (executed i =? 0), c).

Definition schedule_instruction (c : core) : cres core := for_each_rob (SCHEDULER_SIZE k) schedule_step c.

Definition do_execution (pos : Z) (c : core) : core :=
  modify_rob (fun i => i <| executed := INFLIGHT |>
    <| event_cycle := u64 (current_cycle c + if warm then EXEC_LATENCY k else 0) |>) pos c
  <| inflight_reg_executions ::= fun n => u32 (n + 1) |>.

Fixpoint execute_loop (exec_left : nat) (c : core) : core :=
  match exec_left, ready_to_execute c with
  | Datatypes.S exec_left, pos :: l => execute_loop exec_left (do_execution pos c <| ready_to_execute := l |>)
  | _, _ => c
  end.
Definition execute_instruction (c : core) : core := execute_loop (EXEC_WIDTH k) c.

(** *** Load and store queues *)

(** [*it] of a queue. *)
Definition lsq_at (i : nat) (l : list LSQ_ENTRY) : cres LSQ_ENTRY :=
  match l !! i with Some e => Ret e | None => Abort "iterator out of range" end.
Definition deref_rob (e : LSQ_ENTRY) : cres Z :=
  match rob_index e with Some pos => Ret pos | None => Abort "singular iterator" end.

(** An operation of the instruction at [pos] is done: [num_mem_ops--], and the
    instruction completes when none is left.  [checked] is the assertion two of
    the three places make. *)
Definition finish_mem_op (checked : bool) (pos : Z) (c : core) : cres core :=
  let c := modify_rob (fun i => i <| num_mem_ops ::= fun n => n - 1 |> <| event_cycle := current_cycle c |>) pos c in
  let* i := at_ (ROB c) pos in
  let* _ := cassert (negb checked || (0 <=? num_mem_ops i)) "rob_index->num_mem_ops >= 0" in
  if num_mem_ops i =? 0 then Ret (c <| inflight_mem_executions ::= fun n => u32 (n + 1) |>) else Ret c.

(** [lq_entry]'s new addresses are lost when it is emptied at the end. *)
Definition do_sq_forward_to_lq (lq : nat) (c : core) : cres core :=
  let* e := lsq_at lq (LQ c) in
  let* pos := deref_rob e in
  let* c := finish_mem_op true pos c in
  Ret (c <| LQ ::= <[lq := new_LSQ]> |>).

Definition instr_mem_will_produce (match_mem : Z) (test : ooo_model_instr) : bool :=
  existsb (fun m => m =? match_mem) (destination_memory test).
Definition sq_will_forward (match_id match_addr : Z) (sq_test : LSQ_ENTRY) : bool :=
  (l_fetched sq_test =? COMPLETED) && (l_instr_id sq_test =? match_id) && (virtual_address sq_test =? match_addr).

Definition add_load_queue (pos : Z) (data_index : nat) (c : core) : cres core :=
  let lq := find_if_not is_valid (LQ c) in
  let* e := lsq_at lq (LQ c) in
  let* i := at_ (ROB c) pos in
  let va := nth data_index (source_memory i) 0 in
  let c := modify_rob (fun i => i <| lq_index ::= <[data_index := Some lq]> |> <| source_added ::= <[data_index := true]> |>) pos c in
  let e := e <| l_instr_id := instr_id i |> <| virtual_address := va |> <| l_ip := ip i |> <| rob_index := Some pos |>
             <| l_asid := asid i |> <| l_event_cycle := u64 (current_cycle c + SCHEDULING_LATENCY k) |> in
  match find_prior (length (entry_ (ROB c))) (instr_mem_will_produce va) pos (ROB c) with
  | Some prior =>
    let* p := at_ (ROB c) prior in
    let c := modify_rob (fun i => i <| memory_instrs_depend_on_me ::= fun l => l ++ [pos] |>) prior c in
    let e := e <| producer_id := instr_id p |> <| l_translated := INFLIGHT |> in
    let c := c <| LQ ::= <[lq := e]> |> in
    if (find_if (sq_will_forward (instr_id p) va) (SQ c) <? length (SQ c))%nat then do_sq_forward_to_lq lq c else Ret c
  | None => Ret (c <| LQ ::= <[lq := e]> |> <| RTL0 ::= fun l => l ++ [lq] |>)
  end.

Definition add_store_queue (pos : Z) (data_index : nat) (c : core) : cres core :=
  let sq := find_if_not is_valid (SQ c) in
  let* e := lsq_at sq (SQ c) in
  let* _ := cassert (virtual_address e =? 0) "sq_it->virtual_address == 0" in
  let* i := at_ (ROB c) pos in
  let e := e <| l_instr_id := instr_id i |> <| virtual_address := nth data_index (destination_memory i) 0 |> <| l_ip := ip i |>
             <| rob_index := Some pos |> <| l_asid := asid i |> <| l_event_cycle := u64 (current_cycle c + SCHEDULING_LATENCY k) |> in
  Ret (modify_rob (fun i => i <| sq_index ::= <[data_index := Some sq]> |> <| destination_added ::= <[data_index := true]> |>) pos c
       <| SQ ::= <[sq := e]> |> <| STA ::= tail |> <| RTS0 ::= fun l => l ++ [sq] |>).

(** The two loops of [do_memory_scheduling]; the pair counts the operations and
    those that are in a queue. *)
Definition try_load (pos : Z) (i : nat) (r : (nat * nat) * core) : cres ((nat * nat) * core) :=
  let '((num_mem_ops, num_added), c) := r in
  let* x := at_ (ROB c) pos in
  if nth i (source_memory x) 0 =? 0 then Ret r
  else if nth i (source_added x) false then Ret ((Datatypes.S num_mem_ops, Datatypes.S num_added), c)
  else if negb (forallb is_valid (LQ c)) then
    let* c := add_load_queue pos i c in Ret ((Datatypes.S num_mem_ops, Datatypes.S num_added), c)
  else Ret ((Datatypes.S num_mem_ops, num_added), c).

Definition try_store (pos : Z) (i : nat) (r : (nat * nat) * core) : cres ((nat * nat) * core) :=
  let '((num_mem_ops, num_added), c) := r in
  let* x := at_ (ROB c) pos in
  if nth i (destination_memory x) 0 =? 0 then Ret r
  else if nth i (destination_added x) false then Ret ((Datatypes.S num_mem_ops, Datatypes.S num_added), c)
  else if negb (forallb is_valid (SQ c)) then
    match STA c with
    | id :: _ =>
      if id =? instr_id x then let* c := add_store_queue pos i c in Ret ((Datatypes.S num_mem_ops, Datatypes.S num_added), c)
      else Ret ((Datatypes.S num_mem_ops, num_added), c)
    | [] => Abort "front() of an empty queue"
    end
  else Ret ((Datatypes.S num_mem_ops, num_added), c).

Fixpoint for_ops (step : nat -> (nat * nat) * core -> cres ((nat * nat) * core)) (l : list nat) (r : (nat * nat) * core)
    : cres ((nat * nat) * core) :=
  match l with
  | [] => Ret r
  | i :: l => let* r := step i r in for_ops step l r
  end.

Definition do_memory_scheduling (pos : Z) (c : core) : cres core :=
  let* r := for_ops (try_load pos) (seq 0 NUM_INSTR_SOURCES) ((O, O), c) in
  let* r := for_ops (try_store pos) (seq 0 (MAX_INSTR_DESTINATIONS k)) r in
  let '((num_mem_ops, num_added), c) := r in
  let* _ := cassert (num_added <=? num_mem_ops)%nat "num_added <= num_mem_ops" in
  if (num_mem_ops =? num_added)%nat then
    Ret (modify_rob (fun i => i <| scheduled := COMPLETED |> <| executed ::= fun e => if e =? 0 then INFLIGHT else e |>) pos c)
  else Ret c.

Definition schedule_memory_step (pos : Z) (c : core) : cres (bool * core) :=
  let* i := at_ (ROB c) pos in
  let* c := (if is_memory i && (num_reg_dependent i =? 0) && (scheduled i =? INFLIGHT) then do_memory_scheduling pos c else Ret c) in
  let* i := at_ (ROB c) pos in
  Ret (negb (executed i =? 0), c).

Definition schedule_memory_instruction (c : core) : cres core := for_each_rob (SCHEDULER_SIZE k) schedule_memory_step c.

(** *** Executing memory operations *)

(** The packet of an entry of a queue. *)
Definition lsq_packet (b : bus) (ty a : Z) (e : LSQ_ENTRY) (c : core) : Mem.PACKET :=
  Mem.new_PACKET uninit
    <| Mem.fill_level := bus_fill_level b (memory c) |> <| Mem.cpu := cpu k |> <| Mem.address := a |>
    <| Mem.v_address := virtual_address e |> <| Mem.instr_id := l_instr_id e |> <| Mem.ip := l_ip e |> <| Mem.type := ty |>
    <| Mem.asid := l_asid e |>.

Definition do_translate_store (sq : nat) (c : core) : cres (Z * core) :=
  let* e := lsq_at sq (SQ c) in
  let packet := lsq_packet DTLB Mem.RFO (virtual_address e) e c
    <| Mem.to_return := [bus_id DTLB] |> <| Mem.sq_index_depend_on_me := [sq] |> in
  let* r := send_rq DTLB packet c in
  let '(rq_index, packet, c) := r in
  if rq_index =? -2 then Ret (rq_index, c)
  else Ret (rq_index, c <| SQ ::= alter (fun e => e <| l_translated := INFLIGHT |>) sq |>).

(** The loads that wait for the store at [sq]. *)
Fixpoint forward_sources (sq : nat) (d : ooo_model_instr) (l : list nat) (c : core) : cres core :=
  match l with
  | [] => Ret c
  | j :: l =>
    let* e := lsq_at sq (SQ c) in
    let m := nth j (source_memory d) 0 in
    let* c :=
      (if negb (m =? 0) && nth j (source_added d) false && (m =? virtual_address e) then
        match nth j (lq_index d) None with
        | Some lq =>
          let* f := lsq_at lq (LQ c) in
          let* _ := cassert (producer_id f =? l_instr_id e) "lq_index[j]->producer_id == sq_it->instr_id" in
          do_sq_forward_to_lq lq c
        | None => Abort "singular iterator"
        end
      else Ret c) in
    forward_sources sq d l c
  end.

Fixpoint forward_dependents (sq : nat) (l : list Z) (c : core) : cres core :=
  match l with
  | [] => Ret c
  | pos :: l =>
    let* d := at_ (ROB c) pos in
    let* c := forward_sources sq d (seq 0 NUM_INSTR_SOURCES) c in
    forward_dependents sq l c
  end.

Definition execute_store (sq : nat) (c : core) : cres core :=
  let* e := lsq_at sq (SQ c) in
  let c := c <| SQ ::= alter (fun e => e <| l_fetched := COMPLETED |> <| l_event_cycle := current_cycle c |>) sq |> in
  let* pos := deref_rob e in
  let* c := finish_mem_op true pos c in
  let* i := at_ (ROB c) pos in
  forward_dependents sq (memory_instrs_depend_on_me i) c.

Definition do_translate_load (lq : nat) (c : core) : cres (Z * core) :=
  let* e := lsq_at lq (LQ c) in
  let packet := lsq_packet DTLB Mem.LOAD (virtual_address e) e c
    <| Mem.to_return := [bus_id DTLB] |> <| Mem.lq_index_depend_on_me := [lq] |> in
  let* r := send_rq DTLB packet c in
  let '(rq_index, packet, c) := r in
  if rq_index =? -2 then Ret (rq_index, c)
  else Ret (rq_index, c <| LQ ::= alter (fun e => e <| l_translated := INFLIGHT |>) lq |>).

Definition execute_load (lq : nat) (c : core) : cres (Z * core) :=
  let* e := lsq_at lq (LQ c) in
  let packet := lsq_packet L1D Mem.LOAD (physical_address e) e c
    <| Mem.to_return := [bus_id L1D] |> <| Mem.lq_index_depend_on_me := [lq] |> in
  let* r := send_rq L1D packet c in
  let '(rq_index, packet, c) := r in
  if rq_index =? -2 then Ret (rq_index, c)
  else Ret (rq_index, c <| LQ ::= alter (fun e => e <| l_fetched := INFLIGHT |>) lq |>).

(** [while (issued < WIDTH && !Q.empty())] with its [break]; the issues left come
    back. *)
Fixpoint issue_loop (issues : nat) (queue : core -> list nat) (pop : core -> core) (step : nat -> core -> cres (Z * core)) (c : core)
    : cres (nat * core) :=
  match issues, queue c with
  | Datatypes.S issues', i :: _ =>
    let* r := step i c in
    if r.1 =? -2 then Ret (issues, r.2) else issue_loop issues' queue pop step (pop r.2)
  | _, _ => Ret (issues, c)
  end.

Definition operate_lsq (c : core) : cres core :=
  let* r := issue_loop (SQ_WIDTH k) RTS0 (fun c => c <| RTS0 ::= tail |>) do_translate_store c in
  let* r := issue_loop r.1 RTS1 (fun c => c <| RTS1 ::= tail |>) (fun sq c => let* c := execute_store sq c in Ret (0, c)) r.2 in
  let* r := issue_loop (LQ_WIDTH k) RTL0 (fun c => c <| RTL0 ::= tail |>) do_translate_load r.2 in
  let* r := issue_loop r.1 RTL1 (fun c => c <| RTL1 ::= tail |>) execute_load r.2 in
  Ret r.2.

(** *** Completing *)

Fixpoint release_dependents (l : list Z) (c : core) : cres core :=
  match l with
  | [] => Ret c
  | pos :: l =>
    let c := modify_rob (fun i => i <| num_reg_dependent ::= fun n => n - 1 |>) pos c in
    let* i := at_ (ROB c) pos in
    let* _ := cassert (0 <=? num_reg_dependent i) "dependent->num_reg_dependent >= 0" in
    let c := if num_reg_dependent i =? 0
             then modify_rob (fun i => i <| scheduled := if is_memory i then INFLIGHT else COMPLETED |>) pos c else c in
    release_dependents l c
  end.

Definition do_complete_execution (pos : Z) (c : core) : cres core :=
  let c := modify_rob (fun i => i <| executed := COMPLETED |>) pos c in
  let* i := at_ (ROB c) pos in
  let c := if is_memory i then c <| inflight_mem_executions ::= fun n => u32 (n - 1) |>
           else c <| inflight_reg_executions ::= fun n => u32 (n - 1) |> in
  let c := c <| completed_executions ::= inc64 |> in
  let* c := release_dependents (registers_instrs_depend_on_me i) c in
  if branch_mispredicted i then Ret (c <| fetch_resume_cycle := u64 (current_cycle c + BRANCH_MISPREDICT_PENALTY k) |>) else Ret c.

Fixpoint push_dependents (l : list Z) (c : core) : cres core :=
  match l with
  | [] => Ret c
  | pos :: l =>
    let* i := at_ (ROB c) pos in
    let* c := if (scheduled i =? COMPLETED) && (num_reg_dependent i =? 0) then push_ready pos c else Ret c in
    push_dependents l c
  end.

Definition complete_step (pos : Z) (c : core) : cres (bool * core) :=
  let* i := at_ (ROB c) pos in
  if (executed i =? INFLIGHT) && (event_cycle i <=? current_cycle c) && (num_mem_ops i =? 0) then
    let* c := do_complete_execution pos c in
    let* i := at_ (ROB c) pos in
    let* c := push_dependents (registers_instrs_depend_on_me i) c in
    Ret (false, c)
  else Ret (true, c).

Definition complete_inflight_instruction (c : core) : cres core :=
  if (0 <? inflight_reg_executions c) || (0 <? inflight_mem_executions c) then for_each_rob (EXEC_WIDTH k) complete_step c else Ret c.

(** *** Answers of the memory *)

Definition ifetch_at (pos : nat) (c : core) : cres ooo_model_instr := at_ (IFETCH_BUFFER c) (Z.of_nat pos).
Definition modify_ifetch (f : ooo_model_instr -> ooo_model_instr) (pos : nat) (c : core) : core :=
  c <| IFETCH_BUFFER ::= modify_at f (Z.of_nat pos) |>.

(** The inner loops for instructions: what is left of the bandwidth and of the
    instructions of the packet. *)
Fixpoint instr_loop (test : ooo_model_instr -> bool) (f : ooo_model_instr -> ooo_model_instr) (bw : nat) (l : list nat) (c : core)
    : cres (nat * list nat * core) :=
  match bw, l with
  | Datatypes.S bw', pos :: l' =>
    let* i := ifetch_at pos c in
    if test i then instr_loop test f bw' l' (modify_ifetch f pos c) else instr_loop test f bw l' c
  | _, _ => Ret (bw, l, c)
  end.

(** [while (available_fetch_bandwidth > 0 && to_read > 0 && !PROCESSED.empty())] *)
Fixpoint instr_returns (b : bus) (test : Mem.PACKET -> ooo_model_instr -> bool) (f : Mem.PACKET -> ooo_model_instr -> ooo_model_instr)
    (to_read bw : nat) (c : core) : cres core :=
  match to_read, bw with
  | Datatypes.S to_read, Datatypes.S _ =>
    let q := PROCESSED c b in
    if empty q then Ret c
    else
      let* e := front q in
      let* r := instr_loop (test e) (f e) bw (Mem.instr_depend_on_me e) c in
      let '(bw, waiting, c) := r in
      let q := modify_at (fun e => e <| Mem.instr_depend_on_me := waiting |>) (begin_ q) q in
      let* q := match waiting with [] => pop_front q | _ => Ret q end in
      instr_returns b test f to_read bw (set_processed b q c)
  | _, _ => Ret c
  end.

Definition itlb_returns (c : core) : cres core :=
  instr_returns ITLB
    (fun e i => (Z.shiftr (ip i) SimVmem.Vmem.LOG2_PAGE_SIZE =? Z.shiftr (Mem.address e) SimVmem.Vmem.LOG2_PAGE_SIZE)
                && negb (translated i =? 0))
    (fun e i => i <| translated := COMPLETED |> <| instruction_pa := splice_bits (Mem.data e) (ip i) SimVmem.Vmem.LOG2_PAGE_SIZE |>)
    (bus_MAX_READ k ITLB) (FETCH_WIDTH k) c.

Definition l1i_returns (c : core) : cres core :=
  instr_returns L1I
    (fun e i => (Z.shiftr (instruction_pa i) LOG2_BLOCK_SIZE =? Z.shiftr (Mem.address e) LOG2_BLOCK_SIZE)
                && negb (fetched i =? 0) && (translated i =? COMPLETED))
    (fun _ i => i <| fetched := COMPLETED |>)
    (bus_MAX_READ k L1I) (FETCH_WIDTH k) c.

(** [while (to_read > 0 && !PROCESSED.empty())] for data. *)
Fixpoint data_returns (b : bus) (step : Mem.PACKET -> core -> cres core) (to_read : nat) (c : core) : cres core :=
  match to_read with
  | O => Ret c
  | Datatypes.S to_read =>
    if empty (PROCESSED c b) then Ret c
    else
      let* e := front (PROCESSED c b) in
      let* c := step e c in
      let* q := pop_front (PROCESSED c b) in
      data_returns b step to_read (set_processed b q c)
  end.

Definition translated_entry (e : Mem.PACKET) (c : core) (x : LSQ_ENTRY) : LSQ_ENTRY :=
  x <| physical_address := splice_bits (Mem.data e) (virtual_address x) SimVmem.Vmem.LOG2_PAGE_SIZE |>
    <| l_translated := COMPLETED |> <| l_event_cycle := current_cycle c |>.

Definition dtlb_return (e : Mem.PACKET) (c : core) : cres core :=
  let c := c <| SQ ::= fun q => foldl (fun q i => alter (translated_entry e c) i q) q (Mem.sq_index_depend_on_me e) |>
             <| RTS1 ::= fun l => l ++ Mem.sq_index_depend_on_me e |> in
  Ret (c <| LQ ::= fun q => foldl (fun q i => alter (translated_entry e c) i q) q (Mem.lq_index_depend_on_me e) |>
         <| RTL1 ::= fun l => l ++ Mem.lq_index_depend_on_me e |>).

Fixpoint l1d_loads (l : list nat) (c : core) : cres core :=
  match l with
  | [] => Ret c
  | lq :: l =>
    let* e := lsq_at lq (LQ c) in
    let* pos := deref_rob e in
    let* c := finish_mem_op false pos c in
    l1d_loads l (c <| LQ ::= <[lq := new_LSQ]> |>)
  end.
Definition l1d_return (e : Mem.PACKET) (c : core) : cres core := l1d_loads (Mem.lq_index_depend_on_me e) c.

Definition handle_memory_return (c : core) : cres core :=
  let* c := itlb_returns c in
  let* c := l1i_returns c in
  let* c := data_returns DTLB dtlb_return (bus_MAX_READ k DTLB) c in
  data_returns L1D l1d_return (bus_MAX_READ k L1D) c.

(** *** Retiring *)

(** The stores of the oldest instruction; [false] when the cache refuses one. *)
Fixpoint retire_stores (l : list nat) (c : core) : cres (bool * core) :=
  match l with
  | [] => Ret (true, c)
  | j :: l =>
    let* i := front (ROB c) in
    if nth j (destination_memory i) 0 =? 0 then retire_stores l c
    else
      match nth j (sq_index i) None with
      | None => Abort "singular iterator"
      | Some sq =>
        let* e := lsq_at sq (SQ c) in
        let* r := send_wq L1D (lsq_packet L1D Mem.RFO (physical_address e) e c) c in
        let '(result, c) := r in
        if result =? -2 then Ret (false, c)
        else retire_stores l (modify_rob (fun i => i <| destination_memory ::= <[j := 0]> |>) (begin_ (ROB c)) c <| SQ ::= <[sq := new_LSQ]> |>)
      end
  end.

Definition count_retired (i : ooo_model_instr) (c : core) : core :=
  if is_kernel i then
    let c := c <| kernel_insn ::= inc64 |> in if is_memory i then c <| kernel_data ::= inc64 |> else c
  else
    let c := c <| user_insn ::= inc64 |> in if is_memory i then c <| user_data ::= inc64 |> else c.

(** [false]: the function returned from within the loop. *)
Fixpoint retire_loop (retire_bandwidth : nat) (c : core) : cres (bool * core) :=
  match retire_bandwidth with
  | O => Ret (true, c)
  | Datatypes.S bw =>
    if empty (ROB c) then Ret (true, c)
    else
      let* i := front (ROB c) in
      if executed i =? COMPLETED then
        let* r := retire_stores (seq 0 (MAX_INSTR_DESTINATIONS k)) c in
        if negb r.1 then Ret r
        else
          let c := count_retired i r.2 in
          let* rob := pop_front (ROB c) in
          retire_loop bw (c <| ROB := rob |> <| completed_executions ::= fun n => u64 (n - 1) |> <| num_retired ::= inc64 |>)
      else Ret (true, c)
  end.

Definition retire_rob (c : core) : cres core :=
  let* r := retire_loop (RETIRE_WIDTH k) c in
  let c := r.2 in
  if negb r.1 || empty (ROB c) then Ret c
  else let* _ := check_deadlock (front (ROB c)) c in Ret c.

(** *** A cycle *)
Definition operate (c : core) : cres core :=
  let c := c <| instrs_to_read_this_cycle := Z.min (Z.of_nat (FETCH_WIDTH k)) (sz_ (IFETCH_BUFFER c) - occupancy (IFETCH_BUFFER c)) |> in
  let* c := retire_rob c in
  let* c := complete_inflight_instruction c in
  let c := execute_instruction c in
  let* c := schedule_instruction c in
  let* c := handle_memory_return c in
  let* c := operate_lsq c in
  let* c := schedule_memory_instruction c in
  let* c := dispatch_instruction c in
  let* c := decode_instruction c in
  let* c := promote_to_decode c in
  let* c := fetch_instruction c in
  let* c := translate_fetch c in
  let* c := check_dib c in
  Ret (c <| DISPATCH_BUFFER ::= Delay.operate |> <| DECODE_BUFFER ::= Delay.operate |>).

(** [_operate] of a core at the highest frequency, which skips no cycle. *)
Definition _operate (c : core) : cres core :=
  let* c := operate c in Ret (c <| current_cycle ::= inc64 |>).

(** What [finish_warmup] resets in a core. *)
Definition reset_branch_stats (c : core) : core :=
  c <| num_branch := 0 |> <| branch_mispredictions := 0 |> <| total_rob_occupancy_at_branch_mispredict := 0 |>
    <| total_branch_types := replicate 8 0 |> <| branch_type_misses := replicate 8 0 |>.

End Core.
End Cpu.
