(* ===== verification/SimRob.v ===== *)
(** * ChampSim: a circular buffer as a list of named elements

    The core keeps iterators into its reorder buffer.  An iterator stays valid
    while its element is in the buffer: [tagged] lists the elements, oldest first,
    each with the position that names it, and the operations of the buffer act on
    that list.  [map_cb] is the buffer seen through a function of its elements. *)

From stdpp Require Import base list.
From S2P Require Import Prelude SimUtil SimQueue.
Import Circ.
Local Open Scope Z_scope.
Local Open Scope c_scope.

Module Rob.

(** ** A buffer seen through a function *)
Definition map_cb {T U} (f : T -> U) (b : circular_buffer T) : circular_buffer U :=
  mkCB (sz_ b) (f <$> entry_ b) (head_ b) (tail_ b).

Section Map.
Context {T U : Type} (f : T -> U).
Implicit Types b : circular_buffer T.

Lemma map_size b : entry_size (map_cb f b) = entry_size b.
Proof. unfold entry_size. simpl. by rewrite length_fmap. Qed.
Lemma map_wf b : wf (map_cb f b) <-> wf b.
Proof. unfold wf. by rewrite map_size. Qed.
Lemma map_contents b : contents (map_cb f b) = f <$> contents b.
Proof.
  unfold contents, count, index_of. rewrite map_size. simpl.
  by rewrite fmap_take, fmap_app, fmap_drop, fmap_take.
Qed.
Lemma map_at b pos : at_ (map_cb f b) pos = let* x := at_ b pos in Ret (f x).
Proof. unfold at_. simpl. rewrite list_lookup_fmap. by destruct (entry_ b !! _). Qed.

Lemma map_modify g h pos b :
  (forall x, f (g x) = h (f x)) -> map_cb f (modify_at g pos b) = modify_at h pos (map_cb f b).
Proof.
  intros Hg. unfold map_cb, modify_at. simpl. f_equal. apply list_eq. intros i. rewrite list_lookup_fmap.
  destruct (decide (i = Z.to_nat pos)) as [->|Hne].
  - rewrite !list_lookup_alter_eq, list_lookup_fmap. destruct (entry_ b !! _); [|done]. simpl. by rewrite Hg.
  - by rewrite !list_lookup_alter_ne, list_lookup_fmap by done.
Qed.
Lemma map_modify_same g pos b : (forall x, f (g x) = f x) -> map_cb f (modify_at g pos b) = map_cb f b.
Proof.
  intros Hg. rewrite (map_modify g id) by done. unfold modify_at, map_cb. simpl. f_equal.
  apply list_eq. intros i. destruct (decide (i = Z.to_nat pos)) as [->|Hne].
  - rewrite list_lookup_alter_eq. by destruct ((f <$> entry_ b) !! _).
  - by rewrite list_lookup_alter_ne.
Qed.
Lemma map_eq_geometry b b' :
  map_cb f b' = map_cb f b -> sz_ b' = sz_ b /\ head_ b' = head_ b /\ tail_ b' = tail_ b /\ length (entry_ b') = length (entry_ b).
Proof.
  intros E. injection E as ? HE ? ?. split_and!; try done.
  rewrite <- (length_fmap f (entry_ b')), <- (length_fmap f (entry_ b)). by rewrite HE.
Qed.
End Map.

(** ** Named elements *)
Definition tagged {T} (b : circular_buffer T) : list (Z * T) := imap (fun i x => (pos_of b (Z.of_nat i), x)) (contents b).

(** [*name = f( *name)] *)
Definition update {T} (p : Z) (f : T -> T) (l : list (Z * T)) : list (Z * T) :=
  (fun e => if decide (e.1 = p) then (e.1, f e.2) else e) <$> l.

Section Tagged.
Context {T : Type}.
Implicit Types b : circular_buffer T.

Lemma tagged_lookup b i : tagged b !! i = (fun x => (pos_of b (Z.of_nat i), x)) <$> contents b !! i.
Proof. unfold tagged. by rewrite list_lookup_imap. Qed.
Lemma tagged_values b : (tagged b).*2 = contents b.
Proof. unfold tagged. apply list_eq. intros i. rewrite list_lookup_fmap, list_lookup_imap. by destruct (contents b !! i). Qed.
Lemma length_tagged b : length (tagged b) = length (contents b).
Proof. by rewrite <- tagged_values, length_fmap. Qed.

Lemma tagged_index b i j p x y :
  wf b -> tagged b !! i = Some (p, x) -> tagged b !! j = Some (p, y) -> i = j.
Proof.
  intros Hw. rewrite !tagged_lookup. pose proof (count_range b Hw). pose proof Hw as (? & ? & ?).
  intros (x' & Hi & E1)%fmap_Some (y' & Hj & E2)%fmap_Some. injection E1 as -> ->. injection E2 as E2 ->.
  apply lookup_lt_Some in Hi, Hj. rewrite length_contents in Hi, Hj by done. apply Nat2Z.inj.
  rewrite <- (index_of_pos b (Z.of_nat i)), <- (index_of_pos b (Z.of_nat j)) by (done || lia). by rewrite E2.
Qed.

Lemma tagged_nodup b : wf b -> NoDup (tagged b).*1.
Proof.
  intros Hw. apply NoDup_alt. intros i j p. rewrite !list_lookup_fmap.
  intros ([? x] & Hi & ->)%fmap_Some ([? y] & Hj & E)%fmap_Some. simpl in E. subst. by eapply tagged_index.
Qed.

Lemma tagged_range b p x : wf b -> (p, x) ∈ tagged b -> 0 <= p < entry_size b.
Proof.
  intros Hw [i Hi]%list_elem_of_lookup. rewrite tagged_lookup in Hi.
  apply fmap_Some in Hi as (y & _ & E). injection E as -> ->. by apply pos_of_range.
Qed.

Lemma tagged_at b p x : wf b -> (p, x) ∈ tagged b -> at_ b p = Ret x.
Proof.
  intros Hw [i Hi]%list_elem_of_lookup. rewrite tagged_lookup in Hi.
  apply fmap_Some in Hi as (y & Hy & E). injection E as -> ->. by apply at_pos_of.
Qed.

(** Modifying a position modifies what it names. *)
Lemma tagged_modify f p b : wf b -> 0 <= p < entry_size b -> tagged (modify_at f p b) = update p f (tagged b).
Proof.
  intros Hw Hp. set (b' := modify_at f p b).
  assert (entry_size b' = entry_size b) as Hn by (unfold entry_size, b'; simpl; by rewrite length_alter).
  assert (wf b') as Hw' by (unfold wf; by rewrite Hn).
  assert (count b' = count b) as Hc by (unfold count, index_of; by rewrite Hn).
  assert (pos_of b' = pos_of b) as Hpos by (unfold pos_of; by rewrite Hn).
  apply list_eq. intros i. unfold update. rewrite list_lookup_fmap, !tagged_lookup, !lookup_contents, Hc, Hpos by done.
  destruct (decide (i < Z.to_nat (count b))%nat); [|done]. pose proof (pos_of_range b (Z.of_nat i) Hw).
  unfold b'. simpl. destruct (decide (pos_of b (Z.of_nat i) = p)) as [<-|Hne].
  - rewrite list_lookup_alter_eq. destruct (entry_ b !! _); [|done]. simpl. by rewrite decide_True.
  - rewrite list_lookup_alter_ne by lia. destruct (entry_ b !! _); [|done]. simpl. by rewrite decide_False.
Qed.

Lemma tagged_push b b' x :
  wf b -> push_back x b = Ret b' ->
  wf b' /\ tagged b' = tagged b ++ [(tail_ b, x)] /\ (tail_ b ∉ (tagged b).*1) /\ sz_ b' = sz_ b /\
  Z.of_nat (length (contents b)) < sz_ b.
Proof.
  intros Hw E. pose proof (push_back_spec b x Hw) as Hs. case_bool_decide as Hf; [congruence|].
  destruct Hs as (b2 & E2 & Hw' & Hc & Hsz & Hh & Hn & _). assert (b2 = b') as -> by congruence.
  pose proof (length_contents b Hw) as Hl. pose proof (count_range b Hw).
  assert (tagged b' = tagged b ++ [(tail_ b, x)]) as Ht.
  { unfold tagged. rewrite Hc, imap_app. f_equal.
    - apply imap_ext. intros i y _. unfold pos_of. by rewrite Hh, Hn.
    - simpl. rewrite Nat.add_0_r, Hl, Z2Nat.id by lia. rewrite <- (pos_of_count b Hw). unfold pos_of. by rewrite Hh, Hn. }
  split_and!; try done; [|lia].
  pose proof (tagged_nodup b' Hw') as Hnd. rewrite Ht, fmap_app in Hnd. apply list.NoDup_app in Hnd as (_ & Hd & _).
  intros Hin. apply (Hd _ Hin). by left.
Qed.

Lemma tagged_pop b b' :
  wf b -> pop_front b = Ret b' ->
  exists x, contents b = x :: contents b' /\ wf b' /\ tagged b = (head_ b, x) :: tagged b' /\ sz_ b' = sz_ b.
Proof.
  intros Hw E. pose proof (pop_front_spec b Hw) as Hs. destruct (contents b) as [|x l] eqn:Hc; [congruence|].
  destruct Hs as (b2 & E2 & Hw' & Hc' & Hsz & _ & Hn & Hh). assert (b2 = b') as -> by congruence.
  exists x. rewrite Hc'. split_and!; try done. unfold tagged. rewrite Hc, Hc', imap_cons.
  change (Z.of_nat 0) with 0. rewrite (pos_of_0 b Hw). f_equal. apply imap_ext. intros i y _. unfold compose. f_equal.
  pose proof Hw as (_ & Hr & _). unfold pos_of. rewrite Hh, Hn, circ_inc_mod by lia. rewrite Zplus_mod_idemp_l. f_equal. lia.
Qed.
End Tagged.

Lemma tagged_map {T U} (f : T -> U) b : tagged (map_cb f b) = prod_map id f <$> tagged b.
Proof.
  apply list_eq. intros i. rewrite list_lookup_fmap, !tagged_lookup, map_contents, list_lookup_fmap.
  unfold pos_of. rewrite map_size. by destruct (contents b !! i).
Qed.

(** ** Modified lists *)
Section Update.
Context {T : Type}.
Implicit Types (Q : list (Z * T)).

Lemma update_names p f Q : (update p f Q).*1 = Q.*1.
Proof. unfold update. rewrite <- list_fmap_compose. apply list_fmap_ext. intros i [q x] _. simpl. by destruct (decide (q = p)). Qed.
Lemma update_app p f Q Q' : update p f (Q ++ Q') = update p f Q ++ update p f Q'.
Proof. apply fmap_app. Qed.
Lemma update_absent p f Q : p ∉ Q.*1 -> update p f Q = Q.
Proof.
  intros Hp. unfold update. rewrite <- (list_fmap_id Q) at 2. apply list_fmap_ext. intros i [q x] Hi. simpl.
  rewrite decide_False; [done|]. intros ->. apply Hp. apply list_elem_of_lookup. exists i. by rewrite list_lookup_fmap, Hi.
Qed.

(** An updated list splits as the list does. *)
Lemma update_split p (f : T -> T) A x B : NoDup (A ++ (p, x) :: B).*1 -> update p f (A ++ (p, x) :: B) = A ++ (p, f x) :: B.
Proof.
  rewrite fmap_app. intros (_ & Hd & Hn)%list.NoDup_app. simpl in Hd, Hn. apply list.NoDup_cons in Hn as [Hn _].
  rewrite update_app. change (update p f ((p, x) :: B)) with ((if decide (p = p) then (p, f x) else (p, x)) :: update p f B).
  rewrite decide_True, !update_absent; [done|done| |done]. intros H. apply (Hd _ H). by left.
Qed.

Lemma lookup_update p (f : T -> T) Q i q y :
  update p f Q !! i = Some (q, y) <-> exists x, Q !! i = Some (q, x) /\ y = if decide (q = p) then f x else x.
Proof.
  unfold update. rewrite list_lookup_fmap. split.
  - intros ([q' x] & Hi & E)%fmap_Some. exists x. simpl in E.
    destruct (decide (q' = p)) eqn:D; injection E as -> ->; rewrite D; done.
  - intros (x & -> & ->). simpl. by destruct (decide (q = p)).
Qed.

Lemma lookup_unique Q i j p x y :
  NoDup Q.*1 -> Q !! i = Some (p, x) -> Q !! j = Some (p, y) -> i = j /\ x = y.
Proof.
  intros Hn Hi Hj. assert (i = j) as <-; [|split; congruence].
  eapply (NoDup_lookup _ _ _ p Hn); rewrite list_lookup_fmap; [by rewrite Hi|by rewrite Hj].
Qed.

Lemma update_ext_at p (f g : T -> T) Q j x : NoDup Q.*1 -> Q !! j = Some (p, x) -> f x = g x -> update p f Q = update p g Q.
Proof.
  intros Hn Hj E. apply list_fmap_ext. intros m [q z] Hm. simpl. destruct (decide (q = p)) as [->|]; [|done].
  destruct (lookup_unique Q m j p z x Hn Hm Hj) as [_ ->]. by rewrite E.
Qed.
Lemma update_compose p (f g : T -> T) Q : update p f (update p g Q) = update p (fun x => f (g x)) Q.
Proof.
  unfold update. rewrite <- list_fmap_compose. apply list_fmap_ext. intros m [q z] _. simpl.
  destruct (decide (q = p)); simpl; [by rewrite decide_True|by rewrite decide_False].
Qed.
End Update.

End Rob.
