(* ===== verification/SimSched.v ===== *)
(** * ChampSim: register dependencies of the reorder buffer

    What the core's scheduler keeps about the instructions in the reorder buffer:
    which instructions wait for which, how many producers an instruction still
    waits for, and which instructions are ready.  The invariant [sched] is proved
    for every change the scheduler makes; its consequence [started_operands] is
    that an instruction starts only after its operands were produced. *)

From stdpp Require Import base list.
From S2P Require Import Prelude SimUtil SimQueue SimRob SimCpu.
Import Rob Cpu.
Local Open Scope Z_scope.

Module Sched.

(** An instruction as the scheduler sees it, and what identifies it. *)
Record view := mkView {
  v_id : Z;
  v_ip : Z;
  v_memory : list Z;
  v_kernel : bool;
  v_asid : Z * Z;
  v_is_memory : bool;
  v_executed : Z;
  v_scheduled : Z;
  v_waits : Z;
  v_dependents : list Z;
  v_dst : list Z;
  v_src : list Z;
}.
#[global] Instance eta_view : Settable view :=
  mkEta _ (fun x => mkView (v_id x) (v_ip x) (v_memory x) (v_kernel x) (v_asid x) (v_is_memory x) (v_executed x) (v_scheduled x) (v_waits x)
    (v_dependents x) (v_dst x) (v_src x)).

Definition view_of (i : ooo_model_instr) : view :=
  mkView (instr_id i) (ip i) (source_memory i) (is_kernel i) (asid i) (is_memory i) (executed i) (scheduled i) (num_reg_dependent i)
    (registers_instrs_depend_on_me i) (destination_registers i) (source_registers i).

Implicit Types (Q : list (Z * view)) (x y : view).

(** How often an instruction that has not completed lists [d]. *)
Definition lists (d : Z) x : nat := if v_executed x =? COMPLETED then 0 else count_occ Z.eq_dec (v_dependents x) d.
Definition pending (d : Z) Q : nat := sum_list_with (fun e => lists d e.2) Q.

(** The last older instruction that writes [r] has completed or has [d] waiting. *)
Definition covered Q (d r : Z) : Prop :=
  forall i j p x y, (i < j)%nat -> Q !! i = Some (p, x) -> Q !! j = Some (d, y) -> r ∈ v_dst x ->
  (forall m z, (i < m < j)%nat -> Q !! m = Some z -> r ∉ v_dst z.2) ->
  v_executed x = COMPLETED \/ d ∈ v_dependents x.

(** [busy] is being scheduled; [owed] are decrements still to be made. *)
Record sched (busy : option Z) (owed : list Z) Q (ready : list Z) : Prop := mkSched {
  s_names : NoDup Q.*1;
  s_edges : forall i p x d, Q !! i = Some (p, x) -> v_executed x <> COMPLETED -> d ∈ v_dependents x ->
            exists j y, (i < j)%nat /\ Q !! j = Some (d, y);
  s_once : forall i p x, Q !! i = Some (p, x) -> NoDup (v_dependents x);
  s_count : forall j d y, Q !! j = Some (d, y) -> v_waits y = Z.of_nat (pending d Q + count_occ Z.eq_dec owed d);
  s_started : forall j d y, Q !! j = Some (d, y) -> v_executed y <> 0 -> v_waits y = 0 /\ v_scheduled y <> 0;
  s_fresh : forall j d y, Q !! j = Some (d, y) -> v_scheduled y = 0 -> busy <> Some d -> v_waits y = 0;
  s_sources : forall j d y r, Q !! j = Some (d, y) -> v_scheduled y <> 0 -> r ∈ v_src y -> r <> 0 -> covered Q d r;
  s_ready : NoDup ready;
  s_listed : forall p, p ∈ ready -> exists j x, Q !! j = Some (p, x) /\ v_scheduled x = COMPLETED /\ v_executed x = 0 /\ v_waits x = 0;
}.

(** ** Updated lists *)

Lemma pending_update d p f Q i x :
  NoDup Q.*1 -> Q !! i = Some (p, x) -> (pending d (update p f Q) + lists d x = pending d Q + lists d (f x))%nat.
Proof.
  intros Hn Hi. rewrite <- (take_drop_middle Q i (p, x) Hi) in Hn |- *. rewrite update_split by done.
  unfold pending. rewrite !sum_list_with_app. simpl. lia.
Qed.

(** A view with the same dependents and progress is listed alike. *)
Lemma pending_same d p f Q :
  (forall x, v_executed (f x) = v_executed x /\ v_dependents (f x) = v_dependents x) -> pending d (update p f Q) = pending d Q.
Proof.
  intros Hf. unfold pending, update. induction Q as [|[q x] Q IH]; [done|].
  rewrite fmap_cons. cbn [sum_list_with]. rewrite IH. f_equal. cbn [fst snd].
  destruct (decide (q = p)); [|done]. simpl. unfold lists. by destruct (Hf x) as [-> ->].
Qed.

Lemma pending_elem d Q i p x :
  Q !! i = Some (p, x) -> v_executed x <> COMPLETED -> d ∈ v_dependents x -> (1 <= pending d Q)%nat.
Proof.
  intros Hi Hx Hd. rewrite <- (take_drop_middle Q i (p, x) Hi). unfold pending. rewrite sum_list_with_app. simpl.
  unfold lists at 2. destruct (Z.eqb_spec (v_executed x) COMPLETED); [done|].
  apply list_elem_of_In, (count_occ_In Z.eq_dec) in Hd. lia.
Qed.
Lemma pending_none d Q : (forall i p x, Q !! i = Some (p, x) -> v_executed x <> COMPLETED -> d ∉ v_dependents x) -> pending d Q = 0%nat.
Proof.
  induction Q as [|[q x] Q IH]; intros Hn; [done|]. unfold pending. simpl.
  change (lists d x + pending d Q = 0)%nat. rewrite IH by (intros i p y Hi; apply (Hn (S i) p y Hi)). rewrite Nat.add_0_r.
  unfold lists. destruct (Z.eqb_spec (v_executed x) COMPLETED); [done|]. apply count_occ_not_In.
  rewrite <- list_elem_of_In. by apply (Hn 0%nat q x).
Qed.

(** ** Consequences *)

(** An instruction that has started has its operands. *)
Lemma started_operands owed busy Q ready i j p x d y r :
  sched busy owed Q ready -> (i < j)%nat -> Q !! i = Some (p, x) -> Q !! j = Some (d, y) -> v_executed y <> 0 ->
  r ∈ v_src y -> r <> 0 -> r ∈ v_dst x -> (forall m z, (i < m < j)%nat -> Q !! m = Some z -> r ∉ v_dst z.2) ->
  v_executed x = COMPLETED.
Proof.
  intros HS Hij Hi Hj Hy Hr Hr0 Hx Hm. destruct (s_started _ _ _ _ HS j d y Hj Hy) as [Hw Hs].
  destruct (s_sources _ _ _ _ HS j d y r Hj Hs Hr Hr0 i j p x y Hij Hi Hj Hx Hm) as [Hc|Hd]; [done|].
  destruct (decide (v_executed x = COMPLETED)) as [|Hc]; [done|exfalso].
  pose proof (pending_elem d Q i p x Hi Hc Hd). pose proof (s_count _ _ _ _ HS j d y Hj). lia.
Qed.

(** There are fewer ready instructions than instructions. *)
Lemma ready_room busy owed Q ready j d y :
  sched busy owed Q ready -> Q !! j = Some (d, y) -> d ∉ ready -> (length ready < length Q)%nat.
Proof.
  intros HS Hj Hd. rewrite <- (length_fmap fst Q). apply (submseteq_length (d :: ready)). apply NoDup_submseteq.
  - constructor; [done|apply (s_ready _ _ _ _ HS)].
  - intros q [->|Hq]%elem_of_cons.
    + apply list_elem_of_lookup. exists j. by rewrite list_lookup_fmap, Hj.
    + destruct (s_listed _ _ _ _ HS q Hq) as (m & z & Hz & _). apply list_elem_of_lookup. exists m. by rewrite list_lookup_fmap, Hz.
Qed.

(** ** Changes of one instruction *)

(** An update that keeps registers and dependents, and completion. *)
Definition tame (f : view -> view) : Prop :=
  forall x, v_dst (f x) = v_dst x /\ v_src (f x) = v_src x /\ v_dependents (f x) = v_dependents x /\
  (v_executed x = COMPLETED -> v_executed (f x) = COMPLETED).

Lemma covered_update p f Q d r :
  (forall x, v_dst (f x) = v_dst x /\ v_dependents x ⊆ v_dependents (f x) /\
     (v_executed x = COMPLETED -> v_executed (f x) = COMPLETED)) ->
  covered Q d r -> covered (update p f Q) d r.
Proof.
  intros Hf HC i j q x y Hij (x0 & Hi & Ex)%lookup_update (y0 & Hj & Ey)%lookup_update Hr Hm.
  destruct (HC i j q x0 y0 Hij Hi Hj) as [Hc|Hd].
  - rewrite Ex in Hr. destruct (decide (q = p)); [|done]. by rewrite (proj1 (Hf x0)) in Hr.
  - intros m [z zv] Hmij Hz. simpl. pose proof (Hm m (z, if decide (z = p) then f zv else zv) Hmij) as H. simpl in H.
    destruct (decide (z = p)) eqn:D; [rewrite (proj1 (Hf zv)) in H|]; apply H, lookup_update; exists zv; by rewrite D.
  - left. rewrite Ex. destruct (decide (q = p)); [by apply Hf|done].
  - right. rewrite Ex. destruct (decide (q = p)); [by apply (Hf x0)|done].
Qed.

Lemma sched_tame busy owed busy' owed' Q ready ready' f p i x :
  sched busy owed Q ready -> tame f -> Q !! i = Some (p, x) ->
  (forall j d y, update p f Q !! j = Some (d, y) -> v_waits y = Z.of_nat (pending d (update p f Q) + count_occ Z.eq_dec owed' d)) ->
  (v_executed (f x) <> 0 -> v_waits (f x) = 0 /\ v_scheduled (f x) <> 0) ->
  (forall d, busy' <> Some d -> busy <> Some d \/ d = p) ->
  (v_scheduled (f x) = 0 -> busy' <> Some p -> v_waits (f x) = 0) ->
  (v_scheduled (f x) <> 0 -> forall r, r ∈ v_src x -> r <> 0 -> covered Q p r) ->
  NoDup ready' ->
  (forall q, q ∈ ready' -> (q ∈ ready /\ q <> p) \/
     (q = p /\ v_scheduled (f x) = COMPLETED /\ v_executed (f x) = 0 /\ v_waits (f x) = 0)) ->
  sched busy' owed' (update p f Q) ready'.
Proof.
  intros HS Hf Hi Hcount Hst Hbusy Hfr Hsrc Hnd Hrd. pose proof (s_names _ _ _ _ HS) as Hn.
  assert (forall d r, covered Q d r -> covered (update p f Q) d r) as Hcov.
  { intros d r. apply covered_update. intros z. destruct (Hf z) as (? & _ & -> & ?). done. }
  assert (forall j d y, update p f Q !! j = Some (d, y) -> exists y0, Q !! j = Some (d, y0) /\
    v_dst y = v_dst y0 /\ v_src y = v_src y0 /\ v_dependents y = v_dependents y0 /\
    (v_executed y0 = COMPLETED -> v_executed y = COMPLETED) /\ (d = p /\ y = f x \/ d <> p /\ y = y0)) as Hup.
  { intros j d y (y0 & Hj & ->)%lookup_update. exists y0. destruct (decide (d = p)) as [->|Hd]; [|by auto 10].
    destruct (lookup_unique Q j i p y0 x Hn Hj Hi) as [_ ->]. destruct (Hf x) as (? & ? & ? & ?). by auto 10. }
  constructor.
  - by rewrite update_names.
  - intros j q y d (y0 & Hj & _ & _ & Hd0 & Hc & _)%Hup Hy Hd. rewrite Hd0 in Hd.
    destruct (s_edges _ _ _ _ HS j q y0 d Hj) as (m & z & Hjm & Hz); [by intros ?%Hc|done|].
    exists m, (if decide (d = p) then f z else z). split; [done|]. apply lookup_update. by exists z.
  - intros j q y (y0 & Hj & _ & _ & -> & _)%Hup. by eapply s_once.
  - done.
  - intros j d y (y0 & Hj & _ & _ & _ & _ & [[-> ->]|[Hd ->]])%Hup Hy; [by apply Hst|by eapply s_started].
  - intros j d y (y0 & Hj & _ & _ & _ & _ & [[-> ->]|[Hd ->]])%Hup Hs Hb; [by apply Hfr|].
    eapply s_fresh; [done|done|done|]. by destruct (Hbusy d Hb).
  - intros j d y r (y0 & Hj & _ & Hsr & _ & _ & [[-> ->]|[Hd ->]])%Hup Hs Hr Hr0; apply Hcov.
    + rewrite (proj1 (proj2 (Hf x))) in Hr. by apply Hsrc.
    + by eapply s_sources.
  - done.
  - intros q [[Hq Hne]|(-> & H1 & H2 & H3)]%Hrd.
    + destruct (s_listed _ _ _ _ HS q Hq) as (j & y & Hj & ?). exists j, y. split; [|done]. apply lookup_update.
      exists y. by rewrite decide_False.
    + exists i, (f x). split; [|done]. apply lookup_update. exists x. by rewrite decide_True.
Qed.

(** Updates that keep the counts. *)
Lemma count_same busy owed Q ready p f :
  sched busy owed Q ready ->
  (forall x, v_executed (f x) = v_executed x /\ v_dependents (f x) = v_dependents x /\ v_waits (f x) = v_waits x) ->
  forall j d y, update p f Q !! j = Some (d, y) -> v_waits y = Z.of_nat (pending d (update p f Q) + count_occ Z.eq_dec owed d).
Proof.
  intros HS Hf j d y (y0 & Hj & ->)%lookup_update. rewrite pending_same by (intros z; by destruct (Hf z) as (-> & -> & _)).
  rewrite <- (s_count _ _ _ _ HS j d y0 Hj). destruct (decide (d = p)); [by destruct (Hf y0) as (_ & _ & ->)|done].
Qed.

(** Starting an instruction changes no count. *)
Lemma count_started busy owed Q ready p f i x :
  sched busy owed Q ready -> Q !! i = Some (p, x) -> v_executed x <> COMPLETED -> v_executed (f x) <> COMPLETED ->
  v_dependents (f x) = v_dependents x -> v_waits (f x) = v_waits x ->
  forall j d y, update p f Q !! j = Some (d, y) -> v_waits y = Z.of_nat (pending d (update p f Q) + count_occ Z.eq_dec owed d).
Proof.
  intros HS Hi Hx Hfx Hd Hw j d y (y0 & Hj & ->)%lookup_update. pose proof (s_names _ _ _ _ HS) as Hn.
  assert (pending d (update p f Q) = pending d Q) as ->.
  { pose proof (pending_update d p f Q i x Hn Hi) as E. unfold lists in E. rewrite Hd in E.
    rewrite (proj2 (Z.eqb_neq _ _) Hx), (proj2 (Z.eqb_neq _ _) Hfx) in E. lia. }
  rewrite <- (s_count _ _ _ _ HS j d y0 Hj). destruct (decide (d = p)) as [->|]; [|done].
  by destruct (lookup_unique Q j i p y0 x Hn Hj Hi) as [_ ->].
Qed.

(** ** The changes the core makes *)

(** An instruction that is not ready yet is recorded as scheduled. *)
Lemma sched_scheduled s Q ready j d y :
  sched (Some d) [] Q ready -> Q !! j = Some (d, y) -> v_scheduled y = 0 -> s <> 0 ->
  (forall r, r ∈ v_src y -> r <> 0 -> covered Q d r) ->
  sched None [] (update d (fun x => x <| v_scheduled := s |>) Q) ready.
Proof.
  intros HS Hj Hy Hs Hsrc. eapply sched_tame; [done|by intros z|done|by eapply count_same| | | |done| |].
  - intros H. by destruct (s_started _ _ _ _ HS j d y Hj H).
  - intros q _. destruct (decide (q = d)); [by right|left; congruence].
  - done.
  - by apply (s_ready _ _ _ _ HS).
  - intros q Hq. left. split; [done|]. intros ->. destruct (s_listed _ _ _ _ HS d Hq) as (m & z & Hz & Hzs & _).
    destruct (lookup_unique Q m j d z y (s_names _ _ _ _ HS) Hz Hj) as [_ ->]. rewrite Hy in Hzs. done.
Qed.

Lemma sched_push_ready busy Q ready j d y :
  sched busy [] Q ready -> Q !! j = Some (d, y) -> v_scheduled y = COMPLETED -> v_executed y = 0 -> v_waits y = 0 -> d ∉ ready ->
  sched busy [] Q (ready ++ [d]).
Proof.
  intros [? ? ? ? ? ? ? Hr Hl] Hj Hs He Hw Hd. constructor; try done.
  - apply list.NoDup_app. split; [done|]. split; [|apply NoDup_singleton]. by intros q Hq ->%list_elem_of_singleton.
  - intros q [Hq| ->%list_elem_of_singleton]%elem_of_app; [by apply Hl|]. by exists j, y.
Qed.

(** The oldest ready instruction starts. *)
Lemma sched_execute Q ready p :
  sched None [] Q (p :: ready) -> sched None [] (update p (fun x => x <| v_executed := INFLIGHT |>) Q) ready.
Proof.
  intros HS. destruct (s_listed _ _ _ _ HS p) as (j & x & Hj & Hs & He & Hw); [by left|].
  pose proof (s_ready _ _ _ _ HS) as [Hp Hr]%list.NoDup_cons.
  assert (update p (fun z => z <| v_executed := INFLIGHT |>) Q =
          update p (fun z => if v_executed z =? COMPLETED then z else z <| v_executed := INFLIGHT |>) Q) as ->.
  { apply (update_ext_at p _ _ Q j x (s_names _ _ _ _ HS) Hj). by rewrite He. }
  assert ((v_executed x =? COMPLETED) = false) as Hf by by rewrite He.
  eapply sched_tame; [done| |done| | | | | |done|].
  - intros z. by destruct (Z.eqb_spec (v_executed z) COMPLETED).
  - eapply count_started; [done|done|by rewrite He| | |]; by rewrite Hf.
  - intros _. rewrite Hf. simpl. by rewrite Hs.
  - intros d. by left.
  - by rewrite Hf.
  - rewrite Hf. simpl. intros H r Hr' Hr0. by eapply s_sources.
  - intros q Hq. left. split; [by right|]. by intros ->.
Qed.

(** All memory operations of an instruction are under way. *)
Lemma sched_memory Q ready j p x :
  sched None [] Q ready -> Q !! j = Some (p, x) -> v_scheduled x = INFLIGHT -> v_waits x = 0 ->
  sched None [] (update p (fun z => z <| v_scheduled := COMPLETED |> <| v_executed ::= fun e => if e =? 0 then INFLIGHT else e |>) Q) ready.
Proof.
  intros HS Hj Hs Hw. pose proof (s_names _ _ _ _ HS) as Hn. eapply sched_tame; [done| |done| | | | | | |].
  - intros z. split_and!; try done. simpl. by intros ->.
  - intros m d y Hm. pose proof Hm as (y0 & Hm0 & ->)%lookup_update.
    assert (pending d (update p (fun z => z <| v_scheduled := COMPLETED |> <| v_executed ::= fun e => if e =? 0 then INFLIGHT else e |>) Q)
      = pending d Q) as ->.
    { pose proof (pending_update d p (fun z => z <| v_scheduled := COMPLETED |> <| v_executed ::= fun e => if e =? 0 then INFLIGHT else e |>)
        Q j x Hn Hj) as E. revert E. unfold lists. simpl. destruct (Z.eqb_spec (v_executed x) 0) as [->|]; simpl; lia. }
    rewrite <- (s_count _ _ _ _ HS m d y0 Hm0). by destruct (decide (d = p)).
  - intros _. done.
  - intros d. by left.
  - done.
  - intros _ r Hr Hr0. eapply s_sources; [done|done| |done|done]. by rewrite Hs.
  - apply (s_ready _ _ _ _ HS).
  - intros q Hq. left. split; [done|]. intros ->. destruct (s_listed _ _ _ _ HS p Hq) as (m & z & Hz & Hzs & _).
    destruct (lookup_unique Q m j p z x Hn Hz Hj) as [_ ->]. by rewrite Hs in Hzs.
Qed.

(** An instruction completes: the decrements of its dependents are owed. *)
Lemma sched_complete Q ready j p x :
  sched None [] Q ready -> Q !! j = Some (p, x) -> v_executed x = INFLIGHT ->
  sched None (v_dependents x) (update p (fun z => z <| v_executed := COMPLETED |>) Q) ready.
Proof.
  intros HS Hj He. pose proof (s_names _ _ _ _ HS) as Hn.
  destruct (s_started _ _ _ _ HS j p x Hj) as [Hw Hs]; [by rewrite He|].
  eapply sched_tame; [done|by intros z|done| | | | | | |].
  - intros m d y (y0 & Hm0 & ->)%lookup_update.
    pose proof (pending_update d p (fun z => z <| v_executed := COMPLETED |>) Q j x Hn Hj) as E.
    unfold lists in E. rewrite He in E. simpl in E.
    pose proof (s_count _ _ _ _ HS m d y0 Hm0) as Hc. simpl in Hc.
    destruct (decide (d = p)); simpl; lia.
  - done.
  - intros d. by left.
  - done.
  - intros _ r Hr Hr0. by eapply s_sources.
  - apply (s_ready _ _ _ _ HS).
  - intros q Hq. left. split; [done|]. intros ->. destruct (s_listed _ _ _ _ HS p Hq) as (m & z & Hz & _ & Hze & _).
    destruct (lookup_unique Q m j p z x Hn Hz Hj) as [_ ->]. by rewrite He in Hze.
Qed.

(** One owed decrement; an instruction that waits no longer is marked. *)
Definition release (s : view -> Z) (z : view) : view :=
  let z := z <| v_waits ::= fun n => n - 1 |> in if v_waits z =? 0 then z <| v_scheduled := s z |> else z.

Lemma sched_release s owed Q ready j d y :
  sched None (d :: owed) Q ready -> Q !! j = Some (d, y) -> (forall z, s z <> 0) ->
  sched None owed (update d (release s) Q) ready /\ 1 <= v_waits y.
Proof.
  intros HS Hj Hs. pose proof (s_names _ _ _ _ HS) as Hn. pose proof (s_count _ _ _ _ HS j d y Hj) as Hc.
  rewrite count_occ_cons_eq in Hc by done. split; [|lia].
  assert (v_executed y = 0) as He.
  { destruct (decide (v_executed y = 0)) as [|Hy]; [done|]. destruct (s_started _ _ _ _ HS j d y Hj Hy). lia. }
  assert (v_scheduled y <> 0) as Hsc.
  { intros Hy. pose proof (s_fresh _ _ _ _ HS j d y Hj Hy). assert (v_waits y = 0) by auto. lia. }
  assert (forall z, v_executed (release s z) = v_executed z /\ v_dependents (release s z) = v_dependents z /\
    v_waits (release s z) = v_waits z - 1 /\ v_dst (release s z) = v_dst z /\ v_src (release s z) = v_src z) as Hr.
  { intros z. unfold release. simpl. by destruct (v_waits z - 1 =? 0). }
  assert (v_scheduled (release s y) <> 0) as Hsr.
  { unfold release. simpl. destruct (v_waits y - 1 =? 0); [apply Hs|done]. }
  eapply sched_tame; [done| |done| | | | | | |].
  - intros z. destruct (Hr z) as (-> & -> & _ & -> & ->). done.
  - intros m q z (z0 & Hm & ->)%lookup_update. rewrite pending_same by (intros z; by destruct (Hr z) as (-> & -> & _)).
    pose proof (s_count _ _ _ _ HS m q z0 Hm) as Hq. destruct (decide (q = d)) as [->|Hne].
    + destruct (Hr z0) as (_ & _ & -> & _). rewrite count_occ_cons_eq in Hq by done. lia.
    + by rewrite count_occ_cons_neq in Hq by done.
  - by destruct (Hr y) as (-> & _).
  - intros q. by left.
  - done.
  - intros _ r Hr1 Hr0. by eapply s_sources.
  - apply (s_ready _ _ _ _ HS).
  - intros q Hq. left. split; [done|]. intros ->. destruct (s_listed _ _ _ _ HS d Hq) as (m & z & Hz & _ & _ & Hzw).
    destruct (lookup_unique Q m j d z y Hn Hz Hj) as [_ ->]. lia.
Qed.

(** A dependency is recorded: [d] waits for the older [p]. *)
Definition add_edge (p d : Z) Q : list (Z * view) :=
  update d (fun z => z <| v_waits ::= fun n => n + 1 |>) (update p (fun z => z <| v_dependents ::= fun l => l ++ [d] |>) Q).

Lemma lookup_add_edge p d Q j q z :
  p <> d -> add_edge p d Q !! j = Some (q, z) -> exists z0, Q !! j = Some (q, z0) /\
  v_executed z = v_executed z0 /\ v_scheduled z = v_scheduled z0 /\ v_dst z = v_dst z0 /\ v_src z = v_src z0 /\
  v_waits z = v_waits z0 + (if decide (q = d) then 1 else 0) /\
  v_dependents z = v_dependents z0 ++ (if decide (q = p) then [d] else []).
Proof.
  intros Hne (z1 & (z0 & Hj & ->)%lookup_update & ->)%lookup_update. exists z0. split; [done|].
  destruct (decide (q = p)) as [->|], (decide _); subst; try done; simpl; rewrite ?Z.add_0_r, ?app_nil_r; done.
Qed.

Lemma pending_edge q p d Q i x :
  NoDup Q.*1 -> Q !! i = Some (p, x) -> v_executed x <> COMPLETED ->
  pending q (add_edge p d Q) = (pending q Q + (if decide (q = d) then 1 else 0))%nat.
Proof.
  intros Hn Hi Hx. unfold add_edge. rewrite pending_same by done.
  pose proof (pending_update q p (fun z => z <| v_dependents ::= fun l => l ++ [d] |>) Q i x Hn Hi) as E.
  assert (lists q (x <| v_dependents ::= fun l => l ++ [d] |>) = lists q x + (if decide (q = d) then 1 else 0))%nat as El; [|lia].
  unfold lists. simpl. rewrite (proj2 (Z.eqb_neq _ _) Hx), count_occ_app.
  simpl. destruct (Z.eq_dec d q), (decide (q = d)); congruence.
Qed.

Lemma sched_edge Q ready i j p x d y :
  sched (Some d) [] Q ready -> (i < j)%nat -> Q !! i = Some (p, x) -> Q !! j = Some (d, y) ->
  v_executed x <> COMPLETED -> d ∉ v_dependents x -> v_scheduled y = 0 ->
  sched (Some d) [] (add_edge p d Q) ready.
Proof.
  intros HS Hij Hi Hj Hx Hdx Hy. pose proof (s_names _ _ _ _ HS) as Hn.
  assert (p <> d) as Hne by (intros ->; destruct (lookup_unique Q i j d x y Hn Hi Hj); lia).
  assert (v_executed y = 0) as He.
  { destruct (decide (v_executed y = 0)) as [|H0]; [done|]. by destruct (s_started _ _ _ _ HS j d y Hj H0). }
  constructor.
  - unfold add_edge. by rewrite !update_names.
  - intros m q z e (z0 & Hm & Ez & _ & _ & _ & _ & Ed)%lookup_add_edge Hz Hd; [|done]. rewrite Ed in Hd.
    assert (exists m' z', (m < m')%nat /\ Q !! m' = Some (e, z')) as (m' & z' & Hm' & Hz').
    { apply elem_of_app in Hd as [Hd|Hd]; [eapply s_edges; [done|done|congruence|done]|].
      destruct (decide (q = p)) as [->|]; [|by apply elem_of_nil in Hd]. apply list_elem_of_singleton in Hd as ->.
      destruct (lookup_unique Q m i p z0 x Hn Hm Hi) as [-> _]. by exists j, y. }
    exists m'. unfold add_edge. eexists. split; [done|]. apply lookup_update. eexists. split; [|done].
    apply lookup_update. by eexists.
  - intros m q z (z0 & Hm & _ & _ & _ & _ & _ & ->)%lookup_add_edge; [|done].
    pose proof (s_once _ _ _ _ HS m q z0 Hm) as Ho. destruct (decide (q = p)) as [->|]; [|by rewrite app_nil_r].
    destruct (lookup_unique Q m i p z0 x Hn Hm Hi) as [_ ->]. apply list.NoDup_app.
    split; [done|]. split; [|apply NoDup_singleton]. by intros e He' ->%list_elem_of_singleton.
  - intros m q z (z0 & Hm & _ & _ & _ & _ & -> & _)%lookup_add_edge; [|done].
    rewrite (pending_edge q p d Q i x) by done. pose proof (s_count _ _ _ _ HS m q z0 Hm) as Hc. simpl in *.
    destruct (decide (q = d)); lia.
  - intros m q z (z0 & Hm & Ez & Es & _ & _ & Ew & _)%lookup_add_edge Hz; [|done].
    rewrite Ez in Hz. destruct (s_started _ _ _ _ HS m q z0 Hm Hz). destruct (decide (q = d)) as [->|]; [|split; [lia|congruence]].
    destruct (lookup_unique Q m j d z0 y Hn Hm Hj) as [_ ->]. done.
  - intros m q z (z0 & Hm & Ez & Es & _ & _ & Ew & _)%lookup_add_edge Hz Hb; [|done].
    rewrite decide_False in Ew by congruence. rewrite Ew, Z.add_0_r. eapply s_fresh; [done|done|congruence|done].
  - intros m q z r (z0 & Hm & Ez & Es & _ & Er & _)%lookup_add_edge Hz Hr Hr0; [|done].
    apply covered_update; [done|]. apply covered_update.
    { intros z1. split_and!; try done. simpl. intros e. rewrite elem_of_app. by left. }
    eapply s_sources; [done|done|congruence|congruence|done].
  - apply (s_ready _ _ _ _ HS).
  - intros q Hq. destruct (s_listed _ _ _ _ HS q Hq) as (m & z & Hm & H1 & H2 & H3).
    assert (q <> d) as Hqd.
    { intros ->. destruct (lookup_unique Q m j d z y Hn Hm Hj) as [_ ->]. by rewrite Hy in H1. }
    exists m. eexists. split; [apply lookup_update; eexists; split; [apply lookup_update; by eexists|done]|].
    rewrite (decide_False (P := q = d)) by done. by destruct (decide (q = p)).
Qed.

(** The oldest instruction leaves after it completed. *)
Lemma sched_pop Q ready p x :
  sched None [] ((p, x) :: Q) ready -> v_executed x = COMPLETED -> sched None [] Q ready.
Proof.
  intros HS Hx. pose proof (s_names _ _ _ _ HS) as Hn. rewrite fmap_cons in Hn. apply list.NoDup_cons in Hn as [Hp Hn].
  constructor.
  - done.
  - intros i q y d Hi Hy Hd. destruct (s_edges _ _ _ _ HS (S i) q y d Hi Hy Hd) as ([|j] & z & Hj & Hz); [lia|].
    exists j, z. split; [lia|done].
  - intros i q y Hi. by apply (s_once _ _ _ _ HS (S i) q y).
  - intros j d y Hj. rewrite (s_count _ _ _ _ HS (S j) d y Hj). unfold pending. simpl. unfold lists at 1. by rewrite Hx.
  - intros j d y Hj. by apply (s_started _ _ _ _ HS (S j) d y).
  - intros j d y Hj. by apply (s_fresh _ _ _ _ HS (S j) d y).
  - intros j d y r Hj Hy Hr Hr0 i m q z w Him Hi Hm Hz Hb.
    apply (s_sources _ _ _ _ HS (S j) d y r Hj Hy Hr Hr0 (S i) (S m) q z w); [lia|done|done|done|].
    intros [|b] v Hb' Hv; [lia|]. apply (Hb b v); [lia|done].
  - apply (s_ready _ _ _ _ HS).
  - intros q Hq. destruct (s_listed _ _ _ _ HS q Hq) as ([|j] & y & Hj & H1 & H2 & H3).
    + injection Hj as <- <-. by rewrite Hx in H2.
    + by exists j, y.
Qed.

(** An instruction the scheduler has not seen. *)
Definition unseen x : Prop := v_executed x = 0 /\ v_scheduled x = 0 /\ v_waits x = 0 /\ v_dependents x = [].

Lemma sched_push Q ready p x :
  sched None [] Q ready -> p ∉ Q.*1 -> unseen x -> sched None [] (Q ++ [(p, x)]) ready.
Proof.
  intros HS Hp (He & Hs & Hw & Hd).
  assert (forall j q y, (Q ++ [(p, x)]) !! j = Some (q, y) -> Q !! j = Some (q, y) \/ (j = length Q /\ q = p /\ y = x)) as Hl.
  { intros j q y [H|[H1 H2]]%lookup_app_Some; [by left|right]. apply list_lookup_singleton_Some in H2 as [H2 E].
    injection E as -> ->. split; [lia|done]. }
  assert (forall d, pending d (Q ++ [(p, x)]) = pending d Q) as Hpend.
  { intros d. unfold pending. rewrite sum_list_with_app. simpl. unfold lists at 2. rewrite He, Hd. simpl. lia. }
  constructor.
  - rewrite fmap_app. apply list.NoDup_app. split; [apply (s_names _ _ _ _ HS)|]. split; [|apply NoDup_singleton].
    by intros q Hq ->%list_elem_of_singleton.
  - intros i q y d [Hi|(-> & -> & ->)]%Hl Hy Hdy.
    + destruct (s_edges _ _ _ _ HS i q y d Hi Hy Hdy) as (j & z & Hij & Hj). exists j, z. split; [done|]. by apply lookup_app_l_Some.
    + rewrite Hd in Hdy. by apply elem_of_nil in Hdy.
  - intros i q y [Hi|(-> & -> & ->)]%Hl; [by eapply s_once|]. rewrite Hd. constructor.
  - intros j d y [Hi|(-> & -> & ->)]%Hl; rewrite Hpend; [by eapply s_count|]. rewrite Hw, pending_none; [done|].
    intros i q y Hi Hy Hdy. destruct (s_edges _ _ _ _ HS i q y p Hi Hy Hdy) as (j & z & _ & Hj).
    apply Hp, list_elem_of_lookup. exists j. by rewrite list_lookup_fmap, Hj.
  - intros j d y [Hi|(-> & -> & ->)]%Hl; [by eapply s_started|done].
  - intros j d y [Hi|(-> & -> & ->)]%Hl; [by eapply s_fresh|done].
  - intros j d y r [Hj|(-> & -> & ->)]%Hl Hy Hr Hr0; [|done]. pose proof (s_sources _ _ _ _ HS j d y r Hj Hy Hr Hr0) as HC.
    intros i m q z w Him Hi [Hm|(-> & -> & ->)]%Hl Hz Hb.
    + apply Hl in Hi as [Hi|(-> & _)]; [|apply lookup_lt_Some in Hm; lia].
      apply (HC i m q z w); try done. intros b v Hb' Hv. apply (Hb b v Hb'). by apply lookup_app_l_Some.
    + exfalso. apply Hp, list_elem_of_lookup. exists j. by rewrite list_lookup_fmap, Hj.
  - apply (s_ready _ _ _ _ HS).
  - intros q Hq. destruct (s_listed _ _ _ _ HS q Hq) as (j & y & Hj & ?). exists j, y. split; [|done]. by apply lookup_app_l_Some.
Qed.

(** ** Finding producers *)

(** An instruction that will produce [r]. *)
Definition produces (r : Z) x : bool := negb (v_executed x =? COMPLETED) && existsb (fun z => z =? r) (v_dst x).

Lemma produces_spec r x : produces r x = true <-> v_executed x <> COMPLETED /\ r ∈ v_dst x.
Proof.
  unfold produces. rewrite andb_true_iff, negb_true_iff, Z.eqb_neq, existsb_exists. split; intros [H1 H2]; (split; [done|]).
  - destruct H2 as (z & Hz & ->%Z.eqb_eq). by apply list_elem_of_In.
  - exists r. rewrite Z.eqb_refl. split; [by apply list_elem_of_In|done].
Qed.

(** The search towards older instructions from [j]. *)
Definition is_prior Q (r : Z) (j : nat) (found : option nat) : Prop :=
  match found with
  | None => forall i p x, (i < j)%nat -> Q !! i = Some (p, x) -> produces r x = false
  | Some i => (i < j)%nat /\ (exists p x, Q !! i = Some (p, x) /\ produces r x = true) /\
      forall m p x, (i < m < j)%nat -> Q !! m = Some (p, x) -> produces r x = false
  end.

Lemma covered_prior Q r j d y found :
  NoDup Q.*1 -> Q !! j = Some (d, y) -> is_prior Q r j found ->
  (forall i p x, found = Some i -> Q !! i = Some (p, x) -> d ∈ v_dependents x) -> covered Q d r.
Proof.
  intros Hn Hj Hp Hd i j' p x y' Hij Hi Hj' Hr Hm. destruct (lookup_unique Q j' j d y' y Hn Hj' Hj) as [-> _].
  destruct (decide (v_executed x = COMPLETED)) as [|Hx]; [by left|right].
  assert (produces r x = true) as Hpx by by apply produces_spec.
  destruct found as [i0|]; [|by rewrite (Hp i p x Hij Hi) in Hpx].
  destruct Hp as (Hi0 & (p0 & x0 & Hx0 & Hpr) & Hno). destruct (Nat.lt_trichotomy i i0) as [Hlt|[->|Hgt]].
  - destruct (Hm i0 (p0, x0)); [lia|done|]. by apply produces_spec in Hpr as [_ ?].
  - by eapply Hd.
  - by rewrite (Hno i p x) in Hpx by (done || lia).
Qed.

(** While [d] is scheduled it is the last dependent of whatever lists it. *)
Definition marked Q (d : Z) : Prop :=
  forall i p x, Q !! i = Some (p, x) -> v_executed x <> COMPLETED -> d ∈ v_dependents x -> list.last (v_dependents x) = Some d.

Lemma marked_unseen busy owed Q ready j d y :
  sched busy owed Q ready -> Q !! j = Some (d, y) -> v_waits y = 0 -> marked Q d.
Proof.
  intros HS Hj Hw i p x Hi Hx Hd. pose proof (pending_elem d Q i p x Hi Hx Hd).
  pose proof (s_count _ _ _ _ HS j d y Hj). lia.
Qed.

Lemma marked_edge Q p d : p <> d -> marked Q d -> marked (add_edge p d Q) d.
Proof.
  intros Hne Hm j q z (z0 & Hj & Ee & _ & _ & _ & _ & Ed)%lookup_add_edge Hz Hd; [|done]. rewrite Ed in *.
  destruct (decide (q = p)); [by rewrite last_snoc|]. rewrite app_nil_r in *. apply (Hm j q z0 Hj); congruence.
Qed.

Lemma covered_edge Q p d r : covered Q d r -> covered (add_edge p d Q) d r.
Proof.
  intros HC. apply covered_update; [done|]. apply covered_update; [|done].
  intros z. split_and!; try done. simpl. intros e. rewrite elem_of_app. by left.
Qed.

Lemma is_prior_edge Q r j p d found : p <> d -> is_prior Q r j found -> is_prior (add_edge p d Q) r j found.
Proof.
  intros Hne. assert (forall m q z, add_edge p d Q !! m = Some (q, z) -> exists z0, Q !! m = Some (q, z0) /\ produces r z = produces r z0) as Hl.
  { intros m q z (z0 & Hm & Ee & _ & Ed & _)%lookup_add_edge; [|done]. exists z0. split; [done|]. unfold produces. by rewrite Ee, Ed. }
  destruct found as [i|]; simpl.
  - intros (Hi & (q & x & Hx & Hp) & Hno). split; [done|]. split.
    + eexists q, _. split; [apply lookup_update; eexists; split; [apply lookup_update; by eexists|done]|].
      revert Hp. unfold produces. by destruct (decide _), (decide _).
    + intros m q' z Hm (z0 & Hz0 & ->)%Hl. by apply (Hno m q' z0).
  - intros Hno m q' z Hm (z0 & Hz0 & ->)%Hl. by apply (Hno m q' z0).
Qed.

End Sched.
