(* ===== verification/SimCpuFrame.v ===== *)
(** * ChampSim: what the stages of the core leave alone

    The [frame] of a core is what its order and its register dependencies depend
    on: the buffers with their instructions as the scheduler sees them, and the
    counters.  Translation, fetching, the load and store queues and the answers of
    the memory do not change it, whatever the memory does. *)

From stdpp Require Import base list.
From S2P Require Import Prelude SimUtil SimQueue SimBranch SimBtb SimCpu SimRob SimSched.
Import Util Circ Rob Cpu Sched.
Import (notations) Mem.
Local Open Scope Z_scope.
Local Open Scope c_scope.

Module CpuFrame.

(** [m] ends with a result that satisfies [P]; with [total] it does end. *)
Definition holds {A} (total : bool) (m : cres A) (P : A -> Prop) : Prop :=
  match m with Ret a => P a | Abort _ => total = false end.

Lemma holds_bind {A B} t (m : cres A) (k : A -> cres B) P :
  holds t m (fun a => holds t (k a) P) -> holds t (let* a := m in k a) P.
Proof. by destruct m. Qed.
Lemma holds_mono {A} t (m : cres A) (P R : A -> Prop) : holds t m P -> (forall a, P a -> R a) -> holds t m R.
Proof. destruct m; simpl; auto. Qed.
Lemma holds_then {A B} t (m : cres A) (k : A -> cres B) P R :
  holds t m P -> (forall a, P a -> holds t (k a) R) -> holds t (let* a := m in k a) R.
Proof. intros Hm Hk. apply holds_bind. by eapply holds_mono. Qed.
(** Nothing is known of the result of [m]. *)
Lemma holds_any {A B} (m : cres A) (k : A -> cres B) P : (forall a, m = Ret a -> holds false (k a) P) -> holds false (let* a := m in k a) P.
Proof. destruct m; simpl; auto. Qed.

Record frame := mkFrame {
  f_rob : circular_buffer view;
  f_dispatch : Delay.delay_queue ooo_model_instr;
  f_decode : Delay.delay_queue ooo_model_instr;
  f_ifetch : circular_buffer view;
  f_ready : list Z;
  f_retired : Z;
  f_next : Z;
  f_kernel : Z;
  f_user : Z;
  f_to_read : Z;
  f_types : nat * nat;
}.

Section Frame.
Context `{Config} {S B M : Type} `{Memory M}.
Context (k : cpu_params) (warmup_complete : Z -> bool) (uninit : Z).
Local Abbreviation core := (O3_CPU S B M).
Implicit Types c : core.

Definition frame_of c : frame :=
  mkFrame (map_cb view_of (ROB c)) (DISPATCH_BUFFER c) (DECODE_BUFFER c) (map_cb view_of (IFETCH_BUFFER c)) (ready_to_execute c)
    (num_retired c) (instr_unique_id c) (kernel_insn c) (user_insn c) (instrs_to_read_this_cycle c)
    (length (total_branch_types c), length (branch_type_misses c)).

Definition keeps c (m : cres core) : Prop := holds false m (fun c' => frame_of c' = frame_of c).

Lemma frame_rob f pos c : (forall i, view_of (f i) = view_of i) -> frame_of (modify_rob f pos c) = frame_of c.
Proof. intros Hf. unfold frame_of. simpl. by rewrite map_modify_same. Qed.
Lemma frame_ifetch f pos c : (forall i, view_of (f i) = view_of i) -> frame_of (c <| IFETCH_BUFFER ::= modify_at f pos |>) = frame_of c.
Proof. intros Hf. unfold frame_of. simpl. by rewrite map_modify_same. Qed.

Lemma keeps_trans c c' m : frame_of c' = frame_of c -> keeps c' m -> keeps c m.
Proof. intros E Hm. eapply holds_mono; [exact Hm|]. simpl. congruence. Qed.
Lemma keeps_then c m (f : core -> cres core) : keeps c m -> (forall c', frame_of c' = frame_of c -> keeps c' (f c')) -> keeps c (let* c := m in f c).
Proof. intros Hm Hf. eapply holds_then; [exact Hm|]. intros c' E. eapply keeps_trans; [exact E|]. by apply Hf. Qed.

Ltac by_frame :=
  repeat match goal with E : frame_of _ = _ |- _ => rewrite <- E; clear E end;
  (reflexivity || (by apply frame_rob) || (by apply frame_ifetch) ||
   (etransitivity; [|by apply frame_rob]; reflexivity)).

(** ** Buses *)

Lemma bus_returns_keeps l c : keeps c (bus_returns l c).
Proof.
  revert c. induction l as [|[b p] l IH]; intros c; [done|]. simpl. apply keeps_then; [|by intros].
  unfold bus_return_data. destruct (_ =? _); [done|]. apply holds_any. by intros q _.
Qed.

Lemma send_rq_keeps b packet c : holds false (send_rq b packet c) (fun r => frame_of r.2 = frame_of c).
Proof.
  unfold send_rq. apply holds_any. intros [[[? ?] l] m] _.
  eapply holds_then; [apply (bus_returns_keeps l (c <| memory := m |>))|]. by intros c' E.
Qed.
Lemma send_wq_keeps b packet c : holds false (send_wq b packet c) (fun r => frame_of r.2 = frame_of c).
Proof.
  unfold send_wq. apply holds_any. intros [[[? ?] l] m] _.
  eapply holds_then; [apply (bus_returns_keeps l (c <| memory := m |>))|]. by intros c' E.
Qed.

(** ** Fetching *)

Lemma for_ifetch_keeps turns step pos last c :
  (forall pos c, keeps c (step pos c)) -> keeps c (for_ifetch turns step pos last c).
Proof.
  intros Hs. revert pos c. induction turns as [|turns IH]; intros pos c; [done|]. simpl.
  destruct (it_eq _ _ _); [done|]. apply keeps_then; [done|]. by intros.
Qed.

Lemma check_dib_keeps c : keeps c (check_dib k c).
Proof.
  apply for_ifetch_keeps. intros pos c'. unfold do_check_dib. apply holds_any. intros i _.
  destruct (_ <? _)%nat; [|done]. by apply (frame_ifetch _ pos c').
Qed.

Lemma mark_ifetch_frame f l c : (forall i, view_of (f i) = view_of i) -> frame_of (mark_ifetch f l c) = frame_of c.
Proof.
  intros Hf. revert c. induction l as [|pos l IH]; intros c; [done|].
  rewrite <- (frame_ifetch f (Z.of_nat pos) c Hf).
  transitivity (frame_of (mark_ifetch f l (c <| IFETCH_BUFFER ::= modify_at f (Z.of_nat pos) |>))); [by destruct c|apply IH].
Qed.

Lemma do_translate_fetch_keeps first last c : keeps c (do_translate_fetch k uninit first last c).
Proof.
  unfold do_translate_fetch. apply holds_any. intros i _. eapply holds_then; [apply send_rq_keeps|].
  intros [[r p] c'] E. simpl in E. destruct (_ =? _); [done|]. simpl. by rewrite mark_ifetch_frame.
Qed.
Lemma do_fetch_instruction_keeps first last c : keeps c (do_fetch_instruction k uninit first last c).
Proof.
  unfold do_fetch_instruction. apply holds_any. intros i _. eapply holds_then; [apply send_rq_keeps|].
  intros [[r p] c'] E. simpl in E. destruct (_ =? _); [done|]. simpl. by rewrite mark_ifetch_frame.
Qed.

Lemma translate_fetch_keeps c : keeps c (translate_fetch k uninit c).
Proof.
  unfold translate_fetch. destruct (empty _); [done|]. apply holds_any. intros i _.
  destruct (_ || _); [|done]. apply do_translate_fetch_keeps.
Qed.
Lemma fetch_instruction_keeps c : keeps c (fetch_instruction k uninit c).
Proof.
  unfold fetch_instruction.
  match goal with |- keeps _ (if empty (IFETCH_BUFFER ?x) then _ else _) => assert (frame_of x = frame_of c) as E by by destruct (_ && _) end.
  revert E. generalize (if fetch_stall c && (fetch_resume_cycle c <=? current_cycle c) && negb (fetch_resume_cycle c =? 0)
    then c <| fetch_stall := false |> <| fetch_resume_cycle := 0 |> else c). intros c' E.
  eapply keeps_trans; [exact E|]. destruct (empty _); [done|]. apply holds_any. intros i _.
  destruct (_ || _); [|done]. apply do_fetch_instruction_keeps.
Qed.

Lemma check_deadlock_keeps oldest c : keeps c (let* _ := check_deadlock oldest c in Ret c).
Proof. apply holds_any. by intros. Qed.

Lemma do_dib_update_keeps i c : keeps c (do_dib_update k i c).
Proof. unfold do_dib_update. destruct (_ <? _)%nat; [done|]. apply holds_any. by intros. Qed.

(** ** Memory operations *)

Lemma finish_mem_op_keeps checked pos c : keeps c (finish_mem_op checked pos c).
Proof.
  unfold finish_mem_op. apply holds_any. intros i _. apply holds_any. intros _ _.
  destruct (_ =? _); simpl; by_frame.
Qed.

Lemma do_sq_forward_to_lq_keeps lq c : keeps c (do_sq_forward_to_lq lq c).
Proof.
  unfold do_sq_forward_to_lq. apply holds_any. intros e _. apply holds_any. intros pos _.
  apply keeps_then; [apply finish_mem_op_keeps|]. done.
Qed.

Lemma add_load_queue_keeps pos n c : keeps c (add_load_queue k pos n c).
Proof.
  unfold add_load_queue. apply holds_any. intros e _. apply holds_any. intros i _.
  set (c1 := modify_rob _ pos c). assert (frame_of c1 = frame_of c) as E1 by by apply frame_rob.
  destruct (find_prior _ _ _ _) as [prior|]; [|exact E1]. apply holds_any. intros p _.
  set (c2 := modify_rob _ prior c1). assert (frame_of c2 = frame_of c) as E2 by by (rewrite <- E1; apply frame_rob).
  cbv zeta. destruct (_ <? _)%nat; [|exact E2]. eapply keeps_trans; [|apply do_sq_forward_to_lq_keeps]. exact E2.
Qed.

Lemma add_store_queue_keeps pos n c : keeps c (add_store_queue k pos n c).
Proof.
  unfold add_store_queue. apply holds_any. intros e _. apply holds_any. intros _ _. apply holds_any. intros i _.
  simpl. by apply (frame_rob _ pos c).
Qed.

Definition keeps2 {A} c (m : cres (A * core)) : Prop := holds false m (fun r => frame_of r.2 = frame_of c).

Lemma try_load_keeps pos n ops c : keeps2 c (try_load k pos n (ops, c)).
Proof.
  unfold try_load. destruct ops as [ops added]. apply holds_any. intros x _.
  destruct (_ =? _); [done|]. destruct (nth _ _ _); [done|]. destruct (negb _); [|done].
  eapply holds_then; [apply add_load_queue_keeps|]. by intros c' E.
Qed.
Lemma try_store_keeps pos n ops c : keeps2 c (try_store k pos n (ops, c)).
Proof.
  unfold try_store. destruct ops as [ops added]. apply holds_any. intros x _.
  destruct (_ =? _); [done|]. destruct (nth _ _ _); [done|]. destruct (negb _); [|done].
  destruct (STA c); [done|]. destruct (_ =? _); [|done].
  eapply holds_then; [apply add_store_queue_keeps|]. by intros c' E.
Qed.
Lemma for_ops_keeps (step : nat -> (nat * nat) * core -> cres ((nat * nat) * core)) l ops c :
  (forall n ops c, keeps2 c (step n (ops, c))) -> keeps2 c (for_ops step l (ops, c)).
Proof.
  intros Hs. revert ops c. induction l as [|n l IH]; intros ops c; [done|]. simpl.
  eapply holds_then; [apply Hs|]. intros [ops' c'] E. eapply holds_mono; [apply IH|]. simpl in *. congruence.
Qed.

(** The two loops before the result of [do_memory_scheduling] is recorded. *)
Lemma schedule_ops_keeps pos c :
  keeps2 c (let* r := for_ops (try_load k pos) (seq 0 TraceReader.Reader.NUM_INSTR_SOURCES) ((O, O), c) in
            for_ops (try_store k pos) (seq 0 (MAX_INSTR_DESTINATIONS k)) r).
Proof.
  eapply holds_then; [apply (for_ops_keeps _ _ (O, O) c), try_load_keeps|]. intros [ops c'] E.
  eapply holds_mono; [apply for_ops_keeps, try_store_keeps|]. simpl in *. congruence.
Qed.

Lemma do_translate_store_keeps sq c : keeps2 c (do_translate_store k uninit sq c).
Proof.
  unfold do_translate_store. apply holds_any. intros e _. eapply holds_then; [apply send_rq_keeps|].
  intros [[r p] c'] E. by destruct (_ =? _).
Qed.
Lemma do_translate_load_keeps lq c : keeps2 c (do_translate_load k uninit lq c).
Proof.
  unfold do_translate_load. apply holds_any. intros e _. eapply holds_then; [apply send_rq_keeps|].
  intros [[r p] c'] E. by destruct (_ =? _).
Qed.
Lemma execute_load_keeps lq c : keeps2 c (execute_load k uninit lq c).
Proof.
  unfold execute_load. apply holds_any. intros e _. eapply holds_then; [apply send_rq_keeps|].
  intros [[r p] c'] E. by destruct (_ =? _).
Qed.

Lemma forward_sources_keeps sq d l c : keeps c (forward_sources sq d l c).
Proof.
  revert c. induction l as [|j l IH]; intros c; [done|]. simpl. apply holds_any. intros e _. apply keeps_then; [|by intros].
  destruct (_ && _); [|done]. destruct (nth _ _ _) as [lq|]; [|done].
  apply holds_any. intros f _. apply holds_any. intros _ _. apply do_sq_forward_to_lq_keeps.
Qed.
Lemma forward_dependents_keeps sq l c : keeps c (forward_dependents sq l c).
Proof.
  revert c. induction l as [|pos l IH]; intros c; [done|]. cbn [forward_dependents].
  apply holds_any. intros d _. apply keeps_then; [apply forward_sources_keeps|]. by intros.
Qed.
Lemma execute_store_keeps sq c : keeps c (execute_store sq c).
Proof.
  unfold execute_store. apply holds_any. intros e _. apply holds_any. intros pos _.
  apply (keeps_then c); [eapply keeps_trans; [|apply finish_mem_op_keeps]; done|].
  intros c' _. apply holds_any. intros i _. apply forward_dependents_keeps.
Qed.

Lemma issue_loop_keeps issues queue pop (step : nat -> core -> cres (Z * core)) c :
  (forall c, frame_of (pop c) = frame_of c) -> (forall i c, keeps2 c (step i c)) -> keeps2 c (issue_loop issues queue pop step c).
Proof.
  intros Hp Hs. revert c. induction issues as [|issues IH]; intros c; [done|]. cbn [issue_loop].
  destruct (queue c) as [|i l]; [done|]. eapply holds_then; [apply Hs|]. intros r E.
  destruct (_ =? _); [done|]. eapply holds_mono; [apply IH|]. simpl. intros r' E'. by rewrite E', Hp.
Qed.

Lemma operate_lsq_keeps c : keeps c (operate_lsq k uninit c).
Proof.
  unfold operate_lsq.
  eapply holds_then; [by apply issue_loop_keeps, do_translate_store_keeps|]. intros r1 E1.
  eapply holds_then; [apply issue_loop_keeps; [done|]|].
  { intros sq c'. eapply holds_then; [apply execute_store_keeps|]. by intros. }
  intros r2 E2. eapply holds_then; [by apply issue_loop_keeps, do_translate_load_keeps|]. intros r3 E3.
  eapply holds_then; [by apply issue_loop_keeps, execute_load_keeps|]. intros r4 E4. simpl. congruence.
Qed.

(** ** Answers *)

Lemma instr_loop_keeps test f bw l c :
  (forall i, view_of (f i) = view_of i) -> holds false (instr_loop test f bw l c) (fun r => frame_of r.2 = frame_of c).
Proof.
  intros Hf. revert bw c. induction l as [|pos l IH]; intros [|bw] c; [done..|]. cbn [instr_loop]. apply holds_any. intros i _.
  destruct (test i); [|apply IH]. eapply holds_mono; [apply IH|]. intros r E. rewrite E. by apply frame_ifetch.
Qed.

Lemma instr_returns_keeps b test f to_read bw c :
  (forall e i, view_of (f e i) = view_of i) -> keeps c (instr_returns b test f to_read bw c).
Proof.
  intros Hf. revert bw c. induction to_read as [|to_read IH]; intros [|bw] c; [done..|]. cbn [instr_returns].
  destruct (empty _); [done|]. apply holds_any. intros e _. eapply holds_then; [by apply instr_loop_keeps|].
  intros [[bw' waiting] c'] E. simpl in E. apply holds_any. intros q _. eapply keeps_trans; [|apply IH]. done.
Qed.

Lemma data_returns_keeps b step to_read c : (forall e c, keeps c (step e c)) -> keeps c (data_returns b step to_read c).
Proof.
  intros Hs. revert c. induction to_read as [|to_read IH]; intros c; [done|]. cbn [data_returns].
  destruct (empty _); [done|]. apply holds_any. intros e _. apply keeps_then; [apply Hs|]. intros c' _.
  apply holds_any. intros q _. eapply keeps_trans; [|apply IH]. done.
Qed.

Lemma l1d_loads_keeps l c : keeps c (l1d_loads l c).
Proof.
  revert c. induction l as [|lq l IH]; intros c; [done|]. simpl. apply holds_any. intros e _. apply holds_any. intros pos _.
  apply keeps_then; [apply finish_mem_op_keeps|]. intros c' _. eapply keeps_trans; [|apply IH]. done.
Qed.

Lemma handle_memory_return_keeps c : keeps c (handle_memory_return k c).
Proof.
  unfold handle_memory_return, itlb_returns, l1i_returns.
  apply keeps_then; [by apply instr_returns_keeps|]. intros c1 _.
  apply keeps_then; [by apply instr_returns_keeps|]. intros c2 _.
  apply keeps_then; [by apply data_returns_keeps|]. intros c3 _.
  apply data_returns_keeps. intros e c'. apply l1d_loads_keeps.
Qed.

(** ** The stores of a retiring instruction *)
Lemma retire_stores_keeps l c : keeps2 c (retire_stores k uninit l c).
Proof.
  revert c. induction l as [|j l IH]; intros c; [done|]. simpl. apply holds_any. intros i _.
  destruct (_ =? _); [apply IH|]. destruct (nth _ _ _) as [sq|]; [|done]. apply holds_any. intros e _.
  eapply holds_then; [apply send_wq_keeps|]. intros [r c'] E. simpl in E. destruct (_ =? _); [done|].
  eapply holds_mono; [apply IH|]. intros r' ->. rewrite <- E. by apply (frame_rob _ _ c').
Qed.

End Frame.
End CpuFrame.
