(* ===== verification/SimCpuSched.v ===== *)
(** * ChampSim: the scheduling stages of the core

    Scheduling, execution and completion keep the invariant [sched] of the reorder
    buffer.  Scheduling and completion also never fail: the assertions on the number
    of producers and on the size of the ready queue hold. *)

From stdpp Require Import base list.
From S2P Require Import Prelude SimUtil SimQueue SimBranch SimBtb SimCpu SimRob SimSched SimCpuFrame.
Import Util Circ Rob Cpu Sched CpuFrame.
Local Open Scope Z_scope.
Local Open Scope c_scope.

Module CpuSched.

(** What an instruction is to do: its number, address, the addresses it loads from, privilege and
    address space, and the registers it reads and writes. *)
Definition prog : Type := Z * Z * list Z * bool * (Z * Z) * (list Z * list Z).
Definition program (v : view) : prog := (v_id v, v_ip v, v_memory v, v_kernel v, v_asid v, (v_src v, v_dst v)).

(** Positions of a buffer depend only on its geometry. *)
Lemma tagged_names {T} (b : circular_buffer T) : (tagged b).*1 = (fun i => pos_of b (Z.of_nat i)) <$> seq 0 (length (contents b)).
Proof.
  apply list_eq. intros i. rewrite !list_lookup_fmap, tagged_lookup.
  destruct (contents b !! i) as [x|] eqn:Hi.
  - apply lookup_lt_Some in Hi. by rewrite (proj2 (lookup_seq _ _ i i)) by lia.
  - apply lookup_ge_None in Hi. by rewrite lookup_seq_ge by done.
Qed.

(** ** The search for a producer *)
Lemma circ_dec {T} (b : circular_buffer T) (i : nat) : wf b -> circ_inc (pos_of b (Z.of_nat (Datatypes.S i))) (-1) b = pos_of b (Z.of_nat i).
Proof.
  intros (_ & Hh & _). rewrite circ_inc_mod by lia. unfold pos_of. rewrite Zplus_mod_idemp_l. f_equal. lia.
Qed.

Lemma it_eq_begin {T} (b : circular_buffer T) (i : nat) :
  wf b -> Z.of_nat i < entry_size b -> it_eq b (pos_of b (Z.of_nat i)) (begin_ b) = (i =? 0)%nat.
Proof.
  intros Hw Hi. pose proof Hw as (_ & Hh & _). rewrite it_eq_spec by (done || by apply pos_of_range). unfold begin_.
  rewrite <- (pos_of_0 b Hw). destruct (Nat.eqb_spec i 0) as [->|Hne]; [by apply Z.eqb_refl|].
  apply Z.eqb_neq. intros E. apply (f_equal (index_of b)) in E. rewrite !index_of_pos in E by (done || lia). lia.
Qed.

Lemma find_prior_spec turns p b (j : nat) :
  wf b -> (j <= length (contents b))%nat -> (j < turns)%nat ->
  match find_prior turns p (pos_of b (Z.of_nat j)) b with
  | None => forall i x, (i < j)%nat -> contents b !! i = Some x -> p x = false
  | Some q => exists i x, (i < j)%nat /\ q = pos_of b (Z.of_nat i) /\ contents b !! i = Some x /\ p x = true /\
      forall m z, (i < m < j)%nat -> contents b !! m = Some z -> p z = false
  end.
Proof.
  intros Hw. revert j. induction turns as [|turns IH]; intros j Hj Ht; [lia|]. cbn [find_prior].
  pose proof (length_contents b Hw) as Hl. pose proof (count_range b Hw). pose proof Hw as (Hs & _ & _).
  rewrite it_eq_begin by (done || lia). destruct (Nat.eqb_spec j 0) as [->|Hne]; [intros; lia|].
  destruct j as [|j]; [done|]. rewrite circ_dec by done.
  destruct (lookup_lt_is_Some_2 (contents b) j) as [x Hx]; [lia|].
  pose proof Hx as Hx'. rewrite lookup_contents in Hx' by done. destruct (decide _); [|done]. rewrite Hx'.
  destruct (p x) eqn:Hp.
  - exists j, x. split; [lia|]. split; [done|]. split; [done|]. split; [done|]. intros m z Hm _. lia.
  - specialize (IH j ltac:(lia) ltac:(lia)). destruct (find_prior _ _ _ _) as [q|].
    + destruct IH as (i & x' & Hi & -> & Hxi & Hpi & Hno). exists i, x'. split_and!; try done; [lia|].
      intros m z Hm Hz. destruct (decide (m = j)) as [->|]; [congruence|]. apply (Hno m z); [lia|done].
    + intros i z Hi Hz. destruct (decide (i = j)) as [->|]; [congruence|]. apply (IH i z); [lia|done].
Qed.

Section Stages.
Context `{Config} {S B M : Type} `{Memory M}.
Context (k : cpu_params).
Local Abbreviation core := (O3_CPU S B M).
Implicit Types c : core.

Definition rq c : list (Z * view) := tagged (map_cb view_of (ROB c)).
Definition scheduled_ok c : Prop := sched None [] (rq c) (ready_to_execute c).

(** What scheduling does not change. *)
Definition static c : frame * circular_buffer prog :=
  (mkFrame (mkCB 0 [] 0 0) (DISPATCH_BUFFER c) (DECODE_BUFFER c) (map_cb view_of (IFETCH_BUFFER c)) []
    (num_retired c) (instr_unique_id c) (kernel_insn c) (user_insn c) (instrs_to_read_this_cycle c)
    (length (total_branch_types c), length (branch_type_misses c)),
   map_cb program (map_cb view_of (ROB c))).

Lemma static_geometry c c' :
  static c' = static c -> sz_ (ROB c') = sz_ (ROB c) /\ head_ (ROB c') = head_ (ROB c) /\ tail_ (ROB c') = tail_ (ROB c) /\
  length (entry_ (ROB c')) = length (entry_ (ROB c)).
Proof.
  intros E. apply (f_equal snd) in E. apply map_eq_geometry in E as (Hs & Hh & Ht & Hl). simpl in *. rewrite !length_fmap in Hl. done.
Qed.
Lemma static_wf c c' : static c' = static c -> wf (ROB c) -> wf (ROB c').
Proof. intros (Hs & Hh & Ht & Hl)%static_geometry. unfold wf, entry_size. by rewrite Hs, Hh, Ht, Hl. Qed.

Lemma rq_names c : wf (ROB c) -> (rq c).*1 = (fun i => pos_of (ROB c) (Z.of_nat i)) <$> seq 0 (length (contents (ROB c))).
Proof. intros Hw. unfold rq. rewrite tagged_map, <- tagged_names, <- list_fmap_compose. by apply list_fmap_ext. Qed.

Lemma static_names c c' : static c' = static c -> wf (ROB c) -> (rq c').*1 = (rq c).*1.
Proof.
  intros E Hw. pose proof (static_wf c c' E Hw) as Hw'. rewrite !rq_names, !length_contents by done.
  destruct (static_geometry c c' E) as (_ & Hh & Ht & Hl).
  assert (count (ROB c') = count (ROB c)) as -> by (unfold count, index_of, entry_size; by rewrite Hh, Ht, Hl).
  apply list_fmap_ext. intros i x _. unfold pos_of, entry_size. by rewrite Hh, Hl.
Qed.

(** A named instruction of the buffer. *)
Lemma rq_at c p : wf (ROB c) -> p ∈ (rq c).*1 -> exists i j, at_ (ROB c) p = Ret i /\ rq c !! j = Some (p, view_of i).
Proof.
  intros Hw ([q v] & E & Hin)%list_elem_of_fmap. simpl in E. subst q. unfold rq in *. pose proof Hin as [j Hj]%list_elem_of_lookup.
  rewrite tagged_map in Hin. apply list_elem_of_fmap in Hin as ([q i] & E & Hin). injection E as -> ->.
  exists i, j. split; [by apply tagged_at|done].
Qed.
Lemma rq_lookup_at c j p v : wf (ROB c) -> rq c !! j = Some (p, v) -> exists i, at_ (ROB c) p = Ret i /\ view_of i = v.
Proof.
  intros Hw Hj. unfold rq in Hj. rewrite tagged_map, list_lookup_fmap in Hj. apply fmap_Some in Hj as ([q i] & Hi & E).
  injection E as -> ->. exists i. split; [|done]. apply tagged_at; [done|]. by eapply list_elem_of_lookup_2.
Qed.
Lemma rq_name_of c j p v : rq c !! j = Some (p, v) -> p ∈ (rq c).*1.
Proof. intros Hj. apply list_elem_of_lookup. exists j. by rewrite list_lookup_fmap, Hj. Qed.
Lemma rq_range c p : wf (ROB c) -> p ∈ (rq c).*1 -> 0 <= p < entry_size (ROB c).
Proof.
  intros Hw ([q v] & E & Hin)%list_elem_of_fmap. simpl in E. subst q. unfold rq in Hin. apply tagged_range in Hin; [|by apply map_wf].
  by rewrite map_size in Hin.
Qed.

(** ** A change of one instruction *)
Lemma modify_view f g pos c :
  wf (ROB c) -> pos ∈ (rq c).*1 -> (forall i, view_of (f i) = g (view_of i)) -> (forall v, program (g v) = program v) ->
  static (modify_rob f pos c) = static c /\ rq (modify_rob f pos c) = update pos g (rq c).
Proof.
  intros Hw Hpos Hf Hg. pose proof (rq_range c pos Hw Hpos). unfold static, rq. simpl. rewrite (map_modify view_of f g) by done. split.
  - by rewrite map_modify_same.
  - apply tagged_modify; [by apply map_wf|by rewrite map_size].
Qed.

(** Loops over the reorder buffer. *)
Lemma for_each_rob_holds t (P : core -> Prop) bw step c :
  (forall c pos, wf (ROB c) -> P c -> pos ∈ (rq c).*1 -> holds t (step pos c) (fun r => P r.2 /\ static r.2 = static c)) ->
  wf (ROB c) -> P c -> holds t (for_each_rob bw step c) (fun c' => P c' /\ static c' = static c).
Proof.
  intros Hstep Hw0 HP0. unfold for_each_rob.
  unfold begin_. rewrite <- (pos_of_0 (ROB c) Hw0). change 0 with (Z.of_nat 0).
  generalize (length (entry_ (ROB c))). intros turns.
  cut (forall i c', static c' = static c -> P c' -> (i <= length (contents (ROB c)))%nat ->
    holds t (for_rob turns bw step (pos_of (ROB c) (Z.of_nat i)) c') (fun c' => P c' /\ static c' = static c)).
  { intros Hc. apply Hc; [done|done|lia]. }
  revert bw. induction turns as [|turns IH]; intros bw i c' E HP Hi; [done|]. destruct bw as [|bw]; [done|]. cbn [for_rob].
  pose proof (static_wf c c' E Hw0) as Hw. destruct (static_geometry c c' E) as (_ & Hh & Ht & Hl).
  assert (forall j, pos_of (ROB c) j = pos_of (ROB c') j) as Hpos by (intros j; unfold pos_of, entry_size; by rewrite Hh, Hl).
  pose proof (length_contents (ROB c') Hw) as Hlc. pose proof (length_contents (ROB c) Hw0) as Hlc0. pose proof (count_range (ROB c') Hw).
  assert (count (ROB c') = count (ROB c)) as Hcnt by (unfold count, index_of, entry_size; by rewrite Hh, Ht, Hl).
  rewrite (Hpos (Z.of_nat i)), it_eq_end by (done || lia). destruct (Z.eqb_spec (Z.of_nat i) (count (ROB c'))); [done|].
  assert (pos_of (ROB c') (Z.of_nat i) ∈ (rq c').*1) as Hin.
  { rewrite rq_names by done. apply list_elem_of_fmap. exists i. split; [done|]. apply elem_of_seq. lia. }
  eapply holds_then; [by apply Hstep|]. intros [b c2] [HP2 E2]. simpl in HP2, E2 |- *.
  assert (circ_inc (pos_of (ROB c') (Z.of_nat i)) 1 (ROB c2) = pos_of (ROB c) (Z.of_nat (Datatypes.S i))) as ->.
  { destruct (static_geometry c' c2 E2) as (_ & Hh2 & _ & Hl2). rewrite <- Hpos.
    assert (pos_of (ROB c) (Z.of_nat i) = pos_of (ROB c2) (Z.of_nat i)) as -> by (unfold pos_of, entry_size; by rewrite Hh2, Hh, Hl2, Hl).
    rewrite pos_of_succ by (by eapply static_wf). unfold pos_of, entry_size. rewrite Hh2, Hh, Hl2, Hl. f_equal; lia. }
  apply IH; [congruence|done|lia].
Qed.

(** ** Recording producers *)

(** The instruction [d] at place [j] while its sources are marked. *)
Definition marking (d : Z) (j : nat) (srcs : list Z) c : Prop :=
  sched (Some d) [] (rq c) (ready_to_execute c) /\ marked (rq c) d /\
  exists y, rq c !! j = Some (d, y) /\ v_scheduled y = 0 /\ v_src y = srcs.

Lemma find_prior_rq r c j d y :
  wf (ROB c) -> rq c !! j = Some (d, y) ->
  exists found, is_prior (rq c) r j found /\
  find_prior (length (entry_ (ROB c))) (instr_reg_will_produce r) d (ROB c) =
    (fun i => pos_of (ROB c) (Z.of_nat i)) <$> found.
Proof.
  intros Hw Hj. assert (forall i p v, rq c !! i = Some (p, v) -> exists x, contents (ROB c) !! i = Some x /\ v = view_of x /\
    p = pos_of (ROB c) (Z.of_nat i)) as Hrq.
  { intros i p v. unfold rq. rewrite tagged_map, list_lookup_fmap, tagged_lookup. intros ([q z] & Hz & E)%fmap_Some.
    apply fmap_Some in Hz as (z' & Hz & E'). injection E as -> ->. injection E' as -> ->. by exists z'. }
  destruct (Hrq j d y Hj) as (iy & Hiy & -> & ->). pose proof (lookup_lt_Some _ _ _ Hiy) as Hjl.
  pose proof (length_contents _ Hw). pose proof (count_range _ Hw). pose proof Hw as (Hs & _ & _). unfold entry_size in Hs.
  pose proof (find_prior_spec (length (entry_ (ROB c))) (instr_reg_will_produce r) (ROB c) j Hw ltac:(lia) ltac:(lia)) as Hf.
  destruct (find_prior _ _ _ _) as [q|].
  - destruct Hf as (i & x & Hi & -> & Hx & Hp & Hno). exists (Some i). split; [|done]. split; [done|]. split.
    + exists (pos_of (ROB c) (Z.of_nat i)), (view_of x). split; [|done].
      unfold rq. by rewrite tagged_map, list_lookup_fmap, tagged_lookup, Hx.
    + intros m p v Hm (z & Hz & -> & _)%Hrq. by apply (Hno m z).
  - exists None. split; [|done]. intros i p v Hi (z & Hz & -> & _)%Hrq. by apply (Hf i z).
Qed.

Lemma mark_source_ok d j srcs r c :
  wf (ROB c) -> marking d j srcs c ->
  holds true (mark_source d r c) (fun c' => static c' = static c /\ marking d j srcs c' /\
    (r <> 0 -> covered (rq c') d r) /\ (forall r', covered (rq c) d r' -> covered (rq c') d r')).
Proof.
  intros Hw (HS & Hm & y & Hj & Hy & Hsrc). unfold mark_source.
  assert (marking d j srcs c) as Hmark by (split_and!; try done; by exists y).
  destruct (Z.eqb_spec r 0) as [->|Hr]; [done|].
  destruct (find_prior_rq r c j d y Hw Hj) as (found & Hp & ->). pose proof (s_names _ _ _ _ HS) as Hn.
  destruct found as [i|]; cbn [fmap option_fmap option_map cbind holds].
  2: { split_and!; try done. intros _. by eapply covered_prior. }
  pose proof Hp as (Hij & (p & x & Hi & Hpx) & Hno). apply produces_spec in Hpx as [Hx Hdst].
  assert (p = pos_of (ROB c) (Z.of_nat i)) as <-.
  { unfold rq in Hi. rewrite tagged_map, list_lookup_fmap, tagged_lookup in Hi.
    destruct (contents (ROB c) !! i); [|done]. injection Hi as -> _. done. }
  destruct (rq_lookup_at c i p x Hw Hi) as (ip & -> & Hip). cbn [fmap option_fmap option_map cbind holds].
  assert (p <> d) as Hne by (intros ->; destruct (lookup_unique (rq c) i j d x y Hn Hi Hj); lia).
  assert (registers_instrs_depend_on_me ip = v_dependents x) as Hdeps by by rewrite <- Hip.
  rewrite Hdeps.
  assert (match list.last (v_dependents x) with Some e => it_eq (ROB c) e d | None => false end = bool_decide (d ∈ v_dependents x)) as ->.
  { case_bool_decide as Hd; [rewrite (Hm i p x Hi Hx Hd)|].
    - rewrite it_eq_spec, Z.eqb_refl; [done|done|..]; apply rq_range; try done; by eapply rq_name_of.
    - destruct (list.last (v_dependents x)) as [e|] eqn:El; [|done]. apply last_Some in El as [l' El].
      assert (e ∈ v_dependents x) as He by (rewrite El; apply elem_of_app; right; by left).
      destruct (s_edges _ _ _ _ HS i p x e Hi Hx He) as (m & z & _ & Hz).
      rewrite it_eq_spec; [|done|apply rq_range; [done|by eapply rq_name_of]|apply rq_range; [done|by eapply rq_name_of]].
      apply Z.eqb_neq. by intros ->. }
  case_bool_decide as Hd; cbn [fmap option_fmap option_map cbind holds].
  { split_and!; try done. intros _. eapply covered_prior; [done|done|exact Hp|].
    intros i' p' x' E Hi'. injection E as <-. rewrite Hi in Hi'. by injection Hi' as <- <-. }
  destruct (modify_view (fun i => i <| registers_instrs_depend_on_me ::= fun l => l ++ [d] |>)
    (fun v => v <| v_dependents ::= fun l => l ++ [d] |>) p c Hw (rq_name_of c i p x Hi)) as [E1 Eq1]; [done|done|].
  set (c1 := modify_rob (fun i => i <| registers_instrs_depend_on_me ::= fun l => l ++ [d] |>) p c) in *.
  pose proof (static_wf c c1 E1 Hw) as Hw1.
  destruct (modify_view (fun i => i <| num_reg_dependent ::= fun n => n + 1 |>) (fun v => v <| v_waits ::= fun n => n + 1 |>) d c1 Hw1)
    as [E2 Eq2]; [rewrite (static_names c c1 E1 Hw); by eapply rq_name_of|done|done|].
  set (c2 := modify_rob _ d c1) in *. rewrite Eq1 in Eq2. change (rq c2 = add_edge p d (rq c)) in Eq2.
  split; [congruence|]. rewrite Eq2. split; [|split].
  - unfold marking. rewrite Eq2. change (ready_to_execute c2) with (ready_to_execute c). split; [by eapply sched_edge|].
    split; [by apply marked_edge|]. exists (y <| v_waits ::= fun n => n + 1 |>). split; [|done].
    apply lookup_update. exists y. split; [|by rewrite decide_True]. apply lookup_update. exists y. by rewrite decide_False by congruence.
  - intros _. apply (covered_prior (add_edge p d (rq c)) r j d (y <| v_waits ::= fun n => n + 1 |>) (Some i)).
    + unfold add_edge. by rewrite !update_names.
    + apply lookup_update. exists y. split; [|by rewrite decide_True]. apply lookup_update. exists y. by rewrite decide_False by congruence.
    + by apply is_prior_edge.
    + intros i' p' x' E Hi'. injection E as <-. apply lookup_add_edge in Hi' as (x0 & Hx0 & _ & _ & _ & _ & _ & ->); [|done].
      rewrite Hi in Hx0. injection Hx0 as <- <-. rewrite decide_True by done. apply elem_of_app. right. by left.
  - intros r' Hr'. by apply covered_edge.
Qed.

Lemma mark_sources_ok d j srcs l c :
  wf (ROB c) -> marking d j srcs c ->
  holds true (mark_sources d l c) (fun c' => static c' = static c /\ marking d j srcs c' /\
    (forall r, r ∈ l -> r <> 0 -> covered (rq c') d r) /\ (forall r', covered (rq c) d r' -> covered (rq c') d r')).
Proof.
  revert c. induction l as [|r l IH]; intros c Hw Hm; simpl.
  - split_and!; try done. intros r H1. by apply elem_of_nil in H1.
  - eapply holds_then; [by eapply mark_source_ok|]. intros c1 (E1 & Hm1 & Hr & Hc1).
    eapply holds_mono; [apply IH; [by eapply static_wf|done]|]. intros c2 (E2 & Hm2 & Hl & Hc2).
    split_and!; [congruence|done| |].
    + intros r' [->|Hr']%elem_of_cons Hr0; [by apply Hc2, Hr|by apply Hl].
    + intros r' H1. by apply Hc2, Hc1.
Qed.

(** ** Scheduling *)

Lemma rq_length c : wf (ROB c) -> Z.of_nat (length (rq c)) <= sz_ (ROB c).
Proof.
  intros Hw. unfold rq. rewrite length_tagged, map_contents, length_fmap, length_contents by done.
  pose proof (count_range _ Hw). lia.
Qed.

Lemma push_ready_ok busy pos j y c :
  wf (ROB c) -> sched busy [] (rq c) (ready_to_execute c) -> rq c !! j = Some (pos, y) ->
  v_scheduled y = COMPLETED -> v_executed y = 0 -> v_waits y = 0 -> pos ∉ ready_to_execute c ->
  holds true (push_ready pos c) (fun c' => static c' = static c /\ rq c' = rq c /\
    ready_to_execute c' = ready_to_execute c ++ [pos] /\ sched busy [] (rq c') (ready_to_execute c')).
Proof.
  intros Hw HS Hj Hs He Hwt Hp. unfold push_ready. pose proof (ready_room _ _ _ _ j pos y HS Hj Hp). pose proof (rq_length c Hw).
  rewrite (proj2 (Z.ltb_lt _ _)) by lia. cbn [cassert cbind holds]. split_and!; try done.
  by apply (sched_push_ready busy (rq c) (ready_to_execute c) j pos y).
Qed.

Lemma not_ready busy owed c j p y :
  sched busy owed (rq c) (ready_to_execute c) -> rq c !! j = Some (p, y) -> v_scheduled y <> COMPLETED \/ v_waits y <> 0 ->
  p ∉ ready_to_execute c.
Proof.
  intros HS Hj Hy Hp. destruct (s_listed _ _ _ _ HS p Hp) as (m & z & Hz & H1 & _ & H2).
  destruct (lookup_unique (rq c) m j p z y (s_names _ _ _ _ HS) Hz Hj) as [_ ->]. tauto.
Qed.

Lemma do_scheduling_ok w pos j y c :
  wf (ROB c) -> scheduled_ok c -> rq c !! j = Some (pos, y) -> v_scheduled y = 0 ->
  holds true (do_scheduling k w pos c) (fun c' => static c' = static c /\ scheduled_ok c' /\
    (pos ∉ ready_to_execute c') /\ exists y', rq c' !! j = Some (pos, y') /\ v_executed y' = 0).
Proof.
  intros Hw HS Hj Hy. unfold do_scheduling. destruct (rq_lookup_at c j pos y Hw Hj) as (i & -> & Hi). cbn [cbind].
  assert (source_registers i = v_src y) as -> by by rewrite <- Hi.
  assert (v_waits y = 0) as Hwt by by eapply s_fresh.
  eapply holds_then; [apply (mark_sources_ok pos j (v_src y)); [done|]|].
  { split; [|split; [by eapply marked_unseen|by exists y]]. destruct HS; constructor; try done. intros; by eauto. }
  intros c1 (E1 & (HS1 & Hm1 & y1 & Hj1 & Hy1 & Hsrc1) & Hcov & _). pose proof (static_wf c c1 E1 Hw) as Hw1.
  assert (v_executed y1 = 0) as He1.
  { destruct (decide (v_executed y1 = 0)) as [|Hne]; [done|]. by destruct (s_started _ _ _ _ HS1 j pos y1 Hj1 Hne). }
  assert (forall f s, (forall i, view_of (f i) = view_of i <| v_scheduled := s |>) -> s <> 0 ->
    static (modify_rob f pos c1) = static c /\ scheduled_ok (modify_rob f pos c1) /\
    (pos ∉ ready_to_execute (modify_rob f pos c1)) /\
    exists y', rq (modify_rob f pos c1) !! j = Some (pos, y') /\ v_executed y' = 0) as Hset.
  { intros f s Hf Hs. destruct (modify_view f (fun v => v <| v_scheduled := s |>) pos c1 Hw1) as [E2 Eq2];
      [by eapply rq_name_of|done|done|]. split; [congruence|]. unfold scheduled_ok. rewrite Eq2.
    change (ready_to_execute (modify_rob f pos c1)) with (ready_to_execute c1). split; [|split].
    - eapply sched_scheduled; [done|done|done|done|]. rewrite Hsrc1. done.
    - eapply not_ready; [done|done|]. left. by rewrite Hy1.
    - exists (y1 <| v_scheduled := s |>). split; [|done]. apply lookup_update. exists y1. by rewrite decide_True. }
  destruct (is_memory i); [by apply (Hset _ INFLIGHT)|by apply (Hset _ COMPLETED)].
Qed.

Lemma schedule_step_ok w pos c :
  wf (ROB c) -> scheduled_ok c -> pos ∈ (rq c).*1 ->
  holds true (schedule_step k w pos c) (fun r => scheduled_ok r.2 /\ static r.2 = static c).
Proof.
  intros Hw HS Hpos. unfold schedule_step. destruct (rq_at c pos Hw Hpos) as (i & j & -> & Hj). cbn [cbind].
  assert (forall c', static c' = static c -> scheduled_ok c' ->
    holds true (let* i := at_ (ROB c') pos in Ret (negb (executed i =? 0), c')) (fun r => scheduled_ok r.2 /\ static r.2 = static c)) as Hend.
  { intros c' E' HS'. destruct (rq_at c' pos) as (i' & j' & -> & _); [by eapply static_wf|by rewrite (static_names c c')|]. done. }
  destruct (Z.eqb_spec (scheduled i) 0) as [Hi|Hi]; [|by apply Hend].
  apply holds_bind. eapply holds_then; [by apply (do_scheduling_ok w pos j (view_of i))|].
  intros c1 (E1 & HS1 & Hnr & y1 & Hj1 & He1). pose proof (static_wf c c1 E1 Hw) as Hw1.
  destruct (rq_lookup_at c1 j pos y1 Hw1 Hj1) as (i1 & -> & Hi1). cbn [cbind].
  destruct ((scheduled i1 =? COMPLETED) && (num_reg_dependent i1 =? 0)) eqn:Hc; [|by apply Hend].
  apply andb_true_iff in Hc as [Hc1%Z.eqb_eq Hc2%Z.eqb_eq].
  eapply holds_mono; [apply (push_ready_ok None pos j y1 c1); try done; rewrite <- Hi1; done|].
  intros c2 (E2 & _ & _ & HS2). apply Hend; [congruence|done].
Qed.

Lemma schedule_instruction_ok w c :
  wf (ROB c) -> scheduled_ok c ->
  holds true (schedule_instruction k w c) (fun c' => scheduled_ok c' /\ static c' = static c).
Proof. intros Hw HS. apply for_each_rob_holds; [|done|done]. intros c' pos. apply schedule_step_ok. Qed.

(** ** Executing *)

Lemma execute_loop_ok w n c :
  wf (ROB c) -> scheduled_ok c ->
  scheduled_ok (execute_loop k w n c) /\ static (execute_loop k w n c) = static c.
Proof.
  revert c. induction n as [|n IH]; intros c Hw HS; [done|]. cbn [execute_loop].
  destruct (ready_to_execute c) as [|pos l] eqn:Hr; [done|].
  unfold scheduled_ok in HS. rewrite Hr in HS.
  destruct (s_listed _ _ _ _ HS pos) as (j & x & Hj & _); [by left|].
  set (f := fun i : ooo_model_instr => i <| executed := INFLIGHT |>
    <| event_cycle := u64 (current_cycle c + (if warm k w then EXEC_LATENCY k else 0)) |>).
  destruct (modify_view f (fun v => v <| v_executed := INFLIGHT |>) pos c Hw) as [E Eq]; [by eapply rq_name_of|done|done|].
  set (c1 := do_execution k w pos c <| ready_to_execute := l |>).
  assert (static c1 = static c) as E1 by exact E.
  assert (rq c1 = update pos (fun v => v <| v_executed := INFLIGHT |>) (rq c)) as Eq1 by exact Eq.
  destruct (IH c1) as [HS' E']; [by eapply static_wf| |].
  { unfold scheduled_ok. rewrite Eq1. change (ready_to_execute c1) with l. by apply sched_execute. }
  split; [done|]. by rewrite E'.
Qed.

(** ** Completing *)

Lemma release_view v : program (release (fun z => if v_is_memory z then INFLIGHT else COMPLETED) v) = program v.
Proof. unfold release. simpl. by destruct (_ =? _). Qed.

(** The dependents of a completed instruction are released. *)
Lemma release_dependents_ok l c :
  wf (ROB c) -> sched None l (rq c) (ready_to_execute c) -> (forall d, d ∈ l -> d ∈ (rq c).*1) ->
  holds true (release_dependents l c) (fun c' => static c' = static c /\ scheduled_ok c' /\
    ready_to_execute c' = ready_to_execute c /\
    (forall j d y, rq c !! j = Some (d, y) -> exists y', rq c' !! j = Some (d, y') /\
       v_executed y' = v_executed y /\ v_dependents y' = v_dependents y)).
Proof.
  revert c. induction l as [|d l IH]; intros c Hw HS Hl.
  { split_and!; try done. intros j d y Hj. by exists y. }
  cbn [release_dependents]. destruct (rq_at c d Hw (Hl d ltac:(by left))) as (i & j & Hi & Hj).
  set (s := fun z => if v_is_memory z then INFLIGHT else COMPLETED).
  destruct (sched_release s l (rq c) (ready_to_execute c) j d (view_of i) HS Hj) as [HS1 Hge]; [intros z; unfold s; by destruct (v_is_memory z)|].
  simpl in Hge.
  set (f1 := fun i : ooo_model_instr => i <| num_reg_dependent ::= fun n => n - 1 |>).
  destruct (modify_view f1 (fun v => v <| v_waits ::= fun n => n - 1 |>) d c Hw) as [E1 Eq1]; [by eapply rq_name_of|done|done|].
  set (c1 := modify_rob f1 d c) in *. pose proof (static_wf c c1 E1 Hw) as Hw1.
  destruct (rq_lookup_at c1 j d (view_of (f1 i)) Hw1) as (i1 & -> & Hi1).
  { rewrite Eq1. apply lookup_update. exists (view_of i). by rewrite decide_True. }
  cbn [cbind]. assert (num_reg_dependent i1 = num_reg_dependent i - 1) as Hn by exact (f_equal v_waits Hi1).
  rewrite (proj2 (Z.leb_le 0 (num_reg_dependent i1))) by lia. cbn [cassert cbind].
  set (c2 := if num_reg_dependent i1 =? 0 then _ else c1).
  assert (static c2 = static c /\ rq c2 = update d (release s) (rq c) /\ ready_to_execute c2 = ready_to_execute c) as (E2 & Eq2 & Er).
  { unfold c2. rewrite Hn. destruct (Z.eqb_spec (num_reg_dependent i - 1) 0) as [Hz|Hz].
    - destruct (modify_view (fun i => i <| scheduled := if is_memory i then INFLIGHT else COMPLETED |>) (fun v => v <| v_scheduled := s v |>) d c1 Hw1)
        as [E2 Eq2]; [rewrite (static_names c c1 E1 Hw); by eapply rq_name_of|done|done|].
      split; [congruence|]. split; [|done]. rewrite Eq2, Eq1, update_compose.
      apply (update_ext_at d _ _ _ j _ (s_names _ _ _ _ HS) Hj). unfold release. simpl. by rewrite (proj2 (Z.eqb_eq _ _) Hz).
    - split; [done|]. split; [|done]. rewrite Eq1.
      apply (update_ext_at d _ _ _ j _ (s_names _ _ _ _ HS) Hj). unfold release. simpl. by rewrite (proj2 (Z.eqb_neq _ _) Hz). }
  eapply holds_mono; [apply IH|].
  - by eapply static_wf.
  - rewrite Eq2, Er. done.
  - intros e He. rewrite (static_names c c2 E2 Hw). apply Hl. by right.
  - intros c3 (E3 & HS3 & Er3 & Hk). split_and!; [congruence|done|congruence|].
    intros m q z Hm. destruct (Hk m q (if decide (q = d) then release s z else z)) as (z' & Hz' & He & Hd).
    { rewrite Eq2. apply lookup_update. by exists z. }
    exists z'. split; [done|]. rewrite He, Hd. destruct (decide (q = d)); [|done]. unfold release. cbv zeta. by destruct (v_waits (z <| v_waits ::= fun n => n - 1 |>) =? 0).
Qed.

(** Those that wait no longer become ready. *)
Lemma push_dependents_ok l c :
  wf (ROB c) -> scheduled_ok c -> NoDup l ->
  (forall d, d ∈ l -> (d ∉ ready_to_execute c) /\ exists j y, rq c !! j = Some (d, y) /\ v_executed y = 0) ->
  holds true (push_dependents l c) (fun c' => scheduled_ok c' /\ static c' = static c).
Proof.
  revert c. induction l as [|d l IH]; intros c Hw HS Hnd Hl; [done|]. cbn [push_dependents].
  apply list.NoDup_cons in Hnd as [Hd Hnd]. destruct (Hl d) as (Hnr & j & y & Hj & Hy); [by left|].
  destruct (rq_lookup_at c j d y Hw Hj) as (i & -> & Hi). cbn [cbind].
  destruct ((scheduled i =? COMPLETED) && (num_reg_dependent i =? 0)) eqn:Hc; cbn [cbind].
  - apply andb_true_iff in Hc as [Hc1%Z.eqb_eq Hc2%Z.eqb_eq].
    subst y. eapply holds_then; [by apply (push_ready_ok None d j (view_of i) c)|].
    intros c1 (E1 & Eq1 & Er1 & HS1). eapply holds_mono; [apply IH; [by eapply static_wf|done|done|]|].
    + intros e He. destruct (Hl e) as (Hne & He'); [by right|]. rewrite Er1, Eq1. split; [|done].
      rewrite elem_of_app, list_elem_of_singleton. intros [?| ->]; [done|]. by apply Hd.
    + intros c2 [HS2 E2]. split; [done|congruence].
  - apply IH; try done. intros e He. apply Hl. by right.
Qed.

Lemma do_complete_execution_ok pos j y c :
  wf (ROB c) -> scheduled_ok c -> rq c !! j = Some (pos, y) -> v_executed y = INFLIGHT ->
  holds true (do_complete_execution k pos c) (fun c' => static c' = static c /\ scheduled_ok c' /\
    (exists y', rq c' !! j = Some (pos, y') /\ v_dependents y' = v_dependents y) /\
    forall d, d ∈ v_dependents y -> (d ∉ ready_to_execute c') /\ exists m z, rq c' !! m = Some (d, z) /\ v_executed z = 0).
Proof.
  intros Hw HS Hj Hy. unfold do_complete_execution.
  destruct (modify_view (fun i => i <| executed := COMPLETED |>) (fun v => v <| v_executed := COMPLETED |>) pos c Hw)
    as [E1 Eq1]; [by eapply rq_name_of|done|done|].
  set (c1 := modify_rob _ pos c) in *. pose proof (static_wf c c1 E1 Hw) as Hw1.
  assert (rq c1 !! j = Some (pos, y <| v_executed := COMPLETED |>)) as Hj1.
  { rewrite Eq1. apply lookup_update. exists y. by rewrite decide_True. }
  destruct (rq_lookup_at c1 j _ _ Hw1 Hj1) as (i & -> & Hi). cbn [cbind].
  assert (registers_instrs_depend_on_me i = v_dependents y) as -> by exact (f_equal v_dependents Hi).
  set (c2 := (if is_memory i then _ else _) <| completed_executions ::= inc64 |>).
  assert (static c2 = static c1 /\ rq c2 = rq c1 /\ ready_to_execute c2 = ready_to_execute c) as (E2 & Eq2 & Er2)
    by (unfold c2; by destruct (is_memory i)).
  pose proof (sched_complete (rq c) (ready_to_execute c) j pos y HS Hj Hy) as HS2.
  assert (v_executed y <> COMPLETED) as Hyc by by rewrite Hy.
  assert (forall d, d ∈ v_dependents y -> (d ∉ ready_to_execute c) /\ d <> pos /\ exists m z, rq c !! m = Some (d, z) /\ v_executed z = 0) as Hdep.
  { intros d Hd. destruct (s_edges _ _ _ _ HS j pos y d Hj Hyc Hd) as (m & z & Hjm & Hz).
    pose proof (pending_elem d (rq c) j pos y Hj Hyc Hd). pose proof (s_count _ _ _ _ HS m d z Hz) as Hcnt.
    split; [eapply not_ready; [done|done|right; lia]|]. split.
    - intros ->. destruct (lookup_unique (rq c) m j pos z y (s_names _ _ _ _ HS) Hz Hj). lia.
    - exists m, z. split; [done|]. destruct (decide (v_executed z = 0)) as [|Hz0]; [done|].
      destruct (s_started _ _ _ _ HS m d z Hz Hz0). lia. }
  eapply holds_then; [apply (release_dependents_ok (v_dependents y) c2)|].
  - by apply (static_wf c1 c2 E2).
  - by rewrite Eq2, Eq1, Er2.
  - intros d Hd. destruct (Hdep d Hd) as (_ & _ & m & z & Hz & _). rewrite Eq2, Eq1, update_names. by eapply rq_name_of.
  - intros c3 (E3 & HS3 & Er3 & Hk).
    assert (static c3 = static c /\ scheduled_ok c3 /\
      (exists y', rq c3 !! j = Some (pos, y') /\ v_dependents y' = v_dependents y) /\
      forall d, d ∈ v_dependents y -> (d ∉ ready_to_execute c3) /\ exists m z, rq c3 !! m = Some (d, z) /\ v_executed z = 0) as Hend.
    { split; [congruence|]. split; [done|]. split.
      - destruct (Hk j pos _ (eq_trans (f_equal (fun l => l !! j) Eq2) Hj1)) as (y' & Hy' & _ & Hd'). by exists y'.
      - intros d Hd. destruct (Hdep d Hd) as (Hnr & Hne & m & z & Hz & Hze). rewrite Er3, Er2. split; [done|].
        destruct (Hk m d z) as (z' & Hz' & Hze' & _); [|exists m, z'; split; [done|congruence]].
        rewrite Eq2, Eq1. apply lookup_update. exists z. by rewrite decide_False. }
    by destruct (branch_mispredicted i).
Qed.

Lemma complete_step_ok pos c :
  wf (ROB c) -> scheduled_ok c -> pos ∈ (rq c).*1 ->
  holds true (complete_step k pos c) (fun r => scheduled_ok r.2 /\ static r.2 = static c).
Proof.
  intros Hw HS Hpos. unfold complete_step. destruct (rq_at c pos Hw Hpos) as (i & j & -> & Hj). cbn [cbind].
  destruct (_ && _) eqn:Hc; [|done]. apply andb_true_iff in Hc as [[He%Z.eqb_eq _]%andb_true_iff _].
  eapply holds_then; [by apply (do_complete_execution_ok pos j (view_of i))|].
  intros c1 (E1 & HS1 & (y1 & Hj1 & Hd1) & Hdep). pose proof (static_wf c c1 E1 Hw) as Hw1.
  destruct (rq_lookup_at c1 j pos y1 Hw1 Hj1) as (i1 & -> & Hi1). cbn [cbind].
  assert (registers_instrs_depend_on_me i1 = v_dependents (view_of i)) as -> by (rewrite <- Hd1; exact (f_equal v_dependents Hi1)).
  eapply holds_then; [apply (push_dependents_ok _ c1 Hw1 HS1); [exact (s_once _ _ _ _ HS j pos _ Hj)|done]|].
  intros c2 [HS2 E2]. split; [done|]. cbn [snd]. congruence.
Qed.

Lemma complete_inflight_ok c :
  wf (ROB c) -> scheduled_ok c ->
  holds true (complete_inflight_instruction k c) (fun c' => scheduled_ok c' /\ static c' = static c).
Proof.
  intros Hw HS. unfold complete_inflight_instruction. destruct (_ || _); [|done].
  apply for_each_rob_holds; [|done|done]. intros c' pos. apply complete_step_ok.
Qed.

(** ** Memory instructions *)

(** Equal frames have equal schedules. *)
Lemma frame_static c c' : frame_of c' = frame_of c ->
  static c' = static c /\ rq c' = rq c /\ ready_to_execute c' = ready_to_execute c.
Proof.
  intros E. split_and!; [|exact (f_equal (fun F => tagged (f_rob F)) E)|exact (f_equal f_ready E)].
  exact (f_equal (fun F => (mkFrame (mkCB 0 [] 0 0) (f_dispatch F) (f_decode F) (f_ifetch F) [] (f_retired F) (f_next F)
    (f_kernel F) (f_user F) (f_to_read F) (f_types F), map_cb program (f_rob F))) E).
Qed.

Lemma schedule_memory_step_ok pos c :
  wf (ROB c) -> scheduled_ok c -> pos ∈ (rq c).*1 ->
  holds false (schedule_memory_step k pos c) (fun r => scheduled_ok r.2 /\ static r.2 = static c).
Proof.
  intros Hw HS Hpos. unfold schedule_memory_step. destruct (rq_at c pos Hw Hpos) as (i & j & -> & Hj). cbn [cbind].
  apply (holds_then _ _ _ (fun c' => scheduled_ok c' /\ static c' = static c)).
  2: { intros c' Hc'. apply holds_any. by intros. }
  destruct (_ && _) eqn:Hc; [|done]. apply andb_true_iff in Hc as [[_ Hn%Z.eqb_eq]%andb_true_iff Hs%Z.eqb_eq].
  unfold do_memory_scheduling. pose proof (schedule_ops_keeps k pos c) as Hops. apply holds_bind.
  destruct (for_ops (try_load k pos) _ _) as [r1|] eqn:E1; [|done]. cbn [cbind holds] in Hops |- *.
  eapply holds_then; [exact Hops|]. intros [[ops added] c'] (E & Eq & Er)%frame_static. apply holds_any. intros _ _.
  cbn [snd] in E, Eq, Er. assert (scheduled_ok c') as HS' by (unfold scheduled_ok; by rewrite Eq, Er).
  destruct (_ =? _)%nat; [|done].
  destruct (modify_view (fun i => i <| scheduled := COMPLETED |> <| executed ::= fun e => if e =? 0 then INFLIGHT else e |>)
    (fun v => v <| v_scheduled := COMPLETED |> <| v_executed ::= fun e => if e =? 0 then INFLIGHT else e |>) pos c') as [E2 Eq2];
    [by eapply static_wf|by rewrite Eq|done|done|].
  split; [|by rewrite E2]. unfold scheduled_ok. rewrite Eq2. rewrite <- Eq in Hj. by eapply sched_memory.
Qed.

Lemma schedule_memory_ok c :
  wf (ROB c) -> scheduled_ok c ->
  holds false (schedule_memory_instruction k c) (fun c' => scheduled_ok c' /\ static c' = static c).
Proof. intros Hw HS. apply for_each_rob_holds; [|done|done]. intros c' pos. apply schedule_memory_step_ok. Qed.

End Stages.
End CpuSched.
