(* ===== verification/SimCpuSpec.v ===== *)
(** * ChampSim: the core keeps program order and register dependencies

    [reachable] are the states of a core that reads instructions from a trace and
    operates, while the memory behind its buses does whatever it does.  In such a
    state the core holds exactly the instructions it has read and not retired, in
    the order of the trace, and no instruction has started whose operands have not
    been produced. *)

From stdpp Require Import base list.
From S2P Require Import Prelude SimUtil SimQueue SimBranch SimBtb SimCpu SimRob SimSched SimCpuFrame SimCpuSched.
From S2P Require TraceReader.
Import Util Circ Rob Cpu Sched CpuFrame CpuSched.
Local Open Scope Z_scope.
Local Open Scope c_scope.

Module CpuSpec.
Local Abbreviation reader_instr := TraceReader.Reader.ooo_model_instr.

(** What [init_instruction] makes of the registers read and written by an instruction: it may take the
    stack pointer out of those written, and during warm-up it takes all of them out. *)
Definition folded (n : nat) (o : list Z * list Z) : list Z * list Z :=
  (o.1, ((fun x => if x =? TraceReader.Reader.REG_STACK_POINTER then 0 else x) <$> take n o.2) ++ drop n o.2).
Definition cleared (n : nat) (o : list Z * list Z) : list Z * list Z := (replicate TraceReader.Reader.NUM_INSTR_SOURCES 0, replicate n 0 ++ drop n o.2).
Definition operands (k : cpu_params) (r : reader_instr) : list (list Z * list Z) :=
  let o := (TraceReader.Reader.source_registers r, TraceReader.Reader.destination_registers r) in
  [o; folded (MAX_INSTR_DESTINATIONS k) o; cleared (MAX_INSTR_DESTINATIONS k) o].

(** The [n]-th instruction of the trace, with registers [o]. *)
Definition entered (n : nat) (r : reader_instr) (o : list Z * list Z) : prog :=
  (Z.of_nat n, TraceReader.Reader.ip r, TraceReader.Reader.source_memory r, TraceReader.Reader.is_kernel r, TraceReader.Reader.asid r, o).
Definition enters (k : cpu_params) (p : prog) (e : nat * reader_instr) : Prop := exists o, o ∈ operands k e.2 /\ p = entered e.1 e.2 o.
Definition kernel_count (l : list reader_instr) : Z := Z.of_nat (length (List.filter TraceReader.Reader.is_kernel l)).
Definition user_count (l : list reader_instr) : Z := Z.of_nat (length (List.filter (fun r => negb (TraceReader.Reader.is_kernel r)) l)).

(** The instructions that are not in the reorder buffer yet, oldest first. *)
Definition waiting (F : frame) : list view :=
  (view_of <$> Delay.items (f_dispatch F)) ++ (view_of <$> Delay.items (f_decode F)) ++ contents (f_ifetch F).

Record in_order (k : cpu_params) (fed : list reader_instr) (st : frame * circular_buffer prog) : Prop := mkOrder {
  i_rob : wf st.2;
  i_ifetch : wf (f_ifetch st.1);
  i_dispatch : Delay.dq_wf (f_dispatch st.1);
  i_decode : Delay.dq_wf (f_decode st.1);
  i_room : 0 <= f_to_read st.1 <= sz_ (f_ifetch st.1) - Z.of_nat (length (contents (f_ifetch st.1)));
  i_next : f_next st.1 = Z.of_nat (length fed);
  i_retired : 0 <= f_retired st.1 <= Z.of_nat (length fed);
  i_order : Forall2 (enters k) (contents st.2 ++ (program <$> waiting st.1)) (drop (Z.to_nat (f_retired st.1)) (imap pair fed));
  i_unseen : Forall unseen (waiting st.1);
  i_kernel : f_kernel st.1 = kernel_count (take (Z.to_nat (f_retired st.1)) fed);
  i_user : f_user st.1 = user_count (take (Z.to_nat (f_retired st.1)) fed);
  i_types : f_types st.1 = (8, 8)%nat;
}.

Lemma order_eq k l l' e : Forall2 (enters k) l e -> l' = l -> Forall2 (enters k) l' e.
Proof. by intros ? ->. Qed.

(** ** Buffers *)

Lemma map_push {T U} (f : T -> U) b b' x :
  wf b -> push_back x b = Ret b' ->
  wf b' /\ contents (map_cb f b') = contents (map_cb f b) ++ [f x] /\
  tagged (map_cb f b') = tagged (map_cb f b) ++ [(tail_ b, f x)] /\ (tail_ b ∉ (tagged (map_cb f b)).*1) /\ sz_ b' = sz_ b.
Proof.
  intros Hw E. destruct (tagged_push b b' x Hw E) as (Hw' & Ht & Hn & Hs & _). split_and!; try done.
  - by rewrite !map_contents, <- !tagged_values, Ht, !fmap_app.
  - by rewrite !tagged_map, Ht, fmap_app.
  - rewrite tagged_map, <- list_fmap_compose. intros Hin. apply Hn. revert Hin. by rewrite (list_fmap_ext _ fst).
Qed.

Lemma map_pop {T U} (f : T -> U) b b' :
  wf b -> pop_front b = Ret b' ->
  exists x, front b = Ret x /\ wf b' /\ contents (map_cb f b) = f x :: contents (map_cb f b') /\
  tagged (map_cb f b) = (head_ b, f x) :: tagged (map_cb f b') /\ sz_ b' = sz_ b.
Proof.
  intros Hw E. destruct (tagged_pop b b' Hw E) as (x & Hc & Hw' & Ht & Hs). exists x. split_and!; try done.
  - by eapply front_spec.
  - by rewrite !map_contents, Hc.
  - by rewrite !tagged_map, Ht.
Qed.

(** Taking the first element of a delay queue. *)
Lemma dq_pop {T} (q q' : Delay.delay_queue T) :
  Delay.dq_wf q -> Delay.has_ready q = true -> Delay.dq_pop_front q = Ret q' ->
  exists x, Delay.dq_front q = Ret x /\ Delay.dq_wf q' /\ Delay.items q = x :: Delay.items q'.
Proof.
  intros Hw Hr E. rewrite Delay.has_ready_spec in Hr by done. apply bool_decide_eq_true in Hr.
  pose proof Hw as (_ & _ & _ & _ & _ & _ & Hle). destruct (Delay.items q) as [|x l] eqn:Hi; [simpl in Hle; lia|].
  destruct (Delay.dq_pop_front_spec q x l Hw Hi Hr) as (q2 & E2 & Hw2 & Hi2 & _).
  assert (q2 = q') as -> by congruence. exists x. split; [by eapply Delay.dq_front_spec|]. split; [done|congruence].
Qed.
Lemma dq_push {T} (q q' : Delay.delay_queue T) x :
  Delay.dq_wf q -> Delay.dq_push_back x q = Ret q' \/ Delay.push_back_ready x q = Ret q' ->
  Delay.dq_wf q' /\ Delay.items q' = Delay.items q ++ [x].
Proof.
  intros Hw [E|E].
  - pose proof (Delay.dq_push_back_spec x q Hw) as Hs. case_bool_decide; [congruence|].
    destruct Hs as (q2 & E2 & ? & ? & _). assert (q2 = q') as -> by congruence. done.
  - pose proof (Delay.push_back_ready_spec x q Hw) as Hs. case_bool_decide; [congruence|].
    destruct Hs as (q2 & E2 & ? & ? & _). assert (q2 = q') as -> by congruence. done.
Qed.

Section Order.
Context `{Config} {S B M : Type} `{BranchPredictor S} `{TargetBuffer B} `{Memory M}.
Context (k : cpu_params) (uninit : Z).
Context (fed : list reader_instr) (Hfed : Z.of_nat (length fed) < 2 ^ 64).
Local Abbreviation core := (O3_CPU S B M).
Implicit Types c : core.

Definition good c : Prop := in_order k fed (static c) /\ scheduled_ok c.

Lemma good_rob c : good c -> wf (ROB c).
Proof. intros [Ho _]. pose proof (i_rob _ _ _ Ho) as Hw. simpl in Hw. by rewrite !map_wf in Hw. Qed.
Lemma good_ifetch c : good c -> wf (IFETCH_BUFFER c).
Proof. intros [Ho _]. pose proof (i_ifetch _ _ _ Ho) as Hw. simpl in Hw. by rewrite map_wf in Hw. Qed.

Lemma good_static c c' : good c -> scheduled_ok c' /\ static c' = static c -> good c'.
Proof. intros [Ho _] [HS E]. split; [by rewrite E|done]. Qed.
Lemma good_frame c c' : good c -> frame_of c' = frame_of c -> good c'.
Proof.
  intros Hg (E & Eq & Er)%frame_static. apply (good_static c); [done|]. split; [|done]. unfold scheduled_ok. rewrite Eq, Er. apply Hg.
Qed.

(** A stage keeps the invariant and retires nothing. *)
Definition stage c (m : cres core) : Prop := holds false m (fun c' => good c' /\ num_retired c' = num_retired c).

Lemma stage_trans c c' m : num_retired c' = num_retired c -> stage c' m -> stage c m.
Proof. intros E Hm. eapply holds_mono; [exact Hm|]. simpl. intros c2 [? ?]. split; [done|congruence]. Qed.
Lemma stage_then c m (f : core -> cres core) : stage c m -> (forall c', good c' -> stage c' (f c')) -> stage c (let* c := m in f c).
Proof. intros Hm Hf. eapply holds_then; [exact Hm|]. intros c' [Hg E]. eapply stage_trans; [exact E|]. by apply Hf. Qed.
Lemma keeps_stage c m : good c -> keeps c m -> stage c m.
Proof. intros Hg Hm. eapply holds_mono; [exact Hm|]. intros c' E. split; [by apply (good_frame c)|exact (f_equal f_retired E)]. Qed.
Lemma static_stage c t m : good c -> holds t m (fun c' => scheduled_ok c' /\ static c' = static c) -> stage c m.
Proof.
  intros Hg Hm. destruct m as [c'|]; [|done]. simpl in *. split; [by apply (good_static c)|].
  exact (f_equal (fun st => f_retired st.1) (proj2 Hm)).
Qed.

(** ** The front end *)

Lemma dispatch_loop_ok bw c : good c -> stage c (dispatch_loop bw c).
Proof.
  revert c. induction bw as [|bw IH]; intros c Hg; [done|]. cbn [dispatch_loop].
  destruct (Delay.has_ready (DISPATCH_BUFFER c)) eqn:Hr; [|done]. destruct (full (ROB c)); [done|]. cbn [negb orb].
  apply holds_any. intros i Hi. apply holds_any. intros rob Hrob. apply holds_any. intros q Hq. refine (IH _ _).
  pose proof Hg as [[? ? ? ? ? ? ? Hord Hun ? ? ?] HS]. simpl in *.
  destruct (dq_pop (DISPATCH_BUFFER c) q) as (i' & Hi' & Hwq & Hitems); try done. assert (i' = i) as -> by congruence.
  destruct (map_push view_of (ROB c) rob i (good_rob c Hg) Hrob) as (Hwr & Hc & Ht & Hn & Hs).
  unfold waiting in Hun, Hord. simpl in Hun, Hord. rewrite Hitems, fmap_cons in Hun, Hord.
  cbn [app] in Hun, Hord. apply list.Forall_cons in Hun as [Hi0 Hun].
  split; [constructor; simpl; try done|].
  - by rewrite !map_wf.
  - eapply order_eq; [exact Hord|]. simpl. rewrite !(map_contents program), Hc, fmap_app, <- app_assoc. done.
  - unfold scheduled_ok, rq. simpl. rewrite Ht. by apply sched_push.
Qed.

Lemma decode_loop_ok w bw c : good c -> stage c (decode_loop k w bw c).
Proof.
  revert c. induction bw as [|bw IH]; intros c Hg; [done|]. cbn [decode_loop].
  destruct (Delay.has_ready (DECODE_BUFFER c)) eqn:Hr; [|done]. destruct (Delay.dq_full (DISPATCH_BUFFER c)); [done|]. cbn [negb orb].
  apply holds_any. intros i Hi. eapply holds_then; [apply do_dib_update_keeps|]. intros c1 E1.
  pose proof (good_frame c c1 Hg E1) as Hg1. pose proof (f_equal f_decode E1) as Ed. simpl in Ed.
  set (at_decode := branch_mispredicted i && _). cbv zeta.
  set (i' := if at_decode then i <| branch_mispredicted := false |> else i).
  assert (view_of i' = view_of i) as Hv by (unfold i'; by destruct at_decode).
  set (c2 := if at_decode then c1 <| fetch_resume_cycle := u64 (current_cycle c1 + BRANCH_MISPREDICT_PENALTY k) |> else c1).
  assert (frame_of c2 = frame_of c1) as E2 by (unfold c2; by destruct at_decode).
  pose proof (good_frame c1 c2 Hg1 E2) as Hg2. pose proof (f_equal f_decode E2) as Ed2. simpl in Ed2.
  assert (num_retired c2 = num_retired c) as Er by (transitivity (num_retired c1); [exact (f_equal f_retired E2)|exact (f_equal f_retired E1)]).
  apply holds_any. intros d Hd. apply holds_any. intros q Hq. eapply stage_trans; [exact Er|]. refine (IH _ _).
  pose proof Hg2 as [[? ? Hwd Hwq ? ? ? Hord Hun ? ? ?] HS]. simpl in *.
  destruct (dq_pop (DECODE_BUFFER c2) q) as (i2 & Hi2 & Hwq' & Hitems); try done; [by rewrite Ed2, Ed|].
  assert (i2 = i) as -> by (rewrite Ed2, Ed in Hi2; congruence).
  destruct (dq_push (DISPATCH_BUFFER c2) d i') as [Hwd' Hid]; [done|destruct (warm k w); auto|].
  unfold waiting in Hun, Hord. simpl in Hun, Hord. rewrite Hitems, fmap_cons in Hun, Hord.
  assert (forall F, f_dispatch F = d -> f_decode F = q -> f_ifetch F = map_cb view_of (IFETCH_BUFFER c2) ->
    waiting F = (view_of <$> Delay.items (DISPATCH_BUFFER c2)) ++ (view_of i :: (view_of <$> Delay.items q)) ++
      contents (map_cb view_of (IFETCH_BUFFER c2))) as Hwait.
  { intros F E1' E2' E3'. unfold waiting. rewrite E1', E2', E3', Hid, fmap_app, <- app_assoc. simpl. by rewrite Hv. }
  split; [constructor; simpl; try done|].
  - by rewrite Hwait.
  - by rewrite Hwait.
  - exact HS.
Qed.

Lemma promote_loop_ok w bw c : good c -> stage c (promote_loop k w bw c).
Proof.
  revert c. induction bw as [|bw IH]; intros c Hg; [done|]. cbn [promote_loop].
  destruct (empty (IFETCH_BUFFER c) || _); [done|]. apply holds_any. intros i Hi. destruct (_ && _); [|done].
  apply holds_any. intros d Hd. apply holds_any. intros b Hb. refine (IH _ _).
  pose proof Hg as [[? ? Hwd Hwq Hroom ? ? Hord Hun ? ? ?] HS]. simpl in *.
  destruct (map_pop view_of (IFETCH_BUFFER c) b (good_ifetch c Hg) Hb) as (i' & Hi' & Hwb & Hc & _ & Hs).
  assert (i' = i) as -> by congruence.
  destruct (dq_push (DECODE_BUFFER c) d i) as [Hwd' Hid]; [done|destruct (negb _ || _); auto|].
  assert (forall F, f_dispatch F = DISPATCH_BUFFER c -> f_decode F = d -> f_ifetch F = map_cb view_of b ->
    waiting F = waiting (static c).1) as Hwait.
  { intros F E1 E2 E3. unfold waiting. simpl. rewrite E1, E2, E3, Hid, fmap_app, Hc, <- app_assoc. done. }
  split; [constructor; simpl; try done|].
  - by rewrite map_wf.
  - rewrite Hc in Hroom. simpl in Hroom. rewrite Hs. lia.
  - by rewrite Hwait.
  - by rewrite Hwait.
  - exact HS.
Qed.

(** ** Retiring *)

Lemma count_take (p : reader_instr -> bool) n r :
  fed !! n = Some r -> Z.of_nat (length (List.filter p (take (Datatypes.S n) fed))) =
    Z.of_nat (length (List.filter p (take n fed))) + b2z (p r) /\
  0 <= Z.of_nat (length (List.filter p (take n fed))) < 2 ^ 64 - 1.
Proof.
  intros Hn. rewrite (take_S_r fed n r Hn), List.filter_app, length_app, Nat2Z.inj_add. split; [simpl; by destruct (p r)|].
  pose proof (List.filter_length_le p (take n fed)) as Hle. rewrite length_take in Hle. apply lookup_lt_Some in Hn. lia.
Qed.

Lemma retired_head c x :
  good c -> front (ROB c) = Ret x -> empty (ROB c) = false -> exists r, fed !! Z.to_nat (num_retired c) = Some r /\
  enters k (program (view_of x)) (Z.to_nat (num_retired c), r).
Proof.
  intros Hg Hx He. pose proof (good_rob c Hg) as Hw. pose proof Hg as [[? ? ? ? ? ? ? Hord ? ? ? ?] _]. simpl in *.
  rewrite empty_spec in He by done. apply bool_decide_eq_false in He.
  destruct (contents (ROB c)) as [|x' l] eqn:Hc; [done|]. assert (x' = x) as -> by (rewrite (front_spec _ x' l Hw Hc) in Hx; congruence).
  rewrite !map_contents, Hc in Hord. apply Forall2_cons_inv_l in Hord as (e & es & Henters & _ & Hord).
  apply (f_equal head) in Hord. rewrite head_lookup, lookup_drop, Nat.add_0_r, list_lookup_imap in Hord.
  destruct (fed !! _) as [r|]; [|done]. exists r. split; [done|]. by injection Hord as <-.
Qed.

Lemma count_retired_eq x c : exists kd ud, count_retired x c =
  c <| kernel_insn := if is_kernel x then inc64 (kernel_insn c) else kernel_insn c |>
    <| user_insn := if is_kernel x then user_insn c else inc64 (user_insn c) |> <| kernel_data := kd |> <| user_data := ud |>.
Proof.
  exists (if is_kernel x && is_memory x then inc64 (kernel_data c) else kernel_data c),
    (if negb (is_kernel x) && is_memory x then inc64 (user_data c) else user_data c).
  unfold count_retired. destruct c, (is_kernel x), (is_memory x); reflexivity.
Qed.

Lemma retire_pop c x rob :
  good c -> front (ROB c) = Ret x -> empty (ROB c) = false -> executed x = COMPLETED -> pop_front (ROB c) = Ret rob ->
  good (count_retired x c <| ROB := rob |> <| completed_executions ::= fun n => u64 (n - 1) |> <| num_retired ::= inc64 |>).
Proof.
  intros Hg Hx He Hex Hpop. destruct (retired_head c x Hg Hx He) as (r & Hr & Hpr). pose proof (good_rob c Hg) as Hw.
  pose proof Hg as [[? ? ? ? ? ? Hret Hord Hun Hk Hu ?] HS]. simpl in *.
  destruct (map_pop view_of (ROB c) rob Hw Hpop) as (x' & Hx' & Hwr & Hc & Ht & Hs). assert (x' = x) as -> by congruence.
  set (n := Z.to_nat (num_retired c)) in *. assert (num_retired c = Z.of_nat n) as Hn by lia.
  pose proof (lookup_lt_Some _ _ _ Hr) as Hlt.
  assert (inc64 (num_retired c) = Z.of_nat (Datatypes.S n)) as Hn' by (unfold inc64, u64; rewrite Z.mod_small; lia).
  assert (is_kernel x = TraceReader.Reader.is_kernel r) as Hkr by (destruct Hpr as (o & _ & Ho); injection Ho; auto).
  destruct (count_take TraceReader.Reader.is_kernel n r Hr) as [Hck Hrk].
  destruct (count_take (fun r => negb (TraceReader.Reader.is_kernel r)) n r Hr) as [Hcu Hru].
  assert (forall z, 0 <= z < 2 ^ 64 - 1 -> inc64 z = z + 1) as Hinc by (intros z Hz; unfold inc64, u64; rewrite Z.mod_small; lia).
  assert (drop n (imap pair fed) = (n, r) :: drop (Datatypes.S n) (imap pair fed)) as Hdrop by (apply drop_S; by rewrite list_lookup_imap, Hr).
  assert (forall W, Forall2 (enters k) (contents (map_cb program (map_cb view_of (ROB c))) ++ W) (drop n (imap pair fed)) ->
    Forall2 (enters k) (contents (map_cb program (map_cb view_of rob)) ++ W) (drop (Datatypes.S n) (imap pair fed))) as Htl.
  { intros W. rewrite !(map_contents program), Hc, Hdrop. rewrite fmap_cons. by intros [_ ?]%Forall2_cons_1. }
  destruct (count_retired_eq x c) as (kd & ud & ->). split; [constructor; simpl; rewrite ?Hn', ?Nat2Z.id, ?map_wf; try done|].
  - by apply good_ifetch.
  - lia.
  - by apply Htl.
  - unfold kernel_count in *. rewrite Hck, <- Hkr. destruct (is_kernel x); simpl; [rewrite Hinc; lia|lia].
  - unfold user_count in *. rewrite Hcu, <- Hkr. destruct (is_kernel x); simpl; [lia|rewrite Hinc; lia].
  - unfold scheduled_ok, rq in HS |- *. simpl. rewrite Ht in HS. by eapply sched_pop.
Qed.

Lemma retire_loop_ok bw c : 
  good c -> holds false (retire_loop k uninit bw c)
    (fun r => good r.2 /\ num_retired c <= num_retired r.2 <= num_retired c + Z.of_nat bw).
Proof.
  revert c. induction bw as [|bw IH]; intros c Hg; cbn [retire_loop]; [split; [done|simpl; lia]|].
  assert (good c /\ num_retired c <= num_retired c <= num_retired c + Z.of_nat (Datatypes.S bw)) as Hstop by (split; [done|lia]).
  destruct (empty (ROB c)) eqn:He; [done|]. apply holds_any. intros i Hi. destruct (Z.eqb_spec (executed i) COMPLETED) as [Hex|]; [|done].
  eapply holds_then; [apply retire_stores_keeps|]. intros [b c1] E1. cbn [fst snd] in *. pose proof (good_frame c c1 Hg E1) as Hg1.
  pose proof (f_equal f_retired E1) as Er. simpl in Er.
  destruct b; [|cbn [negb holds snd]; rewrite Er; split; [done|lia]]. cbn [negb]. apply holds_any. intros rob Hrob.
  destruct (retired_head c i Hg Hi He) as (r & Hlt%lookup_lt_Some & _). pose proof (i_retired _ _ _ (proj1 Hg)) as Hrr. simpl in Hrr.
  assert (inc64 (num_retired (count_retired i c1)) = num_retired c + 1) as Ei.
  { destruct (count_retired_eq i c1) as (kd & ud & ->). simpl. rewrite Er. unfold inc64, u64. rewrite Z.mod_small; lia. }
  eapply holds_mono; [apply IH|simpl; rewrite Ei; intros r2 [? ?]; split; [done|lia]].
  destruct (map_eq_geometry view_of (ROB c) (ROB c1) (f_equal f_rob E1)) as (Hs & Hh & Ht & Hl).
  assert (exists i1, front (ROB c1) = Ret i1 /\ view_of i1 = view_of i) as (i1 & Hi1 & Hv).
  { unfold front in *. rewrite Hh. pose proof (f_equal (fun b => at_ b (head_ (ROB c))) (f_equal f_rob E1)) as Ea. simpl in Ea.
    rewrite !map_at, Hi in Ea. destruct (at_ (ROB c1) _) as [i1|]; [|done]. cbn [cbind] in Ea. exists i1. split; [done|congruence]. }
  assert (count_retired i c1 = count_retired i1 c1) as Ecr.
  { unfold count_retired. pose proof (f_equal v_kernel Hv) as E. pose proof (f_equal v_is_memory Hv) as E'. simpl in E, E'. by rewrite E, E'. }
  rewrite Ecr in *. eapply retire_pop; [done|done| | |].
  - unfold empty, occupancy, it_diff, begin_, end_, entry_size in *. by rewrite Hh, Ht, Hl.
  - rewrite <- Hex. exact (f_equal v_executed Hv).
  - revert Hrob. unfold count_retired. by destruct (is_kernel i1), (is_memory i1).
Qed.

(** ** A cycle *)

Lemma retire_rob_ok c : good c -> holds false (retire_rob k uninit c)
  (fun c' => good c' /\ num_retired c <= num_retired c' <= num_retired c + Z.of_nat (RETIRE_WIDTH k)).
Proof.
  intros Hg. unfold retire_rob. eapply holds_then; [by apply retire_loop_ok|]. intros [b c'] Hg'.
  destruct (_ || _); [done|]. apply holds_any. by intros.
Qed.
Lemma dispatch_ok c : good c -> stage c (dispatch_instruction k c).
Proof.
  intros Hg. unfold dispatch_instruction. destruct (Delay.dq_empty _); [done|].
  apply stage_then; [by apply dispatch_loop_ok|]. intros c' Hg'. destruct (Delay.dq_empty _); [done|].
  apply keeps_stage; [exact Hg'|apply check_deadlock_keeps].
Qed.
Lemma decode_ok w c : good c -> stage c (decode_instruction k w c).
Proof.
  intros Hg. unfold decode_instruction. apply stage_then; [by apply decode_loop_ok|]. intros c' Hg'. destruct (Delay.dq_empty _); [done|].
  apply keeps_stage; [exact Hg'|apply check_deadlock_keeps].
Qed.
Lemma promote_ok w c : good c -> stage c (promote_to_decode k w c).
Proof.
  intros Hg. unfold promote_to_decode. apply stage_then; [by apply promote_loop_ok|]. intros c' Hg'. destruct (empty _); [done|].
  apply keeps_stage; [exact Hg'|apply check_deadlock_keeps].
Qed.

Lemma read_budget_ok c :
  good c -> good (c <| instrs_to_read_this_cycle := Z.min (Z.of_nat (FETCH_WIDTH k)) (sz_ (IFETCH_BUFFER c) - occupancy (IFETCH_BUFFER c)) |>).
Proof.
  intros Hg. pose proof (good_ifetch c Hg) as Hw. destruct Hg as [[? ? ? ? Hroom ? ? ? ? ? ? ?] HS]. split; [|exact HS].
  constructor; try done. simpl in *. rewrite occupancy_count, map_contents, length_fmap, length_contents by done.
  pose proof (count_range _ Hw). lia.
Qed.

Lemma queues_operate_ok c : good c -> good (c <| DISPATCH_BUFFER ::= Delay.operate |> <| DECODE_BUFFER ::= Delay.operate |>).
Proof.
  intros [[? ? Hd He ? ? ? Hord Hun ? ? ?] HS]. split; [|exact HS]. simpl in *.
  destruct (Delay.operate_wf _ Hd) as (Hd' & Hdi & _). destruct (Delay.operate_wf _ He) as (He' & Hei & _).
  unfold waiting in Hord, Hun. simpl in Hord, Hun. rewrite <- Hdi, <- Hei in Hord, Hun. by constructor.
Qed.

(** A cycle keeps the invariant and retires at most [RETIRE_WIDTH] instructions. *)
Definition cycled c0 c : Prop := good c /\ num_retired c0 <= num_retired c <= num_retired c0 + Z.of_nat (RETIRE_WIDTH k).

Lemma cycled_then c0 c m (f : core -> cres core) :
  cycled c0 c -> stage c m -> (forall c', cycled c0 c' -> holds false (f c') (cycled c0)) -> holds false (let* c := m in f c) (cycled c0).
Proof. intros [_ Hr] Hm Hf. eapply holds_then; [exact Hm|]. intros c' [Hg E]. apply Hf. split; [done|]. by rewrite E. Qed.

Lemma core_operate_ok w c : good c -> holds false (operate k w uninit c) (cycled c).
Proof.
  intros Hg. unfold operate. pose proof (read_budget_ok c Hg) as Hg0.
  eapply holds_then; [apply (retire_rob_ok _ Hg0)|]. intros c1 H1'. pose proof H1' as [Hg1 _].
  eapply (cycled_then c); [exact H1'|apply (static_stage c1 true _ Hg1), complete_inflight_ok; [by apply good_rob|apply Hg1]|].
  intros c2 [Hg2 Hr2]. destruct (execute_loop_ok k w (EXEC_WIDTH k) c2) as [HS3 E3]; [by apply good_rob|apply Hg2|].
  change (execute_loop k w (EXEC_WIDTH k) c2) with (execute_instruction k w c2) in HS3, E3.
  assert (good (execute_instruction k w c2)) as Hg3 by by apply (good_static c2).
  pose proof (f_equal (fun st => f_retired st.1) E3) as Er3. simpl in Er3.
  eapply (cycled_then c); [split; [exact Hg3|by rewrite Er3]|apply (static_stage _ true _ Hg3), schedule_instruction_ok; [by apply good_rob|apply Hg3]|].
  intros c4 H4. eapply (cycled_then c); [exact H4|apply (keeps_stage _ _ (proj1 H4)), handle_memory_return_keeps|].
  intros c5 H5. eapply (cycled_then c); [exact H5|apply (keeps_stage _ _ (proj1 H5)), operate_lsq_keeps|].
  intros c6 H6. pose proof H6 as [Hg6 _].
  eapply (cycled_then c); [exact H6|apply (static_stage _ false _ Hg6), schedule_memory_ok; [by apply good_rob|apply Hg6]|].
  intros c7 H7. eapply (cycled_then c); [exact H7|apply dispatch_ok, H7|].
  intros c8 H8. eapply (cycled_then c); [exact H8|apply decode_ok, H8|].
  intros c9 H9. eapply (cycled_then c); [exact H9|apply promote_ok, H9|].
  intros c10 H10. eapply (cycled_then c); [exact H10|apply (keeps_stage _ _ (proj1 H10)), fetch_instruction_keeps|].
  intros c11 H11. eapply (cycled_then c); [exact H11|apply (keeps_stage _ _ (proj1 H11)), translate_fetch_keeps|].
  intros c12 H12. eapply (cycled_then c); [exact H12|apply (keeps_stage _ _ (proj1 H12)), check_dib_keeps|].
  intros c13 [Hg13 Hr13]. split; [by apply queues_operate_ok|exact Hr13].
Qed.

End Order.

(** ** Reading an instruction *)
Section Entry.
Context `{Config} {S B M : Type} `{BranchPredictor S} `{TargetBuffer B} `{Memory M}.
Context (k : cpu_params) (w : Z -> bool) (uninit : Z).
Local Abbreviation core := (O3_CPU S B M).
Implicit Types c : core.

(** What entering an instruction does not change of it. *)
Definition kept (i : ooo_model_instr) : prog * (Z * Z * Z * list Z) :=
  (program (view_of i), (executed i, scheduled i, num_reg_dependent i, registers_instrs_depend_on_me i)).

Lemma kept_unseen i i' : kept i' = kept i -> unseen (view_of i) -> unseen (view_of i').
Proof.
  intros E. apply (f_equal snd) in E. injection E as E1 E2 E3 E4. unfold unseen. simpl. by rewrite E1, E2, E3, E4.
Qed.

Lemma kept_classify i : kept (classify k i) = kept i.
Proof. unfold classify. cbv zeta. repeat (case_match; [reflexivity|]). reflexivity. Qed.

(** ... but for its registers. *)
Definition with_registers (o : list Z * list Z) (e : prog * (Z * Z * Z * list Z)) : prog * (Z * Z * Z * list Z) := ((e.1.1, o), e.2).

Lemma kept_fold i : exists o, o ∈ [(kept i).1.2; folded (MAX_INSTR_DESTINATIONS k) (kept i).1.2] /\ kept (fold_stack_pointer k i) = with_registers o (kept i).
Proof. unfold fold_stack_pointer. destruct (_ && _); eexists; (split; [|reflexivity]); repeat constructor. Qed.

Lemma cleared_folded n o : cleared n (folded n o) = cleared n o.
Proof. unfold cleared, folded. simpl. do 2 f_equal. rewrite drop_app, length_fmap, length_take, drop_ge by (rewrite length_fmap, length_take; lia).
  destruct (decide (n <= length o.2)%nat); [by rewrite Nat.min_l, Nat.sub_diag by lia|]. by rewrite (drop_ge o.2 n), drop_nil by lia.
Qed.

Lemma folded_operands r o :
  let o0 := (TraceReader.Reader.source_registers r, TraceReader.Reader.destination_registers r) in
  o ∈ [o0; folded (MAX_INSTR_DESTINATIONS k) o0] -> o ∈ operands k r /\ cleared (MAX_INSTR_DESTINATIONS k) o ∈ operands k r.
Proof.
  intros o0 [->| ->%list_elem_of_singleton]%elem_of_cons; [split; repeat constructor|]. rewrite cleared_folded. split; repeat constructor.
Qed.

(** Room for the stores of an instruction in the store array. *)
Definition sta_room (ROB_size : Z) (sta : list Z) (n : nat) : Prop :=
  Z.of_nat (length sta + n) <= ROB_size * Z.of_nat TraceReader.Reader.NUM_INSTR_DESTINATIONS_SPARC.

Lemma count_destinations_ok t size id regs mems i sta :
  (t = true -> sta_room size sta (length mems)) ->
  holds t (count_destinations size id regs mems i sta) (fun r => kept r.1 = kept i /\ branch_type r.1 = branch_type i).
Proof.
  revert regs i sta. induction mems as [|m mems IH]; intros [|r regs] i sta Ht; [done..|]. cbn [count_destinations].
  set (i1 := if r =? 0 then i else _). assert (kept i1 = kept i /\ branch_type i1 = branch_type i) as [Hk Hb] by (unfold i1; by destruct (r =? 0)).
  destruct (m =? 0).
  - eapply holds_mono; [apply IH|]; [|intros a [-> ->]; done].
    intros Ht'. specialize (Ht Ht'). unfold sta_room in *. cbn [length] in Ht. lia.
  - assert (t = true -> (Z.of_nat (length sta) <? size * Z.of_nat TraceReader.Reader.NUM_INSTR_DESTINATIONS_SPARC) = true) as Hlt.
    { intros Ht'. specialize (Ht Ht'). unfold sta_room in Ht. apply Z.ltb_lt. cbn [length] in Ht. lia. }
    destruct (Z.of_nat (length sta) <? _) eqn:Hc; [|destruct t; [by specialize (Hlt eq_refl)|done]]. cbn [cassert cbind].
    eapply holds_mono; [apply IH|].
    + intros Ht'. specialize (Ht Ht'). unfold sta_room in *. rewrite length_app. cbn [length] in *. lia.
    + intros a [-> ->]. done.
Qed.

Lemma count_type_ok t ty l : (t = true -> 0 <= ty < 8 /\ length l = 8%nat) -> holds t (count_type ty l) (fun l' => length l' = length l).
Proof.
  intros Ht. unfold count_type. destruct (l !! Z.to_nat ty) as [n|] eqn:Hn; simpl; [by rewrite length_insert|].
  destruct t; [|done]. apply lookup_ge_None in Hn. destruct (Ht eq_refl). lia.
Qed.

Lemma classify_type i : 0 <= branch_type i < 8 -> 0 <= branch_type (classify k i) < 8.
Proof. intros Hi. unfold classify. cbv zeta. repeat (case_match; [split; [by intros ?|reflexivity]|]). done. Qed.

Definition types_ok c : Prop := (length (total_branch_types c), length (branch_type_misses c)) = (8, 8)%nat.

Lemma predict_ok t i c :
  (t = true -> 0 <= branch_type i < 8) -> types_ok c ->
  holds t (predict k w i c) (fun ic => kept ic.1 = kept i /\
    exists n, (n = instrs_to_read_this_cycle c \/ n = 0) /\ frame_of ic.2 = frame_of (c <| instrs_to_read_this_cycle := n |>)).
Proof.
  intros Hi Ht. unfold predict. destruct (btb_prediction _ _ _) as [[target always] b]. destruct (predict_branch _ _ _ _ _) as [p s].
  cbv zeta. injection Ht as Ht1 Ht2.
  apply (holds_then _ _ _ (fun ic => kept ic.1 = kept i /\
    exists n, (n = instrs_to_read_this_cycle c \/ n = 0) /\ frame_of ic.2 = frame_of (c <| instrs_to_read_this_cycle := n |>))).
  2: { by intros [i' c']. }
  destruct (Bool.eqb _ _).
  - split; [done|]. destruct (branch_taken i); [exists 0|exists (instrs_to_read_this_cycle c)]; split; auto; by destruct c.
  - eapply holds_then; [apply count_type_ok; intros Ht'; split; [by apply Hi|exact Ht2]|].
    intros l Hl. cbn [branch_type_misses] in Hl. destruct (warm k w); (split; [done|]).
    + exists 0. split; [by right|]. unfold frame_of. simpl. by rewrite Hl.
    + exists (instrs_to_read_this_cycle c). split; [by left|]. destruct c. unfold frame_of. simpl in *. by rewrite Hl.
Qed.

Lemma fold_type i : branch_type (fold_stack_pointer k i) = branch_type i.
Proof. unfold fold_stack_pointer. by destruct (_ && _). Qed.

(** The instruction joins the fetch buffer. *)
Lemma enter_ok t fed r c0 c i n :
  Z.of_nat (length (fed ++ [r])) < 2 ^ 64 -> good k fed c0 -> 0 < instrs_to_read_this_cycle c0 ->
  0 <= n <= instrs_to_read_this_cycle c0 - 1 -> frame_of c = frame_of (c0 <| instrs_to_read_this_cycle := n |>) ->
  enters k (program (view_of i)) (length fed, r) -> unseen (view_of i) ->
  holds t (let* b := push_back i (IFETCH_BUFFER c) in Ret (c <| IFETCH_BUFFER := b |> <| instr_unique_id ::= inc64 |>))
    (fun c' => good k (fed ++ [r]) c' /\ instrs_to_read_this_cycle c' < instrs_to_read_this_cycle c0 /\ num_retired c' = num_retired c0).
Proof.
  intros Hlen Hg0 Hpos Hn E Hprog Hun. rewrite length_app in Hlen. simpl in Hlen. pose proof Hg0 as [Ho0 _].
  assert (good k fed (c0 <| instrs_to_read_this_cycle := n |>)) as Hg1.
  { destruct Hg0 as [[? ? ? ? Hroom ? ? ? ? ? ? ?] HS]. split; [|exact HS]. constructor; try done. simpl in *. lia. }
  pose proof (good_frame k fed _ c Hg1 E) as Hg. pose proof (good_ifetch k fed c Hg) as Hw.
  pose proof Hg as [[? ? Hwd Hwq Hroom Hnext Hret Hord Hunw Hk Hu Hty] HS]. simpl in *.
  pose proof (i_room _ _ _ Ho0) as Hroom0. simpl in Hroom0. pose proof (f_equal f_ifetch E) as Eif. simpl in Eif.
  assert (sz_ (IFETCH_BUFFER c) = sz_ (IFETCH_BUFFER c0)) as Hsz by exact (f_equal sz_ Eif).
  rewrite <- Eif in Hroom0. rewrite map_contents, length_fmap in Hroom0, Hroom.
  pose proof (push_back_spec (IFETCH_BUFFER c) i Hw) as Hp. rewrite bool_decide_false in Hp by lia.
  destruct Hp as (b & Hb & Hwb & Hcb & Hsb & _). rewrite Hb. cbn [cbind holds].
  pose proof (f_equal f_to_read E) as Etr. simpl in Etr.
  assert (forall F, f_dispatch F = DISPATCH_BUFFER c -> f_decode F = DECODE_BUFFER c -> f_ifetch F = map_cb view_of b ->
    waiting F = waiting (static c).1 ++ [view_of i]) as Hwait.
  { intros F E1 E2 E3. unfold waiting. rewrite E1, E2, E3, map_contents, Hcb, fmap_app. simpl. by rewrite map_contents, <- !app_assoc. }
  split; [|split; [simpl; lia|exact (f_equal f_retired E)]]. split; [|exact HS]. constructor; simpl; try done.
  - by apply map_wf.
  - rewrite map_contents, length_fmap, Hcb, length_app. simpl. rewrite Hsb, Hsz, Etr. lia.
  - rewrite Hnext, length_app. unfold inc64, u64. simpl. rewrite Z.mod_small; lia.
  - rewrite length_app. lia.
  - rewrite Hwait, fmap_app, app_assoc by done. unfold static. cbn [fst]. rewrite imap_app. simpl. rewrite Nat.add_0_r, drop_app_le by (rewrite length_imap; lia).
    apply Forall2_app; [exact Hord|by repeat constructor].
  - rewrite Hwait by done. apply Forall_app. split; [done|]. by constructor.
  - rewrite Hk, take_app_le by lia. done.
  - rewrite Hu, take_app_le by lia. done.
Qed.

Lemma init_ok t fed r c :
  Z.of_nat (length (fed ++ [r])) < 2 ^ 64 -> good k fed c -> 0 < instrs_to_read_this_cycle c ->
  (t = true -> 0 <= TraceReader.Reader.branch_type r < 8 /\ sta_room (sz_ (ROB c)) (STA c) (MAX_INSTR_DESTINATIONS k)) ->
  holds t (init_instruction k w (of_reader r) c)
    (fun c' => good k (fed ++ [r]) c' /\ instrs_to_read_this_cycle c' < instrs_to_read_this_cycle c /\ num_retired c' = num_retired c).
Proof.
  intros Hlen Hg Hpos Ht. unfold init_instruction.
  set (c1 := c <| instrs_to_read_this_cycle ::= fun n => u64 (n - 1) |>). cbv zeta.
  set (i1 := of_reader r <| instr_id := instr_unique_id c1 |>).
  set (o := (TraceReader.Reader.source_registers r, TraceReader.Reader.destination_registers r)).
  assert (kept i1 = ((entered (length fed) r o), (0, 0, 0, []))) as Hk1.
  { unfold kept, entered, program. simpl. by rewrite <- (i_next _ _ _ (proj1 Hg)). }
  assert (0 <= u64 (instrs_to_read_this_cycle c - 1) <= instrs_to_read_this_cycle c - 1) as Hread.
  { unfold u64. split; [apply Z.mod_pos_bound; lia|apply Z.mod_le; lia]. }
  eapply holds_then; [apply count_destinations_ok|].
  { intros Ht'. destruct (Ht Ht') as [_ Hr]. unfold sta_room in *. rewrite length_take. simpl. lia. }
  intros [i2 sta] [Hk2 Hb2]. cbn [fst] in Hk2, Hb2. rewrite Hk1 in Hk2.
  match goal with |- context [classify k (if ?b then ?x else ?y)] => set (i3 := if b then x else y) end.
  assert (kept i3 = kept i2 /\ branch_type i3 = branch_type i2) as [Hk3 Hb3] by (unfold i3; by destruct (0 <? _)).
  assert (t = true -> 0 <= branch_type (classify k i3) < 8) as Hb4.
  { intros Ht'. apply classify_type. rewrite Hb3, Hb2. by destruct (Ht Ht'). }
  pose proof (i_types _ _ _ (proj1 Hg)) as Hty. simpl in Hty.
  eapply holds_then; [apply count_type_ok; intros Ht'; split; [by apply Hb4|by injection Hty]|]. intros types Hlt.
  match goal with |- context [fold_stack_pointer k (if ?b then ?x else ?y)] => set (i5 := if b then x else y) end.
  assert (kept i5 = kept (classify k i3) /\ branch_type i5 = branch_type (classify k i3)) as [Hk5 Hb5] by (unfold i5; by destruct (_ || _)).
  set (i6 := fold_stack_pointer k i5). set (c2 := c1 <| STA := sta |> <| total_branch_types := types |>).
  rewrite kept_classify, Hk3, Hk2 in Hk5.
  assert (exists o6, o6 ∈ [o; folded (MAX_INSTR_DESTINATIONS k) o] /\ kept i6 = (entered (length fed) r o6, (0, 0, 0, []))) as (o6 & Ho6 & Hk6).
  { destruct (kept_fold i5) as (o6 & Ho & E). rewrite Hk5 in Ho, E. by exists o6. }
  assert (frame_of c2 = frame_of c1) as E2 by (unfold frame_of; simpl; by rewrite Hlt).
  apply (holds_then _ _ _ (fun ic => kept ic.1 = kept i6 /\
    exists n, (n = instrs_to_read_this_cycle c2 \/ n = 0) /\ frame_of ic.2 = frame_of (c2 <| instrs_to_read_this_cycle := n |>))).
  { destruct (is_branch i6); [apply predict_ok|].
    - intros Ht'. unfold i6. rewrite fold_type, Hb5. by apply Hb4.
    - unfold types_ok. injection Hty as Hty1 Hty2. simpl. rewrite Hlt. simpl. by rewrite Hty1, Hty2.
    - split; [done|]. exists (instrs_to_read_this_cycle c2). split; [by left|]. reflexivity. }
  intros [i7 c7] [Hk7 (n & Hn & E7)]. cbn [fst snd] in Hk7, E7. rewrite Hk6 in Hk7.
  match goal with |- context [push_back ?x _] => set (i8 := x) end.
  assert (exists o8, o8 ∈ operands k r /\ kept i8 = (entered (length fed) r o8, (0, 0, 0, []))) as (o8 & Ho8 & Hk8).
  { destruct (folded_operands r o6 Ho6) as [Ho Hc]. unfold i8. destruct (warm k w); [by exists o6|].
    exists (cleared (MAX_INSTR_DESTINATIONS k) o6). split; [done|].
    injection Hk7 as ? ? ? ? ? <- ? ? ? ?. unfold kept, program, entered, cleared. cbn. congruence. }
  apply (enter_ok t fed r c c7 i8 n); try done.
  - destruct Hn as [->| ->]; [exact Hread|lia].
  - rewrite E7. unfold frame_of. simpl. by rewrite Hlt.
  - exists o8. split; [done|exact (f_equal fst Hk8)].
  - apply (f_equal snd) in Hk8. injection Hk8 as ? ? ? ?. done.
Qed.

End Entry.

(** ** Runs of a core *)
Section Run.
Context `{Config} {S B M : Type} `{BranchPredictor S} `{TargetBuffer B} `{Memory M}.
Context (k : cpu_params) (uninit : Z).
Local Abbreviation core := (O3_CPU S B M).
Implicit Types c : core.

(** [reachable fed c]: a new core can get to [c] having read [fed].  Warm-up may end
    at any time; between its steps the memory may change and answer at will. *)
Inductive reachable : list reader_instr -> core -> Prop :=
| reach_new ifetch decode dispatch rob lq sq dl sl i0 s b m :
    reachable [] (new_CPU k uninit ifetch decode dispatch rob lq sq dl sl i0 s b m)
| reach_operate fed c w c' : reachable fed c -> _operate k w uninit c = Ret c' -> reachable fed c'
| reach_read fed c w r c' :
    reachable fed c -> fetch_stall c = false -> 0 < instrs_to_read_this_cycle c ->
    init_instruction k w (of_reader r) c = Ret c' -> reachable (fed ++ [r]) c'
| reach_memory fed c m l c' : reachable fed c -> bus_returns l (c <| memory := m |>) = Ret c' -> reachable fed c'
| reach_warm fed c : reachable fed c -> reachable fed (reset_branch_stats c).

Lemma new_good ifetch decode dispatch rob lq sq dl sl i0 s b m :
  good k [] (new_CPU k uninit ifetch decode dispatch rob lq sq dl sl i0 s b m : core).
Proof.
  destruct (new_circular_buffer_spec i0 rob) as [Hwr Hcr]. destruct (new_circular_buffer_spec i0 ifetch) as [Hwi Hci].
  pose proof (Delay.new_delay_queue_spec i0 dispatch sl) as (Hwd & Hid & _).
  pose proof (Delay.new_delay_queue_spec i0 decode dl) as (Hwe & Hie & _).
  split.
  - constructor; try done; unfold static, new_CPU; cbn [fst snd ROB IFETCH_BUFFER f_ifetch].
    + by rewrite !map_wf.
    + by rewrite map_wf.
    + rewrite map_contents, Hci. simpl. lia.
  - unfold scheduled_ok, rq, new_CPU. cbn [ROB ready_to_execute]. rewrite tagged_map. unfold tagged. rewrite Hcr.
    change (sched None [] [] []). constructor; try (by constructor); intros;
      match goal with E : _ !! _ = Some _ |- _ => by rewrite lookup_nil in E | E : _ ∈ [] |- _ => by apply elem_of_nil in E end.
Qed.

Lemma reachable_good fed c : reachable fed c -> Z.of_nat (length fed) < 2 ^ 64 -> good k fed c.
Proof.
  induction 1 as [|fed c w c' _ IH E|fed c w r c' _ IH Hs Hr E|fed c m l c' _ IH E|fed c _ IH]; intros Hlen.
  - apply new_good.
  - pose proof (core_operate_ok k uninit fed Hlen w c (IH Hlen)) as Ho. unfold _operate in E.
    destruct (operate k w uninit c) as [c1|]; [|done]. injection E as <-. by apply (good_frame k fed c1 _ (proj1 Ho)).
  - pose proof Hlen as Hl'. rewrite length_app in Hl'. simpl in Hl'.
    pose proof (init_ok k w false fed r c Hlen (IH ltac:(lia)) Hr) as Hi. rewrite E in Hi. by apply Hi.
  - pose proof (bus_returns_keeps l (c <| memory := m |>)) as Hb. unfold keeps in Hb. rewrite E in Hb. apply (good_frame k fed c); [by apply IH|done].
  - specialize (IH Hlen) as [[? ? ? ? ? ? ? ? ? ? ? ?] HS]. by split; [constructor|].
Qed.

(** The instructions that the core holds, oldest first. *)
Definition held c : list ooo_model_instr :=
  contents (ROB c) ++ Delay.items (DISPATCH_BUFFER c) ++ Delay.items (DECODE_BUFFER c) ++ contents (IFETCH_BUFFER c).

(** They are those read from the trace and not retired. *)
Lemma good_held fed c : good k fed c ->
  Forall2 (fun i e => enters k (program (view_of i)) e) (held c) (drop (Z.to_nat (num_retired c)) (imap pair fed)).
Proof.
  intros [[? ? ? ? ? ? ? Hord ? ? ? ?] _]. simpl in Hord. unfold waiting in Hord. simpl in Hord. rewrite !map_contents, <- !fmap_app, <- list_fmap_compose in Hord.
  revert Hord. generalize (drop (Z.to_nat (num_retired c)) (imap pair fed)). intros l. by rewrite Forall2_fmap_l.
Qed.


(** C11: no instruction starts before its operands are produced.  When an instruction
    in the reorder buffer has begun to execute, then for each register it reads, the last
    older instruction in the buffer that writes the register has completed. *)
Theorem operands_produced fed c older producer between reader younger r :
  reachable fed c -> Z.of_nat (length fed) < 2 ^ 64 ->
  contents (ROB c) = older ++ producer :: between ++ reader :: younger ->
  executed reader <> 0 -> r ∈ source_registers reader -> r <> 0 -> r ∈ destination_registers producer ->
  Forall (fun z => r ∉ destination_registers z) between -> executed producer = COMPLETED.
Proof.
  intros Hr Hlen Hc He Hs Hr0 Hd Hb. destruct (reachable_good fed c Hr Hlen) as [_ HS].
  assert (forall m x, contents (ROB c) !! m = Some x -> rq c !! m = Some (pos_of (ROB c) (Z.of_nat m), view_of x)) as Hrq.
  { intros m x Hm. unfold rq. by rewrite tagged_map, list_lookup_fmap, tagged_lookup, Hm. }
  set (i := length older). set (j := (i + 1 + length between)%nat).
  assert (contents (ROB c) !! i = Some producer) as Hi by (rewrite Hc; by apply list_lookup_middle).
  assert (contents (ROB c) !! j = Some reader) as Hj.
  { rewrite Hc. change (older ++ producer :: between ++ reader :: younger) with (older ++ (producer :: between) ++ reader :: younger).
    rewrite app_assoc. apply list_lookup_middle. rewrite length_app. simpl. lia. }
  apply (started_operands [] None (rq c) (ready_to_execute c) i j (pos_of (ROB c) (Z.of_nat i)) (view_of producer)
    (pos_of (ROB c) (Z.of_nat j)) (view_of reader) r HS); try done; [lia|by apply Hrq|by apply Hrq|].
  intros m [q z] Hm Hz. destruct (contents (ROB c) !! m) as [x|] eqn:Hx; [|unfold rq in Hz; by rewrite tagged_map, list_lookup_fmap, tagged_lookup, Hx in Hz].
  rewrite (Hrq m x Hx) in Hz. injection Hz as <- <-. simpl.
  rewrite Hc, lookup_app_r in Hx by lia. replace (m - length older)%nat with (Datatypes.S (m - length older - 1)) in Hx by lia.
  simpl in Hx. rewrite lookup_app_l in Hx by lia. rewrite Forall_lookup in Hb. by apply (Hb (m - length older - 1)%nat).
Qed.

(** C25: the scheduler's assertions hold.  In every reachable state completing
    and scheduling instructions end without failing: no instruction is released more often
    than it has producers, and the ready queue never outgrows the reorder buffer. *)
Theorem scheduler_asserts_hold fed c w :
  reachable fed c -> Z.of_nat (length fed) < 2 ^ 64 ->
  exists c1 c2, complete_inflight_instruction k c = Ret c1 /\ schedule_instruction k w (execute_instruction k w c1) = Ret c2 /\
  program <$> (view_of <$> contents (ROB c2)) = program <$> (view_of <$> contents (ROB c)).
Proof.
  intros Hr Hlen. pose proof (reachable_good fed c Hr Hlen) as Hg. pose proof (good_rob k fed c Hg) as Hw.
  pose proof (complete_inflight_ok k c Hw (proj2 Hg)) as Hc. destruct (complete_inflight_instruction k c) as [c1|]; [|done].
  destruct Hc as [HS1 E1]. destruct (execute_loop_ok k w (EXEC_WIDTH k) c1 (static_wf _ _ E1 Hw) HS1) as [HS2 E2].
  change (execute_loop k w (EXEC_WIDTH k) c1) with (execute_instruction k w c1) in HS2, E2.
  assert (wf (ROB (execute_instruction k w c1))) as Hw2 by (apply (static_wf c); [congruence|done]).
  pose proof (schedule_instruction_ok k w _ Hw2 HS2) as Hs.
  destruct (schedule_instruction k w (execute_instruction k w c1)) as [c2|] eqn:E; [|done]. destruct Hs as [_ E3].
  exists c1, c2. split; [done|]. split; [done|]. rewrite <- !map_contents.
  assert (static c2 = static c) as Es by congruence. exact (f_equal (fun s => contents s.2) Es).
Qed.

(** What the main loop reads fits.  While the core asks for instructions, an
    instruction of the trace can enter: the fetch buffer has room, as long as the store
    array has room for the stores of an instruction. *)
Theorem read_instruction_enters fed c w r :
  reachable fed c -> Z.of_nat (length (fed ++ [r])) < 2 ^ 64 ->
  fetch_stall c = false -> 0 < instrs_to_read_this_cycle c -> 0 <= TraceReader.Reader.branch_type r < 8 ->
  sta_room (sz_ (ROB c)) (STA c) (MAX_INSTR_DESTINATIONS k) ->
  exists c', init_instruction k w (of_reader r) c = Ret c' /\
  instrs_to_read_this_cycle c' < instrs_to_read_this_cycle c /\ instr_unique_id c' = Z.of_nat (length (fed ++ [r])).
Proof.
  intros Hr Hlen Hf Hn Hb Hs. pose proof Hlen as Hl'. rewrite length_app in Hl'. simpl in Hl'.
  pose proof (reachable_good fed c Hr ltac:(lia)) as Hg.
  pose proof (init_ok k w true fed r c Hlen Hg Hn (fun _ => conj Hb Hs)) as Hi.
  destruct (init_instruction k w (of_reader r) c) as [c'|]; [|done]. destruct Hi as (Hg' & Hlt & _). exists c'. split; [done|]. split; [done|].
  exact (i_next _ _ _ (proj1 Hg')).
Qed.

End Run.

(** ** Branch types *)

(** C32: the core recognises the branches the trace reader encodes.  The registers the
    reader writes into an instruction make [init_instruction] find the type and the
    outcome the reader decided, but for branches of the type [OTHER]: those the core
    takes for direct jumps that are taken. *)
Theorem reader_branches_classified k i next :
  (2 <= MAX_INSTR_DESTINATIONS k)%nat ->
  TraceReader.Reader.destination_registers i = replicate 4 0 -> TraceReader.Reader.source_registers i = replicate 4 0 ->
  let r := TraceReader.Reader.translate_branch i next in
  let j := classify k (of_reader r) in
  is_branch j = TraceReader.Reader.is_branch r /\
  if TraceReader.Reader.branch_type r =? TraceReader.Reader.BRANCH_OTHER
  then branch_type j = TraceReader.Reader.BRANCH_DIRECT_JUMP /\ branch_taken j = true
  else branch_type j = TraceReader.Reader.branch_type r /\ branch_taken j = TraceReader.Reader.branch_taken r.
Proof.
  intros Hk Hd Hs r j.
  assert (length (TraceReader.Reader.destination_registers r) = 4%nat) as Hlen.
  { unfold r, TraceReader.Reader.translate_branch. do 8 (destruct (TraceReader.Reader.branch_type i =? _); [simpl; by rewrite Hd|]).
    simpl. by rewrite Hd. }
  assert (exists n, (n = 2 \/ n = 3 \/ n = 4)%nat /\ j = classify (mkCpuParams 0 0 0 0 0 0 0 0 0 0 0 0 0 0 0 n (fun _ => O)) (of_reader r)) as (n & Hn & ->).
  { exists (Nat.min (MAX_INSTR_DESTINATIONS k) 4). split; [lia|]. unfold j, classify.
    cbn [MAX_INSTR_DESTINATIONS of_reader destination_registers].
    rewrite <- (take_take _ (MAX_INSTR_DESTINATIONS k) 4), (take_ge (TraceReader.Reader.destination_registers r) 4) by lia. reflexivity. }
  clear Hk Hlen. unfold r, TraceReader.Reader.translate_branch, TraceReader.Reader.with_branch. rewrite Hd, Hs. clear r Hd Hs.
  do 8 (destruct (TraceReader.Reader.branch_type i =? _); [destruct Hn as [->|[->| ->]]; split; try split; reflexivity|]).
  destruct Hn as [->|[->| ->]]; split; try split; reflexivity.
Qed.

Lemma reader_branches_classified_witness :
  let i := TraceReader.Reader.instr_of_insn (TraceReader.Reader.mkInsn 0 4096 0 3 0 5 8192) in
  let r := TraceReader.Reader.translate_branch i 8192 in
  branch_type (classify (mkCpuParams 0 0 0 0 0 0 0 0 0 0 0 0 0 0 0 2 (fun _ => O)) (of_reader r)) = TraceReader.Reader.BRANCH_INDIRECT_CALL.
Proof.
  intros i r. destruct (reader_branches_classified (mkCpuParams 0 0 0 0 0 0 0 0 0 0 0 0 0 0 0 2 (fun _ => O)) i 8192) as [_ [E _]].
  - reflexivity.
  - reflexivity.
  - reflexivity.
  - exact E.
Defined.

End CpuSpec.
