(* ===== verification/SimMain.v ===== *)
(** * ChampSim: the simulation loop

    [main] of src/main.cc for the configured single core: a cycle operates the core
    and the other components, reads the trace while the core asks for instructions,
    and decides when warm-up and simulation are complete. *)

From stdpp Require Import base list.
From S2P Require Import Prelude SimUtil SimQueue SimBranch SimBtb SimCpu SimRob SimSched SimCpuFrame SimCpuSched SimCpuSpec.
From S2P Require TraceReader.
Import Util Circ Rob Cpu Sched CpuFrame CpuSched CpuSpec.
Local Open Scope Z_scope.
Local Open Scope c_scope.

Module Main.
Local Abbreviation reader := TraceReader.Reader.qemu_tracereader.
Local Abbreviation reader_instr := TraceReader.Reader.ooo_model_instr.
Local Abbreviation reader_get := TraceReader.Reader.reader_get.
Local Abbreviation reader_gets := TraceReader.Reader.reader_gets.

(** The variables of [main] and those of the core that only [main] uses. *)
Record simulation (S B M : Type) := mkSim {
  ooo_cpu : O3_CPU S B M;
  trace : reader;
  warmup_complete : bool;
  all_warmup_complete : Z;
  simulation_complete : bool;
  begin_sim_cycle : Z;
  begin_sim_instr : Z;
  finish_sim_cycle : Z;
  finish_sim_instr : Z;
}.
Arguments mkSim {S B M}.
Arguments ooo_cpu {S B M}.
Arguments trace {S B M}.
Arguments warmup_complete {S B M}.
Arguments all_warmup_complete {S B M}.
Arguments simulation_complete {S B M}.
Arguments begin_sim_cycle {S B M}.
Arguments begin_sim_instr {S B M}.
Arguments finish_sim_cycle {S B M}.
Arguments finish_sim_instr {S B M}.
#[global] Instance eta_sim S B M : Settable (simulation S B M) :=
  mkEta _ (fun x => mkSim (ooo_cpu x) (trace x) (warmup_complete x) (all_warmup_complete x) (simulation_complete x)
    (begin_sim_cycle x) (begin_sim_instr x) (finish_sim_cycle x) (finish_sim_instr x)).

Section Loop.
Context `{Config} {S B M : Type} `{BranchPredictor S} `{TargetBuffer B} `{Memory M}.
Context (k : cpu_params) (uninit : Z) (warmup_instructions simulation_instructions : Z).
(** The components that operate before and after the core in a cycle. *)
Context (before after : M -> cres (list (bus * Mem.PACKET) * M)).
(** [finish_warmup] clears the statistics of caches and memory. *)
Context (reset_memory_stats : M -> M).
Local Abbreviation core := (O3_CPU S B M).
Local Abbreviation sim := (simulation S B M).
Implicit Types (c : core) (s : sim).

(** [while (fetch_stall == 0 && instrs_to_read_this_cycle > 0)
    init_instruction(traces[i]->get());] *)
Fixpoint read_trace (turns : nat) (w : bool) (t : reader) c : cres (reader * core) :=
  match turns with
  | O => Ret (t, c)
  | Datatypes.S turns =>
    if negb (fetch_stall c) && (0 <? instrs_to_read_this_cycle c) then
      let* p := reader_get t in
      let* c := init_instruction k (fun _ => w) (of_reader p.1) c in
      read_trace turns w p.2 c
    else Ret (t, c)
  end.

Definition operate_memory (step : M -> cres (list (bus * Mem.PACKET) * M)) c : cres core :=
  let* r := step (memory c) in bus_returns r.1 (c <| memory := r.2 |>).

Definition finish_warmup s : sim :=
  s <| begin_sim_cycle := current_cycle (ooo_cpu s) |> <| begin_sim_instr := num_retired (ooo_cpu s) |>
    <| ooo_cpu ::= fun c => reset_branch_stats (c <| memory ::= reset_memory_stats |>) |>.

(** The checks at the end of the loop. *)
Definition check_warmup s : sim :=
  let s := if negb (warmup_complete s) && (warmup_instructions <? num_retired (ooo_cpu s))
           then s <| warmup_complete := true |> <| all_warmup_complete ::= fun n => u8 (n + 1) |> else s in
  if all_warmup_complete s =? 1 then finish_warmup (s <| all_warmup_complete ::= fun n => u8 (n + 1) |>) else s.

Definition check_complete s : sim :=
  if (1 <? all_warmup_complete s) && negb (simulation_complete s)
     && (u64 (begin_sim_instr s + simulation_instructions) <=? num_retired (ooo_cpu s))
  then s <| simulation_complete := true |> <| finish_sim_instr := u64 (num_retired (ooo_cpu s) - begin_sim_instr s) |>
         <| finish_sim_cycle := u64 (current_cycle (ooo_cpu s) - begin_sim_cycle s) |>
  else s.

Definition sim_cycle s : cres sim :=
  let w := warmup_complete s in
  let* c := operate_memory before (ooo_cpu s) in
  let* c := _operate k (fun _ => w) uninit c in
  let* c := operate_memory after c in
  let* r := read_trace (Z.to_nat (instrs_to_read_this_cycle c)) w (trace s) c in
  Ret (check_complete (check_warmup (s <| ooo_cpu := r.2 |> <| trace := r.1 |>))).

(** [while (any_of(simulation_complete, not))] *)
Fixpoint sim_loop (turns : nat) s : cres sim :=
  match turns with
  | O => Ret s
  | Datatypes.S turns => if simulation_complete s then Ret s else let* s := sim_cycle s in sim_loop turns s
  end.

Definition new_sim c (t : reader) : sim := mkSim c t false 0 false 0 0 0 0.

(** ** Reading consumes the trace *)

Lemma fread_shorter n l p : TraceReader.Reader.fread_or_exit n l = Ret p -> (n + length p.2 = length l)%nat.
Proof.
  unfold TraceReader.Reader.fread_or_exit, TraceReader.Reader.fread. destruct (Nat.leb_spec n (length l)); [|done].
  intros E. injection E as <-. simpl. rewrite length_drop. lia.
Qed.

Lemma skip_shorter fuel l l' : TraceReader.Reader.skip_to_insn fuel l = Ret l' -> (length l' <= length l)%nat.
Proof.
  revert l. induction fuel as [|fuel IH]; intros l; [done|]. cbn [TraceReader.Reader.skip_to_insn].
  intros (h & Hh%fread_shorter & E)%cbind_Ret. destruct (_ =? _); [injection E as <-; lia|].
  destruct (_ =? _); [apply cbind_Ret in E as (d & Hd%fread_shorter & E%IH); lia|].
  destruct (_ =? _); [apply cbind_Ret in E as (d & Hd%fread_shorter & E%IH); lia|done].
Qed.

Lemma read_single_shorter l i l' : TraceReader.Reader.read_single_instr_qemutrace l = Ret (i, l') -> (length l' < length l)%nat.
Proof.
  unfold TraceReader.Reader.read_single_instr_qemutrace.
  intros (x & Hx%fread_shorter & (h & Hh%fread_shorter & E)%cbind_Ret)%cbind_Ret. unfold TraceReader.Reader.sizeof_insn in Hx.
  destruct (_ =? _); [|destruct (_ =? _)].
  - apply cbind_Ret in E as (d & Hd%fread_shorter & (l2 & Hl%skip_shorter & E)%cbind_Ret). injection E as _ <-. lia.
  - apply cbind_Ret in E as (n & Hn%fread_shorter & (h2 & Hh2%fread_shorter & E)%cbind_Ret). destruct (_ =? _); [|done].
    injection E as _ <-. lia.
  - destruct (_ =? _); [|done]. injection E as _ <-. lia.
Qed.

Lemma get_shorter t i t' : reader_get t = Ret (i, t') -> (length (TraceReader.Reader.rest t') < length (TraceReader.Reader.rest t))%nat.
Proof.
  unfold TraceReader.Reader.reader_get. intros ([x l] & Hx%read_single_shorter & E)%cbind_Ret.
  destruct (TraceReader.Reader.last_instr t); [injection E as _ <-; done|].
  apply cbind_Ret in E as ([y l2] & Hy%read_single_shorter & E). injection E as _ <-. simpl. lia.
Qed.

(** Reading on. *)
Lemma gets_snoc n t l t1 i t2 :
  reader_gets n t = Ret (l, t1) -> reader_get t1 = Ret (i, t2) -> reader_gets (Datatypes.S n) t = Ret (l ++ [i], t2).
Proof.
  revert t l. induction n as [|n IH]; intros t l E Eg.
  - injection E as <- <-. cbn [TraceReader.Reader.reader_gets]. by rewrite Eg.
  - cbn [TraceReader.Reader.reader_gets] in E. apply cbind_Ret in E as (p & Ep & (q & Eq & E)%cbind_Ret). injection E as <- <-.
    change (reader_gets (Datatypes.S (Datatypes.S n)) t) with
      (let* p := reader_get t in let* q := reader_gets (Datatypes.S n) p.2 in Ret (p.1 :: q.1, q.2)).
    rewrite Ep. cbn [cbind]. destruct q as [lq tq]. rewrite (IH p.2 lq Eq Eg). done.
Qed.
Lemma gets_length n t l t' : reader_gets n t = Ret (l, t') -> length l = n /\ (length l + length (TraceReader.Reader.rest t') <= length (TraceReader.Reader.rest t))%nat.
Proof.
  revert t l. induction n as [|n IH]; intros t l E.
  - injection E as <- <-. split; [done|simpl; lia].
  - cbn [TraceReader.Reader.reader_gets] in E. apply cbind_Ret in E as ([i t1] & Ep%get_shorter & ([lq tq] & Eq & E)%cbind_Ret).
    injection E as <- <-. simpl in Eq. apply IH in Eq as [<- Hq]. simpl. split; [done|lia].
Qed.

(** ** The loop *)

(** The core has read the first instructions of the trace [t0] and the reader is
    behind them. *)
Definition reads_from (t0 : reader) (t : reader) c : Prop :=
  exists fed, reader_gets (length fed) t0 = Ret (fed, t) /\ reachable k uninit fed c.

Section Trace.
Context (t0 : reader) (Ht0 : Z.of_nat (length (TraceReader.Reader.rest t0)) < 2 ^ 64).

Lemma reads_bound t fed : reader_gets (length fed) t0 = Ret (fed, t) -> Z.of_nat (length fed) < 2 ^ 64.
Proof. intros [_ ?]%gets_length. lia. Qed.

Lemma reads_retired t c : reads_from t0 t c -> 0 <= num_retired c < 2 ^ 64.
Proof.
  intros (fed & Hf & Hr). pose proof (reads_bound t fed Hf). pose proof (i_retired _ _ _ (proj1 (reachable_good k uninit fed c Hr ltac:(lia)))) as Hx.
  simpl in Hx. lia.
Qed.

Lemma operate_memory_ok step t c :
  reads_from t0 t c -> holds false (operate_memory step c) (fun c' => reads_from t0 t c' /\ num_retired c' = num_retired c).
Proof.
  intros (fed & Hf & Hr). unfold operate_memory. apply holds_any. intros [l m] _. cbn [fst snd].
  pose proof (bus_returns_keeps l (c <| memory := m |>)) as Hk. destruct (bus_returns l _) as [c'|] eqn:E; [|done].
  split; [|exact (f_equal f_retired Hk)]. exists fed. split; [done|]. by eapply reach_memory.
Qed.

Lemma core_cycle_ok w t c :
  reads_from t0 t c -> holds false (_operate k w uninit c) (fun c' => reads_from t0 t c' /\
    num_retired c <= num_retired c' <= num_retired c + Z.of_nat (RETIRE_WIDTH k)).
Proof.
  intros (fed & Hf & Hr). pose proof (reads_bound t fed Hf) as Hl.
  pose proof (core_operate_ok k uninit fed Hl w c (reachable_good k uninit fed c Hr Hl)) as Ho.
  destruct (_operate k w uninit c) as [c'|] eqn:E; [|done]. split; [exists fed; split; [done|by eapply reach_operate]|].
  unfold _operate in E. destruct (operate k w uninit c) as [c1|]; [|done]. injection E as <-. apply Ho.
Qed.

(** The bound on the turns is enough: the loop ends because the core asks for
    nothing more. *)
Lemma read_trace_ok turns w t c :
  reads_from t0 t c -> instrs_to_read_this_cycle c <= Z.of_nat turns ->
  holds false (read_trace turns w t c) (fun r => reads_from t0 r.1 r.2 /\ num_retired r.2 = num_retired c /\
    negb (fetch_stall r.2) && (0 <? instrs_to_read_this_cycle r.2) = false).
Proof.
  revert t c. induction turns as [|turns IH]; intros t c Hrd Hn; cbn [read_trace].
  { split; [done|]. split; [done|]. cbn [snd]. rewrite (proj2 (Z.ltb_ge _ _)) by lia. apply andb_false_r. }
  destruct (negb (fetch_stall c) && (0 <? instrs_to_read_this_cycle c)) eqn:Hc; [|done].
  apply andb_true_iff in Hc as [Hs%negb_true_iff Hp%Z.ltb_lt]. apply holds_any. intros [r t1] Hget. cbn [fst snd].
  destruct Hrd as (fed & Hf & Hr). pose proof (gets_snoc _ _ _ _ _ _ Hf Hget) as Hf1.
  assert (reader_gets (length (fed ++ [r])) t0 = Ret (fed ++ [r], t1)) as Hf2 by (rewrite length_app, Nat.add_1_r; exact Hf1).
  pose proof (reads_bound _ _ Hf) as Hl. pose proof (reads_bound _ _ Hf2) as Hl1.
  pose proof (init_ok k (fun _ => w) false fed r c Hl1 (reachable_good k uninit fed c Hr Hl) Hp ltac:(done)) as Hi.
  destruct (init_instruction k _ (of_reader r) c) as [c1|] eqn:E; [|done]. destruct Hi as (_ & Hlt & Er). cbn [cbind].
  eapply holds_mono; [apply IH; [|lia]|].
  - exists (fed ++ [r]). split; [done|]. by eapply reach_read.
  - intros r2 (? & E2 & ?). split_and!; [done|congruence|done].
Qed.

(** ** Warm-up and end of the simulation *)

Context (Hwarm : 0 <= warmup_instructions) (Hsim : 0 <= simulation_instructions)
        (Hsum : warmup_instructions + Z.of_nat (RETIRE_WIDTH k) + simulation_instructions < 2 ^ 64).

Local Abbreviation W := (Z.of_nat (RETIRE_WIDTH k)).

(** The phases of a simulation. *)
Inductive phase s : Prop :=
| warming : warmup_complete s = false -> all_warmup_complete s = 0 -> simulation_complete s = false ->
    num_retired (ooo_cpu s) <= warmup_instructions -> phase s
| measuring : warmup_complete s = true -> all_warmup_complete s = 2 -> simulation_complete s = false ->
    warmup_instructions < begin_sim_instr s <= warmup_instructions + W ->
    begin_sim_instr s <= num_retired (ooo_cpu s) < begin_sim_instr s + simulation_instructions -> phase s
| finished : warmup_complete s = true -> all_warmup_complete s = 2 -> simulation_complete s = true ->
    warmup_instructions < begin_sim_instr s <= warmup_instructions + W ->
    simulation_instructions <= finish_sim_instr s <= simulation_instructions + Z.max 0 (W - 1) ->
    finish_sim_instr s = num_retired (ooo_cpu s) - begin_sim_instr s -> phase s.

Definition sim_ok s : Prop := reads_from t0 (trace s) (ooo_cpu s) /\ phase s.

Lemma check_complete_ok s n :
  reads_from t0 (trace s) (ooo_cpu s) -> warmup_complete s = true -> all_warmup_complete s = 2 -> simulation_complete s = false ->
  warmup_instructions < begin_sim_instr s <= warmup_instructions + W ->
  begin_sim_instr s <= n <= num_retired (ooo_cpu s) -> num_retired (ooo_cpu s) <= n + W ->
  (n < begin_sim_instr s + simulation_instructions \/ n = num_retired (ooo_cpu s) /\ n = begin_sim_instr s) ->
  sim_ok (check_complete s).
Proof.
  intros Hrd Hw Ha Hc Hb Hn HnW Hlt. pose proof (reads_retired _ _ Hrd) as Hr. unfold check_complete. rewrite Ha, Hc. simpl.
  unfold u64. rewrite (Z.mod_small (begin_sim_instr s + _)) by lia.
  destruct (Z.leb_spec (begin_sim_instr s + simulation_instructions) (num_retired (ooo_cpu s))) as [Hle|Hgt].
  - split; [done|]. apply finished; simpl; try done; rewrite Z.mod_small by lia; lia.
  - split; [done|]. apply measuring; simpl; try done. lia.
Qed.

Lemma checks_ok s n :
  reads_from t0 (trace s) (ooo_cpu s) -> n <= num_retired (ooo_cpu s) <= n + W ->
  phase (s <| ooo_cpu ::= fun c => c <| num_retired := n |> |>) -> simulation_complete s = false ->
  sim_ok (check_complete (check_warmup s)).
Proof.
  intros Hrd Hn Hp Hc. pose proof (reads_retired _ _ Hrd) as Hr. inversion Hp as [Hw Ha _ Hle|Hw Ha _ Hb Hle|? ? Hcc]; simpl in *; [| |congruence].
  - unfold check_warmup. rewrite Hw. simpl. destruct (Z.ltb_spec warmup_instructions (num_retired (ooo_cpu s))) as [Hlt|Hge]; simpl.
    + rewrite Ha. simpl. apply (check_complete_ok _ (num_retired (ooo_cpu s))); simpl; try done; try lia.
      destruct Hrd as (fed & Hf & Hreach). exists fed. split; [done|]. apply reach_warm.
      by apply (reach_memory _ _ _ (ooo_cpu s) (reset_memory_stats (memory (ooo_cpu s))) []).
    + rewrite Ha. cbn [Z.eqb]. unfold check_complete. rewrite Ha. cbn [Z.ltb Z.compare andb]. split; [done|]. apply warming; try done; lia.
  - unfold check_warmup. rewrite Hw. cbn [negb andb]. rewrite Ha. cbn [Z.eqb Pos.eqb]. apply (check_complete_ok s n); try done; try lia.
Qed.

Lemma sim_cycle_ok s : sim_ok s -> simulation_complete s = false -> holds false (sim_cycle s) sim_ok.
Proof.
  intros [Hrd Hp] Hc. unfold sim_cycle.
  eapply holds_then; [by apply operate_memory_ok|]. intros c1 [Hr1 E1].
  eapply holds_then; [by apply core_cycle_ok|]. intros c2 [Hr2 E2].
  eapply holds_then; [by apply operate_memory_ok|]. intros c3 [Hr3 E3].
  eapply holds_then; [apply read_trace_ok; [exact Hr3|lia]|]. intros [t4 c4] (Hr4 & E4 & _). cbn [fst snd] in *.
  apply (checks_ok _ (num_retired (ooo_cpu s))); simpl; try done; [lia|].
  destruct Hp; [eapply warming|eapply measuring|eapply finished]; done.
Qed.

Lemma sim_loop_ok turns s : sim_ok s -> holds false (sim_loop turns s) sim_ok.
Proof.
  revert s. induction turns as [|turns IH]; intros s Hs; [done|]. cbn [sim_loop]. destruct (simulation_complete s) eqn:Hc; [done|].
  eapply holds_then; [by apply sim_cycle_ok|]. apply IH.
Qed.

End Trace.
End Loop.

(** C17: a simulation measures what it is asked to.  When the loop has ended, warm-up
    took at most [RETIRE_WIDTH] instructions more than asked, the measured phase has at least
    [simulation_instructions] and less than [RETIRE_WIDTH] more of them.  Of the instructions
    [fed] that the trace reader has delivered, the core still holds, in order, all but the
    [num_retired] first ones, and its counters split these by their privilege: they have retired. *)
Theorem simulation_measures `{Config} {S B M : Type} `{BranchPredictor S} `{TargetBuffer B} `{Memory M}
    k uninit warmup simulation before after reset_memory_stats i d e r l q dl sl i0 (st : S) (b : B) (m : M) (t0 : TraceReader.Reader.qemu_tracereader) turns s :
  Z.of_nat (length (TraceReader.Reader.rest t0)) < 2 ^ 64 -> 0 <= warmup -> 0 <= simulation ->
  warmup + Z.of_nat (RETIRE_WIDTH k) + simulation < 2 ^ 64 ->
  sim_loop k uninit warmup simulation before after reset_memory_stats turns (new_sim (new_CPU k uninit i d e r l q dl sl i0 st b m) t0) = Ret s ->
  simulation_complete s = true ->
  warmup < begin_sim_instr s <= warmup + Z.of_nat (RETIRE_WIDTH k) /\
  simulation <= finish_sim_instr s <= simulation + Z.max 0 (Z.of_nat (RETIRE_WIDTH k) - 1) /\
  exists fed, reader_gets (length fed) t0 = Ret (fed, trace s) /\
    num_retired (ooo_cpu s) = begin_sim_instr s + finish_sim_instr s /\ num_retired (ooo_cpu s) <= Z.of_nat (length fed) /\
    Forall2 (fun i e => enters k (program (view_of i)) e) (held (ooo_cpu s)) (drop (Z.to_nat (num_retired (ooo_cpu s))) (imap pair fed)) /\
    kernel_insn (ooo_cpu s) = kernel_count (take (Z.to_nat (num_retired (ooo_cpu s))) fed) /\
    user_insn (ooo_cpu s) = user_count (take (Z.to_nat (num_retired (ooo_cpu s))) fed).
Proof.
  intros Ht0 Hw Hs Hsum E Hc.
  pose proof (sim_loop_ok k uninit warmup simulation before after reset_memory_stats t0 Ht0 Hw Hs Hsum turns
    (new_sim (new_CPU k uninit i d e r l q dl sl i0 st b m) t0)) as Hok.
  rewrite E in Hok. destruct Hok as [(fed & Hf & Hreach) Hp].
  { split; [exists []; split; [done|apply reach_new]|]. by apply warming. }
  destruct Hp as [? ? Hx|? ? Hx|_ _ _ Hb Hfin Heq]; [congruence|congruence|]. split; [done|]. split; [done|]. exists fed. split; [done|].
  pose proof (reads_bound t0 Ht0 _ _ Hf) as Hl.
  pose proof (reachable_good k uninit fed _ Hreach Hl) as Hg. pose proof (good_held k fed _ Hg) as Hheld.
  destruct Hg as [[? ? ? ? ? ? Hret ? ? Hk Hu ?] _]. simpl in *. split; [lia|]. split; [lia|done].
Qed.

End Main.
