(* ===== verification/SimCpuSmall.v ===== *)
(** * ChampSim: a small core at work

    A core with short queues, whose memory answers at once, runs a few instructions:
    the theorems about the core and the simulation loop apply to it. *)

From stdpp Require Import base list.
From S2P Require Import Prelude SimUtil SimQueue SimBranch SimBtb SimCpu SimRob SimSched SimCpuFrame SimCpuSched SimCpuSpec SimMain.
From S2P Require TraceReader.
Import Util Circ Rob Cpu Sched CpuFrame CpuSched CpuSpec.
Import (notations) Mem.
Local Open Scope Z_scope.
Local Open Scope c_scope.

Module SmallCore.

#[local] Instance config : Config := {| BLOCK_SIZE := 64; PAGE_SIZE := 4096; NUM_CPUS := 1 |}.

(** Predicts taken; remembers nothing. *)
#[local] Instance taken : BranchPredictor unit := {|
  predict_branch := fun _ _ _ _ s => (true, s);
  last_branch_result := fun _ _ _ _ s => s |}.
#[local] Instance no_targets : TargetBuffer unit := {|
  btb_prediction := fun _ _ b => ((0, true), b);
  update_btb := fun _ _ _ _ b => b |}.
(** Translations are the identity and every request is answered at once. *)
#[local] Instance ideal : Memory unit := {|
  bus_fill_level := fun _ _ => 0;
  bus_add_rq := fun b p m => Ret (0, p, [(b, p <| Mem.data := Mem.address p |>)], m);
  bus_add_wq := fun _ p m => Ret (0, p, [], m) |}.

Definition constants (retire : nat) : cpu_params := mkCpuParams 0 1 1 16 2 2 2 4 2 2 2 retire 1 0 1 2 (fun _ => 2%nat).
Definition core : Type := O3_CPU unit unit unit.
Definition blank : ooo_model_instr := of_reader (TraceReader.Reader.mkInstr 0 false false 0 0 (replicate 4 0) (replicate 4 0) (replicate 4 0) (replicate 4 0) (0, 0) true).
Definition new (retire : nat) : core := new_CPU (constants retire) 0 4 4 4 4 2 2 1 1 blank tt tt tt.

Definition warm (cpu : Z) : bool := true.

(** Read an instruction or operate. *)
Definition event_step (retire : nat) (e : option TraceReader.Reader.ooo_model_instr) (c : core) : cres core :=
  match e with
  | None => _operate (constants retire) warm 0 c
  | Some r =>
    if negb (fetch_stall c) && (0 <? instrs_to_read_this_cycle c) then init_instruction (constants retire) warm (of_reader r) c
    else Abort "not asked for"
  end.
Fixpoint events (retire : nat) (l : list (option TraceReader.Reader.ooo_model_instr)) (c : core) : cres core :=
  match l with
  | [] => Ret c
  | e :: l => let* c := event_step retire e c in events retire l c
  end.

Lemma events_reachable retire l fed c c' :
  reachable (constants retire) 0 fed c -> events retire l c = Ret c' -> reachable (constants retire) 0 (fed ++ omap id l) c'.
Proof.
  revert fed c. induction l as [|e l IH]; intros fed c Hr; cbn [events].
  - intros E. injection E as <-. simpl. by rewrite app_nil_r.
  - intros (c1 & E1 & E)%cbind_Ret. destruct e as [r|]; cbn [event_step] in E1.
    + destruct (negb (fetch_stall c) && (0 <? instrs_to_read_this_cycle c)) eqn:Hc; [|done].
      apply andb_true_iff in Hc as [Hs%negb_true_iff Hp%Z.ltb_lt]. change (omap id (Some r :: l)) with ([r] ++ omap id l).
      rewrite app_assoc. apply (IH _ c1); [|done]. by eapply reach_read.
    + apply (IH fed c1); [|done]. by eapply reach_operate.
Qed.

(** An instruction at [ip] that reads register [src] and writes register [dst]. *)
Definition reg_instr (ip src dst : Z) : TraceReader.Reader.ooo_model_instr :=
  TraceReader.Reader.mkInstr ip false false 0 0 [dst; 0; 0; 0] [src; 0; 0; 0] (replicate 4 0) (replicate 4 0) (0, 0) true.
Definition load_instr (ip a dst : Z) : TraceReader.Reader.ooo_model_instr :=
  TraceReader.Reader.mkInstr ip false false 0 0 [dst; 0; 0; 0] (replicate 4 0) (replicate 4 0) [a; 0; 0; 0] (0, 0) false.

Definition get {A} (d : A) (m : cres A) : A := match m with Ret x => x | Abort _ => d end.

Definition program3 : list TraceReader.Reader.ooo_model_instr := [load_instr 4096 8192 1; reg_instr 4100 1 2; reg_instr 4104 2 3].
Definition reads3 : list (option TraceReader.Reader.ooo_model_instr) :=
  [None; Some (load_instr 4096 8192 1); Some (reg_instr 4100 1 2); None; Some (reg_instr 4104 2 3)].
Definition later (retire n : nat) : core := get (new retire) (events retire (reads3 ++ replicate n None) (new retire)).

Lemma later_reachable retire n : (exists c, events retire (reads3 ++ replicate n None) (new retire) = Ret c) ->
  reachable (constants retire) 0 program3 (later retire n).
Proof.
  intros (c & E). unfold later. rewrite E. cbn [get].
  replace program3 with ([] ++ omap id (reads3 ++ replicate n None)).
  - eapply events_reachable; [apply reach_new|exact E].
  - simpl. do 3 f_equal. clear E. by induction n.
Qed.


(** The load and the instruction that reads its register, which has started. *)
Lemma operands_produced_witness :
  exists producer reader younger, contents (ROB (later 2 9)) = [] ++ producer :: [] ++ reader :: younger /\
  executed reader = INFLIGHT /\ executed producer = COMPLETED.
Proof.
  destruct (contents (ROB (later 2 9))) as [|a [|b l]] eqn:E; [vm_compute in E; discriminate E..|].
  assert (executed b = INFLIGHT /\ source_registers b = [1; 0; 0; 0] /\ destination_registers a = [1; 0; 0; 0]) as (Hb & Hs & Hd).
  { vm_compute in E. injection E as <- <- _. split_and!; reflexivity. }
  exists a, b, l. split; [reflexivity|]. split; [exact Hb|].
  apply (operands_produced (constants 2) 0 program3 (later 2 9) [] a [] b l 1).
  - apply later_reachable. eexists. vm_compute. reflexivity.
  - reflexivity.
  - exact E.
  - rewrite Hb. discriminate.
  - rewrite Hs. by left.
  - discriminate.
  - rewrite Hd. by left.
  - constructor.
Defined.

Lemma scheduler_asserts_hold_witness :
  exists c1 c2, complete_inflight_instruction (constants 2) (later 2 8) = Ret c1 /\
  schedule_instruction (constants 2) warm (execute_instruction (constants 2) warm c1) = Ret c2 /\
  executed <$> contents (ROB (later 2 8)) = [1; 0; 0] /\ executed <$> contents (ROB c2) = [2; 1; 0].
Proof.
  destruct (scheduler_asserts_hold (constants 2) 0 program3 (later 2 8) warm) as (c1 & c2 & H1 & H2 & _).
  - apply later_reachable. eexists. vm_compute. reflexivity.
  - reflexivity.
  - exists c1, c2. split; [exact H1|]. split; [exact H2|].
    assert (get (new 2) (complete_inflight_instruction (constants 2) (later 2 8)) = c1) as <- by (rewrite H1; reflexivity).
    assert (get (new 2) (schedule_instruction (constants 2) warm (execute_instruction (constants 2) warm
      (get (new 2) (complete_inflight_instruction (constants 2) (later 2 8))))) = c2) as <- by (rewrite H2; reflexivity).
    vm_compute. split; reflexivity.
Defined.

Lemma read_instruction_enters_witness :
  exists c', init_instruction (constants 2) warm (of_reader (reg_instr 4108 3 4)) (later 2 0) = Ret c' /\
  instr_unique_id c' = 4.
Proof.
  destruct (read_instruction_enters (constants 2) 0 program3 (later 2 0) warm (reg_instr 4108 3 4)) as (c' & H1 & _ & H2).
  - apply later_reachable. eexists. vm_compute. reflexivity.
  - reflexivity.
  - vm_compute. reflexivity.
  - vm_compute. reflexivity.
  - split; [discriminate|reflexivity].
  - vm_compute. discriminate.
  - exists c'. split; [exact H1|exact H2].
Defined.

(** ** A whole simulation *)

(** A trace of [n] instructions, behind the header of the first one. *)
Definition trace_of (n : nat) : TraceReader.Reader.qemu_tracereader :=
  TraceReader.Reader.mkReader
    (drop TraceReader.Reader.sizeof_header (TraceReader.Reader.events_bytes 1
      ((fun j => (Z.of_nat j, TraceReader.Reader.EvInsn (TraceReader.Reader.mkInsn 0 (4096 + 4 * Z.of_nat j) 0 3 0 0 0))) <$> seq 0 n))) None.

Definition quiet (m : unit) : cres (list (bus * Mem.PACKET) * unit) := Ret ([], m).
Local Abbreviation simulated := (Main.sim_loop (constants 2) 0 2 3 quiet quiet id 40
  (Main.new_sim (new_CPU (constants 2) 0 4 4 4 4 2 2 1 1 blank tt tt tt) (trace_of 40))).
Lemma simulated_result :
  exists s, simulated = Ret s /\ Main.simulation_complete s = true.
Proof.
  assert ((match simulated with Ret s => Main.simulation_complete s | Abort _ => false end) = true) as H by (vm_compute; reflexivity).
  destruct simulated as [s|]; [by exists s|discriminate H].
Qed.

Lemma simulation_measures_witness :
  exists s, simulated = Ret s /\ 2 < Main.begin_sim_instr s <= 4 /\ 3 <= Main.finish_sim_instr s <= 4 /\
  exists fed, TraceReader.Reader.reader_gets (length fed) (trace_of 40) = Ret (fed, Main.trace s) /\
  num_retired (Main.ooo_cpu s) <= Z.of_nat (length fed).
Proof.
  destruct simulated_result as (s & E & Hc). exists s. split; [exact E|].
  destruct (Main.simulation_measures (constants 2) 0 2 3 quiet quiet id 4 4 4 4 2 2 1 1 blank tt tt tt (trace_of 40) 40 s)
    as (H1 & H2 & fed & H3 & _ & H4 & _).
  - vm_compute. reflexivity.
  - lia.
  - lia.
  - vm_compute. reflexivity.
  - exact E.
  - exact Hc.
  - split; [exact H1|]. split; [exact H2|]. exists fed. split; [exact H3|exact H4].
Defined.

End SmallCore.
