(* ===== verification/SimPtw.v ===== *)
(** * ChampSim: the page-table walker

    src/ptw.cc and inc/ptw.h: translations that miss in the TLBs are walked through
    the levels of the page table, one access to the level below per table, with
    caches for the upper levels.  The nodes of the [std::list] of misses carry a
    number, which is what an iterator to them is.  [vmem] is the global object of
    main.cc. *)

From stdpp Require Import base list.
From S2P Require Import Prelude SimUtil SimQueue SimVmem SimCache.
Import Util Mem Circ Delay Vmem.
Local Open Scope Z_scope.
Local Open Scope c_scope.

Module Ptw.

(** ** Paging structure caches *)

Record block_t := mkBlk {
  k_valid : bool;
  k_address : Z;
  k_data : Z;
  k_lru : Z;
}.
#[global] Instance eta_blk : Settable block_t := mkEta _ (fun x => mkBlk (k_valid x) (k_address x) (k_data x) (k_lru x)).
#[global] Instance is_valid_blk : IsValid block_t := k_valid.
#[global] Instance has_address_blk : HasAddress block_t := k_address.
#[global] Instance has_lru_blk : HasLru block_t := { lru_of := k_lru; set_lru := fun v x => x <| k_lru := v |> }.

Record PagingStructureCache := mkPSC {
  NUM_SET : Z;
  NUM_WAY : nat;
  block : list block_t;
  level : Z;
}.
#[global] Instance eta_PSC : Settable PagingStructureCache := mkEta _ (fun x => mkPSC (NUM_SET x) (NUM_WAY x) (block x) (level x)).

(** [address] and [data] have no initialiser. *)
Definition new_PSC (uninit lv sets : Z) (ways : nat) : PagingStructureCache :=
  mkPSC sets ways (replicate (Z.to_nat sets * ways) (mkBlk false uninit uninit LRU_INIT)) lv.

Section Walker.
Context `{Config} {L : Type} `{LowerLevel L}.

Definition set_idx (a : Z) (vm : VirtualMemory) (c : PagingStructureCache) : Z :=
  Z.land (Z.shiftr a (shamt (level c + 1) vm)) (bitmask (lg2 (NUM_SET c)) 0).
Definition set_begin (a : Z) (vm : VirtualMemory) (c : PagingStructureCache) : nat := (Z.to_nat (set_idx a vm c) * NUM_WAY c)%nat.
(** The range [set_begin, set_end), and the cache with the range replaced. *)
Definition set_of (a : Z) (vm : VirtualMemory) (c : PagingStructureCache) : list block_t :=
  take (NUM_WAY c) (drop (set_begin a vm c) (block c)).
Definition put_set (a : Z) (vm : VirtualMemory) (s : list block_t) (c : PagingStructureCache) : PagingStructureCache :=
  c <| block := take (set_begin a vm c) (block c) ++ s ++ drop (set_begin a vm c + NUM_WAY c) (block c) |>.

Definition fill_cache (next_level_paddr vaddr : Z) (vm : VirtualMemory) (c : PagingStructureCache) : cres PagingStructureCache :=
  let s := set_of vaddr vm c in
  let fill_block := max_element lru_comparator s in
  match s !! fill_block with
  | None => Abort "end iterator"
  | Some b =>
    Ret (put_set vaddr vm (lru_updater (k_lru b) <$> <[fill_block := mkBlk true vaddr next_level_paddr (k_lru b)]> s) c)
  end.

Definition check_hit (address : Z) (vm : VirtualMemory) (c : PagingStructureCache) : option Z :=
  let s := set_of address vm c in
  match s !! find_if (eq_addr address (shamt (level c + 1) vm)) s with
  | Some hit_block => Some (splice_bits (k_data hit_block) (u64 (get_offset address (level c) vm * PTE_BYTES)) LOG2_PAGE_SIZE)
  | None => None
  end.

(** ** The walker *)

Record ptw_params := mkPtwParams {
  ptw_cpu : Z;
  ptw_fill_level : Z;
  MSHR_SIZE : Z;
  MAX_READ : nat;
  MAX_FILL : nat;
  self : nat;
}.

Record PageTableWalker := mkPTW {
  RQ : delay_queue PACKET;
  MSHR : list (nat * PACKET);
  next_node : nat;
  total_miss_latency : Z;
  PSCL5 : PagingStructureCache;
  PSCL4 : PagingStructureCache;
  PSCL3 : PagingStructureCache;
  PSCL2 : PagingStructureCache;
  CR3_addr : Z;
  current_cycle : Z;
  vmem : VirtualMemory;
  lower_level : L;
  returned : calls;
}.
#[global] Instance eta_PTW : Settable PageTableWalker :=
  mkEta _ (fun x => mkPTW (RQ x) (MSHR x) (next_node x) (total_miss_latency x) (PSCL5 x) (PSCL4 x) (PSCL3 x) (PSCL2 x)
    (CR3_addr x) (current_cycle x) (vmem x) (lower_level x) (returned x)).

Context (k : ptw_params) (warmup_complete : Z -> bool).
Implicit Types w : PageTableWalker.
Local Abbreviation warm := (warmup_complete (ptw_cpu k)).

Definition new_PTW (uninit : Z) (rq_size : nat) (latency : Z) (sets5 sets4 sets3 sets2 : Z) (ways5 ways4 ways3 ways2 : nat)
    (vm : VirtualMemory) (l : L) : cres PageTableWalker :=
  let* r := get_pte_pa (ptw_cpu k) 0 (pt_levels vm) vm in
  Ret (mkPTW (new_delay_queue (new_PACKET uninit) rq_size latency) [] 0 0 (new_PSC uninit 4 sets5 ways5)
    (new_PSC uninit 3 sets4 ways4) (new_PSC uninit 2 sets3 ways3) (new_PSC uninit 1 sets2 ways2) r.1.1 0 r.2 l []).

(** [MSHR.sort(ord_event_cycle<PACKET>())], which is stable. *)
Fixpoint sort_insert (x : nat * PACKET) (l : list (nat * PACKET)) : list (nat * PACKET) :=
  match l with
  | [] => [x]
  | y :: l' => if ord_event_cycle y.2 x.2 then y :: sort_insert x l' else x :: l
  end.
Definition mshr_sort (l : list (nat * PACKET)) : list (nat * PACKET) := foldr sort_insert [] l.

(** Assignments through an iterator, and the node it points to. *)
Definition modify_node (it : nat) (f : PACKET -> PACKET) w : PageTableWalker :=
  w <| MSHR ::= fmap (fun x => if (x.1 =? it)%nat then (x.1, f x.2) else x) |>.
Definition erase_node (it : nat) (l : list (nat * PACKET)) : list (nat * PACKET) := List.filter (fun x => negb (x.1 =? it)%nat) l.
Definition the_node (it : nat) (l : list (nat * PACKET)) : list (nat * PACKET) := List.filter (fun x => (x.1 =? it)%nat) l.

Definition LOG2_BLOCK_SIZE : Z := lg2 BLOCK_SIZE.

Definition return_data (packet : PACKET) w : PageTableWalker :=
  w <| MSHR ::= fun l => mshr_sort ((fun x => if eq_addr (address packet) LOG2_BLOCK_SIZE x.2
         then (x.1, x.2 <| event_cycle := current_cycle w |>) else x) <$> l) |>.

(** The calls a level makes: answers to this walker, and to others. *)
Fixpoint deliver (l : calls) w : PageTableWalker :=
  match l with
  | [] => w
  | (ret, pkt) :: l =>
    deliver l (if (ret =? self k)%nat then return_data pkt w else w <| returned ::= fun r => r ++ [(ret, pkt)] |>)
  end.

(** [lower_level->add_rq(&packet)] *)
Definition send (packet : PACKET) w : cres (Z * PACKET * PageTableWalker) :=
  let* r := ll_add_rq packet (lower_level w) in
  let '(rq_index, packet, ret_calls, l) := r in
  Ret (rq_index, packet, deliver ret_calls (w <| lower_level := l |>)).

(** *** Starting a walk *)

(** Where a walk starts: the last of the caches that hits, or the root. *)
Definition walk_start (a : Z) w : Z * Z :=
  foldl (fun s pscl => match check_hit a (vmem w) pscl with
                       | Some check_addr => (check_addr, level pscl - 1)
                       | None => s
                       end)
    (splice_bits (CR3_addr w) (u64 (get_offset a (pt_levels (vmem w) - 1) (vmem w) * PTE_BYTES)) LOG2_PAGE_SIZE,
     pt_levels (vmem w) - 1)
    [PSCL5 w; PSCL4 w; PSCL3 w; PSCL2 w].

(** One turn of the loop; [false] when the function returns from within. *)
Definition handle_read_step w : cres (bool * PageTableWalker) :=
  let* handle_pkt := dq_front (RQ w) in
  let '(ptw_addr, ptw_level) := walk_start (address handle_pkt) w in
  let packet := handle_pkt <| fill_level := u8 (ll_fill_level (lower_level w)) |> <| address := ptw_addr |>
    <| v_address := address handle_pkt |> <| cpu := ptw_cpu k |> <| type := TRANSLATION |>
    <| init_translation_level := u8 ptw_level |> <| translation_level := u8 ptw_level |> <| to_return := [self k] |> in
  let* r := send packet w in
  let '(rq_index, packet, w) := r in
  if rq_index =? -2 then Ret (false, w)
  else
    let packet := packet <| to_return := to_return handle_pkt |> <| type := type handle_pkt |>
      <| cycle_enqueued := current_cycle w |> <| event_cycle := UINT64_MAX |> in
    let* q := dq_pop_front (RQ w) in
    Ret (true, w <| MSHR ::= fun l => l ++ [(next_node w, packet)] |> <| next_node ::= S |> <| RQ := q |>).

Fixpoint read_loop (reads_this_cycle : nat) w : cres PageTableWalker :=
  match reads_this_cycle with
  | O => Ret w
  | S reads =>
    if has_ready (RQ w) && negb (Z.of_nat (length (MSHR w)) =? MSHR_SIZE k) then
      let* r := handle_read_step w in
      if r.1 then read_loop reads r.2 else Ret r.2
    else Ret w
  end.
Definition handle_read w : cres PageTableWalker := read_loop (MAX_READ k) w.

(** *** Going down a level *)

(** The page fault of the node [it]: it is looked at again after the penalty. *)
Definition put_off (it : nat) w : PageTableWalker :=
  modify_node it (fun e => e <| event_cycle := u64 (current_cycle w + minor_fault_penalty (vmem w)) |>) w <| MSHR ::= mshr_sort |>.

Definition finish_walk (it : nat) (fill_mshr : PACKET) w : cres PageTableWalker :=
  let* r := va_to_pa (ptw_cpu k) (v_address fill_mshr) (vmem w) in
  let '((addr, fault), vm) := r in
  let w := w <| vmem := vm |> in
  if warm && fault then Ret (put_off it w)
  else
    let fill_mshr := fill_mshr <| data := addr |> <| address := v_address fill_mshr |> in
    let w := modify_node it (fun _ => fill_mshr) w in
    let w := deliver (Cache.return_to_all fill_mshr) w in
    let w := if warm then w <| total_miss_latency ::= fun t => u64 (t + u64 (current_cycle w - cycle_enqueued fill_mshr)) |> else w in
    Ret (w <| MSHR ::= erase_node it |>).

(** The paging structure caches filled at a level. *)
Definition fill_caches (translation_level addr vaddr : Z) w : cres PageTableWalker :=
  let fill (b : bool) (c : PagingStructureCache) := if b then fill_cache addr vaddr (vmem w) c else Ret c in
  let* p5 := fill (translation_level =? level (PSCL5 w)) (PSCL5 w) in
  let* p4 := fill (translation_level =? level (PSCL4 w)) (PSCL4 w) in
  let* p3 := fill (translation_level =? level (PSCL2 w)) (PSCL3 w) in
  let* p2 := fill (translation_level =? level (PSCL2 w)) (PSCL2 w) in
  Ret (w <| PSCL5 := p5 |> <| PSCL4 := p4 |> <| PSCL3 := p3 |> <| PSCL2 := p2 |>).

Definition next_level (it : nat) (fill_mshr : PACKET) w : cres PageTableWalker :=
  let* r := get_pte_pa (ptw_cpu k) (v_address fill_mshr) (translation_level fill_mshr) (vmem w) in
  let '((addr, fault), vm) := r in
  let w := w <| vmem := vm |> in
  if warm && fault then Ret (put_off it w)
  else
    let* w := fill_caches (translation_level fill_mshr) addr (v_address fill_mshr) w in
    let packet := fill_mshr <| cpu := ptw_cpu k |> <| type := TRANSLATION |> <| address := addr |> <| to_return := [self k] |>
      <| translation_level := u8 (translation_level fill_mshr - 1) |> in
    let* r := send packet w in
    let '(rq_index, packet, w) := r in
    if rq_index =? -2 then Ret w
    else
      let w := modify_node it (fun e => e <| event_cycle := UINT64_MAX |> <| address := address packet |>
                                          <| translation_level ::= fun t => u8 (t - 1) |>) w in
      Ret (w <| MSHR ::= fun l => erase_node it l ++ the_node it l |>).

Fixpoint fill_loop (fill_this_cycle : nat) w : cres PageTableWalker :=
  match fill_this_cycle, MSHR w with
  | S fills, (it, fill_mshr) :: _ =>
    if event_cycle fill_mshr <=? current_cycle w then
      let* w := if translation_level fill_mshr =? 0 then finish_walk it fill_mshr w else next_level it fill_mshr w in
      fill_loop fills w
    else Ret w
  | _, _ => Ret w
  end.
Definition handle_fill w : cres PageTableWalker := fill_loop (MAX_FILL k) w.

Definition operate w : cres PageTableWalker :=
  let* w := handle_fill w in
  let* w := handle_read w in
  Ret (w <| RQ ::= Delay.operate |>).

(** [_operate] of a component at the highest frequency. *)
Definition _operate w : cres PageTableWalker :=
  let* w := operate w in Ret (w <| current_cycle ::= fun c => u64 (c + 1) |>).

(** *** The walker as a level *)

Definition add_rq (packet : PACKET) w : cres (Z * PACKET * calls * PageTableWalker) :=
  let* _ := cassert (negb (address packet =? 0)) "packet->address != 0" in
  let* _ := cassert (match Cache.dq_find (eq_addr (address packet) LOG2_PAGE_SIZE) (RQ w) with Some _ => false | None => true end)
              "found_rq == RQ.end()" in
  if dq_full (RQ w) then Ret (-2, packet, [], w)
  else
    let* q := dq_push_back packet (RQ w) in
    Ret (dq_occupancy q, packet, [], w <| RQ := q |>).

Definition get_occupancy (queue_type : Z) w : Z :=
  if queue_type =? 0 then count_if (fun x => is_valid x.2) (MSHR w)
  else if queue_type =? 1 then dq_occupancy (RQ w) else 0.
Definition get_size (queue_type : Z) w : Z :=
  if queue_type =? 0 then MSHR_SIZE k else if queue_type =? 1 then dq_size (RQ w) else 0.

#[global] Instance ptw_lower_level : LowerLevel PageTableWalker := {|
  ll_fill_level := fun _ => ptw_fill_level k;
  ll_add_rq := add_rq;
  ll_add_wq := fun _ _ => Abort "assert(0)";
  ll_add_pq := fun _ _ => Abort "assert(0)";
  ll_get_occupancy := fun q _ w => Ret (get_occupancy q w);
  ll_get_size := fun q _ w => Ret (get_size q w);
|}.

End Walker.
Arguments PageTableWalker : clear implicits.
Arguments mkPTW {L}.
Arguments RQ {L}.
Arguments MSHR {L}.
Arguments next_node {L}.
Arguments total_miss_latency {L}.
Arguments PSCL5 {L}.
Arguments PSCL4 {L}.
Arguments PSCL3 {L}.
Arguments PSCL2 {L}.
Arguments CR3_addr {L}.
Arguments current_cycle {L}.
Arguments vmem {L}.
Arguments lower_level {L}.
Arguments returned {L}.

End Ptw.
