(* ===== verification/SimPtwSpec.v ===== *)
(** * ChampSim: the page-table walker answers with translations

    The invariant of the walker of src/ptw.cc, over a level that keeps the contract
    [LowerLevelOk], and what it shows: every accepted request is answered at most
    once, with the translation of its page, and is otherwise still held. *)

From stdpp Require Import base list gmap.
From S2P Require Import Prelude SimUtil SimQueue SimVmem SimCache SimCacheSpec SimPtw.
Import Util Mem Circ Delay Vmem Ptw.
Local Open Scope Z_scope.
Local Open Scope c_scope.

Module PtwSpec.
Section Spec.
Context `{Config} {L : Type} `{LowerLevel L} `{!CacheSpec.LowerLevelOk L}.
Context (k : ptw_params) (warmup_complete : Z -> bool).
Context (lp : Z) (Hlp : 3 < lp <= 20) (HPS : PAGE_SIZE = 2 ^ lp).
Local Abbreviation walker := (PageTableWalker L).
Implicit Types w : walker.

(** ** Page tables *)

Lemma psize_pos : 0 < PAGE_SIZE.
Proof using Hlp HPS. rewrite HPS. apply Z.pow_pos_nonneg; lia. Qed.

(** A page that may hold a page table. *)
Definition table_page (p : Z) : Prop := p mod PAGE_SIZE = 0 /\ PAGE_SIZE <= p < 2 ^ 64.

(** The address of the entry for [v] in the page [p] of a table of level [lv]. *)
Definition pte (vm : VirtualMemory) (p v lv : Z) : Z :=
  splice_bits p (u64 (get_offset v lv vm * PTE_BYTES)) (lg2 (page_size vm)).
Definition table_key (vm : VirtualMemory) (v lv : Z) : Z * Z * Z := (ptw_cpu k, Z.shiftr v (shamt (lv + 1) vm), lv).

Record vm_ok (vm : VirtualMemory) : Prop := {
  vm_size : page_size vm = PAGE_SIZE;
  vm_levels : 1 <= pt_levels vm <= 256;
  vm_next : table_page (next_pte_page vm);
  vm_tables : map_Forall (fun _ p => table_page p) (page_table vm);
}.

(** Pages are only added. *)
Record vm_le (vm vm' : VirtualMemory) : Prop := {
  le_pages : vpage_to_ppage_map vm ⊆ vpage_to_ppage_map vm';
  le_tables : page_table vm ⊆ page_table vm';
  le_size : page_size vm' = page_size vm;
  le_levels : pt_levels vm' = pt_levels vm;
}.

#[global] Instance vm_le_preorder : PreOrder vm_le.
Proof.
  split; [by intros vm|]. intros a b c [] []. constructor; [by etrans|by etrans|congruence|congruence].
Qed.

(** Memory for [n] more pages and page tables. *)
Definition budget (n : nat) (vm : VirtualMemory) : Prop :=
  next_pte_page vm + Z.of_nat n * PAGE_SIZE < 2 ^ 64 /\ (n < length (ppage_free_list vm))%nat.

Lemma budget_mono n m vm : (n <= m)%nat -> budget m vm -> budget n vm.
Proof using Hlp HPS. pose proof psize_pos. intros Hn [? ?]. split; [nia|lia]. Qed.

Lemma splice_twice p x y :
  0 <= p < 2 ^ 64 -> splice_bits (splice_bits p x lp) y lp = splice_bits p y lp.
Proof using Hlp.
  intros Hp. assert (0 < 2 ^ lp) as H2 by (apply Z.pow_pos_nonneg; lia). pose proof (Z.mod_pos_bound x (2 ^ lp) H2).
  assert (2 ^ 64 = 2 ^ (64 - lp) * 2 ^ lp) as E by (rewrite <- Z.pow_add_r by lia; f_equal; lia).
  assert (p / 2 ^ lp < 2 ^ (64 - lp)) by (apply Z.div_lt_upper_bound; lia).
  assert (0 <= p / 2 ^ lp) by (apply Z.div_pos; lia).
  rewrite (splice_bits_spec p x) by lia. rewrite splice_bits_spec by nia. rewrite (splice_bits_spec p y) by lia.
  rewrite Z.div_add_l, (Z.div_small (x mod 2 ^ lp)) by lia. by rewrite Z.add_0_r.
Qed.

Lemma splice_nonzero p y : PAGE_SIZE <= p < 2 ^ 64 -> splice_bits p y lp <> 0 /\ PAGE_SIZE <= splice_bits p y lp < 2 ^ 64.
Proof using Hlp HPS.
  intros Hp. pose proof psize_pos as HP. rewrite splice_bits_spec, <- HPS by lia. pose proof (Z.mod_pos_bound y PAGE_SIZE HP).
  assert (1 <= p / PAGE_SIZE) by (apply Z.div_le_lower_bound; lia).
  assert (2 ^ 64 = 2 ^ (64 - lp) * PAGE_SIZE) as E by (rewrite HPS, <- Z.pow_add_r by lia; f_equal; lia).
  assert (p / PAGE_SIZE < 2 ^ (64 - lp)) by (apply Z.div_lt_upper_bound; lia). nia.
Qed.

Lemma pte_eq vm p v lv : vm_ok vm -> pte vm p v lv = splice_bits p (u64 (get_offset v lv vm * PTE_BYTES)) lp.
Proof using Hlp HPS. intros Hv. unfold pte. by rewrite (vm_size _ Hv), HPS, lg2_pow2 by lia. Qed.

Lemma shamt_le vm vm' lv : vm_le vm vm' -> shamt lv vm' = shamt lv vm.
Proof. intros Hle. unfold shamt. by rewrite (le_size _ _ Hle). Qed.

Lemma pte_le vm vm' p v lv : vm_le vm vm' -> pte vm' p v lv = pte vm p v lv.
Proof. intros Hle. unfold pte, get_offset. by rewrite (shamt_le _ _ _ Hle), (le_size _ _ Hle). Qed.

Lemma table_key_le vm vm' v lv : vm_le vm vm' -> table_key vm' v lv = table_key vm v lv.
Proof. intros Hle. unfold table_key. by rewrite (shamt_le _ _ _ Hle). Qed.

Lemma next_page p : table_page p -> p + PAGE_SIZE < 2 ^ 64 -> u64 (p + PAGE_SIZE) = p + PAGE_SIZE /\ table_page (p + PAGE_SIZE).
Proof using Hlp HPS.
  pose proof psize_pos. intros [Hm Hr] Hlt. rewrite u64_small by lia. split; [done|]. split; [|lia].
  rewrite <- (Z.mul_1_l PAGE_SIZE) at 1. by rewrite Z.mod_add by lia.
Qed.

Lemma get_pte_pa_ok n v lv vm :
  vm_ok vm -> budget (S n) vm -> exists f vm' p, get_pte_pa (ptw_cpu k) v lv vm = Ret ((pte vm p v lv, f), vm') /\
  vm_ok vm' /\ vm_le vm vm' /\ budget n vm' /\ page_table vm' !! table_key vm v lv = Some p /\ table_page p /\
  f = bool_decide (page_table vm !! table_key vm v lv = None).
Proof using Hlp HPS.
  intros Hv [Hn Hf]. unfold get_pte_pa. fold (table_key vm v lv). pose proof psize_pos as HP.
  destruct (page_table vm !! table_key vm v lv) as [p|] eqn:E.
  - exists false, vm, p. split_and!; try done; [split; [nia|lia]|by apply (vm_tables _ Hv _ _ E)].
  - assert (next_pte_page vm + PAGE_SIZE < 2 ^ 64) as Hlt by lia.
    destruct (next_page _ (vm_next _ Hv) Hlt) as [Eu Ht]. rewrite <- (vm_size _ Hv) in Eu at 1.
    cbv zeta. fold (pte vm (next_pte_page vm) v lv). set (a := pte _ _ _ _).
    cbn -[u64 Z.add Z.modulo]. rewrite Eu, (proj1 Ht). cbn -[Z.add].
    eexists true, _, (next_pte_page vm). split; [reflexivity|]. split.
    { destruct Hv as [? ? ? Htb]. constructor; cbn; try done. by apply map_Forall_insert_2. }
    split; [constructor; cbn; [done|by apply insert_subseteq|done..]|]. split; [split; cbn; lia|]. split; [apply lookup_insert_eq|].
    split; [apply Hv|]. done.
Qed.

(** A page that is mapped, as the walker translates. *)
Definition mapped (vm : VirtualMemory) (v p : Z) : Prop := vpage_to_ppage_map vm !! (ptw_cpu k, Z.shiftr v LOG2_PAGE_SIZE) = Some p.

Lemma va_to_pa_ok n v vm :
  vm_ok vm -> budget (S n) vm -> exists f vm' p, va_to_pa (ptw_cpu k) v vm = Ret ((splice_bits p v LOG2_PAGE_SIZE, f), vm') /\
  vm_ok vm' /\ vm_le vm vm' /\ budget n vm' /\ mapped vm' v p /\
  f = bool_decide (vpage_to_ppage_map vm !! (ptw_cpu k, Z.shiftr v LOG2_PAGE_SIZE) = None).
Proof using Hlp HPS.
  intros Hv [Hn Hf]. pose proof psize_pos as HP. unfold va_to_pa, mapped. destruct (ppage_free_list vm) as [|q l] eqn:El; [simpl in Hf; lia|].
  cbn [deque_front cbind]. set (key := (ptw_cpu k, _)). destruct (vpage_to_ppage_map vm !! key) as [p|] eqn:E.
  - exists false, vm, p. split_and!; try done. split; [nia|rewrite El; simpl in *; lia].
  - eexists true, _, q. split; [done|]. split; [by destruct Hv; constructor|].
    split; [constructor; cbn; [by apply insert_subseteq|done..]|].
    split; [split; cbn; [nia|rewrite El; simpl in *; lia]|]. split; [apply lookup_insert_eq|]. done.
Qed.

Lemma mapped_le vm vm' v p : vm_le vm vm' -> mapped vm v p -> mapped vm' v p.
Proof. intros Hle Hm. by eapply lookup_weaken, le_pages. Qed.

(** ** Paging structure caches *)

(** A valid entry holds the address of its page's entry in a table of level [lv]. *)
Definition entry_ok (lv : Z) (vm : VirtualMemory) (b : block_t) : Prop :=
  lv < pt_levels vm /\ exists p, page_table vm !! table_key vm (k_address b) lv = Some p /\ k_data b = pte vm p (k_address b) lv.

Record psc_ok (lv : Z) (vm : VirtualMemory) (c : PagingStructureCache) : Prop := {
  psc_sets : 0 < NUM_SET c < 2 ^ 32;
  psc_ways : (0 < NUM_WAY c)%nat;
  psc_length : length (block c) = (Z.to_nat (NUM_SET c) * NUM_WAY c)%nat;
  psc_entries : Forall (fun b => k_valid b = true -> entry_ok lv vm b) (block c);
}.

Lemma entry_ok_le lv vm vm' b : vm_le vm vm' -> entry_ok lv vm b -> entry_ok lv vm' b.
Proof.
  intros Hle (Hlv & p & Hp & Hd). split; [by rewrite (le_levels _ _ Hle)|]. exists p.
  rewrite (table_key_le _ _ _ _ Hle), (pte_le _ _ _ _ _ Hle). split; [|done]. by eapply lookup_weaken, le_tables.
Qed.

Lemma psc_ok_le lv vm vm' c : vm_le vm vm' -> psc_ok lv vm c -> psc_ok lv vm' c.
Proof.
  intros Hle []. constructor; try done. eapply list.Forall_impl; [eassumption|]. intros b Hb Hv. apply (entry_ok_le _ _ _ _ Hle), Hb, Hv.
Qed.

Lemma new_PSC_ok lv' vm uninit lv sets ways : 0 < sets < 2 ^ 32 -> (0 < ways)%nat -> psc_ok lv' vm (new_PSC uninit lv sets ways).
Proof. intros Hs Hw. constructor; cbn; try done; [apply length_replicate|]. by apply Forall_replicate. Qed.

Lemma set_idx_lt a lv vm c : psc_ok lv vm c -> (Z.to_nat (set_idx a vm c) < Z.to_nat (NUM_SET c))%nat.
Proof.
  intros [Hs _ _ _]. unfold set_idx. rewrite lg2_log2 by lia. pose proof (Z.log2_nonneg (NUM_SET c)).
  assert (Z.log2 (NUM_SET c) < 32) by (apply Z.log2_lt_pow2; lia). rewrite land_bitmask by lia.
  destruct (Z.log2_spec (NUM_SET c)) as [Hl _]; [lia|].
  assert (0 < 2 ^ Z.log2 (NUM_SET c)) as Hp by (apply Z.pow_pos_nonneg; lia).
  pose proof (Z.mod_pos_bound (Z.shiftr a (shamt (level c + 1) vm)) _ Hp). lia.
Qed.

Lemma length_set_of a lv vm c : psc_ok lv vm c -> length (set_of a vm c) = NUM_WAY c.
Proof.
  intros Hc. pose proof (set_idx_lt a lv vm c Hc). unfold set_of, set_begin. rewrite length_take, length_drop, (psc_length _ _ _ Hc). nia.
Qed.

Lemma psc_put_set_length a lv vm s c :
  psc_ok lv vm c -> length s = NUM_WAY c -> length (block (put_set a vm s c)) = length (block c).
Proof.
  intros Hc Hs. pose proof (set_idx_lt a lv vm c Hc) as Hi. cbn. rewrite !length_app, length_take, length_drop, Hs, (psc_length _ _ _ Hc).
  unfold set_begin. nia.
Qed.

Lemma lru_updater_same v b : k_valid (lru_updater v b) = k_valid b /\ k_address (lru_updater v b) = k_address b /\ k_data (lru_updater v b) = k_data b.
Proof. unfold lru_updater. by destruct (lru_of b =? v). Qed.

Lemma fill_cache_ok lv vm c a v :
  psc_ok lv vm c -> entry_ok lv vm (mkBlk true v a 0) ->
  exists c', fill_cache a v vm c = Ret c' /\ psc_ok lv vm c' /\ level c' = level c.
Proof.
  intros Hc Hnew. unfold fill_cache. pose proof (length_set_of v lv vm c Hc) as Hl. set (s := set_of v vm c) in *.
  assert (s <> []) as Hne by (intros Hs; rewrite Hs in Hl; pose proof (psc_ways _ _ _ Hc); simpl in Hl; lia).
  destruct (lookup_lt_is_Some_2 s (max_element lru_comparator s)) as [b Hb]; [by apply max_element_lt|]. rewrite Hb.
  eexists. split; [done|]. split; [|done]. set (s' := lru_updater _ <$> _).
  assert (length s' = NUM_WAY c) as Hl' by (unfold s'; by rewrite length_fmap, length_insert).
  pose proof Hc as [? ? Hlen Hent]. constructor; try done.
  - rewrite (psc_put_set_length v lv) by done. exact Hlen.
  - cbn. rewrite !Forall_app. split_and!; [by apply Forall_take| |by apply Forall_drop].
    assert (Forall (fun b => k_valid b = true -> entry_ok lv vm b) s) as Hs by (by apply Forall_take, Forall_drop).
    unfold s'. apply Forall_fmap, Forall_insert.
    + eapply list.Forall_impl; [exact Hs|]. intros x Hx. destruct (lru_updater_same (k_lru b) x) as (E1 & E2 & E3). unfold compose, entry_ok.
      rewrite E1, E2, E3. exact Hx.
    + destruct (lru_updater_same (k_lru b) (mkBlk true v a (k_lru b))) as (E1 & E2 & E3). unfold compose, entry_ok.
      rewrite E1, E2, E3. intros _. exact Hnew.
Qed.

(** A hit: an entry for the same prefix of the address. *)
Lemma check_hit_ok lv vm c a x :
  psc_ok lv vm c -> vm_ok vm -> check_hit a vm c = Some x ->
  exists v p, lv < pt_levels vm /\ Z.shiftr v (shamt (level c + 1) vm) = Z.shiftr a (shamt (level c + 1) vm) /\
  page_table vm !! table_key vm v lv = Some p /\ x = pte vm p a (level c).
Proof using Hlp HPS.
  intros Hc Hv. unfold check_hit. set (s := set_of a vm c). set (i := find_if _ s). destruct (s !! i) as [b|] eqn:Eb; [|done]. intros [= <-].
  destruct (find_if_Some _ s (lookup_lt_Some _ _ _ Eb)) as (b' & Eb' & Hp). fold i in Eb'. rewrite Eb in Eb'. injection Eb' as <-.
  unfold eq_addr in Hp. apply andb_true_iff in Hp as [Hval Heq%Z.eqb_eq].
  assert (Forall (fun b => k_valid b = true -> entry_ok lv vm b) s) as Hs by (apply Forall_take, Forall_drop, Hc).
  rewrite Forall_lookup in Hs. destruct (Hs i b Eb Hval) as (Hlv & p & Hp & Hd). exists (k_address b), p.
  split; [done|]. split; [done|]. split; [done|]. rewrite Hd, !pte_eq by done. rewrite (LOG2_PAGE_SIZE_eq lp) by (done || lia).
  apply splice_twice. destruct (vm_tables _ Hv _ _ Hp) as [_ ?]. pose proof psize_pos. lia.
Qed.

(** Of the level a cache is filled for, it answers as the page table does. *)
Lemma check_hit_exact vm c a x :
  psc_ok (level c) vm c -> vm_ok vm -> check_hit a vm c = Some x -> get_pte_pa (ptw_cpu k) a (level c) vm = Ret ((x, false), vm).
Proof using Hlp HPS.
  intros Hc Hv Hx. destruct (check_hit_ok _ vm c a x Hc Hv Hx) as (v & p & _ & He & Hp & ->). unfold get_pte_pa.
  fold (table_key vm a (level c)). replace (table_key vm a (level c)) with (table_key vm v (level c)) by (unfold table_key; by rewrite He).
  by rewrite Hp.
Qed.

(** ** Requests *)

(** What a requester gives, and gets back with the answer. *)
Record request := mkRequest {
  q_address : Z;
  q_to_return : list nat;
  q_type : Z;
  q_instr_id : Z;
  q_ip : Z;
  q_asid : Z * Z;
  q_prefetch : Z * Z;
  q_waiting : list nat * list nat * list nat;
}.
Definition request_of (a : Z) (p : PACKET) : request :=
  mkRequest a (to_return p) (type p) (instr_id p) (ip p) (asid p) (pf_origin_level p, pf_metadata p)
    (lq_index_depend_on_me p, sq_index_depend_on_me p, instr_depend_on_me p).
Definition queued (p : PACKET) : request := request_of (address p) p.
Definition walked (p : PACKET) : request := request_of (v_address p) p.

(** The requests a walker holds. *)
Definition outstanding w : list request := (queued <$> items (RQ w)) ++ ((fun x => walked x.2) <$> MSHR w).

(** An answer: the translation of the address asked for. *)
Definition answer_ok (vm : VirtualMemory) (a : PACKET) : Prop :=
  address a = v_address a /\ exists p, mapped vm (v_address a) p /\ data a = splice_bits p (v_address a) LOG2_PAGE_SIZE.

(** What happened between two states: the requests of [ans] were answered. *)
Record delta w w' (ans : list PACKET) : Prop := {
  d_out : outstanding w ≡ₚ (walked <$> ans) ++ outstanding w';
  d_ret : returned w' = returned w ++ mjoin (Cache.return_to_all <$> ans);
  d_ans : Forall (answer_ok (vmem w')) ans;
  d_vm : vm_le (vmem w) (vmem w');
}.

Lemma answer_ok_le vm vm' a : vm_le vm vm' -> answer_ok vm a -> answer_ok vm' a.
Proof. intros Hle (Ha & p & Hp & Hd). split; [done|]. exists p. split; [by eapply mapped_le|done]. Qed.

Lemma delta_trans w w1 w2 a1 a2 : delta w w1 a1 -> delta w1 w2 a2 -> delta w w2 (a1 ++ a2).
Proof.
  intros [O1 R1 A1 V1] [O2 R2 A2 V2]. constructor.
  - by rewrite O1, O2, fmap_app, <- (assoc_L (++)).
  - rewrite R2, R1, <- (assoc_L (++)). f_equal. rewrite fmap_app. symmetry. exact (join_app _ _).
  - apply Forall_app_2; [|done]. eapply list.Forall_impl; [exact A1|]. intros a. by apply answer_ok_le.
  - by etrans.
Qed.

Lemma delta_none w w' :
  outstanding w ≡ₚ outstanding w' -> returned w' = returned w -> vm_le (vmem w) (vmem w') -> delta w w' [].
Proof. intros O R V. constructor; [done|by rewrite R, app_nil_r|done|done]. Qed.

(** ** The invariant *)

Definition miss_ok (vm : VirtualMemory) (x : nat * PACKET) : Prop :=
  scheduled x.2 = false /\ (self k ∉ to_return x.2) /\ 0 <= translation_level x.2 < pt_levels vm.

Record ok w : Prop := {
  o_rq : dq_wf (RQ w);
  o_rqs : Forall (fun p => scheduled p = false /\ (self k ∉ to_return p)) (items (RQ w));
  o_nodes : NoDup (MSHR w).*1;
  o_fresh : Forall (fun x => (x.1 < next_node w)%nat) (MSHR w);
  o_misses : Forall (miss_ok (vmem w)) (MSHR w);
  o_levels : level (PSCL5 w) = 4 /\ level (PSCL4 w) = 3 /\ level (PSCL3 w) = 2 /\ level (PSCL2 w) = 1;
  o_5 : psc_ok 4 (vmem w) (PSCL5 w);
  o_4 : psc_ok 3 (vmem w) (PSCL4 w);
  o_3 : psc_ok 1 (vmem w) (PSCL3 w);
  o_2 : psc_ok 1 (vmem w) (PSCL2 w);
  o_root : PAGE_SIZE <= CR3_addr w < 2 ^ 64;
  o_vm : vm_ok (vmem w);
  o_ll : CacheSpec.ll_inv (lower_level w);
}.

Lemma ok_vm_le w vm : ok w -> vm_le (vmem w) vm -> vm_ok vm -> ok (w <| vmem := vm |>).
Proof.
  intros [] Hle Hv. constructor; cbn; try done; try (by eapply psc_ok_le).
  eapply list.Forall_impl; [eassumption|]. intros x (? & ? & ?). split; [done|]. split; [done|]. by rewrite (le_levels _ _ Hle).
Qed.

(** *** Misses up to their time *)

Definition strip (x : nat * PACKET) : nat * PACKET := (x.1, x.2 <| event_cycle := 0 |>).
Definition m_eq (l l' : list (nat * PACKET)) : Prop := strip <$> l ≡ₚ strip <$> l'.

#[global] Instance m_eq_equiv : Equivalence m_eq.
Proof. unfold m_eq. split; [by intros l|by intros ? ? ->|by intros ? ? ? -> ->]. Qed.

Lemma m_eq_perm l l' : l ≡ₚ l' -> m_eq l l'.
Proof. unfold m_eq. by intros ->. Qed.

Lemma m_eq_Forall (P : nat * PACKET -> Prop) l l' :
  (forall x, P (strip x) <-> P x) -> m_eq l l' -> Forall P l -> Forall P l'.
Proof.
  intros HP He Hl. assert (forall l, Forall P (strip <$> l) <-> Forall P l) as Hs.
  { intros m. rewrite Forall_fmap. apply Forall_iff. intros x. apply HP. }
  apply Hs. unfold m_eq in He. rewrite <- He. by apply Hs.
Qed.

Lemma m_eq_walked l l' : m_eq l l' -> (fun x => walked x.2) <$> l ≡ₚ (fun x => walked x.2) <$> l'.
Proof.
  intros He. assert (forall l : list (nat * PACKET), (fun x => walked x.2) <$> l = (fun x => walked x.2) <$> (strip <$> l)) as Hs.
  { intros m. rewrite <- list_fmap_compose. by apply list_fmap_ext. }
  unfold m_eq in He. by rewrite (Hs l), (Hs l'), He.
Qed.

Lemma m_eq_nodes l l' : m_eq l l' -> l.*1 ≡ₚ l'.*1.
Proof.
  intros He. assert (forall l : list (nat * PACKET), l.*1 = (strip <$> l).*1) as Hs.
  { intros m. rewrite <- list_fmap_compose. by apply list_fmap_ext. }
  unfold m_eq in He. by rewrite (Hs l), (Hs l'), He.
Qed.

Lemma ok_m_eq w m : ok w -> m_eq (MSHR w) m -> ok (w <| MSHR := m |>).
Proof.
  intros [] He. constructor; cbn; try done.
  - by rewrite <- (m_eq_nodes _ _ He).
  - by eapply m_eq_Forall; [|exact He|].
  - by eapply m_eq_Forall; [|exact He|].
Qed.

Lemma sort_insert_perm x l : sort_insert x l ≡ₚ x :: l.
Proof. induction l as [|y l IH]; simpl; [done|]. destruct (ord_event_cycle y.2 x.2); [|done]. rewrite IH. apply Permutation_swap. Qed.

Lemma mshr_sort_perm l : mshr_sort l ≡ₚ l.
Proof. induction l as [|x l IH]; simpl; [done|]. by rewrite sort_insert_perm, IH. Qed.

(** A step that changes times and the order only. *)
Lemma m_eq_retime f l : (forall x, strip (f x) = strip x) -> m_eq l (mshr_sort (f <$> l)).
Proof.
  intros Hf. etrans; [|apply m_eq_perm; symmetry; apply mshr_sort_perm]. unfold m_eq. rewrite <- list_fmap_compose.
  apply reflexive_eq, list_fmap_ext. intros ? x _. symmetry. apply Hf.
Qed.

Lemma return_data_eq p w : return_data p w = w <| MSHR := MSHR (return_data p w) |> /\ m_eq (MSHR w) (MSHR (return_data p w)).
Proof. split; [by destruct w|]. apply m_eq_retime. intros x. by destruct (eq_addr _ _ _). Qed.

Lemma put_off_eq it w : put_off it w = w <| MSHR := MSHR (put_off it w) |> /\ m_eq (MSHR w) (MSHR (put_off it w)).
Proof. split; [by destruct w|]. apply m_eq_retime. intros x. by destruct (x.1 =? it)%nat. Qed.

Lemma deliver_others l w : Forall (fun c => c.1 <> self k) l -> deliver k l w = w <| returned ::= fun r => r ++ l |>.
Proof.
  intros Hl. revert w. induction Hl as [|[r p] l Hr _ IH]; intros w; simpl; [by destruct w; cbn; rewrite app_nil_r|].
  destruct (Nat.eqb_spec r (self k)) as [|_]; [done|]. rewrite IH. cbn. by rewrite <- (assoc_L (++)).
Qed.

(** ** Sending *)

Lemma send_ok p w :
  ok w -> address p <> 0 -> scheduled p = false -> to_return p = [self k] ->
  exists res d l m, send k p w = Ret (res, p <| data := d |>, w <| lower_level := l |> <| MSHR := m |>) /\
  m_eq (MSHR w) m /\ ok (w <| lower_level := l |> <| MSHR := m |>) /\ delta w (w <| lower_level := l |> <| MSHR := m |>) [].
Proof.
  intros Hw Ha Hs Ht. assert (CacheSpec.request_ok p) as Hp.
  { split; [done|]. split; [done|]. rewrite Ht. constructor; [constructor|constructor]. }
  destruct (CacheSpec.ll_add_rq_ok p (lower_level w) (o_ll w Hw) Hp) as (res & p' & cs & l & E & Hi & _ & Ep & Hcs & _).
  unfold send. rewrite E. cbn [cbind]. set (w1 := w <| lower_level := l |>).
  assert (exists m, deliver k cs w1 = w1 <| MSHR := m |> /\ m_eq (MSHR w1) m) as (m & Ed & Hm).
  { destruct Hcs as [-> | ->]; [exists (MSHR w1); by split; [destruct w|]|]. rewrite Ht. cbn [fmap list_fmap deliver].
    rewrite Nat.eqb_refl. eexists. apply return_data_eq. }
  assert (ok (w1 <| MSHR := m |>)) as Hok by (apply ok_m_eq; [by destruct Hw; constructor|done]).
  exists res, (data p'), l, m. rewrite Ed, <- Ep. split_and!; try done. apply delta_none; [|done|done].
  apply Permutation_app; [done|]. by apply m_eq_walked.
Qed.

(** ** Starting a walk *)

Lemma walk_start_ok a w : ok w -> (walk_start a w).1 <> 0 /\ 0 <= (walk_start a w).2 < pt_levels (vmem w).
Proof using Hlp HPS.
  intros Hw. destruct (o_levels w Hw) as (E5 & E4 & E3 & E2). pose proof (o_vm w Hw) as Hv. unfold walk_start.
  assert (forall lv c s, psc_ok lv (vmem w) c -> 1 <= level c <= lv + 1 -> s.1 <> 0 /\ 0 <= s.2 < pt_levels (vmem w) ->
    let s' := match check_hit a (vmem w) c with Some x => (x, level c - 1) | None => s end in
    s'.1 <> 0 /\ 0 <= s'.2 < pt_levels (vmem w)) as Hstep.
  { intros lv c s Hc Hl Hs. destruct (check_hit a (vmem w) c) as [x|] eqn:E; [|done].
    destruct (check_hit_ok lv _ _ _ _ Hc Hv E) as (v & p & Hlv & _ & Hp & ->). cbn. split; [|lia].
    rewrite pte_eq by done. apply splice_nonzero. apply (vm_tables _ Hv _ _ Hp). }
  cbn [foldl].
  eapply Hstep; [apply Hw|lia|]. eapply Hstep; [apply Hw|lia|]. eapply Hstep; [apply Hw|lia|]. eapply Hstep; [apply Hw|lia|].
  cbn [fst snd]. rewrite (LOG2_PAGE_SIZE_eq lp) by (done || lia). split; [apply splice_nonzero, Hw|]. pose proof (vm_levels _ Hv). lia.
Qed.

Lemma handle_read_step_ok w p ps :
  ok w -> items (RQ w) = p :: ps -> (0 < ready (RQ w))%nat ->
  exists b w', handle_read_step k w = Ret (b, w') /\ ok w' /\ delta w w' [] /\ vmem w' = vmem w.
Proof using Hlp HPS.
  intros Hw Hq Hrd. unfold handle_read_step. rewrite (dq_front_spec _ _ _ (o_rq w Hw) Hq). cbn [cbind].
  destruct (walk_start_ok (address p) w Hw) as [Ha Hl]. destruct (walk_start (address p) w) as [a lv]. cbn in Ha, Hl.
  pose proof (o_rqs w Hw) as Hp. rewrite Hq in Hp. apply list.Forall_cons in Hp as [[Hs Hr] Hps].
  set (p1 := p <| fill_level := _ |> <| address := _ |> <| v_address := _ |> <| cpu := _ |> <| type := _ |> <| init_translation_level := _ |>
               <| translation_level := _ |> <| to_return := _ |>).
  destruct (send_ok p1 w Hw Ha Hs eq_refl) as (res & d & l & m & E & Hm & Hok & Hd). rewrite E. cbn [cbind].
  set (w1 := w <| lower_level := l |> <| MSHR := m |>) in *. destruct (res =? -2); [by exists false, w1|].
  destruct (dq_pop_front_spec (RQ w) p ps (o_rq w Hw) Hq Hrd) as (q & Eq & Hqw & Hqi & _). change (RQ w1) with (RQ w). rewrite Eq. cbn [cbind].
  eexists true, _. split; [reflexivity|]. split; [|split; [|done]].
  - pose proof (vm_levels _ (o_vm w Hw)) as Hlv.
    destruct Hok as [? ? Hn Hf Hms ? ? ? ? ? ? ? ?]. constructor; cbn; try done.
    + by rewrite Hqi.
    + rewrite fmap_app. apply list.NoDup_app. split; [done|]. split; [|apply NoDup_singleton].
      intros n Hn1 ->%list_elem_of_singleton. apply list_elem_of_fmap in Hn1 as (x & Ex & Hx).
      rewrite list.Forall_forall in Hf. specialize (Hf x Hx). cbn in Ex. change (next_node w1) with (next_node w) in Hf. lia.
    + apply Forall_app_2; [|apply Forall_singleton; cbn; lia]. eapply list.Forall_impl; [exact Hf|]. intros x Hx. cbn in *. lia.
    + apply Forall_app_2; [done|]. apply Forall_singleton. split; [done|]. split; [done|]. cbn. unfold u8. rewrite Z.mod_small by lia. done.
  - apply delta_none; [|done|done]. destruct Hd as [Ho _ _ _]. rewrite Ho. cbn [fmap list_fmap app]. unfold outstanding. cbn.
    rewrite Hq, Hqi, fmap_app. cbn [fmap list_fmap]. rewrite (Permutation_app_comm _ [_]). cbn [app].
    exact (Permutation_middle (queued <$> ps) ((fun x => walked x.2) <$> m) (queued p)).
Qed.

Lemma read_loop_ok n w : ok w -> exists w', read_loop k n w = Ret w' /\ ok w' /\ delta w w' [] /\ vmem w' = vmem w.
Proof using Hlp HPS.
  revert w. induction n as [|n IH]; intros w Hw; cbn [read_loop]; [exists w; split_and!; try done; by apply delta_none|].
  destruct (has_ready (RQ w) && _) eqn:Ec; [|exists w; split_and!; try done; by apply delta_none].
  apply andb_true_iff in Ec as [Hr _]. rewrite has_ready_spec in Hr by apply Hw. apply bool_decide_eq_true in Hr.
  destruct (items (RQ w)) as [|p ps] eqn:Hq; [destruct (o_rq w Hw) as (_ & _ & _ & _ & _ & _ & Hle); rewrite Hq in Hle; simpl in Hle; lia|].
  destruct (handle_read_step_ok w p ps Hw Hq Hr) as (b & w1 & E & Hw1 & Hd1 & Ev1). rewrite E. cbn [cbind fst snd].
  destruct b; [|by exists w1]. destruct (IH w1 Hw1) as (w2 & E2 & Hw2 & Hd2 & Ev2). exists w2. split_and!; try done; [|congruence].
  exact (delta_trans _ _ _ _ _ Hd1 Hd2).
Qed.

(** ** Progress

    A walk at level [t] has [t] more tables to read; each may fault once before. *)

Definition faulted (vm : VirtualMemory) (e : PACKET) : bool :=
  if translation_level e =? 0 then bool_decide (vpage_to_ppage_map vm !! (ptw_cpu k, Z.shiftr (v_address e) LOG2_PAGE_SIZE) <> None)
  else bool_decide (page_table vm !! table_key vm (v_address e) (translation_level e) <> None).
Definition pending (vm : VirtualMemory) (e : PACKET) : Z := 2 * translation_level e + if faulted vm e then 1 else 2.
Definition work (vm : VirtualMemory) (l : list (nat * PACKET)) : Z := foldr (fun x s => pending vm x.2 + s) 0 l.

Lemma work_perm vm l l' : l ≡ₚ l' -> work vm l = work vm l'.
Proof. induction 1; simpl; lia. Qed.

Lemma work_m_eq vm l l' : m_eq l l' -> work vm l = work vm l'.
Proof.
  assert (forall l, work vm l = work vm (strip <$> l)) as Hs by (intros m; induction m as [|x m IH]; simpl; [done|]; by rewrite IH).
  intros He. rewrite (Hs l), (Hs l'). by apply work_perm.
Qed.

Lemma faulted_le vm vm' e : vm_le vm vm' -> faulted vm e = true -> faulted vm' e = true.
Proof.
  intros Hle. unfold faulted. rewrite (table_key_le _ _ _ _ Hle). destruct (translation_level e =? 0); rewrite !bool_decide_eq_true;
    intros Hm Hn; apply Hm; (eapply lookup_weaken_None; [exact Hn|apply Hle]).
Qed.

Lemma pending_le vm vm' e : vm_le vm vm' -> pending vm' e <= pending vm e.
Proof.
  intros Hle. unfold pending. destruct (faulted vm e) eqn:E; [rewrite (faulted_le _ _ _ Hle E); lia|]. destruct (faulted vm' e); lia.
Qed.

Lemma work_le vm vm' l : vm_le vm vm' -> work vm' l <= work vm l.
Proof. intros Hle. induction l as [|x l IH]; simpl; [done|]. pose proof (pending_le _ _ x.2 Hle). lia. Qed.

(** The level below refuses a request. *)
Definition refuses (l : L) : Prop := exists p r, ll_add_rq p l = Ret r /\ r.1.1.1 = -2.

(** ** A turn of [handle_fill] *)

Lemma modify_others it f rest :
  it ∉ rest.*1 -> (fun x : nat * PACKET => if (x.1 =? it)%nat then (x.1, f x.2) else x) <$> rest = rest.
Proof.
  intros Hn. induction rest as [|x rest IH]; [done|]. apply not_elem_of_cons in Hn as [Hx Hn]. cbn [fmap list_fmap].
  destruct (Nat.eqb_spec x.1 it) as [|_]; [done|]. f_equal. by apply IH.
Qed.

Lemma erase_others it rest : it ∉ rest.*1 -> erase_node it rest = rest.
Proof.
  intros Hn. induction rest as [|x rest IH]; [done|]. apply not_elem_of_cons in Hn as [Hx Hn]. unfold erase_node. cbn.
  destruct (Nat.eqb_spec x.1 it) as [|_]; [done|]. cbn. f_equal. by apply IH.
Qed.

Lemma splice_perm it l : erase_node it l ++ the_node it l ≡ₚ l.
Proof.
  unfold erase_node, the_node. induction l as [|x l IH]; [done|]. cbn. destruct (x.1 =? it)%nat; cbn; [|by rewrite IH].
  by rewrite <- Permutation_middle, IH.
Qed.

Lemma ok_cons w it e rest : ok w -> MSHR w = (it, e) :: rest -> (it ∉ rest.*1) /\ ok (w <| MSHR := rest |>).
Proof.
  intros [? ? Hn Hf Hm ? ? ? ? ? ? ? ?] E. rewrite E in Hn, Hf, Hm. apply list.NoDup_cons in Hn as [Hi Hn].
  apply list.Forall_cons in Hf as [_ Hf], Hm as [_ Hm]. split; [done|]. by constructor.
Qed.

Lemma put_off_ok w vm it e rest :
  ok w -> vm_ok vm -> vm_le (vmem w) vm -> MSHR w = (it, e) :: rest -> faulted (vmem w) e = false -> faulted vm e = true ->
  let w' := put_off it (w <| vmem := vm |>) in ok w' /\ delta w w' [] /\ vmem w' = vm /\ work vm (MSHR w') < work (vmem w) (MSHR w).
Proof.
  intros Hw Hv Hle E F1 F2 w'. destruct (put_off_eq it (w <| vmem := vm |>)) as [Ew Hm]. fold w' in Ew, Hm.
  change (MSHR (w <| vmem := vm |>)) with (MSHR w) in Hm.
  split; [rewrite Ew; by apply ok_m_eq; [apply ok_vm_le|]|]. split; [|split; [done|]].
  - apply delta_none; [|done|done]. apply Permutation_app; [done|]. by apply m_eq_walked.
  - rewrite <- (work_m_eq vm _ _ Hm), E. cbn [work foldr snd]. fold (work vm rest) (work (vmem w) rest).
    pose proof (work_le _ _ rest Hle). unfold pending. rewrite F1, F2. lia.
Qed.

Lemma answer_eq w vm it e e' rest :
  MSHR w = (it, e) :: rest -> it ∉ rest.*1 -> self k ∉ to_return e' ->
  let w1 := deliver k (Cache.return_to_all e') (modify_node it (fun _ => e') (w <| vmem := vm |>)) in
  let w2 := if warmup_complete (ptw_cpu k)
            then w1 <| total_miss_latency ::= fun t => u64 (t + u64 (current_cycle w1 - cycle_enqueued e')) |> else w1 in
  exists t, w2 <| MSHR ::= erase_node it |> =
    w <| MSHR := rest |> <| vmem := vm |> <| returned ::= fun r => r ++ Cache.return_to_all e' |> <| total_miss_latency := t |>.
Proof.
  intros E Hn Hs w1 w2. exists (total_miss_latency w2).
  assert (w1 = w <| vmem := vm |> <| MSHR := (it, e') :: rest |> <| returned ::= fun r => r ++ Cache.return_to_all e' |>) as E1.
  { unfold w1. rewrite deliver_others.
    - unfold modify_node. destruct w. cbn in E |- *. rewrite E. cbn. rewrite Nat.eqb_refl. by rewrite (modify_others it (fun _ => e')).
    - apply Forall_fmap, list.Forall_forall. intros r Hr Er. apply Hs. by rewrite <- Er. }
  assert (erase_node it ((it, e') :: rest) = rest) as E2.
  { unfold erase_node. cbn. rewrite Nat.eqb_refl. cbn. by apply erase_others. }
  unfold w2. rewrite E1. destruct w. by destruct (warmup_complete _); cbn -[erase_node]; rewrite E2.
Qed.

Lemma finish_walk_ok n w it e rest :
  ok w -> budget (S n) (vmem w) -> MSHR w = (it, e) :: rest -> translation_level e = 0 ->
  exists w' ans, finish_walk k warmup_complete it e w = Ret w' /\ ok w' /\ delta w w' ans /\ budget n (vmem w') /\
  work (vmem w') (MSHR w') < work (vmem w) (MSHR w).
Proof using Hlp HPS.
  intros Hw Hb E Ht. unfold finish_walk.
  destruct (va_to_pa_ok n (v_address e) (vmem w) (o_vm w Hw) Hb) as (f & vm & p & Ev & Hv & Hle & Hb' & Hp & Ef). rewrite Ev. cbn [cbind].
  destruct (ok_cons w it e rest Hw E) as [Hn Hr]. destruct (warmup_complete (ptw_cpu k) && f) eqn:Ec.
  - apply andb_true_iff in Ec as [_ ->]. symmetry in Ef. apply bool_decide_eq_true in Ef.
    destruct (put_off_ok w vm it e rest Hw Hv Hle E) as (Hw1 & Hd1 & Ev1 & Hk1).
    { unfold faulted. rewrite Ht. cbn [Z.eqb]. rewrite bool_decide_eq_false. tauto. }
    { unfold faulted. rewrite Ht. cbn [Z.eqb]. rewrite bool_decide_eq_true. unfold mapped in Hp. by rewrite Hp. }
    eexists _, []. split; [reflexivity|]. rewrite Ev1. done.
  - set (e' := e <| data := _ |> <| address := _ |>).
    pose proof (o_misses w Hw) as Hm. rewrite E in Hm. apply list.Forall_cons in Hm as [(_ & Hself & _) _].
    destruct (answer_eq w vm it e e' rest E Hn Hself) as [t Et]. rewrite Et. eexists _, [e']. split; [reflexivity|].
    split; [|split; [|split; [done|]]].
    + pose proof (ok_vm_le _ vm Hr Hle Hv) as []. by constructor.
    + constructor; cbn; [|by rewrite app_nil_r| |done].
      * unfold outstanding. cbn. rewrite E. cbn. by rewrite <- Permutation_middle.
      * apply Forall_singleton. split; [done|]. exists p. done.
    + change (work vm rest < work (vmem w) (MSHR w)). rewrite E. change (work (vmem w) ((it, e) :: rest)) with (pending (vmem w) e + work (vmem w) rest).
      pose proof (work_le _ _ rest Hle). unfold pending. rewrite Ht. destruct (faulted _ _); lia.
Qed.

Lemma fill_caches_ok w tl v p :
  ok w -> tl < pt_levels (vmem w) -> page_table (vmem w) !! table_key (vmem w) v tl = Some p ->
  exists p5 p4 p3 p2, let w' := w <| PSCL5 := p5 |> <| PSCL4 := p4 |> <| PSCL3 := p3 |> <| PSCL2 := p2 |> in
  fill_caches tl (pte (vmem w) p v tl) v w = Ret w' /\ ok w'.
Proof.
  intros Hw Hl Hp. destruct (o_levels w Hw) as (E5 & E4 & E3 & E2).
  assert (forall lv (b : bool) c, psc_ok lv (vmem w) c -> (b = true -> lv = tl) -> exists c',
    (if b then fill_cache (pte (vmem w) p v tl) v (vmem w) c else Ret c) = Ret c' /\ psc_ok lv (vmem w) c' /\ level c' = level c) as Hfill.
  { intros lv b c Hc Hb. destruct b; [|by exists c]. rewrite <- (Hb eq_refl) in *. apply fill_cache_ok; [done|]. split; [done|]. by exists p. }
  unfold fill_caches. rewrite E5, E4, E2. cbv zeta beta.
  destruct (Hfill 4 (tl =? 4) (PSCL5 w) (o_5 w Hw)) as (p5 & -> & Hp5 & L5); [by intros ?%Z.eqb_eq|]. cbn [cbind].
  destruct (Hfill 3 (tl =? 3) (PSCL4 w) (o_4 w Hw)) as (p4 & -> & Hp4 & L4); [by intros ?%Z.eqb_eq|]. cbn [cbind].
  destruct (Hfill 1 (tl =? 1) (PSCL3 w) (o_3 w Hw)) as (p3 & -> & Hp3 & L3); [by intros ?%Z.eqb_eq|]. cbn [cbind].
  destruct (Hfill 1 (tl =? 1) (PSCL2 w) (o_2 w Hw)) as (p2 & -> & Hp2 & L2); [by intros ?%Z.eqb_eq|]. cbn [cbind].
  exists p5, p4, p3, p2. split; [done|]. destruct Hw. constructor; try done. cbn. by rewrite L5, L4, L3, L2.
Qed.

(** A walk that went down, among misses whose times may have changed. *)
Definition down (a : Z) (e : PACKET) : PACKET := e <| address := a |> <| translation_level ::= fun t => u8 (t - 1) |>.

Lemma down_eq it e rest m a :
  it ∉ rest.*1 -> m_eq ((it, e) :: rest) m ->
  let m1 := (fun x => if (x.1 =? it)%nat then (x.1, x.2 <| event_cycle := UINT64_MAX |> <| address := a |>
                 <| translation_level ::= fun t => u8 (t - 1) |>) else x) <$> m in
  m_eq ((it, down a e) :: rest) (erase_node it m1 ++ the_node it m1).
Proof.
  intros Hn Hm m1. etrans; [|apply m_eq_perm; symmetry; apply splice_perm]. unfold m_eq in *.
  set (G := fun x : nat * PACKET => if (x.1 =? it)%nat then (x.1, down a x.2) else x).
  assert (strip <$> m1 = G <$> (strip <$> m)) as ->.
  { unfold m1. rewrite <- !list_fmap_compose. apply list_fmap_ext. intros ? x _. unfold G, compose, strip. cbn [fst snd].
    destruct (x.1 =? it)%nat; reflexivity. }
  rewrite <- Hm. rewrite <- list_fmap_compose. cbn [fmap list_fmap]. unfold G at 1, compose at 1. cbn [fst strip]. rewrite Nat.eqb_refl.
  apply perm_skip, reflexive_eq, list_fmap_ext. intros i x Hx. unfold G, compose. cbn [fst strip].
  destruct (Nat.eqb_spec x.1 it) as [<-|]; [|done]. exfalso. apply Hn. apply list_elem_of_fmap. exists x. split; [done|].
  by eapply list_elem_of_lookup_2.
Qed.

Lemma went_down w it e rest a :
  ok w -> it ∉ rest.*1 -> m_eq ((it, e) :: rest) (MSHR w) -> translation_level e <> 0 ->
  let m1 := (fun x => if (x.1 =? it)%nat then (x.1, x.2 <| event_cycle := UINT64_MAX |> <| address := a |>
                 <| translation_level ::= fun t => u8 (t - 1) |>) else x) <$> MSHR w in
  let w' := w <| MSHR := erase_node it m1 ++ the_node it m1 |> in
  ok w' /\ delta w w' [] /\ forall vm vm', vm_le vm vm' -> work vm' (MSHR w') < work vm ((it, e) :: rest).
Proof.
  intros Hw Hn Hm Ht m1 w'. pose proof (down_eq it e rest (MSHR w) a Hn Hm) as Hdn. cbv zeta in Hdn. fold m1 in Hdn.
  assert (0 <= u8 (translation_level e - 1) < translation_level e /\ ok (w <| MSHR := (it, down a e) :: rest |>)) as [Hu Hw1].
  { pose proof (vm_levels _ (o_vm w Hw)). destruct (ok_m_eq w ((it, e) :: rest) Hw) as [? ? Hnd Hfr Hms ? ? ? ? ? ? ? ?]; [by symmetry|].
    cbn in Hnd, Hfr, Hms. apply list.Forall_cons in Hfr as [? ?], Hms as [(? & ? & ?) ?]. cbn [snd] in *.
    assert (0 <= u8 (translation_level e - 1) < translation_level e) by (unfold u8; rewrite Z.mod_small; lia). split; [done|].
    constructor; try done; [by constructor|]. constructor; [|done]. split; [done|]. split; [done|]. cbn in *. lia. }
  split; [exact (ok_m_eq _ _ Hw1 Hdn)|]. split.
  - apply delta_none; [|done|done]. apply Permutation_app; [done|]. change (MSHR w') with (erase_node it m1 ++ the_node it m1).
    by rewrite <- (m_eq_walked _ _ Hdn), <- (m_eq_walked _ _ Hm).
  - intros vm vm' Hle. change (MSHR w') with (erase_node it m1 ++ the_node it m1). rewrite <- (work_m_eq _ _ _ Hdn).
    change (pending vm' (down a e) + work vm' rest < pending vm e + work vm rest). pose proof (work_le _ _ rest Hle).
    unfold pending. change (translation_level (down a e)) with (u8 (translation_level e - 1)).
    destruct (faulted vm' (down a e)), (faulted vm e); lia.
Qed.

Lemma next_level_ok n w it e rest :
  ok w -> budget (S n) (vmem w) -> MSHR w = (it, e) :: rest -> translation_level e <> 0 ->
  exists w', next_level k warmup_complete it e w = Ret w' /\ ok w' /\ delta w w' [] /\ budget n (vmem w') /\
  (work (vmem w') (MSHR w') < work (vmem w) (MSHR w) \/ refuses (lower_level w)).
Proof using Hlp HPS.
  intros Hw Hb E Ht. unfold next_level. pose proof (o_misses w Hw) as Hm. rewrite E in Hm. apply list.Forall_cons in Hm as [(Hs & Hself & Hl) _].
  cbn [snd] in Hs, Hself, Hl.
  destruct (get_pte_pa_ok n (v_address e) (translation_level e) (vmem w) (o_vm w Hw) Hb) as (f & vm & p & Ev & Hv & Hle & Hb' & Hp & Htp & Ef).
  rewrite Ev. cbn [cbind]. destruct (ok_cons w it e rest Hw E) as [Hn _]. destruct (warmup_complete (ptw_cpu k) && f) eqn:Ec.
  - apply andb_true_iff in Ec as [_ ->]. symmetry in Ef. apply bool_decide_eq_true in Ef.
    destruct (put_off_ok w vm it e rest Hw Hv Hle E) as (Hw1 & Hd1 & Ev1 & Hk1).
    { unfold faulted. rewrite (proj2 (Z.eqb_neq _ _) Ht), bool_decide_eq_false. tauto. }
    { unfold faulted. rewrite (proj2 (Z.eqb_neq _ _) Ht), (table_key_le _ _ _ _ Hle), bool_decide_eq_true. by rewrite Hp. }
    eexists. split; [reflexivity|]. rewrite Ev1. split_and!; try done. by left.
  - set (w1 := w <| vmem := vm |>). assert (ok w1) as Hw1 by (by apply ok_vm_le).
    rewrite <- (pte_le _ _ p (v_address e) (translation_level e) Hle).
    destruct (fill_caches_ok w1 (translation_level e) (v_address e) p Hw1) as (p5 & p4 & p3 & p2 & Ef2 & Hw2);
      [change (vmem w1) with vm; rewrite (le_levels _ _ Hle); lia|change (vmem w1) with vm; by rewrite (table_key_le _ _ _ _ Hle)|].
    change (vmem w1) with vm in Ef2. rewrite Ef2. cbn [cbind]. set (w2 := w1 <| PSCL5 := _ |> <| PSCL4 := _ |> <| PSCL3 := _ |> <| PSCL2 := _ |>) in *.
    set (a := pte vm p (v_address e) (translation_level e)).
    assert (a <> 0) as Ha by (unfold a; rewrite pte_eq by done; apply splice_nonzero, Htp).
    set (p1 := e <| cpu := _ |> <| type := _ |> <| address := _ |> <| to_return := _ |> <| translation_level := _ |>).
    destruct (send_ok p1 w2 Hw2 Ha Hs eq_refl) as (res & d & l & m & Es & Hm & Hok & Hd). rewrite Es. cbn [cbind].
    assert (delta w w2 []) as Hd2 by (by apply delta_none).
    destruct (Z.eqb_spec res (-2)) as [->|Hres].
    + eexists. split; [reflexivity|]. split; [done|]. split; [exact (delta_trans _ _ _ _ _ Hd2 Hd)|]. split; [done|]. right.
      unfold send in Es. change (lower_level w2) with (lower_level w) in Es. destruct (ll_add_rq p1 (lower_level w)) as [r|] eqn:Er; [|done].
      exists p1, r. split; [done|]. cbn [cbind] in Es. destruct r as [[[r0 r1] r2] r3]. by injection Es.
    + eexists. split; [reflexivity|]. set (w3 := w2 <| lower_level := l |> <| MSHR := m |>) in *.
      change (MSHR w2) with (MSHR w) in Hm. rewrite E in Hm.
      destruct (went_down w3 it e rest a Hok Hn Hm Ht) as (Hw4 & Hd4 & Hk4). split; [exact Hw4|].
      split; [exact (delta_trans _ _ _ _ _ (delta_trans _ _ _ _ _ Hd2 Hd) Hd4)|]. split; [done|]. left. rewrite E. by apply Hk4.
Qed.

(** ** A cycle *)

Lemma fill_loop_ok n w :
  ok w -> budget n (vmem w) -> exists w' ans, fill_loop k warmup_complete n w = Ret w' /\ ok w' /\ delta w w' ans.
Proof using Hlp HPS.
  revert w. induction n as [|n IH]; intros w Hw Hb; cbn [fill_loop]; [exists w, []; split_and!; try done; by apply delta_none|].
  destruct (MSHR w) as [|[it e] rest] eqn:E; [exists w, []; split_and!; try done; by apply delta_none|].
  destruct (event_cycle e <=? current_cycle w); [|exists w, []; split_and!; try done; by apply delta_none].
  assert (exists w1 a1, (if translation_level e =? 0 then finish_walk k warmup_complete it e w else next_level k warmup_complete it e w) = Ret w1 /\
    ok w1 /\ delta w w1 a1 /\ budget n (vmem w1)) as (w1 & a1 & E1 & Hw1 & Hd1 & Hb1).
  { destruct (Z.eqb_spec (translation_level e) 0) as [Ht|Ht].
    - destruct (finish_walk_ok n w it e rest Hw Hb E Ht) as (w1 & a1 & ? & ? & ? & ? & _). by exists w1, a1.
    - destruct (next_level_ok n w it e rest Hw Hb E Ht) as (w1 & ? & ? & ? & ? & _). by exists w1, []. }
  rewrite E1. cbn [cbind]. destruct (IH w1 Hw1 Hb1) as (w2 & a2 & E2 & Hw2 & Hd2). exists w2, (a1 ++ a2).
  split; [done|]. split; [done|]. by eapply delta_trans.
Qed.

Lemma ptw_operate_ok w :
  ok w -> budget (MAX_FILL k) (vmem w) -> exists w' ans, Ptw._operate k warmup_complete w = Ret w' /\ ok w' /\ delta w w' ans.
Proof using Hlp HPS.
  intros Hw Hb. unfold _operate, operate, handle_fill, handle_read.
  destruct (fill_loop_ok (MAX_FILL k) w Hw Hb) as (w1 & a1 & -> & Hw1 & Hd1). cbn [cbind].
  destruct (read_loop_ok (MAX_READ k) w1 Hw1) as (w2 & -> & Hw2 & Hd2 & _). cbn [cbind].
  destruct (operate_wf (RQ w2) (o_rq w2 Hw2)) as (Hq & Hi & _).
  eexists _, (a1 ++ []). split; [reflexivity|]. split.
  - destruct Hw2. constructor; try done.
  - pose proof (delta_trans _ _ _ _ _ Hd1 Hd2) as [Ho ? ? ?]. constructor; try done.
Qed.

(** ** Runs *)

Lemma new_PTW_ok uninit rq_size latency s5 s4 s3 s2 n5 n4 n3 n2 vm l w :
  vm_ok vm -> budget 1 vm -> CacheSpec.ll_inv l -> Forall (fun s => 0 < s < 2 ^ 32) [s5; s4; s3; s2] -> Forall (fun n => 0 < n)%nat [n5; n4; n3; n2] ->
  new_PTW k uninit rq_size latency s5 s4 s3 s2 n5 n4 n3 n2 vm l = Ret w -> ok w /\ outstanding w = [] /\ returned w = [].
Proof using Hlp HPS.
  intros Hv Hb Hl Hs Hw. unfold new_PTW.
  destruct (get_pte_pa_ok 0 0 (pt_levels vm) vm Hv Hb) as (f & vm' & p & E & Hv' & _ & _ & _ & Hp & _). rewrite E. cbn [cbind fst snd]. intros [= <-].
  destruct (new_delay_queue_spec (new_PACKET uninit) rq_size latency) as (Hq & Hi & _).
  repeat match goal with H : Forall _ (_ :: _) |- _ => apply list.Forall_cons in H as [? H] end.
  split; [|split; [|done]]; [|unfold outstanding; cbn [RQ MSHR]; by rewrite Hi].
  constructor; cbn [RQ MSHR PSCL5 PSCL4 PSCL3 PSCL2 CR3_addr vmem lower_level next_node level new_PSC]; try done;
    try (by apply new_PSC_ok); try (by rewrite Hi); try (by constructor).
  rewrite pte_eq by done. apply splice_nonzero, Hp.
Qed.

Lemma ptw_add_rq_ok p w res p' cs w' :
  ok w -> scheduled p = false -> self k ∉ to_return p -> add_rq p w = Ret (res, p', cs, w') ->
  ok w' /\ returned w' = returned w /\ vmem w' = vmem w /\
  outstanding w' ≡ₚ (if res =? -2 then [] else [queued p]) ++ outstanding w.
Proof.
  intros Hw Hs Hn. unfold add_rq. intros (_ & _ & (_ & _ & E)%cbind_Ret)%cbind_Ret.
  destruct (dq_full (RQ w)) eqn:Ef; [injection E as <- <- <- <-; done|]. apply cbind_Ret in E as (q & Eq & [= <- <- <- <-]).
  rewrite (dq_full_spec _ (o_rq w Hw)) in Ef. pose proof (dq_push_back_spec p (RQ w) (o_rq w Hw)) as Hp. rewrite Ef in Hp.
  destruct Hp as (q' & Eq' & Hq & Hi & _).
  rewrite Eq in Eq'. injection Eq' as <-. split; [|split; [done|split; [done|]]].
  - destruct Hw. constructor; try done. cbn. rewrite Hi. apply Forall_app_2; [done|]. by apply Forall_singleton.
  - rewrite dq_occupancy_spec by done. destruct (Z.eqb_spec (Z.of_nat (length (items q))) (-2)); [lia|]. unfold outstanding. cbn.
    rewrite Hi, fmap_app, <- (assoc_L (++)). cbn. by rewrite <- Permutation_middle.
Qed.

(** The states a walker can get to, with the requests it has accepted.  Others may
    translate, the level below may go on and answer at any time; while the walker
    operates, physical memory must not run out. *)
Inductive reach : list request -> walker -> Prop :=
| reach_new uninit rq_size latency s5 s4 s3 s2 n5 n4 n3 n2 vm l w :
    vm_ok vm -> budget 1 vm -> CacheSpec.ll_inv l -> Forall (fun s => 0 < s < 2 ^ 32) [s5; s4; s3; s2] ->
    Forall (fun n => 0 < n)%nat [n5; n4; n3; n2] ->
    new_PTW k uninit rq_size latency s5 s4 s3 s2 n5 n4 n3 n2 vm l = Ret w -> reach [] w
| reach_request acc w p res p' cs w' :
    reach acc w -> scheduled p = false -> self k ∉ to_return p -> add_rq p w = Ret (res, p', cs, w') ->
    reach ((if res =? -2 then [] else [queued p]) ++ acc) w'
| reach_answer acc w p : reach acc w -> reach acc (return_data p w)
| reach_cycle acc w w' : reach acc w -> budget (MAX_FILL k) (vmem w) -> Ptw._operate k warmup_complete w = Ret w' -> reach acc w'
| reach_other acc w vm : reach acc w -> vm_ok vm -> vm_le (vmem w) vm -> reach acc (w <| vmem := vm |>)
| reach_below acc w l : reach acc w -> CacheSpec.ll_inv l -> reach acc (w <| lower_level := l |>).

Definition answered acc w : Prop :=
  exists ans, acc ≡ₚ (walked <$> ans) ++ outstanding w /\ returned w = mjoin (Cache.return_to_all <$> ans) /\ Forall (answer_ok (vmem w)) ans.

Lemma answered_delta acc w w' a : answered acc w -> delta w w' a -> answered acc w'.
Proof.
  intros (ans & Hp & Hr & Ha) [Ho Er Hd Hle]. exists (ans ++ a). split; [|split].
  - by rewrite Hp, Ho, fmap_app, <- (assoc_L (++)).
  - rewrite Er, Hr, fmap_app. symmetry. exact (join_app _ _).
  - apply Forall_app_2; [|done]. eapply list.Forall_impl; [exact Ha|]. intros x. by apply answer_ok_le.
Qed.

Lemma reach_ok acc w : reach acc w -> ok w /\ answered acc w.
Proof using Hlp HPS.
  induction 1 as [uninit rq_size latency s5 s4 s3 s2 n5 n4 n3 n2 vm l w Hv Hb Hl Hs Hn E|acc w p res p' cs w' _ [Hw Ha] Hs Hn E
    |acc w p _ [Hw Ha]|acc w w' _ [Hw Ha] Hb E|acc w vm _ [Hw Ha] Hv Hle|acc w l _ [Hw Ha] Hl].
  - destruct (new_PTW_ok _ _ _ _ _ _ _ _ _ _ _ _ _ _ Hv Hb Hl Hs Hn E) as (Hw & Ho & Hr). split; [done|]. exists []. by rewrite Ho, Hr.
  - destruct (ptw_add_rq_ok p w res p' cs w' Hw Hs Hn E) as (Hw' & Er & Ev & Ho). split; [done|].
    destruct Ha as (ans & Hp & Hr & Ha). exists ans. rewrite Er, Ev. split; [|done]. rewrite Hp, Ho.
    by rewrite !(assoc_L (++)), (Permutation_app_comm (walked <$> ans)).
  - destruct (return_data_eq p w) as [Ew Hm]. split; [rewrite Ew; by apply ok_m_eq|]. eapply answered_delta; [exact Ha|].
    apply delta_none; [|done|done]. apply Permutation_app; [done|]. by apply m_eq_walked.
  - destruct (ptw_operate_ok w Hw Hb) as (w1 & a1 & E1 & Hw1 & Hd1). rewrite E in E1. injection E1 as <-. split; [done|].
    by eapply answered_delta.
  - split; [by apply ok_vm_le|]. eapply answered_delta; [exact Ha|]. by apply delta_none.
  - split; [by destruct Hw; constructor|]. eapply answered_delta; [exact Ha|]. by apply delta_none.
Qed.

(** C20: the walker answers with translations.  Every request it has accepted was
    answered once, to those who wait for it, with the physical address of the page it asked
    for, or is still held; nothing else is answered.  As long as physical memory lasts,
    the next cycle ends. *)
Theorem walker_answers acc w :
  reach acc w ->
  (exists ans, acc ≡ₚ (walked <$> ans) ++ outstanding w /\ returned w = mjoin (Cache.return_to_all <$> ans) /\
    Forall (answer_ok (vmem w)) ans) /\
  (budget (MAX_FILL k) (vmem w) -> exists w', Ptw._operate k warmup_complete w = Ret w').
Proof using Hlp HPS.
  intros Hr. destruct (reach_ok acc w Hr) as [Hw Ha]. split; [exact Ha|].
  intros Hb. destruct (ptw_operate_ok w Hw Hb) as (w' & _ & E & _). by exists w'.
Qed.

(** C22: walks come to an end.  A turn of the walker on the miss that is due leaves
    less work, unless the level below refuses the access: a miss at level [t] takes at
    most [2 t + 2] turns, one for a page fault and one for the access of each level. *)
Theorem walk_turn_progress acc w it e rest n :
  reach acc w -> budget (S n) (vmem w) -> MSHR w = (it, e) :: rest -> ~ refuses (lower_level w) ->
  exists w', (if translation_level e =? 0 then finish_walk k warmup_complete it e w else next_level k warmup_complete it e w) = Ret w' /\
  work (vmem w') (MSHR w') < work (vmem w) (MSHR w) /\ 0 < pending (vmem w) e <= 2 * translation_level e + 2.
Proof using Hlp HPS.
  intros Hr Hb E Hnr. destruct (reach_ok acc w Hr) as [Hw _].
  assert (0 < pending (vmem w) e <= 2 * translation_level e + 2) as Hp.
  { pose proof (o_misses w Hw) as Hm. rewrite E in Hm. apply list.Forall_cons in Hm as [(_ & _ & Ht) _]. cbn in Ht.
    unfold pending. destruct (faulted _ _); lia. }
  destruct (Z.eqb_spec (translation_level e) 0) as [Ht|Ht].
  - destruct (finish_walk_ok n w it e rest Hw Hb E Ht) as (w' & _ & ? & _ & _ & _ & ?). by exists w'.
  - destruct (next_level_ok n w it e rest Hw Hb E Ht) as (w' & ? & _ & _ & _ & [?|?]); [by exists w'|done].
Qed.

(** C21: paging structure caches agree with the page table.  A hit in [PSCL5], [PSCL4]
    or [PSCL2] gives the address of the entry in the table of its level, as the
    page table does without a fault.  A hit in [PSCL3] gives an entry of a table of level 1
    instead of level 2. *)
Theorem psc_hits_exact acc w a x :
  reach acc w ->
  (check_hit a (vmem w) (PSCL5 w) = Some x -> get_pte_pa (ptw_cpu k) a 4 (vmem w) = Ret ((x, false), vmem w)) /\
  (check_hit a (vmem w) (PSCL4 w) = Some x -> get_pte_pa (ptw_cpu k) a 3 (vmem w) = Ret ((x, false), vmem w)) /\
  (check_hit a (vmem w) (PSCL2 w) = Some x -> get_pte_pa (ptw_cpu k) a 1 (vmem w) = Ret ((x, false), vmem w)) /\
  (check_hit a (vmem w) (PSCL3 w) = Some x -> exists v p, Z.shiftr v (shamt 3 (vmem w)) = Z.shiftr a (shamt 3 (vmem w)) /\
    page_table (vmem w) !! table_key (vmem w) v 1 = Some p /\ x = pte (vmem w) p a 2).
Proof using Hlp HPS.
  intros Hr. destruct (reach_ok acc w Hr) as [Hw _]. destruct (o_levels w Hw) as (E5 & E4 & E3 & E2). pose proof (o_vm w Hw) as Hv.
  split_and!; intros Hx.
  - rewrite <- E5. apply check_hit_exact; [rewrite E5; apply Hw|done..].
  - rewrite <- E4. apply check_hit_exact; [rewrite E4; apply Hw|done..].
  - rewrite <- E2. apply check_hit_exact; [rewrite E2; apply Hw|done..].
  - destruct (check_hit_ok 1 _ _ _ _ (o_3 w Hw) Hv Hx) as (v & p & _ & He & Hp & ->). rewrite E3 in He |- *. by exists v, p.
Qed.

End Spec.
End PtwSpec.
