(* ===== verification/SimPtwSmall.v ===== *)
(** * ChampSim: a small page-table walker

    A walker over the memory controller, with five levels and four-kilobyte pages,
    that runs: the theorems of [SimPtwSpec] at its states. *)

From stdpp Require Import base list gmap.
From S2P Require Import Prelude SimUtil SimQueue SimVmem SimCache SimCacheSpec SimDram SimDramSpec SimMemory SimPtw SimPtwSpec.
Import Util Mem Delay Vmem Ptw PtwSpec.
Local Open Scope Z_scope.
Local Open Scope c_scope.

Module SmallWalker.

#[local] Instance config : Config := {| BLOCK_SIZE := 64; PAGE_SIZE := 4096; NUM_CPUS := 1 |}.
#[local] Instance dram_config : DramConfig := {|
  DRAM_CHANNELS := 1; DRAM_RANKS := 1; DRAM_BANKS := 2; DRAM_ROWS := 16; DRAM_COLUMNS := 8;
  DRAM_WQ_SIZE := 4; DRAM_RQ_SIZE := 8; tRP := 2; tRCD := 2; tCAS := 2;
  DRAM_DBUS_TURN_AROUND_TIME := 1; DRAM_DBUS_RETURN_TIME := 1 |}.
#[local] Instance dram_ok : DramSpec.DramOk.
Proof.
  refine {| DramSpec.l_block := 6; DramSpec.l_channels := 0; DramSpec.l_banks := 1; DramSpec.l_columns := 3;
            DramSpec.l_ranks := 0; DramSpec.l_rows := 4 |}; try reflexivity; split; try split; try lia; done.
Defined.
#[local] Instance memory : LowerLevel Dram.MEMORY_CONTROLLER := Dram.dram_lower_level Nat.ltb Nat.eqb 1.
#[local] Instance memory_ok : CacheSpec.LowerLevelOk Dram.MEMORY_CONTROLLER := Memory.dram_lower_level_ok Nat.ltb Nat.eqb 1.

Definition constants : ptw_params := mkPtwParams 0 1 4 1 1 9.
Definition warm (cpu : Z) : bool := true.
Local Abbreviation walker := (PageTableWalker Dram.MEMORY_CONTROLLER).
Local Abbreviation reachable := (reach constants warm).

Lemma lp_range : 3 < 12 <= 20.
Proof. lia. Qed.
Lemma page_size_eq : PAGE_SIZE = 2 ^ 12.
Proof. reflexivity. Qed.

(** Forty free pages; page tables start at 16 MB. *)
Definition memory_of_pages : VirtualMemory := mkVM ∅ ∅ 16777216 1 5 4096 ((fun i => 1048576 + 4096 * Z.of_nat i) <$> seq 0 40).
Definition start : walker :=
  match new_PTW constants 0 4 0 2 2 2 2 2 2 2 2 memory_of_pages (Dram.new_MC 0) with
  | Ret w => w
  | Abort _ => mkPTW (new_delay_queue (new_PACKET 0) 0 0) [] 0 0 (new_PSC 0 4 1 1) (new_PSC 0 3 1 1) (new_PSC 0 2 1 1) (new_PSC 0 1 1 1) 0 0
                 memory_of_pages (Dram.new_MC 0) []
  end.

Lemma start_reachable : reachable [] start.
Proof.
  apply (reach_new constants warm 0 4 0 2 2 2 2 2 2 2 2 memory_of_pages (Dram.new_MC 0)).
  - constructor; [done|cbn; lia|split; [reflexivity|cbn; lia]|apply map_Forall_empty].
  - split; [vm_compute; reflexivity|cbn; lia].
  - apply (Memory.new_MC_ok 0).
  - repeat constructor; lia.
  - repeat constructor; lia.
  - reflexivity.
Qed.

(** A request of the TLB with number 7. *)
Definition ask (a : Z) : PACKET := new_PACKET 0 <| address := a |> <| type := LOAD |> <| to_return := [7%nat] |>.

Definition enough (w : walker) : bool :=
  (next_pte_page (vmem w) + 4096 <? 2 ^ 64) && (1 <? length (ppage_free_list (vmem w)))%nat.
Lemma enough_budget w : enough w = true -> budget (MAX_FILL constants) (vmem w).
Proof. unfold enough. intros [H1%Z.ltb_lt H2%Nat.ltb_lt]%andb_true_iff. split; [cbn in *; lia|done]. Qed.

(** Cycles in which the memory answers what the first miss waits for. *)
Fixpoint rounds (n : nat) (w : walker) : cres walker :=
  match n with
  | O => Ret w
  | S n =>
    if enough w then
      let w := match MSHR w with (_, e) :: _ => return_data e w | [] => w end in
      let* w := Ptw._operate constants warm w in rounds n w
    else Abort "no memory"
  end.

Lemma rounds_reachable n acc w w' : reachable acc w -> rounds n w = Ret w' -> reachable acc w'.
Proof.
  revert w. induction n as [|n IH]; intros w Hr; cbn [rounds]; [by intros [= <-]|].
  destruct (enough w) eqn:He; [|done]. set (w1 := match MSHR w with [] => w | _ => _ end).
  assert (reachable acc w1 /\ vmem w1 = vmem w) as [Hr1 Ev] by (unfold w1; destruct (MSHR w) as [|[it e] l]; [done|]; split; [by apply reach_answer|done]).
  intros (w2 & E & H2)%cbind_Ret. apply (IH w2); [|done]. eapply reach_cycle; [exact Hr1|rewrite Ev; by apply enough_budget|exact E].
Qed.

(** The state when the walk of [a] has gone on for [n] rounds. *)
Definition asked (a : Z) (w : walker) : walker := match add_rq (ask a) w with Ret r => r.2 | Abort _ => w end.
Definition run (n : nat) (w : walker) : walker := match rounds n w with Ret w => w | Abort _ => w end.
Definition walking (n : nat) : walker := run n (asked 305418240 start).

Lemma walking_reachable n :
  (match rounds n (asked 305418240 start) with Ret _ => true | Abort _ => false end) = true -> reachable [queued (ask 305418240)] (walking n).
Proof.
  intros Hn. unfold walking, run. destruct (rounds n _) as [w|] eqn:E; [|done]. eapply rounds_reachable; [|exact E].
  assert (exists w', add_rq (ask 305418240) start = Ret (1, ask 305418240, [], w')) as [w' Ew].
  { assert (match add_rq (ask 305418240) start with Ret (1, p, [], w') => p = ask 305418240 | _ => False end) as Hx by (vm_compute; reflexivity).
    destruct (add_rq (ask 305418240) start) as [[[[[|[]|] p] [|]] w']|]; try done. subst. by exists w'. }
  unfold asked. rewrite Ew. cbn [snd].
  apply (reach_request constants warm [] start (ask 305418240) 1 (ask 305418240) [] w' start_reachable); [reflexivity| |exact Ew].
  cbn. intros ?%list_elem_of_singleton. done.
Qed.

(** After sixteen rounds the walk of the page has been answered. *)
Lemma walker_answers_witness :
  (exists ans, [queued (ask 305418240)] ≡ₚ (walked <$> ans) ++ outstanding (walking 16) /\
    returned (walking 16) = mjoin (Cache.return_to_all <$> ans) /\ Forall (answer_ok constants (vmem (walking 16))) ans) /\
  length (outstanding (walking 16)) = 0%nat /\ exists w', Ptw._operate constants warm (walking 16) = Ret w'.
Proof.
  destruct (walker_answers constants warm 12 lp_range page_size_eq [queued (ask 305418240)] (walking 16)) as [Ha Hb].
  - apply walking_reachable. vm_compute. reflexivity.
  - split; [exact Ha|]. split; [vm_compute; reflexivity|]. apply Hb, enough_budget. vm_compute. reflexivity.
Defined.

(** The controller refuses no read. *)
Lemma memory_accepts (m : Dram.MEMORY_CONTROLLER) : ~ refuses m.
Proof.
  intros (p & r & E & Hr). unfold ll_add_rq in E. cbn [memory Dram.dram_lower_level] in E. unfold Dram.add_rq in E. destruct (1 <? NUM_CPUS); [injection E as <-; cbn in Hr; lia|].
  apply cbind_Ret in E as (ch & _ & E). destruct (Dram.ch_WQ ch !! _); [injection E as <-; cbn in Hr; lia|].
  destruct (_ <? _)%nat; [injection E as <-; cbn in Hr; lia|]. destruct (_ <? _)%nat; [|injection E as <-; cbn in Hr; lia].
  apply cbind_Ret in E as (n & En & E). injection E as <-. cbn in Hr. unfold Dram.get_occupancy in En.
  apply cbind_Ret in En as (ch' & _ & En). injection En as <-. unfold count_if in Hr. lia.
Qed.

(** A turn on the walk after five rounds. *)
Lemma walk_turn_progress_witness :
  exists it e rest w', MSHR (walking 5) = (it, e) :: rest /\ next_level constants warm it e (walking 5) = Ret w' /\
  work constants (vmem w') (MSHR w') < work constants (vmem (walking 5)) (MSHR (walking 5)).
Proof.
  assert (match MSHR (walking 5) with (_, e) :: _ => negb (translation_level e =? 0) | [] => false end = true) as Hx by (vm_compute; reflexivity).
  destruct (MSHR (walking 5)) as [|[it e] rest] eqn:E; [discriminate Hx|].
  destruct (walk_turn_progress constants warm 12 lp_range page_size_eq [queued (ask 305418240)] (walking 5) it e rest 0) as (w' & Ew & Hw & _).
  - apply walking_reachable. vm_compute. reflexivity.
  - apply (enough_budget (walking 5)). vm_compute. reflexivity.
  - exact E.
  - apply memory_accepts.
  - apply negb_true_iff in Hx. rewrite Hx in Ew. exists it, e, rest, w'. split; [reflexivity|]. split; [exact Ew|]. rewrite <- E. exact Hw.
Defined.

(** The next page is in the same tables: the walk of it starts at the last one. *)
Lemma psc_hits_exact_witness :
  exists x, check_hit 305422336 (vmem (walking 16)) (PSCL2 (walking 16)) = Some x /\
  get_pte_pa 0 305422336 1 (vmem (walking 16)) = Ret ((x, false), vmem (walking 16)).
Proof.
  assert (match check_hit 305422336 (vmem (walking 16)) (PSCL2 (walking 16)) with Some _ => true | None => false end = true) as Hx
    by (vm_compute; reflexivity).
  destruct (check_hit 305422336 (vmem (walking 16)) (PSCL2 (walking 16))) as [x|] eqn:E; [|discriminate Hx].
  exists x. split; [reflexivity|].
  destruct (psc_hits_exact constants warm 12 lp_range page_size_eq [queued (ask 305418240)] (walking 16) 305422336 x) as (_ & _ & H2 & _).
  - apply walking_reachable. vm_compute. reflexivity.
  - exact (H2 E).
Defined.

End SmallWalker.
