(* ===== verification/SimPrefetch.v ===== *)
(** * ChampSim: prefetchers

    prefetcher/next_line and prefetcher/ip_stride: what they remember of the accesses
    to a cache, and the lines they ask it for.  Their state is the field [pref] of
    the cache.  [Module Prefetching] relates a cache to what it was before a
    prefetcher asked for lines, whatever the prefetcher is. *)

From stdpp Require Import base list.
From S2P Require Import Prelude SimUtil SimQueue SimVmem SimRepl SimCache SimCacheSpec.
Import Util Mem Circ Delay Vmem Cache CacheSpec.
Local Open Scope Z_scope.
Local Open Scope c_scope.

(** ** Asking for lines *)
Module Prefetching.
Section Line.
Context `{Config} {R P L : Type} `{Replacement R} `{LowerLevel L}.
Context (k : params) (warmup_complete : Z -> bool) (uninit : Z).
Local Abbreviation cache := (CACHE R P L).
Implicit Types c : cache.

Definition LOG2_BLOCK_SIZE : Z := lg2 BLOCK_SIZE.

Lemma lg2_nonneg n : 0 <= lg2 n.
Proof. unfold lg2. generalize 64%nat. intros m. revert n. induction m as [|m IH]; intros n; simpl; [done|]. destruct (n <? 2); [done|]. pose proof (IH (n / 2)). lia. Qed.

(** The deprecated signature of [prefetch_line], which drops [ip] and [base_addr]. *)
Definition prefetch_line_from (ip base_addr pf_addr : Z) (fill_this_level : bool) (prefetch_metadata : Z) c : cres (Z * cache) :=
  prefetch_line k warmup_complete uninit pf_addr fill_this_level prefetch_metadata c.

(** [c'] is [c] after the prefetcher has asked for lines that satisfy [Q] and has
    changed its own state. *)
Inductive asks (Q : Z -> Prop) c : cache -> Prop :=
| asks_nothing : asks Q c c
| asks_state c' p : asks Q c c' -> asks Q c (c' <| pref := p |>)
| asks_line c1 c2 a fill meta r : asks Q c c1 -> Q a -> prefetch_line k warmup_complete uninit a fill meta c1 = Ret (r, c2) -> asks Q c c2.

Context `{!LowerLevelOk L} `{!ReplacementOk R (NUM_SET k) (NUM_WAY k)}.

Lemma same_request_self x : same_request x x.
Proof. by repeat split. Qed.

Lemma same_request_trans x y z : same_request x y -> same_request y z -> same_request x z.
Proof.
  intros (? & ? & ? & ? & ? & ? & Hxy) (? & ? & ? & ? & ? & ? & Hyz).
  do 6 (split; [congruence|]). intros w. by rewrite Hyz.
Qed.

Lemma pf_frame_same c c' :
  c_cpu c' = c_cpu c -> block c' = block c -> RQ c' = RQ c -> WQ c' = WQ c -> MSHR c' = MSHR c ->
  reads_available_this_cycle c' = reads_available_this_cycle c -> writes_available_this_cycle c' = writes_available_this_cycle c ->
  current_cycle c' = current_cycle c -> lower_level c' = lower_level c -> repl c' = repl c -> returned c' = returned c -> PQ c' = PQ c ->
  pf_frame c c'.
Proof.
  intros ? ? ? ? ? ? ? ? ? ? ? Hq. repeat (split; [done|]). rewrite Hq. split; [done|]. exists (items (PQ c)). split; [done|]. split; [done|].
  apply Forall_Forall2_diag, Forall_true, same_request_self.
Qed.

Lemma pf_frame_trans c1 c2 c3 : pf_frame c1 c2 -> pf_frame c2 c3 -> pf_frame c1 c3.
Proof.
  intros (? & ? & ? & ? & ? & ? & ? & ? & ? & ? & ? & ? & l & Hl & Hp & Hs) (? & ? & ? & ? & ? & ? & ? & ? & ? & ? & ? & ? & l' & Hl' & Hp' & Hs').
  do 12 (split; [congruence|]). destruct Hp as [l2 E]. rewrite E in Hs'. apply Forall2_app_inv_l in Hs' as (k1 & k2 & Hk1 & _ & ->).
  exists k1. split; [by rewrite <- (Forall2_length Hk1)|]. split; [by eapply prefix_app_l|].
  clear -Hs Hk1. revert k1 Hk1. induction Hs as [|x y xs ys Hxy _ IH]; intros k1 Hk1; inversion Hk1 as [|? z ? zs Hyz Hr]; subst; constructor.
  - by eapply same_request_trans.
  - by apply IH.
Qed.

(** A prefetch of a valid address fails no assertion and changes nothing but the
    prefetch queue. *)
Lemma prefetch_line_ok exc pf_addr fill meta c :
  virtual_prefetch k = false -> inv_except k exc c -> pf_addr <> 0 ->
  exists r c', prefetch_line k warmup_complete uninit pf_addr fill meta c = Ret (r, c') /\
  inv_except k exc c' /\ pf_frame c c' /\ pref c' = pref c.
Proof.
  intros Hv Hi Ha. unfold prefetch_line. rewrite Hv.
  set (c0 := c <| stats ::= _ |>).
  assert (inv_except k exc c0) as Hi0 by (destruct Hi; constructor; assumption).
  assert (exists level, (if fill then Ret (cache_level k) else let* lower := the_lower_level c0 in Ret (ll_fill_level lower)) = Ret level) as [lv ->].
  { destruct fill; [by eexists|]. destruct (inv_lower _ _ _ Hi0) as (l & El & _). unfold the_lower_level. rewrite El. by eexists. }
  cbn [cbind]. set (pkt := _ <| v_address := 0 |>).
  assert (request_ok pkt) as Hp by (split; [done|]; split; [done|constructor]).
  destruct (add_pq_ok k warmup_complete exc pkt c0 Hi0 Hp) as (res & pkt' & calls & c' & -> & Hi' & Hpk & Hc & Hpr & Hf & _).
  assert (calls = []) as -> by (destruct Hc as [->| ->]; [done|]; unfold return_to_all; by rewrite Hpk).
  cbn [cbind deliver].
  assert (pf_frame c c') as Hfr by exact (Hf eq_refl).
  destruct (res =? -2); [by eauto 7|]. do 2 eexists. split; [reflexivity|].
  destruct (0 <? res); [|done]. split; [destruct Hi'; constructor; assumption|]. split; [exact Hfr|exact Hpr].
Qed.

(** Whatever lines it asks for, a prefetcher leaves the cache in its invariant, and the
    demands and misses as they are. *)
Lemma asks_ok (Q : Z -> Prop) exc c c' :
  virtual_prefetch k = false -> (forall a, Q a -> a <> 0) -> inv_except k exc c -> asks Q c c' -> inv_except k exc c' /\ pf_frame c c'.
Proof.
  intros Hv HQ Hi Ha. induction Ha as [|c' p Ha [IH IHf]|c1 c2 a fill meta r Ha [IH IHf] Hq E].
  - split; [done|]. by apply pf_frame_same.
  - split; [destruct IH; constructor; assumption|]. exact IHf.
  - destruct (prefetch_line_ok exc a fill meta c1 Hv IH (HQ a Hq)) as (r' & c2' & E' & Hi' & Hf & _).
    rewrite E in E'. injection E' as <- <-. split; [done|]. by eapply pf_frame_trans.
Qed.

Lemma asks_trans (Q : Z -> Prop) c1 c2 c3 : asks Q c1 c2 -> asks Q c2 c3 -> asks Q c1 c3.
Proof. intros H12 H23. induction H23; [done|by constructor|by eapply asks_line]. Qed.

Lemma asks_weaken (Q Q' : Z -> Prop) c c' : (forall a, Q a -> Q' a) -> asks Q c c' -> asks Q' c c'.
Proof. intros HQ Ha. induction Ha; [constructor|by constructor|eapply asks_line; eauto]. Qed.
End Line.
End Prefetching.

(** ** prefetcher/next_line *)
Module NextLine.
Section NextLine.
Context `{Config} {R P L : Type} `{Replacement R} `{LowerLevel L}.
Context (k : params) (warmup_complete : Z -> bool) (uninit : Z).
Local Abbreviation cache := (CACHE R P L).
Import Prefetching.

Definition next_line_operate (addr ip : Z) (cache_hit : bool) (type metadata_in : Z) (c : cache) : cres (Z * cache) :=
  let pf_addr := u64 (addr + Z.shiftl 1 LOG2_BLOCK_SIZE) in
  let* r := prefetch_line_from k warmup_complete uninit ip addr pf_addr true 0 c in
  Ret (metadata_in, r.2).

#[local] Instance next_line : Prefetcher cache := {|
  prefetcher_cache_operate := next_line_operate;
  prefetcher_cache_fill := fun addr set way prefetch evicted_addr metadata_in c => Ret (metadata_in, c);
  prefetcher_cycle_operate := fun c => Ret c;
|}.

Context `{!LowerLevelOk L} `{!ReplacementOk R (NUM_SET k) (NUM_WAY k)}.

(** One line is asked for, the one after the line accessed; the last line of the
    address space has none. *)
Lemma next_line_operate_ok addr ip hit ty meta c :
  virtual_prefetch k = false -> inv k c -> u64 (addr + Z.shiftl 1 LOG2_BLOCK_SIZE) <> 0 ->
  exists c', next_line_operate addr ip hit ty meta c = Ret (meta, c') /\ inv k c' /\ pf_frame c c' /\
  asks k warmup_complete uninit (eq (u64 (addr + Z.shiftl 1 LOG2_BLOCK_SIZE))) c c'.
Proof.
  intros Hv Hi Ha. unfold next_line_operate, prefetch_line_from.
  destruct (prefetch_line_ok k warmup_complete uninit None _ true 0 c Hv Hi Ha) as (r & c' & E & Hi' & Hf & _). rewrite E. cbn [cbind snd].
  exists c'. split; [done|]. split; [done|]. split; [done|]. eapply asks_line; [constructor|reflexivity|exact E].
Qed.
End NextLine.
End NextLine.

(** ** prefetcher/ip_stride *)
Module IpStride.
Section IpStride.
Context `{Config} {R L : Type} `{Replacement R} `{LowerLevel L}.
Import Prefetching.

Definition PREFETCH_DEGREE : Z := 3.
Definition TRACKER_SETS : Z := 256.
Definition TRACKER_WAYS : nat := 4.

Record tracker_entry := mkTracker {
  t_ip : Z;
  last_cl_addr : Z;
  last_stride : Z;
  last_used_cycle : Z;
}.
Record lookahead_entry := mkLookahead {
  la_address : Z;
  la_stride : Z;
  la_degree : Z;
}.
(** The entries of [lookahead] and [trackers] for the cache. *)
Record state := mkStride {
  lookahead : lookahead_entry;
  trackers : list tracker_entry;
}.
#[global] Instance eta_stride : Settable state := mkEta _ (fun x => mkStride (lookahead x) (trackers x)).

Definition new_state : state :=
  mkStride (mkLookahead 0 0 0) (replicate (Z.to_nat TRACKER_SETS * TRACKER_WAYS) (mkTracker 0 0 0 0)).

(** Conversion of an unsigned 64-bit value to [int64_t]. *)
Definition s64 (x : Z) : Z := (x + 2 ^ 63) mod 2 ^ 64 - 2 ^ 63.

(** The range [set_begin, set_end) of an instruction, and where the search for it ends. *)
Definition set_begin (ip : Z) : nat := Z.to_nat (ip mod TRACKER_SETS).
Definition tracking_set (ip : Z) (s : state) : list tracker_entry := take TRACKER_WAYS (drop (set_begin ip) (trackers s)).
Definition find_tracker (ip : Z) (s : state) : nat := find_if (fun x => t_ip x =? ip) (tracking_set ip s).

(** What an access leaves in the tables, at the time [now]. *)
Definition stride_update (addr ip now : Z) (s : state) : state :=
  let cl_addr := Z.shiftr addr LOG2_BLOCK_SIZE in
  let set := tracking_set ip s in
  let found := find_tracker ip s in
  let '(found, stride, s) :=
    match set !! found with
    | Some e =>
      let stride := s64 (cl_addr - last_cl_addr e) in
      (found, stride,
       if negb (stride =? 0) && (stride =? last_stride e) then s <| lookahead := mkLookahead cl_addr stride PREFETCH_DEGREE |> else s)
    | None => (min_element (fun x y => last_used_cycle x <? last_used_cycle y) set, 0, s)
    end in
  s <| trackers ::= <[(set_begin ip + found)%nat := mkTracker ip cl_addr stride now]> |>.

Context (k : params) (warmup_complete : Z -> bool) (uninit : Z).
Local Abbreviation cache := (CACHE R state L).

Definition ip_stride_operate (addr ip : Z) (cache_hit : bool) (type metadata_in : Z) (c : cache) : cres (Z * cache) :=
  Ret (metadata_in, c <| pref := stride_update addr ip (current_cycle c) (pref c) |>).

Definition ip_stride_cycle (c : cache) : cres cache :=
  let '(mkLookahead old_pf_address stride degree) := lookahead (pref c) in
  if 0 <? degree then
    let pf_address := u64 (old_pf_address + Z.shiftl stride LOG2_BLOCK_SIZE) in
    if virtual_prefetch k || (Z.shiftr pf_address LOG2_PAGE_SIZE =? Z.shiftr old_pf_address LOG2_PAGE_SIZE) then
      let* r := prefetch_line_from k warmup_complete uninit 0 0 pf_address (get_occupancy 0 pf_address c <? get_size k 0 pf_address c / 2) 0 c in
      let '(success, c) := r in
      Ret (if ztrue success then c <| pref ::= fun s => s <| lookahead := mkLookahead pf_address stride (degree - 1) |> |> else c)
    else Ret (c <| pref ::= fun s => s <| lookahead := mkLookahead 0 0 0 |> |>)
  else Ret c.

#[local] Instance ip_stride : Prefetcher cache := {|
  prefetcher_cache_operate := ip_stride_operate;
  prefetcher_cache_fill := fun addr set way prefetch evicted_addr metadata_in c => Ret (metadata_in, c);
  prefetcher_cycle_operate := ip_stride_cycle;
|}.

(** *** What is followed *)

(** The tracker an access with [ip] finds. *)
Definition tracked (ip : Z) (s : state) : option tracker_entry :=
  tracking_set ip s !! find_tracker ip s.

Definition sized (s : state) : Prop := length (trackers s) = (Z.to_nat TRACKER_SETS * TRACKER_WAYS)%nat.

Lemma find_if_insert {A} (p : A -> bool) l i e :
  (i < length l)%nat -> (i <= find_if p l)%nat -> p e = true -> find_if p (<[i:=e]> l) = i.
Proof.
  revert i. induction l as [|x l IH]; intros i Hl Hi Hp; [by apply Nat.nlt_0_r in Hl|].
  destruct i as [|i]; [simpl; by rewrite Hp|]. simpl in *. destruct (p x); [lia|]. rewrite IH by (done || lia). done.
Qed.

(** A tracker written where the search of its instruction ends, or before, is found. *)
Lemma tracked_insert ip f e s :
  sized s -> (f < TRACKER_WAYS)%nat -> t_ip e = ip ->
  (f <= find_tracker ip s)%nat ->
  let s' := s <| trackers ::= <[(set_begin ip + f)%nat := e]> |> in
  sized s' /\ tracked ip s' = Some e.
Proof.
  intros Hs Hf He Hle. cbn zeta. unfold sized, tracked, find_tracker, tracking_set in *.
  split; [cbn; by rewrite length_insert|]. set (b := set_begin ip) in *.
  assert (b + TRACKER_WAYS <= length (trackers s))%nat as Hb.
  { rewrite Hs. unfold b, set_begin, TRACKER_SETS, TRACKER_WAYS. pose proof (Z.mod_pos_bound ip 256 ltac:(lia)). lia. }
  change (trackers (s <| trackers ::= _ |>)) with (<[(b + f)%nat := e]> (trackers s)).
  rewrite drop_insert_ge, take_insert_lt by lia. replace (b + f - b)%nat with f by lia.
  assert (f < length (take TRACKER_WAYS (drop b (trackers s))))%nat by (rewrite length_take, length_drop; lia).
  rewrite find_if_insert by (rewrite ?He, ?Z.eqb_refl; done). by apply list_lookup_insert_eq.
Qed.

(** An access leaves the stride from the one before, if any, in the tracker of its
    instruction, and starts following it when it is the same again. *)
Lemma stride_update_spec addr ip now s :
  sized s ->
  let cl := Z.shiftr addr LOG2_BLOCK_SIZE in
  let d := from_option (fun e => s64 (cl - last_cl_addr e)) 0 (tracked ip s) in
  let s' := stride_update addr ip now s in
  sized s' /\ tracked ip s' = Some (mkTracker ip cl d now) /\
  lookahead s' = if negb (d =? 0) && bool_decide (Some d = last_stride <$> tracked ip s) then mkLookahead cl d PREFETCH_DEGREE else lookahead s.
Proof.
  intros Hs. cbn zeta. unfold stride_update. fold (tracked ip s).
  assert (length (tracking_set ip s) = TRACKER_WAYS) as Hl.
  { unfold tracking_set, set_begin. rewrite length_take, length_drop, Hs. unfold TRACKER_SETS, TRACKER_WAYS.
    pose proof (Z.mod_pos_bound ip 256 ltac:(lia)). lia. }
  destruct (tracked ip s) as [e|] eqn:E; unfold tracked in E.
  - apply lookup_lt_Some in E. rewrite Hl in E. cbn [from_option fmap option_fmap option_map].
    set (d := s64 _). set (s1 := if negb (d =? 0) && (d =? last_stride e) then s <| lookahead := _ |> else s).
    assert (trackers s1 = trackers s) as Et by (unfold s1; by destruct (negb (d =? 0) && (d =? last_stride e))).
    destruct (tracked_insert ip (find_tracker ip s) (mkTracker ip (Z.shiftr addr LOG2_BLOCK_SIZE) d now) s1) as [H2 H3];
      [unfold sized; by rewrite Et|done|done|unfold find_tracker, tracking_set; by rewrite Et|].
    split; [exact H2|]. split; [exact H3|]. transitivity (lookahead s1); [done|]. unfold s1.
    destruct (Z.eqb_spec d (last_stride e)); [rewrite bool_decide_true by congruence|rewrite bool_decide_false by congruence];
      by destruct (negb (d =? 0)).
  - apply lookup_ge_None in E. cbn [from_option fmap option_fmap option_map].
    set (v := min_element _ _).
    assert (v < TRACKER_WAYS)%nat as Hv.
    { rewrite <- Hl. apply max_element_lt. intros E0. rewrite E0 in Hl. discriminate. }
    destruct (tracked_insert ip v (mkTracker ip (Z.shiftr addr LOG2_BLOCK_SIZE) 0 now) s) as [H2 H3]; [done|done|done|lia|].
    split; [exact H2|]. split; [exact H3|done].
Qed.


Lemma s64_id x : - 2 ^ 63 <= x < 2 ^ 63 -> s64 x = x.
Proof. intros Hx. unfold s64. rewrite Z.mod_small by lia. lia. Qed.

Context `{!LowerLevelOk L} `{!ReplacementOk R (NUM_SET k) (NUM_WAY k)}.

(** The address of the next prefetch. *)
Definition next_address (la : lookahead_entry) : Z := u64 (la_address la + Z.shiftl (la_stride la) LOG2_BLOCK_SIZE).

(** Following a stride asks for at most one line, keeps the cache as it was apart
    from that, and goes on until the degree is used up or the page ends. *)
Lemma ip_stride_cycle_ok c :
  virtual_prefetch k = false -> inv k c -> next_address (lookahead (pref c)) <> 0 ->
  let la := lookahead (pref c) in
  exists c', ip_stride_cycle c = Ret c' /\ inv k c' /\ pf_frame c c' /\
  asks k warmup_complete uninit (fun a => a = next_address la /\ Z.shiftr a LOG2_PAGE_SIZE = Z.shiftr (la_address la) LOG2_PAGE_SIZE) c c' /\
  trackers (pref c') = trackers (pref c) /\
  (lookahead (pref c') = la \/ lookahead (pref c') = mkLookahead (next_address la) (la_stride la) (la_degree la - 1) \/
   lookahead (pref c') = mkLookahead 0 0 0).
Proof.
  intros Hv Hi Ha. cbn zeta. unfold ip_stride_cycle. destruct (lookahead (pref c)) as [a0 d n] eqn:E. rewrite Hv. cbn [orb].
  change (u64 (a0 + _)) with (next_address (mkLookahead a0 d n)). cbn [la_address la_stride la_degree]. set (a := next_address _) in *.
  assert (asks k warmup_complete uninit (fun a' => a' = a /\ Z.shiftr a' LOG2_PAGE_SIZE = Z.shiftr a0 LOG2_PAGE_SIZE) c c) as Hq0 by constructor.
  assert (pf_frame c c) as Hf0 by (by apply pf_frame_same).
  destruct (0 <? n); [|exists c; rewrite E; by eauto 10].
  destruct (Z.eqb_spec (Z.shiftr a LOG2_PAGE_SIZE) (Z.shiftr a0 LOG2_PAGE_SIZE)) as [Ep|Ep].
  - unfold prefetch_line_from. set (b := _ <? _).
    destruct (prefetch_line_ok k warmup_complete uninit None a b 0 c Hv Hi Ha) as (r & c' & El & Hi' & Hf & Hp). rewrite El. cbn [cbind].
    pose proof (asks_line k warmup_complete uninit _ c c c' a b 0 r Hq0 (conj eq_refl Ep) El) as Hq.
    destruct (ztrue r).
    + eexists. split; [done|]. split; [destruct Hi'; constructor; assumption|]. split; [exact Hf|].
      split; [by apply (asks_state k warmup_complete uninit _ c c' _ Hq)|]. cbn. rewrite Hp. by eauto.
    + exists c'. rewrite Hp, E. by eauto 10.
  - eexists. split; [done|]. split; [destruct Hi; constructor; assumption|]. split; [exact Hf0|].
    split; [by apply (asks_state k warmup_complete uninit _ c c _ Hq0)|]. cbn. by eauto.
Qed.

(** C34: strides are followed.  After accesses of one instruction to lines a stride
    apart, three in a row, the stride is followed from the last line, whatever the tables held.
    The address that is asked for next is computed from the number of the line, not from the
    address of the line. *)
Theorem ip_stride_follows ip l d n1 n2 n3 s c :
  sized s -> d <> 0 -> 0 <= l < 2 ^ 57 -> 0 <= l + d < 2 ^ 57 -> 0 <= l + 2 * d < 2 ^ 57 ->
  let at_line x := Z.shiftl x LOG2_BLOCK_SIZE in
  let s' := stride_update (at_line (l + 2 * d)) ip n3 (stride_update (at_line (l + d)) ip n2 (stride_update (at_line l) ip n1 s)) in
  virtual_prefetch k = false -> inv k c -> pref c = s' -> u64 (l + 2 * d + Z.shiftl d LOG2_BLOCK_SIZE) <> 0 ->
  lookahead s' = mkLookahead (l + 2 * d) d PREFETCH_DEGREE /\
  exists c', ip_stride_cycle c = Ret c' /\ inv k c' /\ pf_frame c c' /\
  asks k warmup_complete uninit (eq (u64 (l + 2 * d + Z.shiftl d LOG2_BLOCK_SIZE))) c c'.
Proof.
  intros Hs Hd Hl1 Hl2 Hl3 at_line s' Hv Hi Hp Ha.
  assert (forall x, Z.shiftr (at_line x) LOG2_BLOCK_SIZE = x) as Hl.
  { intros x. unfold at_line. rewrite Z.shiftr_shiftl_l by apply lg2_nonneg. by rewrite Z.sub_diag, Z.shiftl_0_r. }
  assert (lookahead s' = mkLookahead (l + 2 * d) d PREFETCH_DEGREE) as E.
  { destruct (stride_update_spec (at_line l) ip n1 s Hs) as (Hs1 & E1 & _).
    destruct (stride_update_spec (at_line (l + d)) ip n2 _ Hs1) as (Hs2 & E2 & _).
    destruct (stride_update_spec (at_line (l + 2 * d)) ip n3 _ Hs2) as (_ & _ & E3).
    rewrite E1 in E2. cbn [from_option last_cl_addr] in E2. rewrite !Hl in E2. replace (l + d - l) with d in E2 by lia.
    rewrite E2 in E3. cbn [from_option last_cl_addr last_stride fmap option_fmap option_map] in E3. rewrite !Hl in E3.
    replace (l + 2 * d - (l + d)) with d in E3 by lia. rewrite s64_id in E3 by lia.
    rewrite bool_decide_true, (proj2 (Z.eqb_neq d 0)) in E3 by done. exact E3. }
  split; [exact E|]. destruct (ip_stride_cycle_ok c Hv Hi) as (c' & Ec & Hi' & Hf & Hq & _); [by rewrite Hp, E|].
  exists c'. split; [done|]. split; [done|]. split; [done|]. rewrite Hp, E in Hq. eapply asks_weaken; [|exact Hq]. by intros a [-> _].
Qed.

End IpStride.
End IpStride.
