(* ===== verification/SimSpp.v ===== *)
(** * ChampSim: the signature path prefetcher

    prefetcher/spp_dev: signatures of the last strides within a page ([ST]), the
    strides that followed a signature ([PT]), a filter of the lines asked for
    ([FILTER]) and counters of their use ([GHR]).  The global objects of the file are
    the state of the prefetcher of the cache. *)

From stdpp Require Import base list.
From S2P Require Import Prelude SimUtil SimQueue SimVmem SimRepl SimCache SimCacheSpec SimPrefetch.
Import Util Mem Circ Delay Vmem Cache CacheSpec Prefetching.
Local Open Scope Z_scope.
Local Open Scope c_scope.

Module Spp.

Definition ST_SET : Z := 1.
Definition ST_WAY : nat := 256.
Definition ST_TAG_MASK : Z := Z.shiftl 1 16 - 1.
Definition SIG_SHIFT : Z := 3.
Definition SIG_MASK : Z := Z.shiftl 1 12 - 1.
Definition SIG_DELTA_BIT : Z := 7.
Definition PT_SET : Z := 512.
Definition PT_WAY : nat := 4.
Definition C_SIG_MAX : Z := Z.shiftl 1 4 - 1.
Definition QUOTIENT_BIT : Z := 10.
Definition REMAINDER_BIT : Z := 6.
Definition FILTER_SET : Z := Z.shiftl 1 QUOTIENT_BIT.
Definition FILL_THRESHOLD : Z := 90.
Definition PF_THRESHOLD : Z := 25.
Definition GLOBAL_COUNTER_MAX : Z := Z.shiftl 1 10 - 1.
Definition MAX_GHR_ENTRY : nat := 8.

(** ** State *)

(** An element of the arrays of [SIGNATURE_TABLE]. *)
Record st_entry := mkSt {
  st_valid : bool;
  st_tag : Z;
  last_offset : Z;
  st_sig : Z;
  st_lru : Z;
}.
#[global] Instance eta_st : Settable st_entry := mkEta _ (fun x => mkSt (st_valid x) (st_tag x) (last_offset x) (st_sig x) (st_lru x)).
Abbreviation SIGNATURE_TABLE := (list (list st_entry)).
Definition new_ST : SIGNATURE_TABLE :=
  replicate (Z.to_nat ST_SET) ((fun way => mkSt false 0 0 0 (Z.of_nat way)) <$> seq 0 ST_WAY).

(** An element of [delta] and [c_delta] of [PATTERN_TABLE], and a set. *)
Record pt_entry := mkPt {
  pt_delta : Z;
  c_delta : Z;
}.
#[global] Instance eta_pt : Settable pt_entry := mkEta _ (fun x => mkPt (pt_delta x) (c_delta x)).
Record pt_set := mkPtSet {
  ways : list pt_entry;
  c_sig : Z;
}.
#[global] Instance eta_ptset : Settable pt_set := mkEta _ (fun x => mkPtSet (ways x) (c_sig x)).
Abbreviation PATTERN_TABLE := (list pt_set).
Definition new_PT : PATTERN_TABLE := replicate (Z.to_nat PT_SET) (mkPtSet (replicate PT_WAY (mkPt 0 0)) 0).

(** An element of the arrays of [PREFETCH_FILTER]. *)
Record filter_entry := mkFilter {
  remainder_tag : Z;
  f_valid : bool;
  f_useful : bool;
}.
#[global] Instance eta_filter : Settable filter_entry := mkEta _ (fun x => mkFilter (remainder_tag x) (f_valid x) (f_useful x)).
Abbreviation PREFETCH_FILTER := (list filter_entry).
Definition new_FILTER : PREFETCH_FILTER := replicate (Z.to_nat FILTER_SET) (mkFilter 0 false false).

Record ghr_entry := mkGhr {
  g_valid : bool;
  g_sig : Z;
  g_confidence : Z;
  g_offset : Z;
  g_delta : Z;
}.
#[global] Instance eta_ghr : Settable ghr_entry := mkEta _ (fun x => mkGhr (g_valid x) (g_sig x) (g_confidence x) (g_offset x) (g_delta x)).
Record GLOBAL_REGISTER := mkGHR {
  pf_useful : Z;
  g_issued : Z;
  global_accuracy : Z;
  g_entries : list ghr_entry;
}.
#[global] Instance eta_GHR : Settable GLOBAL_REGISTER := mkEta _ (fun x => mkGHR (pf_useful x) (g_issued x) (global_accuracy x) (g_entries x)).
Definition new_GHR : GLOBAL_REGISTER := mkGHR 0 0 0 (replicate MAX_GHR_ENTRY (mkGhr false 0 0 0 0)).

Record SPP := mkSPP {
  ST : SIGNATURE_TABLE;
  PT : PATTERN_TABLE;
  FILTER : PREFETCH_FILTER;
  GHR : GLOBAL_REGISTER;
}.
#[global] Instance eta_SPP : Settable SPP := mkEta _ (fun x => mkSPP (ST x) (PT x) (FILTER x) (GHR x)).
Definition new_SPP : SPP := mkSPP new_ST new_PT new_FILTER new_GHR.

Definition get_hash (key : Z) : Z :=
  let key := u64 (key + u64 (Z.shiftl key 12)) in
  let key := Z.lxor key (Z.shiftr key 22) in
  let key := u64 (key + u64 (Z.shiftl key 4)) in
  let key := Z.lxor key (Z.shiftr key 9) in
  let key := u64 (key + u64 (Z.shiftl key 10)) in
  let key := Z.lxor key (Z.shiftr key 2) in
  let key := u64 (key + u64 (Z.shiftl key 7)) in
  let key := Z.lxor key (Z.shiftr key 12) in
  u64 (Z.shiftr key 3 * 2654435761).

(** A stride as seven bits, sign and magnitude, and a signature with it. *)
Definition sig_delta (delta : Z) : Z := if delta <? 0 then -1 * delta + Z.shiftl 1 (SIG_DELTA_BIT - 1) else delta.
Definition next_sig (sig delta : Z) : Z := Z.land (Z.lxor (u32 (Z.shiftl sig SIG_SHIFT)) (u32 (sig_delta delta))) SIG_MASK.

(** ** The global register *)

(** The loops that look for a victim: the first of the least elements;
    [min] and [victim_way] are those of the first [i] elements. *)
Fixpoint least_below {A} (key : A -> Z) (min : Z) (victim_way i : nat) (l : list A) : nat :=
  match l with
  | [] => victim_way
  | e :: l => if key e <? min then least_below key (key e) i (S i) l else least_below key min victim_way (S i) l
  end.
Definition ghr_victim (l : list ghr_entry) : nat := least_below g_confidence 100 MAX_GHR_ENTRY 0 l.

Definition update_entry (pf_sig pf_confidence pf_offset pf_delta : Z) (g : GLOBAL_REGISTER) : cres GLOBAL_REGISTER :=
  let i := find_if (fun e => g_valid e && (g_offset e =? pf_offset)) (g_entries g) in
  match g_entries g !! i with
  | Some e => Ret (g <| g_entries ::= <[i := e <| g_sig := pf_sig |> <| g_confidence := pf_confidence |> <| g_delta := pf_delta |>]> |>)
  | None =>
    let victim_way := ghr_victim (g_entries g) in
    let* _ := cassert (victim_way <? MAX_GHR_ENTRY)%nat "[GHR] Cannot find a replacement victim!" in
    Ret (g <| g_entries ::= <[victim_way := mkGhr true pf_sig pf_confidence pf_offset pf_delta]> |>)
  end.

Definition check_entry (page_offset : Z) (g : GLOBAL_REGISTER) : nat :=
  (foldl (fun '(max_conf, max_conf_way, i) e =>
     if (g_offset e =? page_offset) && (max_conf <? g_confidence e) then (g_confidence e, i, S i) else (max_conf, max_conf_way, S i))
   (0, MAX_GHR_ENTRY, 0%nat) (g_entries g)).1.2.

(** ** The signature table *)

(** The way an access uses, the set after it, the signatures before and after, the
    stride, and whether the page was found. *)
Definition st_lookup (partial_page page_offset : Z) (set : list st_entry) : cres (nat * list st_entry * Z * Z * Z * bool) :=
  let hit := find_if (fun e => st_valid e && (st_tag e =? partial_page)) set in
  match set !! hit with
  | Some e =>
    let delta := s32 (u32 (page_offset - last_offset e)) in
    if negb (delta =? 0) then
      let sig := next_sig (st_sig e) delta in
      Ret (hit, <[hit := e <| st_sig := sig |> <| last_offset := page_offset |>]> set, st_sig e, sig, delta, true)
    else Ret (hit, set, 0, 0, delta, true)
  | None =>
    let invalid := find_if (fun e => negb (st_valid e)) set in
    match set !! invalid with
    | Some e => Ret (invalid, <[invalid := mkSt true partial_page page_offset 0 (st_lru e)]> set, 0, 0, 0, false)
    | None =>
      let victim := find_if (fun e => st_lru e =? Z.of_nat ST_WAY - 1) set in
      match set !! victim with
      | Some e => Ret (victim, <[victim := mkSt (st_valid e) partial_page page_offset 0 (st_lru e)]> set, 0, 0, 0, false)
      | None => Abort "[ST] Cannot find a replacement victim!"
      end
    end
  end.

(** [match] becomes the most recently used way. *)
Definition st_promote (match_ : nat) (set : list st_entry) : cres (list st_entry) :=
  match set !! match_ with
  | None => Abort "array index"
  | Some m =>
    let up e := if st_lru e <? st_lru m then e <| st_lru := u32 (st_lru e + 1) |> else e in
    let* _ := cassert (forallb (fun e => negb (st_lru e <? st_lru m) || (u32 (st_lru e + 1) <? Z.of_nat ST_WAY)) set) "[ST] LRU value is wrong!" in
    Ret (alter (fun e => e <| st_lru := 0 |>) match_ (up <$> set))
  end.

(** The signatures before and after the access, and the stride. *)
Definition read_and_update_sig (page page_offset : Z) (s : SPP) : cres (Z * Z * Z * SPP) :=
  let set := Z.to_nat (get_hash page mod ST_SET) in
  let partial_page := Z.land page ST_TAG_MASK in
  match ST s !! set with
  | None => Abort "array index"
  | Some st =>
    let* r := st_lookup partial_page page_offset st in
    let '(match_, st, last_sig, curr_sig, delta, ST_hit) := r in
    let '(curr_sig, st) :=
      if negb ST_hit then
        match g_entries (GHR s) !! check_entry page_offset (GHR s) with
        | Some g => let sig := next_sig (g_sig g) (g_delta g) in (sig, alter (fun e => e <| st_sig := sig |>) match_ st)
        | None => (curr_sig, st)
        end
      else (curr_sig, st) in
    let* st := st_promote match_ st in
    Ret (last_sig, curr_sig, delta, s <| ST ::= <[set := st]> |>)
  end.

(** ** The pattern table *)

(** Count one more stride after the signature; the counters are halved when they are full. *)
Definition count_sig (p : pt_set) : pt_set :=
  let p := p <| c_sig ::= fun n => u32 (n + 1) |> in
  if C_SIG_MAX <? c_sig p then
    p <| ways ::= fmap (fun e => e <| c_delta ::= fun n => Z.shiftr n 1 |>) |> <| c_sig ::= fun n => Z.shiftr n 1 |>
  else p.

(** The first of the least counted strides. *)
Definition pt_victim (l : list pt_entry) : nat := least_below c_delta C_SIG_MAX PT_WAY 0 l.

Definition update_pattern (last_sig curr_delta : Z) (t : PATTERN_TABLE) : cres PATTERN_TABLE :=
  let set := Z.to_nat (get_hash last_sig mod PT_SET) in
  match t !! set with
  | None => Abort "array index"
  | Some p =>
    let match_ := find_if (fun e => pt_delta e =? curr_delta) (ways p) in
    match ways p !! match_ with
    | Some _ => Ret (<[set := count_sig (p <| ways ::= alter (fun e => e <| c_delta ::= fun n => u32 (n + 1) |>) match_ |>)]> t)
    | None =>
      let victim_way := pt_victim (ways p) in
      let* _ := cassert (victim_way <? PT_WAY)%nat "[PT] Cannot find a replacement victim!" in
      Ret (<[set := count_sig (p <| ways ::= <[victim_way := mkPt curr_delta 0]> |>)]> t)
    end
  end.

(** The local variables of [prefetcher_cache_operate] that the lookahead changes; the
    two arrays have [MSHR_SIZE] elements. *)
Record lookahead := mkLook {
  delta_q : list Z;
  confidence_q : list Z;
  pf_q_head : nat;
  pf_q_tail : nat;
  lookahead_conf : Z;
  depth : Z;
  curr_sig : Z;
  base_addr : Z;
}.
#[global] Instance eta_look : Settable lookahead := mkEta _ (fun x => mkLook (delta_q x) (confidence_q x) (pf_q_head x) (pf_q_tail x)
  (lookahead_conf x) (depth x) (curr_sig x) (base_addr x)).

(** [a[i] = v] *)
Definition store (i : nat) (v : Z) (a : list Z) : cres (list Z) :=
  if (i <? length a)%nat then Ret (<[i := v]> a) else Abort "array index".

Definition pf_conf (global_accuracy c_delta c_sig : Z) (w : lookahead) : Z :=
  let local_conf := u32 (100 * c_delta) / c_sig in
  if ztrue (depth w) then u32 (u64 (u64 (global_accuracy * c_delta) / c_sig * lookahead_conf w) / 100) else local_conf.

(** The ways from [way] on; [lookahead_way] and [max_conf] are those found so far. *)
Fixpoint read_ways (accuracy sig_count : Z) (way : nat) (l : list pt_entry) (lookahead_way : nat) (max_conf : Z) (w : lookahead)
    : cres (nat * Z * lookahead) :=
  match l with
  | [] => Ret (lookahead_way, max_conf, w)
  | e :: l =>
    let conf := pf_conf accuracy (c_delta e) sig_count w in
    if PF_THRESHOLD <=? conf then
      let* cq := store (pf_q_tail w) conf (confidence_q w) in
      let* dq := store (pf_q_tail w) (pt_delta e) (delta_q w) in
      let w := w <| confidence_q := cq |> <| delta_q := dq |> <| pf_q_tail ::= S |> in
      if max_conf <? conf then read_ways accuracy sig_count (S way) l way conf w
      else read_ways accuracy sig_count (S way) l lookahead_way max_conf w
    else read_ways accuracy sig_count (S way) l lookahead_way max_conf w
  end.

Definition read_pattern (accuracy : Z) (t : PATTERN_TABLE) (w : lookahead) : cres (nat * lookahead) :=
  match t !! Z.to_nat (get_hash (curr_sig w) mod PT_SET) with
  | None => Abort "array index"
  | Some p =>
    if ztrue (c_sig p) then
      let* r := read_ways accuracy (c_sig p) 0 (ways p) PT_WAY 0 w in
      let '(lookahead_way, max_conf, w) := r in
      let w := w <| lookahead_conf := max_conf |> in
      Ret (lookahead_way, if PF_THRESHOLD <=? max_conf then w <| depth ::= fun d => u32 (d + 1) |> else w)
    else
      let* cq := store (pf_q_tail w) 0 (confidence_q w) in
      Ret (PT_WAY, w <| confidence_q := cq |>)
  end.

(** ** The filter *)

Inductive FILTER_REQUEST := SPP_L2C_PREFETCH | SPP_LLC_PREFETCH | L2C_DEMAND | L2C_EVICT.

Definition check `{Config} (check_addr : Z) (filter_request : FILTER_REQUEST) (s : SPP) : cres (bool * SPP) :=
  let hash := get_hash (Z.shiftr check_addr LOG2_BLOCK_SIZE) in
  let quotient := Z.to_nat (Z.land (Z.shiftr hash REMAINDER_BIT) (Z.shiftl 1 QUOTIENT_BIT - 1)) in
  let remainder := hash mod Z.shiftl 1 REMAINDER_BIT in
  match FILTER s !! quotient with
  | None => Abort "array index"
  | Some f =>
    let present := (f_valid f || f_useful f) && (remainder_tag f =? remainder) in
    match filter_request with
    | SPP_L2C_PREFETCH =>
      if present then Ret (false, s) else Ret (true, s <| FILTER ::= <[quotient := mkFilter remainder true false]> |>)
    | SPP_LLC_PREFETCH => Ret (negb present, s)
    | L2C_DEMAND =>
      if (remainder_tag f =? remainder) && negb (f_useful f) then
        let s := s <| FILTER ::= <[quotient := f <| f_useful := true |>]> |> in
        Ret (true, if f_valid f then s <| GHR ::= fun g => g <| pf_useful ::= fun n => u64 (n + 1) |> |> else s)
      else Ret (true, s)
    | L2C_EVICT =>
      let s := if f_valid f && negb (f_useful f) && ztrue (pf_useful (GHR s)) then s <| GHR ::= fun g => g <| pf_useful ::= fun n => u64 (n - 1) |> |> else s in
      Ret (true, s <| FILTER ::= <[quotient := mkFilter 0 false false]> |>)
    end
  end.

(** ** Prefetching *)
Section Operate.
Context `{Config} {R L : Type} `{Replacement R} `{LowerLevel L}.
Context (k : params) (warmup_complete : Z -> bool) (uninit : Z).
Local Abbreviation cache := (CACHE R SPP L).
Implicit Types c : cache.

Definition count_issued (g : GLOBAL_REGISTER) : GLOBAL_REGISTER :=
  let g := g <| g_issued ::= fun n => u64 (n + 1) |> in
  if GLOBAL_COUNTER_MAX <? g_issued g then g <| g_issued ::= fun n => Z.shiftr n 1 |> <| pf_useful ::= fun n => Z.shiftr n 1 |> else g.

(** What is done with a candidate. *)
Definition candidate (ip addr delta confidence : Z) (w : lookahead) c : cres cache :=
  let pf_addr := u64 (Z.land (base_addr w) (not64 (BLOCK_SIZE - 1)) + s32 (u32 (Z.shiftl delta LOG2_BLOCK_SIZE))) in
  if Z.land addr (not64 (PAGE_SIZE - 1)) =? Z.land pf_addr (not64 (PAGE_SIZE - 1)) then
    let* r := check pf_addr (if FILL_THRESHOLD <=? confidence then SPP_L2C_PREFETCH else SPP_LLC_PREFETCH) (pref c) in
    let c := c <| pref := r.2 |> in
    if r.1 then
      let* r := prefetch_line_from k warmup_complete uninit ip addr pf_addr (FILL_THRESHOLD <=? confidence) 0 c in
      let c := r.2 in
      Ret (if FILL_THRESHOLD <=? confidence then c <| pref ::= fun s => s <| GHR ::= count_issued |> |> else c)
    else Ret c
  else
    let* g := update_entry (curr_sig w) confidence (Z.land (Z.shiftr pf_addr LOG2_BLOCK_SIZE) 63) delta (GHR (pref c)) in
    Ret (c <| pref ::= fun s => s <| GHR := g |> |>).

(** The loop over the candidates [i, pf_q_tail), [n] in number. *)
Fixpoint candidates (ip addr : Z) (i n : nat) (do_lookahead : bool) (w : lookahead) c : cres (bool * lookahead * cache) :=
  match n with
  | O => Ret (do_lookahead, w, c)
  | S n =>
    match confidence_q w !! i, delta_q w !! i with
    | Some confidence, Some delta =>
      if PF_THRESHOLD <=? confidence then
        let* c := candidate ip addr delta confidence w c in
        candidates ip addr (S i) n true (w <| pf_q_head ::= S |>) c
      else candidates ip addr (S i) n do_lookahead w c
    | _, _ => Abort "array index"
    end
  end.

(** Step to the stride of the most confident way. *)
Definition look_further (t : PATTERN_TABLE) (lookahead_way : nat) (w : lookahead) : cres lookahead :=
  if (lookahead_way <? PT_WAY)%nat then
    match t !! Z.to_nat (get_hash (curr_sig w) mod PT_SET) with
    | Some p =>
      match ways p !! lookahead_way with
      | Some e => Ret (w <| base_addr ::= fun a => u64 (a + s32 (u32 (Z.shiftl (pt_delta e) LOG2_BLOCK_SIZE))) |>
                         <| curr_sig ::= fun sig => next_sig sig (pt_delta e) |>)
      | None => Abort "array index"
      end
    | None => Abort "array index"
    end
  else Ret w.

(** A turn of the lookahead: whether another follows. *)
Definition lookahead_turn (ip addr : Z) (w : lookahead) c : cres (bool * lookahead * cache) :=
  let* r := read_pattern (global_accuracy (GHR (pref c))) (PT (pref c)) w in
  let '(lookahead_way, w) := r in
  let* r := candidates ip addr (pf_q_head w) (pf_q_tail w - pf_q_head w) false w c in
  let '(do_lookahead, w, c) := r in
  let* w := look_further (PT (pref c)) lookahead_way w in
  Ret (do_lookahead, w, c).

(** Every turn but the last puts a candidate into the arrays, so that [MSHR_SIZE + 1]
    turns are enough. *)
Fixpoint lookahead_loop (turns : nat) (ip addr : Z) (w : lookahead) c : cres cache :=
  match turns with
  | O => Abort "out of turns"
  | S turns =>
    let* r := lookahead_turn ip addr w c in
    let '(do_lookahead, w, c) := r in
    if do_lookahead then lookahead_loop turns ip addr w c else Ret c
  end.

Definition set_accuracy (g : GLOBAL_REGISTER) : GLOBAL_REGISTER :=
  g <| global_accuracy := if ztrue (g_issued g) then u64 (100 * pf_useful g) / g_issued g else 0 |>.

Definition spp_operate (addr ip : Z) (cache_hit : bool) (type metadata_in : Z) c : cres (Z * cache) :=
  let page := Z.shiftr addr LOG2_PAGE_SIZE in
  let page_offset := u32 (Z.land (Z.shiftr addr LOG2_BLOCK_SIZE) (PAGE_SIZE / BLOCK_SIZE - 1)) in
  let q := replicate (Z.to_nat (MSHR_SIZE k)) 0 in
  let* confidence_q := store 0 100 q in
  let s := pref c <| GHR ::= set_accuracy |> in
  let* r := read_and_update_sig page page_offset s in
  let '(last_sig, curr_sig, delta, s) := r in
  let* r := check addr L2C_DEMAND s in
  let s := r.2 in
  let* t := if ztrue last_sig then update_pattern last_sig delta (PT s) else Ret (PT s) in
  let c := c <| pref := s <| PT := t |> |> in
  let* c := lookahead_loop (S (Z.to_nat (MSHR_SIZE k))) ip addr (mkLook q confidence_q 0 0 100 0 curr_sig addr) c in
  Ret (metadata_in, c).

Definition spp_fill (addr : Z) (set match_ : nat) (prefetch : bool) (evicted_addr metadata_in : Z) c : cres (Z * cache) :=
  let* r := check evicted_addr L2C_EVICT (pref c) in
  Ret (metadata_in, c <| pref := r.2 |>).

#[local] Instance spp_dev : Prefetcher cache := {|
  prefetcher_cache_operate := spp_operate;
  prefetcher_cache_fill := spp_fill;
  prefetcher_cycle_operate := fun c => Ret c;
|}.
End Operate.
End Spp.
