(* ===== verification/SimSppSpec.v ===== *)
(** * ChampSim: what the signature path prefetcher keeps

    The tables of [SimSpp] under the accesses and fills of a cache: the order of use
    of signatures is a permutation, so that a victim is found; the counters of a
    signature exceed the sum of those of its strides, so that confidence falls along a path
    and the lookahead ends within the arrays. *)

From stdpp Require Import base list.
From S2P Require Import Prelude SimUtil SimQueue SimVmem SimRepl SimCache SimCacheSpec SimPrefetch SimSpp.
Import Util Mem Circ Delay Vmem Cache CacheSpec Prefetching Spp.
Local Open Scope Z_scope.
Local Open Scope c_scope.

Module SppSpec.

(** ** The signature table *)

(** Each way has its place in the order of use. *)
Definition st_ok (l : list st_entry) : Prop :=
  length l = ST_WAY /\ NoDup (st_lru <$> l) /\ Forall (fun e => 0 <= st_lru e < Z.of_nat ST_WAY) l.

Definition ST_ok (t : SIGNATURE_TABLE) : Prop := exists l, t = [l] /\ st_ok l.

Lemma new_ST_ok : ST_ok new_ST.
Proof.
  eexists. split; [reflexivity|]. split; [done|]. split.
  - rewrite <- list_fmap_compose. change (NoDup (Z.of_nat <$> seq 0 ST_WAY)). apply NoDup_fmap_2; [apply _|apply NoDup_seq].
  - apply Forall_fmap, list.Forall_forall. intros i Hi%elem_of_seq. cbn. lia.
Qed.

(** A permutation has a last place. *)
Lemma last_place (l : list Z) (n : nat) :
  (0 < n)%nat -> length l = n -> NoDup l -> Forall (fun x => 0 <= x < Z.of_nat n) l -> Z.of_nat n - 1 ∈ l.
Proof.
  intros Hn Hl Hnd Hf.
  assert (l ≡ₚ Z.of_nat <$> seq 0 n) as Hp.
  { apply submseteq_length_Permutation; [|rewrite length_fmap, length_seq; lia]. apply NoDup_submseteq; [done|].
    intros x Hx. rewrite list.Forall_forall in Hf. apply Hf in Hx. apply list_elem_of_fmap. exists (Z.to_nat x).
    split; [lia|]. apply elem_of_seq. lia. }
  rewrite Hp. apply list_elem_of_fmap. exists (n - 1)%nat. split; [lia|]. apply elem_of_seq. lia.
Qed.

(** The way is found, the order of use is untouched, and a stride is learnt only if it
    is not zero. *)
Lemma st_lookup_ok partial off l :
  st_ok l ->
  exists i l' last curr d hit, st_lookup partial off l = Ret (i, l', last, curr, d, hit) /\
  (i < length l)%nat /\ st_lru <$> l' = st_lru <$> l /\ (last <> 0 -> d <> 0).
Proof.
  intros (Hl & Hnd & Hf). unfold st_lookup.
  assert (forall i e v, l !! i = Some e -> st_lru v = st_lru e -> st_lru <$> <[i := v]> l = st_lru <$> l) as Hput.
  { intros i e v He Hv. rewrite list_fmap_insert, Hv. apply list_insert_id. by rewrite list_lookup_fmap, He. }
  destruct (l !! find_if (fun e => st_valid e && (st_tag e =? partial)) l) as [e|] eqn:E1.
  - pose proof (lookup_lt_Some _ _ _ E1). case_match eqn:Ed; do 6 eexists; (split; [done|]); (split; [done|]); (split; [by eauto|]); [|done].
    apply negb_true_iff, Z.eqb_neq in Ed. done.
  - destruct (l !! find_if (fun e => negb (st_valid e)) l) as [e|] eqn:E2.
    { pose proof (lookup_lt_Some _ _ _ E2). do 6 eexists. split; [done|]. split; [done|]. by split; [eauto|]. }
    destruct (l !! find_if (fun e => st_lru e =? Z.of_nat ST_WAY - 1) l) as [e|] eqn:E3.
    { pose proof (lookup_lt_Some _ _ _ E3). do 6 eexists. split; [done|]. split; [done|]. by split; [eauto|]. }
    exfalso. apply lookup_ge_None in E3. pose proof (find_if_le (fun e => st_lru e =? Z.of_nat ST_WAY - 1) l) as Hle.
    assert (find_if (fun e => st_lru e =? Z.of_nat ST_WAY - 1) l = length l) as He by lia.
    apply find_if_end in He. pose proof (last_place (st_lru <$> l) ST_WAY) as Hx.
    rewrite length_fmap in Hx. rewrite list_elem_of_fmap in Hx. rewrite Forall_fmap in Hx.
    destruct Hx as (e & Ee & Hin); [unfold ST_WAY; lia|done|done|done|]. rewrite list.Forall_forall in He.
    apply He in Hin. rewrite <- Ee in Hin. by rewrite Z.eqb_refl in Hin.
Qed.

(** Promotion is a permutation of the places. *)
Lemma st_promote_ok i l :
  st_ok l -> (i < length l)%nat -> exists l', st_promote i l = Ret l' /\ st_ok l'.
Proof.
  intros (Hl & Hnd & Hf) Hi. apply lookup_lt_is_Some_2 in Hi as [m Hm]. unfold st_promote. rewrite Hm.
  pose proof (Forall_lookup_1 _ _ _ _ Hf Hm) as Hmr. cbn in Hmr.
  assert (Z.of_nat ST_WAY = 256) as E256 by reflexivity.
  rewrite (proj2 (forallb_forall _ _)).
  2: { intros e He. apply list_elem_of_In in He. rewrite list.Forall_forall in Hf. apply Hf in He. cbn in He.
       destruct (Z.ltb_spec (st_lru e) (st_lru m)); [|done]. cbn. apply Z.ltb_lt. unfold u32. rewrite Z.mod_small; lia. }
  cbn [cassert cbind]. eexists. split; [reflexivity|].
  set (up := fun e => if st_lru e <? st_lru m then e <| st_lru := u32 (st_lru e + 1) |> else e).
  set (h := fun x => if x <? st_lru m then x + 1 else if x =? st_lru m then 0 else x).
  assert (st_lru <$> alter (fun e => e <| st_lru := 0 |>) i (up <$> l) = h <$> (st_lru <$> l)) as E.
  { apply list_eq. intros j. rewrite !list_lookup_fmap. destruct (decide (j = i)) as [->|Hne].
    - rewrite list_lookup_alter_eq, list_lookup_fmap, Hm. cbn. unfold h. by rewrite Z.ltb_irrefl, Z.eqb_refl.
    - rewrite list_lookup_alter_ne, list_lookup_fmap by done. destruct (l !! j) as [e|] eqn:Ej; [|done]. cbn. f_equal. unfold up, h.
      pose proof (Forall_lookup_1 _ _ _ _ Hf Ej) as He. cbn in He.
      destruct (Z.ltb_spec (st_lru e) (st_lru m)); [cbn; unfold u32; rewrite Z.mod_small; lia|].
      destruct (Z.eqb_spec (st_lru e) (st_lru m)) as [Ee|]; [|done]. exfalso. apply Hne.
      apply (NoDup_lookup (st_lru <$> l) j i (st_lru m)); [done| |]; rewrite list_lookup_fmap; [by rewrite Ej, <- Ee|by rewrite Hm]. }
  split; [by rewrite length_alter, length_fmap|]. split.
  - rewrite E. apply NoDup_fmap_2_strong; [|done]. intros x y Hx Hy. apply list_elem_of_fmap in Hx as (ex & -> & Hx).
    apply list_elem_of_fmap in Hy as (ey & -> & Hy). rewrite list.Forall_forall in Hf. apply Hf in Hx. apply Hf in Hy. cbn in Hx, Hy.
    unfold h. repeat case_match; rewrite ?Z.ltb_lt, ?Z.ltb_ge, ?Z.eqb_eq, ?Z.eqb_neq in *; lia.
  - enough (Forall (fun x => 0 <= x < Z.of_nat ST_WAY) (h <$> (st_lru <$> l))) as Hh by (rewrite <- E in Hh; by apply Forall_fmap in Hh).
    rewrite !Forall_fmap.
    eapply list.Forall_impl; [exact Hf|]. intros e He. cbn in *. unfold h.
    repeat case_match; rewrite ?Z.ltb_lt, ?Z.ltb_ge, ?Z.eqb_eq, ?Z.eqb_neq in *; lia.
Qed.

Lemma st_ok_lru l l' : st_lru <$> l' = st_lru <$> l -> st_ok l -> st_ok l'.
Proof.
  intros E (Hl & Hnd & Hf). split; [by rewrite <- (length_fmap st_lru), E, length_fmap|]. split; [by rewrite E|].
  enough (Forall (fun x => 0 <= x < Z.of_nat ST_WAY) (st_lru <$> l')) as Hh by (by apply Forall_fmap in Hh).
  rewrite E. by apply Forall_fmap.
Qed.

(** An access reads and updates the signature of its page without failing an assertion. *)
Lemma read_and_update_sig_ok page off s :
  ST_ok (ST s) ->
  exists last curr d s', read_and_update_sig page off s = Ret (last, curr, d, s') /\
  ST_ok (ST s') /\ PT s' = PT s /\ FILTER s' = FILTER s /\ GHR s' = GHR s /\ (last <> 0 -> d <> 0).
Proof.
  intros (l & E & Hl). unfold read_and_update_sig. rewrite E. unfold ST_SET. rewrite Z.mod_1_r. change ([l] !! Z.to_nat 0) with (Some l).
  destruct (st_lookup_ok (Z.land page ST_TAG_MASK) off l Hl) as (i & l1 & last & curr & d & hit & -> & Hi & Hlru & Hd). cbn [cbind].
  set (r := if negb hit then _ else (curr, l1)).
  assert (st_lru <$> r.2 = st_lru <$> l) as Hr.
  { unfold r. destruct (negb hit); [|done]. destruct (g_entries (GHR s) !! _); [|done]. cbn [snd].
    rewrite <- Hlru. apply list_eq. intros j. rewrite !list_lookup_fmap. destruct (decide (j = i)) as [->|];
      [rewrite list_lookup_alter_eq|rewrite list_lookup_alter_ne by done; done]. by destruct (l1 !! i). }
  destruct r as [curr' l2]. cbn [snd] in Hr.
  assert (st_ok l2) as Hl2 by (eapply st_ok_lru; [exact Hr|exact Hl]).
  destruct (st_promote_ok i l2 Hl2) as (l3 & -> & Hl3).
  { rewrite <- (length_fmap st_lru), Hr, length_fmap. exact Hi. }
  cbn [cbind]. do 4 eexists. split; [done|]. split; [exists l3; split; [cbn; by rewrite E|done]|]. done.
Qed.

(** ** The pattern table *)

Definition total (l : list pt_entry) : Z := foldr (fun e n => c_delta e + n) 0 l.

(** A signature was seen more often than its strides were seen again, and at most
    [C_SIG_MAX] times; a set that was never used holds nothing. *)
Definition pt_ok (p : pt_set) : Prop :=
  length (ways p) = PT_WAY /\ Forall (fun e => 0 <= c_delta e) (ways p) /\
  ((c_sig p = 0 /\ ways p = replicate PT_WAY (mkPt 0 0)) \/ (0 <= total (ways p) < c_sig p /\ c_sig p <= C_SIG_MAX)).

Definition PT_ok (t : PATTERN_TABLE) : Prop := length t = Z.to_nat PT_SET /\ Forall pt_ok t.

Lemma new_PT_ok : PT_ok new_PT.
Proof.
  split; [apply length_replicate|]. apply Forall_replicate. split; [done|]. split; [repeat constructor; done|]. by left.
Qed.

Lemma hash_set x : (Z.to_nat (x mod PT_SET) < Z.to_nat PT_SET)%nat.
Proof. pose proof (Z.mod_pos_bound x PT_SET ltac:(done)). unfold PT_SET in *. lia. Qed.

Lemma total_alter f i l e :
  l !! i = Some e -> total (alter f i l) = total l - c_delta e + c_delta (f e).
Proof.
  revert i. induction l as [|x l IH]; intros [|i] He; [done|done| |]; cbn in He.
  - injection He as ->. cbn. lia.
  - change (c_delta x + total (alter f i l) = c_delta x + total l - c_delta e + c_delta (f e)). rewrite (IH _ He). lia.
Qed.

Lemma total_insert v i l e : l !! i = Some e -> total (<[i := v]> l) = total l - c_delta e + c_delta v.
Proof.
  revert i. induction l as [|x l IH]; intros [|i] He; [done|done| |]; cbn in He.
  - injection He as ->. cbn. lia.
  - change (c_delta x + total (<[i := v]> l) = c_delta x + total l - c_delta e + c_delta v). rewrite (IH _ He). lia.
Qed.

Lemma total_nonneg l : Forall (fun e => 0 <= c_delta e) l -> 0 <= total l.
Proof. induction 1 as [|e l He _ IH]; cbn; [done|]. unfold total in *. lia. Qed.

Lemma total_le e l : Forall (fun e => 0 <= c_delta e) l -> e ∈ l -> c_delta e <= total l.
Proof.
  intros Hf. induction Hf as [|x l Hx Hl IH]; intros Hin; [by apply not_elem_of_nil in Hin|].
  pose proof (total_nonneg l Hl). apply elem_of_cons in Hin as [->|Hin]; cbn; unfold total in *; [lia|]. specialize (IH Hin). lia.
Qed.

Lemma total_halved l : Forall (fun e => 0 <= c_delta e) l ->
  0 <= 2 * total ((fun e => e <| c_delta ::= fun n => Z.shiftr n 1 |>) <$> l) <= total l.
Proof.
  induction 1 as [|e l He _ IH]; [done|]. cbn in *. unfold total in *. cbn. rewrite Z.shiftr_div_pow2 by done.
  change (2 ^ 1) with 2. pose proof (Z.div_mod (c_delta e) 2). pose proof (Z.mod_pos_bound (c_delta e) 2). lia.
Qed.

(** Counting keeps the signature ahead of its strides. *)
Lemma count_sig_ok p :
  length (ways p) = PT_WAY -> Forall (fun e => 0 <= c_delta e) (ways p) -> total (ways p) <= c_sig p -> 0 <= c_sig p <= C_SIG_MAX ->
  pt_ok (count_sig p).
Proof.
  intros Hl Hf Ht Hs. unfold count_sig. change (C_SIG_MAX) with 15 in *. pose proof (total_nonneg _ Hf).
  assert (c_sig (p <| c_sig ::= fun n => u32 (n + 1) |>) = c_sig p + 1) as E by (cbn; unfold u32; rewrite Z.mod_small; lia).
  rewrite E. destruct (Z.ltb_spec 15 (c_sig p + 1)).
  - assert (c_sig p = 15) as E15 by lia. split; [cbn; by rewrite length_fmap|]. split.
    + cbn. apply Forall_fmap. eapply list.Forall_impl; [exact Hf|]. intros e He. cbn in *. by apply Z.shiftr_nonneg.
    + right. pose proof (total_halved _ Hf) as Hh. set (h := total _) in Hh. change (0 <= h < Z.shiftr (u32 (c_sig p + 1)) 1 /\ Z.shiftr (u32 (c_sig p + 1)) 1 <= 15).
      rewrite E15. change (Z.shiftr (u32 (15 + 1)) 1) with 8. lia.
  - split; [done|]. split; [done|]. right. rewrite E. change (0 <= total (ways p) < c_sig p + 1 /\ c_sig p + 1 <= 15). lia.
Qed.

(** The search for a victim finds one if the first element is below the bound. *)
Lemma least_below_lt {A} (key : A -> Z) bound none x (l : list A) :
  key x < bound -> (least_below key bound none 0 (x :: l) < length (x :: l))%nat.
Proof.
  intros Hx. cbn. rewrite (proj2 (Z.ltb_lt _ _) Hx).
  enough (forall m v i, (v < i)%nat -> (least_below key m v i l < i + length l)%nat) as Hgo by (apply (Hgo (key x) 0%nat 1%nat); lia).
  clear x Hx. induction l as [|y l IH]; intros m v i Hv; cbn; [lia|].
  destruct (key y <? m); [specialize (IH (key y) i (S i))|specialize (IH m v (S i))]; lia.
Qed.

(** A stride other than zero is counted after the signature. *)
Lemma update_pattern_ok sig d t :
  PT_ok t -> d <> 0 -> exists t', update_pattern sig d t = Ret t' /\ PT_ok t'.
Proof.
  intros [Hl Hf] Hd. unfold update_pattern.
  pose proof (hash_set (get_hash sig)) as Hs. rewrite <- Hl in Hs. apply lookup_lt_is_Some_2 in Hs as [p Ep]. rewrite Ep.
  pose proof (Forall_lookup_1 _ _ _ _ Hf Ep) as (Hw & Hc & Hsum).
  assert (forall q, pt_ok q -> PT_ok (<[Z.to_nat (get_hash sig mod PT_SET) := q]> t)) as Hput.
  { intros q Hq. split; [by rewrite length_insert|]. by apply Forall_insert. }
  assert (total (ways p) <= c_sig p /\ 0 <= c_sig p <= C_SIG_MAX) as [Ht Hr].
  { destruct Hsum as [[E0 E1]|[? ?]]; [|lia]. rewrite E0, E1. done. }
  destruct (ways p !! find_if (fun e => pt_delta e =? d) (ways p)) as [e|] eqn:Ee.
  - eexists. split; [done|]. apply Hput.
    assert (pt_delta e = d) as Hpd.
    { destruct (find_if_Some (fun e => pt_delta e =? d) (ways p) (lookup_lt_Some _ _ _ Ee)) as (e' & Ee' & Hp).
      rewrite Ee in Ee'. injection Ee' as <-. by apply Z.eqb_eq. }
    destruct Hsum as [[_ E0]|[Hsum _]].
    { rewrite E0 in Ee. apply lookup_replicate_1 in Ee as [-> _]. by cbn in Hpd. }
    pose proof (Forall_lookup_1 _ _ _ _ Hc Ee) as He. cbn in He.
    pose proof (total_le e (ways p) Hc (list_elem_of_lookup_2 _ _ _ Ee)) as Hle.
    assert (u32 (c_delta e + 1) = c_delta e + 1) as Eu by (unfold u32; change C_SIG_MAX with 15 in Hr; rewrite Z.mod_small; lia).
    apply count_sig_ok; cbn [set ways c_sig]; unfold set; cbn.
    + by rewrite length_alter.
    + apply Forall_alter; [done|]. intros x Hx _. cbn. rewrite Ee in Hx. injection Hx as <-. rewrite Eu. lia.
    + rewrite (total_alter _ _ _ e) by done. cbn. rewrite Eu. lia.
    + done.
  - assert (pt_victim (ways p) < PT_WAY)%nat as Hv.
    { rewrite <- Hw. unfold pt_victim. destruct (ways p) as [|x l] eqn:Ew; [done|]. apply least_below_lt.
      pose proof (total_le x (x :: l) Hc (list_elem_of_here _ _)). destruct Hsum as [[E0 E1]|Hsum]; [|lia].
      injection E1 as -> _. done. }
    rewrite (proj2 (Nat.ltb_lt _ _) Hv). cbn [cassert cbind]. eexists. split; [done|]. apply Hput.
    rewrite <- Hw in Hv. apply lookup_lt_is_Some_2 in Hv as [x Ex]. pose proof (Forall_lookup_1 _ _ _ _ Hc Ex) as Hx. cbn in Hx.
    apply count_sig_ok; cbn [set ways c_sig]; unfold set; cbn.
    + by rewrite length_insert.
    + by apply Forall_insert.
    + rewrite (total_insert _ _ _ _ Ex). cbn. lia.
    + done.
Qed.

(** ** The filter and the global register *)

Definition GHR_ok (g : GLOBAL_REGISTER) : Prop :=
  length (g_entries g) = MAX_GHR_ENTRY /\ Forall (fun e => g_confidence e < 100) (g_entries g) /\
  0 <= g_issued g <= GLOBAL_COUNTER_MAX /\ 0 <= pf_useful g.

Record spp_ok (s : SPP) : Prop := mkSppOk {
  ok_ST : ST_ok (ST s);
  ok_PT : PT_ok (PT s);
  ok_FILTER : length (FILTER s) = Z.to_nat FILTER_SET;
  ok_GHR : GHR_ok (GHR s);
}.

Lemma new_SPP_ok : spp_ok new_SPP.
Proof.
  constructor; [apply new_ST_ok|apply new_PT_ok|apply length_replicate|]. split; [done|]. split; [by apply Forall_replicate|].
  split; [|done]. by vm_compute.
Qed.

(** The register remembers a prefetch that leaves the page, in place of a less confident one. *)
Lemma update_entry_ok sig conf off d g :
  GHR_ok g -> conf < 100 ->
  exists g', update_entry sig conf off d g = Ret g' /\ GHR_ok g' /\ global_accuracy g' = global_accuracy g.
Proof.
  intros (Hl & Hf & Hi & Hu) Hc. unfold update_entry.
  assert (forall i e, g_confidence e < 100 -> GHR_ok (g <| g_entries ::= <[i := e]> |>)) as Hput.
  { intros i e He. split; [cbn; by rewrite length_insert|]. split; [by apply Forall_insert|done]. }
  destruct (g_entries g !! _) as [e|]; [eexists; split; [done|]; split; [by apply Hput|done]|].
  assert (ghr_victim (g_entries g) < MAX_GHR_ENTRY)%nat as Hv.
  { rewrite <- Hl. unfold ghr_victim. destruct (g_entries g) as [|x l]; [done|]. apply least_below_lt. by apply list.Forall_cons in Hf as [? _]. }
  rewrite (proj2 (Nat.ltb_lt _ _) Hv). cbn [cassert cbind]. eexists. split; [done|]. split; [by apply Hput|done].
Qed.

Lemma count_issued_ok g : GHR_ok g -> GHR_ok (count_issued g).
Proof.
  intros (Hl & Hf & Hi & Hu). unfold count_issued. change GLOBAL_COUNTER_MAX with 1023 in *.
  assert (g_issued (g <| g_issued ::= fun n => u64 (n + 1) |>) = g_issued g + 1) as E by (cbn; unfold u64; rewrite Z.mod_small; lia).
  rewrite E. destruct (Z.ltb_spec 1023 (g_issued g + 1)).
  - split; [done|]. split; [done|]. split; [|by apply Z.shiftr_nonneg].
    assert (g_issued g = 1023) as E' by lia. cbn. rewrite E'. by vm_compute.
  - split; [done|]. split; [done|]. split; [|done]. rewrite E. change GLOBAL_COUNTER_MAX with 1023. lia.
Qed.

Lemma check_ok `{Config} a r s :
  spp_ok s -> exists b s', check a r s = Ret (b, s') /\ spp_ok s' /\ PT s' = PT s /\ global_accuracy (GHR s') = global_accuracy (GHR s).
Proof.
  intros [Hst Hpt Hf Hg]. unfold check. set (hash := get_hash _). set (q := Z.to_nat _).
  assert (q < length (FILTER s))%nat as Hq.
  { rewrite Hf. unfold q, FILTER_SET, QUOTIENT_BIT. change (Z.shiftl 1 10 - 1) with (Z.ones 10). rewrite Z.land_ones by lia.
    pose proof (Z.mod_pos_bound (Z.shiftr hash REMAINDER_BIT) (2 ^ 10) ltac:(lia)). change (Z.shiftl 1 10) with (2 ^ 10). lia. }
  apply lookup_lt_is_Some_2 in Hq as [f ->].
  assert (forall g v, GHR_ok g -> spp_ok (mkSPP (ST s) (PT s) (<[q := v]> (FILTER s)) g)) as Hput.
  { intros g v Hg'. constructor; [done|done|cbn; by rewrite length_insert|done]. }
  assert (forall n, 0 <= n -> GHR_ok (GHR s <| pf_useful := n |>)) as Hn by (intros n Hn; destruct Hg as (? & ? & ? & ?); split; [done|]; split; [done|]; by split).
  assert (forall n, 0 <= u64 n) as Hu by (intros n; apply Z.mod_pos_bound; lia).
  destruct r.
  - case_match; do 2 eexists; (split; [done|]); (split; [|done]); [by constructor|by apply (Hput (GHR s))].
  - do 2 eexists. split; [done|]. split; [by constructor|done].
  - case_match; [case_match|]; do 2 eexists; (split; [done|]); (split; [|done]);
      [apply (Hput (GHR s <| pf_useful := _ |>)), Hn, Hu|by apply (Hput (GHR s))|by constructor].
  - case_match; do 2 eexists; (split; [done|]); (split; [|done]);
      [apply (Hput (GHR s <| pf_useful := _ |>)), Hn, Hu|by apply (Hput (GHR s))].
Qed.

(** ** Confidence along a path *)

(** The greatest share of a stride: 14 of 15. *)
Definition fade (la : Z) : Z := 93 * la / 100.

(** How many candidates a path of confidence [la] can still have. *)
Fixpoint reach (n : nat) (la : Z) : nat :=
  match n with
  | O => 0
  | S n => if PF_THRESHOLD <=? fade la then S (reach n (fade la)) else 0
  end.
Definition path (la : Z) : nat := reach 20 la.
Arguments path : simpl never.

Lemma path_100 : path 100 = 16%nat.
Proof. by vm_compute. Qed.

(** [n] candidates, the most confident of which has [m], use up [n] of the path. *)
Lemma path_step la m n :
  0 <= la <= 100 -> PF_THRESHOLD <= m -> (0 < n)%nat -> m + PF_THRESHOLD * (Z.of_nat n - 1) <= fade la -> (n + path m <= path la)%nat.
Proof.
  intros Hla Hm Hn Hs. change PF_THRESHOLD with 25 in *.
  assert (fade la <= 93) as Hf by (unfold fade; apply Z.div_le_upper_bound; lia).
  assert (forallb (fun la => let f := fade la in let r := path la in forallb (fun m => if 25 <=? m then forallb (fun n =>
    if m + 25 * (Z.of_nat n - 1) <=? f then (n + path m <=? r)%nat else true) (seq 1 3) else true)
    (Z.of_nat <$> seq 0 101)) (Z.of_nat <$> seq 0 101) = true) as Hall by (vm_compute; reflexivity).
  rewrite forallb_forall in Hall. specialize (Hall la). cbv zeta in Hall. rewrite forallb_forall in Hall.
  assert (forall x, 0 <= x <= 100 -> In x (Z.of_nat <$> seq 0 101)) as Hin.
  { intros x Hx. apply list_elem_of_In, list_elem_of_fmap. exists (Z.to_nat x). split; [lia|]. apply elem_of_seq. lia. }
  specialize (Hall (Hin la Hla) m (Hin m ltac:(lia))). rewrite (proj2 (Z.leb_le 25 m)) in Hall by lia. rewrite forallb_forall in Hall.
  specialize (Hall n). rewrite <- list_elem_of_In, elem_of_seq in Hall. specialize (Hall ltac:(lia)).
  rewrite (proj2 (Z.leb_le _ (fade la))) in Hall by lia. by apply Nat.leb_le.
Qed.

(** The confidences that make candidates. *)
Definition confident (accuracy sig_count : Z) (l : list pt_entry) (w : lookahead) : list Z :=
  List.filter (fun x => PF_THRESHOLD <=? x) ((fun e => pf_conf accuracy (c_delta e) sig_count w) <$> l).

Definition sum (l : list Z) : Z := foldr Z.add 0 l.

(** A path in range: before the first step it is fully confident. *)
Definition look_conf (w : lookahead) : Prop := 0 <= lookahead_conf w <= 100 /\ (depth w = 0 -> lookahead_conf w = 100).

Lemma pf_conf_le acc c cs w :
  0 <= acc <= 100 -> 0 <= c <= 15 -> 0 < cs -> look_conf w ->
  0 <= pf_conf acc c cs w <= 100 * c / cs * lookahead_conf w / 100.
Proof.
  intros Ha Hc Hs [Hl Hd]. unfold pf_conf. unfold ztrue.
  assert (0 <= 100 * c / cs <= 1500) as Hb by (split; [apply Z.div_pos; lia|apply Z.div_le_upper_bound; [lia|]; nia]).
  assert (0 <= acc * c <= 100 * c) as Hac by (split; [apply Z.mul_nonneg_nonneg|apply Z.mul_le_mono_nonneg_r]; lia).
  assert (0 <= acc * c / cs <= 100 * c / cs) as Hab by (split; [apply Z.div_pos|apply Z.div_le_mono]; lia).
  destruct (Z.eqb_spec (depth w) 0) as [E|E]; cbn [negb].
  - rewrite (Hd E), Z.div_mul by lia. unfold u32. rewrite Z.mod_small by lia. lia.
  - set (q := acc * c / cs) in *. set (b := 100 * c / cs) in *.
    assert (0 <= q * lookahead_conf w <= b * lookahead_conf w) as Hp by (split; [apply Z.mul_nonneg_nonneg|apply Z.mul_le_mono_nonneg_r]; lia).
    assert (b * lookahead_conf w <= 1500 * 100) as Hp' by (apply Z.mul_le_mono_nonneg; lia).
    unfold u64. rewrite (Z.mod_small (acc * c)) by lia. fold q. rewrite (Z.mod_small (q * lookahead_conf w)) by lia.
    assert (0 <= q * lookahead_conf w / 100 <= 1500) as Hq by (split; [apply Z.div_pos; lia|apply Z.div_le_upper_bound; lia]).
    unfold u32. rewrite Z.mod_small by lia. split; [lia|]. apply Z.div_le_mono; lia.
Qed.

(** Together the confidences stay below the confidence of the path. *)
Lemma sum_confident acc cs l w :
  0 <= acc <= 100 -> Forall (fun e => 0 <= c_delta e <= 15) l -> 0 < cs -> look_conf w ->
  sum (confident acc cs l w) <= 100 * total l / cs * lookahead_conf w / 100.
Proof.
  intros Ha Hf Hs Hw. pose proof Hw as [Hl _]. induction Hf as [|e l He Hf IH].
  { cbn. apply Z.div_pos; [|lia]. apply Z.mul_nonneg_nonneg; [apply Z.div_pos; lia|lia]. }
  pose proof (pf_conf_le acc (c_delta e) cs w Ha He Hs Hw) as Hc.
  assert (sum (confident acc cs (e :: l) w) <= pf_conf acc (c_delta e) cs w + sum (confident acc cs l w)) as Hle.
  { unfold confident. cbn. case_match; cbn; unfold sum; lia. }
  change (total (e :: l)) with (c_delta e + total l).
  assert (100 * c_delta e / cs + 100 * total l / cs <= 100 * (c_delta e + total l) / cs) as Hq.
  { rewrite Z.mul_add_distr_l. apply Z.div_le_lower_bound; [lia|]. pose proof (Z.mul_div_le (100 * c_delta e) cs). pose proof (Z.mul_div_le (100 * total l) cs). lia. }
  set (x := 100 * c_delta e / cs) in *. set (y := 100 * total l / cs) in *. set (z := 100 * (c_delta e + total l) / cs) in *. set (la := lookahead_conf w) in *.
  assert (x * la / 100 + y * la / 100 <= z * la / 100).
  { apply Z.div_le_lower_bound; [lia|]. pose proof (Z.mul_div_le (x * la) 100). pose proof (Z.mul_div_le (y * la) 100).
    assert ((x + y) * la <= z * la) by (apply Z.mul_le_mono_nonneg_r; lia). lia. }
  lia.
Qed.

Lemma sum_ge x l : Forall (fun x => PF_THRESHOLD <= x) l -> x ∈ l -> x <= sum l.
Proof.
  change PF_THRESHOLD with 25. intros Hf. enough (0 <= sum l /\ (x ∈ l -> x <= sum l)) as Hx by tauto.
  induction Hf as [|y l Hy Hf [IH IHx]]; [split; [done|]; by intros ?%not_elem_of_nil|]. change (sum (y :: l)) with (y + sum l).
  split; [lia|]. intros [->|Hin]%elem_of_cons; [lia|]. specialize (IHx Hin). lia.
Qed.

Lemma max_from m l : Forall (fun x => PF_THRESHOLD <= x) l -> PF_THRESHOLD <= m ->
  foldl Z.max m l ∈ m :: l /\ foldl Z.max m l + PF_THRESHOLD * Z.of_nat (length l) <= m + sum l.
Proof.
  change PF_THRESHOLD with 25. intros Hf. revert m.
  induction Hf as [|x l Hx Hf IH]; intros m Hm; cbn [foldl length]; [split; [left|cbn; lia]|].
  destruct (IH (Z.max m x) ltac:(lia)) as [Hin Hle]. change (sum (x :: l)) with (x + sum l). split; [|lia].
  apply elem_of_cons in Hin as [E|Hin]; [rewrite E|by do 2 right].
  destruct (Z.max_spec m x) as [[_ ->]|[_ ->]]; [right; left|left].
Qed.

(** The most confident candidate of a turn, and how much of the path the turn uses up. *)
Lemma confident_path acc p w :
  0 <= acc <= 100 -> pt_ok p -> c_sig p <> 0 -> look_conf w ->
  let l := confident acc (c_sig p) (ways p) w in
  Forall (fun x => PF_THRESHOLD <= x < 100) l /\ (length l + (if decide (l = []) then 0 else path (foldl Z.max 0%Z l)) <= path (lookahead_conf w))%nat /\
  (l <> [] -> PF_THRESHOLD <= foldl Z.max 0 l <= 100).
Proof.
  intros Ha (Hw & Hc & Hsum) Hs Hl l. destruct Hsum as [[? _]|[Ht Hm]]; [done|]. change C_SIG_MAX with 15 in Hm. pose proof Hl as [Hla _].
  assert (Forall (fun e => 0 <= c_delta e <= 15) (ways p)) as Hc'.
  { apply list.Forall_forall. intros e He. pose proof (total_le e _ Hc He). rewrite list.Forall_forall in Hc. apply Hc in He. cbn in He. lia. }
  pose proof (sum_confident acc (c_sig p) (ways p) w Ha Hc' ltac:(lia) Hl) as Hsum. fold l in Hsum.
  assert (Forall (fun x => PF_THRESHOLD <= x) l) as Hf.
  { apply list.Forall_forall. intros x Hx. unfold l, confident in Hx. apply list_elem_of_In, filter_In in Hx as [_ Hx]. by apply Z.leb_le. }
  assert (100 * total (ways p) / c_sig p <= 93) as Hq by (apply Z.lt_succ_r, Z.div_lt_upper_bound; lia).
  assert (sum l <= fade (lookahead_conf w)) as Hfade.
  { etransitivity; [exact Hsum|]. unfold fade. apply Z.div_le_mono; [lia|]. apply Z.mul_le_mono_nonneg_r; lia. }
  assert (fade (lookahead_conf w) <= 93) as H93 by (unfold fade; apply Z.div_le_upper_bound; lia).
  destruct l as [|x l'] eqn:El; [split; [by apply list.Forall_nil|]; split; [rewrite decide_True by done; cbn; lia|done]|].
  rewrite decide_False by done. cbn [foldl]. change PF_THRESHOLD with 25 in *.
  pose proof (Forall_inv Hf) as Hx. cbn in Hx. rewrite Z.max_r by lia.
  destruct (max_from x l') as [Hin Hle]; [by apply list.Forall_cons in Hf as [_ ?]|done|]. change PF_THRESHOLD with 25 in Hle.
  change (x + sum l') with (sum (x :: l')) in Hle. set (m := foldl Z.max x l') in *.
  assert (25 <= m) as Hm25 by (rewrite list.Forall_forall in Hf; by apply Hf in Hin).
  split; [|split; [|intros _; lia]].
  - apply list.Forall_forall. intros y Hy. pose proof (sum_ge y (x :: l')) as Hge.
    rewrite list.Forall_forall in Hf. pose proof (Hf y Hy). cbn in *. lapply Hge; [|eapply list.Forall_forall; intros z Hz; by apply Hf].
    intros Hge'. specialize (Hge' Hy). lia.
  - apply path_step; [done|done|cbn; lia|]. change PF_THRESHOLD with 25. cbn [length]. lia.
Qed.
End SppSpec.
