(* ===== verification/SimSppRun.v ===== *)
(** * ChampSim: the signature path prefetcher runs

    An access and a fill of a cache with the prefetcher of [SimSpp]: the lookahead
    stays within its arrays and ends, every line asked for lies in the page that was
    accessed, and tables and cache keep their invariants. *)

From stdpp Require Import base list.
From S2P Require Import Prelude SimUtil SimQueue SimVmem SimRepl SimCache SimCacheSpec SimPrefetch SimSpp SimSppSpec.
Import Util Mem Circ Delay Vmem Cache CacheSpec Prefetching Spp SppSpec.
Local Open Scope Z_scope.
Local Open Scope c_scope.

Module SppRun.

(** ** Reading the pattern of a signature *)

(** What [read_pattern] leaves of the local variables. *)
Definition same_path (w w' : lookahead) : Prop :=
  pf_q_head w' = pf_q_head w /\ curr_sig w' = curr_sig w /\ base_addr w' = base_addr w /\
  length (confidence_q w') = length (confidence_q w) /\ length (delta_q w') = length (delta_q w).

(** The candidates of a turn, behind those of the turns before. *)
Definition pushed (l : list Z) (w w' : lookahead) : Prop :=
  pf_q_tail w' = (pf_q_tail w + length l)%nat /\
  (forall i x, confidence_q w' !! i = Some x -> (pf_q_tail w <= i < pf_q_tail w')%nat -> x ∈ l).

Lemma store_ok i v a : (i < length a)%nat -> store i v a = Ret (<[i := v]> a).
Proof. intros Hi. unfold store. by rewrite (proj2 (Nat.ltb_lt _ _) Hi). Qed.

Lemma read_ways_ok acc cs l : forall way lw mx w,
  length (delta_q w) = length (confidence_q w) ->
  (pf_q_tail w + length (confident acc cs l w) <= length (confidence_q w))%nat ->
  exists lw' w', read_ways acc cs way l lw mx w = Ret (lw', foldl Z.max mx (confident acc cs l w), w') /\
  same_path w w' /\ pushed (confident acc cs l w) w w' /\ lookahead_conf w' = lookahead_conf w /\ depth w' = depth w /\
  (lw' = lw \/ (lw' < way + length l)%nat) /\
  (forall i, (i < pf_q_tail w)%nat -> confidence_q w' !! i = confidence_q w !! i).
Proof.
  induction l as [|e l IH]; intros way lw mx w Hq Hroom.
  { do 2 eexists. split; [done|]. split; [done|]. split; [split; [cbn; lia|intros; lia]|]. by eauto. }
  cbn [read_ways]. unfold confident in Hroom |- *. cbn [fmap list_fmap List.filter]. cbn [fmap list_fmap List.filter] in Hroom.
  set (conf := pf_conf acc (c_delta e) cs w) in *. fold (confident acc cs l w) in *. destruct (PF_THRESHOLD <=? conf) eqn:Ec.
  - cbn [length] in Hroom. rewrite !store_ok by lia. cbn [cbind foldl].
    set (w1 := w <| confidence_q := _ |> <| delta_q := _ |> <| pf_q_tail ::= S |>).
    assert (length (delta_q w1) = length (confidence_q w1)) as Hq1 by (cbn; by rewrite !length_insert).
    assert (pf_q_tail w1 + length (confident acc cs l w1) <= length (confidence_q w1))%nat as Hr1.
    { change (confident acc cs l w1) with (confident acc cs l w). cbn. rewrite length_insert. lia. }
    assert (forall lw1 mx1, (lw1 = lw \/ (lw1 < way + length (e :: l))%nat) -> mx1 = Z.max mx conf ->
      exists lw' w', read_ways acc cs (S way) l lw1 mx1 w1 = Ret (lw', foldl Z.max (Z.max mx conf) (confident acc cs l w), w') /\
      same_path w w' /\ pushed (conf :: confident acc cs l w) w w' /\ lookahead_conf w' = lookahead_conf w /\ depth w' = depth w /\
      (lw' = lw \/ (lw' < way + length (e :: l))%nat) /\ (forall i, (i < pf_q_tail w)%nat -> confidence_q w' !! i = confidence_q w !! i)) as Hgo.
    { intros lw1 mx1 Hlw ->. destruct (IH (S way) lw1 (Z.max mx conf) w1 Hq1 Hr1) as (lw' & w' & E & (? & ? & ? & Hc & Hd) & (Ht & Hin) & ? & ? & Hl & Hold).
      change (confident acc cs l w1) with (confident acc cs l w) in *. cbn in Hc, Hd. rewrite !length_insert in *.
      change (pf_q_tail w1) with (S (pf_q_tail w)) in *.
      exists lw', w'. split; [exact E|]. split; [by repeat split|]. split; [split; [rewrite Ht; cbn [length]; lia|]|].
      { intros i x Hx Hi. destruct (decide (i = pf_q_tail w)) as [->|Hne]; [|right; apply (Hin i x Hx); lia].
        rewrite Hold in Hx by lia. change (confidence_q w1) with (<[pf_q_tail w := conf]> (confidence_q w)) in Hx.
        rewrite list_lookup_insert_eq in Hx by lia. injection Hx as <-. left. }
      split; [done|]. split; [done|]. split; [cbn [length] in *; destruct Hl as [->|Hl]; [done|right; lia]|].
      intros i Hi. rewrite Hold by lia. change (confidence_q w1) with (<[pf_q_tail w := conf]> (confidence_q w)).
      by rewrite list_lookup_insert_ne by lia. }
    destruct (Z.ltb_spec mx conf); apply Hgo; [cbn; right; lia|lia|by left|lia].
  - destruct (IH (S way) lw mx w Hq Hroom) as (lw' & w' & E & ? & ? & ? & ? & Hl & ?). exists lw', w'. split; [exact E|].
    do 4 (split; [done|]). split; [cbn; destruct Hl as [->|]; [by left|right; lia]|done].
Qed.

(** Between turns: everything was handled, and the rest of the path fits the arrays. *)
Record look_ok (w : lookahead) : Prop := mkLookOk {
  look_handled : pf_q_head w = pf_q_tail w;
  look_size : length (delta_q w) = length (confidence_q w) /\ (path 100 < length (confidence_q w))%nat;
  look_path : look_conf w;
  look_depth : 0 <= depth w <= Z.of_nat (pf_q_tail w);
  look_room : (pf_q_tail w + path (lookahead_conf w) <= path 100)%nat;
}.

Lemma pt_lookup t sig : PT_ok t -> exists p, t !! Z.to_nat (get_hash sig mod PT_SET) = Some p /\ pt_ok p.
Proof.
  intros [Hl Hf]. pose proof (hash_set (get_hash sig)) as Hs. rewrite <- Hl in Hs. apply lookup_lt_is_Some_2 in Hs as [p Ep].
  exists p. split; [done|]. exact (Forall_lookup_1 _ _ _ _ Hf Ep).
Qed.

(** The candidates of a turn are confident; if there is one, the path goes on with less. *)
Lemma read_pattern_ok acc t w :
  0 <= acc <= 100 -> PT_ok t -> look_ok w ->
  exists lw w' l, read_pattern acc t w = Ret (lw, w') /\ same_path w w' /\ pushed l w w' /\ Forall (fun x => PF_THRESHOLD <= x < 100) l /\
  (l <> [] -> look_ok (w' <| pf_q_head := pf_q_tail w' |>) /\ (path (lookahead_conf w') < path (lookahead_conf w))%nat).
Proof.
  intros Ha Ht [Hh [Hd Hsz] Hp Hdep Hroom]. unfold read_pattern. destruct (pt_lookup t (curr_sig w) Ht) as (p & -> & Hok).
  rewrite path_100 in *. unfold ztrue. destruct (Z.eqb_spec (c_sig p) 0) as [E|E]; cbn [negb].
  - rewrite store_ok by lia. cbn [cbind]. do 2 eexists. exists []. split; [done|]. split; [do 3 (split; [done|]); split; [apply length_insert|done]|].
    split; [split; [cbn; lia|cbn; intros; lia]|]. split; [by apply list.Forall_nil|done].
  - destruct (confident_path acc p w Ha Hok E Hp) as (Hf & Hlen & Hmax). set (l := confident acc (c_sig p) (ways p) w) in *.
    destruct (read_ways_ok acc (c_sig p) (ways p) 0 PT_WAY 0 w Hd) as (lw & w' & -> & Hs & Hpu & Hla & Hde & _); [fold l; lia|].
    fold l in Hpu |- *. cbn [cbind]. set (m := foldl Z.max 0 l) in *.
    destruct (decide (l = [])) as [El|El].
    + do 3 eexists. split; [reflexivity|]. assert (m = 0) as Em by (unfold m; by rewrite El). rewrite Em. cbn.
      split; [exact Hs|]. split; [exact Hpu|]. split; [exact Hf|done].
    + destruct (Hmax El) as [Hm1 Hm2]. rewrite (proj2 (Z.leb_le _ _) Hm1).
      do 3 eexists. split; [reflexivity|]. split; [exact Hs|]. split; [exact Hpu|]. split; [exact Hf|]. intros _.
      assert (0 < length l)%nat as Hpos by (destruct l; [done|cbn; lia]). destruct Hs as (? & ? & ? & Hc & Hdq). destruct Hpu as [Htl _].
      change PF_THRESHOLD with 25 in *.
      assert (u32 (depth w' + 1) = depth w + 1) as Eu by (rewrite Hde; unfold u32; rewrite Z.mod_small; lia).
      split; [|cbn; lia]. constructor; cbn; [done|rewrite path_100; lia| | |rewrite path_100; lia].
      * split; [cbn; lia|]. intros E0. cbn in E0. lia.
      * lia.
Qed.

(** ** Prefetching *)
Section Run.
Context `{Config} {R L : Type} `{Replacement R} `{LowerLevel L} `{!LowerLevelOk L}.
Context (k : params) (warmup_complete : Z -> bool) (uninit : Z).
Context `{!ReplacementOk R (NUM_SET k) (NUM_WAY k)} (virtual : virtual_prefetch k = false).
Local Abbreviation cache := (CACHE R SPP L).
Implicit Types c : cache.

(** The lines of a page, by the mask of the code. *)
Definition in_page (addr a : Z) : Prop := Z.land a (not64 (PAGE_SIZE - 1)) = Z.land addr (not64 (PAGE_SIZE - 1)).

Context (addr : Z) (page_zero : Z.land addr (not64 (PAGE_SIZE - 1)) <> 0) (c0 : cache) (c0_ok : inv k c0).

(** The cache during an access. *)
Record running c : Prop := mkRunning {
  run_asks : asks k warmup_complete uninit (in_page addr) c0 c;
  run_spp : spp_ok (pref c);
  run_accuracy : 0 <= global_accuracy (GHR (pref c)) <= 100;
}.

Lemma in_page_valid a : in_page addr a -> a <> 0.
Proof using page_zero. intros Ha ->. unfold in_page in Ha. by rewrite Z.land_0_l in Ha. Qed.

Lemma running_inv c : running c -> inv k c /\ pf_frame c0 c.
Proof using All. intros Hc. eapply asks_ok; [done|exact in_page_valid|exact c0_ok|apply Hc]. Qed.

Lemma candidate_ok ip d conf w c :
  running c -> conf < 100 -> exists c', candidate k warmup_complete uninit ip addr d conf w c = Ret c' /\ running c'.
Proof using All.
  intros Hc Hconf. pose proof Hc as [Ha Hs Hg]. unfold candidate. set (a := u64 _). destruct (Z.eqb_spec (Z.land addr (not64 (PAGE_SIZE - 1))) (Z.land a (not64 (PAGE_SIZE - 1)))) as [Ep|Ep].
  - set (req := if FILL_THRESHOLD <=? conf then SPP_L2C_PREFETCH else SPP_LLC_PREFETCH).
    destruct (check_ok a req (pref c) Hs) as (b & s' & -> & Hs' & _ & Eg). cbn [cbind fst snd].
    set (c1 := c <| pref := s' |>).
    assert (running c1) as Hc1 by (constructor; [by apply asks_state|exact Hs'|cbn; by rewrite Eg]).
    destruct b; [|by exists c1]. unfold prefetch_line_from.
    destruct (prefetch_line_ok k warmup_complete uninit None a (FILL_THRESHOLD <=? conf) 0 c1 virtual) as (r & c2 & E & _ & _ & Hp);
      [by apply running_inv|apply in_page_valid; done|]. rewrite E. cbn [cbind snd].
    assert (running c2) as Hc2.
    { constructor; rewrite ?Hp; [eapply asks_line; [apply Hc1|by symmetry in Ep|exact E]|apply Hc1|apply Hc1]. }
    destruct (FILL_THRESHOLD <=? conf); [|by exists c2]. eexists. split; [done|]. destruct Hc2 as [Ha2 [? ? ? ?] Hg2].
    constructor; [by apply asks_state|constructor; [done|done|done|by apply count_issued_ok]|].
    cbn. unfold count_issued. by destruct (_ <? _).
  - destruct (update_entry_ok (curr_sig w) conf (Z.land (Z.shiftr a LOG2_BLOCK_SIZE) 63) d (GHR (pref c))) as (g & -> & Hg' & Eg);
      [apply Hs|done|]. cbn [cbind]. eexists. split; [done|]. destruct Hs as [? ? ? ?].
    constructor; [by apply asks_state|by constructor|cbn; by rewrite Eg].
Qed.

Lemma candidates_ok ip n : forall i b w c,
  running c -> length (delta_q w) = length (confidence_q w) -> (i + n <= length (confidence_q w))%nat ->
  (forall j x, confidence_q w !! j = Some x -> (i <= j < i + n)%nat -> PF_THRESHOLD <= x < 100) ->
  exists c', candidates k warmup_complete uninit ip addr i n b w c = Ret (b || (0 <? n)%nat, w <| pf_q_head := (pf_q_head w + n)%nat |>, c') /\ running c'.
Proof using All.
  induction n as [|n IH]; intros i b w c Hc Hq Hn Hx.
  { exists c. split; [|done]. cbn. rewrite orb_false_r. destruct w. cbn. by rewrite Nat.add_0_r. }
  cbn [candidates]. destruct (lookup_lt_is_Some_2 (confidence_q w) i) as [conf Ec]; [lia|]. destruct (lookup_lt_is_Some_2 (delta_q w) i) as [d Ed]; [lia|].
  rewrite Ec, Ed. destruct (Hx i conf Ec) as [Hge Hlt]; [lia|]. rewrite (proj2 (Z.leb_le _ _) Hge).
  destruct (candidate_ok ip d conf w c Hc Hlt) as (c1 & -> & Hc1). cbn [cbind].
  destruct (IH (S i) true (w <| pf_q_head ::= S |>) c1 Hc1) as (c' & E & Hc'); [exact Hq|cbn; lia|cbn; intros j x Hj Hr; apply (Hx j x Hj); lia|].
  exists c'. split; [|done]. rewrite E. cbn. rewrite orb_true_r. do 3 f_equal. cbn. by rewrite Nat.add_succ_r.
Qed.

Lemma look_further_ok t lw w : PT_ok t -> exists w', look_further t lw w = Ret w' /\
  lookahead_conf w' = lookahead_conf w /\ (look_ok w -> look_ok w').
Proof.
  intros Ht. unfold look_further. destruct (pt_lookup t (curr_sig w) Ht) as (p & -> & Hp).
  destruct (Nat.ltb_spec lw PT_WAY) as [Hl|]; [|by eauto]. destruct Hp as [Hw _]. rewrite <- Hw in Hl.
  apply lookup_lt_is_Some_2 in Hl as [e ->]. eexists. split; [done|]. split; [done|]. intros [? ? ? ? ?]. by constructor.
Qed.

(** A turn ends, and if another follows less of the path is left. *)
Lemma lookahead_turn_ok ip w c :
  running c -> look_ok w ->
  exists b w' c', lookahead_turn k warmup_complete uninit ip addr w c = Ret (b, w', c') /\ running c' /\
  (b = true -> look_ok w' /\ (path (lookahead_conf w') < path (lookahead_conf w))%nat).
Proof using All.
  intros Hc Hw. unfold lookahead_turn.
  destruct (read_pattern_ok _ (PT (pref c)) w (run_accuracy c Hc) (ok_PT _ (run_spp c Hc)) Hw) as (lw & w1 & l & -> & Hs & Hp & Hf & Hnext).
  cbn [cbind]. pose proof Hw as [Hh [Hd Hsz] _ _ _]. destruct Hs as (Eh & _ & _ & Ec & Ed). destruct Hp as [Et Hin].
  replace (pf_q_tail w1 - pf_q_head w1)%nat with (length l) by lia.
  assert (pf_q_tail w1 <= length (confidence_q w1))%nat as Hroom.
  { destruct (decide (l = [])) as [->|El]; [cbn in Et; pose proof (look_room w Hw); lia|].
    destruct (Hnext El) as [Hok _]. pose proof (look_room _ Hok). pose proof (look_size _ Hok). cbn in *. lia. }
  destruct (candidates_ok ip (length l) (pf_q_head w1) false w1 c Hc) as (c1 & -> & Hc1); [congruence|lia| |].
  { intros j x Hx Hj. rewrite list.Forall_forall in Hf. apply Hf. apply (Hin j x Hx). lia. }
  cbn [cbind orb]. set (w2 := w1 <| pf_q_head := _ |>).
  destruct (look_further_ok (PT (pref c1)) lw w2 (ok_PT _ (run_spp c1 Hc1))) as (w3 & -> & E3 & Hok3). cbn [cbind].
  do 3 eexists. split; [reflexivity|]. split; [done|]. intros Hb. apply Nat.ltb_lt in Hb.
  destruct Hnext as [Hok Hlt]; [intros El; rewrite El in Hb; cbn in Hb; lia|]. rewrite E3. split; [|exact Hlt]. apply Hok3.
  unfold w2. replace (pf_q_head w1 + length l)%nat with (pf_q_tail w1) by lia. exact Hok.
Qed.

Lemma lookahead_loop_ok ip turns : forall w c,
  running c -> look_ok w -> (path (lookahead_conf w) < turns)%nat ->
  exists c', lookahead_loop k warmup_complete uninit turns ip addr w c = Ret c' /\ running c'.
Proof using All.
  induction turns as [|turns IH]; intros w c Hc Hw Ht; [lia|]. cbn [lookahead_loop].
  destruct (lookahead_turn_ok ip w c Hc Hw) as (b & w' & c' & -> & Hc' & Hnext). cbn [cbind].
  destruct b; [|by exists c']. destruct (Hnext eq_refl) as [Hw' Hlt]. apply IH; [done|done|lia].
Qed.
End Run.

(** A fill forgets the line that was evicted. *)
Lemma spp_fill_ok `{Config} {R L : Type} `{Replacement R} `{LowerLevel L} `{!LowerLevelOk L}
    (k : params) `{!ReplacementOk R (NUM_SET k) (NUM_WAY k)} exc addr set way pf evicted meta (c : CACHE R SPP L) :
  inv_except k exc c -> spp_ok (pref c) ->
  exists c', spp_fill addr set way pf evicted meta c = Ret (meta, c') /\ inv_except k exc c' /\ pf_frame c c' /\ spp_ok (pref c').
Proof.
  intros Hi Hs. unfold spp_fill. destruct (check_ok evicted L2C_EVICT (pref c) Hs) as (b & s & -> & Hs' & _). cbn [cbind snd].
  eexists. split; [done|]. split; [destruct Hi; constructor; assumption|]. split; [by apply pf_frame_same|exact Hs'].
Qed.

(** C23: an access to a cache with the signature path prefetcher.  When no more
    prefetches were useful than issued (which the access need not keep so), there are at least 17 miss
    registers, prefetches are by physical address and the page of the access is not page 0, no
    assertion fails, the lookahead ends and stays within its arrays, every line that
    is asked for lies in the page of the access, and the tables and the cache keep their
    invariants, with the demands and the misses of the cache as they were. *)
Theorem spp_stays_in_page `{Config} {R L : Type} `{Replacement R} `{LowerLevel L} `{!LowerLevelOk L}
    (k : params) (warmup_complete : Z -> bool) (uninit : Z) `{!ReplacementOk R (NUM_SET k) (NUM_WAY k)}
    addr ip hit ty meta (c : CACHE R SPP L) :
  virtual_prefetch k = false -> 17 <= MSHR_SIZE k -> inv k c -> spp_ok (pref c) ->
  pf_useful (GHR (pref c)) <= g_issued (GHR (pref c)) -> Z.land addr (not64 (PAGE_SIZE - 1)) <> 0 ->
  exists c', spp_operate k warmup_complete uninit addr ip hit ty meta c = Ret (meta, c') /\
  asks k warmup_complete uninit (in_page addr) c c' /\ inv k c' /\ pf_frame c c' /\ spp_ok (pref c').
Proof.
  intros Hv Hm Hi Hs Hu Hp. unfold spp_operate. rewrite store_ok by (rewrite length_replicate; lia). cbn [cbind].
  set (s := pref c <| GHR ::= set_accuracy |>).
  assert (0 <= global_accuracy (GHR s) <= 100) as Hacc.
  { pose proof (ok_GHR _ Hs) as (_ & _ & Hiss & Hpos). change GLOBAL_COUNTER_MAX with 1023 in Hiss. unfold s. cbn. unfold set_accuracy, ztrue. cbn.
    destruct (Z.eqb_spec (g_issued (GHR (pref c))) 0); cbn; [done|]. unfold u64. rewrite Z.mod_small by lia.
    split; [apply Z.div_pos; lia|apply Z.div_le_upper_bound; lia]. }
  assert (spp_ok s) as Hs1 by (destruct Hs as [? ? ? (? & ? & ? & ?)]; by constructor).
  destruct (read_and_update_sig_ok (Z.shiftr addr LOG2_PAGE_SIZE) (u32 (Z.land (Z.shiftr addr LOG2_BLOCK_SIZE) (PAGE_SIZE / BLOCK_SIZE - 1))) s)
    as (last & curr & d & s2 & -> & Hst & Ept & Efi & Egh & Hd); [apply Hs1|]. cbn [cbind].
  assert (spp_ok s2) as Hs2 by (destruct Hs1 as [? ? ? ?]; constructor; [done|by rewrite Ept|by rewrite Efi|by rewrite Egh]).
  destruct (check_ok addr L2C_DEMAND s2 Hs2) as (b & s3 & -> & Hs3 & Ept3 & Eacc). cbn [cbind snd].
  assert (exists t, (if ztrue last then update_pattern last d (PT s3) else Ret (PT s3)) = Ret t /\ PT_ok t) as (t & -> & Ht).
  { unfold ztrue. destruct (Z.eqb_spec last 0); cbn [negb]; [exists (PT s3); split; [done|apply Hs3]|].
    apply update_pattern_ok; [apply Hs3|by apply Hd]. }
  cbn [cbind]. set (c1 := c <| pref := s3 <| PT := t |> |>).
  assert (running k warmup_complete uninit addr c c1) as Hrun.
  { constructor; [apply asks_state; constructor|by destruct Hs3; constructor|cbn; by rewrite Eacc, Egh]. }
  set (w := mkLook _ _ 0 0 100 0 curr addr).
  assert (look_ok w) as Hw.
  { constructor; [done| |split; [cbn; lia|done]|done|cbn; lia]. cbn. rewrite length_insert, !length_replicate, path_100. lia. }
  destruct (lookahead_loop_ok k warmup_complete uninit Hv addr Hp c Hi ip (S (Z.to_nat (MSHR_SIZE k))) w c1 Hrun Hw) as (c' & -> & Hrun').
  { change (lookahead_conf w) with 100. rewrite path_100. lia. }
  cbn [cbind]. exists c'. split; [done|]. split; [apply Hrun'|].
  destruct (running_inv k warmup_complete uninit Hv addr Hp c Hi c' Hrun') as [? ?]. split; [done|]. split; [done|apply Hrun'].
Qed.
End SppRun.
