(* ===== verification/SimAmpm.v ===== *)
(** * ChampSim: the access map prefetcher

    prefetcher/va_ampm_lite: maps of the lines accessed and prefetched in 128 pages.
    The global and static variables of the file are the state of the prefetcher of
    the cache. *)

From stdpp Require Import base list.
From S2P Require Import Prelude SimUtil SimQueue SimVmem SimRepl SimCache SimCacheSpec SimPrefetch.
Import Util Mem Circ Delay Vmem Cache CacheSpec Prefetching.
Local Open Scope Z_scope.
Local Open Scope c_scope.

Module Ampm.

Definition L2C_VA_AMPM_LITE_REGION_COUNT : nat := 128.
Definition L2C_VA_AMPM_LITE_MAX_DISTANCE : nat := 256.
Definition L2C_VA_AMPM_LITE_PREFETCH_DEGREE : Z := 2.
Definition FILL_L2 : Z := 2.
Definition FILL_LLC : Z := 4.

Record region_t := mkRegion {
  vpn : Z;
  access_map : Z;
  prefetch_map : Z;
  r_lru : Z;
}.
#[global] Instance eta_region : Settable region_t := mkEta _ (fun x => mkRegion (vpn x) (access_map x) (prefetch_map x) (r_lru x)).

Record AMPM := mkAMPM {
  regions : list region_t;
  region_lru : Z;
  way_predict_index : Z;
  way_predict_vpn : Z;
}.
#[global] Instance eta_AMPM : Settable AMPM :=
  mkEta _ (fun x => mkAMPM (regions x) (region_lru x) (way_predict_index x) (way_predict_vpn x)).
Implicit Types s : AMPM.

(** [regions[i]] *)
Definition region (i : Z) s : cres region_t :=
  match regions s !! Z.to_nat i with
  | Some r => if 0 <=? i then Ret r else Abort "array index"
  | None => Abort "array index"
  end.
Definition put_region (i : Z) (r : region_t) s : AMPM := s <| regions ::= <[Z.to_nat i := r]> |>.

Definition allocate_region (region_index allocate_vpn : Z) s : AMPM :=
  put_region region_index (mkRegion allocate_vpn 0 0 (region_lru s)) s <| region_lru ::= fun n => u64 (n + 1) |>.

Definition find_region (search_vpn : Z) s : Z * AMPM :=
  if way_predict_vpn s =? search_vpn then (way_predict_index s, s)
  else
    let i := find_if (fun r => vpn r =? search_vpn) (regions s) in
    let region_index := if (i <? L2C_VA_AMPM_LITE_REGION_COUNT)%nat then Z.of_nat i else -1 in
    (region_index, s <| way_predict_index := region_index |> <| way_predict_vpn := search_vpn |>).

(** The first of the least recently allocated regions. *)
Definition get_lru_region s : Z := Z.of_nat (min_element (fun x y => r_lru x <? r_lru y) (regions s)).

Definition check_access (region_index region_offset : Z) s : cres bool :=
  let* r := region region_index s in Ret (ztrue (Z.land (Z.shiftr (access_map r) region_offset) 1)).
Definition set_access (region_index region_offset : Z) s : cres AMPM :=
  let* r := region region_index s in
  Ret (put_region region_index (r <| access_map ::= fun m => Z.lor m (Z.shiftl 1 region_offset) |>) s).
Definition check_prefetch (region_index region_offset : Z) s : cres bool :=
  let* r := region region_index s in Ret (ztrue (Z.land (Z.shiftr (prefetch_map r) region_offset) 1)).
Definition set_prefetch (region_index region_offset : Z) s : cres AMPM :=
  let* r := region region_index s in
  Ret (put_region region_index (r <| prefetch_map ::= fun m => Z.lor m (Z.shiftl 1 region_offset) |>) s).

Section Lines.
Context `{Config}.

Definition page_offset (v_addr : Z) : Z := Z.land (Z.shiftr v_addr LOG2_BLOCK_SIZE) 63.

Definition check_cl_access (v_addr : Z) s : cres (bool * AMPM) :=
  let '(region_index, s) := find_region (Z.shiftr v_addr LOG2_PAGE_SIZE) s in
  if region_index =? -1 then Ret (false, s)
  else let* b := check_access region_index (page_offset v_addr) s in Ret (b, s).

(** The region of a line that is to be marked, allocated if there is none. *)
Definition region_to_mark (v_addr : Z) s : Z * AMPM :=
  let '(region_index, s) := find_region (Z.shiftr v_addr LOG2_PAGE_SIZE) s in
  if region_index =? -1 then let lru_index := get_lru_region s in (lru_index, allocate_region lru_index (Z.shiftr v_addr LOG2_PAGE_SIZE) s)
  else (region_index, s).

Definition set_cl_access (v_addr : Z) s : cres AMPM :=
  let '(region_index, s) := region_to_mark v_addr s in set_access region_index (page_offset v_addr) s.

Definition check_cl_prefetch (v_addr : Z) s : cres (bool * AMPM) :=
  let '(region_index, s) := find_region (Z.shiftr v_addr LOG2_PAGE_SIZE) s in
  if region_index =? -1 then Ret (false, s)
  else let* b := check_prefetch region_index (page_offset v_addr) s in Ret (b, s).

Definition set_cl_prefetch (v_addr : Z) s : cres AMPM :=
  let '(region_index, s) := region_to_mark v_addr s in set_prefetch region_index (page_offset v_addr) s.
End Lines.

(** The globals are zero before the initialisation. *)
Definition prefetcher_initialize s : AMPM :=
  foldl (fun s i => allocate_region (Z.of_nat i) 0 s) (s <| region_lru := 0 |>) (seq 0 L2C_VA_AMPM_LITE_REGION_COUNT).
Definition new_AMPM : AMPM := prefetcher_initialize (mkAMPM (replicate L2C_VA_AMPM_LITE_REGION_COUNT (mkRegion 0 0 0 0)) 0 0 0).

Section Operate.
Context `{Config} {R L : Type} `{Replacement R} `{LowerLevel L}.
Context (k : params) (warmup_complete : Z -> bool) (uninit : Z).
Local Abbreviation cache := (CACHE R AMPM L).
Implicit Types c : cache.

Definition l2c_prefetch (ip base_addr pf_addr pf_fill_level pf_metadata : Z) c : cres (Z * cache) :=
  if Z.shiftr base_addr LOG2_BLOCK_SIZE =? Z.shiftr pf_addr LOG2_BLOCK_SIZE then Ret (-1, c)
  else
    let* r := prefetch_line_from k warmup_complete uninit ip base_addr pf_addr (ztrue pf_fill_level) pf_metadata c in
    Ret (if ztrue r.1 then 1 else 0, r.2).

(** A function on the state of the prefetcher, as one on the cache. *)
Definition on_pref {A} (f : AMPM -> cres (A * AMPM)) c : cres (A * cache) :=
  let* r := f (pref c) in Ret (r.1, c <| pref := r.2 |>).

(** [&&]: the right side is evaluated if the left is [true]. *)
Definition and_then (a b : cache -> cres (bool * cache)) c : cres (bool * cache) :=
  let* r := a c in if r.1 then b r.2 else Ret (false, r.2).
Definition is_false (a : cache -> cres (bool * cache)) c : cres (bool * cache) :=
  let* r := a c in Ret (negb r.1, r.2).

(** The loops in the directions [dir = 1] and [dir = -1]: lines [i] and [2 i] behind were
    accessed, and the one [i] ahead was neither accessed nor prefetched. *)
Definition worth_prefetching (dir addr i : Z) : cache -> cres (bool * cache) :=
  let behind n := u64 (addr - dir * (n * BLOCK_SIZE)) in
  let ahead := u64 (addr + dir * (i * BLOCK_SIZE)) in
  and_then (on_pref (check_cl_access (behind i))) (and_then (on_pref (check_cl_access (behind (2 * i))))
    (and_then (is_false (on_pref (check_cl_access ahead))) (is_false (on_pref (check_cl_prefetch ahead))))).

Fixpoint direction_loop (dir ip addr : Z) (l : list nat) (prefetches_issued : Z) c : cres cache :=
  match l with
  | [] => Ret c
  | i :: l =>
    let ahead := u64 (addr + dir * (Z.of_nat i * BLOCK_SIZE)) in
    let* r := worth_prefetching dir addr (Z.of_nat i) c in
    let '(worth, c) := r in
    let* r :=
      if worth then
        let pf_fill_level := if Z.shiftr (get_size k 0 0 c) 1 <? get_occupancy 0 0 c then FILL_LLC else FILL_L2 in
        let* r := l2c_prefetch ip addr ahead pf_fill_level 0 c in
        let '(result, c) := r in
        if 0 <? result then let* s := set_cl_prefetch ahead (pref c) in Ret (prefetches_issued + 1, c <| pref := s |>)
        else Ret (prefetches_issued, c)
      else Ret (prefetches_issued, c) in
    let '(prefetches_issued, c) := r in
    if L2C_VA_AMPM_LITE_PREFETCH_DEGREE <=? prefetches_issued then Ret c
    else direction_loop dir ip addr l prefetches_issued c
  end.

Definition ampm_operate (addr ip : Z) (cache_hit : bool) (type metadata_in : Z) c : cres (Z * cache) :=
  let current_vpn := Z.shiftr addr LOG2_PAGE_SIZE in
  let '(region_index, s) := find_region current_vpn (pref c) in
  if region_index =? -1 then Ret (metadata_in, c <| pref := allocate_region (get_lru_region s) current_vpn s |>)
  else
    let* s := set_cl_access addr s in
    let distances := seq 1 L2C_VA_AMPM_LITE_MAX_DISTANCE in
    let* c := direction_loop 1 ip addr distances 0 (c <| pref := s |>) in
    let* c := direction_loop (-1) ip addr distances 0 c in
    Ret (metadata_in, c).

(** ** What is kept *)

(** The tables keep their sizes, and the predicted index is an index or none. *)
Definition index_ok (i : Z) : Prop := i = -1 \/ 0 <= i < Z.of_nat L2C_VA_AMPM_LITE_REGION_COUNT.
Definition ampm_ok s : Prop := length (regions s) = L2C_VA_AMPM_LITE_REGION_COUNT /\ index_ok (way_predict_index s).

Lemma new_AMPM_ok : ampm_ok new_AMPM.
Proof. split; [vm_compute; reflexivity|right; vm_compute; split; [discriminate|reflexivity]]. Qed.

Lemma allocate_region_ok i v s : ampm_ok s -> ampm_ok (allocate_region i v s).
Proof. intros [Hl Hi]. split; [|exact Hi]. cbn. by rewrite length_insert. Qed.

Lemma put_region_ok i r s : ampm_ok s -> ampm_ok (put_region i r s).
Proof. intros [Hl Hi]. split; [|exact Hi]. cbn. by rewrite length_insert. Qed.

Lemma find_region_ok v s : ampm_ok s -> index_ok (find_region v s).1 /\ ampm_ok (find_region v s).2.
Proof.
  intros [Hl Hi]. unfold find_region. destruct (_ =? v); [done|]. cbn [fst snd].
  set (n := find_if _ _). assert (index_ok (if (n <? L2C_VA_AMPM_LITE_REGION_COUNT)%nat then Z.of_nat n else -1)) as Hn.
  { destruct (Nat.ltb_spec n L2C_VA_AMPM_LITE_REGION_COUNT); [right; lia|by left]. }
  split; [done|]. by split.
Qed.

Lemma region_ok i s : ampm_ok s -> 0 <= i < Z.of_nat L2C_VA_AMPM_LITE_REGION_COUNT -> exists r, region i s = Ret r.
Proof.
  intros [Hl _] Hi. unfold region. destruct (lookup_lt_is_Some_2 (regions s) (Z.to_nat i)) as [r ->]; [lia|].
  exists r. by rewrite (proj2 (Z.leb_le 0 i)) by lia.
Qed.

Lemma check_line_ok v s (f : Z -> AMPM -> cres bool) :
  ampm_ok s -> (forall i s, ampm_ok s -> 0 <= i < Z.of_nat L2C_VA_AMPM_LITE_REGION_COUNT -> exists b, f i s = Ret b) ->
  exists b s', (let '(i, s) := find_region v s in if i =? -1 then Ret (false, s) else let* b := f i s in Ret (b, s)) = Ret (b, s') /\ ampm_ok s'.
Proof.
  intros Hs Hf. destruct (find_region_ok v s Hs) as [Hi Hs']. destruct (find_region v s) as [i s']. cbn [fst snd] in *.
  destruct (Z.eqb_spec i (-1)); [by eauto|]. destruct Hi as [|Hi]; [done|]. destruct (Hf i s' Hs' Hi) as [b ->]. cbn. by eauto.
Qed.

Lemma region_to_mark_ok v s : ampm_ok s -> 0 <= (region_to_mark v s).1 < Z.of_nat L2C_VA_AMPM_LITE_REGION_COUNT /\ ampm_ok (region_to_mark v s).2.
Proof.
  intros Hs. unfold region_to_mark. destruct (find_region_ok (Z.shiftr v LOG2_PAGE_SIZE) s Hs) as [Hi Hs'].
  destruct (find_region (Z.shiftr v LOG2_PAGE_SIZE) s) as [i s']. cbn [fst snd] in *. destruct (Z.eqb_spec i (-1)).
  - cbn [fst snd]. split; [|by apply allocate_region_ok]. unfold get_lru_region. destruct Hs' as [Hl _].
    pose proof (max_element_lt (fun best x : region_t => r_lru x <? r_lru best) (regions s')) as Hlt.
    split; [lia|]. apply inj_lt. rewrite <- Hl. apply Hlt. intros E. by rewrite E in Hl.
  - by destruct Hi.
Qed.

Lemma check_cl_access_ok v s : ampm_ok s -> exists b s', check_cl_access v s = Ret (b, s') /\ ampm_ok s'.
Proof.
  intros Hs. apply (check_line_ok _ s (fun i s => check_access i (page_offset v) s) Hs). intros i s' Hs' Hi. unfold check_access.
  destruct (region_ok i s' Hs' Hi) as [r ->]. by eexists.
Qed.

Lemma check_cl_prefetch_ok v s : ampm_ok s -> exists b s', check_cl_prefetch v s = Ret (b, s') /\ ampm_ok s'.
Proof.
  intros Hs. apply (check_line_ok _ s (fun i s => check_prefetch i (page_offset v) s) Hs). intros i s' Hs' Hi. unfold check_prefetch.
  destruct (region_ok i s' Hs' Hi) as [r ->]. by eexists.
Qed.

Lemma set_cl_access_ok v s : ampm_ok s -> exists s', set_cl_access v s = Ret s' /\ ampm_ok s'.
Proof.
  intros Hs. unfold set_cl_access. destruct (region_to_mark_ok v s Hs) as [Hi Hs']. destruct (region_to_mark v s) as [i s']. cbn [fst snd] in *.
  unfold set_access. destruct (region_ok i s' Hs' Hi) as [r ->]. eexists. split; [done|]. by apply put_region_ok.
Qed.

Lemma set_cl_prefetch_ok v s : ampm_ok s -> exists s', set_cl_prefetch v s = Ret s' /\ ampm_ok s'.
Proof.
  intros Hs. unfold set_cl_prefetch. destruct (region_to_mark_ok v s Hs) as [Hi Hs']. destruct (region_to_mark v s) as [i s']. cbn [fst snd] in *.
  unfold set_prefetch. destruct (region_ok i s' Hs' Hi) as [r ->]. eexists. split; [done|]. by apply put_region_ok.
Qed.

(** ** An access *)
Context `{!LowerLevelOk L} `{!ReplacementOk R (NUM_SET k) (NUM_WAY k)} (virtual : virtual_prefetch k = false).

(** Lines other than the one accessed, no further away than the greatest distance. *)
Definition reachable (addr a : Z) : Prop :=
  Z.shiftr a LOG2_BLOCK_SIZE <> Z.shiftr addr LOG2_BLOCK_SIZE /\
  Z.abs (a - addr) <= Z.of_nat L2C_VA_AMPM_LITE_MAX_DISTANCE * BLOCK_SIZE.

Section Access.
Context (addr : Z) (far : Z.of_nat L2C_VA_AMPM_LITE_MAX_DISTANCE * BLOCK_SIZE < addr) (BLOCK_SIZE_pos : 0 < BLOCK_SIZE).
Context (below : addr + Z.of_nat L2C_VA_AMPM_LITE_MAX_DISTANCE * BLOCK_SIZE < 2 ^ 64) (c0 : cache) (c0_ok : inv k c0).

Definition mapping c : Prop := asks k warmup_complete uninit (reachable addr) c0 c /\ ampm_ok (pref c).

(** Tests end, whatever they find. *)
Definition test_ok (f : cache -> cres (bool * cache)) : Prop :=
  forall c, mapping c -> exists b c', f c = Ret (b, c') /\ mapping c'.

Lemma on_pref_test f : (forall s, ampm_ok s -> exists b s', f s = Ret (b, s') /\ ampm_ok s') -> test_ok (on_pref f).
Proof.
  intros Hf c [Ha Hs]. unfold on_pref. destruct (Hf _ Hs) as (b & s' & -> & Hs'). cbn. do 2 eexists. split; [done|].
  split; [by apply asks_state|exact Hs'].
Qed.

Lemma and_then_test f g : test_ok f -> test_ok g -> test_ok (and_then f g).
Proof.
  intros Hf Hg c Hc. unfold and_then. destruct (Hf c Hc) as (b & c' & -> & Hc'). cbn [cbind fst snd].
  destruct b; [by apply Hg|by eauto].
Qed.

Lemma is_false_test f : test_ok f -> test_ok (is_false f).
Proof. intros Hf c Hc. unfold is_false. destruct (Hf c Hc) as (b & c' & -> & Hc'). cbn [cbind fst snd]. by eauto. Qed.

Lemma worth_prefetching_ok dir i : test_ok (worth_prefetching dir addr i).
Proof.
  unfold worth_prefetching.
  repeat (apply and_then_test || apply is_false_test || apply on_pref_test); intros s; first [apply check_cl_access_ok|apply check_cl_prefetch_ok].
Qed.

Lemma reachable_valid a : reachable addr a -> a <> 0.
Proof using far. intros [_ Ha] ->. lia. Qed.

Lemma mapping_inv c : mapping c -> inv k c /\ pf_frame c0 c.
Proof using far virtual c0_ok ReplacementOk0 LowerLevelOk0. intros [Ha _]. eapply asks_ok; [done|exact reachable_valid|exact c0_ok|exact Ha]. Qed.

Lemma l2c_prefetch_ok ip a lvl c :
  mapping c -> Z.abs (a - addr) <= Z.of_nat L2C_VA_AMPM_LITE_MAX_DISTANCE * BLOCK_SIZE ->
  exists r c', l2c_prefetch ip addr a lvl 0 c = Ret (r, c') /\ mapping c'.
Proof using All.
  intros Hc Ha. unfold l2c_prefetch. destruct (Z.eqb_spec (Z.shiftr addr LOG2_BLOCK_SIZE) (Z.shiftr a LOG2_BLOCK_SIZE)) as [|Hne]; [by eauto|].
  assert (reachable addr a) as Hr by (split; [congruence|done]). unfold prefetch_line_from.
  destruct (prefetch_line_ok k warmup_complete uninit None a (ztrue lvl) 0 c virtual) as (r & c' & E & _ & _ & Hp);
    [by apply mapping_inv|by apply reachable_valid|]. rewrite E. cbn [cbind fst snd].
  do 2 eexists. split; [done|]. destruct Hc as [Hc Hs]. split; [by eapply asks_line|by rewrite Hp].
Qed.

Lemma direction_loop_ok dir ip l : (dir = 1 \/ dir = -1) -> Forall (fun i => (i <= L2C_VA_AMPM_LITE_MAX_DISTANCE)%nat) l -> forall n c,
  mapping c -> exists c', direction_loop dir ip addr l n c = Ret c' /\ mapping c'.
Proof using All.
  intros Hdir. induction 1 as [|i l Hi _ IH]; intros n c Hc; [by exists c|]. cbn [direction_loop].
  destruct (worth_prefetching_ok dir (Z.of_nat i) c Hc) as (b & c1 & -> & Hc1). cbn [cbind].
  set (a := u64 _).
  assert (Z.abs (a - addr) <= Z.of_nat L2C_VA_AMPM_LITE_MAX_DISTANCE * BLOCK_SIZE) as Ha.
  { assert (0 <= Z.of_nat i * BLOCK_SIZE <= Z.of_nat L2C_VA_AMPM_LITE_MAX_DISTANCE * BLOCK_SIZE) as Hd by nia.
    unfold a, u64. rewrite Z.mod_small by (destruct Hdir as [-> | ->]; lia). destruct Hdir as [-> | ->]; lia. }
  match goal with |- context [cbind ?m _] => assert (exists n' c', m = Ret (n', c') /\ mapping c') as (n' & c2 & -> & Hc2) end.
  { destruct b; [|by eauto]. 
    match goal with |- context [l2c_prefetch ip addr a ?lvl 0 c1] => destruct (l2c_prefetch_ok ip a lvl c1 Hc1 Ha) as (r & c2 & -> & Hc2) end.
    cbn [cbind].
    destruct (0 <? r); [|by eauto]. destruct Hc2 as [Hc2 Hs2]. destruct (set_cl_prefetch_ok a (pref c2) Hs2) as (s & -> & Hs). cbn [cbind].
    do 2 eexists. split; [done|]. split; [by apply asks_state|exact Hs]. }
  cbn [cbind]. destruct (_ <=? n'); [by exists c2|by apply IH].
Qed.
End Access.

(** An access asks for lines near the one accessed only, and keeps tables and cache. *)
Lemma ampm_operate_ok addr ip hit ty meta c :
  Z.of_nat L2C_VA_AMPM_LITE_MAX_DISTANCE * BLOCK_SIZE < addr -> 0 < BLOCK_SIZE ->
  addr + Z.of_nat L2C_VA_AMPM_LITE_MAX_DISTANCE * BLOCK_SIZE < 2 ^ 64 -> inv k c -> ampm_ok (pref c) ->
  exists c', ampm_operate addr ip hit ty meta c = Ret (meta, c') /\ asks k warmup_complete uninit (reachable addr) c c' /\
  inv k c' /\ pf_frame c c' /\ ampm_ok (pref c').
Proof using All.
  intros Hfar Hpos Hbel Hi Hs. unfold ampm_operate. destruct (find_region_ok (Z.shiftr addr LOG2_PAGE_SIZE) (pref c) Hs) as [_ Hs1].
  destruct (find_region (Z.shiftr addr LOG2_PAGE_SIZE) (pref c)) as [i s1]. cbn [snd] in Hs1.
  assert (forall c', mapping addr c c' -> asks k warmup_complete uninit (reachable addr) c c' /\ inv k c' /\ pf_frame c c' /\ ampm_ok (pref c')) as Hend.
  { intros c' Hc'. pose proof Hc' as [? ?]. destruct (mapping_inv addr Hfar c Hi c' Hc') as [? ?]. done. }
  destruct (i =? -1).
  { eexists. split; [done|]. apply Hend. split; [apply asks_state; constructor|by apply allocate_region_ok]. }
  destruct (set_cl_access_ok addr s1 Hs1) as (s2 & -> & Hs2). cbn [cbind].
  assert (mapping addr c (c <| pref := s2 |>)) as Hm by (split; [apply asks_state; constructor|exact Hs2]).
  assert (Forall (fun i => (i <= L2C_VA_AMPM_LITE_MAX_DISTANCE)%nat) (seq 1 L2C_VA_AMPM_LITE_MAX_DISTANCE)) as Hf.
  { apply list.Forall_forall. intros j Hj%elem_of_seq. lia. }
  destruct (direction_loop_ok addr Hfar Hpos Hbel c Hi 1 ip _ (or_introl eq_refl) Hf 0 _ Hm) as (c1 & -> & Hc1). cbn [cbind].
  destruct (direction_loop_ok addr Hfar Hpos Hbel c Hi (-1) ip _ (or_intror eq_refl) Hf 0 _ Hc1) as (c2 & -> & Hc2). cbn [cbind].
  exists c2. split; [done|]. by apply Hend.
Qed.

(** ** A page on its own *)

(** Accesses, given by address and instruction. *)
Fixpoint accesses (l : list (Z * Z)) c : cres cache :=
  match l with
  | [] => Ret c
  | (addr, ip) :: l => let* r := ampm_operate addr ip false LOAD 0 c in accesses l r.2
  end.

(** The last search was for the page, and found nothing. *)
Definition missed (page : Z) s : Prop := way_predict_vpn s = page /\ way_predict_index s = -1.

Lemma missed_operate page addr ip hit ty meta c :
  missed page (pref c) -> Z.shiftr addr LOG2_PAGE_SIZE = page ->
  exists s, ampm_operate addr ip hit ty meta c = Ret (meta, c <| pref := s |>) /\ missed page s.
Proof.
  intros [Hv Hi] Hp. unfold ampm_operate, find_region. rewrite Hp, Hv, Z.eqb_refl, Hi. cbn. eexists. split; [done|]. by split.
Qed.

Lemma missed_accesses page l : forall c,
  missed page (pref c) -> Forall (fun a => Z.shiftr a.1 LOG2_PAGE_SIZE = page) l -> exists s, accesses l c = Ret (c <| pref := s |>).
Proof.
  induction l as [|[a ip] l IH]; intros c Hm Hl; [exists (pref c); by destruct c|]. apply list.Forall_cons in Hl as [Ha Hl]. cbn [accesses fst] in *.
  destruct (missed_operate page a ip false LOAD 0 c Hm Ha) as (s & -> & Hs). cbn [cbind snd].
  destruct (IH (c <| pref := s |>)) as (s' & ->); [exact Hs|exact Hl|]. by exists s'.
Qed.

(** C38: a page on its own is never prefetched.  From the initial tables, accesses to one page other
    than page 0, however many and in whatever order, ask for no line and leave the cache as it was: the
    first search finds no region and is remembered, and every later one repeats the answer although
    the region was allocated. *)
Theorem ampm_page_silent page l c :
  pref c = new_AMPM -> page <> 0 -> Forall (fun a => Z.shiftr a.1 LOG2_PAGE_SIZE = page) l ->
  exists s, accesses l c = Ret (c <| pref := s |>).
Proof.
  intros E Hp Hl. destruct l as [|[a ip] l]; [exists (pref c); by destruct c|]. apply list.Forall_cons in Hl as [Ha Hl]. cbn [accesses fst] in *.
  unfold ampm_operate. rewrite Ha, E. unfold find_region. change (way_predict_vpn new_AMPM) with 0.
  rewrite (proj2 (Z.eqb_neq 0 page)) by done.
  assert (find_if (fun r => vpn r =? page) (regions new_AMPM) = L2C_VA_AMPM_LITE_REGION_COUNT) as ->.
  { change L2C_VA_AMPM_LITE_REGION_COUNT with (length (regions new_AMPM)). apply find_if_end.
    assert (Forall (fun r => vpn r = 0) (regions new_AMPM)) as Hz by (vm_compute; repeat constructor).
    eapply list.Forall_impl; [exact Hz|]. intros r Hr. cbn. rewrite Hr. by apply Z.eqb_neq. }
  cbv zeta. rewrite Nat.ltb_irrefl, Z.eqb_refl. cbn [cbind snd].
  edestruct (missed_accesses page l) as (s & ->); [|exact Hl|by exists s]. by split.
Qed.
End Operate.
End Ampm.
