(* ===== verification/SimPrefetchSmall.v ===== *)
(** * ChampSim: prefetchers on a small cache

    A cache over the memory controller with each of the prefetchers: the theorems of
    [SimPrefetch], [SimAmpm] and [SimSppRun] at its states. *)

From stdpp Require Import base list gmap.
From S2P Require Import Prelude SimUtil SimQueue SimVmem SimRepl SimLru SimCache SimCacheSpec SimDram SimDramSpec SimMemory.
From S2P Require Import SimPrefetch SimSpp SimSppSpec SimSppRun SimAmpm.
Import Util Mem Delay Vmem Cache CacheSpec Prefetching LruOrder.
Local Open Scope Z_scope.
Local Open Scope c_scope.

Module SmallPrefetch.

#[local] Instance config : Config := {| BLOCK_SIZE := 64; PAGE_SIZE := 4096; NUM_CPUS := 1 |}.
#[local] Instance dram_config : DramConfig := {|
  DRAM_CHANNELS := 1; DRAM_RANKS := 1; DRAM_BANKS := 2; DRAM_ROWS := 16; DRAM_COLUMNS := 8;
  DRAM_WQ_SIZE := 4; DRAM_RQ_SIZE := 4; tRP := 2; tRCD := 2; tCAS := 2;
  DRAM_DBUS_TURN_AROUND_TIME := 1; DRAM_DBUS_RETURN_TIME := 1 |}.
#[local] Instance dram_ok : DramSpec.DramOk.
Proof.
  refine {| DramSpec.l_block := 6; DramSpec.l_channels := 0; DramSpec.l_banks := 1; DramSpec.l_columns := 3;
            DramSpec.l_ranks := 0; DramSpec.l_rows := 4 |}; try reflexivity; split; try split; try lia; done.
Defined.
#[local] Instance memory : LowerLevel Dram.MEMORY_CONTROLLER := Dram.dram_lower_level Nat.ltb Nat.eqb 1.
#[local] Instance memory_ok : LowerLevelOk Dram.MEMORY_CONTROLLER := Memory.dram_lower_level_ok Nat.ltb Nat.eqb 1.

(** Two sets of two ways and 32 miss registers. *)
Definition constants : params := mkParams 2 2 32 1 6 1 1 false false false 5 2 2.
Definition warm (cpu : Z) : bool := true.
Definition no_vmem : VirtualMemory := mkVM ∅ ∅ 0 0 5 4096 [].

Section Fresh.
Context {P : Type} (p : P).
Definition fresh : CACHE Lru.state P Dram.MEMORY_CONTROLLER := new_CACHE constants 0 4 4 4 1 (Some (Dram.new_MC 0)) Lru.mkLru p no_vmem.

Lemma fresh_ok : inv constants fresh.
Proof.
  destruct (Memory.new_MC_ok 0) as [Hm Hr].
  apply CacheSpec.new_CACHE_ok; [constructor; cbn; [exists 1%nat; split; [done|lia]|lia|lia|lia|lia]|exact Hm| |exact I|reflexivity].
  intros b (ws & Hin & _). rewrite Hr in Hin. by apply elem_of_nil in Hin.
Qed.
End Fresh.

(** ** Strides *)

(** Instruction 4096 at lines 100, 102 and 104. *)
Definition strided : IpStride.state :=
  IpStride.stride_update (Z.shiftl (100 + 2 * 2) LOG2_BLOCK_SIZE) 4096 3
    (IpStride.stride_update (Z.shiftl (100 + 2) LOG2_BLOCK_SIZE) 4096 2
      (IpStride.stride_update (Z.shiftl 100 LOG2_BLOCK_SIZE) 4096 1 IpStride.new_state)).

Lemma ip_stride_follows_witness :
  IpStride.lookahead strided = IpStride.mkLookahead 104 2 3 /\
  exists c', IpStride.ip_stride_cycle constants warm 0 (fresh strided) = Ret c' /\ inv constants c' /\
  (address <$> items (PQ c')) = [104 + 2 * 64].
Proof.
  destruct (IpStride.ip_stride_follows constants warm 0 4096 100 2 1 2 3 IpStride.new_state (fresh strided)) as [El (c' & E & Hi & _)];
    [reflexivity|done|lia|lia|lia|reflexivity|apply fresh_ok|reflexivity|vm_compute; discriminate|].
  split; [exact El|]. exists c'. split; [exact E|]. split; [exact Hi|].
  assert (match IpStride.ip_stride_cycle constants warm 0 (fresh strided) with Ret c => address <$> items (PQ c) | Abort _ => [] end = [104 + 2 * 64]) as Hq
    by (vm_compute; reflexivity).
  rewrite E in Hq. exact Hq.
Defined.

(** ** Access maps *)

Lemma ampm_page_silent_witness :
  exists s, Ampm.accesses constants warm 0 [(4096, 1); (4160, 2); (4224, 3)] (fresh Ampm.new_AMPM) = Ret (fresh Ampm.new_AMPM <| pref := s |>).
Proof.
  apply (Ampm.ampm_page_silent constants warm 0 1); [reflexivity|done|].
  repeat constructor.
Defined.

(** ** Signatures *)

Definition get {A} (d : A) (m : cres A) : A := match m with Ret x => x | Abort _ => d end.

(** The tables after an access to the line of the page. *)
Definition train (page line : Z) (s : Spp.SPP) : Spp.SPP :=
  let '(last_sig, _, delta, s) := get (0, 0, 0, s) (Spp.read_and_update_sig page line s) in
  if ztrue last_sig then s <| Spp.PT ::= fun t => get t (Spp.update_pattern last_sig delta t) |> else s.

Lemma train_ok page line s : SppSpec.spp_ok s -> SppSpec.spp_ok (train page line s).
Proof.
  intros [Hst Hpt Hf Hg]. unfold train.
  destruct (SppSpec.read_and_update_sig_ok page line s Hst) as (last & curr & d & s' & -> & Hst' & Ept & Ef & Eg & Hd). cbn [get].
  unfold ztrue. destruct (Z.eqb_spec last 0); cbn [negb]; [constructor; [done|by rewrite Ept|by rewrite Ef|by rewrite Eg]|].
  rewrite <- Ept in Hpt. destruct (SppSpec.update_pattern_ok last d (Spp.PT s') Hpt) as (t & E & Ht); [by apply Hd|].
  constructor; cbn; [done|by rewrite E|by rewrite Ef|by rewrite Eg].
Qed.

(** Twelve lines of page 5 in order. *)
Definition trained : Spp.SPP := foldl (fun s line => train 5 (Z.of_nat line) s) Spp.new_SPP (seq 0 12).

Lemma trained_ok : SppSpec.spp_ok trained.
Proof.
  unfold trained. generalize (seq 0 12). intros l. assert (SppSpec.spp_ok Spp.new_SPP) as H0 by apply SppSpec.new_SPP_ok.
  revert H0. generalize Spp.new_SPP. induction l as [|i l IH]; intros s Hs; [done|]. cbn. by apply IH, train_ok.
Qed.

Lemma spp_stays_in_page_witness :
  exists c', Spp.spp_operate constants warm 0 (5 * 4096 + 12 * 64) 1 false 0 7 (fresh trained) = Ret (7, c') /\ inv constants c' /\
  SppSpec.spp_ok (pref c') /\ (address <$> items (PQ c')) = [5 * 4096 + 13 * 64].
Proof.
  destruct (SppRun.spp_stays_in_page constants warm 0 (5 * 4096 + 12 * 64) 1 false 0 7 (fresh trained)) as (c' & E & _ & Hi & _ & Hs);
    [reflexivity|cbn; lia|apply fresh_ok|apply trained_ok|vm_compute; discriminate|vm_compute; discriminate|].
  exists c'. split; [exact E|]. split; [exact Hi|]. split; [exact Hs|].
  assert (match Spp.spp_operate constants warm 0 (5 * 4096 + 12 * 64) 1 false 0 7 (fresh trained) with
          | Ret (_, c) => address <$> items (PQ c) | Abort _ => [] end = [5 * 4096 + 13 * 64]) as Hq by (vm_compute; reflexivity).
  rewrite E in Hq. exact Hq.
Defined.
End SmallPrefetch.
